(* ===== verification/_CoqProject ===== *)
-Q . S2P
Prelude.v
BigNumMag.v
BigNumDiv.v
BigNumOps.v
BigNumText.v
Float64.v
Json.v
Probe.v
Values.v
MapTable.v
Dictionary.v
Utf8.v
Tokens.v
Lexer.v
CaseFold.v
RegexChars.v
RegexMatch.v
RegexSpec.v
RegexRefine.v
RegexRun.v
Types.v
Operators.v
Env.v
Refine.v
IfFlow.v
RegexClass.v
RegexParse.v
RegexReads.v
RegexCompile.v
Shapes.v
Objects.v
ObjectSteps.v
ObjectAdds.v
InlineCache.v
PropertyWrite.v
ObjectRuns.v
Il.v
IlBytes.v
IlSerialize.v
IlGraph.v
IlDominators.v
IlCfg.v
IlEffects.v
IlCheck.v
IlVerifier.v
IlSound.v
IlLicences.v
IlProofs.v
IlUnbox.v
IlModuleVerifier.v
DoubleArith.v
DateMath.v
DateParse.v
DateText.v
DateRoundtrip.v
DateZones.v
ExactDecimal.v
NumberText.v
BigNumDouble.v
Convert.v
Operate.v
