(* ===== verification/Prelude.v ===== *)
(** * A verification library for bronze

    bronze compiles JavaScript ahead of time and ships the runtime the compiled code
    needs.  This library models parts of both, file by file, and proves what each part
    promises its callers.  Definitions keep the source's names and its order of tests;
    data is as the source has it: a machine integer is a [Z] with its wrap-around
    written out ([u32], [u64], [s64] below), a vector is a list, a string is its list
    of bytes or of UTF-16 code units, a shared mutable object is a state that is
    threaded, a fallible operation answers an option, a sum or an error.

    ** The parts

    The runtime (src/src/runtime, src/src/json):
    - BigInt.  [BigNumMag] (limb vectors), [BigNumDiv] (Knuth's division), [BigNumOps]
      (class BigNum), [BigNumText] (parse, toString), all of bignum.cpp.  [val] maps a
      BigNum to its integer; every operation is the integer function, with the exact
      inputs on which it refuses; parse and toString undo each other.  [BigNumDouble] is
      the part of bignum.cpp that meets doubles: exact both ways, or rounded once, below the
      2^31 bits where the exponent leaves its int.
    - JSON text.  [Json] (json.cpp) over [Float64], the double as a [spec_float]; the
      recursive descent accepts exactly the grammar up to its depth limit.
    - Map and Set.  [Values] (value.h, string.cpp, the equalities of map.cpp), [Probe]
      (the open addressing shared with dictionary.cpp), [MapTable] (map.cpp).  The heap
      is an argument whose collector may move every object at each allocation; an index
      built before a collection is rebuilt before it is read.  [contents] is the ordered
      map the table refines.
    - Objects in dictionary mode.  [Dictionary] (dictionary.cpp): table, index, slots and
      free list refine an ordered property list; no two properties share a slot.
    - Hidden classes.  [Shapes] (shape.cpp): a thread's arena of shapes as a list; an
      addition appends one property and is shared by objects built alike, boxing a slot
      keeps the layout, watching a layout reaches all below it, and no operation changes
      what an existing shape describes.
    - Objects.  [Objects] (object.cpp, accessor.cpp, integrity.cpp, the conversions of
      dictionary.cpp and the marks of shape.cpp): a [World] is a thread's shapes and its
      heap objects; [own] is the property list of an object, in either mode.
      [ObjectSteps] and [ObjectAdds] prove each operation keeps [world_ok], does to the
      list of its object what it should, and leaves the walks that caches remember
      ([stable]).  A typed array has its length, which seal, freeze and the test of a level
      ask for.
    - Property access.  [InlineCache] (getProp, the entries and sites of object.h,
      rt_prop_absent.cpp) and [PropertyWrite] (setProp).  [ObjectRuns] puts the
      operations into one step relation, on machines of a world and the entries of the write
      sites: every run keeps the invariant, through whatever entries the sites have come to;
      a cached read is the read; a write without an entry, or with one whose recorded
      addition may stand, is OrdinarySet; and so on by property lists.

    - Dates.  [DoubleArith] is the arithmetic of doubles and the integers it is exact on,
      [DateMath] (date_math.cpp, date.h) the calendar, [DateParse] (date_parse.cpp) the two
      grammars of Date.parse, [DateText] (date_text.cpp) what is printed and the names of
      zones.  The fields of a time value are its calendar date; [DateRoundtrip] proves that
      what toISOString, toUTCString and toString print is read back, [DateZones] that
      the names resolveTimeZone answers are canonical.

    - Number text.  [ExactDecimal] (exact_decimal.cpp): the digits of a double times a power
      of ten, rounded once, on integers of any width, whose loops are those of [BigNumMag];
      [NumberText] (number_format.cpp, builtin_number_proto.cpp): what Number::toString and
      the members of Number.prototype print.

    - Conversions and operators.  [Convert] (rt_convert.cpp, bigint.cpp, builtin_bigint.cpp)
      and [Operate] (rt_numeric.cpp, rt_operator.cpp) are the abstract operations of the
      language in a monad of effects, [Eff]: a conversion of an object runs user code,
      which is an argument with a state of its own, and a throw ends what it is thrown
      in.  ToNumber of a string is the grammar of StringNumericLiteral; a comparison of
      numbers and BigInts is that of the rationals they are; both equalities and every
      conversion reach an answer or a throw.

    The front end (src/src/lex, src/src/types):
    - The lexer.  [Utf8] (lexer_utf8.h), [Tokens] (token.h), [Lexer] (lexer.cpp): it
      ends, its tokens tile the source, punctuation is the longest spelling, and the
      brace stack of template literals is what it should be.
    - Type inference.  [Types] (type.h, type.cpp): the joins as a lattice; [Operators]
      (operator_types.cpp): the type of a result describes it; [Env] (env.h, joinEnv):
      a sorted vector refines a finite map; [Refine] (relational_prover.cpp): what a
      condition proves holds of the store on each edge; [IfFlow] (ifStmt of
      flow_construct.cpp): the environment after an if describes the store.

    Regular expressions (src/src/regex):
    - [CaseFold] (unicode.cpp, unicode_data_scf.cpp) and [RegexChars] (chars.cpp): range
      lists, decoders, Canonicalize and its inverse.
    - The parser.  [RegexClass] (parser_class.cpp and the escapes of parser.cpp),
      [RegexParse] (parser.cpp); [RegexReads] and [RegexCompile] prove that compiling
      answers, that the pre-scan and the descent agree on the groups, and that the tree
      is well formed in the sense the matcher's theorems ask for.
    - The matcher.  [RegexMatch] (matcher.cpp) as a state monad with the continuations
      as data; [RegexSpec] gives a pattern its meaning without either, [RegexRefine] and
      [RegexRun] show that the matcher computes its first outcome.

    The intermediate language (src/src/il):
    - The data.  [Il] (il.h, il_op.h): operations, instructions, blocks, functions and
      modules, every field of each.
    - The code cache.  [IlBytes] (Writer and Reader of serialize.cpp) and [IlSerialize]:
      what is written is read back, but for the fields the format leaves out; a file cut
      short is refused.
    - Control flow.  [IlGraph] (the depth-first search), [IlDominators] (Cooper, Harvey
      and Kennedy's iteration), [IlCfg] (the edges): the iteration ends, and what it
      answers is dominance over paths.
    - The verifier.  [IlCheck] is what a check answers, [IlVerifier] and [IlProofs]
      (verifier.cpp, verifier_proofs.cpp) verify a function, [IlModuleVerifier]
      (verifier.cpp, verifier_typed_entry.cpp, feedback_site.cpp) a module, over
      [IlEffects] (effects.cpp).  [IlSound] runs functions on a machine of types: a
      verified one reads only what is defined, and is never stuck.  [IlLicences] and
      [IlUnbox] say what acceptance of a builder, of closure.env and of an unchecked
      unbox means for the paths of the function.

    ** How the parts meet

    [Json] reads numbers through [Float64.strtod]; [MapTable] and [Dictionary] both
    search through [Probe]; [DateParse] and [DateText] compute on [DateMath], and that on
    [DoubleArith], as do [ExactDecimal], [NumberText] and [BigNumDouble], over which
    [Convert] and [Operate] are written; [Lexer] decodes through [Utf8]; [IfFlow] composes [Refine],
    [Env] and [Types]; [Objects] is built on the tree of [Shapes] and the table of
    [Dictionary], whose [Property] lists [own] speaks in, and [InlineCache] and
    [PropertyWrite] on [Objects]; [RegexParse.compile] produces the [Pattern] that
    [RegexMatch.search] runs, and [RegexCompile.compile_well_formed] discharges the
    hypothesis [pattern_ok] of the theorems of [RegexRun].  [IlVerifier], [IlProofs] and
    [IlModuleVerifier] check what [Il] holds through the dominators of [IlCfg]; block and
    instruction numbers are [nat] there, since a vector's index is below 2^32.

    ** Fuel and bounds

    Loops and recursions that are not structural take fuel.  The lack of it is [None], as in
    [while_run], and each has a theorem that the fuel its caller gives is enough; the plain
    [while] cuts a loop off, and the theorem of its result says that it left through its
    condition.  The parsers and the lexer give a multiple of the length of their text, since
    every turn or descent reads a character, and so do the inner loops of the scanners of the
    lexer and of Date.parse, whose [None] [lex_total] and [parse_ends] exclude; the division loops give the number of limbs; the probe gives the
    number of cells, one of which is empty; a walk up the prototypes has the source's own
    bound, kMaxPrototypeDepth (1,000 links); the matcher gives the explicit [enough_fuel]
    of RegexRefine, the dominator iteration a pass for each step an entry can climb (the
    square of the number of blocks), a variable-length integer its ten bytes, the walk over
    the uses of an unbox a turn for each value of the function, the loop of Date.parse a turn for each
    byte of its text, the two corrections of a year one turn each ([year_fuel_enough], on
    the times a time value and a zone can make), the digits of an exact number a turn for each bit, the
    search for an exponent the source's own eight, as loose equality its eight passes; the one loop without such a theorem is
    that of the digits of a fraction in a radix that is no power of two, which is given 1,100
    turns; beside the source's own limits (20,000,000 steps, 2,000 frames, 256
    nested groups in the parser), which are modelled as the answer "gave up" or a
    refusal.

    ** What is an argument

    The heap's allocator and collector (MapTable, Values), the walks of the branches of
    an if (IfFlow), the addresses of symbols, whether filling a cache is suppressed and
    which keys may have a double slot (Objects and after), the layout of classes (IfFlow), the Unicode property tables
    (RegexClass), localtime and gmtime of the host (DateMath and after) and its zone database
    (DateText), std::to_chars of a double and std::log10 (NumberText), reading a property
    and calling a function (the class [Runtime] of Convert) and std::pow (Operate) are
    arguments; each theorem states what it asks of them, and its witness gives concrete
    ones.

    ** Not modelled

    The language parser, lowering, the optimiser, the checker, the back end, the printed
    form of the IL, the text of its diagnostics, the embedding API and the command line; in the runtime the collector itself, the
    built-in methods but those named above and the job queue; the native plan of a
    regular expression.  Of the parts modelled: instanceof and in, the boxing of values,
    the weak tables, property access by other kinds of receiver than an ordinary object
    (rt_prop*.cpp), the notes of the global object's cells, diagnostics and file ids of the lexer beyond their presence, the
    rest of the flow analyzer.

    The reasons: the collector and the coroutine switch are raw memory and machine code;
    lowering, the optimiser and the checker need a semantics of the values of the IL, which
    the source gives only through the back end, and that is another project's (the machine
    of [IlSound] runs on types alone); the built-in methods
    call user code at every step; the rest of the runtime's arithmetic is next. *)
From Stdlib Require Export ZArith Lia.
From Stdlib Require Export Ascii String.
From stdpp Require Export base tactics numbers option list.

(** ** Scope and notations of the development *)

Declare Scope bronze_scope.
Delimit Scope bronze_scope with bronze.

(** [std::vector::operator[]] on a vector of machine integers.  Every use in
    the sources is guarded by a size test, and the theorems that rely on one
    prove the index in range; [0] stands for the undefined result outside. *)
Definition limb (l : list Z) (i : nat) : Z := default 0%Z (l !! i).
Notation "l .[ i ]" := (limb l i) (at level 1, left associativity, format "l .[ i ]") : bronze_scope.

(** The early return of a fallible operation. *)
Notation "'let?' x := e 'in' k" :=
  (match e with Some x => k | None => None end)
    (at level 10, x pattern, e at level 100, k at level 200) : bronze_scope.

#[global] Open Scope bronze_scope.
#[global] Open Scope Z_scope.

(** ** Machine integers *)

(** Conversions to the unsigned types: reduction modulo the width. *)
Definition u16 (z : Z) : Z := z mod 2 ^ 16.
Definition u32 (z : Z) : Z := z mod 2 ^ 32.
Definition u64 (z : Z) : Z := z mod 2 ^ 64.
(** Conversion to [int64_t]: two's complement. *)
Definition s64 (z : Z) : Z := (z + 2 ^ 63) mod 2 ^ 64 - 2 ^ 63.

Lemma u32_small z : 0 <= z < 2 ^ 32 -> u32 z = z.
Proof. apply Z.mod_small. Qed.

Lemma u64_small z : 0 <= z < 2 ^ 64 -> u64 z = z.
Proof. apply Z.mod_small. Qed.

Lemma u32_range z : 0 <= u32 z < 2 ^ 32.
Proof. apply Z.mod_pos_bound. lia. Qed.

Lemma u64_range z : 0 <= u64 z < 2 ^ 64.
Proof. apply Z.mod_pos_bound. lia. Qed.

Lemma s64_small z : - 2 ^ 63 <= z < 2 ^ 63 -> s64 z = z.
Proof. intros H. unfold s64. rewrite Z.mod_small; lia. Qed.

(** The low half and the high half of a 64-bit value. *)
Lemma u32_shr32_split z : u32 z + 2 ^ 32 * Z.shiftr z 32 = z.
Proof.
  unfold u32. rewrite Z.shiftr_div_pow2 by lia.
  pose proof (Z.div_mod z (2 ^ 32) ltac:(lia)). lia.
Qed.

Lemma shr32_range z : 0 <= z < 2 ^ 64 -> 0 <= Z.shiftr z 32 < 2 ^ 32.
Proof.
  intros H. rewrite Z.shiftr_div_pow2 by lia. split.
  - apply Z.div_pos; lia.
  - apply Z.div_lt_upper_bound; lia.
Qed.

(** The bits of a number below a power of two stop there. *)
Lemma testbit_above a k n : 0 <= a < 2 ^ k -> 0 <= k <= n -> Z.testbit a n = false.
Proof.
  intros Ha Hn. rewrite <- (Z.mod_small a (2 ^ k)) by lia.
  by rewrite Z.mod_pow2_bits_high by lia.
Qed.

Lemma land_shiftl_low hi lo k : 0 <= lo < 2 ^ k -> 0 <= k -> Z.land (Z.shiftl hi k) lo = 0.
Proof.
  intros Hlo Hk. apply Z.bits_inj'. intros n Hn.
  rewrite Z.land_spec, Z.bits_0, Z.shiftl_spec by lia.
  destruct (Z.lt_ge_cases n k).
  - by rewrite (Z.testbit_neg_r hi) by lia.
  - rewrite (testbit_above lo k) by lia. by rewrite andb_false_r.
Qed.

(** A shifted-in low part is an addition when it fits below the shift. *)
Lemma lor_shiftl_add hi lo k :
  0 <= lo < 2 ^ k -> 0 <= k -> Z.lor (Z.shiftl hi k) lo = hi * 2 ^ k + lo.
Proof.
  intros Hlo Hk. pose proof (Z.add_lor_land (Z.shiftl hi k) lo) as E.
  rewrite land_shiftl_low in E by lia. rewrite Z.shiftl_mul_pow2 in * by lia. lia.
Qed.

(** ** Loops *)

(** [for (i = lo; i < lo + n; ++i) s = body(i, s);] *)
Fixpoint for_up {S : Type} (n lo : nat) (body : nat -> S -> S) (s : S) : S :=
  match n with
  | O => s
  | Datatypes.S n' => for_up n' (Datatypes.S lo) body (body lo s)
  end.

(** [for (i = n; i-- > 0;) s = body(i, s);] *)
Fixpoint for_down {S : Type} (n : nat) (body : nat -> S -> S) (s : S) : S :=
  match n with
  | O => s
  | Datatypes.S n' => for_down n' body (body n' s)
  end.

(** [while (cond(s)) s = body(s);], cut off after [fuel] turns. *)
Fixpoint while {S : Type} (fuel : nat) (cond : S -> bool) (body : S -> S) (s : S) : S :=
  match fuel with
  | O => s
  | Datatypes.S fuel' => if cond s then while fuel' cond body (body s) else s
  end.

(** The same loop where running out of turns is told apart: [None] when [fuel] turns do
    not bring it to its end. *)
Fixpoint while_run {S : Type} (fuel : nat) (cond : S -> bool) (body : S -> S) (s : S) : option S :=
  if cond s then match fuel with O => None | Datatypes.S fuel' => while_run fuel' cond body (body s) end else Some s.

(** A run that comes to an end, with a result of which [P] holds. *)
Definition returns {A} (P : A -> Prop) (o : option A) : Prop := exists x, o = Some x /\ P x.

Lemma returns_some {A} (P : A -> Prop) x : P x -> returns P (Some x).
Proof. by exists x. Qed.

Lemma returns_bind {A B} (P : A -> Prop) (Q : B -> Prop) o (k : A -> option B) :
  returns P o -> (forall x, P x -> returns Q (k x)) -> returns Q (let? x := o in k x).
Proof. intros (x & -> & H) Hk. by apply Hk. Qed.

Lemma returns_mono {A} (P Q : A -> Prop) o : returns P o -> (forall x, P x -> Q x) -> returns Q o.
Proof. intros (x & -> & H) HQ. exists x. auto. Qed.

Lemma for_up_inv {S} (P : nat -> S -> Prop) (body : nat -> S -> S) n lo s :
  P lo s ->
  (forall i s', (lo <= i < lo + n)%nat -> P i s' -> P (Datatypes.S i) (body i s')) ->
  P (lo + n)%nat (for_up n lo body s).
Proof.
  revert lo s. induction n as [|n IH]; intros lo s H0 Hstep; cbn.
  - by rewrite Nat.add_0_r.
  - rewrite <- Nat.add_succ_comm. apply IH.
    + apply Hstep; [lia|done].
    + intros i s' Hi. apply Hstep. lia.
Qed.

Lemma for_down_inv {S} (P : nat -> S -> Prop) (body : nat -> S -> S) n s :
  P n s ->
  (forall i s', (i < n)%nat -> P (Datatypes.S i) s' -> P i (body i s')) ->
  P O (for_down n body s).
Proof.
  revert s. induction n as [|n IH]; intros s H0 Hstep; cbn; [done|].
  apply IH.
  - apply Hstep; [lia|done].
  - intros i s' Hi. apply Hstep. lia.
Qed.

(** A loop whose measure drops every turn, with fuel above the measure, keeps
    its invariant and exits through its condition. *)
Lemma while_inv {S} (P : S -> Prop) (m : S -> nat) fuel cond (body : S -> S) s :
  P s ->
  (forall s', P s' -> cond s' = true -> P (body s') /\ (m (body s') < m s')%nat) ->
  (m s < fuel)%nat ->
  P (while fuel cond body s) /\ cond (while fuel cond body s) = false.
Proof.
  revert s. induction fuel as [|fuel IH]; intros s H0 Hstep Hm; [lia|]. cbn.
  destruct (cond s) eqn:E; [|done].
  destruct (Hstep s H0 E). apply IH; [done|done|lia].
Qed.

(** The loop that ends is the loop that is cut off. *)
Lemma while_run_end {S} fuel cond (body : S -> S) s :
  cond (while fuel cond body s) = false -> while_run fuel cond body s = Some (while fuel cond body s).
Proof.
  revert s. induction fuel as [|fuel IH]; intros s; cbn; intros H; [by rewrite H|].
  destruct (cond s); [by apply IH|done].
Qed.

(** A loop whose measure drops every turn comes to its end. *)
Lemma while_run_inv {S} (P : S -> Prop) (m : S -> nat) fuel cond (body : S -> S) s :
  P s ->
  (forall s', P s' -> cond s' = true -> P (body s') /\ (m (body s') < m s')%nat) ->
  (m s < fuel)%nat ->
  returns (fun s' => P s' /\ cond s' = false) (while_run fuel cond body s).
Proof.
  intros H0 Hstep Hm. destruct (while_inv P m fuel cond body s H0 Hstep Hm) as [HP Hc].
  rewrite while_run_end by done. by apply returns_some.
Qed.

Lemma while_run_true {S} n cond (body : S -> S) s :
  cond s = true -> while_run (Datatypes.S n) cond body s = while_run n cond body (body s).
Proof. cbn. by intros ->. Qed.

Lemma while_run_false {S} n cond (body : S -> S) s :
  cond s = false -> while_run n cond body s = Some s.
Proof. destruct n; cbn; by intros ->. Qed.

Lemma while_true {S} n cond (body : S -> S) s :
  cond s = true -> while (Datatypes.S n) cond body s = while n cond body (body s).
Proof. cbn. by intros ->. Qed.

Lemma while_false {S} n cond (body : S -> S) s :
  cond s = false -> while n cond body s = s.
Proof. destruct n; cbn; [done|]. by intros ->. Qed.

(** More fuel changes nothing once the loop has exited. *)
Lemma while_more {S} fuel k cond (body : S -> S) s :
  cond (while fuel cond body s) = false ->
  while (fuel + k) cond body s = while fuel cond body s.
Proof.
  revert s. induction fuel as [|fuel IH]; intros s; cbn; intros H.
  - destruct k; cbn; [done|]. by rewrite H.
  - destruct (cond s); [by apply IH|done].
Qed.

(** ** Text *)

(** A [std::string] or [std::string_view] as its bytes, 0 to 255. *)
Definition byte_of (c : ascii) : Z := Z.of_N (N_of_ascii c).
Definition bytes (s : string) : list Z := map byte_of (list_ascii_of_string s).

(** ** Lists *)

(** [v.empty()] *)
Definition empty {A} (l : list A) : bool := match l with [] => true | _ => false end.

Lemma empty_spec {A} (l : list A) : if empty l then l = [] else (0 < length l)%nat.
Proof. destruct l; cbn; [done|lia]. Qed.

Lemma limb_lookup l i x : l !! i = Some x -> l.[i] = x.
Proof. unfold limb. by intros ->. Qed.

Lemma limb_ge l i : (length l <= i)%nat -> l.[i] = 0.
Proof. intros H. unfold limb. by rewrite lookup_ge_None_2. Qed.

Lemma limb_lookup_lt l i : (i < length l)%nat -> l !! i = Some l.[i].
Proof. intros [x Hx]%lookup_lt_is_Some_2. by rewrite Hx, (limb_lookup _ _ _ Hx). Qed.

Lemma limb_insert_eq l i x : (i < length l)%nat -> (<[i:=x]> l).[i] = x.
Proof. intros H. unfold limb. by rewrite list_lookup_insert_eq. Qed.

Lemma limb_insert_ne l i j x : i <> j -> (<[i:=x]> l).[j] = l.[j].
Proof. intros H. unfold limb. by rewrite list_lookup_insert_ne. Qed.

Lemma take_S_limb l i : (i < length l)%nat -> take (S i) l = take i l ++ [l.[i]].
Proof. intros H. apply take_S_r. by apply limb_lookup_lt. Qed.

Lemma Forall_limb (P : Z -> Prop) l i : P 0 -> Forall P l -> P l.[i].
Proof.
  intros H0 HF. unfold limb. destruct (l !! i) eqn:E; cbn; [|done].
  rewrite Forall_lookup in HF. by eapply HF.
Qed.

Lemma limb_ext (l k : list Z) :
  length l = length k -> (forall i, (i < length l)%nat -> l.[i] = k.[i]) -> l = k.
Proof.
  intros Hlen H. apply list_eq. intros i.
  destruct (Nat.lt_ge_cases i (length l)).
  - rewrite !limb_lookup_lt by lia. f_equal. by apply H.
  - by rewrite !lookup_ge_None_2 by lia.
Qed.

Create HintDb bronze discriminated.
Create Rewrite HintDb bronze.
#[export] Hint Rewrite @length_app @length_insert @length_take @length_drop @length_replicate : bronze.
#[export] Hint Resolve u32_range u64_range shr32_range : bronze.

(** Case analysis on the boolean tests of the code, into the arithmetic facts. *)
Ltac zbool :=
  repeat match goal with
  | H : context [?a =? ?b] |- _ => destruct (Z.eqb_spec a b)
  | H : context [?a <? ?b] |- _ => destruct (Z.ltb_spec a b)
  | H : context [?a <=? ?b] |- _ => destruct (Z.leb_spec a b)
  | |- context [?a =? ?b] => destruct (Z.eqb_spec a b)
  | |- context [?a <? ?b] => destruct (Z.ltb_spec a b)
  | |- context [?a <=? ?b] => destruct (Z.leb_spec a b)
  end.

(** [lia] on goals with divisions and remainders. *)
Ltac dlia := Z.to_euclidean_division_equations; lia.

(** The routine goals of a loop invariant: lengths, widths and bounds. *)
Ltac loop_split :=
  cbn beta iota zeta; split_and!; autorewrite with bronze; cbn [length]; auto with bronze; try lia.
