(* ===== verification/BigNumMag.v ===== *)
(** * Magnitudes: the limb vectors under [BigNum]

    [src/src/runtime/bignum.cpp] keeps a magnitude as a little-endian
    [std::vector<uint32_t>] whose top limb is never zero.  This file translates
    the magnitude routines loop by loop ([Module Mag]), with [mval] the number a
    vector stands for, [limbs_ok] the width of its limbs and [top_ok] its
    normal form; the lemmas say that each routine computes the number it means
    and restores the normal form. *)
From S2P Require Import Prelude.

(** ** The value of a limb vector *)

(** [constexpr uint64_t kBase = 1ULL << 32;] *)
Definition kBase : Z := Z.shiftl 1 32.

Lemma kBase_eq : kBase = 2 ^ 32. Proof. reflexivity. Qed.

Fixpoint mval (l : list Z) : Z :=
  match l with
  | [] => 0
  | d :: l' => d + kBase * mval l'
  end.

Definition limb_ok (d : Z) : Prop := 0 <= d < 2 ^ 32.
Definition limbs_ok (l : list Z) : Prop := Forall limb_ok l.
(** The top limb is not zero, and zero is the empty vector. *)
Definition top_ok (l : list Z) : Prop := last l <> Some 0.
Definition mag_ok (l : list Z) : Prop := limbs_ok l /\ top_ok l.

(** ** The routines *)

(** [while (!mag.empty() && mag.back() == 0) mag.pop_back();]: the longest
    prefix whose top limb is not zero. *)
Fixpoint pop_zeros (l : list Z) : list Z :=
  match l with
  | [] => []
  | d :: l' =>
      match pop_zeros l' with
      | [] => if d =? 0 then [] else [d]
      | k => d :: k
      end
  end.

Definition limbBits (v : Z) : Z :=
  fst (while 33 (fun '(n, v) => negb (v =? 0))
                (fun '(n, v) => (u32 (n + 1), Z.shiftr v 1)) (0, v)).

(** [mag = mag * multiplier + addend], in place. *)
Definition mulAddSmall (mag : list Z) (multiplier addend : Z) : list Z :=
  let '(mag, carry) :=
    for_up (length mag) 0 (fun i '(mag, carry) =>
      let product := u64 (mag.[i] * multiplier + carry) in
      (<[i := u32 product]> mag, Z.shiftr product 32)) (mag, addend) in
  fst (while 3 (fun '(mag, carry) => negb (carry =? 0))
               (fun '(mag, carry) => (mag ++ [u32 carry], Z.shiftr carry 32))
               (mag, carry)).

(** [mag /= divisor]: the quotient left in place and the remainder. *)
Definition divModSmall (mag : list Z) (divisor : Z) : list Z * Z :=
  let '(mag, rem) :=
    for_down (length mag) (fun i '(mag, rem) =>
      let cur := Z.lor (u64 (Z.shiftl rem 32)) mag.[i] in
      (<[i := u32 (cur / divisor)]> mag, cur mod divisor)) (mag, 0) in
  (pop_zeros mag, u32 rem).

Fixpoint compareMagnitude_from (i : nat) (a b : list Z) : Z :=
  match i with
  | O => 0
  | S i =>
      if negb (a.[i] =? b.[i]) then if a.[i] <? b.[i] then -1 else 1
      else compareMagnitude_from i a b
  end.

Definition compareMagnitude (a b : list Z) : Z :=
  if negb (length a =? length b)%nat
  then if (length a <? length b)%nat then -1 else 1
  else compareMagnitude_from (length a) a b.

Definition addMagnitude (a b : list Z) : list Z :=
  let n := Nat.max (length a) (length b) in
  let '(out, carry) :=
    for_up n 0 (fun i '(out, carry) =>
      let sum := u64 ((if (i <? length a)%nat then a.[i] else 0)
                      + (if (i <? length b)%nat then b.[i] else 0) + carry) in
      (out ++ [u32 sum], Z.shiftr sum 32)) ([], 0) in
  if negb (carry =? 0) then out ++ [u32 carry] else out.

Definition subMagnitude (a b : list Z) : list Z :=
  let '(out, borrow) :=
    for_up (length a) 0 (fun i '(out, borrow) =>
      let diff := a.[i] - (if (i <? length b)%nat then b.[i] else 0) - borrow in
      let '(diff, borrow) := if diff <? 0 then (diff + s64 kBase, 1) else (diff, 0) in
      (out ++ [u32 diff], borrow)) ([], 0) in
  pop_zeros out.

(** The inner pass of [mulMagnitude]: [out += ai * b << (32 * i)] over the
    limbs of [b], then the carry. *)
Definition mulMagnitude_row (b : list Z) (i : nat) (ai : Z) (out : list Z) : list Z :=
  let '(out, carry) :=
    for_up (length b) 0 (fun j '(out, carry) =>
      let cur := u64 (out.[(i + j)%nat] + u64 (ai * b.[j]) + carry) in
      (<[(i + j)%nat := u32 cur]> out, Z.shiftr cur 32)) (out, 0) in
  fst (fst (while (S (S (length out)))
    (fun '(out, carry, k) => negb (carry =? 0))
    (fun '(out, carry, k) =>
      let cur := u64 (out.[k] + carry) in
      (<[k := u32 cur]> out, Z.shiftr cur 32, S k))
    (out, carry, (i + length b)%nat))).

Definition mulMagnitude (a b : list Z) : list Z :=
  if empty a || empty b then []
  else
    pop_zeros
      (for_up (length a) 0 (fun i out =>
         let ai := a.[i] in
         if ai =? 0 then out else mulMagnitude_row b i ai out)
       (replicate (length a + length b) 0)).

Definition shiftLeftBits (a : list Z) (bits : Z) : list Z :=
  if empty a then []
  else
    let limbShift := Z.to_nat (bits / 32) in
    let bitShift := u32 (bits mod 32) in
    pop_zeros
      (for_up (length a) 0 (fun i out =>
         let shifted := u64 (Z.shiftl a.[i] bitShift) in
         let out := <[(i + limbShift)%nat :=
                        Z.lor out.[(i + limbShift)%nat] (u32 shifted)]> out in
         <[(i + limbShift + 1)%nat :=
             Z.lor out.[(i + limbShift + 1)%nat] (u32 (Z.shiftr shifted 32))]> out)
       (replicate (length a + limbShift + 1) 0)).

(** The shifted magnitude and [lostBits]. *)
Definition shiftRightBits (a : list Z) (bits : Z) : list Z * bool :=
  let limbShift64 := bits / 32 in
  if Z.of_nat (length a) <=? limbShift64
  then ([], existsb (fun limb => negb (limb =? 0)) a)
  else
    let limbShift := Z.to_nat limbShift64 in
    let bitShift := u32 (bits mod 32) in
    let lostBits :=
      for_up limbShift 0 (fun i lost => if negb (a.[i] =? 0) then true else lost) false in
    let lostBits :=
      if negb (bitShift =? 0) && negb (u32 (Z.shiftl a.[limbShift] (32 - bitShift)) =? 0)
      then true else lostBits in
    let out :=
      for_up (length a - limbShift) 0 (fun i out =>
        let value := Z.shiftr a.[(i + limbShift)%nat] bitShift in
        let value :=
          if negb (bitShift =? 0) && (i + limbShift + 1 <? length a)%nat
          then Z.lor value (u64 (Z.shiftl a.[(i + limbShift + 1)%nat] (32 - bitShift)))
          else value in
        <[i := u32 value]> out) (replicate (length a - limbShift) 0) in
    (pop_zeros out, lostBits).

(** ** Facts about values *)

(** [kBase ^ i], the weight of limb [i]. *)
Definition wt (i : nat) : Z := kBase ^ Z.of_nat i.

Lemma wt_0 : wt 0 = 1. Proof. reflexivity. Qed.

Lemma wt_S i : wt (S i) = kBase * wt i.
Proof. unfold wt. rewrite Nat2Z.inj_succ, Z.pow_succ_r; lia. Qed.

Lemma wt_add i j : wt (i + j) = wt i * wt j.
Proof. unfold wt. rewrite Nat2Z.inj_add, Z.pow_add_r; lia. Qed.

Lemma wt_pos i : 0 < wt i.
Proof. unfold wt. apply Z.pow_pos_nonneg; [reflexivity|lia]. Qed.

Lemma wt_le i j : (i <= j)%nat -> wt i <= wt j.
Proof. intros H. unfold wt. apply Z.pow_le_mono_r; [reflexivity|lia]. Qed.

Lemma wt_pow2 i : wt i = 2 ^ (32 * Z.of_nat i).
Proof. unfold wt. rewrite kBase_eq, <- Z.pow_mul_r by lia. done. Qed.

Lemma mval_app l k : mval (l ++ k) = mval l + wt (length l) * mval k.
Proof.
  induction l as [|d l IH]; cbn [app mval length].
  - rewrite wt_0. lia.
  - rewrite IH, wt_S. lia.
Qed.

Lemma mval_snoc l d : mval (l ++ [d]) = mval l + wt (length l) * d.
Proof. rewrite mval_app. cbn [mval]. lia. Qed.

Lemma mval_take_S l i : mval (take (S i) l) = mval (take i l) + wt i * l.[i].
Proof.
  destruct (decide (i < length l)%nat).
  - rewrite take_S_limb, mval_snoc, length_take by done. by rewrite Nat.min_l by lia.
  - rewrite limb_ge, !take_ge by lia. lia.
Qed.

Lemma mval_drop l i : mval l = mval (take i l) + wt i * mval (drop i l).
Proof.
  destruct (decide (i <= length l)%nat).
  - rewrite <- (take_drop i l) at 1. rewrite mval_app, length_take.
    by rewrite Nat.min_l by lia.
  - rewrite take_ge, drop_ge by lia. cbn. lia.
Qed.

Lemma mval_drop_S l i : mval (drop i l) = l.[i] + kBase * mval (drop (S i) l).
Proof.
  destruct (decide (i < length l)%nat) as [Hi|].
  - by rewrite (drop_S _ _ _ (limb_lookup_lt l i Hi)).
  - rewrite limb_ge, !drop_ge by lia. reflexivity.
Qed.

Lemma mval_insert l i x :
  (i < length l)%nat -> mval (<[i:=x]> l) = mval l + wt i * (x - l.[i]).
Proof.
  intros Hi. rewrite (mval_drop l (S i)), (mval_drop (<[i:=x]> l) (S i)).
  rewrite drop_insert_lt by lia. rewrite !mval_take_S.
  rewrite take_insert_ge by lia. rewrite limb_insert_eq by done. ring.
Qed.

Lemma mval_zeros n : mval (replicate n 0) = 0.
Proof. induction n; cbn; lia. Qed.

Lemma limb_zeros n k : (replicate n 0).[k] = 0.
Proof. apply (Forall_limb (fun x => x = 0)); [done|]. by apply Forall_replicate. Qed.

Lemma limb_ok_0 : limb_ok 0. Proof. split; lia. Qed.
Lemma limb_ok_u32 z : limb_ok (u32 z). Proof. apply u32_range. Qed.
Lemma limbs_ok_nil : limbs_ok []. Proof. constructor. Qed.
Lemma limbs_ok_app l k : limbs_ok l -> limbs_ok k -> limbs_ok (l ++ k).
Proof. intros. by apply Forall_app. Qed.
Lemma limbs_ok_snoc l d : limbs_ok l -> limb_ok d -> limbs_ok (l ++ [d]).
Proof. intros. apply limbs_ok_app; [done|]. by constructor. Qed.
Lemma limbs_ok_insert l i d : limbs_ok l -> limb_ok d -> limbs_ok (<[i:=d]> l).
Proof. intros. by apply Forall_insert. Qed.
Lemma limbs_ok_zeros n : limbs_ok (replicate n 0).
Proof. apply Forall_replicate, limb_ok_0. Qed.
Lemma limbs_ok_take n l : limbs_ok l -> limbs_ok (take n l).
Proof. apply Forall_take. Qed.
Lemma limbs_ok_drop n l : limbs_ok l -> limbs_ok (drop n l).
Proof. apply Forall_drop. Qed.
Lemma limb_range l i : limbs_ok l -> 0 <= l.[i] < 2 ^ 32.
Proof. intros H. apply (Forall_limb limb_ok); [apply limb_ok_0|done]. Qed.
Lemma limb_nonneg l i : limbs_ok l -> 0 <= l.[i].
Proof. intros H. apply (limb_range l i H). Qed.

#[export] Hint Resolve limb_ok_0 limb_ok_u32 limbs_ok_nil limbs_ok_app limbs_ok_snoc
  limbs_ok_insert limbs_ok_zeros limbs_ok_take limbs_ok_drop limb_range limb_nonneg : bronze.

Lemma mval_bound l : limbs_ok l -> 0 <= mval l < wt (length l).
Proof.
  induction 1 as [|d l [? ?] _ IH]; cbn [mval length].
  - rewrite wt_0. lia.
  - rewrite wt_S, kBase_eq in *. nia.
Qed.

Lemma mval_nonneg l : limbs_ok l -> 0 <= mval l.
Proof. intros H. apply (mval_bound l H). Qed.

(** A normalized vector is zero only when it is empty, and reaches the weight of
    its top limb otherwise. *)
Lemma mval_top_bound l d : limbs_ok l -> last l = Some d -> d <> 0 ->
  wt (length l - 1) <= mval l.
Proof.
  intros Hl [k ->]%last_Some Hd. rewrite mval_snoc. autorewrite with bronze. cbn.
  rewrite Nat.add_sub. apply Forall_app in Hl as [Hk Hd'].
  apply Forall_singleton in Hd' as [??]. pose proof (mval_nonneg k Hk).
  pose proof (wt_pos (length k)). nia.
Qed.

Lemma mval_zero_iff l : mag_ok l -> mval l = 0 <-> l = [].
Proof.
  intros [Hl Ht]. split; [|by intros ->].
  destruct (last l) as [d|] eqn:E.
  - unfold top_ok in Ht. rewrite E in Ht.
    pose proof (mval_top_bound l d Hl E ltac:(congruence)).
    pose proof (wt_pos (length l - 1)). lia.
  - intros _. by apply last_None.
Qed.

(** Two vectors of one length with one value are one vector. *)
Lemma mval_inj_len l k :
  limbs_ok l -> limbs_ok k -> length l = length k -> mval l = mval k -> l = k.
Proof.
  intros Hl. revert k. induction Hl as [|d l [? ?] _ IH]; intros [|e k] Hk Hlen Hv;
    try discriminate; [done|].
  apply Forall_cons in Hk as [[? ?] Hk]. cbn [mval length] in *. rewrite kBase_eq in *.
  assert (d = e /\ mval l = mval k) as [-> Hv'] by lia.
  f_equal. apply IH; [done|lia|done].
Qed.

(** The value decides the length of a normalized vector. *)
Lemma mag_len_lt l k :
  mag_ok l -> mag_ok k -> (length l < length k)%nat -> mval l < mval k.
Proof.
  intros [Hl _] [Hk Ht] Hlen. pose proof (mval_bound l Hl).
  destruct (last k) as [d|] eqn:E.
  - unfold top_ok in Ht. rewrite E in Ht.
    pose proof (mval_top_bound k d Hk E ltac:(congruence)).
    pose proof (wt_le (length l) (length k - 1) ltac:(lia)). lia.
  - apply last_None in E as ->. cbn in Hlen. lia.
Qed.

Lemma mval_inj l k : mag_ok l -> mag_ok k -> mval l = mval k -> l = k.
Proof.
  intros Hl Hk Hv. apply mval_inj_len; [apply Hl|apply Hk| |done].
  destruct (Nat.lt_trichotomy (length l) (length k)) as [Hlt|[?|Hlt]]; [|done|].
  - pose proof (mag_len_lt l k Hl Hk Hlt). lia.
  - pose proof (mag_len_lt k l Hk Hl Hlt). lia.
Qed.

(** ** Normalization and the small routines *)

Lemma pop_zeros_mval l : mval (pop_zeros l) = mval l.
Proof.
  induction l as [|d l IH]; cbn; [done|].
  destruct (pop_zeros l); cbn in *; [|lia].
  destruct (Z.eqb_spec d 0); cbn; lia.
Qed.

Lemma pop_zeros_ok l : limbs_ok l -> limbs_ok (pop_zeros l).
Proof.
  induction 1 as [|d l Hd Hl IH]; cbn; [constructor|].
  destruct (pop_zeros l); [case_match; [constructor|]|]; by constructor.
Qed.

Lemma pop_zeros_top l : top_ok (pop_zeros l).
Proof.
  unfold top_ok. induction l as [|d l IH]; cbn; [done|].
  destruct (pop_zeros l) as [|e k]; [|done].
  destruct (Z.eqb_spec d 0); cbn; congruence.
Qed.

Lemma pop_zeros_length l : (length (pop_zeros l) <= length l)%nat.
Proof.
  induction l as [|d l IH]; cbn; [lia|].
  destruct (pop_zeros l); [destruct (d =? 0)|]; cbn in *; lia.
Qed.

Lemma pop_zeros_mag l : limbs_ok l -> mag_ok (pop_zeros l).
Proof. split; [by apply pop_zeros_ok|apply pop_zeros_top]. Qed.

Lemma pop_zeros_id l : top_ok l -> pop_zeros l = l.
Proof.
  unfold top_ok. induction l as [|d l IH]; cbn; [done|]. intros Ht.
  destruct l as [|e l].
  - cbn in *. destruct (Z.eqb_spec d 0); [congruence|done].
  - by rewrite (IH Ht).
Qed.

Lemma mag_ok_nil : mag_ok []. Proof. split; [constructor|done]. Qed.
#[export] Hint Resolve pop_zeros_ok pop_zeros_top pop_zeros_mag mag_ok_nil : bronze.

Lemma limbBits_spec v : limb_ok v ->
  limbBits v = if v =? 0 then 0 else Z.log2 v + 1.
Proof.
  intros Hv. unfold limbBits.
  set (bl v := if v =? 0 then 0 else Z.log2 v + 1).
  assert (Hbl : forall x, 0 < x -> bl x = 1 + bl (Z.shiftr x 1)).
  { intros x Hx. unfold bl. rewrite Z.shiftr_div_pow2 by lia. change (2 ^ 1) with 2.
    destruct (Z.eqb_spec x 0); [lia|]. destruct (Z.eqb_spec (x / 2) 0) as [E|E].
    - assert (x = 1) as -> by dlia. done.
    - assert (1 < x) by dlia. pose proof (Z.log2_pos x ltac:(lia)).
      change 2 with (2 ^ 1). rewrite <- Z.shiftr_div_pow2, Z.log2_shiftr by lia. lia. }
  assert (Hpos : forall x, 0 <= x -> 0 <= bl x).
  { intros x Hx. unfold bl. destruct (x =? 0); pose proof (Z.log2_nonneg x); lia. }
  assert (Hmax : bl v <= 32).
  { unfold bl. destruct (Z.eqb_spec v 0); [lia|].
    pose proof (Z.log2_lt_pow2 v 32). destruct Hv. lia. }
  edestruct (while_inv (fun '(n, x) => 0 <= x /\ 0 <= n /\ n + bl x = bl v)
    (fun '(n, x) => Z.to_nat (bl x)) 33 (fun '(n, v) => negb (v =? 0))
    (fun '(n, v) => (u32 (n + 1), Z.shiftr v 1)) (0, v)) as [H1 H2].
  - destruct Hv. lia.
  - intros [n x] (Hx & Hn & E) Hc. destruct (Z.eqb_spec x 0); [done|].
    specialize (Hbl x ltac:(lia)). assert (0 <= Z.shiftr x 1) by (apply Z.shiftr_nonneg; lia).
    specialize (Hpos (Z.shiftr x 1) ltac:(lia)).
    rewrite u32_small by lia. repeat split; lia.
  - cbn. lia.
  - destruct (while _ _ _ _) as [n x]. cbn in *.
    destruct H1 as (Hx & Hn & E). destruct (Z.eqb_spec x 0) as [->|]; [|done].
    change (bl 0) with 0 in E. change (n = bl v). lia.
Qed.

Lemma compareMagnitude_from_spec i a b :
  limbs_ok a -> limbs_ok b ->
  compareMagnitude_from i a b =
    if mval (take i a) <? mval (take i b) then -1
    else if mval (take i b) <? mval (take i a) then 1 else 0.
Proof.
  intros Ha Hb. induction i as [|i IH]; [done|].
  cbn [compareMagnitude_from]. rewrite !mval_take_S, IH.
  pose proof (mval_bound _ (limbs_ok_take i a Ha)) as Ba.
  pose proof (mval_bound _ (limbs_ok_take i b Hb)) as Bb.
  rewrite length_take in Ba, Bb.
  pose proof (wt_le (Nat.min i (length a)) i ltac:(lia)).
  pose proof (wt_le (Nat.min i (length b)) i ltac:(lia)).
  zbool; cbn; try done; nia.
Qed.

Lemma compareMagnitude_spec a b :
  mag_ok a -> mag_ok b ->
  compareMagnitude a b =
    if mval a <? mval b then -1 else if mval b <? mval a then 1 else 0.
Proof.
  intros Ha Hb. unfold compareMagnitude.
  destruct (Nat.eqb_spec (length a) (length b)) as [E|E]; cbn [negb].
  - rewrite compareMagnitude_from_spec by (apply Ha || apply Hb).
    rewrite take_ge by lia. by rewrite take_ge by lia.
  - destruct (Nat.ltb_spec (length a) (length b)).
    + pose proof (mag_len_lt a b Ha Hb ltac:(done)). zbool; done || lia.
    + pose proof (mag_len_lt b a Hb Ha ltac:(lia)). zbool; done || lia.
Qed.

(** A limb read past the end is a zero limb. *)
Lemma limb_guard l i : (if (i <? length l)%nat then l.[i] else 0) = l.[i].
Proof. destruct (Nat.ltb_spec i (length l)); [done|]. by rewrite limb_ge. Qed.

(** ** Addition and subtraction *)

Lemma addMagnitude_loop a b n :
  limbs_ok a -> limbs_ok b ->
  let '(out, carry) :=
    for_up n 0 (fun i '(out, carry) =>
      let sum := u64 ((if (i <? length a)%nat then a.[i] else 0)
                      + (if (i <? length b)%nat then b.[i] else 0) + carry) in
      (out ++ [u32 sum], Z.shiftr sum 32)) ([], 0) in
  length out = n /\ limbs_ok out /\ 0 <= carry <= 1 /\
  mval out + wt n * carry = mval (take n a) + mval (take n b).
Proof.
  intros Ha Hb.
  apply (for_up_inv (fun i '(out, carry) =>
    length out = i /\ limbs_ok out /\ 0 <= carry <= 1 /\
    mval out + wt i * carry = mval (take i a) + mval (take i b))).
  - split_and!; auto with bronze; cbn; lia.
  - intros i [out carry] _ (Hl & Ho & Hc & E). rewrite !limb_guard.
    pose proof (limb_range a i Ha). pose proof (limb_range b i Hb).
    rewrite u64_small by lia. set (sum := a.[i] + b.[i] + carry).
    pose proof (u32_shr32_split sum) as Hs. pose proof (u32_range sum).
    loop_split.
    rewrite mval_snoc, !mval_take_S, wt_S, Hl. rewrite kBase_eq. nia.
Qed.

Lemma addMagnitude_spec a b :
  limbs_ok a -> limbs_ok b ->
  limbs_ok (addMagnitude a b) /\ mval (addMagnitude a b) = mval a + mval b.
Proof.
  intros Ha Hb. unfold addMagnitude.
  set (n := Nat.max (length a) (length b)).
  pose proof (addMagnitude_loop a b n Ha Hb) as H.
  destruct (for_up _ _ _ _) as [out carry]. destruct H as (Hl & Ho & Hc & E).
  rewrite (take_ge a), (take_ge b) in E by lia.
  destruct (Z.eqb_spec carry 0) as [->|]; cbn [negb].
  - split; [done|]. lia.
  - split; [auto with bronze|]. rewrite mval_snoc, Hl, u32_small by lia. lia.
Qed.

Lemma subMagnitude_loop a b n :
  limbs_ok a -> limbs_ok b ->
  let '(out, borrow) :=
    for_up n 0 (fun i '(out, borrow) =>
      let diff := a.[i] - (if (i <? length b)%nat then b.[i] else 0) - borrow in
      let '(diff, borrow) := if diff <? 0 then (diff + s64 kBase, 1) else (diff, 0) in
      (out ++ [u32 diff], borrow)) ([], 0) in
  length out = n /\ limbs_ok out /\ 0 <= borrow <= 1 /\
  mval out - wt n * borrow = mval (take n a) - mval (take n b).
Proof.
  intros Ha Hb.
  apply (for_up_inv (fun i '(out, borrow) =>
    length out = i /\ limbs_ok out /\ 0 <= borrow <= 1 /\
    mval out - wt i * borrow = mval (take i a) - mval (take i b))).
  - split_and!; auto with bronze; cbn; lia.
  - intros i [out borrow] _ (Hl & Ho & Hc & E). rewrite limb_guard.
    pose proof (limb_range a i Ha). pose proof (limb_range b i Hb).
    change (s64 kBase) with (2 ^ 32). cbn zeta.
    destruct (Z.ltb_spec (a.[i] - b.[i] - borrow) 0); loop_split;
      rewrite mval_snoc, !mval_take_S, wt_S, Hl, u32_small, kBase_eq by lia; nia.
Qed.

(** The first argument must be the larger one, as the source's comment asks. *)
Lemma subMagnitude_spec a b :
  limbs_ok a -> mag_ok b -> mval b <= mval a ->
  mag_ok (subMagnitude a b) /\ mval (subMagnitude a b) = mval a - mval b.
Proof.
  intros Ha Hb Hle. unfold subMagnitude.
  pose proof (subMagnitude_loop a b (length a) Ha (proj1 Hb)) as H.
  destruct (for_up _ _ _ _) as [out borrow]. destruct H as (Hl & Ho & Hc & E).
  split; [auto with bronze|]. rewrite pop_zeros_mval.
  assert (length b <= length a)%nat as Hlen.
  { destruct (decide (length b <= length a)%nat); [done|].
    assert (mag_ok (pop_zeros a)) as Hpa by auto with bronze.
    pose proof (pop_zeros_mval a) as Ea.
    pose proof (pop_zeros_length a).
    pose proof (mag_len_lt (pop_zeros a) b Hpa Hb ltac:(lia)). lia. }
  rewrite !take_ge in E by lia. pose proof (mval_bound out Ho) as Hb'. rewrite Hl in Hb'.
  assert (borrow = 0 \/ borrow = 1) as [-> | ->] by lia; lia.
Qed.

(** ** Multiplication *)

Lemma mul_row_loop b i ai out :
  limbs_ok b -> limbs_ok out -> limb_ok ai -> (i + length b <= length out)%nat ->
  forall n, (n <= length b)%nat ->
  let '(out', carry) :=
    for_up n 0 (fun j '(out, carry) =>
      let cur := u64 (out.[(i + j)%nat] + u64 (ai * b.[j]) + carry) in
      (<[(i + j)%nat := u32 cur]> out, Z.shiftr cur 32)) (out, 0) in
  length out' = length out /\ limbs_ok out' /\ 0 <= carry < 2 ^ 32 /\
  (forall k, (i + n <= k)%nat -> out'.[k] = out.[k]) /\
  mval out' + wt (i + n) * carry = mval out + wt i * ai * mval (take n b).
Proof.
  intros Hb Ho Hai Hlen n Hn.
  apply (for_up_inv (fun j '(out', carry) =>
    length out' = length out /\ limbs_ok out' /\ 0 <= carry < 2 ^ 32 /\
    (forall k, (i + j <= k)%nat -> out'.[k] = out.[k]) /\
    mval out' + wt (i + j) * carry = mval out + wt i * ai * mval (take j b))).
  - rewrite Nat.add_0_r. loop_split. change (mval (take 0 b)) with 0. ring.
  - intros j [out' carry] Hj (Hl & Ho' & Hc & Hk & E).
    pose proof (limb_range b j Hb) as Hbj. pose proof (limb_range out' (i + j) Ho') as Hoj.
    destruct Hai as [Hai0 Hai1].
    assert (0 <= ai * b.[j] <= (2 ^ 32 - 1) * (2 ^ 32 - 1)) by nia.
    rewrite (u64_small (ai * _)) by lia.
    rewrite u64_small by lia. set (cur := out'.[(i + j)%nat] + ai * b.[j] + carry).
    pose proof (u32_shr32_split cur) as Hs.
    pose proof (shr32_range cur ltac:(lia)).
    loop_split.
    + intros k Hk'. rewrite limb_insert_ne by lia. apply Hk. lia.
    + rewrite mval_insert by lia. rewrite mval_take_S, Nat.add_succ_r, wt_S, wt_add, kBase_eq in *.
      assert (wt i * wt j * u32 cur + 2 ^ 32 * (wt i * wt j) * Z.shiftr cur 32
              = wt i * wt j * cur) as Hw by (rewrite <- Hs at 3; ring).
      unfold cur in Hw at 3. nia.
Qed.

Lemma mulMagnitude_row_spec b i ai out :
  limbs_ok b -> limbs_ok out -> limb_ok ai -> (i + length b < length out)%nat ->
  (forall k, (i + length b <= k)%nat -> out.[k] = 0) ->
  let out' := mulMagnitude_row b i ai out in
  length out' = length out /\ limbs_ok out' /\
  (forall k, (i + length b < k)%nat -> out'.[k] = 0) /\
  mval out' = mval out + wt i * ai * mval b.
Proof.
  intros Hb Ho Hai Hlen Hz. cbn zeta. unfold mulMagnitude_row.
  pose proof (mul_row_loop b i ai out Hb Ho Hai ltac:(lia) (length b) (le_n _)) as H.
  destruct (for_up _ _ _ _) as [out' carry]. destruct H as (Hl & Ho' & Hc & Hk & E).
  rewrite take_ge in E by lia.
  destruct (Z.eqb_spec carry 0) as [->|Hc0].
  - rewrite while_false by done. cbn. split_and!; try done; [|lia].
    intros k Hk'. rewrite Hk by lia. apply Hz. lia.
  - assert (out'.[(i + length b)%nat] = 0) as Hk0 by (rewrite Hk by lia; apply Hz; lia).
    rewrite while_true by (destruct (Z.eqb_spec carry 0); done).
    cbn beta iota zeta. rewrite Hk0, u64_small by lia.
    rewrite Z.add_0_l, (Z.shiftr_div_pow2 carry), Z.div_small by lia.
    rewrite while_false by done. cbn [fst]. loop_split.
    + intros k Hk'. rewrite limb_insert_ne by lia. rewrite Hk by lia. apply Hz. lia.
    + rewrite mval_insert, Hk0, u32_small by lia. lia.
Qed.

Lemma mulMagnitude_loop a b n :
  limbs_ok a -> limbs_ok b -> (n <= length a)%nat -> (0 < length b)%nat ->
  let out :=
    for_up n 0 (fun i out =>
      let ai := a.[i] in
      if ai =? 0 then out else mulMagnitude_row b i ai out)
    (replicate (length a + length b) 0) in
  length out = (length a + length b)%nat /\ limbs_ok out /\
  (forall k, (n + length b <= k)%nat -> out.[k] = 0) /\
  mval out = mval (take n a) * mval b.
Proof.
  intros Ha Hb Hn Hb0.
  apply (for_up_inv (fun i out =>
    length out = (length a + length b)%nat /\ limbs_ok out /\
    (forall k, (i + length b <= k)%nat -> out.[k] = 0) /\
    mval out = mval (take i a) * mval b)).
  - loop_split; [|by rewrite mval_zeros]. intros k _. apply limb_zeros.
  - intros i out Hi (Hl & Ho & Hz & E). cbn zeta.
    rewrite mval_take_S. pose proof (limb_range a i Ha) as Hai.
    destruct (Z.eqb_spec a.[i] 0) as [E0|E0].
    + rewrite E0. split_and!; try done; [|lia]. intros k Hk. apply Hz. lia.
    + destruct (mulMagnitude_row_spec b i a.[i] out Hb Ho Hai ltac:(lia) Hz)
        as (Hl' & Ho' & Hz' & E').
      split_and!; [congruence|done| |rewrite E', E; ring].
      intros k Hk. apply Hz'. lia.
Qed.

Lemma mulMagnitude_spec a b :
  limbs_ok a -> limbs_ok b ->
  mag_ok (mulMagnitude a b) /\ mval (mulMagnitude a b) = mval a * mval b.
Proof.
  intros Ha Hb. unfold mulMagnitude.
  pose proof (empty_spec a) as Ea. pose proof (empty_spec b) as Eb.
  destruct (empty a); [subst; split; [apply mag_ok_nil|done]|].
  destruct (empty b); [subst; split; [apply mag_ok_nil|cbn; lia]|].
  cbv beta iota delta [orb].
  destruct (mulMagnitude_loop a b (length a) Ha Hb) as (Hl & Ho & Hz & E); [lia|lia|].
  split; [auto with bronze|]. rewrite pop_zeros_mval.
  etransitivity; [exact E|]. by rewrite take_ge.
Qed.

(** ** Short multiplication and division *)

Lemma mulAddSmall_loop mag m c0 n :
  limbs_ok mag -> limb_ok m -> limb_ok c0 -> (n <= length mag)%nat ->
  let '(mag', carry) :=
    for_up n 0 (fun i '(mag, carry) =>
      let product := u64 (mag.[i] * m + carry) in
      (<[i := u32 product]> mag, Z.shiftr product 32)) (mag, c0) in
  length mag' = length mag /\ limbs_ok mag' /\ limb_ok carry /\
  drop n mag' = drop n mag /\
  mval (take n mag') + wt n * carry = m * mval (take n mag) + c0.
Proof.
  intros Hmag Hm Hc0 Hn.
  apply (for_up_inv (fun i '(mag', carry) =>
    length mag' = length mag /\ limbs_ok mag' /\ limb_ok carry /\
    drop i mag' = drop i mag /\
    mval (take i mag') + wt i * carry = m * mval (take i mag) + c0)).
  - split_and!; try done. rewrite !take_0, wt_0. cbn [mval]. ring.
  - intros i [mag' carry] Hi (Hl & Ho & Hc & Hd & E).
    assert (mag'.[i] = mag.[i]) as Ei.
    { unfold limb. rewrite <- (Nat.add_0_r i), <- !lookup_drop. by rewrite Hd. }
    pose proof (limb_range mag i Hmag). destruct Hm, Hc as [??]. rewrite Ei.
    assert (0 <= mag.[i] * m <= (2 ^ 32 - 1) * (2 ^ 32 - 1)) by nia.
    rewrite u64_small by lia. set (p := mag.[i] * m + carry).
    pose proof (u32_shr32_split p) as Hs. pose proof (shr32_range p ltac:(lia)).
    loop_split.
    + rewrite drop_insert_lt by lia. apply list_eq. intros k. rewrite !lookup_drop.
      change (S i + k)%nat with (S (i + k)). rewrite <- Nat.add_succ_r, <- !lookup_drop. by rewrite Hd.
    + rewrite !mval_take_S, take_insert_ge, limb_insert_eq, wt_S, kBase_eq by lia.
      assert (wt i * u32 p + 2 ^ 32 * wt i * Z.shiftr p 32 = wt i * p) as Hw
        by (rewrite <- Hs at 3; ring).
      unfold p in Hw at 3. nia.
Qed.

Lemma mulAddSmall_spec mag m c0 :
  limbs_ok mag -> limb_ok m -> limb_ok c0 ->
  limbs_ok (mulAddSmall mag m c0) /\ mval (mulAddSmall mag m c0) = mval mag * m + c0.
Proof.
  intros Hmag Hm Hc0. unfold mulAddSmall.
  pose proof (mulAddSmall_loop mag m c0 (length mag) Hmag Hm Hc0 (le_n _)) as H.
  destruct (for_up _ _ _ _) as [mag' carry]. destruct H as (Hl & Ho & Hc & Hd & E).
  rewrite !take_ge in E by lia. destruct (Z.eqb_spec carry 0) as [->|].
  - rewrite while_false by done. cbn. split; [done|]. lia.
  - rewrite while_true by (cbn; destruct (Z.eqb_spec carry 0); done).
    destruct Hc. rewrite (Z.shiftr_div_pow2 carry), Z.div_small by lia.
    rewrite while_false by done. cbn [fst].
    rewrite mval_snoc, u32_small, Hl by lia. split; [|lia].
    apply limbs_ok_snoc; [done|]. by split.
Qed.

Lemma divModSmall_loop mag d :
  limbs_ok mag -> 0 < d < 2 ^ 32 ->
  let '(mag', rem) :=
    for_down (length mag) (fun i '(mag, rem) =>
      let cur := Z.lor (u64 (Z.shiftl rem 32)) mag.[i] in
      (<[i := u32 (cur / d)]> mag, cur mod d)) (mag, 0) in
  length mag' = length mag /\ limbs_ok mag' /\ 0 <= rem < d /\
  take 0 mag' = take 0 mag /\
  mval (drop 0 mag) = d * mval (drop 0 mag') + rem.
Proof.
  intros Hmag Hd.
  apply (for_down_inv (fun i '(mag', rem) =>
    length mag' = length mag /\ limbs_ok mag' /\ 0 <= rem < d /\
    take i mag' = take i mag /\
    mval (drop i mag) = d * mval (drop i mag') + rem)).
  - rewrite drop_ge by lia. split_and!; done || (cbn; lia).
  - intros i [mag' rem] Hi (Hl & Ho & Hr & Ht & E).
    assert (mag'.[i] = mag.[i]) as Ei.
    { unfold limb. rewrite <- (lookup_take_lt mag' (S i)), Ht, lookup_take_lt; [done|lia|lia]. }
    pose proof (limb_range mag i Hmag). rewrite Ei.
    rewrite u64_small by (rewrite Z.shiftl_mul_pow2; lia).
    rewrite lor_shiftl_add by lia. set (cur := rem * 2 ^ 32 + mag.[i]).
    pose proof (Z.div_mod cur d ltac:(lia)) as Hdm. pose proof (Z.mod_pos_bound cur d ltac:(lia)).
    assert (0 <= cur / d < 2 ^ 32).
    { split; [apply Z.div_pos; lia|apply Z.div_lt_upper_bound; nia]. }
    loop_split.
    + rewrite take_insert_ge by lia. apply (f_equal (take i)) in Ht.
      rewrite !take_take in Ht. by rewrite !Nat.min_l in Ht by lia.
    + rewrite (mval_drop_S mag), (mval_drop_S (<[i:=_]> mag')).
      rewrite limb_insert_eq, drop_insert_lt, u32_small by lia.
      rewrite E, kBase_eq. unfold cur in Hdm at 1. nia.
Qed.

Lemma divModSmall_spec mag d :
  limbs_ok mag -> 0 < d < 2 ^ 32 ->
  let '(q, r) := divModSmall mag d in
  mag_ok q /\ mval q = mval mag / d /\ r = mval mag mod d.
Proof.
  intros Hmag Hd. unfold divModSmall. pose proof (divModSmall_loop mag d Hmag Hd) as H.
  destruct (for_down _ _ _) as [q r]. destruct H as (Hl & Ho & Hr & _ & E).
  rewrite !drop_0 in E.
  rewrite pop_zeros_mval, u32_small by lia. split_and!; [auto with bronze| |].
  - apply Z.div_unique with r; lia.
  - apply Z.mod_unique with (mval q); lia.
Qed.

(** ** Shifts *)

Lemma lor_low_add x y k :
  0 <= k -> 0 <= x < 2 ^ k -> y mod 2 ^ k = 0 -> Z.lor x y = x + y.
Proof.
  intros Hk Hx Hy. rewrite Z.lor_comm.
  assert (y = Z.shiftl (y / 2 ^ k) k) as E.
  { rewrite Z.shiftl_mul_pow2 by lia. pose proof (Z.div_mod y (2 ^ k)). lia. }
  rewrite E, lor_shiftl_add, Z.shiftl_mul_pow2 by lia. lia.
Qed.

(** The split of a shifted limb: the low half is a multiple of [2 ^ s] and the
    high half is below it. *)
Lemma shl_limb_split d s :
  limb_ok d -> 0 <= s < 32 ->
  let w := u64 (Z.shiftl d s) in
  w = d * 2 ^ s /\ u32 w mod 2 ^ s = 0 /\ u32 w <= 2 ^ 32 - 2 ^ s /\
  0 <= Z.shiftr w 32 < 2 ^ s.
Proof.
  intros [Hd0 Hd1] Hs. cbn zeta. rewrite Z.shiftl_mul_pow2 by lia.
  assert (2 ^ 32 = 2 ^ (32 - s) * 2 ^ s) as Ep.
  { rewrite <- Z.pow_add_r by lia. f_equal. lia. }
  assert (0 < 2 ^ s) as Hps by (apply Z.pow_pos_nonneg; lia).
  assert (2 ^ s <= 2 ^ 31) by (apply Z.pow_le_mono_r; lia).
  rewrite u64_small by nia.
  assert (u32 (d * 2 ^ s) = (d mod 2 ^ (32 - s)) * 2 ^ s) as Eu.
  { unfold u32. rewrite Ep. apply Z.mul_mod_distr_r; lia. }
  pose proof (Z.mod_pos_bound d (2 ^ (32 - s)) ltac:(apply Z.pow_pos_nonneg; lia)).
  split_and!; [done| | | |].
  - rewrite Eu. apply Z.mod_mul. lia.
  - rewrite Eu. nia.
  - apply Z.shiftr_nonneg. nia.
  - rewrite Z.shiftr_div_pow2 by lia. apply Z.div_lt_upper_bound; nia.
Qed.

Lemma shiftLeftBits_loop a ls s n :
  limbs_ok a -> 0 <= s < 32 -> (n <= length a)%nat ->
  let out :=
    for_up n 0 (fun i out =>
      let shifted := u64 (Z.shiftl a.[i] s) in
      let out := <[(i + ls)%nat := Z.lor out.[(i + ls)%nat] (u32 shifted)]> out in
      <[(i + ls + 1)%nat :=
          Z.lor out.[(i + ls + 1)%nat] (u32 (Z.shiftr shifted 32))]> out)
    (replicate (length a + ls + 1) 0) in
  length out = (length a + ls + 1)%nat /\ limbs_ok out /\
  out.[(n + ls)%nat] < 2 ^ s /\ (forall k, (n + ls < k)%nat -> out.[k] = 0) /\
  mval out = wt ls * 2 ^ s * mval (take n a).
Proof.
  intros Ha Hs Hn.
  assert (0 < 2 ^ s) as Hps by (apply Z.pow_pos_nonneg; lia).
  apply (for_up_inv (fun i out =>
    length out = (length a + ls + 1)%nat /\ limbs_ok out /\
    out.[(i + ls)%nat] < 2 ^ s /\ (forall k, (i + ls < k)%nat -> out.[k] = 0) /\
    mval out = wt ls * 2 ^ s * mval (take i a))).
  - split_and!; autorewrite with bronze; auto with bronze.
    + rewrite limb_zeros. lia.
    + intros. apply limb_zeros.
    + rewrite mval_zeros, take_0. cbn [mval]. ring.
  - intros i out Hi (Hl & Ho & Hx & Hz & E).
    destruct (shl_limb_split a.[i] s (limb_range a i Ha) Hs) as (Ew & Em & Ele & Hhi).
    cbn zeta. set (w := u64 (Z.shiftl a.[i] s)) in *.
    pose proof (limb_range out (i + ls) Ho).
    assert (2 ^ s <= 2 ^ 31) by (apply Z.pow_le_mono_r; lia).
    rewrite (lor_low_add out.[(i + ls)%nat] (u32 w) s) by (done || lia).
    rewrite limb_insert_ne, Hz, Z.lor_0_l, (u32_small (Z.shiftr w 32)) by lia.
    pose proof (u32_range w). pose proof (u32_shr32_split w) as Hsp.
    split_and!; autorewrite with bronze; [done| | | |].
    + apply limbs_ok_insert; [apply limbs_ok_insert; [done|]|]; split; lia.
    + replace (S i + ls)%nat with (i + ls + 1)%nat by lia.
      rewrite limb_insert_eq by (autorewrite with bronze; lia). lia.
    + intros k Hk. rewrite !limb_insert_ne by lia. apply Hz. lia.
    + rewrite !mval_insert by (autorewrite with bronze; lia).
      rewrite limb_insert_ne, (Hz (i + ls + 1)%nat), E, mval_take_S by lia.
      replace (i + ls + 1)%nat with (S (ls + i)) by lia.
      rewrite (Nat.add_comm i), wt_S, wt_add, kBase_eq.
      assert (wt ls * wt i * u32 w + 2 ^ 32 * (wt ls * wt i) * Z.shiftr w 32
              = wt ls * wt i * (a.[i] * 2 ^ s)) as Hw.
      { rewrite <- Ew. transitivity (wt ls * wt i * (u32 w + 2 ^ 32 * Z.shiftr w 32)); [ring|].
        by rewrite Hsp. }
      lia.
Qed.

Lemma shiftLeftBits_spec a bits :
  limbs_ok a -> 0 <= bits ->
  mag_ok (shiftLeftBits a bits) /\ mval (shiftLeftBits a bits) = mval a * 2 ^ bits.
Proof.
  intros Ha Hb. unfold shiftLeftBits. pose proof (empty_spec a) as Ea.
  destruct (empty a); [subst; split; [apply mag_ok_nil|done]|].
  pose proof (Z.mod_pos_bound bits 32 ltac:(lia)) as Hm.
  pose proof (Z.div_mod bits 32 ltac:(lia)) as Hdm.
  pose proof (Z.div_pos bits 32 Hb ltac:(lia)).
  assert (u32 (bits mod 32) = bits mod 32) as -> by (apply u32_small; lia).
  destruct (shiftLeftBits_loop a (Z.to_nat (bits / 32)) (bits mod 32) (length a) Ha Hm (le_n _))
    as (Hl & Ho & _ & _ & E).
  split; [auto with bronze|]. rewrite pop_zeros_mval. etransitivity; [exact E|].
  rewrite take_ge, wt_pow2, Z2Nat.id, <- Z.pow_add_r by lia.
  replace (32 * (bits / 32) + bits mod 32) with bits by lia. ring.
Qed.

Lemma shiftRightBits_lost_spec a n :
  (n <= length a)%nat -> limbs_ok a ->
  for_up n 0 (fun i lost => if negb (a.[i] =? 0) then true else lost) false
  = negb (mval (take n a) =? 0).
Proof.
  intros Hn Ha. apply (for_up_inv (fun i lost => lost = negb (mval (take i a) =? 0))).
  - by rewrite take_0.
  - intros i lost Hi ->. rewrite mval_take_S. pose proof (limb_range a i Ha).
    pose proof (mval_nonneg _ (limbs_ok_take i a Ha)). pose proof (wt_pos i).
    zbool; cbn; try done; nia.
Qed.

Lemma existsb_lost a : limbs_ok a ->
  existsb (fun limb => negb (limb =? 0)) a = negb (mval a =? 0).
Proof.
  induction 1 as [|d a [Hd _] Ha IH]; [done|]. cbn [existsb mval].
  rewrite IH, kBase_eq. pose proof (mval_nonneg a Ha).
  zbool; cbn; try done; lia.
Qed.

(** Shifting the low [s] bits of a limb to its top tells whether one is set. *)
Lemma shl_lost_zero d s :
  limb_ok d -> 0 <= s < 32 ->
  negb (s =? 0) && negb (u32 (Z.shiftl d (32 - s)) =? 0) = negb (d mod 2 ^ s =? 0).
Proof.
  intros Hd Hs. destruct (Z.eqb_spec s 0) as [->|Hs0]; cbn [negb andb].
  { by rewrite Z.mod_1_r. }
  rewrite Z.shiftl_mul_pow2 by lia. unfold u32.
  assert (2 ^ 32 = 2 ^ s * 2 ^ (32 - s)) as -> by (rewrite <- Z.pow_add_r by lia; f_equal; lia).
  assert (0 < 2 ^ (32 - s)) by (apply Z.pow_pos_nonneg; lia).
  assert (0 < 2 ^ s) by (apply Z.pow_pos_nonneg; lia).
  rewrite Z.mul_mod_distr_r by lia. zbool; cbn; try done; nia.
Qed.

Lemma shiftRightBits_loop a ls s n :
  limbs_ok a -> 0 <= s < 32 -> (n + ls <= length a)%nat ->
  let out :=
    for_up n 0 (fun i out =>
      let value := Z.shiftr a.[(i + ls)%nat] s in
      let value :=
        if negb (s =? 0) && (i + ls + 1 <? length a)%nat
        then Z.lor value (u64 (Z.shiftl a.[(i + ls + 1)%nat] (32 - s)))
        else value in
      <[i := u32 value]> out) (replicate (length a - ls) 0) in
  length out = (length a - ls)%nat /\ limbs_ok out /\
  2 ^ s * mval (take n out) + a.[ls] mod 2 ^ s
  = mval (take n (drop ls a)) + wt n * (a.[(n + ls)%nat] mod 2 ^ s).
Proof.
  intros Ha Hs Hn.
  assert (0 < 2 ^ s) as Hps by (apply Z.pow_pos_nonneg; lia).
  assert (2 ^ (32 - s) * 2 ^ s = 2 ^ 32) as Ep.
  { rewrite <- Z.pow_add_r by lia. f_equal. lia. }
  assert (0 < 2 ^ (32 - s)) by (apply Z.pow_pos_nonneg; lia).
  apply (for_up_inv (fun i out =>
    length out = (length a - ls)%nat /\ limbs_ok out /\
    2 ^ s * mval (take i out) + a.[ls] mod 2 ^ s
    = mval (take i (drop ls a)) + wt i * (a.[(i + ls)%nat] mod 2 ^ s))).
  - split_and!; autorewrite with bronze; auto with bronze.
    rewrite !take_0, wt_0. cbn [mval Nat.add]. ring.
  - intros i out Hi (Hl & Ho & E). cbn zeta. rewrite (Nat.add_comm i ls) in *.
    pose proof (limb_range a (ls + i) Ha) as Hd. pose proof (limb_range a (S (ls + i)) Ha) as He.
    set (d := a.[(ls + i)%nat]) in *.
    replace (ls + i + 1)%nat with (S (ls + i)) by lia.
    set (e := a.[S (ls + i)]) in *.
    assert (0 <= d / 2 ^ s < 2 ^ (32 - s)) as Hq.
    { split; [apply Z.div_pos; lia|apply Z.div_lt_upper_bound; nia]. }
    pose proof (Z.mod_pos_bound e (2 ^ s) Hps) as Hme.
    assert (u32 (if negb (s =? 0) && (S (ls + i) <? length a)%nat
                 then Z.lor (Z.shiftr d s) (u64 (Z.shiftl e (32 - s)))
                 else Z.shiftr d s)
            = d / 2 ^ s + (e mod 2 ^ s) * 2 ^ (32 - s)) as Ev.
    { rewrite Z.shiftr_div_pow2 by lia.
      destruct (Z.eqb_spec s 0) as [->|Hs0]; cbn [negb andb].
      { rewrite Z.mod_1_r, u32_small by lia. lia. }
      assert (2 ^ (32 - s) <= 2 ^ 32) by (apply Z.pow_le_mono_r; lia).
      destruct (Nat.ltb_spec (S (ls + i)) (length a)).
      - rewrite Z.shiftl_mul_pow2, u64_small by nia.
        rewrite (lor_low_add _ _ (32 - s)) by (try apply Z.mod_mul; lia).
        unfold u32. rewrite (Z.div_mod e (2 ^ s)) at 1 by lia.
        symmetry. apply Z.mod_unique with (e / 2 ^ s); [left; nia|rewrite <- Ep; ring].
      - assert (e = 0) as -> by (apply limb_ge; lia).
        rewrite Z.mod_0_l, u32_small by lia. lia. }
    rewrite Ev. pose proof (Z.div_mod d (2 ^ s) ltac:(lia)) as Hdm.
    loop_split.
    + apply limbs_ok_insert; [done|]. split; nia.
    + rewrite !mval_take_S, take_insert_ge, limb_insert_eq by lia.
      replace (drop ls a).[i] with d by (unfold d, limb; by rewrite lookup_drop).
      rewrite Nat.add_succ_l, (Nat.add_comm i ls). fold e. rewrite wt_S, kBase_eq.
      assert (2 ^ 32 * wt i * (e mod 2 ^ s) = wt i * (e mod 2 ^ s) * (2 ^ (32 - s) * 2 ^ s)) by (rewrite Ep; ring).
      assert (wt i * d = wt i * (2 ^ s * (d / 2 ^ s)) + wt i * (d mod 2 ^ s)) by (rewrite Hdm at 1; ring).
      lia.
Qed.

Lemma shiftRightBits_spec a bits :
  limbs_ok a -> 0 <= bits ->
  let '(out, lost) := shiftRightBits a bits in
  mag_ok out /\ mval out = mval a / 2 ^ bits /\ lost = negb (mval a mod 2 ^ bits =? 0).
Proof.
  intros Ha Hb. unfold shiftRightBits.
  pose proof (Z.mod_pos_bound bits 32 ltac:(lia)) as Hm.
  pose proof (Z.div_mod bits 32 ltac:(lia)) as Hdm.
  pose proof (Z.div_pos bits 32 Hb ltac:(lia)).
  assert (0 < 2 ^ bits) as Hpb by (apply Z.pow_pos_nonneg; lia).
  destruct (Z.leb_spec (Z.of_nat (length a)) (bits / 32)) as [Hle|Hlt].
  - pose proof (mval_bound a Ha) as Hv. rewrite wt_pow2 in Hv.
    assert (2 ^ (32 * Z.of_nat (length a)) <= 2 ^ bits) by (apply Z.pow_le_mono_r; lia).
    rewrite existsb_lost, Z.div_small, Z.mod_small by (done || lia). auto with bronze.
  - set (ls := Z.to_nat (bits / 32)). set (s := bits mod 32) in *.
    assert (u32 s = s) as -> by (apply u32_small; lia).
    assert (Hls : (ls <= length a)%nat) by lia.
    assert (0 < 2 ^ s) as Hps by (apply Z.pow_pos_nonneg; lia).
    assert (2 ^ bits = wt ls * 2 ^ s) as Ebits.
    { rewrite wt_pow2, <- Z.pow_add_r by lia. f_equal. lia. }
    destruct (shiftRightBits_loop a ls s (length a - ls) Ha Hm ltac:(lia)) as (Hl & Ho & E).
    cbn beta iota zeta in *.
    replace (length a - ls + ls)%nat with (length a) in E by lia.
    rewrite (limb_ge a (length a)), Z.mod_0_l, Z.mul_0_r, Z.add_0_r in E by lia.
    rewrite (take_ge (drop _ _)) in E by (autorewrite with bronze; lia).
    rewrite take_ge in E by lia. rewrite pop_zeros_mval.
    set (out := for_up _ _ _ (replicate _ _)) in *.
    pose proof (limb_range a ls Ha) as Hd.
    pose proof (Z.mod_pos_bound a.[ls] (2 ^ s) Hps) as Hmd.
    pose proof (mval_drop a ls) as Edrop. pose proof (mval_bound _ (limbs_ok_take ls a Ha)) as Hlow.
    rewrite length_take, Nat.min_l in Hlow by lia. pose proof (wt_pos ls).
    assert (mval a = (wt ls * 2 ^ s) * mval out
                     + (mval (take ls a) + wt ls * (a.[ls] mod 2 ^ s))) as Ea by (rewrite Edrop, <- E; ring).
    assert (0 <= mval (take ls a) + wt ls * (a.[ls] mod 2 ^ s) < wt ls * 2 ^ s) as Hr by nia.
    split_and!; [auto with bronze| |].
    + rewrite Ebits. by apply Z.div_unique with (mval (take ls a) + wt ls * (a.[ls] mod 2 ^ s)); [left|].
    + rewrite Ebits. rewrite <- (Z.mod_unique _ _ _ _ (or_introl Hr) Ea).
      rewrite shiftRightBits_lost_spec by done.
      rewrite (shl_lost_zero a.[ls] s) by done.
      zbool; cbn; try done; nia.
Qed.
