(* ===== verification/BigNumDiv.v ===== *)
(** * Long division of magnitudes

    [BigNum::divmodMagnitude] of [src/src/runtime/bignum.cpp]: Knuth's algorithm D
    with a single-limb short division beside it.  [trial_quotient] is the guess
    and its correction loop, [mul_sub] and [add_back] the two passes over the
    dividend window, [divmod_step] one turn of the main loop.  The file proves the
    quotient and the remainder exact, that the correction loop leaves within the
    two turns Knuth's normalization promises, and that no intermediate value
    leaves its machine type. *)
From S2P Require Import Prelude BigNumMag.

(** The correction loop: [while (rhat <= 0xFFFFFFFF && qhat * vNext > ((rhat << 32) | u2))]. *)
Definition qhat_test (vNext u2 : Z) : Z * Z -> bool := fun '(qhat, rhat) =>
  (rhat <=? 0xFFFFFFFF) &&
  (Z.lor (u64 (Z.shiftl rhat 32)) u2 <? u64 (qhat * vNext)).

Definition qhat_body (vHigh : Z) : Z * Z -> Z * Z := fun '(qhat, rhat) =>
  (u64 (qhat - 1), u64 (rhat + vHigh)).

Definition trial_quotient (numerator vHigh vNext u2 : Z) : Z :=
  let qhat := numerator / vHigh in
  let rhat := numerator mod vHigh in
  let '(qhat, rhat) :=
    if 0xFFFFFFFF <? qhat
    then (0xFFFFFFFF, u64 (numerator - u64 (0xFFFFFFFF * vHigh)))
    else (qhat, rhat) in
  fst (while 3 (qhat_test vNext u2) (qhat_body vHigh) (qhat, rhat)).

(** [u[j..j+n] -= qhat * v], as one pass with a running borrow: the limbs, the
    borrow and the carry it ends with. *)
Definition mul_sub (v : list Z) (j : nat) (qhat : Z) (u : list Z) : list Z * Z * Z :=
  for_up (length v) 0 (fun i '(u, borrow, carry) =>
    let product := u64 (qhat * v.[i] + carry) in
    let carry := Z.shiftr product 32 in
    let diff := s64 u.[(i + j)%nat] - s64 (Z.land product 0xFFFFFFFF) - borrow in
    let '(diff, borrow) := if diff <? 0 then (diff + s64 kBase, 1) else (diff, 0) in
    (<[(i + j)%nat := u32 diff]> u, borrow, carry)) (u, 0, 0).

(** [u[j..j+n] += v], and the carry out of it. *)
Definition add_back (v : list Z) (j : nat) (u : list Z) : list Z * Z :=
  for_up (length v) 0 (fun i '(u, addCarry) =>
    let sum := u64 (u.[(i + j)%nat] + v.[i] + addCarry) in
    (<[(i + j)%nat := u32 sum]> u, Z.shiftr sum 32)) (u, 0).

(** One turn of the main loop, on the dividend and the quotient. *)
Definition divmod_step (v : list Z) (j : nat) (st : list Z * list Z) : list Z * list Z :=
  let '(u, quotient) := st in
  let n := length v in
  let vHigh := v.[(n - 1)%nat] in
  let vNext := v.[(n - 2)%nat] in
  let numerator := Z.lor (u64 (Z.shiftl u.[(j + n)%nat] 32)) u.[(j + n - 1)%nat] in
  let qhat := trial_quotient numerator vHigh vNext u.[(j + n - 2)%nat] in
  let '(u, borrow, carry) := mul_sub v j qhat u in
  let topDiff := s64 u.[(j + n)%nat] - s64 carry - borrow in
  let '(u, qhat, topDiff) :=
    if topDiff <? 0 then
      let topDiff := topDiff + s64 kBase in
      let qhat := u64 (qhat - 1) in
      let '(u, addCarry) := add_back v j u in
      (u, qhat, topDiff + s64 addCarry)
    else (u, qhat, topDiff) in
  (<[(j + n)%nat := u32 topDiff]> u, <[j := u32 qhat]> quotient).

(** The quotient and the remainder. *)
Definition divmodMagnitude (a b : list Z) : list Z * list Z :=
  if compareMagnitude a b <? 0 then ([], a)
  else if (length b =? 1)%nat then
    let '(quotient, rem) := divModSmall a b.[0%nat] in
    (quotient, if negb (rem =? 0) then [rem] else [])
  else
    let shift := u32 (32 - limbBits b.[(length b - 1)%nat]) in
    let u := shiftLeftBits a shift in
    let v := shiftLeftBits b shift in
    let n := length v in
    let m := if (n <=? length u)%nat then (length u - n)%nat else O in
    let u := u ++ [0] in
    let quotient := replicate (m + 1) 0 in
    let '(u, quotient) := for_down (m + 1) (divmod_step v) (u, quotient) in
    let quotient := pop_zeros quotient in
    let u := take n u in
    (quotient, fst (shiftRightBits u shift)).

(** ** Values read off limbs *)

Lemma mval_lt_limb_zero l k i :
  limbs_ok l -> mval l < wt k -> (k <= i)%nat -> l.[i] = 0.
Proof.
  intros Hl Hv Hi. pose proof (mval_drop l i) as E. rewrite mval_drop_S in E.
  pose proof (mval_nonneg _ (limbs_ok_take i l Hl)).
  pose proof (mval_nonneg _ (limbs_ok_drop (S i) l Hl)).
  pose proof (limb_range l i Hl). pose proof (wt_le k i Hi). pose proof (wt_pos i).
  rewrite kBase_eq in E. nia.
Qed.

Lemma mval_take_low l k :
  limbs_ok l -> mval l < wt k -> mval (take k l) = mval l.
Proof.
  intros Hl Hv. pose proof (mval_drop l k) as E.
  pose proof (mval_nonneg _ (limbs_ok_take k l Hl)).
  pose proof (mval_nonneg _ (limbs_ok_drop k l Hl)). pose proof (wt_pos k).
  assert (mval (drop k l) = 0) as E0 by nia. rewrite E0 in E. lia.
Qed.

(** A vector whose value is below [wt (S k)] is its low [k] limbs and limb [k]. *)
Lemma mval_window l k :
  limbs_ok l -> mval l < wt (S k) -> mval l = mval (take k l) + wt k * l.[k].
Proof. intros Hl Hv. by rewrite <- mval_take_S, mval_take_low. Qed.

Lemma land_mask32 z : Z.land z 0xFFFFFFFF = u32 z.
Proof. change 0xFFFFFFFF with (Z.ones 32). by rewrite Z.land_ones. Qed.

(** ** The two passes *)

Lemma mul_sub_loop v j qhat u n :
  limbs_ok v -> limbs_ok u -> limb_ok qhat ->
  (n <= length v)%nat -> (j + length v < length u)%nat ->
  let '(u', borrow, carry) :=
    for_up n 0 (fun i '(u, borrow, carry) =>
      let product := u64 (qhat * v.[i] + carry) in
      let carry := Z.shiftr product 32 in
      let diff := s64 u.[(i + j)%nat] - s64 (Z.land product 0xFFFFFFFF) - borrow in
      let '(diff, borrow) := if diff <? 0 then (diff + s64 kBase, 1) else (diff, 0) in
      (<[(i + j)%nat := u32 diff]> u, borrow, carry)) (u, 0, 0) in
  length u' = length u /\ limbs_ok u' /\ 0 <= borrow <= 1 /\ limb_ok carry /\
  (forall k, (n + j <= k)%nat -> u'.[k] = u.[k]) /\
  mval u' = mval u - wt j * qhat * mval (take n v) + wt (n + j) * (borrow + carry).
Proof.
  intros Hv Hu [Hq0 Hq1] Hn Hlen.
  apply (for_up_inv (fun i '(u', borrow, carry) =>
    length u' = length u /\ limbs_ok u' /\ 0 <= borrow <= 1 /\ limb_ok carry /\
    (forall k, (i + j <= k)%nat -> u'.[k] = u.[k]) /\
    mval u' = mval u - wt j * qhat * mval (take i v) + wt (i + j) * (borrow + carry))).
  - split_and!; auto with bronze; try lia. rewrite take_0. cbn [mval Nat.add]. ring.
  - intros i [[u' borrow] carry] Hi (Hl & Ho & Hbw & [Hc0 Hc1] & Hk & E). cbn zeta.
    pose proof (limb_range v i Hv). pose proof (limb_range u' (i + j) Ho).
    assert (0 <= qhat * v.[i] <= (2 ^ 32 - 1) * (2 ^ 32 - 1)) by nia.
    rewrite land_mask32, u64_small by lia. set (p := qhat * v.[i] + carry).
    pose proof (u32_shr32_split p) as Hs. pose proof (u32_range p).
    pose proof (shr32_range p ltac:(lia)) as Hsh.
    rewrite !s64_small by lia. change (s64 kBase) with (2 ^ 32).
    assert (wt (i + j) * p = wt (i + j) * u32 p + 2 ^ 32 * wt (i + j) * Z.shiftr p 32)
      as Hw by (rewrite <- Hs at 1; ring).
    assert (wt (i + j) * p = wt j * qhat * (wt i * v.[i]) + wt (i + j) * carry) as Hp
      by (unfold p; rewrite wt_add; ring).
    destruct (Z.ltb_spec (u'.[(i + j)%nat] - u32 p - borrow) 0); split_and!;
      autorewrite with bronze; auto with bronze; try lia; try (by split; lia);
      try (by intros k Hk'; rewrite limb_insert_ne by lia; apply Hk; lia);
      rewrite mval_insert, E, mval_take_S, u32_small, Nat.add_succ_l, wt_S, kBase_eq by lia;
      lia.
Qed.

Lemma mul_sub_spec v j qhat u :
  limbs_ok v -> limbs_ok u -> limb_ok qhat -> (j + length v < length u)%nat ->
  let '(u', borrow, carry) := mul_sub v j qhat u in
  length u' = length u /\ limbs_ok u' /\ 0 <= borrow <= 1 /\ limb_ok carry /\
  (forall k, (length v + j <= k)%nat -> u'.[k] = u.[k]) /\
  mval u' = mval u - wt j * qhat * mval v + wt (length v + j) * (borrow + carry).
Proof.
  intros Hv Hu Hq Hlen.
  pose proof (mul_sub_loop v j qhat u (length v) Hv Hu Hq (le_n _) Hlen) as H.
  rewrite take_ge in H by lia. exact H.
Qed.

Lemma add_back_loop v j u n :
  limbs_ok v -> limbs_ok u -> (n <= length v)%nat -> (j + length v < length u)%nat ->
  let '(u', addCarry) :=
    for_up n 0 (fun i '(u, addCarry) =>
      let sum := u64 (u.[(i + j)%nat] + v.[i] + addCarry) in
      (<[(i + j)%nat := u32 sum]> u, Z.shiftr sum 32)) (u, 0) in
  length u' = length u /\ limbs_ok u' /\ 0 <= addCarry <= 1 /\
  (forall k, (n + j <= k)%nat -> u'.[k] = u.[k]) /\
  mval u' = mval u + wt j * mval (take n v) - wt (n + j) * addCarry.
Proof.
  intros Hv Hu Hn Hlen.
  apply (for_up_inv (fun i '(u', addCarry) =>
    length u' = length u /\ limbs_ok u' /\ 0 <= addCarry <= 1 /\
    (forall k, (i + j <= k)%nat -> u'.[k] = u.[k]) /\
    mval u' = mval u + wt j * mval (take i v) - wt (i + j) * addCarry)).
  - split_and!; auto with bronze; try lia. rewrite take_0. cbn [mval Nat.add]. ring.
  - intros i [u' ac] Hi (Hl & Ho & Hac & Hk & E). cbn zeta.
    pose proof (limb_range v i Hv). pose proof (limb_range u' (i + j) Ho).
    rewrite u64_small by lia. set (s := u'.[(i + j)%nat] + v.[i] + ac).
    pose proof (u32_shr32_split s) as Hs. pose proof (u32_range s).
    assert (wt (i + j) * s = wt (i + j) * u32 s + 2 ^ 32 * wt (i + j) * Z.shiftr s 32)
      as Hw by (rewrite <- Hs at 1; ring).
    assert (wt (i + j) * s = wt (i + j) * u'.[(i + j)%nat] + wt j * (wt i * v.[i]) + wt (i + j) * ac)
      as Hp by (unfold s; rewrite wt_add; ring).
    loop_split.
    + intros k Hk'. rewrite limb_insert_ne by lia. apply Hk. lia.
    + rewrite mval_insert, E, mval_take_S, Nat.add_succ_l, wt_S, kBase_eq by lia. lia.
Qed.

Lemma add_back_spec v j u :
  limbs_ok v -> limbs_ok u -> (j + length v < length u)%nat ->
  let '(u', addCarry) := add_back v j u in
  length u' = length u /\ limbs_ok u' /\ 0 <= addCarry <= 1 /\
  (forall k, (length v + j <= k)%nat -> u'.[k] = u.[k]) /\
  mval u' = mval u + wt j * mval v - wt (length v + j) * addCarry.
Proof.
  intros Hv Hu Hlen. pose proof (add_back_loop v j u (length v) Hv Hu (le_n _) Hlen) as H.
  rewrite take_ge in H by lia. exact H.
Qed.

(** ** The trial quotient *)

(** What the trial quotient knows of the window [W] and the divisor [V]: their
    top two limbs and the next limb of the window, [P] the weight below. *)
Section Trial.
Context (num v1 v2 u2 P U3 V3 : Z).
Context (Hnum : 0 <= num) (Hv1 : 2 ^ 31 <= v1 < 2 ^ 32) (Hv2 : 0 <= v2 < 2 ^ 32).
Context (Hu2 : 0 <= u2 < 2 ^ 32) (HU3 : 0 <= U3 < P) (HV3 : 0 <= V3 < P).
Let W := (num * 2 ^ 32 + u2) * P + U3.
Let V := (v1 * 2 ^ 32 + v2) * P + V3.
Context (HW : W < 2 ^ 32 * V).

Let inv : Z * Z -> Prop := fun '(qhat, rhat) =>
  rhat = num - qhat * v1 /\ 0 <= rhat /\ 0 <= qhat <= 2 ^ 32 - 1 /\ W < (qhat + 1) * V.

Lemma trial_num_bound : num < (v1 + 1) * 2 ^ 32.
Proof.
  apply (Z.mul_lt_mono_pos_r (2 ^ 32 * P)); [lia|].
  assert (num * (2 ^ 32 * P) <= W) by (unfold W; nia).
  assert (V <= (v1 + 1) * 2 ^ 32 * P) by (unfold V; nia).
  nia.
Qed.

Lemma trial_test_eq qhat rhat :
  inv (qhat, rhat) ->
  qhat_test v2 u2 (qhat, rhat)
  = (rhat <=? 2 ^ 32 - 1) && (rhat * 2 ^ 32 + u2 <? qhat * v2).
Proof.
  intros (Er & Hr & Hq & _). cbn [qhat_test].
  change 0xFFFFFFFF with (2 ^ 32 - 1).
  destruct (Z.leb_spec rhat (2 ^ 32 - 1)); [|done]. cbn [andb].
  assert (qhat * v2 <= (2 ^ 32 - 1) * (2 ^ 32 - 1)) by nia.
  rewrite (u64_small (Z.shiftl rhat 32)) by (rewrite Z.shiftl_mul_pow2; lia).
  rewrite (u64_small (qhat * v2)) by lia. by rewrite lor_shiftl_add by lia.
Qed.

Lemma trial_body_inv qhat rhat :
  inv (qhat, rhat) -> qhat_test v2 u2 (qhat, rhat) = true ->
  inv (qhat_body v1 (qhat, rhat)) /\ rhat < 2 ^ 32 /\
  qhat_body v1 (qhat, rhat) = (qhat - 1, rhat + v1).
Proof.
  intros Hi Ht. rewrite (trial_test_eq _ _ Hi) in Ht.
  apply andb_prop in Ht as [H1%Z.leb_le H2%Z.ltb_lt].
  destruct Hi as (Er & Hr & Hq & Hub). cbn [qhat_body].
  assert (1 <= qhat) by nia.
  rewrite !u64_small by lia. unfold inv. cbn beta iota. split_and!; try lia; [|done].
  assert ((rhat * 2 ^ 32 + u2 + 1) * P <= qhat * v2 * P) by nia.
  assert (0 <= qhat * V3) by nia.
  assert (W = (rhat * 2 ^ 32 + u2) * P + qhat * v1 * 2 ^ 32 * P + U3)
    by (unfold W; rewrite Er; ring).
  assert (qhat * V = qhat * v1 * 2 ^ 32 * P + qhat * v2 * P + qhat * V3)
    by (unfold V; ring).
  replace (qhat - 1 + 1) with qhat by lia. lia.
Qed.

Lemma trial_start :
  let '(qhat, rhat) := (num / v1, num mod v1) in
  inv (if 0xFFFFFFFF <? qhat
       then (0xFFFFFFFF, u64 (num - u64 (0xFFFFFFFF * v1)))
       else (qhat, rhat)).
Proof.
  cbn beta iota. pose proof trial_num_bound as Hnb.
  pose proof (Z.div_mod num v1 ltac:(lia)) as Hdm.
  pose proof (Z.mod_pos_bound num v1 ltac:(lia)) as Hm.
  pose proof (Z.div_pos num v1 Hnum ltac:(lia)) as Hd0.
  change 0xFFFFFFFF with (2 ^ 32 - 1). destruct (Z.ltb_spec (2 ^ 32 - 1) (num / v1)).
  - assert (2 ^ 32 * v1 <= num).
    { transitivity (v1 * (num / v1)); [|lia]. rewrite (Z.mul_comm v1).
      apply Z.mul_le_mono_nonneg_r; lia. }
    rewrite (u64_small ((2 ^ 32 - 1) * v1)), u64_small by lia.
    unfold inv. cbn beta iota. split_and!; lia.
  - unfold inv. cbn beta iota. split_and!; try lia.
    assert (u2 * P <= (2 ^ 32 - 1) * P) by (apply Z.mul_le_mono_nonneg_r; lia).
    assert (W < (num + 1) * (2 ^ 32 * P)) by (unfold W; lia).
    assert ((num + 1) * (2 ^ 32 * P) <= (num / v1 + 1) * v1 * (2 ^ 32 * P))
      by (apply Z.mul_le_mono_nonneg_r; lia).
    assert (0 <= (num / v1 + 1) * (v2 * P + V3)).
    { apply Z.mul_nonneg_nonneg; [lia|]. assert (0 <= v2 * P) by (apply Z.mul_nonneg_nonneg; lia). lia. }
    unfold V. lia.
Qed.

(** Never below the true quotient and at most one above it; the loop exits
    through its test within the three tests given. *)
Lemma trial_quotient_spec :
  let q := trial_quotient num v1 v2 u2 in
  limb_ok q /\ W < (q + 1) * V /\ (q - 1) * V < W.
Proof.
  unfold trial_quotient. pose proof trial_start as Hs. cbn zeta beta iota in *.
  set (st := if _ <? _ then _ else _) in *. destruct st as [q0 r0].
  destruct (while_inv inv (fun '(_, r) => Z.to_nat (2 - r / 2 ^ 31)) 3
    (qhat_test v2 u2) (qhat_body v1) (q0, r0)) as [Hi Ht].
  - done.
  - intros [q r] Hi Ht. destruct (trial_body_inv q r Hi Ht) as (Hi' & Hr & Eb).
    rewrite Eb in *. split; [done|]. destruct Hi as (_ & Hr0 & _).
    assert (r / 2 ^ 31 + 1 <= (r + v1) / 2 ^ 31).
    { rewrite <- Z.div_add with (c := 2 ^ 31) by lia. apply Z.div_le_mono; lia. }
    assert (r / 2 ^ 31 < 2) by (apply Z.div_lt_upper_bound; lia). lia.
  - destruct Hs as (_ & Hr0 & _). pose proof (Z.div_pos r0 (2 ^ 31) Hr0 ltac:(lia)). lia.
  - destruct (while 3 _ _ _) as [q r]. rewrite (trial_test_eq _ _ Hi) in Ht. cbn [fst].
    destruct Hi as (Er & Hr & Hq & Hub). split_and!; [split; lia|done|].
    assert (W - q * V = (r * 2 ^ 32 + u2 - q * v2) * P + U3 - q * V3) as Ed
      by (unfold W, V; rewrite Er; ring).
    assert (q * V3 <= (2 ^ 32 - 1) * V3) by (apply Z.mul_le_mono_nonneg_r; lia).
    assert (1 * P <= v1 * P) by (apply Z.mul_le_mono_nonneg_r; lia).
    assert (0 <= v2 * P) by (apply Z.mul_nonneg_nonneg; lia).
    assert (2 ^ 32 * P <= V) by (unfold V; lia).
    assert (0 <= r * 2 ^ 32 + u2 - q * v2) as HX.
    { apply andb_false_iff in Ht as [Ht%Z.leb_gt|Ht%Z.ltb_ge]; [|lia].
      assert (q * v2 <= (2 ^ 32 - 1) * (2 ^ 32 - 1)) by (apply Z.mul_le_mono_nonneg; lia). lia. }
    pose proof (Z.mul_nonneg_nonneg _ P HX ltac:(lia)). lia.
Qed.
End Trial.

(** ** One turn of the main loop *)

(** The divisor by its top two limbs. *)
Lemma divisor_split v :
  limbs_ok v -> (2 <= length v)%nat ->
  exists V3, mval v = (v.[(length v - 1)%nat] * 2 ^ 32 + v.[(length v - 2)%nat])
                      * wt (length v - 2) + V3 /\
             0 <= V3 < wt (length v - 2).
Proof.
  intros Hv Hn. set (n := length v) in *. exists (mval (take (n - 2) v)).
  pose proof (mval_bound _ (limbs_ok_take (n - 2) v Hv)) as Hb.
  rewrite length_take, Nat.min_l in Hb by lia. split; [|done].
  rewrite <- (take_ge v n) at 1 by lia.
  replace n with (S (S (n - 2))) at 1 by lia. rewrite !mval_take_S, wt_S, kBase_eq.
  replace (S (n - 2)) with (n - 1)%nat by lia. ring.
Qed.

(** The dividend by the limbs below the window, the window's body and its top
    three limbs. *)
Lemma dividend_split u j n :
  limbs_ok u -> (2 <= n)%nat -> (j + n < length u)%nat -> mval u < wt (S (j + n)) ->
  exists low U3,
    mval u = low + wt j * (((u.[(j + n)%nat] * 2 ^ 32 + u.[(j + n - 1)%nat]) * 2 ^ 32
                            + u.[(j + n - 2)%nat]) * wt (n - 2) + U3) /\
    0 <= low < wt j /\ 0 <= U3 < wt (n - 2).
Proof.
  intros Hu Hn Hlen Hb. set (m := (j + n - 2)%nat).
  exists (mval (take j u)), (mval (drop j (take m u))).
  pose proof (mval_bound _ (limbs_ok_take j u Hu)) as Hlow.
  pose proof (mval_bound _ (limbs_ok_drop j _ (limbs_ok_take m u Hu))) as HU3.
  rewrite length_take, Nat.min_l in Hlow by lia.
  rewrite length_drop, length_take, Nat.min_l in HU3 by lia.
  replace (m - j)%nat with (n - 2)%nat in HU3 by lia. split_and!; try lia.
  rewrite (mval_window u (j + n)) by done.
  replace (j + n - 1)%nat with (S m) by lia. replace (j + n)%nat with (S (S m)) by lia.
  rewrite !mval_take_S, (mval_drop (take m u) j), take_take, Nat.min_l by lia.
  assert (wt m = wt j * wt (n - 2)) as Em by (rewrite <- wt_add; f_equal; lia).
  rewrite !wt_S, Em, kBase_eq. ring.
Qed.

Lemma mval_all_zero l : (forall i, l.[i] = 0) -> mval l = 0.
Proof.
  induction l as [|d l IH]; intros H; cbn [mval]; [done|].
  pose proof (H O) as H0. cbn in H0. rewrite H0, IH; [lia|]. intros i. apply (H (S i)).
Qed.

(** The window after the subtraction: what is left below it, and its top limb. *)
Lemma top_limb_split u1 u k D bc :
  limbs_ok u1 -> (k < length u1)%nat -> u1.[k] = u.[k] ->
  (forall i, (k < i)%nat -> u1.[i] = 0) ->
  mval u1 = D + wt k * bc ->
  exists L, 0 <= L < wt k /\ D = L + wt k * (u.[k] - bc) /\
            mval (take k u1) = L /\ mval u1 = L + wt k * u1.[k].
Proof.
  intros Ho Hl Ek Hz E. exists (mval (take k u1)).
  pose proof (mval_bound _ (limbs_ok_take k u1 Ho)) as Hb.
  rewrite length_take, Nat.min_l in Hb by lia.
  assert (mval u1 = mval (take k u1) + wt k * u1.[k]) as Ew.
  { rewrite <- mval_take_S. rewrite (mval_drop u1 (S k)) at 1.
    replace (mval (drop (S k) u1)) with 0; [ring|].
    symmetry. apply mval_all_zero. intros i. unfold limb. rewrite lookup_drop.
    apply Hz. lia. }
  rewrite <- Ek. split_and!; try done; lia.
Qed.

Lemma divmod_step_spec v j u quotient :
  limbs_ok v -> (2 <= length v)%nat -> 2 ^ 31 <= v.[(length v - 1)%nat] ->
  limbs_ok u -> (j + length v < length u)%nat -> mval u < wt (S j) * mval v ->
  limbs_ok quotient -> (j < length quotient)%nat -> quotient.[j] = 0 ->
  let '(u', quotient') := divmod_step v j (u, quotient) in
  length u' = length u /\ limbs_ok u' /\
  length quotient' = length quotient /\ limbs_ok quotient' /\
  (forall k, k <> j -> quotient'.[k] = quotient.[k]) /\
  mval u' < wt j * mval v /\
  mval quotient' * mval v + mval u' = mval quotient * mval v + mval u.
Proof.
  intros Hv Hn Htop Hu Hlen Hlt Hq Hj Hq0.
  set (n := length v) in *. set (V := mval v) in *.
  pose proof (mval_bound v Hv) as HVb. fold n V in HVb.
  pose proof (wt_pos j) as Hwj. pose proof (wt_pos (j + n)) as Hwjn.
  assert (wt j * V < wt (j + n)) as HjV.
  { rewrite wt_add. apply Z.mul_lt_mono_pos_l; lia. }
  assert (mval u < wt (S (j + n))) as Hub.
  { eapply Z.lt_le_trans; [exact Hlt|]. rewrite !wt_S. fold V. rewrite kBase_eq. lia. }
  destruct (divisor_split v Hv Hn) as (V3 & EV & HV3).
  destruct (dividend_split u j n Hu Hn Hlen Hub) as (low & U3 & EU & Hlow & HU3).
  fold n V in EV, HV3.
  pose proof (limb_range u (j + n) Hu) as H0. pose proof (limb_range u (j + n - 1) Hu) as H1.
  pose proof (limb_range u (j + n - 2) Hu) as H2.
  pose proof (limb_range v (n - 1) Hv) as Hv1. pose proof (limb_range v (n - 2) Hv) as Hv2.
  unfold divmod_step. fold n.
  rewrite u64_small by (rewrite Z.shiftl_mul_pow2; lia).
  rewrite lor_shiftl_add by lia. cbn zeta.
  set (num := u.[(j + n)%nat] * 2 ^ 32 + u.[(j + n - 1)%nat]) in *.
  set (W := (num * 2 ^ 32 + u.[(j + n - 2)%nat]) * wt (n - 2) + U3) in *.
  assert (HW : W < 2 ^ 32 * V).
  { apply (Z.mul_lt_mono_pos_l (wt j)); [done|]. rewrite wt_S, kBase_eq in Hlt. fold V in Hlt. lia. }
  pose proof (trial_quotient_spec num v.[(n - 1)%nat] v.[(n - 2)%nat] u.[(j + n - 2)%nat]
    (wt (n - 2)) U3 V3 ltac:(lia) ltac:(lia) Hv2 H2 HU3 HV3) as Hqh.
  rewrite <- EV in Hqh. specialize (Hqh HW). cbn zeta in Hqh. fold W in Hqh.
  set (qhat := trial_quotient _ _ _ _) in *. destruct Hqh as (Hqok & Hq1 & Hq2).
  pose proof (mul_sub_spec v j qhat u Hv Hu Hqok Hlen) as Hms. fold n V in Hms.
  destruct (mul_sub v j qhat u) as [[u1 borrow] carry].
  destruct Hms as (Hl1 & Ho1 & Hbw & Hca & Hk1 & E1).
  rewrite (Nat.add_comm n j) in *.
  destruct (top_limb_split u1 u (j + n) (mval u - wt j * qhat * V) (borrow + carry))
    as (L & HL & ED & EL & EW); try done; [lia|apply Hk1; lia| |].
  { intros i Hi. rewrite Hk1 by lia. eapply (mval_lt_limb_zero u (S (j + n))); auto; lia. }
  set (D := mval u - wt j * qhat * V) in *. set (T := u.[(j + n)%nat] - (borrow + carry)) in *.
  assert (HD : - (wt j * V) < D < wt j * V).
  { apply (Z.mul_lt_mono_pos_l (wt j)) in Hq2; [|done].
    assert (wt j * (W + 1) <= wt j * ((qhat + 1) * V)) by (apply Z.mul_le_mono_nonneg_l; lia).
    unfold D. lia. }
  assert (HT : T = 0 \/ T = -1).
  { assert (T < 1) by (apply (Z.mul_lt_mono_pos_l (wt (j + n))); lia).
    assert (-2 < T) by (apply (Z.mul_lt_mono_pos_l (wt (j + n))); lia). lia. }
  rewrite (Hk1 (j + n)%nat) in * by lia. destruct Hca as [Hca0 Hca1].
  rewrite !s64_small by lia. change (s64 kBase) with (2 ^ 32).
  replace (u.[(j + n)%nat] - carry - borrow) with T by (unfold T; lia).
  pose proof (Hqok) as [Hqok0 Hqok1].
  destruct HT as [HT|HT]; rewrite HT in *; cbn [Z.ltb Z.compare].
  - change (u32 0) with 0. rewrite (u32_small qhat) by lia. loop_split.
    + intros k Hk. by rewrite limb_insert_ne.
    + rewrite mval_insert, (Hk1 (j + n)%nat) by lia. lia.
    + rewrite !mval_insert, (Hk1 (j + n)%nat), Hq0 by lia. unfold D in *. lia.
  - assert (1 <= qhat).
    { destruct (Z.eq_dec qhat 0) as [E0|]; [|lia]. pose proof (mval_nonneg u Hu).
      unfold D in *. rewrite E0 in *. lia. }
    pose proof (add_back_spec v j u1 Hv Ho1 ltac:(fold n; lia)) as Hab. fold n V in Hab.
    destruct (add_back v j u1) as [u2 ac]. destruct Hab as (Hl2 & Ho2 & Hac & Hk2 & E2).
    rewrite (Nat.add_comm n j) in *.
    destruct (top_limb_split u2 u1 (j + n) (mval u1 + wt j * V) (- ac))
      as (L2 & HL2 & _ & _ & EW2); try done; [lia|apply Hk2; lia| |lia|].
    { intros i Hi. rewrite Hk2, Hk1 by lia. eapply (mval_lt_limb_zero u (S (j + n))); auto; lia. }
    rewrite (Hk2 (j + n)%nat), (Hk1 (j + n)%nat) in EW2 by lia.
    assert (ac = 1) as ->.
    { destruct (Z.eq_dec ac 0) as [->|]; [|lia]. exfalso. lia. }
    change (u32 (-1 + 2 ^ 32 + s64 1)) with 0.
    rewrite (u64_small (qhat - 1)), (u32_small (qhat - 1)) by lia. loop_split.
    + apply limbs_ok_insert; [done|split; lia].
    + intros k Hk. by rewrite limb_insert_ne.
    + rewrite mval_insert, (Hk2 (j + n)%nat), (Hk1 (j + n)%nat) by lia. lia.
    + rewrite !mval_insert, (Hk2 (j + n)%nat), (Hk1 (j + n)%nat), Hq0 by lia. unfold D in *. lia.
Qed.

(** ** The normalization *)

Lemma top_limb l : mag_ok l -> l <> [] -> 0 < l.[(length l - 1)%nat] < 2 ^ 32 /\ last l = Some l.[(length l - 1)%nat].
Proof.
  intros [Hl Ht] Hne. pose proof (limb_range l (length l - 1) Hl) as Hr.
  assert (last l = Some l.[(length l - 1)%nat]) as E.
  { rewrite last_lookup. replace (pred (length l)) with (length l - 1)%nat by lia.
    apply limb_lookup_lt. destruct l; cbn in *; [done|lia]. }
  split; [|done]. unfold top_ok in Ht. rewrite E in Ht.
  assert (l.[(length l - 1)%nat] <> 0) by congruence. lia.
Qed.

(** The value of a normalized vector fixes its length. *)
Lemma mag_length l k :
  mag_ok l -> wt k <= mval l < wt (S k) -> length l = S k.
Proof.
  intros Hl Hv. pose proof (mval_bound l (proj1 Hl)) as Hb.
  destruct (decide (l = [])) as [->|Hne].
  { cbn in Hv. pose proof (wt_pos k). lia. }
  destruct (top_limb l Hl Hne) as [Hr E].
  pose proof (mval_top_bound l _ (proj1 Hl) E ltac:(lia)) as Htb.
  assert (0 < length l)%nat by (destruct l; cbn; [done|lia]).
  destruct (Nat.lt_trichotomy (length l) (S k)) as [?|[?|?]]; [|done|].
  - pose proof (wt_le (length l) k ltac:(lia)). lia.
  - pose proof (wt_le (S k) (length l - 1) ltac:(lia)). lia.
Qed.

Lemma normalize_spec b :
  mag_ok b -> b <> [] ->
  let shift := u32 (32 - limbBits b.[(length b - 1)%nat]) in
  let v := shiftLeftBits b shift in
  0 <= shift < 32 /\ mag_ok v /\ mval v = mval b * 2 ^ shift /\
  length v = length b /\ 2 ^ 31 <= v.[(length v - 1)%nat].
Proof.
  intros Hb Hne. destruct (top_limb b Hb Hne) as [Htop Hlast]. cbn zeta.
  assert (0 < length b)%nat as Hlen by (destruct b; cbn; [done|lia]).
  set (k := (length b - 1)%nat) in *. set (t := b.[k]) in *.
  rewrite limbBits_spec by (split; lia).
  destruct (Z.eqb_spec t 0); [lia|].
  pose proof (Z.log2_spec t ltac:(lia)) as [HL0 HL1]. pose proof (Z.log2_nonneg t).
  assert (Z.log2 t < 32) by (apply Z.log2_lt_pow2; lia).
  rewrite u32_small by lia. set (sh := 32 - (Z.log2 t + 1)).
  destruct (shiftLeftBits_spec b sh (proj1 Hb) ltac:(lia)) as [Hm Hv].
  set (v := shiftLeftBits b sh) in *.
  pose proof (mval_take_S b k) as Eb. replace (S k) with (length b) in Eb by lia.
  rewrite take_ge in Eb by lia. fold t in Eb.
  pose proof (mval_bound _ (limbs_ok_take k b (proj1 Hb))) as Htk.
  rewrite length_take, Nat.min_l in Htk by lia.
  assert (wt k * 2 ^ 31 <= mval v < wt k * 2 ^ 32) as Hvb.
  { rewrite Hv. unfold sh. pose proof (wt_pos k).
    assert (2 ^ Z.log2 t * 2 ^ (32 - (Z.log2 t + 1)) = 2 ^ 31) as E31
      by (rewrite <- Z.pow_add_r by lia; f_equal; lia).
    rewrite Z.pow_succ_r in HL1 by lia. set (P := 2 ^ (32 - (Z.log2 t + 1))) in *.
    assert (0 < P) by (apply Z.pow_pos_nonneg; lia).
    split.
    - rewrite <- E31. rewrite Z.mul_assoc. apply Z.mul_le_mono_nonneg_r; [lia|].
      assert (wt k * 2 ^ Z.log2 t <= wt k * t) by (apply Z.mul_le_mono_nonneg_l; lia). lia.
    - replace (2 ^ 32) with (2 * 2 ^ Z.log2 t * P) by lia.
      rewrite Z.mul_assoc. apply Z.mul_lt_mono_pos_r; [lia|].
      assert (wt k * (t + 1) <= wt k * (2 * 2 ^ Z.log2 t)) by (apply Z.mul_le_mono_nonneg_l; lia).
      lia. }
  assert (length v = length b) as El.
  { replace (length b) with (S k) by lia. apply mag_length; [done|].
    rewrite wt_S, kBase_eq. pose proof (wt_pos k). lia. }
  split_and!; try done; try lia. rewrite El. fold k.
  pose proof (mval_take_S v k) as Ev. rewrite take_ge in Ev by lia.
  pose proof (mval_bound _ (limbs_ok_take k v (proj1 Hm))) as Htv.
  rewrite length_take, Nat.min_l in Htv by lia. pose proof (wt_pos k).
  assert (2 ^ 31 < v.[k] + 1); [|lia].
  apply (Z.mul_lt_mono_pos_l (wt k)); lia.
Qed.

(** ** The main loop *)

Lemma divmod_loop v u m :
  limbs_ok v -> (2 <= length v)%nat -> 2 ^ 31 <= v.[(length v - 1)%nat] ->
  limbs_ok u -> (m + length v < length u)%nat -> mval u < wt (S m) * mval v ->
  let '(u', quotient) := for_down (m + 1) (divmod_step v) (u, replicate (m + 1) 0) in
  limbs_ok u' /\ limbs_ok quotient /\ length u' = length u /\
  mval u' < mval v /\ mval quotient * mval v + mval u' = mval u.
Proof.
  intros Hv Hn Htop Hu Hlen Hlt.
  assert (let '(u', quotient) := for_down (m + 1) (divmod_step v) (u, replicate (m + 1) 0) in
    limbs_ok u' /\ limbs_ok quotient /\ length u' = length u /\
    length quotient = (m + 1)%nat /\ (forall k, (k < 0)%nat -> quotient.[k] = 0) /\
    mval u' < wt 0 * mval v /\ mval quotient * mval v + mval u' = mval u) as H.
  { apply (for_down_inv (fun j '(u', quotient) =>
      limbs_ok u' /\ limbs_ok quotient /\ length u' = length u /\
      length quotient = (m + 1)%nat /\ (forall k, (k < j)%nat -> quotient.[k] = 0) /\
      mval u' < wt j * mval v /\ mval quotient * mval v + mval u' = mval u)).
    - split_and!; auto using limbs_ok_zeros.
      + by rewrite length_replicate.
      + intros k _. apply limb_zeros.
      + by rewrite Nat.add_1_r.
      + rewrite mval_zeros. lia.
    - intros j [u' quotient] Hj (Ho & Hq & Hl & Hlq & Hz & Hb & E).
      pose proof (divmod_step_spec v j u' quotient Hv Hn Htop Ho ltac:(lia) Hb Hq
        ltac:(lia) (Hz j ltac:(lia))) as Hs.
      destruct (divmod_step v j (u', quotient)) as [u'' q''].
      destruct Hs as (? & ? & ? & ? & Hk & ? & ?). split_and!; try done; try lia.
      intros k Hkj. rewrite Hk by lia. apply Hz. lia. }
  destruct (for_down _ _ _) as [u' quotient]. rewrite wt_0 in H.
  destruct H as (? & ? & ? & _ & _ & ? & ?). split_and!; try done. lia.
Qed.

(** ** The whole division *)

Lemma divmodMagnitude_spec a b :
  mag_ok a -> mag_ok b -> b <> [] ->
  let '(q, r) := divmodMagnitude a b in
  mag_ok q /\ mag_ok r /\ mval q = mval a / mval b /\ mval r = mval a mod mval b.
Proof.
  intros Ha Hb Hne.
  assert (0 < mval b) as HB.
  { pose proof (mval_nonneg b (proj1 Hb)). 
    assert (mval b <> 0) by (by rewrite mval_zero_iff). lia. }
  pose proof (mval_nonneg a (proj1 Ha)) as HA.
  unfold divmodMagnitude. rewrite compareMagnitude_spec by done.
  destruct (Z.ltb_spec (mval a) (mval b)) as [Hlt|Hge].
  { cbn beta iota. cbn [Z.ltb Z.compare]. split_and!; auto using mag_ok_nil.
    - cbn. by rewrite Z.div_small by lia.
    - by rewrite Z.mod_small by lia. }
  replace ((if mval b <? mval a then 1 else 0) <? 0) with false
    by (destruct (mval b <? mval a); reflexivity).
  destruct (Nat.eqb_spec (length b) 1) as [Hl1|Hl1].
  { destruct b as [|d [|]]; try discriminate. cbn [limb lookup list_lookup default].
    cbn [mval] in *. rewrite Z.mul_0_r, Z.add_0_r in *. destruct Hb as [Hd Ht].
    pose proof (limb_range [d] 0 Hd) as Hdr. change ([d].[0%nat]) with d in Hdr.
    pose proof (divModSmall_spec a d (proj1 Ha) ltac:(lia)) as Hs.
    cbv beta iota delta [id]. destruct (divModSmall a d) as [q r].
    destruct Hs as (Hq & Eq & Er). split_and!; auto.
    - destruct (Z.eqb_spec r 0); cbn; [apply mag_ok_nil|].
      pose proof (Z.mod_pos_bound (mval a) d ltac:(lia)).
      split; [apply Forall_singleton; split; lia|]. unfold top_ok. cbn. congruence.
    - destruct (Z.eqb_spec r 0); cbn; lia. }
  pose proof (normalize_spec b Hb Hne) as Hn. cbn zeta in Hn.
  set (sh := u32 _) in *. destruct Hn as (Hsh & Hvm & Ev & Hlv & Htop).
  set (v := shiftLeftBits b sh) in *.
  destruct (shiftLeftBits_spec a sh (proj1 Ha) ltac:(lia)) as [Hum Eu].
  set (u := shiftLeftBits a sh) in *.
  assert (0 < 2 ^ sh) as Hp by (apply Z.pow_pos_nonneg; lia).
  assert (length b <> 0)%nat by (destruct b; cbn; [done|lia]).
  assert (length v <= length u)%nat as Hlvu.
  { destruct (Nat.le_gt_cases (length v) (length u)) as [?|Hlt]; [done|].
    pose proof (mag_len_lt u v Hum Hvm Hlt).
    assert (mval b * 2 ^ sh <= mval a * 2 ^ sh) by (apply Z.mul_le_mono_nonneg_r; lia). lia. }
  replace (length v <=? length u)%nat with true by (symmetry; by apply Nat.leb_le).
  set (m := (length u - length v)%nat).
  assert (mval (u ++ [0]) = mval u) as Eu0 by (rewrite mval_snoc; lia).
  assert (mval u < wt (S m) * mval v) as Hlt.
  { pose proof (mval_bound u (proj1 Hum)) as Hub.
    destruct (top_limb v Hvm) as [Hvt Hvl]; [by intros Ev0; rewrite Ev0 in *; cbn in *; lia|].
    pose proof (mval_top_bound v _ (proj1 Hvm) Hvl ltac:(lia)) as Hvb.
    replace (length u) with (S m + (length v - 1))%nat in Hub by lia. rewrite wt_add in Hub.
    pose proof (wt_pos (S m)).
    apply (Z.mul_le_mono_nonneg_l _ _ (wt (S m))) in Hvb; lia. }
  pose proof (divmod_loop v (u ++ [0]) m (proj1 Hvm) ltac:(lia) Htop
    (limbs_ok_snoc _ _ (proj1 Hum) limb_ok_0) ltac:(autorewrite with bronze; cbn; lia)
    ltac:(lia)) as Hloop.
  destruct (for_down _ _ _) as [u' quotient]. destruct Hloop as (Ho & Hq & Hlu & Hrem & E).
  rewrite Eu0, Eu, Ev in E. rewrite Ev in Hrem.
  pose proof (shiftRightBits_spec (take (length v) u') sh (limbs_ok_take _ _ Ho) ltac:(lia)) as Hsr.
  rewrite mval_take_low in Hsr
    by (try done; pose proof (mval_bound v (proj1 Hvm)); lia).
  destruct (shiftRightBits _ sh) as [r lost]. destruct Hsr as (Hr & Er & _). cbn [fst].
  pose proof (mval_nonneg u' Ho). rewrite pop_zeros_mval, Er.
  assert (mval quotient = (mval a * 2 ^ sh) / (mval b * 2 ^ sh)) as Eq
    by (apply Z.div_unique with (mval u'); lia).
  assert (mval u' = (mval a * 2 ^ sh) mod (mval b * 2 ^ sh)) as Eur
    by (apply Z.mod_unique with (mval quotient); lia).
  split_and!; [auto using pop_zeros_mag|done| |].
  - rewrite Eq. apply Z.div_mul_cancel_r; lia.
  - rewrite Eur, Z.mul_mod_distr_r by lia. apply Z.div_mul. lia.
Qed.
