(* ===== verification/BigNumOps.v ===== *)
(** * Arbitrary-precision integers

    [class BigNum] of [src/src/runtime/bignum.{h,cpp}]: sign and magnitude, one
    zero, and the operations of the BigInt type over them.  [val] is the integer
    a [BigNum] stands for and [wf] the representation invariant ([trim]); every
    operation is shown to keep [wf] and to compute, on [val], the integer
    function the language defines it by, with the exact conditions under which it
    reports an error instead. *)
From S2P Require Import Prelude BigNumMag BigNumDiv.

Record BigNum := mkBigNum { negative_ : bool; mag_ : list Z }.

Inductive BigNumError := None' | DivideByZero | NegativeExponent | TooLarge | BadDigits.

#[global] Instance BigNumError_eq_dec : EqDecision BigNumError.
Proof. solve_decision. Defined.

Definition kMaxBits : Z := Z.shiftl 1 24.

(** [BigNum()] *)
Definition zero : BigNum := mkBigNum false [].

Definition isZero (x : BigNum) : bool := empty (mag_ x).
Definition isNegative (x : BigNum) : bool := negative_ x.
Definition sign (x : BigNum) : Z :=
  if empty (mag_ x) then 0 else if negative_ x then -1 else 1.

Definition trim (x : BigNum) : BigNum :=
  let mag := pop_zeros (mag_ x) in
  mkBigNum (if empty mag then false else negative_ x) mag.

Definition fromUint64 (v : Z) : BigNum :=
  mkBigNum false
    (if negb (v =? 0)
     then u32 v :: (if negb (Z.shiftr v 32 =? 0) then [u32 (Z.shiftr v 32)] else [])
     else []).

Definition fromInt64 (v : Z) : BigNum :=
  let magnitude := if v <? 0 then u64 (Z.lnot (u64 v) + 1) else u64 v in
  let out := fromUint64 magnitude in
  mkBigNum ((v <? 0) && negb (empty (mag_ out))) (mag_ out).

Definition fromLimbs (data : list Z) (negative : bool) : BigNum :=
  trim (mkBigNum negative data).

Definition bitLength (x : BigNum) : Z :=
  if empty (mag_ x) then 0
  else u64 (u64 ((Z.of_nat (length (mag_ x)) - 1) * 32)
            + limbBits (mag_ x).[(length (mag_ x) - 1)%nat]).

Definition compare (a b : BigNum) : Z :=
  if negb (Bool.eqb (negative_ a) (negative_ b)) then if negative_ a then -1 else 1
  else
    let magnitudeOrder := compareMagnitude (mag_ a) (mag_ b) in
    if negative_ a then - magnitudeOrder else magnitudeOrder.

Definition add (a b : BigNum) : BigNum :=
  if Bool.eqb (negative_ a) (negative_ b) then
    trim (mkBigNum (negative_ a) (addMagnitude (mag_ a) (mag_ b)))
  else
    let order := compareMagnitude (mag_ a) (mag_ b) in
    if order =? 0 then zero
    else if 0 <? order then trim (mkBigNum (negative_ a) (subMagnitude (mag_ a) (mag_ b)))
    else trim (mkBigNum (negative_ b) (subMagnitude (mag_ b) (mag_ a))).

Definition negate (a : BigNum) : BigNum := trim (mkBigNum (negb (negative_ a)) (mag_ a)).

Definition sub (a b : BigNum) : BigNum := add a (negate b).

Definition mul (a b : BigNum) : BigNum :=
  trim (mkBigNum (negb (Bool.eqb (negative_ a) (negative_ b))) (mulMagnitude (mag_ a) (mag_ b))).

(** [None] is the [false] of the code: neither output is written. *)
Definition divmod (a b : BigNum) : option (BigNum * BigNum) :=
  if isZero b then None
  else
    let '(q, r) := divmodMagnitude (mag_ a) (mag_ b) in
    Some (trim (mkBigNum (negb (Bool.eqb (negative_ a) (negative_ b))) q),
          trim (mkBigNum (negative_ a) r)).

(** The magnitude's low 64 bits, when it fits in them. *)
Definition magnitudeToUint64 (x : BigNum) : option Z :=
  let mag := mag_ x in
  if (2 <? length mag)%nat then None
  else
    let out := if (1 <=? length mag)%nat then mag.[0%nat] else 0 in
    Some (if (length mag =? 2)%nat then Z.lor out (u64 (Z.shiftl mag.[1%nat] 32)) else out).

(** One turn of the squaring loop of [pow]. *)
Definition pow_step : Z * BigNum * BigNum -> Z * BigNum * BigNum :=
  fun '(e, result, square) =>
    let result := if negb (Z.land e 1 =? 0) then mul result square else result in
    let e := Z.shiftr e 1 in
    let square := if 0 <? e then mul square square else square in
    (e, result, square).

(** [while (e > 0)]: 64 turns halve any [uint64_t] to zero. *)
Definition pow_loop (e : Z) (result square : BigNum) : BigNum :=
  let '(_, result, _) :=
    while 64 (fun '(e, _, _) => 0 <? e) pow_step (e, result, square) in
  result.

Definition pow (base exponent : BigNum) : BigNum * BigNumError :=
  if isNegative exponent then (zero, NegativeExponent)
  else match magnitudeToUint64 exponent with
  | None => (zero, TooLarge)
  | Some e =>
    if e =? 0 then (fromUint64 1, None')
    else if isZero base then (zero, None')
    else
      let bits := bitLength base in
      if (1 <? bits) && (kMaxBits <? u64 (bits * e)) then (zero, TooLarge)
      else if (bits =? 1) && (kMaxBits <? e) then
        (mkBigNum (negative_ base && (e mod 2 =? 1)) (mag_ base), None')
      else (pow_loop e (fromUint64 1) base, None')
  end.

(** [shiftLeft] and [shiftRight] call each other on a negative count; the count
    passed on is positive, so the second call never returns to the first and two
    levels are all there are. *)
Fixpoint shiftLeft_at (depth : nat) (a count : BigNum) : BigNum * BigNumError :=
  match depth with
  | O => (zero, None')
  | S depth =>
    if isNegative count then shiftRight_at depth a (negate count)
    else if isZero a then (zero, None')
    else match magnitudeToUint64 count with
    | None => (zero, TooLarge)
    | Some bits =>
      if kMaxBits <? u64 (bitLength a + bits) then (zero, TooLarge)
      else (trim (mkBigNum (negative_ a) (shiftLeftBits (mag_ a) bits)), None')
    end
  end
with shiftRight_at (depth : nat) (a count : BigNum) : BigNum * BigNumError :=
  match depth with
  | O => (zero, None')
  | S depth =>
    if isNegative count then shiftLeft_at depth a (negate count)
    else if isZero a then (zero, None')
    else match magnitudeToUint64 count with
    | None => (if negative_ a then fromInt64 (-1) else zero, None')
    | Some bits =>
      let '(mag, lost) := shiftRightBits (mag_ a) bits in
      let out := trim (mkBigNum (negative_ a) mag) in
      (if negative_ a && lost then sub out (fromUint64 1) else out, None')
    end
  end.

Definition shiftLeft := shiftLeft_at 2.
Definition shiftRight := shiftRight_at 2.

(** [~limb] over [uint32_t]. *)
Definition not32 (d : Z) : Z := u32 (Z.lnot d).

(** Complement every limb and add one, the carry out of the top dropped: the loop
    [twosComplement] and [fromTwosComplement] both run. *)
Definition negate_limbs (limbs : list Z) : list Z :=
  fst (for_up (length limbs) 0 (fun i '(out, carry) =>
    let inverted := u64 (not32 out.[i] + carry) in
    (<[i := u32 inverted]> out, Z.shiftr inverted 32)) (limbs, 1)).

Definition twosComplement (x : BigNum) (count : nat) : list Z :=
  let out := for_up (count `min` length (mag_ x)) 0
    (fun i out => <[i := (mag_ x).[i]]> out) (replicate count 0) in
  if negative_ x then negate_limbs out else out.

Definition fromTwosComplement (limbs : list Z) (negative : bool) : BigNum :=
  trim (mkBigNum negative (if negative then negate_limbs limbs else limbs)).

(** [for (size_t i = 0; i < count; ++i) lhs[i] op= rhs[i];] *)
Definition limbwise (op : Z -> Z -> Z) (count : nat) (lhs rhs : list Z) : list Z :=
  for_up count 0 (fun i lhs => <[i := op lhs.[i] rhs.[i]]> lhs) lhs.

Definition bitAnd (a b : BigNum) : BigNum :=
  let count := (length (mag_ a) `max` length (mag_ b) + 1)%nat in
  fromTwosComplement (limbwise Z.land count (twosComplement a count) (twosComplement b count))
    (negative_ a && negative_ b).

Definition bitOr (a b : BigNum) : BigNum :=
  let count := (length (mag_ a) `max` length (mag_ b) + 1)%nat in
  fromTwosComplement (limbwise Z.lor count (twosComplement a count) (twosComplement b count))
    (negative_ a || negative_ b).

Definition bitXor (a b : BigNum) : BigNum :=
  let count := (length (mag_ a) `max` length (mag_ b) + 1)%nat in
  fromTwosComplement (limbwise Z.lxor count (twosComplement a count) (twosComplement b count))
    (negb (Bool.eqb (negative_ a) (negative_ b))).

Definition bitNot (a : BigNum) : BigNum := sub (fromInt64 (-1)) a.

Definition asUintN (bits : Z) (a : BigNum) : BigNum * BigNumError :=
  if bits =? 0 then (zero, None')
  else if kMaxBits <? bits then (zero, TooLarge)
  else
    let count := Z.to_nat (u64 (bits + 31) / 32) in
    let limbs := take count (twosComplement a (count `max` (length (mag_ a) + 1))) in
    let topBits := bits mod 32 in
    let limbs :=
      if negb (topBits =? 0)
      then <[(length limbs - 1)%nat :=
              Z.land limbs.[(length limbs - 1)%nat] (u32 (u32 (Z.shiftl 1 topBits) - 1))]> limbs
      else limbs in
    (trim (mkBigNum false limbs), None').

Definition asIntN (bits : Z) (a : BigNum) : BigNum * BigNumError :=
  let '(wrapped, err) := asUintN bits a in
  if negb (bool_decide (err = None')) || (bits =? 0) then (wrapped, err)
  else
    let '(half, shiftErr) := shiftLeft (fromUint64 1) (fromUint64 (u64 (bits - 1))) in
    if negb (bool_decide (shiftErr = None')) then (zero, shiftErr)
    else if compare wrapped half <? 0 then (wrapped, None')
    else
      let '(whole, shiftErr) := shiftLeft (fromUint64 1) (fromUint64 bits) in
      if negb (bool_decide (shiftErr = None')) then (zero, shiftErr)
      else (sub wrapped whole, None').

(** ** The integer a [BigNum] stands for, and the invariant of its fields *)

Definition val (x : BigNum) : Z := if negative_ x then - mval (mag_ x) else mval (mag_ x).

Definition wf (x : BigNum) : Prop :=
  mag_ok (mag_ x) /\ (mag_ x = [] -> negative_ x = false).

(** A vector of limbs that fits in an address space. *)
Definition fits (x : BigNum) : Prop := (Z.of_nat (length (mag_ x)) < 2 ^ 58)%Z.

Lemma wf_zero : wf zero. Proof. by split; [apply mag_ok_nil|]. Qed.

Lemma wf_limbs x : wf x -> limbs_ok (mag_ x). Proof. intros [[H _] _]. exact H. Qed.
Lemma wf_mag x : wf x -> mag_ok (mag_ x). Proof. intros [H _]. exact H. Qed.

#[export] Hint Resolve wf_zero wf_limbs wf_mag : bronze.

Lemma wf_mval_nonneg x : wf x -> 0 <= mval (mag_ x).
Proof. intros H. apply mval_nonneg. by apply wf_limbs. Qed.

Lemma wf_isZero x : wf x -> isZero x = (val x =? 0).
Proof.
  intros H. unfold isZero, val. pose proof (mval_zero_iff _ (wf_mag _ H)) as Hz.
  pose proof (empty_spec (mag_ x)) as He. destruct (empty (mag_ x)).
  - rewrite He. by destruct (negative_ x).
  - symmetry. apply Z.eqb_neq. assert (mval (mag_ x) <> 0).
    { rewrite Hz. intros E. rewrite E in He. cbn in He. lia. }
    destruct (negative_ x); lia.
Qed.

Lemma wf_negative x : wf x -> negative_ x = (val x <? 0).
Proof.
  intros H. pose proof (wf_mval_nonneg x H). destruct H as [Hm Hn]. unfold val.
  pose proof (mval_zero_iff _ Hm) as Hz. destruct (negative_ x) eqn:E.
  - assert (mval (mag_ x) <> 0) by (rewrite Hz; intros E'; specialize (Hn E'); congruence).
    symmetry. apply Z.ltb_lt. lia.
  - symmetry. apply Z.ltb_ge. lia.
Qed.

Lemma wf_mval x : wf x -> mval (mag_ x) = Z.abs (val x).
Proof. intros H. pose proof (wf_mval_nonneg x H). unfold val. destruct (negative_ x); lia. Qed.

(** Equality of representations is equality of the integers. *)
Lemma val_inj x y : wf x -> wf y -> val x = val y -> x = y.
Proof.
  intros Hx Hy E. pose proof (wf_negative x Hx) as Nx. pose proof (wf_negative y Hy) as Ny.
  pose proof (wf_mval x Hx) as Mx. pose proof (wf_mval y Hy) as My. rewrite E in *.
  assert (mag_ x = mag_ y) as Em by (apply mval_inj; auto with bronze; congruence).
  destruct x, y. cbn in *. congruence.
Qed.

Lemma trim_spec n m :
  limbs_ok m ->
  wf (trim (mkBigNum n m)) /\ val (trim (mkBigNum n m)) = if n then - mval m else mval m.
Proof.
  intros Hm. unfold trim, wf, val. cbn [mag_ negative_].
  pose proof (pop_zeros_mag m Hm) as Hp. pose proof (empty_spec (pop_zeros m)) as He.
  pose proof (pop_zeros_mval m) as Ev.
  split.
  - split; [done|]. intros E. rewrite E. done.
  - destruct (empty (pop_zeros m)); rewrite <- Ev; [rewrite He; by destruct n|done].
Qed.

Lemma wf_trim n m : limbs_ok m -> wf (trim (mkBigNum n m)).
Proof. intros H. apply (trim_spec n m H). Qed.

Lemma val_trim n m : limbs_ok m -> val (trim (mkBigNum n m)) = if n then - mval m else mval m.
Proof. intros H. apply (trim_spec n m H). Qed.

(** ** Construction and conversion *)

Lemma fromUint64_spec v : 0 <= v < 2 ^ 64 -> wf (fromUint64 v) /\ val (fromUint64 v) = v.
Proof.
  intros Hv. unfold fromUint64, wf, val. cbn [mag_ negative_].
  pose proof (u32_shr32_split v) as Es. pose proof (u32_range v).
  pose proof (shr32_range v Hv) as Hs. rewrite (u32_small (Z.shiftr v 32)) by lia.
  destruct (Z.eqb_spec v 0) as [->|Hne]; cbn [negb].
  { split; [split; [apply mag_ok_nil|done]|done]. }
  destruct (Z.eqb_spec (Z.shiftr v 32) 0) as [E|E]; cbn [negb mval];
    rewrite kBase_eq; (split; [split; [split|]|]); try done; try lia;
    try (repeat constructor; lia); unfold top_ok; cbn; intros [= ?]; lia.
Qed.

Lemma fromInt64_spec v : - 2 ^ 63 <= v < 2 ^ 63 -> wf (fromInt64 v) /\ val (fromInt64 v) = v.
Proof.
  intros Hv. unfold fromInt64.
  set (m := if v <? 0 then _ else _).
  assert (m = Z.abs v) as ->.
  { unfold m. destruct (Z.ltb_spec v 0).
    - unfold Z.lnot, u64. assert (v mod 2 ^ 64 = v + 2 ^ 64) as ->
        by (symmetry; apply Z.mod_unique with (-1); lia).
      symmetry. apply Z.mod_unique with (-1); lia.
    - rewrite u64_small; lia. }
  destruct (fromUint64_spec (Z.abs v) ltac:(lia)) as [[Hm _] Ev].
  unfold val in Ev. cbn [negative_] in Ev.
  change (negative_ (fromUint64 (Z.abs v))) with false in Ev. cbn beta iota in Ev.
  unfold wf, val. cbn [mag_ negative_]. pose proof (empty_spec (mag_ (fromUint64 (Z.abs v)))) as He.
  destruct (empty _) eqn:E; cbn [negb]; rewrite ?andb_false_r, ?andb_true_r.
  - rewrite He in Ev |- *. cbn in Ev |- *. split; [split; [apply mag_ok_nil|done]|lia].
  - split; [split; [done|]|].
    + intros E0. rewrite E0 in He. cbn in He. lia.
    + rewrite Ev. destruct (Z.ltb_spec v 0); lia.
Qed.

Lemma fromLimbs_spec data negative :
  limbs_ok data ->
  wf (fromLimbs data negative) /\
  val (fromLimbs data negative) = if negative then - mval data else mval data.
Proof. apply trim_spec. Qed.

Lemma magnitudeToUint64_spec x :
  wf x -> magnitudeToUint64 x = if Z.abs (val x) <? 2 ^ 64 then Some (Z.abs (val x)) else None.
Proof.
  intros Hx. rewrite <- (wf_mval x Hx). unfold magnitudeToUint64.
  pose proof (wf_mag x Hx) as Hm. pose proof (wf_limbs x Hx) as Hl.
  destruct (Nat.ltb_spec 2 (length (mag_ x))) as [H2|H2].
  - destruct (top_limb (mag_ x) Hm) as [Ht Hlast]; [by intros E; rewrite E in H2; cbn in H2; lia|].
    pose proof (mval_top_bound _ _ Hl Hlast ltac:(lia)) as Hb.
    pose proof (wt_le 2 (length (mag_ x) - 1) ltac:(lia)). change (wt 2) with (2 ^ 64) in *.
    destruct (Z.ltb_spec (mval (mag_ x)) (2 ^ 64)); [lia|done].
  - pose proof (mval_bound _ Hl) as Hb.
    pose proof (limb_range _ 0 Hl) as H0. pose proof (limb_range _ 1 Hl) as H1.
    destruct (mag_ x) as [|d0 [|d1 [|]]]; cbn [length] in *; try lia; cbn [Nat.leb Nat.eqb mval].
    + done.
    + change (wt 1) with (2 ^ 32) in Hb. cbn [mval] in Hb.
      destruct (Z.ltb_spec (d0 + kBase * 0) (2 ^ 64)); [|lia]. f_equal.
      rewrite Z.mul_0_r, Z.add_0_r. done.
    + change ([d0; d1].[0%nat]) with d0 in *. change ([d0; d1].[1%nat]) with d1 in *.
      change (wt 2) with (2 ^ 64) in Hb. cbn [mval] in Hb.
      destruct (Z.ltb_spec (d0 + kBase * (d1 + kBase * 0)) (2 ^ 64)); [|lia].
      rewrite u64_small by (rewrite Z.shiftl_mul_pow2; lia).
      rewrite Z.lor_comm, lor_shiftl_add by lia. f_equal. rewrite kBase_eq. lia.
Qed.

Lemma bitLength_spec x :
  wf x -> fits x -> bitLength x = if val x =? 0 then 0 else Z.log2 (Z.abs (val x)) + 1.
Proof.
  intros Hx Hf. unfold fits in Hf. pose proof (wf_isZero x Hx) as Ez. unfold isZero in Ez.
  unfold bitLength. rewrite Ez. destruct (Z.eqb_spec (val x) 0) as [|Hne]; [done|].
  rewrite <- (wf_mval x Hx). pose proof (wf_mag x Hx) as Hm. pose proof (wf_limbs x Hx) as Hl.
  pose proof (empty_spec (mag_ x)) as He. rewrite Ez in He. set (l := mag_ x) in *.
  destruct (top_limb l Hm) as [Ht _]; [by intros E; rewrite E in He; cbn in He; lia|].
  set (k := (length l - 1)%nat) in *.
  rewrite limbBits_spec by (split; lia). destruct (Z.eqb_spec l.[k] 0); [lia|].
  pose proof (Z.log2_spec l.[k] ltac:(lia)) as [HL0 HL1].
  pose proof (Z.log2_nonneg l.[k]). assert (Z.log2 l.[k] < 32) by (apply Z.log2_lt_pow2; lia).
  replace (Z.of_nat (length l) - 1) with (Z.of_nat k) by lia.
  rewrite (u64_small (Z.of_nat k * 32)), u64_small by lia.
  pose proof (mval_take_S l k) as E. rewrite take_ge in E by lia.
  pose proof (mval_bound _ (limbs_ok_take k l Hl)) as Hb.
  rewrite length_take, Nat.min_l in Hb by lia.
  rewrite wt_pow2 in *. rewrite Z.pow_succ_r in HL1 by lia.
  assert (0 < 2 ^ (32 * Z.of_nat k)) by (apply Z.pow_pos_nonneg; lia).
  replace (Z.of_nat k * 32 + (Z.log2 l.[k] + 1)) with (32 * Z.of_nat k + Z.log2 l.[k] + 1) by lia.
  f_equal. symmetry. apply Z.log2_unique; [lia|].
  rewrite E, Z.pow_add_r, Z.pow_succ_r, Z.pow_add_r by lia.
  assert (2 ^ (32 * Z.of_nat k) * 2 ^ Z.log2 l.[k] <= 2 ^ (32 * Z.of_nat k) * l.[k])
    by (apply Z.mul_le_mono_nonneg_l; lia).
  assert (2 ^ (32 * Z.of_nat k) * (l.[k] + 1) <= 2 ^ (32 * Z.of_nat k) * (2 * 2 ^ Z.log2 l.[k]))
    by (apply Z.mul_le_mono_nonneg_l; lia).
  lia.
Qed.

(** ** Comparison and the ring operations *)

Lemma compare_spec a b :
  wf a -> wf b ->
  compare a b = if val a <? val b then -1 else if val b <? val a then 1 else 0.
Proof.
  intros Ha Hb. unfold compare.
  pose proof (wf_negative a Ha) as Na. pose proof (wf_negative b Hb) as Nb.
  rewrite compareMagnitude_spec by auto with bronze.
  rewrite (wf_mval a Ha), (wf_mval b Hb), Na, Nb. zbool; cbn; lia.
Qed.

Lemma add_spec a b : wf a -> wf b -> wf (add a b) /\ val (add a b) = val a + val b.
Proof.
  intros Ha Hb. unfold add.
  pose proof (wf_mag a Ha) as Ma. pose proof (wf_mag b Hb) as Mb.
  pose proof (wf_negative a Ha) as Na. pose proof (wf_negative b Hb) as Nb.
  pose proof (wf_mval a Ha) as Va. pose proof (wf_mval b Hb) as Vb.
  destruct (Bool.eqb (negative_ a) (negative_ b)) eqn:E.
  - apply Bool.eqb_prop in E.
    destruct (addMagnitude_spec (mag_ a) (mag_ b) (proj1 Ma) (proj1 Mb)) as [Ho Ev].
    destruct (trim_spec (negative_ a) _ Ho) as [? ->]. split; [done|].
    rewrite Ev, Va, Vb. rewrite Nb, Na in E. rewrite Na. zbool; lia.
  - apply Bool.eqb_false_iff in E. rewrite compareMagnitude_spec by done.
    rewrite Na, Nb in E.
    destruct (Z.ltb_spec (mval (mag_ a)) (mval (mag_ b))); [|
      destruct (Z.ltb_spec (mval (mag_ b)) (mval (mag_ a)))]; cbn [Z.eqb Z.ltb Z.compare].
    + destruct (subMagnitude_spec (mag_ b) (mag_ a) (proj1 Mb) Ma ltac:(lia)) as [Ho Ev].
      destruct (trim_spec (negative_ b) _ (proj1 Ho)) as [? ->]. split; [done|].
      rewrite Ev, Nb. zbool; try congruence; lia.
    + destruct (subMagnitude_spec (mag_ a) (mag_ b) (proj1 Ma) Mb ltac:(lia)) as [Ho Ev].
      destruct (trim_spec (negative_ a) _ (proj1 Ho)) as [? ->]. split; [done|].
      rewrite Ev, Na. zbool; try congruence; lia.
    + split; [apply wf_zero|]. cbn. zbool; try congruence; lia.
Qed.

Lemma negate_spec a : wf a -> wf (negate a) /\ val (negate a) = - val a.
Proof.
  intros Ha. unfold negate. destruct (trim_spec (negb (negative_ a)) (mag_ a)) as [? ->];
    [auto with bronze|]. split; [done|]. unfold val. destruct (negative_ a); cbn; lia.
Qed.

Lemma sub_spec a b : wf a -> wf b -> wf (sub a b) /\ val (sub a b) = val a - val b.
Proof.
  intros Ha Hb. destruct (negate_spec b Hb) as [Hn En].
  destruct (add_spec a (negate b) Ha Hn) as [? E]. split; [done|]. unfold sub. lia.
Qed.

Lemma mul_spec a b : wf a -> wf b -> wf (mul a b) /\ val (mul a b) = val a * val b.
Proof.
  intros Ha Hb. unfold mul.
  destruct (mulMagnitude_spec (mag_ a) (mag_ b)) as [[Ho _] Ev]; [auto with bronze..|].
  destruct (trim_spec (negb (Bool.eqb (negative_ a) (negative_ b))) _ Ho) as [? ->].
  split; [done|]. rewrite Ev. unfold val. destruct (negative_ a), (negative_ b); cbn; lia.
Qed.

Lemma divmod_ok a b :
  wf a -> wf b -> val b <> 0 ->
  exists q r, divmod a b = Some (q, r) /\ wf q /\ wf r /\
    val q = Z.quot (val a) (val b) /\ val r = Z.rem (val a) (val b).
Proof.
  intros Ha Hb Hne. unfold divmod. rewrite wf_isZero by done.
  destruct (Z.eqb_spec (val b) 0); [done|].
  pose proof (wf_mval a Ha) as Va. pose proof (wf_mval b Hb) as Vb.
  pose proof (divmodMagnitude_spec (mag_ a) (mag_ b)) as Hd.
  destruct (divmodMagnitude _ _) as [q r].
  destruct Hd as (Hq & Hr & Eq & Er); [auto with bronze..| |].
  { intros E. rewrite E in Vb. cbn in Vb. lia. }
  eexists _, _. split; [done|].
  destruct (trim_spec (negb (Bool.eqb (negative_ a) (negative_ b))) _ (proj1 Hq)) as [? ->].
  destruct (trim_spec (negative_ a) _ (proj1 Hr)) as [? ->].
  split_and!; try done.
  - rewrite Eq, (wf_negative a), (wf_negative b), Va, Vb by done.
    rewrite Z.quot_div by done. zbool; cbn [Bool.eqb negb];
      repeat (rewrite Z.sgn_neg by lia || rewrite Z.sgn_pos by lia); try lia.
    all: destruct (Z.eq_dec (val a) 0) as [E|]; [rewrite E; cbn; rewrite Z.div_0_l by lia; lia|].
    all: repeat (rewrite Z.sgn_neg by lia || rewrite Z.sgn_pos by lia); lia.
  - rewrite Er, (wf_negative a), Va, Vb by done. rewrite Z.rem_mod by done.
    zbool; [rewrite Z.sgn_neg by lia; lia|].
    destruct (Z.eq_dec (val a) 0) as [E|]; [rewrite E; cbn; rewrite Z.mod_0_l by lia; lia|].
    rewrite Z.sgn_pos by lia. lia.
Qed.

(** ** Shifts *)

(** Left by a count known non-negative. *)
Lemma shiftLeft_pos d a count :
  wf a -> wf count -> fits a -> 0 <= val count ->
  shiftLeft_at (S d) a count =
    if val a =? 0 then (zero, None')
    else if 2 ^ 64 <=? val count then (zero, TooLarge)
    else if kMaxBits <? u64 (Z.log2 (Z.abs (val a)) + 1 + val count) then (zero, TooLarge)
    else (trim (mkBigNum (negative_ a) (shiftLeftBits (mag_ a) (val count))), None').
Proof.
  intros Ha Hc Hf H0. cbn [shiftLeft_at]. unfold isNegative.
  rewrite wf_isZero, (wf_negative count), magnitudeToUint64_spec, bitLength_spec by done.
  rewrite Z.abs_eq by lia. destruct (Z.ltb_spec (val count) 0); [lia|].
  destruct (val a =? 0); [done|].
  destruct (Z.ltb_spec (val count) (2 ^ 64)), (Z.leb_spec (2 ^ 64) (val count)); try lia; done.
Qed.

Lemma shiftRight_pos d a count :
  wf a -> wf count -> Z.log2 (Z.abs (val a)) < 2 ^ 64 -> 0 <= val count ->
  exists r, shiftRight_at (S d) a count = (r, None') /\ wf r /\
            val r = Z.shiftr (val a) (val count).
Proof.
  intros Ha Hc Hb H0. cbn [shiftRight_at]. unfold isNegative.
  rewrite wf_isZero, (wf_negative count), magnitudeToUint64_spec by done.
  rewrite Z.abs_eq by lia. destruct (Z.ltb_spec (val count) 0); [lia|].
  destruct (Z.eqb_spec (val a) 0) as [E|Hne].
  { eexists. split; [done|]. split; [apply wf_zero|]. by rewrite E, Z.shiftr_0_l. }
  rewrite Z.shiftr_div_pow2 by lia. rewrite (wf_negative a Ha).
  assert (0 < 2 ^ val count) by (apply Z.pow_pos_nonneg; lia).
  destruct (Z.ltb_spec (val count) (2 ^ 64)) as [Hs|Hs].
  - pose proof (shiftRightBits_spec (mag_ a) (val count) (wf_limbs a Ha) H0) as Hsr.
    destruct (shiftRightBits _ _) as [m lost]. destruct Hsr as ([Hm _] & Em & ->).
    destruct (trim_spec (val a <? 0) m Hm) as [Hw Ev].
    set (out := trim _) in *. eexists. split; [done|].
    pose proof (wf_mval a Ha) as Va. rewrite Em, Va in Ev. rewrite Va.
    destruct (Z.ltb_spec (val a) 0) as [Hneg|Hpos]; cbn [andb].
    + rewrite Z.abs_neq in * by lia.
      pose proof (Z.div_mod (- val a) (2 ^ val count) ltac:(lia)).
      pose proof (Z.mod_pos_bound (- val a) (2 ^ val count) ltac:(lia)).
      destruct (Z.eqb_spec (- val a mod 2 ^ val count) 0) as [E|E]; cbn [negb].
      * split; [done|]. rewrite Ev. apply Z.div_unique with 0; lia.
      * destruct (fromUint64_spec 1 ltac:(lia)) as [Hw1 E1].
        destruct (sub_spec out (fromUint64 1) Hw Hw1) as [? Es]. split; [done|].
        rewrite Es, Ev, E1.
        apply Z.div_unique with (2 ^ val count - (- val a) mod 2 ^ val count); lia.
    + split; [done|]. rewrite Ev, Z.abs_eq by lia. done.
  - assert (Z.abs (val a) < 2 ^ val count).
    { pose proof (Z.log2_spec (Z.abs (val a)) ltac:(lia)) as [_ Hl].
      eapply Z.lt_le_trans; [exact Hl|]. apply Z.pow_le_mono_r; lia. }
    destruct (Z.ltb_spec (val a) 0).
    + eexists. split; [done|]. destruct (fromInt64_spec (-1) ltac:(lia)) as [? ->].
      split; [done|]. apply Z.div_unique with (val a + 2 ^ val count); lia.
    + eexists. split; [done|]. split; [apply wf_zero|]. cbn.
      symmetry. apply Z.div_small. lia.
Qed.

(** The result of a left shift, when the guard lets it through. *)
Lemma shiftLeft_value a count :
  wf a -> 0 <= count ->
  wf (trim (mkBigNum (negative_ a) (shiftLeftBits (mag_ a) count))) /\
  val (trim (mkBigNum (negative_ a) (shiftLeftBits (mag_ a) count))) = Z.shiftl (val a) count.
Proof.
  intros Ha Hc. destruct (shiftLeftBits_spec (mag_ a) count (wf_limbs a Ha) Hc) as [[Hm _] Em].
  destruct (trim_spec (negative_ a) _ Hm) as [? ->]. split; [done|].
  rewrite Em, Z.shiftl_mul_pow2 by done. unfold val. destruct (negative_ a); lia.
Qed.

(** ** Exponentiation *)

Lemma pow_loop_spec e result base :
  0 <= e < 2 ^ 64 -> wf result -> wf base ->
  wf (pow_loop e result base) /\ val (pow_loop e result base) = val result * val base ^ e.
Proof.
  intros He Hr Hb. unfold pow_loop.
  assert (forall n e result square, 0 <= e < 2 ^ Z.of_nat n -> wf result -> wf square ->
    let '(_, r, _) := while n (fun '(e, _, _) => 0 <? e) pow_step (e, result, square) in
    wf r /\ val r = val result * val square ^ e) as H.
  { induction n as [|n IH]; intros e' r s He' Hr' Hs.
    - cbn. assert (e' = 0) as -> by (cbn in He'; lia). split; [done|]. lia.
    - destruct (Z.ltb_spec 0 e') as [Hpos|Hz].
      + rewrite while_true by (by apply Z.ltb_lt). unfold pow_step at 2.
        assert (Z.shiftr e' 1 = e' / 2) as -> by (by rewrite Z.shiftr_div_pow2).
        assert (Z.land e' 1 = e' mod 2) as -> by (apply (Z.land_ones e' 1); lia).
        pose proof (Z.div_mod e' 2 ltac:(lia)) as Hdm.
        pose proof (Z.mod_pos_bound e' 2 ltac:(lia)) as Hm.
        rewrite Nat2Z.inj_succ, Z.pow_succ_r in He' by lia.
        set (r1 := if negb _ then _ else _). set (s1 := if 0 <? e' / 2 then _ else _).
        assert (wf r1 /\ val r1 = val r * val s ^ (e' mod 2)) as [Hr1 Er1].
        { unfold r1. destruct (Z.eqb_spec (e' mod 2) 0) as [->|E]; cbn [negb].
          - split; [done|]. rewrite Z.pow_0_r. lia.
          - replace (e' mod 2) with 1 by lia. rewrite Z.pow_1_r. by apply mul_spec. }
        assert (wf s1 /\ (0 < e' / 2 -> val s1 = val s ^ 2)) as [Hs1 Es1].
        { unfold s1. destruct (mul_spec s s Hs Hs) as [? E].
          destruct (Z.ltb_spec 0 (e' / 2)); (split; [done|]); [|lia]. rewrite E. intros _. ring. }
        pose proof (Z.div_pos e' 2 ltac:(lia) ltac:(lia)) as Hd.
        specialize (IH (e' / 2) r1 s1 ltac:(lia) Hr1 Hs1).
        destruct (while n _ _ _) as [[? ?] ?]. destruct IH as [? ->]. split; [done|].
        rewrite Er1. replace (val s ^ e') with (val s ^ (e' mod 2 + 2 * (e' / 2))) by (f_equal; lia).
        rewrite Z.pow_add_r, Z.pow_mul_r by lia.
        destruct (Z.eq_dec (e' / 2) 0) as [->|]; [rewrite !Z.pow_0_r; lia|].
        rewrite Es1 by lia. lia.
      + rewrite while_false by (by apply Z.ltb_ge). split; [done|].
        assert (e' = 0) as -> by lia. rewrite Z.pow_0_r. lia. }
  specialize (H 64%nat e result base He Hr Hb). change (2 ^ Z.of_nat 64) with (2 ^ 64) in H.
  destruct (while 64 _ _ _) as [[? ?] ?]. exact H.
Qed.

(** ** The two's-complement window *)

Lemma not32_spec d : limb_ok d -> not32 d = 2 ^ 32 - 1 - d.
Proof.
  intros [H0 H1]. unfold not32, u32, Z.lnot.
  symmetry. apply Z.mod_unique with (-1); lia.
Qed.

Lemma negate_limbs_loop l n :
  limbs_ok l -> (n <= length l)%nat ->
  let '(out, carry) :=
    for_up n 0 (fun i '(out, carry) =>
      let inverted := u64 (not32 out.[i] + carry) in
      (<[i := u32 inverted]> out, Z.shiftr inverted 32)) (l, 1) in
  length out = length l /\ limbs_ok out /\ 0 <= carry <= 1 /\
  (forall k, (n <= k)%nat -> out.[k] = l.[k]) /\
  mval out = mval l - 2 * mval (take n l) + wt n - wt n * carry.
Proof.
  intros Hl Hn.
  apply (for_up_inv (fun i '(out, carry) =>
    length out = length l /\ limbs_ok out /\ 0 <= carry <= 1 /\
    (forall k, (i <= k)%nat -> out.[k] = l.[k]) /\
    mval out = mval l - 2 * mval (take i l) + wt i - wt i * carry)).
  - split_and!; auto; try lia. rewrite take_0, wt_0. cbn [mval]. lia.
  - intros i [out c] Hi (Ho & Hlo & Hc & Hk & E). cbn zeta.
    rewrite (Hk i) by lia. pose proof (limb_range l i Hl).
    rewrite not32_spec by (split; lia).
    set (p := 2 ^ 32 - 1 - l.[i] + c). assert (0 <= p < 2 ^ 64) as Hp by lia.
    rewrite u64_small by lia.
    pose proof (u32_shr32_split p) as Es. pose proof (u32_range p). pose proof (shr32_range p Hp).
    loop_split.
    + intros k Hk'. rewrite limb_insert_ne by lia. apply Hk. lia.
    + rewrite mval_insert, (Hk i), E, mval_take_S, wt_S, kBase_eq by lia.
      assert (wt i * p = wt i * u32 p + 2 ^ 32 * wt i * Z.shiftr p 32)
        by (rewrite <- Es at 1; ring).
      assert (wt i * p = wt i * 2 ^ 32 - wt i - wt i * l.[i] + wt i * c) by (unfold p; ring).
      lia.
Qed.

Lemma negate_limbs_spec l :
  limbs_ok l ->
  length (negate_limbs l) = length l /\ limbs_ok (negate_limbs l) /\
  mval (negate_limbs l) = (- mval l) mod wt (length l).
Proof.
  intros Hl. unfold negate_limbs.
  pose proof (negate_limbs_loop l (length l) Hl (le_n _)) as H.
  destruct (for_up _ _ _ _) as [out c]. destruct H as (Hlen & Ho & Hc & _ & E). cbn [fst].
  split_and!; try done. rewrite take_ge in E by lia.
  pose proof (mval_bound out Ho) as Hb. rewrite Hlen in Hb.
  pose proof (mval_bound l Hl).
  apply Z.mod_unique with (c - 1); lia.
Qed.

(** The copy loop: the magnitude cut or padded to [count] limbs. *)
Lemma copy_limbs_spec m count :
  limbs_ok m ->
  let out := for_up (count `min` length m) 0 (fun i out => <[i := m.[i]]> out) (replicate count 0) in
  length out = count /\ limbs_ok out /\ mval out = mval m mod wt count.
Proof.
  intros Hm. cbn zeta.
  assert (let out := for_up (count `min` length m) 0 (fun i out => <[i := m.[i]]> out)
                       (replicate count 0) in
    length out = count /\ limbs_ok out /\ mval out = mval (take (count `min` length m) m) /\
    (forall k, (count `min` length m <= k)%nat -> out.[k] = 0)) as (Hl & Ho & E & _).
  { apply (for_up_inv (fun i out =>
      length out = count /\ limbs_ok out /\ mval out = mval (take i m) /\
      (forall k, (i <= k)%nat -> out.[k] = 0))).
    - rewrite length_replicate, mval_zeros, take_0. split_and!; auto using limbs_ok_zeros.
      intros. apply limb_zeros.
    - intros i out Hi (Hl & Ho & E & Hk). loop_split.
      + apply limbs_ok_insert; [done|]. destruct (limb_range m i Hm). by split.
      + rewrite mval_insert, mval_take_S, (Hk i), E by lia. lia.
      + intros k Hk'. rewrite limb_insert_ne by lia. apply Hk. lia. }
  split_and!; try done. rewrite E.
  destruct (Nat.min_spec count (length m)) as [[? ->]|[? ->]].
  - pose proof (mval_drop m count). pose proof (mval_bound _ (limbs_ok_take count m Hm)) as Hb.
    rewrite length_take, Nat.min_l in Hb by lia.
    apply Z.mod_unique with (mval (drop count m)); lia.
  - rewrite take_ge by lia. pose proof (mval_bound m Hm). pose proof (wt_le (length m) count ltac:(lia)).
    symmetry. apply Z.mod_small. lia.
Qed.

Lemma opp_mod_idemp a m : (- (a mod m)) mod m = (- a) mod m.
Proof. exact (Zminus_mod_idemp_r 0 a m). Qed.

(** [count] limbs of the infinite two's-complement representation. *)
Lemma twosComplement_spec x count :
  wf x ->
  length (twosComplement x count) = count /\ limbs_ok (twosComplement x count) /\
  mval (twosComplement x count) = val x mod wt count.
Proof.
  intros Hx. unfold twosComplement.
  destruct (copy_limbs_spec (mag_ x) count (wf_limbs x Hx)) as (Hl & Ho & E).
  set (out := for_up _ _ _ _) in *. unfold val. destruct (negative_ x); [|done].
  destruct (negate_limbs_spec out Ho) as (Hl' & Ho' & E').
  rewrite Hl in *. split_and!; try done. rewrite E', E.
  apply opp_mod_idemp.
Qed.

(** The inverse, on a window the value lies in. *)
Lemma fromTwosComplement_spec l v neg :
  limbs_ok l -> mval l = v mod wt (length l) -> - wt (length l) < v < wt (length l) ->
  neg = (v <? 0) ->
  wf (fromTwosComplement l neg) /\ val (fromTwosComplement l neg) = v.
Proof.
  intros Hl E Hv ->. unfold fromTwosComplement. pose proof (wt_pos (length l)).
  destruct (Z.ltb_spec v 0) as [Hneg|Hpos].
  - destruct (negate_limbs_spec l Hl) as (_ & Ho & En).
    destruct (trim_spec true _ Ho) as [? ->]. split; [done|]. rewrite En, E, opp_mod_idemp.
    rewrite Z.mod_small by lia. lia.
  - destruct (trim_spec false _ Hl) as [? ->]. split; [done|].
    rewrite E. apply Z.mod_small. lia.
Qed.

(** ** The bitwise operators *)

Section Limbwise.
(** A bitwise operator of [Z], and the boolean function it applies. *)
Context (op : Z -> Z -> Z) (f : bool -> bool -> bool).
Context (op_spec : forall x y n, 0 <= n -> Z.testbit (op x y) n = f (Z.testbit x n) (Z.testbit y n)).
Context (f_false : f false false = false).

Lemma testbit_split d m n :
  0 <= d < 2 ^ 32 -> 0 <= n ->
  Z.testbit (d + 2 ^ 32 * m) n = if n <? 32 then Z.testbit d n else Z.testbit m (n - 32).
Proof.
  intros Hd Hn. replace (d + 2 ^ 32 * m) with (m * 2 ^ 32 + d) by lia.
  rewrite <- lor_shiftl_add by lia. rewrite Z.lor_spec, Z.shiftl_spec by lia.
  destruct (Z.ltb_spec n 32).
  - by rewrite (Z.testbit_neg_r m) by lia.
  - rewrite (testbit_above d 32) by lia. apply orb_false_r.
Qed.

Lemma op_limb d e : 0 <= d < 2 ^ 32 -> 0 <= e < 2 ^ 32 -> 0 <= op d e < 2 ^ 32.
Proof.
  intros Hd He. assert (op d e = (op d e) mod 2 ^ 32) as ->; [|apply Z.mod_pos_bound; lia].
  apply Z.bits_inj'. intros n Hn. destruct (Z.lt_ge_cases n 32).
  - by rewrite Z.mod_pow2_bits_low by lia.
  - rewrite Z.mod_pow2_bits_high, op_spec by lia.
    by rewrite !(testbit_above _ 32) by lia.
Qed.

Lemma op_split d e x y :
  0 <= d < 2 ^ 32 -> 0 <= e < 2 ^ 32 ->
  op (d + 2 ^ 32 * x) (e + 2 ^ 32 * y) = op d e + 2 ^ 32 * op x y.
Proof.
  intros Hd He. pose proof (op_limb d e Hd He). apply Z.bits_inj'. intros n Hn.
  rewrite op_spec, !testbit_split by lia. destruct (Z.ltb_spec n 32); by rewrite op_spec by lia.
Qed.

Lemma op_0 : op 0 0 = 0.
Proof. apply Z.bits_inj'. intros n Hn. by rewrite op_spec, !Z.bits_0 by lia. Qed.

Lemma limbwise_limb count lhs rhs k :
  length lhs = count -> (k < count)%nat ->
  (limbwise op count lhs rhs).[k] = op lhs.[k] rhs.[k] /\
  length (limbwise op count lhs rhs) = count.
Proof.
  intros Hl Hk. unfold limbwise.
  assert (let out := for_up count 0 (fun i l => <[i := op l.[i] rhs.[i]]> l) lhs in
    length out = count /\
    forall k, (k < count)%nat -> out.[k] = if (k <? count)%nat then op lhs.[k] rhs.[k] else lhs.[k])
    as [Ho H].
  { apply (for_up_inv (fun i out => length out = count /\ forall k, (k < count)%nat ->
      out.[k] = if (k <? i)%nat then op lhs.[k] rhs.[k] else lhs.[k])).
    - by split.
    - intros i out Hi [Hlo H]. split; [by autorewrite with bronze|]. intros j Hj.
      destruct (Nat.eq_dec i j) as [->|].
      + rewrite limb_insert_eq by lia. rewrite H by lia.
        rewrite Nat.ltb_irrefl. by rewrite (proj2 (Nat.ltb_lt _ _)) by lia.
      + rewrite limb_insert_ne, H by lia.
        destruct (Nat.ltb_spec j i), (Nat.ltb_spec j (S i)); try lia; done. }
  split; [|done]. rewrite H by done. by rewrite (proj2 (Nat.ltb_lt _ _)) by lia.
Qed.

Lemma mval_limbwise l r :
  limbs_ok l -> limbs_ok r -> length r = length l ->
  forall o, length o = length l -> (forall k, (k < length l)%nat -> o.[k] = op l.[k] r.[k]) ->
  limbs_ok o /\ mval o = op (mval l) (mval r).
Proof.
  intros Hl. revert r. induction Hl as [|d l Hd Hl IH]; intros [|e r] Hr Hlen [|x o] Ho Hk;
    try discriminate.
  - split; [constructor|]. cbn. by rewrite op_0.
  - apply Forall_cons in Hr as [He Hr]. cbn [length] in *. cbn [mval]. rewrite kBase_eq.
    pose proof (Hk O ltac:(lia)) as E0. cbn in E0. unfold limb in E0. cbn in E0. subst x.
    destruct Hd as [? ?], He as [? ?]. pose proof (op_limb d e ltac:(lia) ltac:(lia)).
    destruct (IH r Hr ltac:(lia) o ltac:(lia)) as [Hoo E].
    { intros k Hk'. apply (Hk (S k)). lia. }
    split; [constructor; [split; lia|done]|]. rewrite E. symmetry. by apply op_split.
Qed.

Lemma limbwise_spec lhs rhs :
  limbs_ok lhs -> limbs_ok rhs -> length rhs = length lhs ->
  length (limbwise op (length lhs) lhs rhs) = length lhs /\
  limbs_ok (limbwise op (length lhs) lhs rhs) /\
  mval (limbwise op (length lhs) lhs rhs) = op (mval lhs) (mval rhs).
Proof.
  intros Hl Hr Hlen. destruct lhs as [|d l].
  { destruct rhs; [|discriminate]. cbn. rewrite op_0. done. }
  set (lhs := d :: l) in *.
  destruct (limbwise_limb (length lhs) lhs rhs O eq_refl ltac:(cbn; lia)) as [_ Ho].
  destruct (mval_limbwise lhs rhs Hl Hr Hlen _ Ho) as [? ?]; [|done].
  intros k Hk. by apply limbwise_limb.
Qed.

Lemma op_mod x y k : 0 <= k -> op (x mod 2 ^ k) (y mod 2 ^ k) = op x y mod 2 ^ k.
Proof.
  intros Hk. apply Z.bits_inj'. intros n Hn. rewrite op_spec by lia.
  destruct (Z.lt_ge_cases n k).
  - by rewrite !Z.mod_pow2_bits_low, op_spec by lia.
  - by rewrite !Z.mod_pow2_bits_high by lia.
Qed.

(** Two values of the window [-2^k, 2^k) have their result in it. *)
Lemma op_window x y k :
  0 <= k -> - 2 ^ k <= x < 2 ^ k -> - 2 ^ k <= y < 2 ^ k -> - 2 ^ k <= op x y < 2 ^ k.
Proof.
  intros Hk Hx Hy. assert (0 < 2 ^ k) by (apply Z.pow_pos_nonneg; lia).
  assert (forall z n, - 2 ^ k <= z < 2 ^ k -> k <= n -> Z.testbit z n = (z <? 0)) as Hbit.
  { intros z n Hz Hn. destruct (Z.ltb_spec z 0).
    - replace z with (Z.lnot (- z - 1)) by (unfold Z.lnot; lia).
      rewrite Z.lnot_spec by lia. by rewrite (testbit_above _ k) by lia.
    - apply (testbit_above _ k); lia. }
  assert (forall n, k <= n -> Z.testbit (op x y) n = Z.testbit (op x y) k) as Hc.
  { intros n Hn. by rewrite !op_spec, !Hbit by lia. }
  assert (Z.shiftr (op x y) k = if Z.testbit (op x y) k then -1 else 0) as Es.
  { apply Z.bits_inj'. intros n Hn. rewrite Z.shiftr_spec, Hc by lia.
    destruct (Z.testbit (op x y) k); by rewrite ?Z.bits_m1, ?Z.bits_0 by lia. }
  rewrite Z.shiftr_div_pow2 in Es by lia.
  pose proof (Z.div_mod (op x y) (2 ^ k) ltac:(lia)).
  pose proof (Z.mod_pos_bound (op x y) (2 ^ k) ltac:(lia)).
  destruct (Z.testbit (op x y) k); rewrite Es in *; lia.
Qed.

Lemma bitop_spec a b neg :
  wf a -> wf b -> neg = (op (val a) (val b) <? 0) ->
  let count := (length (mag_ a) `max` length (mag_ b) + 1)%nat in
  let r := fromTwosComplement
    (limbwise op count (twosComplement a count) (twosComplement b count)) neg in
  wf r /\ val r = op (val a) (val b).
Proof.
  intros Ha Hb Hneg. cbn zeta. set (count := (_ + 1)%nat).
  destruct (twosComplement_spec a count Ha) as (La & Oa & Ea).
  destruct (twosComplement_spec b count Hb) as (Lb & Ob & Eb).
  set (ta := twosComplement a count) in *. set (tb := twosComplement b count) in *.
  destruct (limbwise_spec ta tb Oa Ob ltac:(congruence)) as (Lo & Oo & Eo).
  rewrite La in *. set (o := limbwise _ _ _ _) in *.
  pose proof (mval_bound _ (wf_limbs a Ha)) as Hba. rewrite (wf_mval a Ha) in Hba.
  pose proof (mval_bound _ (wf_limbs b Hb)) as Hbb. rewrite (wf_mval b Hb) in Hbb.
  set (w := (length (mag_ a) `max` length (mag_ b))%nat) in *.
  pose proof (wt_le (length (mag_ a)) w ltac:(lia)).
  pose proof (wt_le (length (mag_ b)) w ltac:(lia)).
  assert (wt w < wt count) by (unfold count; rewrite Nat.add_1_r, wt_S, kBase_eq; pose proof (wt_pos w); lia).
  apply fromTwosComplement_spec; rewrite ?Lo; [done| | |done].
  - rewrite Eo, Ea, Eb, wt_pow2. apply op_mod. lia.
  - pose proof (op_window (val a) (val b) (32 * Z.of_nat w) ltac:(lia)) as Hw.
    rewrite <- wt_pow2 in Hw. specialize (Hw ltac:(lia) ltac:(lia)). lia.
Qed.
End Limbwise.

Lemma bitAnd_spec a b : wf a -> wf b -> wf (bitAnd a b) /\ val (bitAnd a b) = Z.land (val a) (val b).
Proof.
  intros Ha Hb. unfold bitAnd. apply (bitop_spec Z.land andb); auto using Z.land_spec.
  rewrite (wf_negative a), (wf_negative b) by done.
  pose proof (Z.land_neg (val a) (val b)). zbool; cbn; try done; lia.
Qed.

Lemma bitOr_spec a b : wf a -> wf b -> wf (bitOr a b) /\ val (bitOr a b) = Z.lor (val a) (val b).
Proof.
  intros Ha Hb. unfold bitOr. apply (bitop_spec Z.lor orb); auto using Z.lor_spec.
  rewrite (wf_negative a), (wf_negative b) by done.
  pose proof (Z.lor_neg (val a) (val b)). zbool; cbn; try done; lia.
Qed.

Lemma bitXor_spec a b : wf a -> wf b -> wf (bitXor a b) /\ val (bitXor a b) = Z.lxor (val a) (val b).
Proof.
  intros Ha Hb. unfold bitXor. apply (bitop_spec Z.lxor xorb); auto using Z.lxor_spec.
  rewrite (wf_negative a), (wf_negative b) by done.
  pose proof (Z.lxor_nonneg (val a) (val b)). zbool; cbn; try done; lia.
Qed.

Lemma bitNot_spec a : wf a -> wf (bitNot a) /\ val (bitNot a) = Z.lnot (val a).
Proof.
  intros Ha. destruct (fromInt64_spec (-1) ltac:(lia)) as [H1 E1].
  destruct (sub_spec (fromInt64 (-1)) a H1 Ha) as [? E]. split; [done|].
  unfold bitNot. rewrite E, E1. unfold Z.lnot. lia.
Qed.

(** ** Fixed-width windows *)

Lemma mod_pow2_le x a b : 0 <= b <= a -> (x mod 2 ^ a) mod 2 ^ b = x mod 2 ^ b.
Proof.
  intros H. apply Z.bits_inj'. intros n Hn. destruct (Z.lt_ge_cases n b).
  - by rewrite !Z.mod_pow2_bits_low by lia.
  - by rewrite !Z.mod_pow2_bits_high by lia.
Qed.

Lemma mval_take_mod l n : limbs_ok l -> mval (take n l) = mval l mod wt n.
Proof.
  intros Hl. pose proof (mval_drop l n). pose proof (mval_bound _ (limbs_ok_take n l Hl)) as Hb.
  rewrite length_take in Hb. pose proof (wt_le (n `min` length l) n ltac:(lia)).
  apply Z.mod_unique with (mval (drop n l)); lia.
Qed.

(** Masking the top limb leaves the value modulo the power of two. *)
Lemma mask_top l t :
  limbs_ok l -> l <> [] -> 0 < t < 32 ->
  let k := (length l - 1)%nat in
  let l' := <[k := Z.land l.[k] (u32 (u32 (Z.shiftl 1 t) - 1))]> l in
  limbs_ok l' /\ mval l' = mval l mod 2 ^ (32 * Z.of_nat k + t).
Proof.
  intros Hl Hne Ht. cbn zeta. set (k := (length l - 1)%nat).
  assert (0 < length l)%nat by (destruct l; cbn; [done|lia]).
  assert (u32 (u32 (Z.shiftl 1 t) - 1) = Z.ones t) as ->.
  { rewrite Z.ones_equiv, Z.shiftl_mul_pow2, Z.mul_1_l by lia.
    pose proof (Z.pow_pos_nonneg 2 t ltac:(lia) ltac:(lia)).
    pose proof (Z.pow_lt_mono_r 2 t 32 ltac:(lia) ltac:(lia) ltac:(lia)).
    rewrite (u32_small (2 ^ t)), u32_small by lia. lia. }
  rewrite Z.land_ones by lia.
  pose proof (Z.pow_pos_nonneg 2 t ltac:(lia) ltac:(lia)) as Hp.
  pose proof (Z.pow_lt_mono_r 2 t 32 ltac:(lia) ltac:(lia) ltac:(lia)).
  pose proof (Z.mod_pos_bound l.[k] (2 ^ t) Hp) as Hm.
  split. { apply limbs_ok_insert; [done|split; lia]. }
  rewrite mval_insert by lia.
  pose proof (mval_take_S l k) as E. rewrite take_ge in E by lia.
  pose proof (mval_bound _ (limbs_ok_take k l Hl)) as Hb. rewrite length_take, Nat.min_l in Hb by lia.
  pose proof (Z.div_mod l.[k] (2 ^ t) ltac:(lia)) as Hdm. rewrite Z.pow_add_r, <- wt_pow2 by lia.
  pose proof (wt_pos k).
  apply Z.mod_unique with (l.[k] / 2 ^ t).
  - left. assert (wt k * (l.[k] mod 2 ^ t + 1) <= wt k * 2 ^ t) by (apply Z.mul_le_mono_nonneg_l; lia).
    assert (0 <= wt k * (l.[k] mod 2 ^ t)) by (apply Z.mul_nonneg_nonneg; lia). lia.
  - rewrite E, Hdm at 1. lia.
Qed.

Lemma asUintN_spec bits a :
  wf a -> 0 <= bits <= kMaxBits ->
  exists r, asUintN bits a = (r, None') /\ wf r /\ val r = val a mod 2 ^ bits.
Proof.
  intros Ha Hb. unfold asUintN. change kMaxBits with (2 ^ 24) in *.
  destruct (Z.eqb_spec bits 0) as [->|Hne].
  { eexists. split; [done|]. split; [apply wf_zero|]. by rewrite Z.mod_1_r. }
  destruct (Z.ltb_spec (2 ^ 24) bits); [lia|]. rewrite u64_small by lia.
  set (count := Z.to_nat ((bits + 31) / 32)).
  assert (Hc1 : 1 <= (bits + 31) / 32) by (apply Z.div_le_lower_bound; lia).
  assert (Hcount : Z.of_nat count = (bits + 31) / 32) by lia.
  set (big := (count `max` (length (mag_ a) + 1))%nat).
  destruct (twosComplement_spec a big Ha) as (Lt & Ot & Et).
  set (tc := twosComplement a big) in *.
  assert (Hl : limbs_ok (take count tc)) by by apply limbs_ok_take.
  assert (Hlen : length (take count tc) = count) by (rewrite length_take; lia).
  assert (Hv : mval (take count tc) = val a mod wt count).
  { rewrite mval_take_mod, Et, !wt_pow2 by done. apply mod_pow2_le. lia. }
  set (l := take count tc) in *.
  pose proof (Z.mod_pos_bound bits 32 ltac:(lia)) as Hm.
  pose proof (Z.div_mod bits 32 ltac:(lia)) as Hdm.
  eexists. split; [done|].
  destruct (Z.eqb_spec (bits mod 32) 0) as [E0|E0]; cbn [negb].
  - destruct (trim_spec false l Hl) as [? ->]. split; [done|].
    rewrite Hv, wt_pow2. f_equal. f_equal. rewrite Hcount. clear - Hdm E0 Hb.
    assert ((bits + 31) / 32 = bits / 32) by (symmetry; apply Z.div_unique with 31; lia). lia.
  - destruct (mask_top l (bits mod 32) Hl) as [Hl' Ev];
      [intros E; rewrite E in Hlen; cbn in Hlen; lia|lia|].
    destruct (trim_spec false _ Hl') as [? ->]. split; [done|].
    assert (32 * Z.of_nat (length l - 1) + bits mod 32 = bits) as Eb.
    { rewrite Hlen. clear - Hdm E0 Hb Hm Hcount.
      assert ((bits + 31) / 32 = bits / 32 + 1)
        by (symmetry; apply Z.div_unique with (bits mod 32 - 1); lia). lia. }
    rewrite Ev, Eb, Hv, wt_pow2. apply mod_pow2_le. clear - Eb Hlen Hm Hb Hcount Hc1. lia.
Qed.

Lemma shiftLeft_one bits :
  0 <= bits < 2 ^ 24 ->
  exists r, shiftLeft (fromUint64 1) (fromUint64 bits) = (r, None') /\ wf r /\ val r = 2 ^ bits.
Proof.
  intros Hb. destruct (fromUint64_spec 1 ltac:(lia)) as [H1 E1].
  destruct (fromUint64_spec bits ltac:(lia)) as [H2 E2].
  unfold shiftLeft. rewrite shiftLeft_pos by (try done; lia). rewrite E1, E2.
  change (Z.log2 (Z.abs 1) + 1) with 1. change kMaxBits with (2 ^ 24).
  rewrite u64_small by lia.
  destruct (Z.leb_spec (2 ^ 64) bits); [lia|]. destruct (Z.ltb_spec (2 ^ 24) (1 + bits)); [lia|].
  destruct (shiftLeft_value (fromUint64 1) bits H1 ltac:(lia)) as [? E].
  eexists. split; [done|]. split; [done|]. rewrite E, E1, Z.shiftl_1_l. done.
Qed.

Lemma asIntN_value v bits :
  0 < bits ->
  (v + 2 ^ (bits - 1)) mod 2 ^ bits - 2 ^ (bits - 1)
  = if v mod 2 ^ bits <? 2 ^ (bits - 1) then v mod 2 ^ bits else v mod 2 ^ bits - 2 ^ bits.
Proof.
  intros Hb. assert (2 ^ bits = 2 * 2 ^ (bits - 1)) as E
    by (rewrite <- Z.pow_succ_r by lia; f_equal; lia).
  pose proof (Z.pow_pos_nonneg 2 (bits - 1) ltac:(lia) ltac:(lia)).
  pose proof (Z.div_mod v (2 ^ bits) ltac:(lia)).
  pose proof (Z.mod_pos_bound v (2 ^ bits) ltac:(lia)).
  destruct (Z.ltb_spec (v mod 2 ^ bits) (2 ^ (bits - 1))).
  - assert ((v + 2 ^ (bits - 1)) mod 2 ^ bits = v mod 2 ^ bits + 2 ^ (bits - 1)); [|lia].
    symmetry. apply Z.mod_unique with (v / 2 ^ bits); lia.
  - assert ((v + 2 ^ (bits - 1)) mod 2 ^ bits = v mod 2 ^ bits + 2 ^ (bits - 1) - 2 ^ bits); [|lia].
    symmetry. apply Z.mod_unique with (v / 2 ^ bits + 1); lia.
Qed.

Lemma asIntN_spec bits a :
  wf a -> 0 < bits < kMaxBits ->
  exists r, asIntN bits a = (r, None') /\ wf r /\
    val r = (val a + 2 ^ (bits - 1)) mod 2 ^ bits - 2 ^ (bits - 1).
Proof.
  intros Ha Hb. unfold asIntN. destruct (asUintN_spec bits a Ha ltac:(lia)) as (w & -> & Hw & Ew).
  rewrite bool_decide_eq_true_2 by done. destruct (Z.eqb_spec bits 0); [lia|]. cbn [negb orb].
  change kMaxBits with (2 ^ 24) in Hb. rewrite u64_small by lia.
  destruct (shiftLeft_one (bits - 1) ltac:(lia)) as (h & -> & Hh & Eh).
  destruct (shiftLeft_one bits ltac:(lia)) as (wh & -> & Hwh & Ewh).
  rewrite bool_decide_eq_true_2 by done. cbn [negb]. rewrite compare_spec by done.
  rewrite asIntN_value by lia. rewrite <- Ew, <- Eh, <- Ewh.
  destruct (Z.ltb_spec (val w) (val h)); cbn [Z.ltb Z.compare].
  - by exists w.
  - replace ((if val h <? val w then 1 else 0) <? 0) with false
      by (by destruct (val h <? val w)).
    destruct (sub_spec w wh Hw Hwh). by eexists.
Qed.

(** ** What the operations promise *)

(** The refusal of a left shift by [n >= 0], as the code's guard decides it. *)
Definition shl_refused (a n : Z) : bool :=
  negb (a =? 0) &&
  ((2 ^ 64 <=? n) || (kMaxBits <? u64 (Z.log2 (Z.abs a) + 1 + n))).

Lemma shiftLeft_pos_spec d a count :
  wf a -> wf count -> fits a -> 0 <= val count ->
  exists r, wf r /\
    shiftLeft_at (S d) a count = (r, if shl_refused (val a) (val count) then TooLarge else None') /\
    (shl_refused (val a) (val count) = false -> val r = Z.shiftl (val a) (val count)).
Proof.
  intros Ha Hc Hf H0. rewrite shiftLeft_pos by done. unfold shl_refused.
  destruct (Z.eqb_spec (val a) 0) as [E|Hne]; cbn [negb andb].
  { exists zero. split_and!; [apply wf_zero|done|]. by rewrite E, Z.shiftl_0_l. }
  destruct (2 ^ 64 <=? val count); cbn [orb].
  { exists zero. by split_and!; [apply wf_zero| |]. }
  destruct (kMaxBits <? _).
  { exists zero. by split_and!; [apply wf_zero| |]. }
  destruct (shiftLeft_value a (val count) Ha H0) as [? E].
  eexists. split; [done|]. split; [done|]. by intros _.
Qed.

Lemma fits_log2 a : wf a -> fits a -> Z.log2 (Z.abs (val a)) < 2 ^ 64.
Proof.
  intros Ha Hf. unfold fits in Hf.
  destruct (Z.eq_dec (val a) 0) as [->|Hne]; [done|].
  pose proof (mval_bound _ (wf_limbs a Ha)) as Hb. rewrite wt_pow2, (wf_mval a Ha) in Hb.
  assert (Z.log2 (Z.abs (val a)) < 32 * Z.of_nat (length (mag_ a))).
  { apply Z.log2_lt_pow2; [lia|]. apply Hb. }
  lia.
Qed.

(** Addition, subtraction, multiplication, negation and comparison of BigInts
    compute the integer functions, on every pair of signs, and return a
    normalized value (no leading zero limb, one zero that is not negative). *)
Theorem ring_exact a b :
  wf a -> wf b ->
  (wf (add a b) /\ val (add a b) = val a + val b) /\
  (wf (sub a b) /\ val (sub a b) = val a - val b) /\
  (wf (mul a b) /\ val (mul a b) = val a * val b) /\
  (wf (negate a) /\ val (negate a) = - val a) /\
  compare a b = (match val a ?= val b with Lt => -1 | Eq => 0 | Gt => 1 end) /\
  (compare a b = 0 -> a = b).
Proof.
  intros Ha Hb. pose proof (compare_spec a b Ha Hb) as Ec.
  split; [by apply add_spec|]. split; [by apply sub_spec|]. split; [by apply mul_spec|].
  split; [by apply negate_spec|]. split.
  - rewrite Ec. destruct (Z.compare_spec (val a) (val b)); zbool; lia.
  - rewrite Ec. intros E. apply val_inj; auto. zbool; lia.
Qed.

(** C1: division truncates toward zero and the remainder keeps the dividend's
    sign; it is refused exactly for a zero divisor. *)
Theorem divmod_exact a b :
  wf a -> wf b ->
  (divmod a b = None <-> val b = 0) /\
  (forall q r, divmod a b = Some (q, r) ->
     wf q /\ wf r /\ val q = Z.quot (val a) (val b) /\ val r = Z.rem (val a) (val b) /\
     val a = val q * val b + val r).
Proof.
  intros Ha Hb. destruct (Z.eq_dec (val b) 0) as [E|E].
  - assert (divmod a b = None) as -> by (unfold divmod; by rewrite wf_isZero, E).
    by split.
  - destruct (divmod_ok a b Ha Hb E) as (q & r & -> & Hq & Hr & Eq & Er).
    split; [by split|]. intros q' r' [= <- <-]. split_and!; try done.
    rewrite Eq, Er. pose proof (Z.quot_rem (val a) (val b) E). lia.
Qed.

(** The bitwise operators act on the infinite two's-complement
    representation, negative operands included. *)
Theorem bitwise_exact a b :
  wf a -> wf b ->
  (wf (bitAnd a b) /\ val (bitAnd a b) = Z.land (val a) (val b)) /\
  (wf (bitOr a b) /\ val (bitOr a b) = Z.lor (val a) (val b)) /\
  (wf (bitXor a b) /\ val (bitXor a b) = Z.lxor (val a) (val b)) /\
  (wf (bitNot a) /\ val (bitNot a) = Z.lnot (val a)).
Proof.
  intros Ha Hb.
  split; [by apply bitAnd_spec|]. split; [by apply bitOr_spec|].
  split; [by apply bitXor_spec|]. by apply bitNot_spec.
Qed.

(** A shift by any count, negative ones included, is the arithmetic shift of
    the infinite two's-complement representation; it is refused with [TooLarge]
    exactly when the code's size guard fires for a leftward shift. *)
Theorem shift_exact a count :
  wf a -> wf count -> fits a ->
  let n := val count in
  let '(l, lerr) := shiftLeft a count in
  let '(r, rerr) := shiftRight a count in
  wf l /\ wf r /\
  lerr = (if (0 <=? n) && shl_refused (val a) n then TooLarge else None') /\
  rerr = (if (n <? 0) && shl_refused (val a) (- n) then TooLarge else None') /\
  (lerr = None' -> val l = Z.shiftl (val a) n) /\
  (rerr = None' -> val r = Z.shiftr (val a) n).
Proof.
  intros Ha Hc Hf. cbn zeta. pose proof (fits_log2 a Ha Hf) as Hl2.
  destruct (negate_spec count Hc) as [Hn En]. pose proof (wf_negative count Hc) as Ec.
  unfold shiftLeft, shiftRight. destruct (Z.ltb_spec (val count) 0) as [Hneg|Hpos].
  - assert (shiftLeft_at 2 a count = shiftRight_at 1 a (negate count)) as ->
      by (cbn [shiftLeft_at]; unfold isNegative at 1; by rewrite Ec).
    assert (shiftRight_at 2 a count = shiftLeft_at 1 a (negate count)) as ->
      by (cbn [shiftRight_at]; unfold isNegative at 1; by rewrite Ec).
    destruct (shiftRight_pos 0 a (negate count)) as (l & -> & Hl & El); [done..|lia|].
    destruct (shiftLeft_pos_spec 0 a (negate count)) as (r & Hr & -> & Er); [done..|lia|].
    rewrite En in *. destruct (Z.leb_spec 0 (val count)); [lia|]. cbn [andb].
    split_and!; try done.
    + intros _. rewrite El, Z.shiftr_opp_r. done.
    + destruct (shl_refused _ _); [done|]. intros _. rewrite Er, Z.shiftl_opp_r by done. done.
  - destruct (shiftLeft_pos_spec 1 a count) as (l & Hl & -> & El); [done..|].
    destruct (shiftRight_pos 1 a count) as (r & -> & Hr & Er); [done..|].
    destruct (Z.leb_spec 0 (val count)); [|lia]. cbn [andb].
    split_and!; try done. destruct (shl_refused _ _); [done|]. intros _. by apply El.
Qed.

(** The refusal of a power with exponent [e > 0], as the code's guard decides it. *)
Definition pow_refused (b e : Z) : bool :=
  (2 ^ 64 <=? e) ||
  (negb (b =? 0) && (0 <? e) && (1 <? Z.log2 (Z.abs b) + 1) &&
   (kMaxBits <? u64 ((Z.log2 (Z.abs b) + 1) * e))).

Lemma log2_0_abs b : b <> 0 -> Z.log2 (Z.abs b) = 0 -> Z.abs b = 1.
Proof.
  intros Hb E. destruct (Z.le_gt_cases (Z.abs b) 1); [lia|].
  pose proof (Z.log2_pos (Z.abs b) ltac:(lia)). lia.
Qed.

Lemma pow_unit b e : Z.abs b = 1 -> 0 <= e ->
  b ^ e = if (b <? 0) && (e mod 2 =? 1) then -1 else 1.
Proof.
  intros Hb He. assert (b = 1 \/ b = -1) as [->| ->] by lia; [by rewrite Z.pow_1_l|].
  cbn [Z.ltb Z.compare andb].
  pose proof (Z.div_mod e 2 ltac:(lia)) as Hdm.
  rewrite Hdm at 1. pose proof (Z.mod_pos_bound e 2 ltac:(lia)).
  pose proof (Z.div_pos e 2 He ltac:(lia)).
  rewrite Z.pow_add_r, Z.pow_mul_r by lia. change ((-1) ^ 2) with 1. rewrite Z.pow_1_l by lia.
  assert (e mod 2 = 0 \/ e mod 2 = 1) as [->| ->] by lia; done.
Qed.

(** The cases of an error code: each one is decided by the guard in hand. *)
Ltac err_case :=
  first [ done | apply wf_zero | (intros ?; discriminate)
        | (split; intros ?; destruct_and?; first [ done | lia | discriminate | (split; first [done | lia]) ]) ].

(** [pow] refuses a negative exponent, refuses by its size guard as the code
    writes it, and otherwise is exact exponentiation: 64 turns of the squaring
    loop are always enough. *)
Theorem pow_exact base exponent :
  wf base -> wf exponent -> fits base ->
  let '(r, err) := pow base exponent in
  wf r /\
  (err = NegativeExponent <-> val exponent < 0) /\
  (err = TooLarge <-> 0 <= val exponent /\ pow_refused (val base) (val exponent) = true) /\
  (err = None' -> val r = val base ^ val exponent).
Proof.
  intros Hb He Hf. unfold pow, isNegative. rewrite (wf_negative exponent He).
  rewrite magnitudeToUint64_spec, wf_isZero, bitLength_spec by done.
  destruct (Z.ltb_spec (val exponent) 0) as [Hneg|Hpos].
  { split_and!; err_case. }
  rewrite (Z.abs_eq (val exponent)) by lia. unfold pow_refused.
  set (e := val exponent) in *. set (b := val base) in *.
  destruct (Z.ltb_spec e (2 ^ 64)), (Z.leb_spec (2 ^ 64) e); try lia; cbn [orb];
    [|split_and!; err_case].
  destruct (fromUint64_spec 1 ltac:(lia)) as [H1 E1].
  destruct (Z.eqb_spec e 0) as [E0|E0].
  { destruct (Z.ltb_spec 0 e); [lia|]. rewrite andb_false_r. cbn [andb orb].
    split_and!; try err_case. intros _. by rewrite E1, E0. }
  destruct (Z.ltb_spec 0 e); [|lia].
  destruct (Z.eqb_spec b 0) as [Eb|Eb]; cbn [negb andb].
  { split_and!; try err_case.
    intros _. rewrite Eb, Z.pow_0_l by lia. done. }
  set (bl := Z.log2 (Z.abs b) + 1).
  destruct ((1 <? bl) && (kMaxBits <? u64 (bl * e))) eqn:Eg.
  { split_and!; err_case. }
  destruct ((bl =? 1) && (kMaxBits <? e)) eqn:Eu.
  - apply andb_prop in Eu as [Eu%Z.eqb_eq _].
    assert (Z.abs b = 1) as Eab by (apply log2_0_abs; lia).
    assert (mag_ base <> []) as Hmne.
    { intros E. pose proof (wf_mval base Hb) as Hv. rewrite E in Hv. cbn in Hv. unfold b in *. lia. }
    split_and!; try err_case.
    + split; [exact (wf_mag _ Hb)|]. cbn [mag_]. intros E. by rewrite E in Hmne.
    + intros _. rewrite pow_unit by done. unfold val at 1. cbn [mag_ negative_].
      rewrite (wf_mval base Hb), (wf_negative base Hb). fold b. rewrite Eab.
      by destruct (_ && _).
  - destruct (pow_loop_spec e (fromUint64 1) base ltac:(lia) H1 Hb) as [? E].
    split_and!; try err_case.
    intros _. rewrite E, E1. unfold b. lia.
Qed.

(** [BigInt.asUintN] and [BigInt.asIntN] reduce the value modulo [2^bits] into
    the unsigned and the signed window, for every width below the cap. *)
Theorem window_exact bits a :
  wf a -> 0 <= bits < kMaxBits ->
  (exists r, asUintN bits a = (r, None') /\ wf r /\ val r = val a mod 2 ^ bits) /\
  (exists r, asIntN bits a = (r, None') /\ wf r /\
     val r = (if bits =? 0 then 0
              else (val a + 2 ^ (bits - 1)) mod 2 ^ bits - 2 ^ (bits - 1))).
Proof.
  intros Ha Hb. split; [apply asUintN_spec; [done|lia]|].
  destruct (Z.eqb_spec bits 0) as [->|Hne].
  - exists zero. split_and!; [done|apply wf_zero|done].
  - apply asIntN_spec; [done|lia].
Qed.

(** At the cap itself the signed window is refused for every value of its upper
    half, although the answer has no more than [kMaxBits] bits: the code builds
    [2^bits] to subtract it, and that is one bit too many. *)
Lemma asIntN_refuses_at_cap bits a :
  wf a -> bits = kMaxBits -> 2 ^ (bits - 1) <= val a mod 2 ^ bits ->
  asIntN bits a = (zero, TooLarge).
Proof.
  intros Ha Hb Hv. assert (0 < bits <= 2 ^ 24) as Hr by (rewrite Hb; by split).
  unfold asIntN. destruct (asUintN_spec bits a Ha ltac:(rewrite Hb; by split)) as (w & -> & Hw & Ew).
  rewrite bool_decide_eq_true_2 by done. destruct (Z.eqb_spec bits 0); [lia|]. cbn [negb orb].
  rewrite u64_small by lia.
  destruct (shiftLeft_one (bits - 1) ltac:(lia)) as (h & -> & Hh & Eh).
  rewrite bool_decide_eq_true_2 by done. cbn [negb]. rewrite compare_spec by done.
  rewrite Ew, Eh. destruct (Z.ltb_spec (val a mod 2 ^ bits) (2 ^ (bits - 1))); [lia|].
  replace ((if 2 ^ (bits - 1) <? val a mod 2 ^ bits then 1 else 0) <? 0) with false
    by (by destruct (2 ^ (bits - 1) <? val a mod 2 ^ bits)).
  destruct (fromUint64_spec 1 ltac:(lia)) as [H1 E1].
  destruct (fromUint64_spec bits ltac:(lia)) as [H2 E2].
  unfold shiftLeft. rewrite shiftLeft_pos by (try done; lia). rewrite E1, E2.
  change (Z.log2 (Z.abs 1) + 1) with 1. rewrite u64_small by lia.
  destruct (Z.leb_spec (2 ^ 64) bits); [lia|]. change (1 =? 0) with false. cbn iota.
  destruct (Z.ltb_spec kMaxBits (1 + bits)); [done|lia].
Qed.

Lemma neg_one_window bits : 0 < bits -> 2 ^ (bits - 1) <= (-1) mod 2 ^ bits.
Proof.
  intros Hb. assert (2 ^ bits = 2 * 2 ^ (bits - 1)) as E
    by (rewrite <- Z.pow_succ_r by lia; f_equal; lia).
  pose proof (Z.pow_pos_nonneg 2 (bits - 1) ltac:(lia) ltac:(lia)).
  assert ((-1) mod 2 ^ bits = 2 ^ bits - 1) as ->; [|lia].
  symmetry. apply Z.mod_unique with (-1); lia.
Qed.

(** The size guards at the edges of their 64-bit arithmetic: the sum in
    [1n << (2n ** 64n - 1n)] and the product in [2n ** (2n ** 63n)] wrap to zero, so
    neither is refused; and at a width of [kMaxBits] the signed window is refused for
    the whole upper half. *)
Theorem size_guard_edges :
  snd (shiftLeft (fromUint64 1) (fromUint64 (2 ^ 64 - 1))) = None' /\
  snd (pow (fromUint64 2) (fromUint64 (2 ^ 63))) = None' /\
  (forall bits a, wf a -> bits = kMaxBits -> 2 ^ (bits - 1) <= val a mod 2 ^ bits ->
     asIntN bits a = (zero, TooLarge)).
Proof.
  split; [lazy; reflexivity|]. split; [lazy; reflexivity|]. exact asIntN_refuses_at_cap.
Qed.

(** ** Witnesses *)

Ltac wf_concrete := split; [split; [repeat constructor; cbn; lia|by vm_compute]|by intros ?].

(** [-7n] and [2n ** 70n + 5n] *)
Definition minus7 : BigNum := mkBigNum true [7].
Definition big70 : BigNum := mkBigNum false [5; 0; 64].

Lemma wf_minus7 : wf minus7. Proof. wf_concrete. Qed.
Lemma wf_big70 : wf big70. Proof. wf_concrete. Qed.

Lemma ring_exact_witness :
  (wf big70 /\ wf minus7) /\ val (mul big70 minus7) = -8264141345021879123968 - 35.
Proof.
  split; [split; [apply wf_big70|apply wf_minus7]|].
  destruct (ring_exact big70 minus7 wf_big70 wf_minus7) as (_ & _ & [_ ->] & _). reflexivity.
Defined.

Lemma divmod_exact_witness :
  match divmod minus7 (fromUint64 2) with
  | Some (q, r) => val q = -3 /\ val r = -1
  | None => False
  end.
Proof.
  destruct (divmod_exact minus7 (fromUint64 2) wf_minus7 (proj1 (fromUint64_spec 2 ltac:(lia))))
    as [_ H].
  destruct (divmod minus7 (fromUint64 2)) as [[q r]|] eqn:E; [|discriminate E].
  destruct (H q r eq_refl) as (_ & _ & Eq & Er & _). rewrite Eq, Er. split; reflexivity.
Defined.

Lemma bitwise_exact_witness : val (bitAnd minus7 (fromUint64 255)) = 249.
Proof.
  destruct (bitwise_exact minus7 (fromUint64 255) wf_minus7
    (proj1 (fromUint64_spec 255 ltac:(lia)))) as ([_ ->] & _). reflexivity.
Defined.

Lemma shift_exact_witness : val (fst (shiftRight minus7 (fromUint64 1))) = -4.
Proof.
  pose proof (shift_exact minus7 (fromUint64 1) wf_minus7 (proj1 (fromUint64_spec 1 ltac:(lia)))
    ltac:(by vm_compute)) as H. cbn zeta in H.
  destruct (shiftLeft minus7 (fromUint64 1)) as [l le].
  destruct (shiftRight minus7 (fromUint64 1)) as [r re].
  destruct H as (_ & _ & _ & Ere & _ & Hr). cbn [fst]. rewrite Hr; [reflexivity|].
  rewrite Ere. reflexivity.
Defined.

Lemma pow_exact_witness : val (fst (pow minus7 (fromUint64 5))) = -16807.
Proof.
  pose proof (pow_exact minus7 (fromUint64 5) wf_minus7 (proj1 (fromUint64_spec 5 ltac:(lia)))
    ltac:(by vm_compute)) as H.
  destruct (pow minus7 (fromUint64 5)) as [r err] eqn:E.
  destruct H as (_ & _ & _ & Hr). cbn [fst]. rewrite Hr; [reflexivity|].
  assert (err = snd (pow minus7 (fromUint64 5))) as -> by (by rewrite E). vm_compute. reflexivity.
Defined.

Lemma window_exact_witness :
  exists r, asIntN 3 minus7 = (r, None') /\ wf r /\ val r = 1.
Proof. exact (proj2 (window_exact 3 minus7 wf_minus7 ltac:(by split))). Defined.

Lemma size_guard_edges_witness : asIntN kMaxBits (fromInt64 (-1)) = (zero, TooLarge).
Proof.
  destruct (fromInt64_spec (-1) ltac:(lia)) as [Hw Ev].
  apply (proj2 (proj2 size_guard_edges) kMaxBits (fromInt64 (-1)) Hw eq_refl).
  rewrite Ev. apply neg_one_window. reflexivity.
Defined.
