(* ===== verification/BigNumText.v ===== *)
(** * BigInts and their digits

    [BigNum::parse], [BigNum::toString] and the radix chunking they share, of
    [src/src/runtime/bignum.cpp].  Text is a list of bytes.  The file shows that
    [parse] accepts exactly the non-empty digit strings of the radix and returns
    the number they denote, that [toString] prints the shortest lower-case digits,
    and that each undoes the other; no intermediate word overflows and the division
    loop ends. *)
From S2P Require Import Prelude BigNumMag BigNumDiv BigNumOps.

Definition digitValue (c : Z) : Z :=
  if (48 <=? c) && (c <=? 57) then c - 48
  else if (97 <=? c) && (c <=? 122) then c - 97 + 10
  else if (65 <=? c) && (c <=? 90) then c - 65 + 10
  else -1.

Record RadixChunk := mkChunk { power : Z; digits : Z }.

(** [while (true)], left by its [break]; 32 turns outlast a [uint32_t]. *)
Definition radixChunk (radix : Z) : RadixChunk :=
  while 32 (fun chunk => u64 (power chunk * u32 radix) <=? 0xFFFFFFFF)
    (fun chunk => mkChunk (u32 (u64 (power chunk * u32 radix))) (u32 (digits chunk + 1)))
    (mkChunk (u32 radix) 1).

(** The digit loop of [parse], [None] for its early return. *)
Fixpoint parse_digits (radix : Z) (chunk : RadixChunk) (text : list Z)
    (mag : list Z) (pending pendingDigits pendingScale : Z) : option (list Z) :=
  match text with
  | [] => Some (if negb (pendingDigits =? 0) then mulAddSmall mag pendingScale pending else mag)
  | c :: text =>
    let value := digitValue c in
    if (value <? 0) || (radix <=? value) then None
    else
      let pending := u32 (u32 (pending * u32 radix) + u32 value) in
      let pendingScale := u32 (pendingScale * u32 radix) in
      let pendingDigits := u32 (pendingDigits + 1) in
      if pendingDigits =? digits chunk
      then parse_digits radix chunk text (mulAddSmall mag (power chunk) pending) 0 0 1
      else parse_digits radix chunk text mag pending pendingDigits pendingScale
  end.

Definition parse (text : list Z) (radix : Z) (allowSign : bool) : option BigNum :=
  if (radix <? 2) || (36 <? radix) then None
  else
    let signed := allowSign && (0 <? length text)%nat
                  && ((text.[0%nat] =? 43) || (text.[0%nat] =? 45)) in
    let negative := signed && (text.[0%nat] =? 45) in
    let text := if signed then drop 1 text else text in
    if empty text then None
    else
      let? mag := parse_digits radix (radixChunk radix) text [] 0 0 1 in
      Some (trim (mkBigNum negative mag)).

Definition kDigits : list Z := bytes "0123456789abcdefghijklmnopqrstuvwxyz".

(** The inner loop of [toString]: the digits of one chunk, least significant
    first, the last chunk cut where its value runs out. *)
Fixpoint emit_chunk (n : nat) (radix remainder : Z) (last : bool) (reversed : list Z) : list Z :=
  match n with
  | O => reversed
  | S n =>
    let reversed := reversed ++ [kDigits.[Z.to_nat (remainder mod u32 radix)]] in
    let remainder := remainder / u32 radix in
    if last && (remainder =? 0) then reversed
    else emit_chunk n radix remainder last reversed
  end.

Definition toString_step (radix : Z) (chunk : RadixChunk) : list Z * list Z -> list Z * list Z :=
  fun '(work, reversed) =>
    let '(work, remainder) := divModSmall work (power chunk) in
    let last := empty work in
    (work, emit_chunk (Z.to_nat (digits chunk)) radix remainder last reversed).

(** [while (!work.empty())]: a division takes at least one bit off. *)
Definition toString (x : BigNum) (radix : Z) : list Z :=
  let radix := if (radix <? 2) || (36 <? radix) then 10 else radix in
  if empty (mag_ x) then bytes "0"
  else
    let chunk := radixChunk radix in
    let '(_, reversed) :=
      while (S (32 * length (mag_ x))) (fun '(work, _) => negb (empty work))
        (toString_step radix chunk) (mag_ x, []) in
    (if negative_ x then [45] else []) ++ rev reversed.

(** ** Digits *)

(** The number a digit string denotes, most significant digit first. *)
Definition number (radix : Z) (text : list Z) : Z :=
  fold_left (fun acc c => acc * radix + digitValue c) text 0.

Definition is_digit (radix c : Z) : Prop := 0 <= digitValue c < radix.

Lemma number_from radix text acc :
  fold_left (fun acc c => acc * radix + digitValue c) text acc
  = acc * radix ^ Z.of_nat (length text) + number radix text.
Proof.
  unfold number. revert acc. induction text as [|c text IH]; intros acc; cbn [fold_left length].
  - rewrite Z.pow_0_r. lia.
  - rewrite IH, (IH (0 * radix + digitValue c)), Nat2Z.inj_succ, Z.pow_succ_r by lia. ring.
Qed.

Lemma number_cons radix c text :
  number radix (c :: text) = digitValue c * radix ^ Z.of_nat (length text) + number radix text.
Proof. unfold number at 1. cbn [fold_left]. rewrite number_from. f_equal. Qed.

Lemma number_snoc radix text c :
  number radix (text ++ [c]) = number radix text * radix + digitValue c.
Proof. unfold number. by rewrite fold_left_app. Qed.

Lemma number_app radix l k :
  number radix (l ++ k) = number radix l * radix ^ Z.of_nat (length k) + number radix k.
Proof. unfold number at 1. by rewrite fold_left_app, number_from. Qed.

Lemma number_bound radix text :
  0 < radix -> Forall (is_digit radix) text ->
  0 <= number radix text < radix ^ Z.of_nat (length text).
Proof.
  intros Hr. induction 1 as [|c text [Hc0 Hc1] _ IH]; [cbn; lia|].
  rewrite number_cons. cbn [length]. rewrite Nat2Z.inj_succ, Z.pow_succ_r by lia.
  assert (0 < radix ^ Z.of_nat (length text)) by (apply Z.pow_pos_nonneg; lia).
  assert (digitValue c * radix ^ Z.of_nat (length text)
          <= (radix - 1) * radix ^ Z.of_nat (length text)) by (apply Z.mul_le_mono_nonneg_r; lia).
  assert (0 <= digitValue c * radix ^ Z.of_nat (length text)) by (apply Z.mul_nonneg_nonneg; lia).
  lia.
Qed.

(** ** The chunk *)

Definition chunk_ok (radix : Z) (chunk : RadixChunk) : Prop :=
  1 <= digits chunk < 32 /\ power chunk = radix ^ digits chunk /\ power chunk < 2 ^ 32.

Lemma radixChunk_spec radix : 2 <= radix <= 36 -> chunk_ok radix (radixChunk radix).
Proof.
  intros Hr.
  assert (forallb (fun r => let c := radixChunk r in
    (1 <=? digits c) && (digits c <? 32) && (power c =? r ^ digits c) && (power c <? 2 ^ 32))
    (map (fun i => 2 + Z.of_nat i) (seq 0 35)) = true) as H by (vm_compute; reflexivity).
  rewrite forallb_forall in H. specialize (H radix).
  assert (In radix (map (fun i => 2 + Z.of_nat i) (seq 0 35))) as Hin.
  { apply in_map_iff. exists (Z.to_nat (radix - 2)). rewrite in_seq. lia. }
  specialize (H Hin). cbn zeta in H. repeat (apply andb_prop in H as [H ?]). unfold chunk_ok.
  zbool; try discriminate. lia.
Qed.

(** ** Parsing *)

Lemma digitValue_range c : -1 <= digitValue c < 36.
Proof. unfold digitValue. zbool; cbn [andb]; lia. Qed.

Lemma parse_digits_spec radix chunk text mag pending pd :
  2 <= radix <= 36 -> chunk_ok radix chunk -> limbs_ok mag ->
  0 <= pd < digits chunk -> 0 <= pending < radix ^ pd ->
  match parse_digits radix chunk text mag pending pd (radix ^ pd) with
  | Some m => limbs_ok m /\ Forall (is_digit radix) text /\
      mval m = (mval mag * radix ^ pd + pending) * radix ^ Z.of_nat (length text) + number radix text
  | None => ~ Forall (is_digit radix) text
  end.
Proof.
  intros Hr (Hd & Hp & Hlt). revert mag pending pd.
  induction text as [|c text IH]; intros mag pending pd Hm Hpd Hpend.
  - cbn [parse_digits length]. pose proof (Z.pow_pos_nonneg radix pd ltac:(lia) ltac:(lia)).
    assert (radix ^ pd <= radix ^ digits chunk) by (apply Z.pow_le_mono_r; lia).
    destruct (Z.eqb_spec pd 0) as [->|]; cbn [negb].
    + split_and!; [done|constructor|]. cbn. lia.
    + destruct (mulAddSmall_spec mag (radix ^ pd) pending) as [Ho E];
        [done|split; lia|split; lia|].
      split_and!; [done|constructor|]. rewrite E. cbn. lia.
  - cbn [parse_digits]. pose proof (digitValue_range c).
    destruct (Z.ltb_spec (digitValue c) 0).
    { cbn [orb]. intros [[? ?] _]%Forall_cons. lia. }
    destruct (Z.leb_spec radix (digitValue c)).
    { cbn [orb]. intros [[? ?] _]%Forall_cons. lia. }
    cbn [orb].
    pose proof (Z.pow_pos_nonneg radix pd ltac:(lia) ltac:(lia)).
    assert (radix ^ (pd + 1) = radix ^ pd * radix) as Es by (rewrite Z.pow_add_r by lia; lia).
    assert (radix ^ (pd + 1) <= radix ^ digits chunk) by (apply Z.pow_le_mono_r; lia).
    assert ((pending + 1) * radix <= radix ^ pd * radix) by (apply Z.mul_le_mono_nonneg_r; lia).
    assert (0 <= pending * radix) by (apply Z.mul_nonneg_nonneg; lia).
    rewrite !(u32_small radix), (u32_small (digitValue c)), (u32_small (pd + 1)) by lia.
    rewrite (u32_small (pending * radix)), !u32_small, <- Es by lia.
    set (pending' := pending * radix + digitValue c) in *.
    assert (forall m t, (m * radix ^ (pd + 1) + pending') * t
            = (m * radix ^ pd + pending) * (radix * t) + digitValue c * t) as Ering
      by (intros m t; rewrite Es; unfold pending'; ring).
    cbn [length]. rewrite number_cons, Nat2Z.inj_succ, Z.pow_succ_r by lia.
    destruct (Z.eqb_spec (pd + 1) (digits chunk)) as [Ed|Ed].
    + rewrite Hp, <- Ed. destruct (mulAddSmall_spec mag (radix ^ (pd + 1)) pending') as [Ho E];
        [done|split; lia|split; lia|].
      specialize (IH _ 0 0 Ho ltac:(lia) ltac:(lia)). rewrite Z.pow_0_r in IH.
      destruct (parse_digits _ _ _ _ _ _ _).
      * destruct IH as (? & ? & Em). split_and!; [done|by constructor|].
        rewrite Em, E. specialize (Ering (mval mag) (radix ^ Z.of_nat (length text))). lia.
      * intros [_ ?]%Forall_cons. done.
    + specialize (IH mag pending' (pd + 1) Hm ltac:(lia) ltac:(lia)).
      destruct (parse_digits _ _ _ _ _ _ _).
      * destruct IH as (? & ? & Em). split_and!; [done|by constructor|].
        rewrite Em. specialize (Ering (mval mag) (radix ^ Z.of_nat (length text))). lia.
      * intros [_ ?]%Forall_cons. done.
Qed.

(** The sign a text carries and the digits after it. *)
Definition split_sign (allowSign : bool) (text : list Z) : bool * list Z :=
  match text with
  | c :: rest => if allowSign && ((c =? 43) || (c =? 45)) then (c =? 45, rest) else (false, text)
  | [] => (false, [])
  end.

Lemma parse_unfold text radix allowSign :
  2 <= radix <= 36 ->
  parse text radix allowSign =
    let '(negative, ds) := split_sign allowSign text in
    if empty ds then None
    else let? mag := parse_digits radix (radixChunk radix) ds [] 0 0 1 in
         Some (trim (mkBigNum negative mag)).
Proof.
  intros Hr. unfold parse. destruct (Z.ltb_spec radix 2); [lia|]. destruct (Z.ltb_spec 36 radix); [lia|].
  cbn [orb]. destruct text as [|c rest]; [by rewrite andb_false_r|].
  cbn [length Nat.ltb Nat.leb split_sign drop]. rewrite andb_true_r.
  change ((c :: rest).[0%nat]) with c.
  destruct allowSign; cbn [andb]; [|done]. destruct (Z.eqb_spec c 43); cbn [orb andb].
  - by destruct (c =? 45).
  - by destruct (c =? 45).
Qed.

Lemma parse_spec text radix allowSign :
  2 <= radix <= 36 ->
  let '(negative, ds) := split_sign allowSign text in
  match parse text radix allowSign with
  | Some x => ds <> [] /\ Forall (is_digit radix) ds /\ wf x /\
              val x = if negative then - number radix ds else number radix ds
  | None => ds = [] \/ ~ Forall (is_digit radix) ds
  end.
Proof.
  intros Hr. rewrite parse_unfold by done. destruct (split_sign allowSign text) as [neg ds].
  pose proof (empty_spec ds) as He. destruct (empty ds); [by left|].
  pose proof (radixChunk_spec radix Hr) as Hc.
  pose proof (parse_digits_spec radix _ ds [] 0 0 Hr Hc limbs_ok_nil) as Hp.
  rewrite Z.pow_0_r in Hp. specialize (Hp ltac:(destruct Hc; lia) ltac:(lia)).
  destruct (parse_digits _ _ _ _ _ _ _) as [m|]; [|by right].
  destruct Hp as (Ho & HF & E). cbn [mval] in E.
  destruct (trim_spec neg m Ho) as [? Ev]. split_and!; [|done|done|].
  - intros ->. cbn in He. lia.
  - rewrite Ev, E. by destruct neg.
Qed.

(** ** Printing *)

Lemma kDigits_spec v : 0 <= v < 36 ->
  digitValue kDigits.[Z.to_nat v] = v /\ kDigits.[Z.to_nat v] <> 43 /\ kDigits.[Z.to_nat v] <> 45.
Proof.
  intros Hv.
  assert (forallb (fun i => let c := kDigits.[i] in
    (digitValue c =? Z.of_nat i) && negb (c =? 43) && negb (c =? 45)) (seq 0 36) = true)
    as H by (vm_compute; reflexivity).
  rewrite forallb_forall in H. specialize (H (Z.to_nat v)). rewrite in_seq in H.
  specialize (H ltac:(lia)). cbn zeta in H. repeat (apply andb_prop in H as [H ?]).
  zbool; try discriminate. lia.
Qed.

(** A printed digit. *)
Definition printed (radix c : Z) : Prop :=
  exists v, 0 <= v < radix /\ c = kDigits.[Z.to_nat v].

(** What the inner loop appends: the digits of the remainder, all of the chunk's
    or, in the last chunk, as many as the value has. *)
Lemma emit_chunk_spec n radix rem last reversed :
  2 <= radix <= 36 -> 0 <= rem < radix ^ Z.of_nat n -> (last = true -> 0 < rem) ->
  exists ds, emit_chunk n radix rem last reversed = reversed ++ ds /\
    Forall (printed radix) ds /\ number radix (rev ds) = rem /\
    (if last then exists c ds', rev ds = c :: ds' /\ digitValue c <> 0 else length ds = n).
Proof.
  intros Hr. revert rem reversed. induction n as [|n IH]; intros rem reversed Hrem Hl.
  - cbn in Hrem. exists []. cbn. rewrite app_nil_r. split_and!; [done|constructor|lia|].
    destruct last; [|done]. specialize (Hl eq_refl). lia.
  - cbn [emit_chunk]. rewrite u32_small by lia.
    pose proof (Z.mod_pos_bound rem radix ltac:(lia)) as Hm.
    pose proof (Z.div_mod rem radix ltac:(lia)) as Hdm.
    set (c := kDigits.[Z.to_nat (rem mod radix)]).
    destruct (kDigits_spec (rem mod radix) ltac:(lia)) as [Ec _]. fold c in Ec.
    assert (printed radix c) as Hpc by (by exists (rem mod radix)).
    rewrite Nat2Z.inj_succ, Z.pow_succ_r in Hrem by lia.
    assert (0 <= rem / radix < radix ^ Z.of_nat n) as Hq.
    { split; [apply Z.div_pos; lia|apply Z.div_lt_upper_bound; lia]. }
    destruct (last && (rem / radix =? 0)) eqn:El.
    + apply andb_prop in El as [-> E0%Z.eqb_eq]. exists [c].
      split_and!; [done|by repeat constructor| |].
      * cbn. lia.
      * exists c, []. split; [done|]. specialize (Hl eq_refl). lia.
    + destruct (IH (rem / radix) (reversed ++ [c]) Hq) as (ds & -> & HF & En & Hlast).
      { intros ->. cbn [andb] in El. apply Z.eqb_neq in El. lia. }
      exists (c :: ds). rewrite <- app_assoc. split_and!; [done|by constructor| |].
      * cbn [rev]. rewrite number_snoc, En, Ec. lia.
      * destruct last; [|cbn; lia]. destruct Hlast as (c' & ds' & E' & ?).
        exists c', (ds' ++ [c]). cbn [rev]. by rewrite E'.
Qed.

(** A canonical digit string: no leading zero. *)
Definition no_leading_zero (text : list Z) : Prop :=
  exists c ds, text = c :: ds /\ digitValue c <> 0.

Definition bits_left (l : list Z) : nat :=
  if mval l =? 0 then O else Z.to_nat (Z.log2 (mval l) + 1).

Lemma bits_left_div l q p :
  0 < mval l -> 2 <= p -> mval q = mval l / p -> (bits_left q < bits_left l)%nat.
Proof.
  intros Hl Hp E. unfold bits_left. pose proof (Z.log2_nonneg (mval l)).
  destruct (Z.eqb_spec (mval l) 0); [lia|]. destruct (Z.eqb_spec (mval q) 0); [lia|].
  pose proof (Z.div_pos (mval l) p ltac:(lia) ltac:(lia)).
  pose proof (Z.mul_div_le (mval l) p ltac:(lia)).
  assert (2 * mval q <= p * (mval l / p)) by (rewrite E; apply Z.mul_le_mono_nonneg_r; lia).
  pose proof (Z.log2_le_mono (2 * mval q) (mval l) ltac:(lia)) as Hm.
  rewrite Z.log2_double in Hm by lia. pose proof (Z.log2_nonneg (mval q)). lia.
Qed.

Lemma bits_left_bound l : limbs_ok l -> (bits_left l <= 32 * length l)%nat.
Proof.
  intros Hl. unfold bits_left. destruct (Z.eqb_spec (mval l) 0); [lia|].
  pose proof (mval_bound l Hl) as Hb. rewrite wt_pow2 in Hb.
  assert (Z.log2 (mval l) < 32 * Z.of_nat (length l)) by (apply Z.log2_lt_pow2; lia).
  pose proof (Z.log2_nonneg (mval l)). lia.
Qed.

Definition printing (radix V : Z) : list Z * list Z -> Prop := fun '(work, reversed) =>
  mag_ok work /\ Forall (printed radix) reversed /\
  mval work * radix ^ Z.of_nat (length reversed) + number radix (rev reversed) = V /\
  (work = [] -> no_leading_zero (rev reversed)).

Lemma toString_step_inv radix V st :
  2 <= radix <= 36 -> printing radix V st -> negb (empty (fst st)) = true ->
  printing radix V (toString_step radix (radixChunk radix) st) /\
  (bits_left (fst (toString_step radix (radixChunk radix) st)) < bits_left (fst st))%nat.
Proof.
  intros Hr. destruct st as [work reversed]. intros (Hw & HF & EV & _) Hne. cbn [fst] in Hne.
  destruct (radixChunk_spec radix Hr) as (Hd & Hp & Hlt).
  set (chunk := radixChunk radix) in *. unfold toString_step.
  assert (2 <= power chunk) as Hp2.
  { rewrite Hp. transitivity (radix ^ 1); [lia|]. apply Z.pow_le_mono_r; lia. }
  pose proof (divModSmall_spec work (power chunk) (proj1 Hw) ltac:(lia)) as Hdm.
  destruct (divModSmall work (power chunk)) as [q r]. destruct Hdm as (Hq & Eq & Er).
  assert (0 < mval work) as Hpos.
  { pose proof (mval_nonneg work (proj1 Hw)).
    assert (mval work <> 0); [|lia]. rewrite mval_zero_iff by done. intros ->. discriminate. }
  pose proof (Z.mod_pos_bound (mval work) (power chunk) ltac:(lia)) as Hm.
  pose proof (Z.div_mod (mval work) (power chunk) ltac:(lia)) as Hdm.
  assert (empty q = (mval q =? 0)) as Ee.
  { pose proof (mval_zero_iff q Hq) as Hz. pose proof (empty_spec q) as He. symmetry.
    destruct (empty q); [by rewrite He|]. apply Z.eqb_neq. rewrite Hz. intros ->. cbn in He. lia. }
  destruct (emit_chunk_spec (Z.to_nat (digits chunk)) radix r (empty q) reversed Hr)
    as (ds & -> & HFd & End & Hlast).
  { rewrite Z2Nat.id, <- Hp by lia. lia. }
  { rewrite Ee. intros E0%Z.eqb_eq. lia. }
  split; [|by apply (bits_left_div _ _ (power chunk))].
  unfold printing. split_and!; [done|by apply Forall_app| |].
  - rewrite length_app, rev_app_distr, number_app, length_rev, Nat2Z.inj_add, Z.pow_add_r, End by lia.
    destruct (empty q) eqn:E.
    + symmetry in Ee. apply Z.eqb_eq in Ee. rewrite Ee in *. rewrite Z.mul_0_l. nia.
    + rewrite Hlast, Z2Nat.id, <- Hp by lia. nia.
  - intros ->. cbn [empty] in Hlast. destruct Hlast as (c & ds' & E & Hc).
    exists c, (ds' ++ rev reversed). rewrite rev_app_distr, E. done.
Qed.

Lemma printed_digit radix c : 2 <= radix <= 36 -> printed radix c ->
  is_digit radix c /\ c <> 43 /\ c <> 45.
Proof.
  intros Hr (v & Hv & ->). destruct (kDigits_spec v ltac:(lia)) as (E & ?). unfold is_digit.
  rewrite E. lia.
Qed.

(** The printed form: a sign for a negative value, then its digits in the radix,
    without a leading zero; zero is ["0"]. *)
Lemma toString_spec x radix :
  wf x -> 2 <= radix <= 36 ->
  exists ds, toString x radix = (if val x <? 0 then [45] else []) ++ ds /\
    ds <> [] /\ Forall (printed radix) ds /\ number radix ds = Z.abs (val x) /\
    (val x <> 0 -> no_leading_zero ds) /\ (val x = 0 -> ds = bytes "0").
Proof.
  intros Hx Hr. unfold toString.
  destruct (Z.ltb_spec radix 2); [lia|]. destruct (Z.ltb_spec 36 radix); [lia|]. cbn [orb].
  change (empty (mag_ x)) with (isZero x). rewrite (wf_isZero x Hx).
  destruct (Z.eqb_spec (val x) 0) as [E|Hne].
  { exists (bytes "0"). rewrite E. split_and!; [done|done| |done|done|done].
    constructor; [|constructor]. exists 0. split; [lia|done]. }
  pose proof (while_inv (printing radix (mval (mag_ x))) (fun st => bits_left (fst st))
    (S (32 * length (mag_ x))) (fun '(work, _) => negb (empty work))
    (toString_step radix (radixChunk radix)) (mag_ x, [])) as Hw.
  destruct Hw as [Hi Ht].
  - unfold printing. split_and!; auto with bronze; [cbn; lia|].
    intros E. exfalso. apply Hne. pose proof (wf_mval x Hx) as Em. rewrite E in Em. cbn in Em. lia.
  - intros [w r] Hi Ht. by apply toString_step_inv.
  - cbn [fst]. pose proof (bits_left_bound (mag_ x) (wf_limbs x Hx)). lia.
  - destruct (while _ _ _ _) as [w r]. unfold printing in Hi. destruct Hi as (_ & HF & EV & Hz).
    pose proof (empty_spec w) as He. destruct (empty w); [|discriminate]. subst w.
    specialize (Hz eq_refl). rewrite (wf_negative x Hx). exists (rev r).
    split_and!; [done| | | |done|done].
    + destruct Hz as (c & ds & -> & _). done.
    + by apply Forall_rev.
    + cbn [mval] in EV. rewrite (wf_mval x Hx) in EV. lia.
Qed.

Lemma split_sign_printed radix (negative : bool) ds :
  2 <= radix <= 36 -> Forall (printed radix) ds ->
  split_sign true ((if negative then [45] else []) ++ ds) = (negative, ds).
Proof.
  intros Hr HF. destruct negative; cbn [app split_sign]; [done|].
  destruct HF as [|c ds Hc _]; [done|]. destruct (printed_digit radix c Hr Hc) as (_ & ? & ?).
  cbn [split_sign]. by destruct (Z.eqb_spec c 43), (Z.eqb_spec c 45).
Qed.

(** ** Round trips *)

(** [parse] accepts exactly a non-empty string of the radix's digits, with one
    sign in front where the caller allows it, and returns the number it denotes. *)
Theorem parse_exact text radix allowSign :
  2 <= radix <= 36 ->
  let '(negative, ds) := split_sign allowSign text in
  (parse text radix allowSign = None <-> ds = [] \/ ~ Forall (is_digit radix) ds) /\
  (forall x, parse text radix allowSign = Some x ->
     wf x /\ val x = if negative then - number radix ds else number radix ds).
Proof.
  intros Hr. pose proof (parse_spec text radix allowSign Hr) as H.
  destruct (split_sign allowSign text) as [neg ds].
  destruct (parse text radix allowSign) as [x|].
  - destruct H as (Hne & HF & Hw & Ev). split.
    + split; [done|]. by intros [?|?].
    + intros y [= <-]. done.
  - by split.
Qed.

(** C21: reading back what [toString] prints, in any radix, gives the value printed. *)
Theorem parse_toString x radix :
  wf x -> 2 <= radix <= 36 -> parse (toString x radix) radix true = Some x.
Proof.
  intros Hx Hr. destruct (toString_spec x radix Hx Hr) as (ds & -> & Hne & HF & En & _).
  pose proof (parse_spec ((if val x <? 0 then [45] else []) ++ ds) radix true Hr) as Hp.
  rewrite (split_sign_printed radix) in Hp by done. destruct (parse _ radix true) as [y|].
  - destruct Hp as (_ & _ & Hy & Ey). f_equal. apply val_inj; [done|done|].
    rewrite Ey, En. destruct (Z.ltb_spec (val x) 0); lia.
  - destruct Hp as [?|[]]; [done|]. eapply Forall_impl; [exact HF|].
    intros c Hc. by apply printed_digit.
Qed.

Lemma number_inj_len radix l k :
  2 <= radix <= 36 -> Forall (printed radix) l -> Forall (printed radix) k ->
  length l = length k -> number radix l = number radix k -> l = k.
Proof.
  intros Hr Hl. revert k. induction Hl as [|c l Hc Hl IH]; intros [|d k] Hk Hlen E;
    try discriminate; [done|].
  apply Forall_cons in Hk as [Hd Hk]. cbn [length] in Hlen. rewrite !number_cons in E.
  replace (length k) with (length l) in E by lia.
  assert (forall t, Forall (printed radix) t -> Forall (is_digit radix) t) as Hdig
    by (intros t Ht; eapply Forall_impl; [exact Ht|]; intros x Hx; by apply printed_digit).
  pose proof (number_bound radix l ltac:(lia) (Hdig l Hl)).
  pose proof (number_bound radix k ltac:(lia) (Hdig k Hk)) as Hbk.
  replace (length k) with (length l) in Hbk by lia.
  set (P := radix ^ Z.of_nat (length l)) in *.
  assert (digitValue c = digitValue d) as Ecd.
  { transitivity ((digitValue c * P + number radix l) / P).
    - apply Z.div_unique with (number radix l); lia.
    - rewrite E. symmetry. apply Z.div_unique with (number radix k); lia. }
  destruct Hc as (v & Hv & ->), Hd as (w & Hw & ->).
  destruct (kDigits_spec v ltac:(lia)) as [Ev _]. destruct (kDigits_spec w ltac:(lia)) as [Ew _].
  rewrite Ev, Ew in Ecd. subst w. f_equal. apply IH; [done|lia|lia].
Qed.

Lemma no_leading_zero_bound radix ds :
  2 <= radix <= 36 -> Forall (printed radix) ds -> no_leading_zero ds ->
  radix ^ (Z.of_nat (length ds) - 1) <= number radix ds.
Proof.
  intros Hr HF (c & t & -> & Hc). apply Forall_cons in HF as [Hpc Ht].
  assert (0 <= number radix t < radix ^ Z.of_nat (length t)) as Hb.
  { apply number_bound; [lia|]. eapply Forall_impl; [exact Ht|].
    intros d Hd. by apply printed_digit. }
  rewrite number_cons. cbn [length].
  replace (Z.of_nat (S (length t)) - 1) with (Z.of_nat (length t)) by lia.
  destruct (printed_digit radix c Hr Hpc) as ([? ?] & _).
  assert (1 * radix ^ Z.of_nat (length t) <= digitValue c * radix ^ Z.of_nat (length t))
    by (apply Z.mul_le_mono_nonneg_r; lia). lia.
Qed.

(** A canonical spelling (lower-case digits without leading zeros, a minus sign
    only for a non-zero value) is reproduced exactly by parsing and printing it. *)
Theorem toString_parse radix negative ds x :
  2 <= radix <= 36 -> Forall (printed radix) ds ->
  no_leading_zero ds \/ (ds = bytes "0" /\ negative = false) ->
  parse ((if negative then [45] else []) ++ ds) radix true = Some x ->
  toString x radix = (if negative then [45] else []) ++ ds.
Proof.
  intros Hr HF Hcan Hp.
  pose proof (parse_spec ((if negative then [45] else []) ++ ds) radix true Hr) as Hs.
  rewrite (split_sign_printed radix), Hp in Hs by done. destruct Hs as (Hne & _ & Hx & Ev).
  assert (forall t, Forall (printed radix) t -> 0 <= number radix t < radix ^ Z.of_nat (length t)) as Hb.
  { intros t Ht. apply number_bound; [lia|]. eapply Forall_impl; [exact Ht|].
    intros c Hc. by apply printed_digit. }
  destruct (toString_spec x radix Hx Hr) as (ds' & -> & Hne' & HF' & En & Hnz & Hz).
  destruct Hcan as [Hcan|[-> ->]].
  - pose proof (no_leading_zero_bound radix ds Hr HF Hcan) as Hlow.
    pose proof (Z.pow_pos_nonneg radix (Z.of_nat (length ds) - 1) ltac:(lia)) as Hpp.
    assert (1 <= length ds)%nat by (destruct ds; cbn; [done|lia]).
    specialize (Hpp ltac:(lia)).
    assert (val x <> 0) as Hvne by (destruct negative; lia).
    pose proof (no_leading_zero_bound radix ds' Hr HF' (Hnz Hvne)) as Hlow'.
    pose proof (Hb ds HF) as Hb1. pose proof (Hb ds' HF') as Hb2.
    assert (number radix ds' = number radix ds) as E by (rewrite En; destruct negative; lia).
    assert (length ds' = length ds) as El.
    { apply Nat2Z.inj. assert (1 <= length ds')%nat by (destruct ds'; cbn; [done|lia]).
      assert (Z.of_nat (length ds) - 1 < Z.of_nat (length ds'))
        by (apply (Z.pow_lt_mono_r_iff radix); lia).
      assert (Z.of_nat (length ds') - 1 < Z.of_nat (length ds))
        by (apply (Z.pow_lt_mono_r_iff radix); lia). lia. }
    rewrite (number_inj_len radix ds' ds) by (try done; lia).
    f_equal. destruct negative, (Z.ltb_spec (val x) 0); try done; lia.
  - cbn in Ev. rewrite (Hz Ev), Ev. done.
Qed.

(** ** Witnesses *)

Lemma parse_exact_witness :
  parse (bytes "-ff") 16 true = Some (mkBigNum true [255]) /\
  val (mkBigNum true [255]) = - number 16 (bytes "ff").
Proof.
  destruct (parse_exact (bytes "-ff") 16 true ltac:(lia)) as [_ H].
  assert (parse (bytes "-ff") 16 true = Some (mkBigNum true [255])) as E by (vm_compute; reflexivity).
  split; [exact E|]. exact (proj2 (H _ E)).
Defined.

Lemma parse_toString_witness :
  toString big70 10 = bytes "1180591620717411303429" /\
  parse (toString big70 10) 10 true = Some big70.
Proof.
  split; [vm_compute; reflexivity|]. exact (parse_toString big70 10 wf_big70 ltac:(lia)).
Defined.

Lemma toString_parse_witness : toString (mkBigNum true [255]) 16 = bytes "-ff".
Proof.
  apply (toString_parse 16 true (bytes "ff") (mkBigNum true [255])).
  - lia.
  - repeat constructor; exists 15; (split; [lia|reflexivity]).
  - left. exists 102, [102]. split; [reflexivity|vm_compute; discriminate].
  - vm_compute. reflexivity.
Defined.
