(* ===== verification/Float64.v ===== *)
(** * The [double] of the sources

    A [double] is the Standard Library's [spec_float] at the binary64 format
    (53 bits of precision, exponents below 1024).  [strtod] is the C library's
    conversion as the parsers of the sources use it: on a decimal spelling, the
    exact rational rounded to nearest, ties to even. *)
From Stdlib Require Export Floats.SpecFloat.
From S2P Require Import Prelude.

Definition double : Type := spec_float.
Definition prec : Z := 53.
Definition emax : Z := 1024.

(** [(-1)^negative * mant * 10^exp10], rounded once. *)
Definition round_decimal (negative : bool) (mant exp10 : Z) : double :=
  match mant with
  | Zpos m =>
      if 0 <=? exp10
      then binary_normalize prec emax
             (if negative then - (Zpos m * 10 ^ exp10) else Zpos m * 10 ^ exp10) 0 negative
      else
        let '(q, e, l) := SFdiv_core_binary prec emax (Zpos m) 0 (10 ^ (- exp10)) 0 in
        binary_round_aux prec emax negative q e l
  | _ => S754_zero negative
  end.

Definition is_decimal (c : Z) : bool := (48 <=? c) && (c <=? 57).

(** The longest prefix of decimal digits, and what follows it. *)
Fixpoint span_decimal (text : list Z) : list Z * list Z :=
  match text with
  | c :: rest =>
      if is_decimal c then let '(ds, tail) := span_decimal rest in (c :: ds, tail)
      else ([], text)
  | [] => ([], [])
  end.

Definition decimal_value (ds : list Z) : Z := fold_left (fun acc c => acc * 10 + (c - 48)) ds 0.

(** [strtod] on a decimal spelling: sign, digits, fraction, exponent. *)
Definition strtod (text : list Z) : double :=
  let '(negative, text) :=
    match text with 45 :: rest => (true, rest) | 43 :: rest => (false, rest) | _ => (false, text) end in
  let '(int, text) := span_decimal text in
  let '(frac, text) :=
    match text with 46 :: rest => span_decimal rest | _ => ([], text) end in
  let exp10 :=
    match text with
    | c :: rest =>
        if (c =? 101) || (c =? 69) then
          match rest with
          | 45 :: rest => - decimal_value (fst (span_decimal rest))
          | 43 :: rest => decimal_value (fst (span_decimal rest))
          | _ => decimal_value (fst (span_decimal rest))
          end
        else 0
    | [] => 0
    end in
  round_decimal negative (decimal_value (int ++ frac)) (exp10 - Z.of_nat (length frac)).

Example strtod_tenth : strtod (bytes "0.1") = S754_finite false 7205759403792794 (-56).
Proof. vm_compute. reflexivity. Qed.

Example strtod_large : strtod (bytes "-1.5e3") = S754_finite true 6597069766656000 (-42).
Proof. vm_compute. reflexivity. Qed.

Example strtod_overflow : strtod (bytes "1e400") = S754_infinity false.
Proof. vm_compute. reflexivity. Qed.
