(* ===== verification/Json.v ===== *)
(** * JSON text

    [src/src/json/json.{h,cpp}]: the recursive-descent parser of RFC 8259 /
    ECMA-262 25.5.1 over UTF-16 code units.  The parser is a state monad over its
    position, depth and first error; its [for (;;)] loops and its recursion run on
    fuel.  The specification is the grammar as an inductive relation, and the
    parser is shown to accept exactly its texts nested at most [kMaxDepth] deep, to
    return the value the grammar assigns, and to name an error otherwise. *)
From stdpp Require Import strings pretty.
From S2P Require Import Prelude Float64.

Definition Units : Type := list Z.

#[local] Unset Elimination Schemes.
Inductive Value :=
  | Null
  | Bool (boolean : bool)
  | Number (number : double)
  | String (text : Units)
  | Array (elements : list Value)
  | Object (members : list (Units * Value)).
#[local] Set Elimination Schemes.

Record Parser := mkParser { pos_ : nat; depth_ : Z; error_ : string }.

Definition kMaxDepth : Z := 512.

(** A parsing step: [None] for a null or false result. *)
Definition M (A : Type) : Type := Parser -> option A * Parser.

Definition ret {A} (x : A) : M A := fun p => (Some x, p).
Definition bind {A B} (m : M A) (k : A -> M B) : M B := fun p =>
  match m p with (Some x, p) => k x p | (None, p) => (None, p) end.

Notation "'let!' x := m 'in' k" := (bind m (fun x => k))
  (at level 10, x name, m at level 100, k at level 200).
Notation "m ;; k" := (bind m (fun _ => k)) (at level 100, k at level 200, right associativity).

Definition with_pos (p : Parser) (pos : nat) : Parser := mkParser pos (depth_ p) (error_ p).

Section Parser.
Context (text_ : Units).

Definition atEnd (p : Parser) : bool := (length text_ <=? pos_ p)%nat.
Definition peek (p : Parser) : Z :=
  if (pos_ p <? length text_)%nat then text_.[pos_ p] else 0.

(** [++pos_] *)
Definition skip (n : nat) : M unit := fun p => (Some tt, with_pos p (pos_ p + n)).

(** The first error is kept. *)
Definition fail_at (what : string) (p : Parser) : Parser :=
  if bool_decide (error_ p <> EmptyString) then p
  else mkParser (pos_ p) (depth_ p)
         ("Unexpected token in JSON at position " +:+ pretty (N.of_nat (pos_ p)) +:+ ": " +:+ what)%string.

Definition fail {A} (what : string) : M A := fun p => (None, fail_at what p).

(** A test of the state that moves nothing. *)
Definition look {A} (f : Parser -> A) : M A := fun p => (Some (f p), p).

Definition is_ws (c : Z) : bool := (c =? 32) || (c =? 9) || (c =? 10) || (c =? 13).

(** [while (!atEnd() && test(peek())) ++pos_;] *)
Definition skip_while (test : Z -> bool) : M unit := fun p =>
  (Some tt, while (length text_)
     (fun p => negb (atEnd p) && test text_.[pos_ p])
     (fun p => with_pos p (pos_ p + 1)) p).

Definition skipWhitespace : M unit := skip_while is_ws.

Definition matchWord (word : Units) : M bool := fun p =>
  if (length text_ - pos_ p <? length word)%nat then (Some false, p)
  else if forallb (fun i => text_.[(pos_ p + i)%nat] =? word.[i]) (seq 0 (length word))
  then (Some true, with_pos p (pos_ p + length word))
  else (Some false, p).

Definition unexpected {A} : M A := fun p =>
  let c := peek p in
  let what : string :=
    if c =? 39 then "a string must be double-quoted"
    else if (c =? 43) || (c =? 46) then "a JSON number has no leading '+' or '.'"
    else if c =? 47 then "JSON has no comments"
    else if (c =? 93) || (c =? 125) then "a trailing comma is not a JSON value"
    else "a JSON value was expected" in
  fail what p.

(** [DepthGuard]: the depth goes up around the body, on every way out. *)
Definition with_depth {A} (body : M A) : M A := fun p =>
  let p := mkParser (pos_ p) (depth_ p + 1) (error_ p) in
  let '(r, p) :=
    if depth_ p <=? kMaxDepth then body p
    else fail "the JSON value nests too deeply" p in
  (r, mkParser (pos_ p) (depth_ p - 1) (error_ p)).

Definition hexDigit (c : Z) : option Z :=
  if (48 <=? c) && (c <=? 57) then Some (c - 48)
  else if (97 <=? c) && (c <=? 102) then Some (c - 97 + 10)
  else if (65 <=? c) && (c <=? 70) then Some (c - 65 + 10)
  else None.

(** The four digits of [\u]: the value so far and the digits still to read. *)
Fixpoint hex4 (n : nat) (pos : nat) (value : Z) : option Z :=
  match n with
  | O => Some value
  | S n => let? digit := hexDigit text_.[pos] in hex4 n (S pos) (u32 (value * 16 + digit))
  end.

(** The single-character escapes. *)
Definition simple_escape (e : Z) : option Z :=
  if e =? 34 then Some 34
  else if e =? 92 then Some 92
  else if e =? 47 then Some 47
  else if e =? 98 then Some 8
  else if e =? 102 then Some 12
  else if e =? 110 then Some 10
  else if e =? 114 then Some 13
  else if e =? 116 then Some 9
  else None.

(** What follows a backslash. *)
Definition parseEscape : M Z :=
  let! e := look peek in
  skip 1 ;;
  match simple_escape e with
  | Some u => ret u
  | None =>
    if e =? 117 then
      let! p := look id in
      if (length text_ - pos_ p <? 4)%nat then fail "\u needs four hexadecimal digits"
      else match hex4 4 (pos_ p) 0 with
           | Some value => skip 4 ;; ret (u16 value)
           | None => fail "\u needs four hexadecimal digits"
           end
    else fail "that escape is not one JSON defines"
  end.

(** The characters of a string up to its closing quote, appended to [out]. *)
Fixpoint parseString_loop (fuel : nat) (out : Units) : M Units :=
  match fuel with
  | O => fun p => (None, p)
  | S fuel =>
    let! fin := look atEnd in
    if fin : bool then fail "the string was not closed before the end of the input"
    else
      let! c := look peek in
      if c =? 34 then skip 1 ;; ret out
      else if c <? 32 then fail "a control character must be escaped inside a JSON string"
      else if negb (c =? 92) then skip 1 ;; parseString_loop fuel (out ++ [c])
      else
        skip 1 ;;
        let! fin := look atEnd in
        if fin : bool then fail "the string ended inside an escape"
        else let! u := parseEscape in parseString_loop fuel (out ++ [u])
  end.

Definition parseString : M Units := skip 1 ;; parseString_loop (S (length text_)) [].

Definition parseStringValue : M Value := let! t := parseString in ret (String t).

Definition digit_here (p : Parser) : bool := negb (atEnd p) && is_decimal (peek p).

(** At least one digit, then all that follow. *)
Definition parseDigits (what : string) : M unit :=
  let! d := look digit_here in
  if d : bool then skip_while is_decimal else fail what.

Definition parseNumber : M Value :=
  let! start := look pos_ in
  let! c := look peek in
  (if c =? 45 then skip 1 else ret tt) ;;
  let! d := look digit_here in
  if negb d then fail "a digit was expected in a JSON number"
  else
  let! c := look peek in
  (if c =? 48 then
     skip 1 ;;
     let! d := look digit_here in
     if d : bool then fail "a JSON number has no leading zero" else ret tt
   else skip_while is_decimal) ;;
  let! c := look peek in
  (if c =? 46 then skip 1 ;; parseDigits "a digit was expected after the decimal point"
   else ret tt) ;;
  let! c := look peek in
  (if (c =? 101) || (c =? 69) then
     skip 1 ;;
     let! c := look peek in
     (if (c =? 43) || (c =? 45) then skip 1 else ret tt) ;;
     parseDigits "a digit was expected in the exponent"
   else ret tt) ;;
  let! fin := look pos_ in
  ret (Number (strtod (take (fin - start) (drop start text_)))).

Definition word (w : Units) (v : Value) : M Value :=
  let! ok := matchWord w in if ok : bool then ret v else unexpected.

(** [parseValue], and the [for (;;)] loops of [parseArray] and [parseObject],
    which call it. *)
Fixpoint parseValue (fuel : nat) : M Value :=
  match fuel with
  | O => fun p => (None, p)
  | S fuel =>
    let! fin := look atEnd in
    if fin : bool then fail "a value was expected"
    else
      let! c := look peek in
      if c =? 123 then
        (* parseObject *)
        with_depth (
          skip 1 ;; skipWhitespace ;;
          let! c := look peek in
          if c =? 125 then skip 1 ;; ret (Object []) else object_loop fuel [])
      else if c =? 91 then
        (* parseArray *)
        with_depth (
          skip 1 ;; skipWhitespace ;;
          let! c := look peek in
          if c =? 93 then skip 1 ;; ret (Array []) else array_loop fuel [])
      else if c =? 34 then parseStringValue
      else if c =? 116 then word (bytes "true") (Bool true)
      else if c =? 102 then word (bytes "false") (Bool false)
      else if c =? 110 then word (bytes "null") Null
      else if (c =? 45) || ((48 <=? c) && (c <=? 57)) then parseNumber
      else unexpected
  end
with object_loop (fuel : nat) (members : list (Units * Value)) : M Value :=
  match fuel with
  | O => fun p => (None, p)
  | S fuel =>
    skipWhitespace ;;
    let! c := look peek in
    if negb (c =? 34) then fail "an object key must be a double-quoted string"
    else
      let! key := parseString in
      skipWhitespace ;;
      let! c := look peek in
      if negb (c =? 58) then fail "':' was expected after an object key"
      else
        skip 1 ;; skipWhitespace ;;
        let! value := parseValue fuel in
        let members := members ++ [(key, value)] in
        skipWhitespace ;;
        let! c := look peek in
        if c =? 44 then skip 1 ;; object_loop fuel members
        else if c =? 125 then skip 1 ;; ret (Object members)
        else fail "',' or '}' was expected after an object member"
  end
with array_loop (fuel : nat) (elements : list Value) : M Value :=
  match fuel with
  | O => fun p => (None, p)
  | S fuel =>
    skipWhitespace ;;
    let! element := parseValue fuel in
    let elements := elements ++ [element] in
    skipWhitespace ;;
    let! c := look peek in
    if c =? 44 then skip 1 ;; array_loop fuel elements
    else if c =? 93 then skip 1 ;; ret (Array elements)
    else fail "',' or ']' was expected after an array element"
  end.

Definition fuel_for_text : nat := 2 * length text_ + 2.

Definition parseText : M Value :=
  skipWhitespace ;;
  let! value := parseValue fuel_for_text in
  skipWhitespace ;;
  let! p := look id in
  if negb (pos_ p =? length text_)%nat
  then fail "unexpected text after the end of the JSON value"
  else ret value.
End Parser.

(** The value, or the message that names the error. *)
Definition parse (text : Units) : Value + string :=
  match parseText text (mkParser 0 0 EmptyString) with
  | (Some value, _) => inl value
  | (None, p) =>
      inr (if bool_decide (error_ p = EmptyString) then "Unexpected end of JSON input"%string
           else error_ p)
  end.

(** The text [{<">a<">: [1, true, null], <">b<">: <">x\n<">} ] *)
Definition quote : Units := [34].
Definition sample : Units :=
  bytes "{" ++ quote ++ bytes "a" ++ quote ++ bytes ": [1, true, null], " ++
  quote ++ bytes "b" ++ quote ++ bytes ": " ++ quote ++ bytes "x\n" ++ quote ++ bytes "} ".

Example parse_sample :
  parse sample =
  inl (Object [(bytes "a", Array [Number (strtod (bytes "1")); Bool true; Null]);
               (bytes "b", String [120; 10])]).
Proof. vm_compute. reflexivity. Qed.

(** ** The grammar *)

(** The characters of [JSONStringCharacters], and the code units they denote. *)
Definition escapes : list (Z * Z) :=
  [(34, 34); (92, 92); (47, 47); (98, 8); (102, 12); (110, 10); (114, 13); (116, 9)].

Inductive JChars : Units -> Units -> Prop :=
  | chars_nil : JChars [] []
  | chars_plain c s u : 32 <= c -> c <> 34 -> c <> 92 -> JChars s u -> JChars (c :: s) (c :: u)
  | chars_escape e x s u : In (e, x) escapes -> JChars s u -> JChars (92 :: e :: s) (x :: u)
  | chars_unicode a b c d a' b' c' d' s u :
      hexDigit a = Some a' -> hexDigit b = Some b' -> hexDigit c = Some c' -> hexDigit d = Some d' ->
      JChars s u ->
      JChars (92 :: 117 :: a :: b :: c :: d :: s) (a' * 4096 + b' * 256 + c' * 16 + d' :: u).

Inductive JString : Units -> Units -> Prop :=
  | string_intro s u : JChars s u -> JString (34 :: s ++ [34]) u.

Definition digits1 (ds : Units) : Prop := ds <> [] /\ Forall (fun c => is_decimal c = true) ds.

Inductive JInt : Units -> Prop :=
  | int_zero : JInt [48]
  | int_digits c ds : c <> 48 -> digits1 (c :: ds) -> JInt (c :: ds).

Inductive JFrac : Units -> Prop :=
  | frac_none : JFrac []
  | frac_some ds : digits1 ds -> JFrac (46 :: ds).

Inductive JExp : Units -> Prop :=
  | exp_none : JExp []
  | exp_some e sgn ds : e = 101 \/ e = 69 -> sgn = [] \/ sgn = [43] \/ sgn = [45] -> digits1 ds ->
      JExp (e :: sgn ++ ds).

Inductive JNumber : Units -> Prop :=
  | number_intro sgn i f e : sgn = [] \/ sgn = [45] -> JInt i -> JFrac f -> JExp e ->
      JNumber (sgn ++ i ++ f ++ e).

Definition ws (s : Units) : Prop := Forall (fun c => is_ws c = true) s.

(** [JSONValue], and the comma-separated contents of an array and an object. *)
Inductive JValue : Units -> Value -> Prop :=
  | value_null : JValue (bytes "null") Null
  | value_true : JValue (bytes "true") (Bool true)
  | value_false : JValue (bytes "false") (Bool false)
  | value_number t : JNumber t -> JValue t (Number (strtod t))
  | value_string t u : JString t u -> JValue t (String u)
  | value_array_nil w : ws w -> JValue (91 :: w ++ [93]) (Array [])
  | value_array s vs : JElements s vs -> JValue (91 :: s ++ [93]) (Array vs)
  | value_object_nil w : ws w -> JValue (123 :: w ++ [125]) (Object [])
  | value_object s ms : JMembers s ms -> JValue (123 :: s ++ [125]) (Object ms)
with JElements : Units -> list Value -> Prop :=
  | elements_one w1 t w2 v : ws w1 -> JValue t v -> ws w2 -> JElements (w1 ++ t ++ w2) [v]
  | elements_more w1 t w2 v s vs : ws w1 -> JValue t v -> ws w2 -> JElements s vs ->
      JElements (w1 ++ t ++ w2 ++ 44 :: s) (v :: vs)
with JMembers : Units -> list (Units * Value) -> Prop :=
  | members_one w1 k u w2 w3 t w4 v :
      ws w1 -> JString k u -> ws w2 -> ws w3 -> JValue t v -> ws w4 ->
      JMembers (w1 ++ k ++ w2 ++ 58 :: w3 ++ t ++ w4) [(u, v)]
  | members_more w1 k u w2 w3 t w4 v s ms :
      ws w1 -> JString k u -> ws w2 -> ws w3 -> JValue t v -> ws w4 -> JMembers s ms ->
      JMembers (w1 ++ k ++ w2 ++ 58 :: w3 ++ t ++ w4 ++ 44 :: s) ((u, v) :: ms).

Scheme JValue_ind' := Induction for JValue Sort Prop
  with JElements_ind' := Induction for JElements Sort Prop
  with JMembers_ind' := Induction for JMembers Sort Prop.

Definition JText (s : Units) (v : Value) : Prop :=
  exists w1 t w2, s = w1 ++ t ++ w2 /\ ws w1 /\ JValue t v /\ ws w2.

(** How deep a value nests. *)
Fixpoint nesting (v : Value) : Z :=
  match v with
  | Array vs => 1 + fold_right (fun v d => Z.max (nesting v) d) 0 vs
  | Object ms => 1 + fold_right (fun m d => Z.max (nesting (snd m)) d) 0 ms
  | _ => 0
  end.

Lemma nesting_nonneg v : 0 <= nesting v.
Proof.
  destruct v; cbn; try lia.
  - assert (0 <= fold_right (fun v d => Z.max (nesting v) d) 0 elements); [|lia].
    induction elements; cbn; lia.
  - assert (0 <= fold_right (fun m d => Z.max (nesting (snd m)) d) 0 members); [|lia].
    induction members; cbn; lia.
Qed.

(** ** The primitives, on the text still unread *)

Section Facts.
Context (text_ : Units).

Definition rest (p : Parser) : Units := drop (pos_ p) text_.
Definition after (p : Parser) (t : Units) : Parser := with_pos p (pos_ p + length t).

Lemma rest_after p t : rest (after p t) = drop (length t) (rest p).
Proof. unfold rest, after. cbn [pos_ with_pos]. by rewrite drop_drop. Qed.

Lemma rest_after_app p t r : rest p = t ++ r -> rest (after p t) = r.
Proof. intros E. by rewrite rest_after, E, drop_app_length. Qed.

Lemma after_after p t u : after (after p t) u = after p (t ++ u).
Proof. unfold after, with_pos. cbn. f_equal. rewrite length_app. lia. Qed.

Lemma after_nil p : after p [] = p.
Proof. destruct p. unfold after, with_pos. cbn. by rewrite Nat.add_0_r. Qed.

Lemma atEnd_rest p : atEnd text_ p = empty (rest p).
Proof.
  unfold atEnd, rest. destruct (Nat.leb_spec (length text_) (pos_ p)).
  - by rewrite drop_ge.
  - destruct (drop (pos_ p) text_) eqn:E; [|done].
    apply (f_equal (@length Z)) in E. rewrite length_drop in E. cbn in E. lia.
Qed.

Lemma limb_rest p i : text_.[(pos_ p + i)%nat] = (rest p).[i].
Proof. unfold limb, rest. by rewrite lookup_drop. Qed.

Lemma peek_rest p : peek text_ p = hd 0 (rest p).
Proof.
  unfold peek. destruct (Nat.ltb_spec (pos_ p) (length text_)).
  - rewrite <- (Nat.add_0_r (pos_ p)), limb_rest. by destruct (rest p).
  - unfold rest. by rewrite drop_ge.
Qed.

Lemma length_rest p : length (rest p) = (length text_ - pos_ p)%nat.
Proof. apply length_drop. Qed.

Lemma skip_after p t n : length t = n -> skip n p = (Some tt, after p t).
Proof. by intros <-. Qed.

(** [skip_while] takes exactly a maximal run. *)
Lemma skip_while_spec test p t r :
  rest p = t ++ r -> Forall (fun c => test c = true) t ->
  (match r with c :: _ => test c = false | [] => True end) ->
  skip_while text_ test p = (Some tt, after p t).
Proof.
  intros E Ht Hr. unfold skip_while. f_equal.
  assert (forall n, (length t <= n)%nat ->
    while n (fun p => negb (atEnd text_ p) && test text_.[pos_ p])
      (fun p => with_pos p (pos_ p + 1)) p = after p t) as H.
  { clear - E Ht Hr. revert p E. induction Ht as [|c t Hc Ht IH]; intros p E n Hn.
    - rewrite after_nil. apply while_false. rewrite atEnd_rest, E. cbn [app].
      destruct r as [|c r]; [done|]. cbn [empty negb andb].
      rewrite <- (Nat.add_0_r (pos_ p)), limb_rest, E. done.
    - destruct n as [|n]; [cbn in Hn; lia|]. rewrite while_true.
      + assert (with_pos p (pos_ p + 1) = after p [c]) as -> by done.
        rewrite (IH (after p [c])); [by rewrite after_after|by apply rest_after_app|cbn in Hn; lia].
      + rewrite atEnd_rest, E. cbn [empty negb andb app].
        rewrite <- (Nat.add_0_r (pos_ p)), limb_rest, E. done. }
  apply H. apply (f_equal (@length Z)) in E. rewrite length_rest, length_app in E. lia.
Qed.

(** The maximal run there is. *)
Lemma span_exists (test : Z -> bool) s :
  exists t r, s = t ++ r /\ Forall (fun c => test c = true) t /\
    (match r with c :: _ => test c = false | [] => True end).
Proof.
  induction s as [|c s (t & r & -> & Ht & Hr)].
  - by exists [], [].
  - destruct (test c) eqn:E.
    + exists (c :: t), r. split_and!; [done|by constructor|done].
    + by exists [], (c :: t ++ r).
Qed.
End Facts.

(** ** Steps and their outcomes *)

(** [m] from [p] either succeeds with [Q] or leaves a message. *)
Definition wp {A} (m : M A) (p : Parser) (Q : A -> Parser -> Prop) : Prop :=
  match m p with
  | (Some x, p') => Q x p'
  | (None, p') => error_ p' <> EmptyString
  end.

Lemma wp_ret {A} (x : A) p (Q : A -> Parser -> Prop) : Q x p -> wp (ret x) p Q.
Proof. done. Qed.

Lemma wp_bind {A B} (m : M A) (k : A -> M B) p Q :
  wp m p (fun x p' => wp (k x) p' Q) -> wp (bind m k) p Q.
Proof. unfold wp, bind. by destruct (m p) as [[x|] p']. Qed.

Lemma wp_look {A} (f : Parser -> A) p (Q : A -> Parser -> Prop) : Q (f p) p -> wp (look f) p Q.
Proof. done. Qed.

Lemma wp_mono {A} (m : M A) p (Q Q' : A -> Parser -> Prop) :
  wp m p Q -> (forall x p', Q x p' -> Q' x p') -> wp m p Q'.
Proof. unfold wp. destruct (m p) as [[x|] p']; auto. Qed.

Lemma wp_fail {A} what p (Q : A -> Parser -> Prop) : wp (fail what) p Q.
Proof.
  unfold wp, fail, fail_at. case_bool_decide as H; [exact H|]. cbn. discriminate.
Qed.

Lemma wp_unexpected {A} text_ p (Q : A -> Parser -> Prop) : wp (unexpected text_) p Q.
Proof. unfold unexpected, wp. apply (wp_fail (A := A) _ p Q). Qed.

Lemma bind_run {A B} (m : M A) (k : A -> M B) p x p' r :
  m p = (Some x, p') -> k x p' = r -> bind m k p = r.
Proof. intros E <-. unfold bind. by rewrite E. Qed.

Lemma hexDigit_range c d : hexDigit c = Some d -> 0 <= d < 16.
Proof. unfold hexDigit. zbool; cbn [andb]; intros [= <-]; lia. Qed.

Lemma simple_escape_spec e x : simple_escape e = Some x <-> In (e, x) escapes.
Proof.
  unfold simple_escape, escapes. cbn [In]. split.
  - zbool; intros [= <-]; subst; tauto.
  - intros H. repeat destruct H as [[= <- <-]|H]; try reflexivity. done.
Qed.

Section Sound.
Context (text_ : Units).
Abbreviation rest := (rest text_).

Lemma wp_skip n p t (Q : unit -> Parser -> Prop) :
  length t = n -> Q tt (after p t) -> wp (skip n) p Q.
Proof. intros <- H. exact H. Qed.

Lemma wp_skip_while test p (Q : unit -> Parser -> Prop) :
  (forall t r, rest p = t ++ r -> Forall (fun c => test c = true) t ->
    (match r with c :: _ => test c = false | [] => True end) -> Q tt (after p t)) ->
  wp (skip_while text_ test) p Q.
Proof.
  intros H. destruct (span_exists test (rest p)) as (t & r & E & Ht & Hr).
  unfold wp. rewrite (skip_while_spec text_ test p t r) by done. by eapply H.
Qed.

(** [x] was read from [t], and the reader stands after it. *)
Definition took (p : Parser) (t : Units) (p' : Parser) : Prop :=
  p' = after p t /\ rest p = t ++ rest p'.

Lemma took_intro p t r : rest p = t ++ r -> took p t (after p t).
Proof. intros E. split; [done|]. by rewrite (rest_after_app text_ p t r E), E. Qed.

Lemma took_nil p : took p [] p.
Proof. split; [by rewrite after_nil|done]. Qed.

Lemma took_trans p t p1 u p2 : took p t p1 -> took p1 u p2 -> took p (t ++ u) p2.
Proof.
  intros [-> E1] [-> E2]. rewrite after_after in *. split; [done|].
  rewrite E1, E2. by rewrite app_assoc.
Qed.

Lemma took_head p c r : rest p = c :: r -> took p [c] (after p [c]).
Proof. intros E. by apply (took_intro p [c] r). Qed.

Lemma peek_nonzero p c : peek text_ p = c -> c <> 0 -> exists r, rest p = c :: r.
Proof.
  rewrite peek_rest. destruct (rest p) as [|d r]; cbn; [congruence|].
  intros -> _. by exists r.
Qed.

Lemma hex4_spec pos value :
  hex4 text_ 4 pos 0 = Some value <->
  exists a b c d, hexDigit text_.[pos] = Some a /\ hexDigit text_.[S pos] = Some b /\
    hexDigit text_.[S (S pos)] = Some c /\ hexDigit text_.[S (S (S pos))] = Some d /\
    value = a * 4096 + b * 256 + c * 16 + d.
Proof.
  cbn [hex4].
  destruct (hexDigit text_.[pos]) as [a|] eqn:Ea; [|split; [done|intros (? & ? & ? & ? & ? & ? & ? & ? & ?); congruence]].
  destruct (hexDigit text_.[S pos]) as [b|] eqn:Eb; [|split; [done|intros (? & ? & ? & ? & ? & ? & ? & ? & ?); congruence]].
  destruct (hexDigit text_.[S (S pos)]) as [c|] eqn:Ec; [|split; [done|intros (? & ? & ? & ? & ? & ? & ? & ? & ?); congruence]].
  destruct (hexDigit text_.[S (S (S pos))]) as [d|] eqn:Ed; [|split; [done|intros (? & ? & ? & ? & ? & ? & ? & ? & ?); congruence]].
  apply hexDigit_range in Ea, Eb, Ec, Ed.
  rewrite (u32_small (0 * 16 + a)) by lia. rewrite (u32_small ((0 * 16 + a) * 16 + b)) by lia.
  rewrite (u32_small (((0 * 16 + a) * 16 + b) * 16 + c)), u32_small by lia.
  replace ((((0 * 16 + a) * 16 + b) * 16 + c) * 16 + d) with (a * 4096 + b * 256 + c * 16 + d) by ring.
  split; [intros [= <-]; by exists a, b, c, d|].
  intros (? & ? & ? & ? & [= <-] & [= <-] & [= <-] & [= <-] & ->). done.
Qed.

Lemma wp_parseEscape p :
  rest p <> [] ->
  wp (parseEscape text_) p (fun u p' => exists t, took p t p' /\
    forall s us, JChars s us -> JChars (92 :: t ++ s) (u :: us)).
Proof.
  intros Hne. destruct (rest p) as [|e r] eqn:E; [done|]. unfold parseEscape.
  apply wp_bind, wp_look. rewrite peek_rest, E. cbn [hd].
  apply wp_bind, (wp_skip 1 p [e]); [done|].
  pose proof (took_head p e r E) as Ht.
  destruct (simple_escape e) as [u|] eqn:Ee.
  - apply simple_escape_spec in Ee. exists [e]. split; [done|]. intros s us Hs. by constructor.
  - destruct (Z.eqb_spec e 117) as [->|_]; [|apply wp_fail].
    apply wp_bind, wp_look. cbn [id].
    pose proof (rest_after_app text_ p [117] r E) as Er. set (q := after p [117]) in *.
    pose proof (length_rest text_ q) as Hl. rewrite Er in Hl. rewrite <- Hl.
    destruct (Nat.ltb_spec (length r) 4); [apply wp_fail|].
    destruct r as [|a [|b [|c [|d r]]]]; cbn in H; try lia.
    assert (forall i, text_.[(pos_ q + i)%nat] = (a :: b :: c :: d :: r).[i]) as Hlimb
      by (intros i; by rewrite limb_rest, Er).
    destruct (hex4 text_ 4 (pos_ q) 0) as [v|] eqn:Eh; [|apply wp_fail].
    apply hex4_spec in Eh as (a' & b' & c' & d' & Ha & Hb & Hc & Hd & ->).
    pose proof (Hlimb 0%nat) as H0. pose proof (Hlimb 1%nat) as H1.
    pose proof (Hlimb 2%nat) as H2. pose proof (Hlimb 3%nat) as H3.
    rewrite ?Nat.add_0_r, ?Nat.add_succ_r, ?Nat.add_0_r in *.
    rewrite H0 in Ha. rewrite H1 in Hb. rewrite H2 in Hc. rewrite H3 in Hd.
    apply wp_bind, (wp_skip 4 q [a; b; c; d]); [done|]. apply wp_ret.
    exists [117; a; b; c; d]. split.
    + apply (took_trans p [117] q [a; b; c; d]); [done|]. by apply (took_intro q _ r).
    + intros s us Hs. cbn [app].
      pose proof (hexDigit_range _ _ Ha). pose proof (hexDigit_range _ _ Hb).
      pose proof (hexDigit_range _ _ Hc). pose proof (hexDigit_range _ _ Hd).
      unfold u16. rewrite Z.mod_small by lia. by apply chars_unicode.
Qed.

Lemma wp_parseString_loop fuel out p :
  (length (rest p) < fuel)%nat ->
  wp (parseString_loop text_ fuel out) p (fun u p' => exists s us,
    took p (s ++ [34]) p' /\ JChars s us /\ u = out ++ us).
Proof.
  revert out p. induction fuel as [|fuel IH]; intros out p Hf; [lia|]. cbn [parseString_loop].
  apply wp_bind, wp_look. rewrite atEnd_rest.
  destruct (rest p) as [|c r] eqn:E; cbn [empty]; [apply wp_fail|]. cbn [length] in Hf.
  apply wp_bind, wp_look. rewrite peek_rest, E. cbn [hd].
  pose proof (took_head p c r E) as Ht. pose proof (rest_after_app text_ p [c] r E) as Er.
  destruct (Z.eqb_spec c 34) as [->|H34].
  { apply wp_bind, (wp_skip 1 p [34]); [done|]. apply wp_ret.
    exists [], []. split_and!; [done|constructor|by rewrite app_nil_r]. }
  destruct (Z.ltb_spec c 32); [apply wp_fail|].
  destruct (Z.eqb_spec c 92) as [->|H92]; cbn [negb].
  - apply wp_bind, (wp_skip 1 p [92]); [done|]. apply wp_bind, wp_look. rewrite atEnd_rest, Er.
    pose proof (empty_spec r) as He. destruct (empty r); [apply wp_fail|].
    apply wp_bind. eapply wp_mono; [apply wp_parseEscape; rewrite Er; intros ->; cbn in He; lia|].
    intros u p1 (t & Ht1 & Hc). destruct Ht1 as [-> Et].
    rewrite Er in Et. eapply wp_mono; [apply IH|].
    + apply (f_equal (@length Z)) in Et. rewrite length_app in Et. lia.
    + intros u' p' (s & us & Hts & HC & ->). exists (92 :: t ++ s), (u :: us).
      split_and!; [|by apply Hc|by rewrite <- app_assoc].
      change ((92 :: t ++ s) ++ [34]) with ([92] ++ (t ++ s) ++ [34]). rewrite <- app_assoc.
      eapply took_trans; [exact Ht|]. eapply took_trans; [|exact Hts].
      apply (took_intro _ t (rest (after (after p [92]) t))). by rewrite Er.
  - apply wp_bind, (wp_skip 1 p [c]); [done|]. eapply wp_mono; [apply IH; rewrite Er; lia|].
    intros u p' (s & us & Hts & HC & ->). exists (c :: s), (c :: us). split_and!.
    + change ((c :: s) ++ [34]) with ([c] ++ s ++ [34]). by eapply took_trans.
    + by constructor.
    + by rewrite <- app_assoc.
Qed.

Lemma wp_parseString p r :
  rest p = 34 :: r ->
  wp (parseString text_) p (fun u p' => exists t, took p t p' /\ JString t u).
Proof.
  intros E. unfold parseString. apply wp_bind, (wp_skip 1 p [34]); [done|].
  pose proof (rest_after_app text_ p [34] r E) as Er.
  eapply wp_mono; [apply wp_parseString_loop|].
  - rewrite length_rest. lia.
  - intros u p' (s & us & Ht & HC & ->). exists (34 :: s ++ [34]). split; [|by constructor].
    change (34 :: s ++ [34]) with ([34] ++ s ++ [34]).
    eapply took_trans; [by apply (took_head p 34 r)|done].
Qed.
End Sound.

Section SoundNumber.
Context (text_ : Units).
Abbreviation rest := (rest text_).
Abbreviation took := (took text_).

Lemma digit_here_rest p :
  digit_here text_ p = match rest p with c :: _ => is_decimal c | [] => false end.
Proof. unfold digit_here. rewrite atEnd_rest, peek_rest. by destruct (rest p). Qed.

Lemma wp_parseDigits what p (Q : unit -> Parser -> Prop) :
  (forall ds p', took p ds p' -> digits1 ds -> Q tt p') -> wp (parseDigits text_ what) p Q.
Proof.
  intros H. unfold parseDigits. apply wp_bind, wp_look. rewrite digit_here_rest.
  destruct (rest p) as [|c r0] eqn:E; [apply wp_fail|].
  destruct (is_decimal c) eqn:Ec; [|apply wp_fail].
  apply wp_skip_while. intros t r Er Ht Hr. apply (H t).
  - by apply (took_intro text_ p t r).
  - split; [|done]. intros ->. rewrite E in Er. cbn in Er. subst r. congruence.
Qed.

(** One optional character. *)
Lemma wp_sign p (test : Z -> bool) (Q : unit -> Parser -> Prop) :
  (forall c, test c = true -> c <> 0) ->
  (forall sgn p', took p sgn p' ->
    sgn = [] \/ (exists c, sgn = [c] /\ test c = true) -> Q tt p') ->
  wp (let! c := look (peek text_) in if test c then skip 1 else ret tt) p Q.
Proof.
  intros Ht H. apply wp_bind, wp_look. destruct (test (peek text_ p)) eqn:E.
  - destruct (peek_nonzero text_ p _ eq_refl (Ht _ E)) as [r Er].
    apply (wp_skip 1 p [peek text_ p]); [done|].
    apply (H [peek text_ p]); [by apply (took_head text_ p _ r)|right; eauto].
  - apply wp_ret. apply (H []); [apply took_nil|by left].
Qed.

Lemma take_taken p t p' : took p t p' -> take (pos_ p' - pos_ p) (drop (pos_ p) text_) = t.
Proof.
  intros [-> E]. change (drop (pos_ p) text_) with (rest p). rewrite E.
  unfold after. cbn [pos_ with_pos]. replace (pos_ p + length t - pos_ p)%nat with (length t) by lia.
  apply take_app_length.
Qed.

Lemma bind_assoc {A B C} (m : M A) (k : A -> M B) (h : B -> M C) p :
  bind (bind m k) h p = bind m (fun x => bind (k x) h) p.
Proof. unfold bind. by destruct (m p) as [[x|] q]. Qed.

Lemma wp_assoc {A B C} (m : M A) (k : A -> M B) (h : B -> M C) p Q :
  wp (bind (bind m k) h) p Q -> wp (bind m (fun x => bind (k x) h)) p Q.
Proof. unfold wp. by rewrite bind_assoc. Qed.

Lemma wp_parseNumber p :
  wp (parseNumber text_) p (fun v p' => exists t,
    took p t p' /\ JNumber t /\ v = Number (strtod t)).
Proof.
  unfold parseNumber. apply wp_bind, wp_look.
  apply wp_assoc, wp_bind, wp_sign; [intros c Hc%Z.eqb_eq; lia|].
  intros sgn p1 T1 Hsgn. apply wp_bind, wp_look. rewrite digit_here_rest.
  destruct (rest p1) as [|c r1] eqn:E1; [apply wp_fail|].
  destruct (is_decimal c) eqn:Ec; [|apply wp_fail]. cbn [negb].
  apply wp_bind, wp_look. rewrite peek_rest, E1. cbn [hd].
  apply wp_bind. eapply (wp_mono _ _ (fun _ p2 => exists i, took p1 i p2 /\ JInt i)).
  { destruct (Z.eqb_spec c 48) as [->|Hc].
    - apply wp_bind, (wp_skip 1 p1 [48]); [done|]. apply wp_bind, wp_look.
      destruct (digit_here _ _); [apply wp_fail|]. apply wp_ret.
      exists [48]. split; [by apply (took_head text_ p1 48 r1)|constructor].
    - apply wp_skip_while. intros t r Er Ht Hr. exists t.
      split; [by apply (took_intro text_ p1 t r)|]. rewrite E1 in Er.
      destruct t as [|d t]; cbn in Er; [subst r; congruence|].
      injection Er as -> Er. by constructor. }
  intros _ p2 (i & T2 & Hi).
  apply wp_bind, wp_look. apply wp_bind.
  eapply (wp_mono _ _ (fun _ p3 => exists f, took p2 f p3 /\ JFrac f)).
  { destruct (Z.eqb_spec (peek text_ p2) 46) as [E|E].
    - destruct (peek_nonzero text_ p2 _ E) as [r Er]; [done|].
      apply wp_bind, (wp_skip 1 p2 [46]); [done|]. apply wp_parseDigits. intros ds p' T Hd.
      exists (46 :: ds). split; [|by constructor].
      eapply (took_trans text_ _ [46]); [by apply (took_head text_ p2 46 r)|done].
    - apply wp_ret. exists []. split; [apply took_nil|constructor]. }
  intros _ p3 (f & T3 & Hf).
  apply wp_bind, wp_look. apply wp_bind.
  eapply (wp_mono _ _ (fun _ p4 => exists e, took p3 e p4 /\ JExp e)).
  { destruct ((peek text_ p3 =? 101) || (peek text_ p3 =? 69)) eqn:E.
    - assert (peek text_ p3 = 101 \/ peek text_ p3 = 69) as Ep
        by (apply orb_prop in E as [?%Z.eqb_eq|?%Z.eqb_eq]; auto).
      destruct (peek_nonzero text_ p3 _ eq_refl) as [r Er]; [lia|].
      set (ee := peek text_ p3) in *.
      apply wp_bind, (wp_skip 1 p3 [ee]); [done|].
      apply wp_assoc, wp_bind, (wp_sign _ (fun c => (c =? 43) || (c =? 45)));
        [intros d [Hd%Z.eqb_eq|Hd%Z.eqb_eq]%orb_prop; lia|].
      intros es p' T Hes. apply wp_parseDigits. intros ds p'' T' Hd.
      exists (ee :: es ++ ds). split.
      + change (ee :: es ++ ds) with ([ee] ++ es ++ ds).
        eapply took_trans; [by apply (took_head text_ p3 ee r)|]. by eapply took_trans.
      + constructor; [done| |done]. destruct Hes as [->|(d & -> & Hd')]; [by left|].
        apply orb_prop in Hd' as [->%Z.eqb_eq| ->%Z.eqb_eq]; auto.
    - apply wp_ret. exists []. split; [apply took_nil|constructor]. }
  intros _ p4 (e & T4 & He). apply wp_bind, wp_look. apply wp_ret.
  pose proof (took_trans _ _ _ _ _ _ T1 (took_trans _ _ _ _ _ _ T2 (took_trans _ _ _ _ _ _ T3 T4))) as T.
  eexists. split; [exact T|]. split.
  - constructor; try done. destruct Hsgn as [->|(d & -> & ->%Z.eqb_eq)]; auto.
  - by rewrite (take_taken _ _ _ T).
Qed.
End SoundNumber.

Section SoundValue.
Context (text_ : Units).
Abbreviation rest := (rest text_).
Abbreviation took := (took text_).

Lemma matchWord_spec w p :
  matchWord text_ w p =
    if bool_decide (take (length w) (rest p) = w) then (Some true, after p w) else (Some false, p).
Proof.
  unfold matchWord. rewrite <- length_rest.
  destruct (Nat.ltb_spec (length (rest p)) (length w)) as [Hlt|Hge].
  - rewrite bool_decide_eq_false_2; [done|]. intros E. apply (f_equal (@length Z)) in E.
    rewrite length_take in E. lia.
  - destruct (forallb _ _) eqn:E.
    + rewrite bool_decide_eq_true_2; [done|]. rewrite forallb_forall in E.
      apply list_eq. intros i. destruct (Nat.lt_ge_cases i (length w)) as [Hi|Hi].
      * rewrite lookup_take_lt by lia. specialize (E i ltac:(apply in_seq; lia)).
        apply Z.eqb_eq in E. rewrite limb_rest in E.
        rewrite (limb_lookup_lt w), (limb_lookup_lt (rest p)) by lia. by f_equal.
      * rewrite lookup_take_ge by lia. by rewrite lookup_ge_None_2.
    + rewrite bool_decide_eq_false_2; [done|]. intros Et.
      assert (forallb (fun i => text_.[(pos_ p + i)%nat] =? w.[i]) (seq 0 (length w)) = true); [|congruence].
      apply forallb_forall. intros i Hi%in_seq. apply Z.eqb_eq. rewrite limb_rest.
      unfold limb. rewrite <- Et at 1. by rewrite lookup_take_lt by lia.
Qed.

Lemma wp_word w v p :
  wp (word text_ w v) p (fun v' p' => took p w p' /\ v' = v).
Proof.
  unfold word. apply wp_bind. unfold wp at 1. rewrite matchWord_spec.
  case_bool_decide as E; [|apply (wp_unexpected (A := Value))].
  apply wp_ret. split; [|done]. apply (took_intro _ _ _ (drop (length w) (rest p))).
  rewrite <- E at 1. by rewrite take_drop.
Qed.

Definition deeper (p : Parser) : Parser := mkParser (pos_ p) (depth_ p + 1) (error_ p).
Definition shallower (p : Parser) : Parser := mkParser (pos_ p) (depth_ p - 1) (error_ p).

Lemma wp_with_depth {A} (body : M A) p Q :
  (depth_ p + 1 <= kMaxDepth -> wp body (deeper p) (fun x p' => Q x (shallower p'))) ->
  wp (with_depth body) p Q.
Proof.
  intros H. unfold with_depth, wp. cbn [depth_ pos_ error_]. fold (deeper p).
  destruct (Z.leb_spec (depth_ p + 1) kMaxDepth) as [Hd|Hd].
  - specialize (H Hd). unfold wp in H. by destruct (body (deeper p)) as [[x|] p'].
  - exact (wp_fail (A := A) "the JSON value nests too deeply" (deeper p) (fun _ _ => True)).
Qed.

Lemma took_shallower p t p' : took (deeper p) t p' -> took p t (shallower p').
Proof.
  intros [-> E]. split; [|exact E]. unfold shallower, after, with_pos, deeper. cbn.
  f_equal. lia.
Qed.

Lemma took_length p t p' : took p t p' -> length (rest p) = (length t + length (rest p'))%nat.
Proof. intros [_ E]. rewrite E, length_app. done. Qed.

Lemma took_depth p t p' : took p t p' -> depth_ p' = depth_ p.
Proof. by intros [-> _]. Qed.

Lemma wp_ws p (Q : unit -> Parser -> Prop) :
  (forall w p', took p w p' -> ws w -> Q tt p') -> wp (skipWhitespace text_) p Q.
Proof.
  intros H. apply wp_skip_while. intros t r E Ht _. apply (H t); [|done].
  by apply (took_intro _ _ _ r).
Qed.

(** A tested character. *)
Lemma took_peek p c : peek text_ p = c -> c <> 0 -> took p [c] (after p [c]).
Proof. intros E Hc. destruct (peek_nonzero text_ p c E Hc) as [r Er]. by apply (took_head _ p c r). Qed.

Lemma JElements_ws w s vs : ws w -> JElements s vs -> JElements (w ++ s) vs.
Proof.
  intros Hw H. destruct H; rewrite app_assoc; constructor; try done; by apply Forall_app.
Qed.

Lemma JMembers_ws w s ms : ws w -> JMembers s ms -> JMembers (w ++ s) ms.
Proof.
  intros Hw H. destruct H; rewrite app_assoc; constructor; try done; by apply Forall_app.
Qed.

Definition shallow (p : Parser) (v : Value) : Prop := depth_ p + nesting v <= kMaxDepth.

Definition value_ok (p : Parser) (v : Value) (p' : Parser) : Prop :=
  exists t, took p t p' /\ JValue t v /\ shallow p v.
Definition elements_ok (p : Parser) (acc : list Value) (v : Value) (p' : Parser) : Prop :=
  exists s vs, took p (s ++ [93]) p' /\ JElements s vs /\ v = Array (acc ++ vs) /\
    Forall (shallow p) vs.
Definition members_ok (p : Parser) (acc : list (Units * Value)) (v : Value) (p' : Parser) : Prop :=
  exists s ms, took p (s ++ [125]) p' /\ JMembers s ms /\ v = Object (acc ++ ms) /\
    Forall (fun m => shallow p (snd m)) ms.

Lemma wp_array_loop fuel acc p :
  (forall p, (2 * length (rest p) + 1 <= fuel)%nat -> depth_ p <= kMaxDepth ->
     wp (parseValue text_ fuel) p (value_ok p)) ->
  (forall acc p, (2 * length (rest p) + 2 <= fuel)%nat -> depth_ p <= kMaxDepth ->
     wp (array_loop text_ fuel acc) p (elements_ok p acc)) ->
  (2 * length (rest p) + 2 <= S fuel)%nat -> depth_ p <= kMaxDepth ->
  wp (array_loop text_ (S fuel) acc) p (elements_ok p acc).
Proof.
  intros IHv IHl Hf Hd. cbn [array_loop].
  apply wp_bind, wp_ws. intros w1 p1 T1 Hw1. pose proof (took_length _ _ _ T1) as L1.
  apply wp_bind. eapply wp_mono; [apply IHv; [lia|by rewrite (took_depth _ _ _ T1)]|].
  intros v p2 (t & T2 & Hv & Hs). pose proof (took_length _ _ _ T2) as L2.
  unfold shallow in Hs. rewrite (took_depth _ _ _ T1) in Hs.
  apply wp_bind, wp_ws. intros w2 p3 T3 Hw2. pose proof (took_length _ _ _ T3) as L3.
  pose proof (took_trans _ _ _ _ _ _ T1 (took_trans _ _ _ _ _ _ T2 T3)) as T.
  apply wp_bind, wp_look. destruct (Z.eqb_spec (peek text_ p3) 44) as [E|E].
  - pose proof (took_peek p3 44 E ltac:(lia)) as T4. pose proof (took_length _ _ _ T4) as L4.
    apply wp_bind, (wp_skip 1 p3 [44]); [done|].
    pose proof (took_trans _ _ _ _ _ _ T T4) as T5. pose proof (took_depth _ _ _ T5) as D5.
    cbn [length] in L4.
    eapply wp_mono; [apply IHl; [lia|by rewrite D5]|].
    intros v' p' (s & vs & T6 & Hel & -> & Hss).
    exists (w1 ++ t ++ w2 ++ 44 :: s), (v :: vs). split_and!.
    + pose proof (took_trans _ _ _ _ _ _ T5 T6) as T7. by rewrite <- !app_assoc in *.
    + by constructor.
    + by rewrite <- app_assoc.
    + constructor; [exact Hs|]. eapply Forall_impl; [exact Hss|].
      unfold shallow. by rewrite D5.
  - destruct (Z.eqb_spec (peek text_ p3) 93) as [E'|E']; [|apply wp_fail].
    apply wp_bind, (wp_skip 1 p3 [93]); [done|]. apply wp_ret.
    exists (w1 ++ t ++ w2), [v]. split_and!; [|by constructor|done|by repeat constructor].
    pose proof (took_trans _ _ _ _ _ _ T (took_peek p3 93 E' ltac:(lia))) as T5.
    by rewrite <- !app_assoc in *.
Qed.

Lemma wp_object_loop fuel acc p :
  (forall p, (2 * length (rest p) + 1 <= fuel)%nat -> depth_ p <= kMaxDepth ->
     wp (parseValue text_ fuel) p (value_ok p)) ->
  (forall acc p, (2 * length (rest p) + 2 <= fuel)%nat -> depth_ p <= kMaxDepth ->
     wp (object_loop text_ fuel acc) p (members_ok p acc)) ->
  (2 * length (rest p) + 2 <= S fuel)%nat -> depth_ p <= kMaxDepth ->
  wp (object_loop text_ (S fuel) acc) p (members_ok p acc).
Proof.
  intros IHv IHl Hf Hd. cbn [object_loop].
  apply wp_bind, wp_ws. intros w1 p1 T1 Hw1. pose proof (took_length _ _ _ T1) as L1.
  apply wp_bind, wp_look. destruct (Z.eqb_spec (peek text_ p1) 34) as [Eq|]; [|apply wp_fail]. cbn [negb].
  destruct (peek_nonzero text_ p1 34 Eq ltac:(lia)) as [r1 Er1].
  apply wp_bind. eapply wp_mono; [by eapply wp_parseString|].
  intros u p2 (k & T2 & Hk). pose proof (took_length _ _ _ T2) as L2.
  apply wp_bind, wp_ws. intros w2 p3 T3 Hw2. pose proof (took_length _ _ _ T3) as L3.
  apply wp_bind, wp_look. destruct (Z.eqb_spec (peek text_ p3) 58) as [Ec|]; [|apply wp_fail]. cbn [negb].
  pose proof (took_peek p3 58 Ec ltac:(lia)) as T4. pose proof (took_length _ _ _ T4) as L4.
  apply wp_bind, (wp_skip 1 p3 [58]); [done|]. cbn [length] in L4.
  apply wp_bind, wp_ws. intros w3 p5 T5 Hw3. pose proof (took_length _ _ _ T5) as L5.
  pose proof (took_trans _ _ _ _ _ _ T1 (took_trans _ _ _ _ _ _ T2 (took_trans _ _ _ _ _ _ T3
    (took_trans _ _ _ _ _ _ T4 T5)))) as TK. pose proof (took_depth _ _ _ TK) as DK.
  apply wp_bind. eapply wp_mono; [apply IHv; [lia|by rewrite DK]|].
  intros v p6 (t & T6 & Hv & Hs). pose proof (took_length _ _ _ T6) as L6.
  unfold shallow in Hs. rewrite DK in Hs.
  apply wp_bind, wp_ws. intros w4 p7 T7 Hw4. pose proof (took_length _ _ _ T7) as L7.
  pose proof (took_trans _ _ _ _ _ _ TK (took_trans _ _ _ _ _ _ T6 T7)) as T.
  apply wp_bind, wp_look. destruct (Z.eqb_spec (peek text_ p7) 44) as [E|E].
  - pose proof (took_peek p7 44 E ltac:(lia)) as T8. pose proof (took_length _ _ _ T8) as L8.
    apply wp_bind, (wp_skip 1 p7 [44]); [done|].
    pose proof (took_trans _ _ _ _ _ _ T T8) as T9. pose proof (took_depth _ _ _ T9) as D9.
    cbn [length] in L8.
    eapply wp_mono; [apply IHl; [lia|by rewrite D9]|].
    intros v' p' (s & ms & T10 & Hm & -> & Hss).
    exists (w1 ++ k ++ w2 ++ 58 :: w3 ++ t ++ w4 ++ 44 :: s), ((u, v) :: ms). split_and!.
    + pose proof (took_trans _ _ _ _ _ _ T9 T10) as T11.
      repeat (rewrite <- ?app_assoc, <- ?app_comm_cons in * ). exact T11.
    + by constructor.
    + by rewrite <- app_assoc.
    + constructor; [exact Hs|]. eapply Forall_impl; [exact Hss|].
      unfold shallow. by rewrite D9.
  - destruct (Z.eqb_spec (peek text_ p7) 125) as [E'|E']; [|apply wp_fail].
    apply wp_bind, (wp_skip 1 p7 [125]); [done|]. apply wp_ret.
    exists (w1 ++ k ++ w2 ++ 58 :: w3 ++ t ++ w4), [(u, v)].
    split_and!; [|by constructor|done|by repeat constructor].
    pose proof (took_trans _ _ _ _ _ _ T (took_peek p7 125 E' ltac:(lia))) as T8.
    repeat (rewrite <- ?app_assoc, <- ?app_comm_cons in * ). exact T8.
Qed.
End SoundValue.

Section SoundText.
Context (text_ : Units).
Abbreviation rest := (rest text_).
Abbreviation took := (took text_).

Lemma fold_nesting d vs :
  Forall (fun v => d + 1 + nesting v <= kMaxDepth) vs -> d + 1 <= kMaxDepth ->
  d + (1 + fold_right (fun v m => Z.max (nesting v) m) 0 vs) <= kMaxDepth.
Proof. induction 1; cbn [fold_right]; lia. Qed.

Lemma fold_nesting_snd d (ms : list (Units * Value)) :
  Forall (fun m => d + 1 + nesting (snd m) <= kMaxDepth) ms -> d + 1 <= kMaxDepth ->
  d + (1 + fold_right (fun m k => Z.max (nesting (snd m)) k) 0 ms) <= kMaxDepth.
Proof. induction 1; cbn [fold_right]; lia. Qed.

(** The body of [parseArray] and [parseObject]: an opening bracket, then an empty
    value or the loop. *)
Lemma wp_array fuel p c r :
  (forall acc p, (2 * length (rest p) + 2 <= fuel)%nat -> depth_ p <= kMaxDepth ->
     wp (array_loop text_ fuel acc) p (elements_ok text_ p acc)) ->
  (2 * length (rest p) <= fuel)%nat -> rest p = c :: r -> c = 91 ->
  wp (with_depth (skip 1 ;; skipWhitespace text_ ;;
        let! c := look (peek text_) in
        if c =? 93 then skip 1 ;; ret (Array []) else array_loop text_ fuel [])) p
    (value_ok text_ p).
Proof.
  intros IH Hf E ->. apply wp_with_depth. intros Hd.
  pose proof (took_head text_ (deeper p) 91 r E) as T1.
  apply wp_bind, (wp_skip 1 _ [91]); [done|]. apply wp_bind, wp_ws. intros w p2 T2 Hw.
  pose proof (took_trans _ _ _ _ _ _ T1 T2) as T. pose proof (took_length _ _ _ _ T) as L.
  change (rest (deeper p)) with (rest p) in L. cbn [length app] in L.
  pose proof (took_depth _ _ _ _ T) as D. cbn [depth_ deeper] in D.
  apply wp_bind, wp_look. destruct (Z.eqb_spec (peek text_ p2) 93) as [E2|E2].
  - pose proof (took_peek text_ p2 93 E2 ltac:(lia)) as T3.
    apply wp_bind, (wp_skip 1 p2 [93]); [done|]. apply wp_ret.
    exists (91 :: w ++ [93]). split_and!; [|by constructor|unfold shallow; cbn; lia].
    apply took_shallower. exact (took_trans _ _ _ _ _ _ T T3).
  - eapply wp_mono; [apply IH; lia|]. intros v p' (s & vs & T3 & Hel & -> & Hss).
    exists (91 :: (w ++ s) ++ [93]). split_and!.
    + apply took_shallower. rewrite <- app_assoc. exact (took_trans _ _ _ _ _ _ T T3).
    + constructor. by apply JElements_ws.
    + unfold shallow in *. rewrite D in Hss. cbn [app nesting]. by apply fold_nesting.
Qed.

Lemma wp_object fuel p c r :
  (forall acc p, (2 * length (rest p) + 2 <= fuel)%nat -> depth_ p <= kMaxDepth ->
     wp (object_loop text_ fuel acc) p (members_ok text_ p acc)) ->
  (2 * length (rest p) <= fuel)%nat -> rest p = c :: r -> c = 123 ->
  wp (with_depth (skip 1 ;; skipWhitespace text_ ;;
        let! c := look (peek text_) in
        if c =? 125 then skip 1 ;; ret (Object []) else object_loop text_ fuel [])) p
    (value_ok text_ p).
Proof.
  intros IH Hf E ->. apply wp_with_depth. intros Hd.
  pose proof (took_head text_ (deeper p) 123 r E) as T1.
  apply wp_bind, (wp_skip 1 _ [123]); [done|]. apply wp_bind, wp_ws. intros w p2 T2 Hw.
  pose proof (took_trans _ _ _ _ _ _ T1 T2) as T. pose proof (took_length _ _ _ _ T) as L.
  change (rest (deeper p)) with (rest p) in L. cbn [length app] in L.
  pose proof (took_depth _ _ _ _ T) as D. cbn [depth_ deeper] in D.
  apply wp_bind, wp_look. destruct (Z.eqb_spec (peek text_ p2) 125) as [E2|E2].
  - pose proof (took_peek text_ p2 125 E2 ltac:(lia)) as T3.
    apply wp_bind, (wp_skip 1 p2 [125]); [done|]. apply wp_ret.
    exists (123 :: w ++ [125]). split_and!; [|by constructor|unfold shallow; cbn; lia].
    apply took_shallower. exact (took_trans _ _ _ _ _ _ T T3).
  - eapply wp_mono; [apply IH; lia|]. intros v p' (s & ms & T3 & Hel & -> & Hss).
    exists (123 :: (w ++ s) ++ [125]). split_and!.
    + apply took_shallower. rewrite <- app_assoc. exact (took_trans _ _ _ _ _ _ T T3).
    + constructor. by apply JMembers_ws.
    + unfold shallow in *. rewrite D in Hss. cbn [app nesting]. by apply fold_nesting_snd.
Qed.

Lemma wp_leaf {A} (m : M A) p (f : A -> Units -> Prop) (g : A -> Value) :
  depth_ p <= kMaxDepth ->
  (forall x, nesting (g x) = 0) ->
  (forall x t, f x t -> JValue t (g x)) ->
  wp m p (fun x p' => exists t, took p t p' /\ f x t) ->
  wp (let! x := m in ret (g x)) p (value_ok text_ p).
Proof.
  intros Hd Hn Hf Hm. apply wp_bind. eapply wp_mono; [exact Hm|]. intros x p' (t & T & Hx).
  apply wp_ret. exists t. split_and!; [done|by apply Hf|]. unfold shallow. rewrite Hn. lia.
Qed.

Lemma wp_value fuel :
  (forall p, (2 * length (rest p) + 1 <= fuel)%nat -> depth_ p <= kMaxDepth ->
     wp (parseValue text_ fuel) p (value_ok text_ p)) /\
  (forall acc p, (2 * length (rest p) + 2 <= fuel)%nat -> depth_ p <= kMaxDepth ->
     wp (object_loop text_ fuel acc) p (members_ok text_ p acc)) /\
  (forall acc p, (2 * length (rest p) + 2 <= fuel)%nat -> depth_ p <= kMaxDepth ->
     wp (array_loop text_ fuel acc) p (elements_ok text_ p acc)).
Proof.
  induction fuel as [|fuel (IHv & IHo & IHa)]; [split_and!; intros; lia|].
  split; [|split; intros acc p Hf Hd; [by apply wp_object_loop|by apply wp_array_loop]].
  intros p Hf Hd. cbn [parseValue]. apply wp_bind, wp_look. rewrite atEnd_rest.
  destruct (rest p) as [|c r] eqn:E; cbn [empty]; [apply wp_fail|]. cbn [length] in Hf.
  assert (2 * length (rest p) <= fuel)%nat as Hf' by (rewrite E; cbn [length]; lia).
  apply wp_bind, wp_look. rewrite peek_rest, E. cbn [hd].
  destruct (Z.eqb_spec c 123); [by eapply wp_object|].
  destruct (Z.eqb_spec c 91); [by eapply wp_array|].
  assert (forall t v, JValue t v -> nesting v = 0 ->
    wp (word text_ t v) p (value_ok text_ p)) as Hword.
  { intros t v Hv Hn. eapply wp_mono; [apply wp_word|]. intros v' p' [T ->].
    exists t. split_and!; [done|done|unfold shallow; lia]. }
  destruct (Z.eqb_spec c 34) as [->|].
  { unfold parseStringValue. apply (wp_leaf _ _ (fun u t => JString t u) String); try done.
    - intros. by constructor.
    - by eapply wp_parseString. }
  destruct (Z.eqb_spec c 116); [apply Hword; [constructor|done]|].
  destruct (Z.eqb_spec c 102); [apply Hword; [constructor|done]|].
  destruct (Z.eqb_spec c 110); [apply Hword; [constructor|done]|].
  destruct (_ || _); [|apply wp_unexpected].
  eapply wp_mono; [apply wp_parseNumber|]. intros v p' (t & T & Hn & ->).
  exists t. split_and!; [done|by constructor|unfold shallow; cbn; lia].
Qed.

Lemma wp_parseText :
  wp (parseText text_) (mkParser 0 0 EmptyString)
    (fun v _ => JText text_ v /\ nesting v <= kMaxDepth).
Proof.
  unfold parseText. set (p0 := mkParser _ _ _).
  apply wp_bind, wp_ws. intros w1 p1 T1 Hw1.
  apply wp_bind. eapply wp_mono; [apply wp_value|].
  { unfold fuel_for_text. rewrite length_rest. lia. }
  { rewrite (took_depth _ _ _ _ T1). done. }
  intros v p2 (t & T2 & Hv & Hs). unfold shallow in Hs. rewrite (took_depth _ _ _ _ T1) in Hs.
  apply wp_bind, wp_ws. intros w2 p3 T3 Hw2. apply wp_bind, wp_look. cbn [id].
  destruct (Nat.eqb_spec (pos_ p3) (length text_)) as [E|]; cbn [negb]; [|apply wp_fail].
  apply wp_ret. split; [|exact Hs]. exists w1, t, w2. split_and!; try done.
  destruct (took_trans _ _ _ _ _ _ T1 (took_trans _ _ _ _ _ _ T2 T3)) as [_ Et].
  assert (rest p3 = []) as E3 by (change (drop (pos_ p3) text_ = []); rewrite E; by apply drop_ge).
  rewrite E3, app_nil_r in Et. exact Et.
Qed.
End SoundText.

(** ** Every text of the grammar is accepted *)

(** What may follow a number: nothing that would continue it. *)
Definition stops (test : Z -> bool) (r : Units) : Prop :=
  match r with c :: _ => test c = false | [] => True end.
Definition continues (c : Z) : bool := is_decimal c || (c =? 46) || (c =? 101) || (c =? 69).

Section Complete.
Context (text_ : Units).
Abbreviation rest := (rest text_).

Ltac step := eapply bind_run; [reflexivity|]; cbv beta.

Lemma rest_cons p c r : rest p = c :: r -> rest (after p [c]) = r.
Proof. apply (rest_after_app text_ p [c] r). Qed.

Lemma run_skip_while test p t r :
  rest p = t ++ r -> Forall (fun c => test c = true) t -> stops test r ->
  skip_while text_ test p = (Some tt, after p t).
Proof. apply skip_while_spec. Qed.

Lemma run_peek p c r : rest p = c :: r -> peek text_ p = c.
Proof. intros E. by rewrite peek_rest, E. Qed.

Lemma run_parseEscape p t u us r :
  JChars (92 :: t) (u :: us) -> rest p = t ++ r ->
  exists e s', t = e ++ s' /\ parseEscape text_ p = (Some u, after p e) /\ JChars s' us.
Proof.
  intros H E. inversion H as [|? ? ? ? ? ? Hs|e x s0 u0 Hin Hs|a b c d a' b' c' d' s0 u0 Ha Hb Hc Hd Hs];
    subst; [done| |].
  - exists [e], s0. split_and!; [done| |done]. unfold parseEscape. step.
    rewrite (run_peek p e (s0 ++ r) E). step. apply simple_escape_spec in Hin as ->. done.
  - exists [117; a; b; c; d], s0. split_and!; [done| |done]. unfold parseEscape. step.
    rewrite (run_peek p _ _ E). step. cbn [simple_escape Z.eqb Pos.eqb].
    change (with_pos p (pos_ p + 1)) with (after p [117]).
    pose proof (rest_cons p _ _ E) as Eq. set (q := after p [117]) in *. step. cbn [id].
    rewrite <- (length_rest text_ q), Eq. cbn [length Nat.ltb Nat.leb].
    assert (hex4 text_ 4 (pos_ q) 0 = Some (a' * 4096 + b' * 256 + c' * 16 + d')) as ->.
    { apply hex4_spec. exists a', b', c', d'.
      pose proof (limb_rest text_ q 0) as H0. pose proof (limb_rest text_ q 1) as H1.
      pose proof (limb_rest text_ q 2) as H2. pose proof (limb_rest text_ q 3) as H3.
      rewrite ?Nat.add_succ_r, ?Nat.add_0_r, Eq in *. rewrite H0, H1, H2, H3. done. }
    step. unfold ret, u16.
    pose proof (hexDigit_range _ _ Ha). pose proof (hexDigit_range _ _ Hb).
    pose proof (hexDigit_range _ _ Hc). pose proof (hexDigit_range _ _ Hd).
    rewrite Z.mod_small by lia. f_equal.
    change (with_pos q (pos_ q + 4)) with (after q [a; b; c; d]). apply after_after.
Qed.

Lemma run_parseString_loop fuel s us : forall out p r,
  JChars s us -> rest p = s ++ 34 :: r -> (length s < fuel)%nat ->
  parseString_loop text_ fuel out p = (Some (out ++ us), after p (s ++ [34])).
Proof.
  revert s us. induction fuel as [|fuel IH]; intros s us out p r HC E Hf; [lia|].
  cbn [parseString_loop]. step. rewrite atEnd_rest.
  destruct s as [|c s].
  { inversion HC; subst. rewrite app_nil_l in E. rewrite E. cbn [empty]. step. rewrite (run_peek p _ _ E). step.
    by rewrite app_nil_r. }
  rewrite <- app_comm_cons in E. rewrite E. cbn [empty]. step. rewrite (run_peek p _ _ E).
  pose proof (rest_cons p _ _ E) as E1. cbn [length] in Hf.
  destruct (Z.eqb_spec c 92) as [->|Hne].
  - cbn [Z.eqb Pos.eqb Z.ltb Z.compare Pos.compare Pos.compare_cont negb]. step. step.
    change (with_pos p (pos_ p + 1)) with (after p [92]). rewrite atEnd_rest, E1.
    assert (empty (s ++ 34 :: r) = false) as -> by (by destruct s).
    destruct us as [|u us]; [inversion HC|].
    assert (exists e s', s = e ++ s' /\ parseEscape text_ (after p [92]) = (Some u, after (after p [92]) e) /\ JChars s' us)
      as (e & s' & -> & Hrun & HC') by (by eapply run_parseEscape).
    eapply bind_run; [exact Hrun|].
    rewrite (IH s' us _ _ r HC').
    + rewrite !after_after, <- (app_assoc out), <- !app_comm_cons, <- !app_assoc. done.
    + rewrite <- app_assoc in E1. by rewrite (rest_after_app text_ _ _ _ E1).
    + rewrite length_app in Hf. lia.
  - inversion HC as [|? ? us' H32 H34 _ Hs| |]; subst; try done.
    destruct (Z.eqb_spec c 34); [done|]. destruct (Z.ltb_spec c 32); [lia|].
    cbn [negb]. step. rewrite (IH s us' _ (after p [c]) r Hs E1) by lia.
    by rewrite after_after, <- app_assoc.
Qed.

Lemma run_parseString p t u r :
  JString t u -> rest p = t ++ r -> parseString text_ p = (Some u, after p t).
Proof.
  intros [s us HC] E. unfold parseString. step.
  change (with_pos p (pos_ p + 1)) with (after p [34]).
  rewrite <- app_comm_cons, <- app_assoc in E. pose proof (rest_cons p _ _ E) as E1.
  rewrite (run_parseString_loop _ s us [] _ r HC E1).
  - by rewrite after_after.
  - apply (f_equal (@length Z)) in E1. rewrite length_rest, length_app in E1. lia.
Qed.

(** ** Numbers *)

Lemma run_parseDigits what p ds r :
  digits1 ds -> rest p = ds ++ r -> stops is_decimal r ->
  parseDigits text_ what p = (Some tt, after p ds).
Proof.
  intros [Hne Hd] E Hr. unfold parseDigits. step. rewrite digit_here_rest, E.
  destruct Hd as [|c ds Hc Hd]; [done|]. cbn [app]. rewrite Hc.
  by apply (run_skip_while _ p (c :: ds) r); [|constructor|].
Qed.

Lemma run_sign p (test : Z -> bool) sgn r :
  rest p = sgn ++ r -> test 0 = false -> stops test r ->
  sgn = [] \/ (exists c, sgn = [c] /\ test c = true) ->
  (if test (peek text_ p) then skip 1 else ret tt) p = (Some tt, after p sgn).
Proof.
  intros E H0 Hr Hs. rewrite peek_rest, E. destruct Hs as [->|(c & -> & Hc)]; cbn [app hd].
  - rewrite after_nil. destruct r as [|c r]; cbn [hd]; [by rewrite H0|]. cbn in Hr. by rewrite Hr.
  - by rewrite Hc.
Qed.

Lemma stops_frac f e r : JFrac f -> JExp e -> stops continues r -> stops is_decimal (f ++ e ++ r).
Proof.
  intros [|ds Hd] He Hr; [|done]. cbn [app].
  destruct He as [|c sgn ds [->| ->] _ _]; [|done|done]. destruct r as [|c r]; [done|]. cbn in *.
  unfold continues in Hr. by destruct (is_decimal c).
Qed.

Lemma stops_exp e r : JExp e -> stops continues r ->
  stops is_decimal (e ++ r) /\ stops (fun c => c =? 46) (e ++ r).
Proof.
  intros [|c sgn ds [->| ->] _ _] Hr; [|done|done]. destruct r as [|c r]; [done|]. cbn in *.
  unfold continues in Hr. by destruct (is_decimal c), (c =? 46).
Qed.

Lemma JInt_head i : JInt i -> exists c ds, i = c :: ds /\ is_decimal c = true.
Proof.
  intros [|c ds Hc [_ HF]]; [by exists 48, []|].
  exists c, ds. split; [done|]. by apply Forall_cons in HF as [? _].
Qed.

Lemma run_int p i r :
  JInt i -> rest p = i ++ r -> stops is_decimal r ->
  (if hd 0 i =? 48 then
     skip 1 ;;
     let! d := look (digit_here text_) in
     if d : bool then fail "a JSON number has no leading zero" else ret tt
   else skip_while text_ is_decimal) p = (Some tt, after p i).
Proof.
  intros Hi E Hr. destruct Hi as [|c ds Hc [_ HF]]; cbn [hd].
  - cbn [Z.eqb Pos.eqb]. step. step. change (with_pos p (pos_ p + 1)) with (after p [48]).
    rewrite digit_here_rest, (rest_cons p 48 r E). destruct r as [|c r]; [done|].
    cbn in Hr. by rewrite Hr.
  - destruct (Z.eqb_spec c 48); [done|]. by apply (run_skip_while _ p (c :: ds) r).
Qed.

Lemma run_frac p f r :
  JFrac f -> rest p = f ++ r -> stops is_decimal r -> stops (fun c => c =? 46) r ->
  (if peek text_ p =? 46 then
     skip 1 ;; parseDigits text_ "a digit was expected after the decimal point"
   else ret tt) p = (Some tt, after p f).
Proof.
  intros Hf E Hr H46. rewrite peek_rest, E. destruct Hf as [|ds Hd]; cbn [app hd].
  - rewrite after_nil. destruct r as [|c r]; cbn [hd]; [done|]. cbn in H46. by rewrite H46.
  - cbn [Z.eqb Pos.eqb]. step. change (with_pos p (pos_ p + 1)) with (after p [46]).
    rewrite (run_parseDigits _ _ ds r Hd (rest_cons p _ _ E) Hr). by rewrite after_after.
Qed.

Lemma run_exp p e r :
  JExp e -> rest p = e ++ r -> stops continues r ->
  (if (peek text_ p =? 101) || (peek text_ p =? 69) then
     skip 1 ;;
     let! c := look (peek text_) in
     (if (c =? 43) || (c =? 45) then skip 1 else ret tt) ;;
     parseDigits text_ "a digit was expected in the exponent"
   else ret tt) p = (Some tt, after p e).
Proof.
  intros He E Hr. rewrite peek_rest, E.
  assert (stops is_decimal r /\ stops (fun c => (c =? 101) || (c =? 69)) r) as [Hr1 Hr2].
  { destruct r as [|c r]; [done|]. cbn in *. unfold continues in Hr.
    by destruct (is_decimal c), (c =? 46), (c =? 101), (c =? 69). }
  destruct He as [|c sgn ds Hc Hs Hd]; cbn [app hd].
  - rewrite after_nil. destruct r as [|c r]; cbn [hd]; [done|]. cbn in Hr2. by rewrite Hr2.
  - assert ((c =? 101) || (c =? 69) = true) as -> by (by destruct Hc as [->| ->]).
    step. step. change (with_pos p (pos_ p + 1)) with (after p [c]).
    rewrite <- app_comm_cons, <- app_assoc in E. pose proof (rest_cons p _ _ E) as E1.
    eapply bind_run.
    { apply (run_sign _ (fun c => (c =? 43) || (c =? 45)) sgn (ds ++ r)); [done|done| |].
      - destruct Hd as [Hne HF]. destruct HF as [|d ds Hdd _]; [done|]. cbn.
        unfold is_decimal in Hdd. zbool; cbn in *; lia || done.
      - destruct Hs as [->|[->| ->]]; [by left|right..]; eauto. }
    cbv beta. rewrite (run_parseDigits _ _ ds r Hd); [by rewrite !after_after| |done].
    exact (rest_after_app text_ _ _ _ E1).
Qed.

Lemma run_parseNumber p t r :
  JNumber t -> rest p = t ++ r -> stops continues r ->
  parseNumber text_ p = (Some (Number (strtod t)), after p t).
Proof.
  intros [sgn i f e Hs Hi Hf He] E Hr. rewrite <- !app_assoc in E.
  pose proof (stops_frac f e r Hf He Hr) as S1. pose proof (stops_exp e r He Hr) as [S2 S3].
  destruct (JInt_head i Hi) as (c0 & ds0 & Ei & Hc0).
  unfold parseNumber. step. step. eapply bind_run.
  { apply (run_sign _ (fun c => c =? 45) sgn (i ++ f ++ e ++ r)); [done|done| |].
    - rewrite Ei. cbn. unfold is_decimal in Hc0. zbool; cbn in *; lia || done.
    - destruct Hs as [->| ->]; [by left|right; eauto]. }
  cbv beta. pose proof (rest_after_app text_ _ _ _ E) as E1. set (p1 := after p sgn) in *.
  step. rewrite digit_here_rest, E1.
  replace (match i ++ f ++ e ++ r with c :: _ => is_decimal c | [] => false end) with true
    by (rewrite Ei; by cbn; rewrite Hc0).
  cbn [negb].
  step. rewrite (run_peek p1 (hd 0 i) (ds0 ++ f ++ e ++ r)) by (rewrite E1, Ei; done).
  eapply bind_run; [by apply (run_int p1 i (f ++ e ++ r))|]. cbv beta.
  pose proof (rest_after_app text_ _ _ _ E1) as E2. set (p2 := after p1 i) in *.
  step. eapply bind_run; [by apply (run_frac p2 f (e ++ r))|]. cbv beta.
  pose proof (rest_after_app text_ _ _ _ E2) as E3. set (p3 := after p2 f) in *.
  step. eapply bind_run; [by apply (run_exp p3 e r)|]. cbv beta.
  assert (after p3 e = after p (sgn ++ i ++ f ++ e)) as Ea
    by (unfold p3, p2, p1; by rewrite !after_after).
  step. rewrite Ea, (take_taken text_ _ (sgn ++ i ++ f ++ e)); [done|].
  apply (took_intro _ _ _ r). by rewrite E, <- !app_assoc.
Qed.
End Complete.

Section CompleteValue.
Context (text_ : Units).
Abbreviation rest := (rest text_).

Ltac step := eapply bind_run; [reflexivity|]; cbv beta.

Lemma run_word w v p r : rest p = w ++ r -> word text_ w v p = (Some v, after p w).
Proof.
  intros E. unfold word. eapply bind_run.
  { rewrite matchWord_spec, E, take_app_length. by rewrite bool_decide_eq_true_2. }
  done.
Qed.

Lemma run_ws p w r :
  rest p = w ++ r -> ws w -> stops is_ws r -> skipWhitespace text_ p = (Some tt, after p w).
Proof. apply (skip_while_spec text_ is_ws). Qed.

Lemma run_with_depth {A} (body : M A) p x t :
  depth_ p + 1 <= kMaxDepth -> body (deeper p) = (Some x, after (deeper p) t) ->
  with_depth body p = (Some x, after p t).
Proof.
  intros Hd E. unfold with_depth. cbn [depth_]. fold (deeper p).
  destruct (Z.leb_spec (depth_ p + 1) kMaxDepth); [|lia]. rewrite E.
  unfold after, with_pos, deeper. cbn. do 2 f_equal. lia.
Qed.

Lemma ws_stops c w r : ws (c :: w) -> stops continues (c :: r).
Proof.
  intros [Hc _]%Forall_cons. cbn. unfold is_ws, continues, is_decimal in *.
  zbool; cbn in *; try discriminate; try lia; done.
Qed.

Lemma stops_ws_app w r : ws w -> stops continues r -> stops continues (w ++ r).
Proof. intros Hw Hr. destruct w as [|c w]; [done|]. by apply (ws_stops c w). Qed.

Lemma value_first t v : JValue t v ->
  exists c t', t = c :: t' /\ is_ws c = false /\ c <> 93.
Proof.
  intros H. destruct H as [| | |t [sgn i f e Hs Hi _ _]|t u [s us _]| | | |];
    try (by eexists _, _).
  destruct Hs as [->| ->]; [|by eexists _, _].
  destruct (JInt_head i Hi) as (c & ds & -> & Hc). exists c, (ds ++ f ++ e). split; [done|].
  unfold is_decimal, is_ws in *. zbool; cbn in *; try discriminate; split; done || lia.
Qed.

Lemma elements_first s vs : JElements s vs ->
  exists w c s', s = w ++ c :: s' /\ ws w /\ is_ws c = false /\ c <> 93.
Proof.
  intros [w1 t w2 v Hw Hv _|w1 t w2 v s' vs' Hw Hv _ _];
    destruct (value_first t v Hv) as (c & t' & -> & ? & ?); by eexists w1, c, _.
Qed.

Lemma members_first s ms : JMembers s ms -> exists w s', s = w ++ 34 :: s' /\ ws w.
Proof.
  intros [w1 k u w2 w3 t w4 v Hw [s' us _] _ _ _ _|w1 k u w2 w3 t w4 v s0 ms' Hw [s' us _] _ _ _ _ _];
    by eexists w1, _.
Qed.

Definition value_run (t : Units) (v : Value) : Prop := forall p fuel r,
  rest p = t ++ r -> stops continues r -> (2 * length t + 1 <= fuel)%nat -> shallow p v ->
  parseValue text_ fuel p = (Some v, after p t).
Definition elements_run (s : Units) (vs : list Value) : Prop := forall p fuel acc r,
  rest p = s ++ 93 :: r -> (2 * length s + 2 <= fuel)%nat -> Forall (shallow p) vs ->
  array_loop text_ fuel acc p = (Some (Array (acc ++ vs)), after p (s ++ [93])).
Definition members_run (s : Units) (ms : list (Units * Value)) : Prop := forall p fuel acc r,
  rest p = s ++ 125 :: r -> (2 * length s + 2 <= fuel)%nat -> Forall (fun m => shallow p (snd m)) ms ->
  object_loop text_ fuel acc p = (Some (Object (acc ++ ms)), after p (s ++ [125])).

Lemma shallow_after p t v : shallow p v -> shallow (after p t) v.
Proof. done. Qed.

(** One element and the whitespace around it. *)
Lemma element_prefix {B} p fuel w1 t w2 v r (k : Value -> M B) res :
  value_run t v -> JValue t v -> ws w1 -> ws w2 -> stops is_ws r -> stops continues r ->
  rest p = w1 ++ t ++ w2 ++ r -> (2 * length t + 1 <= fuel)%nat -> shallow p v ->
  k v (after p (w1 ++ t ++ w2)) = res ->
  (skipWhitespace text_ ;; let! e := parseValue text_ fuel in skipWhitespace text_ ;; k e) p = res.
Proof.
  intros IH Hv Hw1 Hw2 Hr Hc E Hf Hs <-. destruct (value_first t v Hv) as (c & t' & Et & Hcw & _).
  eapply bind_run; [apply (run_ws p w1 _ E Hw1); rewrite Et; exact Hcw|]. cbv beta.
  pose proof (rest_after_app text_ _ _ _ E) as E1.
  eapply bind_run; [apply (IH _ _ _ E1); [by apply stops_ws_app|done|done]|]. cbv beta.
  pose proof (rest_after_app text_ _ _ _ E1) as E2.
  eapply bind_run; [by apply (run_ws _ w2 r E2)|]. by rewrite !after_after.
Qed.

Lemma run_elements_one w1 t w2 v :
  ws w1 -> JValue t v -> value_run t v -> ws w2 -> elements_run (w1 ++ t ++ w2) [v].
Proof.
  intros Hw1 Hv IH Hw2 p fuel acc r E Hf [Hs _]%Forall_cons.
  destruct fuel as [|fuel]; [lia|]. cbn [array_loop]. rewrite <- !app_assoc in E.
  rewrite !length_app in Hf.
  eapply (element_prefix p fuel w1 t w2 v (93 :: r)); try done; [lia|].
  pose proof (rest_after_app text_ p (w1 ++ t ++ w2) (93 :: r)) as E1.
  rewrite <- !app_assoc in E1. specialize (E1 E).
  step. rewrite (run_peek text_ _ 93 r E1). cbn [Z.eqb Pos.eqb]. step.
  by rewrite <- (after_after p (w1 ++ t ++ w2) [93]).
Qed.

Lemma run_elements_more w1 t w2 v s vs :
  ws w1 -> JValue t v -> value_run t v -> ws w2 -> elements_run s vs ->
  elements_run (w1 ++ t ++ w2 ++ 44 :: s) (v :: vs).
Proof.
  intros Hw1 Hv IH Hw2 IHs p fuel acc r E Hf [Hs Hss]%Forall_cons.
  destruct fuel as [|fuel]; [lia|]. cbn [array_loop].
  rewrite <- !app_assoc, <- app_comm_cons in E. rewrite !length_app in Hf. cbn [length] in Hf.
  eapply (element_prefix p fuel w1 t w2 v (44 :: s ++ 93 :: r)); try done; [lia|].
  pose proof (rest_after_app text_ p (w1 ++ t ++ w2) (44 :: s ++ 93 :: r)) as E1.
  rewrite <- !app_assoc in E1. specialize (E1 E).
  step. rewrite (run_peek text_ _ 44 _ E1). cbn [Z.eqb Pos.eqb]. step.
  change (with_pos (after p (w1 ++ t ++ w2)) (pos_ (after p (w1 ++ t ++ w2)) + 1))
    with (after (after p (w1 ++ t ++ w2)) [44]).
  pose proof (rest_cons text_ _ _ _ E1) as E2.
  rewrite (IHs _ fuel _ r E2) by (try done; lia).
  rewrite <- (app_assoc acc). by rewrite !after_after, <- !app_assoc.
Qed.

(** One member and the whitespace around it. *)
Lemma member_prefix {B} p fuel w1 k u w2 w3 t w4 v r (kont : Units -> Value -> M B) res :
  value_run t v -> JValue t v -> JString k u -> ws w1 -> ws w2 -> ws w3 -> ws w4 ->
  stops is_ws r -> stops continues r ->
  rest p = w1 ++ k ++ w2 ++ 58 :: w3 ++ t ++ w4 ++ r -> (2 * length t + 1 <= fuel)%nat ->
  shallow p v ->
  kont u v (after p (w1 ++ k ++ w2 ++ 58 :: w3 ++ t ++ w4)) = res ->
  (skipWhitespace text_ ;;
   let! c := look (peek text_) in
   if negb (c =? 34) then fail "an object key must be a double-quoted string"
   else
     let! key := parseString text_ in
     skipWhitespace text_ ;;
     let! c := look (peek text_) in
     if negb (c =? 58) then fail "':' was expected after an object key"
     else
       skip 1 ;; skipWhitespace text_ ;;
       let! value := parseValue text_ fuel in
       skipWhitespace text_ ;; kont key value) p = res.
Proof.
  intros IH Hv Hk Hw1 Hw2 Hw3 Hw4 Hr Hc E Hf Hs <-.
  destruct (value_first t v Hv) as (c & t' & Et & Hcw & _).
  assert (exists k', k = 34 :: k') as [k' Ek] by (destruct Hk; eauto).
  eapply bind_run; [apply (run_ws p w1 _ E Hw1); by rewrite Ek|]. cbv beta.
  pose proof (rest_after_app text_ _ _ _ E) as E1.
  step. rewrite (run_peek text_ _ 34 (k' ++ w2 ++ 58 :: w3 ++ t ++ w4 ++ r))
    by (rewrite E1, Ek; done). cbn [Z.eqb Pos.eqb negb].
  eapply bind_run; [by apply (run_parseString text_ _ k u _ Hk E1)|]. cbv beta.
  pose proof (rest_after_app text_ _ _ _ E1) as E2.
  eapply bind_run; [by apply (run_ws _ w2 _ E2)|]. cbv beta.
  pose proof (rest_after_app text_ _ _ _ E2) as E3.
  step. rewrite (run_peek text_ _ 58 _ E3). cbn [Z.eqb Pos.eqb negb].
  eapply bind_run; [by apply (skip_after _ [58])|]. cbv beta.
  pose proof (rest_cons text_ _ _ _ E3) as E4.
  eapply bind_run; [apply (run_ws _ w3 _ E4 Hw3); rewrite Et; exact Hcw|]. cbv beta.
  pose proof (rest_after_app text_ _ _ _ E4) as E5.
  eapply bind_run; [apply (IH _ _ _ E5); [by apply stops_ws_app|done|done]|]. cbv beta.
  pose proof (rest_after_app text_ _ _ _ E5) as E6.
  eapply bind_run; [by apply (run_ws _ w4 r E6)|].
  by rewrite !after_after.
Qed.

Lemma run_members_one w1 k u w2 w3 t w4 v :
  ws w1 -> JString k u -> ws w2 -> ws w3 -> JValue t v -> value_run t v -> ws w4 ->
  members_run (w1 ++ k ++ w2 ++ 58 :: w3 ++ t ++ w4) [(u, v)].
Proof.
  intros Hw1 Hk Hw2 Hw3 Hv IH Hw4 p fuel acc r E Hf [Hs _]%Forall_cons.
  destruct fuel as [|fuel]; [lia|]. cbn [object_loop].
  set (s := w1 ++ k ++ w2 ++ 58 :: w3 ++ t ++ w4) in *.
  assert (length t <= length s)%nat as Hl
    by (unfold s; rewrite !length_app; cbn [length]; rewrite !length_app; lia).
  pose proof (rest_after_app text_ p s (125 :: r) E) as E1.
  eapply (member_prefix p fuel w1 k u w2 w3 t w4 v (125 :: r)); try done; [|lia|].
  { rewrite E. unfold s. repeat (rewrite <- ?app_assoc, <- ?app_comm_cons). done. }
  fold s. step. rewrite (run_peek text_ _ 125 r E1). cbn [Z.eqb Pos.eqb]. step.
  by rewrite <- (after_after p s [125]).
Qed.

Lemma run_members_more w1 k u w2 w3 t w4 v s0 ms :
  ws w1 -> JString k u -> ws w2 -> ws w3 -> JValue t v -> value_run t v -> ws w4 ->
  members_run s0 ms ->
  members_run (w1 ++ k ++ w2 ++ 58 :: w3 ++ t ++ w4 ++ 44 :: s0) ((u, v) :: ms).
Proof.
  intros Hw1 Hk Hw2 Hw3 Hv IH Hw4 IHs p fuel acc r E Hf [Hs Hss]%Forall_cons.
  destruct fuel as [|fuel]; [lia|]. cbn [object_loop].
  set (s := w1 ++ k ++ w2 ++ 58 :: w3 ++ t ++ w4).
  assert (w1 ++ k ++ w2 ++ 58 :: w3 ++ t ++ w4 ++ 44 :: s0 = s ++ 44 :: s0) as Es
    by (unfold s; repeat (rewrite <- ?app_assoc, <- ?app_comm_cons); done).
  rewrite Es in *. rewrite <- app_assoc, <- app_comm_cons in E.
  rewrite length_app in Hf. cbn [length] in Hf.
  assert (length t <= length s)%nat as Hl
    by (unfold s; rewrite !length_app; cbn [length]; rewrite !length_app; lia).
  pose proof (rest_after_app text_ p s _ E) as E1.
  eapply (member_prefix p fuel w1 k u w2 w3 t w4 v (44 :: s0 ++ 125 :: r)); try done; [|lia|].
  { rewrite E. unfold s. repeat (rewrite <- ?app_assoc, <- ?app_comm_cons). done. }
  fold s. step. rewrite (run_peek text_ _ 44 _ E1). cbn [Z.eqb Pos.eqb].
  eapply bind_run; [by apply (skip_after _ [44])|]. cbv beta.
  pose proof (rest_cons text_ _ _ _ E1) as E2.
  rewrite (IHs _ fuel _ r E2) by (try done; lia).
  rewrite <- (app_assoc acc). by rewrite !after_after, <- !app_assoc.
Qed.
End CompleteValue.

Section CompleteText.
Context (text_ : Units).
Abbreviation rest := (rest text_).

Ltac step := eapply bind_run; [reflexivity|]; cbv beta.

(** The dispatch of [parseValue] on the first character. *)
Lemma run_dispatch p fuel c r :
  rest p = c :: r ->
  parseValue text_ (S fuel) p =
    (if c =? 123 then
       with_depth (skip 1 ;; skipWhitespace text_ ;;
         let! c := look (peek text_) in
         if c =? 125 then skip 1 ;; ret (Object []) else object_loop text_ fuel []) p
     else if c =? 91 then
       with_depth (skip 1 ;; skipWhitespace text_ ;;
         let! c := look (peek text_) in
         if c =? 93 then skip 1 ;; ret (Array []) else array_loop text_ fuel []) p
     else if c =? 34 then parseStringValue text_ p
     else if c =? 116 then word text_ (bytes "true") (Bool true) p
     else if c =? 102 then word text_ (bytes "false") (Bool false) p
     else if c =? 110 then word text_ (bytes "null") Null p
     else if (c =? 45) || ((48 <=? c) && (c <=? 57)) then parseNumber text_ p
     else unexpected text_ p).
Proof.
  intros E. cbn [parseValue]. step. rewrite atEnd_rest, E. cbn [empty]. step.
  rewrite (run_peek text_ p c r E). repeat (destruct (_ =? _); [done|]). by destruct (_ || _).
Qed.

(** Entering a bracket: the whitespace skipped twice is skipped once. *)
Lemma run_array_loop_ws fuel acc p w r :
  rest p = w ++ r -> ws w -> stops is_ws r ->
  array_loop text_ (S fuel) acc (after p w) = array_loop text_ (S fuel) acc p.
Proof.
  intros E Hw Hr. cbn [array_loop].
  etransitivity; [eapply bind_run; [|reflexivity]|symmetry; eapply bind_run; [|reflexivity]].
  - apply (run_ws text_ _ [] r (rest_after_app text_ _ _ _ E)); [constructor|done].
  - rewrite after_nil. by apply (run_ws text_ p w r).
Qed.

Lemma run_object_loop_ws fuel acc p w r :
  rest p = w ++ r -> ws w -> stops is_ws r ->
  object_loop text_ (S fuel) acc (after p w) = object_loop text_ (S fuel) acc p.
Proof.
  intros E Hw Hr. cbn [object_loop].
  etransitivity; [eapply bind_run; [|reflexivity]|symmetry; eapply bind_run; [|reflexivity]].
  - apply (run_ws text_ _ [] r (rest_after_app text_ _ _ _ E)); [constructor|done].
  - rewrite after_nil. by apply (run_ws text_ p w r).
Qed.

Lemma fold_nesting_inv d vs :
  d + (1 + fold_right (fun v m => Z.max (nesting v) m) 0 vs) <= kMaxDepth ->
  Forall (fun v => d + 1 + nesting v <= kMaxDepth) vs.
Proof. induction vs; cbn [fold_right]; intros H; constructor; [|apply IHvs]; lia. Qed.

Lemma fold_nesting_snd_inv d (ms : list (Units * Value)) :
  d + (1 + fold_right (fun m k => Z.max (nesting (snd m)) k) 0 ms) <= kMaxDepth ->
  Forall (fun m => d + 1 + nesting (snd m) <= kMaxDepth) ms.
Proof. induction ms; cbn [fold_right]; intros H; constructor; [|apply IHms]; lia. Qed.

Lemma fold_nesting_nonneg vs : 0 <= fold_right (fun v m => Z.max (nesting v) m) 0 vs.
Proof. induction vs; cbn [fold_right]; lia. Qed.

Lemma fold_nesting_snd_nonneg (ms : list (Units * Value)) :
  0 <= fold_right (fun m k => Z.max (nesting (snd m)) k) 0 ms.
Proof. induction ms; cbn [fold_right]; lia. Qed.

Lemma run_array_nil w : ws w -> value_run text_ (91 :: w ++ [93]) (Array []).
Proof.
  intros Hw p fuel r E _ Hf Hs. destruct fuel as [|fuel]; [lia|].
  rewrite <- app_comm_cons, <- app_assoc in E. rewrite (run_dispatch p fuel _ _ E). cbn [Z.eqb Pos.eqb].
  unfold shallow in Hs. cbn in Hs. apply run_with_depth; [lia|].
  eapply bind_run; [by apply (skip_after _ [91])|]. cbv beta.
  pose proof (rest_cons text_ (deeper p) 91 _ E) as E1.
  eapply bind_run; [by apply (run_ws text_ _ w _ E1)|]. cbv beta.
  pose proof (rest_after_app text_ _ _ _ E1) as E2.
  step. rewrite (run_peek text_ _ 93 _ E2). cbn [Z.eqb Pos.eqb].
  eapply bind_run; [by apply (skip_after _ [93])|]. by rewrite !after_after.
Qed.

Lemma run_object_nil w : ws w -> value_run text_ (123 :: w ++ [125]) (Object []).
Proof.
  intros Hw p fuel r E _ Hf Hs. destruct fuel as [|fuel]; [lia|].
  rewrite <- app_comm_cons, <- app_assoc in E. rewrite (run_dispatch p fuel _ _ E). cbn [Z.eqb Pos.eqb].
  unfold shallow in Hs. cbn in Hs. apply run_with_depth; [lia|].
  eapply bind_run; [by apply (skip_after _ [123])|]. cbv beta.
  pose proof (rest_cons text_ (deeper p) 123 _ E) as E1.
  eapply bind_run; [by apply (run_ws text_ _ w _ E1)|]. cbv beta.
  pose proof (rest_after_app text_ _ _ _ E1) as E2.
  step. rewrite (run_peek text_ _ 125 _ E2). cbn [Z.eqb Pos.eqb].
  eapply bind_run; [by apply (skip_after _ [125])|]. by rewrite !after_after.
Qed.

Lemma run_array s vs : JElements s vs -> elements_run text_ s vs ->
  value_run text_ (91 :: s ++ [93]) (Array vs).
Proof.
  intros Hel IH p fuel r E _ Hf Hs. destruct fuel as [|fuel]; [lia|].
  rewrite <- app_comm_cons, <- app_assoc in E. rewrite (run_dispatch p fuel _ _ E). cbn [Z.eqb Pos.eqb].
  cbn [length] in Hf. rewrite length_app in Hf. cbn [length] in Hf.
  unfold shallow in Hs. cbn [nesting] in Hs. pose proof (fold_nesting_nonneg vs).
  apply fold_nesting_inv in Hs as Hss. apply run_with_depth; [lia|].
  eapply bind_run; [by apply (skip_after _ [91])|]. cbv beta.
  pose proof (rest_cons text_ (deeper p) 91 _ E) as E1.
  destruct (elements_first s vs Hel) as (w & c & s' & Es & Hw & Hc & H93).
  assert (rest (after (deeper p) [91]) = w ++ c :: s' ++ 93 :: r) as E1'.
  { rewrite E1, Es, <- app_assoc. done. }
  eapply bind_run; [by apply (run_ws text_ _ w _ E1')|]. cbv beta.
  pose proof (rest_after_app text_ _ _ _ E1') as E2.
  step. rewrite (run_peek text_ _ c _ E2). destruct (Z.eqb_spec c 93); [done|].
  destruct fuel as [|fuel]; [lia|].
  rewrite (run_array_loop_ws fuel [] _ w _ E1' Hw Hc).
  rewrite (IH _ (S fuel) [] r E1) by (try done; lia). by rewrite after_after.
Qed.

Lemma run_object s ms : JMembers s ms -> members_run text_ s ms ->
  value_run text_ (123 :: s ++ [125]) (Object ms).
Proof.
  intros Hel IH p fuel r E _ Hf Hs. destruct fuel as [|fuel]; [lia|].
  rewrite <- app_comm_cons, <- app_assoc in E. rewrite (run_dispatch p fuel _ _ E). cbn [Z.eqb Pos.eqb].
  cbn [length] in Hf. rewrite length_app in Hf. cbn [length] in Hf.
  unfold shallow in Hs. cbn [nesting] in Hs. pose proof (fold_nesting_snd_nonneg ms).
  apply fold_nesting_snd_inv in Hs as Hss. apply run_with_depth; [lia|].
  eapply bind_run; [by apply (skip_after _ [123])|]. cbv beta.
  pose proof (rest_cons text_ (deeper p) 123 _ E) as E1.
  destruct (members_first s ms Hel) as (w & s' & Es & Hw).
  assert (rest (after (deeper p) [123]) = w ++ 34 :: s' ++ 125 :: r) as E1'.
  { rewrite E1, Es, <- app_assoc. done. }
  eapply bind_run; [by apply (run_ws text_ _ w _ E1')|]. cbv beta.
  pose proof (rest_after_app text_ _ _ _ E1') as E2.
  step. rewrite (run_peek text_ _ 34 _ E2). cbn [Z.eqb Pos.eqb].
  destruct fuel as [|fuel]; [lia|].
  rewrite (run_object_loop_ws fuel [] _ w (34 :: s' ++ 125 :: r) E1' Hw) by done.
  rewrite (IH _ (S fuel) [] r E1) by (try done; lia). by rewrite after_after.
Qed.

Lemma run_number t : JNumber t -> value_run text_ t (Number (strtod t)).
Proof.
  intros Hn p fuel r E Hr Hf _. destruct fuel as [|fuel]; [lia|].
  assert (exists c t', t = c :: t' /\ ((c =? 45) || is_decimal c = true)) as (c & t' & Et & Hc).
  { destruct Hn as [sgn i f e Hs Hi _ _]. destruct (JInt_head i Hi) as (c & ds & -> & Hc).
    destruct Hs as [->| ->]; [exists c, (ds ++ f ++ e)|by eexists 45, _].
    split; [done|]. by rewrite Hc, orb_true_r. }
  rewrite (run_dispatch p fuel c (t' ++ r)) by (by rewrite E, Et).
  change ((48 <=? c) && (c <=? 57)) with (is_decimal c). rewrite Hc.
  unfold is_decimal in Hc.
  repeat match goal with |- context [c =? ?k] => destruct (Z.eqb_spec c k); [subst c; done|] end.
  by apply (run_parseNumber text_ p t r).
Qed.

Lemma complete t v : JValue t v -> value_run text_ t v.
Proof.
  apply (JValue_ind' (fun t v _ => value_run text_ t v) (fun s vs _ => elements_run text_ s vs)
           (fun s ms _ => members_run text_ s ms)).
  1-3: intros p fuel r E _ Hf _; (destruct fuel as [|fuel]; [lia|]);
    rewrite (run_dispatch p fuel _ _ E); by apply (run_word text_ _ _ p r).
  - intros t' Hn. by apply run_number.
  - intros t' u Hs p fuel r E _ Hf _. destruct fuel as [|fuel]; [lia|].
    assert (exists k, t' = 34 :: k) as [k Ek] by (destruct Hs; eauto).
    rewrite (run_dispatch p fuel 34 (k ++ r)) by (by rewrite E, Ek).
    cbn [Z.eqb Pos.eqb]. unfold parseStringValue.
    eapply bind_run; [by apply (run_parseString text_ _ t' u r)|]. done.
  - intros w Hw. by apply run_array_nil.
  - intros s vs Hel IH. by apply run_array.
  - intros w Hw. by apply run_object_nil.
  - intros s ms Hm IH. by apply run_object.
  - intros. by apply run_elements_one.
  - intros. by apply run_elements_more.
  - intros. by apply run_members_one.
  - intros. by apply run_members_more.
Qed.
End CompleteText.

(** ** What the parser promises *)

Lemma parse_complete text v : JText text v -> nesting v <= kMaxDepth -> parse text = inl v.
Proof.
  intros (w1 & t & w2 & E & Hw1 & Hv & Hw2) Hn. unfold parse.
  destruct (value_first t v Hv) as (c & t' & Et & Hc & _).
  set (p0 := mkParser 0 0 EmptyString).
  assert (rest text p0 = w1 ++ t ++ w2) as E0 by exact E.
  assert (parseText text p0 = (Some v, after p0 (w1 ++ t ++ w2))) as ->; [|done].
  unfold parseText.
  eapply bind_run; [apply (run_ws text p0 w1 _ E0 Hw1); rewrite Et; exact Hc|]. cbv beta.
  pose proof (rest_after_app text _ _ _ E0) as E1.
  eapply bind_run.
  { apply (complete text t v Hv _ _ w2 E1).
    - rewrite <- (app_nil_r w2). by apply stops_ws_app.
    - unfold fuel_for_text. rewrite E, !length_app. lia.
    - exact Hn. }
  cbv beta. pose proof (rest_after_app text _ _ _ E1) as E2. rewrite <- (app_nil_r w2) in E2.
  eapply bind_run; [by apply (run_ws text _ w2 [] E2)|]. cbv beta.
  eapply bind_run; [reflexivity|]. cbv beta. cbn [id].
  rewrite !after_after. unfold after. cbn [pos_ with_pos Nat.add p0].
  rewrite <- E, Nat.eqb_refl. done.
Qed.

(** C2: the JSON parser returns a value exactly when the grammar of RFC 8259 assigns
    it to the whole text (surrounding whitespace aside) and it nests no deeper than
    [kMaxDepth]; the fuel of the model never decides the outcome. *)
Theorem parse_iff text v : parse text = inl v <-> JText text v /\ nesting v <= kMaxDepth.
Proof.
  split; [|intros [? ?]; by apply parse_complete].
  unfold parse. pose proof (wp_parseText text) as H. unfold wp in H.
  destruct (parseText text (mkParser 0 0 EmptyString)) as [[x|] p]; [|by case_bool_decide].
  by intros [= <-].
Qed.

(** A rejected text always carries the message of its first error, with its
    position; the catch-all message of [parse] is unreachable. *)
Theorem parse_names_error text message :
  parse text = inr message ->
  exists p, parseText text (mkParser 0 0 EmptyString) = (None, p) /\
    message = error_ p /\ message <> EmptyString.
Proof.
  unfold parse. pose proof (wp_parseText text) as H. unfold wp in H.
  destruct (parseText text (mkParser 0 0 EmptyString)) as [[x|] p]; [done|].
  rewrite bool_decide_eq_false_2 by done. intros [= <-]. eauto.
Qed.

(** The grammar is unambiguous on the texts the parser takes: two values of one
    text within the depth bound are the same value. *)
Theorem JText_deterministic text v1 v2 :
  JText text v1 -> JText text v2 -> nesting v1 <= kMaxDepth -> nesting v2 <= kMaxDepth -> v1 = v2.
Proof.
  intros H1 H2 N1 N2. pose proof (parse_complete _ _ H1 N1) as E1.
  pose proof (parse_complete _ _ H2 N2) as E2. rewrite E1 in E2. by injection E2.
Qed.

Lemma parse_names_error_witness :
  exists p, parseText (bytes "[1,]") (mkParser 0 0 EmptyString) = (None, p) /\
    error_ p = "Unexpected token in JSON at position 3: a trailing comma is not a JSON value"%string.
Proof.
  destruct (parse_names_error (bytes "[1,]")
    "Unexpected token in JSON at position 3: a trailing comma is not a JSON value"%string
    ltac:(vm_compute; reflexivity)) as (p & E & Em & _).
  exists p. split; [exact E|by rewrite Em].
Defined.
