(* ===== verification/Probe.v ===== *)
(** * Open addressing with linear probing

    The bucket tables of [src/src/runtime/map.cpp] and
    [src/src/runtime/dictionary.cpp]: a power-of-two vector of [uint32_t] cells, 0
    for an empty cell and an entry slot plus one otherwise, searched and filled by
    linear probing from the key's hash.  The two tables keep their entries apart and
    share this index, and this file holds what both of them need of it: a search
    that ends, and finds exactly the slots that were filled in. *)
From S2P Require Import Prelude.

(** ** Searching and filling *)

(** [for (b = hash & mask; buckets[b] != 0; b = (b + 1) & mask)]: the first slot on
    the chain that [hit]s. *)
Fixpoint probe_find (fuel : nat) (hit : nat -> bool) (buckets : list Z) (mask b : Z) : option nat :=
  match fuel with
  | O => None
  | S fuel =>
    let cell := buckets.[Z.to_nat b] in
    if cell =? 0 then None
    else
      let slot := Z.to_nat (cell - 1) in
      if hit slot then Some slot else probe_find fuel hit buckets mask (Z.land (b + 1) mask)
  end.

(** [while (buckets[b] != 0) b = (b + 1) & mask; buckets[b] = slot + 1;] *)
Fixpoint probe_insert (fuel : nat) (slot : nat) (buckets : list Z) (mask b : Z) : list Z :=
  match fuel with
  | O => buckets
  | S fuel =>
    if buckets.[Z.to_nat b] =? 0 then <[Z.to_nat b := Z.of_nat slot + 1]> buckets
    else probe_insert fuel slot buckets mask (Z.land (b + 1) mask)
  end.

(** [uint32_t n = 8; while (n < bound) n *= 2;] *)
Definition pow2_at_least (bound : Z) : Z :=
  while (Z.to_nat (Z.log2_up (Z.max bound 1)) + 1) (fun n => n <? bound) (fun n => n * 2) 8.

Lemma pow2_at_least_spec bound :
  exists k, pow2_at_least bound = 2 ^ k /\ 3 <= k /\ bound <= pow2_at_least bound.
Proof.
  unfold pow2_at_least. set (f := Z.to_nat (Z.log2_up (Z.max bound 1))).
  assert (forall fuel n k, n = 2 ^ k -> 3 <= k -> bound <= 2 ^ (k + Z.of_nat fuel) ->
    exists k', while (fuel + 1) (fun n => n <? bound) (fun n => n * 2) n = 2 ^ k' /\ 3 <= k' /\
      bound <= 2 ^ k') as H.
  { induction fuel as [|fuel IH]; intros n k -> Hk Hb.
    - rewrite Z.add_0_r in Hb. rewrite while_false by (apply Z.ltb_ge; lia). eauto.
    - destruct (Z.ltb_spec (2 ^ k) bound).
      + rewrite Nat.add_1_r, while_true by (by apply Z.ltb_lt). rewrite <- Nat.add_1_r.
        apply (IH _ (k + 1)); [|lia|].
        * rewrite Z.pow_add_r by lia. lia.
        * replace (k + 1 + Z.of_nat fuel) with (k + Z.of_nat (S fuel)) by lia. done.
      + rewrite while_false by (by apply Z.ltb_ge). eauto. }
  destruct (H f 8 3) as (k & E & Hk & Hb); [done|lia| |].
  - pose proof (Z.log2_up_nonneg (Z.max bound 1)).
    transitivity (2 ^ Z.log2_up (Z.max bound 1)).
    + destruct (Z.le_gt_cases bound 1).
      * pose proof (Z.pow_pos_nonneg 2 (Z.log2_up (Z.max bound 1)) ltac:(lia) ltac:(lia)). lia.
      * rewrite Z.max_l by lia. apply Z.log2_up_spec. lia.
    + apply Z.pow_le_mono_r; lia.
  - rewrite E. eauto.
Qed.

(** ** The shape of a table *)

Section Table.
Context (buckets : list Z) (k : Z).
Context (Hk : 0 <= k) (Hlen : Z.of_nat (length buckets) = 2 ^ k).
Let n := 2 ^ k.

Lemma table_pos : 0 < n.
Proof. apply Z.pow_pos_nonneg; lia. Qed.

Lemma land_mask x : Z.land x (n - 1) = x mod n.
Proof. unfold n. rewrite <- Z.land_ones by done. by rewrite Z.ones_equiv, Z.sub_1_r. Qed.

(** The cell at distance [d] from a home position. *)
Definition cell (h d : Z) : Z := buckets.[Z.to_nat ((h + d) mod n)].

Lemma next_cell h d : Z.land ((h + d) mod n + 1) (n - 1) = (h + (d + 1)) mod n.
Proof.
  rewrite land_mask. pose proof table_pos. rewrite Z.add_mod_idemp_l by lia. f_equal. lia.
Qed.

(** [slot] is on the chain of home [h]: reachable without crossing an empty cell. *)
Definition on_chain (h : Z) (slot : nat) : Prop :=
  exists d, 0 <= d < n /\ cell h d = Z.of_nat slot + 1 /\ forall i, 0 <= i < d -> cell h i <> 0.

Definition has_empty : Prop := exists j, 0 <= j < n /\ buckets.[Z.to_nat j] = 0.

(** From any home there is a first empty cell. *)
Lemma first_empty h : has_empty ->
  exists d, 0 <= d < n /\ cell h d = 0 /\ forall i, 0 <= i < d -> cell h i <> 0.
Proof.
  intros (j & Hj & E). pose proof table_pos as Hn.
  set (d := (j - h) mod n). pose proof (Z.mod_pos_bound (j - h) n Hn) as Hd. fold d in Hd.
  assert (cell h d = 0) as Ed.
  { unfold cell, d. rewrite Z.add_mod_idemp_r by lia.
    replace (h + (j - h)) with j by lia. by rewrite Z.mod_small. }
  clearbody d. assert (exists m : nat, d = Z.of_nat m) as [m ->] by (exists (Z.to_nat d); lia).
  revert Hd Ed. induction m as [m IH] using lt_wf_ind. intros Hd Ed.
  destruct (existsb (fun i => cell h (Z.of_nat i) =? 0) (seq 0 m)) eqn:Ee.
  - apply existsb_exists in Ee as (i & Hi%in_seq & Hz%Z.eqb_eq). apply (IH i); [lia|lia|done].
  - exists (Z.of_nat m). split_and!; [lia|lia|done|]. intros i Hi Hz.
    assert (existsb (fun i => cell h (Z.of_nat i) =? 0) (seq 0 m) = true); [|congruence].
    apply existsb_exists. exists (Z.to_nat i). rewrite Z2Nat.id by lia.
    split; [apply in_seq; lia|by apply Z.eqb_eq].
Qed.

(** The search from distance [d]: what it finds is in a cell and hits; when it
    finds nothing, no slot of the chain beyond [d] hits. *)
Lemma probe_find_from hit h e :
  (forall i, 0 <= i < n -> 0 <= buckets.[Z.to_nat i]) ->
  0 <= e < n -> cell h e = 0 -> (forall i, 0 <= i < e -> cell h i <> 0) ->
  forall fuel d, 0 <= d <= e -> (Z.to_nat (e - d) < fuel)%nat ->
  match probe_find fuel hit buckets (n - 1) ((h + d) mod n) with
  | Some s => hit s = true /\ exists i, d <= i < e /\ cell h i = Z.of_nat s + 1
  | None => forall i s, d <= i < e -> cell h i = Z.of_nat s + 1 -> hit s = false
  end.
Proof.
  intros Hnn He Ez Hb. induction fuel as [|fuel IH]; intros d Hd Hf; [lia|].
  cbn [probe_find]. fold (cell h d).
  destruct (Z.eqb_spec (cell h d) 0) as [E|E].
  - assert (d = e) as -> by (destruct (Z.eq_dec d e); [done|]; exfalso; apply (Hb d); [lia|done]).
    intros i s Hi. lia.
  - assert (d <> e) by (intros ->; done).
    assert (0 <= cell h d) as Hc.
    { unfold cell. apply Hnn. apply Z.mod_pos_bound. apply table_pos. }
    set (s := Z.to_nat (cell h d - 1)).
    assert (cell h d = Z.of_nat s + 1) as Es by (unfold s; lia).
    destruct (hit s) eqn:Eh.
    + split; [done|]. exists d. split; [lia|done].
    + rewrite next_cell. specialize (IH (d + 1) ltac:(lia) ltac:(lia)).
      destruct (probe_find _ _ _ _ _) as [s'|].
      * destruct IH as (? & i & ? & ?). split; [done|]. exists i. split; [lia|done].
      * intros i s' Hi Ei. destruct (Z.eq_dec i d) as [->|]; [|apply (IH i); [lia|done]].
        assert (s' = s) as -> by lia. done.
Qed.

(** With an empty cell in the table, a turn per cell is enough fuel: the search
    answers a slot that hits, and a miss means no slot of the chain hits. *)
Lemma probe_find_spec hit h fuel :
  (forall i, 0 <= i < n -> 0 <= buckets.[Z.to_nat i]) -> has_empty -> (length buckets < fuel)%nat ->
  match probe_find fuel hit buckets (n - 1) (Z.land h (n - 1)) with
  | Some s => hit s = true /\ on_chain h s
  | None => forall s, on_chain h s -> hit s = false
  end.
Proof.
  intros Hnn He Hf. destruct (first_empty h He) as (e & He' & Ez & Hb).
  pose proof (probe_find_from hit h e Hnn He' Ez Hb fuel 0 ltac:(lia)) as H.
  rewrite land_mask. rewrite Z.add_0_r in H. specialize (H ltac:(unfold n in *; lia)).
  destruct (probe_find _ _ _ _ _) as [s|].
  - destruct H as (Hh & i & Hi & Ei). split; [done|]. exists i. split_and!; [lia|lia|done|].
    intros j Hj. apply Hb. lia.
  - intros s (d & Hd & Ed & Hchain). apply (H d); [|done].
    destruct (Z.lt_ge_cases d e); [lia|]. exfalso.
    destruct (Z.eq_dec d e) as [->|]; [lia|]. apply (Hchain e); [lia|done].
Qed.

(** Filling reaches the first empty cell of the chain. *)
Lemma probe_insert_from slot h e :
  0 <= e < n -> cell h e = 0 -> (forall i, 0 <= i < e -> cell h i <> 0) ->
  forall fuel d, 0 <= d <= e -> (Z.to_nat (e - d) < fuel)%nat ->
  probe_insert fuel slot buckets (n - 1) ((h + d) mod n)
  = <[Z.to_nat ((h + e) mod n) := Z.of_nat slot + 1]> buckets.
Proof.
  intros He Ez Hb. induction fuel as [|fuel IH]; intros d Hd Hf; [lia|].
  cbn [probe_insert]. fold (cell h d).
  destruct (Z.eqb_spec (cell h d) 0) as [E|E].
  - assert (d = e) as -> by (destruct (Z.eq_dec d e); [done|]; exfalso; apply (Hb d); [lia|done]). done.
  - assert (d <> e) by (intros ->; done).
    rewrite next_cell. apply IH; lia.
Qed.

Lemma probe_insert_spec slot h fuel :
  has_empty -> (length buckets < fuel)%nat ->
  exists e, 0 <= e < n /\ cell h e = 0 /\ (forall i, 0 <= i < e -> cell h i <> 0) /\
    probe_insert fuel slot buckets (n - 1) (Z.land h (n - 1))
    = <[Z.to_nat ((h + e) mod n) := Z.of_nat slot + 1]> buckets.
Proof.
  intros He Hf. destruct (first_empty h He) as (e & He' & Ez & Hb).
  exists e. split_and!; try done; try lia. rewrite land_mask.
  rewrite <- (Z.add_0_r h) at 1. apply probe_insert_from; try done; unfold n in *; lia.
Qed.
End Table.

(** ** The invariant of a table *)

Definition filled (buckets : list Z) : nat := length (filter (fun c => c <> 0) buckets).

(** [buckets] has [2^k] cells, at most [count] of them in use, each naming a slot
    below [bound]; and every slot with a home is on the chain of its home. *)
Record table_ok (buckets : list Z) (k : Z) (count bound : nat) (home : nat -> option Z) : Prop := {
  table_exp : 0 <= k;
  table_len : Z.of_nat (length buckets) = 2 ^ k;
  table_cells : forall j, 0 <= j < 2 ^ k -> 0 <= buckets.[Z.to_nat j] <= Z.of_nat bound;
  table_count : (filled buckets <= count)%nat;
  table_chains : forall slot h, home slot = Some h -> on_chain buckets k h slot
}.

Lemma filled_insert buckets i x :
  buckets.[i] = 0 -> (i < length buckets)%nat -> x <> 0 ->
  filled (<[i := x]> buckets) = S (filled buckets).
Proof.
  unfold filled. revert i. induction buckets as [|c buckets IH]; intros [|i] E Hi Hx; cbn in Hi; try lia.
  - cbn in E. unfold limb in E. cbn in E. subst c.
    change (<[O := x]> (0 :: buckets)) with (x :: buckets). rewrite !filter_cons.
    rewrite decide_True by done. rewrite decide_False by (intros H; by apply H). done.
  - change (<[S i := x]> (c :: buckets)) with (c :: <[i := x]> buckets). rewrite !filter_cons.
    assert (filled (<[i:=x]> buckets) = S (filled buckets)) as IH' by (apply IH; [done|lia|done]).
    unfold filled in IH'. destruct (decide (c <> 0)); cbn [length]; lia.
Qed.

Lemma filled_zeros n : filled (replicate n 0) = O.
Proof.
  unfold filled. induction n as [|n IH]; [done|]. cbn [replicate]. rewrite filter_cons.
  by rewrite decide_False by (intros H; by apply H).
Qed.

Lemma filled_full buckets :
  (forall j, (j < length buckets)%nat -> buckets.[j] <> 0) -> filled buckets = length buckets.
Proof.
  unfold filled. induction buckets as [|c buckets IH]; intros H; [done|].
  rewrite filter_cons, decide_True.
  - cbn. f_equal. apply IH. intros j Hj. apply (H (S j)). cbn. lia.
  - apply (H O). cbn. lia.
Qed.

Lemma has_empty_count buckets k :
  0 <= k -> Z.of_nat (length buckets) = 2 ^ k -> (filled buckets < length buckets)%nat ->
  has_empty buckets k.
Proof.
  intros Hk Hl Hf. unfold has_empty. rewrite <- Hl.
  destruct (existsb (fun j => buckets.[j] =? 0) (seq 0 (length buckets))) eqn:E.
  - apply existsb_exists in E as (j & Hj%in_seq & Ez%Z.eqb_eq). exists (Z.of_nat j).
    rewrite Nat2Z.id. split; [lia|done].
  - exfalso. assert (filled buckets = length buckets); [|lia]. apply filled_full.
    intros j Hj Ez. assert (existsb (fun j => buckets.[j] =? 0) (seq 0 (length buckets)) = true); [|congruence].
    apply existsb_exists. exists j. split; [apply in_seq; lia|by apply Z.eqb_eq].
Qed.

Lemma table_empty k bound : 0 <= k ->
  table_ok (replicate (Z.to_nat (2 ^ k)) 0) k 0 bound (fun _ => None).
Proof.
  intros Hk. pose proof (Z.pow_pos_nonneg 2 k ltac:(lia) Hk). constructor.
  - done.
  - rewrite length_replicate. lia.
  - intros j Hj. unfold limb. rewrite lookup_replicate_2 by lia. cbn. lia.
  - by rewrite filled_zeros.
  - done.
Qed.

(** Filling in a slot adds its chain and keeps every other. *)
Lemma table_insert buckets k count bound home slot h fuel :
  table_ok buckets k count bound home -> (Z.of_nat count < 2 ^ k) -> (slot < bound)%nat ->
  (length buckets < fuel)%nat ->
  table_ok (probe_insert fuel slot buckets (2 ^ k - 1) (Z.land h (2 ^ k - 1))) k (S count) bound
    (fun s => if decide (s = slot) then Some h else home s).
Proof.
  intros [Hk Hl Hc Hn Hch] Hcount Hslot Hf.
  pose proof (has_empty_count buckets k Hk Hl ltac:(lia)) as He.
  destruct (probe_insert_spec buckets k Hk Hl slot h fuel He Hf) as (e & Hr & Ez & Hb & ->).
  set (j := (h + e) mod 2 ^ k). pose proof (Z.mod_pos_bound (h + e) (2 ^ k) ltac:(lia)) as Hj. fold j in Hj.
  assert (Z.to_nat j < length buckets)%nat as Hjl by lia.
  assert (forall i, 0 <= i < 2 ^ k ->
    (<[Z.to_nat j:=Z.of_nat slot + 1]> buckets).[Z.to_nat i]
    = if decide (i = j) then Z.of_nat slot + 1 else buckets.[Z.to_nat i]) as Hget.
  { intros i Hi. destruct (decide (i = j)) as [->|]; [by rewrite limb_insert_eq|].
    rewrite limb_insert_ne by lia. done. }
  constructor.
  - done.
  - by rewrite length_insert.
  - intros i Hi. rewrite Hget by done. destruct (decide _); [lia|]. by apply Hc.
  - rewrite filled_insert; [lia| |done|lia]. exact Ez.
  - intros s h'. destruct (decide (s = slot)) as [->|Hne].
    + intros [= <-]. exists e. split_and!; [lia|lia| |].
      * unfold cell. rewrite Hget by (apply Z.mod_pos_bound; lia). fold j. by rewrite decide_True.
      * intros i Hi. unfold cell. rewrite Hget by (apply Z.mod_pos_bound; lia).
        destruct (decide _); [lia|]. apply Hb. lia.
    + intros Hs. destruct (Hch s h' Hs) as (d & Hd & Ed & Hchain). exists d.
      split_and!; [lia|lia| |].
      * unfold cell. rewrite Hget by (apply Z.mod_pos_bound; lia).
        destruct (decide ((h' + d) mod 2 ^ k = j)) as [E|]; [|exact Ed].
        exfalso. unfold cell in Ed. rewrite E in Ed. unfold cell in Ez. fold j in Ez. lia.
      * intros i Hi. unfold cell. rewrite Hget by (apply Z.mod_pos_bound; lia).
        destruct (decide _); [lia|]. by apply Hchain.
Qed.

(** Fewer homes, a larger count or bound: still a table. *)
Lemma table_weaken buckets k count bound home count' bound' (home' : nat -> option Z) :
  table_ok buckets k count bound home -> (count <= count')%nat -> (bound <= bound')%nat ->
  (forall s h, home' s = Some h -> home s = Some h) ->
  table_ok buckets k count' bound' home'.
Proof.
  intros [Hk Hl Hc Hn Hch] H1 H2 H3. constructor; auto; try lia.
  intros j Hj. specialize (Hc j Hj). lia.
Qed.

(** The search of a table: a hit is a slot below the bound, and a miss means that
    no slot with this home hits. *)
Lemma table_find buckets k count bound home hit h fuel :
  table_ok buckets k count bound home -> (Z.of_nat count < 2 ^ k) -> (length buckets < fuel)%nat ->
  match probe_find fuel hit buckets (2 ^ k - 1) (Z.land h (2 ^ k - 1)) with
  | Some s => hit s = true /\ (s < bound)%nat
  | None => forall s, home s = Some h -> hit s = false
  end.
Proof.
  intros [Hk Hl Hc Hn Hch] Hcount Hf.
  pose proof (has_empty_count buckets k Hk Hl ltac:(lia)) as He.
  pose proof (probe_find_spec buckets k Hk Hl hit h fuel) as H.
  specialize (H ltac:(intros; by apply Hc) He Hf).
  destruct (probe_find _ _ _ _ _) as [s|].
  - destruct H as [Hh (d & Hd & Ed & _)]. split; [done|].
    specialize (Hc ((h + d) mod 2 ^ k) ltac:(apply Z.mod_pos_bound; lia)).
    unfold cell in Ed. lia.
  - intros s Hs. apply H. by apply Hch.
Qed.
