(* ===== verification/Values.v ===== *)
(** * Runtime values as hash keys

    What the collections of [src/src/runtime] need of a value: its raw bits
    ([value.h]), its hash and the two equality relations of [map.cpp], and a
    string's hash ([string.cpp]).  A heap value carries the identity the collector
    preserves; where it currently lies is the heap's business, so everything that
    reads an address takes the heap.  [canon] is the key a value is, independent of
    the heap, and the file shows that SameValueZero is equality of [canon] and that
    equal keys hash alike. *)
From S2P Require Import Prelude BigNumMag BigNumOps Float64.

(** ** The heap, as its clients see it *)

(** [relocation_epoch], the objects allocated so far (identities below [objects]),
    the address of each, and [is_movable]. *)
Record Heap := mkHeap {
  relocation_epoch : Z;
  objects : nat;
  address : nat -> Z;
  is_movable : nat -> bool
}.

(** Addresses of objects are distinct and fit the 48-bit payload of a value. *)
Record heap_ok (h : Heap) : Prop := {
  epoch_nonneg : 0 <= relocation_epoch h;
  address_inj : forall i j, (i < objects h)%nat -> (j < objects h)%nat ->
    address h i = address h j -> i = j;
  address_range : forall i, (i < objects h)%nat -> 0 <= address h i < 2 ^ 48
}.

(** What a stretch of mutation and collection may do to it (heap.h): an old object
    never moves again, and the epoch advances whenever anything moved. *)
Record collected (h h' : Heap) : Prop := {
  collected_objects : (objects h <= objects h')%nat;
  collected_old : forall i, (i < objects h)%nat -> is_movable h i = false ->
    address h' i = address h i /\ is_movable h' i = false;
  collected_mono : relocation_epoch h <= relocation_epoch h';
  collected_epoch : relocation_epoch h' = relocation_epoch h ->
    forall i, (i < objects h)%nat -> address h' i = address h i;
  collected_ok : heap_ok h -> heap_ok h'
}.

#[global] Instance collected_preorder : PreOrder collected.
Proof.
  split.
  - intros h. constructor; auto; lia.
  - intros h1 h2 h3 [N1 A1 B1 C1 D1] [N2 A2 B2 C2 D2]. constructor; auto.
    + lia.
    + intros i Hn Hi. destruct (A1 i Hn Hi) as [E1 M1]. destruct (A2 i ltac:(lia) M1) as [E2 M2].
      split; [congruence|done].
    + lia.
    + intros E i Hn. rewrite C2, C1 by lia. done.
Qed.

(** ** Values *)

Inductive Value :=
  | VNumber (d : double)
  | VString (id : nat) (units : list Z)
  | VBigInt (id : nat) (big : BigNum)
  | VObject (id : nat)
  | VSymbol (id : nat)
  | VOther (tag payload : Z)   (* Int32, Bool, Null, Undefined, Uninitialized *)
  | VHole.

Definition VUndefined : Value := VOther 0xFFF6 0.

Definition kCanonicalNaNBits : Z := 0x7FF8000000000000.

(** [std::bit_cast<uint64_t>(d)] *)
Definition double_bits (d : double) : Z :=
  match d with
  | S754_zero s => if s then 2 ^ 63 else 0
  | S754_infinity s => (if s then 2 ^ 63 else 0) + 0x7FF0000000000000
  | S754_nan => kCanonicalNaNBits
  | S754_finite s m e =>
      (if s then 2 ^ 63 else 0) +
      (if Zpos m <? 2 ^ 52 then Zpos m else (e + 1075) * 2 ^ 52 + (Zpos m - 2 ^ 52))
  end.

Definition rawBits (h : Heap) (v : Value) : Z :=
  match v with
  | VNumber d => double_bits d
  | VString id _ => Z.lor (Z.shiftl 0xFFF2 48) (address h id)
  | VBigInt id _ => Z.lor (Z.shiftl 0xFFFB 48) (address h id)
  | VObject id => Z.lor (Z.shiftl 0xFFF1 48) (address h id)
  | VSymbol id => Z.lor (Z.shiftl 0xFFF8 48) (address h id)
  | VOther tag payload => Z.lor (Z.shiftl tag 48) payload
  | VHole => Z.shiftl 0xFFF7 48
  end.

Definition isHole (v : Value) : bool := match v with VHole => true | _ => false end.

Definition mix64 (x : Z) : Z :=
  let x := Z.lxor x (Z.shiftr x 30) in
  let x := u64 (x * 0xBF58476D1CE4E5B9) in
  let x := Z.lxor x (Z.shiftr x 27) in
  let x := u64 (x * 0x94D049BB133111EB) in
  let x := Z.lxor x (Z.shiftr x 31) in
  u32 x.

(** [StringHeader::hash]: FNV-1a over the two bytes of each unit, low bits cleared. *)
Definition string_hash (units : list Z) : Z :=
  Z.land (fold_left (fun h u =>
    let h := u32 (Z.lxor h (Z.land u 0xFF) * 0x01000193) in
    u32 (Z.lxor h (Z.shiftr u 8) * 0x01000193)) units 0x811c9dc5) 0xFFFFFFFC.

Definition bigint_hash (b : BigNum) : Z :=
  mix64 (fold_left (fun acc limb => mix64 (Z.lxor acc limb)) (mag_ b) (if negative_ b then 1 else 0)).

(** [d == 0.0] and the other comparisons of [double]. *)
Definition is_zero (d : double) : bool := match d with S754_zero _ => true | _ => false end.
Definition isnan (d : double) : bool := match d with S754_nan => true | _ => false end.
Definition signbit (d : double) : bool :=
  match d with S754_zero s | S754_infinity s | S754_finite s _ _ => s | S754_nan => false end.

(** [if (d == 0.0) d = 0.0;]: -0 and +0 are one key. *)
Definition plus_zero (d : double) : double := if is_zero d then S754_zero false else d.

Definition hashKey (h : Heap) (v : Value) : Z :=
  match v with
  | VNumber d =>
      let d := plus_zero d in
      if isnan d then mix64 kCanonicalNaNBits else mix64 (double_bits d)
  | VString _ units => mix64 (string_hash units)
  | VBigInt _ b => bigint_hash b
  | _ => mix64 (rawBits h v)
  end.

Definition keyMayMove (h : Heap) (v : Value) : bool :=
  match v with VObject id | VSymbol id => is_movable h id | _ => false end.

Definition sameValueZero (h : Heap) (a b : Value) : bool :=
  match a, b with
  | VNumber x, VNumber y => if isnan x && isnan y then true else SFeqb x y
  | VString _ s, VString _ t => bool_decide (s = t)
  | VBigInt _ x, VBigInt _ y => compare x y =? 0
  | _, _ => rawBits h a =? rawBits h b
  end.

Definition sameValue (h : Heap) (a b : Value) : bool :=
  match a, b with
  | VNumber x, VNumber y =>
      if isnan x && isnan y then true
      else if is_zero x && is_zero y then Bool.eqb (signbit x) (signbit y)
      else SFeqb x y
  | _, _ => sameValueZero h a b
  end.

(** ** The key a value is *)

Inductive Key :=
  | KNumber (d : double)
  | KString (units : list Z)
  | KBigInt (negative : bool) (mag : list Z)
  | KObject (id : nat)
  | KSymbol (id : nat)
  | KOther (tag payload : Z)
  | KHole.

#[global] Instance spec_float_eq_dec : EqDecision spec_float.
Proof. solve_decision. Defined.
#[global] Instance Key_eq_dec : EqDecision Key.
Proof. solve_decision. Defined.

Definition canon (v : Value) : Key :=
  match v with
  | VNumber d => KNumber (plus_zero d)
  | VString _ s => KString s
  | VBigInt _ b => KBigInt (negative_ b) (mag_ b)
  | VObject id => KObject id
  | VSymbol id => KSymbol id
  | VOther t p => KOther t p
  | VHole => KHole
  end.

(** A value of the heap [h]: the bounds of a [double], the tags of the values without
    a pointer, and pointers to objects there are. *)
Definition value_ok (h : Heap) (v : Value) : Prop :=
  match v with
  | VNumber d => 0 <= double_bits d <= 0xFFF0000000000000
  | VBigInt id b => wf b /\ (id < objects h)%nat
  | VString id _ | VObject id | VSymbol id => (id < objects h)%nat
  | VOther tag payload =>
      (tag = 0xFFF3 \/ tag = 0xFFF4 \/ tag = 0xFFF5 \/ tag = 0xFFF6 \/ tag = 0xFFFA) /\
      0 <= payload < 2 ^ 48
  | VHole => True
  end.

Lemma value_ok_collected h h' v : collected h h' -> value_ok h v -> value_ok h' v.
Proof.
  intros Hc. pose proof (collected_objects h h' Hc). destruct v; cbn; try done; try lia.
  intros [? ?]. split; [done|lia].
Qed.

Definition is_number (v : Value) : bool := match v with VNumber _ => true | _ => false end.

Definition tag_of (v : Value) : Z :=
  match v with
  | VNumber _ => 0 | VString _ _ => 0xFFF2 | VBigInt _ _ => 0xFFFB | VObject _ => 0xFFF1
  | VSymbol _ => 0xFFF8 | VOther t _ => t | VHole => 0xFFF7
  end.
Definition payload_of (h : Heap) (v : Value) : Z :=
  match v with
  | VString i _ | VBigInt i _ | VObject i | VSymbol i => address h i
  | VOther _ p => p
  | _ => 0
  end.

Lemma raw_tagged h v : heap_ok h -> value_ok h v -> is_number v = false ->
  rawBits h v = tag_of v * 2 ^ 48 + payload_of h v /\ 0 <= payload_of h v < 2 ^ 48 /\
  0xFFF1 <= tag_of v.
Proof.
  intros Hh Hv Hn. pose proof (address_range h Hh) as Hr.
  destruct v as [d|i s|i x|i|i|t p|]; cbn [rawBits tag_of payload_of value_ok is_number] in *;
    try discriminate; try (pose proof (Hr i ltac:(tauto || lia))).
  all: try (rewrite lor_shiftl_add by lia; lia).
  rewrite Z.shiftl_mul_pow2 by lia. lia.
Qed.

Lemma raw_number h v : value_ok h v -> is_number v = true -> rawBits h v <= 0xFFF0 * 2 ^ 48.
Proof. destruct v; cbn; try discriminate. lia. Qed.

(** The last branch of both relations: raw bits agree only on one and the same key. *)
Lemma raw_eq h a b :
  heap_ok h -> value_ok h a -> value_ok h b -> is_number a && is_number b = false ->
  rawBits h a = rawBits h b ->
  is_number a = false /\ is_number b = false /\ tag_of a = tag_of b /\ payload_of h a = payload_of h b.
Proof.
  intros Hh Ha Hb Hn E. destruct (is_number a) eqn:Na, (is_number b) eqn:Nb; try discriminate.
  - pose proof (raw_number h a Ha Na). pose proof (raw_tagged h b Hh Hb Nb). lia.
  - pose proof (raw_number h b Hb Nb). pose proof (raw_tagged h a Hh Ha Na). lia.
  - pose proof (raw_tagged h a Hh Ha Na) as (? & ? & ?).
    pose proof (raw_tagged h b Hh Hb Nb) as (? & ? & ?). lia.
Qed.

Lemma SFeqb_true x y : SFeqb x y = true -> x = y \/ (is_zero x = true /\ is_zero y = true).
Proof.
  unfold SFeqb, SFcompare.
  destruct x as [s|s| |s m e], y as [s'|s'| |s' m' e'];
    repeat match goal with b : bool |- _ => destruct b end; try done; auto.
  all: destruct (Z.compare_spec e e') as [->| |]; try done.
  all: destruct (Pos.compare_cont Eq m m') eqn:E; try done; intros _; left.
  all: apply Pos.compare_eq in E; by subst.
Qed.

Lemma SFeqb_refl x : isnan x = false -> SFeqb x x = true.
Proof.
  unfold SFeqb, SFcompare. destruct x as [s|s| |s m e]; try done; intros _.
  - by destruct s.
  - destruct s; rewrite Z.compare_refl; change (Pos.compare_cont Eq m m) with (Pos.compare m m);
      by rewrite Pos.compare_refl.
Qed.

Lemma SFeqb_zeros x y : is_zero x = true -> is_zero y = true -> SFeqb x y = true.
Proof. by destruct x, y. Qed.

(** SameValueZero is equality of keys. *)
Lemma sameValueZero_canon h a b :
  heap_ok h -> value_ok h a -> value_ok h b -> sameValueZero h a b = true <-> canon a = canon b.
Proof.
  intros Hh Ha Hb.
  assert (is_number a && is_number b = false ->
    match a, b with VString _ _, VString _ _ | VBigInt _ _, VBigInt _ _ => False | _, _ => True end ->
    (rawBits h a =? rawBits h b) = true <-> canon a = canon b) as Hraw.
  { intros Hn Hs. rewrite Z.eqb_eq. split.
    - intros E. destruct (raw_eq h a b Hh Ha Hb Hn E) as (Na & Nb & Et & Ep).
      destruct a, b; cbn in *; try discriminate; try tauto; try lia;
        try (f_equal; apply (address_inj h Hh); tauto || lia).
      all: first [congruence | (subst; done)].
    - intros E. destruct a, b; cbn in *; try discriminate; try tauto; injection E; intros; subst; try done. }
  destruct a as [x|i s|i x|i|i|t p|], b as [y|j s'|j y|j|j|t' p'|]; try (by apply Hraw).
  - cbn [sameValueZero canon]. unfold plus_zero. destruct (isnan x) eqn:Nx, (isnan y) eqn:Ny; cbn [andb].
    + destruct x, y; try discriminate. done.
    + destruct x; try discriminate. split; [by destruct y|]. destruct y; discriminate.
    + destruct y; try discriminate. split; [by destruct x|]. destruct x; discriminate.
    + split.
      * intros [->|[-> ->]]%SFeqb_true; done.
      * destruct (is_zero x) eqn:Zx, (is_zero y) eqn:Zy; intros E;
          [by apply SFeqb_zeros|injection E as E..].
        -- subst y. discriminate.
        -- subst x. discriminate.
        -- subst y. by apply SFeqb_refl.
  - cbn [sameValueZero canon]. rewrite bool_decide_eq_true. split; congruence.
  - cbn [sameValueZero canon value_ok] in *. destruct Ha as [Ha _], Hb as [Hb _].
    rewrite Z.eqb_eq. split.
    + intros E. assert (x = y) as ->; [|done].
      apply val_inj; [done|done|]. rewrite compare_spec in E by done. zbool; lia.
    + intros [= En Em]. rewrite compare_spec by done.
      assert (val x = val y) as -> by (unfold val; by rewrite En, Em). zbool; lia.
Qed.

(** Keys that are one key hash alike. *)
Lemma hashKey_canon h a b : canon a = canon b -> hashKey h a = hashKey h b.
Proof.
  destruct a, b; cbn [canon]; try discriminate; cbn [hashKey].
  - intros [= E]. cbv zeta. by rewrite E.
  - by intros [= ->].
  - intros [= En Em]. unfold bigint_hash. by rewrite En, Em.
  - by intros [= ->].
  - by intros [= ->].
  - by intros [= -> ->].
  - done.
Qed.

(** The hash of a key no collection can have moved is the same. *)
Lemma hashKey_stable h h' v :
  (forall i, (v = VObject i \/ v = VSymbol i) -> address h' i = address h i) ->
  hashKey h' v = hashKey h v.
Proof.
  intros H. destruct v as [d|i s|i x|i|i|t p|]; cbn [hashKey rawBits]; try done;
    by rewrite (H i) by auto.
Qed.

(** SameValue tells the zeroes apart and agrees with SameValueZero elsewhere. *)
Lemma sameValue_spec h a b :
  heap_ok h -> value_ok h a -> value_ok h b ->
  sameValue h a b = true <->
  canon a = canon b /\
  match a, b with
  | VNumber (S754_zero s), VNumber (S754_zero t) => s = t
  | _, _ => True
  end.
Proof.
  intros Hh Ha Hb. pose proof (sameValueZero_canon h a b Hh Ha Hb) as H.
  assert (match a, b with VNumber x, VNumber y => is_zero x && is_zero y | _, _ => false end = false ->
    sameValue h a b = true <-> canon a = canon b) as H'.
  { intros Hz. rewrite <- H. destruct a as [x| | | | | |], b as [y| | | | | |]; try done.
    cbn [sameValue sameValueZero]. rewrite Hz. done. }
  destruct a as [x| | | | | |], b as [y| | | | | |]; try (rewrite H' by done; tauto).
  all: try (rewrite H' by done; destruct x; tauto).
  destruct x, y; try (rewrite H' by done; tauto).
  cbn. rewrite Bool.eqb_true_iff. split; [by intros ->|by intros [_ ?]].
Qed.

(** SameValueZero is equality of keys, an equivalence whose keys hash alike
    wherever the collector has put them, and SameValue differs from it only on the
    two zeroes. *)
Theorem same_value_zero_is_key_equality h a b :
  heap_ok h -> value_ok h a -> value_ok h b ->
  (sameValueZero h a b = true <-> canon a = canon b) /\
  (sameValueZero h a b = true -> hashKey h a = hashKey h b) /\
  (sameValue h a b = true <->
     sameValueZero h a b = true /\
     match a, b with
     | VNumber (S754_zero s), VNumber (S754_zero t) => s = t
     | _, _ => True
     end).
Proof.
  intros Hh Ha Hb. pose proof (sameValueZero_canon h a b Hh Ha Hb) as H. split_and!; [done| |].
  - intros E. by apply hashKey_canon, H.
  - rewrite H. by apply sameValue_spec.
Qed.

Lemma same_value_zero_is_key_equality_witness :
  let h := mkHeap 0 3 (fun i => 4096 + 64 * Z.of_nat i) (fun _ => true) in
  let a := VBigInt 1 (mkBigNum true [5; 7]) in
  let b := VBigInt 2 (mkBigNum true [5; 7]) in
  sameValueZero h a b = true /\ hashKey h a = hashKey h b.
Proof.
  cbv zeta. set (h := mkHeap _ _ _ _).
  assert (heap_ok h) as Hh by (constructor; cbn; intros; lia).
  assert (forall i, (i < 3)%nat -> value_ok h (VBigInt i (mkBigNum true [5; 7]))) as Hv.
  { intros i Hi. split; [|exact Hi]. split; [|done].
    split; [|done]. apply Forall_cons. split; [split; lia|]. apply Forall_cons. split; [split; lia|]. constructor. }
  destruct (same_value_zero_is_key_equality h (VBigInt 1 (mkBigNum true [5; 7]))
    (VBigInt 2 (mkBigNum true [5; 7])) Hh (Hv 1%nat ltac:(lia)) (Hv 2%nat ltac:(lia))) as ([_ H1] & H2 & _).
  assert (sameValueZero h (VBigInt 1 (mkBigNum true [5; 7])) (VBigInt 2 (mkBigNum true [5; 7])) = true) as E
    by (apply H1; reflexivity).
  split; [exact E|exact (H2 E)].
Defined.
