(* ===== verification/MapTable.v ===== *)
(** * The table under Map and Set

    [src/src/runtime/map.{h,cpp}]: an insertion-ordered entry block with tombstones
    and an open-addressed index over it, hashed partly by addresses the collector
    may change.  [MapHeader] is the table, each operation threads the heap because
    its allocations may collect.  [contents] is the ordered map the table stands
    for; the file shows that every operation implements the ordered-map operation on
    it, keeps the representation invariant, and that lookups stay right across any
    collection. *)
From S2P Require Import Prelude Values Probe BigNumOps Float64.

Definition kInitialCapacity : Z := 8.
Definition kBucketsPerSlot : Z := 2.
Definition kStableIndex : Z := -2.

(** The entry block ([[]] while the slot is undefined), the bucket block, and the
    counts and stamps, which the code keeps as doubles. *)
Record MapHeader := mkMap {
  self : nat;
  entries : list (Value * Value);
  index : option (list Z);
  liveCount : nat;
  usedCount : nat;
  indexEpoch : Z;
  indexAnchor : Z
}.

Definition bucketCountFor (capacity : nat) : Z := pow2_at_least (Z.of_nat capacity * kBucketsPerSlot).

Definition capacity (m : MapHeader) : nat := length (entries m).
Definition liveSize (m : MapHeader) : nat := liveCount m.
Definition used (m : MapHeader) : nat := usedCount m.

Definition entryAt (m : MapHeader) (slot : nat) : Value * Value :=
  default (VUndefined, VUndefined) (entries m !! slot).
Definition keyAt (m : MapHeader) (slot : nat) : Value := fst (entryAt m slot).
Definition valueAt (m : MapHeader) (slot : nat) : Value := snd (entryAt m slot).
Definition liveAt (m : MapHeader) (slot : nat) : bool := negb (isHole (keyAt m slot)).

Definition bucketsOf (m : MapHeader) : list Z := default [] (index m).
Definition bucketCountOf (m : MapHeader) : Z := Z.of_nat (length (bucketsOf m)).

(** A turn per bucket and one more. *)
Definition probe_fuel (buckets : list Z) : nat := S (length buckets).

Definition with_index (m : MapHeader) (buckets : list Z) : MapHeader :=
  mkMap (self m) (entries m) (Some buckets) (liveCount m) (usedCount m) (indexEpoch m) (indexAnchor m).
Definition with_entries (m : MapHeader) (es : list (Value * Value)) (live used : nat) : MapHeader :=
  mkMap (self m) es (index m) live used (indexEpoch m) (indexAnchor m).
Definition with_stamps (m : MapHeader) (live : nat) (epoch anchor : Z) : MapHeader :=
  mkMap (self m) (entries m) (index m) live (usedCount m) epoch anchor.

Section Table.
(** An allocation, which may run a collection. *)
Context (allocate : Heap -> Heap).

(** One turn of the loop of [reindex]. *)
Definition reindex_step (h : Heap) (m : MapHeader) (mask : Z) (slot : nat)
    (st : list Z * bool * nat) : list Z * bool * nat :=
  let '(buckets, movable, live) := st in
  if negb (liveAt m slot) then st
  else
    let key := keyAt m slot in
    let movable := movable || keyMayMove h key in
    (probe_insert (probe_fuel buckets) slot buckets mask (Z.land (hashKey h key) mask),
     movable, S live).

Definition reindex (h : Heap) (m : MapHeader) : Heap * MapHeader :=
  let wanted := bucketCountFor (capacity m) in
  let h := if negb (bucketCountOf m =? wanted) then allocate h else h in
  let mask := wanted - 1 in
  let buckets := replicate (Z.to_nat wanted) 0 in
  let '(buckets, movable, live) :=
    for_up (used m) 0 (reindex_step h m mask) (buckets, false, O) in
  (h, with_stamps (with_index m buckets) live
        (if movable : bool then relocation_epoch h else kStableIndex) (address h (self m))).

Definition epochCurrent (h : Heap) (m : MapHeader) : bool :=
  (indexEpoch m =? kStableIndex) || (indexEpoch m =? relocation_epoch h).

Definition indexValid (h : Heap) (m : MapHeader) : bool :=
  match index m with Some _ => true | None => false end &&
  epochCurrent h m && (indexAnchor m =? address h (self m)).

Definition ensureIndex (h : Heap) (m : MapHeader) : Heap * MapHeader :=
  if indexValid h m then (h, m) else reindex h m.

(** One turn of the copy loop of [growEntries]. *)
Definition grow_step (m : MapHeader) (slot : nat) (st : list (Value * Value) * nat)
    : list (Value * Value) * nat :=
  let '(dst, at_) := st in
  if isHole (keyAt m slot) then st else (<[at_ := entryAt m slot]> dst, S at_).

Definition growEntries (h : Heap) (m : MapHeader) : Heap * MapHeader :=
  let live := for_up (used m) 0 (fun slot live => if liveAt m slot then S live else live) O in
  let newCap := pow2_at_least ((Z.of_nat live + 1) * 2) in
  let h := allocate h in
  let dst := replicate (Z.to_nat newCap) (VUndefined, VUndefined) in
  let '(dst, at_) := for_up (used m) 0 (grow_step m) (dst, O) in
  reindex h (with_entries m dst at_ at_).

Definition create (h : Heap) (id : nat) : Heap * MapHeader :=
  (allocate h, mkMap id [] None 0 0 (-1) (-1)).

(** The probe of [find] and [findFast], on an index known to be current. *)
Definition probe_key (h : Heap) (m : MapHeader) (key : Value) : option nat :=
  let mask := bucketCountOf m - 1 in
  probe_find (probe_fuel (bucketsOf m))
    (fun slot => liveAt m slot && sameValueZero h (keyAt m slot) key)
    (bucketsOf m) mask (Z.land (hashKey h key) mask).

(** [None] for [UINT32_MAX]. *)
Definition find (h : Heap) (m : MapHeader) (key : Value) : Heap * MapHeader * option nat :=
  if (liveSize m =? 0)%nat then (h, m, None)
  else
    let '(h, m) := ensureIndex h m in
    if bucketCountOf m =? 0 then (h, m, None) else (h, m, probe_key h m key).

(** [None] when only the reindexing [find] can say. *)
Definition findFast (h : Heap) (m : MapHeader) (key : Value) : option (option nat) :=
  if (liveSize m =? 0)%nat then Some None
  else if negb (indexValid h m) then None
  else if bucketCountOf m =? 0 then None
  else Some (probe_key h m key).

(** The same for an object or a symbol, compared by its bits. *)
Definition findFastIdentity (h : Heap) (m : MapHeader) (key : Value) : option (option nat) :=
  if (liveSize m =? 0)%nat then Some None
  else if negb (indexValid h m) then None
  else if bucketCountOf m =? 0 then None
  else
    let mask := bucketCountOf m - 1 in
    let want := rawBits h key in
    Some (probe_find (probe_fuel (bucketsOf m)) (fun slot => rawBits h (keyAt m slot) =? want)
            (bucketsOf m) mask (Z.land (mix64 want) mask)).

(** Storing a new entry after the slot was made room for. *)
Definition append (h : Heap) (m : MapHeader) (key val : Value) : MapHeader :=
  let slot := used m in
  let m := with_entries m (<[slot := (key, val)]> (entries m)) (S (liveSize m)) (S slot) in
  let m := if (indexEpoch m =? kStableIndex) && keyMayMove h key
           then with_stamps m (liveCount m) (relocation_epoch h) (indexAnchor m) else m in
  let mask := bucketCountOf m - 1 in
  with_index m (probe_insert (probe_fuel (bucketsOf m)) slot (bucketsOf m) mask
                  (Z.land (hashKey h key) mask)).

Definition set (h : Heap) (m : MapHeader) (key val : Value) : Heap * MapHeader :=
  let '(h, m, existing) := find h m key in
  match existing with
  | Some slot =>
      (h, with_entries m (<[slot := (keyAt m slot, val)]> (entries m)) (liveCount m) (usedCount m))
  | None =>
      let '(h, m) := if (capacity m <=? used m)%nat then growEntries h m else (h, m) in
      let '(h, m) := ensureIndex h m in
      (h, append h m key val)
  end.

Definition remove (h : Heap) (m : MapHeader) (key : Value) : Heap * MapHeader * bool :=
  let '(h, m, slot) := find h m key in
  match slot with
  | None => (h, m, false)
  | Some slot =>
      (h, with_entries m (<[slot := (VHole, VUndefined)]> (entries m)) (liveSize m - 1) (usedCount m), true)
  end.

Definition clear (m : MapHeader) : MapHeader :=
  let es := for_up (used m) 0 (fun i es => <[i := (VHole, VUndefined)]> es) (entries m) in
  with_stamps (with_entries m es 0 0) 0 (-1) (-1).
End Table.

(** ** The ordered map a table stands for *)

Definition live_entry (e : Value * Value) : bool := negb (isHole (fst e)).

Definition contents (m : MapHeader) : list (Value * Value) :=
  List.filter live_entry (take (usedCount m) (entries m)).

Definition is_key (k : Key) (e : Value * Value) : bool := bool_decide (canon (fst e) = k).

(** The ordered-map operations, on [contents]. *)
Definition omap_get (k : Key) (l : list (Value * Value)) : option Value :=
  snd <$> List.find (is_key k) l.

Fixpoint omap_set (key val : Value) (l : list (Value * Value)) : list (Value * Value) :=
  match l with
  | [] => [(key, val)]
  | e :: l => if is_key (canon key) e then (fst e, val) :: l else e :: omap_set key val l
  end.

Definition omap_remove (k : Key) (l : list (Value * Value)) : list (Value * Value) :=
  List.filter (fun e => negb (is_key k e)) l.

(** Where the index must have a slot: the hash of its key, for a live slot. *)
Definition home (h : Heap) (m : MapHeader) (slot : nat) : option Z :=
  if (slot <? usedCount m)%nat && liveAt m slot then Some (hashKey h (keyAt m slot)) else None.

(** The index is right for the heap [h]. *)
Definition index_right (h : Heap) (m : MapHeader) (buckets : list Z) : Prop :=
  exists k, table_ok buckets k (usedCount m) (usedCount m) (home h m) /\
    2 * Z.of_nat (capacity m) <= 2 ^ k /\ 3 <= k.

Definition key_ok (h : Heap) (v : Value) : Prop := value_ok h v /\ isHole v = false.

Lemma key_ok_collected h h' v : collected h h' -> key_ok h v -> key_ok h' v.
Proof. intros Hc [? ?]. split; [by eapply value_ok_collected|done]. Qed.

Record map_ok (h : Heap) (m : MapHeader) : Prop := {
  ok_used : (usedCount m <= capacity m)%nat;
  ok_keys : forall s, (s < usedCount m)%nat -> value_ok h (keyAt m s);
  ok_live : liveCount m = length (contents m);
  ok_distinct : NoDup (map (fun e => canon (fst e)) (contents m));
  ok_index : forall buckets, index m = Some buckets ->
    if indexEpoch m =? kStableIndex
    then index_right h m buckets /\
         forall s, (s < usedCount m)%nat -> keyMayMove h (keyAt m s) = false
    else indexEpoch m <= relocation_epoch h /\
         (indexEpoch m = relocation_epoch h -> index_right h m buckets)
}.

(** ** Entries and their contents *)

Lemma contents_split m slot :
  (slot < usedCount m)%nat -> (usedCount m <= capacity m)%nat ->
  take (usedCount m) (entries m) =
    take slot (entries m) ++ entryAt m slot :: drop (S slot) (take (usedCount m) (entries m)).
Proof.
  intros H Hu. unfold capacity in Hu.
  destruct (lookup_lt_is_Some_2 (entries m) slot) as [e He]; [lia|].
  unfold entryAt. rewrite He. cbn [default].
  rewrite <- (take_drop_middle (take (usedCount m) (entries m)) slot e) at 1.
  - by rewrite take_take, Nat.min_l by lia.
  - by rewrite lookup_take_lt by lia.
Qed.

Lemma contents_insert m slot x :
  (slot < usedCount m)%nat -> (usedCount m <= capacity m)%nat ->
  take (usedCount m) (<[slot := x]> (entries m)) =
    take slot (entries m) ++ x :: drop (S slot) (take (usedCount m) (entries m)).
Proof.
  intros H Hu. unfold capacity in Hu. rewrite take_insert_lt by lia.
  rewrite insert_take_drop by (rewrite length_take; lia).
  by rewrite take_take, Nat.min_l by lia.
Qed.

(** A live slot below the mark is an entry of the contents, and conversely. *)
Lemma contents_elem m e : (usedCount m <= capacity m)%nat ->
  In e (contents m) <-> exists s, (s < usedCount m)%nat /\ liveAt m s = true /\ entryAt m s = e.
Proof.
  intros Hu. unfold contents, capacity in *. rewrite filter_In. split.
  - intros [Hin Hl]. apply list_elem_of_In, list_elem_of_lookup in Hin as [s Hs].
    apply lookup_take_Some in Hs as [Hs Hlt]. exists s. unfold liveAt, keyAt, entryAt.
    rewrite Hs. done.
  - intros (s & Hlt & Hl & <-). split; [|exact Hl].
    apply list_elem_of_In, list_elem_of_lookup. exists s. rewrite lookup_take_lt by done.
    unfold entryAt. destruct (lookup_lt_is_Some_2 (entries m) s) as [e ->]; [lia|done].
Qed.

Lemma NoDup_app_mid {A} (l1 l2 : list A) x : NoDup (l1 ++ x :: l2) -> (x ∉ l1) /\ (x ∉ l2).
Proof.
  rewrite NoDup_app, NoDup_cons. intros (_ & H & ? & _). split; [|done].
  intros Hx. apply (H x Hx). left.
Qed.

Lemma is_key_false k e : is_key k e = false <-> canon (fst e) <> k.
Proof. unfold is_key. by rewrite bool_decide_eq_false. Qed.

Lemma omap_set_mid key val e l1 l2 :
  canon (fst e) = canon key -> (forall x, In x l1 -> canon (fst x) <> canon key) ->
  omap_set key val (l1 ++ e :: l2) = l1 ++ (fst e, val) :: l2.
Proof.
  intros He. induction l1 as [|x l1 IH]; intros H; cbn [app omap_set].
  - unfold is_key. by rewrite bool_decide_eq_true_2.
  - rewrite (proj2 (is_key_false _ x)) by (apply H; by left). f_equal. apply IH.
    intros y Hy. apply H. by right.
Qed.

Lemma omap_set_fresh key val l :
  (forall x, In x l -> canon (fst x) <> canon key) -> omap_set key val l = l ++ [(key, val)].
Proof.
  induction l as [|x l IH]; intros H; cbn [app omap_set]; [done|].
  rewrite (proj2 (is_key_false _ x)) by (apply H; by left). f_equal. apply IH.
  intros y Hy. apply H. by right.
Qed.

Lemma omap_remove_absent k l : (forall x, In x l -> canon (fst x) <> k) -> omap_remove k l = l.
Proof.
  unfold omap_remove. induction l as [|x l IH]; intros H; cbn [List.filter]; [done|].
  rewrite (proj2 (is_key_false k x)) by (apply H; by left). cbn [negb]. f_equal. apply IH.
  intros y Hy. apply H. by right.
Qed.

Lemma omap_remove_mid k e l1 l2 :
  canon (fst e) = k -> (forall x, In x l1 -> canon (fst x) <> k) ->
  (forall x, In x l2 -> canon (fst x) <> k) -> omap_remove k (l1 ++ e :: l2) = l1 ++ l2.
Proof.
  intros He H1 H2. unfold omap_remove. rewrite List.filter_app. cbn [List.filter].
  assert (is_key k e = true) as -> by (unfold is_key; by apply bool_decide_eq_true_2).
  cbn [negb]. f_equal; by apply omap_remove_absent.
Qed.

Lemma omap_get_mid key e l1 l2 :
  canon (fst e) = canon key -> (forall x, In x l1 -> canon (fst x) <> canon key) ->
  omap_get (canon key) (l1 ++ e :: l2) = Some (snd e).
Proof.
  intros He. unfold omap_get. induction l1 as [|x l1 IH]; intros H; cbn [app List.find].
  - unfold is_key. by rewrite bool_decide_eq_true_2.
  - rewrite (proj2 (is_key_false _ x)) by (apply H; by left). apply IH.
    intros y Hy. apply H. by right.
Qed.

Lemma omap_get_absent k l : (forall x, In x l -> canon (fst x) <> k) -> omap_get k l = None.
Proof.
  unfold omap_get. induction l as [|x l IH]; intros H; cbn [List.find]; [done|].
  rewrite (proj2 (is_key_false k x)) by (apply H; by left). apply IH.
  intros y Hy. apply H. by right.
Qed.

(** A slot of the table, in the contents. *)
Lemma contents_at m slot :
  (slot < usedCount m)%nat -> (usedCount m <= capacity m)%nat -> liveAt m slot = true ->
  contents m = List.filter live_entry (take slot (entries m)) ++ entryAt m slot ::
               List.filter live_entry (drop (S slot) (take (usedCount m) (entries m))).
Proof.
  intros H Hu Hl. pose proof (f_equal (List.filter live_entry) (contents_split m slot H Hu)) as E.
  rewrite List.filter_app in E. cbn [List.filter] in E.
  assert (live_entry (entryAt m slot) = true) as El by exact Hl. by rewrite El in E.
Qed.

Lemma contents_others m slot e :
  NoDup (map (fun e => canon (fst e)) (contents m)) ->
  (slot < usedCount m)%nat -> (usedCount m <= capacity m)%nat -> liveAt m slot = true ->
  In e (List.filter live_entry (take slot (entries m))) \/
  In e (List.filter live_entry (drop (S slot) (take (usedCount m) (entries m)))) ->
  canon (fst e) <> canon (keyAt m slot).
Proof.
  intros Hd H Hu Hl He E. rewrite (contents_at m slot H Hu Hl), map_app in Hd. cbn [map] in Hd.
  apply NoDup_app_mid in Hd as [H1 H2]. unfold keyAt in E. rewrite <- E in H1, H2.
  destruct He as [He|He]; [apply H1|apply H2]; apply list_elem_of_In, (in_map (fun e => canon (fst e)) _ _ He).
Qed.

(** ** Collections *)

Lemma index_right_transfer h h' m buckets :
  index_right h m buckets ->
  (forall s, (s < usedCount m)%nat -> liveAt m s = true ->
     hashKey h' (keyAt m s) = hashKey h (keyAt m s)) ->
  index_right h' m buckets.
Proof.
  intros (k & Ht & Hcap & Hk) Hh. exists k. split_and!; try done.
  eapply table_weaken; [exact Ht|done|done|].
  unfold home. intros s x. destruct (Nat.ltb_spec s (usedCount m)); cbn [andb]; [|done].
  destruct (liveAt m s) eqn:El; [|done]. by rewrite Hh.
Qed.

Lemma collected_hash h h' v : value_ok h v -> collected h h' -> keyMayMove h v = false -> hashKey h' v = hashKey h v.
Proof.
  intros Hv Hc Hm. apply hashKey_stable. intros i [-> | ->]; cbn in *; by apply (collected_old h h' Hc).
Qed.

(** The invariant survives whatever the collector does between operations. *)
Lemma map_ok_collected h h' m : collected h h' -> map_ok h m -> map_ok h' m.
Proof.
  intros Hc [Hu Hk Hl Hd Hi]. constructor; try done.
  { intros s Hs. eapply value_ok_collected; [exact Hc|by apply Hk]. }
  intros b Hb. specialize (Hi b Hb).
  destruct (indexEpoch m =? kStableIndex).
  - destruct Hi as [Hr Hs]. split.
    + eapply index_right_transfer; [exact Hr|]. intros s Hlt _. apply (collected_hash h h'); auto.
    + intros s Hlt. specialize (Hs s Hlt). specialize (Hk s Hlt).
      destruct (keyAt m s); try done; cbn in *; by apply (collected_old h h' Hc).
  - destruct Hi as [Hle Hr]. pose proof (collected_mono h h' Hc). split; [lia|]. intros E.
    eapply index_right_transfer; [apply Hr; lia|]. intros s Hlt _. apply hashKey_stable.
    specialize (Hk s Hlt). intros i Hi. apply (collected_epoch h h' Hc); [lia|].
    by destruct Hi as [Hi|Hi]; rewrite Hi in Hk.
Qed.

(** ** Rebuilding the index *)

(** What the entries alone must satisfy for the index to be rebuilt from them. *)
Record entries_ok (h : Heap) (m : MapHeader) : Prop := {
  eok_used : (usedCount m <= capacity m)%nat;
  eok_keys : forall s, (s < usedCount m)%nat -> value_ok h (keyAt m s);
  eok_distinct : NoDup (map (fun e => canon (fst e)) (contents m))
}.

Lemma map_ok_entries h m : map_ok h m -> entries_ok h m.

Proof. intros []. by constructor. Qed.

Lemma bucketCountFor_spec c : exists k, bucketCountFor c = 2 ^ k /\ 3 <= k /\ 2 * Z.of_nat c <= 2 ^ k.
Proof.
  unfold bucketCountFor. destruct (pow2_at_least_spec (Z.of_nat c * kBucketsPerSlot)) as (k & E & Hk & Hb).
  exists k. unfold kBucketsPerSlot in *. split_and!; [done|done|lia].
Qed.

Definition home_below (h : Heap) (m : MapHeader) (i : nat) (slot : nat) : option Z :=
  if (slot <? i)%nat && liveAt m slot then Some (hashKey h (keyAt m slot)) else None.

Definition reindexing (h : Heap) (m : MapHeader) (k : Z) (i : nat) (st : list Z * bool * nat) : Prop :=
  let '(buckets, movable, live) := st in
  table_ok buckets k i (usedCount m) (home_below h m i) /\
  live = length (List.filter live_entry (take i (entries m))) /\
  (movable = false -> forall s, (s < i)%nat -> keyMayMove h (keyAt m s) = false).

Lemma take_S_entry m i : (i < capacity m)%nat -> take (S i) (entries m) = take i (entries m) ++ [entryAt m i].
Proof.
  intros Hi. unfold capacity in Hi. apply take_S_r. unfold entryAt.
  by destruct (lookup_lt_is_Some_2 (entries m) i Hi) as [e ->].
Qed.

Lemma reindex_step_inv h m k i st :
  (usedCount m <= capacity m)%nat -> 2 * Z.of_nat (capacity m) <= 2 ^ k -> (i < usedCount m)%nat ->
  reindexing h m k i st -> reindexing h m k (S i) (reindex_step h m (2 ^ k - 1) i st).
Proof.
  intros Hu Hcap Hi. destruct st as [[buckets movable] live]. intros (Ht & Hl & Hm).
  unfold reindex_step. destruct (liveAt m i) eqn:El; cbn [negb].
  - split_and!.
    + pose proof (table_insert buckets k i (usedCount m) (home_below h m i) i (hashKey h (keyAt m i))
        (probe_fuel buckets) Ht ltac:(lia) Hi ltac:(unfold probe_fuel; lia)) as Ht'.
      eapply table_weaken; [exact Ht'|lia|lia|]. intros s x. unfold home_below.
      destruct (decide (s = i)) as [->|Hne].
      * rewrite El, andb_true_r. by destruct (i <? S i)%nat.
      * destruct (Nat.ltb_spec s (S i)); cbn [andb]; [|done].
        by rewrite (proj2 (Nat.ltb_lt s i)) by lia.
    + rewrite take_S_entry, List.filter_app by lia. cbn [List.filter].
      assert (live_entry (entryAt m i) = true) as -> by exact El.
      rewrite length_app, Hl. cbn. lia.
    + intros [Hm' Hk]%orb_false_iff s Hs. destruct (Nat.eq_dec s i) as [->|]; [done|]. apply Hm; [done|lia].
  - split_and!.
    + eapply table_weaken; [exact Ht|lia|lia|]. intros s x. unfold home_below.
      destruct (Nat.eq_dec s i) as [->|]; [rewrite El, andb_false_r; done|].
      destruct (Nat.ltb_spec s (S i)); cbn [andb]; [|done].
      by rewrite (proj2 (Nat.ltb_lt s i)) by lia.
    + rewrite take_S_entry, List.filter_app by lia. cbn [List.filter].
      assert (live_entry (entryAt m i) = false) as -> by exact El.
      rewrite app_nil_r. done.
    + intros Hm' s Hs. destruct (Nat.eq_dec s i) as [->|]; [|apply Hm; [done|lia]].
      unfold liveAt in El. apply negb_false_iff in El. by destruct (keyAt m i).
Qed.

(** The index is there, is right for [h], and is stamped as such. *)
Definition ready (h : Heap) (m : MapHeader) : Prop :=
  exists buckets, index m = Some buckets /\ index_right h m buckets /\
    (indexEpoch m = kStableIndex \/ indexEpoch m = relocation_epoch h).

Section Ops.
Context (allocate : Heap -> Heap).
Context (allocate_ok : forall h, collected h (allocate h)).

Lemma reindex_spec h m :
  heap_ok h -> entries_ok h m ->
  let '(h', m') := reindex allocate h m in
  collected h h' /\ map_ok h' m' /\ ready h' m' /\
  entries m' = entries m /\ usedCount m' = usedCount m /\ self m' = self m.
Proof.
  intros Hh [Hu Hk Hd]. unfold reindex.
  destruct (bucketCountFor_spec (capacity m)) as (k & Ek & Hk3 & Hcap). rewrite Ek.
  set (h' := if negb _ then _ else _).
  assert (collected h h') as Hc by (unfold h'; destruct (negb _); [apply allocate_ok|done]).
  pose proof (collected_ok h h' Hc Hh) as Hh'.
  assert (reindexing h' m k (0 + used m)
    (for_up (used m) 0 (reindex_step h' m (2 ^ k - 1)) (replicate (Z.to_nat (2 ^ k)) 0, false, O))) as Hi.
  { apply (for_up_inv (reindexing h' m k)).
    - split_and!; [|done|intros; lia].
      eapply table_weaken; [apply (table_empty k 0); lia|lia|lia|done].
    - intros i st Hi Hst. unfold used in Hi. apply reindex_step_inv; [done|lia|lia|done]. }
  destruct (for_up _ _ _ _) as [[buckets movable] live]. cbn [Nat.add] in Hi.
  destruct Hi as (Ht & Hl & Hm). unfold used in *.
  set (m' := with_stamps _ _ _ _).
  assert (index_right h' m' buckets) as Hr.
  { exists k. split_and!; [exact Ht|exact Hcap|done]. }
  pose proof (epoch_nonneg h' Hh') as He.
  split_and!; try done.
  - constructor; try done.
    { intros s Hs. eapply value_ok_collected; [exact Hc|by apply Hk]. }
    cbn [m' with_stamps with_index index indexEpoch]. intros b [= <-].
    destruct movable.
    + destruct (Z.eqb_spec (relocation_epoch h') kStableIndex); [unfold kStableIndex in *; lia|].
      split; [lia|done].
    + rewrite Z.eqb_refl. split; [done|]. by apply Hm.
  - exists buckets. split_and!; [done|done|]. cbn. destruct movable; auto.
Qed.

Lemma ensureIndex_spec h m :
  heap_ok h -> map_ok h m ->
  let '(h', m') := ensureIndex allocate h m in
  collected h h' /\ map_ok h' m' /\ ready h' m' /\
  entries m' = entries m /\ usedCount m' = usedCount m /\ self m' = self m.
Proof.
  intros Hh Hm. unfold ensureIndex. destruct (indexValid h m) eqn:Ev.
  - split_and!; try done. unfold indexValid in Ev. apply andb_prop in Ev as [[Ev He]%andb_prop _].
    destruct (index m) as [b|] eqn:Eb; [|done]. exists b.
    pose proof (ok_index h m Hm b Eb) as Hi. unfold epochCurrent in He.
    destruct (Z.eqb_spec (indexEpoch m) kStableIndex); cbn [orb] in He.
    + destruct Hi as [? _]. auto.
    + apply Z.eqb_eq in He. destruct Hi as [_ Hi]. auto.
  - apply reindex_spec; [done|]. by eapply map_ok_entries.
Qed.

(** ** Lookup *)

(** The slot that holds the key, or none. *)
Definition slot_of (m : MapHeader) (key : Value) (r : option nat) : Prop :=
  match r with
  | Some s => (s < usedCount m)%nat /\ liveAt m s = true /\ canon (keyAt m s) = canon key
  | None => forall e, In e (contents m) -> canon (fst e) <> canon key
  end.

Lemma index_length h m buckets : index_right h m buckets ->
  exists k, Z.of_nat (length buckets) = 2 ^ k /\ 3 <= k /\ 2 * Z.of_nat (capacity m) <= 2 ^ k /\
    table_ok buckets k (usedCount m) (usedCount m) (home h m).
Proof. intros (k & Ht & Hcap & Hk). exists k. split_and!; try done. apply (table_len _ _ _ _ _ Ht). Qed.

Lemma probe_key_spec h m key :
  heap_ok h -> map_ok h m -> ready h m -> key_ok h key ->
  slot_of m key (probe_key h m key) /\ bucketCountOf m <> 0.
Proof.
  intros Hh Hm (b & Eb & Hr & _) [Hv Hkh]. pose proof Hm as [Hu Hk Hl Hd _].
  destruct (index_length h m b Hr) as (k & El & Hk3 & Hcap & Ht).
  assert (bucketsOf m = b) as Ebs by (unfold bucketsOf; by rewrite Eb).
  assert (bucketCountOf m = 2 ^ k) as Ec by (unfold bucketCountOf; by rewrite Ebs).
  unfold probe_key. rewrite Ec, Ebs.
  assert (8 <= 2 ^ k) by (apply (Z.pow_le_mono_r 2 3); lia).
  split; [|lia].
  pose proof (table_find b k (usedCount m) (usedCount m) (home h m)
    (fun slot => liveAt m slot && sameValueZero h (keyAt m slot) key) (hashKey h key) (probe_fuel b)
    Ht ltac:(lia) ltac:(unfold probe_fuel; lia)) as Hf.
  destruct (probe_find _ _ _ _ _) as [s|].
  - destruct Hf as [[Hl' Hs]%andb_prop Hlt]. split_and!; [done|done|].
    apply (sameValueZero_canon h); auto.
  - intros e (s & Hlt & Hls & <-)%contents_elem E; [|done].
    assert (home h m s = Some (hashKey h key)) as Hhome.
    { unfold home. rewrite (proj2 (Nat.ltb_lt _ _)), Hls by done. cbn [andb]. f_equal.
      by apply hashKey_canon. }
    specialize (Hf s Hhome). rewrite Hls in Hf. cbn [andb] in Hf.
    assert (sameValueZero h (keyAt m s) key = true); [|congruence].
    apply sameValueZero_canon; auto.
Qed.

Lemma empty_contents h m key : map_ok h m -> liveSize m = O -> slot_of m key None.
Proof.
  intros Hm H0 e He. exfalso. pose proof (ok_live h m Hm) as Hl. unfold liveSize in H0.
  destruct (contents m); [done|]. cbn in Hl. lia.
Qed.

Lemma find_spec h m key :
  heap_ok h -> map_ok h m -> key_ok h key ->
  let '(h', m', r) := find allocate h m key in
  collected h h' /\ map_ok h' m' /\ contents m' = contents m /\ self m' = self m /\
  slot_of m' key r.
Proof.
  intros Hh Hm Hkey. unfold find. destruct (Nat.eqb_spec (liveSize m) 0) as [E|E].
  { split_and!; try done. by eapply empty_contents. }
  pose proof (ensureIndex_spec h m Hh Hm) as He.
  destruct (ensureIndex allocate h m) as [h' m'].
  destruct He as (Hc & Hm' & Hrd & Ee & Eu & Es).
  destruct (probe_key_spec h' m' key (collected_ok _ _ Hc Hh) Hm' Hrd
    (key_ok_collected _ _ _ Hc Hkey)) as [Hs Hb].
  destruct (Z.eqb_spec (bucketCountOf m') 0); [done|].
  split_and!; try done. unfold contents. by rewrite Ee, Eu.
Qed.

(** ** Growing and appending *)

Lemma filter_live_idem l : List.filter live_entry (List.filter live_entry l) = List.filter live_entry l.
Proof.
  induction l as [|e l IH]; [done|]. cbn [List.filter]. destruct (live_entry e) eqn:E; [|done].
  cbn [List.filter]. rewrite E. by f_equal.
Qed.

Lemma count_live m n : (n <= capacity m)%nat ->
  for_up n 0 (fun slot live => if liveAt m slot then S live else live) O
  = length (List.filter live_entry (take n (entries m))).
Proof.
  intros Hn. apply (for_up_inv (fun i live => live = length (List.filter live_entry (take i (entries m))))).
  - done.
  - intros i live Hi ->. rewrite take_S_entry, List.filter_app, length_app by lia. cbn [List.filter].
    change (live_entry (entryAt m i)) with (liveAt m i). destruct (liveAt m i); cbn; lia.
Qed.

Lemma grow_loop m n newCap :
  (n <= capacity m)%nat -> (length (List.filter live_entry (take n (entries m))) <= newCap)%nat ->
  let '(dst, at_) := for_up n 0 (grow_step m) (replicate newCap (VUndefined, VUndefined), O) in
  length dst = newCap /\ take at_ dst = List.filter live_entry (take n (entries m)) /\
  at_ = length (List.filter live_entry (take n (entries m))).
Proof.
  intros Hn Hcap.
  apply (for_up_inv (fun i '(dst, at_) => length dst = newCap /\
    take at_ dst = List.filter live_entry (take i (entries m)) /\
    at_ = length (List.filter live_entry (take i (entries m))))).
  - split_and!; [apply length_replicate|done|done].
  - intros i [dst at_] Hi (Hl & Ht & Ha). unfold grow_step. cbn [Nat.add] in Hi.
    rewrite take_S_entry, List.filter_app, length_app by lia. cbn [List.filter].
    change (live_entry (entryAt m i)) with (liveAt m i).
    assert (isHole (keyAt m i) = negb (liveAt m i)) as -> by (unfold liveAt; by rewrite negb_involutive).
    destruct (liveAt m i) eqn:El; cbn [negb length].
    + assert (at_ < newCap)%nat as Hlt.
      { assert (length (List.filter live_entry (take (S i) (entries m)))
                <= length (List.filter live_entry (take n (entries m))))%nat as Hm.
        { replace (take n (entries m)) with (take (S i) (entries m) ++ drop (S i) (take n (entries m))).
          - rewrite List.filter_app, length_app. lia.
          - rewrite <- (take_drop (S i) (take n (entries m))) at 2. f_equal.
            rewrite take_take. f_equal. lia. }
        rewrite take_S_entry, List.filter_app, length_app in Hm by lia. cbn [List.filter] in Hm.
        change (live_entry (entryAt m i)) with (liveAt m i) in Hm. rewrite El in Hm. cbn in Hm. lia. }
      split_and!; [by rewrite length_insert| |lia].
      rewrite (take_S_r _ _ (entryAt m i)) by (rewrite list_lookup_insert_eq; [done|lia]).
      rewrite take_insert_ge by lia. by rewrite Ht.
    + rewrite app_nil_r, Nat.add_0_r. done.
Qed.

Lemma growEntries_spec h m :
  heap_ok h -> map_ok h m ->
  let '(h', m') := growEntries allocate h m in
  collected h h' /\ map_ok h' m' /\ ready h' m' /\ contents m' = contents m /\ self m' = self m /\
  (usedCount m' < capacity m')%nat.
Proof.
  intros Hh Hm. pose proof (map_ok_entries h m Hm) as [Hu Hk Hd]. unfold growEntries, used.
  rewrite count_live by done. fold (contents m). set (live := length (contents m)).
  destruct (pow2_at_least_spec ((Z.of_nat live + 1) * 2)) as (k & Ek & _ & Hb).
  set (newCap := Z.to_nat (pow2_at_least ((Z.of_nat live + 1) * 2))).
  pose proof (grow_loop m (usedCount m) newCap Hu) as Hg. fold (contents m) in Hg. fold live in Hg.
  specialize (Hg ltac:(lia)). destruct (for_up _ _ _ _) as [dst at_].
  destruct Hg as (Hl & Ht & Ha). set (m1 := with_entries m dst at_ at_).
  assert (contents m1 = contents m) as Ec.
  { unfold contents at 1. cbn [m1 with_entries usedCount entries]. rewrite Ht. apply filter_live_idem. }
  assert (entries_ok h m1) as He0.
  { constructor.
    - unfold capacity. cbn. lia.
    - intros s Hs. cbn in Hs.
      assert (In (entryAt m1 s) (contents m)) as Hin.
      { rewrite <- Ht. apply list_elem_of_In, list_elem_of_lookup. exists s.
        rewrite lookup_take_lt by done. unfold entryAt. cbn [m1 with_entries entries].
        destruct (lookup_lt_is_Some_2 dst s) as [e ->]; [lia|done]. }
      apply contents_elem in Hin as (s' & Hs' & _ & E); [|done]. unfold keyAt. rewrite <- E.
      by apply Hk.
    - by rewrite Ec. }
  assert (entries_ok (allocate h) m1) as He1.
  { destruct He0. constructor; try done. intros s Hs.
    eapply value_ok_collected; [apply allocate_ok|auto]. }
  pose proof (reindex_spec (allocate h) m1 (collected_ok _ _ (allocate_ok h) Hh) He1) as Hr.
  destruct (reindex allocate (allocate h) m1) as [h' m'].
  destruct Hr as (Hc & Hm' & Hrd & Ee & Eu & Es). split_and!; try done.
  - etransitivity; [apply allocate_ok|done].
  - unfold contents. rewrite Ee, Eu. exact Ec.
  - unfold capacity. rewrite Ee, Eu. cbn. lia.
Qed.

Lemma contents_append m m' key val :
  (usedCount m < capacity m)%nat -> isHole key = false ->
  entries m' = <[usedCount m := (key, val)]> (entries m) -> usedCount m' = S (usedCount m) ->
  contents m' = contents m ++ [(key, val)].
Proof.
  intros Hc Hk Ee Eu. unfold contents. rewrite Ee, Eu. unfold capacity in Hc.
  rewrite (take_S_r _ _ (key, val)) by (by rewrite list_lookup_insert_eq).
  rewrite take_insert_ge by lia. rewrite List.filter_app. cbn [List.filter].
  unfold live_entry at 2. cbn [fst]. by rewrite Hk.
Qed.

Lemma append_spec h m key val :
  heap_ok h -> map_ok h m -> ready h m -> key_ok h key -> (usedCount m < capacity m)%nat ->
  (forall e, In e (contents m) -> canon (fst e) <> canon key) ->
  map_ok h (append h m key val) /\ contents (append h m key val) = contents m ++ [(key, val)] /\
  self (append h m key val) = self m.
Proof.
  intros Hh Hm (b & Eb & Hr & Hst) [Hv Hkh] Hcap Hfresh. pose proof Hm as [Hu Hk Hl Hd Hi].
  destruct (index_length h m b Hr) as (k & El & Hk3 & Hcap2 & Ht).
  specialize (Hi b Eb). pose proof (epoch_nonneg h Hh) as Hep.
  set (m' := append h m key val).
  assert (entries m' = <[usedCount m := (key, val)]> (entries m)) as Ee
    by (unfold m', append, used; by destruct (_ && _)).
  assert (usedCount m' = S (usedCount m)) as Eu by (unfold m', append, used; by destruct (_ && _)).
  assert (index m' = Some (probe_insert (probe_fuel b) (usedCount m) b (2 ^ k - 1)
            (Z.land (hashKey h key) (2 ^ k - 1)))) as Ei.
  { unfold m', append, used, bucketCountOf, bucketsOf.
    destruct (_ && _); cbn [with_stamps with_entries with_index index]; rewrite Eb;
      cbv beta iota delta [from_option id]; by rewrite El. }
  assert (indexEpoch m' = if (indexEpoch m =? kStableIndex) && keyMayMove h key
                          then relocation_epoch h else indexEpoch m) as Ep
    by (unfold m', append, used; cbn [with_entries indexEpoch]; by destruct (_ && _)).
  assert (liveCount m' = S (liveCount m)) as Elc by (unfold m', append, liveSize, used; by destruct (_ && _)).
  assert (forall s, (s < usedCount m)%nat -> entryAt m' s = entryAt m s) as Eold.
  { intros s Hs. unfold entryAt. rewrite Ee, list_lookup_insert_ne by lia. done. }
  assert (entryAt m' (usedCount m) = (key, val)) as Enew.
  { unfold entryAt. rewrite Ee, list_lookup_insert_eq; [done|exact Hcap]. }
  pose proof (contents_append m m' key val Hcap Hkh Ee Eu) as Ec.
  assert (index_right h m' (probe_insert (probe_fuel b) (usedCount m) b (2 ^ k - 1)
            (Z.land (hashKey h key) (2 ^ k - 1)))) as Hr'.
  { exists k. split_and!; [|unfold capacity in *; rewrite Ee, length_insert; done|done].
    assert (table_ok b k (usedCount m) (S (usedCount m)) (home h m)) as Ht1
      by (eapply table_weaken; [exact Ht|lia|lia|done]).
    pose proof (table_insert b k (usedCount m) (S (usedCount m)) (home h m) (usedCount m) (hashKey h key)
      (probe_fuel b) Ht1 ltac:(lia) ltac:(lia) ltac:(unfold probe_fuel; lia)) as Ht2.
    rewrite Eu. eapply table_weaken; [exact Ht2|lia|lia|].
    unfold home. rewrite Eu. intros s x. destruct (decide (s = usedCount m)) as [->|Hne].
    - unfold liveAt, keyAt. rewrite Enew. cbn [fst]. rewrite Hkh, andb_true_r.
      by destruct (_ <? _)%nat.
    - destruct (Nat.ltb_spec s (S (usedCount m))); cbn [andb]; [|done].
      unfold liveAt, keyAt. rewrite Eold by lia.
      by rewrite (proj2 (Nat.ltb_lt s (usedCount m))) by lia. }
  split_and!; [|exact Ec|unfold m', append; by destruct (_ && _)]. constructor.
  - rewrite Eu. unfold capacity in *. rewrite Ee, length_insert. lia.
  - rewrite Eu. intros s Hs. unfold keyAt. destruct (Nat.eq_dec s (usedCount m)) as [->|].
    + by rewrite Enew.
    + rewrite Eold by lia. apply Hk. lia.
  - rewrite Elc, Ec, length_app, Hl. cbn. lia.
  - rewrite Ec, map_app. apply NoDup_app. split_and!; [done| |apply NoDup_singleton].
    intros x Hx Hx'. apply list_elem_of_singleton in Hx' as ->.
    apply list_elem_of_In, in_map_iff in Hx as (e & E & Hin). by apply (Hfresh e Hin).
  - rewrite Ei, Ep. intros b' [= <-].
    destruct (Z.eqb_spec (indexEpoch m) kStableIndex) as [Es|Es]; cbn [andb] in *.
    + destruct Hi as [_ Hns]. destruct (keyMayMove h key) eqn:Emv.
      * destruct (Z.eqb_spec (relocation_epoch h) kStableIndex); [unfold kStableIndex in *; lia|].
        split; [lia|done].
      * rewrite Es, Z.eqb_refl. split; [done|]. rewrite Eu. intros s Hs. unfold keyAt.
        destruct (Nat.eq_dec s (usedCount m)) as [->|]; [by rewrite Enew|].
        rewrite Eold by lia. apply Hns. lia.
    + destruct Hst as [?|Hst]; [done|].
      destruct (Z.eqb_spec (indexEpoch m) kStableIndex); [done|]. split; [lia|done].
Qed.

(** ** Replacing one entry in place *)

(** Overwriting a live slot: the contents around it, and an index that still finds
    every other key. *)
Section Overwrite.
Context (h : Heap) (m : MapHeader) (slot : nat) (x : Value * Value) (live : nat).
Context (Hm : map_ok h m) (Hs : (slot < usedCount m)%nat) (Hls : liveAt m slot = true).
Let m' := with_entries m (<[slot := x]> (entries m)) live (usedCount m).

Lemma overwrite_entry s : entryAt m' s = if decide (s = slot) then x else entryAt m s.
Proof.
  pose proof (ok_used h m Hm) as Hu. unfold entryAt, m', capacity in *. cbn [with_entries entries].
  destruct (decide (s = slot)) as [->|]; [by rewrite list_lookup_insert_eq by lia|].
  by rewrite list_lookup_insert_ne by done.
Qed.

Lemma overwrite_contents :
  contents m' = List.filter live_entry (take slot (entries m)) ++
    (if live_entry x then [x] else []) ++
    List.filter live_entry (drop (S slot) (take (usedCount m) (entries m))).
Proof.
  unfold contents at 1. cbn [m' with_entries usedCount entries].
  rewrite (contents_insert m slot x Hs (ok_used h m Hm)), List.filter_app. cbn [List.filter].
  by destruct (live_entry x).
Qed.

(** Kept: a live key with the same [canon], or a tombstone. *)
Lemma overwrite_ok :
  (isHole (fst x) = true \/ fst x = keyAt m slot) ->
  live = length (contents m') -> map_ok h m'.
Proof.
  intros Hx Hlive. pose proof Hm as [Hu Hk Hl Hd Hi].
  assert (forall s, isHole (keyAt m' s) = true \/ keyAt m' s = keyAt m s) as Hkey.
  { intros s. unfold keyAt. rewrite overwrite_entry. destruct (decide (s = slot)) as [->|]; auto. }
  constructor.
  - unfold capacity, m' in *. cbn. by rewrite length_insert.
  - intros s Hs'. destruct (Hkey s) as [E|E]; [by destruct (keyAt m' s)|]. rewrite E. by apply Hk.
  - exact Hlive.
  - rewrite overwrite_contents. rewrite (contents_at m slot Hs Hu Hls), map_app in Hd. cbn [map] in Hd.
    rewrite map_app. destruct (live_entry x) eqn:Ex; cbn [app map].
    + destruct Hx as [Hx|Hx]; [unfold live_entry in Ex; by rewrite Hx in Ex|].
      unfold keyAt in Hx. by rewrite Hx.
    + apply NoDup_app in Hd as (H1 & H2 & H3). apply NoDup_cons in H3 as [_ H3].
      apply NoDup_app. split_and!; [done| |done]. intros k Hk1 Hk2. apply (H2 k Hk1). by right.
  - intros b Hb. specialize (Hi b Hb). cbn [m' with_entries indexEpoch usedCount].
    assert (index_right h m b -> index_right h m' b) as Hr.
    { intros (k & Ht & Hcap & Hk3). exists k. split_and!; [|unfold capacity, m' in *; cbn; by rewrite length_insert|done].
      eapply table_weaken; [exact Ht|done|done|]. unfold home. cbn [m' with_entries usedCount].
      fold m'. intros s y. destruct (s <? usedCount m)%nat; cbn [andb]; [|done].
      unfold liveAt. destruct (Hkey s) as [E|E]; rewrite E; done. }
    destruct (indexEpoch m =? kStableIndex).
    + destruct Hi as [Hi1 Hi2]. split; [by apply Hr|]. intros s Hs'.
      destruct (Hkey s) as [E|E]; [by destruct (keyAt m' s)|]. rewrite E. by apply Hi2.
    + destruct Hi as [Hi1 Hi2]. auto.
Qed.
End Overwrite.

(** What the tail of [set] and [remove] does at the slot the key is found in. *)
Lemma replace_contents h m slot key val :
  map_ok h m -> slot_of m key (Some slot) ->
  let m' := with_entries m (<[slot := (keyAt m slot, val)]> (entries m)) (liveCount m) (usedCount m) in
  map_ok h m' /\ contents m' = omap_set key val (contents m).
Proof.
  intros Hm (Hs & Hls & Ec). cbn zeta. pose proof Hm as [Hu Hk Hl Hd Hi].
  pose proof (overwrite_contents h m slot (keyAt m slot, val) (liveCount m) Hm Hs) as E.
  assert (live_entry (keyAt m slot, val) = true) as El by exact Hls. rewrite El in E.
  split.
  - apply overwrite_ok; auto. rewrite E, Hl, (contents_at m slot Hs Hu Hls), !length_app. done.
  - rewrite E, (contents_at m slot Hs Hu Hls). symmetry. apply omap_set_mid; [done|].
    intros y Hy. rewrite <- Ec. eapply contents_others; eauto.
Qed.

Lemma erase_contents h m slot key :
  map_ok h m -> slot_of m key (Some slot) ->
  let m' := with_entries m (<[slot := (VHole, VUndefined)]> (entries m)) (liveSize m - 1) (usedCount m) in
  map_ok h m' /\ contents m' = omap_remove (canon key) (contents m).
Proof.
  intros Hm (Hs & Hls & Ec). cbn zeta. pose proof Hm as [Hu Hk Hl Hd Hi].
  pose proof (overwrite_contents h m slot (VHole, VUndefined) (liveSize m - 1) Hm Hs) as E.
  cbn [live_entry isHole fst negb app] in E.
  split.
  - apply overwrite_ok; auto. rewrite E. unfold liveSize.
    rewrite Hl, (contents_at m slot Hs Hu Hls), !length_app. cbn [length]. lia.
  - rewrite E, (contents_at m slot Hs Hu Hls). symmetry.
    apply omap_remove_mid; [done| |]; intros y Hy; rewrite <- Ec; eapply contents_others; eauto.
Qed.

Lemma get_slot m slot key :
  (usedCount m <= capacity m)%nat -> NoDup (map (fun e => canon (fst e)) (contents m)) ->
  slot_of m key (Some slot) -> omap_get (canon key) (contents m) = Some (valueAt m slot).
Proof.
  intros Hu Hd (Hs & Hls & Ec). rewrite (contents_at m slot Hs Hu Hls).
  apply (omap_get_mid key (entryAt m slot)); [done|].
  intros y Hy. rewrite <- Ec. eapply contents_others; eauto.
Qed.

(** ** The identity lookup *)

Definition by_identity (v : Value) : bool := match v with VObject _ | VSymbol _ => true | _ => false end.

Lemma probe_find_ext fuel hit hit' buckets mask b :
  (forall s, hit s = hit' s) -> probe_find fuel hit buckets mask b = probe_find fuel hit' buckets mask b.
Proof.
  intros H. revert b. induction fuel as [|fuel IH]; intros b; cbn [probe_find]; [done|].
  rewrite H. destruct (_ =? 0); [done|]. destruct (hit' _); [done|apply IH].
Qed.

(** The lookup that compares bits answers as the general one for an object or a
    symbol, removed entries and entries of other kinds included. *)
Theorem identity_lookup_agrees h m key :
  heap_ok h -> value_ok h key -> by_identity key = true ->
  findFastIdentity h m key = findFast h m key.
Proof.
  intros Hh Hv Hi. unfold findFastIdentity, findFast.
  destruct (liveSize m =? 0)%nat; [done|]. destruct (negb (indexValid h m)); [done|].
  destruct (bucketCountOf m =? 0); [done|]. f_equal. unfold probe_key.
  assert (hashKey h key = mix64 (rawBits h key)) as -> by (by destruct key).
  apply probe_find_ext. intros s. unfold liveAt.
  assert (sameValueZero h (keyAt m s) key = (rawBits h (keyAt m s) =? rawBits h key)) as ->
    by (by destruct key; try discriminate Hi; destruct (keyAt m s)).
  destruct (isHole (keyAt m s)) eqn:Eh; cbn [negb andb]; [|done].
  destruct (keyAt m s); try discriminate Eh. clear Eh. apply Z.eqb_neq. intros E.
  destruct (raw_eq h VHole key Hh I Hv) as (_ & _ & Et & _); [by destruct key|exact E|].
  by destruct key.
Qed.

(** ** The operations against the ordered map *)

(** C26: a lookup in a Map or Set finds the entry the ordered map has for the key
    under SameValueZero, whatever collections ran before it or run inside it, and
    leaves the contents alone; the lookup that may not allocate gives the same
    answer whenever it gives one. *)
Theorem find_refines h0 h m key :
  heap_ok h0 -> map_ok h0 m -> key_ok h0 key -> collected h0 h ->
  let '(h', m', r) := find allocate h m key in
  collected h h' /\ map_ok h' m' /\ contents m' = contents m /\
  omap_get (canon key) (contents m) = valueAt m' <$> r /\
  (forall r', findFast h m key = Some r' -> valueAt m <$> r' = omap_get (canon key) (contents m)).
Proof.
  intros Hh0 Hm0 Hkey Hc0. pose proof (collected_ok _ _ Hc0 Hh0) as Hh.
  apply (key_ok_collected _ _ _ Hc0) in Hkey.
  pose proof (map_ok_collected h0 h m Hc0 Hm0) as Hm.
  assert (forall h m r, map_ok h m -> slot_of m key r ->
            omap_get (canon key) (contents m) = valueAt m <$> r) as Hget.
  { intros h1 m1 [s|] Hm1 Hs; [by apply get_slot; destruct Hm1|]. by apply omap_get_absent. }
  pose proof (find_spec h m key Hh Hm Hkey) as Hf.
  destruct (find allocate h m key) as [[h' m'] r].
  destruct Hf as (Hc & Hm' & Ec & _ & Hs). split_and!; try done.
  - rewrite <- Ec. by apply (Hget h').
  - intros r' Hr'. symmetry. apply (Hget h); [done|]. unfold findFast in Hr'.
    destruct (Nat.eqb_spec (liveSize m) 0) as [E|E].
    { injection Hr' as <-. by eapply empty_contents. }
    destruct (indexValid h m) eqn:Ev; [|done]. cbn [negb] in Hr'.
    assert (ready h m) as Hrd.
    { pose proof (ensureIndex_spec h m Hh Hm) as He. unfold ensureIndex in He. rewrite Ev in He. apply He. }
    destruct (bucketCountOf m =? 0); [done|]. injection Hr' as <-.
    by apply probe_key_spec.
Qed.

(** [set] updates the value of a key in place and appends a new key at the end,
    for every interleaving with the collector, and keeps the table's invariant. *)
Theorem set_refines h0 h m key val :
  heap_ok h0 -> map_ok h0 m -> key_ok h0 key -> collected h0 h ->
  let '(h', m') := set allocate h m key val in
  collected h h' /\ map_ok h' m' /\ contents m' = omap_set key val (contents m).
Proof.
  intros Hh0 Hm0 Hkey Hc0. pose proof (collected_ok _ _ Hc0 Hh0) as Hh.
  apply (key_ok_collected _ _ _ Hc0) in Hkey.
  pose proof (map_ok_collected h0 h m Hc0 Hm0) as Hm.
  unfold set. pose proof (find_spec h m key Hh Hm Hkey) as Hf.
  destruct (find allocate h m key) as [[h1 m1] r]. destruct Hf as (Hc1 & Hm1 & Ec1 & _ & Hs).
  pose proof (collected_ok _ _ Hc1 Hh) as Hh1. destruct r as [slot|].
  { destruct (replace_contents h1 m1 slot key val Hm1 Hs) as [? E].
    split_and!; [done|done|]. by rewrite E, Ec1. }
  set (grown := if (capacity m1 <=? used m1)%nat then growEntries allocate h1 m1 else (h1, m1)).
  assert (let '(h2, m2) := grown in collected h1 h2 /\ map_ok h2 m2 /\ contents m2 = contents m1 /\
    (usedCount m2 < capacity m2)%nat) as Hg.
  { unfold grown, used. destruct (Nat.leb_spec (capacity m1) (usedCount m1)); [|done].
    pose proof (growEntries_spec h1 m1 Hh1 Hm1) as Hg.
    destruct (growEntries allocate h1 m1) as [h2 m2]. destruct Hg as (? & ? & _ & ? & _ & ?). done. }
  destruct grown as [h2 m2]. destruct Hg as (Hc2 & Hm2 & Ec2 & Hroom).
  pose proof (collected_ok _ _ Hc2 Hh1) as Hh2.
  pose proof (ensureIndex_spec h2 m2 Hh2 Hm2) as He.
  destruct (ensureIndex allocate h2 m2) as [h3 m3]. destruct He as (Hc3 & Hm3 & Hrd & Ee & Eu & _).
  assert (contents m3 = contents m) as Ec3 by (unfold contents at 1; rewrite Ee, Eu; by rewrite <- Ec1, <- Ec2).
  assert (forall e, In e (contents m) -> canon (fst e) <> canon key) as Hfresh by (by rewrite <- Ec1).
  destruct (append_spec h3 m3 key val) as (Hm4 & Ec4 & _); try done.
  - by apply (collected_ok _ _ Hc3).
  - apply (key_ok_collected h); [by etransitivity; [|etransitivity]|done].
  - unfold capacity. rewrite Ee, Eu. exact Hroom.
  - by rewrite Ec3.
  - split_and!; [by etransitivity; [|etransitivity]|done|].
    rewrite Ec4, Ec3. symmetry. by apply omap_set_fresh.
Qed.

(** [remove] takes out exactly the entry of the key, answers whether there was
    one, and keeps the order of the rest; [clear] empties the table. *)
Theorem remove_refines h0 h m key :
  heap_ok h0 -> map_ok h0 m -> key_ok h0 key -> collected h0 h ->
  (let '(h', m', removed) := remove allocate h m key in
   collected h h' /\ map_ok h' m' /\ contents m' = omap_remove (canon key) (contents m) /\
   removed = bool_decide (omap_get (canon key) (contents m) <> None)) /\
  map_ok h (clear m) /\ contents (clear m) = [].
Proof.
  intros Hh0 Hm0 Hkey Hc0. pose proof (collected_ok _ _ Hc0 Hh0) as Hh.
  apply (key_ok_collected _ _ _ Hc0) in Hkey.
  pose proof (map_ok_collected h0 h m Hc0 Hm0) as Hm. split.
  - unfold remove. pose proof (find_spec h m key Hh Hm Hkey) as Hf.
    destruct (find allocate h m key) as [[h1 m1] r]. destruct Hf as (Hc1 & Hm1 & Ec1 & _ & Hs).
    rewrite <- Ec1. destruct r as [slot|].
    + destruct (erase_contents h1 m1 slot key Hm1 Hs) as [? E].
      rewrite (get_slot m1 slot key) by (try done; by destruct Hm1).
      rewrite bool_decide_eq_true_2 by done. done.
    + rewrite (omap_get_absent _ _ Hs), (omap_remove_absent _ _ Hs).
      rewrite bool_decide_eq_false_2 by (intros H; by apply H). done.
  - assert (length (entries (clear m)) = length (entries m)) as El.
    { unfold clear. cbn. apply (for_up_inv (fun _ es => length es = length (entries m))); [done|].
      intros i es _ <-. by rewrite length_insert. }
    split; [|done]. constructor; cbn; try lia; try done; [constructor|].
    intros b _. pose proof (epoch_nonneg h Hh). split; [lia|]. intros E. lia.
Qed.
End Ops.

(** ** Witnesses *)

(** An allocation that moves every object when all of them are young. *)
Definition moving (h : Heap) : Heap :=
  mkHeap (relocation_epoch h + 1) (objects h)
    (if forallb (is_movable h) (seq 0 (objects h))
     then fun i => 2 ^ 48 - 1 - address h i else address h) (is_movable h).

Lemma moving_ok h : collected h (moving h).
Proof.
  unfold moving. destruct (forallb _ _) eqn:E.
  - rewrite forallb_forall in E. constructor; cbn; try lia.
    + intros i Hi Hm. rewrite E in Hm by (apply in_seq; lia). done.
    + intros [He Hinj Hr]. constructor; cbn; [lia| |].
      * intros i j Hi Hj Eij. apply Hinj; [done|done|lia].
      * intros i Hi. specialize (Hr i Hi). lia.
  - constructor; cbn; try lia; auto. intros [He Hinj Hr]. constructor; cbn; auto. lia.
Qed.

Definition heap0 : Heap := mkHeap 0 2 (fun i => 4096 + 64 * Z.of_nat i) (fun _ => true).

Lemma heap0_ok : heap_ok heap0.
Proof. constructor; cbn; intros; lia. Qed.

(** One entry, keyed by an object, its index not built yet. *)
Definition table0 : MapHeader := mkMap 1 [(VObject 0, VOther 0xFFF4 1)] None 1 1 (-1) (-1).

Lemma table0_ok : map_ok heap0 table0.
Proof.
  constructor; cbn; try done; try lia.
  - intros [|s] Hs; [cbn; lia|lia].
  - apply NoDup_singleton.
Qed.

Lemma key0_ok : key_ok heap0 (VObject 0).
Proof. split; [cbn; lia|done]. Qed.

(** The key is found by its new address. *)
Lemma find_refines_witness :
  let '(h', m', r) := find moving heap0 table0 (VObject 0) in
  address h' 0 <> address heap0 0 /\ r = Some O /\
  omap_get (canon (VObject 0)) (contents table0) = Some (valueAt m' 0).
Proof.
  pose proof (find_refines moving moving_ok heap0 heap0 table0 (VObject 0) heap0_ok table0_ok key0_ok
    ltac:(reflexivity)) as H.
  assert (snd (find moving heap0 table0 (VObject 0)) = Some O) as E by (vm_compute; reflexivity).
  assert (address (fst (fst (find moving heap0 table0 (VObject 0)))) 0 <> address heap0 0) as Ea
    by (vm_compute; discriminate).
  destruct (find moving heap0 table0 (VObject 0)) as [[h' m'] r]. cbn [fst snd] in E, Ea. subst r.
  destruct H as (_ & _ & _ & H & _). split; [exact Ea|]. split; [reflexivity|exact H].
Defined.

Lemma set_refines_witness :
  contents (snd (set moving heap0 table0 (VObject 1) VUndefined))
  = [(VObject 0, VOther 0xFFF4 1); (VObject 1, VUndefined)].
Proof.
  pose proof (set_refines moving moving_ok heap0 heap0 table0 (VObject 1) VUndefined heap0_ok table0_ok
    ltac:(split; [cbn; lia|done]) ltac:(reflexivity)) as H.
  destruct (set moving heap0 table0 (VObject 1) VUndefined) as [h' m'].
  destruct H as (_ & _ & H). cbn [snd]. rewrite H. vm_compute. reflexivity.
Defined.

Lemma remove_refines_witness :
  contents (snd (fst (remove moving heap0 table0 (VObject 0)))) = [].
Proof.
  pose proof (remove_refines moving moving_ok heap0 heap0 table0 (VObject 0) heap0_ok table0_ok key0_ok
    ltac:(reflexivity)) as [H _].
  destruct (remove moving heap0 table0 (VObject 0)) as [[h' m'] r].
  destruct H as (_ & _ & H & _). cbn [fst snd]. rewrite H. vm_compute. reflexivity.
Defined.

Lemma identity_lookup_agrees_witness :
  findFastIdentity heap0 table0 (VObject 1) = findFast heap0 table0 (VObject 1).
Proof. apply (identity_lookup_agrees heap0 table0 (VObject 1) heap0_ok); [cbn; lia|reflexivity]. Defined.
