(* ===== verification/Dictionary.v ===== *)
(** * Dictionary-mode objects

    [src/src/runtime/dictionary.{h,cpp}]: the own-property table of one object once
    it is no longer described by a shared shape: an entry vector in insertion order
    with tombstones, the hash index over it, and the allocator of the object's slots
    with its free list.  [props] is the ordered property list the table stands for;
    the file shows that lookup, definition and deletion implement it, that no two
    properties ever share a slot, and that a value read back is the one last
    written. *)
From S2P Require Import Prelude Values Probe.

(** [PropertyKey]: a string by its contents, a symbol by its identity, or invalid. *)
Inductive PropertyKey := NoKey | StringKey (units : list Z) | SymbolKey (id : nat).

#[global] Instance PropertyKey_eq_dec : EqDecision PropertyKey.
Proof. solve_decision. Defined.

Definition valid (k : PropertyKey) : bool := match k with NoKey => false | _ => true end.

Definition matches (a b : PropertyKey) : bool := valid a && valid b && bool_decide (a = b).

Record DictEntry := mkEntry {
  key : PropertyKey; slot : Z; enumerable : bool; accessor : bool; writable : bool; configurable : bool
}.

Definition live (e : DictEntry) : bool := valid (key e).

Inductive IntegrityLevel := Open | Sealed | Frozen.

Record Dictionary := mkDict {
  entries : list DictEntry;
  freeSlots : list Z;
  nextSlot : Z;
  inlineSlots : Z;
  extensible : bool;
  level : IntegrityLevel;
  hardened : bool;
  index_ : list Z;
  used_ : Z;
  live_ : Z
}.

Definition with_entries (d : Dictionary) (es : list DictEntry) : Dictionary :=
  mkDict es (freeSlots d) (nextSlot d) (inlineSlots d) (extensible d) (level d) (hardened d) (index_ d) (used_ d) (live_ d).
Definition with_index (d : Dictionary) (ix : list Z) (used live : Z) : Dictionary :=
  mkDict (entries d) (freeSlots d) (nextSlot d) (inlineSlots d) (extensible d) (level d) (hardened d) ix used live.
Definition with_slots (d : Dictionary) (free : list Z) (next : Z) : Dictionary :=
  mkDict (entries d) free next (inlineSlots d) (extensible d) (level d) (hardened d) (index_ d) (used_ d) (live_ d).

Definition kMinIndexCapacity : Z := 8.
Definition kOverflowSlot : Z := 16.

(** [cap = 8; while (cap < live * 2 + 2) cap <<= 1;] *)
Definition capacityFor (live : Z) : Z := pow2_at_least (live * 2 + 2).

(** [Shape::placeSlot] *)
Definition placeSlot (next width inline : Z) : Z :=
  if (next <? kOverflowSlot) && (inline <? next + width) then kOverflowSlot else next.

Section Hash.
(** Where a symbol lies in the arena, which never moves. *)
Context (symbol_address : nat -> Z).

Definition hashKey (k : PropertyKey) : Z :=
  match k with
  | StringKey s => string_hash s
  | SymbolKey id =>
      let bits := u64 (symbol_address id) in
      let bits := Z.lxor bits (Z.shiftr bits 33) in
      let bits := u64 (bits * 0xff51afd7ed558ccd) in
      let bits := Z.lxor bits (Z.shiftr bits 33) in
      u32 bits
  | NoKey => 0
  end.

Definition entryAt (d : Dictionary) (pos : nat) : DictEntry :=
  default (mkEntry NoKey 0 true false true true) (entries d !! pos).

Definition find (d : Dictionary) (name : PropertyKey) : option nat :=
  if negb (valid name) || empty (index_ d) then None
  else
    let mask := Z.of_nat (length (index_ d)) - 1 in
    probe_find (S (length (index_ d)))
      (fun pos => live (entryAt d pos) && matches (key (entryAt d pos)) name)
      (index_ d) mask (Z.land (hashKey name) mask).

Definition insertIndex (d : Dictionary) (pos : nat) (hash : Z) : Dictionary :=
  let mask := Z.of_nat (length (index_ d)) - 1 in
  with_index d (probe_insert (S (length (index_ d))) pos (index_ d) mask (Z.land hash mask))
    (used_ d + 1) (live_ d).

Definition reindex (d : Dictionary) : Dictionary :=
  let live_count := Z.of_nat (length (List.filter live (entries d))) in
  let d := with_index d (replicate (Z.to_nat (capacityFor live_count)) 0) 0 live_count in
  for_up (length (entries d)) 0
    (fun pos d => if live (entryAt d pos) then insertIndex d pos (hashKey (key (entryAt d pos))) else d) d.

Definition compact (d : Dictionary) : Dictionary := reindex (with_entries d (List.filter live (entries d))).

Definition add (d : Dictionary) (stored : PropertyKey) (slot : Z)
    (enumerable accessor writable configurable : bool) : Dictionary :=
  let d := with_entries d (entries d ++ [mkEntry stored slot enumerable accessor writable configurable]) in
  let d := with_index d (index_ d) (used_ d) (live_ d + 1) in
  if empty (index_ d) || (Z.of_nat (length (index_ d)) * 3 <? (used_ d + 1) * 4) then reindex d
  else insertIndex d (length (entries d) - 1) (hashKey stored).

Definition remove (d : Dictionary) (name : PropertyKey) : Dictionary * bool :=
  match find d name with
  | None => (d, false)
  | Some pos =>
      let e := entryAt d pos in
      let d := if negb (accessor e) then with_slots d (freeSlots d ++ [slot e]) (nextSlot d) else d in
      let d := with_entries d
        (<[pos := mkEntry NoKey (slot e) (enumerable e) (accessor e) (writable e) (configurable e)]> (entries d)) in
      let d := with_index d (index_ d) (used_ d) (live_ d - 1) in
      (if (32 <? length (entries d))%nat && (live_ d * 2 <=? Z.of_nat (length (entries d)))
       then compact d else d, true)
  end.

Definition allocateSlots (d : Dictionary) (width : Z) : Dictionary * Z :=
  if (width =? 1) && negb (empty (freeSlots d)) then
    (with_slots d (take (length (freeSlots d) - 1) (freeSlots d)) (nextSlot d),
     (freeSlots d).[(length (freeSlots d) - 1)%nat])
  else
    let slot := placeSlot (nextSlot d) width (inlineSlots d) in
    (with_slots d (freeSlots d) (slot + width), slot).

Definition releaseMemory (d : Dictionary) : Dictionary :=
  mkDict [] [] (nextSlot d) (inlineSlots d) (extensible d) (level d) (hardened d) [] 0 0.

(** A dictionary-mode object: its table and the values in its slots. *)
Record ObjectHeader := mkObject { dict : Dictionary; slots : Z -> Value }.

Definition setSlot (o : ObjectHeader) (i : Z) (v : Value) : ObjectHeader :=
  mkObject (dict o) (fun j => if j =? i then v else slots o j).

Definition with_dict (o : ObjectHeader) (d : Dictionary) : ObjectHeader := mkObject d (slots o).

(** [dictDefine]: the object and [out_slot].  An existing property keeps its
    position; one that changes kind gets new storage. *)
Definition dictDefine (o : ObjectHeader) (name : PropertyKey) (enumerable accessor_ : bool)
    : ObjectHeader * Z :=
  let d := dict o in
  let clear o out := if accessor_ : bool then setSlot (setSlot o out VUndefined) (out + 1) VUndefined else o in
  match find d name with
  | Some pos =>
      let e := entryAt d pos in
      if Bool.eqb (accessor e) accessor_ then
        (with_dict o (with_entries d
           (<[pos := mkEntry (key e) (slot e) enumerable (accessor e) (writable e) (configurable e)]> (entries d))),
         slot e)
      else
        let d := if negb (accessor e) then with_slots d (freeSlots d ++ [slot e]) (nextSlot d) else d in
        let '(d, out) := allocateSlots d (if accessor_ then 2 else 1) in
        let d := with_entries d
          (<[pos := mkEntry (key e) out enumerable accessor_ (writable e) (configurable e)]> (entries d)) in
        (clear (with_dict o d) out, out)
  | None =>
      let '(d, out) := allocateSlots d (if accessor_ then 2 else 1) in
      let d := add d name out enumerable accessor_ true true in
      (clear (with_dict o d) out, out)
  end.

(** [deleteProperty] of an object already in dictionary mode: the answer of the
    [delete] operator. *)
Definition deleteProperty (o : ObjectHeader) (name : PropertyKey) : ObjectHeader * bool :=
  match find (dict o) name with
  | None => (o, true)
  | Some pos =>
      let info := entryAt (dict o) pos in
      if negb (configurable info) then (o, false)
      else
        let '(d, removed) := remove (dict o) name in
        let o := with_dict o d in
        if removed : bool then
          let o := setSlot o (slot info) VUndefined in
          (if accessor info then setSlot o (slot info + 1) VUndefined else o, true)
        else (o, false)
  end.
(** ** The table *)

Definition props (d : Dictionary) : list DictEntry := List.filter live (entries d).

(** Where the index must have an entry: the hash of its key, while it is live. *)
Definition home (d : Dictionary) (pos : nat) : option Z :=
  if live (entryAt d pos) then Some (hashKey (key (entryAt d pos))) else None.

(** At most three quarters of the cells are in use, and every live entry is on the
    chain of its key. *)
Definition index_ok (d : Dictionary) : Prop :=
  live_ d = Z.of_nat (length (props d)) /\ 0 <= used_ d /\
  if empty (index_ d) then props d = []
  else exists k, 3 <= k /\ used_ d * 4 <= 3 * 2 ^ k /\
    table_ok (index_ d) k (Z.to_nat (used_ d)) (length (entries d)) (home d).

Lemma entryAt_live d pos : live (entryAt d pos) = true -> entries d !! pos = Some (entryAt d pos).
Proof. unfold entryAt. by destruct (entries d !! pos). Qed.

Lemma entryAt_lt d pos : live (entryAt d pos) = true -> (pos < length (entries d))%nat.
Proof. intros H%entryAt_live. by apply lookup_lt_Some in H. Qed.

Lemma props_elem d e : In e (props d) <-> exists pos, entryAt d pos = e /\ live (entryAt d pos) = true.
Proof.
  unfold props. rewrite filter_In. split.
  - intros [Hin Hl]. apply list_elem_of_In, list_elem_of_lookup in Hin as [pos Hp].
    exists pos. unfold entryAt. by rewrite Hp.
  - intros (pos & <- & Hl). split; [|done]. apply entryAt_live in Hl.
    apply list_elem_of_In, list_elem_of_lookup. eauto.
Qed.

(** The list of the properties around one of them, and with its entry replaced. *)
Lemma props_split d pos : live (entryAt d pos) = true ->
  exists l1 l2, props d = l1 ++ entryAt d pos :: l2 /\
    forall e, List.filter live (<[pos := e]> (entries d)) = l1 ++ (if live e then [e] else []) ++ l2.
Proof.
  intros Hl. pose proof (entryAt_live d pos Hl) as He.
  exists (List.filter live (take pos (entries d))), (List.filter live (drop (S pos) (entries d))). split.
  - unfold props. rewrite <- (take_drop_middle _ _ _ He) at 1. rewrite List.filter_app. cbn [List.filter].
    by rewrite Hl.
  - intros e. rewrite insert_take_drop by (by apply lookup_lt_Some in He).
    rewrite List.filter_app. cbn [List.filter]. by destruct (live e).
Qed.

Lemma matches_spec a b : valid b = true -> matches a b = true <-> a = b.
Proof.
  intros Hb. unfold matches. rewrite Hb, andb_true_r, andb_true_iff, bool_decide_eq_true.
  split; [by intros [_ ?]|]. intros ->. done.
Qed.

(** [find] answers the live entry of the key, and nothing only when there is none. *)
Lemma dict_find_spec d name : valid name = true -> index_ok d ->
  match find d name with
  | Some pos => live (entryAt d pos) = true /\ key (entryAt d pos) = name
  | None => forall e, In e (props d) -> key e <> name
  end.
Proof.
  intros Hv (_ & Hu & Hi). unfold find. rewrite Hv. cbn [negb orb].
  destruct (empty (index_ d)); [by rewrite Hi|].
  destruct Hi as (k & Hk & Hload & Ht). rewrite (table_len _ _ _ _ _ Ht).
  pose proof (table_find _ _ _ _ _ (fun pos => live (entryAt d pos) && matches (key (entryAt d pos)) name)
    (hashKey name) (S (length (index_ d))) Ht ltac:(lia) ltac:(lia)) as H.
  destruct (probe_find _ _ _ _ _) as [pos|].
  - destruct H as [[Hl Hm]%andb_prop _]. by apply matches_spec in Hm.
  - intros e (pos & <- & Hl)%props_elem E. specialize (H pos). unfold home in H. rewrite Hl, E in H.
    specialize (H eq_refl). cbn [andb] in H.
    assert (matches name name = true) as Hm by (by apply matches_spec). by rewrite Hm in H.
Qed.

Lemma capacityFor_spec n : exists k, capacityFor n = 2 ^ k /\ 3 <= k /\ n * 2 + 2 <= 2 ^ k.
Proof.
  unfold capacityFor. destruct (pow2_at_least_spec (n * 2 + 2)) as (k & E & Hk & Hb).
  exists k. by rewrite E in *.
Qed.

(** The fields the index operations leave alone. *)
Definition same_table (d d' : Dictionary) : Prop :=
  entries d' = entries d /\ freeSlots d' = freeSlots d /\ nextSlot d' = nextSlot d /\
  inlineSlots d' = inlineSlots d /\ extensible d' = extensible d /\ level d' = level d /\
  hardened d' = hardened d.

Lemma same_table_entryAt d d' pos : same_table d d' -> entryAt d' pos = entryAt d pos.
Proof. intros [E _]. unfold entryAt. by rewrite E. Qed.

Lemma insertIndex_ok d pos k bound (h : nat -> option Z) :
  0 <= used_ d -> used_ d < 2 ^ k -> (pos < bound)%nat ->
  table_ok (index_ d) k (Z.to_nat (used_ d)) bound h ->
  let d' := insertIndex d pos (hashKey (key (entryAt d pos))) in
  same_table d d' /\ used_ d' = used_ d + 1 /\ live_ d' = live_ d /\
  table_ok (index_ d') k (Z.to_nat (used_ d')) bound
    (fun s => if decide (s = pos) then Some (hashKey (key (entryAt d pos))) else h s).
Proof.
  intros Hu Hk Hp Ht. unfold insertIndex. cbn [with_index index_ used_ live_].
  rewrite (table_len _ _ _ _ _ Ht). split_and!; [done|done|done|].
  replace (Z.to_nat (used_ d + 1)) with (S (Z.to_nat (used_ d))) by lia.
  apply table_insert; [done|lia|done|lia].
Qed.

(** The loop of [reindex], up to position [i]. *)
Definition reindexing (d0 : Dictionary) (k : Z) (i : nat) (d : Dictionary) : Prop :=
  same_table d0 d /\ live_ d = Z.of_nat (length (props d0)) /\
  used_ d = Z.of_nat (length (List.filter live (take i (entries d0)))) /\
  table_ok (index_ d) k (Z.to_nat (used_ d)) (length (entries d0))
    (fun pos => if (pos <? i)%nat then home d0 pos else None).

Lemma filter_length_take (d : Dictionary) i :
  (length (List.filter live (take i (entries d))) <= length (props d))%nat.
Proof.
  unfold props. rewrite <- (take_drop i (entries d)) at 2. rewrite List.filter_app, length_app. lia.
Qed.

Lemma dict_reindex_spec d : same_table d (reindex d) /\ index_ok (reindex d).
Proof.
  unfold reindex. fold (props d).
  destruct (capacityFor_spec (Z.of_nat (length (props d)))) as (k & -> & Hk & Hcap).
  set (d0 := with_index d _ _ _).
  assert (reindexing d k (0 + length (entries d0)) (for_up (length (entries d0)) 0
    (fun pos d => if live (entryAt d pos) then insertIndex d pos (hashKey (key (entryAt d pos))) else d) d0))
    as (Hs & Hl & Hu & Ht).
  { apply (for_up_inv (reindexing d k)).
    - split_and!; try done. eapply table_weaken; [apply (table_empty k 0); lia|done|lia|]. by intros s h.
    - intros i d' Hi (Hs & Hl & Hu & Ht). change (entries d0) with (entries d) in Hi.
      pose proof (filter_length_take d (S i)) as Hle.
      rewrite (take_S_r _ _ (entryAt d i)) in Hle by
        (unfold entryAt; by destruct (lookup_lt_is_Some_2 (entries d) i ltac:(lia)) as [? ->]).
      rewrite List.filter_app in Hle. cbn [List.filter] in Hle.
      rewrite (same_table_entryAt d d') by done.
      destruct (live (entryAt d i)) eqn:El.
      + rewrite length_app in Hle. cbn [length] in Hle.
        pose proof (insertIndex_ok d' i k (length (entries d)) _ ltac:(lia) ltac:(lia) ltac:(lia) Ht) as H.
        rewrite (same_table_entryAt d d') in H by done. destruct H as (Hs' & Hu' & Hl' & Ht').
        split_and!.
        * destruct Hs as (? & ? & ? & ? & ? & ? & ?), Hs' as (? & ? & ? & ? & ? & ? & ?).
          split_and!; congruence.
        * congruence.
        * rewrite Hu', Hu, (take_S_r _ _ (entryAt d i)) by (by apply entryAt_live).
          rewrite List.filter_app. cbn [List.filter]. rewrite El, length_app. cbn [length]. lia.
        * eapply table_weaken; [exact Ht'|done|done|]. intros s h.
          destruct (Nat.eq_dec s i) as [->|Hne].
          { rewrite decide_True by done. unfold home. rewrite El. by destruct (i <? S i)%nat. }
          rewrite decide_False by done.
          destruct (Nat.ltb_spec s (S i)); [|done]. by rewrite (proj2 (Nat.ltb_lt s i)) by lia.
      + split_and!; try done.
        * rewrite Hu, (take_S_r _ _ (entryAt d i)) by
            (unfold entryAt; by destruct (lookup_lt_is_Some_2 (entries d) i ltac:(lia)) as [? ->]).
          rewrite List.filter_app. cbn [List.filter]. by rewrite El, app_nil_r.
        * eapply table_weaken; [exact Ht|done|done|]. intros s h.
          destruct (Nat.eq_dec s i) as [->|Hne].
          { unfold home. rewrite El. by destruct (i <? S i)%nat. }
          destruct (Nat.ltb_spec s (S i)); [|done]. by rewrite (proj2 (Nat.ltb_lt s i)) by lia. }
  change (entries d0) with (entries d) in Hs, Hl, Hu, Ht |- *. cbn [Nat.add] in Hu, Ht.
  destruct (for_up _ _ _ _) as [es fs ns il ex lv hd ix us li]. destruct Hs as (E & ?). cbn in E. subst es.
  cbn [live_ used_ index_] in Hl, Hu, Ht.
  split; [done|]. rewrite firstn_all in Hu. fold (props d) in Hu.
  unfold index_ok. cbn [live_ used_ index_].
  pose proof (table_len _ _ _ _ _ Ht) as El.
  replace (props (mkDict (entries d) fs ns il ex lv hd ix us li)) with (props d) by done.
  split_and!; [done|lia|].
  destruct ix as [|c ix]; [cbn in El; pose proof (Z.pow_pos_nonneg 2 k ltac:(lia) ltac:(lia)); lia|].
  cbn [empty]. exists k. split_and!; [done|lia|].
  eapply table_weaken; [exact Ht|done|done|]. intros s h Hh. cbn [entries].
  replace (home (mkDict (entries d) fs ns il ex lv hd (c :: ix) us li) s) with (home d s) in Hh by done.
  rewrite (proj2 (Nat.ltb_lt s _)); [done|]. apply entryAt_lt. unfold home in Hh.
  by destruct (live (entryAt d s)).
Qed.

(** ** Editing one entry *)

Lemma entryAt_insert d pos e s : (pos < length (entries d))%nat ->
  entryAt (with_entries d (<[pos := e]> (entries d))) s = if (s =? pos)%nat then e else entryAt d s.
Proof.
  intros Hp. unfold entryAt. cbn [with_entries entries]. destruct (Nat.eqb_spec s pos) as [->|Hne].
  - by rewrite list_lookup_insert_eq.
  - by rewrite list_lookup_insert_ne by done.
Qed.

(** Replacing a live entry by one that has its key, or by a tombstone, keeps the
    index right once [live_] counts it. *)
Lemma edit_index_ok d pos e (n : Z) :
  index_ok d -> live (entryAt d pos) = true ->
  (if live e then key e = key (entryAt d pos) /\ n = live_ d else n = live_ d - 1) ->
  index_ok (with_index (with_entries d (<[pos := e]> (entries d))) (index_ d) (used_ d) n).
Proof.
  intros (Hl & Hu & Hi) He Hn. pose proof (entryAt_lt d pos He) as Hp.
  destruct (props_split d pos He) as (l1 & l2 & E & E').
  unfold index_ok. cbn [with_index with_entries live_ used_ index_ entries].
  assert (props (with_index (with_entries d (<[pos:=e]> (entries d))) (index_ d) (used_ d) n)
    = l1 ++ (if live e then [e] else []) ++ l2) as Ep by apply E'.
  rewrite Ep. rewrite E in Hl, Hi. rewrite !length_app in *. cbn [length] in *.
  split_and!; [destruct (live e); cbn [length]; lia|done|].
  destruct (empty (index_ d)); [by destruct l1|].
  destruct Hi as (k & Hk & Hload & Ht). exists k. split_and!; [done|done|].
  rewrite length_insert. eapply table_weaken; [exact Ht|done|done|].
  intros s h. unfold home.
  change (entryAt (with_index ?d _ _ _)) with (entryAt d). rewrite entryAt_insert by done.
  destruct (Nat.eqb_spec s pos) as [->|]; [|done].
  destruct (live e); [|done]. destruct Hn as [-> _]. by rewrite He.
Qed.

Lemma index_ok_ext d d' :
  entries d' = entries d -> index_ d' = index_ d -> used_ d' = used_ d -> live_ d' = live_ d ->
  index_ok d -> index_ok d'.
Proof.
  intros E1 E2 E3 E4 (Hl & Hu & Hi). unfold index_ok, props in *.
  rewrite E1, E2, E3, E4. split_and!; [done|done|]. destruct (empty (index_ d)); [done|].
  destruct Hi as (k & Hk & Hload & Ht). exists k. split_and!; [done|done|].
  eapply table_weaken; [exact Ht|done|done|]. intros s h. unfold home, entryAt. by rewrite E1.
Qed.

Lemma dict_add_spec d name slot en acc w c :
  valid name = true -> index_ok d ->
  let d' := add d name slot en acc w c in
  index_ok d' /\ same_table (with_entries d (entries d ++ [mkEntry name slot en acc w c])) d'.
Proof.
  intros Hv (Hl & Hu & Hi). unfold add. set (e := mkEntry name slot en acc w c).
  set (d1 := with_index (with_entries d (entries d ++ [e])) _ _ _).
  change (index_ d1) with (index_ d). change (used_ d1) with (used_ d).
  assert (props d1 = props d ++ [e]) as Ep.
  { unfold props. cbn [d1 with_index with_entries entries]. rewrite List.filter_app. cbn [List.filter].
    assert (live e = true) as -> by exact Hv. done. }
  assert (entryAt d1 (length (entries d)) = e) as Ee.
  { unfold entryAt. cbn [d1 with_index with_entries entries]. by rewrite list_lookup_middle. }
  destruct (empty (index_ d)) eqn:Em; cbn [orb].
  { destruct (dict_reindex_spec d1) as [Hs Hok]. split; [done|exact Hs]. }
  destruct (Z.ltb_spec (Z.of_nat (length (index_ d)) * 3) ((used_ d + 1) * 4)) as [Hload'|Hload'].
  { destruct (dict_reindex_spec d1) as [Hs Hok]. split; [done|exact Hs]. }
  destruct Hi as (k & Hk & Hload & Ht). rewrite (table_len _ _ _ _ _ Ht) in Hload'.
  cbn [d1 with_index with_entries entries]. rewrite length_app. cbn [length].
  replace (length (entries d) + 1 - 1)%nat with (length (entries d)) by lia.
  pose proof (insertIndex_ok d1 (length (entries d)) k (length (entries d) + 1) (home d)
    ltac:(done) ltac:(cbn; lia) ltac:(lia)) as H.
  rewrite Ee in H. cbn [key e] in H.
  destruct H as (Hs & Hu' & Hl' & Ht').
  { eapply table_weaken; [exact Ht|done|lia|done]. }
  split; [|exact Hs]. unfold index_ok. rewrite Hu', Hl'.
  change (insertIndex d1 _ _) with (insertIndex d1 (length (entries d)) (hashKey name)) in *.
  destruct Hs as [Es Hs].
  assert (props (insertIndex d1 (length (entries d)) (hashKey name)) = props d1) as -> by (unfold props; by rewrite Es).
  rewrite Ep, length_app. cbn [length]. cbn [d1 with_index with_entries live_ used_].
  split_and!; [lia|lia|]. pose proof (table_len _ _ _ _ _ Ht') as El.
  destruct (index_ (insertIndex d1 _ _)) as [|x ix] eqn:Ex; cbn [empty].
  { cbn in El. pose proof (Z.pow_pos_nonneg 2 k ltac:(lia) ltac:(lia)). lia. }
  exists k. split_and!; [done|lia|]. rewrite Es. cbn [d1 with_index with_entries entries]. rewrite length_app.
  cbn [length]. rewrite Hu' in Ht'. eapply table_weaken; [exact Ht'|done|done|].
  intros s h. unfold home.
  assert (entryAt (insertIndex d1 (length (entries d)) (hashKey name)) s = entryAt d1 s) as ->
    by (unfold entryAt; by rewrite Es).
  destruct (Nat.eq_dec s (length (entries d))) as [->|Hne].
  { rewrite decide_True by done. rewrite Ee. assert (live e = true) as -> by exact Hv. done. }
  rewrite decide_False by done. unfold entryAt at 1 2. cbn [d1 with_index with_entries entries].
  destruct (Nat.lt_ge_cases s (length (entries d))).
  - rewrite lookup_app_l by done. done.
  - rewrite lookup_ge_None_2 by (rewrite length_app; cbn; lia). done.
Qed.

(** ** The slots *)

(** A data property has one slot, an accessor two adjacent ones. *)
Definition own_slots (e : DictEntry) : list Z := if accessor e then [slot e; slot e + 1] else [slot e].
Definition slots_of (es : list DictEntry) : list Z := concat (map own_slots es).
Definition taken (d : Dictionary) : list Z := slots_of (props d) ++ freeSlots d.

(** A slot number stands for storage the object has: an inline one or one past the
    split. *)
Definition slot_valid (d : Dictionary) (s : Z) : Prop :=
  0 <= s < nextSlot d /\ (s < inlineSlots d \/ kOverflowSlot <= s).

(** No slot is held twice, whether by a property, by the free list or in [hand]. *)
Record slots_ok (hand : list Z) (d : Dictionary) : Prop := {
  slots_next : 0 <= nextSlot d;
  slots_distinct : NoDup (hand ++ taken d);
  slots_valid : Forall (slot_valid d) (hand ++ taken d)
}.

Record dict_ok (d : Dictionary) : Prop := {
  ok_index : index_ok d;
  ok_slots : slots_ok [] d;
  ok_names : NoDup (map key (props d));
  ok_bounded : Z.of_nat (length (entries d)) <= 2 * live_ d + 32
}.

Lemma slots_of_app l1 l2 : slots_of (l1 ++ l2) = slots_of l1 ++ slots_of l2.
Proof. unfold slots_of. by rewrite map_app, concat_app. Qed.

Lemma slots_of_cons e l : slots_of (e :: l) = own_slots e ++ slots_of l.
Proof. done. Qed.

(** Only the set of slots in use, the free list and the marks matter. *)
Lemma slots_ok_perm hand hand' d d' :
  slots_ok hand d -> hand ++ taken d ≡ₚ hand' ++ taken d' ->
  nextSlot d' = nextSlot d -> inlineSlots d' = inlineSlots d -> slots_ok hand' d'.
Proof.
  intros [Hn Hd Hv] Hp E1 E2. constructor.
  - by rewrite E1.
  - by rewrite <- Hp.
  - rewrite <- Hp. unfold slot_valid in *. by rewrite E1, E2.
Qed.

(** Dropping slots from use: a pair is leaked, never handed out again. *)
Lemma slots_ok_drop hand l d d' :
  slots_ok hand d -> hand ++ taken d ≡ₚ l ++ taken d' ->
  nextSlot d' = nextSlot d -> inlineSlots d' = inlineSlots d -> slots_ok [] d'.
Proof.
  intros [Hn Hd Hv] Hp E1 E2. constructor.
  - by rewrite E1.
  - rewrite Hp in Hd. by apply NoDup_app in Hd as (_ & _ & ?).
  - rewrite Hp in Hv. apply Forall_app in Hv as [_ Hv]. cbn [app]. unfold slot_valid in *. by rewrite E1, E2.
Qed.

(** The allocator hands out slots nothing else holds. *)
Lemma allocateSlots_spec d accessor_ :
  slots_ok [] d ->
  let '(d', out) := allocateSlots d (if accessor_ : bool then 2 else 1) in
  slots_ok (if accessor_ then [out; out + 1] else [out]) d' /\
  entries d' = entries d /\ index_ d' = index_ d /\ used_ d' = used_ d /\ live_ d' = live_ d /\
  props d' = props d.
Proof.
  intros Hs. unfold allocateSlots.
  destruct (((if accessor_ then 2 else 1) =? 1) && negb (empty (freeSlots d))) eqn:E.
  - apply andb_prop in E as [Ea Ef]. destruct accessor_; [done|].
    split; [|done].
    destruct (freeSlots d) as [|x l _] eqn:El using rev_ind; [done|].
    rewrite length_app. cbn [length]. replace (length l + 1 - 1)%nat with (length l) by lia.
    rewrite take_app_length. unfold limb. rewrite list_lookup_middle by done. cbn [default].
    eapply slots_ok_perm; [exact Hs| |done|done]. unfold taken, props.
    cbn [with_slots entries freeSlots]. rewrite El. cbn [app].
    by rewrite app_assoc, <- Permutation_cons_append.
  - clear E. destruct Hs as [Hn Hd Hv]. cbn [app] in *.
    set (w := if accessor_ then 2 else 1). assert (1 <= w <= 2) as Hw by (unfold w; by destruct accessor_).
    set (out := placeSlot (nextSlot d) w (inlineSlots d)).
    assert (nextSlot d <= out /\ (kOverflowSlot <= out \/ out + w <= inlineSlots d)) as [Ho1 Ho2].
    { unfold out, placeSlot, kOverflowSlot. zbool; cbn [andb]; lia. }
    split; [|done]. change (taken (with_slots d (freeSlots d) (out + w))) with (taken d).
    assert (forall s, slot_valid d s -> s < out) as Hlt by (unfold slot_valid; lia).
    assert (Forall (slot_valid (with_slots d (freeSlots d) (out + w))) (taken d)) as Hv'.
    { eapply Forall_impl; [exact Hv|]. unfold slot_valid. cbn [with_slots nextSlot inlineSlots]. lia. }
    rewrite Forall_forall in Hv.
    assert (forall s, out <= s -> s ∉ taken d) as Hfresh.
    { intros s Hle Hin. specialize (Hlt s (Hv s Hin)). lia. }
    constructor.
    + cbn. lia.
    + unfold w in *. destruct accessor_; cbn [app]; rewrite ?NoDup_cons; split_and!;
        rewrite ?elem_of_cons; auto with lia.
      intros [?|Hin]; [lia|]. by apply (Hfresh out).
    + unfold w in *. destruct accessor_; cbn [app]; rewrite ?Forall_cons; split_and!;
        try done; unfold slot_valid; cbn [with_slots nextSlot inlineSlots]; lia.
Qed.

(** ** Objects *)

(** What a program sees of an own property: its attributes and its value, or its
    getter and setter. *)
Record Property := mkProperty {
  pname : PropertyKey; penumerable : bool; paccessor : bool; pwritable : bool; pconfigurable : bool;
  pvalues : list Value
}.

Definition view (o : ObjectHeader) (e : DictEntry) : Property :=
  mkProperty (key e) (enumerable e) (accessor e) (writable e) (configurable e) (map (slots o) (own_slots e)).

(** The ordered property list. *)
Definition own (o : ObjectHeader) : list Property := map (view o) (props (dict o)).

Definition named (name : PropertyKey) (p : Property) : bool := bool_decide (pname p = name).

Fixpoint define_property (name : PropertyKey) (en acc : bool) (vals : list Value) (l : list Property)
    : list Property :=
  match l with
  | [] => [mkProperty name en acc true true vals]
  | p :: l => if named name p then mkProperty name en acc (pwritable p) (pconfigurable p) vals :: l
              else p :: define_property name en acc vals l
  end.

Definition delete_property (name : PropertyKey) (l : list Property) : list Property :=
  List.filter (fun p => negb (named name p)) l.

(** The stores a definition is followed by: the value, or getter and setter. *)
Fixpoint put (o : ObjectHeader) (s : Z) (vals : list Value) : ObjectHeader :=
  match vals with [] => o | v :: vals => put (setSlot o s v) (s + 1) vals end.

Lemma named_false name p : named name p = false <-> pname p <> name.
Proof. unfold named. by rewrite bool_decide_eq_false. Qed.

Lemma define_property_mid name en acc vals p l1 l2 :
  pname p = name -> (forall q, In q l1 -> pname q <> name) ->
  define_property name en acc vals (l1 ++ p :: l2)
  = l1 ++ mkProperty name en acc (pwritable p) (pconfigurable p) vals :: l2.
Proof.
  intros Hp. induction l1 as [|q l1 IH]; intros H; cbn [app define_property].
  - unfold named. by rewrite bool_decide_eq_true_2.
  - rewrite (proj2 (named_false name q)) by (apply H; by left). f_equal. apply IH.
    intros r Hr. apply H. by right.
Qed.

Lemma define_property_fresh name en acc vals l :
  (forall q, In q l -> pname q <> name) ->
  define_property name en acc vals l = l ++ [mkProperty name en acc true true vals].
Proof.
  induction l as [|q l IH]; intros H; cbn [app define_property]; [done|].
  rewrite (proj2 (named_false name q)) by (apply H; by left). f_equal. apply IH.
  intros r Hr. apply H. by right.
Qed.

Lemma find_property_mid name p l1 l2 :
  pname p = name -> (forall q, In q l1 -> pname q <> name) ->
  List.find (named name) (l1 ++ p :: l2) = Some p.
Proof.
  intros Hp. induction l1 as [|q l1 IH]; intros H; cbn [app List.find].
  - unfold named. by rewrite bool_decide_eq_true_2.
  - rewrite (proj2 (named_false name q)) by (apply H; by left). apply IH.
    intros r Hr. apply H. by right.
Qed.

Lemma find_property_none name l :
  (forall q, In q l -> pname q <> name) -> List.find (named name) l = None.
Proof.
  induction l as [|q l IH]; intros H; cbn [List.find]; [done|].
  rewrite (proj2 (named_false name q)) by (apply H; by left). apply IH.
  intros r Hr. apply H. by right.
Qed.

Lemma delete_property_none name l :
  (forall q, In q l -> pname q <> name) -> delete_property name l = l.
Proof.
  unfold delete_property. induction l as [|q l IH]; intros H; cbn [List.filter]; [done|].
  rewrite (proj2 (named_false name q)) by (apply H; by left). cbn [negb]. f_equal. apply IH.
  intros r Hr. apply H. by right.
Qed.

(** The property list around a property that is there: no other has its name. *)
Lemma own_split o pos :
  NoDup (map key (props (dict o))) -> live (entryAt (dict o) pos) = true ->
  exists l1 l2, let name := key (entryAt (dict o) pos) in
    props (dict o) = l1 ++ entryAt (dict o) pos :: l2 /\
    own o = map (view o) l1 ++ view o (entryAt (dict o) pos) :: map (view o) l2 /\
    (forall q, In q (map (view o) l1) \/ In q (map (view o) l2) -> pname q <> name) /\
    (forall e, List.filter live (<[pos := e]> (entries (dict o))) = l1 ++ (if live e then [e] else []) ++ l2).
Proof.
  intros Hd Hl. destruct (props_split _ _ Hl) as (l1 & l2 & E & E'). exists l1, l2.
  split_and!; [done|by unfold own; rewrite E, map_app| |done].
  rewrite E, map_app in Hd. cbn [map] in Hd. apply NoDup_app in Hd as (_ & H1 & H2%NoDup_cons).
  destruct H2 as [H2 _].
  intros q [Hq|Hq] Eq; apply in_map_iff in Hq as (e & <- & He); cbn [view pname] in Eq.
  - apply (H1 (key e)); [by apply list_elem_of_In, in_map|]. rewrite Eq. left.
  - apply H2. rewrite <- Eq. by apply list_elem_of_In, in_map.
Qed.

Lemma view_ext o o' e :
  (forall s, In s (own_slots e) -> slots o' s = slots o s) -> view o' e = view o e.
Proof. intros H. unfold view. f_equal. by apply map_ext_in. Qed.

Lemma views_ext o o' es :
  (forall s, In s (slots_of es) -> slots o' s = slots o s) -> map (view o') es = map (view o) es.
Proof.
  intros H. apply map_ext_in. intros e He. apply view_ext. intros s Hs. apply H.
  unfold slots_of. apply in_concat. exists (own_slots e). split; [by apply in_map|done].
Qed.

(** A store into the slots of one property leaves every other property as it was. *)
Lemma own_replace o o' l1 l2 e :
  props (dict o') = l1 ++ e :: l2 -> slots_ok [] (dict o') ->
  (forall s, ~ In s (own_slots e) -> slots o' s = slots o s) ->
  own o' = map (view o) l1 ++ view o' e :: map (view o) l2.
Proof.
  intros E [_ Hd _] Hs. unfold own. rewrite E, map_app. cbn [map].
  unfold taken in Hd. rewrite E, slots_of_app, slots_of_cons in Hd. cbn [app] in Hd.
  rewrite <- app_assoc, <- app_assoc in Hd. apply NoDup_app in Hd as (_ & H1 & Hd).
  apply NoDup_app in Hd as (_ & H2 & _).
  f_equal; [|f_equal]; apply views_ext; intros s Hin; apply Hs; intros Hin'; rewrite <- list_elem_of_In in *.
  - apply (H1 s Hin). apply elem_of_app. by left.
  - apply (H2 s Hin'). apply elem_of_app. by left.
Qed.

Lemma put_dict o s vals : dict (put o s vals) = dict o.
Proof. revert o s. induction vals as [|v vals IH]; intros o s; [done|]. cbn [put]. by rewrite IH. Qed.

Lemma put_spec o e vals :
  length vals = length (own_slots e) ->
  map (slots (put o (slot e) vals)) (own_slots e) = vals /\
  forall s, ~ In s (own_slots e) -> slots (put o (slot e) vals) s = slots o s.
Proof.
  unfold own_slots. destruct (accessor e), vals as [|v [|w [|]]]; try done; intros _;
    cbn [put setSlot slots dict map]; split.
  - rewrite !Z.eqb_refl. destruct (Z.eqb_spec (slot e) (slot e + 1)); [lia|done].
  - intros s Hs. destruct (Z.eqb_spec s (slot e + 1)), (Z.eqb_spec s (slot e)); subst; cbn in Hs; tauto.
  - by rewrite Z.eqb_refl.
  - intros s Hs. destruct (Z.eqb_spec s (slot e)); subst; cbn in Hs; tauto.
Qed.

Lemma allocateSlots_entries d es w :
  allocateSlots (with_entries d es) w = (with_entries (fst (allocateSlots d w)) es, snd (allocateSlots d w)).
Proof.
  unfold allocateSlots. cbn [with_entries freeSlots nextSlot inlineSlots].
  by destruct ((w =? 1) && negb (empty (freeSlots d))).
Qed.

(** The entry at [pos] leaves the list: its slots go free or are leaked. *)
Lemma release_slots_ok d pos e0 :
  slots_ok [] d -> live (entryAt d pos) = true -> live e0 = false ->
  let e := entryAt d pos in
  slots_ok [] (with_entries (if negb (accessor e) then with_slots d (freeSlots d ++ [slot e]) (nextSlot d) else d)
                 (<[pos := e0]> (entries d))).
Proof.
  intros Hs Hl He0 e. destruct (props_split d pos Hl) as (l1 & l2 & E & E').
  set (d' := with_entries _ _). assert (props d' = l1 ++ l2) as Ep.
  { unfold props. cbn [d' with_entries entries]. rewrite E', He0. done. }
  assert (nextSlot d' = nextSlot d /\ inlineSlots d' = inlineSlots d /\
    freeSlots d' = if accessor e then freeSlots d else freeSlots d ++ [slot e]) as (En & Ei & Ef)
    by (unfold d'; by destruct (accessor e)).
  destruct (accessor e) eqn:Ea.
  - eapply (slots_ok_drop [] (own_slots e)); [exact Hs| |done|done].
    unfold taken. rewrite Ep, E, Ef, !slots_of_app, slots_of_cons. cbn [app]. fold e. by solve_Permutation.
  - eapply slots_ok_perm; [exact Hs| |done|done].
    unfold taken. rewrite Ep, E, Ef, !slots_of_app, slots_of_cons. cbn [app]. fold e.
    unfold own_slots. rewrite Ea. by solve_Permutation.
Qed.

(** Editing a live entry in place, its key kept, once its slots are right. *)
Lemma edit_dict_ok d d' pos e :
  dict_ok d -> live (entryAt d pos) = true -> key e = key (entryAt d pos) ->
  entries d' = <[pos := e]> (entries d) -> index_ d' = index_ d -> used_ d' = used_ d -> live_ d' = live_ d ->
  slots_ok [] d' -> dict_ok d'.
Proof.
  intros [Hi Hs Hn Hb] Hl Hk E1 E2 E3 E4 Hs'.
  assert (live e = true) as Hle by (unfold live in *; by rewrite Hk).
  destruct (props_split d pos Hl) as (l1 & l2 & E & E'). constructor.
  - eapply index_ok_ext; [| | | |apply (edit_index_ok d pos e (live_ d) Hi Hl)]; try done. by rewrite Hle.
  - done.
  - unfold props. rewrite E1, E', Hle. rewrite E in Hn.
    rewrite !map_app in *. cbn [map app] in *. by rewrite Hk.
  - by rewrite E1, length_insert, E4.
Qed.

(** What a definition leaves behind: the property [e] among the others, in the
    place it had or at the end. *)
Record defined (o o' : ObjectHeader) (name : PropertyKey) (en acc : bool) (l1 l2 : list DictEntry) (e : DictEntry)
    : Prop := {
  def_ok : dict_ok (dict o');
  def_props : props (dict o') = l1 ++ e :: l2;
  def_entry : key e = name /\ enumerable e = en /\ accessor e = acc;
  def_slots : forall s, ~ In s (own_slots e) -> slots o' s = slots o s;
  def_before : forall q, In q (map (view o) l1) -> pname q <> name
}.

Definition fresh_pair (o' : ObjectHeader) (e : DictEntry) : Prop :=
  accessor e = true -> map (slots o') (own_slots e) = [VUndefined; VUndefined].

Lemma cleared_pair o e :
  let o' := if accessor e then setSlot (setSlot o (slot e) VUndefined) (slot e + 1) VUndefined else o in
  fresh_pair o' e /\ dict o' = dict o /\ forall s, ~ In s (own_slots e) -> slots o' s = slots o s.
Proof.
  cbv zeta. pose proof (put_spec o e [VUndefined; VUndefined]) as H. unfold fresh_pair.
  destruct (accessor e) eqn:Ea; [|done]. unfold own_slots in *. rewrite Ea in *.
  destruct (H eq_refl) as [H1 H2]. done.
Qed.

Lemma dictDefine_existing o name en acc pos :
  dict_ok (dict o) -> valid name = true -> find (dict o) name = Some pos ->
  let '(o', out) := dictDefine o name en acc in
  let e0 := entryAt (dict o) pos in
  exists l1 l2 e, defined o o' name en acc l1 l2 e /\ slot e = out /\
    own o = map (view o) l1 ++ view o e0 :: map (view o) l2 /\ key e0 = name /\
    writable e = writable e0 /\ configurable e = configurable e0 /\
    (accessor e0 = acc -> slot e = slot e0 /\ slots o' = slots o) /\
    (accessor e0 <> acc -> fresh_pair o' e).
Proof.
  intros Hok Hv Ef. pose proof (dict_find_spec _ _ Hv (ok_index _ Hok)) as Hf. rewrite Ef in Hf.
  destruct Hf as [Hl Hk]. destruct (own_split o pos (ok_names _ Hok) Hl) as (l1 & l2 & E & Eo & Hne & E').
  rewrite Hk in Hne. unfold dictDefine. rewrite Ef. set (e0 := entryAt (dict o) pos) in *.
  destruct (Bool.eqb (accessor e0) acc) eqn:Ea.
  - apply eqb_prop in Ea. set (e := mkEntry _ _ _ _ _ _). exists l1, l2, e.
    split_and!; [|done..]. assert (live e = true) as Hle by exact Hl.
    assert (props (dict (with_dict o (with_entries (dict o) (<[pos:=e]> (entries (dict o)))))) = l1 ++ e :: l2) as Ep.
    { unfold props. cbn. by rewrite E', Hle. }
    constructor; [|exact Ep|by split_and!|done|by intros q Hq; apply Hne; left].
    eapply (edit_dict_ok (dict o) _ pos e); try done. eapply slots_ok_perm; [apply (ok_slots _ Hok)| |done|done].
    unfold taken. rewrite Ep, E, !slots_of_app, !slots_of_cons. done.
  - assert (accessor e0 <> acc) as Ea' by (intros <-; by rewrite eqb_reflx in Ea). clear Ea.
    set (d1 := if negb (accessor e0) then _ else dict o).
    set (tomb := mkEntry NoKey 0 true false true true).
    pose proof (release_slots_ok (dict o) pos tomb (ok_slots _ Hok) Hl eq_refl) as Hs1. cbv zeta in Hs1. fold e0 in Hs1. fold d1 in Hs1.
    pose proof (allocateSlots_spec _ acc Hs1) as Ha. rewrite allocateSlots_entries in Ha.
    assert (entries d1 = entries (dict o) /\ index_ d1 = index_ (dict o) /\ used_ d1 = used_ (dict o) /\
      live_ d1 = live_ (dict o)) as (Ee1 & Ei1 & Eu1 & El1) by (unfold d1; by destruct (accessor e0)).
    destruct (allocateSlots d1 (if acc then 2 else 1)) as [d2 out] eqn:Eal. cbn [fst snd] in Ha.
    destruct Ha as (Hs2 & _ & Ei2 & Eu2 & El2 & Ep2).
    assert (entries d2 = entries d1) as Ee2.
    { unfold allocateSlots in Eal. destruct (_ && _); by injection Eal as <- _. }
    cbn [with_entries index_ used_ live_] in Ei2, Eu2, El2. rewrite Ee2, Ee1.
    set (e := mkEntry (key e0) out en acc (writable e0) (configurable e0)).
    assert (live e = true) as Hle by exact Hl.
    destruct (cleared_pair (with_dict o (with_entries d2 (<[pos:=e]> (entries (dict o))))) e) as (Hc & Hd & Hcs).
    cbn [e accessor slot] in Hc, Hd, Hcs. fold e in Hc, Hd, Hcs.
    exists l1, l2, e. split_and!; try done.
    assert (props (with_entries d2 (<[pos:=e]> (entries (dict o)))) = l1 ++ e :: l2) as Ep.
    { unfold props. cbn. by rewrite E', Hle. }
    constructor; try (rewrite Hd; cbn [with_dict dict]); [|exact Ep|by split_and!|exact Hcs|by intros q Hq; apply Hne; left].
    apply (edit_dict_ok (dict o) _ pos e); try done; cbn [with_entries index_ used_ live_]; try congruence.
    eapply slots_ok_perm; [exact Hs2| |done|done].
    unfold taken. rewrite Ep. unfold props. cbn [with_entries entries freeSlots]. rewrite E'.
    change (live tomb) with false. rewrite !slots_of_app, slots_of_cons. cbn [app].
    change (own_slots e) with (if acc then [out; out + 1] else [out]). cbn [slots_of map concat app].
    destruct acc; cbn [app]; by solve_Permutation.
Qed.

Lemma dictDefine_fresh o name en acc :
  dict_ok (dict o) -> valid name = true -> find (dict o) name = None ->
  let '(o', out) := dictDefine o name en acc in
  exists e, defined o o' name en acc (props (dict o)) [] e /\ slot e = out /\
    writable e = true /\ configurable e = true /\ fresh_pair o' e.
Proof.
  intros Hok Hv Ef. pose proof (dict_find_spec _ _ Hv (ok_index _ Hok)) as Hf. rewrite Ef in Hf.
  unfold dictDefine. rewrite Ef.
  pose proof (allocateSlots_spec _ acc (ok_slots _ Hok)) as Ha.
  destruct (allocateSlots (dict o) (if acc then 2 else 1)) as [d1 out].
  destruct Ha as (Hs1 & Ee1 & Ei1 & Eu1 & El1 & Ep1).
  assert (index_ok d1) as Hi1 by (by apply (index_ok_ext (dict o)), Hok).
  destruct (dict_add_spec d1 name out en acc true true Hv Hi1) as [Hi2 Hsame].
  set (e := mkEntry name out en acc true true) in *. set (d2 := add d1 name out en acc true true) in *.
  destruct (cleared_pair (with_dict o d2) e) as (Hc & Hd & Hcs).
  cbn [e accessor slot] in Hc, Hd, Hcs. fold e in Hc, Hd, Hcs.
  exists e. split_and!; try done.
  destruct Hsame as (Ee2 & Ef2 & En2 & Einl & _). cbn [with_entries entries freeSlots nextSlot inlineSlots] in *.
  assert (live e = true) as Hle by exact Hv.
  assert (props d2 = props (dict o) ++ [e]) as Ep.
  { unfold props at 1. rewrite Ee2, Ee1, List.filter_app. cbn [List.filter]. by rewrite Hle. }
  constructor; try (rewrite Hd; cbn [with_dict dict]); [|exact Ep|done|exact Hcs|].
  - constructor; [done| | |].
    + eapply slots_ok_perm; [exact Hs1| |exact En2|exact Einl].
      unfold taken. rewrite Ep, Ef2, Ep1, slots_of_app, slots_of_cons. cbn [app].
      change (own_slots e) with (if acc then [out; out + 1] else [out]). cbn [slots_of map concat app].
      destruct acc; cbn [app]; by solve_Permutation.
    + rewrite Ep, map_app. apply NoDup_app. split_and!; [apply Hok| |apply NoDup_singleton].
      intros k Hk. cbn. rewrite list_elem_of_singleton. intros ->. apply list_elem_of_In, in_map_iff in Hk as (x & Ex & Hx).
      by apply (Hf x Hx).
    + pose proof (ok_bounded _ Hok). destruct Hok as [(Hl & _) _ _ _]. destruct Hi2 as (Hl2 & _).
      rewrite Hl2, Ep, Ee2, Ee1, !length_app. cbn [length]. lia.
  - intros q (x & <- & Hx)%in_map_iff. by apply Hf.
Qed.

Lemma remove_spec d name pos :
  dict_ok d -> valid name = true -> find d name = Some pos ->
  let '(d', answer) := remove d name in
  dict_ok d' /\ answer = true /\
  (forall l1 l2, props d = l1 ++ entryAt d pos :: l2 ->
     (forall e, List.filter live (<[pos := e]> (entries d)) = l1 ++ (if live e then [e] else []) ++ l2) ->
     props d' = l1 ++ l2 /\ (forall s, In s (slots_of (props d')) -> ~ In s (own_slots (entryAt d pos)))).
Proof.
  intros Hok Hv Ef. pose proof (dict_find_spec _ _ Hv (ok_index _ Hok)) as Hf. rewrite Ef in Hf.
  destruct Hf as [Hl Hk]. unfold remove. rewrite Ef. set (e := entryAt d pos) in *.
  set (d1 := if negb (accessor e) then _ else d).
  set (tomb := mkEntry NoKey _ _ _ _ _).
  pose proof (release_slots_ok d pos tomb (ok_slots _ Hok) Hl eq_refl) as Hs1. cbv zeta in Hs1.
  fold e in Hs1. fold d1 in Hs1.
  assert (entries d1 = entries d /\ index_ d1 = index_ d /\ used_ d1 = used_ d /\ live_ d1 = live_ d)
    as (-> & Ei1 & Eu1 & El1) by (unfold d1; by destruct (accessor e)).
  set (d2 := with_index (with_entries d1 _) _ _ _).
  pose proof (edit_index_ok d pos tomb (live_ d - 1) (ok_index _ Hok) Hl eq_refl) as Hi2.
  assert (index_ok d2) as Hi by (eapply index_ok_ext; [| | | |exact Hi2]; try done; cbn; congruence).
  destruct (props_split d pos Hl) as (m1 & m2 & Em & Em').
  assert (props d2 = m1 ++ m2) as Ep2 by apply (Em' tomb).
  assert (slots_ok [] d2) as Hs2 by (eapply slots_ok_perm; [exact Hs1|done..]).
  assert (NoDup (map key (props d2))) as Hn2.
  { pose proof (ok_names _ Hok) as Hn. rewrite Ep2. rewrite Em in Hn. rewrite !map_app in *. cbn [map] in Hn.
    apply NoDup_app in Hn as (? & H1 & [_ ?]%NoDup_cons). apply NoDup_app. split_and!; try done.
    intros x Hx Hx'. apply (H1 x Hx). by right. }
  assert (forall s, In s (slots_of (m1 ++ m2)) -> ~ In s (own_slots e)) as Hdisj.
  { intros s Hs Hs'. destruct (ok_slots _ Hok) as [_ Hd _]. cbn [app] in Hd. unfold taken in Hd.
    rewrite Em in Hd.
    assert (slots_of (m1 ++ e :: m2) ++ freeSlots d ≡ₚ own_slots e ++ slots_of (m1 ++ m2) ++ freeSlots d) as Hp.
    { rewrite !slots_of_app, slots_of_cons. by solve_Permutation. }
    fold e in Hd. rewrite Hp in Hd. apply NoDup_app in Hd as (_ & H1 & _).
    apply (H1 s); [by apply list_elem_of_In|]. apply elem_of_app. left. by apply list_elem_of_In. }
  assert (forall d', props d' = props d2 -> forall l1 l2, props d = l1 ++ e :: l2 ->
     (forall e, List.filter live (<[pos := e]> (entries d)) = l1 ++ (if live e then [e] else []) ++ l2) ->
     props d' = l1 ++ l2 /\ (forall s, In s (slots_of (props d')) -> ~ In s (own_slots e))) as Hfin.
  { intros d' Ed' l1 l2 _ E'. pose proof (E' tomb) as Et. rewrite Em' in Et. cbn [live key tomb valid app] in Et.
    rewrite Ed', Ep2, <- Et. done. }
  assert (Z.of_nat (length (entries d2)) = Z.of_nat (length (entries d))) as El2
    by (cbn [d2 with_index with_entries entries]; by rewrite length_insert).
  assert (live_ d2 = live_ d - 1) as Ell2 by (cbn; by rewrite El1).
  destruct (dict_reindex_spec (with_entries d2 (List.filter live (entries d2)))) as [(Ee3 & Ef3 & En3 & Einl3 & _) Hi3].
  fold (compact d2) in *. cbn [with_entries entries freeSlots nextSlot inlineSlots] in *.
  assert (props (compact d2) = props d2) as Ep3.
  { unfold props at 1. rewrite Ee3. by apply List.forallb_filter_id, forallb_forall; intros x [_ ?]%filter_In. }
  destruct ((32 <? length (entries d2))%nat && (live_ d2 * 2 <=? Z.of_nat (length (entries d2)))) eqn:Ec;
    (split_and!; [|done|by apply Hfin]).
  - constructor; [done| |by rewrite Ep3|].
    + eapply slots_ok_perm; [exact Hs2| |done|done]. unfold taken. by rewrite Ep3, Ef3.
    + destruct Hi3 as (-> & _). rewrite Ep3, Ee3. fold (props d2). lia.
  - apply andb_false_iff in Ec. pose proof (ok_bounded _ Hok).
    constructor; [done|done|done|]. destruct Ec as [Ec%Nat.ltb_ge|Ec%Z.leb_gt]; [|lia].
    destruct Hi as (Hll & _). lia.
Qed.

(** ** Properties *)

(** Lookup in a dictionary-mode object is lookup in its ordered property list:
    the hash probe ends, finds the entry of the name with its attributes and the
    values in its slots, and answers nothing exactly when the object has no such
    own property. *)
Theorem property_find_refines o name :
  dict_ok (dict o) -> valid name = true ->
  option_map (fun pos => view o (entryAt (dict o) pos)) (find (dict o) name)
  = List.find (named name) (own o).
Proof.
  intros Hok Hv. pose proof (dict_find_spec _ _ Hv (ok_index _ Hok)) as Hf.
  destruct (find (dict o) name) as [pos|]; cbn [option_map].
  - destruct Hf as [Hl <-]. destruct (own_split o pos (ok_names _ Hok) Hl) as (l1 & l2 & _ & -> & Hne & _).
    symmetry. apply find_property_mid; auto.
  - symmetry. apply find_property_none. intros q (e & <- & He)%in_map_iff. by apply Hf.
Qed.

(** The values a definition finds in place: those of a property of the same kind,
    and a fresh accessor's empty pair. *)
Definition kept (o : ObjectHeader) (name : PropertyKey) (acc : bool) : option (list Value) :=
  match List.find (named name) (own o) with
  | Some p => if Bool.eqb (paccessor p) acc then Some (pvalues p)
              else if acc then Some [VUndefined; VUndefined] else None
  | None => if acc then Some [VUndefined; VUndefined] else None
  end.

(** Defining a property, together with the store that follows it, is definition
    in the ordered property list: a property that is there keeps its place and its
    other attributes, a new one goes to the end, every other property keeps its
    attributes and its value, and the table's invariant is preserved.  Before the
    store the property has the values it had, or reads as an accessor without
    getter and setter. *)
Theorem property_define_refines o name en acc vals :
  dict_ok (dict o) -> valid name = true -> length vals = (if acc : bool then 2 else 1)%nat ->
  let '(o', out) := dictDefine o name en acc in
  dict_ok (dict o') /\ own (put o' out vals) = define_property name en acc vals (own o) /\
  forall before, kept o name acc = Some before -> own o' = define_property name en acc before (own o).
Proof.
  intros Hok Hv Hlen.
  assert (forall o' e l1 l2 out, defined o o' name en acc l1 l2 e -> slot e = out ->
    (forall vals, define_property name en acc vals (own o) = map (view o) l1 ++
       mkProperty name en acc (writable e) (configurable e) vals :: map (view o) l2) ->
    (forall before, kept o name acc = Some before -> map (slots o') (own_slots e) = before) ->
    dict_ok (dict o') /\ own (put o' out vals) = define_property name en acc vals (own o) /\
    forall before, kept o name acc = Some before -> own o' = define_property name en acc before (own o)) as Hfin.
  { intros o' e l1 l2 out [Hok' Hp (Ek & Een & Ea) Hsl Hbe] <- Hdef Hkept.
    destruct (put_spec o' e vals) as [H1 H2]; [unfold own_slots; by rewrite Ea; destruct acc|].
    split_and!; [done| |].
    - rewrite (own_replace o _ l1 l2 e); rewrite ?put_dict; [|done|apply Hok'|].
      + rewrite Hdef. unfold view at 2. by rewrite H1, Ek, Een, Ea.
      + intros s Hs. rewrite H2 by done. by apply Hsl.
    - intros before Hb. rewrite (own_replace o _ l1 l2 e); [|done|apply Hok'|done].
      rewrite Hdef. unfold view at 2. by rewrite (Hkept before Hb), Ek, Een, Ea. }
  destruct (find (dict o) name) as [pos|] eqn:Ef.
  - pose proof (dictDefine_existing o name en acc pos Hok Hv Ef) as H.
    destruct (dictDefine o name en acc) as [o' out]. destruct H as (l1 & l2 & e & Hd & Es & Eo & Ek & Ew & Ec & Hsame & Hdiff).
    apply (Hfin o' e l1 l2 out Hd Es).
    + intros vs. rewrite Eo, define_property_mid by (done || apply Hd). cbn [view pwritable pconfigurable]. by rewrite Ew, Ec.
    + intros before. unfold kept. rewrite Eo, find_property_mid by (done || apply Hd). cbn [view paccessor pvalues].
      destruct Hd as [_ _ (_ & _ & Eacc) _ _].
      destruct (Bool.eqb (accessor (entryAt (dict o) pos)) acc) eqn:Eb.
      * apply eqb_prop in Eb. destruct (Hsame Eb) as [Hs1 Hs2]. intros [= <-]. rewrite Hs2. unfold own_slots.
        by rewrite Hs1, Eacc, Eb.
      * destruct acc; [|done]. intros [= <-]. apply Hdiff; [|done]. intros Ea. by rewrite Ea in Eb.
  - pose proof (dictDefine_fresh o name en acc Hok Hv Ef) as H.
    pose proof (dict_find_spec _ _ Hv (ok_index _ Hok)) as Hf. rewrite Ef in Hf.
    destruct (dictDefine o name en acc) as [o' out]. destruct H as (e & Hd & Es & Ew & Ec & Hpair).
    assert (forall q, In q (own o) -> pname q <> name) as Hne by (intros q (x & <- & Hx)%in_map_iff; by apply Hf).
    apply (Hfin o' e _ _ out Hd Es).
    + intros vs. rewrite define_property_fresh by done. cbn [map]. by rewrite Ew, Ec.
    + intros before. unfold kept. rewrite find_property_none by done.
      destruct Hd as [_ _ (_ & _ & Eacc) _ _]. destruct acc; [|done]. intros [= <-]. by apply Hpair.
Qed.

(** [delete o.k] on a dictionary-mode object: absent, it answers true and
    changes nothing; non-configurable, it answers false and changes nothing;
    otherwise it answers true and exactly that property is gone, the others
    keeping their order, attributes and values, through tombstones, slot reuse and
    compaction; and the table's invariant is preserved. *)
Theorem property_delete_refines o name :
  dict_ok (dict o) -> valid name = true ->
  let '(o', answer) := deleteProperty o name in
  dict_ok (dict o') /\
  match List.find (named name) (own o) with
  | None => answer = true /\ own o' = own o
  | Some p => answer = pconfigurable p /\
      own o' = if pconfigurable p then delete_property name (own o) else own o
  end.
Proof.
  intros Hok Hv. pose proof (dict_find_spec _ _ Hv (ok_index _ Hok)) as Hf. unfold deleteProperty.
  destruct (find (dict o) name) as [pos|] eqn:Ef.
  - destruct Hf as [Hl Hk]. destruct (own_split o pos (ok_names _ Hok) Hl) as (l1 & l2 & E & Eo & Hne & E').
    rewrite Hk in Hne. rewrite Eo, find_property_mid by auto. set (e := entryAt (dict o) pos) in *.
    cbn [view pconfigurable]. destruct (configurable e); cbn [negb]; [|by split_and!].
    pose proof (remove_spec (dict o) name pos Hok Hv Ef) as H.
    destruct (remove (dict o) name) as [d' removed]. destruct H as (Hok' & -> & Hp).
    destruct (Hp l1 l2 E E') as [Ep Hdisj]. fold e in Hdisj.
    assert (forall o', dict o' = d' -> (forall s, ~ In s (own_slots e) -> slots o' s = slots o s) ->
      dict_ok (dict o') /\ true = true /\
      own o' = delete_property name (map (view o) l1 ++ view o e :: map (view o) l2)) as Hfin.
    { intros o' Ed Hs. split_and!; [by rewrite Ed|done|]. unfold own. rewrite Ed.
      rewrite (views_ext o o') by (intros s Hin; apply Hs; by apply Hdisj). rewrite Ep, map_app.
      unfold delete_property. rewrite List.filter_app. cbn [List.filter].
      assert (named name (view o e) = true) as -> by (by apply bool_decide_eq_true_2). cbn [negb].
      fold (delete_property name (map (view o) l1)) (delete_property name (map (view o) l2)).
      rewrite !delete_property_none; auto. }
    destruct (accessor e) eqn:Ea; apply Hfin; try done; unfold own_slots; rewrite Ea; cbn [setSlot slots with_dict].
    + intros s Hs. destruct (Z.eqb_spec s (slot e + 1)), (Z.eqb_spec s (slot e)); subst; cbn in Hs; tauto.
    + intros s Hs. destruct (Z.eqb_spec s (slot e)); subst; cbn in Hs; tauto.
  - rewrite find_property_none; [by split_and!|]. intros q (e & <- & He)%in_map_iff. by apply Hf.
Qed.

End Hash.

(** ** A concrete object *)

Definition no_symbols (id : nat) : Z := 4096 + 32 * Z.of_nat id.
Definition object0 : ObjectHeader :=
  mkObject (mkDict [] [] 0 4 true Open false [] 0 0) (fun _ => VUndefined).
Definition name_a : PropertyKey := StringKey (bytes "alpha").
Definition object1 : ObjectHeader := fst (dictDefine no_symbols object0 name_a true false).
Definition object2 : ObjectHeader := fst (dictDefine no_symbols object1 (SymbolKey 3) false true).

Lemma object0_ok : dict_ok no_symbols (dict object0).
Proof.
  constructor; try done.
  - constructor; [done|constructor|constructor].
  - constructor.
Qed.

Lemma object1_ok : dict_ok no_symbols (dict object1).
Proof.
  pose proof (dictDefine_fresh no_symbols object0 name_a true false object0_ok eq_refl eq_refl) as H.
  unfold object1. destruct (dictDefine _ _ _ _ _) as [o out]. destruct H as (e & [? _ _ _ _] & _). done.
Qed.

Lemma object2_ok : dict_ok no_symbols (dict object2).
Proof.
  pose proof (dictDefine_fresh no_symbols object1 (SymbolKey 3) false true object1_ok eq_refl) as H.
  unfold object2. destruct (dictDefine _ _ _ _ _) as [o out].
  destruct H as (e & [? _ _ _ _] & _); [vm_compute; reflexivity|done].
Qed.

Lemma property_find_refines_witness :
  option_map (fun pos => view object2 (entryAt (dict object2) pos)) (find no_symbols (dict object2) name_a)
  = List.find (named name_a) (own object2) /\
  option_map pname (List.find (named name_a) (own object2)) = Some name_a.
Proof. split; [apply (property_find_refines no_symbols object2 name_a object2_ok); reflexivity|reflexivity]. Defined.

Lemma property_define_refines_witness :
  let '(o, out) := dictDefine no_symbols object2 name_a false true in
  dict_ok no_symbols (dict o) /\
  own (put o out [VObject 7; VUndefined]) = define_property name_a false true [VObject 7; VUndefined] (own object2) /\
  forall before, kept object2 name_a true = Some before ->
    own o = define_property name_a false true before (own object2).
Proof. apply (property_define_refines no_symbols object2 name_a false true _ object2_ok); reflexivity. Defined.

Lemma property_delete_refines_witness :
  let '(o, answer) := deleteProperty no_symbols object2 name_a in
  dict_ok no_symbols (dict o) /\
  match List.find (named name_a) (own object2) with
  | None => answer = true /\ own o = own object2
  | Some p => answer = pconfigurable p /\
      own o = if pconfigurable p then delete_property name_a (own object2) else own object2
  end.
Proof. apply (property_delete_refines no_symbols object2 name_a object2_ok); reflexivity. Defined.
