(* ===== verification/Utf8.v ===== *)
(** * UTF-8 and the code points of identifiers

    [src/src/lex/lexer_utf8.h]: the decoder the lexer reads code points with, and
    the classification of what it reads.  [encode] is the encoding form of the
    Unicode standard; the file shows that the decoder accepts exactly its images. *)
From S2P Require Import Prelude.

(** [DecodedCodePoint]: [len = 0] when there is none. *)
Record DecodedCodePoint := mkDecoded { cp : Z; len : nat }.

Definition none_decoded : DecodedCodePoint := mkDecoded 0 0.

(** [(b & 0xC0) == 0x80] *)
Definition continuation (b : Z) : bool := Z.land b 0xC0 =? 0x80.

Definition decodeUtf8 (text : list Z) (pos : nat) : DecodedCodePoint :=
  let size := length text in
  if (size <=? pos)%nat then none_decoded
  else
    let b0 := text.[pos] in
    if b0 <? 0x80 then mkDecoded b0 1
    else if (Z.land b0 0xE0 =? 0xC0) && (pos + 1 <? size)%nat then
      let b1 := text.[(pos + 1)%nat] in
      if continuation b1 then
        let cp := Z.lor (Z.shiftl (Z.land b0 0x1F) 6) (Z.land b1 0x3F) in
        if 0x80 <=? cp then mkDecoded cp 2 else none_decoded
      else none_decoded
    else if (Z.land b0 0xF0 =? 0xE0) && (pos + 2 <? size)%nat then
      let b1 := text.[(pos + 1)%nat] in
      let b2 := text.[(pos + 2)%nat] in
      if continuation b1 && continuation b2 then
        let cp := Z.lor (Z.lor (Z.shiftl (Z.land b0 0x0F) 12) (Z.shiftl (Z.land b1 0x3F) 6))
                    (Z.land b2 0x3F) in
        if (0x800 <=? cp) && negb ((0xD800 <=? cp) && (cp <=? 0xDFFF)) then mkDecoded cp 3 else none_decoded
      else none_decoded
    else if (Z.land b0 0xF8 =? 0xF0) && (pos + 3 <? size)%nat then
      let b1 := text.[(pos + 1)%nat] in
      let b2 := text.[(pos + 2)%nat] in
      let b3 := text.[(pos + 3)%nat] in
      if continuation b1 && continuation b2 && continuation b3 then
        let cp := Z.lor (Z.lor (Z.lor (Z.shiftl (Z.land b0 0x07) 18) (Z.shiftl (Z.land b1 0x3F) 12))
                    (Z.shiftl (Z.land b2 0x3F) 6)) (Z.land b3 0x3F) in
        if (0x10000 <=? cp) && (cp <=? 0x10FFFF) then mkDecoded cp 4 else none_decoded
      else none_decoded
    else none_decoded.

Definition isUnicodeWhitespace (cp : Z) : bool :=
  (cp =? 0x00A0) || (cp =? 0x1680) || ((0x2000 <=? cp) && (cp <=? 0x200A)) ||
  (cp =? 0x2028) || (cp =? 0x2029) || (cp =? 0x202F) || (cp =? 0x205F) ||
  (cp =? 0x3000) || (cp =? 0xFEFF).

Definition isUnicodePunctuation (cp : Z) : bool :=
  if (cp =? 0x00AB) || (cp =? 0x00BB) then true
  else if (0x2010 <=? cp) && (cp <=? 0x2027) then true
  else if (0x2030 <=? cp) && (cp <=? 0x205E) then true
  else if (0x3001 <=? cp) && (cp <=? 0x3003) then true
  else if (0xFF01 <=? cp) && (cp <=? 0xFF0F) then true
  else if (0xFF1A <=? cp) && (cp <=? 0xFF20) then true
  else if (0xFF3B <=? cp) && (cp <=? 0xFF40) then true
  else (0xFF5B <=? cp) && (cp <=? 0xFF65).

Definition isIdentStart (cp : Z) : bool :=
  if cp <? 0x80 then
    ((97 <=? cp) && (cp <=? 122)) || ((65 <=? cp) && (cp <=? 90)) || (cp =? 95) || (cp =? 36)
  else negb (isUnicodeWhitespace cp) && negb (isUnicodePunctuation cp).

Definition isIdentPart (cp : Z) : bool :=
  if cp <? 0x80 then isIdentStart cp || ((48 <=? cp) && (cp <=? 57))
  else negb (isUnicodeWhitespace cp) && negb (isUnicodePunctuation cp).

(** ** The encoding form *)

(** A code point that is not a surrogate. *)
Definition scalar (cp : Z) : Prop := 0 <= cp <= 0x10FFFF /\ ~ 0xD800 <= cp <= 0xDFFF.

Definition encode (cp : Z) : list Z :=
  if cp <? 0x80 then [cp]
  else if cp <? 0x800 then [0xC0 + cp / 64; 0x80 + cp mod 64]
  else if cp <? 0x10000 then [0xE0 + cp / 4096; 0x80 + cp / 64 mod 64; 0x80 + cp mod 64]
  else [0xF0 + cp / 262144; 0x80 + cp / 4096 mod 64; 0x80 + cp / 64 mod 64; 0x80 + cp mod 64].

Definition byte (b : Z) : Prop := 0 <= b < 256.

(** ** The masks, as ranges *)

Lemma on_bytes (P : Z -> bool) : forallb (fun n => P (Z.of_nat n)) (seq 0 256) = true ->
  forall b, byte b -> P b = true.
Proof.
  intros H b Hb. rewrite forallb_forall in H. unfold byte in Hb.
  rewrite <- (Z2Nat.id b) by lia. apply H, in_seq. lia.
Qed.

Lemma continuation_range b : byte b -> continuation b = (128 <=? b) && (b <? 192).
Proof.
  intros Hb. apply Bool.eqb_prop. revert b Hb.
  apply (on_bytes (fun b => Bool.eqb (continuation b) ((128 <=? b) && (b <? 192)))). vm_compute. reflexivity.
Qed.

Lemma lead_range b : byte b ->
  (Z.land b 0xE0 =? 0xC0) = ((192 <=? b) && (b <? 224)) /\
  (Z.land b 0xF0 =? 0xE0) = ((224 <=? b) && (b <? 240)) /\
  (Z.land b 0xF8 =? 0xF0) = ((240 <=? b) && (b <? 248)).
Proof.
  intros Hb.
  pose proof (on_bytes (fun b => Bool.eqb (Z.land b 0xE0 =? 0xC0) ((192 <=? b) && (b <? 224)) &&
    (Bool.eqb (Z.land b 0xF0 =? 0xE0) ((224 <=? b) && (b <? 240)) &&
     Bool.eqb (Z.land b 0xF8 =? 0xF0) ((240 <=? b) && (b <? 248)))) ltac:(vm_compute; reflexivity) b Hb) as H.
  apply andb_prop in H as [H1 H]. apply andb_prop in H as [H2 H3].
  split_and!; by apply Bool.eqb_prop.
Qed.

Lemma land_mod b k : 0 <= k -> Z.land b (Z.ones k) = b mod 2 ^ k.
Proof. intros. by apply Z.land_ones. Qed.

Lemma pack2 a b : Z.lor (Z.shiftl a 6) (Z.land b 0x3F) = a * 64 + b mod 64.
Proof.
  change 0x3F with (Z.ones 6). rewrite land_mod by lia.
  change (2 ^ 6) with 64. pose proof (Z.mod_pos_bound b 64 ltac:(lia)).
  rewrite lor_shiftl_add by lia. done.
Qed.

Lemma pack3 a b c : Z.lor (Z.lor (Z.shiftl a 12) (Z.shiftl (Z.land b 0x3F) 6)) (Z.land c 0x3F)
  = a * 4096 + b mod 64 * 64 + c mod 64.
Proof.
  change 12 with (6 + 6). rewrite <- Z.shiftl_shiftl, <- Z.shiftl_lor, pack2 by lia.
  rewrite pack2. lia.
Qed.

Lemma pack4 a b c d :
  Z.lor (Z.lor (Z.lor (Z.shiftl a 18) (Z.shiftl (Z.land b 0x3F) 12)) (Z.shiftl (Z.land c 0x3F) 6)) (Z.land d 0x3F)
  = a * 262144 + b mod 64 * 4096 + c mod 64 * 64 + d mod 64.
Proof.
  change 18 with (12 + 6). change 12 with (6 + 6) at 2.
  rewrite <- !Z.shiftl_shiftl, <- !Z.shiftl_lor by lia. rewrite pack3, pack2. lia.
Qed.

(** ** The decoder *)

(** [encode cp] starts at [pos]. *)
Definition encoded_at (text : list Z) (pos : nat) (cp : Z) : Prop :=
  take (length (encode cp)) (drop pos text) = encode cp.

Lemma drop_limb (text : list Z) pos : (pos < length text)%nat -> drop pos text = text.[pos] :: drop (S pos) text.
Proof. intros H. apply drop_S. by apply limb_lookup_lt. Qed.

Lemma encoded_at_iff text pos cp :
  encoded_at text pos cp <->
  (pos + length (encode cp) <= length text)%nat /\
  forall i, (i < length (encode cp))%nat -> text.[(pos + i)%nat] = (encode cp).[i].
Proof.
  unfold encoded_at. split.
  - intros E. assert ((pos + length (encode cp) <= length text)%nat) as Hl.
    { apply (f_equal length) in E. rewrite length_take, length_drop in E.
      assert (0 < length (encode cp))%nat by (unfold encode; zbool; cbn; lia). lia. }
    split; [done|]. intros i Hi. rewrite <- E. unfold limb. rewrite lookup_take_lt by done.
    by rewrite lookup_drop.
  - intros [Hl H]. apply list_eq_same_length with (n := length (encode cp)).
    + done.
    + rewrite length_take, length_drop. lia.
    + intros i x y Hi. rewrite lookup_take_lt, lookup_drop by done.
      rewrite !limb_lookup_lt by lia. intros [= <-] [= <-]. by apply H.
Qed.

Lemma low_bits b : byte b ->
  (192 <= b < 224 -> Z.land b 0x1F = b - 192) /\ (224 <= b < 240 -> Z.land b 0x0F = b - 224) /\
  (240 <= b < 248 -> Z.land b 0x07 = b - 240).
Proof.
  intros Hb. change 0x1F with (Z.ones 5). change 0x0F with (Z.ones 4). change 0x07 with (Z.ones 3).
  rewrite !land_mod by lia. change (2 ^ 5) with 32. change (2 ^ 4) with 16. change (2 ^ 3) with 8.
  split_and!; intros; dlia.
Qed.

Lemma trail_bits b : 128 <= b < 192 -> b mod 64 = b - 128.
Proof. intros. dlia. Qed.

Lemma text_byte text pos : Forall byte text -> byte text.[pos].
Proof. intros H. apply Forall_limb; [unfold byte; lia|done]. Qed.

(** The decoded code points of a lead byte and its trail bytes, with the masks
    gone. *)
Inductive sequence (text : list Z) (pos : nat) : Z -> nat -> Prop :=
  | seq1 : (pos < length text)%nat -> text.[pos] < 128 -> sequence text pos text.[pos] 1
  | seq2 b0 b1 : (pos + 1 < length text)%nat -> text.[pos] = 192 + b0 -> text.[(pos + 1)%nat] = 128 + b1 ->
      0 <= b0 < 32 -> 0 <= b1 < 64 -> 128 <= b0 * 64 + b1 -> sequence text pos (b0 * 64 + b1) 2
  | seq3 b0 b1 b2 : (pos + 2 < length text)%nat -> text.[pos] = 224 + b0 ->
      text.[(pos + 1)%nat] = 128 + b1 -> text.[(pos + 2)%nat] = 128 + b2 ->
      0 <= b0 < 16 -> 0 <= b1 < 64 -> 0 <= b2 < 64 ->
      2048 <= b0 * 4096 + b1 * 64 + b2 -> ~ 0xD800 <= b0 * 4096 + b1 * 64 + b2 <= 0xDFFF ->
      sequence text pos (b0 * 4096 + b1 * 64 + b2) 3
  | seq4 b0 b1 b2 b3 : (pos + 3 < length text)%nat -> text.[pos] = 240 + b0 ->
      text.[(pos + 1)%nat] = 128 + b1 -> text.[(pos + 2)%nat] = 128 + b2 -> text.[(pos + 3)%nat] = 128 + b3 ->
      0 <= b0 < 8 -> 0 <= b1 < 64 -> 0 <= b2 < 64 -> 0 <= b3 < 64 ->
      0x10000 <= b0 * 262144 + b1 * 4096 + b2 * 64 + b3 <= 0x10FFFF ->
      sequence text pos (b0 * 262144 + b1 * 4096 + b2 * 64 + b3) 4.

(** The boolean tests of the decoder, resolved one after the other. *)
Ltac test_step :=
  match goal with
  | |- context [if (?a <? ?b) then _ else _] => destruct (Z.ltb_spec a b)
  | |- context [if ?c then _ else _] => let E := fresh "E" in destruct c eqn:E
  end.

Ltac bool_facts :=
  repeat match goal with
  | H : _ && _ = true |- _ => apply andb_prop in H as [? ?]
  | H : negb _ = true |- _ => apply negb_true_iff in H
  | H : (_ <=? _) = true |- _ => apply Z.leb_le in H
  | H : (_ <? _) = true |- _ => apply Z.ltb_lt in H
  | H : (_ <? _)%nat = true |- _ => apply Nat.ltb_lt in H
  | H : (_ <=? _)%nat = true |- _ => apply Nat.leb_le in H
  | H : (_ <=? _)%nat = false |- _ => apply Nat.leb_gt in H
  end.

Lemma decode_sequence text pos : Forall byte text ->
  decodeUtf8 text pos = none_decoded \/
  sequence text pos (cp (decodeUtf8 text pos)) (len (decodeUtf8 text pos)).
Proof.
  intros Hb. unfold decodeUtf8.
  set (b0 := text.[pos]). pose proof (text_byte text pos Hb) as H0. fold b0 in H0.
  set (b1 := text.[(pos + 1)%nat]). pose proof (text_byte text (pos + 1) Hb) as H1. fold b1 in H1.
  set (b2 := text.[(pos + 2)%nat]). pose proof (text_byte text (pos + 2) Hb) as H2. fold b2 in H2.
  set (b3 := text.[(pos + 3)%nat]). pose proof (text_byte text (pos + 3) Hb) as H3. fold b3 in H3.
  rewrite (continuation_range b1), (continuation_range b2), (continuation_range b3) by done.
  destruct (lead_range b0 H0) as (-> & -> & ->). destruct (low_bits b0 H0) as (L1 & L2 & L3).
  pose proof (trail_bits b1) as T1. pose proof (trail_bits b2) as T2. pose proof (trail_bits b3) as T3.
  rewrite pack2, pack3, pack4. destruct (Nat.leb_spec (length text) pos); [by left|].
  repeat test_step; try (by left); right; cbn [cp len]; bool_facts;
    rewrite ?L1, ?L2, ?L3, ?T1, ?T2, ?T3 by lia.
  - by apply seq1.
  - apply seq2; unfold b0, b1 in *; lia.
  - apply seq3; unfold b0, b1, b2 in *; lia.
  - apply seq4; unfold b0, b1, b2, b3 in *; lia.
Qed.

(** A well-formed sequence is the encoding of its code point. *)
Lemma sequence_encoded text pos c n : Forall byte text -> sequence text pos c n ->
  scalar c /\ encoded_at text pos c /\ n = length (encode c).
Proof.
  intros Hb H. rewrite encoded_at_iff. unfold scalar, encode.
  assert (forall c, (c <? 128) = true -> length (encode c) = 1%nat) as _ by (intros x Hx; unfold encode; by rewrite Hx).
  pose proof (text_byte text pos Hb) as H0. unfold byte in H0.
  destruct H as [Hl E|b0 b1 Hl E0 E1 R0 R1 Hc|b0 b1 b2 Hl E0 E1 E2 R0 R1 R2 Hc Hs|b0 b1 b2 b3 Hl E0 E1 E2 E3 R0 R1 R2 R3 Hc].
  - rewrite (proj2 (Z.ltb_lt _ 128)) by done. split_and!; try done; cbn; try lia.
    intros [|i] Hi; [by rewrite Nat.add_0_r|lia].
  - rewrite (proj2 (Z.ltb_ge _ 128)), (proj2 (Z.ltb_lt _ 0x800)) by lia.
    split_and!; try lia; try done; cbn [length]; [lia|].
    intros [|[|i]] Hi; rewrite ?Nat.add_0_r; try lia; unfold limb at 2; cbn; rewrite ?E0, ?E1; dlia.
  - rewrite (proj2 (Z.ltb_ge _ 128)), (proj2 (Z.ltb_ge _ 0x800)), (proj2 (Z.ltb_lt _ 0x10000)) by lia.
    split_and!; try lia; try done; cbn [length]; [lia|].
    intros [|[|[|i]]] Hi; rewrite ?Nat.add_0_r; try lia; unfold limb at 2; cbn; rewrite ?E0, ?E1, ?E2; dlia.
  - rewrite (proj2 (Z.ltb_ge _ 128)), (proj2 (Z.ltb_ge _ 0x800)), (proj2 (Z.ltb_ge _ 0x10000)) by lia.
    split_and!; try lia; try done; cbn [length]; [lia|].
    intros [|[|[|[|i]]]] Hi; rewrite ?Nat.add_0_r; try lia; unfold limb at 2; cbn; rewrite ?E0, ?E1, ?E2, ?E3; dlia.
Qed.

(** The decoder reads every sequence. *)
Lemma sequence_decode text pos c n : Forall byte text -> sequence text pos c n ->
  decodeUtf8 text pos = mkDecoded c n.
Proof.
  intros Hb H. unfold decodeUtf8.
  pose proof (text_byte text pos Hb) as H0. pose proof (text_byte text (pos + 1) Hb) as H1.
  pose proof (text_byte text (pos + 2) Hb) as H2. pose proof (text_byte text (pos + 3) Hb) as H3.
  rewrite !continuation_range by done. destruct (lead_range _ H0) as (-> & -> & ->).
  destruct (low_bits _ H0) as (L1 & L2 & L3).
  pose proof (trail_bits text.[(pos + 1)%nat]) as T1. pose proof (trail_bits text.[(pos + 2)%nat]) as T2.
  pose proof (trail_bits text.[(pos + 3)%nat]) as T3. rewrite pack2, pack3, pack4.
  destruct H as [Hl E|b0 b1 Hl E0 E1 R0 R1 Hc|b0 b1 b2 Hl E0 E1 E2 R0 R1 R2 Hc Hs|b0 b1 b2 b3 Hl E0 E1 E2 E3 R0 R1 R2 R3 Hc];
    rewrite (proj2 (Nat.leb_gt _ pos)) by lia;
    rewrite ?L1, ?L2, ?L3, ?T1, ?T2, ?T3, ?(proj2 (Nat.ltb_lt (pos + 1) _)), ?(proj2 (Nat.ltb_lt (pos + 2) _)),
      ?(proj2 (Nat.ltb_lt (pos + 3) _)), ?andb_true_r by lia;
    repeat (match goal with |- context [if ?c then _ else _] => let E := fresh in destruct c eqn:E; try lia end);
    try done; f_equal; lia.
Qed.

(** An encoded scalar value is a sequence. *)
Lemma encoded_sequence text pos c : scalar c -> encoded_at text pos c ->
  sequence text pos c (length (encode c)).
Proof.
  intros [Hr Hs]. rewrite encoded_at_iff. unfold encode.
  destruct (Z.ltb_spec c 0x80); [|destruct (Z.ltb_spec c 0x800); [|destruct (Z.ltb_spec c 0x10000)]];
    cbn [length]; intros [Hl Hat]; pose proof (Hat O ltac:(lia)) as E0; rewrite Nat.add_0_r in E0;
    unfold limb at 2 in E0; cbn in E0.
  - rewrite <- E0. apply seq1; lia.
  - pose proof (Hat 1%nat ltac:(lia)) as E1. unfold limb at 2 in E1; cbn in E1.
    replace c with (c / 64 * 64 + c mod 64) at 1 by dlia. apply seq2; try lia; dlia.
  - pose proof (Hat 1%nat ltac:(lia)) as E1. pose proof (Hat 2%nat ltac:(lia)) as E2.
    unfold limb at 2 in E1; unfold limb at 2 in E2; cbn in E1, E2.
    assert (c = c / 4096 * 4096 + c / 64 mod 64 * 64 + c mod 64) as Ec by dlia.
    rewrite Ec at 1. apply seq3; rewrite <- ?Ec; try lia; dlia.
  - pose proof (Hat 1%nat ltac:(lia)) as E1. pose proof (Hat 2%nat ltac:(lia)) as E2.
    pose proof (Hat 3%nat ltac:(lia)) as E3.
    unfold limb at 2 in E1; unfold limb at 2 in E2; unfold limb at 2 in E3; cbn in E1, E2, E3.
    assert (c = c / 262144 * 262144 + c / 4096 mod 64 * 4096 + c / 64 mod 64 * 64 + c mod 64) as Ec by dlia.
    rewrite Ec at 1. apply seq4; rewrite <- ?Ec; try lia; dlia.
Qed.

Lemma decode_sound text pos c n : Forall byte text -> decodeUtf8 text pos = mkDecoded c n -> n <> O ->
  scalar c /\ encoded_at text pos c /\ n = length (encode c).
Proof.
  intros Hb E Hn. destruct (decode_sequence text pos Hb) as [E'|H].
  - rewrite E in E'. by injection E' as -> ->.
  - rewrite E in H. by apply sequence_encoded in H.
Qed.

Lemma encode_nonempty c : length (encode c) <> O.
Proof. unfold encode. by repeat (destruct (_ <? _)). Qed.

Lemma decode_complete text pos c : Forall byte text -> scalar c -> encoded_at text pos c ->
  decodeUtf8 text pos = mkDecoded c (length (encode c)).
Proof. intros Hb Hs He. apply sequence_decode; [done|]. by apply encoded_sequence. Qed.

(** The lexer's decoder reads a code point exactly where the UTF-8 encoding of a
    Unicode scalar value stands: overlong forms, surrogates, values past U+10FFFF
    and truncated sequences are refused, and what it answers is the scalar value
    and the length of its encoding. *)
Theorem decode_exact text pos c n :
  Forall byte text ->
  (decodeUtf8 text pos = mkDecoded c n /\ n <> O) <->
  (scalar c /\ encoded_at text pos c /\ n = length (encode c)).
Proof.
  intros Hb. split.
  - intros [E Hn]. by apply decode_sound.
  - intros (Hs & He & ->). split; [by apply decode_complete|apply encode_nonempty].
Qed.

(** U+20AC after a byte of ASCII. *)
Lemma decode_exact_witness :
  decodeUtf8 [65; 0xE2; 0x82; 0xAC] 1 = mkDecoded 0x20AC 3 /\ encoded_at [65; 0xE2; 0x82; 0xAC] 1 0x20AC.
Proof.
  assert (Forall byte [65; 0xE2; 0x82; 0xAC]) as Hb by (repeat (apply Forall_cons; split; [split; lia|]); constructor).
  pose proof (decode_exact [65; 0xE2; 0x82; 0xAC] 1 0x20AC 3 Hb) as [H _].
  assert (decodeUtf8 [65; 0xE2; 0x82; 0xAC] 1 = mkDecoded 0x20AC 3) as E by reflexivity.
  split; [exact E|]. apply H. split; [exact E|lia].
Defined.
