(* ===== verification/Tokens.v ===== *)
(** * Tokens

    [src/src/lex/token.h] and the kind names of [lexer.cpp]: the token kinds, the
    name each is printed by, which for a keyword or an operator is its spelling, and
    the token record. *)
From S2P Require Import Prelude.

Inductive TokenKind :=
  | EndOfFile | Identifier | NumberLiteral | StringLiteral | TemplateWhole | TemplateHead
  | TemplateMiddle | TemplateTail | RegExpLiteral | PrivateName | KwBreak | KwCase | KwCatch
  | KwConst | KwContinue | KwDebugger | KwDefault | KwDo | KwElse | KwExport | KwFalse | KwFinally
  | KwFor | KwFunction | KwIf | KwImport | KwIn | KwInstanceof | KwLet | KwNew | KwNull | KwOf
  | KwReturn | KwSwitch | KwThrow | KwTrue | KwTry | KwTypeof | KwVoid | KwDelete | KwClass
  | KwExtends | KwSuper | KwThis | KwUndefined | KwVar | KwWhile | LParen | RParen | LBrace
  | RBrace | LBracket | RBracket | Comma | Semicolon | Ellipsis | Colon | Dot | Arrow | Assign
  | Plus | Minus | Star | Slash | Percent | Less | Greater | LessEqual | GreaterEqual | EqualEqual
  | EqualEqualEqual | BangEqual | BangEqualEqual | AmpAmp | PipePipe | Question | QuestionQuestion
  | QuestionDot | Bang | PlusPlus | MinusMinus | PlusAssign | MinusAssign | StarAssign
  | SlashAssign | PercentAssign | Amp | Pipe | Caret | Tilde | LessLess | GreaterGreater
  | GreaterGreaterGreater | AmpAssign | PipeAssign | CaretAssign | LessLessAssign
  | GreaterGreaterAssign | GreaterGreaterGreaterAssign | StarStar | StarStarAssign | PipePipeAssign
  | AmpAmpAssign | QuestionQuestionAssign.

Definition tokenKindName (kind : TokenKind) : string :=
  match kind with
  | EndOfFile => "eof"
  | Identifier => "ident"
  | NumberLiteral => "number"
  | StringLiteral => "string"
  | TemplateWhole => "template"
  | TemplateHead => "template-head"
  | TemplateMiddle => "template-middle"
  | TemplateTail => "template-tail"
  | RegExpLiteral => "regexp"
  | PrivateName => "private-name"
  | KwBreak => "break"
  | KwCase => "case"
  | KwCatch => "catch"
  | KwConst => "const"
  | KwContinue => "continue"
  | KwDebugger => "debugger"
  | KwDefault => "default"
  | KwDo => "do"
  | KwElse => "else"
  | KwExport => "export"
  | KwFalse => "false"
  | KwFinally => "finally"
  | KwFor => "for"
  | KwFunction => "function"
  | KwIf => "if"
  | KwImport => "import"
  | KwIn => "in"
  | KwInstanceof => "instanceof"
  | KwTypeof => "typeof"
  | KwVoid => "void"
  | KwLet => "let"
  | KwNew => "new"
  | KwNull => "null"
  | KwOf => "of"
  | KwReturn => "return"
  | KwSwitch => "switch"
  | KwThrow => "throw"
  | KwTrue => "true"
  | KwTry => "try"
  | KwDelete => "delete"
  | Ellipsis => "..."
  | KwClass => "class"
  | KwExtends => "extends"
  | KwSuper => "super"
  | KwThis => "this"
  | KwUndefined => "undefined"
  | KwVar => "var"
  | KwWhile => "while"
  | LParen => "("
  | RParen => ")"
  | LBrace => "{"
  | RBrace => "}"
  | LBracket => "["
  | RBracket => "]"
  | Comma => ","
  | Semicolon => ";"
  | Colon => ":"
  | Dot => "."
  | Arrow => "=>"
  | Assign => "="
  | Plus => "+"
  | Minus => "-"
  | Star => "*"
  | Slash => "/"
  | Percent => "%"
  | Less => "<"
  | Greater => ">"
  | LessEqual => "<="
  | GreaterEqual => ">="
  | EqualEqual => "=="
  | EqualEqualEqual => "==="
  | BangEqual => "!="
  | BangEqualEqual => "!=="
  | AmpAmp => "&&"
  | PipePipe => "||"
  | Question => "?"
  | QuestionQuestion => "??"
  | QuestionDot => "?."
  | Bang => "!"
  | PlusPlus => "++"
  | MinusMinus => "--"
  | PlusAssign => "+="
  | MinusAssign => "-="
  | StarAssign => "*="
  | SlashAssign => "/="
  | PercentAssign => "%="
  | Amp => "&"
  | Pipe => "|"
  | Caret => "^"
  | Tilde => "~"
  | LessLess => "<<"
  | GreaterGreater => ">>"
  | GreaterGreaterGreater => ">>>"
  | AmpAssign => "&="
  | PipeAssign => "|="
  | CaretAssign => "^="
  | LessLessAssign => "<<="
  | GreaterGreaterAssign => ">>="
  | GreaterGreaterGreaterAssign => ">>>="
  | StarStar => "**"
  | StarStarAssign => "**="
  | PipePipeAssign => "||="
  | AmpAmpAssign => "&&="
  | QuestionQuestionAssign => "??="
  end.

(** [kKeywords], in the order of the table. *)
Definition kKeywords : list (string * TokenKind) :=
  [("break", KwBreak); ("case", KwCase); ("catch", KwCatch); ("const", KwConst);
   ("continue", KwContinue); ("debugger", KwDebugger); ("default", KwDefault); ("delete", KwDelete);
   ("class", KwClass); ("extends", KwExtends); ("super", KwSuper); ("do", KwDo); ("else", KwElse);
   ("export", KwExport); ("false", KwFalse); ("for", KwFor); ("function", KwFunction);
   ("finally", KwFinally); ("if", KwIf); ("import", KwImport); ("in", KwIn);
   ("instanceof", KwInstanceof); ("typeof", KwTypeof); ("void", KwVoid); ("let", KwLet);
   ("new", KwNew); ("null", KwNull); ("of", KwOf); ("return", KwReturn); ("switch", KwSwitch);
   ("throw", KwThrow); ("true", KwTrue); ("try", KwTry); ("this", KwThis);
   ("undefined", KwUndefined); ("var", KwVar); ("while", KwWhile)]%string.

(** The operators and punctuators. *)
Definition punctuators : list TokenKind :=
  [LParen; RParen; LBrace; RBrace; LBracket; RBracket; Comma; Semicolon; Ellipsis; Colon; Dot;
   Arrow; Assign; Plus; Minus; Star; Slash; Percent; Less; Greater; LessEqual; GreaterEqual;
   EqualEqual; EqualEqualEqual; BangEqual; BangEqualEqual; AmpAmp; PipePipe; Question;
   QuestionQuestion; QuestionDot; Bang; PlusPlus; MinusMinus; PlusAssign; MinusAssign; StarAssign;
   SlashAssign; PercentAssign; Amp; Pipe; Caret; Tilde; LessLess; GreaterGreater;
   GreaterGreaterGreater; AmpAssign; PipeAssign; CaretAssign; LessLessAssign; GreaterGreaterAssign;
   GreaterGreaterGreaterAssign; StarStar; StarStarAssign; PipePipeAssign; AmpAmpAssign;
   QuestionQuestionAssign].

(** [Token], its span in bytes of the buffer. *)
Record Token := mkToken {
  kind : TokenKind; begin : nat; end_ : nat; text : list Z; newlineBefore : bool
}.

#[global] Instance TokenKind_eq_dec : EqDecision TokenKind.
Proof. solve_decision. Defined.
