(* ===== verification/Lexer.v ===== *)
(** * The lexer

    [src/src/lex/lexer.cpp]: one pass over the bytes of a source buffer.  Section
    [Lexer] holds the scanner, one definition per member function, over the buffer
    [source]; the object's state is the read position, the brace counts of the open
    template substitutions and the diagnostics reported.  A [char] is its byte value,
    0 past the end, as [peek] answers.

    The file shows that lexing terminates (a loop that ran out of turns would answer
    [None]), that the tokens and the trivia between
    them tile the source, that each token is a lexeme of its kind, that operators
    are matched by the longest spelling, and what the template substitution stack
    counts. *)
From S2P Require Import Prelude Utf8 Tokens.

#[local] Coercion byte_of : ascii >-> Z.

(** The characters without a printable literal. *)
Definition tab : Z := 9.
Definition lf : Z := 10.
Definition cr : Z := 13.
Definition quote2 : Z := 34.
Definition quote1 : Z := 39.
Definition backslash : Z := 92.

Definition isDigit (c : Z) : bool := ("0"%char <=? c) && (c <=? "9"%char).
Definition isHexDigit (c : Z) : bool :=
  isDigit c || (("a"%char <=? c) && (c <=? "f"%char)) || (("A"%char <=? c) && (c <=? "F"%char)).

(** The character constants as numbers, for arithmetic. *)
Ltac chars :=
  repeat match goal with
  | |- context [byte_of ?a] => let v := eval vm_compute in (byte_of a) in change (byte_of a) with v
  | H : context [byte_of ?a] |- _ => let v := eval vm_compute in (byte_of a) in change (byte_of a) with v in H
  end;
  unfold tab, cr, lf, quote1, quote2, backslash in *.

(** The conversion of a [char] to [uint32_t] when [char] is signed. *)
Definition char_to_u32 (c : Z) : Z := if c <? 128 then c else 0xFFFFFF00 + c.

Record Diagnostic := mkDiagnostic { diag_begin : nat; diag_end : nat; message : string }.

(** [substitutionBraces_] with its back first. *)
Record Lexer := mkLexer { pos_ : nat; substitutionBraces_ : list nat; diags_ : list Diagnostic }.

Definition at_pos (l : Lexer) (p : nat) : Lexer := mkLexer p (substitutionBraces_ l) (diags_ l).
Definition with_braces (l : Lexer) (b : list nat) : Lexer := mkLexer (pos_ l) b (diags_ l).
Definition error (l : Lexer) (begin : nat) (message : string) : Lexer :=
  mkLexer (pos_ l) (substitutionBraces_ l) (diags_ l ++ [mkDiagnostic begin (pos_ l) message]).
Definition hasErrors (l : Lexer) : bool := negb (empty (diags_ l)).

Section Lexer.
Context (source : list Z).

(** [peek(ahead)] at [p + ahead]. *)
Definition peek (p : nat) : Z := source.[p].
Definition peekCodePoint (p : nat) : DecodedCodePoint := decodeUtf8 source p.
Definition atEnd (p : nat) : bool := (length source <=? p)%nat.
Definition slice (p q : nat) : list Z := take (q - p) (drop p source).

Definition make (l : Lexer) (k : TokenKind) (b : nat) : Lexer * Token :=
  (l, mkToken k b (pos_ l) (slice b (pos_ l)) false).

(** The loops: each has a turn for every byte of the buffer and one more, and answers
    [None] when that does not bring it to its end; so does everything that runs one. *)
Definition turns : nat := S (length source).

(** [while (cond) ++pos_;] *)
Definition skip_while (cond : nat -> bool) (p : nat) : option nat := while_run turns cond S p.

(** ** Trivia *)

Definition block_comment (p : nat) (sawNewline : bool) : option (nat * bool) :=
  while_run turns
    (fun '(p, _) => negb (atEnd p) && negb ((peek p =? "*"%char) && (peek (p + 1) =? "/"%char)))
    (fun '(p, saw) => (S p, saw || (peek p =? lf))) (p, sawNewline).

Fixpoint trivia_loop (fuel : nat) (l : Lexer) (sawNewline : bool) : option (Lexer * bool) :=
  match fuel with
  | O => None
  | S fuel =>
    let p := pos_ l in
    let c := peek p in
    if (c =? " "%char) || (c =? tab) || (c =? cr) || (c =? lf) then
      trivia_loop fuel (at_pos l (p + 1)) (if (c =? lf) || (c =? cr) then true else sawNewline)
    else if (c =? 0xEF) && (peek (p + 1) =? 0xBB) && (peek (p + 2) =? 0xBF) then
      trivia_loop fuel (at_pos l (p + 3)) sawNewline
    else if 0x80 <=? c then
      let dec := peekCodePoint p in
      if (0 <? len dec)%nat && ((cp dec =? 0x2028) || (cp dec =? 0x2029)) then
        trivia_loop fuel (at_pos l (p + len dec)) true
      else if (0 <? len dec)%nat && isUnicodeWhitespace (cp dec) then
        trivia_loop fuel (at_pos l (p + len dec)) sawNewline
      else Some (l, sawNewline)
    else if (c =? "/"%char) && (peek (p + 1) =? "/"%char) then
      let? q := skip_while (fun p => negb (atEnd p) && negb (peek p =? lf)) p in
      trivia_loop fuel (at_pos l q) sawNewline
    else if (c =? "/"%char) && (peek (p + 1) =? "*"%char) then
      let? (q, sawNewline) := block_comment (p + 2) sawNewline in
      let l := at_pos l q in
      if atEnd q then Some (error l p "unterminated block comment", sawNewline)
      else trivia_loop fuel (at_pos l (q + 2)) sawNewline
    else Some (l, sawNewline)
  end.

Definition skipTrivia (l : Lexer) : option (Lexer * bool) := trivia_loop turns l false.

(** ** Identifiers *)

(** The loop of identifiers and of private names. *)
Fixpoint ident_loop (fuel : nat) (p : nat) : option nat :=
  match fuel with
  | O => None
  | S fuel =>
    let c := peek p in
    if negb (c =? 0) && (c <? 0x80) then
      if isIdentPart c then ident_loop fuel (p + 1) else Some p
    else
      let dec := peekCodePoint p in
      if (0 <? len dec)%nat && isIdentPart (cp dec) then ident_loop fuel (p + len dec) else Some p
  end.

Definition keyword_of (text : list Z) : option TokenKind :=
  snd <$> List.find (fun '(s, _) => bool_decide (text = bytes s)) kKeywords.

Definition lexIdentifierOrKeyword (l : Lexer) : option (Lexer * Token) :=
  let begin := pos_ l in
  let? p := ident_loop turns begin in
  let l := at_pos l p in
  Some (make l (default Identifier (keyword_of (slice begin (pos_ l)))) begin).

(** ** Numbers *)

Definition takeDigits (isPart : Z -> bool) (p : nat) : option nat :=
  skip_while (fun p => isPart (peek p) || (peek p =? "_"%char)) p.

Definition startsExponent (c : Z) : bool := isDigit c || (c =? "_"%char).
Definition exponent_sign (c : Z) : bool := (c =? "+"%char) || (c =? "-"%char).
Definition is_e (c : Z) : bool := (c =? "e"%char) || (c =? "E"%char).
Definition is_n (c : Z) : bool := (c =? "n"%char) || (c =? "N"%char).

(** [(peek(k) is e) && (a digit or underscore follows, after an optional sign)] *)
Definition exponent_at (p : nat) : bool :=
  is_e (peek p) &&
  (startsExponent (peek (p + 1)) || (exponent_sign (peek (p + 1)) && startsExponent (peek (p + 2)))).

Definition radix_prefix (c : Z) : bool :=
  (c =? "x"%char) || (c =? "X"%char) || (c =? "o"%char) || (c =? "O"%char) || (c =? "b"%char) || (c =? "B"%char).

Definition lexNumber (l : Lexer) : option (Lexer * Token) :=
  let begin := pos_ l in
  let p := begin in
  if (peek p =? "0"%char) && radix_prefix (peek (p + 1)) then
    let? p := takeDigits isHexDigit (p + 2) in
    let p := if is_n (peek p) then S p else p in
    Some (make (at_pos l p) NumberLiteral begin)
  else
    let? p := takeDigits isDigit p in
    let isExponentAhead := exponent_at (p + 1) in
    let propAhead := peekCodePoint (p + 1) in
    let isPropertyAccess :=
      ((0 <? len propAhead)%nat && isIdentStart (cp propAhead) && negb (cp propAhead =? "_"%char)) &&
      negb isExponentAhead in
    let? p := if (peek p =? "."%char) && negb isPropertyAccess then takeDigits isDigit (S p) else Some p in
    let? p := if exponent_at p then takeDigits isDigit (p + 2) else Some p in
    let p := if is_n (peek p) then S p else p in
    Some (make (at_pos l p) NumberLiteral begin).

(** ** Strings, templates and regular expressions *)

Definition string_step (p : nat) : nat :=
  let p := if peek p =? backslash then
             let p := S p in
             if (peek p =? cr) && (peek (p + 1) =? lf) then S p else p
           else p in
  S p.

Definition lexString (l : Lexer) : option (Lexer * Token) :=
  let begin := pos_ l in
  let quote := peek begin in
  let? p := while_run turns
             (fun p => negb (atEnd p) && negb (peek p =? quote) && negb (peek p =? lf) && negb (peek p =? cr))
             string_step (S begin) in
  let l := at_pos l p in
  if atEnd p || negb (peek p =? quote) then Some (make (error l begin "unterminated string literal") StringLiteral begin)
  else Some (make (at_pos l (S p)) StringLiteral begin).

Fixpoint template_loop (fuel : nat) (l : Lexer) (isHead : bool) (begin : nat) : option (Lexer * Token) :=
  match fuel with
  | O => None
  | S fuel =>
    let p := pos_ l in
    if atEnd p then Some (make (error l begin "unterminated template literal") TemplateWhole begin)
    else
      let c := peek p in
      if c =? backslash then template_loop fuel (at_pos l (p + 2)) isHead begin
      else if c =? "`"%char then
        Some (make (at_pos l (S p)) (if isHead then TemplateWhole else TemplateTail) begin)
      else if (c =? "$"%char) && (peek (p + 1) =? "{"%char) then
        Some (make (with_braces (at_pos l (p + 2)) (O :: substitutionBraces_ l))
          (if isHead then TemplateHead else TemplateMiddle) begin)
      else template_loop fuel (at_pos l (S p)) isHead begin
  end.

Definition lexTemplatePart (l : Lexer) (isHead : bool) : option (Lexer * Token) :=
  template_loop turns (at_pos l (S (pos_ l))) isHead (pos_ l).

Fixpoint regexp_loop (fuel : nat) (l : Lexer) (inClass : bool) (begin : nat) : option (Lexer * Token) :=
  match fuel with
  | O => None
  | S fuel =>
    let p := pos_ l in
    if atEnd p || (peek p =? lf) || (peek p =? cr) then
      Some (make (error l begin "unterminated regular expression literal") RegExpLiteral begin)
    else
      let c := peek p in
      if c =? backslash then regexp_loop fuel (at_pos l (p + 2)) inClass begin
      else if c =? "["%char then regexp_loop fuel (at_pos l (S p)) true begin
      else if c =? "]"%char then regexp_loop fuel (at_pos l (S p)) false begin
      else if (c =? "/"%char) && negb inClass then
        let? p := skip_while (fun p => isIdentPart (char_to_u32 (peek p))) (S p) in
        Some (make (at_pos l p) RegExpLiteral begin)
      else regexp_loop fuel (at_pos l (S p)) inClass begin
  end.

Definition lexRegExp (l : Lexer) : option (Lexer * Token) :=
  regexp_loop turns (at_pos l (S (pos_ l))) false (pos_ l).

(** ** Punctuation *)

(** The switch of [lexPunctuation]: the kind and the number of bytes taken. *)
Definition punctuation (c c1 c2 c3 : Z) : option (TokenKind * nat) :=
  if c =? "("%char then Some (LParen, 1%nat)
  else if c =? ")"%char then Some (RParen, 1%nat)
  else if c =? "{"%char then Some (LBrace, 1%nat)
  else if c =? "}"%char then Some (RBrace, 1%nat)
  else if c =? "["%char then Some (LBracket, 1%nat)
  else if c =? "]"%char then Some (RBracket, 1%nat)
  else if c =? ","%char then Some (Comma, 1%nat)
  else if c =? ";"%char then Some (Semicolon, 1%nat)
  else if c =? ":"%char then Some (Colon, 1%nat)
  else if c =? "."%char then
    if (c1 =? "."%char) && (c2 =? "."%char) then Some (Ellipsis, 3%nat) else Some (Dot, 1%nat)
  else if c =? "?"%char then
    if (c1 =? "?"%char) && (c2 =? "="%char) then Some (QuestionQuestionAssign, 3%nat)
    else if c1 =? "?"%char then Some (QuestionQuestion, 2%nat)
    else if (c1 =? "."%char) && negb (isDigit c2) then Some (QuestionDot, 2%nat)
    else Some (Question, 1%nat)
  else if c =? "&"%char then
    if (c1 =? "&"%char) && (c2 =? "="%char) then Some (AmpAmpAssign, 3%nat)
    else if c1 =? "&"%char then Some (AmpAmp, 2%nat)
    else if c1 =? "="%char then Some (AmpAssign, 2%nat) else Some (Amp, 1%nat)
  else if c =? "|"%char then
    if (c1 =? "|"%char) && (c2 =? "="%char) then Some (PipePipeAssign, 3%nat)
    else if c1 =? "|"%char then Some (PipePipe, 2%nat)
    else if c1 =? "="%char then Some (PipeAssign, 2%nat) else Some (Pipe, 1%nat)
  else if c =? "^"%char then if c1 =? "="%char then Some (CaretAssign, 2%nat) else Some (Caret, 1%nat)
  else if c =? "~"%char then Some (Tilde, 1%nat)
  else if c =? "+"%char then
    if c1 =? "+"%char then Some (PlusPlus, 2%nat)
    else if c1 =? "="%char then Some (PlusAssign, 2%nat) else Some (Plus, 1%nat)
  else if c =? "-"%char then
    if c1 =? "-"%char then Some (MinusMinus, 2%nat)
    else if c1 =? "="%char then Some (MinusAssign, 2%nat) else Some (Minus, 1%nat)
  else if c =? "*"%char then
    if (c1 =? "*"%char) && (c2 =? "="%char) then Some (StarStarAssign, 3%nat)
    else if c1 =? "*"%char then Some (StarStar, 2%nat)
    else if c1 =? "="%char then Some (StarAssign, 2%nat) else Some (Star, 1%nat)
  else if c =? "/"%char then if c1 =? "="%char then Some (SlashAssign, 2%nat) else Some (Slash, 1%nat)
  else if c =? "%"%char then if c1 =? "="%char then Some (PercentAssign, 2%nat) else Some (Percent, 1%nat)
  else if c =? "<"%char then
    if (c1 =? "<"%char) && (c2 =? "="%char) then Some (LessLessAssign, 3%nat)
    else if c1 =? "<"%char then Some (LessLess, 2%nat)
    else if c1 =? "="%char then Some (LessEqual, 2%nat) else Some (Less, 1%nat)
  else if c =? ">"%char then
    if (c1 =? ">"%char) && (c2 =? ">"%char) && (c3 =? "="%char) then Some (GreaterGreaterGreaterAssign, 4%nat)
    else if (c1 =? ">"%char) && (c2 =? ">"%char) then Some (GreaterGreaterGreater, 3%nat)
    else if (c1 =? ">"%char) && (c2 =? "="%char) then Some (GreaterGreaterAssign, 3%nat)
    else if c1 =? ">"%char then Some (GreaterGreater, 2%nat)
    else if c1 =? "="%char then Some (GreaterEqual, 2%nat) else Some (Greater, 1%nat)
  else if c =? "="%char then
    if c1 =? ">"%char then Some (Arrow, 2%nat)
    else if (c1 =? "="%char) && (c2 =? "="%char) then Some (EqualEqualEqual, 3%nat)
    else if c1 =? "="%char then Some (EqualEqual, 2%nat) else Some (Assign, 1%nat)
  else if c =? "!"%char then
    if (c1 =? "="%char) && (c2 =? "="%char) then Some (BangEqualEqual, 3%nat)
    else if c1 =? "="%char then Some (BangEqual, 2%nat) else Some (Bang, 1%nat)
  else None.

Definition lexPunctuation (l : Lexer) : Lexer * Token :=
  let begin := pos_ l in
  match punctuation (peek begin) (peek (begin + 1)) (peek (begin + 2)) (peek (begin + 3)) with
  | Some (k, n) => make (at_pos l (begin + n)) k begin
  | None =>
      make (error (at_pos l (S begin)) begin
              ("unrecognized character '" ++ String (ascii_of_nat (Z.to_nat (peek begin))) "'")) EndOfFile begin
  end.

(** ** The slash *)

(** The tokens before the one that opens what the last token closes, the last token
    first. *)
Fixpoint before_match (close open : TokenKind) (tokens : list Token) (depth : Z) : option (list Token) :=
  match tokens with
  | [] => None
  | t :: tokens =>
      if bool_decide (kind t = close) then before_match close open tokens (depth + 1)
      else if bool_decide (kind t = open) then
        if depth - 1 =? 0 then Some tokens else before_match close open tokens (depth - 1)
      else before_match close open tokens depth
  end.

(** The tokens an expression may follow: the cases after [RBrace]. *)
Definition expects_operand (k : TokenKind) : bool :=
  match k with
  | LParen | LBracket | Comma | Assign | PlusAssign | MinusAssign | StarAssign | SlashAssign
      | PercentAssign | StarStarAssign | AmpAssign | PipeAssign | CaretAssign | LessLessAssign
      | GreaterGreaterAssign | GreaterGreaterGreaterAssign | AmpAmpAssign | PipePipeAssign
      | QuestionQuestionAssign | Plus | Minus | Star | Slash | Percent | StarStar | AmpAmp
      | PipePipe | QuestionQuestion | EqualEqual | EqualEqualEqual | BangEqual | BangEqualEqual
      | Less | LessEqual | Greater | GreaterEqual | Amp | Pipe | Caret | LessLess | GreaterGreater
      | GreaterGreaterGreater | Question | Colon | Bang | Tilde | KwReturn | KwThrow | KwTypeof
      | KwVoid | KwDelete | KwIn | KwInstanceof => true
  | _ => false
  end.

Definition regexAllowedAfter (tokens : list Token) : bool :=
  match tokens with
  | [] => true
  | t :: _ =>
      match kind t with
      | Identifier => bool_decide (text t = bytes "await") || bool_decide (text t = bytes "yield")
      | NumberLiteral | StringLiteral | TemplateWhole | TemplateTail | RegExpLiteral | RBracket
      | PlusPlus | MinusMinus | KwThis | KwSuper | KwTrue | KwFalse | KwNull | KwUndefined => false
      | RParen =>
          match before_match RParen LParen tokens 0 with
          | Some (b :: _) =>
              match kind b with
              | KwIf | KwWhile | KwFor => true
              | Identifier => bool_decide (text b = bytes "with")
              | _ => false
              end
          | _ => false
          end
      | RBrace =>
          match before_match RBrace LBrace tokens 0 with
          | Some (b :: _) => negb (expects_operand (kind b))
          | _ => true
          end
      | _ => true
      end
  end.

(** ** The token loop *)

(** [std::vector<Token>] with its back first. *)
Definition lexToken (l : Lexer) (tokens : list Token) : option (Lexer * Token) :=
  let p := pos_ l in
  let c := peek p in
  let dec := if c <? 0x80 then mkDecoded c 1 else peekCodePoint p in
  if (0 <? len dec)%nat && isIdentStart (cp dec) then lexIdentifierOrKeyword l
  else if c =? "#"%char then
    let afterHash := peekCodePoint (p + 1) in
    if (0 <? len afterHash)%nat && isIdentStart (cp afterHash) then
      let? q := ident_loop turns (p + 1) in
      Some (make (at_pos l q) PrivateName p)
    else Some (lexPunctuation l)
  else if isDigit c || ((c =? "."%char) && isDigit (peek (p + 1))) then lexNumber l
  else if (c =? quote2) || (c =? quote1) then lexString l
  else if c =? "`"%char then lexTemplatePart l true
  else if (c =? "/"%char) && regexAllowedAfter tokens then lexRegExp l
  else
    match substitutionBraces_ l with
    | O :: braces =>
        if c =? "}"%char then lexTemplatePart (with_braces l braces) false
        else if c =? "{"%char then Some (lexPunctuation (with_braces l (1%nat :: braces)))
        else Some (lexPunctuation l)
    | S n :: braces =>
        if c =? "{"%char then Some (lexPunctuation (with_braces l (S (S n) :: braces)))
        else if c =? "}"%char then Some (lexPunctuation (with_braces l (n :: braces)))
        else Some (lexPunctuation l)
    | [] => Some (lexPunctuation l)
    end.

Definition set_newline (t : Token) (b : bool) : Token :=
  mkToken (kind t) (begin t) (end_ t) (text t) b.

(** [None] when the fuel does not suffice. *)
Fixpoint lex_loop (fuel : nat) (l : Lexer) (tokens : list Token) : option (Lexer * list Token * bool) :=
  match fuel with
  | O => None
  | S fuel =>
    let? (l, newlineBefore) := skipTrivia l in
    if atEnd (pos_ l) || hasErrors l then Some (l, tokens, newlineBefore)
    else
      let? (l, t) := lexToken l tokens in
      lex_loop fuel l (set_newline t newlineBefore :: tokens)
  end.

Definition hashbang (p : nat) : option nat :=
  if (p =? 0)%nat && (peek 0 =? "#"%char) && (peek 1 =? "!"%char) then
    skip_while (fun p => negb (atEnd p) && negb (peek p =? lf) && negb (peek p =? cr)) p
  else Some p.

Definition lex (l : Lexer) : option (Lexer * list Token) :=
  let? p := hashbang (pos_ l) in
  let? (l, tokens, newlineBefore) := lex_loop (S turns) (at_pos l p) [] in
  Some (l, rev (mkToken EndOfFile (pos_ l) (pos_ l) [] newlineBefore :: tokens)).
End Lexer.

(** [Lexer lexer(buffer, diags)] with an empty sink. *)
Definition new_lexer : Lexer := mkLexer 0 [] [].

Definition kinds_of (s : string) : option (list TokenKind) :=
  (fun '(_, ts) => map kind ts) <$> lex (bytes s) new_lexer.

Example lexes_program :
  kinds_of "for (let x = 1_0n; x >>>= /[/]/g; ) `a${ {y: x} }b` ?? #z" =
  Some [KwFor; LParen; KwLet; Identifier; Assign; NumberLiteral; Semicolon; Identifier;
        GreaterGreaterGreaterAssign; RegExpLiteral; Semicolon; RParen; TemplateHead; LBrace; Identifier;
        Colon; Identifier; RBrace; TemplateTail; QuestionQuestion; PrivateName; EndOfFile].
Proof. vm_compute. reflexivity. Qed.

Example lexes_slashes :
  kinds_of "if (a) /b/.c; d = {} / e; (f) / g // h" =
  Some [KwIf; LParen; Identifier; RParen; RegExpLiteral; Dot; Identifier; Semicolon; Identifier; Assign;
        LBrace; RBrace; Slash; Identifier; Semicolon; LParen; Identifier; RParen; Slash; Identifier; EndOfFile].
Proof. vm_compute. reflexivity. Qed.

(** ** The lexical grammar *)

Section Grammar.
Context (source : list Z).
#[local] Abbreviation peek := (peek source).
#[local] Abbreviation slice := (slice source).

(** [q] is where a loop over [cond] from [p] stops. *)
Definition run (cond : nat -> bool) (p q : nat) : Prop :=
  (p <= q)%nat /\ (forall i, (p <= i < q)%nat -> cond i = true) /\ cond q = false.

Definition has_lf (p q : nat) : bool := existsb (fun i => peek i =? lf) (seq p (q - p)).
Definition comment_end (p : nat) : bool := (peek p =? "*"%char) && (peek (p + 1) =? "/"%char).

(** White space and comments between [p] and [q]; the flag says whether a line terminator
    counted: an LF, a CR, a U+2028 or a U+2029 outside a comment, or an LF in a block
    comment. *)
Inductive trivia_at : nat -> nat -> bool -> Prop :=
  | trivia_none p : trivia_at p p false
  | trivia_space p q b : peek p = " "%char \/ peek p = tab -> trivia_at (S p) q b -> trivia_at p q b
  | trivia_newline p q b : peek p = lf \/ peek p = cr -> trivia_at (S p) q b -> trivia_at p q true
  | trivia_unicode p q b c : scalar c -> encoded_at source p c -> isUnicodeWhitespace c = true ->
      trivia_at (p + length (encode c)) q b -> trivia_at p q (((c =? 0x2028) || (c =? 0x2029)) || b)
  | trivia_line p e q b : peek p = "/"%char -> peek (p + 1) = "/"%char ->
      run (fun i => negb (atEnd source i) && negb (peek i =? lf)) p e -> trivia_at e q b -> trivia_at p q b
  | trivia_block p e q b : peek p = "/"%char -> peek (p + 1) = "*"%char ->
      run (fun i => negb (comment_end i)) (p + 2) e -> trivia_at (e + 2) q b ->
      trivia_at p q (has_lf (p + 2) e || b).

(** Where the first line ends when it is a hashbang, and the start of the source when it is
    not. *)
Definition hashbang_line (h : nat) : Prop :=
  if (peek 0 =? "#"%char) && (peek 1 =? "!"%char)
  then run (fun p => negb (atEnd source p) && negb (peek p =? lf) && negb (peek p =? cr)) 0 h else h = O.

(** No trivia begins at [p]. *)
Definition no_trivia (p : nat) : Prop := forall q b, trivia_at p q b -> q = p.

(** IdentifierPart code points from [p], as many as there are. *)
Inductive ident_parts : nat -> nat -> Prop :=
  | parts_nil p : (forall c, scalar c -> encoded_at source p c -> isIdentPart c = false) -> ident_parts p p
  | parts_cons p q c : scalar c -> encoded_at source p c -> isIdentPart c = true ->
      ident_parts (p + length (encode c)) q -> ident_parts p q.

Definition ident_name (p q : nat) : Prop :=
  (exists c, scalar c /\ encoded_at source p c /\ isIdentStart c = true) /\ ident_parts p q.

Definition digits (isPart : Z -> bool) : nat -> nat -> Prop :=
  run (fun i => isPart (peek i) || (peek i =? "_"%char)).

(** The permissive numeric literal. *)
Inductive number_at : nat -> nat -> Prop :=
  | number_radix p q : peek p = "0"%char -> radix_prefix (peek (p + 1)) = true ->
      digits isHexDigit (p + 2) q -> number_at p q
  | number_decimal p a b q : (p < a \/ peek p = "."%char)%nat -> digits isDigit p a ->
      (a = b \/ peek a = "."%char /\ digits isDigit (S a) b) ->
      (b = q \/ exponent_at source b = true /\ digits isDigit (b + 2) q) -> number_at p q.

Inductive string_body (quote : Z) : nat -> nat -> Prop :=
  | body_end p : peek p = quote -> string_body quote p p
  | body_char p q : (p < length source)%nat ->
      peek p <> quote -> peek p <> lf -> peek p <> cr -> peek p <> backslash ->
      string_body quote (S p) q -> string_body quote p q
  | body_escape p q : peek p = backslash -> ~ (peek (p + 1) = cr /\ peek (p + 2) = lf) ->
      string_body quote (p + 2) q -> string_body quote p q
  | body_crlf p q : peek p = backslash -> peek (p + 1) = cr -> peek (p + 2) = lf ->
      string_body quote (p + 3) q -> string_body quote p q.

(** A template's characters up to its end, or up to a substitution. *)
Inductive template_body : nat -> nat -> bool -> Prop :=
  | template_end p : peek p = "`"%char -> template_body p (S p) false
  | template_subst p : peek p = "$"%char -> peek (p + 1) = "{"%char -> template_body p (p + 2) true
  | template_escape p q b : peek p = backslash -> template_body (p + 2) q b -> template_body p q b
  | template_char p q b : (p < length source)%nat -> peek p <> "`"%char -> peek p <> backslash ->
      ~ (peek p = "$"%char /\ peek (p + 1) = "{"%char) -> template_body (S p) q b -> template_body p q b.

(** A regular expression from inside its body to the end of its flags. *)
Inductive regexp_body : bool -> nat -> nat -> Prop :=
  | regexp_end p q : peek p = "/"%char -> run (fun i => isIdentPart (char_to_u32 (peek i))) (S p) q ->
      regexp_body false p q
  | regexp_escape cls p q : peek p = backslash -> regexp_body cls (p + 2) q -> regexp_body cls p q
  | regexp_open cls p q : peek p = "["%char -> regexp_body true (S p) q -> regexp_body cls p q
  | regexp_close cls p q : peek p = "]"%char -> regexp_body false (S p) q -> regexp_body cls p q
  | regexp_char (cls : bool) p q : (p < length source)%nat -> peek p <> lf -> peek p <> cr ->
      peek p <> backslash -> peek p <> "["%char -> peek p <> "]"%char -> (peek p = "/"%char -> cls = true) ->
      regexp_body cls (S p) q -> regexp_body cls p q.

Definition opt_n (p q : nat) : Prop := p = q \/ is_n (peek p) = true /\ q = S p.

(** The lexemes of each kind. *)
Inductive lexeme_at : TokenKind -> nat -> nat -> Prop :=
  | lex_keyword s k p q : ident_name p q -> In (s, k) kKeywords -> slice p q = bytes s -> lexeme_at k p q
  | lex_identifier p q : ident_name p q -> (forall s k, In (s, k) kKeywords -> slice p q <> bytes s) ->
      lexeme_at Identifier p q
  | lex_private p q : peek p = "#"%char -> ident_name (S p) q -> lexeme_at PrivateName p q
  | lex_number p e q : number_at p e -> opt_n e q -> lexeme_at NumberLiteral p q
  | lex_string p e : peek p = quote1 \/ peek p = quote2 -> string_body (peek p) (S p) e ->
      lexeme_at StringLiteral p (S e)
  | lex_template_whole p q : peek p = "`"%char -> template_body (S p) q false -> lexeme_at TemplateWhole p q
  | lex_template_head p q : peek p = "`"%char -> template_body (S p) q true -> lexeme_at TemplateHead p q
  | lex_template_middle p q : peek p = "}"%char -> template_body (S p) q true -> lexeme_at TemplateMiddle p q
  | lex_template_tail p q : peek p = "}"%char -> template_body (S p) q false -> lexeme_at TemplateTail p q
  | lex_regexp p q : peek p = "/"%char -> regexp_body false (S p) q -> lexeme_at RegExpLiteral p q
  | lex_punctuator k p q : In k punctuators -> q = (p + length (bytes (tokenKindName k)))%nat ->
      slice p q = bytes (tokenKindName k) -> lexeme_at k p q.

(** The tokens from [p] on, each after the trivia that separates it from the one
    before. *)
Inductive tiled : nat -> list Token -> nat -> Prop :=
  | tiled_nil p : tiled p [] p
  | tiled_cons p t ts q :
      trivia_at p (begin t) (newlineBefore t) -> no_trivia (begin t) ->
      (begin t < end_ t)%nat -> lexeme_at (kind t) (begin t) (end_ t) ->
      text t = slice (begin t) (end_ t) -> tiled (end_ t) ts q -> tiled p (t :: ts) q.

(** ** Scanning *)

Lemma peek_inside p : peek p <> 0 -> (p < length source)%nat.
Proof.
  intros H. destruct (Nat.lt_ge_cases p (length source)); [done|].
  exfalso. apply H. unfold Lexer.peek. by apply limb_ge.
Qed.

Lemma atEnd_false p : atEnd source p = false <-> (p < length source)%nat.
Proof. unfold atEnd. rewrite Nat.leb_gt. done. Qed.

Lemma atEnd_true p : atEnd source p = true <-> (length source <= p)%nat.
Proof. unfold atEnd. by rewrite Nat.leb_le. Qed.

Lemma skip_while_run cond p :
  (forall i, cond i = true -> (i < length source)%nat) -> returns (run cond p) (skip_while source cond p).
Proof.
  intros Hin. eapply returns_mono;
    [apply (while_run_inv (fun q => (p <= q)%nat /\ forall i, (p <= i < q)%nat -> cond i = true)
       (fun q => (length source - q)%nat))|].
  - split; [done|lia].
  - intros q [Hle Hall] Hc. pose proof (Hin q Hc). split; [|lia]. split; [lia|].
    intros i Hi. destruct (Nat.eq_dec i q) as [->|]; [done|]. apply Hall. lia.
  - unfold turns. lia.
  - intros q [[? ?] ?]. by split_and!.
Qed.

Lemma has_lf_step p q : (p <= q)%nat -> has_lf p (S q) = has_lf p q || (peek q =? lf).
Proof.
  intros H. unfold has_lf. replace (S q - p)%nat with ((q - p) + 1)%nat by lia.
  rewrite seq_app, existsb_app. cbn [seq existsb]. replace (p + (q - p))%nat with q by lia.
  by rewrite orb_false_r.
Qed.

Lemma block_comment_spec p saw :
  returns (fun '(e, saw') => (p <= e)%nat /\ saw' = saw || has_lf p e /\
    if atEnd source e then True else run (fun i => negb (comment_end i)) p e) (block_comment source p saw).
Proof.
  unfold block_comment. set (cond := fun '(p, _) => _). set (body := fun '(p, _) => _).
  eapply returns_mono; [apply (while_run_inv (fun '(q, s) => (p <= q)%nat /\ s = saw || has_lf p q /\
      forall i, (p <= i < q)%nat -> comment_end i = false)
    (fun '(q, _) => (length source - q)%nat))|].
  - split_and!; [done| |lia]. unfold has_lf. rewrite Nat.sub_diag. cbn. by rewrite orb_false_r.
  - intros [q s] (Hle & -> & Hall) [Ha Hb]%andb_prop. apply negb_true_iff, atEnd_false in Ha.
    apply negb_true_iff in Hb. split; [|cbn; lia]. cbn. split_and!; [lia| |].
    + by rewrite has_lf_step, orb_assoc.
    + intros i Hi. destruct (Nat.eq_dec i q) as [->|]; [exact Hb|]. apply Hall. lia.
  - unfold turns. lia.
  - intros [e s] [(Hle & -> & Hall) Hc]. split_and!; [done|done|].
    destruct (atEnd source e) eqn:Ee; [done|]. cbn in Hc. rewrite Ee in Hc. cbn [negb andb] in Hc.
    split_and!; [done|intros i Hi; by rewrite Hall|exact Hc].
Qed.

Context (bytes_ok : Forall byte source).

Lemma peek_byte p : 0 <= peek p < 256.
Proof. by apply text_byte. Qed.

(** The first byte of an encoding: the code point itself, or a lead byte. *)
Lemma encoded_first p c : scalar c -> encoded_at source p c ->
  if c <? 128 then peek p = c else 192 <= peek p.
Proof.
  intros Hs He. pose proof (encoded_sequence source p c Hs He) as H. change (peek p) with (source.[p]).
  destruct H as [Hl E|b0 b1|b0 b1 b2|b0 b1 b2 b3].
  - by rewrite (proj2 (Z.ltb_lt _ 128)).
  - rewrite (proj2 (Z.ltb_ge _ 128)); lia.
  - rewrite (proj2 (Z.ltb_ge _ 128)); lia.
  - rewrite (proj2 (Z.ltb_ge _ 128)); lia.
Qed.

Lemma decode_ascii p : 0 < peek p < 128 -> peekCodePoint source p = mkDecoded (peek p) 1.
Proof.
  intros H. apply sequence_decode; [done|]. apply seq1; [apply peek_inside; lia|apply H].
Qed.

Lemma encoded_ascii p : 0 < peek p < 128 -> scalar (peek p) /\ encoded_at source p (peek p) /\
  length (encode (peek p)) = 1%nat.
Proof.
  intros H. destruct (decode_sound source p (peek p) 1 bytes_ok (decode_ascii p H) ltac:(lia)) as (? & ? & ?).
  done.
Qed.

(** Two code points read at one place are one. *)
Lemma encoded_unique p c c' : scalar c -> scalar c' -> encoded_at source p c -> encoded_at source p c' -> c = c'.
Proof.
  intros Hs Hs' He He'. pose proof (decode_complete source p c bytes_ok Hs He) as E.
  rewrite (decode_complete source p c' bytes_ok Hs' He') in E. by injection E.
Qed.

Lemma whitespace_high c : isUnicodeWhitespace c = true -> 128 <= c.
Proof. unfold isUnicodeWhitespace. lia. Qed.

(** Where the trivia loop leaves off there is none. *)
Lemma no_trivia_stop p :
  peek p <> " "%char -> peek p <> tab -> peek p <> cr -> peek p <> lf ->
  ~ (peek p = "/"%char /\ (peek (p + 1) = "/"%char \/ peek (p + 1) = "*"%char)) ->
  (forall c, scalar c -> encoded_at source p c -> isUnicodeWhitespace c = false) -> no_trivia p.
Proof.
  intros H1 H2 H3 H4 H5 H6 q b Ht.
  inversion Ht as [?|? ? ? [?|?]|? ? ? [?|?]|? ? ? c Hs He Hw| |]; subst; try done; try tauto.
  by rewrite (H6 c Hs He) in Hw.
Qed.

(** The trivia the loop skips, from the lexer [l] on. *)
Definition skipped (l l' : Lexer) (saw saw' : bool) : Prop :=
  substitutionBraces_ l' = substitutionBraces_ l /\ (pos_ l <= pos_ l')%nat /\
  ((diags_ l' = diags_ l /\ no_trivia (pos_ l') /\
    exists b, trivia_at (pos_ l) (pos_ l') b /\ saw' = saw || b) \/
   (exists d, diags_ l' = diags_ l ++ [d]) /\ atEnd source (pos_ l') = true).

Lemma trivia_loop_spec fuel l saw :
  (length source - pos_ l < fuel)%nat ->
  returns (fun '(l', saw') => skipped l l' saw saw') (trivia_loop source fuel l saw).
Proof.
  revert l saw. induction fuel as [|fuel IH]; intros l saw Hf; [lia|].
  cbn [trivia_loop]. set (p := pos_ l) in *.
  assert (forall q s (step : forall r b, trivia_at q r b -> exists b', trivia_at p r b' /\ s || b = saw || b'),
    (p < length source)%nat -> (p < q)%nat ->
    returns (fun '(l', saw') => skipped l l' saw saw') (trivia_loop source fuel (at_pos l q) s)) as Hstep.
  { intros q s step Hin Hq. eapply returns_mono; [apply (IH (at_pos l q) s ltac:(cbn; lia))|].
    intros [l' saw'] (Hb & Hp & H). cbn [at_pos pos_ substitutionBraces_ diags_] in Hb, Hp, H.
    split_and!; [done|fold p; lia|]. destruct H as [(Hd & Hn & b & Ht & ->)|H]; [|by right].
    left. split_and!; [done|done|]. destruct (step _ b Ht) as (b' & Ht' & E). by exists b'. }
  assert (forall s, s = saw -> no_trivia p -> returns (fun '(l', saw') => skipped l l' saw saw') (Some (l, s))) as Hstop.
  { intros s -> Hn. apply returns_some. split_and!; [done|done|]. left. split_and!; [done|done|].
    exists false. split; [constructor|by rewrite orb_false_r]. }
  pose proof (peek_byte p) as Hpb. pose proof (peek_byte (p + 1)) as Hpb1.
  assert (peek p <> 0 -> (p < length source)%nat) as Hin by apply peek_inside.
  destruct ((peek p =? " "%char) || (peek p =? tab) || (peek p =? cr) || (peek p =? lf)) eqn:E1.
  { apply Hstep; [|apply Hin; chars; lia|lia].
    intros r b Ht. destruct ((peek p =? lf) || (peek p =? cr)) eqn:E2.
    - exists true. split; [|by rewrite orb_true_r]. apply (trivia_newline p r b).
      + apply orb_prop in E2 as [?%Z.eqb_eq|?%Z.eqb_eq]; auto.
      + by rewrite Nat.add_1_r in Ht.
    - exists b. split; [|done]. apply trivia_space; [|by rewrite Nat.add_1_r in Ht].
      chars; lia. }
  destruct ((peek p =? 0xEF) && (peek (p + 1) =? 0xBB) && (peek (p + 2) =? 0xBF)) eqn:E2.
  { apply andb_prop in E2 as [[E2 E3]%andb_prop E4]. apply Z.eqb_eq in E2, E3, E4.
    apply Hstep; [|apply Hin; lia|lia]. intros r b Ht. exists b. split; [|done].
    apply (trivia_unicode p r b 0xFEFF); [by split; lia| |done|by rewrite Nat.add_comm in Ht; rewrite Nat.add_comm].
    apply encoded_at_iff. change (encode 0xFEFF) with [0xEF; 0xBB; 0xBF]. cbn [length].
    pose proof (peek_inside (p + 2) ltac:(lia)). split; [lia|].
    intros [|[|[|i]]] Hi; rewrite ?Nat.add_0_r; try lia; done. }
  destruct (Z.leb_spec 0x80 (peek p)) as [Hhi|Hlo].
  { destruct (decode_sequence source p bytes_ok) as [En|Hs].
    - unfold peekCodePoint. rewrite En. cbn [len none_decoded Nat.ltb Nat.leb andb].
      apply Hstop; [done|]. apply no_trivia_stop; chars; try lia.
      intros c Hc He. exfalso. rewrite (decode_complete source p c bytes_ok Hc He) in En.
      injection En as _ En. by apply (encode_nonempty c).
    - set (dec := peekCodePoint source p). change (decodeUtf8 source p) with dec in Hs.
      apply sequence_encoded in Hs as (Hsc & He & Hl); [|done].
      assert (0 < len dec)%nat as Hlen by (rewrite Hl; pose proof (encode_nonempty (cp dec)); lia).
      rewrite (proj2 (Nat.ltb_lt _ _)) by done. cbn [andb].
      destruct ((cp dec =? 0x2028) || (cp dec =? 0x2029)) eqn:E3;
        [|destruct (isUnicodeWhitespace (cp dec)) eqn:E4].
      + apply Hstep; [|apply Hin; lia|lia]. intros r b Ht. exists true. split; [|by rewrite orb_true_r].
        replace true with (((cp dec =? 0x2028) || (cp dec =? 0x2029)) || b) by (by rewrite E3).
        apply trivia_unicode; [done|done|unfold isUnicodeWhitespace; lia|by rewrite <- Hl].
      + apply Hstep; [|apply Hin; lia|lia]. intros r b Ht. exists b. split; [|done].
        replace b with (((cp dec =? 0x2028) || (cp dec =? 0x2029)) || b) by (by rewrite E3).
        apply trivia_unicode; [done|done|done|by rewrite <- Hl].
      + apply Hstop; [done|]. apply no_trivia_stop; chars; try lia.
        intros c Hc Hec. by rewrite (encoded_unique p c (cp dec)). }
  assert (forall c, scalar c -> encoded_at source p c -> isUnicodeWhitespace c = false) as Hno.
  { intros c Hc Hec. destruct (isUnicodeWhitespace c) eqn:Ew; [|done]. exfalso.
    apply whitespace_high in Ew. pose proof (encoded_first p c Hc Hec) as Hfst.
    rewrite (proj2 (Z.ltb_ge c 128)) in Hfst by lia. lia. }
  destruct ((peek p =? "/"%char) && (peek (p + 1) =? "/"%char)) eqn:E3.
  { apply andb_prop in E3 as [E3 E4]. apply Z.eqb_eq in E3, E4.
    set (cond := fun i => negb (atEnd source i) && negb (peek i =? lf)).
    eapply returns_bind; [apply (skip_while_run cond p)|].
    { intros i [Hi _]%andb_prop. by apply negb_true_iff, atEnd_false in Hi. }
    intros e Hr. pose proof (Hin ltac:(rewrite E3; done)) as Hin'.
    apply Hstep; [|done|].
    - intros r b Ht. exists b. split; [|done]. by eapply trivia_line.
    - destruct Hr as (Hle & _ & Hend). destruct (Nat.eq_dec p e) as [<-|]; [|lia]. unfold cond in Hend. rewrite (proj2 (atEnd_false p)), E3 in Hend by done. done. }
  destruct ((peek p =? "/"%char) && (peek (p + 1) =? "*"%char)) eqn:E4.
  { apply andb_prop in E4 as [E4 E5]. apply Z.eqb_eq in E4, E5.
    pose proof (Hin ltac:(rewrite E4; done)) as Hin'.
    eapply returns_bind; [apply (block_comment_spec (p + 2) saw)|]. intros [e saw'] (Hle & -> & Hr). cbv zeta.
    destruct (atEnd source e) eqn:Ee.
    - apply returns_some. split_and!; [done|cbn; fold p; lia|]. right. split; [|done]. eexists. reflexivity.
    - change (at_pos (at_pos l e) (e + 2)) with (at_pos l (e + 2)).
      apply Hstep; [|done|lia]. intros r b Ht. exists (has_lf (p + 2) e || b).
      split; [by eapply trivia_block|by rewrite orb_assoc]. }
  apply Hstop; [done|]. apply no_trivia_stop; [..|exact Hno]; chars; lia.
Qed.

Lemma skipTrivia_spec l : returns (fun '(l', saw) => skipped l l' false saw) (skipTrivia source l).
Proof. apply trivia_loop_spec. unfold turns. lia. Qed.

(** ** Tokens *)

(** What scanning one token does: it takes at least one byte, and when it reports
    nothing, a lexeme of the token's kind. *)
Record scanned (l l' : Lexer) (t : Token) : Prop := {
  scanned_begin : begin t = pos_ l;
  scanned_end : end_ t = pos_ l';
  scanned_text : text t = slice (pos_ l) (pos_ l');
  scanned_advance : (pos_ l < pos_ l')%nat;
  scanned_diags : exists ds, diags_ l' = diags_ l ++ ds;
  scanned_lexeme : diags_ l' = diags_ l -> lexeme_at (kind t) (pos_ l) (pos_ l')
}.

Lemma scanned_make l l' k :
  (pos_ l < pos_ l')%nat -> diags_ l' = diags_ l -> lexeme_at k (pos_ l) (pos_ l') ->
  let '(l'', t) := make source l' k (pos_ l) in scanned l l'' t.
Proof. intros Hp Hd Hl. constructor; cbn; try done. exists []. by rewrite app_nil_r. Qed.

Lemma scanned_error l l' k m :
  (pos_ l < pos_ l')%nat -> diags_ l' = diags_ l ->
  let '(l'', t) := make source (error l' (pos_ l) m) k (pos_ l) in scanned l l'' t.
Proof.
  intros Hp Hd. constructor; cbn; try done; rewrite Hd; [by eexists|].
  intros E. apply (f_equal length) in E. rewrite length_app in E. cbn in E. lia.
Qed.

(** A scan that starts on another lexer's position and diagnostics. *)
Lemma scanned_from l l0 l' t :
  pos_ l0 = pos_ l -> diags_ l0 = diags_ l -> scanned l0 l' t -> scanned l l' t.
Proof. intros Ep Ed [H1 H2 H3 H4 H5 H6]. rewrite Ep, Ed in *. by constructor. Qed.

(** What a token does to the brace counts of the open substitutions: [None] when it
    cannot come next. *)
Definition braces_after (k : TokenKind) (b : list nat) : option (list nat) :=
  match k, b with
  | TemplateHead, _ => Some (O :: b)
  | TemplateMiddle, O :: b => Some (O :: b)
  | TemplateTail, O :: b => Some b
  | TemplateMiddle, _ | TemplateTail, _ => None
  | LBrace, n :: b => Some (S n :: b)
  | RBrace, S n :: b => Some (n :: b)
  | RBrace, O :: b => None
  | _, b => Some b
  end.

(** The kinds that leave the counts alone. *)
Definition brace_free (k : TokenKind) : bool :=
  match k with
  | TemplateHead | TemplateMiddle | TemplateTail | LBrace | RBrace => false
  | _ => true
  end.

Lemma brace_free_after k b : brace_free k = true -> braces_after k b = Some b.
Proof. by destruct k. Qed.

Lemma keywords_brace_free text : brace_free (default Identifier (keyword_of text)) = true.
Proof.
  unfold keyword_of. destruct (List.find _ _) as [[s k]|] eqn:E; [|done]. apply List.find_some in E as [Hin _].
  assert (Forall (fun '(_, k) => brace_free k = true) kKeywords) as HF.
  { apply (bool_decide_unpack _). vm_compute. exact I. }
  rewrite Forall_forall in HF. apply (HF (s, k)). by apply list_elem_of_In.
Qed.

(** A token that opens and closes no substitution and no brace. *)
Definition keeps (l l' : Lexer) (t : Token) : Prop :=
  scanned l l' t /\ substitutionBraces_ l' = substitutionBraces_ l /\ brace_free (kind t) = true.

Lemma ident_loop_spec fuel p :
  (length source - p < fuel)%nat ->
  returns (fun q => ident_parts p q /\ (p <= q)%nat) (ident_loop source fuel p).
Proof.
  revert p. induction fuel as [|fuel IH]; intros p Hf; [lia|]. cbn [ident_loop].
  assert (forall c n, scalar c -> encoded_at source p c -> n = length (encode c) -> isIdentPart c = true ->
    returns (fun q => ident_parts p q /\ (p <= q)%nat) (ident_loop source fuel (p + n))) as Hstep.
  { intros c n Hc He -> Hi. pose proof (encode_nonempty c).
    pose proof (proj1 (encoded_at_iff source p c) He) as [Hl _].
    eapply returns_mono; [apply (IH (p + length (encode c))%nat ltac:(lia))|]. intros q [H1 H2]. split; [by eapply parts_cons|lia]. }
  assert (forall c, scalar c -> encoded_at source p c -> isIdentPart c = false ->
    returns (fun q => ident_parts p q /\ (p <= q)%nat) (Some p)) as Hstop.
  { intros c Hc He Hi. apply returns_some. split; [|done]. constructor. intros c' Hc' He'.
    by rewrite (encoded_unique p c' c). }
  pose proof (peek_byte p) as Hpb. destruct (negb (peek p =? 0) && (peek p <? 128)) eqn:E.
  - destruct (encoded_ascii p ltac:(lia)) as (Hs & He & Hl).
    destruct (isIdentPart (peek p)) eqn:Ei; [by apply (Hstep (peek p))|by apply (Hstop (peek p))].
  - destruct (decode_sequence source p bytes_ok) as [En|Hseq].
    + unfold peekCodePoint. rewrite En. cbn. apply returns_some. split; [|done]. constructor. intros c Hc He.
      rewrite (decode_complete source p c bytes_ok Hc He) in En. injection En as _ En.
      by apply encode_nonempty in En.
    + set (dec := peekCodePoint source p). change (decodeUtf8 source p) with dec in Hseq.
      apply sequence_encoded in Hseq as (Hsc & He & Hl); [|done].
      rewrite (proj2 (Nat.ltb_lt 0 (len dec))) by (rewrite Hl; pose proof (encode_nonempty (cp dec)); lia).
      cbn [andb]. destruct (isIdentPart (cp dec)) eqn:Ei; [by apply (Hstep (cp dec))|by apply (Hstop (cp dec))].
Qed.

Lemma start_is_part c : isIdentStart c = true -> isIdentPart c = true.
Proof. unfold isIdentPart, isIdentStart. destruct (c <? 128); [|done]. by intros ->. Qed.

(** A name that starts takes at least one code point. *)
Lemma ident_name_spec p :
  (exists c, scalar c /\ encoded_at source p c /\ isIdentStart c = true) ->
  returns (fun q => ident_name p q /\ (p < q)%nat) (ident_loop source (turns source) p).
Proof.
  intros (c & Hc & He & Hi). eapply returns_mono; [apply (ident_loop_spec (turns source) p); unfold turns; lia|].
  intros q [H Hle]. split; [by split; [exists c|]|]. inversion H as [? Hn|? ? c' Hc' He' _ Ht]; subst.
  - specialize (Hn c Hc He). rewrite (start_is_part c Hi) in Hn. done.
  - assert (forall a b, ident_parts a b -> (a <= b)%nat) as Hmono.
    { intros a b Hab. induction Hab; lia. }
    apply Hmono in Ht. pose proof (encode_nonempty c'). lia.
Qed.

Lemma keyword_lexeme p q : ident_name p q -> lexeme_at (default Identifier (keyword_of (slice p q))) p q.
Proof.
  intros Hn. unfold keyword_of. destruct (List.find _ _) as [[s k]|] eqn:E; cbn.
  - apply List.find_some in E as [Hin Hb%bool_decide_eq_true]. by eapply lex_keyword.
  - apply lex_identifier; [done|]. intros s k Hin Eq.
    pose proof (List.find_none _ _ E (s, k) Hin) as Hb. cbn in Hb. by apply bool_decide_eq_false in Hb.
Qed.

Lemma lexIdentifier_spec l :
  (exists c, scalar c /\ encoded_at source (pos_ l) c /\ isIdentStart c = true) ->
  returns (fun '(l', t) => keeps l l' t) (lexIdentifierOrKeyword source l).
Proof.
  intros H. unfold lexIdentifierOrKeyword. eapply returns_bind; [apply (ident_name_spec _ H)|]. intros q [Hn Hlt].
  apply returns_some. split_and!; [|done|apply keywords_brace_free].
  apply (scanned_make l (at_pos l q)); [done|done|]. by apply keyword_lexeme.
Qed.

Lemma digits_run isPart p : isPart 0 = false -> returns (digits isPart p) (takeDigits source isPart p).
Proof.
  intros H0. apply skip_while_run. intros i Hi. apply peek_inside. intros E. rewrite E, H0 in Hi. done.
Qed.

Lemma run_le cond p q : run cond p q -> (p <= q)%nat.
Proof. by intros [H _]. Qed.

Lemma lexNumber_spec l :
  isDigit (peek (pos_ l)) = true \/ peek (pos_ l) = "."%char /\ isDigit (peek (pos_ l + 1)) = true ->
  returns (fun '(l', t) => keeps l l' t) (lexNumber source l).
Proof.
  intros Hstart. unfold lexNumber. set (p := pos_ l) in *.
  assert (forall e, (p < e)%nat -> number_at p e ->
    returns (fun '(l', t) => keeps l l' t) (Some (make source (at_pos l (if is_n (peek e) then S e else e)) NumberLiteral p))) as Hfin.
  { intros e Hlt Hn. apply returns_some. split_and!; [|done|done]. apply (scanned_make l (at_pos l _)); [|done|].
    - cbn. fold p. destruct (is_n (peek e)); lia.
    - cbn. fold p. apply (lex_number p e); [done|]. unfold opt_n. destruct (is_n (peek e)); auto. }
  destruct ((peek p =? "0"%char) && radix_prefix (peek (p + 1))) eqn:E0.
  - apply andb_prop in E0 as [E0%Z.eqb_eq Er].
    eapply returns_bind; [apply (digits_run isHexDigit (p + 2) eq_refl)|]. intros q Hd. pose proof (run_le _ _ _ Hd).
    apply Hfin; [lia|]. by apply number_radix.
  - eapply returns_bind; [apply (digits_run isDigit p eq_refl)|]. intros a Ha. pose proof (run_le _ _ _ Ha) as Hpa.
    cbv zeta. set (prop := _ && negb (exponent_at source (a + 1))).
    eapply (returns_bind (fun b => (a = b /\ (peek a =? "."%char) && negb prop = false) \/ peek a = "."%char /\ digits isDigit (S a) b)).
    { destruct ((peek a =? "."%char) && negb prop) eqn:Ed; [|by apply returns_some; left].
      apply andb_prop in Ed as [Ed%Z.eqb_eq _]. eapply returns_mono; [by apply digits_run|]. auto. }
    intros b Hb. assert (a <= b)%nat as Hab by (destruct Hb as [[? _]|[_ Hb%run_le]]; lia).
    eapply (returns_bind (fun q => b = q \/ exponent_at source b = true /\ digits isDigit (b + 2) q)).
    { destruct (exponent_at source b); [|by apply returns_some; left]. eapply returns_mono; [by apply digits_run|]. auto. }
    intros q Hq. assert (b <= q)%nat as Hbq by (destruct Hq as [?|[_ Hq%run_le]]; lia).
    destruct Ha as (_ & Hall & Hend). destruct Hstart as [Hd|[Hdot Hd]].
    + assert (p < a)%nat as Hlt.
      { destruct (Nat.eq_dec p a) as [E|]; [|lia]. rewrite <- E in Hend. by rewrite Hd in Hend. }
      apply Hfin; [lia|]. apply (number_decimal p a b q); [auto|by split_and!|tauto|done].
    + assert (a = p) as Eap.
      { destruct (Nat.eq_dec a p) as [|]; [done|]. specialize (Hall p ltac:(lia)). by rewrite Hdot in Hall. }
      assert (p < b)%nat as Hlt.
      { destruct Hb as [[Eb Ed]|[_ Hb%run_le]]; [|lia]. exfalso.
        assert (prop = false) as Epr.
        { unfold prop. rewrite Eap. rewrite decode_ascii; [|unfold isDigit in Hd; chars; lia].
          cbn [cp len]. assert (isIdentStart (peek (p + 1)) = false) as ->; [|done].
          unfold isIdentStart, isDigit in *. chars. rewrite (proj2 (Z.ltb_lt _ 128)) by lia. lia. }
        by rewrite Epr, Eap, Hdot in Ed. }
      apply Hfin; [lia|]. apply (number_decimal p a b q); [auto|by split_and!|tauto|done].
Qed.

Lemma string_scan quote fuel p :
  (length source - p < fuel)%nat ->
  returns (fun e => (p <= e)%nat /\ (atEnd source e = false -> peek e = quote -> string_body quote p e))
    (while_run fuel
      (fun p => negb (atEnd source p) && negb (peek p =? quote) && negb (peek p =? lf) && negb (peek p =? cr))
      (string_step source) p).
Proof.
  revert p. induction fuel as [|fuel IH]; intros p Hf; [lia|]. cbn [while_run].
  destruct (negb (atEnd source p) && negb (peek p =? quote) && negb (peek p =? lf) && negb (peek p =? cr)) eqn:E.
  - apply andb_prop in E as [[[E1 E2]%andb_prop E3]%andb_prop E4].
    apply negb_true_iff in E1, E2, E3, E4. apply atEnd_false in E1.
    apply Z.eqb_neq in E2, E3, E4.
    assert (p < string_step source p)%nat as Hlt.
    { unfold string_step. destruct (peek p =? backslash); [|lia]. destruct (_ && _); lia. }
    eapply returns_mono; [apply (IH (string_step source p)); lia|]. intros e [H1 H2]. split; [lia|]. intros He Hq.
    specialize (H2 He Hq). unfold string_step in *. destruct (Z.eqb_spec (peek p) backslash) as [Eb|Eb].
    + destruct ((peek (S p) =? cr) && (peek (S p + 1) =? lf)) eqn:Ec.
      * apply andb_prop in Ec as [Ec1%Z.eqb_eq Ec2%Z.eqb_eq].
        apply body_crlf; [done|by rewrite Nat.add_1_r|by replace (p + 2)%nat with (S p + 1)%nat by lia|].
        by replace (p + 3)%nat with (S (S (S p))) by lia.
      * apply body_escape; [done| |by replace (p + 2)%nat with (S (S p)) by lia].
        intros [H3 H4]. rewrite Nat.add_1_r in H3. replace (p + 2)%nat with (S p + 1)%nat in H4 by lia.
        by rewrite H3, H4 in Ec.
    + by apply body_char.
  - apply returns_some. split; [done|]. intros He Hq. by constructor.
Qed.

Lemma lexString_spec l :
  peek (pos_ l) = quote1 \/ peek (pos_ l) = quote2 ->
  returns (fun '(l', t) => keeps l l' t) (lexString source l).
Proof.
  intros Hq. unfold lexString. set (p := pos_ l) in *. cbv zeta.
  eapply returns_bind; [apply (string_scan (peek p) (turns source) (S p)); unfold turns; lia|]. intros e [Hle Hb].
  destruct (atEnd source e || negb (peek e =? peek p)) eqn:E; apply returns_some.
  - split_and!; [|done|done]. apply (scanned_error l (at_pos l e)); [cbn [at_pos pos_]; fold p; lia|done].
  - apply orb_false_iff in E as [E1 E2%negb_false_iff%Z.eqb_eq]. split_and!; [|done|done].
    apply (scanned_make l (at_pos l (S e))); [cbn [at_pos pos_]; fold p; lia|done|]. cbn [at_pos pos_]. fold p. apply lex_string; auto.
Qed.

Definition template_kind (isHead subst : bool) : TokenKind :=
  match isHead, subst with
  | true, false => TemplateWhole | true, true => TemplateHead
  | false, true => TemplateMiddle | false, false => TemplateTail
  end.

(** The loop of a template part: a part of the kind its ends say, or an error. *)
Lemma template_loop_spec fuel l isHead b :
  (length source - pos_ l < fuel)%nat ->
  exists l' subst, (pos_ l <= pos_ l')%nat /\ diags_ l' = diags_ l /\
    (template_loop source fuel l isHead b = Some (make source l' (template_kind isHead subst) b) /\
     template_body (pos_ l) (pos_ l') subst /\
     substitutionBraces_ l' = (if subst then O :: substitutionBraces_ l else substitutionBraces_ l) \/
     exists m, template_loop source fuel l isHead b = Some (make source (error l' b m) TemplateWhole b)).
Proof.
  revert l. induction fuel as [|fuel IH]; intros l Hf; [lia|]. cbn [template_loop]. set (p := pos_ l) in *.
  assert (forall q, (p < length source)%nat -> (p < q)%nat ->
    (forall r s, template_body q r s -> template_body p r s) ->
    exists l' subst, (p <= pos_ l')%nat /\ diags_ l' = diags_ l /\
    (template_loop source fuel (at_pos l q) isHead b = Some (make source l' (template_kind isHead subst) b) /\
     template_body p (pos_ l') subst /\
     substitutionBraces_ l' = (if subst then O :: substitutionBraces_ l else substitutionBraces_ l) \/
     exists m, template_loop source fuel (at_pos l q) isHead b = Some (make source (error l' b m) TemplateWhole b))) as Hstep.
  { intros q Hin Hq Hbody. destruct (IH (at_pos l q) ltac:(cbn; lia)) as (l' & s & Hp & Hd & H).
    cbn [at_pos pos_ diags_ substitutionBraces_] in *. exists l', s. split_and!; [lia|done|].
    destruct H as [(? & ? & ?)|?]; [left|by right]. auto. }
  destruct (atEnd source p) eqn:Ea.
  { exists l, false. split_and!; [done|done|]. right. by eexists. }
  apply atEnd_false in Ea.
  destruct (Z.eqb_spec (peek p) backslash) as [Eb|Eb].
  { apply Hstep; [done|lia|]. intros r s Hr. by apply template_escape. }
  destruct (Z.eqb_spec (peek p) "`"%char) as [Et|Et].
  { exists (at_pos l (S p)), false. split_and!; [cbn; lia|done|]. left.
    split_and!; [by destruct isHead|by constructor|done]. }
  destruct ((peek p =? "$"%char) && (peek (p + 1) =? "{"%char)) eqn:Es.
  { apply andb_prop in Es as [Es1%Z.eqb_eq Es2%Z.eqb_eq].
    exists (with_braces (at_pos l (p + 2)) (O :: substitutionBraces_ l)), true.
    split_and!; [cbn; lia|done|]. left. split_and!; [by destruct isHead|by constructor|done]. }
  apply Hstep; [done|lia|]. intros r s Hr. apply template_char; try done.
  intros [H1 H2]. by rewrite H1, H2 in Es.
Qed.

Lemma lexTemplatePart_spec l (isHead : bool) :
  peek (pos_ l) = (if isHead then "`"%char else "}"%char) ->
  returns (fun '(l', t) => scanned l l' t /\
    (diags_ l' = diags_ l -> exists subst, kind t = template_kind isHead subst /\
       substitutionBraces_ l' = if subst then O :: substitutionBraces_ l else substitutionBraces_ l)) (lexTemplatePart source l isHead).
Proof.
  intros Hc. unfold lexTemplatePart. set (p := pos_ l) in *.
  destruct (template_loop_spec (turns source) (at_pos l (S p)) isHead p) as (l' & s & Hp & Hd & H).
  { unfold turns. cbn. lia. }
  cbn [at_pos pos_ diags_ substitutionBraces_] in *. destruct H as [(-> & Hb & Hbr)|[m ->]]; apply returns_some.
  - split; [|intros _; by exists s]. apply (scanned_make l l'); [fold p; lia|done|]. fold p.
    destruct isHead, s; by constructor.
  - split; [by apply (scanned_error l l'); [fold p; lia|]|]. intros E. exfalso. cbn in E. rewrite Hd in E.
    apply (f_equal length) in E. rewrite length_app in E. cbn in E. lia.
Qed.

Lemma regexp_loop_spec fuel l cls b :
  (length source - pos_ l < fuel)%nat ->
  exists l', (pos_ l <= pos_ l')%nat /\ diags_ l' = diags_ l /\ substitutionBraces_ l' = substitutionBraces_ l /\
    (regexp_loop source fuel l cls b = Some (make source l' RegExpLiteral b) /\ regexp_body cls (pos_ l) (pos_ l') \/
     exists m, regexp_loop source fuel l cls b = Some (make source (error l' b m) RegExpLiteral b)).
Proof.
  revert l cls. induction fuel as [|fuel IH]; intros l cls Hf; [lia|]. cbn [regexp_loop]. set (p := pos_ l) in *.
  assert (forall q c, (p < length source)%nat -> (p < q)%nat ->
    (forall r, regexp_body c q r -> regexp_body cls p r) ->
    exists l', (p <= pos_ l')%nat /\ diags_ l' = diags_ l /\ substitutionBraces_ l' = substitutionBraces_ l /\
    (regexp_loop source fuel (at_pos l q) c b = Some (make source l' RegExpLiteral b) /\ regexp_body cls p (pos_ l') \/
     exists m, regexp_loop source fuel (at_pos l q) c b = Some (make source (error l' b m) RegExpLiteral b))) as Hstep.
  { intros q c Hin Hq Hbody. destruct (IH (at_pos l q) c ltac:(cbn; lia)) as (l' & Hp & Hd & Hbr & H).
    cbn [at_pos pos_ diags_ substitutionBraces_] in *. exists l'. split_and!; [lia|done|done|].
    destruct H as [(? & ?)|?]; [left|by right]. auto. }
  destruct (atEnd source p || (peek p =? lf) || (peek p =? cr)) eqn:Ea.
  { exists l. split_and!; [done|done|done|]. right. by eexists. }
  apply orb_false_iff in Ea as [[Ea Elf]%orb_false_iff Ecr]. apply atEnd_false in Ea.
  apply Z.eqb_neq in Elf, Ecr.
  destruct (Z.eqb_spec (peek p) backslash) as [Eb|Eb].
  { apply Hstep; [done|lia|]. intros r Hr. by apply regexp_escape. }
  destruct (Z.eqb_spec (peek p) "["%char) as [Eo|Eo].
  { apply Hstep; [done|lia|]. intros r Hr. by apply regexp_open. }
  destruct (Z.eqb_spec (peek p) "]"%char) as [Ec|Ec].
  { apply Hstep; [done|lia|]. intros r Hr. by apply regexp_close. }
  destruct ((peek p =? "/"%char) && negb cls) eqn:Es.
  { apply andb_prop in Es as [Es%Z.eqb_eq Ecls%negb_true_iff]. subst cls.
    destruct (skip_while_run (fun i => isIdentPart (char_to_u32 (peek i))) (S p)) as (q & -> & Hr).
    { intros i Hi. apply peek_inside. intros E. by rewrite E in Hi. }
    exists (at_pos l q). pose proof (run_le _ _ _ Hr). split_and!; [cbn [at_pos pos_]; lia|done|done|]. left.
    split; [done|]. by apply regexp_end. }
  apply Hstep; [done|lia|]. intros r Hr. apply regexp_char; try done. intros E. rewrite E in Es.
  by destruct cls.
Qed.

Lemma lexRegExp_spec l :
  peek (pos_ l) = "/"%char ->
  returns (fun '(l', t) => keeps l l' t) (lexRegExp source l).
Proof.
  intros Hc. unfold lexRegExp. set (p := pos_ l) in *.
  destruct (regexp_loop_spec (turns source) (at_pos l (S p)) false p) as (l' & Hp & Hd & Hbr & H).
  { unfold turns. cbn. lia. }
  cbn [at_pos pos_ diags_ substitutionBraces_] in *. destruct H as [(-> & Hb)|[m ->]]; apply returns_some.
  - split_and!; [|done|done]. apply (scanned_make l l'); [fold p; lia|done|]. fold p. by apply lex_regexp.
  - split_and!; [|done|done]. by apply (scanned_error l l'); [fold p; lia|].
Qed.

(** ** Operators *)

Definition spelling (k : TokenKind) : list Z := bytes (tokenKindName k).

Lemma punctuation_spelling c c1 c2 c3 k n :
  punctuation c c1 c2 c3 = Some (k, n) ->
  In k punctuators /\ spelling k = take n [c; c1; c2; c3] /\ length (spelling k) = n.
Proof.
  unfold punctuation. intros E.
  repeat match type of E with (if ?c then _ else _) = _ => destruct c eqn:? end;
    try discriminate E; injection E as <- <-;
    repeat match goal with
    | H : _ && _ = true |- _ => apply andb_prop in H as [? ?]
    | H : (_ =? _) = true |- _ => apply Z.eqb_eq in H; subst
    end;
    (split; [apply list_elem_of_In; apply (bool_decide_unpack _); vm_compute; exact I|split; reflexivity]).
Qed.

(** The longest spelling wins: one that starts with what any operator spells is not
    shorter, the optional chain before a digit apart. *)
Lemma punctuation_munch c c1 c2 c3 :
  Forall (fun k => take (length (spelling k)) [c; c1; c2; c3] = spelling k ->
    (k = QuestionDot -> isDigit c2 = false) ->
    exists k' n, punctuation c c1 c2 c3 = Some (k', n) /\ (length (spelling k) <= n)%nat) punctuators.
Proof.
  unfold punctuators. repeat (apply Forall_cons; split); try by constructor.
  all: intros E Hd; vm_compute in E; injection E; intros; subst; unfold punctuation.
  all: try (rewrite Hd by reflexivity).
  all: repeat match goal with
    | |- exists k' n, (if ?c then _ else _) = _ /\ _ =>
        let H := fresh in destruct c eqn:H; try discriminate H
    end.
  all: eexists _, _; split; [reflexivity|vm_compute; lia].
Qed.

Lemma spelling_chars k : In k punctuators -> Forall (fun c => c <> 0) (spelling k) /\
  (0 < length (spelling k) <= 4)%nat.
Proof.
  intros H. assert (Forall (fun k => forallb (fun c => negb (c =? 0)) (spelling k) &&
    (0 <? length (spelling k))%nat && (length (spelling k) <=? 4)%nat = true) punctuators) as HF.
  { apply (bool_decide_unpack _). vm_compute. exact I. }
  rewrite Forall_forall in HF. specialize (HF k (proj2 (list_elem_of_In _ _) H)).
  apply andb_prop in HF as [[H1 H2%Nat.ltb_lt]%andb_prop H3%Nat.leb_le]. split; [|lia].
  apply Forall_forall. intros c Hc%list_elem_of_In E. rewrite forallb_forall in H1.
  specialize (H1 c Hc). by subst c.
Qed.

Lemma limb4 p i : (i < 4)%nat -> [peek p; peek (p + 1); peek (p + 2); peek (p + 3)].[i] = peek (p + i).
Proof. intros H. destruct i as [|[|[|[|i]]]]; try lia; [by rewrite Nat.add_0_r|done..]. Qed.

Lemma prefix_pointwise (l s : list Z) : Forall (fun c => c <> 0) s ->
  take (length s) l = s <-> forall i, (i < length s)%nat -> l.[i] = s.[i].
Proof.
  intros Hnz. split.
  - intros E i Hi. rewrite <- E. unfold limb. by rewrite lookup_take_lt.
  - intros H. apply list_eq. intros i. destruct (Nat.lt_ge_cases i (length s)) as [Hi|Hi].
    + rewrite lookup_take_lt by done. specialize (H i Hi). rewrite (limb_lookup_lt s i Hi).
      rewrite Forall_lookup in Hnz. specialize (Hnz i _ (limb_lookup_lt s i Hi)).
      rewrite limb_lookup_lt; [by rewrite H|].
      destruct (Nat.lt_ge_cases i (length l)); [done|]. rewrite (limb_ge l i) in H by done. congruence.
    + rewrite !lookup_ge_None_2; [done|done|]. rewrite length_take. lia.
Qed.

(** A spelling is at [p] exactly when the next characters begin with it. *)
Lemma spelled_at p s :
  Forall (fun c => c <> 0) s -> (length s <= 4)%nat ->
  slice p (p + length s) = s <-> take (length s) [peek p; peek (p + 1); peek (p + 2); peek (p + 3)] = s.
Proof.
  intros Hnz Hlen. unfold Lexer.slice. replace (p + length s - p)%nat with (length s) by lia.
  rewrite !prefix_pointwise by done. split; intros H i Hi; specialize (H i Hi).
  - rewrite limb4 by lia. rewrite <- H. unfold limb. by rewrite lookup_drop.
  - rewrite limb4 in H by lia. rewrite <- H. unfold limb. by rewrite lookup_drop.
Qed.

Lemma lexPunctuation_spec l :
  let '(l', t) := lexPunctuation source l in
  scanned l l' t /\ substitutionBraces_ l' = substitutionBraces_ l /\
  (diags_ l' = diags_ l -> In (kind t) punctuators /\
     punctuation (peek (pos_ l)) (peek (pos_ l + 1)) (peek (pos_ l + 2)) (peek (pos_ l + 3))
     = Some (kind t, length (spelling (kind t)))).
Proof.
  unfold lexPunctuation. set (p := pos_ l).
  destruct (punctuation _ _ _ _) as [[k n]|] eqn:E.
  - destruct (punctuation_spelling _ _ _ _ _ _ E) as (Hin & Hs & Hl).
    destruct (spelling_chars k Hin) as [Hnz Hlen].
    split_and!; [|done|intros _; cbn [make kind snd]; by rewrite Hl].
    apply (scanned_make l (at_pos l (p + n))); [cbn [at_pos pos_]; fold p; lia|done|].
    cbn [at_pos pos_]. fold p. apply lex_punctuator; fold (spelling k); [done|by rewrite Hl|].
    rewrite <- Hl. apply spelled_at; [done|lia|]. by rewrite Hl.
  - split_and!; [|done|].
    + apply (scanned_error l (at_pos l (S p))); [cbn [at_pos pos_]; fold p; lia|done].
    + intros H. exfalso. cbn [make error diags_ at_pos] in H. apply (f_equal length) in H.
      rewrite length_app in H. cbn in H. lia.
Qed.

(** ** The token loop *)

(** The punctuators are told from their first character. *)
Lemma punctuation_braces c c1 c2 c3 k n : punctuation c c1 c2 c3 = Some (k, n) ->
  (c = "{"%char /\ k = LBrace) \/ (c = "}"%char /\ k = RBrace) \/
  (c <> "{"%char /\ c <> "}"%char /\ brace_free k = true).
Proof.
  intros E. destruct (punctuation_spelling _ _ _ _ _ _ E) as (Hin & Hs & Hl).
  assert (forall x y, Some (k, n) = Some (x, y) -> k = x) as Hk by (by intros x y [= -> _]).
  destruct (Z.eq_dec c "{"%char) as [->|Ho]; [left; split; [done|]; symmetry in E; by apply Hk in E|].
  destruct (Z.eq_dec c "}"%char) as [->|Hc]; [right; left; split; [done|]; symmetry in E; by apply Hk in E|].
  right; right. split_and!; [done|done|].
  destruct k; try done; cbn in Hl; subst n; cbn in Hs; injection Hs; intros; subst; done.
Qed.

Lemma decoded_start p :
  (0 <? len (peekCodePoint source p))%nat && isIdentStart (cp (peekCodePoint source p)) = true ->
  exists c, scalar c /\ encoded_at source p c /\ isIdentStart c = true.
Proof.
  intros [Hl%Nat.ltb_lt Hi]%andb_prop. unfold peekCodePoint in *.
  destruct (decodeUtf8 source p) as [c n] eqn:E. cbn [len cp] in *.
  destruct (decode_sound source p c n bytes_ok E) as (? & ? & ?); [lia|by eexists].
Qed.

Lemma ident_start_at p :
  (let dec := if peek p <? 128 then mkDecoded (peek p) 1 else peekCodePoint source p in
   (0 <? len dec)%nat && isIdentStart (cp dec)) = true ->
  exists c, scalar c /\ encoded_at source p c /\ isIdentStart c = true.
Proof.
  cbv zeta. destruct (Z.ltb_spec (peek p) 128); [|apply decoded_start]. cbn. intros Hi.
  destruct (encoded_ascii p) as (? & ? & ?); [|by eexists]. pose proof (peek_byte p).
  destruct (Z.eq_dec (peek p) 0) as [E|]; [|lia]. by rewrite E in Hi.
Qed.

(** A token that opens and closes nothing. *)
Definition plain (l l' : Lexer) (t : Token) : Prop :=
  scanned l l' t /\
  (diags_ l' = diags_ l -> braces_after (kind t) (substitutionBraces_ l) = Some (substitutionBraces_ l')).

Lemma plain_free l l' t :
  keeps l l' t -> plain l l' t.
Proof. intros (H & E & Hf). split; [done|]. intros _. rewrite E. by apply brace_free_after. Qed.

Lemma punctuation_plain l b :
  (diags_ l = diags_ l -> forall k n,
     punctuation (peek (pos_ l)) (peek (pos_ l + 1)) (peek (pos_ l + 2)) (peek (pos_ l + 3)) = Some (k, n) ->
     braces_after k (substitutionBraces_ l) = Some b) ->
  returns (fun '(l', t) => plain l l' t) (Some (lexPunctuation source (with_braces l b))).
Proof.
  intros H. apply returns_some. pose proof (lexPunctuation_spec (with_braces l b)) as Hs.
  destruct (lexPunctuation source (with_braces l b)) as [l' t]. destruct Hs as (Hs & Hb & Hp).
  split; [by apply (scanned_from l (with_braces l b))|]. intros Hd. destruct (Hp Hd) as [_ Hk]. rewrite Hb. by eapply H.
Qed.

Lemma plain_returns l o : returns (fun '(l', t) => keeps l l' t) o -> returns (fun '(l', t) => plain l l' t) o.
Proof. intros H. eapply returns_mono; [exact H|]. intros [l' t]. apply plain_free. Qed.

Lemma template_plain l b isHead :
  peek (pos_ l) = (if isHead : bool then "`"%char else "}"%char) ->
  (if isHead then b = substitutionBraces_ l else substitutionBraces_ l = O :: b) ->
  returns (fun '(l', t) => plain l l' t) (lexTemplatePart source (with_braces l b) isHead).
Proof.
  intros Hc Hb. eapply returns_mono; [apply (lexTemplatePart_spec (with_braces l b) isHead Hc)|]. intros [l' t] [Hs Hk].
  split; [by apply (scanned_from l (with_braces l b))|]. intros Hd. destruct (Hk Hd) as (s & -> & ->). cbn [substitutionBraces_ with_braces].
  destruct isHead, s; cbn; rewrite Hb; done.
Qed.

Lemma lexToken_spec l tokens : returns (fun '(l', t) => plain l l' t) (lexToken source l tokens).
Proof.
  unfold lexToken. set (p := pos_ l).
  destruct (_ && isIdentStart _) eqn:E1.
  { apply plain_returns, (lexIdentifier_spec l (ident_start_at p E1)). }
  clear E1. destruct (Z.eqb_spec (peek p) "#"%char) as [Eh|Eh].
  { destruct (_ && isIdentStart _) eqn:E2.
    - apply decoded_start in E2. apply plain_returns. eapply returns_bind; [apply (ident_name_spec _ E2)|].
      rewrite Nat.add_1_r. intros q [Hn Hlt]. apply returns_some. split_and!; [|done|done].
      apply (scanned_make l (at_pos l q)); [cbn [at_pos pos_]; fold p; lia|done|]. by apply lex_private.
    - pose proof (punctuation_plain l (substitutionBraces_ l)) as H. destruct l. apply H. intros _ k n Hp.
      fold p in Hp. rewrite Eh in Hp. discriminate Hp. }
  destruct (isDigit (peek p) || _) eqn:E2.
  { apply plain_returns, lexNumber_spec. apply orb_prop in E2 as [?|[?%Z.eqb_eq ?]%andb_prop]; auto. }
  destruct ((peek p =? quote2) || (peek p =? quote1)) eqn:E3.
  { apply plain_returns, lexString_spec. apply orb_prop in E3 as [?%Z.eqb_eq|?%Z.eqb_eq]; auto. }
  destruct (Z.eqb_spec (peek p) "`"%char) as [E4|E4].
  { pose proof (template_plain l (substitutionBraces_ l) true E4 eq_refl) as H. by destruct l. }
  destruct ((peek p =? "/"%char) && regexAllowedAfter tokens) eqn:E5.
  { apply andb_prop in E5 as [E5%Z.eqb_eq _]. apply plain_returns, (lexRegExp_spec l E5). }
  assert (forall b, (peek p = "{"%char -> braces_after LBrace (substitutionBraces_ l) = Some b) ->
    (peek p = "}"%char -> braces_after RBrace (substitutionBraces_ l) = Some b) ->
    (peek p <> "{"%char -> peek p <> "}"%char -> b = substitutionBraces_ l) ->
    returns (fun '(l', t) => plain l l' t) (Some (lexPunctuation source (with_braces l b)))) as Hpunct.
  { intros b H1 H2 H3. apply punctuation_plain. intros _ k n Hp. fold p in Hp.
    destruct (punctuation_braces _ _ _ _ _ _ Hp) as [[Ec ->]|[[Ec ->]|(Ho & Hc & Hf)]]; auto.
    rewrite H3 by done. by apply brace_free_after. }
  destruct (substitutionBraces_ l) as [|[|n] b] eqn:Eb.
  - specialize (Hpunct []). destruct l. cbn in Eb. subst. by apply Hpunct.
  - destruct (Z.eqb_spec (peek p) "}"%char) as [Ec|Ec]; [by apply template_plain|].
    destruct (Z.eqb_spec (peek p) "{"%char) as [Eo|Eo]; [by apply Hpunct|].
    specialize (Hpunct (O :: b)). destruct l. cbn in Eb. subst. by apply Hpunct.
  - destruct (Z.eqb_spec (peek p) "{"%char) as [Eo|Eo].
    { apply Hpunct; [done| |done]. intros Ec. by rewrite Eo in Ec. }
    destruct (Z.eqb_spec (peek p) "}"%char) as [Ec|Ec]; [by apply Hpunct|].
    specialize (Hpunct (S n :: b)). destruct l. cbn in Eb. subst. by apply Hpunct.
Qed.

(** ** The end of a lexeme *)

Lemma run_inside cond p q : (forall i, cond i = true -> (i < length source)%nat) -> run cond p q ->
  (p <= length source)%nat -> (q <= length source)%nat.
Proof.
  intros H0 (Hle & Hall & _) Hp. destruct (Nat.eq_dec p q) as [->|]; [done|].
  pose proof (H0 _ (Hall (q - 1)%nat ltac:(lia))). lia.
Qed.

Lemma digits_inside isPart p q : isPart 0 = false -> digits isPart p q ->
  (p <= length source)%nat -> (q <= length source)%nat.
Proof. intros H0. apply run_inside. intros i Hi. apply peek_inside. intros E. by rewrite E, H0 in Hi. Qed.

Lemma ident_parts_inside p q : ident_parts p q -> (p <= length source)%nat -> (q <= length source)%nat.
Proof.
  induction 1 as [p Hn|p q c Hc He Hi Hp IH]; [done|]. intros _. apply IH.
  apply (encoded_at_iff source p c) in He as [? _]. done.
Qed.

Lemma ident_name_inside p q : ident_name p q -> (q <= length source)%nat.
Proof.
  intros [(c & Hc & He & _) Hp]. apply (ident_parts_inside p q Hp).
  apply (encoded_at_iff source p c) in He as [? _]. lia.
Qed.

Lemma string_body_inside quote p q : string_body quote p q -> quote <> 0 -> (S q <= length source)%nat.
Proof. induction 1 as [p E| | |]; auto. intros Hq. pose proof (peek_inside p ltac:(by rewrite E)). lia. Qed.

Lemma template_body_inside p q b : template_body p q b -> (q <= length source)%nat.
Proof.
  induction 1 as [p E|p E1 E2| |]; auto.
  - pose proof (peek_inside p ltac:(by rewrite E)). lia.
  - pose proof (peek_inside (p + 1) ltac:(by rewrite E2)). lia.
Qed.

Lemma regexp_body_inside cls p q : regexp_body cls p q -> (q <= length source)%nat.
Proof.
  induction 1 as [p q E Hr| | | |]; auto. apply (run_inside _ _ _) in Hr; [done| |].
  - intros i Hi. apply peek_inside. intros Ei. by rewrite Ei in Hi.
  - pose proof (peek_inside p ltac:(by rewrite E)). lia.
Qed.

Lemma number_inside p q : number_at p q -> (q <= length source)%nat.
Proof.
  destruct 1 as [p q E Er Hd|p a b q Hs Ha Hb Hq].
  - apply (digits_inside isHexDigit (p + 2) q eq_refl Hd).
    pose proof (peek_inside (p + 1) ltac:(by intros E0; rewrite E0 in Er)). lia.
  - assert (a <= length source)%nat as Hla.
    { destruct (Nat.le_gt_cases p (length source)) as [Hp|Hp]; [by apply (digits_inside isDigit p a)|].
      destruct Hs as [Hs|Hs].
      - destruct Ha as (_ & Hall & _). specialize (Hall p ltac:(lia)). exfalso.
        unfold Lexer.peek in Hall. rewrite limb_ge in Hall by lia. done.
      - pose proof (peek_inside p ltac:(by rewrite Hs)). lia. }
    assert (b <= length source)%nat as Hlb.
    { destruct Hb as [->|[E Hb]]; [done|]. apply (digits_inside isDigit (S a) b eq_refl Hb).
      pose proof (peek_inside a ltac:(by rewrite E)). lia. }
    destruct Hq as [->|[E Hq]]; [done|]. apply (digits_inside isDigit (b + 2) q eq_refl Hq).
    apply andb_prop in E as [_ E].
    pose proof (peek_inside (b + 1) ltac:(by intros E0; rewrite E0 in E)). lia.
Qed.

Lemma lexeme_inside k p q : lexeme_at k p q -> (q <= length source)%nat.
Proof.
  destruct 1 as [s k p q Hn|p q Hn|p q E Hn|p e q Hn Ho|p e Hq Hb|p q E Hb|p q E Hb|p q E Hb|p q E Hb|p q E Hb|k p q Hin -> Hs].
  - by eapply ident_name_inside.
  - by eapply ident_name_inside.
  - by eapply ident_name_inside.
  - apply number_inside in Hn. destruct Ho as [->|[Ho ->]]; [done|].
    pose proof (peek_inside e ltac:(by intros E0; rewrite E0 in Ho)). lia.
  - apply string_body_inside in Hb; [done|]. intros E. rewrite E in Hq. by destruct Hq.
  - by apply template_body_inside in Hb.
  - by apply template_body_inside in Hb.
  - by apply template_body_inside in Hb.
  - by apply template_body_inside in Hb.
  - by apply regexp_body_inside in Hb.
  - destruct (spelling_chars k Hin) as [_ Hl]. apply (f_equal length) in Hs.
    unfold Lexer.slice in Hs. rewrite length_take, length_drop in Hs. fold (spelling k) in *. lia.
Qed.

Lemma trivia_inside p q b : trivia_at p q b -> (p <= length source)%nat -> (q <= length source)%nat.
Proof.
  induction 1 as [|p q b E _ IH|p q b E _ IH|p q b c Hc He Hw _ IH|p e q b E1 E2 Hr _ IH|p e q b E1 E2 Hr _ IH];
    intros Hp; [done|apply IH..].
  - pose proof (peek_inside p ltac:(by destruct E as [-> | ->])). lia.
  - pose proof (peek_inside p ltac:(by destruct E as [-> | ->])). lia.
  - apply (encoded_at_iff source p c) in He as [? _]. lia.
  - destruct Hr as (Hle & Hall & _). destruct (Nat.eq_dec p e) as [->|]; [done|].
    specialize (Hall (e - 1)%nat ltac:(lia)). apply andb_prop in Hall as [Ha%negb_true_iff%atEnd_false _]. lia.
  - destruct Hr as (_ & _ & He%negb_false_iff). apply andb_prop in He as [_ He%Z.eqb_eq].
    pose proof (peek_inside (e + 1) ltac:(by rewrite He)). lia.
Qed.

(** ** The whole run *)

(** Tokens in the order of their spans, from [p] to [q], none empty. *)
Inductive ordered : nat -> list Token -> nat -> Prop :=
  | ordered_nil p q : (p <= q)%nat -> ordered p [] q
  | ordered_cons p t ts q :
      (p <= begin t < end_ t)%nat -> text t = slice (begin t) (end_ t) -> ordered (end_ t) ts q ->
      ordered p (t :: ts) q.

Fixpoint nest (ks : list TokenKind) (b : list nat) : option (list nat) :=
  match ks with
  | [] => Some b
  | k :: ks => let? b := braces_after k b in nest ks b
  end.

(** What the loop adds to the tokens it has, and where it ends. *)
Definition lexed (l l' : Lexer) (ts : list Token) (nb : bool) : Prop :=
  ordered (pos_ l) ts (pos_ l') /\ (hasErrors l' = true \/ atEnd source (pos_ l') = true) /\
  (diags_ l' = [] -> (exists e, tiled (pos_ l) ts e /\ trivia_at e (pos_ l') nb /\
      (e <= length source \/ ts = [])%nat) /\
    nest (map kind ts) (substitutionBraces_ l) = Some (substitutionBraces_ l')).

Lemma lex_loop_spec fuel l tokens :
  (length source - pos_ l < fuel)%nat -> diags_ l = [] ->
  exists l' ts nb, lex_loop source fuel l tokens = Some (l', rev ts ++ tokens, nb) /\ lexed l l' ts nb.
Proof.
  revert l tokens. induction fuel as [|fuel IH]; intros l tokens Hf Hd; [lia|]. cbn [lex_loop].
  destruct (skipTrivia_spec l) as ([l1 nb] & -> & Hb1 & Hp1 & Ht).
  destruct (atEnd source (pos_ l1) || hasErrors l1) eqn:Estop.
  - exists l1, [], nb. split; [done|]. split_and!; [by constructor|apply orb_prop in Estop; tauto|].
    intros Hd1. split; [|by rewrite Hb1]. exists (pos_ l).
    destruct Ht as [(_ & _ & b & Ht & ->)|[[d Hd'] _]]; [|by rewrite Hd, Hd1 in Hd'].
    split_and!; [constructor|exact Ht|by right].
  - apply orb_false_iff in Estop as [Eend Eerr].
    assert (diags_ l1 = []) as Hd1 by (unfold hasErrors in Eerr; by destruct (diags_ l1)).
    destruct Ht as [(_ & Hno & b & Ht & ->)|[[d Hd'] _]]; [|by rewrite Hd, Hd1 in Hd'].
    cbn [orb]. destruct (lexToken_spec l1 tokens) as ([l2 t] & -> & [Sb Se Stx Sa [ds Sd] Sl] & Sk). rewrite Hd1 in *. cbn [app] in Sd.
    set (t' := set_newline t b). apply atEnd_false in Eend.
    assert (ordered (pos_ l) [t'] (pos_ l2)) as Hord.
    { constructor; cbn; [lia|by rewrite Sb, Se|constructor; lia]. }
    destruct ds as [|d ds].
    + destruct (IH l2 (t' :: tokens) ltac:(lia) Sd) as (l' & ts & nb' & E & Ho & Hstop & Hok).
      exists l', (t' :: ts), nb'. split; [by rewrite E; cbn [rev]; rewrite <- app_assoc|].
      split_and!; [|done|].
      * inversion Hord; subst. constructor; [done|done|]. cbn. by rewrite Se.
      * intros Hd'. destruct (Hok Hd') as [(e & Htile & Htr & Hin) Hnest]. split.
        { exists e. split_and!; [|done|].
          - constructor; cbn; rewrite ?Sb, ?Se; auto.
          - left. destruct Hin as [?|Hts]; [done|]. subst ts. inversion Htile; subst.
            rewrite Sd in Sl. specialize (Sl eq_refl). by apply lexeme_inside in Sl. }
        cbn [map nest kind t' set_newline]. rewrite <- Hb1, (Sk Sd). exact Hnest.
    + assert (fuel <> 0)%nat as Hfuel by lia. destruct fuel as [|fuel]; [done|]. clear Hfuel IH.
      cbn [lex_loop]. destruct (skipTrivia_spec l2) as ([l3 nb3] & -> & _ & Hp3 & Ht2).
      assert (hasErrors l3 = true) as Herr.
      { unfold hasErrors. destruct Ht2 as [(-> & _)|[[d' ->] _]]; rewrite Sd; done. }
      rewrite Herr, orb_true_r. exists l3, [t'], nb3. split; [done|]. split_and!; [|by left|].
      * inversion Hord; subst. constructor; [done|done|]. constructor. cbn. lia.
      * intros E. unfold hasErrors in Herr. by rewrite E in Herr.
Qed.

Lemma hashbang_spec : returns (fun h => hashbang_line h /\ (h <= length source)%nat) (hashbang source 0).
Proof.
  unfold hashbang, hashbang_line. cbn [Nat.eqb andb]. destruct ((peek 0 =? "#"%char) && (peek 1 =? "!"%char)); [|apply returns_some; split; [done|lia]].
  eapply returns_mono; [apply (skip_while_run (fun p => negb (atEnd source p) && negb (peek p =? lf) && negb (peek p =? cr)) 0)|].
  { intros i [[Hi%negb_true_iff _]%andb_prop _]%andb_prop. by apply atEnd_false. }
  intros q Hr. split; [done|]. apply run_inside in Hr; [done| |lia].
  intros i [[Hi%negb_true_iff%atEnd_false _]%andb_prop _]%andb_prop. done.
Qed.

(** The whole run. *)
Lemma lex_spec :
  exists h l ts nb, lex source new_lexer = Some (l, ts ++ [mkToken EndOfFile (pos_ l) (pos_ l) [] nb]) /\
    hashbang_line h /\ (h <= length source)%nat /\ lexed (at_pos new_lexer h) l ts nb.
Proof.
  destruct hashbang_spec as (h & Eh & Hh & Hle). unfold lex. change (pos_ new_lexer) with O. rewrite Eh.
  destruct (lex_loop_spec (S (turns source)) (at_pos new_lexer h) []) as (l & ts & nb & -> & Hl); [unfold turns; cbn; lia|done|].
  exists h, l, ts, nb. split_and!; [|done..]. cbn [rev]. by rewrite app_nil_r, rev_involutive.
Qed.

(** Without a diagnostic the run reads the source to its end. *)
Lemma lexed_end h l ts nb : (h <= length source)%nat -> lexed (at_pos new_lexer h) l ts nb -> diags_ l = [] ->
  pos_ l = length source.
Proof.
  intros Hh (_ & Hstop & Hok) Hd. destruct (Hok Hd) as [(e & Ht & Htr & Hin) _].
  destruct Hstop as [He|He%atEnd_true]; [unfold hasErrors in He; by rewrite Hd in He|].
  apply trivia_inside in Htr; [lia|]. destruct Hin as [?|Hts]; [done|]. subst ts. inversion Ht; subst. exact Hh.
Qed.

End Grammar.

(** ** Properties *)


(** C28: lexing without a diagnostic loses nothing: tokens and trivia tile the source
    from its start, past a hashbang line, to its end; each token is a lexeme of its
    kind in the lexical grammar and no trivia is left in front of one.  Its [newlineBefore]
    is whether the trivia before it holds an LF, a CR, a U+2028 or a U+2029 outside its
    comments or an LF inside a block comment: a block comment over another line terminator
    does not count, and a line comment runs to an LF, past a lone CR. *)
Theorem lex_tiles source l tokens :
  Forall byte source -> lex source new_lexer = Some (l, tokens) -> diags_ l = [] ->
  exists h ts e nb, tokens = ts ++ [mkToken EndOfFile (length source) (length source) [] nb] /\
    hashbang_line source h /\ tiled source h ts e /\ trivia_at source e (length source) nb.
Proof.
  intros Hb E Hd. destruct (lex_spec source Hb) as (h & l' & ts & nb & E' & Hh & Hle & Hl).
  rewrite E' in E. injection E as -> <-. pose proof (lexed_end source h l ts nb Hle Hl Hd) as Hp.
  destruct Hl as (_ & _ & Hok). destruct (Hok Hd) as [(e & Ht & Htr & _) _].
  rewrite Hp in *. exists h, ts, e, nb. by split_and!.
Qed.

(** Operators are matched by their longest spelling: [lexPunctuation] answers a
    punctuator that is spelled out at the position and no punctuator spelled out
    there is longer, except that [?.] before a digit is left to the conditional; it
    reports an unrecognized character exactly when none is spelled out. *)
Theorem punctuation_longest source p :
  match punctuation (peek source p) (peek source (p + 1)) (peek source (p + 2)) (peek source (p + 3)) with
  | Some (k, n) => In k punctuators /\ n = length (spelling k) /\ slice source p (p + n) = spelling k /\
      forall k', In k' punctuators -> slice source p (p + length (spelling k')) = spelling k' ->
        (k' = QuestionDot -> isDigit (peek source (p + 2)) = false) -> (length (spelling k') <= n)%nat
  | None => forall k', In k' punctuators -> slice source p (p + length (spelling k')) <> spelling k'
  end.
Proof.
  assert (forall k', In k' punctuators -> slice source p (p + length (spelling k')) = spelling k' ->
    (k' = QuestionDot -> isDigit (peek source (p + 2)) = false) -> exists k n,
    punctuation (peek source p) (peek source (p + 1)) (peek source (p + 2)) (peek source (p + 3)) = Some (k, n) /\
    (length (spelling k') <= n)%nat) as Hm.
  { intros k' Hin Hs. destruct (spelling_chars k' Hin) as [Hnz Hl].
    apply spelled_at in Hs; [|done|lia].
    pose proof (punctuation_munch (peek source p) (peek source (p + 1)) (peek source (p + 2)) (peek source (p + 3))) as HF.
    rewrite Forall_forall in HF. by apply (HF k' (proj2 (list_elem_of_In _ _) Hin)). }
  destruct (punctuation _ _ _ _) as [[k n]|] eqn:E.
  - destruct (punctuation_spelling _ _ _ _ _ _ E) as (Hin & Hs & Hl).
    destruct (spelling_chars k Hin) as [Hnz Hlen].
    split_and!; [done|done|rewrite <- Hl; apply spelled_at; [done|lia|by rewrite Hl]|].
    intros k' Hin' Hs' Hd. destruct (Hm k' Hin' Hs' Hd) as (k'' & n' & [= <- <-] & ?). done.
  - intros k' Hin Hs. assert (In Question punctuators) as Hq by (apply list_elem_of_In, (bool_decide_unpack _); vm_compute; exact I).
    destruct (decide (k' = QuestionDot)) as [->|Hne].
    + destruct (Hm Question Hq) as (? & ? & ? & _); [|done|done].
      apply spelled_at; [by apply spelling_chars|cbn; lia|].
      apply spelled_at in Hs; [|by apply spelling_chars|cbn; lia]. cbn in *. by injection Hs as ->.
    + destruct (Hm k' Hin Hs) as (? & ? & ? & _); [done|done].
Qed.

(** In a source lexed without a diagnostic the template parts nest: every middle
    and tail closes the innermost substitution still open, with the braces opened
    inside it closed, and the substitutions open at the end are the lexer's stack. *)
Theorem lex_template_nesting source l tokens :
  Forall byte source -> lex source new_lexer = Some (l, tokens) -> diags_ l = [] ->
  nest (map kind tokens) [] = Some (substitutionBraces_ l).
Proof.
  intros Hb E Hd. destruct (lex_spec source Hb) as (h & l' & ts & nb & E' & _ & _ & _ & _ & Hok).
  rewrite E' in E. injection E as -> <-. destruct (Hok Hd) as [_ Hn]. cbn [at_pos new_lexer substitutionBraces_] in Hn.
  rewrite map_app.
  clear -Hn. revert Hn. generalize (substitutionBraces_ l) as b'. generalize (@nil nat) as b.
  induction ts as [|t ts IH]; intros b b'; cbn [map nest app].
  - intros [= <-]. destruct b; done.
  - destruct (braces_after (kind t) b) as [b1|]; [apply IH|done].
Qed.

(** ** Witnesses *)

Definition sample : list Z := bytes "a?.b => `x${ {} }y` /* c */ >>>= .5e+3n".

Lemma sample_bytes : Forall byte sample.
Proof.
  unfold sample, bytes. apply Forall_forall. intros c Hc. apply list_elem_of_In, in_map_iff in Hc as (a & <- & _).
  unfold byte, byte_of. pose proof (N_ascii_bounded a). lia.
Qed.


Definition sample_result := Eval vm_compute in lex sample new_lexer.

Lemma lex_tiles_witness :
  match sample_result with
  | Some (l, tokens) => diags_ l = [] /\
      exists h ts e nb, tokens = ts ++ [mkToken EndOfFile (length sample) (length sample) [] nb] /\
        hashbang_line sample h /\ tiled sample h ts e /\ trivia_at sample e (length sample) nb
  | None => False
  end.
Proof.
  split; [reflexivity|]. refine (lex_tiles sample _ _ sample_bytes _ _); [vm_compute; reflexivity|reflexivity].
Defined.

Lemma lex_template_nesting_witness :
  match sample_result with
  | Some (l, tokens) => nest (map kind tokens) [] = Some (substitutionBraces_ l)
  | None => False
  end.
Proof.
  refine (lex_template_nesting sample _ _ sample_bytes _ _); [vm_compute; reflexivity|reflexivity].
Defined.

(** ** Corners *)

(** A line comment runs past a lone carriage return, which is a line terminator
    everywhere else. *)
Example line_comment_past_cr :
  option_map (fun '(_, ts) => map (fun t => (kind t, begin t)) ts)
    (lex (bytes "a//b" ++ [cr] ++ bytes "c") new_lexer) = Some [(Identifier, 0%nat); (EndOfFile, 6%nat)].
Proof. vm_compute. reflexivity. Qed.

(** A block comment over a lone carriage return is not a line terminator. *)
Example block_comment_over_cr :
  option_map (fun '(_, ts) => map newlineBefore ts)
    (lex (bytes "a/*" ++ [cr] ++ bytes "*/b") new_lexer) = Some [false; false; false].
Proof. vm_compute. reflexivity. Qed.

(** The flags of a regular expression take in a no-break space behind them. *)
Example flags_take_nbsp :
  option_map (fun '(_, ts) => map (fun t => (kind t, begin t, end_ t)) ts)
    (lex (bytes "/a/g" ++ [0xC2; 0xA0] ++ bytes "in b") new_lexer)
  = Some [(RegExpLiteral, 0, 8); (Identifier, 9, 10); (EndOfFile, 10, 10)]%nat.
Proof. vm_compute. reflexivity. Qed.

(** A character the scanner does not know is a token of the kind of the end. *)
Example unknown_character :
  option_map (fun '(l, ts) => (map kind ts, length (diags_ l))) (lex (bytes "@") new_lexer) = Some ([EndOfFile; EndOfFile], 1%nat).
Proof. vm_compute. reflexivity. Qed.
