(* ===== verification/RegexMatch.v ===== *)
(** * The backtracking matcher of regular expressions (src/src/regex/matcher.cpp)

    The pattern tree of pattern.h, the continuations, and the matcher: a state monad
    over the members of [Matcher] whose [None] is a computation that has not
    answered, out of fuel or on a read the source leaves undefined.  RegexSpec shows
    that with enough fuel it never happens. *)
From S2P Require Import Prelude CaseFold RegexChars.
Local Open Scope bool_scope.
Local Open Scope list_scope.

(** ** Patterns *)

Inductive AssertionKind := Start | End | WordBoundary | NotWordBoundary.

(** The fields of a [Repeat] node. *)
Record Quantifier := mkQuantifier {
  qmin : Z; qmax : Z; greedy : bool;
  firstCapture : nat; captureCount : nat; simpleAtom : bool }.

(** A [Node], one constructor per [NodeKind] with the fields that kind reads.  The
    children of an [Alternation] are alternatives, which the parser always builds as
    [Sequence] nodes: each is its list of terms. *)
Inductive Node :=
  | Alternation (alternatives : list (list Node))
  | Sequence (terms : list Node)
  | Char (ch : Z)
  | CharClass (ranges : list Range) (negated : bool) (strings : list (list Z)) (matchesEmpty : bool)
  | Dot
  | Assertion (assertion : AssertionKind)
  | Lookahead (lookaroundNegative : bool) (body : Node)
  | Lookbehind (lookaroundNegative : bool) (body : Node)
  | Group (captureIndex : nat) (body : Node)
  | Backreference (backreference : nat)
  | Repeat (q : Quantifier) (atom : Node).

(** The flags the matcher reads; [unicodeMode] is [unicode || unicodeSets]. *)
Record Flags := mkFlags {
  ignoreCase : bool; multiline : bool; dotAll : bool; unicode : bool; unicodeSets : bool }.

Definition unicodeMode (f : Flags) : bool := unicode f || unicodeSets f.

Record Pattern := mkPattern { root : Node; flags : Flags; groupCount : nat }.

Definition kUnset : Z := -1.
Definition kUnbounded : Z := 0xFFFFFFFF.
Definition kStepBudget : Z := 20000000.
Definition kMaxDepth : Z := 2000.

Definition isLineTerminator (u : Z) : bool :=
  (u =? 0x000A) || (u =? 0x000D) || (u =? 0x2028) || (u =? 0x2029).

Inductive Cont :=
  | Cont_Done
  | Cont_Sequence (terms : list Node) (index : nat) (backward : bool) (next : Cont)
  | Cont_Repeat (q : Quantifier) (atom : Node) (min max : Z) (mark : nat) (backward : bool) (next : Cont)
  | Cont_Capture (captureIndex : nat) (mark : nat) (next : Cont).

(** ** The matcher's state *)

(** [steps_] stops at [kStepBudget + 1] and [depth_] at [kMaxDepth + 1], since both
    tests give up there: neither counter can wrap. *)
Record Matcher := mkMatcher {
  captures_ : list Z; endPos_ : nat; steps_ : Z; depth_ : Z; failed_ : bool; error_ : string }.

Definition M (A : Type) : Type := Matcher -> option (A * Matcher).

Definition ret {A} (a : A) : M A := fun st => Some (a, st).
Definition bind {A B} (m : M A) (f : A -> M B) : M B :=
  fun st => match m st with Some (a, st) => f a st | None => None end.
Definition stuck {A} : M A := fun _ => None.

Notation "'let!' x := m 'in' k" := (bind m (fun x => k))
  (at level 10, x name, m at level 100, k at level 200).
Notation "m ;; k" := (bind m (fun _ => k)) (at level 100, right associativity).

Definition get_captures : M (list Z) := fun st => Some (captures_ st, st).
Definition set_captures (c : list Z) : M unit := fun st =>
  Some (tt, mkMatcher c (endPos_ st) (steps_ st) (depth_ st) (failed_ st) (error_ st)).
Definition get_endPos : M nat := fun st => Some (endPos_ st, st).
Definition set_endPos (p : nat) : M unit := fun st =>
  Some (tt, mkMatcher (captures_ st) p (steps_ st) (depth_ st) (failed_ st) (error_ st)).
Definition get_failed : M bool := fun st => Some (failed_ st, st).
(** [++steps_] and [++depth_]; [--depth_]. *)
Definition bump_steps : M Z := fun st =>
  Some (steps_ st + 1,
        mkMatcher (captures_ st) (endPos_ st) (steps_ st + 1) (depth_ st) (failed_ st) (error_ st)).
Definition move_depth (by_ : Z) : M Z := fun st =>
  Some (depth_ st + by_,
        mkMatcher (captures_ st) (endPos_ st) (steps_ st) (depth_ st + by_) (failed_ st) (error_ st)).

Definition giveUp (message : string) : M bool := fun st =>
  Some (false,
    if failed_ st then st
    else mkMatcher (captures_ st) (endPos_ st) (steps_ st) (depth_ st) true message).

Definition budget_message : string :=
  "this regular expression exceeded bronze's backtracking budget of 20000000 steps".
Definition depth_message : string :=
  "this regular expression needed more than 2000 levels of backtracking state, which is bronze's limit".

(** [if (failed_) return false;] before [m]. *)
Definition unless_failed (m : M bool) : M bool :=
  let! failed := get_failed in if failed then ret false else m.

(** [if (m) return true;] before [m']. *)
Definition or_try (m m' : M bool) : M bool :=
  let! ok := m in if ok then ret true else m'.

Section Matcher.
Context (fl : Flags) (input : list Z).

Definition ignoreCase_ : bool := ignoreCase fl.
Definition unicode_ : bool := unicodeMode fl.

(** ** Tests on one character *)

Definition canonical (code : Z) : Z := canonicalize code ignoreCase_ unicode_.

Definition charMatches (patternCode inputCode : Z) : bool := canonical inputCode =? patternCode.

Definition classMatches (ranges : list Range) (negated : bool) (inputCode : Z) : bool :=
  let found := rangesContain ranges inputCode in
  let found :=
    if negb found && ignoreCase_ then
      let cc := canonical inputCode in
      if rangesContain ranges cc then true
      else existsb (rangesContain ranges) (caseCandidates cc unicode_)
    else found in
  if negated then negb found else found.

Definition dotMatches (inputCode : Z) : bool := dotAll fl || negb (isLineTerminator inputCode).

Definition singleCharMatches (node : Node) (inputCode : Z) : bool :=
  match node with
  | Char ch => charMatches ch inputCode
  | CharClass ranges negated _ _ => classMatches ranges negated inputCode
  | Dot => dotMatches inputCode
  | _ => false
  end.

Definition characterAt (pos : nat) : CodePointStep := codePointAt input pos unicode_.
Definition characterBefore (pos : nat) : CodePointStep := codePointBefore input pos unicode_.

Definition isWordAt (at_ : Z) : bool :=
  if (at_ <? 0) || (Z.of_nat (length input) <=? at_) then false
  else rangesContain (wordRanges ignoreCase_ unicode_) input.[Z.to_nat at_].

Definition assertionHolds (assertion : AssertionKind) (pos : nat) : bool :=
  match assertion with
  | Start => if (pos =? 0)%nat then true else multiline fl && isLineTerminator input.[(pos - 1)%nat]
  | End => if (pos =? length input)%nat then true else multiline fl && isLineTerminator input.[pos]
  | WordBoundary => negb (Bool.eqb (isWordAt (Z.of_nat pos - 1)) (isWordAt (Z.of_nat pos)))
  | NotWordBoundary => Bool.eqb (isWordAt (Z.of_nat pos - 1)) (isWordAt (Z.of_nat pos))
  end.

(** ** Pieces that do not call back *)

Definition clearRepeatCaptures (q : Quantifier) (caps : list Z) : list Z :=
  for_up (captureCount q) 0 (fun i caps =>
    let slot := ((firstCapture q + i) * 2)%nat in
    <[S slot := kUnset]> (<[slot := kUnset]> caps)) caps.

Definition saveRepeatCaptures (q : Quantifier) (caps : list Z) : list Z :=
  for_up (captureCount q) 0 (fun i into =>
    let slot := ((firstCapture q + i) * 2)%nat in into ++ [caps.[slot]; caps.[S slot]]) [].

Definition restoreRepeatCaptures (q : Quantifier) (from caps : list Z) : list Z :=
  for_up (captureCount q) 0 (fun i caps =>
    let slot := ((firstCapture q + i) * 2)%nat in
    <[S slot := from.[(i * 2 + 1)%nat]]> (<[slot := from.[(i * 2)%nat]]> caps)) caps.

(** [if (node.captureCount != 0) ...] around a change of the captures. *)
Definition on_captures (q : Quantifier) (f : list Z -> list Z) : M unit :=
  if (captureCount q =? 0)%nat then ret tt else let! caps := get_captures in set_captures (f caps).

(** The comparison loop of [matchBackreference]; each turn advances [i]. *)
Fixpoint same_text (turns start from i length_ : nat) : bool :=
  if (length_ <=? i)%nat then true
  else
  match turns with
  | O => false
  | S turns =>
    let a := codePointAt input (start + i) unicode_ in
    let b := codePointAt input (from + i) unicode_ in
    if code a =? code b then same_text turns start from (i + width a) length_
    else if negb (width a =? width b)%nat then false
    else if ignoreCase_ then
      if negb (canonical (code a) =? canonical (code b)) &&
         negb (simpleCaseFold (code a) =? simpleCaseFold (code b)) then false
      else same_text turns start from (i + width a) length_
    else false
  end.

(** Where the match resumes after a backreference, when it matches. *)
Definition backreference_target (caps : list Z) (index pos : nat) (backward : bool) : option nat :=
  let slot := (index * 2)%nat in
  let start := caps.[slot] in
  let end_ := caps.[S slot] in
  if (start =? kUnset) || (end_ =? kUnset) then Some pos
  else
    let length_ := Z.to_nat (end_ - start) in
    let same from := same_text length_ (Z.to_nat start) from 0 length_ in
    if backward then
      if (pos <? length_)%nat then None
      else if same (pos - length_)%nat then Some (pos - length_)%nat else None
    else
      if (length input <? pos + length_)%nat then None
      else if same pos then Some (pos + length_)%nat else None.

(** The one character an atom consumes: where the match resumes. *)
Definition one_character (node : Node) (pos : nat) (backward : bool) : option nat :=
  if backward then
    if (pos =? 0)%nat then None
    else
      let step := characterBefore pos in
      if negb (singleCharMatches node (code step)) then None else Some (pos - width step)%nat
  else
    if (length input <=? pos)%nat then None
    else
      let step := characterAt pos in
      if negb (singleCharMatches node (code step)) then None else Some (pos + width step)%nat.

(** One member of a class of strings, read from the end when the direction is
    backward: the callers pass it reversed there. *)
Fixpoint consume_member (member : list Z) (at_ : nat) (backward : bool) : option nat :=
  match member with
  | [] => Some at_
  | c :: member =>
    if backward then
      if (at_ =? 0)%nat then None
      else
        let step := characterBefore at_ in
        if negb (code step =? c) then None else consume_member member (at_ - width step) backward
    else
      if (length input <=? at_)%nat then None
      else
        let step := characterAt at_ in
        if negb (code step =? c) then None else consume_member member (at_ + width step) backward
  end.

Definition string_member (member : list Z) (pos : nat) (backward : bool) : option nat :=
  consume_member (if backward then rev member else member) pos backward.

(** The scan of [matchSimpleRepeat]: the repetitions and where they end.  Every turn
    consumes a unit, so [turns] is the input's length. *)
Fixpoint scan (turns : nat) (q : Quantifier) (atom : Node) (backward : bool) (count at_ : nat) : nat * nat :=
  match turns with
  | O => (count, at_)
  | S turns =>
    if (qmax q =? kUnbounded) || (Z.of_nat count <? qmax q) then
      match one_character atom at_ backward with
      | None => (count, at_)
      | Some at_ => scan turns q atom backward (S count) at_
      end
    else (count, at_)
  end.

Definition shrink (backward : bool) (cur : nat) : nat :=
  if backward then (cur + width (characterAt cur))%nat else (cur - width (characterBefore cur))%nat.
Definition grow (backward : bool) (cur : nat) : nat :=
  if backward then (cur - width (characterBefore cur))%nat else (cur + width (characterAt cur))%nat.

(** ** The loops that call the continuation *)

Section Callback.
Context (runCont : Cont -> nat -> M bool) (k : Cont).

(** [for (size_t n = count;; --n)] *)
Fixpoint give_back (backward : bool) (min : Z) (n cur : nat) : M bool :=
  or_try (runCont k cur) (
    let! failed := get_failed in
    if failed || (Z.of_nat n =? min) then ret false
    else match n with O => stuck | S n => give_back backward min n (shrink backward cur) end).

(** [for (size_t n = node.min; n <= count; ++n)], with [count - n] turns left. *)
Fixpoint take_more (backward : bool) (remaining cur : nat) : M bool :=
  or_try (runCont k cur) (unless_failed
    match remaining with O => ret false | S remaining => take_more backward remaining (grow backward cur) end).

Definition matchSimpleRepeat (q : Quantifier) (atom : Node) (pos : nat) (backward : bool) : M bool :=
  let '(count, at_) := scan (length input) q atom backward 0 pos in
  if Z.of_nat count <? qmin q then ret false
  else if greedy q then give_back backward (qmin q) count at_
  else take_more backward (count - Z.to_nat (qmin q)) (Nat.iter (Z.to_nat (qmin q)) (grow backward) pos).

(** [if (there is one) return runCont(k, it); return false;] *)
Definition resume (target : option nat) : M bool :=
  match target with Some pos => runCont k pos | None => ret false end.

Fixpoint try_members (strings : list (list Z)) (pos : nat) (backward : bool) (m : M bool) : M bool :=
  match strings with
  | [] => m
  | member :: strings =>
    match string_member member pos backward with
    | None => try_members strings pos backward m
    | Some at_ => or_try (runCont k at_) (unless_failed (try_members strings pos backward m))
    end
  end.

Definition matchClassSet (ranges : list Range) (negated : bool) (strings : list (list Z))
    (matchesEmpty : bool) (pos : nat) (backward : bool) : M bool :=
  try_members strings pos backward (
    let last := if matchesEmpty then runCont k pos else ret false in
    if empty ranges then last
    else or_try (resume (one_character (CharClass ranges negated strings matchesEmpty) pos backward))
                (unless_failed last)).

Context (matchSequence : list Node -> nat -> nat -> Cont -> bool -> M bool)
        (matchRepeat : Quantifier -> Node -> Z -> Z -> nat -> Cont -> bool -> M bool)
        (matchNode : Node -> nat -> Cont -> bool -> M bool).

Fixpoint try_alternatives (alternatives : list (list Node)) (pos : nat) (backward : bool) : M bool :=
  match alternatives with
  | [] => ret false
  | alt :: alternatives =>
    or_try (matchSequence alt 0 pos k backward) (unless_failed (try_alternatives alternatives pos backward))
  end.

Definition matchLookaround (lookaroundNegative bodyBackward : bool) (body : Node) (pos : nat) : M bool :=
  let! saved := get_captures in
  let! savedEnd := get_endPos in
  let! inner := matchNode body pos Cont_Done bodyBackward in
  set_endPos savedEnd ;;
  unless_failed (
    if lookaroundNegative then
      set_captures saved ;; (if inner then ret false else runCont k pos)
    else if negb inner then set_captures saved ;; ret false
    else or_try (runCont k pos) (set_captures saved ;; ret false)).

Definition matchNodeInner (node : Node) (pos : nat) (backward : bool) : M bool :=
  match node with
  | Alternation alternatives => try_alternatives alternatives pos backward
  | Sequence terms => matchSequence terms 0 pos k backward
  | CharClass ranges negated strings matchesEmpty =>
      if negb (empty strings) || matchesEmpty then
        matchClassSet ranges negated strings matchesEmpty pos backward
      else resume (one_character node pos backward)
  | Char _ | Dot => resume (one_character node pos backward)
  | Assertion assertion => if negb (assertionHolds assertion pos) then ret false else runCont k pos
  | Lookahead negative body => matchLookaround negative false body pos
  | Lookbehind negative body => matchLookaround negative true body pos
  | Group captureIndex body =>
      if (captureIndex =? 0)%nat then matchNode body pos k backward
      else matchNode body pos (Cont_Capture captureIndex pos k) backward
  | Backreference index =>
      let! caps := get_captures in resume (backreference_target caps index pos backward)
  | Repeat q atom =>
      if simpleAtom q then matchSimpleRepeat q atom pos backward
      else matchRepeat q atom (qmin q) (qmax q) pos k backward
  end.

End Callback.

(** ** The matcher *)

Fixpoint runCont (fuel : nat) (k : Cont) (pos : nat) {struct fuel} : M bool :=
  match fuel with
  | O => stuck
  | S fuel =>
    unless_failed (
    let! steps := bump_steps in
    if kStepBudget <? steps then giveUp budget_message
    else
    match k with
    | Cont_Done => set_endPos pos ;; ret true
    | Cont_Sequence terms index backward next => matchSequence fuel terms index pos next backward
    | Cont_Repeat q atom min max mark backward next =>
        if (min =? 0) && (pos =? mark)%nat then ret false
        else
          let min2 := if min =? 0 then 0 else min - 1 in
          let max2 := if max =? kUnbounded then kUnbounded else max - 1 in
          matchRepeat fuel q atom min2 max2 pos next backward
    | Cont_Capture captureIndex mark next =>
        let slot := (captureIndex * 2)%nat in
        let! old := get_captures in
        let lo := if (mark <? pos)%nat then mark else pos in
        let hi := if (mark <? pos)%nat then pos else mark in
        set_captures (<[S slot := Z.of_nat hi]> (<[slot := Z.of_nat lo]> old)) ;;
        or_try (runCont fuel next pos) (
          let! caps := get_captures in
          set_captures (<[S slot := old.[S slot]]> (<[slot := old.[slot]]> caps)) ;; ret false)
    end)
  end
with matchSequence (fuel : nat) (terms : list Node) (index pos : nat) (k : Cont) (backward : bool) {struct fuel} : M bool :=
  match fuel with
  | O => stuck
  | S fuel =>
    if (index =? length terms)%nat then runCont fuel k pos
    else
      let at_ := (if backward then length terms - 1 - index else index)%nat in
      match terms !! at_ with
      | None => stuck
      | Some term => matchNode fuel term pos (Cont_Sequence terms (S index) backward k) backward
      end
  end
with matchRepeat (fuel : nat) (q : Quantifier) (atom : Node) (min max : Z) (pos : nat) (k : Cont) (backward : bool) {struct fuel} : M bool :=
  match fuel with
  | O => stuck
  | S fuel =>
    if max =? 0 then runCont fuel k pos
    else
      let again := Cont_Repeat q atom min max pos backward k in
      let! caps := get_captures in
      let saved := if (captureCount q =? 0)%nat then [] else saveRepeatCaptures q caps in
      on_captures q (clearRepeatCaptures q) ;;
      let restore := on_captures q (restoreRepeatCaptures q saved) in
      if negb (min =? 0) then
        or_try (matchNode fuel atom pos again backward) (restore ;; ret false)
      else if negb (greedy q) then
        restore ;;
        or_try (runCont fuel k pos) (unless_failed (
        on_captures q (clearRepeatCaptures q) ;;
        or_try (matchNode fuel atom pos again backward) (restore ;; ret false)))
      else
        or_try (matchNode fuel atom pos again backward) (
        restore ;; unless_failed (runCont fuel k pos))
  end
with matchNode (fuel : nat) (node : Node) (pos : nat) (k : Cont) (backward : bool) {struct fuel} : M bool :=
  match fuel with
  | O => stuck
  | S fuel =>
    unless_failed (
    let! depth := move_depth 1 in
    if kMaxDepth <? depth then move_depth (-1) ;; giveUp depth_message
    else
      let! result := matchNodeInner (runCont fuel) k (matchSequence fuel) (matchRepeat fuel) (matchNode fuel)
                       node pos backward in
      move_depth (-1) ;; ret result)
  end.

End Matcher.

(** ** Attempts and searches *)

Inductive ExecStatus :=
  | NoMatch
  | Match (captures : list Z)
  | Error (error : string).

(** [Matcher(pattern, input)] *)
Definition new_matcher (pattern : Pattern) : Matcher :=
  mkMatcher (replicate ((groupCount pattern + 1) * 2) kUnset) 0 0 0 false "".

Definition run (fuel : nat) (pattern : Pattern) (input : list Z) (at_ : nat) : M ExecStatus := fun st =>
  let st := mkMatcher (replicate (length (captures_ st)) kUnset) (endPos_ st) 0 0 false "" in
  match matchNode (flags pattern) input fuel (root pattern) at_ Cont_Done false st with
  | None => None
  | Some (ok, st) =>
    if failed_ st then Some (Error (error_ st), st)
    else if negb ok then Some (NoMatch, st)
    else
      let caps := <[1%nat := Z.of_nat (endPos_ st)]> (<[0%nat := Z.of_nat at_]> (captures_ st)) in
      Some (Match caps, mkMatcher caps (endPos_ st) (steps_ st) (depth_ st) (failed_ st) (error_ st))
  end.

(** What a pattern's native plan answers: [None] is a plan that is absent,
    unsupported, not compiled yet or meeting a character its tables do not cover.
    The kernels a plan calls are compiled by the brass library. *)
Record RegexJitPlan := mkPlan {
  requiresCaptureExtraction : bool;
  tryMatchAt : list Z -> nat -> option ExecStatus;
  trySearch : list Z -> nat -> option ExecStatus }.

Definition is_match (s : ExecStatus) : bool := match s with Match _ => true | _ => false end.

Definition matchAt (fuel : nat) (plan : RegexJitPlan) (pattern : Pattern) (input : list Z) (at_ : nat) : option ExecStatus :=
  if (length input <? at_)%nat then Some NoMatch
  else
  let interpret := option_map fst (run fuel pattern input at_ (new_matcher pattern)) in
  match tryMatchAt plan input at_ with
  | Some jitStatus =>
      if negb (is_match jitStatus) || negb (requiresCaptureExtraction plan) then Some jitStatus else interpret
  | None => interpret
  end.

(** The scan: every turn moves forward, so [turns] is the input's length and one. *)
Fixpoint search_loop (turns fuel : nat) (pattern : Pattern) (input : list Z) (at_ : nat) (st : Matcher) : option ExecStatus :=
  match turns with
  | O => Some NoMatch
  | S turns =>
    if (at_ <=? length input)%nat then
      match run fuel pattern input at_ st with
      | None => None
      | Some (NoMatch, st) =>
          search_loop turns fuel pattern input
            (advanceStringIndex input at_ (unicodeMode (flags pattern))) st
      | Some (status, _) => Some status
      end
    else Some NoMatch
  end.

Definition search (fuel : nat) (plan : RegexJitPlan) (pattern : Pattern) (input : list Z) (from : nat) : option ExecStatus :=
  if (length input <? from)%nat then Some NoMatch
  else
  let interpret := search_loop (S (length input)) fuel pattern input from (new_matcher pattern) in
  match trySearch plan input from with
  | Some jitStatus =>
      match jitStatus with
      | Match out =>
          if negb (requiresCaptureExtraction plan) then Some jitStatus
          else option_map fst (run fuel pattern input (Z.to_nat out.[0%nat]) (new_matcher pattern))
      | _ => Some jitStatus
      end
  | None => interpret
  end.

(** ** More fuel changes no answer *)

(** What [m] answers, [m'] answers. *)
Definition approximates {A} (m m' : M A) : Prop := forall st r, m st = Some r -> m' st = Some r.
Infix "⊑" := approximates (at level 70).

Lemma approximates_refl {A} (m : M A) : m ⊑ m.
Proof. by intros st r. Qed.

Lemma approximates_stuck {A} (m : M A) : stuck ⊑ m.
Proof. by intros st r. Qed.

Lemma approximates_bind {A B} (m m' : M A) (f f' : A -> M B) :
  m ⊑ m' -> (forall a, f a ⊑ f' a) -> bind m f ⊑ bind m' f'.
Proof.
  intros Hm Hf st r. unfold bind. destruct (m st) as [[a st']|] eqn:E; [|done].
  rewrite (Hm _ _ E). apply Hf.
Qed.

Lemma approximates_unless m m' : m ⊑ m' -> unless_failed m ⊑ unless_failed m'.
Proof. intros H. apply approximates_bind; [apply approximates_refl|]. intros []; [apply approximates_refl|done]. Qed.

Lemma approximates_or m1 m1' m2 m2' : m1 ⊑ m1' -> m2 ⊑ m2' -> or_try m1 m2 ⊑ or_try m1' m2'.
Proof. intros H1 H2. apply approximates_bind; [done|]. intros []; [apply approximates_refl|done]. Qed.

#[local] Hint Resolve approximates_refl approximates_stuck approximates_bind approximates_unless approximates_or : core.

(** Both sides branch on the same test. *)
Ltac approximate :=
  repeat first
    [ progress intros
    | match goal with
      | |- approximates (if ?b then _ else _) (if ?b then _ else _) => destruct b
      | |- approximates (match ?o with _ => _ end) (match ?o with _ => _ end) => destruct o
      | |- approximates (let '(_, _) := ?o in _) _ => destruct o
      end
    | solve [auto]
    | apply approximates_or | apply approximates_unless | apply approximates_bind ].

Section More.
Context (fl : Flags) (input : list Z).
Section Callbacks.
Context (rc rc' : Cont -> nat -> M bool) (Hrc : forall k pos, rc k pos ⊑ rc' k pos) (k : Cont).

Lemma give_back_more backward min n : forall cur,
  give_back fl input rc k backward min n cur ⊑ give_back fl input rc' k backward min n cur.
Proof using Hrc. induction n; intros cur; cbn [give_back]; approximate. Qed.

Lemma take_more_more backward n : forall cur,
  take_more fl input rc k backward n cur ⊑ take_more fl input rc' k backward n cur.
Proof using Hrc. induction n; intros cur; cbn [take_more]; approximate. Qed.

Lemma resume_more target : resume rc k target ⊑ resume rc' k target.
Proof using Hrc. unfold resume. approximate. Qed.

Lemma try_members_more strings pos backward m m' : m ⊑ m' ->
  try_members fl input rc k strings pos backward m ⊑ try_members fl input rc' k strings pos backward m'.
Proof using Hrc. intros Hm. induction strings; cbn [try_members]; approximate. Qed.

Context (ms ms' : list Node -> nat -> nat -> Cont -> bool -> M bool)
  (Hms : forall terms index pos k backward, ms terms index pos k backward ⊑ ms' terms index pos k backward)
  (mr mr' : Quantifier -> Node -> Z -> Z -> nat -> Cont -> bool -> M bool)
  (Hmr : forall q atom min max pos k backward, mr q atom min max pos k backward ⊑ mr' q atom min max pos k backward)
  (mn mn' : Node -> nat -> Cont -> bool -> M bool)
  (Hmn : forall node pos k backward, mn node pos k backward ⊑ mn' node pos k backward).

Lemma try_alternatives_more alts pos backward :
  try_alternatives k ms alts pos backward ⊑ try_alternatives k ms' alts pos backward.
Proof using Hms. induction alts; cbn [try_alternatives]; approximate. Qed.

Lemma matchNodeInner_more node pos backward :
  matchNodeInner fl input rc k ms mr mn node pos backward ⊑ matchNodeInner fl input rc' k ms' mr' mn' node pos backward.
Proof using Hrc Hms Hmr Hmn.
  pose proof resume_more. pose proof give_back_more. pose proof take_more_more.
  destruct node; cbn [matchNodeInner]; try (by approximate).
  - apply try_alternatives_more.
  - unfold matchClassSet. destruct (_ || _); [apply try_members_more|]; approximate.
  - unfold matchSimpleRepeat. approximate.
Qed.
End Callbacks.

Lemma matcher_more F :
  (forall k pos, runCont fl input F k pos ⊑ runCont fl input (S F) k pos) /\
  (forall terms index pos k backward,
     matchSequence fl input F terms index pos k backward ⊑ matchSequence fl input (S F) terms index pos k backward) /\
  (forall q atom min max pos k backward,
     matchRepeat fl input F q atom min max pos k backward ⊑ matchRepeat fl input (S F) q atom min max pos k backward) /\
  (forall node pos k backward, matchNode fl input F node pos k backward ⊑ matchNode fl input (S F) node pos k backward).
Proof.
  induction F as [|F (IH1 & IH2 & IH3 & IH4)]; [split_and!; intros; apply approximates_stuck|].
  split_and!; intros.
  - change (runCont fl input (S F) k pos) with (runCont fl input (S F) k pos). cbn [runCont]. approximate.
  - cbn [matchSequence]. approximate.
  - cbn [matchRepeat]. approximate.
  - cbn [matchNode]. pose proof matchNodeInner_more. approximate.
Qed.

Lemma matchNode_more F F' node pos k backward : (F <= F')%nat ->
  matchNode fl input F node pos k backward ⊑ matchNode fl input F' node pos k backward.
Proof.
  induction 1 as [|F' _ IH]; [apply approximates_refl|]. intros st r E. apply matcher_more. by apply IH.
Qed.
End More.

Lemma run_more F F' p input at_ : (F <= F')%nat -> run F p input at_ ⊑ run F' p input at_.
Proof.
  intros HF st r. unfold run. destruct (matchNode _ _ F _ _ _ _ _) as [[ok st']|] eqn:E; [|done].
  by rewrite (matchNode_more _ _ _ _ _ _ _ _ HF _ _ E).
Qed.

(** [/(?:(a)|b)*/] on "ab": the second turn clears what the first captured. *)
Example repeat_clears :
  let q := mkQuantifier 0 kUnbounded true 1 1 false in
  let p := mkPattern (Repeat q (Group 0 (Alternation [[Group 1 (Char 97)]; [Char 98]])))
             (mkFlags false false false false false) 1 in
  option_map fst (run 60 p [97; 98] 0 (new_matcher p)) = Some (Match [0; 2; -1; -1]).
Proof. reflexivity. Qed.

(** ** Inputs on which the matcher leaves ECMA-262 22.2.2 *)

(** Without [u], Canonicalize keeps U+017F and "s" apart, as the pattern character
    [ſ] does; the simple case folding a backreference falls back on does not. *)
Example backreference_folds :
  let fl := mkFlags true false false false false in
  let p := mkPattern (Sequence [Group 1 (Char 0x17F); Backreference 1]) fl 1 in
  let literal := mkPattern (Sequence [Group 1 (Char 0x17F); Char 0x17F]) fl 1 in
  option_map fst (run 60 p [0x17F; 115] 0 (new_matcher p)) = Some (Match [0; 2; 0; 1]) /\
  option_map fst (run 60 literal [0x17F; 115] 0 (new_matcher literal)) = Some NoMatch.
Proof. by vm_compute. Qed.

(** Under [u], [(?<=\1(\uDE00))] matches at the end of U+1F600 U+DE00: the
    backreference compares a position that splits the pair. *)
Example backreference_splits_pair :
  let p := mkPattern (Lookbehind false (Sequence [Backreference 1; Group 1 (Char 0xDE00)]))
             (mkFlags false false false true false) 1 in
  option_map fst (run 60 p [0xD83D; 0xDE00; 0xDE00] 3 (new_matcher p)) = Some (Match [3; 3; 2; 3]).
Proof. by vm_compute. Qed.

(** Under [u], an attempt between the halves of a pair gives a repetition of [.*] back
    over the whole character, to a position before the one it began at. *)
Example repeat_leaves_start :
  let p := mkPattern (Sequence [Repeat (mkQuantifier 0 kUnbounded true 1 0 true) Dot; Char 0x1F600])
             (mkFlags false false false true false) 0 in
  option_map fst (run 60 p [0xD83D; 0xDE00] 1 (new_matcher p)) = Some (Match [1; 2]).
Proof. by vm_compute. Qed.
