(* ===== verification/RegexSpec.v ===== *)
(** * What a pattern means, and that the matcher computes it

    The semantics has no continuations and no mutable captures: [outs n back x] is the
    list of all states (position, captures) the node [n] can lead to from [x], best
    first, as ECMA-262 22.2.2 orders them; the captures a failed branch wrote are never
    in it.  The file shows that the matcher of RegexMatch always answers, by an explicit
    bound on its recursion, that when it does not give up it answers with the first
    outcome, that a repetition scanned without recursion is the general one, and that
    the captures stay inside the input. *)
From S2P Require Import Prelude CaseFold RegexChars RegexMatch.
Local Open Scope bool_scope.
Local Open Scope list_scope.

Notation St := (nat * list Z)%type.

(** ** Ordered choice *)

Definition first_some {A B} (f : A -> option B) : list A -> option B :=
  fix go l := match l with [] => None | a :: l => match f a with Some b => Some b | None => go l end end.

Lemma first_some_app {A B} (f : A -> option B) l l' :
  first_some f (l ++ l') = match first_some f l with Some b => Some b | None => first_some f l' end.
Proof. induction l as [|a l IH]; cbn; [done|]. by destruct (f a). Qed.

Lemma first_some_flat_map {A B C} (f : B -> option C) (g : A -> list B) l :
  first_some f (flat_map g l) = first_some (fun a => first_some f (g a)) l.
Proof. induction l as [|a l IH]; cbn; [done|]. rewrite first_some_app. by rewrite IH. Qed.

Lemma first_some_ext {A B} (f g : A -> option B) l :
  (forall a, In a l -> f a = g a) -> first_some f l = first_some g l.
Proof.
  induction l as [|a l IH]; intros H; cbn; [done|]. rewrite (H a) by (by left).
  rewrite IH; [done|]. intros b Hb. apply H. by right.
Qed.

(** ** Induction on a pattern *)

Section Induction.
Context (P : Node -> Prop).
Hypothesis on_alternation : forall alts, Forall (Forall P) alts -> P (Alternation alts).
Hypothesis on_sequence : forall terms, Forall P terms -> P (Sequence terms).
Hypothesis on_char : forall ch, P (Char ch).
Hypothesis on_class : forall ranges negated strings matchesEmpty, P (CharClass ranges negated strings matchesEmpty).
Hypothesis on_dot : P Dot.
Hypothesis on_assertion : forall a, P (Assertion a).
Hypothesis on_lookahead : forall negative body, P body -> P (Lookahead negative body).
Hypothesis on_lookbehind : forall negative body, P body -> P (Lookbehind negative body).
Hypothesis on_group : forall index body, P body -> P (Group index body).
Hypothesis on_backreference : forall index, P (Backreference index).
Hypothesis on_repeat : forall q atom, P atom -> P (Repeat q atom).

Fixpoint node_induction (n : Node) : P n :=
  let all := fix all ts : Forall P ts :=
    match ts with [] => List.Forall_nil _ | t :: ts => @List.Forall_cons _ _ _ _ (node_induction t) (all ts) end in
  match n with
  | Alternation alts =>
      on_alternation alts ((fix all_alts l : Forall (Forall P) l :=
        match l with [] => List.Forall_nil _ | alt :: l => @List.Forall_cons _ _ _ _ (all alt) (all_alts l) end) alts)
  | Sequence terms => on_sequence terms (all terms)
  | Char ch => on_char ch
  | CharClass ranges negated strings matchesEmpty => on_class ranges negated strings matchesEmpty
  | Dot => on_dot
  | Assertion a => on_assertion a
  | Lookahead negative body => on_lookahead negative body (node_induction body)
  | Lookbehind negative body => on_lookbehind negative body (node_induction body)
  | Group index body => on_group index body (node_induction body)
  | Backreference index => on_backreference index
  | Repeat q atom => on_repeat q atom (node_induction atom)
  end.
End Induction.

(** ** The semantics *)

(** In the order the direction takes the terms. *)
Definition directed {A} (back : bool) (l : list A) : list A := if back then rev l else l.

(** Components one after the other. *)
Fixpoint run_list (fs : list (St -> list St)) (x : St) : list St :=
  match fs with [] => [x] | f :: fs => flat_map (run_list fs) (f x) end.

(** The units left in the direction of the match: what every non-empty turn of a
    repetition uses up. *)
Definition ahead (input : list Z) (back : bool) (pos : nat) : nat :=
  if back then pos else (length input - pos)%nat.

(** 22.2.2.3.1 RepeatMatcher. *)
Fixpoint rep (turns : nat) (body : St -> list St) (q : Quantifier) (min max : Z) (x : St) : list St :=
  match turns with
  | O => []
  | S turns =>
    if max =? 0 then [x]
    else
      let min2 := if min =? 0 then 0 else min - 1 in
      let max2 := if max =? kUnbounded then kUnbounded else max - 1 in
      let once :=
        flat_map (fun y => if (min =? 0) && (y.1 =? x.1)%nat then [] else rep turns body q min2 max2 y)
                 (body (x.1, clearRepeatCaptures q x.2)) in
      if negb (min =? 0) then once else if greedy q then once ++ [x] else x :: once
  end.

Definition close_group (index mark : nat) (x : St) : St :=
  (x.1, <[S (index * 2) := Z.of_nat (Nat.max mark x.1)]> (<[(index * 2)%nat := Z.of_nat (Nat.min mark x.1)]> x.2)).

Section Semantics.
Context (fl : Flags) (input : list Z).

Definition rep_outs (back : bool) (body : St -> list St) (q : Quantifier) (min max : Z) (x : St) : list St :=
  rep (S (Z.to_nat min + ahead input back x.1)) body q min max x.

Definition at_target (caps : list Z) (target : option nat) : list St :=
  match target with Some pos => [(pos, caps)] | None => [] end.

Fixpoint outs (n : Node) (back : bool) (x : St) {struct n} : list St :=
  match n with
  | Alternation alternatives =>
      flat_map (fun alt => run_list (directed back (map (fun t => outs t back) alt)) x) alternatives
  | Sequence terms => run_list (directed back (map (fun t => outs t back) terms)) x
  | Char _ | Dot => at_target x.2 (one_character fl input n x.1 back)
  | CharClass ranges _ strings matchesEmpty =>
      if negb (empty strings) || matchesEmpty then
        flat_map (fun member => at_target x.2 (string_member fl input member x.1 back)) strings ++
        (if empty ranges then [] else at_target x.2 (one_character fl input n x.1 back)) ++
        (if matchesEmpty then [x] else [])
      else at_target x.2 (one_character fl input n x.1 back)
  | Assertion assertion => if assertionHolds fl input assertion x.1 then [x] else []
  | Lookahead negative body =>
      match outs body false x with
      | [] => if negative then [x] else []
      | y :: _ => if negative then [] else [(x.1, y.2)]
      end
  | Lookbehind negative body =>
      match outs body true x with
      | [] => if negative then [x] else []
      | y :: _ => if negative then [] else [(x.1, y.2)]
      end
  | Group index body =>
      if (index =? 0)%nat then outs body back x else map (close_group index x.1) (outs body back x)
  | Backreference index => at_target x.2 (backreference_target fl input x.2 index x.1 back)
  | Repeat q atom => rep_outs back (outs atom back) q (qmin q) (qmax q) x
  end.

(** What a continuation makes of a state: the first way through all that is left. *)
Fixpoint completes (k : Cont) (x : St) : option St :=
  match k with
  | Cont_Done => Some x
  | Cont_Sequence terms index back next =>
      first_some (completes next) (run_list (drop index (directed back (map (fun t => outs t back) terms))) x)
  | Cont_Repeat q atom min max mark back next =>
      if (min =? 0) && (x.1 =? mark)%nat then None
      else
        first_some (completes next)
          (rep_outs back (outs atom back) q (if min =? 0 then 0 else min - 1)
             (if max =? kUnbounded then kUnbounded else max - 1) x)
  | Cont_Capture index mark next => completes next (close_group index mark x)
  end.

(** ** Well-formed patterns and states *)

Context (groups : nat).

(** The positions the matcher visits: inside the input and between characters. *)
Definition place (pos : nat) : Prop := (pos <= length input)%nat /\ aligned input (unicodeMode fl) pos = true.

(** Every capture is unset or a range between two places. *)
Definition captures_ok (c : list Z) : Prop :=
  length c = ((groups + 1) * 2)%nat /\
  forall i, (i <= groups)%nat ->
    (c.[(i * 2)%nat] = kUnset /\ c.[S (i * 2)] = kUnset) \/
    exists a b, c.[(i * 2)%nat] = Z.of_nat a /\ c.[S (i * 2)] = Z.of_nat b /\ (a <= b)%nat /\ place a /\ place b.

Definition state_ok (x : St) : Prop := place x.1 /\ captures_ok x.2.

Definition single_character (n : Node) : Prop :=
  match n with
  | Char _ | Dot => True
  | CharClass _ _ strings matchesEmpty => strings = [] /\ matchesEmpty = false
  | _ => False
  end.

Definition quantifier_ok (q : Quantifier) (atom : Node) : Prop :=
  0 <= qmin q <= qmax q /\ qmax q <= kUnbounded /\
  (simpleAtom q = true -> captureCount q = O /\ single_character atom).

(** What the parser builds, for [groups] groups.  Under [u] a backreference must not
    run backward: RegexMatch.backreference_splits_pair shows what happens there. *)
Fixpoint node_ok (back : bool) (n : Node) : Prop :=
  match n with
  | Alternation alternatives =>
      (fix all_alts l := match l with
        | [] => True
        | alt :: l => (fix all ts := match ts with [] => True | t :: ts => node_ok back t /\ all ts end) alt /\ all_alts l
        end) alternatives
  | Sequence terms => (fix all ts := match ts with [] => True | t :: ts => node_ok back t /\ all ts end) terms
  | Lookahead _ body => node_ok false body
  | Lookbehind _ body => node_ok true body
  | Group index body => (index <= groups)%nat /\ node_ok back body
  | Backreference index => (index <= groups)%nat /\ (back = true -> unicodeMode fl = false)
  | Repeat q atom => quantifier_ok q atom /\ node_ok back atom
  | _ => True
  end.

Definition terms_ok (back : bool) (ts : list Node) : Prop := Forall (node_ok back) ts.

Lemma terms_ok_fix back ts :
  (fix all ts := match ts with [] => True | t :: ts => node_ok back t /\ all ts end) ts <-> terms_ok back ts.
Proof.
  unfold terms_ok. induction ts as [|t ts IH]; [by split; [constructor|]|]. rewrite Forall_cons, <- IH. done.
Qed.

(** [outs] only moves in its direction. *)
Definition moves (back : bool) (x y : St) : Prop := if back then (y.1 <= x.1)%nat else (x.1 <= y.1)%nat.

(** ** Where the pieces lead *)

Hypothesis units_ok : Forall (fun u => 0 <= u <= kMaxUnit) input.

Lemma place_code_units pos : unicodeMode fl = false -> (pos <= length input)%nat -> place pos.
Proof. intros Hu Hp. split; [done|]. unfold aligned. by rewrite Hu. Qed.

Lemma one_character_place n pos back p :
  place pos -> one_character fl input n pos back = Some p ->
  place p /\ (if back then (p < pos)%nat else (pos < p)%nat).
Proof.
  intros [Hp Ha]. unfold one_character. destruct back.
  - destruct (Nat.eqb_spec pos 0) as [|Hne]; [done|]. destruct (negb _); [done|]. intros [= <-].
    destruct (step_backward input (unicodeMode fl) pos Ha ltac:(lia)) as (? & ? & ? & _).
    unfold characterBefore, unicode_, place. split_and!; [lia|done|lia].
  - destruct (Nat.leb_spec (length input) pos); [done|]. destruct (negb _); [done|]. intros [= <-].
    destruct (step_forward input (unicodeMode fl) pos Ha ltac:(lia)) as (? & ? & ? & _).
    unfold characterAt, unicode_, place. split_and!; [lia|done|lia].
Qed.

Lemma string_member_place member pos back p :
  place pos -> string_member fl input member pos back = Some p ->
  place p /\ (if back then (p <= pos)%nat else (pos <= p)%nat).
Proof.
  unfold string_member. generalize (if back then rev member else member) as m. intros m.
  revert pos. induction m as [|c m IH]; intros pos Hpos; cbn [consume_member].
  - intros [= <-]. split; [done|]. destruct back; lia.
  - destruct Hpos as [Hp Ha]. destruct back.
    + destruct (Nat.eqb_spec pos 0) as [|Hne]; [done|]. destruct (negb _); [done|]. intros E.
      destruct (step_backward input (unicodeMode fl) pos Ha ltac:(lia)) as (? & ? & ? & _).
      apply IH in E as [? ?]; [split; [done|lia]|]. unfold characterBefore, unicode_, place. split; [lia|done].
    + destruct (Nat.leb_spec (length input) pos); [done|]. destruct (negb _); [done|]. intros E.
      destruct (step_forward input (unicodeMode fl) pos Ha ltac:(lia)) as (Hw & ? & ? & _).
      apply IH in E as [? Hle]; [split; [done|]|].
      * revert Hle. unfold characterAt, unicode_. lia.
      * unfold characterAt, unicode_, place. split; [lia|done].
Qed.

(** The width of a character is that of its code. *)
Lemma codePointAt_width i u : (i < length input)%nat ->
  (width (codePointAt input i u) = 2%nat <-> kMaxUnit < code (codePointAt input i u)) /\
  (1 <= width (codePointAt input i u) <= 2)%nat.
Proof.
  intros Hi. assert (0 <= input.[i] <= kMaxUnit) as Hu.
  { by apply (Forall_limb (fun u => 0 <= u <= kMaxUnit)). }
  destruct (codePointAt_cases input i u Hi) as [[-> _]|(-> & _ & _ & El & Et)]; cbn [width code].
  - split; [split; lia|lia].
  - split; [|lia]. split; [intros _|lia]. unfold combineSurrogates, isLeadSurrogate, isTrailSurrogate in *.
    rewrite Z.shiftl_mul_pow2 by lia. unfold kMaxUnit. lia.
Qed.

Lemma same_text_place turns a from i n :
  place (a + i)%nat -> place (a + n)%nat -> place (from + i)%nat -> (i <= n)%nat -> (from + n <= length input)%nat ->
  same_text fl input turns a from i n = true -> place (from + n).
Proof.
  revert i. induction turns as [|turns IH]; intros i Ha Hn Hf Hi Hlen; cbn [same_text].
  - destruct (Nat.leb_spec n i); [|done]. intros _. by replace n with i by lia.
  - destruct (Nat.leb_spec n i); [intros _; by replace n with i by lia|].
    destruct Ha as [Ha1 Ha2], Hn as [Hn1 Hn2], Hf as [Hf1 Hf2].
    destruct (step_forward input (unicodeMode fl) (a + i) Ha2 ltac:(lia)) as (Hw & Hwl & Hwa & _).
    destruct (step_forward input (unicodeMode fl) (from + i) Hf2 ltac:(lia)) as (_ & Hwl' & Hwa' & _).
    pose proof (codePointAt_width (a + i) (unicodeMode fl) ltac:(lia)) as [Wa Wa'].
    pose proof (codePointAt_width (from + i) (unicodeMode fl) ltac:(lia)) as [Wb Wb'].
    assert (i + width (codePointAt input (a + i) (unicodeMode fl)) <= n)%nat as Hle.
    { destruct (codePointAt_cases input (a + i) (unicodeMode fl) ltac:(lia)) as [[E _]|(E & Hu & Hl2 & El & Et)];
        rewrite E; cbn [width]; [lia|].
      destruct (decide (i + 1 = n)%nat) as [<-|]; [exfalso|lia].
      replace (a + i + 1)%nat with (a + (i + 1))%nat in Et by lia.
      rewrite (aligned_elim _ _ _ Hn2 Hu) in Et; [done|lia|].
      by replace (a + (i + 1) - 1)%nat with (a + i)%nat by lia. }
    unfold unicode_. set (sa := codePointAt input (a + i) (unicodeMode fl)) in *.
    set (sb := codePointAt input (from + i) (unicodeMode fl)) in *.
    assert (width sa = width sb -> same_text fl input turns a from (i + width sa) n = true -> place (from + n)) as Hgo.
    { intros Ew E. apply (IH _) in E; try done; unfold place; rewrite ?Nat.add_assoc;
        split; try done; try lia. by rewrite Ew. }
    destruct (Z.eqb_spec (code sa) (code sb)) as [Ec|].
    + apply Hgo. rewrite Ec in Wa. lia.
    + destruct (Nat.eqb_spec (width sa) (width sb)) as [Ew|]; cbn [negb]; [|done].
      destruct (ignoreCase_ fl); [|done]. destruct (_ && _); [done|]. by apply Hgo.
Qed.

Lemma backreference_place caps index pos back p :
  place pos -> captures_ok caps -> (index <= groups)%nat -> (back = true -> unicodeMode fl = false) ->
  backreference_target fl input caps index pos back = Some p ->
  place p /\ (if back then (p <= pos)%nat else (pos <= p)%nat).
Proof.
  intros Hp [_ Hc] Hi Hb. unfold backreference_target.
  destruct (_ || _) eqn:Eu. { intros [= <-]. split; [done|]. destruct back; lia. }
  destruct (Hc index Hi) as [[E1 E2]|(a & b & E1 & E2 & Hab & Pa & Pb)].
  { rewrite E1 in Eu. by cbn in Eu. }
  rewrite E1, E2. replace (Z.to_nat (Z.of_nat b - Z.of_nat a)) with (b - a)%nat by lia. rewrite Nat2Z.id.
  destruct back.
  - destruct (Nat.ltb_spec pos (b - a)); [done|]. destruct (same_text _ _ _ _ _ _ _); [|done].
    intros [= <-]. split; [|lia]. apply place_code_units; [by apply Hb|]. destruct Hp. lia.
  - destruct (Nat.ltb_spec (length input) (pos + (b - a))); [done|].
    destruct (same_text _ _ _ _ _ _ _) eqn:E; [|done]. intros [= <-]. split; [|lia].
    apply same_text_place in E; try done; try lia.
    + by rewrite Nat.add_0_r.
    + by replace (a + (b - a))%nat with b by lia.
    + by rewrite Nat.add_0_r.
Qed.

(** ** Writing captures *)

Lemma captures_ok_write c j a b :
  captures_ok c ->
  (a = kUnset /\ b = kUnset) \/
  (exists x y, a = Z.of_nat x /\ b = Z.of_nat y /\ (x <= y)%nat /\ place x /\ place y) ->
  captures_ok (<[S (j * 2) := b]> (<[(j * 2)%nat := a]> c)).
Proof.
  intros [Hl Hc] Hab. split; [by rewrite !length_insert|]. intros i Hi.
  destruct (decide (i = j)) as [->|Hne].
  - rewrite limb_insert_ne, limb_insert_eq, limb_insert_eq by (rewrite ?length_insert; lia). done.
  - rewrite !limb_insert_ne by lia. by apply Hc.
Qed.

Lemma captures_ok_clear q c : captures_ok c -> captures_ok (clearRepeatCaptures q c).
Proof.
  intros H. unfold clearRepeatCaptures. apply (for_up_inv (fun _ => captures_ok)); [done|].
  intros i c' _ Hc'. cbv zeta. apply captures_ok_write; [done|by left].
Qed.

Lemma state_ok_close index mark x :
  state_ok x -> place mark -> state_ok (close_group index mark x).
Proof.
  intros [Hx Hc] Hm. split; [done|]. cbn. apply captures_ok_write; [done|]. right.
  exists (Nat.min mark x.1), (Nat.max mark x.1). split_and!; [done|done|lia| |];
    destruct (Nat.le_ge_cases mark x.1); [rewrite Nat.min_l|rewrite Nat.min_r|rewrite Nat.max_r|rewrite Nat.max_l]; done.
Qed.

Lemma clear_nothing q c : captureCount q = O -> clearRepeatCaptures q c = c.
Proof. unfold clearRepeatCaptures. by intros ->. Qed.

(** A whole iteration undone: what was saved put back over what was cleared. *)
Lemma saved_limb q c i b : (i < captureCount q)%nat -> (b < 2)%nat ->
  length (saveRepeatCaptures q c) = (captureCount q * 2)%nat /\
  (saveRepeatCaptures q c).[(i * 2 + b)%nat] = c.[((firstCapture q + i) * 2 + b)%nat].
Proof.
  intros Hi Hb. unfold saveRepeatCaptures.
  pose proof (for_up_inv (fun n into => length into = (n * 2)%nat /\ forall j b, (j < n)%nat -> (b < 2)%nat ->
    into.[(j * 2 + b)%nat] = c.[((firstCapture q + j) * 2 + b)%nat])
    (fun i into => let slot := ((firstCapture q + i) * 2)%nat in into ++ [c.[slot]; c.[S slot]])
    (captureCount q) 0 []) as H.
  destruct H as [Hl H]; [split; [done|lia]| |split; [exact Hl|by apply H]].
  intros n into _ [Hl IH]. cbv zeta. split; [rewrite length_app; cbn; lia|]. intros j b' Hj Hb'.
  unfold limb. destruct (decide (j = n)) as [->|].
  - rewrite lookup_app_r by lia. replace (n * 2 + b' - length into)%nat with b' by lia.
    destruct b' as [|[|]]; [| |lia]; cbn; unfold limb.
    + by rewrite Nat.add_0_r.
    + by replace ((firstCapture q + n) * 2 + 1)%nat with (S ((firstCapture q + n) * 2)) by lia.
  - rewrite lookup_app_l by lia. apply IH; lia.
Qed.

Lemma clear_outside q c s :
  (s < firstCapture q * 2 \/ (firstCapture q + captureCount q) * 2 <= s)%nat ->
  length (clearRepeatCaptures q c) = length c /\ (clearRepeatCaptures q c).[s] = c.[s].
Proof.
  intros Hs. unfold clearRepeatCaptures.
  apply (for_up_inv (fun n caps => length caps = length c /\ caps.[s] = c.[s])); [done|].
  intros i caps Hi [Hl E]. cbv zeta. rewrite !length_insert, !limb_insert_ne by lia. done.
Qed.

Lemma restore_saved q c : restoreRepeatCaptures q (saveRepeatCaptures q c) (clearRepeatCaptures q c) = c.
Proof.
  unfold restoreRepeatCaptures. set (c0 := clearRepeatCaptures q c). set (saved := saveRepeatCaptures q c).
  match goal with |- for_up _ _ ?body _ = _ =>
    pose proof (for_up_inv (fun n caps => length caps = length c /\
      forall s, (s < firstCapture q * 2 \/ (firstCapture q + captureCount q) * 2 <= s \/
                 s < (firstCapture q + n) * 2)%nat -> caps.[s] = c.[s]) body (captureCount q) 0 c0) as H end.
  destruct H as [Hl H].
  - split; [by apply (clear_outside q c ((firstCapture q + captureCount q) * 2)); lia|].
    intros s Hs. apply clear_outside. lia.
  - intros i caps Hi [Hl IH]. cbv zeta. rewrite !length_insert. split; [done|]. intros s Hs.
    destruct (saved_limb q c i 0 ltac:(lia) ltac:(lia)) as [_ E0].
    destruct (saved_limb q c i 1 ltac:(lia) ltac:(lia)) as [_ E1]. fold saved in E0, E1.
    rewrite !Nat.add_0_r in E0. rewrite (Nat.add_1_r (_ * 2)), (Nat.add_1_r ((_ + _) * 2)) in E1. rewrite (Nat.add_1_r (i * 2)).
    destruct (Nat.le_gt_cases (length caps) s) as [|Hlt].
    { rewrite !limb_ge by (rewrite ?length_insert; lia). done. }
    destruct (decide (s = S ((firstCapture q + i) * 2))) as [->|].
    { rewrite limb_insert_eq by (rewrite length_insert; lia). done. }
    rewrite limb_insert_ne by lia. destruct (decide (s = ((firstCapture q + i) * 2)%nat)) as [->|].
    { by rewrite limb_insert_eq by lia. }
    rewrite limb_insert_ne by lia. apply IH. lia.
  - apply limb_ext; [done|]. intros s Hs. apply H. lia.
Qed.

(** ** Where a node leads *)

(** A component that keeps states well formed and goes its way. *)
Definition component (back : bool) (f : St -> list St) : Prop :=
  forall x, state_ok x -> Forall (fun y => state_ok y /\ moves back x y) (f x).

Lemma moves_refl back x : moves back x x.
Proof. unfold moves. destruct back; lia. Qed.

Lemma moves_trans back x y z : moves back x y -> moves back y z -> moves back x z.
Proof. unfold moves. destruct back; lia. Qed.

Lemma run_list_component back fs : Forall (component back) fs -> component back (run_list fs).
Proof.
  induction 1 as [|f fs Hf _ IH]; intros x Hx; cbn [run_list].
  - constructor; [|done]. split; [done|apply moves_refl].
  - apply Forall_flat_map. eapply Forall_impl; [apply (Hf x Hx)|].
    intros y [Hy Hxy]. eapply Forall_impl; [apply (IH y Hy)|]. intros z [Hz Hyz].
    split; [done|]. by eapply moves_trans.
Qed.

Lemma state_ok_clear q x : state_ok x -> state_ok (x.1, clearRepeatCaptures q x.2).
Proof. intros [? ?]. split; [done|]. by apply captures_ok_clear. Qed.

Lemma rep_component back body q turns : component back body ->
  forall min max, component back (rep turns body q min max).
Proof.
  intros Hb. induction turns as [|turns IH]; intros min max x Hx; cbn [rep]; [constructor|].
  assert (state_ok x /\ moves back x x) as Hself by (split; [done|apply moves_refl]).
  destruct (max =? 0); [by constructor|].
  match goal with |- Forall _ (if _ then ?once else _) => assert (Forall (fun y => state_ok y /\ moves back x y) once) as Ho end.
  { apply Forall_flat_map. eapply Forall_impl; [apply Hb, state_ok_clear, Hx|].
    intros y [Hy Hxy]. destruct (_ && _); [constructor|].
    eapply Forall_impl; [apply (IH _ _ y Hy)|]. intros z [Hz Hyz]. split; [done|].
    eapply moves_trans; [exact Hxy|exact Hyz]. }
  destruct (negb _); [done|]. destruct (greedy q); [apply Forall_app; split; [done|by constructor]|by constructor].
Qed.

(** Fuel beyond what is ahead changes nothing. *)
Lemma rep_more back body q : component back body ->
  forall turns turns' min max x, state_ok x -> 0 <= min ->
  (Z.to_nat min + ahead input back x.1 < turns)%nat -> (Z.to_nat min + ahead input back x.1 < turns')%nat ->
  rep turns body q min max x = rep turns' body q min max x.
Proof.
  intros Hb. induction turns as [|turns IH]; intros turns' min max x Hx Hmin H1 H2; [lia|].
  destruct turns' as [|turns']; [lia|]. cbn [rep]. destruct (max =? 0); [done|].
  match goal with |- (if _ then ?a else _) = (if _ then ?b else _) => enough (a = b) as -> by done end.
  pose proof (Hb _ (state_ok_clear q x Hx)) as Hall. rewrite Forall_forall in Hall.
  rewrite !flat_map_concat_map. f_equal. apply map_ext_in. intros y Hy. apply list_elem_of_In in Hy.
  destruct (Hall y Hy) as [Hyok Hm]. unfold moves in Hm. cbn [fst] in Hm.
  destruct Hx as [[Hx _] _], Hyok as [[Hyl Hya] Hyc].
  destruct (Z.eqb_spec min 0) as [->|]; cbn [andb].
  - destruct (Nat.eqb_spec y.1 x.1); [done|].
    apply IH; [done|lia| |]; unfold ahead in *; destruct back; lia.
  - apply IH; [done|lia| |]; unfold ahead in *; destruct back; lia.
Qed.

(** The equation of RepeatMatcher. *)
Lemma rep_outs_eq back body q min max x : component back body -> state_ok x -> 0 <= min ->
  rep_outs back body q min max x =
  if max =? 0 then [x]
  else
    let once :=
      flat_map (fun y => if (min =? 0) && (y.1 =? x.1)%nat then []
                         else rep_outs back body q (if min =? 0 then 0 else min - 1)
                                (if max =? kUnbounded then kUnbounded else max - 1) y)
               (body (x.1, clearRepeatCaptures q x.2)) in
    if negb (min =? 0) then once else if greedy q then once ++ [x] else x :: once.
Proof.
  intros Hb Hx Hmin. unfold rep_outs at 1. cbn [rep]. destruct (max =? 0); [done|]. cbv zeta.
  match goal with |- (if _ then ?a else _) = (if _ then ?b else _) => enough (a = b) as -> by done end.
  pose proof (Hb _ (state_ok_clear q x Hx)) as Hall. rewrite Forall_forall in Hall.
  rewrite !flat_map_concat_map. f_equal. apply map_ext_in. intros y Hy. apply list_elem_of_In in Hy.
  destruct (Hall y Hy) as [Hyok Hm]. unfold moves in Hm. cbn [fst] in Hm.
  pose proof Hx as [[Hxl _] _]. pose proof Hyok as [[Hyl _] _].
  destruct (Z.eqb_spec min 0) as [->|]; cbn [andb].
  - destruct (Nat.eqb_spec y.1 x.1); [done|]. unfold rep_outs.
    apply (rep_more back); [done|done|lia| |]; unfold ahead in *; destruct back; lia.
  - unfold rep_outs. apply (rep_more back); [done|done|lia| |]; unfold ahead in *; destruct back; lia.
Qed.

Definition alternatives_ok (back : bool) (alts : list (list Node)) : Prop := Forall (terms_ok back) alts.

Lemma alternatives_ok_fix back alts :
  node_ok back (Alternation alts) <-> alternatives_ok back alts.
Proof.
  unfold alternatives_ok. cbn [node_ok]. induction alts as [|alt alts IH]; [by split; [constructor|]|].
  rewrite Forall_cons, <- IH, <- terms_ok_fix. done.
Qed.

Lemma sequence_ok_fix back ts : node_ok back (Sequence ts) <-> terms_ok back ts.
Proof. apply terms_ok_fix. Qed.

Lemma target_component (back : bool) (f : St -> option nat) :
  (forall (x : St) (p : nat), state_ok x -> f x = Some p -> place p /\ (if back then (p <= x.1)%nat else (x.1 <= p)%nat)) ->
  component back (fun x : St => at_target x.2 (f x)).
Proof.
  intros H x Hx. unfold at_target. destruct (f x) as [p|] eqn:E; constructor; [|constructor].
  destruct (H x p Hx E). split; [split; [done|apply Hx]|done].
Qed.

Lemma one_character_component n back : component back (fun x : St => at_target x.2 (one_character fl input n x.1 back)).
Proof.
  apply target_component. intros x p [Hp _] E. apply one_character_place in E as [? ?]; [|done].
  split; [done|]. destruct back; lia.
Qed.

Lemma directed_component back ts :
  Forall (fun t => node_ok back t -> component back (outs t back)) ts -> terms_ok back ts ->
  Forall (component back) (directed back (map (fun t => outs t back) ts)).
Proof.
  intros IH Hok. assert (Forall (component back) (map (fun t => outs t back) ts)) as H.
  { apply Forall_map. unfold terms_ok in Hok. rewrite !Forall_forall in *. intros t Ht. by apply IH; [|apply Hok]. }
  unfold directed. destruct back; [by apply Forall_rev|done].
Qed.

Lemma at_self back x : state_ok x -> Forall (fun y => state_ok y /\ moves back x y) [x].
Proof. intros Hx. constructor; [|done]. split; [done|apply moves_refl]. Qed.

(** A lookaround leaves the position and takes its body's captures. *)
Lemma lookaround_component (back bodyBack negative : bool) body :
  component bodyBack (outs body bodyBack) ->
  component back (fun x : St => match outs body bodyBack x with
    | [] => if negative then [x] else [] | y :: _ => if negative then [] else [(x.1, y.2)] end).
Proof.
  intros Hb x Hx. specialize (Hb x Hx). destruct (outs body bodyBack x) as [|y ys].
  - destruct negative; [by apply at_self|constructor].
  - destruct negative; [constructor|]. apply Forall_cons_1 in Hb as [[[_ Hy] _] _].
    constructor; [|done]. split; [split; [apply Hx|done]|]. apply (moves_refl back x).
Qed.

Lemma outs_component n : forall back, node_ok back n -> component back (outs n back).
Proof.
  induction n using node_induction; intros back Hok; cbn [outs].
  - apply alternatives_ok_fix in Hok. intros x Hx. apply Forall_flat_map.
    unfold alternatives_ok in Hok. rewrite Forall_forall in *. intros alt Halt.
    apply run_list_component; [|done]. apply directed_component; [|by apply Hok].
    eapply Forall_impl; [by apply H|]. cbn. intros t Ht. apply Ht.
  - apply sequence_ok_fix in Hok. intros x Hx. apply run_list_component; [|done].
    apply directed_component; [|done]. eapply Forall_impl; [by apply H|]. cbn. intros t Ht. apply Ht.
  - apply one_character_component.
  - intros x Hx. destruct (_ || _); [|by apply one_character_component].
    apply Forall_app. split; [|apply Forall_app; split].
    + apply Forall_flat_map. rewrite Forall_forall. intros member _.
      refine (target_component back (fun x : St => string_member fl input member x.1 back) _ x Hx).
      intros x' p [Hp _] E. by apply string_member_place in E.
    + destruct (empty ranges); [constructor|]. by apply one_character_component.
    + destruct matchesEmpty; [by apply at_self|constructor].
  - apply one_character_component.
  - intros x Hx. destruct (assertionHolds _ _ _ _); [by apply at_self|constructor].
  - cbn in Hok. by apply lookaround_component, IHn.
  - cbn in Hok. by apply lookaround_component, IHn.
  - destruct Hok as [Hi Hok]. destruct (index =? 0)%nat; [by apply IHn|]. intros x Hx.
    apply Forall_map. eapply Forall_impl; [by apply (IHn back Hok x Hx)|].
    cbn. intros y [Hy Hm]. split; [|done]. apply state_ok_close; [done|apply Hx].
  - destruct Hok as [Hi Hb]. apply target_component. intros x p [Hp Hc] E.
    by eapply backreference_place.
  - destruct Hok as [Hq Hok]. intros x Hx. by apply rep_component; [apply IHn|].
Qed.

(** ** A repetition of single characters is a walk *)

(** The positions after 0, 1, ... repetitions. *)
Fixpoint chain (turns : nat) (atom : Node) (back : bool) (max : Z) (pos : nat) : list nat :=
  match turns with
  | O => [pos]
  | S turns =>
    if max =? 0 then [pos]
    else
    match one_character fl input atom pos back with
    | None => [pos]
    | Some p => pos :: chain turns atom back (if max =? kUnbounded then kUnbounded else max - 1) p
    end
  end.

Lemma single_outs atom back x :
  single_character atom -> outs atom back x = at_target x.2 (one_character fl input atom x.1 back).
Proof. destruct atom; cbn; try done. by intros [-> ->]. Qed.

Lemma rep_chain atom q back turns : single_character atom -> captureCount q = O ->
  forall min max pos c, place pos -> 0 <= min <= max ->
  (Z.to_nat min + ahead input back pos < turns)%nat ->
  rep turns (outs atom back) q min max (pos, c) =
  map (fun p => (p, c))
    (let walk := drop (Z.to_nat min) (chain turns atom back max pos) in
     if greedy q then rev walk else walk).
Proof.
  intros Hs Hcap. induction turns as [|turns IH]; intros min max pos c Hp Hmin Hturns; [lia|].
  cbn [rep chain]. destruct (Z.eqb_spec max 0) as [->|].
  { replace (Z.to_nat min) with O by lia. by destruct (greedy q). }
  rewrite clear_nothing, single_outs by done. cbn [fst snd].
  destruct (one_character fl input atom pos back) as [p|] eqn:E; cbn [at_target flat_map].
  - apply one_character_place in E as [Hpp Hpos]; [|done]. cbn [fst].
    assert ((p =? pos)%nat = false) as -> by (apply Nat.eqb_neq; destruct back; lia). rewrite andb_false_r, app_nil_r.
    destruct Hp as [Hpl _], Hpp as [Hppl Hppa].
    destruct (Z.eqb_spec min 0) as [->|]; cbn [negb].
    + rewrite IH; [|done|destruct (max =? kUnbounded); unfold kUnbounded; lia|unfold ahead in *; destruct back; lia].
      change (Z.to_nat 0) with O. cbn [drop]. cbv zeta. destruct (greedy q); cbn [rev map]; [by rewrite map_app|done].
    + rewrite IH; [|done|destruct (Z.eqb_spec max kUnbounded); lia|unfold ahead in *; destruct back; lia].
      replace (Z.to_nat min) with (S (Z.to_nat (min - 1))) by lia. done.
  - destruct (Z.eqb_spec min 0) as [->|]; cbn [negb].
    + cbn. by destruct (greedy q).
    + replace (Z.to_nat min) with (S (Z.to_nat (min - 1))) by lia. cbn [drop]. rewrite drop_nil.
      by destruct (greedy q).
Qed.

Lemma chain_more atom back turns : forall turns' max pos, place pos ->
  (ahead input back pos <= turns)%nat -> (ahead input back pos <= turns')%nat ->
  chain turns atom back max pos = chain turns' atom back max pos.
Proof.
  assert (forall turns max pos, place pos -> ahead input back pos = O -> chain turns atom back max pos = [pos]) as H0.
  { intros [|t] max pos [Hp _] Ha; cbn; [done|]. destruct (max =? 0); [done|].
    unfold one_character. unfold ahead in Ha. destruct back.
    - by rewrite Ha.
    - by rewrite (proj2 (Nat.leb_le _ _)) by lia. }
  induction turns as [|turns IH]; intros turns' max pos Hp H1 H2; [rewrite !H0; [done|done|lia|done|lia]|].
  destruct turns' as [|turns']; [rewrite !H0; [done|done|lia|done|lia]|]. cbn [chain].
  destruct (max =? 0); [done|]. destruct (one_character fl input atom pos back) as [p|] eqn:E; [|done].
  apply one_character_place in E as [Hpp Hpos]; [|done]. destruct Hp as [Hpl _]. pose proof Hpp as [Hppl _].
  f_equal. apply IH; [done| |]; unfold ahead in *; destruct back; lia.
Qed.

Lemma chain_head turns atom back max pos : exists l, chain turns atom back max pos = pos :: l.
Proof. destruct turns; cbn; [by eexists|]. destruct (max =? 0); [by eexists|]. destruct (one_character _ _ _ _ _); by eexists. Qed.

(** Neighbours in the walk are one step apart, whichever way it is taken. *)
Lemma one_character_steps atom back a b : place a -> one_character fl input atom a back = Some b ->
  grow fl input back a = b /\ shrink fl input back b = a.
Proof.
  intros [Hl Ha]. unfold one_character, grow, shrink. destruct back.
  - destruct (Nat.eqb_spec a 0) as [|Hne]; [done|]. destruct (negb _); [done|]. intros [= <-]. split; [done|].
    destruct (step_backward input (unicodeMode fl) a Ha ltac:(lia)) as (? & ? & ? & E).
    unfold characterAt, characterBefore, unicode_ in *. rewrite E. lia.
  - destruct (Nat.leb_spec (length input) a); [done|]. destruct (negb _); [done|]. intros [= <-]. split; [done|].
    destruct (step_forward input (unicodeMode fl) a Ha ltac:(lia)) as (? & ? & ? & E).
    unfold characterAt, characterBefore, unicode_ in *. rewrite E. lia.
Qed.

Lemma chain_steps turns atom back : forall max pos i a b, place pos ->
  chain turns atom back max pos !! i = Some a -> chain turns atom back max pos !! S i = Some b ->
  place a /\ place b /\ grow fl input back a = b /\ shrink fl input back b = a.
Proof.
  induction turns as [|turns IH]; intros max pos i a b Hp; cbn [chain]; [by destruct i|].
  destruct (max =? 0); [by destruct i|].
  destruct (one_character fl input atom pos back) as [p|] eqn:E; [|by destruct i].
  pose proof (one_character_place _ _ _ _ Hp E) as [Hpp _]. destruct i as [|i]; cbn [lookup list_lookup].
  - intros [= <-]. destruct (chain_head turns atom back (if max =? kUnbounded then kUnbounded else max - 1) p) as [l ->].
    intros [= <-]. split; [done|]. split; [done|]. by eapply one_character_steps.
  - intros H1 H2. by eapply IH.
Qed.

Lemma scan_chain q atom back turns : forall count at_ ,
  0 <= qmax q <= kUnbounded -> qmax q = kUnbounded \/ Z.of_nat count <= qmax q ->
  let l := chain turns atom back (if qmax q =? kUnbounded then kUnbounded else qmax q - Z.of_nat count) at_ in
  let r := scan fl input turns q atom back count at_ in
  (r.1 + 1 = count + length l)%nat /\ l !! (r.1 - count)%nat = Some r.2.
Proof.
  induction turns as [|turns IH]; intros count at_ Hq Hc; cbv zeta; cbn [scan chain].
  { cbn. rewrite Nat.sub_diag. split; [lia|done]. }
  destruct (Z.eqb_spec (qmax q) kUnbounded) as [Hu|Hu]; cbn [orb].
  - change (kUnbounded =? 0) with false. cbn [orb].
    destruct (one_character fl input atom at_ back) as [p|]; [|cbn; rewrite Nat.sub_diag; split; [lia|done]].
    specialize (IH (S count) p Hq (or_introl Hu)). cbv zeta in IH. rewrite Hu, Z.eqb_refl in *.
    destruct IH as [I1 I2]. cbn [length]. split; [lia|]. rewrite <- I2.
    destruct (chain_head turns atom back kUnbounded p) as [l' El]. rewrite El in I1. cbn in I1.
    by replace ((scan fl input turns q atom back (S count) p).1 - count)%nat
      with (S ((scan fl input turns q atom back (S count) p).1 - S count)) by lia.
  - destruct (Z.ltb_spec (Z.of_nat count) (qmax q)); destruct (Z.eqb_spec (qmax q - Z.of_nat count) 0); try lia.
    + destruct (one_character fl input atom at_ back) as [p|]; [|cbn; rewrite Nat.sub_diag; split; [lia|done]].
      rewrite (proj2 (Z.eqb_neq (qmax q - Z.of_nat count) kUnbounded)) by lia.
      specialize (IH (S count) p Hq ltac:(right; lia)). cbv zeta in IH.
      replace (qmax q - Z.of_nat (S count)) with (qmax q - Z.of_nat count - 1) in IH by lia.
      destruct IH as [I1 I2]. cbn [length]. split; [lia|]. rewrite <- I2.
      destruct (chain_head turns atom back (qmax q - Z.of_nat count - 1) p) as [l' El]. rewrite El in I1. cbn in I1.
      by replace ((scan fl input turns q atom back (S count) p).1 - count)%nat
        with (S ((scan fl input turns q atom back (S count) p).1 - S count)) by lia.
    + cbn. rewrite Nat.sub_diag. split; [lia|done].
Qed.

End Semantics.
