(* ===== verification/RegexRefine.v ===== *)
(** * The matcher computes the first outcome

    The refinement of RegexSpec by RegexMatch, as one total correctness statement: with
    fuel above an explicit bound every call answers, and unless it gave up it answers
    what the semantics of the node and of its continuation say, the captures it wrote
    on the way to a failure undone. *)
From S2P Require Import Prelude CaseFold RegexChars RegexMatch RegexSpec.
Local Open Scope bool_scope.
Local Open Scope list_scope.

Section Refinement.
Context (fl : Flags) (input : list Z) (groups : nat).
Hypothesis units_ok : Forall (fun u => 0 <= u <= kMaxUnit) input.

Notation outs := (outs fl input).
Notation completes := (completes fl input).
Notation place := (place fl input).
Notation captures_ok := (captures_ok fl input groups).
Notation node_ok := (node_ok fl groups).
Notation terms_ok := (terms_ok fl groups).
Notation rep_outs := (rep_outs input).
Notation component := (component fl input groups).

(** ** Answers *)

(** The answer of a call that began with captures [c] and [s] steps: it gave up, or
    it is the expected one. *)
Definition answers (c : list Z) (s : Z) (expected : option St) (r : option (bool * Matcher)) : Prop :=
  exists b st, r = Some (b, st) /\ s <= steps_ st /\
    if failed_ st then b = false
    else match expected with
         | None => b = false /\ captures_ st = c
         | Some y => b = true /\ endPos_ st = y.1 /\ captures_ st = y.2
         end.

(** The answer of a computation that meets a failed matcher. *)
Definition gives_up (s : Z) (r : option (bool * Matcher)) : Prop :=
  exists st, r = Some (false, st) /\ s <= steps_ st /\ failed_ st = true.

Definition orelse (e e' : option St) : option St := match e with Some _ => e | None => e' end.

Lemma gives_up_answers c s e r : gives_up s r -> answers c s e r.
Proof. intros (st & -> & Hs & Hf). exists false, st. by rewrite Hf. Qed.

Lemma answers_weaken c s s' e r : s' <= s -> answers c s e r -> answers c s' e r.
Proof. intros Hs (b & st & -> & H & H'). exists b, st. split; [done|]. split; [lia|done]. Qed.

Lemma answers_no c s st : failed_ st = false -> captures_ st = c -> s <= steps_ st -> answers c s None (ret false st).
Proof. intros Hf Hc Hs. exists false, st. by rewrite Hf. Qed.

Lemma unless_failed_ok m st : failed_ st = false -> unless_failed m st = m st.
Proof. unfold unless_failed, bind, get_failed. by intros ->. Qed.

Lemma unless_failed_gives_up m st s : failed_ st = true -> s <= steps_ st -> gives_up s (unless_failed m st).
Proof. intros Hf Hs. exists st. unfold unless_failed, bind, get_failed. by rewrite Hf. Qed.

(** [if (m) return true;] and then the rest. *)
Lemma answers_or_try c1 c s e e' m m' st :
  answers c1 s e (m st) ->
  (forall st', s <= steps_ st' -> failed_ st' = true -> gives_up s (m' st')) ->
  (forall st', s <= steps_ st' -> failed_ st' = false -> captures_ st' = c1 -> answers c s e' (m' st')) ->
  answers c s (orelse e e') (or_try m m' st).
Proof.
  intros (b & st' & E & Hs & H) Hfail Hnext. unfold or_try, bind. rewrite E.
  destruct (failed_ st') eqn:Ef.
  - subst b. by apply gives_up_answers, Hfail.
  - destruct e as [y|].
    + destruct H as (-> & ? & ?). exists true, st'. by rewrite Ef.
    + destruct H as [-> Hc]. by apply Hnext.
Qed.

Lemma answers_or_unless c s e e' m m' st :
  answers c s e (m st) ->
  (forall st', s <= steps_ st' -> failed_ st' = false -> captures_ st' = c -> answers c s e' (m' st')) ->
  answers c s (orelse e e') (or_try m (unless_failed m') st).
Proof.
  intros H Hnext. eapply answers_or_try; [exact H| |].
  - intros st' Hs Hf. by apply unless_failed_gives_up.
  - intros st' Hs Hf Hc. rewrite unless_failed_ok by done. by apply Hnext.
Qed.

(** A step that changes the captures and nothing else. *)
Definition recaptures (m : M unit) (c c' : list Z) : Prop :=
  forall st, exists st', m st = Some (tt, st') /\ steps_ st' = steps_ st /\ failed_ st' = failed_ st /\
    (captures_ st = c -> captures_ st' = c').

(** A failure with the captures written back. *)
Lemma answers_or_undo c1 c s e m m' st :
  answers c1 s e (m st) -> recaptures m' c1 c -> answers c s e (or_try m (m' ;; ret false) st).
Proof.
  intros H Hm. replace e with (orelse e None) by (by destruct e).
  eapply answers_or_try; [exact H| |].
  - intros st' Hs Hf. destruct (Hm st') as (st'' & E & Es & Ef & _). exists st''.
    unfold bind, ret. rewrite E. split; [done|]. split; [lia|congruence].
  - intros st' Hs Hf Hc. destruct (Hm st') as (st'' & E & Es & Ef & Ec). unfold bind. rewrite E.
    apply answers_no; [congruence|by apply Ec|lia].
Qed.

(** ** What the four functions are expected to do *)

Fixpoint node_size (n : Node) : nat :=
  match n with
  | Alternation alts => S (list_sum (map (fun alt => S (list_sum (map node_size alt))) alts))
  | Sequence terms => S (list_sum (map node_size terms))
  | Lookahead _ body | Lookbehind _ body | Group _ body => S (node_size body)
  | Repeat _ atom => S (node_size atom)
  | _ => 1%nat
  end.

Definition terms_size (ts : list Node) : nat := list_sum (map node_size ts).

Lemma terms_size_cons t ts : terms_size (t :: ts) = (node_size t + terms_size ts)%nat.
Proof. reflexivity. Qed.

Lemma term_size_le ts t i : ts !! i = Some t -> (node_size t <= terms_size ts)%nat.
Proof.
  revert i. induction ts as [|a ts IH]; intros [|i]; try done; rewrite terms_size_cons.
  - intros [= ->]. lia.
  - intros H. apply IH in H. lia.
Qed.

(** No node of a continuation is larger than [N]. *)
Context (N : nat).

Fixpoint cont_ok (k : Cont) : Prop :=
  match k with
  | Cont_Done => True
  | Cont_Sequence terms index back next =>
      terms_ok back terms /\ (index <= length terms)%nat /\ (terms_size terms <= N)%nat /\ cont_ok next
  | Cont_Repeat q atom min max mark back next =>
      node_ok back atom /\ 0 <= min /\ (node_size atom <= N)%nat /\ cont_ok next
  | Cont_Capture index mark next => place mark /\ cont_ok next
  end.

(** The fuel that the steps left over from [s] can use up. *)
Definition budget (s : Z) : nat := (Z.to_nat (kStepBudget + 1 - s) * (2 * N + 2))%nat.

Lemma budget_mono s s' : s <= s' -> (budget s' <= budget s)%nat.
Proof. intros H. unfold budget. apply Nat.mul_le_mono_r. lia. Qed.

Lemma budget_step s : s + 1 <= kStepBudget -> (budget s = budget (s + 1) + (2 * N + 2))%nat.
Proof.
  intros H. unfold budget. replace (Z.to_nat (kStepBudget + 1 - s)) with (S (Z.to_nat (kStepBudget + 1 - (s + 1)))) by lia.
  cbn [Nat.mul]. lia.
Qed.

(** A call from a state in order, at captures [c] and [s] steps. *)
Definition starts (c : list Z) (s : Z) (st : Matcher) : Prop :=
  failed_ st = false /\ captures_ st = c /\ s <= steps_ st /\ captures_ok c.

Definition cont_spec (F : nat) (rc : Cont -> nat -> M bool) : Prop :=
  forall k pos c s st, starts c s st -> cont_ok k -> place pos -> (budget s + 1 <= F)%nat ->
  answers c s (completes k (pos, c)) (rc k pos st).

Definition sequence_spec (F : nat) (ms : list Node -> nat -> nat -> Cont -> bool -> M bool) : Prop :=
  forall terms index pos k back c s st, starts c s st -> cont_ok k -> place pos ->
  terms_ok back terms -> (index <= length terms)%nat -> (terms_size terms <= N)%nat ->
  (budget s + 2 + 2 * terms_size terms <= F)%nat ->
  answers c s (first_some (completes k) (run_list (drop index (directed back (map (fun t => outs t back) terms))) (pos, c)))
    (ms terms index pos k back st).

Definition repeat_spec (F : nat) (mr : Quantifier -> Node -> Z -> Z -> nat -> Cont -> bool -> M bool) : Prop :=
  forall q atom min max pos k back c s st, starts c s st -> cont_ok k -> place pos ->
  node_ok back atom -> 0 <= min -> (node_size atom <= N)%nat ->
  (budget s + 2 + 2 * node_size atom <= F)%nat ->
  answers c s (first_some (completes k) (rep_outs back (outs atom back) q min max (pos, c)))
    (mr q atom min max pos k back st).

Definition node_spec (F : nat) (mn : Node -> nat -> Cont -> bool -> M bool) : Prop :=
  forall node pos k back c s st, starts c s st -> cont_ok k -> place pos ->
  node_ok back node -> (node_size node <= N)%nat ->
  (budget s + 1 + 2 * node_size node <= F)%nat ->
  answers c s (first_some (completes k) (outs node back (pos, c))) (mn node pos k back st).

(** ** The loops around a continuation *)

Lemma first_some_cons {A} (f : A -> option St) a l : first_some f (a :: l) = orelse (f a) (first_some f l).
Proof. cbn. by destruct (f a). Qed.

Lemma first_some_app_orelse {A} (f : A -> option St) l l' :
  first_some f (l ++ l') = orelse (first_some f l) (first_some f l').
Proof. rewrite first_some_app. by destruct (first_some f l). Qed.

Lemma orelse_None e : orelse e None = e.
Proof. by destruct e. Qed.

Lemma orelse_assoc e e' e'' : orelse (orelse e e') e'' = orelse e (orelse e' e'').
Proof. by destruct e. Qed.

Section Calls.
Context (rc : Cont -> nat -> M bool) (k : Cont) (c : list Z) (s : Z).
Hypothesis c_ok : captures_ok c.
Hypothesis K : forall pos st, starts c s st -> place pos -> answers c s (completes k (pos, c)) (rc k pos st).

Lemma starts_again st : s <= steps_ st -> failed_ st = false -> captures_ st = c -> starts c s st.
Proof. intros ? ? ?. by unfold starts. Qed.

Lemma starts_no st : starts c s st -> answers c s None (ret false st).
Proof. intros (? & ? & ? & _). by apply answers_no. Qed.

Lemma resume_answers target st : starts c s st -> (forall p, target = Some p -> place p) ->
  answers c s (first_some (completes k) (at_target c target)) (resume rc k target st).
Proof.
  intros Hst Hp. destruct target as [p|]; cbn [at_target resume]; [|by apply starts_no].
  rewrite first_some_cons, orelse_None. apply K; [done|by apply Hp].
Qed.

Lemma rev_walk (l : list nat) m n cur : l !! n = Some cur -> (m <= n)%nat ->
  rev (drop m (take (S n) l)) = cur :: rev (drop m (take n l)).
Proof.
  intros H Hm. rewrite (take_S_r l n cur H). pose proof (lookup_lt_Some _ _ _ H).
  rewrite drop_app_le by (rewrite length_take; lia). by rewrite rev_app_distr.
Qed.

Lemma give_back_answers back min l : Forall place l -> 0 <= min ->
  (forall i a b, l !! i = Some a -> l !! S i = Some b -> shrink fl input back b = a) ->
  forall n cur st, starts c s st -> l !! n = Some cur -> (Z.to_nat min <= n)%nat ->
  answers c s (first_some (completes k) (map (fun p => (p, c)) (rev (drop (Z.to_nat min) (take (S n) l)))))
    (give_back fl input rc k back min n cur st).
Proof.
  intros Hl Hmin Hsteps. induction n as [|n IH]; intros cur st Hst Hcur Hn.
  - replace (Z.to_nat min) with O by lia. destruct l as [|a l]; [done|]. injection Hcur as ->.
    change (drop 0 (take 1 (cur :: l))) with [cur]. cbn [rev app map give_back]. rewrite first_some_cons. eapply answers_or_try.
    + apply K; [done|]. by apply Forall_cons_1 in Hl as [? _].
    + intros st' Hs Hf. exists st'. unfold bind, get_failed. by rewrite Hf.
    + intros st' Hs Hf Hc. unfold bind, get_failed. rewrite Hf.
      rewrite (proj2 (Z.eqb_eq (Z.of_nat 0) min)) by lia. by apply answers_no.
  - assert (place cur) as Hpc by (rewrite Forall_lookup in Hl; by eapply Hl).
    rewrite (rev_walk _ _ _ cur) by done. cbn [map]. rewrite first_some_cons. cbn [give_back]. eapply answers_or_try; [by apply K| |].
    + intros st' Hs Hf. exists st'. unfold bind, get_failed. by rewrite Hf.
    + intros st' Hs Hf Hc. unfold bind, get_failed. rewrite Hf. cbn [orb].
      destruct (Z.eqb_spec (Z.of_nat (S n)) min) as [<-|].
      * rewrite drop_ge by (rewrite length_take; lia). by apply answers_no.
      * destruct (l !! n) as [a|] eqn:Ea.
        -- rewrite (Hsteps n a cur Ea Hcur). apply IH; [by apply starts_again|done|lia].
        -- apply lookup_ge_None in Ea. apply lookup_lt_Some in Hcur. lia.
Qed.

Lemma take_more_answers back l : Forall place l ->
  (forall i a b, l !! i = Some a -> l !! S i = Some b -> grow fl input back a = b) ->
  forall remaining i cur st, starts c s st -> l !! i = Some cur -> (i + remaining + 1 = length l)%nat ->
  answers c s (first_some (completes k) (map (fun p => (p, c)) (drop i l)))
    (take_more fl input rc k back remaining cur st).
Proof.
  intros Hl Hsteps. induction remaining as [|r IH]; intros i cur st Hst Hcur Hi.
  all: assert (place cur) as Hpc by (rewrite Forall_lookup in Hl; by eapply Hl).
  all: rewrite (drop_S l cur i Hcur); cbn [map take_more]; rewrite first_some_cons;
    apply answers_or_unless; [by apply K|]; intros st' Hs Hf Hc.
  - rewrite drop_ge by lia. by apply answers_no.
  - destruct (l !! S i) as [b|] eqn:Eb; [|apply lookup_ge_None in Eb; lia].
    rewrite (Hsteps i cur b Hcur Eb). apply IH; [by apply starts_again|done|lia].
Qed.

Lemma walk_from_start back l pos : (forall i a b, l !! i = Some a -> l !! S i = Some b -> grow fl input back a = b) ->
  l !! O = Some pos -> forall i, (i < length l)%nat -> l !! i = Some (Nat.iter i (grow fl input back) pos).
Proof.
  intros Hsteps H0. induction i as [|i IH]; intros Hi; [done|]. specialize (IH ltac:(lia)).
  destruct (l !! S i) as [b|] eqn:Eb; [|apply lookup_ge_None in Eb; lia].
  cbn [Nat.iter nat_rect]. by rewrite <- (Hsteps i _ b IH Eb).
Qed.

(** The scan, the walk back over it and the walk forward are RepeatMatcher. *)
Lemma simple_repeat_answers q atom pos back st :
  starts c s st -> place pos -> quantifier_ok q atom -> simpleAtom q = true ->
  answers c s (first_some (completes k) (rep_outs back (outs atom back) q (qmin q) (qmax q) (pos, c)))
    (matchSimpleRepeat fl input rc k q atom pos back st).
Proof.
  intros Hst Hp (Hmin & Hmax & Hsimple) Hs. destruct (Hsimple Hs) as [Hcap Hatom].
  unfold rep_outs. rewrite (rep_chain fl input atom q back) by (done || cbn; lia). cbn [fst].
  rewrite (chain_more fl input atom back _ (length input)) by (try done; cbn; unfold ahead; destruct back, Hp; lia).
  pose proof (scan_chain fl input q atom back (length input) 0 pos ltac:(lia) ltac:(lia)) as [Hlen Hlast].
  rewrite Z.sub_0_r, Nat.sub_0_r in *.
  assert ((if qmax q =? kUnbounded then kUnbounded else qmax q) = qmax q) as Em
    by (destruct (Z.eqb_spec (qmax q) kUnbounded); congruence).
  rewrite Em in Hlen, Hlast. set (l := chain fl input (length input) atom back (qmax q) pos) in *.
  assert (forall i a b, l !! i = Some a -> l !! S i = Some b ->
    place a /\ place b /\ grow fl input back a = b /\ shrink fl input back b = a) as Hsteps.
  { intros i a b. by apply chain_steps. }
  destruct (chain_head fl input (length input) atom back (qmax q) pos) as [tl Ehead]. fold l in Ehead.
  assert (Forall place l) as Hl.
  { apply Forall_lookup. intros [|i] a Ha; [rewrite Ehead in Ha; by injection Ha as <-|].
    destruct (l !! i) as [a'|] eqn:Ea; [by apply (Hsteps i a' a)|].
    apply lookup_ge_None in Ea. apply lookup_lt_Some in Ha. lia. }
  unfold matchSimpleRepeat. destruct (scan fl input (length input) q atom back 0 pos) as [count at_].
  cbn [fst snd] in Hlen, Hlast. destruct (Z.ltb_spec (Z.of_nat count) (qmin q)).
  { rewrite drop_ge by lia. assert ((if greedy q then rev [] else []) = @nil nat) as -> by (by destruct (greedy q)).
    by apply starts_no. }
  destruct (greedy q).
  - rewrite <- (take_ge l (S count)) by lia. apply give_back_answers; try done; try lia.
    intros i a b Ha Hb. by apply (Hsteps i).
  - apply take_more_answers; try done; try lia.
    + intros i a b Ha Hb. by apply (Hsteps i).
    + apply walk_from_start; [|by rewrite Ehead|lia]. intros i a b Ha Hb. by apply (Hsteps i).
Qed.

Lemma members_answers strings pos back m e : place pos ->
  (forall st, starts c s st -> answers c s e (m st)) ->
  forall st, starts c s st ->
  answers c s
    (orelse (first_some (completes k) (flat_map (fun member => at_target c (string_member fl input member pos back)) strings)) e)
    (try_members fl input rc k strings pos back m st).
Proof.
  intros Hp Hm. induction strings as [|member strings IH]; intros st Hst; [by apply Hm|].
  cbn [flat_map try_members]. destruct (string_member fl input member pos back) as [p|] eqn:E; [|by apply IH].
  cbn [at_target app]. rewrite first_some_cons, orelse_assoc. apply answers_or_unless.
  - apply K; [done|]. by eapply string_member_place in E as [? _].
  - intros st' Hs Hf Hc. by apply IH, starts_again.
Qed.

Lemma class_set_answers ranges negated strings matchesEmpty pos back st : place pos -> starts c s st ->
  negb (empty strings) || matchesEmpty = true ->
  answers c s (first_some (completes k) (outs (CharClass ranges negated strings matchesEmpty) back (pos, c)))
    (matchClassSet fl input rc k ranges negated strings matchesEmpty pos back st).
Proof.
  intros Hp Hst Hset. cbn [RegexSpec.outs]. rewrite Hset. cbn [fst snd]. rewrite first_some_app_orelse.
  unfold matchClassSet. apply members_answers; [done| |done]. intros st' Hst'.
  set (last := if matchesEmpty then rc k pos else ret false).
  assert (forall st, starts c s st -> answers c s (first_some (completes k) (if matchesEmpty then [(pos, c)] else [])) (last st)) as Hlast.
  { intros st'' Hst''. unfold last. destruct matchesEmpty; [|by apply starts_no].
    rewrite first_some_cons, orelse_None. by apply K. }
  destruct (empty ranges); [by apply Hlast|]. rewrite first_some_app_orelse. apply answers_or_unless.
  - apply resume_answers; [done|]. intros p E. by eapply one_character_place in E as [? _].
  - intros st'' Hs Hf Hc. by apply Hlast, starts_again.
Qed.

End Calls.

(** ** One node *)

Lemma first_some_map {A B} (f : B -> option St) (g : A -> B) l :
  first_some f (map g l) = first_some (fun a => f (g a)) l.
Proof. induction l as [|a l IH]; cbn; [done|]. by rewrite IH. Qed.

Lemma node_size_pos n : (1 <= node_size n)%nat.
Proof. destruct n; cbn [node_size]; lia. Qed.

Section Node.
Context (F : nat) (rc : Cont -> nat -> M bool)
  (ms : list Node -> nat -> nat -> Cont -> bool -> M bool)
  (mr : Quantifier -> Node -> Z -> Z -> nat -> Cont -> bool -> M bool)
  (mn : Node -> nat -> Cont -> bool -> M bool).
Hypothesis Hrc : cont_spec F rc.
Hypothesis Hms : sequence_spec F ms.
Hypothesis Hmr : repeat_spec F mr.
Hypothesis Hmn : node_spec F mn.
Context (k : Cont) (c : list Z) (s : Z) (pos : nat).
Hypothesis k_ok : cont_ok k.
Hypothesis c_ok : captures_ok c.
Hypothesis p_ok : place pos.

Lemma alternatives_answers alts back st :
  starts c s st -> alternatives_ok fl groups back alts ->
  Forall (fun alt => terms_size alt <= N /\ budget s + 2 + 2 * terms_size alt <= F)%nat alts ->
  answers c s
    (first_some (completes k) (flat_map (fun alt => run_list (directed back (map (fun t => outs t back) alt)) (pos, c)) alts))
    (try_alternatives k ms alts pos back st).
Proof.
  intros Hst Hok Hsize. revert st Hst. induction alts as [|alt alts IH]; intros st Hst; cbn [flat_map try_alternatives].
  { by apply starts_no. }
  apply Forall_cons_1 in Hok as [Ha Hok]. apply Forall_cons_1 in Hsize as [[H1 H2] Hsize].
  rewrite first_some_app_orelse. apply answers_or_unless.
  - apply (Hms alt 0%nat pos k back c s st); try done; lia.
  - intros st' Hs Hf Hc. apply IH; [done|done|by apply starts_again].
Qed.

Lemma lookaround_answers (negative bodyBack : bool) body st :
  starts c s st -> node_ok bodyBack body -> (node_size body <= N)%nat ->
  (budget s + 1 + 2 * node_size body <= F)%nat ->
  answers c s
    (first_some (completes k) (match outs body bodyBack (pos, c) with
       | [] => if negative then [(pos, c)] else []
       | y :: _ => if negative then [] else [(pos, y.2)] end))
    (matchLookaround rc k mn negative bodyBack body pos st).
Proof.
  intros Hst Hok Hsize HF.
  destruct (Hmn body pos Cont_Done bodyBack c s st) as (b & st1 & E & Hs1 & H); try done.
  pose proof (outs_component fl input groups units_ok body bodyBack Hok (pos, c) (conj p_ok c_ok)) as Hall.
  destruct Hst as (Hf & Hc & Hs & _).
  unfold matchLookaround, bind at 1 2 3, get_captures, get_endPos. rewrite E. unfold bind at 1, set_endPos.
  set (st2 := mkMatcher _ _ _ _ _ _).
  destruct (failed_ st1) eqn:Ef.
  { apply gives_up_answers. unfold unless_failed, bind, get_failed. cbn. exists st2. by split_and!. }
  rewrite unless_failed_ok by done.
  assert (forall c', captures_ok c' -> forall st', starts c' s st' -> answers c' s (completes k (pos, c')) (rc k pos st')) as K.
  { intros c' Hc' st' Hst'. apply Hrc; try done. pose proof (node_size_pos body). lia. }
  destruct (outs body bodyBack (pos, c)) as [|y ys]; cbn [first_some RegexSpec.completes] in H.
  - destruct H as [-> Hc1]. destruct negative; cbn [negb]; unfold bind, set_captures.
    + rewrite first_some_cons, orelse_None. rewrite Hc. by apply K.
    + by apply answers_no.
  - destruct H as (-> & _ & Hc1). apply Forall_cons_1 in Hall as [[[_ Hy] _] _].
    destruct negative; cbn [negb]; [by apply answers_no|]. rewrite first_some_cons, orelse_None.
    eapply answers_or_undo; [by apply K|].
    intros st'. eexists. split; [reflexivity|]. by rewrite Hc.
Qed.

Lemma node_inner node back st :
  starts c s st -> node_ok back node -> (node_size node <= N)%nat -> (budget s + 2 * node_size node <= F)%nat ->
  answers c s (first_some (completes k) (outs node back (pos, c)))
    (matchNodeInner fl input rc k ms mr mn node pos back st).
Proof.
  intros Hst Hok Hsize HF.
  assert (forall p st', starts c s st' -> place p -> answers c s (completes k (p, c)) (rc k p st')) as K.
  { intros p st' Hst' Hp. apply Hrc; try done. pose proof (node_size_pos node). lia. }
  assert (forall n, answers c s (first_some (completes k) (at_target c (one_character fl input n pos back)))
    (resume rc k (one_character fl input n pos back) st)) as Hone.
  { intros n. apply resume_answers; [done|done|]. intros p E. by eapply one_character_place in E as [? _]. }
  destruct node; cbn [matchNodeInner]; cbn [node_size] in Hsize, HF.
  - apply alternatives_answers; [done|by apply alternatives_ok_fix|].
    apply Forall_lookup. intros i alt Halt. enough (S (terms_size alt) <=
      list_sum (map (fun alt => S (list_sum (map node_size alt))) alternatives))%nat by lia.
    clear -Halt. revert i Halt. induction alternatives as [|a alts IH]; intros [|i]; try done.
    + intros [= ->]. cbn [map]. change (list_sum (?a :: ?l)) with (a + list_sum l)%nat. unfold terms_size. lia.
    + intros H. apply IH in H. cbn [map]. change (list_sum (?a :: ?l)) with (a + list_sum l)%nat. lia.
  - apply (Hms terms 0%nat pos k back c s st); try done; [by apply sequence_ok_fix|lia| |]; unfold terms_size; lia.
  - apply Hone.
  - destruct (negb (empty strings) || matchesEmpty) eqn:E; [by apply class_set_answers|].
    cbn [RegexSpec.outs]. rewrite E. apply Hone.
  - apply Hone.
  - cbn [RegexSpec.outs fst]. destruct (assertionHolds fl input assertion pos); cbn [negb]; [|by apply starts_no].
    rewrite first_some_cons, orelse_None. by apply K.
  - apply lookaround_answers; try done; lia.
  - apply lookaround_answers; try done; lia.
  - destruct Hok as [Hi Hok]. cbn [RegexSpec.outs fst]. destruct (captureIndex =? 0)%nat.
    + apply Hmn; try done; lia.
    + rewrite first_some_map. apply (Hmn node pos (Cont_Capture captureIndex pos k)); try done; lia.
  - destruct Hok as [Hi Hb]. unfold bind, get_captures. destruct Hst as (? & Hc & ?). rewrite Hc.
    apply resume_answers; [done|done|]. intros p E. by eapply backreference_place in E as [? _].
  - destruct Hok as [Hq Hok]. destruct (simpleAtom q) eqn:E.
    + by apply simple_repeat_answers.
    + destruct Hq as (? & ? & _). apply Hmr; try done; try lia.
Qed.

End Node.

(** ** The four functions *)

Lemma starts_change c s st c' st' :
  starts c s st -> captures_ok c' -> captures_ st' = c' -> steps_ st' = steps_ st -> failed_ st' = failed_ st ->
  starts c' s st'.
Proof. intros (? & ? & ? & _) ? ? ? ?. unfold starts. split_and!; [congruence|done|lia|done]. Qed.

(** Closing a group and reopening it. *)
Lemma write_back (l : list Z) (i : nat) a b :
  <[S i := l.[S i]]> (<[i := l.[i]]> (<[S i := b]> (<[i := a]> l))) = l.
Proof.
  apply limb_ext; [by rewrite !length_insert|]. intros j Hj. rewrite !length_insert in Hj.
  destruct (decide (j = S i)) as [->|]; [by rewrite limb_insert_eq by (rewrite !length_insert; lia)|].
  rewrite limb_insert_ne by lia. destruct (decide (j = i)) as [->|].
  - by rewrite limb_insert_eq by (rewrite !length_insert; lia).
  - by rewrite !limb_insert_ne by lia.
Qed.

Lemma on_captures_steps q f c st : (captureCount q = O -> f c = c) -> captures_ st = c ->
  exists st', on_captures q f st = Some (tt, st') /\ steps_ st' = steps_ st /\ failed_ st' = failed_ st /\
    captures_ st' = f c.
Proof.
  intros Hf Hc. unfold on_captures, bind, get_captures, set_captures, ret. destruct (Nat.eqb_spec (captureCount q) 0).
  - exists st. split_and!; [done|done|done|]. rewrite Hf by done. done.
  - eexists. split_and!; [reflexivity|done|done|]. cbn. by rewrite Hc.
Qed.

Lemma restore_recaptures q c :
  recaptures (on_captures q (restoreRepeatCaptures q (if (captureCount q =? 0)%nat then [] else saveRepeatCaptures q c)))
    (clearRepeatCaptures q c) c.
Proof.
  intros st. unfold on_captures, bind, get_captures, set_captures, ret. destruct (Nat.eqb_spec (captureCount q) 0).
  - exists st. split_and!; try done. intros ->. by apply clear_nothing.
  - eexists. split_and!; [reflexivity|done|done|]. cbn. intros ->. apply restore_saved.
Qed.

Lemma directed_drop {A} (f : Node -> A) (back : bool) (terms : list Node) index t :
  (index < length terms)%nat -> terms !! (if back then length terms - 1 - index else index)%nat = Some t ->
  drop index (directed back (map f terms)) = f t :: drop (S index) (directed back (map f terms)).
Proof.
  intros Hi Ht. apply drop_S. unfold directed. destruct back.
  - rewrite <- map_rev, list_lookup_fmap.
    enough (rev terms !! index = Some t) as -> by done.
    rewrite rev_alt. fold (reverse terms). rewrite reverse_lookup by done. by replace (length terms - S index)%nat with (length terms - 1 - index)%nat by lia.
  - rewrite list_lookup_fmap. by rewrite Ht.
Qed.

Lemma runCont_step F : cont_spec F (runCont fl input F) -> sequence_spec F (matchSequence fl input F) ->
  repeat_spec F (matchRepeat fl input F) -> cont_spec (S F) (runCont fl input (S F)).
Proof.
  intros Hrc Hms Hmr k pos c s st Hst Hk Hp HF. cbn [runCont].
  pose proof Hst as (Hf & Hc & Hs & Hcok). rewrite unless_failed_ok by done. unfold bind at 1, bump_steps.
  set (st1 := mkMatcher _ _ _ _ _ _). destruct (Z.ltb_spec kStepBudget (steps_ st + 1)) as [|Hle].
  { apply gives_up_answers. unfold giveUp. change (failed_ st1) with (failed_ st). rewrite Hf.
    eexists. split; [reflexivity|]. cbn. split; [lia|done]. }
  apply (answers_weaken _ (s + 1)); [lia|].
  assert (starts c (s + 1) st1) as Hst1 by (unfold starts; cbn; split_and!; [done|done|lia|done]).
  rewrite (budget_step s) in HF by lia. destruct k as [|terms index back next|q atom min max mark back next|index mark next].
  - exists true, (mkMatcher (captures_ st1) pos (steps_ st1) (depth_ st1) (failed_ st1) (error_ st1)).
    split; [done|]. cbn. rewrite Hf. split; [lia|done].
  - destruct Hk as (Ht & Hi & Hsz & Hk). cbn [RegexSpec.completes]. apply Hms; try done. lia.
  - destruct Hk as (Ha & Hmin & Hsz & Hk). cbn [RegexSpec.completes fst].
    destruct (_ && _); [by apply starts_no|]. apply Hmr; try done; [destruct (Z.eqb_spec min 0); lia|lia].
  - destruct Hk as [Hmark Hk]. cbn [RegexSpec.completes]. unfold bind at 1 2, get_captures, set_captures.
    set (st2 := mkMatcher _ _ _ _ _ _).
    assert (captures_ st2 = (close_group index mark (pos, c)).2) as Hc2.
    { unfold close_group. cbn [captures_ st1 st2 fst snd]. rewrite Hc.
      destruct (Nat.ltb_spec mark pos); [rewrite Nat.min_l, Nat.max_r by lia|rewrite Nat.min_r, Nat.max_l by lia]; done. }
    assert (state_ok fl input groups (close_group index mark (pos, c))) as [_ Hok2] by (by apply state_ok_close).
    assert (starts (close_group index mark (pos, c)).2 (s + 1) st2) as Hst2 by (by eapply starts_change).
    eapply (answers_or_undo (close_group index mark (pos, c)).2 c _ _ (runCont fl input F next pos)
      (let! caps := get_captures in set_captures (<[S (index * 2) := (captures_ st1).[S (index * 2)]]> (<[(index * 2)%nat := (captures_ st1).[(index * 2)%nat]]> caps)))).
    + apply (Hrc next pos _ _ _ Hst2 Hk Hp). lia.
    + intros st'. eexists. split; [reflexivity|]. split_and!; [done|done|]. cbn. intros ->. rewrite Hc. apply write_back.
Qed.

Lemma matchSequence_step F : cont_spec F (runCont fl input F) -> node_spec F (matchNode fl input F) ->
  sequence_spec (S F) (matchSequence fl input (S F)).
Proof.
  intros Hrc Hmn terms index pos k back c s st Hst Hk Hp Hok Hi Hsz HF. cbn [matchSequence].
  destruct (Nat.eqb_spec index (length terms)) as [->|].
  - rewrite drop_ge by (unfold directed; destruct back; rewrite ?length_rev, length_map; lia).
    cbn [run_list]. rewrite first_some_cons, orelse_None. apply Hrc; try done. lia.
  - destruct (terms !! (if back then length terms - 1 - index else index)%nat) as [t|] eqn:Et.
    2: { apply lookup_ge_None in Et. destruct back; lia. }
    rewrite (directed_drop _ back terms index t) by (done || lia). cbn [run_list]. rewrite first_some_flat_map.
    pose proof (term_size_le terms t _ Et). unfold RegexSpec.terms_ok in Hok. rewrite Forall_lookup in Hok.
    apply (Hmn t pos (Cont_Sequence terms (S index) back k) back c s st); try done; try lia.
    + cbn [cont_ok]. split_and!; [by apply Forall_lookup|lia|done|done].
    + by eapply Hok.
Qed.

Lemma matchRepeat_step F : cont_spec F (runCont fl input F) -> node_spec F (matchNode fl input F) ->
  repeat_spec (S F) (matchRepeat fl input (S F)).
Proof.
  intros Hrc Hmn q atom min max pos k back c s st Hst Hk Hp Hok Hmin Hsz HF. cbn [matchRepeat].
  pose proof Hst as (Hf & Hc & Hs & Hcok).
  rewrite (rep_outs_eq fl input groups) by (try done; by apply outs_component).
  assert (forall st', starts c s st' -> answers c s (completes k (pos, c)) (runCont fl input F k pos st')) as K.
  { intros st' Hst'. apply Hrc; try done. lia. }
  destruct (max =? 0). { rewrite first_some_cons, orelse_None. by apply K. }
  cbv zeta. cbn [fst snd]. unfold bind at 1, get_captures. rewrite Hc.
  set (c1 := clearRepeatCaptures q c). set (again := Cont_Repeat q atom min max pos back k).
  set (restore := on_captures q (restoreRepeatCaptures q _)).
  assert (recaptures restore c1 c) as Hrestore by apply restore_recaptures.
  assert (captures_ok c1) as Hc1 by (by apply captures_ok_clear).
  match goal with |- context [if negb (min =? 0) then ?o else _] => set (once := o) end.
  assert (first_some (completes k) once = first_some (completes again) (outs atom back (pos, c1))) as Eonce.
  { unfold once. rewrite first_some_flat_map. apply first_some_ext. intros y _.
    unfold again. cbn [RegexSpec.completes fst]. by destruct (_ && _). }
  assert (forall st', starts c1 s st' -> answers c1 s (first_some (completes k) once) (matchNode fl input F atom pos again back st')) as A.
  { intros st' Hst'. rewrite Eonce. apply Hmn; try done. lia. }
  assert (forall st', starts c s st' -> exists st'', on_captures q (clearRepeatCaptures q) st' = Some (tt, st'') /\ starts c1 s st'') as Hclear.
  { intros st' Hst'. destruct (on_captures_steps q (clearRepeatCaptures q) c st') as (st'' & E & ? & ? & ?);
      [apply clear_nothing|apply Hst'|]. exists st''. split; [done|]. by eapply starts_change. }
  destruct (Hclear st Hst) as (st1 & E1 & Hst1). unfold bind at 1. rewrite E1.
  destruct (negb (min =? 0)). { eapply answers_or_undo; [by apply A|done]. }
  destruct (greedy q); cbn [negb].
  - rewrite first_some_app_orelse, first_some_cons, orelse_None. eapply answers_or_try; [by apply A| |].
    + intros st' Hs' Hf'. destruct (Hrestore st') as (st'' & E & ? & ? & _). unfold bind. rewrite E.
      apply unless_failed_gives_up; [congruence|lia].
    + intros st' Hs' Hf' Hc'. destruct (Hrestore st') as (st'' & E & ? & ? & Ec). unfold bind. rewrite E.
      rewrite unless_failed_ok by congruence. apply K. unfold starts. split_and!; [congruence|by apply Ec|lia|done].
  - rewrite first_some_cons. destruct (Hrestore st1) as (st2 & E2 & ? & ? & Ec2). unfold bind at 1. rewrite E2.
    assert (starts c s st2) as Hst2.
    { destruct Hst1 as (? & ? & ? & _). unfold starts. split_and!; [congruence|by apply Ec2|lia|done]. }
    apply answers_or_unless; [by apply K|]. intros st' Hs' Hf' Hc'.
    destruct (Hclear st') as (st3 & E3 & Hst3); [by apply starts_again|]. unfold bind at 1. rewrite E3.
    eapply answers_or_undo; [by apply A|done].
Qed.

Lemma matchNode_eq F node pos k back :
  matchNode fl input (S F) node pos k back =
  unless_failed (
    let! depth := move_depth 1 in
    if kMaxDepth <? depth then move_depth (-1) ;; giveUp depth_message
    else
      let! result := matchNodeInner fl input (runCont fl input F) k (matchSequence fl input F)
                       (matchRepeat fl input F) (matchNode fl input F) node pos back in
      move_depth (-1) ;; ret result).
Proof. reflexivity. Qed.

Lemma matchNode_step F : cont_spec F (runCont fl input F) -> sequence_spec F (matchSequence fl input F) ->
  repeat_spec F (matchRepeat fl input F) -> node_spec F (matchNode fl input F) ->
  node_spec (S F) (matchNode fl input (S F)).
Proof.
  intros Hrc Hms Hmr Hmn node pos k back c s st Hst Hk Hp Hok Hsz HF. rewrite matchNode_eq.
  pose proof Hst as (Hf & Hc & Hs & Hcok). rewrite unless_failed_ok by done. unfold bind at 1, move_depth at 1.
  set (st1 := mkMatcher _ _ _ _ _ _). destruct (kMaxDepth <? depth_ st + 1).
  { apply gives_up_answers. unfold bind, move_depth, giveUp. cbn. rewrite Hf. eexists. split; [reflexivity|]. by cbn. }
  assert (starts c s st1) as Hst1 by (by eapply starts_change).
  destruct (node_inner F (runCont fl input F) (matchSequence fl input F) (matchRepeat fl input F) (matchNode fl input F)
    Hrc Hms Hmr Hmn k c s pos Hk Hcok Hp node back st1 Hst1 Hok Hsz ltac:(lia)) as (b & st2 & E & Hs2 & H).
  unfold bind at 1. rewrite E. eexists b, _. split; [reflexivity|]. by cbn.
Qed.

Lemma matcher_answers F :
  cont_spec F (runCont fl input F) /\ sequence_spec F (matchSequence fl input F) /\
  repeat_spec F (matchRepeat fl input F) /\ node_spec F (matchNode fl input F).
Proof.
  induction F as [|F (IH1 & IH2 & IH3 & IH4)].
  - split_and!; intros ?; intros; lia.
  - split_and!; [by apply runCont_step|by apply matchSequence_step|by apply matchRepeat_step|by apply matchNode_step].
Qed.

End Refinement.
