(* ===== verification/RegexRun.v ===== *)
(** * Attempts, searches and classes

    What [run], [matchAt] and [search] of RegexMatch promise, from the refinement of
    RegexRefine: an attempt always answers, with the first outcome of the pattern or
    by giving up; a search answers with the first place of its scan that has one; the
    captures lie in the input.  A class test under [i] is the existential of ECMA-262. *)
From S2P Require Import Prelude CaseFold RegexChars RegexMatch RegexSpec RegexRefine.
Local Open Scope bool_scope.
Local Open Scope list_scope.

(** The fuel a pattern needs: every step of the budget can descend the tree once. *)
Definition enough_fuel (p : Pattern) (F : nat) : Prop :=
  (budget (node_size (root p)) 0 + 1 + 2 * node_size (root p) <= F)%nat.

Lemma enough_fuel_above p F : exists F', (F <= F')%nat /\ enough_fuel p F'.
Proof.
  exists (F + (budget (node_size (root p)) 0 + 1 + 2 * node_size (root p)))%nat. unfold enough_fuel. split; lia.
Qed.

Definition pattern_ok (p : Pattern) : Prop := node_ok (flags p) (groupCount p) false (root p).
Definition input_ok (input : list Z) : Prop := Forall (fun u => 0 <= u <= kMaxUnit) input.
Definition no_captures (p : Pattern) : list Z := replicate ((groupCount p + 1) * 2) kUnset.
Definition matcher_ok (p : Pattern) (st : Matcher) : Prop := length (captures_ st) = ((groupCount p + 1) * 2)%nat.

(** The outcomes of an attempt at [at_], and the match array of one of them. *)
Definition outcomes (p : Pattern) (input : list Z) (at_ : nat) : list St :=
  outs (flags p) input (root p) false (at_, no_captures p).
Definition match_of (at_ : nat) (y : St) : list Z := <[1%nat := Z.of_nat y.1]> (<[0%nat := Z.of_nat at_]> y.2).

Definition attempt_agrees (p : Pattern) (input : list Z) (at_ : nat) (status : ExecStatus) : Prop :=
  match status with
  | Error _ => True
  | NoMatch => outcomes p input at_ = []
  | Match caps => exists y rest, outcomes p input at_ = y :: rest /\ caps = match_of at_ y
  end.

Lemma no_captures_ok p input : captures_ok (flags p) input (groupCount p) (no_captures p).
Proof.
  unfold no_captures. split; [by rewrite length_replicate|]. intros i Hi. left. unfold limb.
  by rewrite !lookup_replicate_2 by lia.
Qed.

Lemma outcomes_ok p input at_ : pattern_ok p -> input_ok input -> place (flags p) input at_ ->
  Forall (fun y => state_ok (flags p) input (groupCount p) y /\ (at_ <= y.1)%nat) (outcomes p input at_).
Proof.
  intros Hp Hi Hat.
  exact (outs_component (flags p) input (groupCount p) Hi (root p) false Hp (at_, no_captures p)
           (conj Hat (no_captures_ok p input))).
Qed.

Lemma node_attempt F p input at_ st :
  pattern_ok p -> input_ok input -> place (flags p) input at_ -> enough_fuel p F ->
  starts (flags p) input (groupCount p) (no_captures p) 0 st ->
  answers (no_captures p) 0 (first_some (completes (flags p) input Cont_Done) (outcomes p input at_))
    (matchNode (flags p) input F (root p) at_ Cont_Done false st).
Proof.
  intros Hp Hi Hat HF Hst.
  pose proof (matcher_answers (flags p) input (groupCount p) Hi (node_size (root p)) F) as (_ & _ & _ & Hn).
  exact (Hn (root p) at_ Cont_Done false (no_captures p) 0 st Hst I Hat Hp (le_n _) HF).
Qed.

(** An attempt that finds nothing leaves the matcher ready for the next one. *)
Lemma run_agrees F p input at_ st :
  pattern_ok p -> input_ok input -> place (flags p) input at_ -> matcher_ok p st -> enough_fuel p F ->
  exists status st', run F p input at_ st = Some (status, st') /\
    (status = NoMatch -> matcher_ok p st') /\ attempt_agrees p input at_ status.
Proof.
  intros Hp Hi Hat Hm HF. unfold run.
  set (st0 := mkMatcher _ _ _ _ _ _).
  assert (starts (flags p) input (groupCount p) (no_captures p) 0 st0) as Hst.
  { unfold starts. split; [reflexivity|]. split; [cbn [captures_ st0]; by rewrite Hm|].
    split; [apply Z.le_refl|apply no_captures_ok]. }
  destruct (node_attempt F p input at_ st0 Hp Hi Hat HF Hst) as (b & st' & -> & _ & H). clear Hst.
  destruct (failed_ st') eqn:Ef; [by eexists _, _; split; [reflexivity|]|].
  destruct (outcomes p input at_) as [|y rest] eqn:Eo; cbn [first_some completes] in H.
  - destruct H as [-> Hc]. eexists _, _. split; [reflexivity|]. split; [|done].
    intros _. unfold matcher_ok. rewrite Hc. apply length_replicate.
  - destruct H as (-> & Hp' & Hc). eexists _, _. split; [reflexivity|]. split; [done|].
    exists y, rest. split; [done|]. unfold match_of. by rewrite Hp', Hc.
Qed.

(** A plan with nothing to say: there is none, it is not compiled yet, or the input has
    a character outside its tables. *)
Definition silent (plan : RegexJitPlan) (input : list Z) (at_ : nat) : Prop :=
  tryMatchAt plan input at_ = None /\ trySearch plan input at_ = None.

Definition no_plan : RegexJitPlan := mkPlan false (fun _ _ => None) (fun _ _ => None).

Lemma new_matcher_ok p : matcher_ok p (new_matcher p).
Proof. unfold matcher_ok. apply length_replicate. Qed.

Lemma run_sound F p input at_ st status st' :
  pattern_ok p -> input_ok input -> place (flags p) input at_ -> matcher_ok p st ->
  run F p input at_ st = Some (status, st') ->
  (status = NoMatch -> matcher_ok p st') /\ attempt_agrees p input at_ status.
Proof.
  intros Hp Hi Hat Hm E.
  destruct (enough_fuel_above p F) as (F' & HF' & Henough).
  destruct (run_agrees F' p input at_ st Hp Hi Hat Hm Henough) as (status' & st'' & E' & H).
  apply (run_more F F' p input at_ HF') in E. rewrite E in E'. by injection E' as <- <-.
Qed.

Lemma run_total F p input at_ st :
  pattern_ok p -> input_ok input -> place (flags p) input at_ -> matcher_ok p st -> enough_fuel p F ->
  is_Some (run F p input at_ st).
Proof. intros ? ? ? ? HF. destruct (run_agrees F p input at_ st) as (? & ? & E & _); [done..|]. rewrite E. by eexists. Qed.

Lemma matchAt_silent F plan p input at_ : place (flags p) input at_ -> silent plan input at_ ->
  matchAt F plan p input at_ = option_map fst (run F p input at_ (new_matcher p)).
Proof. intros [Hle _] [Hsilent _]. unfold matchAt. by rewrite (proj2 (Nat.ltb_ge _ _)), Hsilent by done. Qed.

(** C30: take a pattern that is well formed ([pattern_ok]: groups and backreferences within
    the number of groups, quantifiers with ordered bounds, [simpleAtom] only on one
    character without groups, and under [u] no backreference that runs backward), an input of UTF-16 code
    units, a position in it that under [u] does not split a surrogate pair, and a native
    plan that has no answer for the input ([silent]).  There an attempt answers "no match"
    only when the pattern has no outcome at the position, and a match only with the end and
    the captures of the first outcome in the order of ECMA-262; what it reports is otherwise
    that it gave up.  And it always answers: the step budget bounds the recursion of the
    pattern, by [enough_fuel].  Between the halves of a pair it may match what has no
    outcome there, as [split_pair_matched] shows. *)
Theorem matchAt_refines F plan p input at_ :
  pattern_ok p -> input_ok input -> place (flags p) input at_ -> silent plan input at_ ->
  (forall status, matchAt F plan p input at_ = Some status -> attempt_agrees p input at_ status) /\
  (enough_fuel p F -> is_Some (matchAt F plan p input at_)).
Proof.
  intros Hp Hi Hat Hs. rewrite matchAt_silent by done. split.
  - intros status H. destruct (run F p input at_ (new_matcher p)) as [[s st']|] eqn:E; [|done].
    injection H as <-. eapply (run_sound F p input at_ (new_matcher p)); try done. apply new_matcher_ok.
  - intros HF. apply fmap_is_Some. apply run_total; try done. apply new_matcher_ok.
Qed.

(** [/(a|ab)(c|bcd)/] on "abcd": the first alternative of each group that lets the rest
    match. *)
Definition sample_pattern : Pattern :=
  mkPattern (Sequence [Group 1 (Alternation [[Char 97]; [Char 97; Char 98]]);
                       Group 2 (Alternation [[Char 99]; [Char 98; Char 99; Char 100]])])
    (mkFlags false false false false false) 2.

Lemma sample_ok : pattern_ok sample_pattern /\ input_ok [97; 98; 99; 100].
Proof. split; [cbn; repeat split; lia|]. unfold input_ok, kMaxUnit. repeat constructor; lia. Qed.

(** [/.*\u{1F600}/u] between the halves of that character: the iteration gives back a whole
    character, to before where it began, and matches the pair; the semantics has no outcome
    there. *)
Definition face_pattern : Pattern :=
  mkPattern (Sequence [Repeat (mkQuantifier 0 kUnbounded true 1 0 true) Dot; Char 0x1F600]) (mkFlags false false false true false) 0.

Example split_pair_matched :
  matchAt 30 no_plan face_pattern [0xD83D; 0xDE00] 1 = Some (Match [1; 2]) /\ outcomes face_pattern [0xD83D; 0xDE00] 1 = [].
Proof. split; vm_compute; reflexivity. Qed.

Lemma matchAt_refines_witness :
  matchAt 30 no_plan sample_pattern [97; 98; 99; 100] 0 = Some (Match [0; 4; 0; 1; 1; 4]) /\
  exists rest, outcomes sample_pattern [97; 98; 99; 100] 0 = (4%nat, [-1; -1; 0; 1; 1; 4]) :: rest.
Proof.
  assert (matchAt 30 no_plan sample_pattern [97; 98; 99; 100] 0 = Some (Match [0; 4; 0; 1; 1; 4])) as E by reflexivity.
  split; [exact E|]. destruct sample_ok as [Hp Hi].
  destruct (matchAt_refines 30 no_plan sample_pattern [97; 98; 99; 100] 0) as [H _].
  - exact Hp.
  - exact Hi.
  - split; [cbn; lia|reflexivity].
  - split; reflexivity.
  - destruct (H _ E) as (y & rest & Ho & _). exists rest. rewrite Ho. injection Ho as <- _. reflexivity.
Defined.

(** What a match reports lies in the input: capture 0 runs from where the attempt
    began to no earlier a place, every other capture is unset or a range of the input
    between two character boundaries. *)
Theorem match_inside F plan p input at_ caps :
  pattern_ok p -> input_ok input -> place (flags p) input at_ -> silent plan input at_ ->
  matchAt F plan p input at_ = Some (Match caps) ->
  length caps = ((groupCount p + 1) * 2)%nat /\ caps.[0%nat] = Z.of_nat at_ /\
  (exists e, caps.[1%nat] = Z.of_nat e /\ (at_ <= e)%nat /\ place (flags p) input e) /\
  forall i, (1 <= i <= groupCount p)%nat ->
    (caps.[(i * 2)%nat] = kUnset /\ caps.[S (i * 2)] = kUnset) \/
    exists a b, caps.[(i * 2)%nat] = Z.of_nat a /\ caps.[S (i * 2)] = Z.of_nat b /\
      (a <= b)%nat /\ place (flags p) input a /\ place (flags p) input b.
Proof.
  intros Hp Hi Hat Hs Hm. rewrite matchAt_silent in Hm by done.
  destruct (run F p input at_ (new_matcher p)) as [[s st']|] eqn:E; [|done]. injection Hm as ->.
  destruct (run_sound F p input at_ (new_matcher p) _ _ Hp Hi Hat (new_matcher_ok p) E) as [_ (y & rest & Ho & ->)].
  pose proof (outcomes_ok p input at_ Hp Hi Hat) as Hall. rewrite Ho in Hall.
  apply Forall_cons_1 in Hall as [[[Hy [Hl Hc]] Hmove] _]. unfold match_of.
  split; [by rewrite !length_insert|]. split; [by rewrite limb_insert_ne, limb_insert_eq by (rewrite ?length_insert; lia)|].
  split; [exists y.1; by rewrite limb_insert_eq by (rewrite length_insert; lia)|].
  intros i Hi'. rewrite !limb_insert_ne by lia. apply Hc. lia.
Qed.

Lemma match_inside_witness :
  let caps := [0; 4; 0; 1; 1; 4] in
  matchAt 30 no_plan sample_pattern [97; 98; 99; 100] 0 = Some (Match caps) /\
  exists e, caps.[1%nat] = Z.of_nat e /\ (0 <= e)%nat /\ place (flags sample_pattern) [97; 98; 99; 100] e.
Proof.
  cbv zeta. split; [reflexivity|]. destruct sample_ok as [Hp Hi].
  apply (match_inside 30 no_plan sample_pattern [97; 98; 99; 100] 0 [0; 4; 0; 1; 1; 4]).
  - exact Hp.
  - exact Hi.
  - split; [cbn; lia|reflexivity].
  - split; reflexivity.
  - reflexivity.
Defined.

(** ** Searches *)

(** The places the scan of [search] visits, up to the end of the input. *)
Inductive visited (p : Pattern) (input : list Z) (from : nat) : nat -> Prop :=
  | visit_first : visited p input from from
  | visit_next at_ : visited p input from at_ -> (at_ < length input)%nat ->
      visited p input from (advanceStringIndex input at_ (unicodeMode (flags p))).

Definition search_agrees (p : Pattern) (input : list Z) (from : nat) (status : ExecStatus) : Prop :=
  match status with
  | Error _ => True
  | NoMatch => forall at_, visited p input from at_ -> outcomes p input at_ = []
  | Match caps => exists at_ y rest,
      visited p input from at_ /\ outcomes p input at_ = y :: rest /\ caps = match_of at_ y /\
      forall earlier, visited p input from earlier -> (earlier < at_)%nat -> outcomes p input earlier = []
  end.

Lemma advance_place fl input at_ : place fl input at_ -> (at_ < length input)%nat ->
  place fl input (advanceStringIndex input at_ (unicodeMode fl)) /\
  (at_ < advanceStringIndex input at_ (unicodeMode fl))%nat.
Proof.
  intros [Hl Ha] Hlt. unfold advanceStringIndex. rewrite (proj2 (Nat.leb_gt _ _)) by done.
  destruct (step_forward input (unicodeMode fl) at_ Ha Hlt) as (? & ? & ? & _). split; [split|]; [lia|done|lia].
Qed.

(** The places still ahead of the scan at [at_]. *)
Lemma visited_cases p input at_ x : visited p input at_ x ->
  x = at_ \/ ((at_ < length input)%nat /\ visited p input (advanceStringIndex input at_ (unicodeMode (flags p))) x).
Proof.
  induction 1 as [|x Hx IH Hlt]; [by left|]. destruct IH as [->|[? IH]]; right; (split; [done|]).
  - constructor.
  - by constructor.
Qed.

Lemma visited_ge p input from x : place (flags p) input from -> visited p input from x ->
  (from <= x)%nat /\ place (flags p) input x.
Proof.
  intros Hf. induction 1 as [|x Hx [IH1 IH2] Hlt]; [by split|].
  destruct (advance_place _ _ _ IH2 Hlt). split; [lia|done].
Qed.

Lemma visited_trans p input from x y : visited p input from x -> visited p input x y -> visited p input from y.
Proof. intros Hx. induction 1; [done|]. by constructor. Qed.

Lemma search_loop_agrees F p input turns : pattern_ok p -> input_ok input ->
  forall at_ st status, place (flags p) input at_ -> matcher_ok p st -> (length input < at_ + turns)%nat ->
  search_loop turns F p input at_ st = Some status -> search_agrees p input at_ status.
Proof.
  intros Hp Hi. induction turns as [|turns IH]; intros at_ st status Hat Hm Ht E; [destruct Hat; lia|].
  cbn [search_loop] in E. rewrite (proj2 (Nat.leb_le _ _)) in E by apply Hat.
  destruct (run F p input at_ st) as [[s st']|] eqn:Er; [|done].
  destruct (run_sound F p input at_ st s st' Hp Hi Hat Hm Er) as [Hm' Ha]. destruct s as [|caps|e].
  - cbn in Ha. destruct (Nat.eq_dec at_ (length input)) as [Hend|Hne].
    + assert (status = NoMatch) as ->.
      { revert E. unfold advanceStringIndex. rewrite (proj2 (Nat.leb_le _ _)) by lia.
        destruct turns; cbn [search_loop]; [congruence|]. rewrite (proj2 (Nat.leb_gt _ _)) by lia. congruence. }
      intros x [->|[? _]]%visited_cases; [done|lia].
    + assert (at_ < length input)%nat as Hlt by (destruct Hat; lia).
      destruct (advance_place _ _ _ Hat Hlt) as [Hat' Hadv].
      apply IH in E; [|done|by apply Hm'|lia]. destruct status as [|caps|e]; cbn in *; [| |done].
      * intros x [->|[_ Hx]]%visited_cases; [done|by apply E].
      * destruct E as (x & y & rest & Hx & Ho & Hc & Hless). exists x, y, rest. split_and!; try done.
        -- eapply visited_trans; [|exact Hx]. by apply visit_next; [constructor|].
        -- intros e [->|[_ He]]%visited_cases Hex; [done|by apply Hless].
  - injection E as <-. destruct Ha as (y & rest & Ho & ->). exists at_, y, rest. split_and!; try done; [constructor|].
    intros e He Hlt. apply visited_ge in He as [? _]; [lia|done].
  - by injection E as <-.
Qed.

Lemma search_loop_total F p input turns : pattern_ok p -> input_ok input -> enough_fuel p F ->
  forall at_ st, place (flags p) input at_ -> matcher_ok p st -> is_Some (search_loop turns F p input at_ st).
Proof.
  intros Hp Hi HF. induction turns as [|turns IH]; intros at_ st Hat Hm; [done|]. cbn [search_loop].
  destruct (Nat.leb_spec at_ (length input)); [|done].
  destruct (run_total F p input at_ st Hp Hi Hat Hm HF) as [[s st'] Er]. rewrite Er.
  destruct (run_sound F p input at_ st s st' Hp Hi Hat Hm Er) as [Hm' _]. destruct s; [|done|done].
  destruct (Nat.eq_dec at_ (length input)) as [Hend|Hne].
  - unfold advanceStringIndex. rewrite (proj2 (Nat.leb_le _ _)) by lia.
    destruct turns; cbn [search_loop]; [done|]. by rewrite (proj2 (Nat.leb_gt _ _)) by lia.
  - apply IH; [apply advance_place; [done|lia]|by apply Hm'].
Qed.

(** C35: under the conditions of an attempt, which are a well-formed pattern ([pattern_ok]),
    an input of UTF-16 code units, a start that under [u] does not split a surrogate pair
    and a native plan without an answer ([silent]), a search visits the places of the input
    from its start on, one character apart, and answers with the first of them at which the
    pattern has an outcome, with that place's first outcome; "no match" means that no place
    has one; it may otherwise only report that it gave up.  With the fuel of [enough_fuel] it
    always comes to an answer. *)
Theorem search_first F plan p input from :
  pattern_ok p -> input_ok input -> place (flags p) input from -> silent plan input from ->
  (forall status, search F plan p input from = Some status -> search_agrees p input from status) /\
  (enough_fuel p F -> is_Some (search F plan p input from)).
Proof.
  intros Hp Hi Hat [_ Hs]. unfold search. rewrite (proj2 (Nat.ltb_ge _ _)) by apply Hat. rewrite Hs. split.
  - intros status E. eapply search_loop_agrees; [done..| | |exact E]; [apply new_matcher_ok|lia].
  - intros HF. apply search_loop_total; try done. apply new_matcher_ok.
Qed.

Lemma search_first_witness :
  search 30 no_plan sample_pattern [98; 97; 98; 99; 100] 0 = Some (Match [1; 5; 1; 2; 2; 5]) /\
  outcomes sample_pattern [98; 97; 98; 99; 100] 0 = [].
Proof.
  assert (search 30 no_plan sample_pattern [98; 97; 98; 99; 100] 0 = Some (Match [1; 5; 1; 2; 2; 5])) as E by reflexivity.
  split; [exact E|]. destruct sample_ok as [Hp _].
  destruct (search_first 30 no_plan sample_pattern [98; 97; 98; 99; 100] 0) as [H _].
  - exact Hp.
  - unfold input_ok, kMaxUnit. repeat constructor; lia.
  - split; [cbn; lia|reflexivity].
  - split; reflexivity.
  - destruct (H _ E) as (at_ & y & rest & Hv & Ho & Hc & Hless). apply Hless; [constructor|].
    assert ((match_of at_ y).[0%nat] = 1) as Hat by (rewrite <- Hc; reflexivity).
    destruct at_ as [|at_]; [|lia]. vm_compute in Ho. discriminate Ho.
Defined.

(** ** Classes under [i] *)

Lemma member_alphabet u ranges m : normal ranges -> Forall (fun r => hi r <= alphabetCeiling u) ranges ->
  member ranges m -> in_alphabet u m.
Proof.
  intros Hn Hc Hm. split; [by eapply normal_above in Hm|]. destruct Hm as (r & Hr & Hb).
  rewrite Forall_forall in Hc. apply list_elem_of_In, Hc in Hr. lia.
Qed.

(** The set has a member like [c]. *)
Definition alike (fl : Flags) (ranges : list Range) (c : Z) : Prop :=
  exists m, member ranges m /\ canonical fl m = canonical fl c.

Lemma found_exact fl ranges c :
  normal ranges -> Forall (fun r => hi r <= alphabetCeiling (unicodeMode fl)) ranges ->
  in_alphabet (unicodeMode fl) c ->
  classMatches fl ranges false c = true <-> alike fl ranges c.
Proof.
  intros Hn Hc Hin. unfold classMatches, alike. pose proof (rangesContain_spec 0 ranges) as Hspec.
  destruct (rangesContain ranges c) eqn:E; cbn [negb andb].
  { split; [|done]. intros _. exists c. split; [by apply Hspec|done]. }
  assert (~ member ranges c) as Hno by (rewrite <- Hspec by done; by rewrite E).
  unfold canonical. destruct (ignoreCase_ fl).
  2: { split; [done|]. intros (m & Hm & Em). cbn in Em. by subst m. }
  unfold unicode_. set (cc := canonicalize c true (unicodeMode fl)).
  assert (in_alphabet (unicodeMode fl) cc) as Hcc by (by apply canonicalize_alphabet).
  destruct (rangesContain ranges cc) eqn:Ecc.
  - split; [|done]. intros _. exists cc. split; [by apply Hspec|by apply canonicalize_idem].
  - assert (~ member ranges cc) as Hnocc by (rewrite <- Hspec by done; by rewrite Ecc).
    rewrite existsb_exists. split.
    + intros (m & Hm & Em). apply Hspec in Em; [|done]. exists m. split; [done|].
      apply caseCandidates_iff in Hm as [Hm _]; [done|]. by eapply member_alphabet.
    + intros (m & Hm & Em). exists m. split; [|by apply Hspec].
      apply caseCandidates_iff; [by eapply member_alphabet|]. split; [done|]. by intros ->.
Qed.

(** C36: a class matches a character exactly when the set has a member whose
    canonicalization is that character's, or for a negated class when it has none:
    looking at the character, its canonicalization and the candidates misses none and
    adds none. *)
Theorem class_matches_exact fl ranges negated c :
  normal ranges -> Forall (fun r => hi r <= alphabetCeiling (unicodeMode fl)) ranges ->
  in_alphabet (unicodeMode fl) c ->
  classMatches fl ranges negated c = true <->
  (if negated then ~ alike fl ranges c else alike fl ranges c).
Proof.
  intros Hn Hc Hin. pose proof (found_exact fl ranges c Hn Hc Hin) as Hf.
  destruct negated; [|done]. rewrite <- Hf. change (classMatches fl ranges true c) with (negb (classMatches fl ranges false c)).
  by destruct (classMatches fl ranges false c); cbn; split.
Qed.

(** [/[µ]/i] matches capital mu, which is neither the character nor in the set. *)
Lemma class_matches_exact_witness :
  classMatches (mkFlags true false false false false) [mkRange 0xB5 0xB5] false 0x39C = true.
Proof.
  apply class_matches_exact.
  - cbn. lia.
  - repeat constructor. cbn. unfold kMaxUnit. lia.
  - split; discriminate.
  - exists 0xB5. split; [|reflexivity]. exists (mkRange 0xB5 0xB5). split; [left; reflexivity|]. cbn. lia.
Defined.
