(* ===== verification/Types.v ===== *)
(** * The type lattice of the inference (src/src/types/type.h, type.cpp)

    [Type] with its constructors and accessors, [join] and [joinParam], and the packed
    order key.  The order below is stated on its own, from what the types claim; the
    file shows that [joinParam] is its least upper bound, that [join] is an upper bound
    that misses the least one exactly on number and undefined, that both make every
    chain of joins stop, and that the packed key tells any two types apart. *)
From S2P Require Import Prelude.
Local Open Scope bool_scope.

(** ** Types *)

Definition kNoShapeClass : Z := 0xFFFFFFFF.
Definition kNoFunctionIndex : Z := 0xFFFFFFFF.
Definition kNoTypedArrayElem : Z := 0xFFFFFFFF.
Definition kNoPayload : Z := 0xFFFFFFFF.
Definition kClosureReturnsNever : Z := 0xFFFFFFFD.
Definition kClosureReturnsNumber : Z := 0xFFFFFFFE.
Definition kPinnedElements : Z := 1.
Definition kArrayElemNever : Z := 2.
Definition kArrayElemClassTag : Z := 0x80000000.
Definition kDynamicNumOrUndef : Z := 1.

Inductive TypeKind :=
  | Never | Number | Bool | String | Undefined | Null | Object | Function | TypedArray | Array | Dynamic.

#[global] Instance TypeKind_eq_dec : EqDecision TypeKind.
Proof. solve_decision. Defined.

(** The enumerator's value. *)
Definition kind_index (k : TypeKind) : Z :=
  match k with
  | Never => 0 | Number => 1 | Bool => 2 | String => 3 | Undefined => 4 | Null => 5
  | Object => 6 | Function => 7 | TypedArray => 8 | Array => 9 | Dynamic => 10
  end.

Record Type_ := mkType { kind : TypeKind; payload : Z; identityOnly : bool; builtHere_ : bool }.

#[global] Instance Type_eq_dec : EqDecision Type_.
Proof. solve_decision. Defined.

(** [Type(k)] and [Type(k, payload)] *)
Definition of_kind (k : TypeKind) : Type_ := mkType k kNoPayload false true.
Definition of_payload (k : TypeKind) (p : Z) : Type_ := mkType k p false true.

Definition never : Type_ := of_kind Never.
Definition number : Type_ := of_kind Number.
Definition boolean : Type_ := of_kind Bool.
Definition string_ : Type_ := of_kind String.
Definition undefined : Type_ := of_kind Undefined.
Definition null : Type_ := of_kind Null.
Definition dynamic : Type_ := of_kind Dynamic.
Definition object (cls : Z) : Type_ := of_payload Object cls.
Definition objectIdentityOnly (cls : Z) : Type_ :=
  if cls =? kNoShapeClass then of_payload Object cls else mkType Object cls true false.
Definition objectNotBuiltHere (cls : Z) : Type_ :=
  if cls =? kNoShapeClass then of_payload Object cls else mkType Object cls false false.
Definition function (index : Z) : Type_ := of_payload Function index.
Definition functionReturningNever : Type_ := of_payload Function kClosureReturnsNever.
Definition functionReturningNumber : Type_ := of_payload Function kClosureReturnsNumber.
Definition typedArray (elem : Z) : Type_ := of_payload TypedArray elem.
Definition array : Type_ := of_kind Array.
Definition arrayOfNever : Type_ := of_payload Array kArrayElemNever.
Definition arrayOfObject (cls : Z) : Type_ :=
  if cls =? kNoShapeClass then of_kind Array else of_payload Array (Z.lor kArrayElemClassTag cls).
Definition arrayPinnedF64 : Type_ := of_payload Array kPinnedElements.
Definition dynamicNumOrUndef : Type_ := of_payload Dynamic kDynamicNumOrUndef.

Definition is_kind (t : Type_) (k : TypeKind) : bool := bool_decide (kind t = k).
Definition shapeClass (t : Type_) : Z := if is_kind t Object then payload t else kNoShapeClass.
Definition builtHere (t : Type_) : bool := is_kind t Object && builtHere_ t.
Definition functionIndex (t : Type_) : Z :=
  if is_kind t Function && (payload t <? kClosureReturnsNever) then payload t else kNoFunctionIndex.
Definition functionReturnsNever (t : Type_) : bool := is_kind t Function && (payload t =? kClosureReturnsNever).
Definition functionReturnsNumber (t : Type_) : bool := is_kind t Function && (payload t =? kClosureReturnsNumber).
Definition typedArrayElemRaw (t : Type_) : Z := if is_kind t TypedArray then payload t else kNoTypedArrayElem.
Definition arrayElementsPinned (t : Type_) : bool := is_kind t Array && (payload t =? kPinnedElements).
Definition arrayElementsUndecided (t : Type_) : bool := is_kind t Array && (payload t =? kArrayElemNever).
Definition arrayElemClass (t : Type_) : Z :=
  if is_kind t Array && negb (payload t =? kNoPayload) && negb (Z.land (payload t) kArrayElemClassTag =? 0)
  then Z.ldiff (payload t) kArrayElemClassTag else kNoShapeClass.
Definition isDynamicNumOrUndef (t : Type_) : bool := is_kind t Dynamic && (payload t =? kDynamicNumOrUndef).

(** [operator==] *)
Definition type_eqb (a b : Type_) : bool :=
  bool_decide (kind a = kind b) && (payload a =? payload b) &&
  Bool.eqb (identityOnly a) (identityOnly b) && Bool.eqb (builtHere_ a) (builtHere_ b).

Definition bitsForOrdering (t : Type_) : Z :=
  Z.lor (Z.lor (Z.lor (Z.shiftl (kind_index (kind t)) 40) (Z.shiftl (payload t) 8))
    (if identityOnly t then 2 else 0)) (if builtHere_ t then 1 else 0).

(** [a] is a number, undefined or either of them. *)
Definition numOrUndef (a : Type_) : bool := is_kind a Number || is_kind a Undefined || isDynamicNumOrUndef a.

Definition join (a b : Type_) : Type_ :=
  if type_eqb a b then a
  else if is_kind a Never then b
  else if is_kind b Never then a
  else if isDynamicNumOrUndef a || isDynamicNumOrUndef b then
    if numOrUndef a && numOrUndef b then dynamicNumOrUndef else dynamic
  else if negb (bool_decide (kind a = kind b)) then dynamic
  else
    match kind a with
    | Object =>
        if shapeClass a =? shapeClass b then
          if identityOnly a || identityOnly b then objectIdentityOnly (shapeClass a)
          else objectNotBuiltHere (shapeClass a)
        else object kNoShapeClass
    | Function =>
        if functionReturnsNever a then b
        else if functionReturnsNever b then a
        else function kNoFunctionIndex
    | TypedArray => typedArray kNoTypedArrayElem
    | Array =>
        if arrayElementsUndecided a then b
        else if arrayElementsUndecided b then a
        else array
    | _ => dynamic
    end.

Definition joinParam (a b : Type_) : Type_ :=
  if type_eqb a b then a
  else if is_kind a Never then b
  else if is_kind b Never then a
  else if numOrUndef a && numOrUndef b then dynamicNumOrUndef
  else join a b.

(** ** What the constructors make *)

Definition plain (t : Type_) : Prop := identityOnly t = false /\ builtHere_ t = true.

Definition wf (t : Type_) : Prop :=
  0 <= payload t < 2 ^ 32 /\
  match kind t with
  | Object =>
      plain t \/ (payload t <> kNoPayload /\ builtHere_ t = false)
  | Function | TypedArray | Array => plain t
  | Dynamic => plain t /\ (payload t = kNoPayload \/ payload t = kDynamicNumOrUndef)
  | _ => plain t /\ payload t = kNoPayload
  end.

(** ** What a type says of a value *)

(** How an object came to have its class: this compilation saw it made, it saw an
    instance that may have been made elsewhere, or the class is a guess over callers. *)
Inductive Provenance := BuiltHere | BuiltElsewhere | Guessed.

Definition provenance_rank (h : Provenance) : Z :=
  match h with BuiltHere => 0 | BuiltElsewhere => 1 | Guessed => 2 end.

(** A value, as far as the lattice tells values apart.  The identity of a function, a
    typed array or an array is the payload of the most precise type that has it; a
    function not yet seen to return and an array with no element yet count among all. *)
Inductive Fact :=
  | FNumber | FBool | FString | FUndefined | FNull
  | FObject (cls : Z) (how : Provenance)
  | FFunction (identity : Z)
  | FTypedArray (elem : Z)
  | FArray (elems : Z)
  | FOther.

Definition fact_kind (v : Fact) : TypeKind :=
  match v with
  | FNumber => Number | FBool => Bool | FString => String | FUndefined => Undefined | FNull => Null
  | FObject _ _ => Object | FFunction _ => Function | FTypedArray _ => TypedArray | FArray _ => Array
  | FOther => Dynamic
  end.

Definition claim (t : Type_) : Z := if builtHere_ t then 0 else if identityOnly t then 2 else 1.

Definition describes (t : Type_) (v : Fact) : bool :=
  match kind t with
  | Never => false
  | Dynamic =>
      if payload t =? kDynamicNumOrUndef then match v with FNumber | FUndefined => true | _ => false end else true
  | k =>
      bool_decide (k = fact_kind v) &&
      match v with
      | FObject cls how =>
          (payload t =? kNoPayload) || ((cls =? payload t) && (provenance_rank how <=? claim t))
      | FFunction identity =>
          (payload t =? kNoPayload) || (identity =? payload t) || (identity =? kClosureReturnsNever)
      | FTypedArray elem => (payload t =? kNoPayload) || (elem =? payload t)
      | FArray elems => (payload t =? kNoPayload) || (elems =? payload t) || (elems =? kArrayElemNever)
      | _ => true
      end
  end.

(** [b] says no more than [a]. *)
Definition below (a b : Type_) : Prop := forall v, describes a v = true -> describes b v = true.

#[global] Instance below_preorder : PreOrder below.
Proof. split; [by intros a v|]. intros a b c H1 H2 v Hv. by apply H2, H1. Qed.

(** ** Case analysis *)

Lemma type_eqb_spec a b : reflect (a = b) (type_eqb a b).
Proof.
  unfold type_eqb. destruct a as [ka pa ia ba], b as [kb pb ib bb]. cbn [kind payload identityOnly builtHere_].
  destruct (bool_decide_reflect (ka = kb)), (Z.eqb_spec pa pb), (Bool.eqb_spec ia ib), (Bool.eqb_spec ba bb); cbn;
    constructor; congruence.
Qed.

Ltac kinds :=
  repeat match goal with
  | t : Type_ |- _ => destruct t as [[] ? ? ?]
  | H : wf _ |- _ => unfold wf, plain in H; cbn [kind payload identityOnly builtHere_] in H
  | H : _ /\ _ |- _ => destruct H
  end.

Lemma describes_kind t v : describes t v = true -> kind t = Dynamic \/ kind t = fact_kind v.
Proof. unfold describes. destruct (kind t); [done|..|by left]; intros [H _]%andb_prop; right; by apply bool_decide_eq_true in H. Qed.

(** ** The cases of a join *)

Inductive joined (a b : Type_) : Type_ -> Prop :=
  | joined_same : a = b -> joined a b a
  | joined_left : kind b = Never \/ (kind a = kind b /\ (functionReturnsNever b = true \/ arrayElementsUndecided b = true)) ->
      a <> b -> joined a b a
  | joined_right : kind a = Never \/ (kind a = kind b /\ (functionReturnsNever a = true \/ arrayElementsUndecided a = true)) ->
      a <> b -> joined a b b
  | joined_numbers : a <> b -> numOrUndef a = true -> numOrUndef b = true ->
      a = dynamicNumOrUndef \/ b = dynamicNumOrUndef -> joined a b dynamicNumOrUndef
  | joined_top : a <> b -> kind a <> Never -> kind b <> Never -> kind a <> kind b \/ kind a = Dynamic ->
      ~ (numOrUndef a = true /\ numOrUndef b = true /\ (a = dynamicNumOrUndef \/ b = dynamicNumOrUndef)) ->
      joined a b dynamic
  | joined_class : kind a = Object -> kind b = Object -> payload a = payload b -> payload a <> kNoPayload -> a <> b ->
      forall i : bool, (if i then 2 else 1) = Z.max (claim a) (claim b) -> joined a b (mkType Object (payload a) i false)
  | joined_identity : kind a = kind b -> payload a <> payload b ->
      kind a = Object \/ (kind a = Function /\ payload a <> kClosureReturnsNever /\ payload b <> kClosureReturnsNever) \/
      kind a = TypedArray \/ (kind a = Array /\ payload a <> kArrayElemNever /\ payload b <> kArrayElemNever) ->
      joined a b (of_kind (kind a)).

Lemma dynamic_wf t : wf t -> kind t = Dynamic -> t = dynamic \/ t = dynamicNumOrUndef.
Proof.
  intros [_ H] E. destruct t as [k p i b]. cbn in *. subst k. unfold plain in H. cbn in H.
  destruct H as [[-> ->] [-> | ->]]; [by left|by right].
Qed.

Lemma isDynamicNumOrUndef_iff t : wf t -> isDynamicNumOrUndef t = true <-> t = dynamicNumOrUndef.
Proof.
  intros Hw. unfold isDynamicNumOrUndef, is_kind. split; [|by intros ->].
  intros [H1%bool_decide_eq_true H2]%andb_prop. destruct (dynamic_wf t Hw H1) as [->|]; [|done]. done.
Qed.

Lemma plain_eq a b : plain a -> plain b -> kind a = kind b -> payload a = payload b -> a = b.
Proof. destruct a, b. unfold plain. cbn. intros [-> ->] [-> ->] -> ->. done. Qed.

Lemma join_joined a b : wf a -> wf b -> joined a b (join a b).
Proof.
  intros Ha Hb. unfold join. destruct (type_eqb_spec a b) as [E|Hne]; [by constructor|].
  unfold is_kind. destruct (bool_decide_reflect (kind a = Never)) as [|Na]; [constructor; [by left|done]|].
  destruct (bool_decide_reflect (kind b = Never)) as [|Nb]; [constructor; [by left|done]|].
  destruct (isDynamicNumOrUndef a || isDynamicNumOrUndef b) eqn:Ed.
  { assert (a = dynamicNumOrUndef \/ b = dynamicNumOrUndef) as Hd.
    { apply orb_prop in Ed as [?|?]; [left|right]; by apply isDynamicNumOrUndef_iff. }
    destruct (numOrUndef a && numOrUndef b) eqn:En.
    - apply andb_prop in En as [? ?]. by constructor.
    - apply joined_top; try done.
      + destruct (decide (kind a = kind b)) as [E|]; [|by left]. right. destruct Hd as [-> | ->]; [done|by rewrite E].
      + intros (E1 & E2 & _). by rewrite E1, E2 in En. }
  apply orb_false_iff in Ed as [Eda Edb].
  assert (a <> dynamicNumOrUndef /\ b <> dynamicNumOrUndef) as [Da Db].
  { split; intros E; subst; by cbn in *. }
  destruct (bool_decide_reflect (kind a = kind b)) as [Ek|]; cbn [negb].
  2: { apply joined_top; try done; [by left|]. intros (_ & _ & [|]); done. }
  assert (kind a = Dynamic -> False) as Nd.
  { intros E. destruct (dynamic_wf a Ha E), (dynamic_wf b Hb ltac:(congruence)); congruence. }
  destruct Ha as [Hpa Ha], Hb as [Hpb Hb]. rewrite <- Ek in Hb.
  destruct (kind a) eqn:Ka; try (exfalso; destruct Ha as [Pa Qa], Hb as [Pb Qb]; apply Hne; apply plain_eq; first [done|congruence]); try done.
  all: symmetry in Ek; unfold shapeClass, functionReturnsNever, arrayElementsUndecided, is_kind; rewrite ?Ka, ?Ek, ?bool_decide_true by done; cbn [andb].
  - destruct (Z.eqb_spec (payload a) (payload b)) as [Ep|Np].
    + destruct (Z.eq_dec (payload a) kNoPayload) as [En|Nn].
      { exfalso. apply Hne. apply plain_eq; [|..|done]; [by destruct Ha as [|[]]| |congruence].
        destruct Hb as [|[]]; [done|congruence]. }
      unfold objectIdentityOnly, objectNotBuiltHere, kNoShapeClass. rewrite (proj2 (Z.eqb_neq (payload a) 0xFFFFFFFF)) by done.
      assert (Z.max (claim a) (claim b) = if identityOnly a || identityOnly b then 2 else 1) as Em.
      { unfold claim. destruct a as [ka pa ia ba], b as [kb pb ib bb]. unfold plain in *. cbn in *.
        destruct ba, bb, ia, ib; cbn in *; try done; naive_solver congruence. }
      destruct (identityOnly a || identityOnly b); by apply (joined_class a b).
    + change (object kNoShapeClass) with (of_kind Object). rewrite <- Ka. apply joined_identity; [congruence|done|by left].
  - destruct (Z.eqb_spec (payload a) kClosureReturnsNever) as [En|Nn]; [apply joined_right; [|done]|].
    { right. split; [congruence|]. left. unfold functionReturnsNever, is_kind. by rewrite Ka, En. }
    destruct (Z.eqb_spec (payload b) kClosureReturnsNever) as [En|Nn']; [apply joined_left; [|done]|].
    { right. split; [congruence|]. left. unfold functionReturnsNever, is_kind. by rewrite Ek, En. }
    change (function kNoFunctionIndex) with (of_kind Function). rewrite <- Ka.
    apply joined_identity; [congruence| |by right; left]. intros E. apply Hne. apply plain_eq; [done|done|congruence|done].
  - change (typedArray kNoTypedArrayElem) with (of_kind TypedArray). rewrite <- Ka.
    apply joined_identity; [congruence| |by right; right; left]. intros E. apply Hne. apply plain_eq; [done|done|congruence|done].
  - destruct (Z.eqb_spec (payload a) kArrayElemNever) as [En|Nn]; [apply joined_right; [|done]|].
    { right. split; [congruence|]. right. unfold arrayElementsUndecided, is_kind. by rewrite Ka, En. }
    destruct (Z.eqb_spec (payload b) kArrayElemNever) as [En|Nn']; [apply joined_left; [|done]|].
    { right. split; [congruence|]. right. unfold arrayElementsUndecided, is_kind. by rewrite Ek, En. }
    change array with (of_kind Array). rewrite <- Ka.
    apply joined_identity; [congruence| |by right; right; right]. intros E. apply Hne. apply plain_eq; [done|done|congruence|done].
Qed.

Lemma wf_of_kind k : wf (of_kind k).
Proof. split; [cbn; unfold kNoPayload; lia|]. destruct k; cbn; unfold plain; auto. Qed.

Lemma wf_numOrUndef : wf dynamicNumOrUndef.
Proof. split; [cbn; unfold kDynamicNumOrUndef; lia|]. cbn. unfold plain. auto. Qed.

#[local] Hint Resolve wf_of_kind wf_numOrUndef : core.

Lemma join_wf a b : wf a -> wf b -> wf (join a b).
Proof.
  intros Ha Hb. destruct (join_joined a b Ha Hb); auto.
  - apply (wf_of_kind Dynamic).
  - destruct Ha as [Hp _]. split; [done|]. cbn. right. done.
Qed.

Lemma joinParam_cases a b :
  (joinParam a b = join a b /\ ~ (numOrUndef a = true /\ numOrUndef b = true /\ a <> b)) \/
  (joinParam a b = dynamicNumOrUndef /\ numOrUndef a = true /\ numOrUndef b = true /\ a <> b).
Proof.
  unfold joinParam. destruct (type_eqb_spec a b) as [->|Hne].
  { left. split; [|naive_solver]. unfold join. by destruct (type_eqb_spec b b). }
  destruct (is_kind a Never) eqn:Ea.
  { left. split; [unfold join; destruct (type_eqb_spec a b); [done|by rewrite Ea]|].
    apply bool_decide_eq_true in Ea. unfold numOrUndef, isDynamicNumOrUndef, is_kind. rewrite Ea. by intros [? _]. }
  destruct (is_kind b Never) eqn:Eb.
  { left. split; [unfold join; destruct (type_eqb_spec a b); [done|by rewrite Ea, Eb]|].
    apply bool_decide_eq_true in Eb. unfold numOrUndef, isDynamicNumOrUndef, is_kind. rewrite Eb. by intros (_ & ? & _). }
  destruct (numOrUndef a && numOrUndef b) eqn:En.
  - apply andb_prop in En as [? ?]. by right.
  - left. split; [done|]. intros (E1 & E2 & _). by rewrite E1, E2 in En.
Qed.

Lemma joinParam_wf a b : wf a -> wf b -> wf (joinParam a b).
Proof. intros Ha Hb. destruct (joinParam_cases a b) as [[-> _]|[-> _]]; [by apply join_wf|auto]. Qed.

(** ** The join is an upper bound *)

Lemma below_dynamic a : below a dynamic.
Proof. by intros v. Qed.

Lemma below_never a b : kind a = Never -> below a b.
Proof. intros E v. unfold describes. by rewrite E. Qed.

Lemma below_numOrUndef a : wf a -> numOrUndef a = true -> below a dynamicNumOrUndef.
Proof.
  intros Hw Hn v. unfold numOrUndef, is_kind in Hn. apply orb_prop in Hn as [[H|H]%orb_prop|H].
  - apply bool_decide_eq_true in H. unfold describes at 1. rewrite H. by destruct v.
  - apply bool_decide_eq_true in H. unfold describes at 1. rewrite H. by destruct v.
  - apply isDynamicNumOrUndef_iff in H; [|done]. by subst a.
Qed.

Lemma below_of_kind a : below a (of_kind (kind a)) \/ kind a = Never.
Proof.
  destruct (kind a) eqn:Ka; [by right|..]; left; intros v; unfold describes; rewrite Ka; cbn [of_kind kind payload];
    by destruct v.
Qed.

Lemma below_undecided a b : kind a = kind b -> functionReturnsNever a = true \/ arrayElementsUndecided a = true ->
  below a b.
Proof.
  intros E H v. unfold functionReturnsNever, arrayElementsUndecided, is_kind in H.
  destruct H as [[Hk%bool_decide_eq_true Hp%Z.eqb_eq]%andb_prop|[Hk%bool_decide_eq_true Hp%Z.eqb_eq]%andb_prop];
    unfold describes; rewrite <- E, Hk, Hp; destruct v; try done; cbn.
  - intros H. assert (identity = kClosureReturnsNever) as -> by (unfold kClosureReturnsNever, kNoPayload in *; lia).
    by rewrite Z.eqb_refl, orb_true_r.
  - intros H. assert (elems = kArrayElemNever) as -> by (unfold kArrayElemNever, kNoPayload in *; lia).
    by rewrite Z.eqb_refl, orb_true_r.
Qed.

(** A class type describes the objects of that class up to its claim. *)
Lemma describes_class a v : kind a = Object -> payload a <> kNoPayload ->
  describes a v = true <-> exists how, v = FObject (payload a) how /\ provenance_rank how <= claim a.
Proof.
  intros Hk Hp. unfold describes. rewrite Hk. destruct v; cbn; try (split; [done|by intros (? & ? & _)]).
  rewrite ?bool_decide_true, (proj2 (Z.eqb_neq (payload a) kNoPayload)) by done. cbn [andb orb]. split.
  - intros [->%Z.eqb_eq ?%Z.leb_le]%andb_prop. by exists how.
  - intros (how' & [= -> ->] & ?). rewrite Z.eqb_refl. by apply Z.leb_le.
Qed.

Lemma claim_unbuilt p i : claim (mkType Object p i false) = if i then 2 else 1.
Proof. reflexivity. Qed.

Lemma describes_joined_class a b i v : kind a = Object -> kind b = Object -> payload a = payload b ->
  payload a <> kNoPayload -> (if i : bool then 2 else 1) = Z.max (claim a) (claim b) ->
  describes (mkType Object (payload a) i false) v = true <-> describes a v = true \/ describes b v = true.
Proof.
  intros Ka Kb Ep Hp Hi. rewrite !describes_class by (cbn; congruence). rewrite claim_unbuilt, Hi. cbn [payload].
  rewrite Ep. split.
  - intros (how & -> & H). destruct (Z.max_spec (claim a) (claim b)) as [[_ E]|[_ E]]; rewrite E in H;
      [right|left]; by exists how.
  - intros [(how & -> & H)|(how & -> & H)]; exists how; split; try done; lia.
Qed.

Lemma joined_upper a b j : wf a -> wf b -> joined a b j -> below a j /\ below b j.
Proof.
  intros Ha Hb [E|H Hne|H Hne|Hne Na Nb _|_ _ _ _ _|Ka Kb Ep Hp Hne i Hi|Ek Np _].
  - by subst b.
  - split; [done|]. destruct H as [|[E H]]; [by apply below_never|by apply below_undecided].
  - split; [|done]. destruct H as [|[E H]]; [by apply below_never|by apply below_undecided].
  - split; by apply below_numOrUndef.
  - split; apply below_dynamic.
  - split; intros v Hv; apply (describes_joined_class a b); auto.
  - split; [|rewrite Ek]; [destruct (below_of_kind a)|destruct (below_of_kind b)]; try done; by apply below_never.
Qed.

(** ** It is the least one *)

Lemma dynamic_or c v : wf c -> kind c = Dynamic -> describes c v = true ->
  c = dynamic \/ (c = dynamicNumOrUndef /\ (v = FNumber \/ v = FUndefined)).
Proof.
  intros Hw Hk Hv. destruct (dynamic_wf c Hw Hk) as [->| ->]; [by left|]. right. split; [done|].
  destruct v; try done; auto.
Qed.

(** A type that describes values of two kinds is dynamic, or number-or-undefined. *)
Lemma two_kinds c v w : wf c -> describes c v = true -> describes c w = true -> fact_kind v <> fact_kind w ->
  c = dynamic \/ (c = dynamicNumOrUndef /\ (v = FNumber \/ v = FUndefined) /\ (w = FNumber \/ w = FUndefined)).
Proof.
  intros Hw Hv Hu Hne. destruct (describes_kind c v Hv) as [Hk|Hk], (describes_kind c w Hu) as [Hk'|Hk']; try congruence.
  - destruct (dynamic_or c v Hw Hk Hv) as [|[-> ?]]; [by left|]. destruct (dynamic_or _ w Hw Hk Hu) as [|[_ ?]]; [by left|]. by right.
  - destruct (dynamic_or c v Hw Hk Hv) as [|[-> ?]]; [by left|]. destruct (dynamic_or _ w Hw Hk Hu) as [|[_ ?]]; [by left|]. by right.
  - destruct (dynamic_or c v Hw Hk' Hv) as [|[-> ?]]; [by left|]. destruct (dynamic_or _ w Hw Hk' Hu) as [|[_ ?]]; [by left|]. by right.
Qed.

(** A value every type but [Never] describes, of the type's own kind. *)
Definition sample (t : Type_) : Fact :=
  match kind t with
  | Never | Dynamic => FOther
  | Number => FNumber | Bool => FBool | String => FString | Undefined => FUndefined | Null => FNull
  | Object => FObject (payload t) BuiltHere
  | Function => FFunction (payload t) | TypedArray => FTypedArray (payload t) | Array => FArray (payload t)
  end.

Lemma sample_describes t : kind t <> Never -> t <> dynamicNumOrUndef -> wf t ->
  describes t (sample t) = true /\ fact_kind (sample t) = kind t.
Proof.
  intros Hn Hd Hw. destruct (decide (kind t = Dynamic)) as [E|].
  { destruct (dynamic_wf t Hw E) as [->|]; [by split|done]. }
  unfold describes, sample. destruct (kind t) eqn:E; try done; split; try done; rewrite ?bool_decide_true by done;
    cbn [andb]; rewrite ?Z.eqb_refl, ?orb_true_r; cbn [andb]; try done.
  apply orb_true_iff. right. apply Z.leb_le. unfold claim. cbn. destruct (builtHere_ t), (identityOnly t); lia.
Qed.

Lemma not_numOrUndef t v : wf t -> kind t <> Never -> numOrUndef t = false -> v = sample t -> v <> FNumber /\ v <> FUndefined.
Proof.
  intros Hw Hn H ->. unfold numOrUndef, is_kind, sample in *. destruct (kind t) eqn:E; try done.
Qed.

(** Above two types of different kinds, of which not both are numbers or undefined. *)
Lemma top_least t u c : wf t -> wf u -> wf c -> below t c -> below u c -> t <> u -> kind t <> Never -> kind u <> Never ->
  ~ (numOrUndef t = true /\ numOrUndef u = true /\ t <> u) -> kind t <> kind u \/ kind t = Dynamic ->
  t <> dynamicNumOrUndef -> c = dynamic.
Proof.
  intros Ht Hu Hc Htc Huc Hne Nt Nu Hnum Hk Hd.
  destruct (decide (kind t = Dynamic)) as [Et|Nd].
  { destruct (dynamic_wf t Ht Et) as [->|]; [|done]. destruct (dynamic_or c FOther Hc) as [|[_ [|]]]; try done.
    - destruct (describes_kind c FOther) as [|]; [by apply Htc|done|done].
    - by apply Htc. }
  destruct Hk as [Hk|]; [|done]. destruct (sample_describes t Nt Hd Ht) as [St Kt].
  assert (numOrUndef t = true -> numOrUndef u = false) as Hex.
  { intros E. destruct (numOrUndef u) eqn:Eu; [|done]. by destruct Hnum. }
  destruct (decide (u = dynamicNumOrUndef)) as [->|Hdu].
  - assert (numOrUndef t = false) as Et by (destruct (numOrUndef t); [by specialize (Hex eq_refl)|done]).
    destruct (not_numOrUndef t (sample t) Ht Nt Et eq_refl) as [N1 N2].
    destruct (two_kinds c (sample t) FNumber Hc) as [|(_ & [|] & _)]; try done; [by apply Htc|by apply Huc|].
    rewrite Kt. intros E. unfold numOrUndef, is_kind in Et. cbn in E. by rewrite E in Et.
  - destruct (sample_describes u Nu Hdu Hu) as [Su Ku].
    destruct (two_kinds c (sample t) (sample u) Hc) as [|(_ & H1 & H2)]; [by apply Htc|by apply Huc|congruence|done|].
    exfalso. destruct (numOrUndef t) eqn:Et.
    + pose proof (not_numOrUndef u (sample u) Hu Nu (Hex eq_refl) eq_refl). tauto.
    + pose proof (not_numOrUndef t (sample t) Ht Nt Et eq_refl). tauto.
Qed.

Lemma joined_least a b j c : wf a -> wf b -> wf c -> joined a b j ->
  ~ (numOrUndef a = true /\ numOrUndef b = true /\ a <> b) \/ j = dynamicNumOrUndef ->
  below a c -> below b c -> below j c.
Proof.
  intros Ha Hb Hc J Hnum Hac Hbc. destruct J as [E|_ _|_ _|_ _ _ [-> | ->]|Hne Na Nb Hk _|Ka Kb Ep Hp _ i Hi|Ek Np Hids]; try done.
  - destruct Hnum as [Hnum|]; [|done].
    destruct (decide (a = dynamicNumOrUndef)) as [->|Hda].
    + rewrite (top_least b dynamicNumOrUndef c); try done.
      * intros (? & ? & ?). apply Hnum. by split_and!.
      * destruct (decide (kind b = Dynamic)); [by right|]. left. done.
    + rewrite (top_least a b c); done.
  - intros v. rewrite (describes_joined_class a b) by done. intros [H|H]; [by apply Hac|by apply Hbc].
  - assert (kind a <> Never /\ a <> dynamicNumOrUndef /\ kind b <> Never /\ b <> dynamicNumOrUndef) as (Na & Da & Nb & Db).
    { destruct Hids as [E|[(E & _)|[E|(E & _)]]]; rewrite <- Ek; rewrite E; split_and!; try done; intros ->; cbn in *; congruence. }
    destruct (sample_describes a Na Da Ha) as [Sa Ka]. destruct (sample_describes b Nb Db Hb) as [Sb Kb].
    apply Hac in Sa. apply Hbc in Sb. destruct (describes_kind c _ Sa) as [Hd|Hd].
    { destruct (dynamic_or c _ Hc Hd Sa) as [->|[_ Hs]]; [apply below_dynamic|]. exfalso.
      rewrite <- Ka in Hids. destruct Hs as [Es|Es]; rewrite Es in Hids; cbn in Hids; naive_solver. }
    rewrite Ka in Hd. rewrite <- Hd.
    assert (payload c = kNoPayload) as Epc.
    { clear -Sa Sb Ek Np Hids Hd. unfold describes, sample in Sa, Sb. rewrite Hd in *. rewrite <- Ek in Sb.
      destruct Hids as [E|[(E & ? & ?)|[E|(E & ? & ?)]]]; rewrite E in Sa, Sb; cbn in Sa, Sb;
        destruct (Z.eqb_spec (payload c) kNoPayload); try done; cbn in Sa, Sb; zbool; cbn in *; rewrite ?andb_false_r in *; congruence. }
    intros v. unfold describes. cbn [of_kind kind payload]. rewrite Epc. done.
Qed.

(** ** Chains of joins stop *)

Definition rank (t : Type_) : Z :=
  match kind t with
  | Never => 0
  | Object => if payload t =? kNoPayload then 4 else 1 + claim t
  | Function => if payload t =? kNoPayload then 3 else if payload t =? kClosureReturnsNever then 1 else 2
  | TypedArray => if payload t =? kNoPayload then 2 else 1
  | Array => if payload t =? kNoPayload then 3 else if payload t =? kArrayElemNever then 1 else 2
  | Dynamic => if payload t =? kNoPayload then 5 else 2
  | _ => 1
  end.

Lemma rank_range t : 0 <= rank t <= 5.
Proof.
  unfold rank, claim. destruct (kind t); try lia; repeat (destruct (_ =? _); try lia); destruct (builtHere_ t), (identityOnly t); lia.
Qed.

Lemma wf_plain t : wf t -> kind t <> Object -> plain t.
Proof. intros [_ H] Hk. destruct (kind t); try done; by destruct H. Qed.

Lemma never_wf t : wf t -> kind t = Never -> t = never.
Proof.
  intros Hw E. pose proof Hw as [_ H]. rewrite E in H. destruct H as [Hp Hq].
  by apply plain_eq; [|by split| |].
Qed.

(** The type with no identity of its kind is the only one with that payload. *)
Lemma no_payload t : wf t -> payload t = kNoPayload -> kind t <> Dynamic -> t = of_kind (kind t).
Proof.
  intros Hw E Hd. apply plain_eq; [|by split|done|done]. destruct (decide (kind t = Object)) as [Hk|]; [|by apply wf_plain].
  pose proof Hw as [_ H]. rewrite Hk in H. destruct H as [|[]]; [done|congruence].
Qed.

Lemma rank_positive t : wf t -> kind t <> Never -> 1 <= rank t.
Proof.
  intros Hw Hn. unfold rank, claim. destruct (kind t); try done; try lia;
    repeat (destruct (_ =? _); try lia); destruct (builtHere_ t), (identityOnly t); lia.
Qed.

Lemma joined_rank a b j : wf a -> wf b -> joined a b j -> j = a \/ rank a < rank j.
Proof.
  intros Ha Hb J. destruct J as [E|_ _|H Hne|Hne Hna Hnb _|Hne Na Nb _ _|Ka Kb Ep Hp Hne i Hi|Ek Np Hids]; auto.
  - right. destruct H as [H|[E H]].
    + rewrite (never_wf a Ha H). enough (kind b <> Never) as Hn by (pose proof (rank_positive b Hb Hn); cbn; lia).
      intros E. apply Hne. by rewrite (never_wf a), (never_wf b).
    + assert (kind a <> Object) as No by (unfold functionReturnsNever, arrayElementsUndecided, is_kind in H; intros E';
        rewrite E' in H; by destruct H).
      assert (payload a <> payload b) as Np.
      { intros Ep. apply Hne. apply plain_eq; auto using wf_plain. apply wf_plain; [done|congruence]. }
      unfold functionReturnsNever, arrayElementsUndecided, is_kind in H. unfold rank. rewrite <- E.
      destruct H as [[Hk%bool_decide_eq_true Hv%Z.eqb_eq]%andb_prop|[Hk%bool_decide_eq_true Hv%Z.eqb_eq]%andb_prop];
        rewrite Hk, Hv in *; cbn; unfold kClosureReturnsNever, kArrayElemNever, kNoPayload in *; zbool; lia.
  - destruct (decide (a = dynamicNumOrUndef)) as [|Hd]; [by left|right]. unfold numOrUndef, is_kind in Hna.
    apply orb_prop in Hna as [[H|H]%orb_prop|H]; [| |by apply isDynamicNumOrUndef_iff in H].
    + apply bool_decide_eq_true in H. unfold rank. by rewrite H.
    + apply bool_decide_eq_true in H. unfold rank. by rewrite H.
  - destruct (decide (kind a = Dynamic)) as [E|Hk].
    + destruct (dynamic_wf a Ha E) as [->| ->]; [by left|right]. done.
    + right. unfold rank, claim. destruct (kind a); try done; cbn;
        repeat (destruct (_ =? _); try lia); destruct (builtHere_ a), (identityOnly a); lia.
  - destruct (decide (mkType Object (payload a) i false = a)) as [|Hj]; [by left|right].
    unfold rank. cbn [kind payload]. rewrite Ka, (proj2 (Z.eqb_neq _ _)) by done. rewrite claim_unbuilt.
    assert (claim a <= if i then 2 else 1) by lia. enough (claim a <> if i then 2 else 1) by lia.
    intros E. apply Hj. unfold claim in E. destruct a as [ka pa ia ba]. cbn in *. subst ka.
    destruct ba, ia, i; cbn in *; congruence || lia.
  - destruct (Z.eq_dec (payload a) kNoPayload) as [E|Hp].
    + left. symmetry. apply no_payload; [done|done|]. destruct Hids as [E'|[(E' & _)|[E'|(E' & _)]]]; congruence.
    + right. unfold rank, claim. destruct Hids as [E|[(E & ? & ?)|[E|(E & ? & ?)]]]; rewrite E; cbn [kind payload of_kind];
        rewrite (proj2 (Z.eqb_neq (payload a) kNoPayload)), Z.eqb_refl by done;
        repeat (destruct (_ =? _)); destruct (builtHere_ a), (identityOnly a); lia.
Qed.

(** ** The lattice *)

Lemma numOrUndef_cases t : wf t -> numOrUndef t = true -> t = number \/ t = undefined \/ t = dynamicNumOrUndef.
Proof.
  intros Hw H. unfold numOrUndef, is_kind in H. pose proof Hw as [_ Hs].
  apply orb_prop in H as [[H|H]%orb_prop|H].
  - left. apply bool_decide_eq_true in H. rewrite H in Hs. destruct Hs. by apply plain_eq; [|by split| |].
  - right; left. apply bool_decide_eq_true in H. rewrite H in Hs. destruct Hs. by apply plain_eq; [|by split| |].
  - right; right. by apply isDynamicNumOrUndef_iff.
Qed.

(** [join] misses the least upper bound on one pair. *)
Lemma join_joinParam a b : wf a -> wf b ->
  join a b = joinParam a b \/
  (join a b = dynamic /\ ((a = number /\ b = undefined) \/ (a = undefined /\ b = number))).
Proof.
  intros Ha Hb. destruct (joinParam_cases a b) as [[-> _]|(-> & Na & Nb & Hne)]; [by left|].
  destruct (numOrUndef_cases a Ha Na) as [->|[->| ->]], (numOrUndef_cases b Hb Nb) as [->|[->| ->]]; try done;
    first [by left | by right; split; [|auto]].
Qed.

(** C31: [joinParam] is the least upper bound of two types in the order of the values
    they describe; [join] is an upper bound too, the same one except that it takes
    number and undefined up to [dynamic]; both answer well-formed types, and a join
    that changes its left operand climbs a ladder of five rungs, so joining into a
    binding stops. *)
Theorem join_lattice a b :
  wf a -> wf b ->
  (wf (join a b) /\ below a (join a b) /\ below b (join a b)) /\
  (wf (joinParam a b) /\ below a (joinParam a b) /\ below b (joinParam a b)) /\
  (forall c, wf c -> below a c -> below b c -> below (joinParam a b) c) /\
  (join a b = joinParam a b \/
   (join a b = dynamic /\ ((a = number /\ b = undefined) \/ (a = undefined /\ b = number)))) /\
  (join a b = a \/ rank a < rank (join a b)) /\ 0 <= rank a <= 5.
Proof.
  intros Ha Hb. pose proof (join_joined a b Ha Hb) as J. pose proof (joined_upper a b _ Ha Hb J) as [U1 U2].
  split; [auto using join_wf|]. split.
  - split; [by apply joinParam_wf|]. destruct (joinParam_cases a b) as [[-> _]|(-> & Na & Nb & _)]; [done|].
    split; by apply below_numOrUndef.
  - split; [|split; [by apply join_joinParam|split; [by apply joined_rank with b|apply rank_range]]].
    intros c Hc Hac Hbc. destruct (joinParam_cases a b) as [[-> Hn]|(-> & Na & Nb & Hne)].
    + by apply (joined_least a b); auto.
    + destruct (numOrUndef_cases a Ha Na) as [->|[->| ->]], (numOrUndef_cases b Hb Nb) as [->|[->| ->]]; try done.
      * intros v Hv. destruct v; try done; [by apply Hac|by apply Hbc].
      * intros v Hv. destruct v; try done; [by apply Hbc|by apply Hac].
Qed.

Lemma join_lattice_witness :
  below (objectIdentityOnly 3) (join (object 3) (objectIdentityOnly 3)) /\
  join (object 3) (object 4) = object kNoShapeClass /\
  (forall c, wf c -> below number c -> below undefined c -> below dynamicNumOrUndef c).
Proof.
  destruct (join_lattice (object 3) (objectIdentityOnly 3)) as [(_ & _ & H) _].
  - split; [cbn; lia|]. left. split; reflexivity.
  - split; [cbn; lia|]. right. split; [discriminate|reflexivity].
  - destruct (join_lattice number undefined) as (_ & _ & H' & _); [apply (wf_of_kind Number)|apply (wf_of_kind Undefined)|].
    split; [exact H|]. split; [reflexivity|exact H'].
Defined.

(** Two objects of different classes, both made elsewhere: their join answers that it
    was built here. *)
Example join_built_here :
  builtHere (join (objectNotBuiltHere 1) (objectNotBuiltHere 2)) = true.
Proof. reflexivity. Qed.

(** The order of the edges decides: number and undefined meet at [dynamic], unless
    number-or-undefined is met in between. *)
Example join_not_associative :
  join (join number undefined) dynamicNumOrUndef = dynamic /\
  join number (join undefined dynamicNumOrUndef) = dynamicNumOrUndef.
Proof. by split. Qed.

(** *** The order key *)

Lemma kind_index_inj k k' : kind_index k = kind_index k' -> k = k'.
Proof. destruct k, k'; cbn; congruence. Qed.

Lemma kind_index_range k : 0 <= kind_index k <= 10.
Proof. destruct k; cbn; lia. Qed.

Lemma bitsForOrdering_sum t : 0 <= payload t < 2 ^ 32 ->
  bitsForOrdering t = kind_index (kind t) * 2 ^ 40 + payload t * 2 ^ 8 + (if identityOnly t then 2 else 0) + (if builtHere_ t then 1 else 0).
Proof.
  intros Hp. unfold bitsForOrdering. pose proof (kind_index_range (kind t)).
  rewrite (lor_shiftl_add _ (Z.shiftl (payload t) 8) 40) by (rewrite ?Z.shiftl_mul_pow2 by lia; lia).
  rewrite Z.shiftl_mul_pow2 by lia.
  replace (kind_index (kind t) * 2 ^ 40 + payload t * 2 ^ 8) with (Z.shiftl (kind_index (kind t) * 2 ^ 32 + payload t) 8)
    by (rewrite Z.shiftl_mul_pow2 by lia; lia).
  rewrite (lor_shiftl_add _ (if identityOnly t then 2 else 0) 8) by (destruct (identityOnly t); lia).
  replace ((kind_index (kind t) * 2 ^ 32 + payload t) * 2 ^ 8 + (if identityOnly t then 2 else 0))
    with (Z.shiftl ((kind_index (kind t) * 2 ^ 32 + payload t) * 2 ^ 7 + (if identityOnly t then 1 else 0)) 1)
    by (rewrite Z.shiftl_mul_pow2 by lia; destruct (identityOnly t); lia).
  rewrite (lor_shiftl_add _ (if builtHere_ t then 1 else 0) 1) by (destruct (builtHere_ t); lia). rewrite ?Z.shiftl_mul_pow2 by lia.
  destruct (identityOnly t), (builtHere_ t); lia.
Qed.

(** Equal keys are equal types. *)
Lemma bitsForOrdering_inj a b : 0 <= payload a < 2 ^ 32 -> 0 <= payload b < 2 ^ 32 ->
  bitsForOrdering a = bitsForOrdering b -> a = b.
Proof.
  intros Ha Hb. rewrite !bitsForOrdering_sum by done. destruct a as [ka pa ia ba], b as [kb pb ib bb]. cbn in *.
  intros E. pose proof (kind_index_range ka). pose proof (kind_index_range kb).
  assert (kind_index ka = kind_index kb /\ pa = pb /\ ia = ib /\ ba = bb) as (Hk & -> & -> & ->).
  { destruct ia, ib, ba, bb; split_and!; try done; lia. }
  by rewrite (kind_index_inj ka kb).
Qed.
