(* ===== verification/Operators.v ===== *)
(** * The types of operator results (src/src/types/operator_types.cpp)

    The result type of every operator from the types of its operands, with the two
    functions of relational_prover.cpp for [??] and [||].  A model of what the
    operators do to values, as far as the lattice tells values apart, is stated beside
    it; the file shows that whatever an operator makes of two values is described by
    the type computed from theirs. *)
From S2P Require Import Prelude Types.
Local Open Scope bool_scope.

(** ** The operators (ast.h) *)

Inductive UnaryOp :=
  | Not | Negate | Posate | PreInc | PreDec | PostInc | PostDec | BitNot | TypeOf | Void | Delete.

Inductive BinaryOp :=
  | Add | Sub | Mul | Div | Mod | Less | Greater | LessEqual | GreaterEqual
  | Eq | StrictEq | Ne | StrictNe | Assign | PlusAssign | MinusAssign
  | StarAssign | SlashAssign | PercentAssign | LogicalAnd | LogicalOr | NullishCoalescing
  | BitAnd | BitOr | BitXor | Shl | Shr | UShr | Exp | In | InstanceOf | Comma
  | AmpAssign | PipeAssign | CaretAssign | ShlAssign | ShrAssign | UShrAssign | ExpAssign
  | LogicalAndAssign | LogicalOrAssign | NullishAssign.

#[global] Instance UnaryOp_eq_dec : EqDecision UnaryOp.
Proof. solve_decision. Defined.
#[global] Instance BinaryOp_eq_dec : EqDecision BinaryOp.
Proof. solve_decision. Defined.

(** ** Result types *)

Definition withBottom (operand result : Type_) : Type_ := if is_kind operand Never then never else result.
Definition withBottom2 (a b result : Type_) : Type_ :=
  if is_kind a Never || is_kind b Never then never else result.

Definition isNumericPrimitive (t : Type_) : bool :=
  match kind t with Number | Bool | Null | Undefined => true | _ => false end.

Definition isNeverBigInt (t : Type_) : bool :=
  match kind t with Number | Bool | Null | Undefined | String => true | _ => false end.

Definition numericOrDynamic (l r : Type_) : Type_ :=
  if is_kind l Never || is_kind r Never then never
  else if isNeverBigInt l || isNeverBigInt r then number else dynamic.

Definition arithResult (op : BinaryOp) (l r : Type_) : Type_ :=
  if is_kind l Never || is_kind r Never then never
  else if negb (bool_decide (op = Add)) then numericOrDynamic l r
  else if is_kind l String || is_kind r String then string_
  else if isNumericPrimitive l && isNumericPrimitive r then number
  else dynamic.

Definition isAlwaysNumericOp (op : BinaryOp) : bool :=
  match op with BitAnd | BitOr | BitXor | Shl | Shr | UShr | Exp => true | _ => false end.

Definition unaryResult (op : UnaryOp) (operand : Type_) : Type_ :=
  match op with
  | Not => withBottom operand boolean
  | Posate => withBottom operand number
  | Negate | BitNot => numericOrDynamic operand operand
  | TypeOf => withBottom operand string_
  | Void => withBottom operand undefined
  | Delete => boolean
  | PreInc | PreDec | PostInc | PostDec => if isNeverBigInt operand then number else dynamic
  end.

Definition binaryResult (op : BinaryOp) (l r : Type_) : Type_ :=
  if isAlwaysNumericOp op then numericOrDynamic l r
  else
    match op with
    | Add | Sub | Mul | Div | Mod => arithResult op l r
    | Less | Greater | LessEqual | GreaterEqual | Eq | StrictEq | Ne | StrictNe | In | InstanceOf =>
        withBottom2 l r boolean
    | Comma => r
    | _ => dynamic
    end.

Definition nullishCoalescingResult (lhs rhs : Type_) : Type_ :=
  if is_kind lhs Never || is_kind rhs Never then never
  else if is_kind lhs Undefined || is_kind lhs Null then rhs
  else if is_kind lhs Number || is_kind lhs String || is_kind lhs Bool || is_kind lhs Object ||
          is_kind lhs Array || is_kind lhs TypedArray || is_kind lhs Function then lhs
  else if isDynamicNumOrUndef lhs && is_kind rhs Number then number
  else join lhs rhs.

Definition logicalOrResult (lhs rhs : Type_) : Type_ :=
  if is_kind lhs Never || is_kind rhs Never then never
  else if is_kind lhs Undefined || is_kind lhs Null then rhs
  else if (is_kind lhs Number || isDynamicNumOrUndef lhs) && is_kind rhs Number then number
  else join lhs rhs.

Definition compoundResult (plainOp : BinaryOp) (current rhs : Type_) : Type_ :=
  match plainOp with
  | LogicalOr => logicalOrResult current rhs
  | NullishCoalescing => nullishCoalescingResult current rhs
  | LogicalAnd => join current rhs
  | _ => if isAlwaysNumericOp plainOp then numericOrDynamic current rhs else arithResult plainOp current rhs
  end.

(** ** What the operators make of values *)

(** An object, whose [valueOf] or [toString] may answer any primitive. *)
Definition is_object (v : Fact) : bool :=
  match v with FObject _ _ | FFunction _ | FTypedArray _ | FArray _ => true | _ => false end.

(** The primitives of ToPrimitive.  [FOther] is a BigInt or a symbol. *)
Inductive to_primitive : Fact -> Fact -> Prop :=
  | primitive_itself v : is_object v = false -> to_primitive v v
  | primitive_of_object v w : is_object v = true -> is_object w = false -> to_primitive v w.

(** ToNumeric: a BigInt stays one, every other primitive that does not throw becomes a
    number. *)
Inductive to_numeric : Fact -> Fact -> Prop :=
  | numeric_bigint v : to_primitive v FOther -> to_numeric v FOther
  | numeric_number v w : to_primitive v w -> w <> FOther -> to_numeric v FNumber.

(** Numeric operators take two numbers or two BigInts; mixing them throws. *)
Definition numeric_result (v w u : Fact) : Prop := to_numeric v u /\ to_numeric w u.

(** [+] concatenates as soon as one primitive is a string. *)
Definition add_result (v w u : Fact) : Prop :=
  exists p q, to_primitive v p /\ to_primitive w q /\
    ((u = FString /\ (p = FString \/ q = FString)) \/
     (p <> FString /\ q <> FString /\ numeric_result p q u)).

Definition unary_value (op : UnaryOp) (v u : Fact) : Prop :=
  match op with
  | Not | Delete => u = FBool
  | Posate => u = FNumber
  | TypeOf => u = FString
  | Void => u = FUndefined
  | Negate | BitNot | PreInc | PreDec | PostInc | PostDec => to_numeric v u
  end.

Definition binary_value (op : BinaryOp) (v w u : Fact) : Prop :=
  match op with
  | Add => add_result v w u
  | Sub | Mul | Div | Mod | BitAnd | BitOr | BitXor | Shl | Shr | UShr | Exp => numeric_result v w u
  | Less | Greater | LessEqual | GreaterEqual | Eq | StrictEq | Ne | StrictNe | In | InstanceOf => u = FBool
  | Comma => u = w
  | _ => True
  end.

(** [null] and [undefined] are nullish; those are falsy, and so are values of every
    primitive type.  A value short-circuits or is replaced by that of the right operand,
    which need not have one. *)
Definition nullish (v : Fact) : bool := match v with FUndefined | FNull => true | _ => false end.

Definition short_circuit (op : BinaryOp) (v : Fact) (w : option Fact) (u : Fact) : Prop :=
  match op with
  | NullishCoalescing => if nullish v then w = Some u else u = v
  | LogicalOr => (u = v /\ nullish v = false) \/ (w = Some u /\ is_object v = false)
  | LogicalAnd => (u = v /\ is_object v = false) \/ (w = Some u /\ nullish v = false)
  | _ => False
  end.

(** The value of [x op= y]. *)
Definition compound_value (op : BinaryOp) (v w u : Fact) : Prop :=
  match op with
  | LogicalOr | LogicalAnd | NullishCoalescing => short_circuit op v (Some w) u
  | Add | Sub | Mul | Div | Mod | BitAnd | BitOr | BitXor | Shl | Shr | UShr | Exp => binary_value op v w u
  | _ => False
  end.

(** ** Soundness *)

Lemma is_kind_true t k : is_kind t k = true <-> kind t = k.
Proof. apply bool_decide_eq_true. Qed.

Lemma never_describes t v : is_kind t Never = true -> describes t v = false.
Proof. intros E%is_kind_true. unfold describes. by rewrite E. Qed.

Lemma described_not_never t v : describes t v = true -> is_kind t Never = false.
Proof. intros H. destruct (is_kind t Never) eqn:E; [|done]. by rewrite never_describes in H. Qed.

(** A type that rules BigInts out describes only values whose ToNumeric is a number. *)
Lemma never_bigint t v u : isNeverBigInt t = true -> describes t v = true -> to_numeric v u -> u = FNumber.
Proof.
  intros Ht Hv Hu. unfold isNeverBigInt in Ht.
  assert (v <> FOther /\ is_object v = false) as [Ho Hob].
  { unfold describes in Hv. destruct (kind t), v; done. }
  destruct Hu as [v [v' _|v' w' E _]|v w _ _]; try done. congruence.
Qed.

Lemma numericOrDynamic_sound l r v w u :
  describes l v = true -> describes r w = true -> numeric_result v w u -> describes (numericOrDynamic l r) u = true.
Proof.
  intros Hv Hw [Hu Hu']. unfold numericOrDynamic.
  rewrite (described_not_never l v), (described_not_never r w) by done. cbn [orb].
  destruct (isNeverBigInt l) eqn:El; [by rewrite (never_bigint l v u)|].
  destruct (isNeverBigInt r) eqn:Er; [by rewrite (never_bigint r w u)|done].
Qed.

Lemma string_primitive t v p : kind t = String -> describes t v = true -> to_primitive v p -> p = FString.
Proof.
  intros Hk Hv Hp. assert (v = FString) as -> by (unfold describes in Hv; rewrite Hk in Hv; by destruct v).
  by inversion Hp.
Qed.

Lemma numeric_primitive t v p : isNumericPrimitive t = true -> describes t v = true -> to_primitive v p ->
  p <> FString /\ forall u, to_numeric p u -> u = FNumber.
Proof.
  intros Ht Hv Hp. assert (is_object v = false /\ v <> FOther /\ v <> FString) as (Ho & Hb & Hs).
  { unfold isNumericPrimitive in Ht. unfold describes in Hv. destruct (kind t), v; done. }
  assert (p = v) as -> by (inversion Hp; congruence). split; [done|]. intros u Hu.
  destruct Hu as [v [v' _|v' w' E _]|v w _ _]; try done. congruence.
Qed.

Lemma to_numeric_primitive v p u : to_primitive v p -> to_numeric p u -> to_numeric v u.
Proof.
  intros Hp Hu. assert (is_object p = false) as Ho by (by inversion Hp). inversion Hu; subst.
  - inversion H; subst; [by constructor|congruence].
  - inversion H; subst; [by econstructor|congruence].
Qed.

Lemma arithResult_sound op l r v w u :
  describes l v = true -> describes r w = true ->
  (if bool_decide (op = Add) then add_result v w u else numeric_result v w u) ->
  describes (arithResult op l r) u = true.
Proof.
  intros Hv Hw Hu. unfold arithResult.
  rewrite (described_not_never l v), (described_not_never r w) by done. cbn [orb].
  destruct (bool_decide (op = Add)); cbn [negb]; [|by eapply numericOrDynamic_sound].
  destruct Hu as (p & q & Hp & Hq & Hcase).
  destruct (is_kind l String) eqn:El; cbn [orb].
  { apply is_kind_true in El. pose proof (string_primitive l v p El Hv Hp). by destruct Hcase as [[-> _]|[? _]]. }
  destruct (is_kind r String) eqn:Er.
  { apply is_kind_true in Er. pose proof (string_primitive r w q Er Hw Hq). by destruct Hcase as [[-> _]|(_ & ? & _)]. }
  destruct (isNumericPrimitive l && isNumericPrimitive r) eqn:En; [|done]. apply andb_prop in En as [Nl Nr].
  destruct (numeric_primitive l v p Nl Hv Hp) as [Hs Hn]. destruct (numeric_primitive r w q Nr Hw Hq) as [Hs' _].
  destruct Hcase as [[_ [|]]|(_ & _ & Hu & _)]; [done..|]. by rewrite (Hn u Hu).
Qed.

Lemma unary_sound op t v u : describes t v = true -> unary_value op v u -> describes (unaryResult op t) u = true.
Proof.
  intros Hv Hu. pose proof (described_not_never t v Hv) as Hn.
  assert (to_numeric v u -> describes (numericOrDynamic t t) u = true) as Hnum.
  { intros H. by apply (numericOrDynamic_sound t t v v u). }
  assert (to_numeric v u -> describes (if isNeverBigInt t then number else dynamic) u = true) as Hupdate.
  { intros H. destruct (isNeverBigInt t) eqn:E; [by rewrite (never_bigint t v u)|done]. }
  destruct op; cbn [unary_value unaryResult] in *; unfold withBottom; rewrite ?Hn; auto; by rewrite Hu.
Qed.

Lemma binary_sound op l r v w u : describes l v = true -> describes r w = true ->
  binary_value op v w u -> describes (binaryResult op l r) u = true.
Proof.
  intros Hv Hw Hu. pose proof (described_not_never l v Hv) as Hl. pose proof (described_not_never r w Hw) as Hr.
  destruct op; cbn [binary_value] in Hu; unfold binaryResult, isAlwaysNumericOp; cbv iota;
    try (by apply (numericOrDynamic_sound l r v w)); try (by apply (arithResult_sound _ l r v w)); try done;
    unfold withBottom2; rewrite ?Hl, ?Hr; cbn [orb]; by subst u.
Qed.

Section ShortCircuit.
Context (l r : Type_) (v u : Fact) (w : option Fact).
Hypothesis (l_wf : wf l) (r_wf : wf r) (l_describes : describes l v = true).
Hypothesis (r_describes : forall x, w = Some x -> describes r x = true) (r_runs : is_kind r Never = false).

Lemma short_circuit_join : u = v \/ w = Some u -> describes (join l r) u = true.
Proof.
  destruct (joined_upper l r _ l_wf r_wf (join_joined l r l_wf r_wf)) as [Hl Hr].
  intros [->|E]; [by apply Hl|by apply Hr, r_describes].
Qed.

Lemma numOrUndef_value : isDynamicNumOrUndef l = true -> v = FNumber \/ v = FUndefined.
Proof.
  intros ->%isDynamicNumOrUndef_iff; [|done]. destruct v; try done; auto.
Qed.

Lemma nullish_sound : short_circuit NullishCoalescing v w u -> describes (nullishCoalescingResult l r) u = true.
Proof.
  cbn [short_circuit]. intros Hu. unfold nullishCoalescingResult.
  rewrite (described_not_never l v), r_runs by done. cbn [orb].
  destruct (is_kind l Undefined || is_kind l Null) eqn:En.
  { assert (nullish v = true) as E; [|rewrite E in Hu; auto].
    unfold describes, is_kind in *. destruct (kind l); try done; by destruct v. }
  destruct (_ || is_kind l Function) eqn:Ev.
  { assert (nullish v = false) as E; [|rewrite E in Hu; by subst u].
    unfold describes, is_kind in *. destruct (kind l); try done; by destruct v. }
  destruct (isDynamicNumOrUndef l && is_kind r Number) eqn:Ed.
  { apply andb_prop in Ed as [El Er%is_kind_true]. destruct (numOrUndef_value El) as [E|E]; rewrite E in Hu; cbn in Hu.
    - by subst u.
    - pose proof (r_describes u Hu) as Hd. unfold describes in Hd |- *. rewrite Er in Hd. by destruct u. }
  apply short_circuit_join. destruct (nullish v); auto.
Qed.

Lemma or_sound : short_circuit LogicalOr v w u -> describes (logicalOrResult l r) u = true.
Proof.
  cbn [short_circuit]. intros Hu. unfold logicalOrResult.
  rewrite (described_not_never l v), r_runs by done. cbn [orb].
  destruct (is_kind l Undefined || is_kind l Null) eqn:En.
  { assert (nullish v = true) as E; [|rewrite E in Hu; naive_solver].
    unfold describes, is_kind in *. destruct (kind l); try done; by destruct v. }
  destruct ((_ || _) && is_kind r Number) eqn:Ed.
  { apply andb_prop in Ed as [El Er%is_kind_true].
    assert (v = FNumber \/ v = FUndefined) as Hv.
    { apply orb_prop in El as [El%is_kind_true|El]; [|by apply numOrUndef_value].
      unfold describes in l_describes. rewrite El in l_describes. destruct v; try done; auto. }
    destruct Hu as [[-> Hn]|[Hu _]]; [by destruct Hv as [E|E]; rewrite E in *|].
    pose proof (r_describes u Hu) as Hd. unfold describes in Hd |- *. rewrite Er in Hd. by destruct u. }
  apply short_circuit_join. naive_solver.
Qed.

Lemma and_sound : short_circuit LogicalAnd v w u -> describes (join l r) u = true.
Proof. cbn [short_circuit]. intros Hu. apply short_circuit_join. naive_solver. Qed.
End ShortCircuit.

Lemma compound_sound op l r v w u : wf l -> wf r -> describes l v = true -> describes r w = true ->
  compound_value op v w u -> describes (compoundResult op l r) u = true.
Proof.
  intros Wl Wr Hv Hw Hu. pose proof (described_not_never r w Hw) as Hr.
  assert (forall x, Some w = Some x -> describes r x = true) as Hx by congruence.
  destruct op; cbn [compound_value binary_value] in Hu; unfold compoundResult, isAlwaysNumericOp; cbv iota; try done;
    try (by apply (numericOrDynamic_sound l r v w)); try (by apply (arithResult_sound _ l r v w)).

  - by apply (and_sound l r v u (Some w)).
  - by apply (or_sound l r v u (Some w)).
  - by apply (nullish_sound l r v u (Some w)).
Qed.

(** C34: the type of an operator's result describes whatever the operator makes of
    values its operands' types describe: a unary or a binary operator, [??], [||] and
    [&&] with the right operand evaluated or not, and a compound assignment.  For [??]
    and [||] the right operand's type must not be [Never]: a right operand that never
    answers makes the whole expression [Never], the left operand's value included. *)
Theorem operator_types_sound l r v :
  wf l -> wf r -> describes l v = true ->
  (forall op u, unary_value op v u -> describes (unaryResult op l) u = true) /\
  (forall op w u, describes r w = true -> binary_value op v w u -> describes (binaryResult op l r) u = true) /\
  (forall op w u, describes r w = true -> compound_value op v w u -> describes (compoundResult op l r) u = true) /\
  (forall w u, (forall x, w = Some x -> describes r x = true) -> is_kind r Never = false ->
    (short_circuit NullishCoalescing v w u -> describes (nullishCoalescingResult l r) u = true) /\
    (short_circuit LogicalOr v w u -> describes (logicalOrResult l r) u = true) /\
    (short_circuit LogicalAnd v w u -> describes (join l r) u = true)).
Proof.
  intros Wl Wr Hv. split; [intros; by eapply unary_sound|]. split; [intros; by eapply binary_sound|].
  split; [intros; by eapply compound_sound|]. intros w u Hw Hr.
  split; [by apply (nullish_sound l r v u w)|]. split; [by apply (or_sound l r v u w)|by apply (and_sound l r v u w)].
Qed.

(** An object plus a string is a string; minus a number it is a number. *)
Lemma operator_types_sound_witness :
  describes (binaryResult Add (object 3) string_) FString = true /\
  describes (binaryResult Sub (object 3) number) FNumber = true /\
  describes (nullishCoalescingResult dynamicNumOrUndef number) FNumber = true.
Proof.
  split; [|split].
  - destruct (operator_types_sound (object 3) string_ (FObject 3 BuiltHere)) as (_ & H & _);
      [split; [cbn; lia|left; split; reflexivity]|apply (wf_of_kind String)|reflexivity|].
    apply (H Add FString FString); [reflexivity|]. exists FNumber, FString.
    split; [apply primitive_of_object; reflexivity|]. split; [apply primitive_itself; reflexivity|].
    left. split; [reflexivity|]. right. reflexivity.
  - destruct (operator_types_sound (object 3) number (FObject 3 BuiltHere)) as (_ & H & _);
      [split; [cbn; lia|left; split; reflexivity]|apply (wf_of_kind Number)|reflexivity|].
    apply (H Sub FNumber FNumber); [reflexivity|].
    split; apply numeric_number with FNumber; try discriminate; [apply primitive_of_object|apply primitive_itself]; reflexivity.
  - destruct (operator_types_sound dynamicNumOrUndef number FUndefined) as (_ & _ & _ & H);
      [apply wf_numOrUndef|apply (wf_of_kind Number)|reflexivity|].
    destruct (H (Some FNumber) FNumber) as [Hn _]; [intros x E; injection E as <-; reflexivity|reflexivity|].
    apply Hn. reflexivity.
Defined.

(** A right operand that never answers hides the left one's value. *)
Example nullish_never_right :
  nullishCoalescingResult string_ never = never /\ short_circuit NullishCoalescing FString None FString.
Proof. by split. Qed.
