(* ===== verification/Env.v ===== *)
(** * The flow analysis's environment (src/src/types/env.h, joinEnv of flow.cpp)

    [Env] is a vector of bindings kept in name order.  The file models its operations
    on that vector and shows that they are those of a finite map, that name order is
    kept by all of them, and that [joinEnv], one walk over two vectors, is the
    intersection of the maps with the types joined. *)
From stdpp Require Import gmap strings.
From S2P Require Import Prelude Types.

(** ** Name order *)

Definition name_lt (a b : string) : bool := String.ltb a b.

Lemma ascii_compare_trans a b c : Ascii.compare a b = Lt -> Ascii.compare b c = Lt -> Ascii.compare a c = Lt.
Proof. unfold Ascii.compare. rewrite !N.compare_lt_iff. lia. Qed.

Lemma compare_refl s : String.compare s s = Eq.
Proof. induction s as [|a s IH]; [done|]. cbn. unfold Ascii.compare. by rewrite N.compare_refl. Qed.

Lemma compare_lt_trans a b c : String.compare a b = Lt -> String.compare b c = Lt -> String.compare a c = Lt.
Proof.
  revert b c. induction a as [|x a IH]; intros [|y b] [|z c]; cbn; try done.
  destruct (Ascii.compare x y) eqn:Exy; try done; intros Hab; destruct (Ascii.compare y z) eqn:Eyz; try done; intros Hbc.
  - apply Ascii.compare_eq_iff in Exy, Eyz. subst. unfold Ascii.compare. rewrite N.compare_refl. by apply IH with b.
  - apply Ascii.compare_eq_iff in Exy. subst. by rewrite Eyz.
  - apply Ascii.compare_eq_iff in Eyz. subst. by rewrite Exy.
  - by rewrite (ascii_compare_trans x y z).
Qed.

Lemma name_lt_iff a b : name_lt a b = true <-> String.compare a b = Lt.
Proof. unfold name_lt, String.ltb. by destruct (String.compare a b). Qed.

Lemma name_lt_irrefl a : name_lt a a = false.
Proof. unfold name_lt, String.ltb. by rewrite compare_refl. Qed.

Lemma name_lt_trans a b c : name_lt a b = true -> name_lt b c = true -> name_lt a c = true.
Proof. rewrite !name_lt_iff. apply compare_lt_trans. Qed.

Lemma name_lt_ne a b : name_lt a b = true -> a <> b.
Proof. intros H ->. by rewrite name_lt_irrefl in H. Qed.

(** The three ways of two names. *)
Inductive names (a b : string) : Prop :=
  | names_lt : name_lt a b = true -> name_lt b a = false -> a <> b -> names a b
  | names_eq : a = b -> name_lt a b = false -> names a b
  | names_gt : name_lt b a = true -> name_lt a b = false -> a <> b -> names a b.

Lemma names_cases a b : names a b.
Proof.
  destruct (name_lt a b) eqn:E.
  - apply names_lt; [done| |by apply name_lt_ne]. destruct (name_lt b a) eqn:E'; [|done].
    pose proof (name_lt_trans a b a E E') as H. by rewrite name_lt_irrefl in H.
  - destruct (decide (a = b)) as [->|Hne]; [by apply names_eq|]. apply names_gt; [|done..].
    unfold name_lt, String.ltb in *. rewrite String.compare_antisym.
    destruct (String.compare a b) eqn:Ec; cbn; try done. by apply String.compare_eq_iff in Ec.
Qed.

(** ** The vector *)

Notation Env := (list (string * Type_)).

(** [std::lower_bound] on a vector in name order: the first binding whose name is not
    below [name]. *)
Fixpoint lowerBound (entries : Env) (name : string) : nat :=
  match entries with
  | [] => 0%nat
  | e :: rest => if name_lt e.1 name then S (lowerBound rest name) else 0%nat
  end.

Definition find (entries : Env) (name : string) : option nat :=
  let it := lowerBound entries name in
  match entries !! it with
  | Some e => if bool_decide (e.1 = name) then Some it else None
  | None => None
  end.

Definition count (entries : Env) (name : string) : nat := if find entries name then 1%nat else 0%nat.

(** [entries_.emplace(it, name, t)] *)
Definition emplace_at (entries : Env) (it : nat) (name : string) (t : Type_) : Env :=
  take it entries ++ (name, t) :: drop it entries.

(** [operator[]]: the vector, with the name bound, and the binding's position. *)
Definition subscript (entries : Env) (name : string) : Env * nat :=
  let it := lowerBound entries name in
  match entries !! it with
  | Some e => if bool_decide (e.1 = name) then (entries, it) else (emplace_at entries it name never, it)
  | None => (emplace_at entries it name never, it)
  end.

(** [it->second = t] *)
Definition set_second (entries : Env) (it : nat) (t : Type_) : Env := alter (fun e => (e.1, t)) it entries.

(** [env[name] = t] *)
Definition assign_name (entries : Env) (name : string) (t : Type_) : Env :=
  let (entries', it) := subscript entries name in set_second entries' it t.

Definition emplace (entries : Env) (name : string) (t : Type_) : Env * bool :=
  let it := lowerBound entries name in
  match entries !! it with
  | Some e => if bool_decide (e.1 = name) then (entries, false) else (emplace_at entries it name t, true)
  | None => (emplace_at entries it name t, true)
  end.

Definition erase (entries : Env) (name : string) : Env * nat :=
  match find entries name with
  | None => (entries, 0%nat)
  | Some it => (delete it entries, 1%nat)
  end.

Definition appendSorted (entries : Env) (name : string) (t : Type_) : Env := entries ++ [(name, t)].

(** The walk of [joinEnv]. *)
Fixpoint joinEnv_from (a b out : Env) {struct a} : Env :=
  match a with
  | [] => out
  | ea :: a' =>
      (fix skip_b (b : Env) : Env :=
         match b with
         | [] => out
         | eb :: b' =>
             match String.compare ea.1 eb.1 with
             | Lt => joinEnv_from a' b out
             | Gt => skip_b b'
             | Eq => joinEnv_from a' b' (appendSorted out ea.1 (join ea.2 eb.2))
             end
         end) b
  end.

Definition joinEnv (a b : Env) : Env := joinEnv_from a b [].

(** ** The map it stands for *)

Fixpoint ordered (entries : Env) : Prop :=
  match entries with
  | [] => True
  | e :: rest => Forall (fun e' => name_lt e.1 e'.1 = true) rest /\ ordered rest
  end.

Definition env_map (entries : Env) : gmap string Type_ := list_to_map entries.

(** The binding [find] points at. *)
Definition get (entries : Env) (name : string) : option Type_ :=
  find entries name ≫= fun it => snd <$> entries !! it.

Lemma env_map_cons e entries : env_map (e :: entries) = <[e.1 := e.2]> (env_map entries).
Proof. by destruct e. Qed.

Lemma env_map_above entries x : Forall (fun e => name_lt x e.1 = true) entries -> env_map entries !! x = None.
Proof.
  induction 1 as [|e entries He _ IH]; [done|]. rewrite env_map_cons, lookup_insert_ne; [done|].
  intros E. rewrite E in He. by rewrite name_lt_irrefl in He.
Qed.

Lemma ordered_above e entries x : ordered (e :: entries) -> name_lt x e.1 = true ->
  Forall (fun e' => name_lt x e'.1 = true) (e :: entries).
Proof.
  intros [H _] Hx. constructor; [done|]. eapply Forall_impl; [exact H|]. intros e' He. by apply name_lt_trans with e.1.
Qed.

Lemma find_cons e entries x : find (e :: entries) x =
  if name_lt e.1 x then S <$> find entries x else if bool_decide (e.1 = x) then Some 0%nat else None.
Proof.
  unfold find. cbn [lowerBound]. destruct (name_lt e.1 x); [|done].
  change ((e :: entries) !! S ?i) with (entries !! i). destruct (entries !! lowerBound entries x) as [e'|]; [|done].
  by destruct (bool_decide _).
Qed.

Lemma get_cons e entries x : get (e :: entries) x =
  if name_lt e.1 x then get entries x else if bool_decide (e.1 = x) then Some e.2 else None.
Proof.
  unfold get. rewrite find_cons. destruct (name_lt e.1 x); [|by destruct (bool_decide _)]. by destruct (find entries x).
Qed.

Lemma get_map entries x : ordered entries -> get entries x = env_map entries !! x.
Proof.
  induction entries as [|e entries IH]; [done|]. intros H. pose proof H as [_ Ho]. rewrite get_cons.
  destruct (names_cases e.1 x) as [E _ Hne|E E'|E E' Hne].
  - rewrite E, IH by done. by rewrite env_map_cons, lookup_insert_ne.
  - rewrite E', bool_decide_true by done. by rewrite env_map_cons, E, lookup_insert_eq.
  - rewrite E', bool_decide_false by done. symmetry. apply env_map_above. by apply ordered_above.
Qed.

(** [emplace] and [operator[]] put a missing name where it belongs. *)
Lemma ordered_put entries x t : ordered entries -> get entries x = None ->
  ordered (emplace_at entries (lowerBound entries x) x t) /\
  env_map (emplace_at entries (lowerBound entries x) x t) = <[x := t]> (env_map entries).
Proof.
  unfold emplace_at. induction entries as [|e entries IH]; [by intros|]. intros H Hx. pose proof H as [Hf Ho].
  rewrite get_cons in Hx. cbn [lowerBound]. destruct (names_cases e.1 x) as [E E' Hne|E E'|E E' Hne].
  - rewrite E in *. destruct (IH Ho Hx) as [IHo IHm]. cbn [take drop app]. split.
    + split; [|done]. rewrite Forall_app, Forall_cons. rewrite <- (take_drop (lowerBound entries x) entries) in Hf.
      by apply Forall_app in Hf as [? ?].
    + rewrite !env_map_cons, IHm. by rewrite insert_insert_ne.
  - by rewrite E', bool_decide_true in Hx.
  - rewrite E'. cbn [take drop app]. split; [|done]. split; [by apply ordered_above|done].
Qed.

Lemma find_put entries x t : find (emplace_at entries (lowerBound entries x) x t) x = Some (lowerBound entries x).
Proof.
  unfold emplace_at. induction entries as [|e entries IH].
  - cbn [lowerBound take drop app]. rewrite find_cons. cbn [fst]. by rewrite name_lt_irrefl, bool_decide_true.
  - cbn [lowerBound]. destruct (name_lt e.1 x) eqn:E; cbn [take drop app].
    + by rewrite find_cons, E, IH.
    + rewrite find_cons. cbn [fst]. by rewrite name_lt_irrefl, bool_decide_true.
Qed.

(** Every operation first asks whether the name is at its lower bound. *)
Lemma at_lowerBound {A} entries x (found absent : A) :
  match entries !! lowerBound entries x with
  | Some e => if bool_decide (e.1 = x) then found else absent
  | None => absent
  end = if find entries x then found else absent.
Proof. unfold find. destruct (entries !! _) as [e|]; [|done]. by destruct (bool_decide _). Qed.

Lemma find_lowerBound entries x it : find entries x = Some it -> it = lowerBound entries x.
Proof. unfold find. destruct (entries !! _) as [e|]; [|done]. destruct (bool_decide _); congruence. Qed.

Lemma find_get entries x it : find entries x = Some it -> get entries x <> None.
Proof.
  unfold get. intros H. rewrite H. unfold find in H. destruct (entries !! lowerBound entries x) as [e|] eqn:E; [|done].
  destruct (bool_decide _); [|done]. injection H as <-. cbn. by rewrite E.
Qed.

Lemma set_second_spec entries x it t : ordered entries -> find entries x = Some it ->
  ordered (set_second entries it t) /\ env_map (set_second entries it t) = <[x := t]> (env_map entries).
Proof.
  unfold set_second. revert it. induction entries as [|e entries IH]; [done|]. intros it H. pose proof H as [Hf Ho].
  rewrite find_cons. destruct (name_lt e.1 x) eqn:E.
  - intros (i & Hi & ->)%fmap_Some. destruct (IH i Ho Hi) as [IHo IHm]. cbn [alter list_alter]. split.
    + split; [|done]. apply Forall_alter; [done|]. by intros.
    + change (list_alter ?f i entries) with (alter f i entries). rewrite !env_map_cons, IHm, insert_insert_ne; [done|]. by apply name_lt_ne.
  - case_bool_decide as Ex; [|done]. intros [= <-]. split; [done|]. cbn [alter list_alter]. rewrite !env_map_cons.
    cbn [fst snd]. by rewrite Ex, insert_insert_eq.
Qed.

Lemma erase_spec entries x it : ordered entries -> find entries x = Some it ->
  ordered (delete it entries) /\ env_map (delete it entries) = delete x (env_map entries).
Proof.
  revert it. induction entries as [|e entries IH]; [done|]. intros it H. pose proof H as [Hf Ho].
  rewrite find_cons. destruct (name_lt e.1 x) eqn:E.
  - intros (i & Hi & ->)%fmap_Some. destruct (IH i Ho Hi) as [IHo IHm]. 
    change (delete (S i) (e :: entries)) with (e :: delete i entries). split.
    + split; [|done]. by apply Forall_delete.
    + rewrite !env_map_cons, IHm, delete_insert_ne; [done|].
      apply not_eq_sym; by apply name_lt_ne.
  - case_bool_decide as Ex; [|done]. intros [= <-]. split; [done|]. change (delete 0%nat (e :: entries)) with entries. rewrite env_map_cons, Ex.
    rewrite delete_insert_id; [done|]. apply env_map_above. by rewrite <- Ex.
Qed.

Lemma subscript_spec entries x entries' it : ordered entries -> subscript entries x = (entries', it) ->
  ordered entries' /\ find entries' x = Some it /\ env_map entries' = partial_alter (fun t => Some (default never t)) x (env_map entries).
Proof.
  intros Ho. unfold subscript. rewrite at_lowerBound. pose proof (get_map entries x Ho) as Hg.
  destruct (find entries x) as [i|] eqn:Ef; intros [= <- <-].
  - split; [done|]. split; [by rewrite Ef, (find_lowerBound _ _ _ Ef)|]. pose proof (find_get _ _ _ Ef) as Hn.
    destruct (get entries x) as [t|] eqn:Et; [|done]. apply map_eq. intros y. destruct (decide (x = y)) as [<-|].
    + by rewrite lookup_partial_alter_eq, <- Hg.
    + by rewrite lookup_partial_alter_ne.
  - assert (get entries x = None) as Hx by (unfold get; by rewrite Ef). rewrite Hx in Hg.
    destruct (ordered_put entries x never Ho Hx) as [Ho' ->]. split; [done|]. split; [by apply find_put|].
    apply partial_alter_ext. intros u Hu. rewrite Hu in Hg. by subst u.
Qed.

Lemma assign_name_spec entries x t : ordered entries ->
  ordered (assign_name entries x t) /\ env_map (assign_name entries x t) = <[x := t]> (env_map entries).
Proof.
  intros Ho. unfold assign_name. destruct (subscript entries x) as [entries' it] eqn:E.
  destruct (subscript_spec _ _ _ _ Ho E) as (Ho' & Hf & Hm). destruct (set_second_spec _ _ _ t Ho' Hf) as [? ->].
  split; [done|]. rewrite Hm. apply map_eq. intros y. destruct (decide (x = y)) as [<-|].
  - by rewrite !lookup_insert_eq.
  - by rewrite !lookup_insert_ne, lookup_partial_alter_ne.
Qed.

Lemma emplace_spec entries x t : ordered entries ->
  ordered (emplace entries x t).1 /\
  (emplace entries x t).2 = bool_decide (env_map entries !! x = None) /\
  env_map (emplace entries x t).1 = match env_map entries !! x with Some _ => env_map entries | None => <[x := t]> (env_map entries) end.
Proof.
  intros Ho. unfold emplace. rewrite at_lowerBound, <- (get_map entries x Ho).
  destruct (find entries x) as [i|] eqn:Ef.
  - pose proof (find_get _ _ _ Ef). by destruct (get entries x).
  - assert (get entries x = None) as Hx by (unfold get; by rewrite Ef). rewrite Hx. cbn.
    by destruct (ordered_put entries x t Ho Hx).
Qed.

(** *** The join of two environments *)

Lemma appendSorted_spec entries x t : ordered entries -> Forall (fun e => name_lt e.1 x = true) entries ->
  ordered (appendSorted entries x t) /\ env_map (appendSorted entries x t) = <[x := t]> (env_map entries).
Proof.
  unfold appendSorted. induction entries as [|e entries IH]; [by cbn|]. intros [Hf Ho] [Hx Ha]%Forall_cons.
  destruct (IH Ho Ha) as [IHo IHm]. cbn [app]. split.
  - split; [|done]. apply Forall_app. split; [done|by apply Forall_singleton].
  - rewrite !env_map_cons, IHm, insert_insert_ne; [done|]. by apply name_lt_ne.
Qed.

(** Every name of [a] is before every name of [b]. *)
Definition before (a b : Env) : Prop := Forall (fun e => Forall (fun e' => name_lt e.1 e'.1 = true) b) a.

Lemma before_tail a e b : before a (e :: b) -> before a b.
Proof. intros H. eapply Forall_impl; [exact H|]. by intros ? [? ?]%Forall_cons. Qed.

Lemma before_head a e b : before a (e :: b) -> Forall (fun o => name_lt o.1 e.1 = true) a.
Proof. intros H. eapply Forall_impl; [exact H|]. by intros ? [? ?]%Forall_cons. Qed.

Definition joined_types (t u : option Type_) : option Type_ :=
  match t, u with Some t, Some u => Some (join t u) | _, _ => None end.

Lemma joinEnv_from_spec a : forall b out, ordered a -> ordered b -> ordered out -> before out a -> before out b ->
  ordered (joinEnv_from a b out) /\
  forall x, env_map (joinEnv_from a b out) !! x =
    match joined_types (env_map a !! x) (env_map b !! x) with Some t => Some t | None => env_map out !! x end.
Proof.
  induction a as [|ea a IHa]; [by intros|]. intros b. induction b as [|eb b IHb]; intros out Ha Hb Ho Hoa Hob.
  { split; [done|]. intros x. change (env_map [] !! x) with (@None Type_). by destruct (env_map (ea :: a) !! x). }
  pose proof Ha as [Fa Ha']. pose proof Hb as [Fb Hb']. cbn [joinEnv_from].
  destruct (String.compare ea.1 eb.1) eqn:Ec.
  - apply String.compare_eq_iff in Ec. destruct (appendSorted_spec out ea.1 (join ea.2 eb.2) Ho) as [Ho' Hm]; [by eapply before_head|].
    destruct (IHa b (appendSorted out ea.1 (join ea.2 eb.2)) Ha' Hb' Ho') as [IHo IHm].
    { apply Forall_app. split; [by eapply before_tail|]. by apply Forall_singleton. }
    { apply Forall_app. split; [by eapply before_tail|]. apply Forall_singleton. cbn. by rewrite Ec. }
    split; [done|]. intros x. rewrite IHm, Hm, !env_map_cons, Ec. destruct (decide (eb.1 = x)) as [<-|Hx].
    + rewrite !lookup_insert_eq. rewrite Ec in Fa. by rewrite (env_map_above b), (env_map_above a).
    + by rewrite !lookup_insert_ne.
  - apply name_lt_iff in Ec. destruct (IHa (eb :: b) out Ha' Hb Ho) as [IHo IHm]; [by eapply before_tail|done|].
    split; [done|]. intros x. rewrite IHm, (env_map_cons ea). destruct (decide (ea.1 = x)) as [<-|Hx].
    + rewrite (env_map_above (eb :: b)), (env_map_above a), lookup_insert_eq; [done|done|by apply ordered_above].
    + by rewrite lookup_insert_ne.
  - assert (name_lt eb.1 ea.1 = true) as Hlt by (apply name_lt_iff; by rewrite String.compare_antisym, Ec).
    destruct (IHb out Ha Hb' Ho) as [IHo IHm]; [done|by eapply before_tail|].
    split; [exact IHo|]. intros x. cbn [joinEnv_from] in IHm. rewrite IHm, (env_map_cons eb). destruct (decide (eb.1 = x)) as [<-|Hx].
    + rewrite (env_map_above (ea :: a)), (env_map_above b), lookup_insert_eq; [done|done|by apply ordered_above].
    + by rewrite lookup_insert_ne.
Qed.

(** Two vectors in name order that stand for the same map are the same. *)
Lemma ordered_canonical a b : ordered a -> ordered b -> env_map a = env_map b -> a = b.
Proof.
  revert b. induction a as [|ea a IH]; intros [|eb b] Ha Hb E; [done|..].
  - pose proof (f_equal (lookup eb.1) E) as H. by rewrite env_map_cons, lookup_insert_eq in H.
  - pose proof (f_equal (lookup ea.1) E) as H. by rewrite env_map_cons, lookup_insert_eq in H.
  - assert (ea.1 = eb.1) as Ek.
    { destruct (names_cases ea.1 eb.1) as [H _ Hne|H _|H _ Hne]; [|done|].
      - pose proof (f_equal (lookup ea.1) E) as H'. rewrite (env_map_cons ea), lookup_insert_eq in H'.
        by rewrite (env_map_above (eb :: b)) in H' by (by apply ordered_above).
      - pose proof (f_equal (lookup eb.1) E) as H'. rewrite (env_map_cons eb), lookup_insert_eq in H'.
        by rewrite (env_map_above (ea :: a)) in H' by (by apply ordered_above). }
    destruct Ha as [Fa Ha], Hb as [Fb Hb]. destruct ea as [k t], eb as [k' u]. cbn in Ek, Fa, Fb. subst k'.
    pose proof (f_equal (lookup k) E) as H. rewrite !env_map_cons in H. cbn in H. rewrite !lookup_insert_eq in H.
    injection H as ->. f_equal. apply IH; [done..|].
    apply (f_equal (delete k)) in E. rewrite !env_map_cons in E. cbn in E.
    by rewrite !delete_insert_id in E by (by apply env_map_above).
Qed.

(** The environment is a finite map from names to types.  On vectors in name order
    [find], [count], [operator[]], assignment, [emplace] and [erase] are the map's
    operations and leave the vector in name order, [joinEnv] is the intersection of
    two maps with the types joined, and comparing the vectors compares the maps. *)
Theorem env_refines_map a b x t :
  ordered a -> ordered b ->
  get a x = env_map a !! x /\
  count a x = (if env_map a !! x then 1 else 0)%nat /\
  (ordered (assign_name a x t) /\ env_map (assign_name a x t) = <[x := t]> (env_map a)) /\
  (ordered (emplace a x t).1 /\ (emplace a x t).2 = bool_decide (env_map a !! x = None) /\
   env_map (emplace a x t).1 = match env_map a !! x with Some _ => env_map a | None => <[x := t]> (env_map a) end) /\
  (ordered (erase a x).1 /\ (erase a x).2 = count a x /\ env_map (erase a x).1 = delete x (env_map a)) /\
  (ordered (joinEnv a b) /\
   env_map (joinEnv a b) = intersection_with (fun t u => Some (join t u)) (env_map a) (env_map b)) /\
  (env_map a = env_map b <-> a = b).
Proof.
  intros Ha Hb. pose proof (get_map a x Ha) as Hg.
  assert (find a x = None -> env_map a !! x = None) as Hnone by (intros E; rewrite <- Hg; unfold get; by rewrite E).
  split; [done|]. split.
  { unfold count. rewrite <- Hg. destruct (find a x) eqn:E; [|unfold get; by rewrite E].
    pose proof (find_get _ _ _ E). by destruct (get a x). }
  split; [by apply assign_name_spec|]. split; [by apply emplace_spec|]. split.
  { unfold erase, count. destruct (find a x) as [it|] eqn:E; [by destruct (erase_spec a x it Ha E)|].
    cbn. by rewrite delete_id by auto. }
  split; [|split; [by apply ordered_canonical|by intros ->]].
  destruct (joinEnv_from_spec a b []) as [Ho Hm]; [done..|constructor|constructor|]. split; [done|].
  apply map_eq. intros y. rewrite lookup_intersection_with. unfold joinEnv. rewrite Hm.
  destruct (env_map a !! y), (env_map b !! y); done.
Qed.

Lemma env_refines_map_witness :
  joinEnv [("a", number); ("b", string_); ("d", null)]%string [("b", number); ("c", null); ("d", null)]%string =
    [("b", dynamic); ("d", null)]%string /\
  get (assign_name [("b", string_)]%string "a" number) "a" = Some number.
Proof.
  split; [vm_compute; reflexivity|].
  destruct (env_refines_map (assign_name [("b", string_)]%string "a" number) [] "a" null) as [-> _];
    [vm_compute; split; [repeat constructor|split; [constructor|exact I]]|exact I|].
  destruct (env_refines_map [("b", string_)]%string [] "a" number) as (_ & _ & [_ ->] & _);
    [vm_compute; split; [constructor|exact I]|exact I|]. reflexivity.
Defined.
