(* ===== verification/Refine.v ===== *)
(** * Types proven by a condition (src/src/types/relational_prover.cpp)

    [extractConditionRefinements] reads a branch condition for what it proves of the
    variables it tests, and [applyConditionRefinements] writes that into the
    environment; [stmtDefinitelyTerminates] finds the guards that leave early.  The
    conditions are evaluated below, as far as types can tell; the file shows that each
    refinement describes the variable's value on its edge, and that a list of
    statements said to terminate never runs off its end. *)
From stdpp Require Import gmap strings.
From S2P Require Import Prelude Types Operators Env.
Local Open Scope bool_scope.

(** ** Expressions *)

(** The nodes the prover tells apart (ast.h); [OtherExpr] is any of the rest. *)
Inductive Expr :=
  | NumberLit (bits : Z)
  | StringLit (value : string)
  | BoolLit (value : bool)
  | NullLit
  | UndefinedLit
  | Ident (name : string)
  | Unary (op : UnaryOp) (operand : Expr)
  | Binary (op : BinaryOp) (lhs rhs : Expr)
  | MemberAccess (object : Expr) (property : string) (optional isPrivate : bool)
  | Call (callee : Expr) (args : list Expr) (optional : bool)
  | OtherExpr.

Notation Refinements := (gmap string Type_).
Record ConditionRefinements := mkRefinements { whenTrue : Refinements; whenFalse : Refinements }.

Definition no_refinements : ConditionRefinements := mkRefinements ∅ ∅.

(** [lookupType] and [isUserBound] are [std::function]s, which may be empty. *)
Notation TypeLookup := (option (string -> Type_)).
Notation UserBindingPredicate := (option (string -> bool)).

Definition user_bound (isUserBound : UserBindingPredicate) (name : string) : bool :=
  match isUserBound with Some f => f name | None => false end.

Definition isUndefinedExpr (e : Expr) (isUserBound : UserBindingPredicate) : bool :=
  match e with
  | UndefinedLit => true
  | Ident name => bool_decide (name = "undefined"%string) && negb (user_bound isUserBound "undefined")
  | Unary Void _ => true
  | _ => false
  end.

Definition isNullLitExpr (e : Expr) : bool := match e with NullLit => true | _ => false end.

Definition typeofTagToType (tag : string) : option Type_ :=
  if bool_decide (tag = "number"%string) then Some number
  else if bool_decide (tag = "string"%string) then Some string_
  else if bool_decide (tag = "boolean"%string) then Some boolean
  else if bool_decide (tag = "undefined"%string) then Some undefined
  else if bool_decide (tag = "function"%string) then Some (function kNoFunctionIndex)
  else None.

Definition extractTypeofIdent (side : Expr) : option string :=
  match side with Unary TypeOf (Ident name) => Some name | _ => None end.

Definition mergeConsistentRefinement (dst : Refinements) (name : string) (t : Type_) : Refinements :=
  match dst !! name with
  | None => <[name := t]> dst
  | Some it =>
      if negb (type_eqb it t) && is_kind it Dynamic && negb (is_kind t Dynamic) then <[name := t]> dst else dst
  end.

(** The positive and the negative map of an equality, which are [whenTrue] and
    [whenFalse] or the other way round. *)
Definition Sides : Type := (Refinements * Refinements)%type.

Definition checkTypeofSide (lookupType : TypeLookup) (typeofSide litSide : Expr) (maps : Sides) : option Sides :=
  match extractTypeofIdent typeofSide, litSide with
  | Some id, StringLit tag =>
      match typeofTagToType tag with
      | None => None
      | Some mapped =>
          let posMap := <[id := mapped]> maps.1 in
          let negMap :=
            match lookupType with
            | None => maps.2
            | Some lookup =>
                if bool_decide (tag = "undefined"%string) then
                  if isDynamicNumOrUndef (lookup id) then <[id := number]> maps.2 else maps.2
                else if bool_decide (tag = "number"%string) then
                  if isDynamicNumOrUndef (lookup id) then <[id := undefined]> maps.2 else maps.2
                else maps.2
            end in
          Some (posMap, negMap)
      end
  | _, _ => None
  end.

Definition literal_type (e : Expr) : option Type_ :=
  match e with
  | NumberLit _ => Some number | StringLit _ => Some string_ | BoolLit _ => Some boolean | _ => None
  end.

Definition checkIdentVsExpr (lookupType : TypeLookup) (isUserBound : UserBindingPredicate) (isLoose : bool)
    (side other : Expr) (maps : Sides) : option Sides :=
  match side with
  | Ident id =>
      let cur := match lookupType with Some lookup => lookup id | None => dynamic end in
      if isUndefinedExpr other isUserBound then
        Some (if isLoose then maps.1 else <[id := undefined]> maps.1,
              if isDynamicNumOrUndef cur then <[id := number]> maps.2 else maps.2)
      else if isNullLitExpr other then
        Some (if isLoose then
                (maps.1, if isDynamicNumOrUndef cur then <[id := number]> maps.2 else maps.2)
              else (<[id := null]> maps.1, maps.2))
      else if isLoose then None
      else match literal_type other with Some t => Some (<[id := t]> maps.1, maps.2) | None => None end
  | _ => None
  end.

Definition extractEqualityRefinement (op : BinaryOp) (lhs rhs : Expr) (lookupType : TypeLookup)
    (isUserBound : UserBindingPredicate) (out : ConditionRefinements) : ConditionRefinements :=
  let isNegated := bool_decide (op = StrictNe) || bool_decide (op = Ne) in
  let isLoose := bool_decide (op = Eq) || bool_decide (op = Ne) in
  let maps := if isNegated then (whenFalse out, whenTrue out) else (whenTrue out, whenFalse out) in
  let maps' :=
    match checkTypeofSide lookupType lhs rhs maps with
    | Some m => m
    | None =>
        match checkTypeofSide lookupType rhs lhs maps with
        | Some m => m
        | None =>
            match checkIdentVsExpr lookupType isUserBound isLoose lhs rhs maps with
            | Some m => m
            | None => default maps (checkIdentVsExpr lookupType isUserBound isLoose rhs lhs maps)
            end
        end
    end in
  if isNegated then mkRefinements maps'.2 maps'.1 else mkRefinements maps'.1 maps'.2.

Definition extractCallRefinement (callee : Expr) (args : list Expr) (optional : bool)
    (isUserBound : UserBindingPredicate) (out : ConditionRefinements) : ConditionRefinements :=
  if optional then out
  else
    match args with
    | [Ident arg] =>
        match callee with
        | Ident _ => out
        | MemberAccess (Ident base) property memberOptional isPrivate =>
            if memberOptional || isPrivate || user_bound isUserBound base then out
            else if bool_decide (base = "Number"%string) then
              if bool_decide (property = "isFinite"%string) || bool_decide (property = "isInteger"%string) ||
                 bool_decide (property = "isSafeInteger"%string) || bool_decide (property = "isNaN"%string)
              then mkRefinements (<[arg := number]> (whenTrue out)) (whenFalse out) else out
            else if bool_decide (base = "Array"%string) then
              if bool_decide (property = "isArray"%string)
              then mkRefinements (<[arg := array]> (whenTrue out)) (whenFalse out) else out
            else out
        | _ => out
        end
    | _ => out
    end.

(** What holds when both of two conditions do: the loop over [rhs]. *)
Definition both (lhs rhs : Refinements) : Refinements :=
  map_fold (fun name t dst => mergeConsistentRefinement dst name t) lhs rhs.

(** What holds when either does: the loop over [lhs]. *)
Definition either (lhs rhs : Refinements) : Refinements :=
  map_fold (fun name tL out =>
    match rhs !! name with
    | Some tR => let joined := join tL tR in if is_kind joined Dynamic then out else <[name := joined]> out
    | None => out
    end) ∅ lhs.

Fixpoint extract (cond : Expr) (lookupType : TypeLookup) (isUserBound : UserBindingPredicate) : ConditionRefinements :=
  match cond with
  | Unary op operand =>
      if bool_decide (op = Not) then
        let inner := extract operand lookupType isUserBound in mkRefinements (whenFalse inner) (whenTrue inner)
      else no_refinements
  | Binary op l r =>
      match op with
      | StrictEq | StrictNe | Eq | Ne => extractEqualityRefinement op l r lookupType isUserBound no_refinements
      | LogicalAnd =>
          let lhs := extract l lookupType isUserBound in
          let rhs := extract r lookupType isUserBound in
          mkRefinements (both (whenTrue lhs) (whenTrue rhs)) (either (whenFalse lhs) (whenFalse rhs))
      | LogicalOr =>
          let lhs := extract l lookupType isUserBound in
          let rhs := extract r lookupType isUserBound in
          mkRefinements (either (whenTrue lhs) (whenTrue rhs)) (both (whenFalse lhs) (whenFalse rhs))
      | _ => no_refinements
      end
  | Call callee args optional => extractCallRefinement callee args optional isUserBound no_refinements
  | _ => no_refinements
  end.

Definition extractConditionRefinements (cond : option Expr) (lookupType : TypeLookup)
    (isUserBound : UserBindingPredicate) (mathPristine : bool) : ConditionRefinements :=
  match cond with None => no_refinements | Some e => extract e lookupType isUserBound end.

(** The environment and the original types of the bindings refined.  [isCell] may be
    empty too. *)
Definition apply_one (isCell : option (string -> bool)) (name : string) (refinedType : Type_)
    (s : Env * list (string * Type_)) : Env * list (string * Type_) :=
  if match isCell with Some f => f name | None => false end then s
  else
    match find s.1 name with
    | None => s
    | Some it =>
        match s.1 !! it with
        | Some e =>
            if is_kind e.2 Dynamic || isDynamicNumOrUndef e.2
            then (set_second s.1 it refinedType, s.2 ++ [(name, e.2)]) else s
        | None => s
        end
    end.

Definition applyConditionRefinements (env : Env) (refinements : Refinements) (isCell : option (string -> bool)) :
    Env * list (string * Type_) :=
  map_fold (apply_one isCell) (env, []) refinements.

(** ** Statements *)

Inductive Stmt :=
  | ReturnStmt | ThrowStmt | BreakStmt | ContinueStmt
  | BlockStmt (stmts : list (option Stmt))
  | IfStmt (condition : Expr) (thenBody elseBody : list (option Stmt))
  | OtherStmt.

Fixpoint stmtDefinitelyTerminates (stmt : Stmt) : bool :=
  let stmtListDefinitelyTerminates :=
    existsb (fun s => match s with Some s => stmtDefinitelyTerminates s | None => false end) in
  match stmt with
  | ReturnStmt | ThrowStmt | BreakStmt | ContinueStmt => true
  | BlockStmt stmts => stmtListDefinitelyTerminates stmts
  | IfStmt _ thenBody elseBody =>
      negb (bool_decide (thenBody = [])) && negb (bool_decide (elseBody = [])) &&
      stmtListDefinitelyTerminates thenBody && stmtListDefinitelyTerminates elseBody
  | OtherStmt => false
  end.

Definition stmtListDefinitelyTerminates (stmts : list (option Stmt)) : bool :=
  existsb (fun s => match s with Some s => stmtDefinitelyTerminates s | None => false end) stmts.

(** ** Evaluating a condition *)

(** A value, as far as a condition can tell.  [JProxy] is a proxy, which may be callable
    and may have an array behind it; a number or a BigInt is zero (or not a number) or
    not. *)
Inductive JSValue :=
  | JNumber (nonzero : bool) | JBool (b : bool) | JString (s : string) | JUndefined | JNull
  | JObject (cls : Z) (how : Provenance) | JFunction (identity : Z) | JTypedArray (elem : Z) | JArray (elems : Z)
  | JProxy (callable array_target : bool) | JOther (nonzero : bool).

Definition fact_of (v : JSValue) : Fact :=
  match v with
  | JNumber _ => FNumber | JBool _ => FBool | JString _ => FString | JUndefined => FUndefined | JNull => FNull
  | JObject cls how => FObject cls how | JFunction i => FFunction i | JTypedArray e => FTypedArray e
  | JArray e => FArray e | JProxy _ _ => FObject kNoShapeClass BuiltElsewhere | JOther _ => FOther
  end.

Definition is_proxy (v : JSValue) : bool := match v with JProxy _ _ => true | _ => false end.

Definition typeof_tag (v : JSValue) : string -> Prop :=
  match v with
  | JNumber _ => eq "number"%string | JBool _ => eq "boolean"%string | JString _ => eq "string"%string
  | JUndefined => eq "undefined"%string | JFunction _ | JProxy true _ => eq "function"%string
  | JNull | JObject _ _ | JTypedArray _ | JArray _ | JProxy false _ => eq "object"%string
  | JOther _ => fun s => s = "bigint"%string \/ s = "symbol"%string
  end.

Definition truthy (v : JSValue) : bool :=
  match v with
  | JUndefined | JNull => false
  | JBool c | JNumber c | JOther c => c
  | JString s => negb (bool_decide (s = ""%string))
  | _ => true
  end.

Definition strict_equal (v w : JSValue) (b : bool) : Prop :=
  match v, w with
  | JString s, JString s' => b = bool_decide (s = s')
  | JBool c, JBool c' => b = Bool.eqb c c'
  | JUndefined, JUndefined | JNull, JNull => b = true
  | _, _ => b = true -> fact_kind (fact_of v) = fact_kind (fact_of w)
  end.

Definition is_nullish (v : JSValue) : bool := match v with JUndefined | JNull => true | _ => false end.

Definition loose_equal (v w : JSValue) (b : bool) : Prop :=
  if is_nullish v || is_nullish w then b = is_nullish v && is_nullish w
  else match v, w with JString s, JString s' => b = bool_decide (s = s') | _, _ => True end.

Definition equality (op : BinaryOp) (v w : JSValue) (u : JSValue) : Prop :=
  exists b, match op with
    | StrictEq => strict_equal v w b /\ u = JBool b
    | StrictNe => strict_equal v w b /\ u = JBool (negb b)
    | Eq => loose_equal v w b /\ u = JBool b
    | _ => loose_equal v w b /\ u = JBool (negb b)
    end.

Section Conditions.
(** The store, the names captured by a closure, whose cells a call may write, and the
  names the program binds. *)
Context (store : string -> JSValue) (cell : string -> bool) (isUserBound : UserBindingPredicate).

(** [Number]'s predicates are true of numbers alone; [Array.isArray] sees through a
  proxy (runtime/proxy_reflect.cpp [rtIsArray]).  Any other call answers anything. *)
Definition call_answer (property base : string) (v : JSValue) (b : bool) : Prop :=
if user_bound isUserBound base then True
else if bool_decide (base = "Number"%string) then
  if bool_decide (property = "isFinite"%string) || bool_decide (property = "isInteger"%string) ||
     bool_decide (property = "isSafeInteger"%string) || bool_decide (property = "isNaN"%string)
  then b = true -> exists nonzero, v = JNumber nonzero else True
else if bool_decide (base = "Array"%string) && bool_decide (property = "isArray"%string) then
  b = match v with JArray _ => true | JProxy _ target => target | _ => false end
else True.

(** The values an expression that writes no variable but cells may have. *)
Fixpoint evaluates (e : Expr) (v : JSValue) : Prop :=
match e with
| NumberLit _ => exists nonzero, v = JNumber nonzero
| StringLit s => v = JString s
| BoolLit b => v = JBool b
| NullLit => v = JNull
| UndefinedLit => v = JUndefined
| Ident name => cell name = true \/ v = store name
| Unary Not a => exists w, evaluates a w /\ v = JBool (negb (truthy w))
| Unary TypeOf a => exists w s, evaluates a w /\ typeof_tag w s /\ v = JString s
| Unary Void _ => v = JUndefined
| Binary LogicalAnd l r => exists w, evaluates l w /\ (if truthy w then evaluates r v else v = w)
| Binary LogicalOr l r => exists w, evaluates l w /\ (if truthy w then v = w else evaluates r v)
| Binary ((StrictEq | StrictNe | Eq | Ne) as op) l r =>
    exists w w', evaluates l w /\ evaluates r w' /\ equality op w w' v
| Call (MemberAccess (Ident base) property false false) [a] false =>
    exists w, evaluates a w /\ call_answer property base w (truthy v)
| _ => True
end.

Definition holds (cond : Expr) (b : bool) : Prop := exists v, evaluates cond v /\ truthy v = b.

(** What a map of refinements says of the store, provided [H]. *)
Definition sound (H : Prop) (m : Refinements) : Prop := forall x t, m !! x = Some t ->
wf t /\ (H -> cell x = false -> is_proxy (store x) = false -> describes t (fact_of (store x)) = true).

Definition lookup_sound (lookupType : TypeLookup) : Prop := forall lookup x, lookupType = Some lookup ->
cell x = false -> describes (lookup x) (fact_of (store x)) = true.

Definition undefined_sound : Prop := user_bound isUserBound "undefined" = false ->
cell "undefined"%string = false /\ store "undefined"%string = JUndefined.

(** *** Maps *)

Lemma sound_empty H : sound H ∅.
Proof. intros x t. by rewrite lookup_empty. Qed.

Lemma sound_weaken (H H' : Prop) m : (H' -> H) -> sound H m -> sound H' m.
Proof. intros Himp Hm x t Hx. destruct (Hm x t Hx) as [Hw Hd]. auto. Qed.

Lemma sound_insert H m x t : sound H m -> wf t ->
(H -> cell x = false -> is_proxy (store x) = false -> describes t (fact_of (store x)) = true) -> sound H (<[x := t]> m).
Proof.
intros Hm Hw Hd y u. destruct (decide (x = y)) as [<-|].
- rewrite lookup_insert_eq. by intros [= <-].
- rewrite lookup_insert_ne by done. apply Hm.
Qed.

Lemma sound_merge H m x t : sound H m -> wf t ->
(H -> cell x = false -> is_proxy (store x) = false -> describes t (fact_of (store x)) = true) ->
sound H (mergeConsistentRefinement m x t).
Proof.
intros Hm Hw Hd. unfold mergeConsistentRefinement. destruct (m !! x); [destruct (_ && _); [|done]|]; by apply sound_insert.
Qed.

Lemma sound_both HL HR l r : sound HL l -> sound HR r -> sound (HL /\ HR) (both l r).
Proof.
intros Hl Hr. unfold both. revert Hr. apply (map_fold_weak_ind (fun d m => sound HR m -> sound (HL /\ HR) d)).
{ intros _. apply sound_weaken with HL; [by intros [? _]|done]. }
intros x t m d Hx IH Hm. destruct (Hm x t) as [Hw Hd]; [apply lookup_insert_eq|].
apply sound_merge; [|done|by intros [_ ?]; apply Hd].
apply IH. intros y u Hy. apply Hm. rewrite lookup_insert_ne; [done|]. congruence.
Qed.

Lemma either_lookup l r x t : either l r !! x = Some t -> exists tL tR, l !! x = Some tL /\ r !! x = Some tR /\ t = join tL tR.
Proof.
unfold either. revert t. apply (map_fold_weak_ind (fun (d : Refinements) m => forall t, d !! x = Some t ->
  exists tL tR, m !! x = Some tL /\ r !! x = Some tR /\ t = join tL tR)).
- intros t. by rewrite lookup_empty.
- intros y u m d Hy IH t Ht.
  assert (d !! x = Some t -> exists tL tR, <[y := u]> m !! x = Some tL /\ r !! x = Some tR /\ t = join tL tR) as Hold.
  { intros Hd. destruct (IH t Hd) as (tL & tR & HL & HR & E). exists tL, tR. rewrite lookup_insert_ne by congruence. done. }
  destruct (r !! y) as [tR|] eqn:Er; [|auto]. cbv zeta in Ht. destruct (is_kind (join u tR) Dynamic); [auto|].
  destruct (decide (y = x)) as [->|]; [|rewrite lookup_insert_ne in Ht by done; auto].
  rewrite lookup_insert_eq in Ht. injection Ht as <-. exists u, tR. by rewrite lookup_insert_eq.
Qed.

Lemma sound_either HL HR l r : sound HL l -> sound HR r -> sound (HL \/ HR) (either l r).
Proof.
intros Hl Hr x t (tL & tR & HL' & HR' & ->)%either_lookup.
destruct (Hl _ _ HL') as [WL DL], (Hr _ _ HR') as [WR DR].
split; [by apply join_wf|]. destruct (joined_upper tL tR _ WL WR (join_joined tL tR WL WR)) as [UL UR].
intros [H|H] Hc Hp; [by apply UL, DL|by apply UR, DR].
Qed.

(** *** Equalities *)

Definition equal_to (isLoose : bool) (v w : JSValue) (b : bool) : Prop :=
if isLoose then loose_equal v w b else strict_equal v w b.

Lemma equal_to_sym isLoose v w b : equal_to isLoose v w b -> equal_to isLoose w v b.
Proof.
destruct isLoose; cbn; unfold loose_equal, strict_equal.
- rewrite orb_comm, (andb_comm (is_nullish v)). destruct (_ || _); [done|].
  destruct v, w; try done. intros ->. by apply bool_decide_ext.
- destruct v, w; try (by intros H E; symmetry; auto); try done.
  + intros ->. by destruct b0, b1.
  + intros ->. by apply bool_decide_ext.
Qed.

Lemma strict_kind v w : strict_equal v w true -> fact_kind (fact_of v) = fact_kind (fact_of w).
Proof. unfold strict_equal. destruct v, w; auto. Qed.

Lemma equal_strings isLoose s s' b : equal_to isLoose (JString s) (JString s') b -> b = bool_decide (s = s').
Proof. by destruct isLoose. Qed.

Lemma numOrUndef_store lookupType lookup x : lookup_sound lookupType -> lookupType = Some lookup -> cell x = false ->
isDynamicNumOrUndef (lookup x) = true -> (exists nonzero, store x = JNumber nonzero) \/ store x = JUndefined.
Proof.
intros Hl E Hc H. pose proof (Hl _ x E Hc) as Hd. unfold isDynamicNumOrUndef in H. apply andb_prop in H as [Hk Hp].
apply is_kind_true in Hk. unfold describes in Hd. rewrite Hk, Hp in Hd. destruct (store x); try done; eauto.
Qed.

Lemma isUndefinedExpr_value c w : undefined_sound -> isUndefinedExpr c isUserBound = true -> evaluates c w -> w = JUndefined.
Proof.
intros undefined_ok Hu He. destruct c as [| | | | |x|[] ?| | | |]; try done. cbn in Hu, He.
apply andb_prop in Hu as [Hx%bool_decide_eq_true Hb%negb_true_iff]. subst x.
destruct (undefined_ok Hb) as [Hc Hs]. destruct He as [?| ->]; [congruence|done].
Qed.

(** The map pair of an equality whose outcome [b] entails [H b]. *)
Section Equality.
Context (lookupType : TypeLookup) (isLoose : bool) (a c : Expr) (H : bool -> Prop) (maps maps' : Sides).
Hypothesis (lookup_ok : lookup_sound lookupType) (undefined_ok : undefined_sound).
Hypothesis (H_values : forall b, H b -> exists w w', evaluates a w /\ evaluates c w' /\ equal_to isLoose w w' b).
Hypothesis (pos_sound : sound (H true) maps.1) (neg_sound : sound (H false) maps.2).

Lemma checkTypeofSide_sound : checkTypeofSide lookupType a c maps = Some maps' ->
  sound (H true) maps'.1 /\ sound (H false) maps'.2.
Proof.
  unfold checkTypeofSide, extractTypeofIdent. destruct a as [| | | | | |[] [| | | | |x| | | | |]| | | |]; try done.
  destruct c as [|tag| | | | | | | | |]; try done. destruct (typeofTagToType tag) as [t|] eqn:Et; [|done].
  intros [= <-]. cbn [fst snd].
  assert (forall b, H b -> cell x = true \/ exists s, typeof_tag (store x) s /\ b = bool_decide (s = tag)) as Hb.
  { intros b (w & w' & (u & s & Hu & Ht & ->) & -> & E%equal_strings)%H_values.
    destruct Hu as [Hc| ->]; [by left|right; by exists s]. }
  split.
  - apply sound_insert; [done| |].
    { unfold typeofTagToType in Et. repeat case_bool_decide; simplify_eq; apply wf_of_kind. }
    intros Hpos Hc Hp. destruct (Hb true Hpos) as [|(s & Hs & E)]; [congruence|]. symmetry in E. apply bool_decide_eq_true in E as ->.
    unfold typeofTagToType in Et. unfold typeof_tag in Hs.
    repeat case_bool_decide; simplify_eq; destruct (store x); try done; try (by destruct Hs); by destruct callable.
  - destruct lookupType as [lookup|]; [|done].
    repeat case_bool_decide; try done; (destruct (isDynamicNumOrUndef (lookup x)) eqn:En; [|done]);
      (apply sound_insert; [done|apply wf_of_kind|]); intros Hneg Hc Hp;
      (destruct (Hb false Hneg) as [|(s & Hs & E)]; [congruence|]);
      symmetry in E; apply bool_decide_eq_false in E;
      destruct (numOrUndef_store _ lookup x lookup_ok eq_refl Hc En) as [[nz Ex]|Ex]; rewrite Ex in *; try done;
      cbn in Hs; congruence.
Qed.

Lemma checkIdentVsExpr_sound : checkIdentVsExpr lookupType isUserBound isLoose a c maps = Some maps' ->
  sound (H true) maps'.1 /\ sound (H false) maps'.2.
Proof.
  unfold checkIdentVsExpr. destruct a as [| | | | |x| | | | |]; try done.
  set (cur := match lookupType with Some lookup => lookup x | None => dynamic end).
  assert (forall b, H b -> cell x = true \/ exists w, evaluates c w /\ equal_to isLoose (store x) w b) as Hb.
  { intros b (w & w' & [Hc| ->] & Hw' & E)%H_values; [by left|right; by exists w']. }
  assert (isDynamicNumOrUndef cur = true -> (forall w, evaluates c w -> is_nullish w = true) ->
    (isLoose = false -> forall w, evaluates c w -> w = JUndefined) -> sound (H false) (<[x := number]> maps.2)) as Hnum.
  { intros En Hnull Hstrict. apply sound_insert; [done|apply (wf_of_kind Number)|]. intros Hneg Hc Hp.
    destruct (Hb false Hneg) as [|(w & Hw & E)]; [congruence|].
    assert ((exists nonzero, store x = JNumber nonzero) \/ store x = JUndefined) as [[nz Ex]|Ex].
    { unfold cur in En. destruct lookupType as [lookup|] eqn:El; [|done]. by apply (numOrUndef_store lookupType lookup); rewrite ?El. }
    { by rewrite Ex. }
    exfalso. rewrite Ex in E. pose proof (Hnull w Hw) as Hn. destruct isLoose; cbn in E.
    - unfold loose_equal in E. by rewrite Hn in E.
    - by rewrite (Hstrict eq_refl w Hw) in E. }
  assert (forall t k, (forall w, evaluates c w -> fact_kind (fact_of w) = k) -> t = of_kind k ->
    (k <> Object /\ k <> Dynamic /\ k <> Never) -> isLoose = false -> sound (H true) (<[x := t]> maps.1)) as Hpos.
  { intros t k Hk -> Hko El. apply sound_insert; [done|apply wf_of_kind|]. intros Hp Hc Hpr.
    destruct (Hb true Hp) as [|(w & Hw & E)]; [congruence|]. rewrite El in E. apply strict_kind in E. rewrite (Hk w Hw) in E.
    rewrite <- E. unfold describes. cbn [of_kind kind payload]. destruct (store x); try done; naive_solver. }
  destruct (isUndefinedExpr c isUserBound) eqn:Eu.
  { intros [= <-]. cbn [fst snd]. assert (forall w, evaluates c w -> w = JUndefined) as Hw by (intros; by apply (isUndefinedExpr_value c)).
    split.
    - destruct isLoose eqn:El; [done|]. apply (Hpos _ Undefined); [intros w ->%Hw|..]; done.
    - destruct (isDynamicNumOrUndef cur) eqn:En; [|done]. apply Hnum; [done|by intros w ->%Hw|done]. }
  destruct (isNullLitExpr c) eqn:Enull.
  { assert (forall w, evaluates c w -> w = JNull) as Hw by (by destruct c). intros [= <-].
    destruct isLoose eqn:El; cbn [fst snd]; (split; [|]); try done.
    - destruct (isDynamicNumOrUndef cur) eqn:En; [|done]. apply Hnum; [done|by intros w ->%Hw|done].
    - apply (Hpos _ Null); [intros w ->%Hw|..]; done. }
  destruct isLoose; [done|]. destruct (literal_type c) as [t|] eqn:Et; [|done]. intros [= <-]. cbn [fst snd]. split; [|done].
  destruct c; try done; injection Et as <-;
    [apply (Hpos _ Number)|apply (Hpos _ String)|apply (Hpos _ Bool)]; try done; first [by intros w [? ->]|by intros w ->].
Qed.
End Equality.

(** *** Conditions *)

Definition edges (H : bool -> Prop) (out : ConditionRefinements) : Prop :=
  sound (H true) (whenTrue out) /\ sound (H false) (whenFalse out).

Lemma edges_none H : edges H no_refinements.
Proof. split; apply sound_empty. Qed.

Definition equality_op (op : BinaryOp) : bool := match op with StrictEq | StrictNe | Eq | Ne => true | _ => false end.

Lemma equality_values op l r b : equality_op op = true -> holds (Binary op l r) b ->
  exists w w', evaluates l w /\ evaluates r w' /\
    equal_to (bool_decide (op = Eq) || bool_decide (op = Ne)) w w' (xorb b (bool_decide (op = StrictNe) || bool_decide (op = Ne))).
Proof.
  intros Ho (v & He & Ht). assert (exists w w', evaluates l w /\ evaluates r w' /\ equality op w w' v) as (w & w' & Hw & Hw' & c & Hc).
  { by destruct op. }
  exists w, w'. split; [done|]. split; [done|].
  destruct op; try done; destruct Hc as [Hc ->]; cbn in Ht; subst b; rewrite ?xorb_false_r, ?xorb_true_r, ?negb_involutive; done.
Qed.

Lemma extractEqualityRefinement_sound lookupType op l r : lookup_sound lookupType -> undefined_sound ->
  equality_op op = true ->
  edges (holds (Binary op l r)) (extractEqualityRefinement op l r lookupType isUserBound no_refinements).
Proof.
  intros Hl Hu Ho. unfold extractEqualityRefinement, edges.
  set (neg := bool_decide (op = StrictNe) || bool_decide (op = Ne)).
  set (loose := bool_decide (op = Eq) || bool_decide (op = Ne)).
  set (H := fun b => holds (Binary op l r) (xorb b neg)).
  assert (forall b, H b -> exists w w', evaluates l w /\ evaluates r w' /\ equal_to loose w w' b) as HV.
  { intros b (w & w' & ? & ? & E)%(equality_values op l r); [|done]. exists w, w'. split; [done|]. split; [done|].
    fold neg in E. by rewrite xorb_assoc, xorb_nilpotent, xorb_false_r in E. }
  assert (forall b, H b -> exists w w', evaluates r w /\ evaluates l w' /\ equal_to loose w w' b) as HV'.
  { intros b (w & w' & ? & ? & E%equal_to_sym)%HV. by exists w', w. }
  match goal with |- context [if neg then mkRefinements (snd ?m) _ else _] => set (maps' := m) end.
  enough (sound (H true) maps'.1 /\ sound (H false) maps'.2) as [Hp Hn].
  { unfold H in Hp, Hn. destruct neg; cbn in Hp, Hn; by split. }
  assert (forall H', sound H' ∅) as Hempty by (intros; apply sound_empty).
  unfold maps'. cbn [no_refinements whenTrue whenFalse]. destruct neg; cbn [fst snd].
  all: destruct (checkTypeofSide _ l r _) as [m|] eqn:E1; [by apply (checkTypeofSide_sound lookupType loose l r H _ _ Hl HV) in E1|].
  all: destruct (checkTypeofSide _ r l _) as [m|] eqn:E2; [by apply (checkTypeofSide_sound lookupType loose r l H _ _ Hl HV') in E2|].
  all: destruct (checkIdentVsExpr _ _ _ l r _) as [m|] eqn:E3; [by apply (checkIdentVsExpr_sound lookupType loose l r H _ _ Hl Hu HV) in E3|].
  all: destruct (checkIdentVsExpr _ _ _ r l _) as [m|] eqn:E4; [by apply (checkIdentVsExpr_sound lookupType loose r l H _ _ Hl Hu HV') in E4|done].
Qed.

Lemma extractCallRefinement_sound callee args optional :
  edges (holds (Call callee args optional)) (extractCallRefinement callee args optional isUserBound no_refinements).
Proof.
  unfold extractCallRefinement. destruct optional; [apply edges_none|].
  destruct args as [|[| | | | |x| | | | |] [|]]; try apply edges_none.
  destruct callee as [| | | | | | | |[| | | | |base| | | | |] property mo pr| |]; try apply edges_none.
  destruct (mo || pr || user_bound isUserBound base) eqn:Eb; [apply edges_none|].
  apply orb_false_iff in Eb as [[-> ->]%orb_false_iff Eb].
  assert (forall t, wf t -> (forall w, call_answer property base w true ->
      is_proxy w = false -> describes t (fact_of w) = true) ->
    edges (holds (Call (MemberAccess (Ident base) property false false) [Ident x] false))
      (mkRefinements (<[x := t]> ∅) ∅)) as Hinsert.
  { intros t Hw Ht. split; [|apply sound_empty]. apply sound_insert; [apply sound_empty|done|].
    intros (v & (w & [Hc'| ->] & Ha) & Hv) Hc Hp; [congruence|]. rewrite Hv in Ha. by apply Ht. }
  destruct (bool_decide (base = "Number"%string)) eqn:En.
  - destruct (_ || _) eqn:Ep; [|apply edges_none]. apply Hinsert; [apply (wf_of_kind Number)|].
    intros w. unfold call_answer. rewrite Eb, En, Ep. intros E _. by destruct (E eq_refl) as [nz ->].
  - destruct (bool_decide (base = "Array"%string)) eqn:Ea; [|apply edges_none].
    destruct (bool_decide (property = "isArray"%string)) eqn:Ep; [|apply edges_none].
    apply Hinsert; [apply (wf_of_kind Array)|]. intros w. unfold call_answer. rewrite Eb, En, Ea, Ep. cbn [andb].
    by destruct w.
Qed.

Lemma holds_not a b : holds (Unary Not a) b -> holds a (negb b).
Proof. intros (v & (w & Hw & ->) & <-). cbn. rewrite negb_involutive. by exists w. Qed.

Lemma holds_and l r b : holds (Binary LogicalAnd l r) b ->
  if b then holds l true /\ holds r true else holds l false \/ holds r false.
Proof.
  intros (v & (w & Hw & Hv) & <-). destruct (truthy w) eqn:E.
  - destruct (truthy v) eqn:Ev; [split; [by exists w|by exists v]|right; by exists v].
  - subst v. rewrite E. left. by exists w.
Qed.

Lemma holds_or l r b : holds (Binary LogicalOr l r) b ->
  if b then holds l true \/ holds r true else holds l false /\ holds r false.
Proof.
  intros (v & (w & Hw & Hv) & <-). destruct (truthy w) eqn:E.
  - subst v. rewrite E. left. by exists w.
  - destruct (truthy v) eqn:Ev; [right; by exists v|split; [by exists w|by exists v]].
Qed.

Lemma extract_sound lookupType cond : lookup_sound lookupType -> undefined_sound ->
  edges (holds cond) (extract cond lookupType isUserBound).
Proof.
  intros Hl Hu. induction cond as [| | | | | |op a IH|op l IHl r IHr| |c _ args o|]; cbn [extract]; try apply edges_none.
  - destruct (bool_decide_reflect (op = Not)) as [->|]; [|apply edges_none]. destruct IH as [It If].
    split; [exact (sound_weaken _ _ _ (holds_not a true) If)|exact (sound_weaken _ _ _ (holds_not a false) It)].
  - destruct (equality_op op) eqn:Eo; [pose proof (extractEqualityRefinement_sound lookupType op l r Hl Hu Eo); by destruct op|].
    destruct IHl as [Lt Lf], IHr as [Rt Rf]. destruct op; try apply edges_none; try done.
    + split; [apply (sound_weaken _ _ _ (holds_and l r true)), sound_both|apply (sound_weaken _ _ _ (holds_and l r false)), sound_either]; done.
    + split; [apply (sound_weaken _ _ _ (holds_or l r true)), sound_either|apply (sound_weaken _ _ _ (holds_or l r false)), sound_both]; done.
  - apply extractCallRefinement_sound.
Qed.
End Conditions.

(** ** The environment *)

(** What [applyConditionRefinements] makes of a binding. *)
Definition refined (isCell : option (string -> bool)) (x : string) (t r : option Type_) : option Type_ :=
  match t, r with
  | Some t, Some r => if negb (match isCell with Some f => f x | None => false end) && is_kind t Dynamic then Some r else Some t
  | _, _ => t
  end.

Lemma find_at entries x it : find entries x = Some it -> exists e, entries !! it = Some e /\ get entries x = Some e.2.
Proof.
  intros H. unfold get. rewrite H. unfold find in H. destruct (entries !! lowerBound entries x) as [e|] eqn:E; [|done].
  destruct (bool_decide _); [|done]. injection H as <-. exists e. cbn. by rewrite E.
Qed.

Lemma isDynamicNumOrUndef_kind t : is_kind t Dynamic || isDynamicNumOrUndef t = is_kind t Dynamic.
Proof. unfold isDynamicNumOrUndef. by destruct (is_kind t Dynamic). Qed.

Lemma apply_one_spec isCell x r env saved : ordered env ->
  ordered (apply_one isCell x r (env, saved)).1 /\
  (forall y, env_map (apply_one isCell x r (env, saved)).1 !! y =
    if decide (x = y) then refined isCell x (env_map env !! x) (Some r) else env_map env !! y) /\
  (apply_one isCell x r (env, saved)).2 =
    saved ++ match env_map env !! x with
             | Some t => if negb (match isCell with Some f => f x | None => false end) && is_kind t Dynamic then [(x, t)] else []
             | None => [] end.
Proof.
  intros Ho. unfold apply_one, refined. set (c := match isCell with Some f => f x | None => false end).
  assert (forall o, o = env_map env !! x ->
    forall y, env_map env !! y = if decide (x = y) then o else env_map env !! y) as Hsame.
  { intros o -> y. by destruct (decide (x = y)) as [->|]. }
  rewrite <- !(get_map env x Ho). destruct c; cbn [negb andb fst snd].
  { split; [done|]. split; [|destruct (get env x); by rewrite app_nil_r]. apply Hsame. rewrite <- (get_map env x Ho).
    by destruct (get env x). }
  destruct (find env x) as [it|] eqn:Ef.
  2: { assert (get env x = None) as Hx by (unfold get; by rewrite Ef). rewrite Hx, app_nil_r. split; [done|]. split; [|done].
       apply Hsame. by rewrite <- (get_map env x Ho), Hx. }
  destruct (find_at _ _ _ Ef) as (e & He & Hg). rewrite He, Hg, isDynamicNumOrUndef_kind.
  destruct (is_kind e.2 Dynamic); cbn [fst snd].
  - destruct (set_second_spec env x it r Ho Ef) as [? Hm]. split; [done|]. split; [|done]. intros y. rewrite Hm.
    destruct (decide (x = y)) as [<-|]; [apply lookup_insert_eq|by apply lookup_insert_ne].
  - split; [done|]. split; [|by rewrite app_nil_r]. apply Hsame. by rewrite <- (get_map env x Ho), Hg.
Qed.

Lemma applyConditionRefinements_spec env m isCell : ordered env ->
  ordered (applyConditionRefinements env m isCell).1 /\
  (forall x, env_map (applyConditionRefinements env m isCell).1 !! x = refined isCell x (env_map env !! x) (m !! x)) /\
  (forall x t, List.In (x, t) (applyConditionRefinements env m isCell).2 <->
    env_map env !! x = Some t /\ is_Some (m !! x) /\
    negb (match isCell with Some f => f x | None => false end) && is_kind t Dynamic = true).
Proof.
  intros Ho. unfold applyConditionRefinements. revert m.
  apply (map_fold_weak_ind (fun (s : Env * list (string * Type_)) m => ordered s.1 /\
    (forall x, env_map s.1 !! x = refined isCell x (env_map env !! x) (m !! x)) /\
    (forall x t, List.In (x, t) s.2 <-> env_map env !! x = Some t /\ is_Some (m !! x) /\
      negb (match isCell with Some f => f x | None => false end) && is_kind t Dynamic = true))).
  - split; [done|]. split; [intros x; rewrite lookup_empty; cbn [fst]; by destruct (env_map env !! x)|].
    intros x t. rewrite lookup_empty. split; [done|]. by intros (_ & [] & _).
  - intros x r m [env' saved] Hx (Ho' & Hm & Hs). destruct (apply_one_spec isCell x r env' saved Ho') as (Ho'' & Hm' & Hs').
    assert (env_map env' !! x = env_map env !! x) as Hsame.
    { cbn in Hm. rewrite Hm, Hx. by destruct (env_map env !! x). }
    split; [done|]. split.
    + intros y. rewrite Hm'. destruct (decide (x = y)) as [<-|]; [by rewrite Hsame, lookup_insert_eq|].
      rewrite lookup_insert_ne by done. apply Hm.
    + intros y t. rewrite Hs', in_app_iff, Hs, Hsame. destruct (decide (x = y)) as [<-|Hne].
      * rewrite lookup_insert_eq, Hx. split.
        -- intros [(_ & [] & _)|Hin]; [done|]. destruct (env_map env !! x) as [u|]; [|done].
           destruct (_ && _) eqn:E; [|done]. destruct Hin as [[= <-]|[]]. by eauto.
        -- intros (-> & _ & ->). right. by left.
      * rewrite lookup_insert_ne by done. split; [|by left]. intros [?|Hin]; [done|].
        destruct (env_map env !! x); [|done]. destruct (_ && _); [|done]. destruct Hin as [[= ? ?]|[]]; done.
Qed.

(** What an environment says of the store. *)
Definition env_sound (store : string -> JSValue) (cell : string -> bool) (env : Env) : Prop :=
  ordered env /\ sound store cell True (env_map env).

Lemma apply_sound store cell env m : env_sound store cell env -> sound store cell True m ->
  env_sound store cell (applyConditionRefinements env m (Some cell)).1.
Proof.
  intros [Ho He] Hm. destruct (applyConditionRefinements_spec env m (Some cell) Ho) as (Ho' & Hx & _).
  split; [done|]. intros x t. rewrite Hx. unfold refined. destruct (env_map env !! x) as [u|] eqn:Eu; [|done].
  destruct (m !! x) as [r|] eqn:Er; [destruct (_ && _)|]; intros [= <-]; [by apply Hm|by apply He..].
Qed.

(** ** Statements that run off their end *)

Inductive completes : Stmt -> Prop :=
  | completes_block stmts : completes_list stmts -> completes (BlockStmt stmts)
  | completes_then c t e : completes_list t -> completes (IfStmt c t e)
  | completes_else c t e : completes_list e -> completes (IfStmt c t e)
  | completes_other : completes OtherStmt
with completes_list : list (option Stmt) -> Prop :=
  | completes_nil : completes_list []
  | completes_none rest : completes_list rest -> completes_list (None :: rest)
  | completes_cons s rest : completes s -> completes_list rest -> completes_list (Some s :: rest).

Scheme completes_mind := Minimality for completes Sort Prop
  with completes_list_mind := Minimality for completes_list Sort Prop.

Lemma completes_list_terminates stmts : completes_list stmts -> stmtListDefinitelyTerminates stmts = false.
Proof.
  apply (completes_list_mind (fun s => stmtDefinitelyTerminates s = false) (fun l => stmtListDefinitelyTerminates l = false)).
  - done.
  - intros c t e _ H. cbn. unfold stmtListDefinitelyTerminates in H. by rewrite H, andb_false_r.
  - intros c t e _ H. cbn. unfold stmtListDefinitelyTerminates in H. by rewrite H, andb_false_r.
  - done.
  - done.
  - done.
  - intros s rest _ Hs _ Hr. unfold stmtListDefinitelyTerminates in *. cbn. by rewrite Hs.
Qed.

(** C33: what a condition proves is true.  If the environment and the type lookup
    describe the store's variables, and a program that binds no variable [undefined] reads
    the undefined value from that name, then on the edge a condition takes the environment
    refined by that edge's map describes them still: for every variable that no closure
    captures and that holds no proxy, provided the condition itself writes no variable
    but captured ones.  The refined environment is in name order and differs on dynamic
    bindings of names the map has and nowhere else.  What is saved are exactly the bindings
    that were refined, each with the type it had: one is saved if and only if the map has
    its name, it is no captured variable and its type was dynamic.  A statement list said
    to terminate does not run off its end. *)
Theorem refinements_sound store cell isUserBound lookupType cond mathPristine env :
  lookup_sound store cell lookupType -> undefined_sound store cell isUserBound -> env_sound store cell env ->
  let refinements := extractConditionRefinements (Some cond) lookupType isUserBound mathPristine in
  (forall b, holds store cell isUserBound cond b ->
    env_sound store cell (applyConditionRefinements env (if b then whenTrue refinements else whenFalse refinements) (Some cell)).1) /\
  (forall m isCell,
    let (env', saved) := applyConditionRefinements env m isCell in
    ordered env' /\ (forall x, get env' x = refined isCell x (get env x) (m !! x)) /\
    (forall x t, List.In (x, t) saved <-> get env x = Some t /\ is_Some (m !! x) /\
       negb (match isCell with Some f => f x | None => false end) && is_kind t Dynamic = true)) /\
  (forall stmts, stmtListDefinitelyTerminates stmts = true -> ~ completes_list stmts).
Proof.
  intros Hl Hu He refinements. destruct (extract_sound store cell isUserBound lookupType cond Hl Hu) as [Ht Hf].
  split; [|split].
  - intros b Hb. apply apply_sound; [done|]. destruct b; [exact (sound_weaken _ _ _ _ _ (fun _ => Hb) Ht)|exact (sound_weaken _ _ _ _ _ (fun _ => Hb) Hf)].
  - intros m isCell. destruct He as [Ho _]. destruct (applyConditionRefinements_spec env m isCell Ho) as (Ho' & Hm & Hs).
    destruct (applyConditionRefinements env m isCell) as [env' saved]. split; [done|]. split.
    + intros x. rewrite !get_map by done. apply Hm.
    + intros x t. rewrite (get_map env x Ho). apply Hs.
  - intros stmts H Hc%completes_list_terminates. congruence.
Qed.

(** [typeof x === "number" && Array.isArray(y)] over a number and an array. *)
Lemma refinements_sound_witness :
  env_sound (fun x => if decide (x = "x"%string) then JNumber true else JArray 7) (fun _ => false)
    [("x", number); ("y", array)]%string.
Proof.
  set (store := fun x => if decide (x = "x"%string) then JNumber true else JArray 7).
  destruct (refinements_sound store (fun _ => false) (Some (fun x => bool_decide (x = "undefined"%string))) None
    (Binary LogicalAnd (Binary StrictEq (Unary TypeOf (Ident "x")) (StringLit "number"))
      (Call (MemberAccess (Ident "Array") "isArray" false false) [Ident "y"] false)) true
    [("x", dynamic); ("y", dynamic)]%string) as [H _].
  - intros lookup x E. discriminate E.
  - intros E. discriminate E.
  - split; [vm_compute; split; [repeat constructor|split; [constructor|exact I]]|].
    apply sound_insert; [apply sound_insert; [apply sound_empty|apply wf_of_kind|reflexivity]|apply wf_of_kind|reflexivity].
  - apply (H true). exists (JBool true). split; [|reflexivity]. exists (JBool true). split.
    + exists (JString "number"), (JString "number"). split; [|split; [reflexivity|exists true; split; reflexivity]].
      exists (JNumber true), "number"%string. split; [right; reflexivity|split; reflexivity].
    + exists (JArray 7). split; [right; reflexivity|reflexivity].
Defined.

(** The condition may assign the variable it has just tested: [x] is still a number on
    the true edge of [typeof x === "number" && (x = f())]. *)
Example assignment_still_refines :
  whenTrue (extractConditionRefinements
    (Some (Binary LogicalAnd (Binary StrictEq (Unary TypeOf (Ident "x")) (StringLit "number"))
      (Binary Assign (Ident "x") (Call (Ident "f") [] false)))) None None true) !! "x"%string = Some number.
Proof. reflexivity. Qed.

(** [Array.isArray] is true of a proxy with an array behind it, which is no dense array. *)
Example array_proxy_refined :
  let store := fun _ => JProxy false true in
  let cond := Call (MemberAccess (Ident "Array") "isArray" false false) [Ident "x"] false in
  holds store (fun _ => false) None cond true /\
  whenTrue (extractConditionRefinements (Some cond) None None true) !! "x"%string = Some array /\
  describes array (fact_of (store "x"%string)) = false.
Proof. split; [|by split]. exists (JBool true). split; [|done]. exists (JProxy false true). split; [by right|done]. Qed.
