(* ===== verification/IfFlow.v ===== *)
(** * The environment across an [if] (src/src/types/flow_construct.cpp, ifStmt)

    What [FlowAnalyzer::ifStmt] does to the environment: the refinements of the
    condition on each edge, the class a tag test suggests, the parameters compared with
    undefined, the propagation past a branch that leaves, and the join.  The walks of the
    two branches are parameters, with the contract that they answer for the statements
    they walk; the markers, the host bindings and the record of the merge are left out.
    The file shows that the environment after the statement describes the store again,
    and where it does not. *)
From stdpp Require Import gmap strings.
From S2P Require Import Prelude Types Operators Env Refine.
Local Open Scope bool_scope.

(** ** Reading the condition *)

Definition isUndef (side : Expr) : bool :=
  match side with
  | UndefinedLit => true
  | Ident name => bool_decide (name = "undefined"%string)
  | _ => false
  end.

(** The answer and [out] as it is left. *)
Fixpoint collectEqUndefinedNames (e : Expr) (out : list string) : bool * list string :=
  match e with
  | Binary LogicalAnd lhs rhs =>
      let (ok, out) := collectEqUndefinedNames lhs out in
      if ok then collectEqUndefinedNames rhs out else (false, out)
  | Binary (StrictEq | Eq) lhs rhs =>
      match lhs, rhs with
      | Ident l, _ =>
          if isUndef rhs then (true, out ++ [l])
          else match rhs with Ident r => if isUndef lhs then (true, out ++ [r]) else (false, out) | _ => (false, out) end
      | _, Ident r => if isUndef lhs then (true, out ++ [r]) else (false, out)
      | _, _ => (false, out)
      end
  | _ => (false, out)
  end.

(** The variable and the tag property, or two empty strings. *)
Definition extractIsTagGuard (e : Expr) : string * string :=
  let '(guardedName, m) :=
    match e with
    | Binary LogicalAnd (Ident lhsId) (MemberAccess o p opt priv) => (Some lhsId, Some (o, p, opt, priv))
    | MemberAccess o p opt priv => (None, Some (o, p, opt, priv))
    | _ => (None, None)
    end in
  match m with
  | None => (""%string, ""%string)
  | Some (object, property, optional, isPrivate) =>
      if optional || isPrivate || (String.length property <=? 2)%nat || negb (String.prefix "is" property)
      then (""%string, ""%string)
      else
        match object with
        | Ident objId =>
            match guardedName with
            | Some g => if bool_decide (g = objId) then (objId, property) else (""%string, ""%string)
            | None => (objId, property)
            end
        | _ => (""%string, ""%string)
        end
  end.

(** A class layout, as far as the tag test reads it. *)
Record ClassLayout := mkLayout { fieldTypes : gmap string Type_; layout_class : Z }.

(** The loop over the layouts: the last class with the tag, and how many have it. *)
Definition tag_matches (layouts : list ClassLayout) (tagProp : string) : option ClassLayout * Z :=
  fold_left (fun acc cl =>
    match fieldTypes cl !! tagProp with
    | Some t => if is_kind t Bool then (Some cl, acc.2 + 1) else acc
    | None => acc
    end) layouts (None, 0).

(** ** Writing the environment *)

(** [it->second = t] where [find] answers [it]. *)
Definition set_bound (env : Env) (name : string) (t : Type_) : Env :=
  match find env name with Some it => set_second env it t | None => env end.

Definition narrowTag (cell : string -> bool) (layouts : list ClassLayout) (i_condition : Expr)
    (thenBody : list (option Stmt)) (env : Env) : Env * string :=
  if bool_decide (thenBody = []) then (env, ""%string)
  else
    let (varName, tagProp) := extractIsTagGuard i_condition in
    if bool_decide (varName = ""%string) || cell varName then (env, ""%string)
    else
      match get env varName with
      | Some t =>
          if is_kind t Dynamic then
            match tag_matches layouts tagProp with
            | (Some cl, 1) => (set_bound env varName (objectIdentityOnly (layout_class cl)), varName)
            | _ => (env, ""%string)
            end
          else (env, ""%string)
      | None => (env, ""%string)
      end.

(** The loop over the names compared with undefined. *)
Definition defined_name (cell : string -> bool) (env : Env) (name : string) : Env :=
  if cell name then env
  else match get env name with
       | Some t => if isDynamicNumOrUndef t then set_bound env name number else env
       | None => env
       end.

(** The loop over the parameters; the names it changes come with it. *)
Definition defined_param (cell : string -> bool) (acc : Env * list string) (pName : string) : Env * list string :=
  if bool_decide (pName = ""%string) || cell pName then acc
  else match get acc.1 pName with
       | Some t => if isDynamicNumOrUndef t then (set_bound acc.1 pName number, acc.2 ++ [pName]) else acc
       | None => acc
       end.

Definition undefined_param (env : Env) (pName : string) : Env :=
  match get env pName with
  | Some t => if is_kind t Number then set_bound env pName dynamicNumOrUndef else env
  | None => env
  end.

(** [dst[name] = src[name]] for the names of [m] both have. *)
Definition propagate (m : Refinements) (src dst : Env) : Env :=
  map_fold (fun name _ dst =>
    match get src name with
    | Some t => match get dst name with Some _ => set_bound dst name t | None => dst end
    | None => dst
    end) dst m.

Section If.
Context (cell : string -> bool) (isUserBound : UserBindingPredicate) (lookup : string -> Type_) (mathPristine : bool).
Context (layouts : list ClassLayout) (paramNames : list string).
(** [scopedStmtList] on the environment. *)
Context (walk : list (option Stmt) -> Env -> Env).

(** The then branch: from the environment after the condition to the one after it. *)
Definition then_env (condition : Expr) (thenBody : list (option Stmt)) (whenTrue : Refinements) (entry : Env) : Env :=
  let (narrowed, narrowedTagVar) := narrowTag cell layouts condition thenBody entry in
  let env := (applyConditionRefinements narrowed whenTrue (Some cell)).1 in
  let thenEnv := if bool_decide (thenBody = []) then env else walk thenBody env in
  if bool_decide (narrowedTagVar = ""%string) then thenEnv
  else match get entry narrowedTagVar with Some t => set_bound thenEnv narrowedTagVar t | None => thenEnv end.

Definition else_env (condition : Expr) (elseBody : list (option Stmt)) (whenFalse : Refinements) (entry : Env) : Env :=
  let env := (applyConditionRefinements entry whenFalse (Some cell)).1 in
  let '(ok, undefNames) := collectEqUndefinedNames condition [] in
  let env := if ok then fold_left (defined_name cell) undefNames env else env in
  let '(env, extraParamNames) :=
    if ok && (2 <=? length undefNames)%nat && negb (bool_decide (elseBody = []))
    then fold_left (defined_param cell) paramNames (env, []) else (env, []) in
  let env := if bool_decide (elseBody = []) then env else walk elseBody env in
  fold_left undefined_param extraParamNames env.

Definition ifStmt (condition : Expr) (thenBody elseBody : list (option Stmt)) (entry : Env) : Env :=
  let condRefs := extractConditionRefinements (Some condition) (Some lookup) isUserBound mathPristine in
  let thenTerminates := stmtListDefinitelyTerminates thenBody in
  let elseTerminates := negb (bool_decide (elseBody = [])) && stmtListDefinitelyTerminates elseBody in
  let thenEnv := then_env condition thenBody (whenTrue condRefs) entry in
  let elseEnv := else_env condition elseBody (whenFalse condRefs) entry in
  if thenTerminates && negb elseTerminates then joinEnv (propagate (whenFalse condRefs) elseEnv thenEnv) elseEnv
  else if elseTerminates && negb thenTerminates then joinEnv thenEnv (propagate (whenTrue condRefs) thenEnv elseEnv)
  else joinEnv thenEnv elseEnv.
End If.

(** ** Soundness *)

(** The environment is in name order, its types are well formed and, provided [H], they
    describe the store. *)
Definition env_ok (H : Prop) (store : string -> JSValue) (cell : string -> bool) (env : Env) : Prop :=
  ordered env /\ sound store cell H (env_map env).

Section Bindings.
Context (store : string -> JSValue) (cell : string -> bool).

Lemma env_ok_weaken (H H' : Prop) env : (H' -> H) -> env_ok H store cell env -> env_ok H' store cell env.
Proof. intros Hi [Ho Hs]. split; [done|]. exact (sound_weaken _ _ _ _ _ Hi Hs). Qed.

Lemma env_ok_get H env x t : env_ok H store cell env -> get env x = Some t ->
  wf t /\ (H -> cell x = false -> is_proxy (store x) = false -> describes t (fact_of (store x)) = true).
Proof. intros [Ho Hs] Hg. apply (Hs x). by rewrite <- get_map. Qed.

Lemma set_bound_ok H env x t : env_ok H store cell env -> wf t ->
  (H -> cell x = false -> is_proxy (store x) = false -> describes t (fact_of (store x)) = true) ->
  env_ok H store cell (set_bound env x t).
Proof.
  intros [Ho Hs] Hw Hd. unfold set_bound. destruct (find env x) as [it|] eqn:E; [|done].
  destruct (set_second_spec env x it t Ho E) as [Ho' Hm].
  split; [done|]. rewrite Hm. by apply sound_insert.
Qed.

Lemma apply_ok H P env m : env_ok H store cell env -> sound store cell P m ->
  env_ok (H /\ P) store cell (applyConditionRefinements env m (Some cell)).1.
Proof.
  intros [Ho He] Hm. destruct (applyConditionRefinements_spec env m (Some cell) Ho) as (Ho' & Hx & _).
  split; [done|]. intros x t. rewrite Hx. unfold refined. destruct (env_map env !! x) as [u|] eqn:Eu; [|done].
  assert (forall r, (m !! x = Some r \/ u = r) -> wf r /\ (H /\ P -> cell x = false -> is_proxy (store x) = false ->
    describes r (fact_of (store x)) = true)) as Hr.
  { intros r [Hr| <-]; [destruct (Hm x r Hr)|destruct (He x u Eu)]; naive_solver. }
  destruct (m !! x) as [r|] eqn:Er; [destruct (_ && _)|]; intros [= <-]; auto.
Qed.

Lemma join_ok P Q a b : env_ok P store cell a -> env_ok Q store cell b -> env_ok (P \/ Q) store cell (joinEnv a b).
Proof.
  intros [Oa Sa] [Ob Sb]. destruct (joinEnv_from_spec a b []) as [Oj Hj]; [done..|constructor|constructor|].
  split; [done|]. intros x t. unfold joinEnv. rewrite Hj. destruct (env_map a !! x) as [u|] eqn:Ea; [|done].
  destruct (env_map b !! x) as [w|] eqn:Eb; [|done]. intros [= <-].
  destruct (Sa x u Ea) as [Wu Du], (Sb x w Eb) as [Ww Dw].
  destruct (joined_upper u w _ Wu Ww (join_joined u w Wu Ww)) as [Uu Uw].
  split; [by apply join_wf|]. intros [H|H] Hc Hp; [by apply Uu, Du|by apply Uw, Dw].
Qed.

Lemma propagate_ok P Q m src dst : env_ok P store cell src -> env_ok Q store cell dst ->
  env_ok False store cell (propagate m src dst).
Proof.
  intros Hs Hd. unfold propagate. apply (map_fold_weak_ind (fun r _ => env_ok False store cell r)).
  { by apply env_ok_weaken with Q. }
  intros x _ _ r _ IH. destruct (get src x) as [t|] eqn:Et; [|done]. destruct (get r x); [|done].
  apply set_bound_ok; [done| |done]. by apply (env_ok_get P src x).
Qed.

Lemma undefined_params_ok H names env : env_ok H store cell env -> env_ok H store cell (fold_left undefined_param names env).
Proof.
  revert env. induction names as [|x names IH]; intros env He; [done|]. cbn. apply IH. unfold undefined_param.
  destruct (get env x) as [t|] eqn:Et; [|done]. destruct (is_kind t Number) eqn:Ek; [|done].
  apply set_bound_ok; [done|apply wf_numOrUndef|]. intros Hh Hc Hp. destruct (env_ok_get H env x t He Et) as [Hw Hd].
  specialize (Hd Hh Hc Hp). apply (below_numOrUndef t Hw); [|done]. unfold numOrUndef. by rewrite Ek.
Qed.
End Bindings.

(** One comparison with undefined that fails leaves a number of number-or-undefined. *)
Lemma collect_grows e out : forall ok out', collectEqUndefinedNames e out = (ok, out') ->
  (length out <= length out')%nat /\ (ok = true -> length out < length out')%nat.
Proof.
  revert out. induction e as [| | | | | | |op l IHl r IHr| | |]; intros out ok out'; try (by intros [= <- <-]; split; [lia|]).
  assert (forall b y, (if b : bool then (true, out ++ [y]) else (false, out)) = (ok, out') ->
    (length out <= length out')%nat /\ (ok = true -> length out < length out')%nat) as Hone.
  { intros [] y [= <- <-]; [rewrite length_app; cbn; split; lia|split; [lia|done]]. }
  assert ((false, out) = (ok, out') -> (length out <= length out')%nat /\ (ok = true -> length out < length out')%nat) as Hnone.
  { intros [= <- <-]. split; [lia|done]. }
  destruct op; cbn [collectEqUndefinedNames]; try done.
  3: { destruct (collectEqUndefinedNames l out) as [ok1 out1] eqn:E1. destruct (IHl _ _ _ E1) as [L1 L1'].
       destruct ok1; [|intros [= <- <-]; by split]. intros E2. destruct (IHr _ _ _ E2). specialize (L1' eq_refl). split; lia. }
  all: destruct l; try done; try (by destruct r; try done; apply Hone); destruct (isUndef r); try (by apply (Hone true));
    destruct r; try done; apply Hone.
Qed.

Lemma collect_one e x : collectEqUndefinedNames e [] = (true, [x]) ->
  exists op l r, e = Binary op l r /\ (op = StrictEq \/ op = Eq) /\
    ((l = Ident x /\ isUndef r = true) \/ (r = Ident x /\ isUndef l = true)).
Proof.
  destruct e as [| | | | | | |op l r| | |]; try done. destruct op; cbn [collectEqUndefinedNames]; try done.
  3: { destruct (collectEqUndefinedNames l []) as [[] out] eqn:E1; [|done]. intros E2.
       destruct (collect_grows _ _ _ _ E1) as [_ G1], (collect_grows _ _ _ _ E2) as [_ G2].
       specialize (G1 eq_refl). specialize (G2 eq_refl). cbn in *. lia. }
  all: intros E; eexists _, l, r; (split; [reflexivity|split; [auto|]]).
  all: destruct l; try done; try (destruct r; try done);
    repeat match type of E with context [isUndef ?s] => destruct (isUndef s) eqn:? end; cbn [app] in E; simplify_eq; auto.
Qed.

(** What a walk promises of the statements it walks: it keeps an environment well
    formed, and where they run to their end the environment it answers describes the
    store they leave. *)
Class WalksBodies (cell : string -> bool) (walk : list (option Stmt) -> Env -> Env)
    (exec : list (option Stmt) -> (string -> JSValue) -> (string -> JSValue) -> Prop) := {
  exec_nil store store' : exec [] store store' -> store' = store;
  exec_completes body store store' : exec body store store' -> completes_list body;
  walk_typed body store store' env : env_ok False store cell env -> env_ok False store' cell (walk body env);
  walk_describes body store store' env : env_sound store cell env -> exec body store store' ->
    env_sound store' cell (walk body env);
}.

Section Soundness.
Context (cell : string -> bool) (isUserBound : UserBindingPredicate) (lookup : string -> Type_) (mathPristine : bool).
Context (layouts : list ClassLayout) (paramNames : list string).
Context (walk : list (option Stmt) -> Env -> Env)
  (exec : list (option Stmt) -> (string -> JSValue) -> (string -> JSValue) -> Prop) `{!WalksBodies cell walk exec}.
Context (store store' : string -> JSValue).

Lemma body_ok H body env : env_ok H store cell env ->
  env_ok (H /\ exec body store store') store' cell (if bool_decide (body = []) then env else walk body env).
Proof.
  intros He. case_bool_decide as Eb.
  - subst body. destruct He as [Ho Hs]. split; [done|]. intros x t Hx. destruct (Hs x t Hx) as [Hw Hd].
    split; [done|]. intros [Hh E%exec_nil]. subst store'. auto.
  - assert (env_ok False store' cell (walk body env)) as [Ho Ht].
    { apply walk_typed with store. by apply env_ok_weaken with H. }
    split; [done|]. intros x t Hx. destruct (Ht x t Hx) as [Hw _]. split; [done|]. intros [Hh Hex].
    destruct (walk_describes body store store' env) as [_ Hs]; [by apply env_ok_weaken with H|done|].
    by apply (Hs x t Hx).
Qed.

Lemma undef_false op l r x : undefined_sound store cell isUserBound -> user_bound isUserBound "undefined" = false ->
  op = StrictEq \/ op = Eq -> (l = Ident x /\ isUndef r = true) \/ (r = Ident x /\ isUndef l = true) ->
  holds store cell isUserBound (Binary op l r) false -> cell x = true \/ store x <> JUndefined.
Proof.
  intros Hu Hb Hop Hs (w & w' & Hw & Hw' & E)%equality_values; [|by destruct Hop; subst].
  assert (forall e v, isUndef e = true -> evaluates store cell isUserBound e v -> v = JUndefined) as Hval.
  { intros e v He. apply isUndefinedExpr_value; [done|]. destruct e; try done. cbn in *. by rewrite He, Hb. }
  assert (equal_to (bool_decide (op = Eq)) w w' false) as E'.
  { by destruct Hop; subst op. }
  destruct Hs as [[-> Hr]|[-> Hr]]; [apply (Hval r w' Hr) in Hw'; subst w'; rename Hw into Hx|apply (Hval l w Hr) in Hw; subst w; rename Hw' into Hx; apply equal_to_sym in E'].
  all: destruct Hx as [|Hx]; [by left|right]; rewrite <- Hx; intros ->; by destruct (bool_decide _).
Qed.

Lemma defined_name_ok H env x : env_ok H store cell env -> (H -> cell x = true \/ store x <> JUndefined) ->
  env_ok H store cell (defined_name cell env x).
Proof.
  intros He Hx. unfold defined_name. destruct (cell x) eqn:Hc; [done|]. destruct (get env x) as [t|] eqn:Et; [|done].
  destruct (isDynamicNumOrUndef t) eqn:Ed; [|done]. apply set_bound_ok; [done|apply (wf_of_kind Number)|].
  intros Hh _ Hp. destruct (env_ok_get _ _ H env x t He Et) as [Hw Hd]. specialize (Hd Hh Hc Hp).
  apply (isDynamicNumOrUndef_iff t Hw) in Ed. subst t. destruct (Hx Hh) as [|Hn]; [done|].
  destruct (store x); done.
Qed.

(** One comparison with undefined at most, and no shadowed [undefined]. *)
Definition one_undefined (condition : Expr) : Prop :=
  user_bound isUserBound "undefined" = false /\ (length (collectEqUndefinedNames condition []).2 <= 1)%nat.

Lemma else_ok condition body m entry : undefined_sound store cell isUserBound -> one_undefined condition ->
  env_ok True store cell entry -> sound store cell (holds store cell isUserBound condition false) m ->
  env_ok (holds store cell isUserBound condition false /\ exec body store store') store' cell
    (else_env cell paramNames walk condition body m entry).
Proof.
  intros Hu [Hb Hone] He Hm. unfold else_env.
  assert (env_ok (holds store cell isUserBound condition false) store cell (applyConditionRefinements entry m (Some cell)).1) as Ha.
  { eapply env_ok_weaken; [|by apply apply_ok; [exact He|exact Hm]]. by split. }
  destruct (collectEqUndefinedNames condition []) as [ok names] eqn:Ec. cbn [snd] in Hone.
  rewrite (proj2 (Nat.leb_gt 2 (length names))) by lia. rewrite andb_false_r. cbn [andb fold_left].
  apply body_ok. destruct ok; [|done]. destruct (collect_grows _ _ _ _ Ec) as [_ Hlen]. specialize (Hlen eq_refl).
  destruct names as [|x [|]]; cbn in Hlen, Hone; try lia. cbn [fold_left]. apply defined_name_ok; [done|].
  destruct (collect_one _ _ Ec) as (op & l & r & -> & Hop & Hs). by apply undef_false.
Qed.

Lemma then_ok condition body m entry : (narrowTag cell layouts condition body entry) = (entry, ""%string) ->
  env_ok True store cell entry -> sound store cell (holds store cell isUserBound condition true) m ->
  env_ok (holds store cell isUserBound condition true /\ exec body store store') store' cell
    (then_env cell layouts walk condition body m entry).
Proof.
  intros Hn He Hm. unfold then_env. rewrite Hn, bool_decide_true by done. apply body_ok.
  eapply env_ok_weaken; [|by apply apply_ok; [exact He|exact Hm]]. by split.
Qed.

(** The condition holds and the then branch runs to its end, or it does not and the
    else branch does. *)
Definition if_runs (condition : Expr) (thenBody elseBody : list (option Stmt)) : Prop :=
  (holds store cell isUserBound condition true /\ exec thenBody store store') \/
  (holds store cell isUserBound condition false /\ exec elseBody store store').

Lemma terminates_not_run body P : stmtListDefinitelyTerminates body = true -> ~ (P /\ exec body store store').
Proof. intros Ht [_ H%exec_completes%completes_list_terminates]. congruence. Qed.

(** C32: after an [if] the environment describes the store again.  Given an environment
    and a lookup that describe the store after the condition, and walks that keep
    their contract, the environment [ifStmt] leaves describes the store at the end of
    whichever branch ran, a branch that leaves early contributing nothing: provided
    the condition suggests no class by a tag and compares at most one variable with
    undefined, and the program binds no variable of the name [undefined].  Where it does
    bind one, [shadowed_undefined_refined] shows the environment wrong. *)
Theorem ifStmt_sound condition thenBody elseBody entry :
  lookup_sound store cell (Some lookup) -> undefined_sound store cell isUserBound ->
  one_undefined condition -> narrowTag cell layouts condition thenBody entry = (entry, ""%string) ->
  env_sound store cell entry ->
  if_runs condition thenBody elseBody ->
  env_sound store' cell (ifStmt cell isUserBound lookup mathPristine layouts paramNames walk condition thenBody elseBody entry).
Proof.
  intros Hl Hu Hone Hn He Hrun. destruct (extract_sound store cell isUserBound (Some lookup) condition Hl Hu) as [St Sf].
  unfold ifStmt. cbn [extractConditionRefinements].
  pose proof (then_ok condition thenBody _ entry Hn He St) as HT. pose proof (else_ok condition elseBody _ entry Hu Hone He Sf) as HF.
  match goal with |- context [stmtListDefinitelyTerminates thenBody && negb ?e] => set (elseTerminates := e) end.
  destruct (stmtListDefinitelyTerminates thenBody && negb elseTerminates) eqn:E1.
  { apply andb_prop in E1 as [E1 _]. eapply env_ok_weaken; [|by apply join_ok; [eapply propagate_ok; [exact HF|exact HT]|exact HF]].
    intros _. destruct Hrun as [Hr|Hr]; [by apply terminates_not_run in Hr|by right]. }
  destruct (elseTerminates && negb _) eqn:E2.
  { apply andb_prop in E2 as [[_ E2]%andb_prop _].
    eapply env_ok_weaken; [|by apply join_ok; [exact HT|eapply propagate_ok; [exact HT|exact HF]]].
    intros _. destruct Hrun as [Hr|Hr]; [by left|by apply terminates_not_run in Hr]. }
  eapply env_ok_weaken; [|by apply join_ok; [exact HT|exact HF]]. by intros _.
Qed.
End Soundness.

(** A walk over statements that change nothing. *)
#[local] Instance idle_walk cell : WalksBodies cell (fun _ env => env) (fun body store store' => completes_list body /\ store' = store).
Proof.
  split; [by intros ?? [_ ->]|by intros ??? [? _]| |by intros ???? ? [_ ->]].
  intros _ store store' env [Ho Hs]. split; [done|]. intros x t Hx. destruct (Hs x t Hx). by split.
Defined.

Definition sample_store (x : string) : JSValue := if decide (x = "undefined"%string) then JUndefined else JNumber true.

(** [if (x === undefined) return;] leaves [x] a number. *)
Lemma ifStmt_sound_witness :
  let env := ifStmt (fun _ => false) None (fun _ => dynamicNumOrUndef) true [] [] (fun _ env => env)
    (Binary StrictEq (Ident "x") (Ident "undefined")) [Some ReturnStmt] [] [("x", dynamicNumOrUndef)]%string in
  env = [("x", number)]%string /\ env_sound sample_store (fun _ => false) env.
Proof.
  split; [vm_compute; reflexivity|].
  apply (ifStmt_sound (fun _ => false) None (fun _ => dynamicNumOrUndef) true [] [] (fun _ env => env)
    (fun body store store' => completes_list body /\ store' = store) sample_store sample_store).
  - intros lookup x E _. injection E as <-. unfold sample_store. destruct (decide _); reflexivity.
  - intros _. split; reflexivity.
  - split; [reflexivity|]. vm_compute. constructor.
  - reflexivity.
  - split; [split; [constructor|exact I]|]. apply sound_insert; [apply sound_empty|apply wf_numOrUndef|reflexivity].
  - right. split; [|split; [constructor|reflexivity]]. exists (JBool false). split; [|reflexivity].
    exists (JNumber true), JUndefined. split; [right; reflexivity|]. split; [right; reflexivity|].
    exists false. split; [intros E; discriminate E|reflexivity].
Defined.

(** Two comparisons with undefined that do not both hold: the else branch takes both
    variables, and every other parameter, to be numbers, and one of them is not. *)
Example undefined_pair_refined :
  let store := fun x => if decide (x = "a"%string) then JNumber true else JUndefined in
  let condition := Binary LogicalAnd (Binary StrictEq (Ident "a") UndefinedLit) (Binary StrictEq (Ident "b") UndefinedLit) in
  let entry := [("a", dynamicNumOrUndef); ("b", dynamicNumOrUndef); ("c", dynamicNumOrUndef)]%string in
  let seen := fun (_ : list (option Stmt)) (env : Env) => [("seen", default never (get env "b")); ("seen_c", default never (get env "c"))]%string in
  holds store (fun _ => false) None condition false /\
  else_env (fun _ => false) ["a"; "b"; "c"]%string seen condition [Some OtherStmt] ∅ entry =
    [("seen", number); ("seen_c", number)]%string /\
  describes number (fact_of (store "b"%string)) = false.
Proof.
  split; [|split; [vm_compute; reflexivity|reflexivity]]. exists (JBool false). split; [|done].
  exists (JBool false). split; [|done]. exists (JNumber true), JUndefined. split; [by right|]. split; [done|].
  by exists false.
Qed.

(** The name [undefined] bound by the program: [if (x === undefined) x = 1;] leaves [x] a
    number, though the comparison is with the variable's 5 and [x] stays undefined. *)
Example shadowed_undefined_refined :
  let store := fun x => if decide (x = "x"%string) then JUndefined else JNumber true in
  let condition := Binary StrictEq (Ident "x") (Ident "undefined") in
  let walk := fun (_ : list (option Stmt)) (env : Env) => set_bound env "x" number in
  let lookup := fun x => if decide (x = "x"%string) then dynamicNumOrUndef else number in
  let entry := [("undefined", number); ("x", dynamicNumOrUndef)]%string in
  holds store (fun _ => false) (Some (fun _ => true)) condition false /\
  env_sound store (fun _ => false) entry /\
  get (ifStmt (fun _ => false) (Some (fun _ => true)) lookup true [] [] walk condition [Some OtherStmt] [] entry) "x" = Some number /\
  describes number (fact_of (store "x"%string)) = false.
Proof.
  split; [|split; [|split; [vm_compute; reflexivity|reflexivity]]].
  - exists (JBool false). split; [|done]. exists JUndefined, (JNumber true). split; [by right|]. split; [by right|]. by exists false.
  - split; [vm_compute; repeat constructor|]. apply sound_insert; [apply sound_insert; [apply sound_empty|apply wf_numOrUndef|reflexivity]|apply (wf_of_kind Number)|reflexivity].
Qed.
