(* ===== verification/RegexClass.v ===== *)
(** * Characters, escapes and classes of a pattern (src/src/regex/parser_class.cpp,
      the escape readers of parser.cpp, parser_internal.h)

    The cursor of [PatternParser] as a state monad with refusals, the character tests,
    the escapes, and both grammars of a character class: the flat one, and the [v]
    flag's set expressions with nesting, [--], [&&] and string members.  What a
    property escape names is a parameter: the tables of unicode.cpp are not modelled. *)
From stdpp Require Import pretty sorting.
From S2P Require Import Prelude CaseFold RegexChars RegexMatch.
Local Open Scope bool_scope.
Local Open Scope list_scope.

(** ** Characters of the pattern (parser_internal.h) *)

Definition between (l c h : Z) : bool := (l <=? c) && (c <=? h).

Definition isDecimalDigit (c : Z) : bool := between 48 c 57.
Definition isLetter (c : Z) : bool := between 97 c 122 || between 65 c 90.
Definition isIdentifierStart (c : Z) : bool := isLetter c || (c =? 95) || (c =? 36).
Definition isIdentifierPart (c : Z) : bool := isIdentifierStart c || isDecimalDigit c.
Definition isAlphanumeric (c : Z) : bool := isLetter c || isDecimalDigit c.
Definition isPropertyCharacter (c : Z) : bool := isLetter c || isDecimalDigit c || (c =? 95).

(** [^ $ \ . * + ? ( ) [ ] { } |] *)
Definition isSyntaxCharacter (c : Z) : bool :=
  existsb (Z.eqb c) [94; 36; 92; 46; 42; 43; 63; 40; 41; 91; 93; 123; 125; 124].
(** [( ) [ ] { } / - \ |] *)
Definition isClassSetSyntaxCharacter (c : Z) : bool :=
  existsb (Z.eqb c) [40; 41; 91; 93; 123; 125; 47; 45; 92; 124].
(** [& - ! # % , : ; < = > @ ` ~] *)
Definition isClassSetReservedPunctuator (c : Z) : bool :=
  existsb (Z.eqb c) [38; 45; 33; 35; 37; 44; 58; 59; 60; 61; 62; 64; 96; 126].
(** [& ! # $ % * + , . : ; < = > ? @ ^ ` ~] *)
Definition isClassSetDoubledPunctuator (c : Z) : bool :=
  existsb (Z.eqb c) [38; 33; 35; 36; 37; 42; 43; 44; 46; 58; 59; 60; 61; 62; 63; 64; 94; 96; 126].

Definition hexDigitValue (c : Z) : option Z :=
  if between 48 c 57 then Some (c - 48)
  else if between 97 c 102 then Some (c - 97 + 10)
  else if between 65 c 70 then Some (c - 65 + 10)
  else None.

(** [std::string(1, static_cast<char>(c))] and [asciiOf]. *)
Definition asText (c : Z) : string := String (ascii_of_N (Z.to_N (c mod 256))) EmptyString.
Definition asciiOf (units : list Z) : string := foldr (fun u s => (asText u ++ s)%string) EmptyString units.

(** The four hexadecimal digits of a diagnostic. *)
Definition hex_digit (d : Z) : string := default EmptyString
  (["0"; "1"; "2"; "3"; "4"; "5"; "6"; "7"; "8"; "9"; "A"; "B"; "C"; "D"; "E"; "F"]%string !! Z.to_nat d).
Definition hex4 (c : Z) : string :=
  (hex_digit (Z.land (Z.shiftr c 12) 0xF) ++ hex_digit (Z.land (Z.shiftr c 8) 0xF) ++
   hex_digit (Z.land (Z.shiftr c 4) 0xF) ++ hex_digit (Z.land c 0xF))%string.

(** ** The cursor *)

Definition kParserMaxDepth : nat := 256.

(** [pos_], [captureCounter_] and [depth_]: the counters are bounded by the pattern's
    length and by the depth limit, far from their width. *)
Record PState := mkPState { at_pos : nat; captures_seen : nat; nesting : nat }.

(** The message of a refusal with the index [describe] adds to it.  The first refusal is
    the one reported: every caller of a reader that refuses returns at once. *)
Inductive Parsed (A : Type) :=
  | Refused (what : string) (index : nat)
  | Read (a : A) (st : PState).
Arguments Refused {A}.
Arguments Read {A}.

(** [None] is a computation out of fuel. *)
Definition P (A : Type) : Type := PState -> option (Parsed A).

Definition pret {A} (a : A) : P A := fun st => Some (Read a st).
Definition pbind {A B} (m : P A) (f : A -> P B) : P B := fun st =>
  match m st with
  | None => None
  | Some (Refused what index) => Some (Refused what index)
  | Some (Read a st) => f a st
  end.
Definition pstuck {A} : P A := fun _ => None.

Declare Scope parser_scope.
Delimit Scope parser_scope with parser.
Notation "'let!' x := m 'in' k" := (pbind m (fun x => k))
  (at level 10, x name, m at level 100, k at level 200) : parser_scope.
Notation "m ;; k" := (pbind m (fun _ => k)) (at level 100, right associativity) : parser_scope.
Local Open Scope parser_scope.

(** [fail] and [refuse] *)
Definition refuse {A} (what : string) : P A := fun st => Some (Refused what (at_pos st)).

Definition advance (n : nat) : P unit := fun st => Some (Read tt (mkPState (at_pos st + n) (captures_seen st) (nesting st))).

(** [++captureCounter_] *)
Definition next_capture : P nat := fun st =>
  Some (Read (S (captures_seen st)) (mkPState (at_pos st) (S (captures_seen st)) (nesting st))).
Definition capture_counter : P nat := fun st => Some (Read (captures_seen st) st).

(** The depth guard around a reader. *)
Definition guarded {A} (m : P A) : P A := fun st =>
  if (kParserMaxDepth <=? nesting st)%nat then refuse "regular expression is nested too deeply" st
  else
    match m (mkPState (at_pos st) (captures_seen st) (S (nesting st))) with
    | Some (Read a st') => Some (Read a (mkPState (at_pos st') (captures_seen st') (nesting st' - 1)))
    | r => r
    end.

Fixpoint take_while (p : Z -> bool) (l : list Z) : list Z :=
  match l with u :: l => if p u then u :: take_while p l else [] | [] => [] end.

Section Reader.
Context (src : list Z) (fl : Flags).
(** [unicodePropertySet]: the set of a property or the reason there is none. *)
Context (unicodePropertySet : string -> string -> list Range + string).

Definition atEnd : P bool := fun st => Some (Read (length src <=? at_pos st)%nat st).
Definition peek (ahead : nat) : P Z := fun st => Some (Read (default 0 (src !! (at_pos st + ahead)%nat)) st).
Definition position : P nat := fun st => Some (Read (at_pos st) st).

Definition eat (c : Z) : P bool := fun st =>
  match src !! at_pos st with
  | Some u => if u =? c then (advance 1 ;; pret true) st else Some (Read false st)
  | None => Some (Read false st)
  end.

Definition eatTwo (c : Z) : P bool := fun st =>
  match src !! at_pos st, src !! S (at_pos st) with
  | Some u, Some v => if (u =? c) && (v =? c) then (advance 2 ;; pret true) st else Some (Read false st)
  | _, _ => Some (Read false st)
  end.

Definition readSourceCharacter : P Z := fun st =>
  let step := codePointAt src (at_pos st) (unicodeMode fl) in
  Some (Read (code step) (mkPState (at_pos st + width step) (captures_seen st) (nesting st))).

(** The longest run of [p] from here, and the cursor past it. *)
Definition read_while (p : Z -> bool) : P (list Z) := fun st =>
  let run := take_while p (drop (at_pos st) src) in (advance (length run) ;; pret run) st.

(** ** Sets (parser_class.cpp) *)

Definition simpleCaseFoldFixedPoints : list Range :=
  let moved := fold_left (fun l code => addRange l code code) simpleCaseFoldSources [] in
  complementRanges (normalizeRanges moved) kMaxCodePoint.

Definition foldedForOperation (set : list Range) : list Range :=
  if negb (ignoreCase fl) then set
  else
    let '(moved, arrived) :=
      fold_left (fun acc code =>
        if rangesContain set code
        then (addRange acc.1 code code, addRange acc.2 (simpleCaseFold code) (simpleCaseFold code)) else acc)
        simpleCaseFoldSources ([], []) in
    match moved with
    | [] => set
    | _ => normalizeRanges (subtractRanges set (normalizeRanges moved) ++ normalizeRanges arrived)
    end.

Definition complementInMode (set : list Range) : list Range :=
  if unicodeSets fl && ignoreCase fl then subtractRanges simpleCaseFoldFixedPoints (foldedForOperation set)
  else complementRanges set (alphabetCeiling (unicodeMode fl)).

(** ** Escapes (parser.cpp) *)

Record EscapeValue := mkEscape { isSet : bool; ecode : Z; eset : list Range }.
Definition escape_code (c : Z) : EscapeValue := mkEscape false c [].
Definition escape_set (s : list Range) : EscapeValue := mkEscape true 0 s.

Fixpoint hex_run (l : list Z) (value : Z) : Z :=
  match l with
  | [] => value
  | c :: l =>
      match hexDigitValue c with
      | Some d => hex_run l (Z.lor (Z.shiftl value 4) d)
      | None => value
      end
  end.

Definition readHex (at_ count : nat) : option Z :=
  if (length src <? at_ + count)%nat then None
  else
    let digits := take count (drop at_ src) in
    if forallb (fun c => match hexDigitValue c with Some _ => true | None => false end) digits
    then Some (hex_run digits 0) else None.

Definition is_hex (c : Z) : bool := match hexDigitValue c with Some _ => true | None => false end.

(** The value of a run of digits, held at one past the ceiling. *)
Definition braced_value (digits : list Z) : Z :=
  fold_left (fun value c =>
    let value := value * 16 + default 0 (hexDigitValue c) in
    if kMaxCodePoint <? value then kMaxCodePoint + 1 else value) digits 0.

Definition readUnicodeEscape : P EscapeValue :=
  let! pos_ := position in
  if bool_decide (src !! S pos_ = Some 123) then
    if negb (unicodeMode fl) then
      refuse "unsupported: `\u{...}` is a code point escape only under the `u` flag; without it, `\u` takes exactly four hexadecimal digits and bronze does not implement Annex B's quantified reading"
    else
      let digits := take_while is_hex (drop (pos_ + 2) src) in
      let at_ := (pos_ + 2 + length digits)%nat in
      let value := braced_value digits in
      if bool_decide (digits = []) || negb (bool_decide (src !! at_ = Some 125)) then
        refuse "`\u{` must be closed by `}` around at least one hexadecimal digit"
      else if kMaxCodePoint <? value then
        refuse "`\u{...}` names a value above U+10FFFF, which is not a code point"
      else advance (length digits + 3) ;; pret (escape_code value)
  else
    match readHex (S pos_) 4 with
    | None => refuse "four hexadecimal digits were expected after `\u`"
    | Some v =>
        advance 5 ;;
        if unicodeMode fl && isLeadSurrogate v && bool_decide (src !! (pos_ + 5)%nat = Some 92) &&
           bool_decide (src !! (pos_ + 6)%nat = Some 117)
        then
          match readHex (pos_ + 7) 4 with
          | Some trail =>
              if isTrailSurrogate trail
              then advance 6 ;; pret (escape_code (0x10000 + Z.shiftl (v - 0xD800) 10 + (trail - 0xDC00)))
              else pret (escape_code v)
          | None => pret (escape_code v)
          end
        else pret (escape_code v)
    end.

Definition readPropertyEscape (negated : bool) : P EscapeValue :=
  if negb (unicodeMode fl) then
    refuse "unsupported: unicode property escapes `\p{...}` are a +UnicodeMode production and this pattern has no `u` flag (bronze does not implement Annex B's reading of `\p` as the letter `p`)"
  else
    advance 1 ;;
    let! brace := eat 123 in
    if negb brace then refuse "`{` was expected after `\p`, which begins a unicode property escape"
    else
      let! first := read_while isPropertyCharacter in
      let! equals := eat 61 in
      let! value := (if equals then read_while isPropertyCharacter else pret first) in
      let name := if equals then first else [] in
      let! close := eat 125 in
      if negb close then refuse "`}` was expected to close a unicode property escape"
      else if bool_decide (value = []) then refuse "a unicode property escape names no property"
      else
        match unicodePropertySet (asciiOf name) (asciiOf value) with
        | inr why => refuse why
        | inl set => pret (escape_set (if negated then complementInMode set else set))
        end.

Definition readControlEscape : P EscapeValue :=
  let! pos_ := position in
  match src !! S pos_ with
  | None => refuse "a control letter was expected after `\c`"
  | Some letter =>
      if isLetter letter then advance 2 ;; pret (escape_code (letter mod 32))
      else refuse "a control letter was expected after `\c`"
  end.

(** [readEscapeValue], from the character after the backslash. *)
Definition readEscapeValue (inClass : bool) : P EscapeValue :=
  let! c := peek 0 in
  let one (v : EscapeValue) := advance 1 ;; pret v in
  if c =? 100 then one (escape_set digitRanges)
  else if c =? 68 then one (escape_set (complementInMode digitRanges))
  else if c =? 115 then one (escape_set spaceRanges)
  else if c =? 83 then one (escape_set (complementInMode spaceRanges))
  else if c =? 119 then one (escape_set (wordRanges (ignoreCase fl) (unicodeMode fl)))
  else if c =? 87 then one (escape_set (complementInMode (wordRanges (ignoreCase fl) (unicodeMode fl))))
  else if (c =? 112) || (c =? 80) then readPropertyEscape (c =? 80)
  else if (c =? 113) && unicodeSets fl && inClass then
    refuse "`\q{...}` can only stand where a `v`-mode class expects a whole operand (22.2.1's ClassSetOperand) — it is a set of strings, so it cannot be one end of a range or a member of another `\q{...}`"
  else if c =? 102 then one (escape_code 0x000C)
  else if c =? 110 then one (escape_code 0x000A)
  else if c =? 114 then one (escape_code 0x000D)
  else if c =? 116 then one (escape_code 0x0009)
  else if c =? 118 then one (escape_code 0x000B)
  else if c =? 48 then
    advance 1 ;;
    let! ended := atEnd in
    let! next := peek 0 in
    if negb ended && isDecimalDigit next then refuse "a legacy octal escape is not implemented"
    else pret (escape_code 0)
  else if c =? 99 then readControlEscape
  else if c =? 120 then
    let! pos_ := position in
    match readHex (S pos_) 2 with
    | None => refuse "two hexadecimal digits were expected after `\x`"
    | Some v => advance 3 ;; pret (escape_code v)
    end
  else if c =? 117 then readUnicodeEscape
  else if c =? 98 then one (escape_code 0x0008)
  else if isAlphanumeric c then refuse ("`\" ++ asText c ++ "` is not an escape sequence bronze implements")
  else if unicodeSets fl && inClass && isClassSetReservedPunctuator c then one (escape_code c)
  else if unicodeMode fl && negb (isSyntaxCharacter c) && negb (c =? 47) && negb (inClass && (c =? 45)) then
    refuse ("`\" ++ asText c ++ "` is not a valid escape under the `u` flag (an identity escape there may only precede a syntax character or `/`)")
  else one (escape_code c).

Definition caseTableFailure {A} (unit : Z) : P A :=
  refuse ("unsupported: case-insensitive matching of U+" ++ hex4 unit ++ " without the `u` flag (only ASCII, Latin-1, Latin Extended-A, Greek, Cyrillic and Armenian fold under `i` alone; adding `u` switches 22.2.2.9 to simple case folding, which bronze carries in full)").

(** A backslash has been eaten; something must follow it. *)
Definition after_backslash (inClass : bool) : P EscapeValue :=
  let! ended := atEnd in
  if ended then refuse "a trailing `\` with nothing to escape" else readEscapeValue inClass.

(** ** The flat class *)

Definition readClassAtom : P EscapeValue :=
  let! ended := atEnd in
  if ended then refuse "`]` was expected to close a character class"
  else
    let! c := peek 0 in
    if negb (c =? 92) then let! code := readSourceCharacter in pret (escape_code code)
    else advance 1 ;; after_backslash true.

(** [peek() == '-'] before a character that is not the closing bracket. *)
Definition range_follows : P bool := fun st =>
  Some (Read (bool_decide (src !! at_pos st = Some 45) &&
              match src !! S (at_pos st) with Some u => negb (u =? 93) | None => false end) st).

(** The range from one character to another, or the refusal of its case. *)
Definition class_range (l h : Z) (ranges : list Range) : P (list Range) :=
  if h <? l then refuse "a character class range whose start is after its end"
  else if ignoreCase fl && negb (unicodeMode fl) then
    match firstUnknownCasedUnitInRange l h with
    | Some offender => caseTableFailure offender
    | None => pret (addRange ranges l h)
    end
  else pret (addRange ranges l h).

Definition class_member (lhs : EscapeValue) (ranges : list Range) : P (list Range) :=
  if isSet lhs then pret (ranges ++ eset lhs)
  else if ignoreCase fl && negb (unicodeMode fl) && isUnknownCasedUnit (ecode lhs) then caseTableFailure (ecode lhs)
  else pret (addRange ranges (ecode lhs) (ecode lhs)).

Fixpoint class_loop (fuel : nat) (ranges : list Range) : P (list Range) :=
  match fuel with
  | O => pstuck
  | S fuel =>
      let! ended := atEnd in
      let! c := peek 0 in
      if ended || (c =? 93) then pret ranges
      else
        let! lhs := readClassAtom in
        let! dash := range_follows in
        let! ranges :=
          (if negb (isSet lhs) && dash then
             advance 1 ;;
             let! rhs := readClassAtom in
             if isSet rhs then refuse "a character class escape cannot be the end of a range"
             else class_range (ecode lhs) (ecode rhs) ranges
           else class_member lhs ranges) in
        class_loop fuel ranges
  end.

Definition parseClassRanges : P Node :=
  advance 1 ;;
  let! negated := eat 94 in
  let! ranges := class_loop (S (length src)) [] in
  let! close := eat 93 in
  if close then pret (CharClass (normalizeRanges ranges) negated [] false)
  else refuse "`]` was expected to close a character class".
(** ** The set expressions of the [v] flag *)

(** The members of one character, the longer ones, the empty one, and the syntactic
    answer to whether there could be any but the first. *)
Record ClassSetValue := mkClassSet {
  cranges : list Range; cstrings : list (list Z); cempty : bool; mayContainStrings : bool }.

Definition empty_class : ClassSetValue := mkClassSet [] [] false false.
Definition class_of (ranges : list Range) : ClassSetValue := mkClassSet ranges [] false false.

Definition hasString (list_ : list (list Z)) (s : list Z) : bool := existsb (fun c => bool_decide (c = s)) list_.
Definition addString (list_ : list (list Z)) (s : list Z) : list (list Z) :=
  if hasString list_ s then list_ else list_ ++ [s].

(** [std::vector]'s [<], and the order of [sortLongestFirst] without the equal pairs. *)
Fixpoint points_le (a b : list Z) : bool :=
  match a, b with
  | [], _ => true
  | _ :: _, [] => false
  | x :: a, y :: b => (x <? y) || ((x =? y) && points_le a b)
  end.

Definition longest_first (a b : list Z) : Prop :=
  Is_true (if (length a =? length b)%nat then points_le a b else (length b <? length a)%nat).
#[global] Instance longest_first_dec : RelDecision longest_first.
Proof. intros a b. unfold longest_first. apply _. Defined.

Definition sortLongestFirst (strings : list (list Z)) : list (list Z) := merge_sort longest_first strings.

Definition readClassSetCharacter : P Z :=
  let! ended := atEnd in
  if ended then refuse "`]` was expected to close a character class"
  else
    let! c := peek 0 in
    let! next := peek 1 in
    if isClassSetSyntaxCharacter c then
      refuse ("`" ++ asText c ++ "` must be escaped inside a `v`-mode character class (22.2.1 reserves `( ) [ ] { } / - \ |` there, so that a set operator spelled with one cannot be read as the character)")
    else if isClassSetDoubledPunctuator c && (next =? c) then
      refuse ("`" ++ asText c ++ asText c ++ "` is a reserved double punctuator inside a `v`-mode character class (22.2.1 holds every doubled punctuator for a set operator; write `\" ++ asText c ++ "\" ++ asText c ++ "` for the two characters)")
    else readSourceCharacter.

(** One element of an alternative of [\q{...}]. *)
Definition string_element : P Z :=
  let! c := peek 0 in
  if c =? 92 then
    advance 1 ;;
    let! value := after_backslash true in
    if isSet value then refuse "a character class escape cannot appear inside `\q{...}` (22.2.1's ClassString is a run of single characters)"
    else pret (ecode value)
  else readClassSetCharacter.

Fixpoint alternative_loop (fuel : nat) (alternative : list Z) : P (list Z) :=
  match fuel with
  | O => pstuck
  | S fuel =>
      let! ended := atEnd in
      let! c := peek 0 in
      if ended || (c =? 124) || (c =? 125) then pret alternative
      else let! element := string_element in alternative_loop fuel (alternative ++ [element])
  end.

Definition add_alternative (out : ClassSetValue) (alternative : list Z) : ClassSetValue :=
  match alternative with
  | [c] => mkClassSet (addRange (cranges out) c c) (cstrings out) (cempty out) (mayContainStrings out)
  | [] => mkClassSet (cranges out) (cstrings out) true true
  | _ => mkClassSet (cranges out) (addString (cstrings out) alternative) (cempty out) true
  end.

Fixpoint disjunction_loop (fuel : nat) (out : ClassSetValue) : P ClassSetValue :=
  match fuel with
  | O => pstuck
  | S fuel =>
      let! alternative := alternative_loop (S (length src)) [] in
      let out := add_alternative out alternative in
      let! again := eat 124 in
      if again then disjunction_loop fuel out
      else
        let! close := eat 125 in
        if close then pret out else refuse "`}` was expected to close `\q{...}`"
  end.

(** [\q] has been eaten. *)
Definition readClassStringDisjunction : P ClassSetValue :=
  let! brace := eat 123 in
  if negb brace then refuse "`{` was expected after `\q` (22.2.1's ClassStringDisjunction is `\q{...}`)"
  else
    let! out := disjunction_loop (S (length src)) empty_class in
    let out := mkClassSet (normalizeRanges (cranges out)) (cstrings out) (cempty out) (mayContainStrings out) in
    if ignoreCase fl && negb (bool_decide (cstrings out = [])) then
      refuse "unsupported: `\q{...}` with a member longer than one character, under the `i` flag (22.2.2.9 folds each element of each member, and bronze canonicalizes characters only)"
    else pret out.

(** [a && b] and [a -- b] *)
Definition class_and (acc rhs : ClassSetValue) : ClassSetValue :=
  mkClassSet (intersectRanges (foldedForOperation (cranges acc)) (foldedForOperation (cranges rhs)))
    (List.filter (hasString (cstrings rhs)) (cstrings acc)) (cempty acc && cempty rhs)
    (mayContainStrings acc && mayContainStrings rhs).
Definition class_minus (acc rhs : ClassSetValue) : ClassSetValue :=
  mkClassSet (subtractRanges (foldedForOperation (cranges acc)) (foldedForOperation (cranges rhs)))
    (List.filter (fun s => negb (hasString (cstrings rhs) s)) (cstrings acc)) (cempty acc && negb (cempty rhs))
    (mayContainStrings acc).

(** A union takes an operand in. *)
Definition class_or (out pending : ClassSetValue) : ClassSetValue :=
  mkClassSet (cranges out ++ cranges pending) (fold_left addString (cstrings pending) (cstrings out))
    (cempty out || cempty pending) (mayContainStrings out || mayContainStrings pending).

(** The far end of a range of a union. *)
Definition union_range_end : P Z :=
  let! c := peek 0 in
  if c =? 92 then
    advance 1 ;;
    let! value := after_backslash true in
    if isSet value then refuse "a character class escape cannot be the end of a range" else pret (ecode value)
  else readClassSetCharacter.

Definition mixed {A} : P A :=
  refuse "`--` and `&&` cannot be mixed in one `v`-mode character class (22.2.1 gives them separate productions and no precedence; write the inner operation as a nested class)".

(** An operand comes with its character, when it is one. *)
Definition Operand : Type := (ClassSetValue * option Z)%type.

(** What follows an operand is [c] twice. *)
Definition doubled (c : Z) : P bool := let! a := peek 0 in let! b := peek 1 in pret ((a =? c) && (b =? c)).

Fixpoint readNestedClass (fuel : nat) : P ClassSetValue :=
  match fuel with
  | O => pstuck
  | S fuel =>
      guarded (
        advance 1 ;;
        let! negated := eat 94 in
        let! set := readClassSetExpression fuel in
        let! close := eat 93 in
        if negb close then refuse "`]` was expected to close a character class"
        else if negated && mayContainStrings set then
          refuse "a negated `v`-mode character class cannot contain a set of strings (22.2.1 makes `[^...\q{...}...]` an early error, because the complement of a set of sequences is not a set of characters)"
        else
          pret (mkClassSet (normalizeRanges (if negated then complementInMode (cranges set) else cranges set))
                  (cstrings set) (cempty set) (if negated then false else mayContainStrings set)))
  end
with readClassSetExpression (fuel : nat) : P ClassSetValue :=
  match fuel with
  | O => pstuck
  | S fuel =>
      let! c := peek 0 in
      if c =? 93 then pret empty_class
      else
        let! first := readClassSetOperand fuel in
        let! ands := doubled 38 in
        if ands then
          let! acc := and_loop fuel first.1 in
          let! minus := doubled 45 in
          if minus then mixed else pret acc
        else
          let! minus := doubled 45 in
          if minus then
            let! acc := minus_loop fuel first.1 in
            let! ands := doubled 38 in
            if ands then mixed else pret acc
          else
            let! out := union_loop fuel empty_class first in
            pret (mkClassSet (normalizeRanges (cranges out)) (cstrings out) (cempty out) (mayContainStrings out))
  end
with and_loop (fuel : nat) (acc : ClassSetValue) : P ClassSetValue :=
  match fuel with
  | O => pstuck
  | S fuel =>
      let! again := eatTwo 38 in
      if again then let! rhs := readClassSetOperand fuel in and_loop fuel (class_and acc rhs.1) else pret acc
  end
with minus_loop (fuel : nat) (acc : ClassSetValue) : P ClassSetValue :=
  match fuel with
  | O => pstuck
  | S fuel =>
      let! again := eatTwo 45 in
      if again then let! rhs := readClassSetOperand fuel in minus_loop fuel (class_minus acc rhs.1) else pret acc
  end
with union_loop (fuel : nat) (out : ClassSetValue) (pending : Operand) : P ClassSetValue :=
  match fuel with
  | O => pstuck
  | S fuel =>
      let! c := peek 0 in
      let! next := peek 1 in
      let! out :=
        match pending.2 with
        | Some low =>
            if (c =? 45) && negb (next =? 45) && negb (next =? 93) then
              advance 1 ;;
              let! high := union_range_end in
              if high <? low then refuse "a character class range whose start is after its end"
              else pret (mkClassSet (addRange (cranges out) low high) (cstrings out) (cempty out) (mayContainStrings out))
            else pret (class_or out pending.1)
        | None => pret (class_or out pending.1)
        end in
      let! ended := atEnd in
      let! c := peek 0 in
      if ended || (c =? 93) then pret out
      else let! pending := readClassSetOperand fuel in union_loop fuel out pending
  end
with readClassSetOperand (fuel : nat) : P Operand :=
  match fuel with
  | O => pstuck
  | S fuel =>
      let! ended := atEnd in
      if ended then refuse "`]` was expected to close a character class"
      else
        let! c := peek 0 in
        let! next := peek 1 in
        if c =? 91 then let! v := readNestedClass fuel in pret (v, None)
        else if c =? 92 then
          if next =? 113 then advance 2 ;; let! v := readClassStringDisjunction in pret (v, None)
          else
            advance 1 ;;
            let! value := after_backslash true in
            if isSet value then pret (class_of (eset value), None)
            else pret (class_of (addRange [] (ecode value) (ecode value)), Some (ecode value))
        else
          let! c := readClassSetCharacter in
          pret (class_of (addRange [] c c), Some c)
  end.

(** Enough for the nesting of any pattern of this length. *)
Definition class_fuel : nat := 4 * length src + 4.

Definition parseClassSet : P Node :=
  let! set := readNestedClass class_fuel in
  pret (CharClass (cranges set) false (sortLongestFirst (cstrings set)) (cempty set)).

Definition parseCharacterClass : P Node := if unicodeSets fl then parseClassSet else parseClassRanges.
End Reader.
