(* ===== verification/RegexParse.v ===== *)
(** * The pattern parser (src/src/regex/parser.cpp)

    The pre-scan that counts the groups, the recursive descent from Disjunction to Atom
    over the readers of RegexClass, [compile], and the flags.  RegexCompile shows what
    it promises. *)
From stdpp Require Import pretty.
From S2P Require Import Prelude CaseFold RegexChars RegexMatch RegexClass.
Local Open Scope bool_scope.
Local Open Scope list_scope.
Local Open Scope parser_scope.

(** ** The pre-scan *)

(** [count] is the length of [names] throughout: both grow together. *)
Record GroupInfo := mkGroups { gcount : nat; names : list string }.

(** The names of the groups from here on, [classDepth] brackets deep. *)
Fixpoint prescan_names (l : list Z) (unicodeSets : bool) (classDepth : nat) : list string :=
  match l with
  | [] => []
  | c :: l =>
      if c =? 92 then match l with _ :: l' => prescan_names l' unicodeSets classDepth | [] => [] end
      else
        match classDepth with
        | S d =>
            if (c =? 91) && unicodeSets then prescan_names l unicodeSets (S classDepth)
            else if c =? 93 then prescan_names l unicodeSets d
            else prescan_names l unicodeSets classDepth
        | O =>
            if c =? 91 then prescan_names l unicodeSets 1
            else if negb (c =? 40) then prescan_names l unicodeSets O
            else
              match l with
              | q :: l' =>
                  if q =? 63 then
                    match l' with
                    | a :: b :: _ =>
                        if (a =? 60) && negb (b =? 61) && negb (b =? 33)
                        then asciiOf (take_while (fun u => negb (u =? 62)) (drop 1 l')) :: prescan_names l unicodeSets O
                        else prescan_names l unicodeSets O
                    | _ => prescan_names l unicodeSets O
                    end
                  else EmptyString :: prescan_names l unicodeSets O
              | [] => [EmptyString]
              end
        end
  end.

Definition prescanGroups (src : list Z) (unicodeSets : bool) : GroupInfo :=
  let names := prescan_names src unicodeSets O in mkGroups (length names) names.

Section Parser.
Context (src : list Z) (fl : Flags) (groups : GroupInfo).
Context (unicodePropertySet : string -> string -> list Range + string).

Notation atEnd := (atEnd src).
Notation peek := (peek src).
Notation eat := (eat src).
Notation readEscapeValue := (readEscapeValue src fl unicodePropertySet).
Notation parseCharacterClass := (parseCharacterClass src fl unicodePropertySet).

(** ** Quantifiers *)

(** A count held at one below [kUnbounded], with the position past it. *)
Definition readBoundedDigits (at_ : nat) : option (nat * Z) :=
  let digits := take_while isDecimalDigit (drop at_ src) in
  match digits with
  | [] => None
  | _ =>
      Some ((at_ + length digits)%nat,
        fold_left (fun value c =>
          let value := value * 10 + (c - 48) in if 0xFFFFFFFE <? value then 0xFFFFFFFE else value) digits 0)
  end.

Definition finish_quantifier (min max : Z) : P (option (Z * Z * bool)) :=
  let! lazy_ := eat 63 in pret (Some (min, max, negb lazy_)).

(** The bounds of [{n}], [{n,}] or [{n,m}] from the brace, and the position past it. *)
Definition braced_bounds (at_ : nat) : option (nat * Z * Z) :=
  match readBoundedDigits (S at_) with
  | None => None
  | Some (at_, low) =>
      let after :=
        if bool_decide (src !! at_ = Some 44) then
          if bool_decide (src !! S at_ = Some 125) then Some (S at_, kUnbounded)
          else readBoundedDigits (S at_)
        else Some (at_, low) in
      match after with
      | None => None
      | Some (at_, high) => if bool_decide (src !! at_ = Some 125) then Some (S at_, low, high) else None
      end
  end.

Definition readQuantifier : P (option (Z * Z * bool)) :=
  let! star := eat 42 in
  if star then finish_quantifier 0 kUnbounded
  else
    let! plus := eat 43 in
    if plus then finish_quantifier 1 kUnbounded
    else
      let! question := eat 63 in
      if question then finish_quantifier 0 1
      else
        let! c := peek 0 in
        let! pos_ := position in
        if c =? 123 then
          match braced_bounds pos_ with
          | None => pret None
          | Some (past, low, high) => advance (past - pos_) ;; finish_quantifier low high
          end
        else pret None.

(** ** Atoms *)

Definition charNode (code : Z) : P Node :=
  if ignoreCase fl && negb (unicodeMode fl) && isUnknownCasedUnit code then caseTableFailure code
  else pret (Char (canonicalize code (ignoreCase fl) (unicodeMode fl))).

(** The number of a decimal escape and how many digits it takes. *)
Fixpoint decimal_run (l : list Z) (value : Z) (taken : nat) : Z * nat :=
  match l with
  | [] => (value, taken)
  | c :: l =>
      if isDecimalDigit c then
        let value := value * 10 + (c - 48) in
        if 0xFFFFFF <? value then (value, taken) else decimal_run l value (S taken)
      else (value, taken)
  end.

Fixpoint index_of (name : string) (l : list string) (i : nat) : option nat :=
  match l with
  | [] => None
  | n :: l => if bool_decide (n = name) then Some i else index_of name l (S i)
  end.

Definition named_backreference : P Node :=
  advance 1 ;;
  let! open := eat 60 in
  if negb open then refuse "`<` was expected after `\k`"
  else
    let! name := read_while src isIdentifierPart in
    let! close := eat 62 in
    if negb close then refuse "`>` was expected to close `\k<`"
    else
      match index_of (asciiOf name) (names groups) 0 with
      | Some i => pret (Backreference (S i))
      | None => refuse ("`\k<" ++ asciiOf name ++ ">` names no capture group in this pattern")
      end.

Definition numbered_backreference : P Node :=
  let! pos_ := position in
  let '(value, taken) := decimal_run (drop pos_ src) 0 0 in
  if Z.of_nat (gcount groups) <? value then
    refuse ("`\" ++ pretty value ++ "` refers to capture group " ++ pretty value ++ ", and this pattern has " ++
            pretty (gcount groups) ++ " (legacy octal escapes are not implemented)")
  else advance taken ;; pret (Backreference (Z.to_nat value)).

Definition parseAtomEscape : P Node :=
  advance 1 ;;
  let! ended := atEnd in
  if ended then refuse "a trailing `\` with nothing to escape"
  else
    let! c := peek 0 in
    if (c =? 98) || (c =? 66) then advance 1 ;; pret (Assertion (if c =? 98 then WordBoundary else NotWordBoundary))
    else if c =? 107 then named_backreference
    else if between 49 c 57 then numbered_backreference
    else
      let! value := readEscapeValue false in
      if isSet value then pret (CharClass (normalizeRanges (eset value)) false [] false)
      else charNode (ecode value).

(** What a parenthesis opens, when it opens no group that captures. *)
Inductive GroupKind := Capturing (captureIndex : nat) | Plain | Ahead (negative : bool) | Behind (negative : bool).

Definition group_kind : P GroupKind :=
  let! question := eat 63 in
  if negb question then let! i := next_capture in pret (Capturing i)
  else
    let! colon := eat 58 in
    if colon then pret Plain
    else
      let! equals := eat 61 in
      if equals then pret (Ahead false)
      else
        let! bang := eat 33 in
        if bang then pret (Ahead true)
        else
          let! c := peek 0 in
          let! next := peek 1 in
          if (c =? 60) && ((next =? 61) || (next =? 33)) then advance 2 ;; pret (Behind (next =? 33))
          else
            let! angle := eat 60 in
            if negb angle then refuse "an unsupported group modifier after `(?`"
            else
              let! ended := atEnd in
              let! c := peek 0 in
              if ended || negb (isIdentifierStart c) then
                refuse "a capture group name must start with a letter, `_` or `$`"
              else
                read_while src isIdentifierPart ;;
                let! close := eat 62 in
                if negb close then refuse "`>` was expected to close a capture group name"
                else let! i := next_capture in pret (Capturing i).

(** A [Group] whose capture index is zero captures nothing. *)
Definition group_node (kind : GroupKind) (body : Node) : Node :=
  match kind with
  | Capturing i => Group i body
  | Plain => Group 0 body
  | Ahead negative => Lookahead negative body
  | Behind negative => Lookbehind negative body
  end.

Definition is_assertion (n : Node) : bool :=
  match n with Assertion _ | Lookahead _ _ | Lookbehind _ _ => true | _ => false end.

(** An atom that takes one character whenever it matches. *)
Definition one_character (n : Node) : bool :=
  match n with
  | Char _ | Dot => true
  | CharClass _ _ strings matchesEmpty => bool_decide (strings = []) && negb matchesEmpty
  | _ => false
  end.

(** ** Disjunction, alternative, term *)

Fixpoint parseDisjunction (fuel : nat) : P Node :=
  match fuel with
  | O => pstuck
  | S fuel =>
      guarded (
        let! alt := parseAlternative fuel [] in
        let! c := peek 0 in
        if negb (c =? 124) then pret (Sequence alt)
        else let! alternatives := alternation_loop fuel [alt] in pret (Alternation alternatives))
  end
with alternation_loop (fuel : nat) (alternatives : list (list Node)) : P (list (list Node)) :=
  match fuel with
  | O => pstuck
  | S fuel =>
      let! again := eat 124 in
      if again then let! next := parseAlternative fuel [] in alternation_loop fuel (alternatives ++ [next])
      else pret alternatives
  end
with parseAlternative (fuel : nat) (terms : list Node) : P (list Node) :=
  match fuel with
  | O => pstuck
  | S fuel =>
      let! ended := atEnd in
      let! c := peek 0 in
      if ended || (c =? 124) || (c =? 41) then pret terms
      else let! term := parseTerm fuel in parseAlternative fuel (terms ++ [term])
  end
with parseTerm (fuel : nat) : P Node :=
  match fuel with
  | O => pstuck
  | S fuel =>
      let! capturesBefore := capture_counter in
      let! atom := parseAtom fuel in
      let! quantifier := readQuantifier in
      match quantifier with
      | None => pret atom
      | Some (min, max, greedy) =>
          if is_assertion atom then refuse "a quantifier applied to an assertion"
          else if max <? min then refuse "a quantifier whose minimum exceeds its maximum"
          else
            let! captures := capture_counter in
            let captureCount := (captures - capturesBefore)%nat in
            pret (Repeat (mkQuantifier min max greedy (capturesBefore + 1) captureCount
                            ((captureCount =? 0)%nat && one_character atom)) atom)
      end
  end
with parseAtom (fuel : nat) : P Node :=
  match fuel with
  | O => pstuck
  | S fuel =>
      let! ended := atEnd in
      let! c := peek 0 in
      if ended then refuse "an atom was expected"
      else if c =? 94 then advance 1 ;; pret (Assertion Start)
      else if c =? 36 then advance 1 ;; pret (Assertion End)
      else if c =? 46 then advance 1 ;; pret Dot
      else if c =? 40 then
        advance 1 ;;
        let! kind := group_kind in
        let! body := parseDisjunction fuel in
        let! close := eat 41 in
        if close then pret (group_node kind body) else refuse "`)` was expected to close a group"
      else if c =? 91 then parseCharacterClass
      else if c =? 92 then parseAtomEscape
      else if (c =? 42) || (c =? 43) || (c =? 63) then refuse "a quantifier with nothing to repeat"
      else if c =? 41 then refuse "an atom was expected"
      else if (c =? 93) && unicodeMode fl then
        refuse "a lone `]`, which the `u` and `v` flags make a syntax error (write `\]` for the character)"
      else if (c =? 123) && unicodeMode fl then
        refuse "a `{` that does not begin a quantifier, which the `u` and `v` flags make a syntax error (write `\{` for the character)"
      else if (c =? 125) && unicodeMode fl then
        refuse "a lone `}`, which the `u` and `v` flags make a syntax error (write `\}` for the character)"
      else let! code := readSourceCharacter src fl in charNode code
  end.

(** Every descent and every turn of a loop takes a character. *)
Definition parse_fuel : nat := 4 * length src + 4.

Definition parse : P Node :=
  let! root := parseDisjunction parse_fuel in
  let! ended := atEnd in
  if ended then pret root else refuse "unmatched ')'".
End Parser.

(** ** Compiling *)

Record CompiledPattern := mkCompiled {
  pattern : Pattern; groupNames : list string; hasNamedGroups : bool }.

Inductive CompileResult :=
  | CompileError (what : string) (index : nat)
  | CaptureDisagreement (prescanned parsed : nat)
  | CompileOk (p : CompiledPattern).

Definition compile (unicodePropertySet : string -> string -> list Range + string) (source : list Z) (fl : Flags) :
    option CompileResult :=
  let groups := prescanGroups source (unicodeSets fl) in
  match parse source fl groups unicodePropertySet (mkPState 0 0 0) with
  | None => None
  | Some (Refused what index) => Some (CompileError what index)
  | Some (Read root st) =>
      if negb (captures_seen st =? gcount groups)%nat then Some (CaptureDisagreement (gcount groups) (captures_seen st))
      else Some (CompileOk (mkCompiled (mkPattern root fl (gcount groups)) (names groups)
                              (existsb (fun n => negb (bool_decide (n = EmptyString))) (names groups))))
  end.

(** ** Flags *)

Record RegexFlags := mkRegexFlags {
  hasIndices : bool; global_ : bool; fignoreCase : bool; fmultiline : bool; fdotAll : bool;
  funicode : bool; funicodeSets : bool; sticky : bool }.

Definition no_flags : RegexFlags := mkRegexFlags false false false false false false false false.

Definition flag_text (f : RegexFlags) : string :=
  ((if hasIndices f then "d" else "") ++ (if global_ f then "g" else "") ++ (if fignoreCase f then "i" else "") ++
   (if fmultiline f then "m" else "") ++ (if fdotAll f then "s" else "") ++ (if funicode f then "u" else "") ++
   (if funicodeSets f then "v" else "") ++ (if sticky f then "y" else ""))%string.

(** The flag a letter sets, as it is and as it would be set. *)
Definition flag_slot (f : RegexFlags) (c : ascii) : option (bool * RegexFlags) :=
  let '(mkRegexFlags d g i m s u v y) := f in
  match c with
  | "d" => Some (d, mkRegexFlags true g i m s u v y)
  | "g" => Some (g, mkRegexFlags d true i m s u v y)
  | "i" => Some (i, mkRegexFlags d g true m s u v y)
  | "m" => Some (m, mkRegexFlags d g i true s u v y)
  | "s" => Some (s, mkRegexFlags d g i m true u v y)
  | "u" => Some (u, mkRegexFlags d g i m s true v y)
  | "v" => Some (v, mkRegexFlags d g i m s u true y)
  | "y" => Some (y, mkRegexFlags d g i m s u v true)
  | _ => None
  end%char.

Fixpoint flag_letters (text : string) (out : RegexFlags) : RegexFlags + string :=
  match text with
  | EmptyString => inl out
  | String c text =>
      match flag_slot out c with
      | None => inr ("Invalid regular expression flags: `" ++ String c EmptyString ++ "`")%string
      | Some (true, _) => inr ("Invalid regular expression flags: `" ++ String c EmptyString ++ "` appears more than once")%string
      | Some (false, out) => flag_letters text out
      end
  end.

Definition parseFlags (text : string) : RegexFlags + string :=
  match flag_letters text no_flags with
  | inr e => inr e
  | inl out =>
      if funicode out && funicodeSets out then
        inr "Invalid regular expression flags: `u` and `v` cannot both be set (22.2.3.4 makes them alternatives — `v` already implies the code point alphabet `u` gives)"%string
      else inl out
  end.

(** The flags the matcher reads. *)
Definition matching_flags (f : RegexFlags) : Flags :=
  mkFlags (fignoreCase f) (fmultiline f) (fdotAll f) (funicode f) (funicodeSets f).
