(* ===== verification/RegexReads.v ===== *)
(** * What the readers of a pattern promise

    A reader either answers or refuses inside the pattern; what it has read, the
    pre-scan reads past.  The lemmas below say so for the escapes and for both
    grammars of a class, with the bounds of every character and range they produce. *)
From stdpp Require Import sorting.
From S2P Require Import Prelude CaseFold RegexChars RegexMatch RegexClass RegexParse.
Local Open Scope bool_scope.
Local Open Scope list_scope.
Local Open Scope parser_scope.

(** ** Sets of characters *)

Definition code_ok (c : Z) : Prop := 0 <= c <= kMaxCodePoint.

Lemma code_range_ok l h : code_ok l -> code_ok h -> l <= h -> range_ok (mkRange l h).
Proof. unfold code_ok, kMaxCodePoint, range_ok. cbn. lia. Qed.

Lemma addRange_ok ranges l h : Forall range_ok ranges -> code_ok l -> code_ok h -> Forall range_ok (addRange ranges l h).
Proof.
  intros Hr Hl Hh. unfold addRange. destruct (Z.ltb_spec h l); [done|]. apply Forall_app. split; [done|].
  apply Forall_singleton. by apply code_range_ok.
Qed.

Lemma normalized_ok ranges : Forall range_ok ranges -> normal (normalizeRanges ranges).
Proof. intros H. by destruct (normalizeRanges_spec ranges H). Qed.

Lemma normal_ok ranges : normal ranges -> Forall range_ok ranges.
Proof. by apply normal_ranges. Qed.

Lemma normalizeRanges_ok ranges : Forall range_ok ranges -> Forall range_ok (normalizeRanges ranges).
Proof. intros H. by apply normal_ok, normalized_ok. Qed.

Lemma complementRanges_ok ranges ceiling : Forall range_ok ranges -> 0 <= ceiling < 2 ^ 32 - 1 ->
  Forall range_ok (complementRanges ranges ceiling).
Proof.
  intros H Hc. apply normal_ok. unfold complementRanges.
  destruct (complement_loop_spec (normalizeRanges ranges) ceiling 0 0); [lia|lia|by apply normalized_ok|done].
Qed.

Lemma intersectRanges_ok a b : Forall range_ok a -> Forall range_ok b -> Forall range_ok (intersectRanges a b).
Proof.
  intros Ha Hb. unfold intersectRanges. apply normalizeRanges_ok. eapply intersect_loop_spec;
    [apply le_n|reflexivity|reflexivity|by apply normalized_ok|by apply normalized_ok].
Qed.

Lemma subtractRanges_ok a b : Forall range_ok a -> Forall range_ok b -> Forall range_ok (subtractRanges a b).
Proof.
  intros Ha Hb. unfold subtractRanges. apply normalizeRanges_ok. eapply (subtract_loop_spec _ _ 0 0);
    [reflexivity|reflexivity|by apply normalized_ok|by apply normalized_ok].
Qed.

Lemma simpleCaseFold_ok c : code_ok c -> code_ok (simpleCaseFold c).
Proof.
  intros Hc. destruct (simpleCaseFold_cases c) as [->|Hin]; [done|].
  destruct (foldTable_entry _ _ Hin) as (_ & _ & _ & _ & ? & _). done.
Qed.

Lemma sources_ok : Forall code_ok simpleCaseFoldSources.
Proof.
  apply List.Forall_forall. intros c Hc. apply in_map_iff in Hc as ([from to] & <- & Hin).
  by destruct (foldTable_entry _ _ Hin) as (_ & _ & _ & ? & _).
Qed.

Lemma fixedPoints_ok : Forall range_ok simpleCaseFoldFixedPoints.
Proof.
  unfold simpleCaseFoldFixedPoints. apply complementRanges_ok; [|done]. apply normalizeRanges_ok.
  assert (forall l acc, Forall code_ok l -> Forall range_ok acc ->
    Forall range_ok (fold_left (fun l code => addRange l code code) l acc)) as Hfold.
  { induction l as [|c l IH]; intros acc Hl Hacc; [done|]. apply Forall_cons in Hl as [? ?]. apply IH; [done|]. by apply addRange_ok. }
  apply Hfold; [apply sources_ok|constructor].
Qed.

Section Sets.
Context (fl : Flags).

Lemma foldedForOperation_ok set : Forall range_ok set -> Forall range_ok (foldedForOperation fl set).
Proof.
  intros Hs. unfold foldedForOperation. destruct (negb _); [done|].
  match goal with |- context [fold_left ?f simpleCaseFoldSources ([], [])] => set (step := f) end.
  assert (forall l acc, Forall code_ok l -> Forall range_ok acc.1 /\ Forall range_ok acc.2 ->
    Forall range_ok (fold_left step l acc).1 /\ Forall range_ok (fold_left step l acc).2) as Hfold.
  { induction l as [|c l IH]; intros acc Hl Hacc; [done|]. apply Forall_cons in Hl as [? ?]. apply IH; [done|].
    unfold step. destruct (rangesContain set c); [|done]. destruct Hacc. pose proof (simpleCaseFold_ok c).
    split; apply addRange_ok; auto. }
  destruct (Hfold simpleCaseFoldSources ([], []) sources_ok) as [Hm Ha]; [by split|].
  destruct (fold_left step simpleCaseFoldSources ([], [])) as [moved arrived]. cbn [fst snd] in *.
  destruct moved as [|m moved]; [done|]. apply normalizeRanges_ok, Forall_app.
  split; [apply subtractRanges_ok; [done|by apply normalizeRanges_ok]|by apply normalizeRanges_ok].
Qed.

Lemma complementInMode_ok set : Forall range_ok set -> Forall range_ok (complementInMode fl set).
Proof.
  intros Hs. unfold complementInMode. destruct (_ && _).
  - apply subtractRanges_ok; [apply fixedPoints_ok|by apply foldedForOperation_ok].
  - apply complementRanges_ok; [done|]. unfold alphabetCeiling. by destruct (unicodeMode fl).
Qed.

Lemma digitRanges_ok : Forall range_ok digitRanges.
Proof. apply addRange_ok; [constructor|done|done]. Qed.

Lemma spaceRanges_ok : Forall range_ok spaceRanges.
Proof. apply normalizeRanges_ok. cbn. repeat constructor; done. Qed.

Lemma wordRanges_ok ignoreCase unicode : Forall range_ok (wordRanges ignoreCase unicode).
Proof.
  unfold wordRanges. apply normalizeRanges_ok.
  match goal with |- context [fold_left ?f _ _] => set (step := f) end.
  assert (forall l acc, Forall code_ok l -> Forall range_ok acc -> Forall range_ok (fold_left step l acc)) as Hfold.
  { induction l as [|c l IH]; intros acc Hl Hacc; [done|]. apply Forall_cons in Hl as [? ?]. apply IH; [done|].
    unfold step. destruct (rangesContain basic_words c); [done|]. destruct (rangesContain basic_words _); [|done]. by apply addRange_ok. }
  apply Hfold.
  - destruct unicode; [apply sources_ok|]. apply List.Forall_forall. intros c Hc.
    apply units_elem in Hc. unfold code_ok, kMaxCodePoint, kMaxUnit in *. lia.
  - apply normalizeRanges_ok. cbn. repeat constructor; done.
Qed.
End Sets.

(** ** Readers *)

Section Reads.
Context (src : list Z) (fl : Flags).
Hypothesis src_units : Forall (fun u => 0 <= u <= kMaxUnit) src.

Notation len := (length src).

(** [m] answers, or refuses inside the pattern. *)
Definition total {A} (m : P A) (st : PState) (Q : A -> PState -> Prop) : Prop :=
match m st with
| Some (Read a st') => Q a st'
| Some (Refused _ index) => (index <= len)%nat
| None => False
end.

Definition inside (st : PState) : Prop := (at_pos st <= len)%nat.

(** The cursor moved on. *)
Definition step (n : nat) (st : PState) : PState := mkPState (at_pos st + n) (captures_seen st) (nesting st).

(** The reading of [unit] by the pre-scan changes nothing, [d] brackets deep. *)
Definition plain (d : nat) (u : Z) : bool :=
negb (u =? 92) &&
match d with
| O => negb (u =? 91) && negb (u =? 40)
| S _ => negb (u =? 93) && negb ((u =? 91) && unicodeSets fl)
end.

Definition plain_any (u : Z) : bool := negb (u =? 92) && negb (u =? 91) && negb (u =? 93) && negb (u =? 40).

(** From one state to another the pre-scan finds no group, and none was counted. *)
Definition moves (d : nat) (st : PState) (d' : nat) (st' : PState) : Prop :=
(at_pos st <= at_pos st' <= len)%nat /\ nesting st' = nesting st /\ captures_seen st' = captures_seen st /\
prescan_names (drop (at_pos st) src) (unicodeSets fl) d = prescan_names (drop (at_pos st') src) (unicodeSets fl) d'.

Lemma total_bind {A B} (m : P A) (f : A -> P B) st Q :
total m st (fun a st' => total (f a) st' Q) -> total (pbind m f) st Q.
Proof. unfold total, pbind. by destruct (m st) as [[|]|]. Qed.

Lemma total_weaken {A} (m : P A) st (Q Q' : A -> PState -> Prop) :
(forall a st', Q a st' -> Q' a st') -> total m st Q -> total m st Q'.
Proof. unfold total. intros H. destruct (m st) as [[|]|]; auto. Qed.

Lemma total_then {A B} (m : P A) (f : A -> P B) st Q Q' :
total m st Q -> (forall a st', Q a st' -> total (f a) st' Q') -> total (pbind m f) st Q'.
Proof. intros Hm Hf. apply total_bind. eapply total_weaken; [exact Hf|exact Hm]. Qed.

Lemma total_ret {A} (a : A) st (Q : A -> PState -> Prop) : Q a st -> total (pret a) st Q.
Proof. done. Qed.

Lemma total_refuse {A} what st (Q : A -> PState -> Prop) : inside st -> total (refuse what) st Q.
Proof. done. Qed.

Section Primitives.
Context {B : Type} (st : PState) (Q : B -> PState -> Prop).

Lemma bind_peek k (f : Z -> P B) : total (f (default 0 (src !! (at_pos st + k)%nat))) st Q -> total (pbind (peek src k) f) st Q.
Proof. done. Qed.
Lemma bind_atEnd (f : bool -> P B) : total (f (len <=? at_pos st)%nat) st Q -> total (pbind (atEnd src) f) st Q.
Proof. done. Qed.
Lemma bind_position (f : nat -> P B) : total (f (at_pos st)) st Q -> total (pbind position f) st Q.
Proof. done. Qed.
Lemma bind_counter (f : nat -> P B) : total (f (captures_seen st)) st Q -> total (pbind capture_counter f) st Q.
Proof. done. Qed.
Lemma bind_advance n (f : unit -> P B) : total (f tt) (step n st) Q -> total (pbind (advance n) f) st Q.
Proof. done. Qed.

Lemma bind_eat c (f : bool -> P B) :
  (src !! at_pos st = Some c -> total (f true) (step 1 st) Q) ->
  (src !! at_pos st <> Some c -> total (f false) st Q) -> total (pbind (eat src c) f) st Q.
Proof.
  intros Ht Hf. apply total_bind. unfold total, eat. destruct (src !! at_pos st) as [u|]; [|by apply Hf].
  destruct (Z.eqb_spec u c) as [->|]; [by apply Ht|apply Hf; congruence].
Qed.

Lemma bind_eatTwo c (f : bool -> P B) :
  (src !! at_pos st = Some c -> src !! S (at_pos st) = Some c -> total (f true) (step 2 st) Q) ->
  total (f false) st Q -> total (pbind (eatTwo src c) f) st Q.
Proof.
  intros Ht Hf. apply total_bind. unfold total, eatTwo. destruct (src !! at_pos st) as [u|]; [|done].
  destruct (src !! S (at_pos st)) as [v|]; [|done]. destruct (Z.eqb_spec u c) as [->|]; [|done].
  destruct (Z.eqb_spec v c) as [->|]; [by apply Ht|done].
Qed.

Lemma bind_read_while p (f : list Z -> P B) :
  (let run := take_while p (drop (at_pos st) src) in total (f run) (step (length run) st) Q) ->
  total (pbind (read_while src p) f) st Q.
Proof. done. Qed.
End Primitives.

(** *** The pre-scan over what was read *)

Lemma reader_moves_refl d st : inside st -> moves d st d st.
Proof. intros H. split; [unfold inside in H; lia|done]. Qed.

Lemma reader_moves_trans d1 d2 d3 st1 st2 st3 : moves d1 st1 d2 st2 -> moves d2 st2 d3 st3 -> moves d1 st1 d3 st3.
Proof.
  intros (P1 & N1 & C1 & S1) (P2 & N2 & C2 & S2). split; [lia|]. split; [congruence|]. split; [congruence|]. by rewrite S1.
Qed.

Lemma moves_inside d st d' st' : moves d st d' st' -> inside st'.
Proof. intros [? _]. unfold inside. lia. Qed.

Lemma moves_position d st d' st' : moves d st d' st' -> (at_pos st <= at_pos st')%nat.
Proof. intros [? _]. lia. Qed.

Lemma drop_at i u : src !! i = Some u -> drop i src = u :: drop (S i) src.
Proof. intros H. by apply drop_S. Qed.

Lemma unit_at i u : src !! i = Some u -> (i < len)%nat.
Proof. apply lookup_lt_Some. Qed.

(** A step of one unit, whatever the pre-scan makes of it. *)
Lemma moves_unit d d' st u : src !! at_pos st = Some u ->
  prescan_names (u :: drop (S (at_pos st)) src) (unicodeSets fl) d = prescan_names (drop (S (at_pos st)) src) (unicodeSets fl) d' ->
  moves d st d' (step 1 st).
Proof.
  intros Hu Hs. pose proof (unit_at _ _ Hu). unfold moves, step. cbn [at_pos captures_seen nesting]. split; [lia|].
  split; [done|]. split; [done|]. by rewrite Nat.add_1_r, (drop_at _ _ Hu).
Qed.

Lemma moves_plain d st u : src !! at_pos st = Some u -> plain d u = true -> moves d st d (step 1 st).
Proof.
  intros Hu Hp. apply moves_unit with u; [done|]. unfold plain in Hp. apply andb_prop in Hp as [H92 Hd].
  cbn [prescan_names]. apply negb_true_iff in H92. rewrite H92. destruct d.
  - apply andb_prop in Hd as [H91 H40]. apply negb_true_iff in H91. rewrite H91. by rewrite H40.
  - apply andb_prop in Hd as [H93 H91]. apply negb_true_iff in H93, H91. by rewrite H91, H93.
Qed.

Lemma moves_open d st : src !! at_pos st = Some 91 -> d = O \/ unicodeSets fl = true -> moves d st (S d) (step 1 st).
Proof.
  intros Hu Hd. apply moves_unit with 91; [done|]. cbn [prescan_names Z.eqb Pos.eqb]. destruct d; [done|].
  destruct Hd as [|Hus]; [done|]. by rewrite Hus.
Qed.

Lemma moves_close d st : src !! at_pos st = Some 93 -> moves (S d) st d (step 1 st).
Proof. intros Hu. by apply moves_unit with 93. Qed.

Lemma step_step n m st : step n (step m st) = step (m + n) st.
Proof. unfold step. cbn. by rewrite Nat.add_assoc. Qed.

Lemma step_0 st : step 0 st = st.
Proof. unfold step. rewrite Nat.add_0_r. by destruct st. Qed.

Lemma plain_any_plain d u : plain_any u = true -> plain d u = true.
Proof.
  unfold plain_any, plain. intros [[[-> H91]%andb_prop H93]%andb_prop H40]%andb_prop. apply negb_true_iff in H91.
  rewrite H91, H93, H40. by destruct d.
Qed.

Lemma moves_run d st n : (at_pos st + n <= len)%nat ->
  Forall (fun u => plain_any u = true) (take n (drop (at_pos st) src)) -> moves d st d (step n st).
Proof.
  revert st. induction n as [|n IH]; intros st Hn Hf; [rewrite step_0; apply reader_moves_refl; unfold inside; lia|].
  destruct (src !! at_pos st) as [u|] eqn:Hu; [|apply lookup_ge_None in Hu; lia].
  rewrite (drop_at _ _ Hu) in Hf. cbn [take] in Hf. apply Forall_cons in Hf as [Hp Hf].
  apply reader_moves_trans with d (step 1 st); [by apply moves_plain with u, plain_any_plain|].
  change (S n) with (1 + n)%nat. rewrite <- step_step. apply IH; cbn [step at_pos]; [lia|]. by rewrite Nat.add_1_r.
Qed.

Lemma moves_one d st u : src !! at_pos st = Some u -> plain_any u = true -> moves d st d (step 1 st).
Proof. intros Hu Hp. apply moves_plain with u; [done|]. by apply plain_any_plain. Qed.

(** A backslash and what it escapes. *)
Lemma moves_escape d st u : src !! at_pos st = Some 92 -> src !! S (at_pos st) = Some u -> moves d st d (step 2 st).
Proof.
  intros Hb Hu. pose proof (unit_at _ _ Hu). unfold moves, step. cbn [at_pos captures_seen nesting]. split; [lia|].
  split; [done|]. split; [done|]. rewrite (drop_at _ _ Hb), (drop_at _ _ Hu).
  by replace (at_pos st + 2)%nat with (S (S (at_pos st))) by lia.
Qed.

(** *** Runs *)

Lemma take_while_prefix p l : take (length (take_while p l)) l = take_while p l /\ Forall (fun u => p u = true) (take_while p l).
Proof.
  induction l as [|u l [IHt IHf]]; [by split; [|constructor]|]. cbn [take_while]. destruct (p u) eqn:E; [|by split; [|constructor]].
  cbn [length take]. rewrite IHt. split; [done|]. by constructor.
Qed.

Lemma take_while_length p l : (length (take_while p l) <= length l)%nat.
Proof. destruct (take_while_prefix p l) as [<- _]. rewrite length_take. lia. Qed.

Lemma moves_while d p st : inside st -> (forall u, p u = true -> plain_any u = true) ->
  moves d st d (step (length (take_while p (drop (at_pos st) src))) st).
Proof.
  intros Hi Hp. destruct (take_while_prefix p (drop (at_pos st) src)) as [Ht Hf].
  pose proof (take_while_length p (drop (at_pos st) src)) as Hl. rewrite length_drop in Hl. unfold inside in Hi.
  apply moves_run; [lia|]. rewrite Ht. eapply Forall_impl; [exact Hf|]. auto.
Qed.

(** The characters of names, numbers and braces are plain. *)
Lemma identifier_plain u : isIdentifierPart u = true -> plain_any u = true.
Proof. unfold isIdentifierPart, isIdentifierStart, isLetter, isDecimalDigit, between, plain_any. lia. Qed.
Lemma property_plain u : isPropertyCharacter u = true -> plain_any u = true.
Proof. unfold isPropertyCharacter, isLetter, isDecimalDigit, between, plain_any. lia. Qed.
Lemma digit_plain u : isDecimalDigit u = true -> plain_any u = true.
Proof. unfold isDecimalDigit, between, plain_any. lia. Qed.
Lemma letter_plain u : isLetter u = true -> plain_any u = true.
Proof. unfold isLetter, between, plain_any. lia. Qed.
Lemma hex_plain u : is_hex u = true -> plain_any u = true.
Proof.
  unfold is_hex, hexDigitValue, between, plain_any. destruct ((48 <=? u) && _) eqn:E1; [lia|].
  destruct ((97 <=? u) && _) eqn:E2; [lia|]. destruct ((65 <=? u) && _) eqn:E3; [lia|done].
Qed.
(** *** Escapes *)

Context (unicodePropertySet : string -> string -> list Range + string).
Hypothesis property_ok : forall name value set, unicodePropertySet name value = inl set -> Forall range_ok set.

Definition escape_ok (v : EscapeValue) : Prop := code_ok (ecode v) /\ Forall range_ok (eset v).

Lemma escape_code_ok c : code_ok c -> escape_ok (escape_code c).
Proof. intros H. split; [done|constructor]. Qed.

Lemma escape_set_ok s : Forall range_ok s -> escape_ok (escape_set s).
Proof. intros H. by split. Qed.

Lemma unit_ok i u : src !! i = Some u -> code_ok u.
Proof.
  intros H. assert (0 <= u <= kMaxUnit) by (by apply (Forall_lookup_1 _ _ _ _ src_units H)).
  unfold code_ok, kMaxCodePoint, kMaxUnit in *. lia.
Qed.

Lemma unit_default i u : src !! i = Some u -> default 0 (src !! (i + 0)%nat) = u.
Proof. rewrite Nat.add_0_r. by intros ->. Qed.

(** Past a backslash and at least one more unit, with a value in bounds. *)
Definition escaped (d : nat) (st0 : PState) (v : EscapeValue) (st : PState) : Prop :=
  moves d st0 d st /\ (at_pos st0 + 2 <= at_pos st)%nat /\ escape_ok v.

Lemma hexDigitValue_range c d : hexDigitValue c = Some d -> 0 <= d < 16.
Proof.
  unfold hexDigitValue, between. destruct ((48 <=? c) && _) eqn:E1; [intros [= <-]; lia|].
  destruct ((97 <=? c) && _) eqn:E2; [intros [= <-]; lia|]. destruct ((65 <=? c) && _) eqn:E3; [intros [= <-]; lia|done].
Qed.

Lemma hex_run_range l v : 0 <= v -> 0 <= hex_run l v < (v + 1) * 16 ^ Z.of_nat (length l).
Proof.
  revert v. induction l as [|c l IH]; intros v Hv; cbn [hex_run]; [cbn; lia|].
  cbn [length]. rewrite Nat2Z.inj_succ, Z.pow_succ_r by lia. pose proof (Z.pow_pos_nonneg 16 (Z.of_nat (length l)) ltac:(lia) ltac:(lia)).
  destruct (hexDigitValue c) as [d|] eqn:Ed; [|nia]. pose proof (hexDigitValue_range _ _ Ed) as Hd.
  rewrite (lor_shiftl_add v d 4) by lia. specialize (IH (v * 2 ^ 4 + d) ltac:(lia)). nia.
Qed.

Lemma readHex_spec at_ count v : readHex src at_ count = Some v ->
  (at_ + count <= len)%nat /\ Forall (fun u => plain_any u = true) (take count (drop at_ src)) /\ 0 <= v < 16 ^ Z.of_nat count.
Proof.
  unfold readHex. destruct (Nat.ltb_spec len (at_ + count)); [done|]. destruct (forallb _ _) eqn:E; [|done]. intros [= <-].
  split; [done|]. split.
  - apply List.Forall_forall. intros u Hu. rewrite forallb_forall in E. specialize (E u Hu). by apply hex_plain.
  - pose proof (hex_run_range (take count (drop at_ src)) 0 ltac:(lia)) as Hr.
    rewrite length_take, length_drop in Hr. replace (Nat.min count (len - at_)) with count in Hr by lia. lia.
Qed.

Lemma braced_value_range digits : 0 <= braced_value digits <= kMaxCodePoint + 1.
Proof.
  unfold braced_value. set (f := fun value c => _).
  assert (forall l v, 0 <= v <= kMaxCodePoint + 1 -> 0 <= fold_left f l v <= kMaxCodePoint + 1) as Hf.
  { induction l as [|c l IH]; intros v Hv; [done|]. cbn [fold_left]. apply IH. unfold f.
    assert (0 <= default 0 (hexDigitValue c)) by (destruct (hexDigitValue c) eqn:E; [apply hexDigitValue_range in E; cbn; lia|done]).
    destruct (Z.ltb_spec kMaxCodePoint (v * 16 + default 0 (hexDigitValue c))); unfold kMaxCodePoint in *; lia. }
  apply Hf. unfold kMaxCodePoint. lia.
Qed.

Section Escape.
Context (d : nat) (st0 : PState) (c : Z).
Hypothesis (backslash : src !! at_pos st0 = Some 92) (escaped_unit : src !! S (at_pos st0) = Some c).

Lemma past_escape : moves d st0 d (step 2 st0).
Proof. by apply moves_escape with c. Qed.

Lemma after_inside : inside (step 1 st0).
Proof. pose proof (unit_at _ _ escaped_unit). unfold inside, step. cbn. lia. Qed.

Lemma escaped_run n v : (at_pos st0 + 2 + n <= len)%nat ->
  Forall (fun u => plain_any u = true) (take n (drop (at_pos st0 + 2) src)) -> escape_ok v ->
  escaped d st0 v (step (2 + n) st0).
Proof.
  intros Hn Hf Hv. split; [|split; [cbn; lia|done]]. apply reader_moves_trans with d (step 2 st0); [apply past_escape|].
  rewrite <- step_step. apply moves_run; cbn [step at_pos]; [lia|done].
Qed.

Lemma escaped_here v : escape_ok v -> escaped d st0 v (step 2 st0).
Proof. intros Hv. split; [apply past_escape|]. split; [cbn; lia|done]. Qed.

Lemma readPropertyEscape_total negated :
  total (readPropertyEscape src fl unicodePropertySet negated) (step 1 st0) (escaped d st0).
Proof.
  unfold readPropertyEscape. destruct (negb (unicodeMode fl)); [apply total_refuse, after_inside|].
  apply bind_advance. rewrite step_step. pose proof past_escape as H2.
  apply bind_eat; cbn [negb]; [|intros _; by eapply total_refuse, moves_inside].
  intros Hbrace. assert (moves d st0 d (step 1 (step (1 + 1) st0))) as H3.
  { eapply reader_moves_trans; [exact H2|]. by eapply moves_one. }
  set (st3 := step 1 _) in *. apply bind_read_while. set (run := take_while _ _).
  assert (moves d st0 d (step (length run) st3)) as H4.
  { eapply reader_moves_trans; [exact H3|]. apply moves_while; [by eapply moves_inside|apply property_plain]. }
  set (st4 := step (length run) st3) in *.
  assert (forall name value st, moves d st0 d st -> (at_pos st0 + 2 <= at_pos st)%nat ->
    total (let! close := eat src 125 in
      if negb close then refuse "`}` was expected to close a unicode property escape"
      else if bool_decide (value = []) then refuse "a unicode property escape names no property"
      else match unicodePropertySet (asciiOf name) (asciiOf value) with
           | inr why => refuse why
           | inl set => pret (escape_set (if negated then complementInMode fl set else set)) end) st (escaped d st0)) as Hend.
  { intros name value st Hm Hp. apply bind_eat; cbn [negb]; [|intros _; by eapply total_refuse, moves_inside].
    intros Hclose. assert (moves d st0 d (step 1 st)) as Hm' by (eapply reader_moves_trans; [exact Hm|by eapply moves_one]).
    destruct (bool_decide _); [by eapply total_refuse, moves_inside|].
    destruct (unicodePropertySet _ _) as [set|why] eqn:Es; [|by eapply total_refuse, moves_inside].
    apply total_ret. split; [done|]. split; [cbn; lia|]. apply escape_set_ok. apply property_ok in Es.
    destruct negated; [by apply complementInMode_ok|done]. }
  apply bind_eat; intros He.
  - assert (moves d st0 d (step 1 st4)) as H5 by (eapply reader_moves_trans; [exact H4|by eapply moves_one]).
    apply bind_read_while. apply Hend; [|cbn; lia]. eapply reader_moves_trans; [exact H5|].
    apply moves_while; [by eapply moves_inside|apply property_plain].
  - apply total_bind, total_ret. apply Hend; [done|cbn; lia].
Qed.

Lemma readUnicodeEscape_total : total (readUnicodeEscape src fl) (step 1 st0) (escaped d st0).
Proof.
  unfold readUnicodeEscape. apply bind_position. cbn [step at_pos]. pose proof (unit_at _ _ escaped_unit) as Hlen.
  case_bool_decide as Eb.
  - destruct (negb (unicodeMode fl)); [apply total_refuse, after_inside|]. cbv zeta.
    set (digits := take_while is_hex (drop (at_pos st0 + 1 + 2) src)).
    destruct (bool_decide (digits = []) || _) eqn:Ec; [apply total_refuse, after_inside|].
    destruct (Z.ltb_spec kMaxCodePoint (braced_value digits)); [apply total_refuse, after_inside|].
    apply orb_false_iff in Ec as [_ Ec]. apply negb_false_iff, bool_decide_eq_true in Ec.
    apply bind_advance, total_ret. rewrite step_step. pose proof (unit_at _ _ Ec) as Hend.
    replace (1 + (length digits + 3))%nat with (2 + (2 + length digits))%nat by lia.
    apply escaped_run; [lia| |].
    + replace (at_pos st0 + 2)%nat with (S (at_pos st0 + 1)) by lia. rewrite (drop_at _ _ Eb). cbn [Nat.add take].
      apply Forall_cons. split; [done|].
      replace (S (S (at_pos st0 + 1))) with (at_pos st0 + 1 + 2)%nat by lia.
      destruct (take_while_prefix is_hex (drop (at_pos st0 + 1 + 2) src)) as [Ht Hf]. fold digits in Ht, Hf.
      replace (S (length digits)) with (length digits + 1)%nat by lia. rewrite <- (take_take_drop _ (length digits)), Ht.
      rewrite drop_drop, (drop_at _ _ Ec). cbn [take]. apply Forall_app. split; [|by apply Forall_singleton].
      eapply Forall_impl; [exact Hf|apply hex_plain].
    + apply escape_code_ok. pose proof (braced_value_range digits). unfold code_ok. lia.
  - destruct (readHex src (S (at_pos st0 + 1)) 4) as [v|] eqn:Ev; [|apply total_refuse, after_inside].
    apply readHex_spec in Ev as (Hn & Hf & Hv). change (16 ^ Z.of_nat 4) with 65536 in Hv.
    replace (S (at_pos st0 + 1)) with (at_pos st0 + 2)%nat in * by lia.
    apply bind_advance. rewrite step_step.
    assert (escaped d st0 (escape_code v) (step (1 + 5) st0)) as Hsimple.
    { apply (escaped_run 4); [lia|done|]. apply escape_code_ok. unfold code_ok, kMaxCodePoint. lia. }
    destruct (_ && _) eqn:Ec; [|done]. apply andb_prop in Ec as [[[_ Hlead]%andb_prop E1]%andb_prop E2].
    apply bool_decide_eq_true in E1, E2.
    destruct (readHex src _ 4) as [trail|] eqn:Et; [|done]. destruct (isTrailSurrogate trail) eqn:Htrail; [|done].
    apply readHex_spec in Et as (Hn' & Hf' & _). apply bind_advance, total_ret.
    destruct Hsimple as (Hm & _ & _). split; [|split; [cbn; lia|]].
    + eapply reader_moves_trans; [exact Hm|]. change (1 + 5)%nat with 6%nat.
      replace (step 6 (step 6 st0)) with (step 4 (step 2 (step 6 st0))) by (by rewrite !step_step).
      apply reader_moves_trans with d (step 2 (step 6 st0)).
      * apply moves_escape with 117; cbn [step at_pos]; [by replace (at_pos st0 + 6)%nat with (at_pos st0 + 1 + 5)%nat by lia|].
        by replace (S (at_pos st0 + 6)) with (at_pos st0 + 1 + 6)%nat by lia.
      * apply moves_run; cbn [step at_pos]; [lia|].
        by replace (at_pos st0 + 6 + 2)%nat with (at_pos st0 + 1 + 7)%nat by lia.
    + apply escape_code_ok. unfold code_ok, kMaxCodePoint, isLeadSurrogate, isTrailSurrogate in *.
      rewrite Z.shiftl_mul_pow2 by lia. lia.
Qed.

Lemma readControlEscape_total : total (readControlEscape src) (step 1 st0) (escaped d st0).
Proof.
  unfold readControlEscape. apply bind_position. cbn [step at_pos].
  destruct (src !! S (at_pos st0 + 1)) as [letter|] eqn:El; [|apply total_refuse, after_inside].
  destruct (isLetter letter) eqn:Hl; [|apply total_refuse, after_inside].
  apply bind_advance, total_ret. rewrite step_step. pose proof (unit_at _ _ El).
  replace (S (at_pos st0 + 1)) with (at_pos st0 + 2)%nat in El by lia.
  apply (escaped_run 1); [lia| |].
  - rewrite (drop_at _ _ El). apply Forall_singleton. by apply letter_plain.
  - apply escape_code_ok. unfold code_ok, kMaxCodePoint. pose proof (Z.mod_pos_bound letter 32 ltac:(lia)). lia.
Qed.

Lemma one_total v : escape_ok v -> total (advance 1 ;; pret v) (step 1 st0) (escaped d st0).
Proof. intros Hv. apply bind_advance, total_ret. rewrite step_step. by apply escaped_here. Qed.

Lemma readEscapeValue_total inClass :
  total (readEscapeValue src fl unicodePropertySet inClass) (step 1 st0) (escaped d st0).
Proof.
  unfold readEscapeValue. apply bind_peek. cbn [step at_pos].
  replace (default 0 (src !! (at_pos st0 + 1 + 0)%nat)) with c
    by (replace (at_pos st0 + 1 + 0)%nat with (S (at_pos st0)) by lia; by rewrite escaped_unit).
  cbv zeta. pose proof after_inside as Hin. pose proof past_escape as H2.
  assert (forall k, 0 <= k <= 0x10FFFF -> escape_ok (escape_code k)) as Hk.
  { intros k Hk. by apply escape_code_ok. }
  assert (code_ok c) as Hc by (by eapply unit_ok).
  pose proof digitRanges_ok. pose proof spaceRanges_ok. pose proof (wordRanges_ok (ignoreCase fl) (unicodeMode fl)).
  destruct (c =? 100); [by apply one_total, escape_set_ok|].
  destruct (c =? 68); [by apply one_total, escape_set_ok, complementInMode_ok|].
  destruct (c =? 115); [by apply one_total, escape_set_ok|].
  destruct (c =? 83); [by apply one_total, escape_set_ok, complementInMode_ok|].
  destruct (c =? 119); [by apply one_total, escape_set_ok|].
  destruct (c =? 87); [by apply one_total, escape_set_ok, complementInMode_ok|].
  destruct (_ || _); [apply readPropertyEscape_total|]. destruct (_ && inClass); [by apply total_refuse|].
  destruct (c =? 102); [by apply one_total, Hk|]. destruct (c =? 110); [by apply one_total, Hk|].
  destruct (c =? 114); [by apply one_total, Hk|]. destruct (c =? 116); [by apply one_total, Hk|].
  destruct (c =? 118); [by apply one_total, Hk|].
  destruct (c =? 48).
  { apply bind_advance, bind_atEnd, bind_peek. rewrite step_step.
    destruct (_ && _); [by eapply total_refuse, moves_inside|]. by apply total_ret, escaped_here, Hk. }
  destruct (c =? 99); [apply readControlEscape_total|].
  destruct (c =? 120).
  { apply bind_position. cbn [step at_pos]. destruct (readHex src _ 2) as [v|] eqn:Ev; [|by apply total_refuse].
    apply readHex_spec in Ev as (Hn & Hf & Hv). change (16 ^ Z.of_nat 2) with 256 in Hv. apply bind_advance, total_ret.
    rewrite step_step. replace (S (at_pos st0 + 1)) with (at_pos st0 + 2)%nat in * by lia.
    apply (escaped_run 2); [lia|done|]. apply Hk. lia. }
  destruct (c =? 117); [apply readUnicodeEscape_total|]. destruct (c =? 98); [by apply one_total, Hk|].
  destruct (isAlphanumeric c); [by apply total_refuse|].
  destruct (_ && isClassSetReservedPunctuator c); [by apply one_total, escape_code_ok|].
  destruct (_ && _); [by apply total_refuse|by apply one_total, escape_code_ok].
Qed.
End Escape.

(** From the backslash on. *)
Lemma backslash_total d st inClass : src !! at_pos st = Some 92 ->
  total (after_backslash src fl unicodePropertySet inClass) (step 1 st) (escaped d st).
Proof.
  intros Hb. pose proof (unit_at _ _ Hb) as Hlen. unfold after_backslash. apply bind_atEnd. cbn [step at_pos].
  destruct (Nat.leb_spec len (at_pos st + 1)); [apply total_refuse; unfold inside; cbn; lia|].
  destruct (src !! S (at_pos st)) as [c|] eqn:Ec; [by apply (readEscapeValue_total d st c)|].
  apply lookup_ge_None in Ec. lia.
Qed.

(** A character of the pattern that the pre-scan reads past. *)
Lemma readSourceCharacter_total d st u : src !! at_pos st = Some u -> plain d u = true ->
  total (readSourceCharacter src fl) st (fun c st' => moves d st d st' /\ (at_pos st < at_pos st')%nat /\ code_ok c).
Proof.
  intros Hu Hp. pose proof (unit_at _ _ Hu) as Hlen. unfold total, readSourceCharacter.
  pose proof (unit_ok _ _ Hu) as Hok.
  assert (src.[at_pos st] = u) as El by (unfold limb; by rewrite Hu).
  destruct (codePointAt_cases src (at_pos st) (unicodeMode fl) Hlen) as [[-> _]|(-> & _ & Hlt & Hlead & Htrail)]; cbn [width code].
  - change (mkPState (at_pos st + 1) (captures_seen st) (nesting st)) with (step 1 st).
    split; [by apply moves_plain with u|]. split; [cbn; lia|]. by rewrite El.
  - change (mkPState (at_pos st + 2) (captures_seen st) (nesting st)) with (step 2 st).
    split; [|split; [cbn; lia|]].
    + apply reader_moves_trans with d (step 1 st); [by apply moves_plain with u|]. change 2%nat with (1 + 1)%nat. rewrite <- step_step.
      destruct (src !! (at_pos st + 1)%nat) as [w|] eqn:Ew; [|apply lookup_ge_None in Ew; lia].
      apply moves_one with w; [done|]. unfold limb in Htrail. rewrite Ew in Htrail. cbn in Htrail.
      unfold isTrailSurrogate, plain_any in *. lia.
    + unfold code_ok, combineSurrogates, isLeadSurrogate, isTrailSurrogate, kMaxCodePoint in *.
      rewrite ?Z.shiftl_mul_pow2 by lia. lia.
Qed.

(** *** The flat class *)

Lemma peek_here st u : src !! at_pos st = Some u -> default 0 (src !! (at_pos st + 0)%nat) = u.
Proof. apply unit_default. Qed.

Lemma here st : (at_pos st < len)%nat -> exists u, src !! at_pos st = Some u.
Proof. intros H. destruct (src !! at_pos st) as [u|] eqn:E; [by exists u|]. apply lookup_ge_None in E. lia. Qed.

(** A reader that moved on [d] deep and took something. *)
Definition took {A} (d : nat) (st : PState) (ok : A -> Prop) (a : A) (st' : PState) : Prop :=
  moves d st d st' /\ (at_pos st < at_pos st')%nat /\ ok a.

Lemma readClassAtom_total d st : unicodeSets fl = false -> inside st -> src !! at_pos st <> Some 93 ->
  total (readClassAtom src fl unicodePropertySet) st (took (S d) st escape_ok).
Proof.
  intros Hus Hi Hne. unfold readClassAtom. apply bind_atEnd.
  destruct (Nat.leb_spec len (at_pos st)) as [|Hlen]; [by apply total_refuse|].
  destruct (here st Hlen) as [u Hu]. apply bind_peek. rewrite (peek_here st u Hu).
  destruct (Z.eqb_spec u 92) as [->|Hn]; cbn [negb].
  - apply bind_advance. eapply total_weaken; [|by apply backslash_total]. intros v st' (Hm & Hp & Hv).
    split; [exact Hm|]. split; [lia|done].
  - eapply total_then; [apply (readSourceCharacter_total (S d) st u Hu)|].
    + unfold plain. rewrite Hus. destruct (Z.eqb_spec u 93); [congruence|]. destruct (Z.eqb_spec u 92); [done|]. by rewrite andb_false_r.
    + intros c st' (Hm & Hp & Hc). apply total_ret. split; [done|]. split; [done|]. by apply escape_code_ok.
Qed.

Lemma class_range_total l h ranges st (Q : list Range -> PState -> Prop) : inside st -> code_ok l -> code_ok h -> Forall range_ok ranges ->
  (forall r, Forall range_ok r -> Q r st) -> total (class_range fl l h ranges) st Q.
Proof.
  intros Hi Hl Hh Hr HQ. unfold class_range, caseTableFailure. destruct (h <? l); [by apply total_refuse|].
  destruct (_ && _); [destruct (firstUnknownCasedUnitInRange l h); [by apply total_refuse|]|]; by apply total_ret, HQ, addRange_ok.
Qed.

Lemma class_member_total lhs ranges st (Q : list Range -> PState -> Prop) : inside st -> escape_ok lhs -> Forall range_ok ranges ->
  (forall r, Forall range_ok r -> Q r st) -> total (class_member fl lhs ranges) st Q.
Proof.
  intros Hi [Hc Hs] Hr HQ. unfold class_member, caseTableFailure.
  destruct (isSet lhs); [by apply total_ret, HQ, Forall_app|]. destruct (_ && _); [by apply total_refuse|].
  by apply total_ret, HQ, addRange_ok.
Qed.

Lemma class_loop_total d fuel : unicodeSets fl = false -> forall st ranges, inside st -> (len - at_pos st < fuel)%nat ->
  Forall range_ok ranges ->
  total (class_loop src fl unicodePropertySet fuel ranges) st
    (fun r st' => moves (S d) st (S d) st' /\ Forall range_ok r).
Proof.
  intros Hus. induction fuel as [|fuel IH]; intros st ranges Hi Hf Hr; [lia|]. cbn [class_loop].
  apply bind_atEnd, bind_peek. destruct (Nat.leb_spec len (at_pos st)) as [|Hlen]; cbn [orb].
  { apply total_ret. split; [by apply reader_moves_refl|done]. }
  destruct (here st Hlen) as [u Hu]. rewrite (peek_here st u Hu).
  destruct (Z.eqb_spec u 93) as [|Hne]; [apply total_ret; split; [by apply reader_moves_refl|done]|].
  assert (forall r st', moves (S d) st (S d) st' -> (at_pos st < at_pos st')%nat -> Forall range_ok r ->
    total (class_loop src fl unicodePropertySet fuel r) st' (fun r st'' => moves (S d) st (S d) st'' /\ Forall range_ok r)) as Hnext.
  { intros r st' Hm Hp Hr'. eapply total_weaken; [|apply IH; [by eapply moves_inside|destruct Hm as [? _]; lia|done]].
    intros r' st'' [Hm' ?]. split; [by eapply reader_moves_trans|done]. }
  eapply total_then; [apply (readClassAtom_total d); [done|done|congruence]|]. intros lhs st1 (M1 & P1 & H1).
  apply total_bind. unfold total at 1, range_follows.
  destruct (negb (isSet lhs) && _) eqn:Er.
  - apply andb_prop in Er as [_ [Hdash Hnot]%andb_prop]. apply bool_decide_eq_true in Hdash.
    assert (moves (S d) st1 (S d) (step 1 st1)) as Md by (by eapply moves_one).
    apply total_bind, bind_advance. eapply total_then; [apply (readClassAtom_total d); [done|by eapply moves_inside|]|].
    + cbn [step at_pos]. rewrite Nat.add_1_r. destruct (src !! S (at_pos st1)) as [w|]; [|done]. intros [= ->]. done.
    + intros rhs st2 (M2 & P2 & H2). assert (moves (S d) st (S d) st2) as M by (eauto using reader_moves_trans).
      destruct (isSet rhs); [by eapply total_refuse, moves_inside|]. destruct H1, H2.
      apply class_range_total; [by eapply moves_inside|done..|]. intros r Hr'. apply Hnext; [done| |done]. cbn in P2. lia.
  - apply total_bind, class_member_total; [by eapply moves_inside|done..|]. intros r Hr'. by apply Hnext.
Qed.

(** A class as the tree keeps it. *)
Definition class_ok (ranges : list Range) (strings : list (list Z)) : Prop :=
  normal ranges /\ StronglySorted (fun a b => (length b <= length a)%nat) strings /\ Forall (fun s => (2 <= length s)%nat) strings.

Definition class_node_ok (n : Node) : Prop :=
  match n with
  | CharClass ranges negated strings matchesEmpty =>
      class_ok ranges strings /\ (unicodeSets fl = false -> strings = [] /\ matchesEmpty = false)
  | _ => False
  end.

Lemma parseClassRanges_total st : unicodeSets fl = false -> src !! at_pos st = Some 91 ->
  total (parseClassRanges src fl unicodePropertySet) st (took 0 st class_node_ok).
Proof.
  intros Hus Hu. unfold parseClassRanges. assert (moves 0 st 1 (step 1 st)) as M1 by (apply moves_open; auto).
  apply bind_advance.
  assert (forall negated st1, moves 1 (step 1 st) 1 st1 ->
    total (let! ranges := class_loop src fl unicodePropertySet (S len) [] in
           let! close := eat src 93 in
           if close then pret (CharClass (normalizeRanges ranges) negated [] false)
           else refuse "`]` was expected to close a character class") st1 (took 0 st class_node_ok)) as Hbody.
  { intros negated st1 M2. eapply total_then; [apply (class_loop_total 0); [done|by eapply moves_inside|lia|constructor]|].
    intros ranges st2 [M3 Hr]. apply bind_eat; [|intros _; by eapply total_refuse, moves_inside].
    intros Hc. apply total_ret. split; [|split].
    - eapply reader_moves_trans; [exact M1|]. eapply reader_moves_trans; [exact M2|]. eapply reader_moves_trans; [exact M3|]. by apply moves_close.
    - apply moves_position in M1, M2, M3. cbn in *. lia.
    - split; [|done]. split; [by apply normalized_ok|]. split; constructor. }
  apply bind_eat; intros Hn; apply Hbody; [by eapply moves_one|by eapply reader_moves_refl, moves_inside].
Qed.
(** *** The set expressions *)

Definition deeper (st : PState) : PState := mkPState (at_pos st) (captures_seen st) (S (nesting st)).
Definition shallower (st : PState) : PState := mkPState (at_pos st) (captures_seen st) (nesting st - 1).

Lemma total_guarded {A} (m : P A) st Q : inside st -> total m (deeper st) (fun a st' => Q a (shallower st')) ->
  total (guarded m) st Q.
Proof.
  intros Hi Hm. unfold total, guarded. destruct (kParserMaxDepth <=? nesting st)%nat; [exact Hi|].
  unfold total, deeper in Hm. by destruct (m _) as [[|]|].
Qed.

Lemma moves_guarded d d' st st' : moves d (deeper st) d' st' -> moves d st d' (shallower st').
Proof. intros (Hp & Hn & Ha). split; [exact Hp|]. split; [|exact Ha]. cbn in *. lia. Qed.

Definition set_ok (v : ClassSetValue) : Prop :=
  Forall range_ok (cranges v) /\ Forall (fun s => (2 <= length s)%nat) (cstrings v).

Lemma class_of_ok ranges : Forall range_ok ranges -> set_ok (class_of ranges).
Proof. intros H. split; [done|constructor]. Qed.

Lemma empty_class_ok : set_ok empty_class.
Proof. split; constructor. Qed.

Lemma addString_ok l s : Forall (fun s => (2 <= length s)%nat) l -> (2 <= length s)%nat ->
  Forall (fun s => (2 <= length s)%nat) (addString l s).
Proof. intros Hl Hs. unfold addString. destruct (hasString l s); [done|]. apply Forall_app. split; [done|by apply Forall_singleton]. Qed.

Lemma filter_strings_ok f l : Forall (fun s : list Z => (2 <= length s)%nat) l ->
  Forall (fun s : list Z => (2 <= length s)%nat) (List.filter f l).
Proof. intros H. induction H as [|s l Hs Hl IH]; [constructor|]. cbn. destruct (f s); [by constructor|done]. Qed.

Lemma class_and_ok a b : set_ok a -> set_ok b -> set_ok (class_and fl a b).
Proof.
  intros [Ha Sa] [Hb _]. split; [|by apply filter_strings_ok]. apply intersectRanges_ok; by apply foldedForOperation_ok.
Qed.

Lemma class_minus_ok a b : set_ok a -> set_ok b -> set_ok (class_minus fl a b).
Proof.
  intros [Ha Sa] [Hb _]. split; [|by apply filter_strings_ok]. apply subtractRanges_ok; by apply foldedForOperation_ok.
Qed.

Lemma class_or_ok a b : set_ok a -> set_ok b -> set_ok (class_or a b).
Proof.
  intros [Ha Sa] [Hb Sb]. split; [by apply Forall_app|]. cbn [class_or cstrings]. revert Sa. generalize (cstrings a).
  induction Sb as [|s l Hs _ IH]; intros acc Hacc; [done|]. cbn [fold_left]. by apply IH, addString_ok.
Qed.

Lemma add_alternative_ok out alternative : set_ok out -> Forall code_ok alternative -> set_ok (add_alternative out alternative).
Proof.
  intros [Hr Hs] Ha. destruct alternative as [|c [|c' rest]]; cbn [add_alternative].
  - by split.
  - apply Forall_cons in Ha as [Hc _]. split; [by apply addRange_ok|done].
  - split; [done|]. apply addString_ok; [done|]. cbn. lia.
Qed.

Lemma readClassSetCharacter_total d st : inside st -> total (readClassSetCharacter src fl) st (took (S d) st code_ok).
Proof.
  intros Hi. unfold readClassSetCharacter. apply bind_atEnd.
  destruct (Nat.leb_spec len (at_pos st)) as [|Hlen]; [by apply total_refuse|]. destruct (here st Hlen) as [u Hu].
  apply bind_peek, bind_peek. rewrite (peek_here st u Hu).
  destruct (isClassSetSyntaxCharacter u) eqn:Es; [by apply total_refuse|]. destruct (_ && _); [by apply total_refuse|].
  apply (readSourceCharacter_total (S d) st u Hu). unfold isClassSetSyntaxCharacter in Es. unfold plain. cbn in Es. lia.
Qed.

(** A single character, bare or escaped: in a string member or at the end of a range. *)
Lemma escaped_character_total d st what : inside st ->
  total (let! c := peek src 0 in
         if c =? 92 then
           advance 1 ;;
           let! value := after_backslash src fl unicodePropertySet true in
           if isSet value then refuse what else pret (ecode value)
         else readClassSetCharacter src fl) st (took (S d) st code_ok).
Proof.
  intros Hi. apply bind_peek. destruct (Z.eqb_spec (default 0 (src !! (at_pos st + 0)%nat)) 92) as [E|];
    [|by apply readClassSetCharacter_total].
  assert (src !! at_pos st = Some 92) as Hb.
  { rewrite Nat.add_0_r in E. destruct (src !! at_pos st); cbn in E; congruence. }
  apply bind_advance. eapply total_then; [by apply (backslash_total (S d))|]. intros v st' (Hm & Hp & Hc & _).
  destruct (isSet v); [by eapply total_refuse, moves_inside|]. apply total_ret. split; [done|]. split; [lia|done].
Qed.

Lemma alternative_loop_total d fuel : forall st acc, inside st -> (len - at_pos st < fuel)%nat -> Forall code_ok acc ->
  total (alternative_loop src fl unicodePropertySet fuel acc) st
    (fun a st' => moves (S d) st (S d) st' /\ Forall code_ok a).
Proof.
  induction fuel as [|fuel IH]; intros st acc Hi Hf Ha; [lia|]. cbn [alternative_loop]. apply bind_atEnd, bind_peek.
  destruct (_ || _); [apply total_ret; split; [by apply reader_moves_refl|done]|].
  eapply total_then; [by apply (escaped_character_total d)|]. intros c st' (Hm & Hp & Hc).
  eapply total_weaken; [|apply IH].
  - intros a st'' [Hm' ?]. split; [by eapply reader_moves_trans|done].
  - by eapply moves_inside.
  - destruct Hm as [? _]. lia.
  - apply Forall_app. split; [done|by apply Forall_singleton].
Qed.

Lemma disjunction_loop_total d fuel : forall st out, inside st -> (len - at_pos st < fuel)%nat -> set_ok out ->
  total (disjunction_loop src fl unicodePropertySet fuel out) st (fun a st' => moves (S d) st (S d) st' /\ set_ok a).
Proof.
  induction fuel as [|fuel IH]; intros st out Hi Hf Ho; [lia|]. cbn [disjunction_loop].
  eapply total_then; [apply (alternative_loop_total d); [done|lia|constructor]|]. intros alternative st1 [M1 Ha].
  pose proof (moves_inside _ _ _ _ M1) as Hi1. pose proof (add_alternative_ok out alternative Ho Ha) as Ho1. cbv zeta.
  apply bind_eat.
  - intros Hu. assert (moves (S d) st (S d) (step 1 st1)) as M2 by (eapply reader_moves_trans; [exact M1|by eapply moves_one]).
    eapply total_weaken; [|apply IH; [by eapply moves_inside| |done]].
    + intros a st'' [Hm' ?]. split; [by eapply reader_moves_trans|done].
    + destruct M1 as [? _]. destruct M2 as [? _]. cbn in *. lia.
  - intros _. apply bind_eat; [|intros _; by apply total_refuse]. intros Hu. apply total_ret. split; [|done].
    eapply reader_moves_trans; [exact M1|by eapply moves_one].
Qed.

Lemma readClassStringDisjunction_total d st : inside st ->
  total (readClassStringDisjunction src fl unicodePropertySet) st (fun a st' => moves (S d) st (S d) st' /\ set_ok a).
Proof.
  intros Hi. unfold readClassStringDisjunction. apply bind_eat; cbn [negb]; [|intros _; by apply total_refuse].
  intros Hu. assert (moves (S d) st (S d) (step 1 st)) as M1 by (by eapply moves_one).
  eapply total_then; [apply (disjunction_loop_total d); [by eapply moves_inside|lia|apply empty_class_ok]|].
  intros out st' [M2 [Hr Hs]]. cbv zeta. assert (moves (S d) st (S d) st') as M by (by eapply reader_moves_trans).
  destruct (_ && _); [by eapply total_refuse, moves_inside|]. apply total_ret. split; [done|].
  split; [by apply normalizeRanges_ok|done].
Qed.

Definition operand_ok (o : Operand) : Prop := set_ok o.1 /\ forall c, o.2 = Some c -> code_ok c.

Definition nested_ok (v : ClassSetValue) : Prop := normal (cranges v) /\ Forall (fun s => (2 <= length s)%nat) (cstrings v).

Lemma nested_set v : nested_ok v -> set_ok v.
Proof. intros [H ?]. split; [by apply normal_ok|done]. Qed.

Lemma normalized_set out : set_ok out ->
  set_ok (mkClassSet (normalizeRanges (cranges out)) (cstrings out) (cempty out) (mayContainStrings out)).
Proof. intros [? ?]. split; [by apply normalizeRanges_ok|done]. Qed.

Section SetExpressions.
Hypothesis (sets : unicodeSets fl = true).

Definition reads {A} (d : nat) (ok : A -> Prop) (m : P A) (st : PState) : Prop :=
  total m st (fun a st' => moves (S d) st (S d) st' /\ ok a).

Notation nested := (readNestedClass src fl unicodePropertySet).
Notation expression := (readClassSetExpression src fl unicodePropertySet).
Notation ands := (and_loop src fl unicodePropertySet).
Notation minuses := (minus_loop src fl unicodePropertySet).
Notation unions := (union_loop src fl unicodePropertySet).
Notation operand := (readClassSetOperand src fl unicodePropertySet).

Definition class_readers (fuel : nat) : Prop :=
  (forall d st, src !! at_pos st = Some 91 -> (4 * (len - at_pos st) <= fuel)%nat -> total (nested fuel) st (took d st nested_ok)) /\
  (forall d st, inside st -> (4 * (len - at_pos st) + 3 <= fuel)%nat -> reads d set_ok (expression fuel) st) /\
  (forall d st acc, inside st -> (4 * (len - at_pos st) + 2 <= fuel)%nat -> set_ok acc -> reads d set_ok (ands fuel acc) st) /\
  (forall d st acc, inside st -> (4 * (len - at_pos st) + 2 <= fuel)%nat -> set_ok acc -> reads d set_ok (minuses fuel acc) st) /\
  (forall d st out pending, inside st -> (4 * (len - at_pos st) + 2 <= fuel)%nat -> set_ok out -> operand_ok pending ->
    reads d set_ok (unions fuel out pending) st) /\
  (forall d st, inside st -> (4 * (len - at_pos st) + 1 <= fuel)%nat -> total (operand fuel) st (took (S d) st operand_ok)).

Lemma reads_from {A B} d (ok : A -> Prop) (ok' : B -> Prop) (f : A -> P B) (m : P A) st :
  total m st (took (S d) st ok) -> (forall a st', moves (S d) st (S d) st' -> (at_pos st < at_pos st' <= len)%nat -> ok a -> reads d ok' (f a) st') ->
  reads d ok' (pbind m f) st.
Proof.
  intros Hm Hf. eapply total_then; [exact Hm|]. intros a st' (M & Hp & Ha).
  assert (at_pos st < at_pos st' <= len)%nat as Hpos by (destruct M as [? _]; lia).
  eapply total_weaken; [|apply (Hf a st' M Hpos Ha)]. intros b st'' [M' Hb]. split; [by eapply reader_moves_trans|done].
Qed.

Lemma reads_move {A} d (ok : A -> Prop) (m : P A) st st' : moves (S d) st (S d) st' -> reads d ok m st' ->
  total m st' (fun a st'' => moves (S d) st (S d) st'' /\ ok a).
Proof. intros M H. eapply total_weaken; [|exact H]. intros a st'' [M' Ha]. split; [by eapply reader_moves_trans|done]. Qed.

Lemma operator_reads d c loop combine st acc fuel :
  plain_any c = true -> (forall a b, set_ok a -> set_ok b -> set_ok (combine a b)) ->
  (forall st, inside st -> (4 * (len - at_pos st) + 1 <= fuel)%nat -> total (operand fuel) st (took (S d) st operand_ok)) ->
  (forall st acc, inside st -> (4 * (len - at_pos st) + 2 <= fuel)%nat -> set_ok acc -> reads d set_ok (loop acc) st) ->
  inside st -> (4 * (len - at_pos st) + 2 <= S fuel)%nat -> set_ok acc ->
  reads d set_ok (let! again := eatTwo src c in
    if again then let! rhs := operand fuel in loop (combine acc rhs.1) else pret acc) st.
Proof.
  intros Hc Hcombine Ho Hloop Hi Hf Ha. apply bind_eatTwo; [|apply total_ret; split; [by apply reader_moves_refl|done]].
  intros H1 H2. pose proof (unit_at _ _ H2).
  assert (moves (S d) st (S d) (step 2 st)) as M.
  { apply moves_run; [lia|]. rewrite (drop_at _ _ H1), (drop_at _ _ H2). cbn [take]. by repeat constructor. }
  apply (reads_move d set_ok _ st (step 2 st) M). apply reads_from with operand_ok.
  { apply Ho; [by eapply moves_inside|cbn; lia]. }
  intros rhs st' M' Hp [Hr _]. apply Hloop; [by eapply moves_inside|cbn in Hp; lia|by apply Hcombine].
Qed.

Lemma nested_step fuel d st : class_readers fuel -> src !! at_pos st = Some 91 -> (4 * (len - at_pos st) <= S fuel)%nat ->
  total (nested (S fuel)) st (took d st nested_ok).
Proof.
  intros (_ & Hexp & _) Hu Hf. pose proof (unit_at _ _ Hu). cbn [readNestedClass].
  apply total_guarded; [unfold inside; lia|].
  assert (moves d (deeper st) (S d) (step 1 (deeper st))) as M1 by (apply moves_open; auto).
  apply bind_advance.
  assert (forall negated st1, moves (S d) (step 1 (deeper st)) (S d) st1 ->
    total (let! set := expression fuel in
           let! close := eat src 93 in
           if negb close then refuse "`]` was expected to close a character class"
           else if negated && mayContainStrings set then
             refuse "a negated `v`-mode character class cannot contain a set of strings (22.2.1 makes `[^...\q{...}...]` an early error, because the complement of a set of sequences is not a set of characters)"
           else pret (mkClassSet (normalizeRanges (if negated then complementInMode fl (cranges set) else cranges set))
                  (cstrings set) (cempty set) (if negated then false else mayContainStrings set))) st1
      (fun a st' => took d st nested_ok a (shallower st'))) as Hbody.
  { intros negated st1 M2. pose proof (moves_position _ _ _ _ M2) as P2. cbn in P2.
    eapply total_then; [apply Hexp; [by eapply moves_inside|lia]|]. intros set st2 [M3 [Hr Hs]].
    apply bind_eat; cbn [negb]; [|intros _; by eapply total_refuse, moves_inside]. intros Hc.
    assert (moves d (deeper st) d (step 1 st2)) as M.
    { eapply reader_moves_trans; [exact M1|]. eapply reader_moves_trans; [exact M2|]. eapply reader_moves_trans; [exact M3|]. by apply moves_close. }
    destruct (negated && _); [by eapply total_refuse, moves_inside|]. apply total_ret. split; [by apply moves_guarded|].
    apply moves_position in M3. split; [cbn; lia|]. split; [|done]. apply normalized_ok.
    destruct negated; [by apply complementInMode_ok|done]. }
  apply bind_eat; intros Hn; apply Hbody; [by eapply moves_one|by eapply reader_moves_refl, moves_inside].
Qed.

Lemma expression_step fuel d st : class_readers fuel -> inside st -> (4 * (len - at_pos st) + 3 <= S fuel)%nat ->
  reads d set_ok (expression (S fuel)) st.
Proof.
  intros (_ & _ & Hand & Hminus & Hunion & Hoperand) Hi Hf. cbn [readClassSetExpression]. apply bind_peek.
  destruct (_ =? 93); [apply total_ret; split; [by apply reader_moves_refl|apply empty_class_ok]|].
  apply reads_from with operand_ok; [apply Hoperand; [done|lia]|]. intros first st1 M1 P1 [Hset Hchar].
  pose proof (moves_inside _ _ _ _ M1) as Hi1.
  assert (forall m : P ClassSetValue, reads d set_ok m st1 -> forall c,
    reads d set_ok (let! acc := m in let! two := doubled src c in if two then mixed else pret acc) st1) as Hmix.
  { intros m Hm c. eapply total_then; [exact Hm|]. intros acc st2 [M2 Ha]. unfold doubled. apply total_bind.
    apply bind_peek, bind_peek, total_ret. destruct (_ && _); [by eapply total_refuse, moves_inside|by apply total_ret]. }
  unfold doubled at 1. apply total_bind, bind_peek, bind_peek, total_ret.
  destruct (_ && _); [apply Hmix, Hand; [done|lia|done]|].
  unfold doubled at 1. apply total_bind, bind_peek, bind_peek, total_ret.
  destruct (_ && _); [apply Hmix, Hminus; [done|lia|done]|].
  eapply total_then; [apply (Hunion d); [done|lia|apply empty_class_ok|by split]|]. intros out st2 [M2 Ho].
  apply total_ret. split; [done|by apply normalized_set].
Qed.

Lemma union_step fuel d st out pending : class_readers fuel -> inside st -> (4 * (len - at_pos st) + 2 <= S fuel)%nat ->
  set_ok out -> operand_ok pending -> reads d set_ok (unions (S fuel) out pending) st.
Proof.
  intros (_ & _ & _ & _ & Hunion & Hoperand) Hi Hf Ho [Hset Hchar]. cbn [union_loop]. apply bind_peek, bind_peek.
  assert (forall out' st', moves (S d) st (S d) st' -> set_ok out' ->
    total (let! ended := atEnd src in let! c := peek src 0 in
           if ended || (c =? 93) then pret out'
           else let! pending := operand fuel in unions fuel out' pending) st'
      (fun a st'' => moves (S d) st (S d) st'' /\ set_ok a)) as Hnext.
  { intros out' st' M Ho'. apply (reads_move d set_ok _ st st' M). apply bind_atEnd, bind_peek.
    pose proof (moves_inside _ _ _ _ M). pose proof (moves_position _ _ _ _ M).
    destruct (_ || _); [apply total_ret; split; [by apply reader_moves_refl|done]|].
    apply reads_from with operand_ok; [apply Hoperand; [done|lia]|]. intros p st'' M' Hp Hop.
    apply Hunion; [by eapply moves_inside|lia|done|done]. }
  apply total_bind. destruct pending.2 as [low|]; [|by apply total_ret, Hnext; [apply reader_moves_refl|apply class_or_ok]].
  destruct (_ && _) eqn:Edash; [|by apply total_ret, Hnext; [apply reader_moves_refl|apply class_or_ok]].
  apply andb_prop in Edash as [[Edash _]%andb_prop _]. apply Z.eqb_eq in Edash.
  assert (src !! at_pos st = Some 45) as Hu.
  { rewrite Nat.add_0_r in Edash. destruct (src !! at_pos st); cbn in Edash; congruence. }
  assert (moves (S d) st (S d) (step 1 st)) as M1 by (by eapply moves_one).
  apply bind_advance. eapply total_then; [apply (escaped_character_total d); by eapply moves_inside|].
  intros high st' (M2 & _ & Hh). assert (moves (S d) st (S d) st') as M by (by eapply reader_moves_trans).
  destruct (high <? low); [by eapply total_refuse, moves_inside|]. apply total_ret, Hnext; [done|].
  destruct Ho. split; [|done]. apply addRange_ok; auto.
Qed.

Lemma operand_step fuel d st : class_readers fuel -> inside st -> (4 * (len - at_pos st) + 1 <= S fuel)%nat ->
  total (operand (S fuel)) st (took (S d) st operand_ok).
Proof.
  intros (Hnested & _) Hi Hf. cbn [readClassSetOperand]. apply bind_atEnd.
  destruct (Nat.leb_spec len (at_pos st)) as [|Hlen]; [by apply total_refuse|]. destruct (here st Hlen) as [u Hu].
  apply bind_peek, bind_peek. rewrite (peek_here st u Hu).
  assert (forall c, code_ok c -> operand_ok (class_of (addRange [] c c), Some c)) as Hone.
  { intros c Hc. split; [apply class_of_ok, addRange_ok; [constructor|done|done]|]. by intros ? [= <-]. }
  destruct (Z.eqb_spec u 91) as [->|].
  { eapply total_then; [apply (Hnested (S d)); [done|lia]|]. intros v st' (M & Hp & Hv). apply total_ret.
    split; [done|]. split; [done|]. split; [by apply nested_set|done]. }
  destruct (Z.eqb_spec u 92) as [->|].
  - destruct (Z.eqb_spec (default 0 (src !! (at_pos st + 1)%nat)) 113) as [Eq|].
    + assert (src !! S (at_pos st) = Some 113) as Hq.
      { rewrite Nat.add_1_r in Eq. destruct (src !! S (at_pos st)); cbn in Eq; congruence. }
      assert (moves (S d) st (S d) (step 2 st)) as M1 by (by eapply moves_escape).
      apply bind_advance. eapply total_then; [apply (readClassStringDisjunction_total d); by eapply moves_inside|].
      intros v st' [M2 Hv]. apply total_ret. split; [by eapply reader_moves_trans|]. apply moves_position in M2. cbn in M2.
      split; [lia|]. by split.
    + apply bind_advance. eapply total_then; [by apply (backslash_total (S d))|]. intros v st' (M & Hp & Hc & Hs).
      destruct (isSet v); apply total_ret; (split; [done|split; [lia|]]); [|by apply Hone].
      split; [by apply class_of_ok|done].
  - eapply total_then; [by apply (readClassSetCharacter_total d)|]. intros c st' (M & Hp & Hc). apply total_ret.
    split; [done|]. split; [done|by apply Hone].
Qed.

Lemma class_readers_total fuel : class_readers fuel.
Proof.
  induction fuel as [|fuel IH].
  { split_and!; intros; try lia. pose proof (unit_at _ _ H). lia. }
  pose proof IH as (_ & _ & Hand & Hminus & _ & Hoperand).
  split_and!; intros.
  - by apply nested_step.
  - by apply expression_step.
  - cbn [and_loop]. apply (operator_reads _ 38 (ands fuel) (class_and fl) _ _ fuel); auto using class_and_ok.
  - cbn [minus_loop]. apply (operator_reads _ 45 (minuses fuel) (class_minus fl) _ _ fuel); auto using class_minus_ok.
  - by apply union_step.
  - by apply operand_step.
Qed.

(** The longest strings come first. *)
Lemma longest_first_total : Total longest_first.
Proof.
  assert (forall a b, points_le a b = true \/ points_le b a = true) as Hp.
  { induction a as [|x a IH]; intros [|y b]; cbn; auto. destruct (Z.lt_trichotomy x y) as [H|[->|H]].
    - left. by rewrite (proj2 (Z.ltb_lt x y)).
    - rewrite Z.ltb_irrefl, Z.eqb_refl. apply IH.
    - right. by rewrite (proj2 (Z.ltb_lt y x)). }
  intros a b. unfold longest_first. rewrite (Nat.eqb_sym (length b)). destruct (Nat.eqb_spec (length a) (length b)).
  - destruct (Hp a b) as [->| ->]; [by left|by right].
  - destruct (Nat.ltb_spec (length b) (length a)); [by left|]. right. destruct (Nat.ltb_spec (length a) (length b)); [done|lia].
Qed.

Lemma sortLongestFirst_ok strings : Forall (fun s => (2 <= length s)%nat) strings ->
  StronglySorted (fun a b => (length b <= length a)%nat) (sortLongestFirst strings) /\
  Forall (fun s => (2 <= length s)%nat) (sortLongestFirst strings).
Proof.
  intros H. unfold sortLongestFirst. split; [|by rewrite merge_sort_Permutation].
  apply Sorted_StronglySorted; [intros a b c; lia|].
  pose proof longest_first_total. pose proof (Sorted_merge_sort longest_first strings) as Hs.
  induction Hs as [|a l _ IH Hr]; [constructor|]. constructor; [done|]. destruct Hr as [|b l Hab]; constructor.
  unfold longest_first in Hab. destruct (Nat.eqb_spec (length a) (length b)); [lia|].
  destruct (Nat.ltb_spec (length b) (length a)); [lia|done].
Qed.

Lemma parseClassSet_total st : src !! at_pos st = Some 91 ->
  total (parseClassSet src fl unicodePropertySet) st (took 0 st class_node_ok).
Proof.
  intros Hu. unfold parseClassSet. destruct (class_readers_total (class_fuel src)) as [Hn _].
  eapply total_then; [apply (Hn 0%nat); [done|unfold class_fuel; lia]|]. intros set st' (M & Hp & Hr & Hs).
  apply total_ret. split; [done|]. split; [done|]. split; [|congruence]. split; [done|by apply sortLongestFirst_ok].
Qed.
End SetExpressions.

Lemma parseCharacterClass_total st : src !! at_pos st = Some 91 ->
  total (parseCharacterClass src fl unicodePropertySet) st (took 0 st class_node_ok).
Proof.
  intros Hu. unfold parseCharacterClass. destruct (unicodeSets fl) eqn:E; [by apply parseClassSet_total|by apply parseClassRanges_total].
Qed.
End Reads.
