(* ===== verification/RegexCompile.v ===== *)
(** * What compiling a pattern promises

    [compile] answers with a pattern or with a syntax error inside the text, never with
    the internal disagreement its comment rules out: the pre-scan counts the very
    groups the descent opens.  The tree it answers is the one the matcher's theorems
    ask for. *)
From S2P Require Import Prelude CaseFold RegexChars RegexMatch RegexSpec RegexRefine RegexRun RegexClass RegexParse RegexReads.
Local Open Scope bool_scope.
Local Open Scope list_scope.
Local Open Scope parser_scope.

(** ** What the parser builds *)

Section Built.
Context (fl : Flags) (groups : nat).

(** A tree whose groups are those from [S a] to [b], in order. *)
Inductive built : nat -> nat -> Node -> Prop :=
  | built_alternation a b alts : built_alternatives a b alts -> built a b (Alternation alts)
  | built_sequence a b terms : built_terms a b terms -> built a b (Sequence terms)
  | built_char a code : code_ok code -> built a a (Char (canonicalize code (ignoreCase fl) (unicodeMode fl)))
  | built_class a n : class_node_ok fl n -> built a a n
  | built_dot a : built a a Dot
  | built_assertion a k : built a a (Assertion k)
  | built_lookahead a b negative body : built a b body -> built a b (Lookahead negative body)
  | built_lookbehind a b negative body : built a b body -> built a b (Lookbehind negative body)
  | built_group a b body : built (S a) b body -> built a b (Group (S a) body)
  | built_plain a b body : built a b body -> built a b (Group 0 body)
  | built_backreference a i : (1 <= i <= groups)%nat -> built a a (Backreference i)
  | built_repeat a b q atom : built a b atom -> quantifier_ok q atom -> is_assertion atom = false ->
      firstCapture q = S a -> captureCount q = (b - a)%nat -> built a b (Repeat q atom)
with built_terms : nat -> nat -> list Node -> Prop :=
  | built_terms_nil a : built_terms a a []
  | built_terms_cons a b c t terms : built a b t -> built_terms b c terms -> built_terms a c (t :: terms)
with built_alternatives : nat -> nat -> list (list Node) -> Prop :=
  | built_alternatives_nil a : built_alternatives a a []
  | built_alternatives_cons a b c alt alts : built_terms a b alt -> built_alternatives b c alts -> built_alternatives a c (alt :: alts).

Scheme built_mind := Minimality for built Sort Prop
  with built_terms_mind := Minimality for built_terms Sort Prop
  with built_alternatives_mind := Minimality for built_alternatives Sort Prop.
Combined Scheme built_mutind from built_mind, built_terms_mind, built_alternatives_mind.

Lemma built_terms_snoc a b c terms t : built_terms a b terms -> built b c t -> built_terms a c (terms ++ [t]).
Proof. induction 1; intros Ht; cbn; econstructor; eauto using built_terms. Qed.

Lemma built_alternatives_snoc a b c alts alt : built_alternatives a b alts -> built_terms b c alt -> built_alternatives a c (alts ++ [alt]).
Proof. induction 1; intros Ht; cbn; econstructor; eauto using built_alternatives. Qed.

Lemma built_le :
  (forall a b n, built a b n -> (a <= b)%nat) /\ (forall a b ts, built_terms a b ts -> (a <= b)%nat) /\
  (forall a b alts, built_alternatives a b alts -> (a <= b)%nat).
Proof. apply built_mutind; intros; lia. Qed.

(** The capture indices of a tree, in the order its parentheses open. *)
Fixpoint captures_of (n : Node) : list nat :=
  match n with
  | Alternation alts => (fix go l := match l with [] => [] | alt :: l =>
      ((fix go' ts := match ts with [] => [] | t :: ts => captures_of t ++ go' ts end) alt) ++ go l end) alts
  | Sequence terms => (fix go ts := match ts with [] => [] | t :: ts => captures_of t ++ go ts end) terms
  | Lookahead _ body | Lookbehind _ body | Group O body | Repeat _ body => captures_of body
  | Group i body => i :: captures_of body
  | _ => []
  end.

Definition captures_of_terms (ts : list Node) : list nat := concat (map captures_of ts).

Lemma captures_of_terms_fix ts :
  (fix go ts := match ts with [] => [] | t :: ts => captures_of t ++ go ts end) ts = captures_of_terms ts.
Proof. induction ts as [|t ts IH]; [done|]. cbn. by rewrite IH. Qed.

Lemma seq_split a b c : (a <= b <= c)%nat -> seq (S a) (c - a) = seq (S a) (b - a) ++ seq (S b) (c - b).
Proof.
  intros H. replace (c - a)%nat with ((b - a) + (c - b))%nat by lia. rewrite seq_app. do 2 f_equal. lia.
Qed.

Lemma captures_of_built :
  (forall a b n, built a b n -> captures_of n = seq (S a) (b - a)) /\
  (forall a b ts, built_terms a b ts -> captures_of_terms ts = seq (S a) (b - a)) /\
  (forall a b alts, built_alternatives a b alts -> captures_of (Alternation alts) = seq (S a) (b - a)).
Proof.
  pose proof built_le as (L1 & L2 & L3).
  apply built_mutind; intros; rewrite ?Nat.sub_diag; try done.
  - cbn [captures_of]. by rewrite captures_of_terms_fix.
  - destruct n; done.
  - cbn [captures_of]. pose proof (L1 _ _ _ H). rewrite H0. replace (b - a)%nat with (S (b - S a)) by lia. done.
  - unfold captures_of_terms in *. cbn. pose proof (L1 _ _ _ H). pose proof (L2 _ _ _ H1). rewrite H0, H2. by rewrite <- seq_split.
  - cbn [captures_of] in *. rewrite captures_of_terms_fix. pose proof (L2 _ _ _ H). pose proof (L3 _ _ _ H1).
    rewrite H0, H2. by rewrite <- seq_split.
Qed.

(** No backreference is read backward. *)
Fixpoint forward_references (back : bool) (n : Node) : bool :=
  match n with
  | Alternation alts => forallb (forallb (forward_references back)) alts
  | Sequence terms => forallb (forward_references back) terms
  | Lookahead _ body => forward_references false body
  | Lookbehind _ body => forward_references true body
  | Group _ body | Repeat _ body => forward_references back body
  | Backreference _ => negb back
  | _ => true
  end.

Definition references_ok (back : bool) (n : Node) : Prop := unicodeMode fl = false \/ forward_references back n = true.

Lemma built_node_ok :
  (forall a b n, built a b n -> (b <= groups)%nat -> forall back, references_ok back n -> node_ok fl groups back n) /\
  (forall a b ts, built_terms a b ts -> (b <= groups)%nat ->
    forall back, unicodeMode fl = false \/ forallb (forward_references back) ts = true -> Forall (node_ok fl groups back) ts) /\
  (forall a b alts, built_alternatives a b alts -> (b <= groups)%nat ->
    forall back, unicodeMode fl = false \/ forallb (forallb (forward_references back)) alts = true ->
      Forall (Forall (node_ok fl groups back)) alts).
Proof.
  pose proof built_le as (L1 & L2 & L3). unfold references_ok.
  apply built_mutind; intros; try done.
  - apply alternatives_ok_fix. by apply H0.
  - apply sequence_ok_fix. by apply H0.
  - destruct n; done.
  - cbn [node_ok]. by apply H0.
  - cbn [node_ok]. by apply H0.
  - cbn [node_ok]. pose proof (L1 _ _ _ H). split; [lia|]. by apply H0.
  - cbn [node_ok]. split; [lia|]. by apply H0.
  - cbn [node_ok forward_references] in *. split; [lia|]. intros ->. destruct H1; [done|done].
  - cbn [node_ok]. split; [done|]. by apply H0.
  - pose proof (L2 _ _ _ H1). constructor; [apply H0; [lia|]|apply H2; [done|]]; (destruct H4 as [|H4]; [by left|right]);
      cbn in H4; by apply andb_prop in H4 as [? ?].
  - pose proof (L3 _ _ _ H1). constructor; [apply H0; [lia|]|apply H2; [done|]]; (destruct H4 as [|H4]; [by left|right]);
      cbn in H4; by apply andb_prop in H4 as [? ?].
Qed.
End Built.

(** ** The descent *)

Section Descent.
Context (src : list Z) (fl : Flags) (groups : GroupInfo).
Context (unicodePropertySet : string -> string -> list Range + string).
Hypothesis src_units : Forall (fun u => 0 <= u <= kMaxUnit) src.
Hypothesis property_ok : forall name value set, unicodePropertySet name value = inl set -> Forall range_ok set.
Hypothesis groups_named : gcount groups = length (names groups).

Notation len := (length src).
Notation total := (total src).
Notation inside := (inside src).
Notation moves := (moves src fl).
Notation built := (built fl (gcount groups)).
Notation built_terms := (built_terms fl (gcount groups)).
Notation built_alternatives := (built_alternatives fl (gcount groups)).

(** Outside classes: the pre-scan finds as many groups as were counted. *)
Definition scans (st st' : PState) : Prop :=
(at_pos st <= at_pos st' <= len)%nat /\ nesting st' = nesting st /\
exists added, captures_seen st' = (captures_seen st + length added)%nat /\
  prescan_names (drop (at_pos st) src) (unicodeSets fl) 0 = added ++ prescan_names (drop (at_pos st') src) (unicodeSets fl) 0.

Lemma moves_scans st st' : moves 0 st 0 st' -> scans st st'.
Proof. intros (Hp & Hn & Hc & Hs). split; [done|]. split; [done|]. exists []. by rewrite Nat.add_0_r. Qed.

Lemma scans_trans st1 st2 st3 : scans st1 st2 -> scans st2 st3 -> scans st1 st3.
Proof.
intros (P1 & N1 & a1 & C1 & S1) (P2 & N2 & a2 & C2 & S2). split; [lia|]. split; [congruence|].
exists (a1 ++ a2). rewrite length_app. split; [lia|]. by rewrite S1, S2, app_assoc.
Qed.

Lemma scans_refl st : inside st -> scans st st.
Proof. intros H. by apply moves_scans, reader_moves_refl. Qed.

Lemma scans_inside st st' : scans st st' -> inside st'.
Proof. intros [? _]. unfold RegexReads.inside. lia. Qed.

Lemma scans_position st st' : scans st st' -> (at_pos st <= at_pos st' <= len)%nat.
Proof. by intros [? _]. Qed.

Lemma scans_guarded st st' : scans (deeper st) st' -> scans st (shallower st').
Proof. intros (Hp & Hn & Ha). split; [exact Hp|]. split; [|exact Ha]. cbn in *. lia. Qed.

(** A step that counts nothing, after a reading. *)
Lemma scans_step st st' u : scans st st' -> src !! at_pos st' = Some u -> plain_any u = true -> scans st (step 1 st').
Proof. intros H Hu Hp. eapply scans_trans; [exact H|]. apply moves_scans. by eapply moves_one. Qed.

(** *** Quantifiers *)

(** A reading that leaves the counter alone. *)
Definition quiet (st st' : PState) : Prop := moves 0 st 0 st'.

Definition bounds_ok (q : option (Z * Z * bool)) : Prop :=
match q with Some (min, max, _) => 0 <= min /\ max <= kUnbounded | None => True end.

Lemma finish_quantifier_total st st0 min max : quiet st0 st -> 0 <= min -> max <= kUnbounded ->
total (finish_quantifier src min max) st (fun q st' => quiet st0 st' /\ bounds_ok q).
Proof.
intros M Hmin Hmax. unfold finish_quantifier. apply bind_eat; intros Hu; apply total_ret; (split; [|by split]); [|done].
eapply reader_moves_trans; [exact M|by eapply moves_one].
Qed.

Lemma readBoundedDigits_spec at_ past value : readBoundedDigits src at_ = Some (past, value) ->
(at_ < past <= len)%nat /\ Forall (fun u => plain_any u = true) (take (past - at_) (drop at_ src)) /\ 0 <= value < kUnbounded.
Proof.
unfold readBoundedDigits. destruct (take_while_prefix isDecimalDigit (drop at_ src)) as [Ht Hf].
pose proof (take_while_length isDecimalDigit (drop at_ src)) as Hl. rewrite length_drop in Hl.
destruct (take_while isDecimalDigit (drop at_ src)) as [|c digits]; [done|]. intros [= <- <-].
replace (at_ + S (length digits) - at_)%nat with (length (c :: digits)) by (cbn; lia).
assert (at_ < len)%nat by (cbn in Hl; lia). split; [cbn in Hl; lia|]. split.
{ rewrite Ht. eapply Forall_impl; [exact Hf|apply digit_plain]. }
set (f := fun value c => _).
assert (forall l v, Forall (fun u => isDecimalDigit u = true) l -> 0 <= v < kUnbounded -> 0 <= fold_left f l v < kUnbounded) as Hfold.
{ induction l as [|u l IH]; intros v Hu Hv; [done|]. apply Forall_cons in Hu as [Hu Hus]. cbn [fold_left]. apply IH; [done|].
  unfold f, isDecimalDigit, between, kUnbounded in *. destruct (Z.ltb_spec 0xFFFFFFFE (v * 10 + (u - 48))); lia. }
apply (Hfold (c :: digits)); [done|]. unfold kUnbounded. lia.
Qed.

Lemma take_more n m (l : list Z) (p : Z -> Prop) : Forall p (take n l) -> Forall p (take m (drop n l)) -> Forall p (take (n + m) l).
Proof. intros H1 H2. rewrite <- take_take_drop. by apply Forall_app. Qed.

Lemma take_one at_ u (p : Z -> Prop) : src !! at_ = Some u -> p u -> Forall p (take 1 (drop at_ src)).
Proof. intros Hu Hp. rewrite (drop_at _ _ _ Hu). by apply Forall_singleton. Qed.

(** A stretch of plain units of the pattern. *)
Definition plain_between (a b : nat) : Prop := (a <= b <= len)%nat /\ Forall (fun u => plain_any u = true) (take (b - a) (drop a src)).

Lemma plain_join a b c : plain_between a b -> plain_between b c -> plain_between a c.
Proof.
intros [H1 F1] [H2 F2]. split; [lia|]. replace (c - a)%nat with ((b - a) + (c - b))%nat by lia. apply take_more; [done|].
rewrite drop_drop. by replace (a + (b - a))%nat with b by lia.
Qed.

Lemma plain_unit a u : src !! a = Some u -> plain_any u = true -> plain_between a (S a).
Proof.
intros Hu Hp. pose proof (unit_at _ _ _ Hu). split; [lia|]. replace (S a - a)%nat with 1%nat by lia. by eapply take_one.
Qed.

Lemma braced_bounds_spec at_ past low high : src !! at_ = Some 123 -> braced_bounds src at_ = Some (past, low, high) ->
plain_between at_ past /\ 0 <= low /\ high <= kUnbounded.
Proof.
intros Hb. unfold braced_bounds. destruct (readBoundedDigits src (S at_)) as [[p1 lo1]|] eqn:E1; [|done].
apply readBoundedDigits_spec in E1 as (P1 & F1 & V1).
assert (plain_between at_ p1) as B1 by (apply plain_join with (S at_); [by eapply plain_unit|split; [lia|done]]).
match goal with |- match ?a with _ => _ end = _ -> _ => destruct a as [[p2 hi2]|] eqn:E2; [|done] end.
destruct (bool_decide_reflect (src !! p2 = Some 125)) as [Eb|]; [|done]. intros [= <- <- <-].
assert (plain_between p1 p2 /\ hi2 <= kUnbounded) as [B2 V2].
{ destruct (bool_decide_reflect (src !! p1 = Some 44)) as [Ec|]; [destruct (bool_decide_reflect (src !! S p1 = Some 125)) as [Ed|]|].
  - injection E2 as <- <-. split; [by eapply plain_unit|done].
  - apply readBoundedDigits_spec in E2 as (P2 & F2 & V2). split; [|lia].
    apply plain_join with (S p1); [by eapply plain_unit|split; [lia|done]].
  - injection E2 as <- <-. split; [|lia]. split; [lia|]. by rewrite Nat.sub_diag. }
split; [|split; [lia|done]]. apply plain_join with p1; [done|]. apply plain_join with p2; [done|by eapply plain_unit].
Qed.

Lemma moves_between st past : plain_between (at_pos st) past -> moves 0 st 0 (step (past - at_pos st) st).
Proof. intros [H F]. apply moves_run; [lia|done]. Qed.

Lemma readQuantifier_total st : inside st -> total (readQuantifier src) st (fun q st' => quiet st st' /\ bounds_ok q).
Proof.
intros Hi. unfold readQuantifier.
apply bind_eat; intros H1; [apply finish_quantifier_total; [by eapply moves_one|done|done]|].
apply bind_eat; intros H2; [apply finish_quantifier_total; [by eapply moves_one|done|done]|].
apply bind_eat; intros H3; [apply finish_quantifier_total; [by eapply moves_one|done|done]|].
apply bind_peek, bind_position. destruct (Z.eqb_spec (default 0 (src !! (at_pos st + 0)%nat)) 123) as [E|];
  [|apply total_ret; by split; [apply reader_moves_refl|]].
assert (src !! at_pos st = Some 123) as Hb.
{ rewrite Nat.add_0_r in E. destruct (src !! at_pos st); cbn in E; congruence. }
destruct (braced_bounds src (at_pos st)) as [[[past low] high]|] eqn:Eb; [|apply total_ret; by split; [apply reader_moves_refl|]].
apply braced_bounds_spec in Eb as (Hp & Hlow & Hhigh); [|done].
apply bind_advance. apply finish_quantifier_total; [by apply moves_between|done|done].
Qed.

(** *** Escapes and groups *)

(** A node read from [st] that opens no group. *)
Definition leaf (st : PState) (n : Node) (st' : PState) : Prop :=
moves 0 st 0 st' /\ (at_pos st < at_pos st')%nat /\ forall a, built a a n.

Lemma charNode_total code st0 st : moves 0 st0 0 st -> (at_pos st0 < at_pos st)%nat -> code_ok code ->
total (charNode fl code) st (leaf st0).
Proof.
intros M Hp Hc. unfold charNode, caseTableFailure. destruct (_ && _); [by eapply total_refuse, moves_inside|].
apply total_ret. split; [done|]. split; [done|]. intros a. by constructor.
Qed.

Lemma index_of_range name l i j : index_of name l i = Some j -> (i <= j < i + length l)%nat.
Proof.
revert i. induction l as [|n l IH]; intros i; [done|]. cbn [index_of length]. case_bool_decide as Hn; [intros [= <-]; lia|].
intros H%IH. lia.
Qed.

Lemma decimal_run_spec l v taken : forall v' taken', 0 <= v -> decimal_run l v taken = (v', taken') ->
v <= v' /\ (taken <= taken' <= taken + length l)%nat /\ Forall (fun u => plain_any u = true) (take (taken' - taken) l).
Proof.
revert v taken. induction l as [|c l IH]; intros v taken v' taken' Hv; cbn [decimal_run length].
{ intros [= <- <-]. rewrite Nat.sub_diag. split; [lia|]. split; [lia|constructor]. }
assert (v <= v /\ (taken <= taken <= taken + S (length l))%nat /\
  Forall (fun u => plain_any u = true) (take (taken - taken) (c :: l))) as Hstop.
{ rewrite Nat.sub_diag. split; [lia|]. split; [lia|constructor]. }
destruct (isDecimalDigit c) eqn:Ed; [|by intros [= <- <-]]. cbv zeta.
assert (v <= v * 10 + (c - 48)) by (unfold isDecimalDigit, between in Ed; lia).
destruct (_ <? _); [intros [= <- <-]; destruct Hstop as (_ & ? & ?); split; [lia|done]|].
intros (H1 & H2 & H3)%IH; [|lia]. split; [lia|]. split; [lia|]. replace (taken' - taken)%nat with (S (taken' - S taken)) by lia.
cbn [take]. constructor; [by apply digit_plain|done].
Qed.

Section AfterBackslash.
Context (st : PState) (c : Z).
Hypothesis (backslash : src !! at_pos st = Some 92) (escaped_unit : src !! S (at_pos st) = Some c).

Lemma past_two : moves 0 st 0 (step 2 st).
Proof. by apply moves_escape with c. Qed.

Lemma named_backreference_total : total (named_backreference src groups) (step 1 st) (leaf st).
Proof.
  pose proof past_two as M2. unfold named_backreference. apply bind_advance. rewrite step_step.
  apply bind_eat; cbn [negb]; [|intros _; by eapply total_refuse, moves_inside]. intros H1.
  assert (moves 0 st 0 (step 1 (step (1 + 1) st))) as M3 by (eapply reader_moves_trans; [exact M2|by eapply moves_one]).
  apply bind_read_while. set (run := take_while _ _). cbv zeta. set (st3 := step 1 _) in *.
  assert (moves 0 st 0 (step (length run) st3)) as M4.
  { eapply reader_moves_trans; [exact M3|]. apply moves_while; [by eapply moves_inside|apply identifier_plain]. }
  apply bind_eat; cbn [negb]; [|intros _; by eapply total_refuse, moves_inside]. intros H2.
  assert (moves 0 st 0 (step 1 (step (length run) st3))) as M5 by (eapply reader_moves_trans; [exact M4|by eapply moves_one]).
  destruct (index_of _ _ _) as [i|] eqn:Ei; [|by eapply total_refuse, moves_inside].
  apply index_of_range in Ei. apply total_ret. split; [done|]. split; [cbn; lia|]. intros a. apply built_backreference. lia.
Qed.

Lemma numbered_backreference_total : between 49 c 57 = true ->
  total (numbered_backreference src groups) (step 1 st) (leaf st).
Proof.
  intros Hc. unfold numbered_backreference. apply bind_position. cbn [step at_pos]. pose proof (unit_at _ _ _ escaped_unit) as Hlen.
  replace (at_pos st + 1)%nat with (S (at_pos st)) by lia. rewrite (drop_at _ _ _ escaped_unit). cbn [decimal_run].
  assert (isDecimalDigit c = true) as Hd by (unfold isDecimalDigit, between in *; lia). rewrite Hd.
  cbv zeta. rewrite (proj2 (Z.ltb_ge 0xFFFFFF (0 * 10 + (c - 48)))) by (unfold between in Hc; lia).
  destruct (decimal_run _ (0 * 10 + (c - 48)) 1) as [value taken] eqn:Er.
  apply decimal_run_spec in Er as (Hv & Ht & Hf); [|unfold between in Hc; lia]. rewrite length_drop in Ht.
  destruct (Z.ltb_spec (Z.of_nat (gcount groups)) value); [apply total_refuse; unfold RegexReads.inside; cbn; lia|].
  apply bind_advance, total_ret. rewrite step_step.
  split; [|split; [cbn; lia|intros a; apply built_backreference; unfold between in Hc; lia]].
  eapply reader_moves_trans; [apply past_two|]. replace (1 + taken)%nat with (2 + (taken - 1))%nat by lia. rewrite <- step_step.
  apply moves_run; cbn [step at_pos]; [lia|]. by replace (at_pos st + 2)%nat with (S (S (at_pos st))) by lia.
Qed.
End AfterBackslash.

Lemma parseAtomEscape_total st : src !! at_pos st = Some 92 ->
  total (parseAtomEscape src fl groups unicodePropertySet) st (leaf st).
Proof.
  intros Hb. pose proof (unit_at _ _ _ Hb) as Hlen. unfold parseAtomEscape. apply bind_advance, bind_atEnd. cbn [step at_pos].
  destruct (Nat.leb_spec len (at_pos st + 1)); [apply total_refuse; unfold RegexReads.inside; cbn; lia|].
  destruct (here src (step 1 st)) as [c Hc]; [cbn; lia|]. apply bind_peek. rewrite (peek_here src _ _ Hc).
  cbn [step at_pos] in Hc. replace (at_pos st + 1)%nat with (S (at_pos st)) in Hc by lia.
  destruct (_ || _).
  { apply bind_advance, total_ret. rewrite step_step. split; [by apply past_two with c|]. split; [cbn; lia|]. intros a. apply built_assertion. }
  destruct (c =? 107); [by apply named_backreference_total with c|].
  destruct (between 49 c 57) eqn:E9; [by apply numbered_backreference_total with c|].
  eapply total_then; [by apply (readEscapeValue_total src fl src_units unicodePropertySet property_ok 0 st c)|].
  intros v st' (M & Hp & Hv & Hs). destruct (isSet v); [|apply charNode_total; [done|lia|done]].
  apply total_ret. split; [done|]. split; [lia|]. intros a. apply built_class. split; [|done].
  split; [by apply normalized_ok|]. split; constructor.
Qed.
(** *** Parentheses *)

(** What the pre-scan makes of an opening parenthesis. *)
Lemma paren_plain i : src !! i = Some 40 -> src !! S i <> Some 63 ->
  prescan_names (drop i src) (unicodeSets fl) 0 = [EmptyString] ++ prescan_names (drop (S i) src) (unicodeSets fl) 0.
Proof.
  intros Hu Hn. rewrite (drop_at _ _ _ Hu). cbn [prescan_names Z.eqb Pos.eqb negb].
  destruct (drop (S i) src) as [|q l] eqn:Ed; [done|]. destruct (Z.eqb_spec q 63) as [->|]; [|done].
  exfalso. apply Hn. rewrite <- (Nat.add_0_r (S i)), <- lookup_drop, Ed. done.
Qed.

Lemma paren_special i : src !! i = Some 40 -> src !! S i = Some 63 ->
  src !! S (S i) <> Some 60 \/ src !! S (S (S i)) = Some 61 \/ src !! S (S (S i)) = Some 33 ->
  prescan_names (drop i src) (unicodeSets fl) 0 = prescan_names (drop (S i) src) (unicodeSets fl) 0.
Proof.
  intros Hu Hq Hn. rewrite (drop_at _ _ _ Hu), (drop_at _ _ _ Hq). cbn [prescan_names Z.eqb Pos.eqb negb].
  destruct (drop (S (S i)) src) as [|a [|b l]] eqn:Ed; [done..|].
  assert (src !! S (S i) = Some a /\ src !! S (S (S i)) = Some b) as [Ea Eb].
  { split; [rewrite <- (Nat.add_0_r (S (S i)))|replace (S (S (S i))) with (S (S i) + 1)%nat by lia]; rewrite <- lookup_drop, Ed; done. }
  rewrite Ea, Eb in Hn. destruct (Z.eqb_spec a 60) as [->|]; [|done]. cbn [andb].
  destruct Hn as [Hn|[[= ->]|[= ->]]]; done.
Qed.

Lemma paren_named i b : src !! i = Some 40 -> src !! S i = Some 63 -> src !! S (S i) = Some 60 ->
  src !! S (S (S i)) = Some b -> b <> 61 -> b <> 33 ->
  exists name, prescan_names (drop i src) (unicodeSets fl) 0 = [name] ++ prescan_names (drop (S i) src) (unicodeSets fl) 0.
Proof.
  intros Hu Hq Ha Hb H61 H33. rewrite (drop_at _ _ _ Hu), (drop_at _ _ _ Hq). cbn [prescan_names Z.eqb Pos.eqb negb].
  rewrite (drop_at _ _ _ Ha), (drop_at _ _ _ Hb). apply Z.eqb_neq in H61, H33. rewrite H61, H33. cbn [Z.eqb Pos.eqb andb negb].
  by eexists.
Qed.

Definition opens (st : PState) (kind : GroupKind) (st' : PState) : Prop :=
  scans st st' /\ (at_pos st < at_pos st')%nat /\
  match kind with
  | Capturing i => i = S (captures_seen st) /\ captures_seen st' = S (captures_seen st)
  | _ => captures_seen st' = captures_seen st
  end.

(** A reading past the parenthesis that counts what the pre-scan found. *)
Lemma opens_intro st st' kind added : src !! at_pos st = Some 40 ->
  prescan_names (drop (at_pos st) src) (unicodeSets fl) 0 = added ++ prescan_names (drop (S (at_pos st)) src) (unicodeSets fl) 0 ->
  moves 0 (step 1 st) 0 st' ->
  match kind with Capturing i => i = S (captures_seen st) /\ length added = 1%nat | _ => added = [] end ->
  opens st kind (mkPState (at_pos st') (captures_seen st + length added) (nesting st')).
Proof.
  intros Hu Hs (Hp & Hn & Hc & Hs') Hk. unfold opens, scans. cbn [step at_pos captures_seen nesting] in *.
  rewrite Nat.add_1_r in *. split; [|split; [lia|destruct kind; naive_solver lia]].
  split; [lia|]. split; [done|]. exists added. split; [done|]. by rewrite Hs, Hs'.
Qed.

Lemma same_state st st' : captures_seen st' = captures_seen st ->
  mkPState (at_pos st') (captures_seen st + length (@nil string)) (nesting st') = st'.
Proof. intros E. cbn. rewrite Nat.add_0_r, <- E. by destruct st'. Qed.

Lemma opens_quiet st st' kind : src !! at_pos st = Some 40 -> src !! S (at_pos st) = Some 63 ->
  src !! S (S (at_pos st)) <> Some 60 \/ src !! S (S (S (at_pos st))) = Some 61 \/ src !! S (S (S (at_pos st))) = Some 33 ->
  moves 0 (step 1 st) 0 st' -> (match kind with Capturing _ => False | _ => True end) -> opens st kind st'.
Proof.
  intros Hu Hq Hn M Hk. rewrite <- (same_state st st'). 2: { by destruct M as (_ & _ & -> & _). }
  apply opens_intro with (added := []); [done|by apply paren_special|done|by destruct kind].
Qed.

Lemma group_kind_total st : src !! at_pos st = Some 40 -> total (group_kind src) (step 1 st) (opens st).
Proof.
  intros Hu. pose proof (unit_at _ _ _ Hu) as Hlen. unfold group_kind.
  assert (moves 0 (step 1 st) 0 (step 1 st)) as M1 by (apply reader_moves_refl; unfold RegexReads.inside; cbn; lia).
  assert (at_pos (step 1 st) = S (at_pos st)) as Ep by (cbn; lia).
  apply bind_eat; cbn [negb]; intros Hq; rewrite Ep in Hq.
  2: { apply total_bind, total_ret. apply (opens_intro st (step 1 st) (Capturing (S (captures_seen st))) [EmptyString]) in M1;
         [|done|by apply paren_plain|done]. cbn in M1 |- *. by rewrite (Nat.add_1_r (captures_seen st)) in M1. }
  assert (moves 0 (step 1 st) 0 (step 1 (step 1 st))) as M2 by (by eapply moves_one; [rewrite Ep|]).
  assert (at_pos (step 1 (step 1 st)) = S (S (at_pos st))) as Ep2 by (cbn; lia).
  assert (forall u kind, src !! at_pos (step 1 (step 1 st)) = Some u -> u <> 60 -> plain_any u = true ->
    match kind with Capturing _ => False | _ => True end -> opens st kind (step 1 (step 1 (step 1 st)))) as Hone.
  { intros u kind Hx Hne Hp Hk. apply opens_quiet; [done|done| |eapply reader_moves_trans; [exact M2|by eapply moves_one]|done].
    left. rewrite Ep2 in Hx. congruence. }
  apply bind_eat; [intros Hx; by apply total_ret, (Hone 58)|intros _].
  apply bind_eat; [intros Hx; by apply total_ret, (Hone 61)|intros _].
  apply bind_eat; [intros Hx; by apply total_ret, (Hone 33)|intros _].
  apply bind_peek, bind_peek.
  destruct (_ && _) eqn:Elook.
  - apply andb_prop in Elook as [E60 Enext]. apply Z.eqb_eq in E60. rewrite Nat.add_0_r in E60.
    assert (src !! at_pos (step 1 (step 1 st)) = Some 60) as H60 by (destruct (src !! at_pos (step 1 (step 1 st))); cbn in E60; congruence).
    set (next := default 0 (src !! (at_pos (step 1 (step 1 st)) + 1)%nat)) in *.
    assert (next = 61 \/ next = 33) as Hnext.
    { apply orb_prop in Enext as [H%Z.eqb_eq|H%Z.eqb_eq]; auto. }
    assert (src !! S (S (S (at_pos st))) = Some next) as Hx.
    { unfold next in *. rewrite Ep2 in *. rewrite Nat.add_1_r in *. destruct (src !! S (S (S (at_pos st)))); [done|]. cbn in Hnext. by destruct Hnext. }
    apply bind_advance, total_ret, opens_quiet; [done|done| | |done].
    { right. destruct Hnext as [E|E]; rewrite E in Hx; auto. }
    apply (reader_moves_trans src fl 0 0 0 _ (step 1 (step 1 st))); [done|]. change 2%nat with (1 + 1)%nat. rewrite <- (step_step 1 1).
    apply reader_moves_trans with 0%nat (step 1 (step 1 (step 1 st))); [by eapply moves_one|].
    apply moves_one with next; [cbn [step at_pos]; rewrite !Nat.add_1_r; exact Hx|]. by destruct Hnext as [-> | ->].
  - apply bind_eat; cbn [negb]; [|intros _; by eapply total_refuse, moves_inside]. intros H60.
    assert (moves 0 (step 1 st) 0 (step 1 (step 1 (step 1 st)))) as M3 by (eapply reader_moves_trans; [exact M2|by eapply moves_one]).
    apply bind_atEnd, bind_peek. set (st3 := step 1 (step 1 (step 1 st))) in *.
    assert (at_pos st3 = S (S (S (at_pos st)))) as Ep3 by (cbn; lia).
    destruct (Nat.leb_spec len (at_pos st3)); cbn [orb]; [by eapply total_refuse, moves_inside|].
    destruct (here src st3) as [b Hb]; [lia|]. rewrite (peek_here src _ _ Hb).
    destruct (isIdentifierStart b) eqn:Eb; cbn [negb]; [|by eapply total_refuse, moves_inside].
    apply total_bind, bind_read_while. set (run := take_while _ _). cbv zeta. apply total_ret.
    assert (moves 0 (step 1 st) 0 (step (length run) st3)) as M4.
    { eapply reader_moves_trans; [exact M3|]. apply moves_while; [by eapply moves_inside|apply identifier_plain]. }
    apply bind_eat; cbn [negb]; [|intros _; by eapply total_refuse, moves_inside]. intros H62.
    assert (moves 0 (step 1 st) 0 (step 1 (step (length run) st3))) as M5 by (eapply reader_moves_trans; [exact M4|by eapply moves_one]).
    destruct (paren_named (at_pos st) b) as [name Hname]; [done|done|by rewrite <- Ep2|by rewrite <- Ep3|..];
      [unfold isIdentifierStart, isLetter, between in Eb; lia..|].
    apply total_bind, total_ret. apply (opens_intro st _ (Capturing (S (captures_seen st))) [name]) in M5; [|done|done|done].
    cbn in M5 |- *. by rewrite (Nat.add_1_r (captures_seen st)) in M5.
Qed.
(** *** The descent itself *)

Notation disjunction := (parseDisjunction src fl groups unicodePropertySet).
Notation alternations := (alternation_loop src fl groups unicodePropertySet).
Notation alternative := (parseAlternative src fl groups unicodePropertySet).
Notation term := (parseTerm src fl groups unicodePropertySet).
Notation atom := (parseAtom src fl groups unicodePropertySet).

(** A reader of a tree whose groups are those counted on the way. *)
Definition builds (st : PState) (n : Node) (st' : PState) : Prop :=
  scans st st' /\ built (captures_seen st) (captures_seen st') n.

Definition parsers (fuel : nat) : Prop :=
  (forall st, inside st -> (4 * (len - at_pos st) + 3 <= fuel)%nat -> total (disjunction fuel) st (builds st)) /\
  (forall st a alts, inside st -> (4 * (len - at_pos st) + 2 <= fuel)%nat -> built_alternatives a (captures_seen st) alts ->
    total (alternations fuel alts) st (fun alts' st' => scans st st' /\ built_alternatives a (captures_seen st') alts')) /\
  (forall st a terms, inside st -> (4 * (len - at_pos st) + 2 <= fuel)%nat -> built_terms a (captures_seen st) terms ->
    total (alternative fuel terms) st (fun terms' st' => scans st st' /\ built_terms a (captures_seen st') terms')) /\
  (forall st, (at_pos st < len)%nat -> (4 * (len - at_pos st) + 1 <= fuel)%nat ->
    total (term fuel) st (fun n st' => builds st n st' /\ (at_pos st < at_pos st')%nat)) /\
  (forall st, (at_pos st < len)%nat -> (4 * (len - at_pos st) <= fuel)%nat ->
    total (atom fuel) st (fun n st' => builds st n st' /\ (at_pos st < at_pos st')%nat)).

Lemma disjunction_step fuel st : parsers fuel -> inside st -> (4 * (len - at_pos st) + 3 <= S fuel)%nat ->
  total (disjunction (S fuel)) st (builds st).
Proof.
  intros (_ & Hloop & Halt & _) Hi Hf. cbn [parseDisjunction]. apply total_guarded; [done|].
  eapply total_then; [apply (Halt (deeper st) (captures_seen st) []); [done|cbn; lia|constructor]|].
  intros alt st1 [S1 B1]. pose proof (scans_position _ _ S1) as P1. cbn in P1. apply bind_peek.
  destruct (negb _).
  - apply total_ret. split; [by apply scans_guarded|]. by apply built_sequence.
  - eapply total_then; [apply (Hloop st1 (captures_seen st) [alt]); [by eapply scans_inside|lia|]|].
    { apply built_alternatives_cons with (captures_seen st1); [done|constructor]. }
    intros alts st2 [S2 B2]. apply total_ret. split; [apply scans_guarded; by eapply scans_trans|].
    by apply built_alternation.
Qed.

Lemma alternations_step fuel st a alts : parsers fuel -> inside st -> (4 * (len - at_pos st) + 2 <= S fuel)%nat ->
  built_alternatives a (captures_seen st) alts ->
  total (alternations (S fuel) alts) st (fun alts' st' => scans st st' /\ built_alternatives a (captures_seen st') alts').
Proof.
  intros (_ & Hloop & Halt & _) Hi Hf Hb. cbn [alternation_loop].
  apply bind_eat; intros Hu; [|apply total_ret; split; [by apply scans_refl|done]].
  pose proof (unit_at _ _ _ Hu). assert (scans st (step 1 st)) as S1 by (eapply scans_step; [by apply scans_refl|done|done]).
  eapply total_then; [apply (Halt (step 1 st) (captures_seen st) []); [by eapply scans_inside|cbn; lia|constructor]|].
  intros next st2 [S2 B2]. pose proof (scans_position _ _ S2) as P2. cbn in P2.
  eapply total_weaken; [|apply (Hloop st2 a (alts ++ [next])); [by eapply scans_inside|lia|by eapply built_alternatives_snoc]].
  intros alts' st' [S3 B3]. split; [|done]. eapply scans_trans; [exact S1|]. by eapply scans_trans.
Qed.

Lemma alternative_step fuel st a terms : parsers fuel -> inside st -> (4 * (len - at_pos st) + 2 <= S fuel)%nat ->
  built_terms a (captures_seen st) terms ->
  total (alternative (S fuel) terms) st (fun terms' st' => scans st st' /\ built_terms a (captures_seen st') terms').
Proof.
  intros (_ & _ & Halt & Hterm & _) Hi Hf Hb. cbn [parseAlternative]. apply bind_atEnd, bind_peek.
  destruct (Nat.leb_spec len (at_pos st)) as [|Hlen]; cbn [orb]; [apply total_ret; split; [by apply scans_refl|done]|].
  destruct (_ || _); [apply total_ret; split; [by apply scans_refl|done]|].
  eapply total_then; [apply Hterm; [done|lia]|]. intros t st1 [[S1 B1] P1]. pose proof (scans_position _ _ S1).
  eapply total_weaken; [|apply (Halt st1 a (terms ++ [t])); [by eapply scans_inside|lia|by eapply built_terms_snoc]].
  intros terms' st' [S2 B2]. split; [by eapply scans_trans|done].
Qed.

Lemma one_character_spec n : one_character n = true -> single_character n.
Proof.
  destruct n; try done. cbn. intros [H1%bool_decide_eq_true H2%negb_true_iff]%andb_prop. by split.
Qed.

Lemma term_step fuel st : parsers fuel -> (at_pos st < len)%nat -> (4 * (len - at_pos st) + 1 <= S fuel)%nat ->
  total (term (S fuel)) st (fun n st' => builds st n st' /\ (at_pos st < at_pos st')%nat).
Proof.
  intros (_ & _ & _ & _ & Hatom) Hlen Hf. cbn [parseTerm]. apply bind_counter.
  eapply total_then; [apply Hatom; [done|lia]|]. intros n st1 [[S1 B1] P1].
  eapply total_then; [apply readQuantifier_total; by eapply scans_inside|]. intros q st2 [M2 Hq].
  assert (scans st st2) as S2 by (eapply scans_trans; [exact S1|by apply moves_scans]).
  assert (captures_seen st2 = captures_seen st1) as Ec by (by destruct M2 as (_ & _ & ? & _)).
  apply moves_position in M2 as P2. pose proof (scans_inside _ _ S2) as Hi2.
  destruct q as [[[min max] greedy]|]; [|apply total_ret; split; [split; [done|by rewrite Ec]|lia]].
  destruct (is_assertion n) eqn:Ea; [by apply total_refuse|]. destruct (Z.ltb_spec max min); [by apply total_refuse|].
  apply bind_counter, total_ret. split; [|lia]. split; [done|]. rewrite Ec. destruct Hq as [Hmin Hmax].
  apply built_repeat; cbn [firstCapture captureCount]; [done| |done|lia|done].
  split; [cbn; lia|]. split; [done|]. cbn [simpleAtom captureCount].
  intros [E1%Nat.eqb_eq E2]%andb_prop. split; [done|by apply one_character_spec].
Qed.

Lemma leaf_builds st n st' : leaf st n st' -> builds st n st' /\ (at_pos st < at_pos st')%nat.
Proof.
  intros (M & Hp & Hb). split; [|done]. split; [by apply moves_scans|]. destruct M as (_ & _ & -> & _). apply Hb.
Qed.

Lemma group_node_built kind body st st1 st2 : opens st kind st1 -> built (captures_seen st1) (captures_seen st2) body ->
  built (captures_seen st) (captures_seen st2) (group_node kind body).
Proof.
  intros (_ & _ & Hk) Hb. destruct kind; cbn [group_node]; [destruct Hk as [-> Hk]|..]; rewrite Hk in Hb.
  - by apply built_group.
  - by apply built_plain.
  - by apply built_lookahead.
  - by apply built_lookbehind.
Qed.

Lemma atom_step fuel st : parsers fuel -> (at_pos st < len)%nat -> (4 * (len - at_pos st) <= S fuel)%nat ->
  total (atom (S fuel)) st (fun n st' => builds st n st' /\ (at_pos st < at_pos st')%nat).
Proof.
  intros (Hdisj & _) Hlen Hf. cbn [parseAtom]. apply bind_atEnd. rewrite (proj2 (Nat.leb_gt len (at_pos st))) by done.
  destruct (here src st Hlen) as [u Hu]. apply bind_peek. rewrite (peek_here src _ _ Hu).
  assert (inside st) as Hi by (unfold RegexReads.inside; lia).
  assert (forall n, plain fl 0 u = true -> (forall a, built a a n) ->
    total (advance 1 ;; pret n) st (fun n st' => builds st n st' /\ (at_pos st < at_pos st')%nat)) as Hone.
  { intros n Hp Hb. apply bind_advance, total_ret, leaf_builds. split; [by eapply moves_plain|]. split; [cbn; lia|done]. }
  destruct (Z.eqb_spec u 94) as [->|_]; [apply Hone; [done|intros; apply built_assertion]|].
  destruct (Z.eqb_spec u 36) as [->|_]; [apply Hone; [done|intros; apply built_assertion]|].
  destruct (Z.eqb_spec u 46) as [->|_]; [apply Hone; [done|intros; apply built_dot]|].
  destruct (Z.eqb_spec u 40) as [->|N40].
  { apply bind_advance. eapply total_then; [by apply group_kind_total|]. intros kind st1 (S1 & P1 & Hk).
    pose proof (scans_position _ _ S1). eapply total_then; [apply Hdisj; [by eapply scans_inside|lia]|].
    intros body st2 [S2 B2]. pose proof (scans_position _ _ S2). assert (scans st st2) as S12 by (by eapply scans_trans).
    apply bind_eat; [|intros _; by eapply total_refuse, scans_inside]. intros H41. apply total_ret. split; [|cbn; lia].
    split.
    - eapply scans_trans; [exact S12|]. apply moves_scans. by eapply moves_one.
    - by apply group_node_built with st1. }
  destruct (Z.eqb_spec u 91) as [->|N91].
  { eapply total_weaken; [|by apply parseCharacterClass_total]. intros n st' (M & Hp & Hn). apply leaf_builds.
    split; [done|]. split; [done|]. intros a. by apply built_class. }
  destruct (Z.eqb_spec u 92) as [->|N92].
  { eapply total_weaken; [|by apply parseAtomEscape_total]. intros n st' H. by apply leaf_builds. }
  destruct (_ || _); [by apply total_refuse|]. destruct (u =? 41); [by apply total_refuse|].
  destruct (_ && _); [by apply total_refuse|]. destruct (_ && _); [by apply total_refuse|]. destruct (_ && _); [by apply total_refuse|].
  eapply total_then; [apply (readSourceCharacter_total src fl src_units 0 st u Hu)|].
  { unfold plain. apply Z.eqb_neq in N40, N91, N92. by rewrite N40, N91, N92. }
  intros code st' (M & Hp & Hc). eapply total_weaken; [|by apply (charNode_total code st)]. intros n st'' H. by apply leaf_builds.
Qed.

Lemma parsers_total fuel : parsers fuel.
Proof.
  induction fuel as [|fuel IH]; [split_and!; intros; lia|].
  split_and!; intros; [by apply disjunction_step|by apply alternations_step|by apply alternative_step|by apply term_step|by apply atom_step].
Qed.

Lemma parse_total : total (parse src fl groups unicodePropertySet) (mkPState 0 0 0) (fun root st =>
  built 0 (captures_seen st) root /\ captures_seen st = length (prescan_names src (unicodeSets fl) 0)).
Proof.
  unfold parse. destruct (parsers_total (parse_fuel src)) as [Hd _].
  eapply total_then; [apply Hd; [unfold RegexReads.inside; cbn; lia|unfold parse_fuel; cbn; lia]|].
  intros root st [(Hp & Hn & added & Hc & Hs) B]. apply bind_atEnd. destruct (Nat.leb_spec len (at_pos st)).
  - apply total_ret. split; [done|]. cbn [at_pos captures_seen] in *. rewrite Hc.
    rewrite (drop_ge src (at_pos st)) in Hs by lia. cbn [drop] in Hs. rewrite drop_0 in Hs. by rewrite Hs, app_nil_r.
  - apply total_refuse. unfold RegexReads.inside. lia.
Qed.
End Descent.

(** ** Compiling *)

Lemma compile_answers unicodePropertySet source fl :
  Forall (fun u => 0 <= u <= kMaxUnit) source ->
  (forall name value set, unicodePropertySet name value = inl set -> Forall range_ok set) ->
  match compile unicodePropertySet source fl with
  | None | Some (CaptureDisagreement _ _) => False
  | Some (CompileError _ index) => (index <= length source)%nat
  | Some (CompileOk p) =>
      groupNames p = prescan_names source (unicodeSets fl) 0 /\ flags (pattern p) = fl /\
      groupCount (pattern p) = length (groupNames p) /\
      hasNamedGroups p = existsb (fun n => negb (bool_decide (n = EmptyString))) (groupNames p) /\
      built fl (groupCount (pattern p)) 0 (groupCount (pattern p)) (root (pattern p))
  end.
Proof.
  intros Hsrc Hprop. pose proof (parse_total source fl (prescanGroups source (unicodeSets fl)) unicodePropertySet Hsrc Hprop eq_refl) as Ht.
  unfold compile. unfold total in Ht. destruct (parse _ _ _ _ _) as [[what index|root st]|]; [done| |done].
  destruct Ht as [Hb Hc]. cbn [prescanGroups gcount names] in *. rewrite <- Hc, Nat.eqb_refl. cbn [negb].
  cbn. rewrite Hc. rewrite <- Hc at 2. by rewrite Hc in Hb |- *.
Qed.

(** C37: what compiles is what the matcher needs.  The tree of a compiled pattern has
    its groups numbered 1, 2, ... in the order their parentheses open, as many as the
    pre-scan named; every repetition clears the groups of its own atom and no others
    and is simple only over an atom of one character; every backreference names a group
    of the pattern; every class is a normal list of ranges with its strings longest
    first.  It is well formed in the sense of the matcher's theorems, unless [u] is set
    and a backreference is read backward. *)
Theorem compile_well_formed unicodePropertySet source fl p :
  Forall (fun u => 0 <= u <= kMaxUnit) source ->
  (forall name value set, unicodePropertySet name value = inl set -> Forall range_ok set) ->
  compile unicodePropertySet source fl = Some (CompileOk p) ->
  built fl (groupCount (pattern p)) 0 (groupCount (pattern p)) (root (pattern p)) /\
  captures_of (root (pattern p)) = seq 1 (groupCount (pattern p)) /\
  groupNames p = prescan_names source (unicodeSets fl) 0 /\ groupCount (pattern p) = length (groupNames p) /\
  flags (pattern p) = fl /\
  (unicodeMode fl = false \/ forward_references false (root (pattern p)) = true -> pattern_ok (pattern p)).
Proof.
  intros Hsrc Hprop Hc. pose proof (compile_answers unicodePropertySet source fl Hsrc Hprop) as Ha. rewrite Hc in Ha.
  destruct Ha as (Hn & Hf & Hg & _ & Hb). split; [done|]. split.
  { destruct (captures_of_built fl (groupCount (pattern p))) as [Hcap _]. rewrite (Hcap _ _ _ Hb). by rewrite Nat.sub_0_r. }
  split; [done|]. split; [done|]. split; [done|]. intros Hr. unfold pattern_ok. rewrite Hf.
  destruct (built_node_ok fl (groupCount (pattern p))) as [Hok _]. by apply (Hok _ _ _ Hb).
Qed.

(** No property at all. *)
Definition no_properties (_ _ : string) : list Range + string := inr "unsupported"%string.

(** [(?<x>a)*?[b-d]\1] *)
Definition sample_source : list Z :=
  [40; 63; 60; 120; 62; 97; 41; 42; 63; 91; 98; 45; 100; 93; 92; 49].
Definition sample_fl : Flags := mkFlags true false false false false.

Lemma compile_well_formed_witness :
  exists p, compile no_properties sample_source sample_fl = Some (CompileOk p) /\
    pattern_ok (pattern p) /\ captures_of (root (pattern p)) = [1%nat] /\ groupNames p = ["x"%string].
Proof.
  eexists. split; [vm_compute; reflexivity|].
  match goal with |- pattern_ok (pattern ?q) /\ _ => set (p := q) end.
  destruct (compile_well_formed no_properties sample_source sample_fl p) as (_ & Hc & _ & _ & _ & Hok).
  - repeat constructor; discriminate.
  - intros name value set E. discriminate E.
  - vm_compute. reflexivity.
  - split; [apply Hok; left; reflexivity|]. split; [exact Hc|reflexivity].
Defined.

(** A syntax error at an index of the text or at its end. *)
Definition refused (source : list Z) (r : option CompileResult) : Prop :=
  exists what index, r = Some (CompileError what index) /\ (index <= length source)%nat.

(** C38: compiling answers.  Whatever the text, [compile] ends with a pattern or with a
    syntax error at an index of the text or at its end: the descent never runs out of
    the fuel the text's length gives, and its count of the groups never differs from the
    pre-scan's, which is the internal error the source guards against. *)
Theorem compile_total unicodePropertySet source fl :
  Forall (fun u => 0 <= u <= kMaxUnit) source ->
  (forall name value set, unicodePropertySet name value = inl set -> Forall range_ok set) ->
  (exists p, compile unicodePropertySet source fl = Some (CompileOk p)) \/
  refused source (compile unicodePropertySet source fl).
Proof.
  unfold refused. intros Hsrc Hprop. pose proof (compile_answers unicodePropertySet source fl Hsrc Hprop) as Ha.
  destruct (compile unicodePropertySet source fl) as [[what index|n m|p]|]; [right|done|left|done]; eauto.
Qed.

Lemma compile_total_witness :
  refused [97; 41] (compile no_properties [97; 41] sample_fl).
Proof.
  destruct (compile_total no_properties [97; 41] sample_fl) as [[p E]|H].
  - repeat constructor; discriminate.
  - intros name value set E. discriminate E.
  - vm_compute in E. discriminate E.
  - exact H.
Defined.

(** [\k<>] names the first group that has no name. *)
Example empty_name_resolves :
  exists p, compile no_properties [40; 97; 41; 92; 107; 60; 62] sample_fl = Some (CompileOk p) /\
    root (pattern p) = Sequence [Group 1 (Sequence [Char 65]); Backreference 1].
Proof. eexists. split; [vm_compute; reflexivity|reflexivity]. Qed.

(** [(?<x>a)(?<x>b)] names two groups of one alternative alike. *)
Example duplicate_names_compile :
  exists p, compile no_properties [40; 63; 60; 120; 62; 97; 41; 40; 63; 60; 120; 62; 98; 41] sample_fl = Some (CompileOk p) /\
    groupNames p = ["x"%string; "x"%string].
Proof. eexists. split; [vm_compute; reflexivity|reflexivity]. Qed.

(** ** Flags *)

Lemma parseFlags_text f : funicode f && funicodeSets f = false -> parseFlags (flag_text f) = inl f.
Proof. destruct f as [[] [] [] [] [] [] [] []]; intros H; try done; reflexivity. Qed.
