(* ===== verification/Shapes.v ===== *)
(** * Hidden classes (src/src/runtime/shape.{h,cpp})

    A shape is a node of a transition tree: the one property it adds, and through its
    parents the layout of every object at it.  The arena of shapes is a list and a
    pointer to a shape its position; nodes are never freed.  The file shows that no
    operation changes the layout a shape describes, that adding a property appends
    exactly that property at a slot of its own, that objects built alike share a shape,
    and that a shape rebuilt with one slot boxed describes the same properties at the
    same slots. *)
From S2P Require Import Prelude Values Dictionary.
Local Open Scope Z_scope.
Local Open Scope bool_scope.

(** ** Shapes *)

Inductive SlotRepr := Boxed | Double.

#[global] Instance SlotRepr_eq_dec : EqDecision SlotRepr.
Proof. solve_decision. Defined.

Definition kSlotReprLimit : Z := 64.
Definition kDefaultInlineSlots : Z := 4.
Definition kDictionaryThreshold : Z := 1024.

Record ShapeTransition := mkTransition {
  tkey : PropertyKey; next_shape : nat;
  tenumerable : bool; taccessor : bool; twritable : bool; tconfigurable : bool; trepr : SlotRepr }.

(** [node_own] is the property the node adds: its key, slot and attributes.  The words
    only generated code reads (family_stamp, run_overflow_hint, bare_header) are left out. *)
Record Shape := mkShape {
  parent : option nat; node_own : DictEntry; root : nat; prototype : Value;
  shape_dict : option Dictionary; used_as_prototype : bool; inline_slots : Z; double_slots : Z;
  repr : SlotRepr; repr_generalized : bool; watched : bool; transitions : list ShapeTransition }.

Definition no_property : DictEntry := mkEntry NoKey 0 true false true true.

Definition isDictionary (s : Shape) : bool := match shape_dict s with Some _ => true | None => false end.

Definition slotWidth (acc : bool) : Z := if acc then 2 else 1.

Definition slotEnd (s : Shape) : Z :=
  if negb (valid (key (node_own s))) then 0 else slot (node_own s) + slotWidth (accessor (node_own s)).

Definition nextSlotIndex (s : Shape) (width : Z) : Z := placeSlot (slotEnd s) width (inline_slots s).

Definition slotsBefore (slot_ inlineSlots_ : Z) : Z :=
  if kOverflowSlot <=? slot_ then slot_ - (kOverflowSlot - inlineSlots_) else slot_.

Definition slotsUsedAfterAdd (s : Shape) (width : Z) : Z :=
  slotsBefore (nextSlotIndex s width) (inline_slots s) + width.

Definition clampInlineSlots (n : Z) : Z :=
  if n <? kDefaultInlineSlots then kDefaultInlineSlots else if kOverflowSlot <? n then kOverflowSlot else n.

Definition slotIsDouble (s : Shape) (index : Z) : bool :=
  (index <? kSlotReprLimit) && negb (Z.land (double_slots s) (Z.shiftl 1 index) =? 0).

(** [Shape::Shape(parent, ...)] *)
Definition child_shape (i : nat) (s : Shape) (e : DictEntry) (root_ : nat) (r : SlotRepr) (watched_ : bool) : Shape :=
  mkShape (Some i) e root_ VUndefined None false (inline_slots s)
    (Z.lor (double_slots s)
       (if bool_decide (r = Double) && (slot e <? kSlotReprLimit) then Z.shiftl 1 (slot e) else 0))
    r false watched_ [].

(** [Shape::Shape()] with its prototype and inline capacity; [i] is where it will lie. *)
Definition root_shape (i : nat) (proto : Value) (inline : Z) : Shape :=
  mkShape None no_property i proto None false (clampInlineSlots inline) 0 Boxed false false [].

Definition with_transition (t : ShapeTransition) (s : Shape) : Shape :=
  mkShape (parent s) (node_own s) (root s) (prototype s) (shape_dict s) (used_as_prototype s)
    (inline_slots s) (double_slots s) (repr s) (repr_generalized s) (watched s) (transitions s ++ [t]).
Definition with_mark (s : Shape) : Shape :=
  mkShape (parent s) (node_own s) (root s) (prototype s) (shape_dict s) true
    (inline_slots s) (double_slots s) (repr s) (repr_generalized s) (watched s) (transitions s).
Definition with_generalized (s : Shape) : Shape :=
  mkShape (parent s) (node_own s) (root s) (prototype s) (shape_dict s) (used_as_prototype s)
    (inline_slots s) (double_slots s) (repr s) true (watched s) (transitions s).
Definition with_watched (s : Shape) : Shape :=
  mkShape (parent s) (node_own s) (root s) (prototype s) (shape_dict s) (used_as_prototype s)
    (inline_slots s) (double_slots s) (repr s) (repr_generalized s) true (transitions s).

(** ** The thread's shapes *)

(** The arena, the prototype-mutation epoch and the array index hazard of the thread.
    The epoch is a 64-bit count that moves by two; its wrap is not modelled. *)
Record Runtime := mkRuntime { arena : list Shape; proto_epoch : Z; array_index_hazard : bool }.

Definition no_shape : Shape := root_shape 0 VUndefined 0.
Definition shape_at (r : Runtime) (i : nat) : Shape := default no_shape (arena r !! i).

Definition with_arena (r : Runtime) (a : list Shape) : Runtime := mkRuntime a (proto_epoch r) (array_index_hazard r).
Definition edit (f : Shape -> Shape) (i : nat) (r : Runtime) : Runtime := with_arena r (alter f i (arena r)).
(** [arena.create<Shape>], and the pointer to it. *)
Definition new_shape (s : Shape) (r : Runtime) : Runtime := with_arena r (arena r ++ [s]).
Definition next_id (r : Runtime) : nat := length (arena r).

Definition bumpProtoMutationEpoch (r : Runtime) : Runtime := mkRuntime (arena r) (proto_epoch r + 2) (array_index_hazard r).
Definition tripArrayIndexHazard (r : Runtime) : Runtime := mkRuntime (arena r) (proto_epoch r) true.

Definition keyCouldBeArrayIndex (k : PropertyKey) : bool :=
  match k with
  | StringKey units => negb (empty units) && forallb (fun c => (48 <=? c) && (c <=? 57)) units
  | _ => false
  end.

Definition noteKeyAddedToPrototype (used : bool) (k : PropertyKey) (r : Runtime) : Runtime :=
  if used && keyCouldBeArrayIndex k then tripArrayIndexHazard r else r.

Inductive ShapeLeave := Add | Generalize | Delete | Redefine | Integrity | SetPrototype | Threshold | BecomePrototype.

#[global] Instance ShapeLeave_eq_dec : EqDecision ShapeLeave.
Proof. solve_decision. Defined.

Definition noteShapeLeave (from : nat) (why : ShapeLeave) (r : Runtime) : Runtime :=
  if negb (bool_decide (why = Add)) && watched (shape_at r from) then bumpProtoMutationEpoch r else r.

(** ** Looking up *)

(** A property with how its slot is to be read. *)
Record PropertyInfo := mkInfo { ientry : DictEntry; irepr : SlotRepr }.

(** The chain from a shape to its root, newest first: the parents lie before it. *)
Fixpoint chain_lookup (fuel : nat) (r : Runtime) (curr : nat) (name : PropertyKey) : option PropertyInfo :=
  match fuel with
  | O => None
  | S fuel =>
      let s := shape_at r curr in
      if matches (key (node_own s)) name then Some (mkInfo (node_own s) (repr s))
      else match parent s with Some p => chain_lookup fuel r p name | None => None end
  end.

Section Lookup.
Context (symbol_address : nat -> Z).

Definition lookupProperty (r : Runtime) (i : nat) (name : PropertyKey) : option PropertyInfo :=
  if negb (valid name) then None
  else
    match shape_dict (shape_at r i) with
    | Some d =>
        match Dictionary.find symbol_address d name with
        | Some pos => Some (mkInfo (entryAt d pos) Boxed)
        | None => None
        end
    | None => chain_lookup (S i) r i name
    end.
End Lookup.

(** The nodes of a chain that own a property, newest first: [chainOf] before its reverse. *)
Fixpoint chain_nodes (fuel : nat) (r : Runtime) (curr : nat) : list nat :=
  match fuel with
  | O => []
  | S fuel =>
      let s := shape_at r curr in
      if negb (valid (key (node_own s))) then []
      else curr :: match parent s with Some p => chain_nodes fuel r p | None => [] end
  end.

Definition chainOf (r : Runtime) (i : nat) : list nat := rev (chain_nodes (S i) r i).

Definition ownKeysInInsertionOrder (r : Runtime) (i : nat) (enumerableOnly : bool) : list PropertyKey :=
  let visible e := live e && (negb enumerableOnly || enumerable e) in
  match shape_dict (shape_at r i) with
  | Some d => map key (List.filter visible (entries d))
  | None => rev (map key (List.filter visible (map (fun j => node_own (shape_at r j)) (chain_nodes (S i) r i))))
  end.

(** ** Adding *)

Definition same_edge (stored : PropertyKey) (en acc wr conf : bool) (t : ShapeTransition) : bool :=
  Bool.eqb (tenumerable t) en && Bool.eqb (taccessor t) acc && Bool.eqb (twritable t) wr &&
  Bool.eqb (tconfigurable t) conf && matches (tkey t) stored.

(** The last edge of the key with the representation wanted, and the last boxed one. *)
Definition find_edges (stored : PropertyKey) (en acc wr conf : bool) (desired : SlotRepr) (ts : list ShapeTransition)
    : option nat * option nat :=
  fold_left (fun found t =>
    if same_edge stored en acc wr conf t then
      (if bool_decide (trepr t = desired) then Some (next_shape t) else found.1,
       if bool_decide (trepr t = Boxed) then Some (next_shape t) else found.2)
    else found) ts (None, None).

(** The representation the store gets and the edge it takes: a double edge that has
    generalized once sends it to the boxed one. *)
Definition choose_edge (r : Runtime) (i : nat) (stored : PropertyKey) (en acc wr conf : bool) (desired : SlotRepr)
    : SlotRepr * option nat :=
  let desired := if acc then Boxed else desired in
  let '(next, boxed_edge) := find_edges stored en acc wr conf desired (transitions (shape_at r i)) in
  match next with
  | Some n =>
      if bool_decide (desired = Double) && repr_generalized (shape_at r n) then (Boxed, boxed_edge) else (desired, next)
  | None => (desired, None)
  end.

(** The node of an edge not taken before.  [None] is a call to [fatal]. *)
Definition create_child (r : Runtime) (i : nat) (stored : PropertyKey) (en acc wr conf : bool) (desired : SlotRepr)
    : option (Runtime * nat) :=
  let s := shape_at r i in
  let next_slot := nextSlotIndex s (slotWidth acc) in
  if kDictionaryThreshold <=? slotsBefore next_slot (inline_slots s) + (if acc then 1 else 0) then None
  else
    let desired := if kSlotReprLimit <=? next_slot then Boxed else desired in
    let n := next_id r in
    let child := child_shape i s (mkEntry stored next_slot en acc wr conf) (root s) desired (watched s) in
    Some (edit (with_transition (mkTransition stored n en acc wr conf desired)) i (new_shape child r), n).

(** The mark, the hazard and [out_slot], on either path. *)
Definition land_on (stored : PropertyKey) (r : Runtime) (n : nat) (used : bool) : Runtime * nat * Z :=
  let r := if used then edit with_mark n r else r in
  (noteKeyAddedToPrototype used stored r, n, slot (node_own (shape_at r n))).

Definition addPropertyKey (r : Runtime) (i : nat) (stored : PropertyKey) (en acc wr conf : bool) (desired : SlotRepr)
    : option (Runtime * nat * Z) :=
  if negb (valid stored) then None
  else if isDictionary (shape_at r i) then None
  else
    let used := used_as_prototype (shape_at r i) in
    match choose_edge r i stored en acc wr conf desired with
    | (_, Some n) => Some (land_on stored r n used)
    | (desired, None) =>
        let? (r, n) := create_child r i stored en acc wr conf desired in Some (land_on stored r n used)
    end.

(** A string name takes the arena copy an edge already holds. *)
Definition addProperty (r : Runtime) (i : nat) (name : PropertyKey) (en acc wr conf : bool) (desired : SlotRepr)
    : option (Runtime * nat * Z) :=
  if negb (valid name) then None
  else
    let stored :=
      match name with
      | SymbolKey _ => name
      | _ => match List.find (fun t => matches (tkey t) name) (transitions (shape_at r i)) with Some t => tkey t | None => name end
      end in
    addPropertyKey r i stored en acc wr conf desired.

(** ** A private, marked chain; and one slot boxed *)

(** [boxIndex] is a slot whose node is rebuilt boxed. *)
Fixpoint marked_chain (r : Runtime) (root_ cur : nat) (chain : list nat) (boxIndex : option Z) : Runtime * nat :=
  match chain with
  | [] => (r, cur)
  | node :: chain =>
      let s := shape_at r node in
      let repr_ := if bool_decide (boxIndex = Some (slot (node_own s))) then Boxed else repr s in
      let next := with_mark (child_shape cur (shape_at r cur) (node_own s) root_ repr_ false) in
      marked_chain (new_shape next r) root_ (next_id r) chain boxIndex
  end.

Definition privateMarkedChain (r : Runtime) (root_ : nat) (chain : list nat) (boxIndex : option Z) : Runtime * nat :=
  marked_chain r root_ root_ chain boxIndex.

Definition double_at (r : Runtime) (index : Z) (node : nat) : bool :=
  (slot (node_own (shape_at r node)) =? index) && bool_decide (repr (shape_at r node) = Double).

Fixpoint rebuild (r : Runtime) (rebuilt : nat) (chain : list nat) (index : Z) : option (Runtime * nat) :=
  match chain with
  | [] => Some (r, rebuilt)
  | node :: chain =>
      let s := shape_at r node in
      let here := double_at r index node in
      let r := if here then edit with_generalized node r else r in
      let e := node_own s in
      let? (r, n, slot_) := addPropertyKey r rebuilt (key e) (enumerable e) (accessor e) (writable e) (configurable e)
                              (if here then Boxed else repr s) in
      if negb (slot_ =? slot e) then None else rebuild r n chain index
  end.

Definition withSlotBoxed (r : Runtime) (i : nat) (index : Z) : option (Runtime * nat) :=
  let s := shape_at r i in
  if isDictionary s || negb (slotIsDouble s index) then Some (r, i)
  else
    let chain := chainOf r i in
    if used_as_prototype s then
      let r := fold_left (fun r node => if double_at r index node then edit with_generalized node r else r) chain r in
      Some (privateMarkedChain r (root s) chain (Some index))
    else rebuild r (root s) chain index.

(** ** Watching *)

Fixpoint watch_loop (fuel : nat) (todo : list nat) (r : Runtime) : option Runtime :=
  match todo with
  | [] => Some r
  | node :: todo =>
      match fuel with
      | O => None
      | S fuel =>
          if watched (shape_at r node) then watch_loop fuel todo r
          else
            let r := edit with_watched node r in
            let below := List.filter (fun n => negb (watched (shape_at r n))) (map next_shape (transitions (shape_at r node))) in
            watch_loop fuel (rev below ++ todo) r
      end
  end.

Definition watch_fuel (r : Runtime) : nat := S (sum_list_with (fun s => length (transitions s)) (arena r)).

Definition watch (r : Runtime) (i : nat) : option Runtime :=
  let s := shape_at r i in
  if watched s || isDictionary s then Some r else watch_loop (watch_fuel r) [i] r.

(** ** Layouts *)

(** The properties of an object at a shape, oldest first. *)
Fixpoint layout_loop (fuel : nat) (r : Runtime) (i : nat) : list PropertyInfo :=
  match fuel with
  | O => []
  | S fuel =>
      let s := shape_at r i in
      match parent s with Some p => layout_loop fuel r p ++ [mkInfo (node_own s) (repr s)] | None => [] end
  end.

Definition layout (r : Runtime) (i : nat) : list PropertyInfo := layout_loop (S i) r i.
Definition layout_keys (r : Runtime) (i : nat) : list PropertyKey := map (fun p => key (ientry p)) (layout r i).

Definition entry_width (e : DictEntry) : Z := slotWidth (accessor e).

(** What a node may add to its parent [ps], whose keys are [keys]. *)
Record child_ok (keys : list PropertyKey) (ps s : Shape) : Prop := {
  child_key : valid (key (node_own s)) = true;
  child_fresh : key (node_own s) ∉ keys;
  child_dict : isDictionary ps = false /\ isDictionary s = false;
  child_slot : slot (node_own s) = nextSlotIndex ps (entry_width (node_own s));
  child_bound : slotsBefore (slot (node_own s)) (inline_slots s) + entry_width (node_own s) <= kDictionaryThreshold;
  child_inline : inline_slots s = inline_slots ps;
  child_root : root s = root ps;
  child_doubles : double_slots s = Z.lor (double_slots ps) (if bool_decide (repr s = Double) then Z.shiftl 1 (slot (node_own s)) else 0);
  child_repr : repr s = Double -> accessor (node_own s) = false /\ slot (node_own s) < kSlotReprLimit
}.

Record node_ok (r : Runtime) (i : nat) : Prop := {
  ok_down : forall p, parent (shape_at r i) = Some p -> (p < i)%nat;
  ok_child : forall p, parent (shape_at r i) = Some p -> child_ok (layout_keys r p) (shape_at r p) (shape_at r i);
  ok_mark : forall p, parent (shape_at r i) = Some p -> used_as_prototype (shape_at r p) = true -> used_as_prototype (shape_at r i) = true;
  ok_top : parent (shape_at r i) = None -> node_own (shape_at r i) = no_property /\ double_slots (shape_at r i) = 0;
  ok_self : parent (shape_at r i) = None -> isDictionary (shape_at r i) = false -> root (shape_at r i) = i;
  ok_root : (root (shape_at r i) < next_id r)%nat /\ parent (shape_at r (root (shape_at r i))) = None /\
    isDictionary (shape_at r (root (shape_at r i))) = false;
  ok_dict : isDictionary (shape_at r i) = true -> parent (shape_at r i) = None;
  ok_inline : kDefaultInlineSlots <= inline_slots (shape_at r i) <= kOverflowSlot
}.

(** An edge leads to the node its label describes; a marked or watched shape has only
    marked or watched ones below it. *)
Record edge_ok (r : Runtime) (i : nat) (t : ShapeTransition) : Prop := {
  edge_tree : isDictionary (shape_at r i) = false;
  edge_id : (next_shape t < next_id r)%nat;
  edge_parent : parent (shape_at r (next_shape t)) = Some i;
  edge_own : node_own (shape_at r (next_shape t)) =
    mkEntry (tkey t) (slot (node_own (shape_at r (next_shape t)))) (tenumerable t) (taccessor t) (twritable t) (tconfigurable t);
  edge_repr : repr (shape_at r (next_shape t)) = trepr t;
  edge_mark : used_as_prototype (shape_at r (next_shape t)) = used_as_prototype (shape_at r i);
  edge_watch : watched (shape_at r i) = true -> watched (shape_at r (next_shape t)) = true
}.

Record runtime_ok (r : Runtime) : Prop := {
  ok_nodes : forall i, (i < next_id r)%nat -> node_ok r i;
  ok_edges : forall i t, (i < next_id r)%nat -> In t (transitions (shape_at r i)) -> edge_ok r i t
}.

(** ** What never changes *)

(** The node of a shape, apart from the words that only choose later nodes. *)
Record same_node (s s' : Shape) : Prop := {
  same_parent : parent s' = parent s; same_own : node_own s' = node_own s; same_root : root s' = root s;
  same_prototype : prototype s' = prototype s; same_dict : shape_dict s' = shape_dict s;
  same_mark : used_as_prototype s' = used_as_prototype s; same_inline : inline_slots s' = inline_slots s;
  same_doubles : double_slots s' = double_slots s; same_repr : repr s' = repr s;
  same_watched : watched s = true -> watched s' = true
}.

#[global] Instance same_node_preorder : PreOrder same_node.
Proof. split; [intros s; constructor; done|]. intros s1 s2 s3 [] []. constructor; try congruence. auto. Qed.

(** Every old shape is the node it was. *)
Definition frame (r r' : Runtime) : Prop :=
  (next_id r <= next_id r')%nat /\ forall i, (i < next_id r)%nat -> same_node (shape_at r i) (shape_at r' i).

#[global] Instance frame_preorder : PreOrder frame.
Proof.
  split; [intros r; split; [lia|done]|]. intros r1 r2 r3 [L1 F1] [L2 F2]. split; [lia|].
  intros i Hi. transitivity (shape_at r2 i); [auto|]. apply F2. lia.
Qed.

Lemma shape_at_edit f j r i : (j < next_id r)%nat -> shape_at (edit f j r) i = if decide (i = j) then f (shape_at r i) else shape_at r i.
Proof.
  intros Hj. unfold shape_at, edit, with_arena. cbn [arena]. destruct (decide (i = j)) as [->|Hne].
  - rewrite list_lookup_alter, decide_True by done. destruct (lookup_lt_is_Some_2 (arena r) j Hj) as [s ->]. done.
  - by rewrite list_lookup_alter_ne.
Qed.

Lemma next_id_edit f j r : next_id (edit f j r) = next_id r.
Proof. unfold next_id, edit, with_arena. cbn [arena]. apply length_alter. Qed.

Lemma shape_at_new s r i : shape_at (new_shape s r) i = if decide (i = next_id r) then s else shape_at r i.
Proof.
  unfold shape_at, new_shape, with_arena, next_id. cbn [arena]. destruct (decide (i = length (arena r))) as [->|Hne].
  - by rewrite list_lookup_middle.
  - destruct (Nat.lt_ge_cases i (length (arena r))); [by rewrite lookup_app_l|].
    rewrite !lookup_ge_None_2; [done|lia|]. rewrite length_app. cbn. lia.
Qed.

Lemma next_id_new s r : next_id (new_shape s r) = S (next_id r).
Proof. unfold next_id, new_shape, with_arena. cbn [arena]. rewrite length_app. cbn. lia. Qed.

Lemma shape_at_beyond r i : (next_id r <= i)%nat -> shape_at r i = no_shape.
Proof. intros H. unfold shape_at. by rewrite lookup_ge_None_2. Qed.

Lemma frame_new s r : frame r (new_shape s r).
Proof.
  split; [rewrite next_id_new; lia|]. intros i Hi. rewrite shape_at_new, decide_False by lia. done.
Qed.

Lemma frame_edit f j r : (forall s, same_node s (f s)) -> frame r (edit f j r).
Proof.
  intros Hf. split; [by rewrite next_id_edit|]. intros i Hi.
  destruct (Nat.lt_ge_cases j (next_id r)) as [Hj|Hj].
  - rewrite shape_at_edit by done. by destruct (decide _).
  - unfold edit, with_arena, shape_at. cbn [arena]. rewrite list_lookup_alter_ne; [done|lia].
Qed.

Lemma same_with_transition t s : same_node s (with_transition t s). Proof. by constructor. Qed.
Lemma same_with_generalized s : same_node s (with_generalized s). Proof. by constructor. Qed.
Lemma same_with_watched s : same_node s (with_watched s). Proof. by constructor. Qed.
#[export] Hint Resolve same_with_transition same_with_generalized same_with_watched frame_new frame_edit : shapes.

(** ** Walking to the root *)

Definition parents_down (r : Runtime) : Prop := forall i p, parent (shape_at r i) = Some p -> (p < i)%nat.

Lemma ok_parents_down r : runtime_ok r -> parents_down r.
Proof.
  intros Hok i p Hp. destruct (Nat.lt_ge_cases i (next_id r)) as [Hi|Hi].
  - by apply (ok_down _ _ (ok_nodes _ Hok i Hi)).
  - by rewrite shape_at_beyond in Hp.
Qed.

Lemma layout_loop_fuel r f1 f2 i : parents_down r -> (i < f1)%nat -> (i < f2)%nat -> layout_loop f1 r i = layout_loop f2 r i.
Proof.
  intros Hd. revert f2 i. induction f1 as [|f1 IH]; intros [|f2] i H1 H2; [lia..|]. cbn [layout_loop].
  destruct (parent (shape_at r i)) as [p|] eqn:Ep; [|done]. pose proof (Hd _ _ Ep). by rewrite (IH f2) by lia.
Qed.

Lemma layout_parent r i p : parents_down r -> parent (shape_at r i) = Some p ->
  layout r i = layout r p ++ [mkInfo (node_own (shape_at r i)) (repr (shape_at r i))].
Proof.
  intros Hd Hp. unfold layout at 1. cbn [layout_loop]. rewrite Hp. unfold layout.
  pose proof (Hd _ _ Hp). by rewrite (layout_loop_fuel r i (S p) p) by (done || lia).
Qed.

Lemma layout_root r i : parent (shape_at r i) = None -> layout r i = [].
Proof. intros Hp. unfold layout. cbn [layout_loop]. by rewrite Hp. Qed.

(** A rule over the chain of a shape, from the root up. *)
Lemma chain_ind r (P : nat -> Prop) : parents_down r ->
  (forall i, parent (shape_at r i) = None -> P i) ->
  (forall i p, parent (shape_at r i) = Some p -> P p -> P i) -> forall i, P i.
Proof.
  intros Hd H0 H1 i. induction (lt_wf i) as [i _ IH].
  destruct (parent (shape_at r i)) as [p|] eqn:Ep; [|by apply H0]. apply (H1 i p Ep), IH. by apply Hd.
Qed.

Lemma frame_layout r r' i : runtime_ok r -> parents_down r' -> frame r r' -> (i < next_id r)%nat -> layout r' i = layout r i.
Proof.
  intros Hok Hd' [_ Hf]. pose proof (ok_parents_down r Hok) as Hd.
  revert i. apply (chain_ind r (fun i => (i < next_id r)%nat -> layout r' i = layout r i) Hd).
  - intros i Hp Hi. rewrite !layout_root; [done|done|]. by rewrite (same_parent _ _ (Hf i Hi)).
  - intros i p Hp IH Hi. pose proof (Hf i Hi) as Hs. pose proof (Hd _ _ Hp).
    rewrite (layout_parent r i p), (layout_parent r' i p), IH by (done || lia || by rewrite (same_parent _ _ Hs)).
    by rewrite (same_own _ _ Hs), (same_repr _ _ Hs).
Qed.

Lemma frame_down r r' : runtime_ok r -> frame r r' ->
  (forall i p, (next_id r <= i < next_id r')%nat -> parent (shape_at r' i) = Some p -> (p < i)%nat) -> parents_down r'.
Proof.
  intros Hok [_ Hf] Hnew i p Hp. destruct (Nat.lt_ge_cases i (next_id r)) as [Hi|Hi].
  - rewrite (same_parent _ _ (Hf i Hi)) in Hp. by apply (ok_parents_down r Hok).
  - destruct (Nat.lt_ge_cases i (next_id r')) as [Hi'|Hi']; [by apply Hnew|]. by rewrite shape_at_beyond in Hp.
Qed.

Lemma same_dictionary s s' : same_node s s' -> isDictionary s' = isDictionary s.
Proof. intros H. unfold isDictionary. by rewrite (same_dict _ _ H). Qed.

Lemma same_next s s' width : same_node s s' -> nextSlotIndex s' width = nextSlotIndex s width.
Proof. intros H. unfold nextSlotIndex, slotEnd. by rewrite (same_own _ _ H), (same_inline _ _ H). Qed.

Lemma child_ok_same keys ps ps' s s' : same_node ps ps' -> same_node s s' -> child_ok keys ps s -> child_ok keys ps' s'.
Proof.
  intros Hp Hs [].
  constructor; rewrite ?(same_own _ _ Hs), ?(same_inline _ _ Hs), ?(same_inline _ _ Hp), ?(same_root _ _ Hs), ?(same_root _ _ Hp),
    ?(same_doubles _ _ Hs), ?(same_doubles _ _ Hp), ?(same_repr _ _ Hs), ?(same_dictionary _ _ Hs), ?(same_dictionary _ _ Hp),
    ?(same_next _ _ _ Hp); done.
Qed.

Lemma node_ok_frame r r' i : runtime_ok r -> parents_down r' -> frame r r' -> (i < next_id r)%nat -> node_ok r' i.
Proof.
  intros Hok Hd' Hf Hi. pose proof (ok_nodes _ Hok i Hi) as [].
  pose proof (proj2 Hf i Hi) as Hs. destruct ok_root0 as (R1 & R2 & R3). pose proof (proj2 Hf _ R1) as Hr.
  pose proof (same_dictionary _ _ Hs) as Ed. pose proof (same_dictionary _ _ Hr) as Er.
  constructor; rewrite ?(same_parent _ _ Hs), ?(same_own _ _ Hs), ?(same_doubles _ _ Hs), ?(same_root _ _ Hs), ?(same_inline _ _ Hs), ?Ed; try done; try by auto.
  - intros p Hp. pose proof (ok_down0 p Hp). unfold layout_keys. rewrite (frame_layout r r' p) by (done || lia).
    eapply child_ok_same; [apply (proj2 Hf); lia|exact Hs|by apply ok_child0].
  - intros p Hp. pose proof (ok_down0 p Hp). rewrite (same_mark _ _ Hs), (same_mark _ _ (proj2 Hf p ltac:(lia))). by apply ok_mark0.
  - split_and!; [destruct Hf; lia|by rewrite (same_parent _ _ Hr)|by rewrite Er].
Qed.

Lemma edge_ok_frame r r' i t : frame r r' -> (i < next_id r)%nat ->
  (watched (shape_at r' i) = true -> watched (shape_at r' (next_shape t)) = true) -> edge_ok r i t -> edge_ok r' i t.
Proof.
  intros Hf Hi Hw []. pose proof (proj2 Hf i Hi) as Hs. pose proof (proj2 Hf _ edge_id0) as Hn.
  constructor; rewrite ?(same_parent _ _ Hn), ?(same_repr _ _ Hn), ?(same_mark _ _ Hn), ?(same_mark _ _ Hs), ?(same_own _ _ Hn),
    ?(same_dictionary _ _ Hs); try done.
  destruct Hf; lia.
Qed.

(** Growing the arena: the old nodes and edges stay right by themselves. *)
Lemma runtime_ok_extend r r' : runtime_ok r -> frame r r' -> parents_down r' ->
  (forall i, (next_id r <= i < next_id r')%nat -> node_ok r' i) ->
  (forall i t, (i < next_id r)%nat -> In t (transitions (shape_at r i)) ->
    watched (shape_at r' i) = true -> watched (shape_at r' (next_shape t)) = true) ->
  (forall i t, (i < next_id r')%nat -> In t (transitions (shape_at r' i)) ->
    (i < next_id r)%nat /\ In t (transitions (shape_at r i)) \/ edge_ok r' i t) -> runtime_ok r'.
Proof.
  intros Hok Hf Hd Hn Hw He. constructor.
  - intros i Hi. destruct (Nat.lt_ge_cases i (next_id r)); [by apply (node_ok_frame r r')|by apply Hn].
  - intros i t Hi Ht. destruct (He i t Hi Ht) as [[Hi' Ht']|]; [|done].
    apply (edge_ok_frame r r'); [done|done|by apply Hw|by apply (ok_edges _ Hok)].
Qed.

Lemma runtime_ok_grow r r' : runtime_ok r -> frame r r' -> parents_down r' ->
  (forall i, (next_id r <= i < next_id r')%nat -> node_ok r' i) ->
  (forall i, (i < next_id r)%nat -> watched (shape_at r' i) = true -> watched (shape_at r i) = true) ->
  (forall i t, (i < next_id r')%nat -> In t (transitions (shape_at r' i)) ->
    (i < next_id r)%nat /\ In t (transitions (shape_at r i)) \/ edge_ok r' i t) -> runtime_ok r'.
Proof.
  intros Hok Hf Hd Hn Hw He. apply (runtime_ok_extend r); try done. intros i t Hi Ht W.
  destruct (ok_edges _ Hok i t Hi Ht). apply (same_watched _ _ (proj2 Hf _ edge_id0)). auto.
Qed.

(** ** Lookups read the layout *)

Definition has_key (name : PropertyKey) (p : PropertyInfo) : bool := bool_decide (key (ientry p) = name).

Lemma matches_valid a name : valid name = true -> matches a name = bool_decide (a = name).
Proof.
  intros Hv. unfold matches. rewrite Hv, andb_true_r. destruct (bool_decide_reflect (a = name)) as [->|]; [by rewrite Hv|apply andb_false_r].
Qed.

Lemma chain_lookup_layout r fuel i name : runtime_ok r -> valid name = true -> (i < fuel)%nat -> (i < next_id r)%nat ->
  chain_lookup fuel r i name = List.find (has_key name) (rev (layout r i)).
Proof.
  intros Hok Hv. pose proof (ok_parents_down r Hok) as Hd. revert i.
  induction fuel as [|fuel IH]; intros i Hi Hn; [lia|]. cbn [chain_lookup]. rewrite matches_valid by done.
  pose proof (ok_nodes _ Hok i Hn) as [].
  destruct (parent (shape_at r i)) as [p|] eqn:Ep.
  - rewrite (layout_parent r i p), rev_app_distr by done. cbn [rev app List.find]. unfold has_key at 1. cbn [ientry].
    case_bool_decide; [done|]. pose proof (Hd _ _ Ep). apply IH; lia.
  - destruct (ok_top0 eq_refl) as [-> _]. cbn [key no_property]. rewrite (layout_root r i) by done.
    case_bool_decide as E; [by rewrite <- E in Hv|done].
Qed.

Lemma layout_keys_parent r i p : parents_down r -> parent (shape_at r i) = Some p ->
  layout_keys r i = layout_keys r p ++ [key (node_own (shape_at r i))].
Proof. intros Hd Hp. unfold layout_keys. rewrite (layout_parent r i p), map_app by done. done. Qed.

Lemma layout_valid_keys r i : runtime_ok r -> (i < next_id r)%nat ->
  NoDup (layout_keys r i) /\ Forall (fun k => valid k = true) (layout_keys r i).
Proof.
  intros Hok. pose proof (ok_parents_down r Hok) as Hd. revert i.
  apply (chain_ind r (fun i => (i < next_id r)%nat -> NoDup (layout_keys r i) /\ Forall (fun k => valid k = true) (layout_keys r i)) Hd).
  - intros i Hp Hi. unfold layout_keys. rewrite layout_root by done. split; constructor.
  - intros i p Hp IH Hi. pose proof (Hd _ _ Hp). destruct (IH ltac:(lia)) as [N V].
    rewrite (layout_keys_parent r i p) by done. destruct (ok_child _ _ (ok_nodes _ Hok i Hi) p Hp).
    split; [apply NoDup_app; split_and!; [done| |apply NoDup_singleton]|apply Forall_app; split; [done|by constructor]].
    intros k Hk ->%list_elem_of_singleton. done.
Qed.

Lemma find_unique {A} (f : A -> bool) l x : In x l -> f x = true -> (forall y, In y l -> f y = true -> y = x) -> List.find f l = Some x.
Proof.
  intros Hx Hf Hu. destruct (List.find f l) as [y|] eqn:E.
  - apply List.find_some in E as [? ?]. f_equal. by apply Hu.
  - by rewrite (List.find_none _ _ E x Hx) in Hf.
Qed.

(** [lookupProperty] on a tree shape finds the property of the layout, if there is one. *)
Lemma tree_lookup symbol_address r i name : runtime_ok r -> (i < next_id r)%nat -> isDictionary (shape_at r i) = false -> valid name = true ->
  match lookupProperty symbol_address r i name with
  | Some p => In p (layout r i) /\ key (ientry p) = name
  | None => name ∉ layout_keys r i
  end.
Proof.
  intros Hok Hi Hdict Hv. unfold lookupProperty. rewrite Hv. cbn [negb].
  unfold isDictionary in Hdict. destruct (shape_dict (shape_at r i)); [done|].
  rewrite chain_lookup_layout by (done || lia). destruct (List.find _ _) as [p|] eqn:E.
  - apply List.find_some in E as [Hp E%bool_decide_eq_true]. split; [by apply in_rev|done].
  - unfold layout_keys. intros (p & E1 & Hp)%list_elem_of_In%in_map_iff.
    rewrite in_rev in Hp. apply (List.find_none _ _ E) in Hp. unfold has_key in Hp. by apply bool_decide_eq_false in Hp.
Qed.

Lemma tree_lookup_in symbol_address r i p : runtime_ok r -> (i < next_id r)%nat -> isDictionary (shape_at r i) = false ->
  In p (layout r i) -> lookupProperty symbol_address r i (key (ientry p)) = Some p.
Proof.
  intros Hok Hi Hdict Hp. destruct (layout_valid_keys r i Hok Hi) as [Hn Hv].
  assert (In (key (ientry p)) (layout_keys r i)) as Hk by (by apply (in_map (fun p => key (ientry p)))).
  rewrite Forall_forall in Hv. pose proof (Hv _ (proj2 (list_elem_of_In _ _) Hk)) as Hkv.
  pose proof (tree_lookup symbol_address r i (key (ientry p)) Hok Hi Hdict Hkv) as H.
  destruct (lookupProperty _ _ _ _) as [q|]; [|by apply list_elem_of_In in Hk]. destruct H as [Hq Eq]. f_equal.
  unfold layout_keys in Hn. clear -Hn Hp Hq Eq. induction (layout r i) as [|x l IH]; [done|]. cbn in Hn. apply NoDup_cons in Hn as [Hx Hn].
  destruct Hp as [->|Hp], Hq as [->|Hq]; [done| | |by apply IH].
  - destruct Hx. apply list_elem_of_In. rewrite <- Eq. by apply (in_map (fun p => key (ientry p))).
  - destruct Hx. apply list_elem_of_In. rewrite Eq. by apply (in_map (fun p => key (ientry p))).
Qed.

(** ** Adding a property *)

Lemma matches_true a b : matches a b = true -> a = b /\ valid a = true.
Proof. intros [[H1 H2]%andb_prop H3%bool_decide_eq_true]%andb_prop. done. Qed.

Definition edge_entry (t : ShapeTransition) (slot_ : Z) : DictEntry :=
  mkEntry (tkey t) slot_ (tenumerable t) (taccessor t) (twritable t) (tconfigurable t).

(** A string is its contents, so the copy taken is the name itself. *)
Lemma addProperty_key r i name en acc wr conf desired :
  addProperty r i name en acc wr conf desired = addPropertyKey r i name en acc wr conf desired.
Proof.
  unfold addProperty. destruct name as [|units|id]; cbn [valid negb]; try done.
  destruct (List.find _ _) as [t|] eqn:E; [|done]. apply find_some in E as [_ [-> _]%matches_true]. done.
Qed.

Lemma same_edge_entry stored en acc wr conf t slot_ : same_edge stored en acc wr conf t = true ->
  edge_entry t slot_ = mkEntry stored slot_ en acc wr conf.
Proof.
  unfold same_edge, edge_entry. rewrite !andb_true_iff, !Bool.eqb_true_iff. intros ((((-> & ->) & ->) & ->) & [-> _]%matches_true). done.
Qed.

Lemma find_edges_spec stored en acc wr conf desired ts :
  let found := find_edges stored en acc wr conf desired ts in
  (forall n, found.1 = Some n -> exists t, In t ts /\ same_edge stored en acc wr conf t = true /\ trepr t = desired /\ next_shape t = n) /\
  (forall n, found.2 = Some n -> exists t, In t ts /\ same_edge stored en acc wr conf t = true /\ trepr t = Boxed /\ next_shape t = n).
Proof.
  unfold find_edges. induction ts as [|t ts IH] using rev_ind; [done|]. rewrite fold_left_app. cbn [fold_left].
  set (found := fold_left _ ts _) in *. destruct IH as [IH1 IH2].
  assert (forall (P : ShapeTransition -> Prop), (exists t, In t ts /\ P t) -> exists t', In t' (ts ++ [t]) /\ P t') as Hw.
  { intros P (t' & Ht & HP). exists t'. split; [|done]. apply in_or_app. by left. }
  destruct (same_edge _ _ _ _ _ t) eqn:Es; [|split; intros n H; apply Hw; auto]. cbn [fst snd].
  split; intros n; case_bool_decide; intros H'; try (apply Hw; by auto); injection H' as <-; exists t; split; try done;
    apply in_or_app; right; by left.
Qed.

Lemma find_edges_last stored en acc wr conf desired ts t : same_edge stored en acc wr conf t = true ->
  find_edges stored en acc wr conf desired (ts ++ [t]) =
  (if bool_decide (trepr t = desired) then Some (next_shape t) else (find_edges stored en acc wr conf desired ts).1,
   if bool_decide (trepr t = Boxed) then Some (next_shape t) else (find_edges stored en acc wr conf desired ts).2).
Proof. intros H. unfold find_edges. rewrite fold_left_app. cbn [fold_left]. by rewrite H. Qed.

(** The shape [n] adds [e] to the shape [i]. *)
Record appends (r : Runtime) (i n : nat) (e : DictEntry) (desired : SlotRepr) : Prop := {
  appends_id : (n < next_id r)%nat;
  appends_parent : parent (shape_at r n) = Some i;
  appends_own : node_own (shape_at r n) = e;
  appends_repr : repr (shape_at r n) = Boxed \/ repr (shape_at r n) = desired;
  appends_dict : isDictionary (shape_at r n) = false;
  appends_mark : used_as_prototype (shape_at r n) = used_as_prototype (shape_at r i);
  appends_watch : watched (shape_at r i) = true -> watched (shape_at r n) = true
}.

Lemma edge_appends r i t e desired : runtime_ok r -> (i < next_id r)%nat -> In t (transitions (shape_at r i)) ->
  edge_entry t (slot e) = e -> slot e = nextSlotIndex (shape_at r i) (entry_width e) -> trepr t = Boxed \/ trepr t = desired ->
  appends r i (next_shape t) e desired.
Proof.
  intros Hok Hi Ht He Hslot Hr. destruct (ok_edges _ Hok i t Hi Ht) as [_ L P O R M W].
  destruct (ok_child _ _ (ok_nodes _ Hok _ L) i P). constructor; try done.
  - rewrite O in child_slot0 |- *. cbn [slot accessor entry_width] in child_slot0. rewrite child_slot0.
    unfold entry_width in Hslot. rewrite <- He in Hslot. cbn [accessor edge_entry slot] in Hslot. unfold entry_width. cbn [accessor].
    rewrite <- Hslot. exact He.
  - by rewrite R.
  - apply child_dict0.
Qed.

Lemma edit_mark_id r n : used_as_prototype (shape_at r n) = true -> edit with_mark n r = r.
Proof.
  intros H. unfold edit, with_arena. destruct r as [a e h]. cbn [arena proto_epoch array_index_hazard]. f_equal.
  rewrite <- (list_alter_id id a n) at 2 by done. apply list_alter_ext; [|done]. intros s E.
  unfold shape_at in H. cbn [arena] in H. rewrite E in H. destruct s. cbn in *. by subst.
Qed.

(** A fresh child of [i], hung on it by an edge and marked as [i] is. *)
Definition grown (r : Runtime) (i : nat) (e : DictEntry) (repr_ : SlotRepr) : Runtime :=
  let s := shape_at r i in
  let t := mkTransition (key e) (next_id r) (enumerable e) (accessor e) (writable e) (configurable e) repr_ in
  let r' := edit (with_transition t) i (new_shape (child_shape i s e (root s) repr_ (watched s)) r) in
  if used_as_prototype s then edit with_mark (next_id r) r' else r'.

Lemma grown_nodes r i e repr_ j : (i < next_id r)%nat ->
  shape_at (grown r i e repr_) j =
    if decide (j = next_id r) then
      (if used_as_prototype (shape_at r i) then with_mark else fun s => s)
        (child_shape i (shape_at r i) e (root (shape_at r i)) repr_ (watched (shape_at r i)))
    else if decide (j = i) then
      with_transition (mkTransition (key e) (next_id r) (enumerable e) (accessor e) (writable e) (configurable e) repr_) (shape_at r i)
    else shape_at r j.
Proof.
  intros Hi. unfold grown. destruct (used_as_prototype (shape_at r i)).
  - rewrite shape_at_edit by (rewrite next_id_edit, next_id_new; lia). rewrite shape_at_edit by (rewrite next_id_new; lia).
    rewrite shape_at_new. repeat destruct (decide _); subst; done || lia.
  - rewrite shape_at_edit by (rewrite next_id_new; lia).
    rewrite shape_at_new. repeat destruct (decide _); subst; done || lia.
Qed.

Lemma grown_next r i e repr_ : next_id (grown r i e repr_) = S (next_id r).
Proof. unfold grown. destruct (used_as_prototype _); by rewrite ?next_id_edit, next_id_new. Qed.

Lemma grown_epoch r i e repr_ : proto_epoch (grown r i e repr_) = proto_epoch r.
Proof. unfold grown. by destruct (used_as_prototype _). Qed.

Lemma grown_frame r i e repr_ : (i < next_id r)%nat -> frame r (grown r i e repr_).
Proof.
  intros Hi. split; [rewrite grown_next; lia|]. intros j Hj. rewrite grown_nodes by done.
  rewrite decide_False by lia. destruct (decide (j = i)) as [->|]; [apply same_with_transition|done].
Qed.

Lemma grown_ok r i e repr_ : runtime_ok r -> (i < next_id r)%nat -> isDictionary (shape_at r i) = false ->
  child_ok (layout_keys r i) (shape_at r i)
    (child_shape i (shape_at r i) e (root (shape_at r i)) repr_ (watched (shape_at r i))) ->
  runtime_ok (grown r i e repr_) /\ appends (grown r i e repr_) i (next_id r) e repr_.
Proof.
  intros Hok Hi Hdict Hchild. pose proof (grown_frame r i e repr_ Hi) as Hf.
  pose proof (grown_nodes r i e repr_ (next_id r) Hi) as En. rewrite decide_True in En by done.
  pose proof (grown_nodes r i e repr_ i Hi) as Ei. rewrite decide_False, decide_True in Ei by lia.
  assert (parents_down (grown r i e repr_)) as Hd.
  { apply (frame_down r); [done|done|]. intros j p Hj. rewrite grown_next in Hj. replace j with (next_id r) by lia.
    rewrite En. destruct (used_as_prototype (shape_at r i)); intros [= <-]; lia. }
  assert (appends (grown r i e repr_) i (next_id r) e repr_) as Happ.
  { constructor; rewrite ?En, ?Ei; [rewrite grown_next; lia|..]; destruct (used_as_prototype (shape_at r i)) eqn:Eu; try done; by right. }
  split; [|done]. apply (runtime_ok_grow r); try done.
  - intros j Hj. rewrite grown_next in Hj. replace j with (next_id r) by lia.
    pose proof (node_ok_frame r _ i Hok Hd Hf Hi) as [_ _ _ _ _ R _ I]. rewrite Ei in R, I. cbn [root with_transition inline_slots] in R, I.
    assert (child_ok (layout_keys r i) (shape_at (grown r i e repr_) i)
      (child_shape i (shape_at r i) e (root (shape_at r i)) repr_ (watched (shape_at r i)))) as Hc.
    { rewrite Ei. eapply child_ok_same; [apply same_with_transition|reflexivity|exact Hchild]. }
    assert (parent (shape_at (grown r i e repr_) (next_id r)) = Some i) as P by apply Happ.
    constructor.
    + intros p. rewrite P. intros [= <-]. done.
    + intros p. rewrite P. intros [= <-]. unfold layout_keys. rewrite (frame_layout r) by done. fold (layout_keys r i).
      rewrite En. destruct (used_as_prototype (shape_at r i)); [|done]. destruct Hc. by constructor.
    + intros p. rewrite P. intros [= <-]. by rewrite (appends_mark _ _ _ _ _ Happ).
    + intros H. by rewrite H in P.
    + intros H. by rewrite H in P.
    + rewrite En. destruct (used_as_prototype (shape_at r i)); exact R.
    + intros H. rewrite (appends_dict _ _ _ _ _ Happ) in H. done.
    + rewrite En. destruct (used_as_prototype (shape_at r i)); exact I.
  - intros j Hj. rewrite grown_nodes by done. rewrite decide_False by lia. by destruct (decide (j = i)) as [->|].
  - intros j t Hj. rewrite grown_nodes by done. destruct (decide (j = next_id r)) as [->|Hne].
    { by destruct (used_as_prototype (shape_at r i)). }
    rewrite grown_next in Hj. destruct (decide (j = i)) as [->|]; [|left; split; [lia|done]].
    cbn [transitions with_transition]. intros [Ht|[<-|[]]]%in_app_or; [by left|]. right. destruct Happ.
    constructor; cbn [next_shape tkey tenumerable taccessor twritable tconfigurable trepr]; try done.
    + by rewrite Ei.
    + rewrite appends_own0. by destruct e.
    + rewrite En. by destruct (used_as_prototype (shape_at r i)).
Qed.

Lemma same_arena_at r r' i : arena r' = arena r -> shape_at r' i = shape_at r i.
Proof. intros E. unfold shape_at. by rewrite E. Qed.

Lemma same_arena_next r r' : arena r' = arena r -> next_id r' = next_id r.
Proof. intros E. unfold next_id. by rewrite E. Qed.

Lemma same_arena_frame r r' : arena r' = arena r -> frame r r'.
Proof. intros E. split; [by rewrite (same_arena_next r r')|]. intros i _. by rewrite (same_arena_at r r'). Qed.

Lemma same_arena_ok r r' : arena r' = arena r -> runtime_ok r -> runtime_ok r'.
Proof.
  intros E Hok. pose proof (same_arena_next r r' E) as En.
  apply (runtime_ok_grow r); [done|by apply same_arena_frame| | |..].
  - intros i p. rewrite (same_arena_at r r') by done. by apply ok_parents_down.
  - lia.
  - intros i _. by rewrite (same_arena_at r r').
  - intros i t Hi Ht. left. by rewrite (same_arena_at r r'), En in *.
Qed.

Lemma note_arena used k r : arena (noteKeyAddedToPrototype used k r) = arena r.
Proof. unfold noteKeyAddedToPrototype. by destruct (_ && _). Qed.
Lemma note_epoch used k r : proto_epoch (noteKeyAddedToPrototype used k r) = proto_epoch r.
Proof. unfold noteKeyAddedToPrototype. by destruct (_ && _). Qed.

Lemma appends_arena r r' i n e desired : arena r' = arena r -> appends r i n e desired -> appends r' i n e desired.
Proof.
  intros E []. constructor; rewrite ?(same_arena_at r r'), ?(same_arena_next r r') by done; done.
Qed.

(** What adding the property [e] to the shape [i] leads to. *)
Definition added (r : Runtime) (i : nat) (e : DictEntry) (desired : SlotRepr) (r' : Runtime) (n : nat) : Prop :=
  runtime_ok r' /\ frame r r' /\ proto_epoch r' = proto_epoch r /\ appends r' i n e desired /\
  (forall j, (j < next_id r)%nat -> watched (shape_at r' j) = watched (shape_at r j)).

Lemma appends_weaken r i n e desired desired' : (desired' = Boxed \/ desired' = desired) ->
  appends r i n e desired' -> appends r i n e desired.
Proof. intros H []. constructor; try done. destruct H; subst; naive_solver. Qed.

Lemma grown_added r i e repr_ desired : runtime_ok r -> (i < next_id r)%nat -> isDictionary (shape_at r i) = false ->
  valid (key e) = true -> key e ∉ layout_keys r i -> slot e = nextSlotIndex (shape_at r i) (entry_width e) ->
  slotsUsedAfterAdd (shape_at r i) (entry_width e) <= kDictionaryThreshold ->
  (repr_ = Double -> accessor e = false /\ slot e < kSlotReprLimit) -> repr_ = Boxed \/ repr_ = desired ->
  let r' := noteKeyAddedToPrototype (used_as_prototype (shape_at r i)) (key e) (grown r i e repr_) in
  added r i e desired r' (next_id r).
Proof.
  intros Hok Hi Hdict Hkey Hfresh Hslot Hused Hdouble Hrepr r'.
  destruct (grown_ok r i e repr_ Hok Hi Hdict) as [Hg Happ].
  { constructor; cbn [child_shape node_own isDictionary shape_dict slot inline_slots root double_slots repr]; try done.
    - unfold slotsUsedAfterAdd in Hused. by rewrite Hslot.
    - case_bool_decide as E; [|done]. destruct (Hdouble E) as [_ H]. by rewrite (proj2 (Z.ltb_lt _ _)) by lia. }
  assert (arena r' = arena (grown r i e repr_)) as Ea by apply note_arena.
  split; [by apply (same_arena_ok _ _ Ea)|]. split; [etransitivity; [by apply grown_frame|by apply same_arena_frame]|].
  split; [unfold r'; by rewrite note_epoch, grown_epoch|].
  split; [apply (appends_arena _ _ _ _ _ _ Ea); by apply (appends_weaken _ _ _ _ _ repr_)|].
  intros j Hj. rewrite (same_arena_at _ _ _ Ea), grown_nodes by done. rewrite decide_False by lia. by destruct (decide (j = i)) as [->|].
Qed.

Lemma edge_added r i t e desired : runtime_ok r -> (i < next_id r)%nat -> In t (transitions (shape_at r i)) ->
  edge_entry t (slot e) = e -> slot e = nextSlotIndex (shape_at r i) (entry_width e) -> trepr t = Boxed \/ trepr t = desired ->
  let r' := noteKeyAddedToPrototype (used_as_prototype (shape_at r i)) (key e)
    (if used_as_prototype (shape_at r i) then edit with_mark (next_shape t) r else r) in
  arena r' = arena r /\ added r i e desired r' (next_shape t).
Proof.
  intros Hok Hi Ht He Hslot Hrepr r'. pose proof (edge_appends r i t e desired Hok Hi Ht He Hslot Hrepr) as Happ.
  assert (r' = noteKeyAddedToPrototype (used_as_prototype (shape_at r i)) (key e) r) as ->.
  { unfold r'. destruct (used_as_prototype (shape_at r i)) eqn:Eu; [|done]. rewrite edit_mark_id; [done|].
    by rewrite (appends_mark _ _ _ _ _ Happ). }
  assert (arena (noteKeyAddedToPrototype (used_as_prototype (shape_at r i)) (key e) r) = arena r) as Ea by apply note_arena.
  split; [done|]. split; [by apply (same_arena_ok _ _ Ea)|]. split; [by apply same_arena_frame|]. split; [apply note_epoch|].
  split; [by apply (appends_arena _ _ _ _ _ _ Ea)|]. intros j _. by rewrite (same_arena_at _ _ _ Ea).
Qed.

Definition added_entry (r : Runtime) (i : nat) (stored : PropertyKey) (en acc wr conf : bool) : DictEntry :=
  mkEntry stored (nextSlotIndex (shape_at r i) (slotWidth acc)) en acc wr conf.

Lemma choose_edge_spec r i stored en acc wr conf desired :
  let c := choose_edge r i stored en acc wr conf desired in
  (c.1 = Boxed \/ c.1 = desired) /\ (c.1 = Double -> acc = false) /\
  forall n, c.2 = Some n -> exists t, In t (transitions (shape_at r i)) /\ same_edge stored en acc wr conf t = true /\
    (trepr t = Boxed \/ trepr t = desired) /\ next_shape t = n.
Proof.
  cbn zeta. unfold choose_edge. set (want := if acc then Boxed else desired).
  assert (want = Boxed \/ want = desired) as Hwant by (unfold want; destruct acc; auto).
  assert (want = Double -> acc = false) as Hacc by (unfold want; by destruct acc).
  pose proof (find_edges_spec stored en acc wr conf want (transitions (shape_at r i))) as [F1 F2].
  destruct (find_edges _ _ _ _ _ _ _) as [[n|] boxed_edge]; cbn [fst snd] in *; [|by split_and!].
  destruct (_ && _); cbn [fst snd]; split_and!; auto.
  - done.
  - intros b Hb. destruct (F2 b Hb) as (t & ? & ? & ? & ?). eauto 10.
  - intros b Hb. destruct (F1 b Hb) as (t & ? & ? & E & ?). exists t. rewrite E. auto.
Qed.

Lemma addPropertyKey_added r i stored en acc wr conf desired : runtime_ok r -> (i < next_id r)%nat ->
  isDictionary (shape_at r i) = false -> valid stored = true -> stored ∉ layout_keys r i ->
  slotsUsedAfterAdd (shape_at r i) (slotWidth acc) <= kDictionaryThreshold ->
  let e := added_entry r i stored en acc wr conf in
  exists r' n, addPropertyKey r i stored en acc wr conf desired = Some (r', n, slot e) /\ added r i e desired r' n.
Proof.
  intros Hok Hi Hdict Hkey Hfresh Hused e. unfold addPropertyKey. rewrite Hkey, Hdict. cbn [negb].
  pose proof (choose_edge_spec r i stored en acc wr conf desired) as (Hwant & Hacc & Hedge).
  destruct (choose_edge _ _ _ _ _ _ _ _) as [want [n|]]; cbn [fst snd] in *.
  - destruct (Hedge n eq_refl) as (t & Ht & Hs & Hr & <-).
    destruct (edge_added r i t e desired Hok Hi Ht) as [Ea Hadd]; [by apply same_edge_entry|done|done|].
    do 2 eexists. split; [|exact Hadd]. unfold land_on. repeat f_equal. destruct Hadd as (_ & _ & _ & Happ & _).
    pose proof (appends_own _ _ _ _ _ Happ) as Eo. by rewrite (same_arena_at _ _ _ (note_arena _ _ _)) in Eo; rewrite Eo.
  - unfold create_child. set (next_slot := nextSlotIndex (shape_at r i) (slotWidth acc)).
    rewrite (proj2 (Z.leb_gt _ _)) by (unfold slotsUsedAfterAdd, slotWidth, next_slot in *; destruct acc; cbn in *; lia).
    set (d := if kSlotReprLimit <=? next_slot then Boxed else want).
    assert (d = Boxed \/ d = want) as Hd by (unfold d; destruct (_ <=? _); auto).
    exists (noteKeyAddedToPrototype (used_as_prototype (shape_at r i)) stored (grown r i e d)), (next_id r).
    split; [|apply (grown_added r i e d desired Hok Hi Hdict Hkey Hfresh eq_refl Hused)].
    + assert (slot (node_own (shape_at (grown r i e d) (next_id r))) = slot e) as <-; [|reflexivity].
      rewrite grown_nodes, decide_True by done. by destruct (used_as_prototype (shape_at r i)).
    + unfold d. intros E. destruct (Z.leb_spec kSlotReprLimit next_slot); [done|]. split; [by apply Hacc|done].
    + destruct Hd as [->| ->], Hwant as [->| ->]; auto.
Qed.

(** ** The slots of a layout *)

Definition layout_entries (r : Runtime) (i : nat) : list DictEntry := map ientry (layout r i).

Lemma placeSlot_spec next width inline : 0 <= next -> 0 < width -> kDefaultInlineSlots <= inline <= kOverflowSlot ->
  next <= placeSlot next width inline /\ (kOverflowSlot <= placeSlot next width inline \/ placeSlot next width inline + width <= inline).
Proof.
  unfold placeSlot, kDefaultInlineSlots, kOverflowSlot. intros. destruct (Z.ltb_spec next 16), (Z.ltb_spec inline (next + width)); cbn [andb]; lia.
Qed.

Lemma own_slots_spec e s : In s (own_slots e) <-> slot e <= s < slot e + entry_width e.
Proof. unfold own_slots, entry_width, slotWidth. destruct (accessor e); cbn; lia. Qed.

Lemma own_slots_nodup e : NoDup (own_slots e).
Proof. unfold own_slots. destruct (accessor e); rewrite ?NoDup_cons, ?list_elem_of_singleton; split_and?; try lia; try apply NoDup_nil; try apply not_elem_of_nil; done. Qed.

Record slots_laid (r : Runtime) (i : nat) : Prop := {
  laid_distinct : NoDup (slots_of (layout_entries r i));
  laid_range : forall s, In s (slots_of (layout_entries r i)) ->
    0 <= s < slotEnd (shape_at r i) /\ (s < inline_slots (shape_at r i) \/ kOverflowSlot <= s);
  laid_end : 0 <= slotEnd (shape_at r i)
}.

Lemma layout_slots r i : runtime_ok r -> (i < next_id r)%nat -> slots_laid r i.
Proof.
  intros Hok. pose proof (ok_parents_down r Hok) as Hd. revert i.
  apply (chain_ind r (fun i => (i < next_id r)%nat -> slots_laid r i) Hd).
  - intros i Hp Hi. destruct (ok_top _ _ (ok_nodes _ Hok i Hi) Hp) as [E _].
    constructor; unfold layout_entries, slotEnd; rewrite ?(layout_root r i), ?E by done; cbn; [constructor|done|lia].
  - intros i p Hp IH Hi. pose proof (Hd _ _ Hp). destruct (IH ltac:(lia)) as [N R E].
    destruct (ok_child _ _ (ok_nodes _ Hok i Hi) p Hp).
    pose proof (ok_inline _ _ (ok_nodes _ Hok p ltac:(lia))) as Hin.
    set (e := node_own (shape_at r i)) in *.
    assert (0 < entry_width e) as Hw by (unfold entry_width, slotWidth; destruct (accessor e); lia).
    pose proof (placeSlot_spec (slotEnd (shape_at r p)) (entry_width e) (inline_slots (shape_at r p)) E Hw Hin) as [P1 P2].
    fold (nextSlotIndex (shape_at r p) (entry_width e)) in P1, P2. rewrite <- child_slot0 in P1, P2.
    assert (slotEnd (shape_at r i) = slot e + entry_width e) as Ee by (unfold slotEnd; fold e; by rewrite child_key0).
    assert (layout_entries r i = layout_entries r p ++ [e]) as El.
    { unfold layout_entries. rewrite (layout_parent r i p), map_app by done. done. }
    constructor; rewrite ?El, ?slots_of_app, ?slots_of_cons, ?Ee; cbn [slots_of map concat]; rewrite ?app_nil_r.
    + apply NoDup_app. split_and!; [done| |apply own_slots_nodup].
      intros s Hs%list_elem_of_In Hs'%list_elem_of_In. apply own_slots_spec in Hs'. destruct (R s Hs). lia.
    + rewrite child_inline0. intros s [Hs|Hs]%in_app_or; [destruct (R s Hs); lia|]. apply own_slots_spec in Hs. lia.
    + lia.
Qed.

(** ** The word of the double slots *)

Lemma slotIsDouble_spec s index : 0 <= index -> slotIsDouble s index = (index <? kSlotReprLimit) && Z.testbit (double_slots s) index.
Proof.
  intros Hi. unfold slotIsDouble. destruct (index <? kSlotReprLimit); cbn [andb]; [|done].
  destruct (Z.testbit (double_slots s) index) eqn:E.
  - apply negb_true_iff, Z.eqb_neq. intros H0. apply (f_equal (fun z => Z.testbit z index)) in H0.
    rewrite Z.land_spec, E, Z.shiftl_spec, Z.sub_diag, Z.bits_0 in H0 by done. done.
  - apply negb_false_iff, Z.eqb_eq. apply Z.bits_inj'. intros n Hn. rewrite Z.land_spec, Z.shiftl_spec, Z.bits_0 by done.
    destruct (Z.eq_dec n index) as [->|]; [by rewrite E|]. destruct (Z.lt_ge_cases n index).
    + by rewrite (Z.testbit_neg_r 1), andb_false_r by lia.
    + change 1 with (2 ^ 0). rewrite Z.pow2_bits_false by lia. apply andb_false_r.
Qed.

(** The summary of a shape says of a slot what the node that owns it says. *)
Lemma double_slots_summary r i index : runtime_ok r -> (i < next_id r)%nat -> 0 <= index ->
  slotIsDouble (shape_at r i) index = existsb (fun p => (slot (ientry p) =? index) && bool_decide (irepr p = Double)) (layout r i).
Proof.
  intros Hok Hi Hidx. rewrite slotIsDouble_spec by done. pose proof (ok_parents_down r Hok) as Hd. revert i Hi.
  apply (chain_ind r (fun i => (i < next_id r)%nat -> _ && Z.testbit (double_slots (shape_at r i)) index = existsb _ (layout r i)) Hd).
  - intros i Hp Hi. destruct (ok_top _ _ (ok_nodes _ Hok i Hi) Hp) as [_ ->]. rewrite layout_root, Z.bits_0, andb_false_r by done. done.
  - intros i p Hp IH Hi. pose proof (Hd _ _ Hp). pose proof (layout_slots r p Hok ltac:(lia)) as [_ _ He].
    destruct (ok_child _ _ (ok_nodes _ Hok i Hi) p Hp). rewrite (layout_parent r i p), existsb_app by done.
    rewrite <- IH by lia. cbn [existsb ientry irepr]. rewrite orb_false_r, child_doubles0, Z.lor_spec.
    pose proof (placeSlot_spec (slotEnd (shape_at r p)) (entry_width (node_own (shape_at r i))) (inline_slots (shape_at r p)) He
      ltac:(unfold entry_width, slotWidth; destruct (accessor _); lia) (ok_inline _ _ (ok_nodes _ Hok p ltac:(lia)))) as [P1 _].
    fold (nextSlotIndex (shape_at r p) (entry_width (node_own (shape_at r i)))) in P1. rewrite <- child_slot0 in P1.
    case_bool_decide as E; [|by rewrite Z.bits_0, andb_false_r, !orb_false_r].
    rewrite andb_true_r. destruct (child_repr0 E) as [_ Hl]. rewrite Z.shiftl_1_l, andb_orb_distrib_r. f_equal.
    destruct (Z.eqb_spec (slot (node_own (shape_at r i))) index) as [E'|].
    + rewrite E' in Hl |- *. rewrite Z.pow2_bits_true by lia. by rewrite (proj2 (Z.ltb_lt _ _) Hl).
    + rewrite Z.pow2_bits_false by lia. apply andb_false_r.
Qed.

(** ** Sharing *)

Lemma choose_edge_arena r r' i stored en acc wr conf desired : arena r' = arena r ->
  choose_edge r' i stored en acc wr conf desired = choose_edge r i stored en acc wr conf desired.
Proof.
  intros E. unfold choose_edge. rewrite (same_arena_at r r') by done. destruct (find_edges _ _ _ _ _ _ _) as [[n|] b]; [|done].
  by rewrite (same_arena_at r r').
Qed.

Lemma note_twice used k r : noteKeyAddedToPrototype used k (noteKeyAddedToPrototype used k r) = noteKeyAddedToPrototype used k r.
Proof. unfold noteKeyAddedToPrototype. by destruct (used && _). Qed.

Lemma land_again stored r n used : used_as_prototype (shape_at r n) = used ->
  land_on stored (land_on stored r n used).1.1 n used = land_on stored r n used.
Proof.
  intros Hu. assert ((if used then edit with_mark n r else r) = r) as E by (destruct used; [by apply edit_mark_id|done]).
  unfold land_on. rewrite E. cbn [fst].
  assert ((if used then edit with_mark n (noteKeyAddedToPrototype used stored r) else noteKeyAddedToPrototype used stored r)
    = noteKeyAddedToPrototype used stored r) as ->.
  { destruct used; [|done]. apply edit_mark_id. by rewrite (same_arena_at r) by apply note_arena. }
  by rewrite note_twice, (same_arena_at r _ n (note_arena _ _ _)).
Qed.

(** After its node was made the key's edge is the one found. *)
Lemma choose_edge_grown r i stored en acc wr conf desired : runtime_ok r -> (i < next_id r)%nat -> valid stored = true ->
  let '(want, next) := choose_edge r i stored en acc wr conf desired in
  next = None ->
  choose_edge (grown r i (added_entry r i stored en acc wr conf) want) i stored en acc wr conf desired = (want, Some (next_id r)).
Proof.
  intros Hok Hi Hv. unfold choose_edge. set (want0 := if acc then Boxed else desired).
  pose proof (find_edges_spec stored en acc wr conf want0 (transitions (shape_at r i))) as [F1 _].
  destruct (find_edges _ _ _ _ _ _ _) as [next boxed_edge] eqn:Ef. cbn [fst] in F1.
  assert (forall want, exists t, transitions (shape_at (grown r i (added_entry r i stored en acc wr conf) want) i) = transitions (shape_at r i) ++ [t] /\
    same_edge stored en acc wr conf t = true /\ trepr t = want /\ next_shape t = next_id r) as Hg.
  { intros want. rewrite grown_nodes, decide_False, decide_True by lia. eexists. split; [reflexivity|].
    cbn [trepr next_shape]. split; [|done]. unfold same_edge, added_entry. cbn. rewrite !Bool.eqb_reflx. by rewrite matches_valid, bool_decide_true. }
  destruct next as [n|].
  - destruct (bool_decide_reflect (want0 = Double)) as [E0|]; [|done]. destruct (repr_generalized (shape_at r n)) eqn:Eg; [|done]. cbn [andb].
    intros ->. destruct (Hg Boxed) as (t & Et & Es & Er & En). rewrite Et, find_edges_last, Ef, Er, En by done. cbn [fst snd].
    rewrite E0. rewrite bool_decide_false, bool_decide_true by done.
    destruct (F1 n eq_refl) as (t' & Ht' & _ & _ & <-). destruct (ok_edges _ Hok i t' Hi Ht').
    rewrite grown_nodes, decide_False by (done || lia). destruct (decide _) as [E|]; cbn [repr_generalized with_transition]; by rewrite <- ?E, Eg.
  - intros _. destruct (Hg want0) as (t & Et & Es & Er & En). rewrite Et, find_edges_last, Er, En, bool_decide_true by done.
    rewrite grown_nodes, decide_True by done. by destruct (used_as_prototype _); cbn; rewrite andb_false_r.
Qed.

(** Objects that add the same property to the same shape land on the same shape. *)
Lemma addPropertyKey_again r i stored en acc wr conf desired r' n s : runtime_ok r -> (i < next_id r)%nat ->
  addPropertyKey r i stored en acc wr conf desired = Some (r', n, s) ->
  acc = true \/ desired = Boxed \/ s < kSlotReprLimit ->
  addPropertyKey r' i stored en acc wr conf desired = Some (r', n, s).
Proof.
  intros Hok Hi. unfold addPropertyKey. destruct (valid stored) eqn:Hv; [|done]. cbn [negb].
  destruct (isDictionary (shape_at r i)) eqn:Hd; [done|].
  pose proof (choose_edge_spec r i stored en acc wr conf desired) as (Hwant & Hacc & Hedge).
  pose proof (choose_edge_grown r i stored en acc wr conf desired Hok Hi Hv) as Hgrown.
  destruct (choose_edge r i _ _ _ _ _ _) as [want [m|]] eqn:Ec; cbn [fst snd] in *.
  - destruct (Hedge m eq_refl) as (t & Ht & _ & _ & <-). pose proof (ok_edges _ Hok i t Hi Ht) as [_ _ _ _ _ Hm _].
    intros [= <- <- <-] _. fold (land_on stored r (next_shape t) (used_as_prototype (shape_at r i))).
    pose proof (land_again stored r _ _ Hm) as Hl.
    set (r' := (land_on stored r (next_shape t) (used_as_prototype (shape_at r i))).1.1) in *.
    assert (arena r' = arena r) as Ea.
    { unfold r', land_on. cbn [fst]. rewrite note_arena. destruct (used_as_prototype (shape_at r i)); [|done]. by rewrite edit_mark_id. }
    rewrite (same_arena_at r r'), (choose_edge_arena r r'), Hd, Ec by done. f_equal. exact Hl.
  - unfold create_child. destruct (kDictionaryThreshold <=? _); [done|].
    set (d := if kSlotReprLimit <=? _ then Boxed else want). set (e := added_entry r i stored en acc wr conf) in *.
    set (used := used_as_prototype (shape_at r i)). set (g := noteKeyAddedToPrototype used stored (grown r i e d)).
    intros H Hlim. assert (Some (g, next_id r, slot (node_own (shape_at (grown r i e d) (next_id r)))) = Some (r', n, s)) as H' by exact H.
    clear H. assert (arena g = arena (grown r i e d)) as Ea by apply note_arena.
    assert (forall x, x = grown r i e d -> slot (node_own (shape_at x (next_id r))) = slot e /\ used_as_prototype (shape_at x (next_id r)) = used /\
      used_as_prototype (shape_at x i) = used /\ isDictionary (shape_at x i) = false) as Hx.
    { intros x ->. rewrite !grown_nodes, !(decide_True _ _ eq_refl), decide_False by (done || lia).
      unfold used. by destruct (used_as_prototype (shape_at r i)) eqn:Eu. }
    destruct (Hx _ eq_refl) as (Es & Eu & Eui & Edi). rewrite Es in H'. injection H' as <- <- <-.
    assert (d = want) as Ed.
    { unfold d. destruct (Z.leb_spec kSlotReprLimit (nextSlotIndex (shape_at r i) (slotWidth acc))) as [Hl|]; [|done].
      destruct want; [done|]. rewrite Hacc in * by done. destruct Hlim as [|[|Hlim]]; [done|naive_solver|]. cbn [slot e added_entry] in Hlim. lia. }
    rewrite !(same_arena_at _ _ _ Ea), Edi, Eui, (choose_edge_arena _ _ _ _ _ _ _ _ _ Ea), Ed, (Hgrown eq_refl). f_equal.
    rewrite Ed in *. fold g. rewrite <- (same_arena_at _ _ _ Ea) in Eu. unfold land_on.
    assert ((if used then edit with_mark (next_id r) g else g) = g) as -> by (destruct used; [by apply edit_mark_id|done]).
    unfold g at 1. rewrite note_twice. fold g. rewrite (same_arena_at _ _ _ Ea). by rewrite Es.
Qed.

(** ** Rebuilding a chain *)

Lemma chain_nodes_fuel r f1 f2 i : parents_down r -> (i < f1)%nat -> (i < f2)%nat -> chain_nodes f1 r i = chain_nodes f2 r i.
Proof.
  intros Hd. revert f2 i. induction f1 as [|f1 IH]; intros [|f2] i H1 H2; [lia..|]. cbn [chain_nodes].
  destruct (negb _); [done|]. f_equal. destruct (parent (shape_at r i)) as [p|] eqn:Ep; [|done].
  pose proof (Hd _ _ Ep). by rewrite (IH f2) by lia.
Qed.

Lemma chainOf_parent r i p : runtime_ok r -> (i < next_id r)%nat -> parent (shape_at r i) = Some p -> chainOf r i = chainOf r p ++ [i].
Proof.
  intros Hok Hi Hp. pose proof (ok_parents_down r Hok) as Hd. unfold chainOf at 1. cbn [chain_nodes].
  destruct (ok_child _ _ (ok_nodes _ Hok i Hi) p Hp). rewrite child_key0, Hp. cbn [negb rev]. pose proof (Hd _ _ Hp).
  rewrite (chain_nodes_fuel r i (S p)) by (done || lia). done.
Qed.

Lemma chainOf_root r i : runtime_ok r -> (i < next_id r)%nat -> parent (shape_at r i) = None -> chainOf r i = [].
Proof.
  intros Hok Hi Hp. unfold chainOf. cbn [chain_nodes]. by destruct (ok_top _ _ (ok_nodes _ Hok i Hi) Hp) as [-> _].
Qed.

Lemma chainOf_below r i : runtime_ok r -> (i < next_id r)%nat -> Forall (fun j => (j < next_id r)%nat) (chainOf r i).
Proof.
  intros Hok. pose proof (ok_parents_down r Hok) as Hd. revert i.
  apply (chain_ind r (fun i => (i < next_id r)%nat -> Forall (fun j => (j < next_id r)%nat) (chainOf r i)) Hd).
  - intros i Hp Hi. by rewrite chainOf_root.
  - intros i p Hp IH Hi. pose proof (Hd _ _ Hp). rewrite (chainOf_parent r i p) by done. apply Forall_app. split; [apply IH; lia|by constructor].
Qed.

(** The shape [m] of [r'] describes the properties of the shape [j] of [r], each read
    as [R] allows. *)
Record mirror (R : PropertyInfo -> PropertyInfo -> Prop) (r : Runtime) (j : nat) (r' : Runtime) (m : nat) : Prop := {
  mirror_id : (m < next_id r')%nat;
  mirror_layout : Forall2 (fun p p' => ientry p' = ientry p /\ R p p') (layout r j) (layout r' m);
  mirror_own : node_own (shape_at r' m) = node_own (shape_at r j);
  mirror_inline : inline_slots (shape_at r' m) = inline_slots (shape_at r j);
  mirror_root : root (shape_at r' m) = root (shape_at r j);
  mirror_dict : isDictionary (shape_at r' m) = false
}.

Definition boxes (index : option Z) (p p' : PropertyInfo) : Prop :=
  irepr p' = Boxed \/ irepr p' = irepr p /\ index <> Some (slot (ientry p)).

Lemma mirror_keys R r j r' m : mirror R r j r' m -> layout_keys r' m = layout_keys r j.
Proof.
  intros [_ H _ _ _ _]. unfold layout_keys. induction H as [|p p' l l' [E _] _ IH]; [done|]. cbn. by rewrite E, IH.
Qed.

Lemma mirror_next R r j r' m width : mirror R r j r' m -> nextSlotIndex (shape_at r' m) width = nextSlotIndex (shape_at r j) width.
Proof. intros []. unfold nextSlotIndex, slotEnd. by rewrite mirror_own0, mirror_inline0. Qed.

Lemma mirror_root_self R r j : runtime_ok r -> (j < next_id r)%nat -> parent (shape_at r j) = None -> isDictionary (shape_at r j) = false ->
  mirror R r j r (root (shape_at r j)).
Proof.
  intros Hok Hj Hp Hd. rewrite (ok_self _ _ (ok_nodes _ Hok j Hj) Hp Hd). constructor; try done.
  by rewrite layout_root.
Qed.

(** One more node on both sides. *)
Lemma mirror_step R r j p r' m n : runtime_ok r -> runtime_ok r' -> (j < next_id r)%nat -> (n < next_id r')%nat ->
  parent (shape_at r j) = Some p -> parent (shape_at r' n) = Some m -> mirror R r p r' m ->
  node_own (shape_at r' n) = node_own (shape_at r j) ->
  R (mkInfo (node_own (shape_at r j)) (repr (shape_at r j))) (mkInfo (node_own (shape_at r' n)) (repr (shape_at r' n))) ->
  mirror R r j r' n.
Proof.
  intros Hok Hok' Hj Hn Hp Hm [] Eo Hr.
  destruct (ok_child _ _ (ok_nodes _ Hok j Hj) p Hp) as [_ _ D _ _ I O _ _].
  destruct (ok_child _ _ (ok_nodes _ Hok' n Hn) m Hm) as [_ _ D' _ _ I' O' _ _]. constructor; try congruence.
  - rewrite (layout_parent r j p), (layout_parent r' n m) by (done || by apply ok_parents_down).
    apply Forall2_app; [done|]. by repeat constructor.
  - by apply D'.
Qed.

Lemma mirror_frame R r j r' r'' m : runtime_ok r' -> runtime_ok r'' -> frame r' r'' -> mirror R r j r' m -> mirror R r j r'' m.
Proof.
  intros Hok Hok' Hf []. pose proof (proj2 Hf m mirror_id0) as Hs. destruct Hf as [Hle Hf].
  constructor; rewrite ?(same_own _ _ Hs), ?(same_inline _ _ Hs), ?(same_root _ _ Hs), ?(same_dictionary _ _ Hs); try done.
  - lia.
  - rewrite (frame_layout r' r'' m); [done|done|by apply ok_parents_down|by split|done].
Qed.

(** ** Editing the words that choose later nodes *)

Lemma generalized_ok r node : runtime_ok r -> let r' := edit with_generalized node r in runtime_ok r' /\ frame r r'.
Proof.
  intros Hok r'. assert (frame r r') as Hf by (apply frame_edit; intros; apply same_with_generalized). split; [|done].
  assert (forall i, transitions (shape_at r' i) = transitions (shape_at r i) /\ watched (shape_at r' i) = watched (shape_at r i) /\
    parent (shape_at r' i) = parent (shape_at r i)) as He.
  { intros i. destruct (Nat.lt_ge_cases node (next_id r)) as [Hn|Hn].
    - unfold r'. rewrite shape_at_edit by done. by destruct (decide (i = node)) as [->|].
    - assert (arena r' = arena r) as E; [|by rewrite (same_arena_at r r')]. unfold r', edit, with_arena. cbn [arena].
      rewrite <- (list_alter_id id (arena r) node) at 2 by done. apply list_alter_ext; [|done].
      intros x Hx%lookup_lt_Some. unfold next_id in Hn. lia. }
  apply (runtime_ok_grow r); [done|done| | |..].
  - intros i p. destruct (He i) as (_ & _ & ->). by apply ok_parents_down.
  - unfold r'. rewrite next_id_edit. lia.
  - intros i _. by destruct (He i) as (_ & -> & _).
  - intros i t. unfold r'. rewrite next_id_edit. fold r'. destruct (He i) as (-> & _ & _). by left.
Qed.

(** ** One slot boxed *)

Lemma rebuild_app r m l1 l2 index :
  rebuild r m (l1 ++ l2) index = match rebuild r m l1 index with Some (r1, m1) => rebuild r1 m1 l2 index | None => None end.
Proof.
  revert r m. induction l1 as [|node l1 IH]; intros r m; [done|]. cbn [app rebuild].
  destruct (addPropertyKey _ _ _ _ _ _ _ _) as [[[r1 n] s]|]; [|done]. destruct (negb _); [done|]. apply IH.
Qed.

(** Adding to a mirror of the parent the property its child has. *)
Lemma mirror_add R r j p r' m desired : runtime_ok r -> runtime_ok r' -> (j < next_id r)%nat -> parent (shape_at r j) = Some p ->
  mirror R r p r' m ->
  let e := node_own (shape_at r j) in
  exists r'' n, addPropertyKey r' m (key e) (enumerable e) (accessor e) (writable e) (configurable e) desired = Some (r'', n, slot e) /\
    added r' m e desired r'' n.
Proof.
  intros Hok Hok' Hj Hp Hm e. destruct (ok_child _ _ (ok_nodes _ Hok j Hj) p Hp). pose proof Hm as [].
  destruct (addPropertyKey_added r' m (key e) (enumerable e) (accessor e) (writable e) (configurable e) desired) as (r'' & n & E & Hadd); try done.
  - by rewrite (mirror_keys _ _ _ _ _ Hm).
  - unfold slotsUsedAfterAdd. rewrite (mirror_next _ _ _ _ _ _ Hm), mirror_inline0.
    change (slotWidth (accessor e)) with (entry_width e).
    assert (nextSlotIndex (shape_at r p) (entry_width e) = slot e) as -> by (symmetry; exact child_slot0). by rewrite <- child_inline0.
  - assert (added_entry r' m (key e) (enumerable e) (accessor e) (writable e) (configurable e) = e) as Ee.
    { unfold added_entry. rewrite (mirror_next _ _ _ _ _ _ Hm). change (slotWidth (accessor e)) with (entry_width e).
      assert (nextSlotIndex (shape_at r p) (entry_width e) = slot e) as -> by (symmetry; exact child_slot0). by destruct e. }
    rewrite Ee in E, Hadd. eauto.
Qed.

Definition generalize_here (r : Runtime) (index : Z) (node : nat) : Runtime :=
  if double_at r index node then edit with_generalized node r else r.

Lemma generalize_here_ok r index node : runtime_ok r -> runtime_ok (generalize_here r index node) /\ frame r (generalize_here r index node) /\
  proto_epoch (generalize_here r index node) = proto_epoch r.
Proof.
  intros Hok. unfold generalize_here. destruct (double_at r index node); [|done].
  destruct (generalized_ok r node Hok) as [H1 H2]. done.
Qed.

Lemma rebuild_spec r index : runtime_ok r -> forall j, (j < next_id r)%nat -> isDictionary (shape_at r j) = false ->
  used_as_prototype (shape_at r j) = false ->
  exists r' m, rebuild r (root (shape_at r j)) (chainOf r j) index = Some (r', m) /\ runtime_ok r' /\ frame r r' /\
    proto_epoch r' = proto_epoch r /\ mirror (boxes (Some index)) r j r' m /\ used_as_prototype (shape_at r' m) = false.
Proof.
  intros Hok. pose proof (ok_parents_down r Hok) as Hd. apply (chain_ind r (fun j => _ -> _ -> _ -> exists r' m, _) Hd).
  - intros j Hp Hj Hdict Hu. exists r, (root (shape_at r j)). rewrite chainOf_root by done. split_and!; try done.
    + by apply mirror_root_self.
    + by rewrite (ok_self _ _ (ok_nodes _ Hok j Hj) Hp Hdict).
  - intros j p Hp IH Hj Hdict Hu. pose proof (Hd _ _ Hp). pose proof (ok_nodes _ Hok j Hj) as [_ Hc Hmark _ _ _ _ _].
    destruct (Hc p Hp) as [_ _ Hpd _ _ _ Hroot _ _].
    destruct IH as (r1 & m & E & Hok1 & Hf1 & He1 & Hm & Hum); [lia|by apply Hpd| |].
    { destruct (used_as_prototype (shape_at r p)) eqn:Ep; [|done]. by rewrite (Hmark p Hp Ep) in Hu. }
    rewrite (chainOf_parent r j p), rebuild_app, Hroot, E by done. cbn [rebuild].
    pose proof (proj2 Hf1 j Hj) as Hs. fold (generalize_here r1 index j).
    destruct (generalize_here_ok r1 index j Hok1) as (Hok2 & Hf2 & He2).
    rewrite (same_own _ _ Hs), (same_repr _ _ Hs). set (want := if double_at r1 index j then Boxed else repr (shape_at r j)).
    pose proof (mirror_frame _ _ _ _ _ _ Hok1 Hok2 Hf2 Hm) as Hm2.
    destruct (mirror_add _ r j p _ m want Hok Hok2 Hj Hp Hm2) as (r'' & n & Ea & (Hok3 & Hf3 & He3 & Happ & _)).
    rewrite Ea, Z.eqb_refl. cbn [negb]. exists r'', n. split_and!; try done.
    + etransitivity; [exact Hf1|]. by etransitivity.
    + congruence.
    + destruct Happ. apply (mirror_step _ r j p r'' m n); try done.
      { by apply (mirror_frame _ _ _ (generalize_here r1 index j)). }
      unfold boxes. cbn [irepr ientry]. destruct appends_repr0 as [->| ->]; [by left|]. unfold want, double_at.
      rewrite (same_own _ _ Hs), (same_repr _ _ Hs).
      destruct (Z.eqb_spec (slot (node_own (shape_at r j))) index) as [Ei|Ei]; cbn [andb].
      * case_bool_decide as Er; [by left|]. left. by destruct (repr (shape_at r j)).
      * right. split; [done|]. congruence.
    + rewrite (appends_mark _ _ _ _ _ Happ), (same_mark _ _ (proj2 Hf3 m ltac:(by apply Hm2))), (same_mark _ _ (proj2 Hf2 m ltac:(by apply Hm))). done.
Qed.

(** ** The private chain of a prototype *)

Lemma marked_chain_app r root_ cur l1 l2 box :
  marked_chain r root_ cur (l1 ++ l2) box = let '(r1, c1) := marked_chain r root_ cur l1 box in marked_chain r1 root_ c1 l2 box.
Proof. revert r cur. induction l1 as [|node l1 IH]; intros r cur; [done|]. cbn [app marked_chain]. apply IH. Qed.

Definition private_child (r : Runtime) (m root_ : nat) (e : DictEntry) (repr_ : SlotRepr) : Shape :=
  with_mark (child_shape m (shape_at r m) e root_ repr_ false).

(** A node under a mirror of the parent that no edge leads to. *)
Lemma private_step r j p r' m root_ repr_ : runtime_ok r -> runtime_ok r' -> (j < next_id r)%nat -> parent (shape_at r j) = Some p ->
  forall R, mirror R r p r' m -> root (shape_at r' m) = root_ -> (repr_ = Boxed \/ repr_ = repr (shape_at r j)) ->
  let r'' := new_shape (private_child r' m root_ (node_own (shape_at r j)) repr_) r' in
  runtime_ok r'' /\ parent (shape_at r'' (next_id r')) = Some m.
Proof.
  intros Hok Hok' Hj Hp R Hm Hroot Hrepr r''. destruct (ok_child _ _ (ok_nodes _ Hok j Hj) p Hp). pose proof Hm as [].
  assert (shape_at r'' (next_id r') = private_child r' m root_ (node_own (shape_at r j)) repr_) as En by (unfold r''; by rewrite shape_at_new, decide_True).
  assert (frame r' r'') as Hf by apply frame_new. assert (next_id r'' = S (next_id r')) as El by apply next_id_new.
  assert (parents_down r'') as Hd.
  { apply (frame_down r'); [done|done|]. intros i q Hi. rewrite El in Hi. replace i with (next_id r') by lia. rewrite En. intros [= <-]. done. }
  assert (forall i, (i < next_id r')%nat -> shape_at r'' i = shape_at r' i) as Hold by (intros i Hi; unfold r''; rewrite shape_at_new, decide_False; lia || done).
  split; [|by rewrite En]. apply (runtime_ok_grow r'); try done.
  - intros i Hi. rewrite El in Hi. replace i with (next_id r') by lia.
    pose proof (node_ok_frame r' r'' m Hok' Hd Hf mirror_id0) as [_ _ _ _ _ HR _ HI]. rewrite Hold in HR, HI by done.
    constructor; rewrite En; cbn [private_child with_mark child_shape parent isDictionary shape_dict root inline_slots used_as_prototype]; try done.
    + intros q [= <-]. done.
    + intros q [= <-]. unfold layout_keys. rewrite (frame_layout r' r'' m) by done. fold (layout_keys r' m).
      rewrite (mirror_keys _ _ _ _ _ Hm), Hold by done.
      constructor; cbn [node_own isDictionary shape_dict slot inline_slots root double_slots repr]; try done.
      * by rewrite (mirror_next _ _ _ _ _ _ Hm).
      * cbn. by rewrite mirror_inline0, <- child_inline0.
      * cbn. destruct repr_; [done|]. destruct Hrepr as [|Hr]; [done|]. destruct (child_repr0 (eq_sym Hr)) as [_ Hl].
        by rewrite (proj2 (Z.ltb_lt _ _) Hl).
      * cbn. intros E. apply child_repr0. destruct Hrepr; congruence.
    + by rewrite <- Hroot.
  - intros i Hi. by rewrite Hold.
  - intros i t. rewrite El. intros Hi. destruct (Nat.eq_dec i (next_id r')) as [->|]; [by rewrite En|]. rewrite Hold by lia. left. split; [lia|done].
Qed.

Lemma marked_chain_spec r0 box : forall r, runtime_ok r0 -> runtime_ok r -> frame r0 r -> forall j, (j < next_id r0)%nat -> isDictionary (shape_at r0 j) = false ->
  let '(r', m) := marked_chain r (root (shape_at r0 j)) (root (shape_at r0 j)) (chainOf r0 j) box in
  runtime_ok r' /\ frame r r' /\ proto_epoch r' = proto_epoch r /\ mirror (boxes box) r0 j r' m /\
  (chainOf r0 j <> [] -> used_as_prototype (shape_at r' m) = true /\ (next_id r <= m)%nat).
Proof.
  intros r Hok0 Hok Hf0. pose proof (ok_parents_down r0 Hok0) as Hd.
  apply (chain_ind r0 (fun j => _ -> _ -> let '(r', m) := _ in _) Hd).
  - intros j Hp Hj Hdict. rewrite chainOf_root by done. cbn [marked_chain]. split_and!; try done.
    apply (mirror_frame _ _ _ r0); [done..|]. by apply mirror_root_self.
  - intros j p Hp IH Hj Hdict. pose proof (Hd _ _ Hp). pose proof (ok_nodes _ Hok0 j Hj) as [_ Hc _ _ _ _ _ _].
    destruct (Hc p Hp) as [_ _ Hpd _ _ _ Hroot _ _]. specialize (IH ltac:(lia) (proj1 Hpd)).
    rewrite (chainOf_parent r0 j p), marked_chain_app, Hroot by done.
    destruct (marked_chain r _ _ _ _) as [r1 m]. destruct IH as (Hok1 & Hf1 & He1 & Hm & _). cbn [marked_chain].
    pose proof (proj2 Hf0 j Hj) as Hs0. pose proof (proj2 Hf1 j ltac:(destruct Hf0; lia)) as Hs1.
    rewrite (same_own _ _ Hs1), (same_repr _ _ Hs1), (same_own _ _ Hs0), (same_repr _ _ Hs0).
    set (want := if bool_decide _ then Boxed else repr (shape_at r0 j)).
    assert (want = Boxed \/ want = repr (shape_at r0 j)) as Hw by (unfold want; case_bool_decide; auto).
    fold (private_child r1 m (root (shape_at r0 p)) (node_own (shape_at r0 j)) want).
    destruct (private_step r0 j p r1 m (root (shape_at r0 p)) want Hok0 Hok1 Hj Hp _ Hm ltac:(by apply Hm) Hw) as [Hok2 Hpar].
    set (r2 := new_shape _ r1) in *. assert (shape_at r2 (next_id r1) = private_child r1 m (root (shape_at r0 p)) (node_own (shape_at r0 j)) want) as En
      by (unfold r2; by rewrite shape_at_new, decide_True).
    assert (frame r1 r2) as Hf2 by apply frame_new. split_and!; try done.
    + by etransitivity.
    + apply (mirror_step _ r0 j p r2 m (next_id r1)); try done.
      * unfold r2. rewrite next_id_new. lia.
      * by apply (mirror_frame _ _ _ r1).
      * by rewrite En.
      * rewrite En. unfold boxes. cbn [irepr ientry private_child with_mark child_shape node_own repr]. unfold want.
        case_bool_decide; [by left|]. by right.
    + intros _. rewrite En. split; [done|]. destruct Hf1; lia.
Qed.

Lemma generalize_all_ok index chain : forall r, runtime_ok r ->
  let r' := fold_left (fun r node => generalize_here r index node) chain r in
  runtime_ok r' /\ frame r r' /\ proto_epoch r' = proto_epoch r.
Proof.
  induction chain as [|node chain IH]; intros r Hok; [done|]. cbn [fold_left].
  destruct (generalize_here_ok r index node Hok) as (H1 & H2 & H3). destruct (IH _ H1) as (H4 & H5 & H6).
  split; [done|]. split; [by etransitivity|congruence].
Qed.

(** A layout read through [boxes] has no double slot the old one has not. *)
Lemma boxes_doubles r i r' m index s : runtime_ok r -> runtime_ok r' -> (i < next_id r)%nat -> (m < next_id r')%nat -> 0 <= s ->
  Forall2 (fun p p' => ientry p' = ientry p /\ boxes (Some index) p p') (layout r i) (layout r' m) ->
  slotIsDouble (shape_at r' m) s = true -> s <> index /\ slotIsDouble (shape_at r i) s = true.
Proof.
  intros Hok Hok' Hi Hm Hs H. rewrite !double_slots_summary by done. induction H as [|p p' l l' [E Hb] _ IH]; [done|].
  cbn [existsb]. rewrite !orb_true_iff, E. intros [[E1%Z.eqb_eq Hd%bool_decide_eq_true]%andb_prop|[H1 H2]%IH]; [|auto].
  destruct Hb as [Hb|[Hb Hne]]; [by rewrite Hb in Hd|]. split; [intros Es; apply Hne; congruence|]. left.
  rewrite E1, Z.eqb_refl. apply bool_decide_eq_true. congruence.
Qed.

Lemma boxes_entries R l l' : Forall2 (fun p p' => ientry p' = ientry p /\ R p p') l l' -> map ientry l' = map ientry l.
Proof. induction 1 as [|p p' l l' [E _] _ IH]; [done|]. cbn. by rewrite E, IH. Qed.

(** What [withSlotBoxed] promises of the shape it answers. *)
Record boxed_shape (r : Runtime) (i : nat) (index : Z) (r' : Runtime) (m : nat) : Prop := {
  boxed_ok : runtime_ok r';
  boxed_id : (m < next_id r')%nat;
  boxed_entries : layout_entries r' m = layout_entries r i;
  boxed_doubles : forall s, 0 <= s -> slotIsDouble (shape_at r' m) s = true -> s <> index /\ slotIsDouble (shape_at r i) s = true;
  boxed_own : node_own (shape_at r' m) = node_own (shape_at r i);
  boxed_inline : inline_slots (shape_at r' m) = inline_slots (shape_at r i);
  boxed_root : root (shape_at r' m) = root (shape_at r i);
  boxed_mark : used_as_prototype (shape_at r' m) = used_as_prototype (shape_at r i);
  boxed_dict : shape_dict (shape_at r' m) = shape_dict (shape_at r i);
  boxed_frame : frame r r';
  boxed_epoch : proto_epoch r' = proto_epoch r
}.

Lemma mirror_boxed r i index r' m : runtime_ok r -> runtime_ok r' -> (i < next_id r)%nat -> 0 <= index -> isDictionary (shape_at r i) = false ->
  mirror (boxes (Some index)) r i r' m -> used_as_prototype (shape_at r' m) = used_as_prototype (shape_at r i) ->
  frame r r' -> proto_epoch r' = proto_epoch r -> boxed_shape r i index r' m.
Proof.
  intros Hok Hok' Hi Hx Hd [] Hu Hf He. constructor; try done.
  - by apply boxes_entries in mirror_layout0.
  - intros s Hs. by apply (boxes_doubles r i r' m).
  - unfold isDictionary in *. destruct (shape_dict (shape_at r' m)), (shape_dict (shape_at r i)); done.
Qed.

Lemma withSlotBoxed_spec r i index : runtime_ok r -> (i < next_id r)%nat -> 0 <= index ->
  exists r' m, withSlotBoxed r i index = Some (r', m) /\ boxed_shape r i index r' m.
Proof.
  intros Hok Hi Hx. unfold withSlotBoxed. destruct (isDictionary (shape_at r i)) eqn:Hd; cbn [orb].
  { exists r, i. split; [done|]. constructor; try done. intros s Hs H.
    destruct (ok_top _ _ (ok_nodes _ Hok i Hi) (ok_dict _ _ (ok_nodes _ Hok i Hi) Hd)) as [_ E].
    unfold slotIsDouble in H. rewrite E, andb_false_r in H. done. }
  destruct (slotIsDouble (shape_at r i) index) eqn:Hdouble; cbn [negb].
  2: { exists r, i. split; [done|]. constructor; try done. intros s Hs H. split; [intros ->; congruence|done]. }
  destruct (used_as_prototype (shape_at r i)) eqn:Hu.
  - destruct (generalize_all_ok index (chainOf r i) r Hok) as (Hok1 & Hf1 & He1). cbn zeta in *.
    change (fold_left _ (chainOf r i) r) with (fold_left (fun r node => generalize_here r index node) (chainOf r i) r).
    set (r1 := fold_left _ _ r) in *. unfold privateMarkedChain.
    pose proof (marked_chain_spec r (Some index) r1 Hok Hok1 Hf1 i Hi Hd) as H.
    destruct (marked_chain r1 _ _ _ _) as [r' m]. destruct H as (Hok2 & Hf2 & He2 & Hm & Hmark). exists r', m. split; [done|].
    apply mirror_boxed; try done; [|by etransitivity|congruence]. rewrite Hu. apply Hmark.
    destruct (parent (shape_at r i)) as [p|] eqn:Ep; [rewrite (chainOf_parent r i p) by done; by destruct (chainOf r p)|].
    rewrite double_slots_summary, layout_root in Hdouble by done. done.
  - destruct (rebuild_spec r index Hok i Hi Hd Hu) as (r' & m & E & Hok' & Hf & He & Hm & Hmark).
    exists r', m. split; [done|]. apply mirror_boxed; try done. by rewrite Hu.
Qed.

(** ** What the tree promises *)

(** Every shape that was there describes what it did. *)
Definition unchanged (r r' : Runtime) : Prop :=
  forall j, (j < next_id r)%nat -> layout r' j = layout r j /\ prototype (shape_at r' j) = prototype (shape_at r j) /\
    root (shape_at r' j) = root (shape_at r j).

Lemma frame_unchanged r r' : runtime_ok r -> runtime_ok r' -> frame r r' -> unchanged r r'.
Proof.
  intros Hok Hok' Hf j Hj. pose proof (proj2 Hf j Hj) as Hs. split_and!.
  - apply frame_layout; try done. by apply ok_parents_down.
  - apply Hs.
  - apply Hs.
Qed.

(** The walk that lists the own keys sees the layout, in its order. *)
Lemma chain_layout r i : runtime_ok r -> (i < next_id r)%nat -> map (fun j => node_own (shape_at r j)) (chainOf r i) = layout_entries r i.
Proof.
  intros Hok. pose proof (ok_parents_down r Hok) as Hd.
  revert i. apply (chain_ind r (fun i => (i < next_id r)%nat -> map (fun j => node_own (shape_at r j)) (chainOf r i) = layout_entries r i) Hd);
    [intros i Ep Hi|intros i p Ep IH Hi].
  - rewrite chainOf_root by done. unfold layout_entries. by rewrite layout_root.
  - rewrite (chainOf_parent r i p) by done. unfold layout_entries in *. rewrite (layout_parent r i p), !map_app by done. cbn [map ientry].
    rewrite IH; [done|]. pose proof (Hd i p Ep). lia.
Qed.

Lemma tree_keys r i enumerableOnly : runtime_ok r -> (i < next_id r)%nat -> isDictionary (shape_at r i) = false ->
  ownKeysInInsertionOrder r i enumerableOnly =
  map key (List.filter (fun e => live e && (negb enumerableOnly || enumerable e)) (layout_entries r i)).
Proof.
  intros Hok Hi Hd. rewrite <- chain_layout by done. unfold ownKeysInInsertionOrder, isDictionary, chainOf in *.
  destruct (shape_dict (shape_at r i)); [done|]. rewrite <- map_rev, <- List.filter_rev. by rewrite <- map_rev.
Qed.

(** C27: an addition appends.  Where [lookupProperty] finds no property of the name and
    the threshold is not passed, [addProperty] answers a shape whose layout is the
    old one with the new property behind it, at a slot no other property of the layout
    holds, and its key comes last in the order of the own keys; no shape of the thread describes anything else than before; and the next
    object to add the property the same way lands on the same shape, unless a double
    was asked for past the last slot that can hold one. *)
Theorem shape_add_appends symbol_address r i name en acc wr conf desired :
  runtime_ok r -> (i < next_id r)%nat -> isDictionary (shape_at r i) = false -> valid name = true ->
  lookupProperty symbol_address r i name = None -> slotsUsedAfterAdd (shape_at r i) (slotWidth acc) <= kDictionaryThreshold ->
  exists r' n s repr_, addProperty r i name en acc wr conf desired = Some (r', n, s) /\ runtime_ok r' /\
    layout r' n = layout r i ++ [mkInfo (mkEntry name s en acc wr conf) repr_] /\ (repr_ = Boxed \/ repr_ = desired) /\
    NoDup (slots_of (layout_entries r' n)) /\
    ownKeysInInsertionOrder r' n false = ownKeysInInsertionOrder r i false ++ [name] /\ unchanged r r' /\
    (acc = true \/ desired = Boxed \/ s < kSlotReprLimit -> addProperty r' i name en acc wr conf desired = Some (r', n, s)).
Proof.
  rewrite addProperty_key. intros Hok Hi Hd Hv Hl Hu. pose proof (tree_lookup symbol_address r i name Hok Hi Hd Hv) as Hfresh. rewrite Hl in Hfresh.
  destruct (addPropertyKey_added r i name en acc wr conf desired Hok Hi Hd Hv Hfresh Hu) as (r' & n & E & (Hok' & Hf & _ & [] & _)).
  exists r', n, (slot (added_entry r i name en acc wr conf)), (repr (shape_at r' n)). split_and!; try done.
  - rewrite (layout_parent r' n i) by (done || by apply ok_parents_down).
    by rewrite (proj1 (frame_unchanged r r' Hok Hok' Hf i Hi)), appends_own0.
  - by destruct (layout_slots r' n Hok' appends_id0).
  - rewrite !tree_keys by (done || apply appends0). unfold layout_entries at 1. rewrite (layout_parent r' n i) by (done || by apply ok_parents_down).
    rewrite map_app, List.filter_app, map_app. rewrite (proj1 (frame_unchanged r r' Hok Hok' Hf i Hi)), appends_own0. cbn. unfold live. cbn. by rewrite Hv.
  - by apply frame_unchanged.
  - intros Hs. rewrite addProperty_key. by apply (addPropertyKey_again r).
Qed.

(** Boxing a slot changes nothing else.  [withSlotBoxed] always answers, its
    internal check of the renumbering never fires, and the shape it answers describes
    the same properties with the same attributes at the same slots; no slot has become
    double, the one asked for is boxed, and every shape that was there describes what it
    did.  Another double slot may come back boxed, when its node has generalized before. *)
Theorem slot_boxed_layout r i index : runtime_ok r -> (i < next_id r)%nat -> 0 <= index ->
  exists r' m, withSlotBoxed r i index = Some (r', m) /\ runtime_ok r' /\ layout_entries r' m = layout_entries r i /\
    (forall s, 0 <= s -> slotIsDouble (shape_at r' m) s = true -> s <> index /\ slotIsDouble (shape_at r i) s = true) /\
    used_as_prototype (shape_at r' m) = used_as_prototype (shape_at r i) /\ unchanged r r'.
Proof.
  intros Hok Hi Hx. destruct (withSlotBoxed_spec r i index Hok Hi Hx) as (r' & m & E & []).
  exists r', m. split_and!; try done. by apply frame_unchanged.
Qed.

(** ** Watching *)

Definition unwatched_edges (r : Runtime) : nat := sum_list_with (fun s => if watched s then O else length (transitions s)) (arena r).

Lemma watch_decreases r node : (node < next_id r)%nat -> watched (shape_at r node) = false ->
  (unwatched_edges (edit with_watched node r) + length (transitions (shape_at r node)) = unwatched_edges r)%nat.
Proof.
  intros Hn Hw. destruct (lookup_lt_is_Some_2 (arena r) node Hn) as [s Es].
  assert (shape_at r node = s) as E by (unfold shape_at; by rewrite Es). rewrite E in *.
  destruct (list_elem_of_split_length _ _ _ Es) as (l1 & l2 & Ea & Ei). unfold unwatched_edges, edit, with_arena. cbn [arena].
  rewrite Ea, Ei. replace (length l1) with (length l1 + 0)%nat by lia. rewrite alter_app_r. cbn [alter list_alter].
  rewrite !sum_list_with_app. cbn. rewrite Hw. lia.
Qed.

Lemma unwatched_bound r : (unwatched_edges r <= sum_list_with (fun s => length (transitions s)) (arena r))%nat.
Proof. unfold unwatched_edges. induction (arena r) as [|s l IH]; [done|]. cbn. destruct (watched s); lia. Qed.

(** Where the walk has come to: all is as in [r0] but for the marks, and a watched node's
    children are watched or about to be. *)
Record watching (r0 r : Runtime) (todo : list nat) : Prop := {
  watching_next : next_id r = next_id r0;
  watching_epoch : proto_epoch r = proto_epoch r0;
  watching_frame : frame r0 r;
  watching_edges : forall i, transitions (shape_at r i) = transitions (shape_at r0 i);
  watching_todo : Forall (fun n => (n < next_id r0)%nat) todo;
  watching_closed : forall i t, (i < next_id r0)%nat -> In t (transitions (shape_at r0 i)) -> watched (shape_at r i) = true ->
    watched (shape_at r (next_shape t)) = true \/ In (next_shape t) todo
}.

Lemma watching_step r0 r node todo : runtime_ok r0 -> watching r0 r (node :: todo) -> watched (shape_at r node) = false ->
  let r' := edit with_watched node r in
  let below := List.filter (fun n => negb (watched (shape_at r' n))) (map next_shape (transitions (shape_at r' node))) in
  watching r0 r' (rev below ++ todo) /\ watched (shape_at r' node) = true /\
  transitions (shape_at r' node) = transitions (shape_at r node).
Proof.
  intros Hok [N E F T H C] Hw r' below. inversion_clear H as [|?? Hn Ht].
  assert (forall j, shape_at r' j = if decide (j = node) then with_watched (shape_at r j) else shape_at r j) as Hat
    by (intros j; apply shape_at_edit; lia).
  assert (transitions (shape_at r' node) = transitions (shape_at r node)) as Et by (rewrite Hat; by destruct (decide _)).
  split; [|split; [rewrite Hat; by rewrite decide_True|done]]. constructor.
  - unfold r'. by rewrite next_id_edit.
  - done.
  - etransitivity; [exact F|]. apply frame_edit. intros. apply same_with_watched.
  - intros i. rewrite Hat. by destruct (decide (i = node)) as [->|]; rewrite <- T.
  - apply Forall_app. split; [|done]. apply Forall_forall. intros n Hn'. apply list_elem_of_In, in_rev, filter_In in Hn' as [Hn' _].
    apply in_map_iff in Hn' as (t & <- & Hin). rewrite Et, T in Hin.
    by destruct (ok_edges _ Hok node t Hn Hin).
  - intros i t Hi Hin Hwi. destruct (watched (shape_at r' (next_shape t))) eqn:Ewt; [by left|right]. apply in_or_app.
    destruct (decide (i = node)) as [->|Hne].
    + left. apply -> in_rev. apply filter_In. rewrite Ewt, Et, T. split; [|done]. by apply in_map.
    + rewrite Hat, decide_False in Hwi by done. destruct (C i t Hi Hin Hwi) as [Hc|[Hc|Hc]].
      * rewrite Hat in Ewt. destruct (decide _); by rewrite ?Hc in Ewt.
      * exfalso. rewrite Hat, <- Hc, decide_True in Ewt by done. done.
      * by right.
Qed.

Lemma watch_loop_spec r0 fuel : runtime_ok r0 -> forall todo r, watching r0 r todo -> (length todo + unwatched_edges r <= fuel)%nat ->
  exists r', watch_loop fuel todo r = Some r' /\ watching r0 r' [] /\
    forall n, watched (shape_at r n) = true \/ In n todo -> watched (shape_at r' n) = true.
Proof.
  intros Hok. induction fuel as [|fuel IH]; intros todo r Hwt Hf.
  { destruct todo; [|cbn in Hf; lia]. exists r. split_and!; [done|done|]. by intros n [?|[]]. }
  destruct todo as [|node todo]; [exists r; split_and!; [done|done|]; by intros n [?|[]]|]. cbn [watch_loop].
  destruct (watched (shape_at r node)) eqn:Ew.
  - destruct (IH todo r) as (r' & E & W & K); [|cbn in Hf; lia|].
    { destruct Hwt as [N E F T H C]. constructor; try done; [by inversion H|]. intros i t Hi Ht Hwi.
      destruct (C i t Hi Ht Hwi) as [?|[<-|?]]; auto. }
    exists r'. split_and!; try done. intros n [?|[<-|?]]; auto.
  - destruct (watching_step r0 r node todo Hok Hwt Ew) as (Hwt' & Ewn & Et).
    assert (node < next_id r)%nat as Hn by (destruct Hwt as [N _ _ _ H _]; inversion H; lia).
    pose proof (watch_decreases r node Hn Ew) as Hdec.
    edestruct (IH _ _ Hwt') as (r' & E & W & K).
    { rewrite length_app, length_rev. rewrite Et. pose proof (List.filter_length_le (fun n => negb (watched (shape_at (edit with_watched node r) n)))
        (map next_shape (transitions (shape_at r node)))) as Hl. rewrite length_map in Hl. cbn in Hf. lia. }
    exists r'. split_and!; try done. intros n [Hwn|[<-|Hin]]; apply K; [left|by left|right; apply in_or_app; by right].
    rewrite shape_at_edit by done. by destruct (decide (n = node)).
Qed.

(** Watching a layout reaches everything below it.  The walk ends, marks the shape
    and leaves every edge from a watched shape leading to a watched one, so that an
    object that only gains properties after it was at a watched shape is at a watched
    shape; nothing else of any shape changes. *)
Theorem watch_closes r i : runtime_ok r -> (i < next_id r)%nat -> isDictionary (shape_at r i) = false ->
  exists r', watch r i = Some r' /\ runtime_ok r' /\ watched (shape_at r' i) = true /\ unchanged r r' /\ proto_epoch r' = proto_epoch r.
Proof.
  intros Hok Hi Hd. unfold watch. rewrite Hd, orb_false_r. destruct (watched (shape_at r i)) eqn:Ew; [by exists r|].
  destruct (watch_loop_spec r (watch_fuel r) Hok [i] r) as (r' & E & [N Ee F T _ C] & K).
  - constructor; try done; [by constructor|]. intros j t Hj Ht W. left. by destruct (ok_edges _ Hok j t Hj Ht); auto.
  - unfold watch_fuel. cbn. pose proof (unwatched_bound r). lia.
  - assert (runtime_ok r') as Hok'.
    { apply (runtime_ok_extend r); try done.
      - apply (frame_down r); [done|done|]. lia.
      - lia.
      - intros j t Hj Ht W. by destruct (C j t Hj Ht W).
      - intros j t Hj. rewrite T. left. split; [lia|done]. }
    exists r'. split_and!; try done; [apply K; right; by left|by apply frame_unchanged].
Qed.

(** ** Roots *)

Lemma clamp_range n : kDefaultInlineSlots <= clampInlineSlots n <= kOverflowSlot.
Proof. unfold clampInlineSlots, kDefaultInlineSlots, kOverflowSlot. zbool; lia. Qed.

(** A shape with no parent, tree or dictionary, keeps the arena right. *)
Lemma top_ok r s : runtime_ok r -> parent s = None -> node_own s = no_property -> double_slots s = 0 -> transitions s = [] ->
  kDefaultInlineSlots <= inline_slots s <= kOverflowSlot ->
  (isDictionary s = false /\ root s = next_id r \/
   isDictionary s = true /\ (root s < next_id r)%nat /\ parent (shape_at r (root s)) = None /\ isDictionary (shape_at r (root s)) = false) ->
  runtime_ok (new_shape s r) /\ frame r (new_shape s r).
Proof.
  intros Hok Hp Ho Hds Ht Hin Hr. pose proof (frame_new s r) as Hf. split; [|done].
  assert (shape_at (new_shape s r) (next_id r) = s) as En by (by rewrite shape_at_new, decide_True).
  assert (forall i, (i < next_id r)%nat -> shape_at (new_shape s r) i = shape_at r i) as Hold by (intros i Hi; rewrite shape_at_new, decide_False; lia || done).
  apply (runtime_ok_grow r); try done.
  - apply (frame_down r); [done|done|]. intros i p Hi. rewrite next_id_new in Hi. replace i with (next_id r) by lia. by rewrite En, Hp.
  - intros i Hi. rewrite next_id_new in Hi. replace i with (next_id r) by lia. constructor; rewrite ?En, ?Hp; try done.
    + intros _ Hd. by destruct Hr as [[_ ?]|[Hd' _]]; [|rewrite Hd in Hd'].
    + rewrite next_id_new. destruct Hr as [[Hd ->]|(Hd & R1 & R2 & R3)].
      * rewrite En. split_and!; [lia|done|done].
      * rewrite Hold by lia. split_and!; [lia|done|done].
  - intros i Hi. by rewrite Hold.
  - intros i t. rewrite next_id_new. intros Hi. destruct (Nat.eq_dec i (next_id r)) as [->|]; [by rewrite En, Ht|].
    rewrite Hold by lia. left. split; [lia|done].
Qed.

(** A root with fresh storage, marked or not. *)
Lemma root_ok r proto inline : runtime_ok r ->
  let r' := new_shape (root_shape (next_id r) proto inline) r in runtime_ok r' /\ frame r r'.
Proof. intros Hok. apply top_ok; try done; [apply clamp_range|by left]. Qed.

(** ** Examples *)

Definition empty_runtime : Runtime := mkRuntime [] 2 false.

Lemma empty_runtime_ok : runtime_ok empty_runtime.
Proof. constructor; unfold next_id; cbn; lia. Qed.

(** A root, and the property [x] read as a double below it. *)
Definition root_runtime : Runtime := new_shape (root_shape 0 VUndefined 4) empty_runtime.

Lemma root_runtime_ok : runtime_ok root_runtime.
Proof. apply (root_ok empty_runtime VUndefined 4 empty_runtime_ok). Qed.

Definition name_x : PropertyKey := StringKey [120].
Definition add_x (r : Runtime) (i : nat) : option (Runtime * nat * Z) := addPropertyKey r i name_x true false true true Double.
Definition x_runtime : Runtime := match add_x root_runtime 0 with Some (r, _, _) => r | None => root_runtime end.

Lemma x_runtime_ok : runtime_ok x_runtime.
Proof.
  destruct (addPropertyKey_added root_runtime 0 name_x true false true true Double) as (r' & n & E & Hok & _);
    [apply root_runtime_ok|vm_compute; lia|reflexivity..|by apply not_elem_of_nil|vm_compute; discriminate|].
  unfold x_runtime, add_x. by rewrite E.
Qed.

Lemma shape_add_appends_witness :
  exists r' n, addProperty x_runtime 1 (StringKey [121]) true true true true Boxed = Some (r', n, 1) /\
    layout_entries r' n = [mkEntry name_x 0 true false true true; mkEntry (StringKey [121]) 1 true true true true] /\
    addProperty r' 1 (StringKey [121]) true true true true Boxed = Some (r', n, 1).
Proof.
  destruct (shape_add_appends (fun _ => 0) x_runtime 1 (StringKey [121]) true true true true Boxed)
    as (r' & n & s & d & E & _ & El & _ & _ & _ & Hagain);
    [apply x_runtime_ok|vm_compute; lia|reflexivity..|vm_compute; discriminate|].
  assert (s = 1) as -> by (vm_compute in E; injection E as _ _ <-; reflexivity).
  exists r', n. split; [exact E|]. split; [|apply Hagain; by left]. unfold layout_entries. rewrite El. reflexivity.
Defined.

Lemma slot_boxed_layout_witness :
  exists r' m, withSlotBoxed x_runtime 1 0 = Some (r', m) /\ layout_entries r' m = [mkEntry name_x 0 true false true true] /\
    slotIsDouble (shape_at x_runtime 1) 0 = true /\ slotIsDouble (shape_at r' m) 0 = false.
Proof.
  destruct (slot_boxed_layout x_runtime 1 0) as (r' & m & E & _ & El & Hd & _); [apply x_runtime_ok|vm_compute; lia|lia|].
  exists r', m. split; [exact E|]. split; [rewrite El; reflexivity|]. split; [reflexivity|].
  destruct (slotIsDouble (shape_at r' m) 0) eqn:E0; [|reflexivity]. by destruct (Hd 0 ltac:(lia) E0).
Defined.

Lemma watch_closes_witness : exists r', watch x_runtime 0 = Some r' /\ watched (shape_at r' 0) = true /\ watched (shape_at r' 1) = true.
Proof.
  destruct (watch_closes x_runtime 0) as (r' & E & _ & W & _); [apply x_runtime_ok|vm_compute; lia|reflexivity|].
  exists r'. split; [exact E|]. split; [exact W|]. vm_compute in E. injection E as <-. reflexivity.
Defined.

(** The shapes of an object with [n] boxed properties on the way. *)
Fixpoint filled (n : nat) (r : Runtime) (i : nat) : option (Runtime * nat) :=
  match n with
  | O => Some (r, i)
  | S n => let? (r, i, _) := addPropertyKey r i (StringKey [200 + Z.of_nat n]) true false true true Boxed in filled n r i
  end.

(** Past the last slot a double can take, the edge that was made boxed is never found
    again by a store that asks for a double: each object gets a node of its own. *)
Example double_past_limit_not_shared :
  exists r i, filled 64 root_runtime 0 = Some (r, i) /\
    exists r1 n1 r2 n2 s, add_x r i = Some (r1, n1, s) /\ add_x r1 i = Some (r2, n2, s) /\ n1 <> n2 /\
      length (transitions (shape_at r2 i)) = 2%nat.
Proof.
  do 2 eexists. split; [vm_compute; reflexivity|]. do 5 eexists. split; [vm_compute; reflexivity|].
  split; [vm_compute; reflexivity|]. split; [discriminate|vm_compute; reflexivity].
Qed.

(** [x] and [y] double; another object's [x] generalizes, then this one's [y]: both of
    its slots come back boxed. *)
Example boxing_spreads :
  exists r1 m1 r2 m2,
    (let? (r, n, _) := addPropertyKey x_runtime 1 (StringKey [121]) true false true true Double in
     let? (r, m) := withSlotBoxed r 1 0 in Some (r, n)) = Some (r1, m1) /\
    slotIsDouble (shape_at r1 m1) 0 = true /\ withSlotBoxed r1 m1 1 = Some (r2, m2) /\ slotIsDouble (shape_at r2 m2) 0 = false.
Proof. do 4 eexists. split; [vm_compute; reflexivity|]. split; [reflexivity|]. split; [vm_compute; reflexivity|reflexivity]. Qed.
