(* ===== verification/Objects.v ===== *)
(** * Objects (src/src/runtime/object.cpp, accessor.cpp, dictionary.cpp, integrity.cpp)

    The objects of a thread over its shapes: creation, the slots and their
    representation, prototypes and their marks, the conversion to dictionary mode,
    deletion, accessors, [[SetPrototypeOf]] and integrity levels.  [None] is a call to
    [fatal].  [own] is the ordered property list an object stands for, in either mode;
    the file shows that no operation ends in [fatal], that each does to the list what
    it should and leaves every other object alone, and what it leaves of the walks
    inline caches remember ([stable]).

    Left out: the collector's finalizers and root registry, the census, the counters,
    and the notes the global object's cells take.  All objects are on the thread's
    heap. *)
From S2P Require Import Prelude Float64 Values Dictionary Shapes.
Local Open Scope Z_scope.
Local Open Scope bool_scope.

(** ** The heap *)

(** A typed array has its length. *)
Inductive ShapedKind := Plain | TypedArray (length : Z) | ArrayBuffer | DataView | RegExp.

#[global] Instance ShapedKind_eq_dec : EqDecision ShapedKind.
Proof. solve_decision. Defined.

(** The slots, and how many of them are in the overflow block.  [string_data] is the
    internal slot of a String wrapper. *)
Record Object := mkObj {
  shape : nat; slotsData : Z -> Value; overflowCapacity : Z; string_data : option (list Z) }.

(** By [HeapKind]: those that begin with an ObjectHeader, a function with the object of
    its statics, a proxy, and what is neither. *)
Inductive HeapObject :=
  | Shaped (kind : ShapedKind) (o : Object)
  | FunctionObject (properties : Value)
  | ProxyObject
  | OtherObject.

Record World := mkWorld { rt : Runtime; objs : list HeapObject }.

Definition object_at (w : World) (i : nat) : option Object :=
  match objs w !! i with Some (Shaped _ o) => Some o | _ => None end.

Definition with_object (o : Object) (h : HeapObject) : HeapObject :=
  match h with Shaped k _ => Shaped k o | h => h end.

Definition set_object (i : nat) (o : Object) (w : World) : World := mkWorld (rt w) (alter (with_object o) i (objs w)).
Definition with_runtime (r : Runtime) (w : World) : World := mkWorld r (objs w).
Definition with_shape (s : nat) (o : Object) : Object := mkObj s (slotsData o) (overflowCapacity o) (string_data o).
Definition with_slots_data (f : Z -> Value) (o : Object) : Object := mkObj (shape o) f (overflowCapacity o) (string_data o).

Definition shape_of (w : World) (o : Object) : Shape := shape_at (rt w) (shape o).

(** [Shape::prototypeValue] *)
Definition prototypeValue (r : Runtime) (s : nat) : Value := prototype (shape_at r (root (shape_at r s))).

(** [Shape::readCacheable] *)
Definition readCacheable (s : Shape) : bool :=
  match shape_dict s with None => true | Some d => match level d with Frozen => true | _ => false end end.

(** ** Values in slots *)

Definition kInt32Tag : Z := 0xFFF3.

Definition slotReprAcceptsValue (v : Value) : bool :=
  match v with VNumber _ => true | VOther tag _ => tag =? kInt32Tag | _ => false end.

Definition int32_of (payload : Z) : Z := (u32 payload + 2 ^ 31) mod 2 ^ 32 - 2 ^ 31.

(** A NaN is one value of [double]. *)
Definition slotReprCanonicalize (v : Value) : Value :=
  match v with
  | VOther _ payload => VNumber (binary_normalize Float64.prec Float64.emax (int32_of payload) 0 false)
  | v => v
  end.

Definition rawSlot (o : Object) (index : Z) : option Value :=
  if index <? kOverflowSlot then Some (slotsData o index)
  else if overflowCapacity o <=? index - kOverflowSlot then None
  else Some (slotsData o index).

Definition rawSetSlot (o : Object) (index : Z) (v : Value) : option Object :=
  let o' := with_slots_data (fun j => if j =? index then v else slotsData o j) o in
  if index <? kOverflowSlot then Some o'
  else if overflowCapacity o <=? index - kOverflowSlot then None
  else Some o'.

Definition raw_store (w : World) (i : nat) (index : Z) (v : Value) : option World :=
  let? o := object_at w i in let? o := rawSetSlot o index v in Some (set_object i o w).

Definition setSlotWithRepr (w : World) (i : nat) (index : Z) (v : Value) : option World :=
  let? o := object_at w i in
  if negb (slotIsDouble (shape_of w o) index) then raw_store w i index v
  else if slotReprAcceptsValue v then raw_store w i index (slotReprCanonicalize v)
  else
    let? (r, to) := withSlotBoxed (rt w) (shape o) index in
    let r := if bool_decide (to <> shape o) then noteShapeLeave (shape o) Generalize r else r in
    raw_store (set_object i (with_shape to o) (with_runtime r w)) i index v.

Definition setSlot (w : World) (i : nat) (index : Z) (v : Value) : option World :=
  let? o := object_at w i in
  if negb (double_slots (shape_of w o) =? 0) then setSlotWithRepr w i index v else raw_store w i index v.

Definition getSlot (w : World) (i : nat) (index : Z) : option Value :=
  let? o := object_at w i in rawSlot o index.

(** [cap ? cap * 2 : 32], doubled until it is enough. *)
Definition grown_capacity (cap needed : Z) : Z :=
  while (Z.to_nat needed) (fun c => c <? needed) (fun c => c * 2) (if cap =? 0 then 32 else cap * 2).

Definition ensureOverflow (w : World) (i : nat) (needed : Z) : option World :=
  let? o := object_at w i in
  let cap := overflowCapacity o in
  if needed <=? cap then Some w
  else
    let f j := if kOverflowSlot + cap <=? j then VUndefined else slotsData o j in
    Some (set_object i (mkObj (shape o) f (grown_capacity cap needed) (string_data o)) w).

Definition ensureSlots (w : World) (i : nat) (count : Z) : option World :=
  if count <=? kOverflowSlot then Some w else ensureOverflow w i (count - kOverflowSlot).

(** [ObjectHeader::create]: the new object is the last. *)
Definition create (w : World) (kind : ShapedKind) (s : nat) (data : option (list Z)) : World * nat :=
  (mkWorld (rt w) (objs w ++ [Shaped kind (mkObj s (fun _ => VUndefined) 0 data)]), length (objs w)).

(** ** Prototypes *)

Definition noteObjectBecomingPrototype (w : World) (kind : ShapedKind) (o : Object) : Runtime :=
  if match kind with TypedArray _ => true | _ => false end then tripArrayIndexHazard (rt w)
  else if match string_data o with Some text => negb (empty text) | None => false end then tripArrayIndexHazard (rt w)
  else if existsb keyCouldBeArrayIndex (ownKeysInInsertionOrder (rt w) (shape o) false) then tripArrayIndexHazard (rt w)
  else rt w.

Definition markObjectAsPrototype (w : World) (i : nat) : World :=
  match objs w !! i with
  | Some (Shaped kind o) =>
      let protoShape := shape_of w o in
      if used_as_prototype protoShape then w
      else
        let r := noteObjectBecomingPrototype w kind o in
        if isDictionary protoShape then with_runtime (edit with_mark (shape o) r) w
        else
          let chain := chainOf r (shape o) in
          if negb (empty chain) then
            let '(r, marked) := privateMarkedChain r (root protoShape) chain None in
            set_object i (with_shape marked o) (with_runtime (noteShapeLeave (shape o) BecomePrototype r) w)
          else
            let fresh := next_id r in
            let r := new_shape (with_mark (root_shape fresh (prototypeValue (rt w) (shape o)) (inline_slots protoShape))) r in
            set_object i (with_shape fresh o) (with_runtime (noteShapeLeave (shape o) BecomePrototype r) w)
  | _ => w
  end.

(** [Shape::createRoot] *)
Definition createRoot (w : World) (proto : Value) (inlineSlots : Z) : World * nat :=
  let n := next_id (rt w) in
  let w := with_runtime (new_shape (root_shape n proto inlineSlots) (rt w)) w in
  (match proto with
   | VObject p =>
       match objs w !! p with
       | Some (Shaped _ _) => markObjectAsPrototype w p
       | Some (FunctionObject (VObject props)) => markObjectAsPrototype w props
       | Some (FunctionObject _) => w
       | _ => with_runtime (tripArrayIndexHazard (rt w)) w
       end
   | _ => w
   end, n).

(** ** Dictionary mode *)

Section Symbols.
Context (symbol_address : nat -> Z).

Definition with_dictionary (d : Dictionary) (s : Shape) : Shape :=
  mkShape (parent s) (node_own s) (root s) (prototype s) (Some d) (used_as_prototype s)
    (inline_slots s) (double_slots s) (repr s) (repr_generalized s) (watched s) (transitions s).
Definition with_root (newRoot : nat) (s : Shape) : Shape :=
  mkShape (parent s) (node_own s) newRoot (prototype s) (shape_dict s) (used_as_prototype s)
    (inline_slots s) (double_slots s) (repr s) (repr_generalized s) (watched s) (transitions s).

Definition createDictionaryShape (from : Shape) (d : Dictionary) : Shape :=
  mkShape None no_property (root from) VUndefined (Some d) (used_as_prototype from)
    (clampInlineSlots (inline_slots from)) 0 Boxed false false [].

(** The table over the properties of a chain, oldest first. *)
Definition dictionary_of (es : list DictEntry) (inlineSlots : Z) : Dictionary :=
  let next := fold_left (fun next e => Z.max next (slot e + slotWidth (accessor e))) es 0 in
  reindex symbol_address (mkDict es [] next inlineSlots true Open false [] 0 0).

Definition toDictionary (w : World) (i : nat) (why : ShapeLeave) : option World :=
  let? o := object_at w i in
  let old := shape_of w o in
  if isDictionary old then Some w
  else
    let r := if used_as_prototype old then bumpProtoMutationEpoch (rt w) else rt w in
    let d := dictionary_of (map (fun n => node_own (shape_at r n)) (chainOf r (shape o))) (inline_slots old) in
    let n := next_id r in
    let r := noteShapeLeave (shape o) why (new_shape (createDictionaryShape old d) r) in
    Some (set_object i (with_shape n o) (with_runtime r w)).

(** [out_slot] and the object with its table and storage. *)
Definition dictDefine (w : World) (i : nat) (name : PropertyKey) (en acc : bool) : option (World * Z) :=
  let? o := object_at w i in
  let? d := shape_dict (shape_of w o) in
  let '(o', out) := Dictionary.dictDefine symbol_address (mkObject d (slotsData o)) name en acc in
  let used := used_as_prototype (shape_of w o) in
  let r := edit (with_dictionary (dict o')) (shape o) (rt w) in
  let storage r :=
    let? w := ensureSlots (with_runtime r w) i (nextSlot (dict o')) in
    if acc then
      let? w := setSlot w i out VUndefined in
      let? w := setSlot w i (out + 1) VUndefined in Some (w, out)
    else Some (w, out) in
  match Dictionary.find symbol_address d name with
  | Some pos =>
      if Bool.eqb (accessor (entryAt d pos)) acc then Some (with_runtime r w, out)
      else storage (bumpProtoMutationEpoch r)
  | None => storage (noteKeyAddedToPrototype used name (if used then bumpProtoMutationEpoch r else r))
  end.

(** The answer of the [delete] operator. *)
Definition deleteProperty (w : World) (i : nat) (name : PropertyKey) : option (World * bool) :=
  let? o := object_at w i in
  match lookupProperty symbol_address (rt w) (shape o) name with
  | None => Some (w, true)
  | Some (mkInfo info _) =>
      if negb (configurable info) then Some (w, false)
      else
        let w := if used_as_prototype (shape_of w o) then with_runtime (bumpProtoMutationEpoch (rt w)) w else w in
        let? w := toDictionary w i Delete in
        let? o := object_at w i in
        let? d := shape_dict (shape_of w o) in
        let '(d, removed) := remove symbol_address d name in
        let w := with_runtime (edit (with_dictionary d) (shape o) (rt w)) w in
        if removed : bool then
          let? w := setSlot w i (slot info) VUndefined in
          if accessor info then let? w := setSlot w i (slot info + 1) VUndefined in Some (w, true)
          else Some (w, true)
        else Some (w, false)
  end.

Definition isUndefined (v : Value) : bool := match v with VOther tag _ => tag =? 0xFFF6 | _ => false end.

(** The halves a call writes: an undefined one is left as it is. *)
Definition write_halves (w : World) (i : nat) (slot_ : Z) (getter setter : Value) : option World :=
  let? w := if isUndefined getter then Some w else setSlot w i slot_ getter in
  if isUndefined setter then Some w else setSlot w i (slot_ + 1) setter.

(** An addition on the tree: the epoch of a prototype, the node, the storage.  Shared
    by [defineAccessor] and [setProp]. *)
Definition add_on_tree (w : World) (i : nat) (name : PropertyKey) (en acc wr conf : bool) (desired : SlotRepr)
    : option (World * Z) :=
  let? o := object_at w i in
  let r := if used_as_prototype (shape_of w o) then bumpProtoMutationEpoch (rt w) else rt w in
  let? (r, next, slot_) := addProperty r (shape o) name en acc wr conf desired in
  let r := noteShapeLeave (shape o) Add r in
  let? w := ensureSlots (with_runtime r w) i (slot_ + slotWidth acc) in
  let? o := object_at w i in
  Some (set_object i (with_shape next o) w, slot_).

(** The answer is whether the name was one; otherwise a TypeError. *)
Definition defineAccessor (w : World) (i : nat) (name : PropertyKey) (getter setter : Value) (en conf : bool)
    : option (World * bool) :=
  if negb (valid name) then Some (w, false)
  else
    let? o := object_at w i in
    let s := shape_of w o in
    let define w :=
      let? (w, slot_) := dictDefine w i name en true in
      let? w := write_halves w i slot_ getter setter in Some (w, true) in
    match lookupProperty symbol_address (rt w) (shape o) name with
    | Some (mkInfo own _) =>
        if accessor own then
          let w := if used_as_prototype s then with_runtime (bumpProtoMutationEpoch (rt w)) w else w in
          let? w := write_halves w i (slot own) getter setter in Some (w, true)
        else if isDictionary s then define w
        else let? w := toDictionary w i Redefine in define w
    | None =>
        if isDictionary s then define w
        else if kDictionaryThreshold <? slotsUsedAfterAdd s 2 then let? w := toDictionary w i Redefine in define w
        else
          let? (w, slot_) := add_on_tree w i name en true true conf Boxed in
          let? w := setSlot w i slot_ VUndefined in
          let? w := setSlot w i (slot_ + 1) VUndefined in
          let? w := write_halves w i slot_ getter setter in Some (w, true)
    end.

(** [newRoot] is a root with the new prototype. *)
Definition setPrototype (w : World) (i : nat) (newRoot : nat) : option World :=
  let w := with_runtime (bumpProtoMutationEpoch (rt w)) w in
  let? w := toDictionary w i SetPrototype in
  let? o := object_at w i in
  Some (with_runtime (edit (with_root newRoot) (shape o) (rt w)) w).

(** ** Integrity levels *)

Definition stamp (frozen : bool) (e : DictEntry) : DictEntry :=
  if negb (live e) then e
  else mkEntry (key e) (slot e) (enumerable e) (accessor e)
         (if frozen && negb (accessor e) then false else writable e) false.

Definition stampEntries (d : Dictionary) (frozen : bool) : Dictionary := with_entries d (map (stamp frozen) (entries d)).

Definition level_rank (l : IntegrityLevel) : Z := match l with Open => 0 | Sealed => 1 | Frozen => 2 end.

(** The levels of [preventExtensions] ([Open]), [seal] and [freeze] on an object whose
    table records them. *)
Definition raise_level (d : Dictionary) (want : IntegrityLevel) : Dictionary :=
  let d := match want with Open => d | Sealed => stampEntries d false | Frozen => stampEntries d true end in
  mkDict (entries d) (freeSlots d) (nextSlot d) (inlineSlots d) false
    (if level_rank (level d) <? level_rank want then want else level d) (hardened d) (index_ d) (used_ d) (live_ d).

(** A view with an element: its elements stay configurable and writable. *)
Definition has_elements (w : World) (i : nat) : bool :=
  match objs w !! i with Some (Shaped (TypedArray length) _) => 0 <? length | _ => false end.

(** The receiver is answered, or the TypeError of a typed array with elements is thrown. *)
Inductive IntegrityOutcome := Settled | HasElements.

Definition setIntegrity (w : World) (i : nat) (want : IntegrityLevel) : option (World * IntegrityOutcome) :=
  if match want with Open => false | _ => true end && has_elements w i then Some (w, HasElements)
  else
    let? w := toDictionary w i Integrity in
    let? o := object_at w i in
    let? d := shape_dict (shape_of w o) in
    Some (with_runtime (edit (with_dictionary (raise_level d want)) (shape o) (rt w)) w, Settled).

Definition is_regexp (w : World) (i : nat) : bool := match objs w !! i with Some (Shaped RegExp _) => true | _ => false end.

(** A regular expression's [lastIndex] is no entry: only the level says it is frozen. *)
Definition testIntegrity (w : World) (i : nat) (frozen : bool) : option bool :=
  let? o := object_at w i in
  if has_elements w i then Some false
  else match shape_dict (shape_of w o) with
  | None => Some false
  | Some d =>
      if extensible d then Some false
      else if frozen && is_regexp w i && negb (level_rank (level d) =? level_rank Frozen) then Some false
      else Some (forallb (fun e => negb (live e) || negb (configurable e || frozen && negb (accessor e) && writable e)) (entries d))
  end.

End Symbols.

(** ** The properties of an object *)

(** The own properties of a shape, oldest first, in either mode. *)
Definition entries_of (r : Runtime) (s : nat) : list DictEntry :=
  match shape_dict (shape_at r s) with Some d => props d | None => layout_entries r s end.

Definition no_table : Dictionary := mkDict [] [] 0 0 true Open false [] 0 0.
Definition view_in (f : Z -> Value) : DictEntry -> Property := view (mkObject no_table f).

(** The ordered property list of an object. *)
Definition own (w : World) (i : nat) : list Property :=
  match object_at w i with Some o => map (view_in (slotsData o)) (entries_of (rt w) (shape o)) | None => [] end.

(** One past the last slot an object at a shape may use. *)
Definition storage_end (r : Runtime) (s : nat) : Z :=
  match shape_dict (shape_at r s) with Some d => nextSlot d | None => slotEnd (shape_at r s) end.

(** Where a name is found, and whether it is an accessor: what a cached entry records. *)
Definition locate (symbol_address : nat -> Z) (r : Runtime) (s : nat) (name : PropertyKey) : option (Z * bool) :=
  option_map (fun p => (slot (ientry p), accessor (ientry p))) (lookupProperty symbol_address r s name).

Definition keyed (name : PropertyKey) (e : DictEntry) : bool := bool_decide (key e = name).

Section Invariant.
Context {symbol_address : nat -> Z} {since : Z}.

(** A slot read as a double holds one; [hole] is a slot about to be written. *)
Definition doubles_ok (hole : option Z) (s : Shape) (f : Z -> Value) : Prop :=
  forall i, 0 <= i -> hole <> Some i -> slotIsDouble s i = true -> exists d, f i = VNumber d.

Record object_ok (r : Runtime) (hole : option Z) (o : Object) : Prop := {
  obj_shape : (shape o < next_id r)%nat;
  obj_capacity : 0 <= overflowCapacity o;
  obj_storage : storage_end r (shape o) <= kOverflowSlot + overflowCapacity o;
  obj_doubles : doubles_ok hole (shape_at r (shape o)) (slotsData o)
}.

(** A frozen table has nothing to add to and nothing to remove. *)
Record table_ok (s : Shape) (d : Dictionary) : Prop := {
  table_dict : dict_ok symbol_address d;
  table_inline : inlineSlots d = inline_slots s;
  table_frozen : level d = Frozen -> extensible d = false /\ Forall (fun e => configurable e = false) (props d)
}.

(** [hole] is an object and the slot of it that is about to be written; [loose] an object
    that is about to be marked as a prototype. *)
Record world_but (hole : option (nat * Z)) (loose : option nat) (w : World) : Prop := {
  ok_runtime : runtime_ok (rt w);
  ok_objects : forall i o, object_at w i = Some o ->
    object_ok (rt w) (match hole with Some (j, x) => if decide (i = j) then Some x else None | None => None end) o;
  ok_tables : forall s d, (s < next_id (rt w))%nat -> shape_dict (shape_at (rt w) s) = Some d -> table_ok (shape_at (rt w) s) d;
  ok_private : forall i j o o', object_at w i = Some o -> object_at w j = Some o' -> shape o = shape o' ->
    isDictionary (shape_of w o) = true -> i = j;
  ok_links : forall s p o, loose <> Some p -> (s < next_id (rt w))%nat -> prototype (shape_at (rt w) s) = VObject p -> object_at w p = Some o ->
    used_as_prototype (shape_of w o) = true;
  ok_targets : forall s p, (s < next_id (rt w))%nat -> prototype (shape_at (rt w) s) = VObject p -> (p < length (objs w))%nat
}.

Definition world_ok : World -> Prop := world_but None None.

(** ** Looking up *)

Lemma find_map_entry (l : list PropertyInfo) name :
  option_map ientry (List.find (has_key name) l) = List.find (keyed name) (map ientry l).
Proof. induction l as [|p l IH]; [done|]. cbn. unfold has_key, keyed. by destruct (bool_decide _). Qed.

Lemma find_keyed_rev name es : NoDup (map key es) -> List.find (keyed name) (rev es) = List.find (keyed name) es.
Proof.
  intros Hn. destruct (List.find (keyed name) es) as [e|] eqn:E.
  - pose proof (List.find_some _ _ E) as [Hin Hk]. apply find_unique; [by apply in_rev in Hin|done|].
    intros y Hy%in_rev Hyk. apply bool_decide_eq_true in Hk, Hyk. subst name.
    clear E. induction es as [|x es IH]; [done|]. cbn in Hn. apply NoDup_cons in Hn as [Hx Hn].
    rewrite list_elem_of_In in Hx. destruct Hy as [->|Hy], Hin as [->|Hin]; [done| | |auto].
    + destruct Hx. rewrite Hyk. by apply in_map.
    + destruct Hx. rewrite <- Hyk. by apply in_map.
  - destruct (List.find (keyed name) (rev es)) as [e|] eqn:E'; [|done]. apply List.find_some in E' as [Hin%in_rev Hk].
    by rewrite (List.find_none _ _ E e Hin) in Hk.
Qed.

Lemma lookup_entry r s name : runtime_ok r -> (s < next_id r)%nat ->
  (forall d, shape_dict (shape_at r s) = Some d -> dict_ok symbol_address d) -> valid name = true ->
  option_map ientry (lookupProperty symbol_address r s name) = List.find (keyed name) (entries_of r s).
Proof.
  intros Hok Hs Hd Hv. unfold lookupProperty, entries_of. rewrite Hv. cbn [negb].
  destruct (shape_dict (shape_at r s)) as [d|] eqn:Ed.
  - destruct (Hd d eq_refl) as [Hi _ Hn _]. pose proof (dict_find_spec _ d name Hv Hi) as Hf.
    destruct (find symbol_address d name) as [pos|]; cbn [option_map ientry]; symmetry.
    + destruct Hf as [Hl Hk]. apply find_unique.
      * apply props_elem. by exists pos.
      * by apply bool_decide_eq_true.
      * intros y Hy Hyk%bool_decide_eq_true. destruct (props_split d pos Hl) as (l1 & l2 & E & _). rewrite E in *.
        rewrite map_app in Hn. cbn in Hn. apply NoDup_app in Hn as (_ & H1 & [H2 _]%NoDup_cons). rewrite Hk in *.
        apply in_app_or in Hy as [Hy|[<-|Hy]]; [|done|].
        -- exfalso. apply (H1 name); [|by left]. rewrite <- Hyk. apply list_elem_of_In. by apply in_map.
        -- exfalso. apply H2. rewrite <- Hyk. apply list_elem_of_In. by apply in_map.
    + destruct (List.find (keyed name) (props d)) as [e|] eqn:E; [|done]. apply List.find_some in E as [He Hk%bool_decide_eq_true].
      by destruct (Hf e He).
  - rewrite chain_lookup_layout by (done || lia). rewrite find_map_entry, map_rev. apply find_keyed_rev.
    destruct (layout_valid_keys r s Hok Hs) as [Hn _]. unfold layout_entries. by rewrite map_map.
Qed.

Lemma lookup_invalid r s name : valid name = false -> lookupProperty symbol_address r s name = None.
Proof. unfold lookupProperty. by intros ->. Qed.

Lemma locate_entry r s name : runtime_ok r -> (s < next_id r)%nat ->
  (forall d, shape_dict (shape_at r s) = Some d -> dict_ok symbol_address d) -> valid name = true ->
  locate symbol_address r s name = option_map (fun e => (slot e, accessor e)) (List.find (keyed name) (entries_of r s)).
Proof.
  intros Hok Hs Hd Hv. unfold locate. rewrite <- lookup_entry by done. by destruct (lookupProperty _ _ _ _).
Qed.

(** ** What no operation disturbs *)

Definition same_kind (h h' : HeapObject) : Prop :=
  match h, h' with
  | Shaped k _, Shaped k' _ => k = k'
  | FunctionObject _, FunctionObject _ | ProxyObject, ProxyObject | OtherObject, OtherObject => True
  | _, _ => False
  end.

(** A tree shape never changes. *)
Record same_tree (r r' : Runtime) (s : nat) : Prop := {
  tree_dict : isDictionary (shape_at r' s) = false;
  tree_parent : parent (shape_at r' s) = parent (shape_at r s);
  tree_own : node_own (shape_at r' s) = node_own (shape_at r s);
  tree_mark : used_as_prototype (shape_at r' s) = used_as_prototype (shape_at r s);
  tree_entries : entries_of r' s = entries_of r s;
  tree_locate : forall name, locate symbol_address r' s name = locate symbol_address r s name;
  tree_proto : prototypeValue r' s = prototypeValue r s
}.

(** What a cached entry of epoch [since] leans on: trees and frozen tables find every
    name where they did, and while the epoch stands so does every object on a prototype
    chain. *)
Record stable (w w' : World) : Prop := {
  st_next : (next_id (rt w) <= next_id (rt w'))%nat;
  st_epoch : proto_epoch (rt w) <= proto_epoch (rt w');
  st_kinds : forall p h, objs w !! p = Some h -> exists h', objs w' !! p = Some h' /\ same_kind h h';
  st_protos : forall s, (s < next_id (rt w))%nat -> prototype (shape_at (rt w') s) = prototype (shape_at (rt w) s);
  st_trees : forall s, (s < next_id (rt w))%nat -> isDictionary (shape_at (rt w) s) = false -> same_tree (rt w) (rt w') s;
  st_frozen : forall s d, (s < next_id (rt w))%nat -> shape_dict (shape_at (rt w) s) = Some d -> level d = Frozen ->
    (exists d', shape_dict (shape_at (rt w') s) = Some d' /\ level d' = Frozen) /\
    (forall name, locate symbol_address (rt w') s name = locate symbol_address (rt w) s name) /\
    (proto_epoch (rt w') <= since -> prototypeValue (rt w') s = prototypeValue (rt w) s);
  st_links : proto_epoch (rt w') <= since ->
    forall s p o, (s < next_id (rt w))%nat -> prototype (shape_at (rt w) s) = VObject p -> object_at w p = Some o ->
    exists o', object_at w' p = Some o' /\
      (forall name, locate symbol_address (rt w') (shape o') name = locate symbol_address (rt w) (shape o) name) /\
      prototypeValue (rt w') (shape o') = prototypeValue (rt w) (shape o)
}.

#[global] Instance same_kind_preorder : PreOrder same_kind.
Proof. split; [by intros []|]. intros [] [] []; try done. cbn. congruence. Qed.

#[global] Instance stable_preorder : PreOrder stable.
Proof.
  split.
  - intros w. constructor; try done.
    + intros p h Hp. exists h. split; [done|reflexivity].
    + intros s d _ Hd Hf. split; [by exists d|]. split; done.
    + intros _ s p o _ _ Hp. by exists o.
  - intros w1 w2 w3 [N1 E1 K1 P1 T1 F1 L1] [N2 E2 K2 P2 T2 F2 L2]. constructor; [lia|lia|..].
    + intros p h Hp. destruct (K1 p h Hp) as (h' & Hp' & S1). destruct (K2 p h' Hp') as (h'' & Hp'' & S2).
      exists h''. split; [done|]. by transitivity h'.
    + intros s Hs. rewrite P2, P1 by lia. done.
    + intros s Hs Hd. destruct (T1 s Hs Hd) as [D1 Q1 O1 M1 E3 L3 V3]. destruct (T2 s ltac:(lia) D1) as [D2 Q2 O2 M2 E4 L4 V4].
      constructor; [congruence..|intros name; by rewrite L4|congruence].
    + intros s d Hs Hd Hf. destruct (F1 s d Hs Hd Hf) as ((d1 & Hd1 & Hf1) & Lc1 & V1).
      destruct (F2 s d1 ltac:(lia) Hd1 Hf1) as (D2 & Lc2 & V2). split_and!; [done|intros name; by rewrite Lc2|].
      intros E. rewrite V2, V1 by lia. done.
    + intros E s p o Hs Hp Ho. destruct (L1 ltac:(lia) s p o Hs Hp Ho) as (o1 & Ho1 & Lc1 & V1).
      destruct (L2 ltac:(lia) s p o1 ltac:(lia) ltac:(by rewrite P1) Ho1) as (o2 & Ho2 & Lc2 & V2).
      exists o2. split_and!; [done|intros name; by rewrite Lc2|congruence].
Qed.

(** ** Old shapes *)

Lemma same_node_dict s s' : same_node s s' -> shape_dict s' = shape_dict s. Proof. by intros []. Qed.

Lemma same_entries r r' s : runtime_ok r -> runtime_ok r' -> frame r r' -> (s < next_id r)%nat ->
  entries_of r' s = entries_of r s /\ storage_end r' s = storage_end r s /\ prototypeValue r' s = prototypeValue r s.
Proof.
  intros Hok Hok' Hf Hs. pose proof (proj2 Hf s Hs) as Hn. destruct (ok_root _ _ (ok_nodes _ Hok s Hs)) as (R1 & _).
  unfold entries_of, storage_end, prototypeValue, slotEnd, layout_entries.
  rewrite (same_dict _ _ Hn), (same_own _ _ Hn), (same_root _ _ Hn), (same_prototype _ _ (proj2 Hf _ R1)).
  rewrite (frame_layout r r') by (done || by apply ok_parents_down). done.
Qed.

Lemma same_root_prototype r r' s : runtime_ok r -> frame r r' -> (s < next_id r)%nat -> root (shape_at r' s) = root (shape_at r s).
Proof. intros _ Hf Hs. apply (same_root _ _ (proj2 Hf s Hs)). Qed.

(** A dictionary shape has neither children nor edges, so its words may change. *)
Record table_edit (r : Runtime) (s : nat) (f : Shape -> Shape) : Prop := {
  edit_dict : isDictionary (shape_at r s) = true /\ isDictionary (f (shape_at r s)) = true;
  edit_parent : parent (f (shape_at r s)) = parent (shape_at r s);
  edit_own : node_own (f (shape_at r s)) = node_own (shape_at r s);
  edit_doubles : double_slots (f (shape_at r s)) = double_slots (shape_at r s);
  edit_inline : inline_slots (f (shape_at r s)) = inline_slots (shape_at r s);
  edit_transitions : transitions (f (shape_at r s)) = transitions (shape_at r s);
  edit_prototype : prototype (f (shape_at r s)) = prototype (shape_at r s);
  edit_root : (root (f (shape_at r s)) < next_id r)%nat /\ parent (shape_at r (root (f (shape_at r s)))) = None /\
    isDictionary (shape_at r (root (f (shape_at r s)))) = false
}.

Lemma table_edit_ok r s f : runtime_ok r -> (s < next_id r)%nat -> table_edit r s f ->
  runtime_ok (edit f s r) /\ (forall j, layout (edit f s r) j = layout r j) /\
  forall j, shape_at (edit f s r) j = if decide (j = s) then f (shape_at r s) else shape_at r j.
Proof.
  intros Hok Hs []. destruct edit_dict0 as [D D']. set (r' := edit f s r).
  assert (forall j, shape_at r' j = if decide (j = s) then f (shape_at r s) else shape_at r j) as Hat.
  { intros j. unfold r'. rewrite shape_at_edit by done. by destruct (decide (j = s)) as [->|]. }
  assert (next_id r' = next_id r) as En by apply next_id_edit.
  pose proof (ok_dict _ _ (ok_nodes _ Hok s Hs) D) as Ps.
  assert (forall j, parent (shape_at r' j) = parent (shape_at r j)) as Hp.
  { intros j. rewrite Hat. by destruct (decide (j = s)) as [->|]. }
  assert (parents_down r') as Hd' by (intros i p; rewrite Hp; by apply ok_parents_down).
  assert (forall j, node_own (shape_at r' j) = node_own (shape_at r j) /\ inline_slots (shape_at r' j) = inline_slots (shape_at r j) /\
    double_slots (shape_at r' j) = double_slots (shape_at r j) /\ isDictionary (shape_at r' j) = isDictionary (shape_at r j) /\
    transitions (shape_at r' j) = transitions (shape_at r j)) as Hsame.
  { intros j. rewrite Hat. destruct (decide (j = s)) as [->|]; [|done]. by rewrite D, D'. }
  assert (forall j, layout r' j = layout r j) as Hl.
  { apply (chain_ind r (fun j => layout r' j = layout r j)); [by apply ok_parents_down|..].
    - intros j Pj. by rewrite !layout_root by (by rewrite ?Hp).
    - intros j p Pj IH. rewrite (layout_parent r j p), (layout_parent r' j p), IH by (done || by apply ok_parents_down || by rewrite Hp).
      rewrite (Hat j). destruct (decide (j = s)) as [->|]; [by rewrite Ps in Pj|done]. }
  assert (forall j p, parent (shape_at r j) = Some p -> (j < next_id r)%nat -> j <> s /\ p <> s) as Hne.
  { intros j p Pj Hj. split; intros ->; [by rewrite Ps in Pj|].
    destruct (child_dict _ _ _ (ok_child _ _ (ok_nodes _ Hok j Hj) s Pj)) as [E _]. by rewrite D in E. }
  split; [|done]. constructor.
  - intros i Hi. rewrite En in Hi. pose proof (ok_nodes _ Hok i Hi) as []. destruct (Hsame i) as (So & Si & Sd & Sk & St).
    assert (forall j, isDictionary (shape_at r j) = false -> shape_at r' j = shape_at r j) as Htree.
    { intros j Hj. rewrite Hat, decide_False; [done|]. intros ->. by rewrite D in Hj. }
    constructor; rewrite ?Hp, ?So, ?Si, ?Sd, ?Sk, ?En; try done.
    + intros p Pj. destruct (Hne i p Pj Hi). unfold layout_keys. rewrite Hl, !Hat, !decide_False by done. by apply ok_child.
    + intros p Pj. destruct (Hne i p Pj Hi). rewrite !Hat, !decide_False by done. by apply ok_mark.
    + intros Pj Hk. rewrite Htree by done. by apply ok_self.
    + rewrite (Hat i). destruct (decide (i = s)) as [->|].
      * destruct edit_root0 as (R1 & R2 & R3). by rewrite (Htree _ R3).
      * destruct ok_root as (R1 & R2 & R3). by rewrite (Htree _ R3).
  - intros i t Hi Ht. rewrite En in Hi. destruct (Hsame i) as (_ & _ & _ & Sk & St). rewrite St in Ht.
    pose proof (ok_edges _ Hok i t Hi Ht) as [].
    assert (i <> s) as Hi' by (intros ->; by rewrite D in edge_tree).
    assert (next_shape t <> s) as Hn' by (intros E; by rewrite E, Ps in edge_parent).
    assert (shape_at r' i = shape_at r i) as Ei by (by rewrite Hat, decide_False).
    assert (shape_at r' (next_shape t) = shape_at r (next_shape t)) as Et by (by rewrite Hat, decide_False).
    constructor; rewrite ?En, ?Ei, ?Et; done.
Qed.

(** ** One object changes *)

(** Object [i] becomes [o'] and the arena [r']: old shapes keep their nodes, apart from
    the table of the object. *)
Record evolution (loose : option nat) (w : World) (i : nat) (o o' : Object) (r' : Runtime) (hole : option Z) : Prop := {
  ev_runtime : runtime_ok r';
  ev_next : (next_id (rt w) <= next_id r')%nat;
  ev_epoch : proto_epoch (rt w) <= proto_epoch r';
  ev_same : forall s, (s < next_id (rt w))%nat -> s <> shape o \/ isDictionary (shape_of w o) = false ->
    same_node (shape_at (rt w) s) (shape_at r' s);
  ev_own : isDictionary (shape_of w o) = true ->
    isDictionary (shape_at r' (shape o)) = true /\ prototype (shape_at r' (shape o)) = prototype (shape_of w o);
  ev_frozen : forall d, shape_dict (shape_of w o) = Some d -> level d = Frozen ->
    (exists d', shape_dict (shape_at r' (shape o)) = Some d' /\ level d' = Frozen) /\
    (forall name, locate symbol_address r' (shape o) name = locate symbol_address (rt w) (shape o) name) /\
    (proto_epoch r' <= since -> prototypeValue r' (shape o) = prototypeValue (rt w) (shape o));
  ev_tables : forall s d, (s < next_id r')%nat -> (next_id (rt w) <= s)%nat \/ s = shape o ->
    shape_dict (shape_at r' s) = Some d -> table_ok (shape_at r' s) d;
  ev_protos : forall s, (next_id (rt w) <= s < next_id r')%nat -> prototype (shape_at r' s) = VUndefined \/
    exists s0, (s0 < next_id (rt w))%nat /\ prototype (shape_at r' s) = prototype (shape_at (rt w) s0);
  ev_object : object_ok r' hole o';
  ev_mark : used_as_prototype (shape_of w o) = true -> used_as_prototype (shape_at r' (shape o')) = true;
  ev_private : isDictionary (shape_at r' (shape o')) = true -> shape o' = shape o \/ (next_id (rt w) <= shape o')%nat;
  ev_links : since < proto_epoch r' \/ used_as_prototype (shape_of w o) = false /\ loose <> Some i \/
    (forall name, locate symbol_address r' (shape o') name = locate symbol_address (rt w) (shape o) name) /\
    prototypeValue r' (shape o') = prototypeValue (rt w) (shape o)
}.

(** The objects other than [i], their properties, prototypes and tables. *)
Definition others (w w' : World) (i : nat) : Prop :=
  forall j, j <> i -> object_at w' j = object_at w j /\
    forall o, object_at w j = Some o ->
      entries_of (rt w') (shape o) = entries_of (rt w) (shape o) /\ prototypeValue (rt w') (shape o) = prototypeValue (rt w) (shape o) /\
      shape_dict (shape_at (rt w') (shape o)) = shape_dict (shape_at (rt w) (shape o)).

Lemma object_at_set w r i o o' j : object_at w i = Some o ->
  object_at (set_object i o' (with_runtime r w)) j = if decide (j = i) then Some o' else object_at w j.
Proof.
  unfold object_at, set_object, with_runtime. cbn [objs]. destruct (decide (j = i)) as [->|Hne].
  - rewrite list_lookup_alter, decide_True by done. by destruct (objs w !! i) as [[]|].
  - by rewrite list_lookup_alter_ne.
Qed.

Lemma set_object_kinds w r i o' p h : objs w !! p = Some h ->
  exists h', objs (set_object i o' (with_runtime r w)) !! p = Some h' /\ same_kind h h'.
Proof.
  unfold set_object, with_runtime. cbn [objs]. intros Hp. destruct (decide (p = i)) as [->|].
  - rewrite list_lookup_alter, decide_True, Hp by done. eexists. split; [done|]. by destruct h.
  - rewrite list_lookup_alter_ne by done. exists h. split; [done|reflexivity].
Qed.

Section Evolve.
Context (hole0 : option Z) (loose : option nat) (w : World) (i : nat) (o o' : Object) (r' : Runtime) (hole : option Z).
Context (Hok : world_but (option_map (pair i) hole0) loose w) (Ho : object_at w i = Some o).
Context (Hev : evolution loose w i o o' r' hole).

Let r := rt w.
Let kept s := (s < next_id r)%nat /\ (s <> shape o \/ isDictionary (shape_at r s) = false).

Lemma kept_same s : kept s -> same_node (shape_at r s) (shape_at r' s).
Proof.
  intros [Hs Hk]. apply (ev_same _ _ _ _ _ _ _ Hev); [done|]. destruct Hk as [?|Hk]; [by left|].
  destruct (decide (s = shape o)) as [->|]; [by right|by left].
Qed.

Lemma kept_layout s : kept s -> layout r' s = layout r s.
Proof.
  pose proof (ok_runtime _ _ _ Hok) as Hr. pose proof (ev_runtime _ _ _ _ _ _ _ Hev) as Hr'. pose proof (ok_parents_down r Hr) as Hd.
  revert s. apply (chain_ind r (fun s => kept s -> layout r' s = layout r s) Hd).
  - intros s Ps Hk. rewrite !layout_root; [done|done|]. by rewrite (same_parent _ _ (kept_same s Hk)).
  - intros s p Ps IH Hk. pose proof (kept_same s Hk) as Hs. pose proof (Hd s p Ps).
    assert (kept p) as Hp.
    { split; [destruct Hk; lia|]. right. apply (child_dict _ _ _ (ok_child _ _ (ok_nodes _ Hr s (proj1 Hk)) p Ps)). }
    rewrite (layout_parent r s p), (layout_parent r' s p), IH by (done || by rewrite (same_parent _ _ Hs) || by apply ok_parents_down).
    by rewrite (same_own _ _ Hs), (same_repr _ _ Hs).
Qed.

Lemma kept_entries s : kept s -> entries_of r' s = entries_of r s /\ storage_end r' s = storage_end r s /\
  prototypeValue r' s = prototypeValue r s.
Proof.
  intros Hk. pose proof (kept_same s Hk) as Hs. destruct (ok_root _ _ (ok_nodes _ (ok_runtime _ _ _ Hok) s (proj1 Hk))) as (R1 & _ & R3).
  assert (kept (root (shape_at r s))) as Hroot by (split; [done|by right]).
  unfold entries_of, storage_end, prototypeValue, slotEnd, layout_entries.
  by rewrite (same_dict _ _ Hs), (same_own _ _ Hs), (same_root _ _ Hs), (same_prototype _ _ (kept_same _ Hroot)), kept_layout.
Qed.

Lemma kept_tables s : kept s -> forall d, shape_dict (shape_at r' s) = Some d -> table_ok (shape_at r' s) d.
Proof.
  intros Hk d Hd. pose proof (kept_same s Hk) as Hs. rewrite (same_dict _ _ Hs) in Hd.
  destruct (ok_tables _ _ _ Hok s d (proj1 Hk) Hd) as []. constructor; try done. by rewrite (same_inline _ _ Hs).
Qed.

Lemma kept_locate s name : kept s -> locate symbol_address r' s name = locate symbol_address r s name.
Proof.
  intros Hk. pose proof (kept_same s Hk) as Hs. pose proof (ev_next _ _ _ _ _ _ _ Hev) as Hn. change (rt w) with r in Hn.
  destruct (valid name) eqn:Hv; [|unfold locate; by rewrite !lookup_invalid].
  rewrite !locate_entry; try done.
  - by destruct (kept_entries s Hk) as (-> & _).
  - apply Hok.
  - apply Hk.
  - intros d Hd. by destruct (ok_tables _ _ _ Hok s d (proj1 Hk) Hd).
  - apply Hev.
  - destruct Hk. lia.
  - intros d Hd. by destruct (kept_tables s Hk d Hd).
Qed.

Lemma other_kept j oj : j <> i -> object_at w j = Some oj -> kept (shape oj).
Proof.
  intros Hj Hoj. split; [apply (ok_objects _ _ _ Hok j oj Hoj)|]. destruct (decide (shape oj = shape o)) as [E|]; [|by left].
  right. destruct (isDictionary _) eqn:Ed; [|done]. destruct Hj. apply (ok_private _ _ _ Hok j i oj o); done.
Qed.

(** Every old shape is kept, or the table of the object. *)
Lemma kept_or s : (s < next_id r)%nat -> kept s \/ s = shape o /\ isDictionary (shape_at r s) = true.
Proof.
  intros Hs. destruct (decide (s = shape o)) as [E|]; [|left; split; [done|by left]].
  destruct (isDictionary (shape_at r s)) eqn:Ed; [by right|left; split; [done|by right]].
Qed.

Lemma old_prototype s : (s < next_id r)%nat -> prototype (shape_at r' s) = prototype (shape_at r s).
Proof.
  intros Hs. destruct (kept_or s Hs) as [Hk|[-> Hd]]; [apply (kept_same s Hk)|]. apply (ev_own _ _ _ _ _ _ _ Hev Hd).
Qed.

Let w' := set_object i o' (with_runtime r' w).

Lemma evolve_objects j oj : object_at w' j = Some oj ->
  object_ok r' (match option_map (pair i) hole with Some (k, x) => if decide (j = k) then Some x else None | None => None end) oj.
Proof.
  unfold w'. rewrite (object_at_set w r' i o o' j Ho). destruct (decide (j = i)) as [->|Hne].
  - intros [= <-]. pose proof (ev_object _ _ _ _ _ _ _ Hev) as Hobj. destruct hole as [x|]; cbn; [|done]. by rewrite decide_True.
  - intros Hoj. pose proof (other_kept j oj Hne Hoj) as Hk. destruct (kept_entries _ Hk) as (_ & Es & _).
    pose proof (kept_same _ Hk) as Hs. destruct (ok_objects _ _ _ Hok j oj Hoj) as [S C E D]. fold r in S, E, D.
    assert ((match option_map (pair i) hole0 with Some (k, x) => if decide (j = k) then Some x else None | None => None end) = None) as Eh
      by (destruct hole0; cbn; [by rewrite decide_False|done]). rewrite Eh in D.
    constructor; [pose proof (ev_next _ _ _ _ _ _ _ Hev) as Hn; change (rt w) with r in Hn; lia|done|by rewrite Es|].
    intros k Hk0 _ Hd. apply D; [done|done|]. unfold slotIsDouble in *. by rewrite <- (same_doubles _ _ Hs).
Qed.

Lemma evolve_source s p : (s < next_id r')%nat -> prototype (shape_at r' s) = VObject p ->
  exists s0, (s0 < next_id r)%nat /\ prototype (shape_at r s0) = VObject p.
Proof.
  intros Hs Hp. destruct (Nat.lt_ge_cases s (next_id r)) as [Hlt|Hge].
  - exists s. split; [done|]. by rewrite <- old_prototype.
  - destruct (ev_protos _ _ _ _ _ _ _ Hev s ltac:(done)) as [E|(s0 & ? & E)]; [by rewrite E in Hp|]. exists s0. split; [done|]. rewrite <- Hp. symmetry. exact E.
Qed.

Lemma evolve_links s p op : loose <> Some p -> (s < next_id r')%nat -> prototype (shape_at r' s) = VObject p ->
  object_at w' p = Some op -> used_as_prototype (shape_at r' (shape op)) = true.
Proof.
  intros Hloose Hs Hp Hop. destruct (evolve_source s p Hs Hp) as (s0 & Hs0 & Hp0).
  unfold w' in Hop. rewrite (object_at_set w r' i o o' p Ho) in Hop. destruct (decide (p = i)) as [->|Hne].
  - injection Hop as <-. apply Hev. by apply (ok_links _ _ _ Hok s0 i o).
  - pose proof (kept_same _ (other_kept p op Hne Hop)) as Hsame. rewrite (same_mark _ _ Hsame).
    by apply (ok_links _ _ _ Hok s0 p op).
Qed.

Lemma evolve_stable : stable w w'.
Proof.
  pose proof (ev_next _ _ _ _ _ _ _ Hev) as Hn. constructor; change (rt w') with r'; [done|apply Hev|..].
  - intros p h. apply (set_object_kinds w r' i o').
  - intros s Hs. by apply old_prototype.
  - intros s Hs Hd. assert (kept s) as Hk by (split; [done|by right]). pose proof (kept_same s Hk) as Hsame. constructor.
    + by rewrite (same_dictionary _ _ Hsame).
    + by rewrite (same_parent _ _ Hsame).
    + by rewrite (same_own _ _ Hsame).
    + by rewrite (same_mark _ _ Hsame).
    + by destruct (kept_entries s Hk) as (? & _).
    + intros name. by apply kept_locate.
    + by destruct (kept_entries s Hk) as (_ & _ & ?).
  - intros s d Hs Hd Hf. destruct (kept_or s Hs) as [Hk|[-> _]]; [|by apply (ev_frozen _ _ _ _ _ _ _ Hev d)].
    split_and!.
    + exists d. by rewrite (same_dict _ _ (kept_same s Hk)).
    + intros name. by apply kept_locate.
    + intros _. by destruct (kept_entries s Hk) as (_ & _ & ?).
  - intros E s p op Hs Hp Hop. unfold w'. rewrite (object_at_set w r' i o o' p Ho). destruct (decide (p = i)) as [->|Hne].
    + rewrite Ho in Hop. injection Hop as <-. exists o'. split; [done|].
      destruct (ev_links _ _ _ _ _ _ _ Hev) as [?|[[Hu Hl]|?]]; [lia| |done].
      by rewrite (ok_links _ _ _ Hok s i o) in Hu.
    + exists op. pose proof (other_kept p op Hne Hop) as Hk. split_and!; [done|intros name; by apply kept_locate|].
      by destruct (kept_entries _ Hk) as (_ & _ & ?).
Qed.

Lemma evolve : world_but (option_map (pair i) hole) loose w' /\ stable w w' /\ others w w' i /\ object_at w' i = Some o'.
Proof.
  assert (forall j oj, j <> i -> object_at w' j = Some oj -> object_at w j = Some oj) as Hother.
  { intros j oj Hne. unfold w'. by rewrite (object_at_set w r' i o o' j Ho), decide_False. }
  assert (object_at w' i = Some o') as Hi by (unfold w'; by rewrite (object_at_set w r' i o o' i Ho), decide_True).
  split_and!; [|apply evolve_stable| |done].
  - constructor; change (rt w') with r'.
    + apply Hev.
    + intros j oj. apply evolve_objects.
    + intros s d Hs Hd. destruct (Nat.lt_ge_cases s (next_id r)) as [Hlt|Hge]; [|apply (ev_tables _ _ _ _ _ _ _ Hev); auto].
      destruct (kept_or s Hlt) as [Hk|[-> _]]; [by apply kept_tables|]. apply (ev_tables _ _ _ _ _ _ _ Hev); auto.
    + assert (forall k ok, k <> i -> object_at w' k = Some ok -> shape o' = shape ok -> isDictionary (shape_at r' (shape o')) = true -> False) as Hno.
      { intros k ok Hne Hk%Hother E Hd; [|done]. pose proof (other_kept k ok Hne Hk) as Hkept.
        destruct (ev_private _ _ _ _ _ _ _ Hev Hd) as [Eo|Hge]; [|destruct Hkept; fold r in Hge; lia].
        apply Hne. apply (ok_private _ _ _ Hok k i ok o Hk Ho); [congruence|].
        unfold shape_of. change (rt w) with r. by rewrite <- (same_dictionary _ _ (kept_same _ Hkept)), <- E. }
      intros j k oj ok Hj Hk E Hd. unfold shape_of in Hd. change (rt w') with r' in Hd.
      destruct (decide (j = i)) as [->|Hji], (decide (k = i)) as [->|Hki]; [done|exfalso..|].
      * rewrite Hi in Hj. injection Hj as <-. by apply (Hno k ok).
      * rewrite Hi in Hk. injection Hk as <-. rewrite E in Hd. by apply (Hno j oj).
      * apply Hother in Hj, Hk; [|done..]. apply (ok_private _ _ _ Hok j k oj ok Hj Hk E).
        unfold shape_of. change (rt w) with r. by rewrite <- (same_dictionary _ _ (kept_same _ (other_kept j oj Hji Hj))).
    + intros s p op. apply evolve_links.
    + intros s p Hs Hp. destruct (evolve_source s p Hs Hp) as (s0 & Hs0 & Hp0). unfold w', set_object. cbn [objs with_runtime].
      rewrite length_alter. by apply (ok_targets _ _ _ Hok s0).
  - intros j Hne. unfold w'. rewrite (object_at_set w r' i o o' j Ho), decide_False by done. split; [done|].
    intros oj Hoj. pose proof (other_kept j oj Hne Hoj) as Hk. destruct (kept_entries _ Hk) as (? & _ & ?).
    split_and!; [done|done|apply (same_dict _ _ (kept_same _ Hk))].
Qed.
End Evolve.

Lemma others_trans w1 w2 w3 i : others w1 w2 i -> others w2 w3 i -> others w1 w3 i.
Proof.
  intros H1 H2 j Hj. destruct (H1 j Hj) as [E1 F1], (H2 j Hj) as [E2 F2]. split; [congruence|].
  intros o Ho. destruct (F1 o Ho) as (? & ? & ?), (F2 o ltac:(congruence)) as (? & ? & ?). split_and!; congruence.
Qed.

(** ** New nodes *)

(** The words of old shapes a tree operation leaves alone, and those of the nodes it mints. *)
Record plain (r r' : Runtime) : Prop := {
  plain_next : (next_id r <= next_id r')%nat;
  plain_old : forall s, (s < next_id r)%nat ->
    shape_dict (shape_at r' s) = shape_dict (shape_at r s) /\ prototype (shape_at r' s) = prototype (shape_at r s);
  plain_new : forall s, (next_id r <= s < next_id r')%nat -> shape_dict (shape_at r' s) = None /\ prototype (shape_at r' s) = VUndefined
}.

#[local] Instance plain_preorder : PreOrder plain.
Proof.
  split; [intros r; constructor; [lia|done|lia]|]. intros r1 r2 r3 [N1 O1 F1] [N2 O2 F2]. constructor; [lia|..].
  - intros s Hs. destruct (O2 s ltac:(lia)) as [-> ->]. by apply O1.
  - intros s Hs. destruct (Nat.lt_ge_cases s (next_id r2)) as [Hlt|Hge]; [|apply F2; lia].
    destruct (O2 s Hlt) as [-> ->]. apply F1; lia.
Qed.

Lemma plain_arena r r' : arena r' = arena r -> plain r r'.
Proof.
  intros E. pose proof (same_arena_next r r' E) as En. constructor; rewrite ?En; [lia|..].
  - intros s _. by rewrite (same_arena_at r r').
  - lia.
Qed.

Lemma plain_edit f j r : (forall s, shape_dict (f s) = shape_dict s /\ prototype (f s) = prototype s) -> plain r (edit f j r).
Proof.
  intros Hf. constructor; rewrite ?next_id_edit; [lia| |lia]. intros s Hs.
  destruct (Nat.lt_ge_cases j (next_id r)) as [Hj|Hj].
  - rewrite shape_at_edit by done. by destruct (decide _).
  - unfold edit, with_arena, shape_at. cbn [arena]. rewrite list_lookup_alter_ne; [done|lia].
Qed.

Lemma plain_new_shape s r : shape_dict s = None -> prototype s = VUndefined -> plain r (new_shape s r).
Proof.
  intros Hd Hp. constructor; rewrite ?next_id_new; [lia|..]; intros i Hi; rewrite shape_at_new.
  - by rewrite decide_False by lia.
  - by rewrite decide_True by lia.
Qed.

#[local] Hint Resolve plain_arena plain_edit plain_new_shape : plain.

Lemma plain_note used k r : plain r (noteKeyAddedToPrototype used k r).
Proof. apply plain_arena, note_arena. Qed.

Lemma leave_arena s why r : arena (noteShapeLeave s why r) = arena r.
Proof. unfold noteShapeLeave. by destruct (_ && _). Qed.

Lemma leave_epoch s why r : proto_epoch r <= proto_epoch (noteShapeLeave s why r).
Proof. unfold noteShapeLeave. destruct (_ && _); cbn; lia. Qed.

Lemma plain_add r i k en acc wr conf desired r' n s :
  addPropertyKey r i k en acc wr conf desired = Some (r', n, s) -> plain r r'.
Proof.
  unfold addPropertyKey, land_on. destruct (negb _); [done|]. destruct (isDictionary _); [done|].
  assert (forall r0 n0, plain r0 (noteKeyAddedToPrototype (used_as_prototype (shape_at r i)) k
    (if used_as_prototype (shape_at r i) then edit with_mark n0 r0 else r0))) as Hland.
  { intros r0 n0. transitivity (if used_as_prototype (shape_at r i) then edit with_mark n0 r0 else r0); [|apply plain_note].
    destruct (used_as_prototype _); [|reflexivity]. by apply plain_edit. }
  destruct (choose_edge _ _ _ _ _ _ _ _) as [want [n0|]]; [intros [= <- _ _]; apply Hland|].
  destruct (create_child _ _ _ _ _ _ _ _) as [[r1 n1]|] eqn:Ec; [|done]. intros [= <- _ _]. transitivity r1; [|apply Hland].
  unfold create_child in Ec. destruct (_ <=? _); [done|]. injection Ec as <- _.
  etransitivity; [|by apply plain_edit]. by apply plain_new_shape.
Qed.

Lemma plain_marked root_ chain box : forall r cur, plain r (fst (marked_chain r root_ cur chain box)).
Proof.
  induction chain as [|n chain IH]; intros r cur; cbn [marked_chain]; [reflexivity|].
  etransitivity; [|apply IH]. by apply plain_new_shape.
Qed.

Lemma plain_rebuild chain index : forall r m r' n, rebuild r m chain index = Some (r', n) -> plain r r'.
Proof.
  induction chain as [|node chain IH]; intros r m r' n; cbn [rebuild]; [by intros [= <- _]|]. cbv zeta.
  destruct (addPropertyKey _ _ _ _ _ _ _ _) as [[[r1 n1] s1]|] eqn:E; [|done]. destruct (negb _); [done|]. intros H.
  transitivity (if double_at r index node then edit with_generalized node r else r).
  - destruct (double_at _ _ _); [|reflexivity]. by apply plain_edit.
  - transitivity r1; [by apply plain_add in E|by apply IH in H].
Qed.

Lemma plain_boxed r i index r' m : withSlotBoxed r i index = Some (r', m) -> plain r r'.
Proof.
  unfold withSlotBoxed. destruct (_ || _); [by intros [= <- _]|]. destruct (used_as_prototype _).
  - intros [= E]. unfold privateMarkedChain in E. set (r1 := fold_left _ _ r) in E.
    assert (plain r r1) as H1.
    { unfold r1. clear. generalize r at 1 3. induction (chainOf r i) as [|n l IH]; intros r0; cbn [fold_left]; [reflexivity|].
      etransitivity; [|apply IH]. destruct (double_at _ _ _); [|reflexivity]. by apply plain_edit. }
    transitivity r1; [done|]. pose proof (plain_marked (root (shape_at r i)) (chainOf r i) (Some index) r1 (root (shape_at r i))) as H2.
    by rewrite E in H2.
  - apply plain_rebuild.
Qed.

(** The evolutions that leave every old shape the node it was. *)
Lemma frame_evolution hole0 loose w i o o' r' hole : world_but hole0 loose w -> object_at w i = Some o ->
  runtime_ok r' -> frame (rt w) r' -> proto_epoch (rt w) <= proto_epoch r' ->
  (forall s, (next_id (rt w) <= s < next_id r')%nat ->
     (forall d, shape_dict (shape_at r' s) = Some d -> table_ok (shape_at r' s) d) /\
     (prototype (shape_at r' s) = VUndefined \/
      exists s0, (s0 < next_id (rt w))%nat /\ prototype (shape_at r' s) = prototype (shape_at (rt w) s0))) ->
  object_ok r' hole o' ->
  (used_as_prototype (shape_of w o) = true -> used_as_prototype (shape_at r' (shape o')) = true) ->
  (isDictionary (shape_at r' (shape o')) = true -> shape o' = shape o \/ (next_id (rt w) <= shape o')%nat) ->
  (since < proto_epoch r' \/ used_as_prototype (shape_of w o) = false /\ loose <> Some i \/
   (forall name, locate symbol_address r' (shape o') name = locate symbol_address (rt w) (shape o) name) /\
   prototypeValue r' (shape o') = prototypeValue (rt w) (shape o)) ->
  evolution loose w i o o' r' hole.
Proof.
  intros Hok Ho Hr' Hf He Hnew Hobj Hm Hp Hl. pose proof (ok_runtime _ _ _ Hok) as Hr.
  pose proof (obj_shape _ _ _ (ok_objects _ _ _ Hok i o Ho)) as Hs.
  assert (forall s d, (s < next_id (rt w))%nat -> shape_dict (shape_at r' s) = Some d -> table_ok (shape_at r' s) d) as Htables.
  { intros s d Hs' Hd. pose proof (proj2 Hf s Hs') as Hsame. rewrite (same_dict _ _ Hsame) in Hd.
    destruct (ok_tables _ _ _ Hok s d Hs' Hd) as []. constructor; try done. by rewrite (same_inline _ _ Hsame). }
  constructor; try done.
  - apply Hf.
  - intros s Hs' _. by apply (proj2 Hf).
  - intros Hd. pose proof (proj2 Hf _ Hs) as Hsame. rewrite (same_dictionary _ _ Hsame), (same_prototype _ _ Hsame). done.
  - intros d Hd Hfz. pose proof (proj2 Hf _ Hs) as Hsame. destruct (same_entries (rt w) r' (shape o) Hr Hr' Hf Hs) as (Ee & _ & Ep).
    split_and!; [exists d; by rewrite (same_dict _ _ Hsame)| |done].
    intros name. destruct (valid name) eqn:Hv; [|unfold locate; by rewrite !lookup_invalid].
    rewrite !locate_entry; try done; [by rewrite Ee| | |].
    + intros d' Hd'. by destruct (ok_tables _ _ _ Hok _ d' Hs Hd').
    + destruct Hf. lia.
    + intros d' Hd'. by destruct (Htables _ d' Hs Hd').
  - intros s d Hs' [Hge| ->] Hd; [|by apply Htables]. by apply (Hnew s).
  - intros s Hs'. by apply Hnew.
Qed.

Lemma plain_evolution hole0 loose w i o o' r' hole : world_but hole0 loose w -> object_at w i = Some o ->
  runtime_ok r' -> frame (rt w) r' -> plain (rt w) r' -> proto_epoch (rt w) <= proto_epoch r' ->
  object_ok r' hole o' ->
  (used_as_prototype (shape_of w o) = true -> used_as_prototype (shape_at r' (shape o')) = true) ->
  (isDictionary (shape_at r' (shape o')) = true -> shape o' = shape o) ->
  (since < proto_epoch r' \/ used_as_prototype (shape_of w o) = false /\ loose <> Some i \/
   (forall name, locate symbol_address r' (shape o') name = locate symbol_address (rt w) (shape o) name) /\
   prototypeValue r' (shape o') = prototypeValue (rt w) (shape o)) ->
  evolution loose w i o o' r' hole.
Proof.
  intros Hok Ho Hr' Hf Hp He Hobj Hm Hpr Hl. apply (frame_evolution hole0); try done; [|by auto].
  intros s Hs. destruct (plain_new _ _ Hp s Hs) as [E1 E2]. split; [by rewrite E1|by left].
Qed.

(** ** Slots *)

(** What a store of [v] leaves in a slot. *)
Definition stored_form (s : Shape) (index : Z) (v : Value) : Value :=
  if slotIsDouble s index && slotReprAcceptsValue v then slotReprCanonicalize v else v.

Lemma stored_form_id s index v : slotReprAcceptsValue v = false \/ slotIsDouble s index = false \/ (exists d, v = VNumber d) ->
  stored_form s index v = v.
Proof. unfold stored_form. intros [-> |[-> |[d ->]]]; [by rewrite andb_false_r|done|by destruct (_ && _)]. Qed.

(** What a store in slot [index] of object [i] does. *)
Record slot_stored (loose : option nat) (w : World) (i : nat) (o : Object) (index : Z) (v : Value) (w' : World) (o' : Object) : Prop := {
  stored_ok : world_but None loose w';
  stored_stable : stable w w';
  stored_others : others w w' i;
  stored_at : object_at w' i = Some o';
  stored_entries : entries_of (rt w') (shape o') = entries_of (rt w) (shape o);
  stored_value : slotsData o' = fun j => if j =? index then stored_form (shape_of w o) index v else slotsData o j;
  stored_capacity : overflowCapacity o' = overflowCapacity o;
  stored_mark : used_as_prototype (shape_of w' o') = used_as_prototype (shape_of w o);
  stored_dict : shape_dict (shape_of w' o') = shape_dict (shape_of w o);
  stored_end : storage_end (rt w') (shape o') = storage_end (rt w) (shape o);
  stored_proto : prototypeValue (rt w') (shape o') = prototypeValue (rt w) (shape o)
}.

Lemma rawSetSlot_covered o index v : index < kOverflowSlot + overflowCapacity o ->
  rawSetSlot o index v = Some (with_slots_data (fun j => if j =? index then v else slotsData o j) o).
Proof. intros H. unfold rawSetSlot. zbool; try done. lia. Qed.

Lemma raw_store_ok hole0 loose w i o index v : world_but (option_map (pair i) hole0) loose w -> object_at w i = Some o ->
  hole0 = None \/ hole0 = Some index -> 0 <= index < kOverflowSlot + overflowCapacity o ->
  (slotIsDouble (shape_of w o) index = true -> exists d, v = VNumber d) ->
  exists w' o', raw_store w i index v = Some w' /\ slot_stored loose w i o index v w' o'.
Proof.
  intros Hok Ho Hh Hx Hd. unfold raw_store. rewrite Ho, rawSetSlot_covered by lia.
  set (o' := with_slots_data _ o). pose proof (ok_objects _ _ _ Hok i o Ho) as [S C E D].
  assert (evolution loose w i o o' (rt w) None) as Hev.
  { apply (plain_evolution (option_map (pair i) hole0)); try done; try apply Hok; try reflexivity; try by auto.
    constructor; try done. intros k Hk _ Hkd. cbn [o' with_slots_data slotsData shape] in *.
    destruct (Z.eqb_spec k index) as [->|Hne]; [by apply Hd|]. apply D; [done| |done].
    destruct Hh as [-> | ->]; cbn; [done|]. rewrite decide_True by done. congruence. }
  destruct (evolve hole0 loose w i o o' (rt w) None Hok Ho Hev) as (Hok' & Hst & Hot & Hat). cbn [option_map] in Hok'.
  exists (set_object i o' w), o'. split; [done|]. constructor; try done.
  rewrite stored_form_id; [done|]. destruct (slotIsDouble (shape_of w o) index) eqn:Ed; [right; right; by apply Hd|by right; left].
Qed.

Lemma table_no_doubles r s : runtime_ok r -> (s < next_id r)%nat -> isDictionary (shape_at r s) = true -> double_slots (shape_at r s) = 0.
Proof.
  intros Hok Hs Hd. pose proof (ok_nodes _ Hok s Hs) as Hn. by destruct (ok_top _ _ Hn (ok_dict _ _ Hn Hd)).
Qed.

(** The store that widens a slot: the object moves, then the value goes in as it is. *)
Lemma generalize_ok hole0 loose w i o index v : world_but (option_map (pair i) hole0) loose w -> object_at w i = Some o ->
  slotReprAcceptsValue v = false -> isDictionary (shape_of w o) = false ->
  hole0 = None \/ hole0 = Some index -> 0 <= index < kOverflowSlot + overflowCapacity o ->
  exists w' o',
    (let? (r, to) := withSlotBoxed (rt w) (shape o) index in
     let r := if bool_decide (to <> shape o) then noteShapeLeave (shape o) Generalize r else r in
     raw_store (set_object i (with_shape to o) (with_runtime r w)) i index v) = Some w' /\
    slot_stored loose w i o index v w' o'.
Proof.
  intros Hok Ho Hacc Htree Hh Hx. pose proof (ok_objects _ _ _ Hok i o Ho) as [S C E D]. pose proof (ok_runtime _ _ _ Hok) as Hr.
  destruct (withSlotBoxed_spec (rt w) (shape o) index Hr S (proj1 Hx)) as (r1 & m & Eb & Hb). rewrite Eb.
  apply plain_boxed in Eb. destruct Hb as [Hr1 Hm Hent Hdb Hown _ Hroot Hmark Hdict Hf He].
  set (r' := if bool_decide (m <> shape o) then _ else r1).
  assert (arena r' = arena r1 /\ proto_epoch (rt w) <= proto_epoch r') as [Ea Hep].
  { unfold r'. destruct (bool_decide _); [|split; [done|lia]]. split; [apply leave_arena|].
    pose proof (leave_epoch (shape o) Generalize r1). lia. }
  assert (forall j, shape_at r' j = shape_at r1 j) as Hat by (intros j; by apply same_arena_at).
  assert (runtime_ok r') as Hr' by (by apply (same_arena_ok r1)).
  assert (frame (rt w) r') as Hf' by (transitivity r1; [done|by apply same_arena_frame]).
  assert (layout_entries r' m = layout_entries (rt w) (shape o)) as Hent'.
  { unfold layout_entries in *. rewrite <- Hent. f_equal. apply frame_layout; [done|by apply ok_parents_down|by apply same_arena_frame|done]. }
  assert (entries_of r' m = entries_of (rt w) (shape o)) as Hentries by (unfold entries_of; by rewrite Hat, Hdict, Hent').
  assert (storage_end r' m = storage_end (rt w) (shape o)) as Hend by (unfold storage_end, slotEnd; by rewrite Hat, Hdict, Hown).
  assert (prototypeValue r' m = prototypeValue (rt w) (shape o)) as Hproto.
  { unfold prototypeValue. rewrite (Hat m), Hroot. destruct (ok_root _ _ (ok_nodes _ Hr _ S)) as (R1 & _). apply (proj2 Hf' _ R1). }
  set (o1 := with_shape m o).
  assert (evolution loose w i o o1 r' (Some index)) as Hev.
  { apply (plain_evolution (option_map (pair i) hole0)); try done.
    - transitivity r1; [done|by apply plain_arena].
    - constructor; cbn [o1 with_shape shape slotsData overflowCapacity]; [by rewrite (same_arena_next r1)|done|by rewrite Hend|].
      intros k Hk Hne Hkd. rewrite Hat in Hkd. destruct (Hdb k Hk Hkd) as [Hkx Hkd']. apply D; [done| |done].
      destruct Hh as [-> | ->]; cbn; [done|]. by rewrite decide_True.
    - cbn. by rewrite Hat, Hmark.
    - cbn. rewrite Hat. unfold isDictionary, shape_of in *. rewrite Hdict. by destruct (shape_dict _).
    - right. right. split; [|done]. intros name. destruct (valid name) eqn:Hv; [|unfold locate; by rewrite !lookup_invalid].
      cbn. rewrite !locate_entry; try done; [by rewrite Hentries| | |].
      + intros d Hd. by destruct (ok_tables _ _ _ Hok _ d S Hd).
      + by rewrite (same_arena_next r1).
      + intros d. rewrite Hat, Hdict. intros Hd. by destruct (ok_tables _ _ _ Hok _ d S Hd). }
  destruct (evolve hole0 loose w i o o1 r' (Some index) Hok Ho Hev) as (Hok1 & Hst1 & Hot1 & Hat1).
  destruct (raw_store_ok (Some index) loose _ i o1 index v Hok1 Hat1) as (w' & o' & Ew & Hw); [by right|done| |].
  { cbn. unfold shape_of. cbn [rt set_object with_runtime o1 with_shape shape]. rewrite Hat. intros Hd. by destruct (Hdb index (proj1 Hx) Hd). }
  exists w', o'. split; [done|]. destruct Hw as [W1 W2 W3 W4 W5 W6 W7 W8 W9 W10 W11]. cbn in W5, W6, W7, W8, W9, W10, W11.
  unfold shape_of in *. cbn in W8, W9.
  constructor; try done; [by etransitivity|by eapply others_trans|..].
  - by rewrite W5.
  - rewrite W6, !stored_form_id by (by left). done.
  - unfold shape_of. by rewrite W8, Hat.
  - unfold shape_of. by rewrite W9, Hat.
  - by rewrite W10.
  - by rewrite W11.
Qed.

Lemma setSlot_ok hole0 loose w i o index v : world_but (option_map (pair i) hole0) loose w -> object_at w i = Some o ->
  hole0 = None \/ hole0 = Some index -> 0 <= index < kOverflowSlot + overflowCapacity o ->
  exists w' o', setSlot w i index v = Some w' /\ slot_stored loose w i o index v w' o'.
Proof.
  intros Hok Ho Hh Hx. unfold setSlot. rewrite Ho. destruct (Z.eqb_spec (double_slots (shape_of w o)) 0) as [E0|E0]; cbn [negb].
  { apply (raw_store_ok hole0); try done. unfold slotIsDouble. by rewrite E0, andb_false_r. }
  unfold setSlotWithRepr. rewrite Ho. destruct (slotIsDouble (shape_of w o) index) eqn:Hd; cbn [negb].
  2: { apply (raw_store_ok hole0); try done. by rewrite Hd. }
  destruct (slotReprAcceptsValue v) eqn:Ha.
  - destruct (raw_store_ok hole0 loose w i o index (slotReprCanonicalize v) Hok Ho Hh Hx) as (w' & o' & E & []).
    { intros _. destruct v; try done; by eexists. }
    exists w', o'. split; [done|]. constructor; try done. rewrite stored_value0, stored_form_id by (right; right; destruct v; try done; by eexists).
    unfold stored_form. by rewrite Hd, Ha.
  - apply (generalize_ok hole0); try done. destruct (isDictionary (shape_of w o)) eqn:Ed; [|done]. destruct E0.
    apply table_no_doubles; [apply Hok|apply (ok_objects _ _ _ Hok i o Ho)|done].
Qed.

(** Only the values in the slots of object [i] have changed; its shape may have been
    replaced by one with fewer double slots. *)
Record rewritten (w : World) (i : nat) (o : Object) (w' : World) (o' : Object) : Prop := {
  rw_ok : world_ok w';
  rw_stable : stable w w';
  rw_others : others w w' i;
  rw_at : object_at w' i = Some o';
  rw_entries : entries_of (rt w') (shape o') = entries_of (rt w) (shape o);
  rw_dict : shape_dict (shape_of w' o') = shape_dict (shape_of w o);
  rw_capacity : overflowCapacity o' = overflowCapacity o;
  rw_mark : used_as_prototype (shape_of w' o') = used_as_prototype (shape_of w o);
  rw_proto : prototypeValue (rt w') (shape o') = prototypeValue (rt w) (shape o)
}.

Lemma rewritten_refl w i o : world_ok w -> object_at w i = Some o -> rewritten w i o w o.
Proof. intros Hok Ho. by constructor. Qed.

Lemma rewritten_trans w1 w2 w3 i o1 o2 o3 : rewritten w1 i o1 w2 o2 -> rewritten w2 i o2 w3 o3 -> rewritten w1 i o1 w3 o3.
Proof. intros [] []. constructor; try done; [by etransitivity|by eapply others_trans|congruence..]. Qed.

Lemma setSlot_rewritten w i o index v : world_ok w -> object_at w i = Some o -> 0 <= index < kOverflowSlot + overflowCapacity o ->
  exists w' o', setSlot w i index v = Some w' /\ rewritten w i o w' o' /\
    slotsData o' = fun j => if j =? index then stored_form (shape_of w o) index v else slotsData o j.
Proof.
  intros Hok Ho Hx. destruct (setSlot_ok None None w i o index v Hok Ho) as (w' & o' & E & []); [by left|done|].
  exists w', o'. by split_and!.
Qed.

(** ** Storage *)

Lemma set_object_id w i o : object_at w i = Some o -> set_object i o w = w.
Proof.
  destruct w as [r l]. unfold object_at, set_object. cbn [objs rt]. intros H. f_equal. apply list_eq. intros j.
  rewrite list_lookup_alter. destruct (decide (i = j)) as [->|]; [|done].
  revert H. destruct (l !! j) as [[]|]; try done. by intros [= ->].
Qed.

Lemma set_object_twice w i o1 o2 : set_object i o2 (set_object i o1 w) = set_object i o2 w.
Proof.
  unfold set_object. cbn [objs rt]. f_equal. apply list_eq. intros j. rewrite !list_lookup_alter.
  destruct (decide (i = j)) as [<-|Hne]; [rewrite decide_True by done; by destruct (objs w !! i) as [[]|]|done].
Qed.

Lemma object_at_same w i o o' : object_at w i = Some o -> object_at (set_object i o' w) i = Some o'.
Proof. intros H. change (set_object i o' w) with (set_object i o' (with_runtime (rt w) w)). by rewrite (object_at_set w (rt w) i o o' i H), decide_True. Qed.

Lemma grown_capacity_enough cap needed : 0 <= cap -> cap < needed -> needed <= grown_capacity cap needed.
Proof.
  intros Hc Hn. unfold grown_capacity. set (c0 := if cap =? 0 then 32 else cap * 2).
  assert (0 < c0) as H0 by (unfold c0; zbool; lia).
  destruct (while_inv (fun c => 0 < c) (fun c => Z.to_nat (needed - c)) (Z.to_nat needed) (fun c => c <? needed) (fun c => c * 2) c0 H0) as [_ H].
  - intros c Hpos Hlt%Z.ltb_lt. split; lia.
  - lia.
  - apply Z.ltb_ge in H. done.
Qed.

(** The same object with room for [count] slots. *)
Record roomier (o o1 : Object) (count : Z) : Prop := {
  room_shape : shape o1 = shape o;
  room_count : count <= kOverflowSlot + overflowCapacity o1;
  room_capacity : overflowCapacity o <= overflowCapacity o1;
  room_slots : forall s, s < kOverflowSlot + overflowCapacity o -> slotsData o1 s = slotsData o s;
  room_data : string_data o1 = string_data o
}.

Lemma ensureSlots_eq w i o count : object_at w i = Some o -> 0 <= overflowCapacity o ->
  exists o1, ensureSlots w i count = Some (set_object i o1 w) /\ roomier o o1 count.
Proof.
  intros Ho Hc. unfold ensureSlots, ensureOverflow. rewrite Ho.
  destruct (Z.leb_spec count kOverflowSlot) as [Hs|Hs].
  { exists o. rewrite set_object_id by done. split; [done|]. constructor; try done. lia. }
  destruct (Z.leb_spec (count - kOverflowSlot) (overflowCapacity o)) as [Hn|Hn].
  { exists o. rewrite set_object_id by done. split; [done|]. constructor; try done. lia. }
  eexists. split; [done|]. pose proof (grown_capacity_enough _ _ Hc Hn). constructor; cbn; try done; try lia.
  intros s Hlt. zbool; [lia|done].
Qed.

End Invariant.

#[global] Arguments table_ok symbol_address s d : clear implicits.
#[global] Arguments world_but symbol_address hole loose w : clear implicits.
#[global] Arguments world_ok symbol_address w : clear implicits.
#[global] Arguments stable symbol_address since w w' : clear implicits.
#[global] Arguments evolution symbol_address since loose w i o o' r' hole : clear implicits.
#[global] Arguments rewritten symbol_address since w i o w' o' : clear implicits.
#[global] Arguments slot_stored symbol_address since loose w i o index v w' o' : clear implicits.
