(* ===== verification/ObjectSteps.v ===== *)
(** * What the operations on objects do

    For each operation of Objects.v: that it does not end in [fatal], that it keeps
    [world_ok], what it leaves of the walks inline caches remember, and its effect on
    the object's entries and slots. *)
From S2P Require Import Prelude Float64 Values Dictionary Shapes Objects.
Local Open Scope Z_scope.
Local Open Scope bool_scope.

Section Steps.
Context {symbol_address : nat -> Z} {since : Z}.
#[local] Notation world_but := (Objects.world_but symbol_address).
#[local] Notation world_ok := (Objects.world_ok symbol_address).
#[local] Notation table_ok := (Objects.table_ok symbol_address).
#[local] Notation stable := (Objects.stable symbol_address since).
#[local] Notation evolution := (Objects.evolution symbol_address since).
#[local] Notation slot_stored := (Objects.slot_stored symbol_address since).
#[local] Notation rewritten := (Objects.rewritten symbol_address since).
#[local] Notation setSlot_rewritten := (@Objects.setSlot_rewritten symbol_address since).
#[local] Notation setSlot_ok := (@Objects.setSlot_ok symbol_address since).
#[local] Existing Instance plain_preorder.
#[local] Hint Resolve plain_arena plain_edit plain_new_shape : plain.

(** ** Into dictionary mode *)

Lemma fold_ends_ge es n : n <= fold_left (fun next e => Z.max next (slot e + slotWidth (accessor e))) es n /\
  forall e, In e es -> slot e + slotWidth (accessor e) <= fold_left (fun next e => Z.max next (slot e + slotWidth (accessor e))) es n.
Proof.
  revert n. induction es as [|e es IH]; intros n; cbn [fold_left]; [split; [lia|done]|].
  destruct (IH (Z.max n (slot e + slotWidth (accessor e)))) as [H1 H2]. split; [lia|]. intros x [<-|Hx]; [lia|by apply H2].
Qed.

Lemma fold_ends_le es n m : n <= m -> (forall e, In e es -> slot e + slotWidth (accessor e) <= m) ->
  fold_left (fun next e => Z.max next (slot e + slotWidth (accessor e))) es n <= m.
Proof.
  revert n. induction es as [|e es IH]; intros n Hn H; cbn [fold_left]; [done|]. apply IH; [|intros x Hx; apply H; by right].
  pose proof (H e ltac:(by left)). lia.
Qed.

Lemma own_slots_last e : In (slot e + slotWidth (accessor e) - 1) (own_slots e).
Proof. unfold own_slots. destruct (accessor e); cbn; [right; left; lia|left; lia]. Qed.

Lemma in_slots_of s es : In s (slots_of es) <-> exists e, In e es /\ In s (own_slots e).
Proof.
  unfold slots_of. rewrite in_concat. split.
  - intros (l & Hl & Hs). apply in_map_iff in Hl as (e & <- & He). eauto.
  - intros (e & He & Hs). exists (own_slots e). split; [by apply in_map|done].
Qed.

Lemma dictionary_of_ok es inline : NoDup (map key es) -> Forall (fun e => valid (key e) = true) es -> NoDup (slots_of es) ->
  (forall s, In s (slots_of es) -> 0 <= s /\ (s < inline \/ kOverflowSlot <= s)) ->
  let d := dictionary_of symbol_address es inline in
  dict_ok symbol_address d /\ props d = es /\ inlineSlots d = inline /\ extensible d = true /\ level d = Open /\
  nextSlot d = fold_left (fun next e => Z.max next (slot e + slotWidth (accessor e))) es 0.
Proof.
  intros Hk Hv Hs Hr d. unfold d, dictionary_of. set (next := fold_left _ es 0).
  set (d0 := mkDict es [] next inline true Open false [] 0 0).
  destruct (dict_reindex_spec symbol_address d0) as [(Ee & Ef & En & Ei & Ex & El & _) Hi].
  assert (List.filter live es = es) as Efl.
  { apply List.forallb_filter_id, forallb_forall. intros e He. rewrite Forall_forall in Hv. by apply Hv, list_elem_of_In. }
  assert (props (reindex symbol_address d0) = es) as Ep by (unfold props; by rewrite Ee).
  destruct (fold_ends_ge es 0) as [Hn0 Hn].
  split_and!; try done. constructor; [done| |by rewrite Ep|].
  - constructor; [by rewrite En| |]; unfold taken; rewrite Ep, Ef; cbn [freeSlots d0 app]; rewrite app_nil_r; [done|].
    apply Forall_forall. intros s Hin%list_elem_of_In. destruct (Hr s Hin) as [H0 Hin']. unfold slot_valid. rewrite En, Ei.
    cbn [nextSlot inlineSlots d0]. split; [|done]. split; [done|]. apply in_slots_of in Hin as (e & He & Hse).
    pose proof (Hn e He) as Hle. fold next in Hle. unfold own_slots in Hse.
    assert (slotWidth (accessor e) = if accessor e then 2 else 1) as Ew by done. rewrite Ew in Hle.
    destruct (accessor e); cbn in Hse; lia.
  - destruct Hi as (-> & _). rewrite Ep, Ee. cbn [entries d0]. lia.
Qed.

Lemma clamp_id n : kDefaultInlineSlots <= n <= kOverflowSlot -> clampInlineSlots n = n.
Proof. intros H. unfold clampInlineSlots. zbool; lia. Qed.

(** The table of a tree shape. *)
Lemma tree_table r s : runtime_ok r -> (s < next_id r)%nat -> isDictionary (shape_at r s) = false ->
  let d := dictionary_of symbol_address (map (fun n => node_own (shape_at r n)) (chainOf r s)) (inline_slots (shape_at r s)) in
  dict_ok symbol_address d /\ props d = entries_of r s /\ inlineSlots d = inline_slots (shape_at r s) /\
  extensible d = true /\ level d = Open /\ nextSlot d <= storage_end r s.
Proof.
  intros Hok Hs Hd. cbv zeta. rewrite chain_layout by done. destruct (layout_slots r s Hok Hs) as [L1 L2 L3].
  destruct (layout_valid_keys r s Hok Hs) as [K1 K2].
  assert (map key (layout_entries r s) = layout_keys r s) as Ek by (unfold layout_entries, layout_keys; by rewrite map_map).
  destruct (dictionary_of_ok (layout_entries r s) (inline_slots (shape_at r s))) as (H1 & H2 & H3 & H4 & H5 & H6).
  - by rewrite Ek.
  - rewrite <- Ek in K2. by rewrite Forall_fmap in K2.
  - done.
  - intros x Hx. destruct (L2 x Hx). split; [lia|done].
  - unfold entries_of, storage_end, isDictionary in *. destruct (shape_dict (shape_at r s)); [done|]. split_and!; try done.
    rewrite H6. apply fold_ends_le; [done|]. intros e He. pose proof (own_slots_last e) as Hlast.
    destruct (L2 (slot e + slotWidth (accessor e) - 1)); [apply in_slots_of; by exists e|lia].
Qed.

(** The same properties, in a table. *)
Record demoted (loose : option nat) (w : World) (i : nat) (o : Object) (w' : World) (o' : Object) (d : Dictionary) : Prop := {
  demoted_ok : world_but None loose w';
  demoted_stable : stable w w';
  demoted_others : others w w' i;
  demoted_at : object_at w' i = Some o';
  demoted_dict : shape_dict (shape_of w' o') = Some d;
  demoted_fresh : match shape_dict (shape_of w o) with Some d0 => d = d0 | None => extensible d = true /\ level d = Open end;
  demoted_entries : props d = entries_of (rt w) (shape o);
  demoted_slots : slotsData o' = slotsData o;
  demoted_mark : used_as_prototype (shape_of w' o') = used_as_prototype (shape_of w o);
  demoted_proto : prototypeValue (rt w') (shape o') = prototypeValue (rt w) (shape o)
}.

Lemma bump_if_arena (b : bool) r : arena (if b then bumpProtoMutationEpoch r else r) = arena r.
Proof. by destruct b. Qed.

Lemma bump_if_epoch (b : bool) r : proto_epoch r <= proto_epoch (if b then bumpProtoMutationEpoch r else r).
Proof. destruct b; cbn; lia. Qed.

Lemma chainOf_arena r r' i : arena r' = arena r -> chainOf r' i = chainOf r i.
Proof.
  intros E. unfold chainOf. f_equal. generalize (S i) as fuel. intros fuel. revert i.
  induction fuel as [|fuel IH]; intros i; cbn [chain_nodes]; [done|]. rewrite (same_arena_at r r' i E).
  destruct (negb _); [done|]. f_equal. destruct (parent _); [apply IH|done].
Qed.

Lemma toDictionary_ok loose w i o why : world_but None loose w -> object_at w i = Some o ->
  exists w' o' d, toDictionary symbol_address w i why = Some w' /\ demoted loose w i o w' o' d.
Proof.
  intros Hok Ho. unfold toDictionary. rewrite Ho. pose proof (ok_runtime _ _ _ Hok) as Hr.
  pose proof (ok_objects _ _ _ Hok i o Ho) as [Hs0 C E D]. destruct (isDictionary (shape_of w o)) eqn:Hd.
  { destruct (shape_dict (shape_of w o)) as [d|] eqn:Ed; [|unfold isDictionary in Hd; by rewrite Ed in Hd].
    exists w, o, d. split; [done|]. constructor; try done; [by rewrite Ed|]. unfold entries_of, shape_of in *. by rewrite Ed. }
  set (r0 := if used_as_prototype (shape_of w o) then _ else rt w).
  assert (chainOf r0 (shape o) = chainOf (rt w) (shape o) /\ (forall n, shape_at r0 n = shape_at (rt w) n) /\ next_id r0 = next_id (rt w))
    as (Ec & Ea & En).
  { assert (arena r0 = arena (rt w)) as E0 by apply bump_if_arena. split_and!; [by apply chainOf_arena| |by apply same_arena_next].
    intros n. by apply same_arena_at. }
  rewrite Ec, (map_ext _ _ (fun n => f_equal node_own (Ea n))), En.
  pose proof (tree_table (rt w) (shape o) Hr Hs0 Hd) as Ht. cbv zeta in Ht.
  change (shape_at (rt w) (shape o)) with (shape_of w o) in Ht. set (d := dictionary_of _ _ _) in *.
  destruct Ht as (Td & Tp & Ti & Tx & Tl & Tn). set (s := createDictionaryShape (shape_of w o) d).
  assert (runtime_ok r0) as Hr0 by (apply (same_arena_ok (rt w)); [apply bump_if_arena|done]).
  destruct (ok_root _ _ (ok_nodes _ Hr _ Hs0)) as (R1 & R2 & R3). pose proof (ok_inline _ _ (ok_nodes _ Hr _ Hs0)) as Hin.
  destruct (top_ok r0 s Hr0) as [Hr1 Hf1]; try done.
  { cbn. apply clamp_range. }
  { right. rewrite En, !Ea. split_and!; done. }
  set (r' := noteShapeLeave (shape o) why (new_shape s r0)).
  assert (arena r' = arena (new_shape s r0)) as Ear by apply leave_arena.
  assert (frame (rt w) r') as Hf'.
  { transitivity r0; [apply same_arena_frame, bump_if_arena|]. transitivity (new_shape s r0); [done|by apply same_arena_frame]. }
  assert (runtime_ok r') as Hr' by (by apply (same_arena_ok (new_shape s r0))).
  assert (next_id r' = S (next_id (rt w))) as En' by (rewrite (same_arena_next _ _ Ear), next_id_new, En; done).
  assert (shape_at r' (next_id (rt w)) = s) as Es.
  { rewrite (same_arena_at _ _ _ Ear), shape_at_new, decide_True; [done|by rewrite En]. }
  assert (entries_of r' (next_id (rt w)) = entries_of (rt w) (shape o)) as Een by (unfold entries_of at 1; by rewrite Es).
  assert (prototypeValue r' (next_id (rt w)) = prototypeValue (rt w) (shape o)) as Epv.
  { unfold prototypeValue. rewrite Es. cbn [s createDictionaryShape root]. apply (proj2 Hf' _ R1). }
  assert (table_ok s d) as Htab.
  { constructor; [done|rewrite Ti; cbn; by rewrite clamp_id|by rewrite Tl]. }
  assert (evolution loose w i o (with_shape (next_id (rt w)) o) r' None) as Hev.
  { apply (frame_evolution None); try done.
    - pose proof (bump_if_epoch (used_as_prototype (shape_of w o)) (rt w)). fold r0 in H.
      pose proof (leave_epoch (shape o) why (new_shape s r0)). fold r' in H0. change (proto_epoch (new_shape s r0)) with (proto_epoch r0) in H0. lia.
    - rewrite En'. intros s1 Hs1. replace s1 with (next_id (rt w)) by lia. rewrite Es. cbn. split; [|by left]. by intros d1 [= <-].
    - constructor; cbn [with_shape shape overflowCapacity slotsData]; [lia|done| |].
      + unfold storage_end at 1. rewrite Es. change (nextSlot d <= kOverflowSlot + overflowCapacity o). lia.
      + intros k _ _. rewrite Es. unfold slotIsDouble. cbn. by rewrite andb_false_r.
    - cbn. by rewrite Es.
    - intros _. right. cbn. lia.
    - right. right. split; [|done]. intros name. destruct (valid name) eqn:Hv; [|unfold locate; by rewrite !lookup_invalid].
      cbn. rewrite !locate_entry; try done; [by rewrite Een| |lia|].
      + intros d1 Hd1. by destruct (ok_tables _ _ _ Hok _ d1 Hs0 Hd1).
      + rewrite Es. by intros d1 [= <-]. }
  destruct (evolve None loose w i o _ r' None Hok Ho Hev) as (Hok' & Hst & Hot & Hat).
  eexists _, (with_shape (next_id (rt w)) o), d. split; [done|]. constructor; try done.
  - unfold shape_of. cbn. by rewrite Es.
  - unfold isDictionary in Hd. by destruct (shape_dict (shape_of w o)).
  - unfold shape_of at 1. cbn. by rewrite Es.
Qed.

(** ** Editing a table *)

(** Both tables find every name in the same place. *)
Definition same_places (d d' : Dictionary) : Prop := forall name, valid name = true ->
  option_map (fun e => (slot e, accessor e)) (List.find (keyed name) (props d')) =
  option_map (fun e => (slot e, accessor e)) (List.find (keyed name) (props d)).

Record table_stepped (w : World) (i : nat) (o o' : Object) (d' : Dictionary) (w' : World) : Prop := {
  step_ok : world_ok w';
  step_stable : stable w w';
  step_others : others w w' i;
  step_at : object_at w' i = Some o';
  step_dict : shape_dict (shape_of w' o') = Some d';
  step_mark : used_as_prototype (shape_of w' o') = used_as_prototype (shape_of w o);
  step_proto : prototypeValue (rt w') (shape o') = prototypeValue (rt w) (shape o)
}.

Lemma table_step w i o o' d d' r' : world_ok w -> object_at w i = Some o -> shape_dict (shape_of w o) = Some d ->
  table_ok (shape_of w o) d' -> arena r' = arena (edit (with_dictionary d') (shape o) (rt w)) -> proto_epoch (rt w) <= proto_epoch r' ->
  shape o' = shape o -> 0 <= overflowCapacity o' -> nextSlot d' <= kOverflowSlot + overflowCapacity o' ->
  (level d = Frozen -> level d' = Frozen /\ same_places d d') ->
  (since < proto_epoch r' \/ used_as_prototype (shape_of w o) = false \/ same_places d d') ->
  table_stepped w i o o' d' (set_object i o' (with_runtime r' w)).
Proof.
  intros Hok Ho Hd Ht Ea Hep Es Hc Hn Hfz Hl. pose proof (ok_runtime _ _ _ Hok) as Hr.
  pose proof (ok_objects _ _ _ Hok i o Ho) as [Hs0 _ _ _].
  assert (isDictionary (shape_of w o) = true) as Hdict by (unfold isDictionary; by rewrite Hd).
  assert (table_edit (rt w) (shape o) (with_dictionary d')) as Hedit.
  { constructor; try done; try (by split). apply (ok_root _ _ (ok_nodes _ Hr _ Hs0)). }
  destruct (table_edit_ok _ _ _ Hr Hs0 Hedit) as (Hr1 & _ & Hat1). set (r1 := edit _ _ (rt w)) in *.
  assert (runtime_ok r') as Hr' by (by apply (same_arena_ok r1)).
  assert (forall j, shape_at r' j = if decide (j = shape o) then with_dictionary d' (shape_of w o) else shape_at (rt w) j) as Hat
    by (intros j; rewrite (same_arena_at r1 r'); [apply Hat1|done]).
  assert (next_id r' = next_id (rt w)) as En by (rewrite (same_arena_next r1 r') by done; apply next_id_edit).
  assert (prototypeValue r' (shape o) = prototypeValue (rt w) (shape o)) as Epv.
  { unfold prototypeValue. rewrite (Hat (shape o)), decide_True by done. cbn [with_dictionary root].
    rewrite Hat, decide_False; [done|]. intros E. destruct (ok_root _ _ (ok_nodes _ Hr _ Hs0)) as (_ & _ & R3). unfold shape_of in *. rewrite E in R3. congruence. }
  assert (same_places d d' -> forall name, locate symbol_address r' (shape o) name = locate symbol_address (rt w) (shape o) name) as Hloc.
  { intros Hp name. destruct (valid name) eqn:Hv; [|unfold locate; by rewrite !lookup_invalid]. rewrite !locate_entry; try done.
    - unfold entries_of. rewrite Hat, decide_True by done. cbn. unfold shape_of in Hd. rewrite Hd. by apply Hp.
    - unfold shape_of in Hd. rewrite Hd. intros d1 [= <-]. apply (ok_tables _ _ _ Hok _ _ Hs0 Hd).
    - lia.
    - rewrite Hat, decide_True by done. intros d1 [= <-]. apply Ht. }
  assert (evolution None w i o o' r' None) as Hev.
  { constructor; rewrite ?En; try done; try lia.
    - intros s Hs [Hne|E]; [|congruence]. rewrite Hat, decide_False by done. done.
    - intros _. rewrite Hat, decide_True by done. done.
    - intros d1 Hd1 Hf1. assert (d1 = d) as -> by congruence. destruct (Hfz Hf1) as [Hf' Hp]. split_and!; [|by apply Hloc|done].
      exists d'. rewrite Hat, decide_True by done. done.
    - intros s d1 Hs [Hge| ->]; [lia|]. rewrite Hat, decide_True by done. intros [= <-]. by destruct Ht.
    - constructor; rewrite ?Es, ?En; [done|done|..].
      + unfold storage_end. by rewrite Hat, decide_True.
      + intros k Hk _. rewrite Hat, decide_True by done. unfold slotIsDouble. cbn.
        unfold shape_of in *. rewrite (table_no_doubles (rt w)) by done. cbn. by rewrite andb_false_r.
    - rewrite Es, Hat, decide_True by done. done.
    - rewrite Es. destruct Hl as [?|[?|?]]; [by left|right; left; done|right; right; split; [by apply Hloc|done]]. }
  destruct (evolve None None w i o o' r' None Hok Ho Hev) as (Hok' & Hst & Hot & Hati).
  constructor; try done; unfold shape_of; cbn; rewrite Es.
  - by rewrite Hat, decide_True.
  - by rewrite Hat, decide_True.
  - done.
Qed.

(** ** Integrity levels *)

(** A change to the attributes of the entries. *)
Lemma mapped_table_ok d g : (forall e, key (g e) = key e /\ slot (g e) = slot e /\ accessor (g e) = accessor e) ->
  dict_ok symbol_address d -> forall d', entries d' = map g (entries d) -> freeSlots d' = freeSlots d -> nextSlot d' = nextSlot d ->
  inlineSlots d' = inlineSlots d -> index_ d' = index_ d -> used_ d' = used_ d -> live_ d' = live_ d ->
  dict_ok symbol_address d' /\ props d' = map g (props d) /\ same_places d d'.
Proof.
  intros Hg [Hi Hs Hn Hb] d' Ee Ef En El Ex Eu Ev.
  assert (props d' = map g (props d)) as Ep.
  { unfold props. rewrite Ee. clear -Hg. induction (entries d) as [|e l IH]; [done|]. cbn.
    assert (live (g e) = live e) as -> by (unfold live; by destruct (Hg e) as (-> & _)). destruct (live e); cbn; by rewrite IH. }
  assert (slots_of (map g (props d)) = slots_of (props d)) as Esl.
  { unfold slots_of. rewrite map_map. f_equal. apply map_ext. intros e. unfold own_slots. destruct (Hg e) as (_ & -> & ->). done. }
  split_and!; [|done|].
  - constructor.
    + destruct Hi as (H1 & H2 & H3). unfold index_ok. rewrite Ex, Eu, Ev, Ep, length_map. split_and!; [done|done|].
      destruct (empty (index_ d)); [by rewrite H3|]. destruct H3 as (k & Hk & Hl & Ht). exists k. split_and!; [done|done|].
      rewrite Ee, length_map. eapply Probe.table_weaken; [exact Ht|done|done|]. intros s h. unfold home, entryAt. rewrite Ee, list_lookup_fmap.
      destruct (entries d !! s) as [e|]; cbn; [|done]. unfold live. by destruct (Hg e) as (-> & _).
    + eapply slots_ok_perm; [exact Hs| |done|done]. unfold taken. by rewrite Ep, Ef, Esl.
    + rewrite Ep, map_map, (map_ext _ key); [done|]. intros e. apply Hg.
    + by rewrite Ee, length_map, Ev.
  - intros name Hv. rewrite Ep. clear -Hg. induction (props d) as [|e l IH]; [done|]. cbn.
    destruct (Hg e) as (E0 & E1 & E2). assert (keyed name (g e) = keyed name e) as -> by (unfold keyed; by rewrite E0). destruct (keyed name e); cbn; [by rewrite E1, E2|done].
Qed.

Definition stamp_for (want : IntegrityLevel) (e : DictEntry) : DictEntry :=
  match want with Open => e | Sealed => stamp false e | Frozen => stamp true e end.

Lemma stamp_keeps want e : key (stamp_for want e) = key e /\ slot (stamp_for want e) = slot e /\ accessor (stamp_for want e) = accessor e.
Proof. destruct want; cbn; unfold stamp; by destruct (negb (live e)). Qed.

Lemma raise_level_entries d want : entries (raise_level d want) = map (stamp_for want) (entries d).
Proof. destruct want; cbn; [by rewrite map_id|done|done]. Qed.

Lemma level_rank_max a b : level_rank (if level_rank a <? level_rank b then b else a) = Z.max (level_rank a) (level_rank b).
Proof. by destruct a, b. Qed.

Lemma raise_level_ok s d want : table_ok s d ->
  table_ok s (raise_level d want) /\ props (raise_level d want) = map (stamp_for want) (props d) /\ same_places d (raise_level d want) /\
  nextSlot (raise_level d want) = nextSlot d /\ (level d = Frozen -> level (raise_level d want) = Frozen).
Proof.
  intros [Hd Hi Hf]. destruct (mapped_table_ok d (stamp_for want) (stamp_keeps want) Hd (raise_level d want)) as (H1 & H2 & H3);
    [apply raise_level_entries|by destruct want..|]. split_and!; try done.
  - constructor; [done|by destruct want|]. intros Hl. split; [by destruct want|]. rewrite H2. apply Forall_forall.
    intros e' (e & -> & He)%list_elem_of_fmap. pose proof He as Hle. apply list_elem_of_In, filter_In in Hle as [_ Hle].
    destruct want; cbn; unfold stamp; rewrite ?Hle; cbn; try done. assert (level d = Frozen) as Hl' by (cbn in Hl; by destruct (level d)).
    destruct (Hf Hl') as [_ Hall]. rewrite Forall_forall in Hall. by apply Hall.
  - by destruct want.
  - intros Hl. destruct want; cbn; by rewrite Hl.
Qed.

Lemma table_shape_ok w s d : world_ok w -> (s < next_id (rt w))%nat -> shape_dict (shape_at (rt w) s) = Some d -> table_ok (shape_at (rt w) s) d.
Proof. intros Hok. apply (ok_tables _ _ _ Hok). Qed.

Lemma demoted_table w i o w' o' d : demoted None w i o w' o' d -> object_ok (rt w') None o' /\ table_ok (shape_of w' o') d.
Proof.
  intros []. split; [by apply (ok_objects _ _ _ demoted_ok0 i o')|].
  apply table_shape_ok; [done|apply (ok_objects _ _ _ demoted_ok0 i o' demoted_at0)|done].
Qed.

Lemma table_storage r o d : object_ok r None o -> shape_dict (shape_at r (shape o)) = Some d -> nextSlot d <= kOverflowSlot + overflowCapacity o.
Proof. intros [_ _ E _] Hd. unfold storage_end in E. by rewrite Hd in E. Qed.

(** What [preventExtensions], [seal] and [freeze] do. *)
Record hardened_to (want : IntegrityLevel) (w : World) (i : nat) (o : Object) (w' : World) (o' : Object) (d : Dictionary) : Prop := {
  hard_ok : world_ok w';
  hard_stable : stable w w';
  hard_others : others w w' i;
  hard_at : object_at w' i = Some o';
  hard_dict : shape_dict (shape_of w' o') = Some d;
  hard_extensible : extensible d = false;
  hard_level : level_rank want <= level_rank (level d);
  hard_entries : props d = map (stamp_for want) (entries_of (rt w) (shape o));
  hard_slots : slotsData o' = slotsData o;
  hard_proto : prototypeValue (rt w') (shape o') = prototypeValue (rt w) (shape o)
}.

(** Whether the view's elements stop [seal] and [freeze]. *)
Definition refused (w : World) (i : nat) (want : IntegrityLevel) : bool := match want with Open => false | _ => true end && has_elements w i.

Lemma elements_kept w w' i o : stable w w' -> object_at w i = Some o -> has_elements w' i = has_elements w i.
Proof.
  intros Hst Ho. unfold has_elements. unfold object_at in Ho. destruct (objs w !! i) as [[k q| | |]|] eqn:E; try done.
  destruct (st_kinds _ _ Hst i _ E) as (h & -> & Hk). destruct h; try done. cbn in Hk. by subst.
Qed.

Lemma setIntegrity_ok w i o want : world_ok w -> object_at w i = Some o -> refused w i want = false ->
  exists w' o' d, setIntegrity symbol_address w i want = Some (w', Settled) /\ hardened_to want w i o w' o' d.
Proof.
  intros Hok Ho Hr. unfold setIntegrity. unfold refused in Hr. rewrite Hr. destruct (toDictionary_ok None w i o Integrity Hok Ho) as (w1 & o1 & d & E & Hdem). rewrite E.
  destruct (demoted_table _ _ _ _ _ _ Hdem) as [Hobj Htab]. destruct Hdem as [Hok1 St1 Ot1 At1 D1 _ Ent1 Sl1 _ Pr1]. rewrite At1, D1.
  destruct (raise_level_ok _ d want Htab) as (Ht & Hp & Hsame & Hn & Hf).
  pose proof (table_step w1 i o1 o1 d (raise_level d want) (edit (with_dictionary (raise_level d want)) (shape o1) (rt w1)) Hok1 At1 D1 Ht
    eq_refl (Z.le_refl _) eq_refl (obj_capacity _ _ _ Hobj)) as Hstep.
  destruct Hstep as [].
  - rewrite Hn. by apply (table_storage (rt w1)).
  - intros Hfz. split; [by apply Hf|done].
  - by right; right.
  - eexists _, o1, (raise_level d want). split; [by rewrite <- (set_object_id w1 i o1 At1) at 2|].
    constructor; try done.
    + by etransitivity.
    + by eapply others_trans.
    + destruct want; cbn; destruct (level d); cbn; lia.
    + by rewrite Hp, Ent1.
    + etransitivity; [exact step_proto0|done].
Qed.

(** ** The epoch, and [[SetPrototypeOf]] *)

Lemma locate_arena r r' s name : arena r' = arena r -> locate symbol_address r' s name = locate symbol_address r s name.
Proof.
  intros E. assert (forall fuel s, chain_lookup fuel r' s name = chain_lookup fuel r s name) as Hc.
  { induction fuel as [|fuel IH]; intros s0; cbn [chain_lookup]; [done|]. rewrite (same_arena_at r r' s0 E).
    destruct (matches _ _); [done|]. destruct (parent _); [apply IH|done]. }
  unfold locate, lookupProperty. by rewrite (same_arena_at r r' s E), Hc.
Qed.

Lemma layout_arena r r' s : arena r' = arena r -> layout r' s = layout r s.
Proof.
  intros E. unfold layout. generalize (S s) as fuel. intros fuel. revert s.
  induction fuel as [|fuel IH]; intros s; cbn [layout_loop]; [done|]. rewrite (same_arena_at r r' s E).
  destruct (parent _); [by rewrite IH|done].
Qed.

(** Only the epoch or the hazard moves. *)
Lemma epoch_ok hole loose w r' : world_but hole loose w -> arena r' = arena (rt w) -> proto_epoch (rt w) <= proto_epoch r' ->
  world_but hole loose (with_runtime r' w) /\ stable w (with_runtime r' w) /\
  forall s, entries_of r' s = entries_of (rt w) s /\ prototypeValue r' s = prototypeValue (rt w) s /\ shape_dict (shape_at r' s) = shape_dict (shape_at (rt w) s).
Proof.
  intros [R O T P L G] E Hep. pose proof (same_arena_next _ _ E) as En. pose proof (fun s => same_arena_at _ _ s E) as Ea.
  assert (forall s, entries_of r' s = entries_of (rt w) s /\ prototypeValue r' s = prototypeValue (rt w) s /\ shape_dict (shape_at r' s) = shape_dict (shape_at (rt w) s)) as Hs.
  { intros s. unfold entries_of, prototypeValue, layout_entries. rewrite !Ea. by rewrite (layout_arena (rt w) r'). }
  split_and!; [..|done].
  - constructor; unfold shape_of; cbn [rt with_runtime]; rewrite ?En.
    + by apply (same_arena_ok (rt w)).
    + intros i o Ho. destruct (O i o Ho) as [S C E0 D]. constructor; rewrite ?En, ?Ea; try done. unfold storage_end in *. by rewrite Ea.
    + intros s d. rewrite Ea. apply T.
    + intros i j o o'. rewrite Ea. apply P.
    + intros s p o. rewrite !Ea. apply L.
    + intros s p. rewrite !Ea. apply G.
  - constructor; cbn [rt with_runtime]; rewrite ?En; try done.
    + intros p h Hp. exists h. split; [done|reflexivity].
    + intros s _. by rewrite Ea.
    + intros s _ Hd. by constructor; rewrite ?Ea; [..|apply Hs|intros name; apply locate_arena|apply Hs].
    + intros s d _ Hd Hf. rewrite Ea. split_and!; [by exists d| |intros _; apply Hs]. intros name. by apply locate_arena.
    + intros _ s p o _ _ Ho. exists o. split_and!; [done| |apply Hs]. intros name. by apply locate_arena.
Qed.

Record prototype_set (newRoot : nat) (w : World) (i : nat) (o : Object) (w' : World) (o' : Object) : Prop := {
  set_ok : world_ok w';
  set_stable : stable w w';
  set_others : others w w' i;
  set_at : object_at w' i = Some o';
  set_entries : entries_of (rt w') (shape o') = entries_of (rt w) (shape o);
  set_slots : slotsData o' = slotsData o;
  set_proto : prototypeValue (rt w') (shape o') = prototype (shape_at (rt w) newRoot)
}.

Lemma setPrototype_ok w i o newRoot : world_ok w -> since <= proto_epoch (rt w) -> object_at w i = Some o ->
  (newRoot < next_id (rt w))%nat -> parent (shape_at (rt w) newRoot) = None -> isDictionary (shape_at (rt w) newRoot) = false ->
  exists w' o', setPrototype symbol_address w i newRoot = Some w' /\ prototype_set newRoot w i o w' o'.
Proof.
  intros Hok Hsi Ho Hn Hp Hd. unfold setPrototype.
  destruct (epoch_ok None None w (bumpProtoMutationEpoch (rt w)) Hok eq_refl ltac:(cbn; lia)) as (Hok0 & St0 & Hs0). set (w0 := with_runtime _ w) in *.
  destruct (toDictionary_ok None w0 i o SetPrototype Hok0 Ho) as (w1 & o1 & d & E & Hdem). rewrite E.
  destruct (demoted_table _ _ _ _ _ _ Hdem) as [Hobj Htab]. destruct Hdem as [Hok1 St1 Ot1 At1 D1 _ Ent1 Sl1 Mk1 _]. rewrite At1.
  destruct (st_trees _ _ St1 newRoot Hn Hd) as [Hd1 Hp1 _ _ _ _ _]. pose proof (st_next _ _ St1) as Hn1. pose proof (st_epoch _ _ St1) as He1. cbn in He1.
  change (next_id (rt w0)) with (next_id (rt w)) in Hn1. change (shape_at (rt w0) newRoot) with (shape_at (rt w) newRoot) in Hp1.
  assert (isDictionary (shape_of w1 o1) = true) as Hdict by (unfold isDictionary; by rewrite D1).
  pose proof (ok_runtime _ _ _ Hok1) as Hr1. destruct Hobj as [Ho1 Hc1 Hst1 Hdb1].
  assert (table_edit (rt w1) (shape o1) (with_root newRoot)) as Hedit.
  { constructor; try done. cbn. split_and!; [lia|congruence|done]. }
  destruct (table_edit_ok _ _ _ Hr1 Ho1 Hedit) as (Hr2 & _ & Hat). set (r2 := edit _ _ (rt w1)) in *.
  assert (next_id r2 = next_id (rt w1)) as En2 by apply next_id_edit.
  assert (shape o1 <> newRoot) as Hne by (intros Heq; unfold shape_of in Hdict; congruence).
  assert (entries_of r2 (shape o1) = entries_of (rt w1) (shape o1)) as Ee2 by (unfold entries_of, shape_of in *; rewrite Hat, decide_True by done; cbn; by rewrite D1).
  assert (prototypeValue r2 (shape o1) = prototype (shape_at (rt w) newRoot)) as Ep2.
  { unfold prototypeValue. rewrite (Hat (shape o1)), decide_True by done. cbn. rewrite Hat, decide_False by done. by apply (st_protos _ _ St1). }
  assert (evolution None w1 i o1 o1 r2 None) as Hev.
  { constructor; rewrite ?En2; try done; try lia.
    - intros s Hs [Hs'|Hs']; [|congruence]. by rewrite Hat, decide_False.
    - intros _. by rewrite Hat, decide_True.
    - intros d1 Hd1' Hf1. rewrite Hat, decide_True by done. split_and!; [by exists d1| |change (proto_epoch r2) with (proto_epoch (rt w1)); lia].
      intros name. destruct (valid name) eqn:Hv; [|unfold locate; by rewrite !lookup_invalid].
      rewrite !locate_entry; try done; [by rewrite Ee2| |lia|]; intros d2; [|rewrite Hat, decide_True by done];
        intros Hd2; unfold shape_of in *; cbn in Hd2; rewrite D1 in Hd2; injection Hd2 as <-; apply Htab.
    - intros s d1 Hs [Hge| ->]; [lia|]. rewrite Hat, decide_True by done. unfold shape_of in *. cbn. rewrite D1. intros [= <-]. by destruct Htab.
    - constructor; rewrite ?En2; [done|done| |].
      + unfold storage_end in *. by rewrite Hat, decide_True.
      + rewrite Hat, decide_True by done. done.
    - rewrite Hat, decide_True by done. done.
    - left. change (proto_epoch r2) with (proto_epoch (rt w1)). lia. }
  destruct (evolve None None w1 i o1 o1 r2 None Hok1 At1 Hev) as (Hok2 & St2 & Ot2 & At2).
  change (set_object i o1 (with_runtime r2 w1)) with (with_runtime r2 (set_object i o1 w1)) in *. rewrite (set_object_id w1 i o1 At1) in *.
  exists (with_runtime r2 w1), o1. split; [done|]. constructor; try done.
  - etransitivity; [exact St0|]. by etransitivity.
  - eapply others_trans; [|eapply others_trans; [exact Ot1|exact Ot2]]. intros j Hj. split; [done|]. intros oj _. apply Hs0.
  - cbn. rewrite Ee2. unfold entries_of at 1. unfold shape_of in *. rewrite D1, Ent1. apply Hs0.
Qed.

(** ** Defining in a table *)

(** The other words of a table. *)
Definition same_words (d d' : Dictionary) : Prop :=
  inlineSlots d' = inlineSlots d /\ extensible d' = extensible d /\ level d' = level d /\ hardened d' = hardened d.

Lemma allocateSlots_words d width : same_words d (fst (allocateSlots d width)) /\ entries (fst (allocateSlots d width)) = entries d /\
  (0 <= nextSlot d -> 0 < width -> nextSlot d <= nextSlot (fst (allocateSlots d width))).
Proof.
  unfold allocateSlots. destruct (_ && _); cbn; [split_and!; done|]. split_and!; try done.
  intros Hn Hw. unfold placeSlot. zbool; cbn; try lia.
Qed.

Record defined_in (h ho : ObjectHeader) (out : Z) (name : PropertyKey) (en acc : bool) (l1 l2 : list DictEntry) (e : DictEntry) : Prop := {
  din_ok : dict_ok symbol_address (dict ho);
  din_words : same_words (dict h) (dict ho);
  din_props : props (dict ho) = l1 ++ e :: l2;
  din_entry : key e = name /\ slot e = out /\ accessor e = acc /\ enumerable e = en;
  din_next : nextSlot (dict h) <= nextSlot (dict ho);
  din_slots : slots ho = (if acc then fun j => if j =? out + 1 then VUndefined else if j =? out then VUndefined else slots h j else slots h) \/
    slots ho = slots h /\ match find symbol_address (dict h) name with Some pos => accessor (entryAt (dict h) pos) = acc | None => False end;
  din_before : match find symbol_address (dict h) name with
    | Some pos => props (dict h) = l1 ++ entryAt (dict h) pos :: l2 /\ key (entryAt (dict h) pos) = name /\
        writable e = writable (entryAt (dict h) pos) /\ configurable e = configurable (entryAt (dict h) pos) /\
        (accessor (entryAt (dict h) pos) = acc -> slot e = slot (entryAt (dict h) pos) /\ slots ho = slots h /\ nextSlot (dict ho) = nextSlot (dict h))
    | None => props (dict h) = l1 /\ l2 = [] /\ writable e = true /\ configurable e = true
    end
}.

Lemma dictDefine_table h name en acc : dict_ok symbol_address (dict h) -> valid name = true ->
  let '(ho, out) := Dictionary.dictDefine symbol_address h name en acc in
  exists l1 l2 e, defined_in h ho out name en acc l1 l2 e.
Proof.
  intros Hok Hv. pose proof (dict_find_spec symbol_address (dict h) name Hv (Dictionary.ok_index _ _ Hok)) as Hf.
  pose proof (slots_next _ _ (Dictionary.ok_slots _ _ Hok)) as Hn0.
  assert (dict_ok symbol_address (dict (fst (Dictionary.dictDefine symbol_address h name en acc)))) as Hok'.
  { destruct (find symbol_address (dict h) name) as [pos|] eqn:Ef.
    - pose proof (dictDefine_existing symbol_address h name en acc pos Hok Hv Ef) as H.
      destruct (Dictionary.dictDefine _ _ _ _ _) as [ho out]. destruct H as (l1 & l2 & e & [] & _). done.
    - pose proof (dictDefine_fresh symbol_address h name en acc Hok Hv Ef) as H.
      destruct (Dictionary.dictDefine _ _ _ _ _) as [ho out]. destruct H as (e & [] & _). done. }
  unfold Dictionary.dictDefine in *. destruct (find symbol_address (dict h) name) as [pos|] eqn:Ef.
  - destruct Hf as [Hl Hk]. destruct (props_split (dict h) pos Hl) as (l1 & l2 & E1 & E2). set (e0 := entryAt (dict h) pos) in *.
    destruct (Bool.eqb (accessor e0) acc) eqn:Ea.
    + apply eqb_prop in Ea. set (e := mkEntry (key e0) (slot e0) en (accessor e0) (writable e0) (configurable e0)).
      exists l1, l2, e. constructor; rewrite ?Ef; fold e0; try done.
      * unfold props. cbn. rewrite E2. unfold live. cbn. by rewrite Hk, Hv.
      * by right.
    + set (d1 := if negb (accessor e0) then _ else dict h) in *. destruct (allocateSlots_words d1 (if acc then 2 else 1)) as (W1 & W2 & W3).
      destruct (allocateSlots d1 (if acc then 2 else 1)) as [d2 out]. cbn [fst snd] in *.
      assert (same_words (dict h) d1 /\ nextSlot d1 = nextSlot (dict h)) as [W4 W5] by (unfold d1; by destruct (accessor e0)).
      set (e := mkEntry (key e0) out en acc (writable e0) (configurable e0)) in *. exists l1, l2, e.
      assert (accessor e0 <> acc) as Hne by (intros <-; by rewrite eqb_reflx in Ea).
      assert (same_words (dict h) d2) as W6 by (unfold same_words in *; naive_solver congruence).
      assert (nextSlot (dict h) <= nextSlot d2) as W7 by (rewrite <- W5; apply W3; [lia|by destruct acc]).
      assert (List.filter live (<[pos:=e]> (entries d2)) = l1 ++ e :: l2) as Ep.
      { rewrite W2. replace (entries d1) with (entries (dict h)) by (unfold d1; by destruct (accessor e0)). rewrite E2. unfold live. cbn. by rewrite Hk, Hv. }
      constructor; rewrite ?Ef; fold e0; destruct acc; cbn; try done; try by left.
  - set (d0 := dict h) in *. destruct (allocateSlots_words d0 (if acc then 2 else 1)) as (W1 & W2 & W3).
    pose proof (allocateSlots_spec d0 acc (Dictionary.ok_slots _ _ Hok)) as Ha.
    destruct (allocateSlots d0 (if acc then 2 else 1)) as [d1 out]. cbn [fst snd] in *.
    destruct Ha as (_ & Ee1 & Ei1 & Eu1 & El1 & Ep1).
    assert (index_ok symbol_address d1) as Hi1 by (apply (index_ok_ext symbol_address d0); try done; apply Hok).
    destruct (dict_add_spec symbol_address d1 name out en acc true true Hv Hi1) as [Hi2 (S1 & S2 & S3 & S4 & S5 & S6 & S7)].
    cbn in S1, S3, S4, S5, S6, S7. set (e := mkEntry name out en acc true true) in *. set (d2 := add symbol_address d1 name out en acc true true) in *.
    exists (props d0), [], e.
    assert (props d2 = props d0 ++ [e]) as Ep by (unfold props; rewrite S1, W2, List.filter_app; cbn; unfold live at 2; cbn; by rewrite Hv).
    assert (same_words d0 d2) as W6 by (unfold same_words in *; naive_solver congruence).
    assert (nextSlot d0 <= nextSlot d2) as W7 by (rewrite S3; apply W3; [lia|by destruct acc]).
    constructor; fold d0; rewrite ?Ef; destruct acc; cbn; try done; try by left.
Qed.

(** What the caller of a definition has checked (10.1.6.3). *)
Definition definable (d : Dictionary) (name : PropertyKey) (acc : bool) : Prop :=
  match find symbol_address d name with
  | None => extensible d = true
  | Some pos => accessor (entryAt d pos) = acc \/ configurable (entryAt d pos) = true
  end.

Lemma same_places_replaced d d' l1 l2 e0 e : props d = l1 ++ e0 :: l2 -> props d' = l1 ++ e :: l2 ->
  key e = key e0 -> slot e = slot e0 -> accessor e = accessor e0 -> same_places d d'.
Proof.
  intros P P' Hk Hs Ha name _. rewrite P, P'. clear P P'. induction l1 as [|x l1 IH]; cbn; unfold keyed in *.
  - rewrite Hk. destruct (bool_decide _); cbn; [by rewrite Hs, Ha|done].
  - destruct (bool_decide _); [done|apply IH].
Qed.

Lemma defined_table_ok s h ho out name en acc l1 l2 e : table_ok s (dict h) -> definable (dict h) name acc ->
  defined_in h ho out name en acc l1 l2 e ->
  table_ok s (dict ho) /\ (level (dict h) = Frozen -> level (dict ho) = Frozen /\ same_places (dict h) (dict ho)) /\
  match find symbol_address (dict h) name with Some pos => accessor (entryAt (dict h) pos) = acc -> same_places (dict h) (dict ho) | None => True end.
Proof.
  intros [Td Ti Tf] Hdef []. destruct din_words0 as (Wi & Wx & Wl & Wh). destruct din_entry0 as (E1 & E2 & E3 & E4).
  assert (match find symbol_address (dict h) name with Some pos => accessor (entryAt (dict h) pos) = acc -> same_places (dict h) (dict ho) | None => True end) as Hp.
  { destruct (find symbol_address (dict h) name) as [pos|]; [|done]. destruct din_before0 as (P & K & _ & _ & Hs). intros Ha.
    destruct (Hs Ha) as (Hsl & _). eapply same_places_replaced; [exact P|exact din_props0|congruence..]. }
  assert (level (dict h) = Frozen -> exists pos, find symbol_address (dict h) name = Some pos /\ accessor (entryAt (dict h) pos) = acc) as Hfz.
  { intros Hl. destruct (Tf Hl) as [Hx Hc]. unfold definable in Hdef. destruct (find symbol_address (dict h) name) as [pos|]; [|congruence].
    exists pos. split; [done|]. destruct Hdef as [?|Hcf]; [done|]. destruct din_before0 as (P & _). rewrite P in Hc.
    apply Forall_app in Hc as [_ Hc]. inversion Hc. congruence. }
  split_and!; [|intros Hl; destruct (Hfz Hl) as (pos & Hf & Ha); rewrite Hf in Hp; split; [by rewrite Wl|by apply Hp]|done].
  constructor; [done|by rewrite Wi|]. rewrite Wl, Wx. intros Hl. destruct (Tf Hl) as [Hx Hc]. split; [done|].
  destruct (Hfz Hl) as (pos & Hf & Ha). rewrite Hf in din_before0. destruct din_before0 as (P & _ & _ & Hcf & _). rewrite P in Hc. rewrite din_props0.
  apply Forall_app in Hc as [H1 H2]. inversion H2; subst. apply Forall_app. split; [done|]. constructor; [congruence|done].
Qed.

(** A definition in the table of object [i]; [ho] is the table with its slots. *)
Record table_defined (w : World) (i : nat) (o : Object) (acc : bool) (ho : ObjectHeader) (out : Z) (w' : World) (o' : Object) : Prop := {
  td_ok : world_ok w';
  td_stable : stable w w';
  td_others : others w w' i;
  td_at : object_at w' i = Some o';
  td_dict : shape_dict (shape_of w' o') = Some (dict ho);
  td_out : 0 <= out /\ out + slotWidth acc <= kOverflowSlot + overflowCapacity o';
  td_slots : forall s, s < kOverflowSlot + overflowCapacity o \/ acc = true /\ out <= s <= out + 1 -> slotsData o' s = slots ho s;
  td_covered : forall s, In s (slots_of (props (dict ho))) -> s < kOverflowSlot + overflowCapacity o \/ out <= s < out + slotWidth acc;
  td_mark : used_as_prototype (shape_of w' o') = used_as_prototype (shape_of w o);
  td_proto : prototypeValue (rt w') (shape o') = prototypeValue (rt w) (shape o)
}.

(** The storage of a definition, once its table is in place. *)
Lemma clear_pair_ok w i o (acc : bool) out : world_ok w -> object_at w i = Some o ->
  0 <= out -> out + slotWidth acc <= kOverflowSlot + overflowCapacity o ->
  exists w' o', (if acc then let? w := setSlot w i out VUndefined in let? w := setSlot w i (out + 1) VUndefined in Some (w, out) else Some (w, out)) = Some (w', out) /\
    rewritten w i o w' o' /\
    slotsData o' = (if acc then fun j => if j =? out + 1 then VUndefined else if j =? out then VUndefined else slotsData o j else slotsData o).
Proof.
  intros Hok Ho H0 Hout. destruct acc; cbn [slotWidth] in Hout; [|exists w, o; split_and!; [done|by apply rewritten_refl|done]].
  destruct (setSlot_rewritten w i o out VUndefined Hok Ho ltac:(lia)) as (w1 & o1 & E1 & R1 & S1). rewrite E1.
  destruct (setSlot_rewritten w1 i o1 (out + 1) VUndefined) as (w2 & o2 & E2 & R2 & S2); [apply R1|apply R1|rewrite (rw_capacity _ _ _ _ _ R1); lia|].
  rewrite E2. exists w2, o2. split_and!; [done|by eapply rewritten_trans|]. by rewrite S2, S1, !stored_form_id by (by left).
Qed.

(** The slots a table has handed out are below its end. *)
Lemma entry_below d e : dict_ok symbol_address d -> In e (props d) -> 0 <= slot e /\ slot e + slotWidth (accessor e) <= nextSlot d.
Proof.
  intros [_ [_ _ Hv] _ _] He. rewrite Forall_forall in Hv. cbn [app] in Hv. unfold taken in Hv.
  assert (forall s, In s (own_slots e) -> 0 <= s < nextSlot d) as H.
  { intros s Hs. apply (Hv s). apply elem_of_app. left. apply list_elem_of_In. apply in_slots_of. by exists e. }
  pose proof (H _ (own_slots_last e)). assert (In (slot e) (own_slots e)) as Hf by (unfold own_slots; destruct (accessor e); by left).
  pose proof (H _ Hf). lia.
Qed.

(** The slots of the other entries were in use before. *)
Lemma defined_covered h ho out name en acc l1 l2 e : dict_ok symbol_address (dict h) -> defined_in h ho out name en acc l1 l2 e ->
  forall s, In s (slots_of (props (dict ho))) -> s < nextSlot (dict h) \/ out <= s < out + slotWidth acc.
Proof.
  intros Hok [] s (x & Hx & Hs)%in_slots_of. destruct din_entry0 as (_ & E2 & E3 & _). rewrite din_props0 in Hx.
  assert (slot x <= s < slot x + slotWidth (accessor x)) as Hr by (unfold own_slots in Hs; destruct (accessor x); cbn in Hs |- *; lia).
  assert (x = e \/ In x (props (dict h))) as [->|Hin]; [|right; by rewrite <- E2, <- E3|left; destruct (entry_below _ x Hok Hin); lia].
  apply in_app_or in Hx as [Hx|[->|Hx]]; [right|by left|right]; destruct (find symbol_address (dict h) name).
  - destruct din_before0 as (-> & _). apply in_or_app. by left.
  - by destruct din_before0 as (-> & _).
  - destruct din_before0 as (-> & _). apply in_or_app. right. by right.
  - by destruct din_before0 as (_ & -> & _).
Qed.

Lemma dictDefine_ok w i o d name en acc : world_ok w -> since <= proto_epoch (rt w) -> object_at w i = Some o ->
  shape_dict (shape_of w o) = Some d -> valid name = true -> definable d name acc ->
  let '(ho, out) := Dictionary.dictDefine symbol_address (mkObject d (slotsData o)) name en acc in
  exists w' o', dictDefine symbol_address w i name en acc = Some (w', out) /\ table_defined w i o acc ho out w' o'.
Proof.
  intros Hok Hsi Ho Hd Hv Hdef. pose proof (ok_objects _ _ _ Hok i o Ho) as Hobj. pose proof Hobj as [Hs0 Hc0 Hst0 Hdb0].
  pose proof (table_shape_ok _ _ _ Hok Hs0 Hd) as Htab. set (h := mkObject d (slotsData o)).
  pose proof (dictDefine_table h name en acc (table_dict _ _ Htab) Hv) as Hdin. unfold dictDefine. rewrite Ho, Hd. fold h.
  destruct (Dictionary.dictDefine symbol_address h name en acc) as [ho out]. destruct Hdin as (l1 & l2 & e & Hdin).
  destruct (defined_table_ok _ h ho out name en acc l1 l2 e Htab Hdef Hdin) as (Htab' & Hfz & Hsame).
  pose proof (table_storage (rt w) o d Hobj Hd) as Hroom.
  assert (forall s, In s (slots_of (props (dict ho))) -> s < kOverflowSlot + overflowCapacity o \/ out <= s < out + slotWidth acc) as Hcov.
  { intros s Hs. destruct (defined_covered h ho out name en acc l1 l2 e (table_dict _ _ Htab) Hdin s Hs) as [Hlt|]; [left; cbn in Hlt; lia|by right]. }
  destruct Hdin as [Hok' _ Hp (E1 & E2 & E3 & E4) Hn Hsl Hb]. cbn [dict h] in *.
  destruct (entry_below (dict ho) e Hok') as [Hout0 Hout1]; [rewrite Hp; apply in_or_app; right; by left|]. rewrite E2, E3 in *.
  assert (forall r', arena r' = arena (edit (with_dictionary (dict ho)) (shape o) (rt w)) -> proto_epoch (rt w) <= proto_epoch r' ->
    since < proto_epoch r' \/ used_as_prototype (shape_of w o) = false ->
    slots ho = (if acc then fun j => if j =? out + 1 then VUndefined else if j =? out then VUndefined else slots h j else slots h) ->
    exists w' o', (let? w := ensureSlots (with_runtime r' w) i (nextSlot (dict ho)) in
      if acc then let? w := setSlot w i out VUndefined in let? w := setSlot w i (out + 1) VUndefined in Some (w, out) else Some (w, out)) = Some (w', out) /\
      table_defined w i o acc ho out w' o') as Hstorage.
  { intros r' Ear Her Hlink Hslots. destruct (ensureSlots_eq (with_runtime r' w) i o (nextSlot (dict ho)) Ho Hc0) as (o1 & Ee & []). rewrite Ee.
    pose proof (table_step w i o o1 d (dict ho) r' Hok Ho Hd Htab' Ear Her room_shape ltac:(lia) ltac:(lia) Hfz ltac:(tauto)) as [].
    destruct (clear_pair_ok _ i o1 acc out step_ok0 step_at0 Hout0 ltac:(lia)) as (w2 & o2 & Ew & [W1 W2 W3 W4 W5 W6 W7 W9 W10] & W8).
    exists w2, o2. split; [exact Ew|]. constructor; try done; [by etransitivity|by eapply others_trans|congruence|split; [done|lia]| |congruence|congruence].
    intros s Hs. rewrite W8, Hslots. destruct acc; [|destruct Hs as [Hs|[? _]]; [by apply room_slots|done]].
    destruct (Z.eqb_spec s (out + 1)); [done|]. destruct (Z.eqb_spec s out); [done|]. destruct Hs as [Hs|[_ Hs]]; [by apply room_slots|lia]. }
  destruct (find symbol_address d name) as [pos|] eqn:Ef.
  - destruct Hb as (P & K & _ & _ & Hk). destruct (Bool.eqb (accessor (entryAt d pos)) acc) eqn:Ea.
    + apply eqb_prop in Ea. destruct (Hk Ea) as (K1 & K2 & K3).
      pose proof (table_step w i o o d (dict ho) (edit (with_dictionary (dict ho)) (shape o) (rt w)) Hok Ho Hd Htab' eq_refl ltac:(cbn; lia) eq_refl Hc0 ltac:(lia) Hfz
        ltac:(right; right; by apply Hsame)) as [].
      eexists _, o. split; [by rewrite <- (set_object_id w i o Ho) at 2|]. constructor; try done; [split; [done|]; lia|]. intros s _. by rewrite K2.
    + destruct Hsl as [Hsl|[_ Hsl]]; [|by rewrite Hsl, Bool.eqb_reflx in Ea]. apply Hstorage; [done|cbn; lia|left; cbn; lia|done].
  - destruct Hsl as [Hsl|[_ Hsl]]; [|done]. apply Hstorage; [|..|done].
    + rewrite note_arena. by destruct (used_as_prototype _).
    + rewrite note_epoch. destruct (used_as_prototype _); cbn; lia.
    + rewrite note_epoch. destruct (used_as_prototype _); [left; cbn; lia|by right].
Qed.

(** ** Deleting *)

Lemma remove_words d name : same_words d (fst (remove symbol_address d name)) /\ nextSlot (fst (remove symbol_address d name)) = nextSlot d.
Proof.
  unfold remove. destruct (find symbol_address d name) as [pos|]; [|split; [split_and!|]; done]. cbn [fst].
  set (d1 := if negb (accessor (entryAt d pos)) then _ else d).
  assert (same_words d d1 /\ nextSlot d1 = nextSlot d) as [W N] by (unfold d1; by destruct (accessor (entryAt d pos))).
  set (d2 := with_index (with_entries d1 _) _ _ _). assert (same_words d d2 /\ nextSlot d2 = nextSlot d) as [W2 N2] by done.
  destruct (_ && _); [|done]. unfold compact.
  destruct (dict_reindex_spec symbol_address (with_entries d2 (List.filter live (entries d2)))) as [(_ & _ & E1 & E2 & E3 & E4 & E5) _].
  unfold same_words in *. rewrite E1, E2, E3, E4, E5. done.
Qed.

Definition others_than (name : PropertyKey) : list DictEntry -> list DictEntry := List.filter (fun e => negb (keyed name e)).

Lemma others_than_none name es : (forall e, In e es -> key e <> name) -> others_than name es = es.
Proof.
  intros H. apply List.forallb_filter_id, forallb_forall. intros e He. unfold keyed. rewrite bool_decide_eq_false_2; [done|]. by apply H.
Qed.

Lemma find_keyed_dict d name : dict_ok symbol_address d -> valid name = true ->
  List.find (keyed name) (props d) = option_map (entryAt d) (find symbol_address d name).
Proof.
  intros Hok Hv. pose proof (dict_find_spec symbol_address d name Hv (Dictionary.ok_index _ _ Hok)) as Hf.
  destruct (find symbol_address d name) as [pos|]; cbn.
  - destruct Hf as [Hl Hk]. destruct (props_split d pos Hl) as (l1 & l2 & E & _). pose proof (Dictionary.ok_names _ _ Hok) as Hn.
    rewrite E in *. rewrite map_app in Hn. cbn in Hn. apply NoDup_app in Hn as (_ & H1 & _).
    assert (forall e, In e l1 -> key e <> name) as Hne.
    { intros e He Ek. apply (H1 name); [rewrite <- Ek; apply list_elem_of_In; by apply in_map|rewrite Hk; by left]. }
    clear -Hne Hk. induction l1 as [|x l1 IH]; cbn; unfold keyed at 1.
    + by rewrite bool_decide_eq_true_2.
    + rewrite bool_decide_eq_false_2 by (apply Hne; by left). apply IH. intros e He. apply Hne. by right.
  - destruct (List.find (keyed name) (props d)) as [e|] eqn:E; [|done]. apply List.find_some in E as [He Hk%bool_decide_eq_true]. by destruct (Hf e He).
Qed.

(** Removing the entry of a name from a table. *)
Lemma remove_entry d name pos : dict_ok symbol_address d -> valid name = true -> find symbol_address d name = Some pos ->
  let '(d', answer) := remove symbol_address d name in
  dict_ok symbol_address d' /\ answer = true /\ props d' = others_than name (props d) /\
  (forall s, In s (slots_of (props d')) -> ~ In s (own_slots (entryAt d pos))).
Proof.
  intros Hok Hv Ef. pose proof (remove_spec symbol_address d name pos Hok Hv Ef) as H.
  pose proof (dict_find_spec symbol_address d name Hv (Dictionary.ok_index _ _ Hok)) as Hf. rewrite Ef in Hf. destruct Hf as [Hl Hk].
  destruct (remove symbol_address d name) as [d' answer]. destruct H as (H1 & H2 & H3).
  destruct (props_split d pos Hl) as (l1 & l2 & E & E'). destruct (H3 l1 l2 E E') as [Ep Hd]. split_and!; try done.
  pose proof (Dictionary.ok_names _ _ Hok) as Hn. rewrite E in *. rewrite map_app in Hn. cbn in Hn. apply NoDup_app in Hn as (_ & N1 & [N2 _]%NoDup_cons).
  rewrite Hk in *. rewrite Ep. unfold others_than. rewrite List.filter_app. cbn. unfold keyed at 2. rewrite bool_decide_eq_true_2 by done. cbn.
  fold (others_than name l1) (others_than name l2). rewrite !others_than_none; [done|..]; intros e He Ek.
  - apply N2. rewrite <- Ek. apply list_elem_of_In. by apply in_map.
  - apply (N1 name); [rewrite <- Ek; apply list_elem_of_In; by apply in_map|by left].
Qed.

Record deleted (w : World) (i : nat) (o : Object) (name : PropertyKey) (w' : World) (o' : Object) (b : bool) : Prop := {
  del_ok : world_ok w';
  del_stable : stable w w';
  del_others : others w w' i;
  del_at : object_at w' i = Some o';
  del_proto : prototypeValue (rt w') (shape o') = prototypeValue (rt w) (shape o);
  del_entries : match List.find (keyed name) (entries_of (rt w) (shape o)) with
    | None => b = true /\ w' = w
    | Some e => b = configurable e /\
        if configurable e then entries_of (rt w') (shape o') = others_than name (entries_of (rt w) (shape o)) /\
          forall s, In s (slots_of (entries_of (rt w') (shape o'))) -> slotsData o' s = slotsData o s
        else w' = w
    end
}.

(** Clearing the slots of an entry. *)
Lemma clear_slots_ok {A} w i o e (x : A) : world_ok w -> object_at w i = Some o -> 0 <= slot e ->
  slot e + slotWidth (accessor e) <= kOverflowSlot + overflowCapacity o ->
  exists w' o', (let? w := setSlot w i (slot e) VUndefined in
    if accessor e then let? w := setSlot w i (slot e + 1) VUndefined in Some (w, x) else Some (w, x)) = Some (w', x) /\
    rewritten w i o w' o' /\ forall s, ~ In s (own_slots e) -> slotsData o' s = slotsData o s.
Proof.
  intros Hok Ho H0 H1. unfold own_slots.
  destruct (setSlot_rewritten w i o (slot e) VUndefined Hok Ho) as (w1 & o1 & E1 & R1 & S1); [destruct (accessor e); cbn in H1; lia|].
  rewrite E1. destruct (accessor e); cbn [slotWidth] in H1.
  - destruct (setSlot_rewritten w1 i o1 (slot e + 1) VUndefined) as (w2 & o2 & E2 & R2 & S2); [apply R1|apply R1|rewrite (rw_capacity _ _ _ _ _ R1); lia|].
    rewrite E2. exists w2, o2. split_and!; [done|by eapply rewritten_trans|].
    intros s Hs. rewrite S2, S1. cbn in Hs. zbool; try done; subst; tauto.
  - exists w1, o1. split_and!; [done..|]. intros s Hs. rewrite S1. cbn in Hs. zbool; [subst; tauto|done].
Qed.

Lemma set_object_back w i o r : object_at w i = Some o -> set_object i o (with_runtime r w) = with_runtime r w.
Proof. intros H. by apply (set_object_id (with_runtime r w)). Qed.

(** The epoch a change to a prototype's own properties advances. *)
Definition bump_used (w : World) (o : Object) : World :=
  if used_as_prototype (shape_of w o) then with_runtime (bumpProtoMutationEpoch (rt w)) w else w.

Record bumped (w : World) (i : nat) (o : Object) (w' : World) : Prop := {
  bump_ok : world_ok w';
  bump_stable : stable w w';
  bump_others : others w w' i;
  bump_at : object_at w' i = Some o;
  bump_shape : shape_of w' o = shape_of w o;
  bump_entries : forall s, entries_of (rt w') s = entries_of (rt w) s /\ prototypeValue (rt w') s = prototypeValue (rt w) s /\
    shape_dict (shape_at (rt w') s) = shape_dict (shape_at (rt w) s);
  bump_epoch : used_as_prototype (shape_of w o) = true -> since < proto_epoch (rt w')
}.

Lemma bump_used_ok w i o : world_ok w -> since <= proto_epoch (rt w) -> object_at w i = Some o -> bumped w i o (bump_used w o).
Proof.
  intros Hok Hsi Ho. unfold bump_used. destruct (used_as_prototype (shape_of w o)) eqn:Eu; [|by constructor; rewrite ?Eu].
  destruct (epoch_ok None None w (bumpProtoMutationEpoch (rt w)) Hok eq_refl ltac:(cbn; lia)) as (A1 & A2 & A3).
  constructor; try exact A3; try done. intros _; cbn; lia.
Qed.

Lemma deleteProperty_ok w i o name : world_ok w -> since <= proto_epoch (rt w) -> object_at w i = Some o -> valid name = true ->
  exists w' o' b, deleteProperty symbol_address w i name = Some (w', b) /\ deleted w i o name w' o' b.
Proof.
  intros Hok Hsi Ho Hv. unfold deleteProperty. rewrite Ho. pose proof (ok_objects _ _ _ Hok i o Ho) as [Hs0 _ _ _].
  pose proof (lookup_entry (symbol_address := symbol_address) (rt w) (shape o) name (ok_runtime _ _ _ Hok) Hs0
    (fun d Hd => table_dict _ _ (table_shape_ok _ _ _ Hok Hs0 Hd)) Hv) as Hlk.
  destruct (lookupProperty symbol_address (rt w) (shape o) name) as [[e dbl]|] eqn:El; cbn in Hlk; symmetry in Hlk.
  2: { exists w, o, true. split; [done|]. constructor; try done. by rewrite Hlk. }
  destruct (configurable e) eqn:Ec; cbn [negb].
  2: { exists w, o, false. split; [done|]. constructor; try done. by rewrite Hlk, Ec. }
  destruct (bump_used_ok w i o Hok Hsi Ho) as [Hok0 St0 Hot0 Ho0 Hsh0 Hs0' Hu0]. set (w0 := bump_used w o) in *.
  change (if used_as_prototype (shape_of w o) then _ else w) with w0.
  destruct (toDictionary_ok None w0 i o Delete Hok0 Ho0) as (w1 & o1 & d & E1 & Hdem). rewrite E1.
  destruct (demoted_table _ _ _ _ _ _ Hdem) as [Hobj Htab]. destruct Hdem as [Hok1 St1 Ot1 At1 D1 _ Ent1 Sl1 Mk1 Pr1]. rewrite At1, D1.
  rewrite (proj1 (Hs0' (shape o))) in Ent1. pose proof (table_dict _ _ Htab) as Hd.
  pose proof (find_keyed_dict d name Hd Hv) as Hfd. rewrite Ent1, Hlk in Hfd. destruct (find symbol_address d name) as [pos|] eqn:Ef; [|done].
  cbn in Hfd. injection Hfd as He. pose proof (remove_entry d name pos Hd Hv Ef) as Hrem. pose proof (remove_words d name) as Hw.
  destruct (remove symbol_address d name) as [d' answer]. destruct Hrem as (Hd' & -> & Hp' & Hdis). destruct Hw as [(Wi & Wx & Wl & Wh) Wn].
  cbn [fst] in *. rewrite <- He in Hdis.
  assert (In e (props d)) as Hin by (rewrite Ent1; by apply List.find_some in Hlk as [? _]).
  assert (level d <> Frozen) as Hnf.
  { intros Hl. destruct (table_frozen _ _ Htab Hl) as [_ Hall]. rewrite Forall_forall in Hall. rewrite (Hall e) in Ec; [done|]. by apply list_elem_of_In. }
  pose proof (table_storage (rt w1) o1 d Hobj D1) as Hroom. destruct (entry_below d e Hd Hin) as [B0 B1].
  destruct (table_step w1 i o1 o1 d d' (edit (with_dictionary d') (shape o1) (rt w1)) Hok1 At1 D1) as [T1 T2 T3 T4 T5 T6 T7]; try done; try lia.
  { constructor; [done|rewrite Wi; apply Htab|]. rewrite Wl. done. }
  { apply Hobj. }
  { destruct (used_as_prototype (shape_of w o)) eqn:Eu; [left; specialize (Hu0 eq_refl)|right; left; by rewrite Mk1, Hsh0].
    pose proof (st_epoch _ _ St1). cbn. lia. }
  rewrite set_object_back in * by done.
  set (w2 := with_runtime _ w1) in *. destruct (clear_slots_ok w2 i o1 e true T1 T4 B0 ltac:(lia)) as (w' & o' & E' & [C1 C2 C3 C4 C5 _ _ _ C7] & C6).
  rewrite E'. exists w', o', true. split; [done|].
  assert (entries_of (rt w') (shape o') = others_than name (entries_of (rt w) (shape o))) as Hent.
  { rewrite C5. unfold entries_of at 1. unfold shape_of in T5. rewrite T5, Hp'. by rewrite Ent1. }
  constructor; try done.
  - etransitivity; [exact St0|]. etransitivity; [exact St1|]. etransitivity; [exact T2|done].
  - eapply others_trans; [exact Hot0|]. eapply others_trans; [exact Ot1|]. by eapply others_trans.
  - rewrite C7. etransitivity; [exact T7|]. rewrite Pr1. apply Hs0'.
  - rewrite Hlk, Ec. split; [done|]. split; [done|]. intros s Hs. rewrite C6, Sl1; [done|].
    apply Hdis. rewrite Hp', Ent1, <- Hent. done.
Qed.
End Steps.
