(* ===== verification/ObjectAdds.v ===== *)
(** * Adding to objects, and prototypes

    The additions on the transition tree, accessors, the marking of prototypes and the
    creation of roots and objects, as ObjectSteps.v does for the operations of
    dictionary mode. *)
From S2P Require Import Prelude Float64 Values Dictionary Shapes Objects ObjectSteps.
Local Open Scope Z_scope.
Local Open Scope bool_scope.

Section Adds.
Context {symbol_address : nat -> Z} {since : Z}.
#[local] Notation world_but := (Objects.world_but symbol_address).
#[local] Notation world_ok := (Objects.world_ok symbol_address).
#[local] Notation table_ok := (Objects.table_ok symbol_address).
#[local] Notation stable := (Objects.stable symbol_address since).
#[local] Notation evolution := (Objects.evolution symbol_address since).
#[local] Notation slot_stored := (Objects.slot_stored symbol_address since).
#[local] Notation rewritten := (Objects.rewritten symbol_address since).
#[local] Notation setSlot_rewritten := (@Objects.setSlot_rewritten symbol_address since).
#[local] Notation setSlot_ok := (@Objects.setSlot_ok symbol_address since).
#[local] Notation toDictionary_ok := (@ObjectSteps.toDictionary_ok symbol_address since).
#[local] Existing Instance plain_preorder.

(** ** Landing on a child *)

(** Object [i] has moved to a shape one property longer, whose slot is still to be
    written. *)
Record landed (w : World) (i : nat) (o : Object) (n : nat) (e : DictEntry) (w' : World) (o' : Object) : Prop := {
  land_ok : world_but (Some (i, slot e)) None w';
  land_stable : stable w w';
  land_others : others w w' i;
  land_at : object_at w' i = Some o';
  land_shape : shape o' = n;
  land_entries : entries_of (rt w') n = entries_of (rt w) (shape o) ++ [e];
  land_slots : forall s, In s (slots_of (entries_of (rt w) (shape o))) -> slotsData o' s = slotsData o s /\ ~ In s (own_slots e);
  land_room : 0 <= slot e /\ slot e + slotWidth (accessor e) <= kOverflowSlot + overflowCapacity o';
  land_dict : isDictionary (shape_of w' o') = false;
  land_mark : used_as_prototype (shape_of w' o') = used_as_prototype (shape_of w o);
  land_proto : prototypeValue (rt w') (shape o') = prototypeValue (rt w) (shape o)
}.

Lemma child_double ps s keys k : child_ok keys ps s -> 0 <= k -> 0 <= slot (node_own s) -> k <> slot (node_own s) ->
  slotIsDouble s k = slotIsDouble ps k.
Proof.
  intros [] H0 H1 Hne. rewrite !slotIsDouble_spec by done. f_equal. rewrite child_doubles, Z.lor_spec.
  destruct (bool_decide _); [|by rewrite Z.testbit_0_l, orb_false_r]. by rewrite Z.shiftl_1_l, Z.pow2_bits_false, orb_false_r by lia.
Qed.

(** The slots read as doubles are among those of the properties. *)
Lemma double_slot_end r s k : runtime_ok r -> (s < next_id r)%nat -> 0 <= k -> slotIsDouble (shape_at r s) k = true ->
  k < slotEnd (shape_at r s).
Proof.
  intros Hok Hs Hk. rewrite double_slots_summary by done. intros (p & Hp & [E%Z.eqb_eq _]%andb_true_iff)%existsb_exists.
  destruct (layout_slots r s Hok Hs) as [_ L _]. apply (L k). apply in_slots_of. exists (ientry p).
  split; [by apply in_map|]. unfold own_slots. destruct (accessor _); left; exact E.
Qed.

Lemma entries_tree r s : isDictionary (shape_at r s) = false -> entries_of r s = layout_entries r s.
Proof. unfold isDictionary, entries_of. by destruct (shape_dict (shape_at r s)). Qed.

Lemma land_step w i o n e r' : world_ok w -> object_at w i = Some o -> isDictionary (shape_of w o) = false ->
  runtime_ok r' -> frame (rt w) r' -> plain (rt w) r' -> proto_epoch (rt w) <= proto_epoch r' ->
  (n < next_id r')%nat -> parent (shape_at r' n) = Some (shape o) -> node_own (shape_at r' n) = e -> isDictionary (shape_at r' n) = false ->
  used_as_prototype (shape_at r' n) = used_as_prototype (shape_at r' (shape o)) ->
  (used_as_prototype (shape_of w o) = true -> since < proto_epoch r') ->
  exists w' o', (let? w := ensureSlots (with_runtime r' w) i (slot e + slotWidth (accessor e)) in
    let? o := object_at w i in Some (set_object i (with_shape n o) w)) = Some w' /\ landed w i o n e w' o'.
Proof.
  intros Hok Ho Hd Hr' Hf Hpl Hep Hn Hp He Hdn Hmk Hu. pose proof (ok_objects _ _ _ Hok i o Ho) as [Hs0 Hc0 Hst0 Hdb0].
  pose proof (ok_runtime _ _ _ Hok) as Hr. pose proof (ok_parents_down _ Hr) as Hdown. pose proof (ok_parents_down _ Hr') as Hdown'.
  pose proof (proj2 Hf _ Hs0) as Hsame. pose proof (ok_child _ _ (ok_nodes _ Hr' n Hn) _ Hp) as Hch.
  destruct (same_entries (rt w) r' (shape o) Hr Hr' Hf Hs0) as (Een & Eend & Epv).
  assert (layout_entries r' n = layout_entries r' (shape o) ++ [e]) as Hlay.
  { unfold layout_entries. rewrite (layout_parent r' n (shape o)) by done. rewrite map_app. cbn. by rewrite He. }
  assert (isDictionary (shape_at r' (shape o)) = false) as Hd' by (by rewrite (same_dictionary _ _ Hsame)).
  assert (entries_of r' n = entries_of (rt w) (shape o) ++ [e]) as Hentries by (rewrite <- Een, !entries_tree by done; done).
  assert (slotEnd (shape_at r' n) = slot e + slotWidth (accessor e)) as Hend.
  { unfold slotEnd. rewrite He. pose proof (child_key _ _ _ Hch) as Hk. rewrite He in Hk. by rewrite Hk. }
  destruct (layout_slots r' n Hr' Hn) as [L1 L2 _]. rewrite Hlay in L1, L2. rewrite slots_of_app in L1.
  assert (0 <= slot e) as He0.
  { destruct (L2 (slot e)) as [H _]; [|lia]. rewrite slots_of_app. apply in_or_app. right. unfold slots_of. cbn. rewrite app_nil_r. unfold own_slots. destruct (accessor e); by left. }
  destruct (ensureSlots_eq (with_runtime r' w) i o (slot e + slotWidth (accessor e)) Ho Hc0) as (o1 & Ee & [Q1 Q2 Q3 Q4 Q5]). rewrite Ee.
  rewrite (object_at_same _ i o o1) by done. rewrite set_object_twice. set (o' := with_shape n o1).
  assert (prototypeValue r' n = prototypeValue (rt w) (shape o)) as Hpv.
  { rewrite <- Epv. unfold prototypeValue. by rewrite (child_root _ _ _ Hch). }
  assert (evolution None w i o o' r' (Some (slot e))) as Hev.
  { apply (plain_evolution None); try done; cbn [o' with_shape shape].
    - constructor; cbn [o' with_shape shape overflowCapacity slotsData]; [done|lia| |].
      + unfold storage_end. unfold isDictionary in Hdn. destruct (shape_dict (shape_at r' n)); [done|]. rewrite Hend. lia.
      + intros k Hk Hne Hdk. rewrite (child_double _ _ _ k Hch Hk) in Hdk by (rewrite He; congruence).
        unfold slotIsDouble in Hdk. rewrite (same_doubles _ _ Hsame) in Hdk. destruct (Hdb0 k Hk ltac:(done) Hdk) as (v & Hv).
        exists v. rewrite Q4; [done|]. pose proof (double_slot_end _ _ k Hr Hs0 Hk Hdk). unfold storage_end, isDictionary, shape_of in *.
        destruct (shape_dict _); [done|]. lia.
    - rewrite Hmk. by rewrite (same_mark _ _ Hsame).
    - by rewrite Hdn.
    - destruct (used_as_prototype (shape_of w o)) eqn:Eu; [left; by apply Hu|right; by left]. }
  destruct (evolve None None w i o o' r' (Some (slot e)) Hok Ho Hev) as (Hok' & Hst & Hot & Hat).
  exists (set_object i o' (with_runtime r' w)), o'. split; [done|]. constructor; try done.
  - intros s Hs. rewrite <- Een, entries_tree in Hs by done. split.
    + cbn. apply Q4. destruct (layout_slots r' (shape o) Hr' ltac:(destruct Hf; lia)) as [_ M _]. destruct (M s Hs) as [Hm _].
      unfold storage_end in Eend, Hst0. unfold isDictionary, shape_of in *. destruct (shape_dict (shape_at r' (shape o))); [done|].
      destruct (shape_dict (shape_at (rt w) (shape o))); [done|]. lia.
    + intros Hin. apply NoDup_app in L1 as (_ & L1 & _). apply (L1 s); apply list_elem_of_In; [done|]. unfold slots_of. cbn. by rewrite app_nil_r.
  - unfold shape_of. cbn. rewrite Hmk. by rewrite (same_mark _ _ Hsame).
Qed.

Lemma add_on_tree_ok w i o name en acc wr conf desired : world_ok w -> since <= proto_epoch (rt w) -> object_at w i = Some o ->
  isDictionary (shape_of w o) = false -> valid name = true -> name ∉ layout_keys (rt w) (shape o) ->
  slotsUsedAfterAdd (shape_of w o) (slotWidth acc) <= kDictionaryThreshold ->
  exists w' o' n slot_, add_on_tree w i name en acc wr conf desired = Some (w', slot_) /\
    landed w i o n (mkEntry name slot_ en acc wr conf) w' o'.
Proof.
  intros Hok Hsi Ho Hd Hv Hfresh Hth. unfold add_on_tree. rewrite Ho. pose proof (ok_objects _ _ _ Hok i o Ho) as [Hs0 _ _ _].
  set (r0 := if used_as_prototype (shape_of w o) then _ else rt w). pose proof (ok_runtime _ _ _ Hok) as Hr.
  assert (arena r0 = arena (rt w)) as Ea by apply bump_if_arena.
  assert (proto_epoch (rt w) <= proto_epoch r0) as Ee by apply bump_if_epoch.
  assert (used_as_prototype (shape_of w o) = true -> since < proto_epoch r0) as Hu0 by (unfold r0; intros ->; cbn; lia).
  assert (runtime_ok r0) as Hr0 by (by apply (same_arena_ok (rt w))).
  destruct (addPropertyKey_added r0 (shape o) name en acc wr conf desired Hr0) as (r1 & n & E & Hr1 & Hf1 & He1 & Happ & _); try done.
  { by rewrite (same_arena_next (rt w)). }
  { by rewrite (same_arena_at (rt w)). }
  { unfold layout_keys in *. by rewrite (layout_arena (rt w)). }
  { by rewrite (same_arena_at (rt w)). }
  rewrite addProperty_key, E. set (e := added_entry r0 (shape o) name en acc wr conf) in *. set (r2 := noteShapeLeave (shape o) Add r1).
  assert (arena r2 = arena r1) as E2 by apply leave_arena. pose proof (leave_epoch (shape o) Add r1) as Hl. fold r2 in Hl.
  apply (appends_arena r1 r2) in Happ; [|done].
  destruct (land_step w i o n e r2 Hok Ho Hd) as (w' & o' & Ew & Hland); try apply Happ.
  - by apply (same_arena_ok r1).
  - transitivity r0; [by apply same_arena_frame|]. transitivity r1; [done|by apply same_arena_frame].
  - transitivity r0; [by apply plain_arena|]. transitivity r1; [by apply plain_add in E|by apply plain_arena].
  - lia.
  - intros Hu. specialize (Hu0 Hu). lia.
  - exists w', o', n, (slot e). split; [|done]. change (slotWidth acc) with (slotWidth (accessor e)).
    destruct (ensureSlots (with_runtime r2 w) i (slot e + slotWidth (accessor e))) as [w1|]; [|done].
    destruct (object_at w1 i) as [o1|]; [|done]. by injection Ew as ->.
Qed.

(** ** The ordered property list *)

Lemma entries_ok loose w i o : world_but None loose w -> object_at w i = Some o ->
  NoDup (map key (entries_of (rt w) (shape o))) /\ NoDup (slots_of (entries_of (rt w) (shape o))) /\
  forall e, In e (entries_of (rt w) (shape o)) -> valid (key e) = true /\
    0 <= slot e /\ slot e + slotWidth (accessor e) <= kOverflowSlot + overflowCapacity o.
Proof.
  intros Hok Ho. pose proof (ok_objects _ _ _ Hok i o Ho) as [Hs _ Hst _]. pose proof (ok_runtime _ _ _ Hok) as Hr.
  unfold entries_of, storage_end in *. destruct (shape_dict (shape_at (rt w) (shape o))) as [d|] eqn:Ed.
  - destruct (ok_tables _ _ _ Hok _ d Hs Ed) as [Hd _ _]. destruct Hd as [Hi Hsl Hn Hb]. split_and!; [done| |].
    + pose proof (slots_distinct _ _ Hsl) as Hd'. cbn in Hd'. unfold taken in Hd'. by apply NoDup_app in Hd' as [? _].
    + intros e He. split; [by apply filter_In in He as [_ ?]|]. destruct (entry_below (symbol_address := symbol_address) d e); [by constructor|done|lia].
  - destruct (layout_valid_keys _ _ Hr Hs) as [K1 K2]. destruct (layout_slots _ _ Hr Hs) as [L1 L2 _].
    assert (map key (layout_entries (rt w) (shape o)) = layout_keys (rt w) (shape o)) as Ek by (unfold layout_entries, layout_keys; by rewrite map_map).
    split_and!; [by rewrite Ek|done|]. intros e He. split.
    + rewrite <- Ek in K2. rewrite Forall_forall in K2. apply K2. apply list_elem_of_In. by apply in_map.
    + pose proof (own_slots_last e). destruct (L2 (slot e + slotWidth (accessor e) - 1)); [apply in_slots_of; by exists e|].
      destruct (L2 (slot e)); [|lia]. apply in_slots_of. exists e. split; [done|]. unfold own_slots. destruct (accessor e); by left.
Qed.

(** The property of a name has new values. *)
Definition set_values (name : PropertyKey) (vals : list Value) : list Property -> list Property :=
  map (fun p => if named name p then mkProperty (pname p) (penumerable p) (paccessor p) (pwritable p) (pconfigurable p) vals else p).

Lemma slots_disjoint es x e s : NoDup (slots_of es) -> In x es -> In e es -> In s (own_slots x) -> In s (own_slots e) -> x = e.
Proof.
  intros Hn Hx He Hsx Hse. induction es as [|y es IH]; [done|]. unfold slots_of in Hn. cbn in Hn. apply NoDup_app in Hn as (_ & Hd & Hn).
  assert (forall z, In z es -> In s (own_slots z) -> In s (own_slots y) -> False) as Hno.
  { intros z Hz Hsz Hsy. apply (Hd s); apply list_elem_of_In; [done|]. apply in_slots_of. by exists z. }
  destruct Hx as [->|Hx], He as [->|He]; [done|exfalso; by eapply Hno..|by apply IH].
Qed.

Lemma own_rewritten w i o w' o' e : world_ok w -> object_at w i = Some o -> object_at w' i = Some o' ->
  entries_of (rt w') (shape o') = entries_of (rt w) (shape o) -> In e (entries_of (rt w) (shape o)) ->
  (forall s, In s (slots_of (entries_of (rt w) (shape o))) -> ~ In s (own_slots e) -> slotsData o' s = slotsData o s) ->
  own w' i = set_values (key e) (map (slotsData o') (own_slots e)) (own w i).
Proof.
  intros Hok Ho Ho' Een He Hs. destruct (entries_ok None w i o Hok Ho) as (K & Sl & _). unfold own, set_values. rewrite Ho, Ho', Een, map_map.
  apply map_ext_in. intros x Hx. unfold named. cbn [view_in view pname]. case_bool_decide as Ek.
  - assert (x = e) as ->; [|done]. clear -K Hx He Ek. induction (entries_of (rt w) (shape o)) as [|y es IH]; [done|].
    cbn in K. apply NoDup_cons in K as [Hy K]. destruct Hx as [->|Hx], He as [->|He]; [done| | |by apply IH];
      exfalso; apply Hy, list_elem_of_In; [rewrite Ek|rewrite <- Ek]; by apply in_map.
  - unfold view_in, view. f_equal. cbn. apply map_ext_in. intros s Hin. apply Hs.
    + apply in_slots_of. by exists x.
    + intros Hin'. apply Ek. by rewrite (slots_disjoint _ x e s Sl Hx He Hin Hin').
Qed.

(** ** Accessors *)

Definition half (old new : Value) : Value := if isUndefined new then old else new.
Definition halves (getter setter : Value) (vals : list Value) : list Value :=
  match vals with [g; s] => [half g getter; half s setter] | vals => vals end.

(** A function, or [undefined]. *)
Definition is_half (v : Value) : Prop := slotReprAcceptsValue v = false.

Lemma write_halves_ok w i o slot_ getter setter : world_ok w -> object_at w i = Some o -> is_half getter -> is_half setter ->
  0 <= slot_ -> slot_ + 2 <= kOverflowSlot + overflowCapacity o ->
  exists w' o', write_halves w i slot_ getter setter = Some w' /\ rewritten w i o w' o' /\
    slotsData o' slot_ = half (slotsData o slot_) getter /\ slotsData o' (slot_ + 1) = half (slotsData o (slot_ + 1)) setter /\
    forall s, s <> slot_ -> s <> slot_ + 1 -> slotsData o' s = slotsData o s.
Proof.
  intros Hok Ho Hg Hs H0 H1. unfold write_halves, half.
  assert (exists w1 o1, (if isUndefined getter then Some w else setSlot w i slot_ getter) = Some w1 /\ rewritten w i o w1 o1 /\
    slotsData o1 slot_ = (if isUndefined getter then slotsData o slot_ else getter) /\ forall s, s <> slot_ -> slotsData o1 s = slotsData o s)
    as (w1 & o1 & E1 & R1 & G1 & S1).
  { destruct (isUndefined getter); [exists w, o; split_and!; try done; by apply rewritten_refl|].
    destruct (setSlot_rewritten w i o slot_ getter Hok Ho ltac:(lia)) as (w1 & o1 & E1 & R1 & S1). exists w1, o1. split_and!; try done.
    - by rewrite S1, Z.eqb_refl, stored_form_id by (by left).
    - intros s Hne. rewrite S1. by rewrite (proj2 (Z.eqb_neq s slot_)). }
  rewrite E1. destruct (isUndefined setter).
  - exists w1, o1. split_and!; try done; [|by intros; apply S1]. apply S1. lia.
  - destruct (setSlot_rewritten w1 i o1 (slot_ + 1) setter) as (w2 & o2 & E2 & R2 & S2); [apply R1|apply R1|rewrite (rw_capacity _ _ _ _ _ R1); lia|].
    exists w2, o2. split_and!; [done|by eapply rewritten_trans|..].
    + rewrite S2, (proj2 (Z.eqb_neq slot_ (slot_ + 1))) by lia. done.
    + by rewrite S2, Z.eqb_refl, stored_form_id by (by left).
    + intros s Hne Hne'. rewrite S2, (proj2 (Z.eqb_neq s (slot_ + 1))) by done. by apply S1.
Qed.

(** What an object's properties become, and what stays around it. *)
Record edited (w : World) (i : nat) (o : Object) (w' : World) (o' : Object) : Prop := {
  edit_ok : world_ok w';
  edit_stable : stable w w';
  edit_others : others w w' i;
  edit_at : object_at w' i = Some o';
  edit_mark : used_as_prototype (shape_of w' o') = used_as_prototype (shape_of w o);
  edit_proto : prototypeValue (rt w') (shape o') = prototypeValue (rt w) (shape o)
}.

Lemma edited_trans w1 w2 w3 i o1 o2 o3 : edited w1 i o1 w2 o2 -> edited w2 i o2 w3 o3 -> edited w1 i o1 w3 o3.
Proof. intros [] []. constructor; try done; [by etransitivity|by eapply others_trans|congruence..]. Qed.

Lemma rewritten_edited w i o w' o' : rewritten w i o w' o' -> edited w i o w' o'.
Proof. intros []. by constructor. Qed.

Lemma halves_edited w i o e getter setter : world_ok w -> object_at w i = Some o -> is_half getter -> is_half setter ->
  In e (entries_of (rt w) (shape o)) -> accessor e = true ->
  exists w' o', write_halves w i (slot e) getter setter = Some w' /\ rewritten w i o w' o' /\
    own w' i = set_values (key e) (halves getter setter (map (slotsData o) (own_slots e))) (own w i).
Proof.
  intros Hok Ho Hg Hs He Ha. destruct (entries_ok None w i o Hok Ho) as (_ & _ & Hb). destruct (Hb e He) as (_ & B0 & B1). rewrite Ha in B1.
  destruct (write_halves_ok w i o (slot e) getter setter Hok Ho Hg Hs B0 B1) as (w' & o' & E & R & G & S1 & S2).
  exists w', o'. split_and!; [done..|]. rewrite (own_rewritten w i o w' o' e Hok Ho (rw_at _ _ _ _ _ R) (rw_entries _ _ _ _ _ R) He).
  - unfold own_slots. rewrite Ha. cbn. by rewrite G, S1.
  - intros s _. unfold own_slots. rewrite Ha. cbn. intros Hn. apply S2; intros ->; apply Hn; [by left|by right; left].
Qed.

Lemma own_table w i o ho : object_at w i = Some o -> shape_dict (shape_of w o) = Some (dict ho) ->
  (forall s, In s (slots_of (props (dict ho))) -> slotsData o s = slots ho s) -> own w i = Dictionary.own ho.
Proof.
  intros Ho Hd Hs. unfold own. rewrite Ho. unfold entries_of, shape_of in *. rewrite Hd. unfold Dictionary.own. apply map_ext_in.
  intros e He. unfold view_in, view. f_equal. cbn. apply map_ext_in. intros s Hin. apply Hs. apply in_slots_of. by exists e.
Qed.

Lemma own_names w i o : world_ok w -> object_at w i = Some o -> NoDup (map pname (own w i)).
Proof. intros Hok Ho. unfold own. rewrite Ho, map_map. cbn. by destruct (entries_ok None w i o Hok Ho) as (? & _). Qed.

Lemma set_values_absent name vals l : (forall p, In p l -> pname p <> name) -> set_values name vals l = l.
Proof.
  intros H. unfold set_values. rewrite <- (map_id l) at 2. apply map_ext_in. intros p Hp. by rewrite (proj2 (named_false name p) (H p Hp)).
Qed.

Lemma set_values_define name en acc vals vals' l : NoDup (map pname l) ->
  set_values name vals' (define_property name en acc vals l) = define_property name en acc vals' l.
Proof.
  induction l as [|p l IH]; intros Hn; cbn.
  - unfold named. cbn. by rewrite bool_decide_eq_true_2.
  - cbn in Hn. apply NoDup_cons in Hn as [Hp Hn]. destruct (named name p) eqn:Ep; cbn.
    + unfold named at 1. cbn. rewrite bool_decide_eq_true_2 by done. f_equal. apply set_values_absent. intros q Hq Eq.
      apply Hp, list_elem_of_In. apply bool_decide_eq_true in Ep. rewrite Ep, <- Eq. by apply in_map.
    + rewrite Ep, IH by done. done.
Qed.

Lemma find_own w i o name : object_at w i = Some o ->
  List.find (named name) (own w i) = option_map (view_in (slotsData o)) (List.find (keyed name) (entries_of (rt w) (shape o))).
Proof.
  intros Ho. unfold own. rewrite Ho. induction (entries_of (rt w) (shape o)) as [|e es IH]; [done|]. cbn.
  unfold named at 1, keyed at 1. cbn. by destruct (bool_decide _).
Qed.

Lemma table_edited w i o acc ho out w' o' : table_defined (symbol_address := symbol_address) (since := since) w i o acc ho out w' o' -> edited w i o w' o'.
Proof. intros []. by constructor. Qed.

(** A pair defined in a table, where the name has none yet. *)
Lemma define_pair_ok w i o d name en getter setter : world_ok w -> since <= proto_epoch (rt w) -> object_at w i = Some o ->
  shape_dict (shape_of w o) = Some d -> valid name = true -> definable (symbol_address := symbol_address) d name true -> is_half getter -> is_half setter ->
  match List.find (named name) (own w i) with Some p => paccessor p = false | None => True end ->
  exists w' o', (let? (w, slot_) := dictDefine symbol_address w i name en true in
    let? w := write_halves w i slot_ getter setter in Some (w, true)) = Some (w', true) /\ edited w i o w' o' /\
    own w' i = define_property name en true (halves getter setter [VUndefined; VUndefined]) (own w i) /\
    isDictionary (shape_of w' o') = true.
Proof.
  intros Hok Hsi Ho Hd Hv Hdef Hg Hs Hnone. pose proof (ok_objects _ _ _ Hok i o Ho) as [Hs0 _ _ _].
  set (h := mkObject d (slotsData o)). assert (own w i = Dictionary.own h) as Hown by (by apply (own_table w i o h)).
  pose proof (dictDefine_ok w i o d name en true Hok Hsi Ho Hd Hv Hdef) as HD. fold h in HD.
  pose proof (table_dict _ _ (table_shape_ok _ _ _ Hok Hs0 Hd)) as Hdok.
  pose proof (dictDefine_table (symbol_address := symbol_address) h name en true Hdok Hv) as Hdin.
  pose proof (property_define_refines symbol_address h name en true [VUndefined; VUndefined] Hdok Hv eq_refl) as Href.
  destruct (Dictionary.dictDefine symbol_address h name en true) as [ho out]. destruct HD as (w1 & o1 & -> & Htd).
  destruct Href as (_ & _ & Hkept). destruct Hdin as (l1 & l2 & e & [_ _ Ep (E1 & E2 & E3 & _) _ Hsl _]).
  assert (own w1 i = define_property name en true [VUndefined; VUndefined] (own w i)) as Hown1.
  { rewrite Hown, <- (Hkept [VUndefined; VUndefined]).
    - apply (own_table w1 i o1); [apply Htd|apply Htd|]. intros s Hs'. apply (td_slots _ _ _ _ _ _ _ _ Htd).
      destruct (td_covered _ _ _ _ _ _ _ _ Htd s Hs') as [|Hr]; [by left|right; cbn in Hr; split; [done|lia]].
    - unfold kept. rewrite <- Hown. destruct (List.find (named name) (own w i)) as [p|]; [|done]. by rewrite Hnone. }
  assert (entries_of (rt w1) (shape o1) = props (dict ho)) as Een1.
  { pose proof (td_dict _ _ _ _ _ _ _ _ Htd) as Hd1. unfold entries_of, shape_of in *. by rewrite Hd1. }
  destruct (halves_edited w1 i o1 e getter setter (td_ok _ _ _ _ _ _ _ _ Htd) (td_at _ _ _ _ _ _ _ _ Htd) Hg Hs) as (w' & o' & E & R & Hown'); [|done|].
  { rewrite Een1, Ep. apply in_or_app. right. by left. }
  rewrite E2 in E. rewrite E. exists w', o'. split_and!; [done| | |].
  - eapply edited_trans; [by eapply table_edited|by apply rewritten_edited].
  - rewrite Hown', Hown1, E1, set_values_define by (by eapply own_names). f_equal.
    assert (slots ho out = VUndefined /\ slots ho (out + 1) = VUndefined) as [U1 U2].
    { destruct Hsl as [->|[_ Hsl]]; [split; zbool; try done; lia|]. rewrite (find_own w i o name Ho) in Hnone.
      unfold entries_of, shape_of in *. rewrite Hd in Hnone. rewrite (find_keyed_dict (symbol_address := symbol_address) d name Hdok Hv) in Hnone.
      cbn in Hsl. destruct (find symbol_address d name); [|done]. cbn in Hnone. congruence. }
    unfold own_slots. rewrite E2, E3. cbn. rewrite !(td_slots _ _ _ _ _ _ _ _ Htd) by (right; split; [done|lia]). by rewrite U1, U2.
  - pose proof (rw_dict _ _ _ _ _ R) as Hd'. rewrite (td_dict _ _ _ _ _ _ _ _ Htd) in Hd'. unfold isDictionary. by rewrite Hd'.
Qed.

(** Definition of an accessor in an ordered property list: a half that is not given
    keeps its value. *)
Definition define_accessor (name : PropertyKey) (en conf : bool) (getter setter : Value) (l : list Property) : list Property :=
  match List.find (named name) l with
  | Some p =>
      if paccessor p then set_values name (halves getter setter (pvalues p)) l
      else define_property name en true (halves getter setter [VUndefined; VUndefined]) l
  | None => l ++ [mkProperty name en true true conf (halves getter setter [VUndefined; VUndefined])]
  end.

Definition may_add (w : World) (o : Object) : Prop :=
  match shape_dict (shape_of w o) with Some d => extensible d = true | None => True end.

(** What the callers have checked: the property may be redefined, or the object
    extended. *)
Definition may_define (w : World) (i : nat) (o : Object) (name : PropertyKey) (acc : bool) : Prop :=
  match List.find (named name) (own w i) with
  | Some p => paccessor p = acc \/ pconfigurable p = true
  | None => may_add w o
  end.

Lemma may_definable w i o d name acc : world_ok w -> object_at w i = Some o -> shape_dict (shape_of w o) = Some d -> valid name = true ->
  may_define w i o name acc -> definable (symbol_address := symbol_address) d name acc.
Proof.
  intros Hok Ho Hd Hv. pose proof (ok_objects _ _ _ Hok i o Ho) as [Hs0 _ _ _].
  unfold may_define, may_add, definable. rewrite (find_own w i o name Ho). unfold entries_of, shape_of in *. rewrite Hd.
  rewrite (find_keyed_dict (symbol_address := symbol_address) d name (table_dict _ _ (table_shape_ok _ _ _ Hok Hs0 Hd)) Hv).
  by destruct (find symbol_address d name).
Qed.

Lemma define_property_absent name en acc vals l : List.find (named name) l = None ->
  define_property name en acc vals l = l ++ [mkProperty name en acc true true vals].
Proof.
  intros Hf. apply define_property_fresh. intros p Hp Hk. pose proof (List.find_none _ _ Hf p Hp) as H. by apply named_false in H.
Qed.

Lemma own_same w i o w' o' : object_at w i = Some o -> object_at w' i = Some o' -> slotsData o' = slotsData o ->
  entries_of (rt w') (shape o') = entries_of (rt w) (shape o) -> own w' i = own w i.
Proof. intros Ho Ho' Es Ee. unfold own. by rewrite Ho, Ho', Es, Ee. Qed.

Lemma demoted_edited w i o w' o' d : object_at w i = Some o -> demoted (symbol_address := symbol_address) (since := since) None w i o w' o' d ->
  edited w i o w' o' /\ own w' i = own w i /\ forall name acc, may_define w i o name acc -> may_define w' i o' name acc.
Proof.
  intros Ho H. pose proof (demoted_dict _ _ _ _ _ _ _ H) as Hd. destruct H.
  assert (own w' i = own w i) as Hown.
  { eapply own_same; [done..|]. rewrite <- demoted_entries. unfold entries_of, shape_of in *. by rewrite Hd. }
  split_and!; [by constructor|done|]. intros name acc. unfold may_define, may_add. rewrite Hown, Hd. destruct (List.find _ _); [done|].
  destruct (shape_dict (shape_of w o)); [by subst|by destruct demoted_fresh].
Qed.

Lemma landed_edited w i o n e w1 o1 w2 o2 : landed w i o n e w1 o1 -> slot_stored None w1 i o1 (slot e) VUndefined w2 o2 -> edited w i o w2 o2.
Proof. intros [] []. constructor; try done; [by etransitivity|by eapply others_trans|congruence..]. Qed.

(** A pair added on the tree. *)
Lemma add_pair_ok w i o name en conf getter setter : world_ok w -> since <= proto_epoch (rt w) -> object_at w i = Some o ->
  isDictionary (shape_of w o) = false -> valid name = true -> name ∉ layout_keys (rt w) (shape o) ->
  slotsUsedAfterAdd (shape_of w o) 2 <= kDictionaryThreshold -> is_half getter -> is_half setter ->
  exists w' o', (let? (w, slot_) := add_on_tree w i name en true true conf Boxed in
    let? w := setSlot w i slot_ VUndefined in let? w := setSlot w i (slot_ + 1) VUndefined in
    let? w := write_halves w i slot_ getter setter in Some (w, true)) = Some (w', true) /\ edited w i o w' o' /\
    own w' i = own w i ++ [mkProperty name en true true conf (halves getter setter [VUndefined; VUndefined])] /\
    isDictionary (shape_of w' o') = false.
Proof.
  intros Hok Hsi Ho Hd Hv Hfresh Hth Hg Hs.
  destruct (add_on_tree_ok w i o name en true true conf Boxed Hok Hsi Ho Hd Hv Hfresh Hth) as (w1 & o1 & n & x & E1 & HL). rewrite E1.
  set (e := mkEntry name x en true true conf) in *. pose proof HL as [L1 L2 L3 L4 L5 L6 L7 [L8 L8'] L9 L10 L11]. cbn in L8, L8'.
  destruct (setSlot_ok (Some x) None w1 i o1 x VUndefined L1 L4) as (w2 & o2 & E2 & HS); [by right|lia|]. rewrite E2.
  pose proof (landed_edited _ _ _ _ _ _ _ _ _ HL HS) as Hed. destruct HS as [S1 S2 S3 S4 S5 S6 S7 S8 S9 S10 S11].
  destruct (setSlot_rewritten w2 i o2 (x + 1) VUndefined S1 S4) as (w3 & o3 & E3 & R3 & S3'); [rewrite S7; lia|]. rewrite E3.
  rewrite stored_form_id in S6, S3' by (by left).
  assert (entries_of (rt w3) (shape o3) = entries_of (rt w) (shape o) ++ [e]) as Een by (by rewrite (rw_entries _ _ _ _ _ R3), S5, L5, L6).
  assert (In e (entries_of (rt w3) (shape o3))) as Hin by (rewrite Een; apply in_or_app; right; by left).
  destruct (halves_edited w3 i o3 e getter setter (rw_ok _ _ _ _ _ R3) (rw_at _ _ _ _ _ R3) Hg Hs Hin eq_refl) as (w4 & o4 & E4 & R4 & Hown).
  cbn [slot e] in E4. rewrite E4. exists w4, o4. pose proof (rewritten_trans _ _ _ _ _ _ _ R3 R4) as R. split_and!; [done|..].
  - eapply edited_trans; [exact Hed|by apply rewritten_edited].
  - assert (slotsData o3 x = VUndefined /\ slotsData o3 (x + 1) = VUndefined) as [U1 U2] by (split; rewrite S3', ?S6; zbool; done || lia).
    rewrite Hown. cbn. rewrite U1, U2.
    assert (own w3 i = own w i ++ [mkProperty name en true true conf [VUndefined; VUndefined]]) as ->.
    { unfold own. rewrite (rw_at _ _ _ _ _ R3), Ho, Een, map_app. f_equal.
      - apply map_ext_in. intros y Hy. unfold view_in, view. f_equal. cbn. apply map_ext_in. intros k Hk.
        destruct (L7 k) as [K1 K2]; [apply in_slots_of; by exists y|]. cbn in K2. rewrite S3', S6, K1.
        zbool; [subst; tauto|subst; tauto|done].
      - cbn. unfold view_in, view. cbn. by rewrite U1, U2. }
    unfold set_values. rewrite map_app. f_equal; [|unfold named; cbn; by rewrite bool_decide_eq_true_2].
    apply set_values_absent. intros p Hp Ek. unfold own in Hp. rewrite Ho in Hp. apply in_map_iff in Hp as (y & <- & Hy). cbn in Ek.
    destruct Hfresh. rewrite <- Ek. rewrite entries_tree in Hy by done. unfold layout_keys. rewrite <- (map_map ientry key). apply list_elem_of_In. by apply in_map.
  - unfold isDictionary. rewrite (rw_dict _ _ _ _ _ R), S9. done.
Qed.

Lemma lookup_own w i o name : world_ok w -> object_at w i = Some o -> valid name = true ->
  List.find (named name) (own w i) = option_map (fun p => view_in (slotsData o) (ientry p)) (lookupProperty symbol_address (rt w) (shape o) name) /\
  forall p, lookupProperty symbol_address (rt w) (shape o) name = Some p -> In (ientry p) (entries_of (rt w) (shape o)) /\ key (ientry p) = name.
Proof.
  intros Hok Ho Hv. pose proof (ok_objects _ _ _ Hok i o Ho) as [Hs0 _ _ _].
  pose proof (lookup_entry (symbol_address := symbol_address) (rt w) (shape o) name (ok_runtime _ _ _ Hok) Hs0
    (fun d Hd => table_dict _ _ (table_shape_ok _ _ _ Hok Hs0 Hd)) Hv) as Hlk.
  rewrite (find_own w i o name Ho), <- Hlk. split; [by destruct (lookupProperty _ _ _ _)|].
  intros p Ep. rewrite Ep in Hlk. cbn in Hlk. symmetry in Hlk. apply List.find_some in Hlk as [? Hk%bool_decide_eq_true]. done.
Qed.

Lemma bumped_own w i o w' : object_at w i = Some o -> bumped (symbol_address := symbol_address) (since := since) w i o w' ->
  edited w i o w' o /\ own w' i = own w i.
Proof.
  intros Ho []. split; [constructor; try done; [by rewrite bump_shape|apply bump_entries]|].
  eapply own_same; [done..|]. apply bump_entries.
Qed.

Lemma defineAccessor_ok w i o name getter setter en conf : world_ok w -> since <= proto_epoch (rt w) -> object_at w i = Some o ->
  valid name = true -> is_half getter -> is_half setter -> may_define w i o name true ->
  exists w' o', defineAccessor symbol_address w i name getter setter en conf = Some (w', true) /\ edited w i o w' o' /\
    own w' i = define_accessor name en (conf || isDictionary (shape_of w' o')) getter setter (own w i).
Proof.
  intros Hok Hsi Ho Hv Hg Hs Hmay. unfold defineAccessor. rewrite Hv, Ho. cbn [negb].
  destruct (lookup_own w i o name Hok Ho Hv) as [Hfind Hin]. unfold define_accessor.
  assert (forall w1 o1 d1, edited w i o w1 o1 -> own w1 i = own w i -> shape_dict (shape_of w1 o1) = Some d1 ->
    may_define w1 i o1 name true -> match List.find (named name) (own w i) with Some p => paccessor p = false | None => True end ->
    exists w' o', (let? (w, slot_) := dictDefine symbol_address w1 i name en true in
      let? w := write_halves w i slot_ getter setter in Some (w, true)) = Some (w', true) /\ edited w i o w' o' /\
      own w' i = define_property name en true (halves getter setter [VUndefined; VUndefined]) (own w i) /\
      isDictionary (shape_of w' o') = true) as Htable.
  { intros w1 o1 d1 He Hown Hd1 Hmay1 Hnone. pose proof He as [H1 H2 H3 H4 H5 H6]. rewrite <- Hown in Hnone |- *.
    destruct (define_pair_ok w1 i o1 d1 name en getter setter H1) as (w' & o' & E & He' & Hd'); try done.
    - pose proof (st_epoch _ _ H2). lia.
    - by eapply may_definable.
    - exists w', o'. split_and!; [done|by eapply edited_trans|apply Hd'|apply Hd']. }
  destruct (lookupProperty symbol_address (rt w) (shape o) name) as [[e r]|] eqn:El; cbn [option_map ientry] in Hfind; rewrite Hfind in *; cbn [view_in view paccessor pvalues] in *.
  - destruct (Hin _ eq_refl) as [He Hk]. cbn in He, Hk. destruct (accessor e) eqn:Ea.
    + pose proof (bump_used_ok w i o Hok Hsi Ho) as Hb. destruct (bumped_own w i o _ Ho Hb) as [Hed Hown].
      change (if used_as_prototype (shape_of w o) then _ else w) with (bump_used w o). destruct Hb as [B1 B2 B3 B4 B5 B6 B7].
      destruct (halves_edited (bump_used w o) i o e getter setter B1 B4 Hg Hs) as (w' & o' & E & R & Ho'); [by rewrite (proj1 (B6 _))|done|].
      rewrite E. exists w', o'. split_and!; [done|eapply edited_trans; [exact Hed|by apply rewritten_edited]|by rewrite Ho', Hown, Hk].
    + destruct (isDictionary (shape_of w o)) eqn:Ed.
      * unfold isDictionary in Ed. destruct (shape_dict (shape_of w o)) as [d|] eqn:Ed'; [|done].
        destruct (Htable w o d) as (w' & o' & E & He' & Hown & _); [by constructor|done..|]. by exists w', o'.
      * destruct (toDictionary_ok None w i o Redefine Hok Ho) as (w1 & o1 & d & E & Hdem). rewrite E.
        destruct (demoted_edited w i o w1 o1 d Ho Hdem) as (He1 & Hown1 & Hmay1).
        destruct (Htable w1 o1 d He1 Hown1 (demoted_dict _ _ _ _ _ _ _ Hdem)) as (w' & o' & E' & He' & Hown & _); [by apply Hmay1|done|]. by exists w', o'.
  - destruct (isDictionary (shape_of w o)) eqn:Ed.
    + unfold isDictionary in Ed. destruct (shape_dict (shape_of w o)) as [d|] eqn:Ed'; [|done].
      destruct (Htable w o d) as (w' & o' & E & He' & Hown & Hd'); [by constructor|done..|]. exists w', o'. rewrite Hd', orb_true_r, <- define_property_absent by done. done.
    + destruct (Z.ltb_spec kDictionaryThreshold (slotsUsedAfterAdd (shape_of w o) 2)).
      * destruct (toDictionary_ok None w i o Redefine Hok Ho) as (w1 & o1 & d & E & Hdem). rewrite E.
        destruct (demoted_edited w i o w1 o1 d Ho Hdem) as (He1 & Hown1 & Hmay1).
        destruct (Htable w1 o1 d He1 Hown1 (demoted_dict _ _ _ _ _ _ _ Hdem)) as (w' & o' & E' & He' & Hown & Hd'); [by apply Hmay1|done|].
        exists w', o'. rewrite Hd', orb_true_r, <- define_property_absent by done. done.
      * pose proof (ok_objects _ _ _ Hok i o Ho) as [Hs0 _ _ _].
        pose proof (tree_lookup symbol_address (rt w) (shape o) name (ok_runtime _ _ _ Hok) Hs0 Ed Hv) as Hfresh. rewrite El in Hfresh.
        destruct (add_pair_ok w i o name en conf getter setter) as (w' & o' & E & He' & Hown & Hd'); try done.
        exists w', o'. by rewrite Hd', orb_false_r.
Qed.

(** ** Prototypes *)

(** The object is on a shape that says it is a prototype; nothing else has moved. *)
Record marked (loose : option nat) (w : World) (i : nat) (o : Object) (w' : World) (o' : Object) : Prop := {
  marked_ok : world_but None loose w';
  marked_stable : stable w w';
  marked_others : others w w' i;
  marked_at : object_at w' i = Some o';
  marked_mark : used_as_prototype (shape_of w' o') = true;
  marked_entries : entries_of (rt w') (shape o') = entries_of (rt w) (shape o);
  marked_slots : slotsData o' = slotsData o;
  marked_proto : prototypeValue (rt w') (shape o') = prototypeValue (rt w) (shape o);
  marked_dict : shape_dict (shape_of w' o') = shape_dict (shape_of w o)
}.

(** A move to a marked tree shape with the same properties. *)
Lemma move_ok loose w i o m r' : world_but None loose w -> object_at w i = Some o -> isDictionary (shape_of w o) = false ->
  runtime_ok r' -> frame (rt w) r' -> proto_epoch (rt w) <= proto_epoch r' ->
  (forall s, (next_id (rt w) <= s < next_id r')%nat -> shape_dict (shape_at r' s) = None /\
     (prototype (shape_at r' s) = VUndefined \/ exists s0, (s0 < next_id (rt w))%nat /\ prototype (shape_at r' s) = prototype (shape_at (rt w) s0))) ->
  (m < next_id r')%nat -> shape_dict (shape_at r' m) = None -> used_as_prototype (shape_at r' m) = true ->
  entries_of r' m = entries_of (rt w) (shape o) -> storage_end r' m <= storage_end (rt w) (shape o) ->
  prototypeValue r' m = prototypeValue (rt w) (shape o) ->
  (forall k, 0 <= k -> slotIsDouble (shape_at r' m) k = true -> slotIsDouble (shape_of w o) k = true) ->
  exists o', object_at (set_object i (with_shape m o) (with_runtime r' w)) i = Some o' /\
    marked loose w i o (set_object i (with_shape m o) (with_runtime r' w)) o'.
Proof.
  intros Hok Ho Hd Hr' Hf He Hnew Hm Hdm Hmk Hent Hend Hpv Hdb. pose proof (ok_objects _ _ _ Hok i o Ho) as [Hs0 Hc0 Hst0 Hdb0].
  set (o' := with_shape m o).
  assert (evolution loose w i o o' r' None) as Hev.
  { apply (frame_evolution None); try done; cbn [o' with_shape shape].
    - intros s Hs. destruct (Hnew s Hs) as [E1 E2]. by rewrite E1.
    - constructor; cbn [o' with_shape shape slotsData overflowCapacity]; [done|done|lia|]. intros k Hk _ Hkd. apply Hdb0; [done..|]. by apply Hdb.
    - unfold isDictionary. by rewrite Hdm.
    - right. right. split; [|done]. intros name. destruct (valid name) eqn:Hv; [|unfold locate; by rewrite !lookup_invalid].
      rewrite !locate_entry; try done; [by rewrite Hent|apply Hok| |by rewrite Hdm].
      intros d Hdd. by destruct (ok_tables _ _ _ Hok _ d Hs0 Hdd). }
  destruct (evolve None loose w i o o' r' None Hok Ho Hev) as (Hok' & Hst & Hot & Hat). exists o'. split; [done|].
  constructor; try done. unfold shape_of, isDictionary in *. cbn. rewrite Hdm. by destruct (shape_dict (shape_at (rt w) (shape o))).
Qed.

Lemma boxes_none_doubles r i r' m s : runtime_ok r -> runtime_ok r' -> (i < next_id r)%nat -> (m < next_id r')%nat -> 0 <= s ->
  Forall2 (fun p p' => ientry p' = ientry p /\ boxes None p p') (layout r i) (layout r' m) ->
  slotIsDouble (shape_at r' m) s = true -> slotIsDouble (shape_at r i) s = true.
Proof.
  intros Hok Hok' Hi Hm Hs H. rewrite !double_slots_summary by done. induction H as [|p p' l l' [E Hb] _ IH]; [done|].
  cbn [existsb]. rewrite !orb_true_iff, E. intros [[E1 Hd%bool_decide_eq_true]%andb_prop|?]; [left|right; by apply IH].
  rewrite E1. apply bool_decide_eq_true. destruct Hb as [Hb|[Hb _]]; congruence.
Qed.

Lemma hazard_arena w kind o : arena (noteObjectBecomingPrototype w kind o) = arena (rt w) /\
  proto_epoch (noteObjectBecomingPrototype w kind o) = proto_epoch (rt w).
Proof. unfold noteObjectBecomingPrototype. by repeat case_match. Qed.

Lemma chain_empty r i : runtime_ok r -> (i < next_id r)%nat -> isDictionary (shape_at r i) = false -> chainOf r i = [] ->
  parent (shape_at r i) = None.
Proof.
  intros Hok Hi Hd Hc. destruct (parent (shape_at r i)) as [p|] eqn:Hp; [|done]. rewrite (chainOf_parent r i p) in Hc by done.
  by destruct (chainOf r p).
Qed.

Lemma world_marked w i o : world_but None (Some i) w -> object_at w i = Some o -> used_as_prototype (shape_of w o) = true -> world_ok w.
Proof.
  intros [R O T P L G] Ho Hm. constructor; try done. intros s p op _ Hs Hp Hop. destruct (decide (p = i)) as [->|Hne].
  - by replace op with o by congruence.
  - apply (L s p op); try done. congruence.
Qed.

Lemma mark_table_ok loose w i o r : world_but None loose w -> object_at w i = Some o -> isDictionary (shape_of w o) = true ->
  arena r = arena (rt w) -> proto_epoch r = proto_epoch (rt w) ->
  marked loose w i o (with_runtime (edit with_mark (shape o) r) w) o.
Proof.
  intros Hok Ho Hd Ea Ee. pose proof (ok_objects _ _ _ Hok i o Ho) as [Hs0 Hc0 Hst0 Hdb0]. pose proof (ok_runtime _ _ _ Hok) as Hr0.
  assert (runtime_ok r) as Hr by (by apply (same_arena_ok (rt w))). pose proof (same_arena_next _ _ Ea) as En.
  pose proof (fun s => same_arena_at _ _ s Ea) as Eat.
  assert (table_edit r (shape o) with_mark) as Hedit.
  { constructor; try done; rewrite ?Eat; [done|]. rewrite En. cbn. rewrite ?Eat. apply (ok_root _ _ (ok_nodes _ Hr0 _ Hs0)). }
  destruct (table_edit_ok r (shape o) with_mark Hr ltac:(lia) Hedit) as (Hr' & _ & Hat'). set (r' := edit with_mark (shape o) r) in *.
  assert (forall j, shape_at r' j = if decide (j = shape o) then with_mark (shape_of w o) else shape_at (rt w) j) as Hat
    by (intros j; rewrite Hat', !Eat; done).
  assert (next_id r' = next_id (rt w)) as En' by (unfold r'; by rewrite next_id_edit).
  assert (entries_of r' (shape o) = entries_of (rt w) (shape o)) as Hent.
  { unfold isDictionary, shape_of, entries_of in *. rewrite Hat, decide_True by done. cbn. by destruct (shape_dict _). }
  assert (prototypeValue r' (shape o) = prototypeValue (rt w) (shape o)) as Hpv.
  { unfold prototypeValue. rewrite (Hat (shape o)), decide_True by done. cbn [with_mark root]. rewrite Hat, decide_False; [done|].
    intros E. destruct (ok_root _ _ (ok_nodes _ Hr0 _ Hs0)) as (_ & _ & R3). unfold shape_of in *. rewrite E in R3. congruence. }
  assert (forall name, locate symbol_address r' (shape o) name = locate symbol_address (rt w) (shape o) name) as Hloc.
  { intros name. destruct (valid name) eqn:Hv; [|unfold locate; by rewrite !lookup_invalid]. rewrite !locate_entry; try done; [by rewrite Hent| |lia|].
    - intros d Hdd. by destruct (ok_tables _ _ _ Hok _ d Hs0 Hdd).
    - rewrite Hat, decide_True by done. intros d Hdd. by destruct (ok_tables _ _ _ Hok _ d Hs0 Hdd). }
  assert (evolution loose w i o o r' None) as Hev.
  { constructor; rewrite ?En'; try done; try lia.
    - unfold r'. cbn. lia.
    - intros s Hs [Hne|E]; [|congruence]. by rewrite Hat, decide_False.
    - intros _. by rewrite Hat, decide_True.
    - intros d Hdd Hf. split_and!; [|done|done]. exists d. by rewrite Hat, decide_True.
    - intros s d Hs [Hge| ->]; [lia|]. rewrite Hat, decide_True by done. intros Hdd. by destruct (ok_tables _ _ _ Hok _ d Hs0 Hdd).
    - constructor; rewrite ?En'; [done|done| |].
      + unfold storage_end in *. rewrite Hat, decide_True by done. cbn. done.
      + rewrite Hat, decide_True by done. done.
    - by rewrite Hat, decide_True.
    - right. by right. }
  destruct (evolve None loose w i o o r' None Hok Ho Hev) as (Hok' & Hst & Hot & Hati). rewrite set_object_back in * by done.
  constructor; try done; unfold shape_of; cbn; by rewrite Hat, decide_True.
Qed.

(** The chain marked, rebuilt privately from its root. *)
Lemma mark_chain_ok loose w i o r0 : world_but None loose w -> object_at w i = Some o -> isDictionary (shape_of w o) = false ->
  arena r0 = arena (rt w) -> proto_epoch r0 = proto_epoch (rt w) -> chainOf r0 (shape o) <> [] ->
  let '(r, m) := privateMarkedChain r0 (root (shape_of w o)) (chainOf r0 (shape o)) None in
  exists o', marked loose w i o (set_object i (with_shape m o) (with_runtime (noteShapeLeave (shape o) BecomePrototype r) w)) o'.
Proof.
  intros Hok Ho Hd Ea Ee Hne. pose proof (ok_objects _ _ _ Hok i o Ho) as [Hs0 Hc0 Hst0 Hdb0]. pose proof (ok_runtime _ _ _ Hok) as Hr0.
  assert (runtime_ok r0) as Hr by (by apply (same_arena_ok (rt w))). pose proof (same_arena_next _ _ Ea) as En.
  pose proof (same_arena_at _ _ (shape o) Ea) as Eat. unfold shape_of in *. rewrite <- Eat in *. unfold privateMarkedChain.
  pose proof (marked_chain_spec r0 None r0 Hr Hr ltac:(reflexivity) (shape o) ltac:(lia) Hd) as H.
  pose proof (plain_marked (root (shape_at r0 (shape o))) (chainOf r0 (shape o)) None r0 (root (shape_at r0 (shape o)))) as Hpl.
  destruct (marked_chain r0 _ _ _ _) as [r m]. destruct H as (Hr1 & Hf1 & He1 & Hm & Hmark). destruct (Hmark Hne) as [Hmk Hge]. cbn [fst] in Hpl.
  set (r' := noteShapeLeave (shape o) BecomePrototype r). assert (arena r' = arena r) as Ea' by apply leave_arena.
  pose proof (leave_epoch (shape o) BecomePrototype r) as Hl. fold r' in Hl.
  assert (runtime_ok r') as Hr' by (by apply (same_arena_ok r)). pose proof (same_arena_at _ _ m Ea') as Em.
  assert (frame (rt w) r') as Hf'. { transitivity r0; [by apply same_arena_frame|]. transitivity r; [done|by apply same_arena_frame]. }
  assert (plain (rt w) r') as Hpl'. { transitivity r0; [by apply plain_arena|]. transitivity r; [done|by apply plain_arena]. }
  assert (shape_dict (shape_at r m) = None) as Hdm by (pose proof (mirror_dict _ _ _ _ _ Hm) as E; unfold isDictionary in E; by destruct (shape_dict (shape_at r m))).
  assert (shape_dict (shape_at (rt w) (shape o)) = None) as Hdo by (rewrite <- Eat; unfold isDictionary in Hd; by destruct (shape_dict _)).
  assert (layout_entries r' m = layout_entries (rt w) (shape o)) as Hlay.
  { unfold layout_entries. rewrite (layout_arena r r') by done. rewrite <- (layout_arena (rt w) r0) by done. by destruct Hm as [_ ?%boxes_entries _ _ _ _]. }
  destruct (move_ok loose w i o m r' Hok Ho) as (o' & _ & Hmv); try done.
  - unfold isDictionary, shape_of. by rewrite Hdo.
  - lia.
  - intros s Hs. destruct (plain_new _ _ Hpl' s Hs) as [-> ->]. split; [done|by left].
  - rewrite (same_arena_next _ _ Ea'). apply Hm.
  - by rewrite Em.
  - by rewrite Em.
  - unfold entries_of. by rewrite Em, Hdm, Hdo.
  - unfold storage_end, slotEnd. rewrite Em, Hdm, Hdo, (mirror_own _ _ _ _ _ Hm), Eat. done.
  - unfold prototypeValue. rewrite Em, (mirror_root _ _ _ _ _ Hm), Eat. destruct (ok_root _ _ (ok_nodes _ Hr0 _ Hs0)) as (R1 & _).
    apply (proj2 Hf' _ R1).
  - intros k Hk. rewrite Em. unfold shape_of. rewrite <- Eat. apply (boxes_none_doubles r0 (shape o) r m k Hr Hr1 ltac:(lia) (mirror_id _ _ _ _ _ Hm) Hk (mirror_layout _ _ _ _ _ Hm)).
  - by exists o'.
Qed.

(** A root of its own, marked, for an object without properties. *)
Lemma mark_root_ok loose w i o r0 : world_but None loose w -> object_at w i = Some o -> isDictionary (shape_of w o) = false ->
  arena r0 = arena (rt w) -> proto_epoch r0 = proto_epoch (rt w) -> chainOf r0 (shape o) = [] ->
  let n := next_id r0 in
  let r := new_shape (with_mark (root_shape n (prototypeValue (rt w) (shape o)) (inline_slots (shape_of w o)))) r0 in
  exists o', marked loose w i o (set_object i (with_shape n o) (with_runtime (noteShapeLeave (shape o) BecomePrototype r) w)) o'.
Proof.
  intros Hok Ho Hd Ea Ee Hc n. pose proof (ok_objects _ _ _ Hok i o Ho) as [Hs0 Hc0 Hst0 Hdb0]. pose proof (ok_runtime _ _ _ Hok) as Hr0.
  assert (runtime_ok r0) as Hr by (by apply (same_arena_ok (rt w))). pose proof (same_arena_next _ _ Ea) as En.
  rewrite (chainOf_arena (rt w)) in Hc by done. pose proof (chain_empty _ _ Hr0 Hs0 Hd Hc) as Hp.
  set (s := with_mark _). cbv zeta. set (r := new_shape s r0). set (r' := noteShapeLeave (shape o) BecomePrototype r).
  destruct (top_ok r0 s Hr) as [Hr1 Hf1]; try done; [apply clamp_range|by left|]. fold r in Hr1, Hf1.
  assert (arena r' = arena r) as Ea' by apply leave_arena.
  pose proof (leave_epoch (shape o) BecomePrototype r) as Hl. fold r' in Hl. change (proto_epoch r) with (proto_epoch r0) in Hl.
  assert (next_id r' = S (next_id (rt w))) as En' by (rewrite (same_arena_next _ _ Ea'); unfold r; by rewrite next_id_new, En).
  assert (shape_at r' n = s) as Es by (rewrite (same_arena_at _ _ _ Ea'); unfold r; by rewrite shape_at_new, decide_True).
  assert (shape_dict (shape_of w o) = None) as Hdo by (unfold isDictionary in Hd; by destruct (shape_dict (shape_of w o))).
  destruct (ok_root _ _ (ok_nodes _ Hr0 _ Hs0)) as (R1 & _).
  destruct (move_ok loose w i o n r' Hok Ho Hd) as (o' & _ & Hmv); try rewrite Es; try done.
  - by apply (same_arena_ok r).
  - transitivity r0; [by apply same_arena_frame|]. transitivity r; [done|by apply same_arena_frame].
  - lia.
  - intros k Hk. rewrite En' in Hk. replace k with n by lia. rewrite Es. split; [done|]. right. by exists (root (shape_of w o)).
  - lia.
  - unfold shape_of in Hdo. unfold entries_of. rewrite Es, Hdo. unfold layout_entries. rewrite (layout_root (rt w) (shape o) Hp), layout_root; [done|by rewrite Es].
  - unfold shape_of in *. unfold storage_end. rewrite Es, Hdo. cbn. unfold slotEnd. by destruct (ok_top _ _ (ok_nodes _ Hr0 _ Hs0) Hp) as [-> _].
  - unfold prototypeValue at 1. rewrite Es. cbn [s with_mark root_shape root]. by rewrite Es.
  - intros k Hk. unfold slotIsDouble. cbn. by rewrite andb_false_r.
  - by exists o'.
Qed.

Lemma mark_ok loose w i o kind : world_but None loose w -> objs w !! i = Some (Shaped kind o) ->
  exists o', marked loose w i o (markObjectAsPrototype w i) o'.
Proof.
  intros Hok Hi. assert (object_at w i = Some o) as Ho by (unfold object_at; by rewrite Hi). unfold markObjectAsPrototype. rewrite Hi.
  destruct (used_as_prototype (shape_of w o)) eqn:Eu; [exists o; by constructor|]. destruct (hazard_arena w kind o) as [Ea Ee].
  set (r := noteObjectBecomingPrototype w kind o) in *. destruct (isDictionary (shape_of w o)) eqn:Ed.
  { exists o. by apply mark_table_ok. }
  destruct (chainOf r (shape o)) as [|c chain] eqn:Ec.
  - by apply mark_root_ok.
  - pose proof (mark_chain_ok loose w i o r Hok Ho Ed Ea Ee) as H. rewrite Ec in H. cbn [negb empty].
    destruct (privateMarkedChain _ _ _ _) as [r' m]. by apply H.
Qed.

(** A new root: every old shape is the node it was. *)
Lemma new_root_ok w proto inline loose : world_ok w ->
  (forall p, proto = VObject p -> (p < length (objs w))%nat /\
     forall o, loose <> Some p -> object_at w p = Some o -> used_as_prototype (shape_of w o) = true) ->
  let w' := with_runtime (new_shape (root_shape (next_id (rt w)) proto inline) (rt w)) w in
  world_but None loose w' /\ stable w w' /\ (forall j, own w' j = own w j).
Proof.
  intros Hok Hproto w'. pose proof (ok_runtime _ _ _ Hok) as Hr. destruct (root_ok (rt w) proto inline Hr) as [Hr' Hf].
  set (r' := new_shape _ (rt w)) in *. set (n := next_id (rt w)) in *.
  assert (next_id r' = S n) as En by apply next_id_new.
  assert (shape_at r' n = root_shape n proto inline) as Es by (unfold r'; by rewrite shape_at_new, decide_True).
  assert (forall s, (s < n)%nat -> entries_of r' s = entries_of (rt w) s /\ storage_end r' s = storage_end (rt w) s /\ prototypeValue r' s = prototypeValue (rt w) s) as Hs
    by (intros s Hs; by apply same_entries).
  assert (forall s d, (s < n)%nat -> shape_dict (shape_at r' s) = Some d -> table_ok (shape_at r' s) d) as Htab.
  { intros s d Hlt Hd. pose proof (proj2 Hf s Hlt) as Hsame. rewrite (same_dict _ _ Hsame) in Hd.
    destruct (ok_tables _ _ _ Hok s d Hlt Hd) as []. constructor; try done. by rewrite (same_inline _ _ Hsame). }
  assert (forall s name, (s < n)%nat -> locate symbol_address r' s name = locate symbol_address (rt w) s name) as Hloc.
  { intros s name Hlt. destruct (valid name) eqn:Hv; [|unfold locate; by rewrite !lookup_invalid]. rewrite !locate_entry; try done.
    - by rewrite (proj1 (Hs s Hlt)).
    - intros d Hd. by destruct (ok_tables _ _ _ Hok s d Hlt Hd).
    - lia.
    - intros d Hd. by destruct (Htab s d Hlt Hd). }
  assert (forall j o, object_at w j = Some o -> (shape o < n)%nat) as Hobj by (intros j o Ho; apply (ok_objects _ _ _ Hok j o Ho)).
  split_and!.
  - constructor; change (rt w') with r'; change (objs w') with (objs w); [done|..].
    + intros j o Ho. destruct (ok_objects _ _ _ Hok j o Ho) as [S1 C1 E1 D1]. fold n in S1. pose proof (proj2 Hf _ S1) as Hsame.
      constructor; [rewrite En; lia|done|by rewrite (proj1 (proj2 (Hs _ S1)))|]. intros k Hk Hne Hd. apply D1; [done..|].
      unfold slotIsDouble in *. by rewrite <- (same_doubles _ _ Hsame).
    + intros s d Hlt Hd. destruct (decide (s = n)) as [->|]; [by rewrite Es in Hd|]. apply Htab; [lia|done].
    + intros j k o o' Ho Ho' E Hd. apply (ok_private _ _ _ Hok j k o o' Ho Ho' E). unfold shape_of in *. change (rt w') with r' in Hd.
      by rewrite <- (same_dictionary _ _ (proj2 Hf _ (Hobj j o Ho))).
    + intros s p o Hl Hlt Hp Ho. unfold shape_of. change (rt w') with r'. rewrite (same_mark _ _ (proj2 Hf _ (Hobj p o Ho))).
      destruct (decide (s = n)) as [->|]; [rewrite Es in Hp; by apply (Hproto p)|].
      apply (ok_links _ _ _ Hok s p o); [done|lia| |done]. rewrite <- (same_prototype _ _ (proj2 Hf s ltac:(lia))). done.
    + intros s p Hlt Hp. destruct (decide (s = n)) as [->|]; [rewrite Es in Hp; by apply (Hproto p)|].
      apply (ok_targets _ _ _ Hok s); [lia|]. rewrite <- (same_prototype _ _ (proj2 Hf s ltac:(lia))). done.
  - constructor; change (rt w') with r'; [lia|done|..].
    + intros p h Hp. exists h. split; [done|reflexivity].
    + intros s Hlt. apply (proj2 Hf s Hlt).
    + intros s Hlt Hd. pose proof (proj2 Hf s Hlt) as Hsame. constructor; [by rewrite (same_dictionary _ _ Hsame)|apply Hsame..|by apply Hs|intros; by apply Hloc|by apply Hs].
    + intros s d Hlt Hd Hfz. pose proof (proj2 Hf s Hlt) as Hsame. split_and!; [exists d; by rewrite (same_dict _ _ Hsame)|intros; by apply Hloc|intros _; by apply Hs].
    + intros _ s p o Hlt _ Ho. exists o. split_and!; [done|intros; apply Hloc; by apply (Hobj p)|by apply Hs, (Hobj p)].
  - intros j. unfold own. change (object_at w' j) with (object_at w j). destruct (object_at w j) as [o|] eqn:Ho; [|done].
    change (rt w') with r'. by rewrite (proj1 (Hs _ (Hobj j o Ho))).
Qed.

Record root_made (w : World) (proto : Value) (w' : World) (n : nat) : Prop := {
  made_ok : world_ok w';
  made_stable : stable w w';
  made_own : forall j, own w' j = own w j;
  made_id : (next_id (rt w) <= n < next_id (rt w'))%nat;
  made_parent : parent (shape_at (rt w') n) = None;
  made_dict : isDictionary (shape_at (rt w') n) = false;
  made_proto : prototype (shape_at (rt w') n) = proto
}.

Lemma marked_own loose w i o w' o' : object_at w i = Some o -> marked loose w i o w' o' -> forall j, own w' j = own w j.
Proof.
  intros Ho [] j. destruct (decide (j = i)) as [->|Hne].
  - unfold own. by rewrite marked_at0, Ho, marked_entries0, marked_slots0.
  - destruct (marked_others0 j Hne) as [E H]. unfold own. rewrite E. destruct (object_at w j) as [oj|] eqn:Hoj; [|done]. by destruct (H oj) as (-> & _).
Qed.

Lemma mark_world loose w p : world_but None loose w -> (loose = None \/ loose = Some p /\ exists o, object_at w p = Some o) ->
  world_ok (markObjectAsPrototype w p) /\ stable w (markObjectAsPrototype w p) /\ forall j, own (markObjectAsPrototype w p) j = own w j.
Proof.
  intros Hok Hl. destruct (objs w !! p) as [h|] eqn:Hp.
  2: { unfold object_at in Hl. rewrite Hp in Hl. unfold markObjectAsPrototype. rewrite Hp. destruct Hl as [->|[_ [? ?]]]; done. }
  destruct h as [kind o|f| |]; [|by unfold object_at in Hl; rewrite Hp in Hl; unfold markObjectAsPrototype; rewrite Hp; destruct Hl as [->|[_ [? ?]]]..].
  assert (object_at w p = Some o) as Ho by (unfold object_at; by rewrite Hp).
  destruct (mark_ok loose w p o kind Hok Hp) as (o' & Hm). pose proof (marked_own _ _ _ _ _ _ Ho Hm). destruct Hm. split_and!; try done.
  destruct Hl as [->|[-> _]]; [done|by apply (world_marked _ p o')].
Qed.

Lemma createRoot_ok w proto inline : world_ok w -> (forall p, proto = VObject p -> (p < length (objs w))%nat) ->
  let '(w', n) := createRoot w proto inline in root_made w proto w' n.
Proof.
  intros Hok Hp. unfold createRoot. set (n := next_id (rt w)). set (w1 := with_runtime _ w).
  assert (forall loose w', world_but None loose w1 /\ stable w w1 /\ (forall j, own w1 j = own w j) ->
    world_ok w' /\ stable w1 w' /\ (forall j, own w' j = own w1 j) -> root_made w proto w' n) as Hfin.
  { intros loose w' (H1 & H2 & H3) (H4 & H5 & H6).
    assert (shape_at (rt w1) n = root_shape n proto inline) as Es by (unfold w1; cbn [rt with_runtime]; by rewrite shape_at_new, decide_True).
    assert (n < next_id (rt w1))%nat as Hn by (unfold w1; cbn [rt with_runtime]; rewrite next_id_new; unfold n; lia).
    destruct (st_trees _ _ H5 n Hn) as [D P _ _ _ _ _]; [by rewrite Es|]. pose proof (st_next _ _ H5). constructor; try done.
    - by transitivity w1.
    - intros j. by rewrite H6.
    - split; [done|lia].
    - by rewrite P, Es.
    - rewrite (st_protos _ _ H5) by done. by rewrite Es. }
  assert (forall loose, (forall p, proto = VObject p -> loose = Some p \/ object_at w p = None) ->
    world_but None loose w1 /\ stable w w1 /\ (forall j, own w1 j = own w j)) as Hnew.
  { intros loose H. apply new_root_ok; [done|]. intros p E. split; [by apply Hp|]. intros o Hl Ho. destruct (H p E); congruence. }
  assert ((forall p, proto = VObject p -> object_at w p = None) -> root_made w proto w1 n) as Hplain.
  { intros H. assert (forall p, proto = VObject p -> None = Some p \/ object_at w p = None) as H' by (intros p E; right; by apply H).
    eapply Hfin; [by apply (Hnew None)|]. split_and!; [by apply (Hnew None)|reflexivity|done]. }
  destruct proto as [d|id u|id b|p|id|t pl|]; try (apply Hplain; by intros ? [=]).
  change (objs w1) with (objs w). specialize (Hp p eq_refl). apply lookup_lt_is_Some_2 in Hp as [h Eh]. rewrite Eh.
  assert (match h with Shaped _ _ => True | _ => forall q, VObject p = VObject q -> object_at w q = None end) as Hnone
    by (destruct h; try done; intros q [= <-]; unfold object_at; by rewrite Eh).
  assert (match h with Shaped _ _ => True | _ => root_made w (VObject p) (with_runtime (tripArrayIndexHazard (rt w1)) w1) n end) as Htrip.
  { destruct h; try done; (eapply Hfin; [apply (Hnew None); intros q E; right; by apply Hnone|]);
      (destruct (Hnew None) as (N1 & _); [intros q E; right; by apply Hnone|]);
      (destruct (epoch_ok (since := since) None None w1 (tripArrayIndexHazard (rt w1)) N1 eq_refl ltac:(cbn; lia)) as (A1 & A2 & A3));
      split_and!; try done; intros j; unfold own; change (object_at (with_runtime _ w1) j) with (object_at w1 j);
      (destruct (object_at w1 j); [|done]); by rewrite (proj1 (A3 _)). }
  destruct h as [kind o|f| |]; [| |done..].
  - assert (object_at w p = Some o) as Ho by (unfold object_at; by rewrite Eh). pose proof (Hnew (Some p)) as H.
    eapply Hfin; [apply H; intros q [= ->]; by left|]. apply (mark_world (Some p)); [apply H; intros q [= ->]; by left|right; split; [done|by exists o]].
  - destruct f as [d|id u|id b|q|id|t pl|]; try by apply Hplain.
    eapply Hfin; [apply (Hnew None); intros r E; right; by apply Hnone|]. apply (mark_world None); [apply Hnew; intros r E; right; by apply Hnone|by left].
Qed.

(** A new object, at a root: it has no properties, and nothing else has moved. *)
Lemma create_ok w kind s data : world_ok w -> (s < next_id (rt w))%nat -> parent (shape_at (rt w) s) = None ->
  isDictionary (shape_at (rt w) s) = false ->
  let '(w', i) := create w kind s data in
  world_ok w' /\ stable w w' /\ object_at w i = None /\ (forall j, own w' j = own w j) /\
  exists o, object_at w' i = Some o /\ own w' i = [] /\ prototypeValue (rt w') (shape o) = prototype (shape_at (rt w) s).
Proof.
  intros Hok Hs Hp Hd. unfold create. set (o := mkObj s _ _ _). set (i := length (objs w)). set (w' := mkWorld _ _).
  destruct (ok_top _ _ (ok_nodes _ (ok_runtime _ _ _ Hok) _ Hs) Hp) as [Eo Ed].
  assert (shape_dict (shape_at (rt w) s) = None) as Hdo by (unfold isDictionary in Hd; by destruct (shape_dict _)).
  assert (forall j, object_at w' j = if decide (j = i) then Some o else object_at w j) as Hat.
  { intros j. unfold object_at, w'. cbn [objs]. destruct (decide (j = i)) as [->|Hne].
    - rewrite lookup_app_r, Nat.sub_diag by done. done.
    - destruct (Nat.lt_ge_cases j i) as [Hlt|Hge]; [by rewrite lookup_app_l|].
      rewrite lookup_app_r, !lookup_ge_None_2 by (cbn; unfold i in *; lia). done. }
  assert (object_at w i = None) as Hnone by (unfold object_at; by rewrite lookup_ge_None_2).
  assert (entries_of (rt w) s = []) as Een by (unfold entries_of, layout_entries; by rewrite Hdo, layout_root).
  assert (forall s0, (s0 < next_id (rt w))%nat -> prototype (shape_at (rt w) s0) <> VObject i) as Hno.
  { intros s0 Hs0 E. pose proof (ok_targets _ _ _ Hok s0 i Hs0 E). unfold i in *. lia. }
  split_and!; [|constructor; try done| done | |].
  - constructor; change (rt w') with (rt w); try apply Hok.
    + intros j oj. rewrite Hat. destruct (decide (j = i)) as [->|]; [|apply (ok_objects _ _ _ Hok)]. intros [= <-].
      constructor; cbn; [done|done| |].
      * unfold storage_end, slotEnd. rewrite Hdo, Eo. done.
      * intros k _ _. unfold slotIsDouble. by rewrite Ed, andb_false_r.
    + intros j k oj ok. rewrite !Hat. unfold shape_of. change (rt w') with (rt w).
      destruct (decide (j = i)) as [->|], (decide (k = i)) as [->|]; [done|..].
      * intros [= <-] Hk E Hdk. unfold o in Hdk. cbn in Hdk. congruence.
      * intros Hj [= <-] E Hdk. rewrite E in Hdk. cbn in Hdk. congruence.
      * apply (ok_private _ _ _ Hok).
    + intros s0 p op _ Hs0 Hp0. rewrite Hat. destruct (decide (p = i)) as [->|]; [by destruct (Hno s0 Hs0)|]. by apply (ok_links _ _ _ Hok s0 p op).
    + intros s0 p Hs0 Hp0. unfold w'. cbn [objs]. rewrite length_app. pose proof (ok_targets _ _ _ Hok s0 p Hs0 Hp0). lia.
  - intros p h Hph. exists h. split; [|reflexivity]. unfold w'. cbn [objs]. by rewrite lookup_app_l by (by eapply lookup_lt_Some).
  - intros s0 d _ Hd0 Hf. split; [by exists d|]. done.
  - intros _ s0 p op Hs0 Hp0 Ho. exists op. rewrite Hat, decide_False; [done|]. intros ->. by destruct (Hno s0 Hs0).
  - intros j. unfold own. rewrite Hat. change (rt w') with (rt w). destruct (decide (j = i)) as [->|]; [|done]. rewrite Hnone. cbn. by rewrite Een.
  - exists o. rewrite Hat, decide_True by done. split_and!; [done| |].
    + unfold own. rewrite Hat, decide_True by done. change (rt w') with (rt w). cbn. by rewrite Een.
    + unfold prototypeValue. change (rt w') with (rt w). cbn. by rewrite (ok_self _ _ (ok_nodes _ (ok_runtime _ _ _ Hok) _ Hs) Hp Hd).
Qed.
End Adds.
