(* ===== verification/InlineCache.v ===== *)
(** * Inline caches and property reads (src/src/runtime/object.h, object.cpp, rt_prop_absent.cpp)

    The entries and sites of [object.h], the walks along prototype chains,
    [ObjectHeader::getProp] with what it installs in its site, and the negative
    entries of rt_prop_absent.cpp.  A read answers what the walk without a cache would,
    as long as the entries of its site are [entry_ok], which is what every fill makes
    them and what every operation of Objects.v leaves them.

    A read that has to call a getter, or to ask a proxy, ends in a request to do so:
    the call is the caller's. *)
From S2P Require Import Prelude Float64 Values Dictionary Shapes Objects ObjectSteps ObjectAdds.
Local Open Scope Z_scope.
Local Open Scope bool_scope.

(** ** Entries *)

Inductive CachedShape := NoShape | ArrayMethodShape | RealShape (s : nat).

#[global] Instance CachedShape_eq_dec : EqDecision CachedShape.
Proof. solve_decision. Defined.

Record InlineCache := mkCache { cached_shape : CachedShape; cached_slot : Z; cached_depth : Z; cached_epoch : Z }.

Definition DEPTH_ACCESSOR_FLAG : Z := 0x80000000.
Definition DEPTH_ABSENT_FLAG : Z := 0x40000000.
Definition DEPTH_DOUBLE_FLAG : Z := 0x20000000.

Definition isArrayMethod (c : InlineCache) : bool := bool_decide (cached_shape c = ArrayMethodShape).
Definition isRealShape (c : InlineCache) : bool := negb (bool_decide (cached_shape c = NoShape)) && negb (isArrayMethod c).
Definition isAccessor (c : InlineCache) : bool := negb (Z.land (cached_depth c) DEPTH_ACCESSOR_FLAG =? 0).
Definition isAbsent (c : InlineCache) : bool := negb (Z.land (cached_depth c) DEPTH_ABSENT_FLAG =? 0).
Definition realDepth (c : InlineCache) : Z :=
  Z.land (cached_depth c) (Z.lxor 0xFFFFFFFF (Z.lor DEPTH_ACCESSOR_FLAG (Z.lor DEPTH_ABSENT_FLAG DEPTH_DOUBLE_FLAG))).
Definition isDoubleSlot (c : InlineCache) : bool := negb (Z.land (cached_depth c) DEPTH_DOUBLE_FLAG =? 0).

Definition describes (epoch : Z) (c : InlineCache) (s : nat) : bool :=
  isRealShape c && negb (isAbsent c) && bool_decide (cached_shape c = RealShape s) &&
  ((realDepth c =? 0) || (cached_epoch c =? epoch)).
Definition describesAbsent (epoch : Z) (c : InlineCache) (s : nat) : bool :=
  isRealShape c && isAbsent c && bool_decide (cached_shape c = RealShape s) && (cached_epoch c =? epoch).
Definition describesOwn (c : InlineCache) (s : nat) : bool :=
  isRealShape c && negb (isAccessor c) && negb (isAbsent c) && (realDepth c =? 0) && bool_decide (cached_shape c = RealShape s).

Definition fill (epoch : Z) (s : nat) (slot_ depth : Z) : InlineCache := mkCache (RealShape s) slot_ depth epoch.
Definition fillForSet (epoch : Z) (s : nat) (slot_ : Z) (doubleSlot : bool) : InlineCache :=
  mkCache (RealShape s) slot_ (if doubleSlot then DEPTH_DOUBLE_FLAG else 0) epoch.
Definition fillAccessor (epoch : Z) (s : nat) (slot_ depth : Z) : InlineCache :=
  mkCache (RealShape s) slot_ (Z.lor depth DEPTH_ACCESSOR_FLAG) epoch.
Definition fillAbsent (epoch : Z) (s : nat) : InlineCache := mkCache (RealShape s) 0 DEPTH_ABSENT_FLAG epoch.
Definition fillArrayMethod (methodId : Z) : InlineCache := mkCache ArrayMethodShape methodId 0 0.

(** ** Sites *)

Definition empty_cache : InlineCache := mkCache NoShape 0 0 0.
Definition IC_WAYS : nat := 4.

(** [InlineCacheSite]: [IC_WAYS] entries, way 0 first. *)
Definition Site : Type := list InlineCache.

Definition for_shape (s : nat) (c : InlineCache) : bool := isRealShape c && bool_decide (cached_shape c = RealShape s).

Definition site_find (site : Site) (s : nat) : option InlineCache := List.find (for_shape s) site.

Fixpoint way_of (site : Site) (s : nat) : option nat :=
  match site with [] => None | c :: site => if for_shape s c then Some O else option_map S (way_of site s) end.

Definition way (site : Site) (i : nat) : InlineCache := List.nth i site empty_cache.

(** The site with room for the next entry, and the way that is to hold it. *)
Definition slotForInstall (site : Site) (s : nat) : Site * nat :=
  match way_of site s with
  | Some i => (site, i)
  | None =>
      let first := if isArrayMethod (way site 0) then 1%nat else 0%nat in
      (fold_left (fun site i => <[i := way site (i - 1)]> site) (rev (List.seq (first + 1) (IC_WAYS - 1 - first))) site, first)
  end.

Definition install (site : Site) (s : nat) (c : InlineCache) : Site :=
  let '(site, i) := slotForInstall site s in <[i := c]> site.

(** ** Walks *)

Definition kMaxPrototypeDepth : nat := 1000.

(** One link: the prototype, when it is an object that carries a shape. *)
Definition proto_link (w : World) (i : nat) : option nat :=
  match object_at w i with
  | Some o => match prototypeValue (rt w) (shape o) with
              | VObject p => match object_at w p with Some _ => Some p | None => None end
              | _ => None end
  | None => None
  end.

Fixpoint protoAncestor (w : World) (i : nat) (depth : nat) : option nat :=
  match depth with O => Some i | S depth => match proto_link w i with Some p => protoAncestor w p depth | None => None end end.

Inductive Holder := HolderAt (p : nat) | CrossedDictionary | NoHolder.

#[global] Instance Holder_eq_dec : EqDecision Holder.
Proof. solve_decision. Defined.

Definition cacheable_at (w : World) (i : nat) : bool :=
  match object_at w i with Some o => readCacheable (shape_of w o) | None => false end.

Fixpoint cachedProtoHolder (w : World) (i : nat) (depth : nat) : Holder :=
  match depth with
  | O => HolderAt i
  | S depth =>
      match proto_link w i with
      | None => NoHolder
      | Some p => if negb (cacheable_at w p) then CrossedDictionary else cachedProtoHolder w p depth
      end
  end.

Fixpoint chain_cacheable (fuel : nat) (w : World) (i : nat) : bool :=
  match fuel, object_at w i with
  | S fuel, Some o =>
      match prototypeValue (rt w) (shape o) with
      | VObject p =>
          match object_at w p with
          | None => false
          | Some q =>
              if negb (readCacheable (shape_of w q)) then false
              else if negb (used_as_prototype (shape_of w q)) && negb (isDictionary (shape_of w q)) then false
              else chain_cacheable fuel w p
          end
      | _ => true
      end
  | _, _ => false
  end.

Definition chainIsCacheable (w : World) (i : nat) : bool := cacheable_at w i && chain_cacheable (S kMaxPrototypeDepth) w i.

(** ** Reads *)

Inductive GetOutcome :=
  | Answer (v : Value)
  | CallGetter (getter : nat) (receiver : Value)
  | AskProxy (proxy : nat) (receiver : Value)
  | NotAKey
  | TooDeep.

(** [callGetter]: what is in the slot is [undefined] or a function. *)
Definition callGetter (w : World) (getter receiver : Value) : option GetOutcome :=
  if isUndefined getter then Some (Answer VUndefined)
  else match getter with
       | VObject p => match objs w !! p with Some (FunctionObject _) => Some (CallGetter p receiver) | _ => None end
       | _ => None
       end.

(** A hit: [Some None] is to fall through to the walk. *)
Definition cache_hit (w : World) (i : nat) (c : InlineCache) (receiver : Value) : option (option GetOutcome) :=
  if isAccessor c then
    match (if 0 <? realDepth c then cachedProtoHolder w i (Z.to_nat (realDepth c)) else HolderAt i) with
    | HolderAt h => let? getter := getSlot w h (cached_slot c) in let? r := callGetter w getter receiver in Some (Some r)
    | _ => Some None
    end
  else if cached_depth c =? 0 then let? v := getSlot w i (cached_slot c) in Some (Some (Answer v))
  else
    match cachedProtoHolder w i (Z.to_nat (cached_depth c)) with
    | HolderAt h => let? v := getSlot w h (cached_slot c) in Some (Some (Answer v))
    | CrossedDictionary => Some None
    | NoHolder => None
    end.

Section Reads.
Context (symbol_address : nat -> Z) (fills_suppressed : bool).

(** What a read leaves in the site once it has found a property [depth] links up. *)
Definition filled_site (w : World) (i : nat) (site : option Site) (info : DictEntry) (depth : nat) (holder : nat) : option Site :=
  match site, object_at w i with
  | Some ways, Some o =>
      if readCacheable (shape_of w o) && negb fills_suppressed &&
         ((depth =? 0)%nat || bool_decide (cachedProtoHolder w i depth = HolderAt holder)) then
        let make := if accessor info then fillAccessor else fill in
        Some (install ways (shape o) (make (proto_epoch (rt w)) (shape o) (slot info) (Z.of_nat depth)))
      else site
  | _, _ => site
  end.

(** The walk; the flag is the absent witness. *)
Fixpoint read_walk (fuel : nat) (depth : nat) (w : World) (i holder : nat) (name : PropertyKey) (site : option Site) (receiver : Value)
    : option (GetOutcome * option Site * bool) :=
  match fuel with
  | O => Some (TooDeep, site, false)
  | S fuel =>
      let? o := object_at w holder in
      match lookupProperty symbol_address (rt w) (shape o) name with
      | Some (mkInfo info _) =>
          let site := filled_site w i site info depth holder in
          let? v := getSlot w holder (slot info) in
          if accessor info then let? r := callGetter w v receiver in Some (r, site, false)
          else Some (Answer v, site, false)
      | None =>
          match prototypeValue (rt w) (shape o) with
          | VObject p =>
              match objs w !! p with
              | Some ProxyObject => Some (AskProxy p receiver, site, false)
              | Some (Shaped _ _) => read_walk fuel (S depth) w i p name site receiver
              | _ => Some (Answer VUndefined, site, false)
              end
          | _ => Some (Answer VUndefined, site, true)
          end
      end
  end.

Definition getProp (w : World) (i : nat) (name : PropertyKey) (site : option Site) (receiver : option Value)
    : option (GetOutcome * option Site * bool) :=
  if negb (valid name) then Some (NotAKey, site, false)
  else
    let? o := object_at w i in
    let self := match receiver with Some v => v | None => VObject i end in
    let walk := read_walk (S kMaxPrototypeDepth) 0 w i i name site self in
    match match site with Some ways => site_find ways (shape o) | None => None end with
    | Some c =>
        if describesAbsent (proto_epoch (rt w)) c (shape o) then Some (Answer VUndefined, site, false)
        else if describes (proto_epoch (rt w)) c (shape o) then
          let? hit := cache_hit w i c self in
          match hit with Some r => Some (r, site, false) | None => walk end
        else walk
    | None => walk
    end.

(** [rtInstallAbsentEntry]; [index_or_length] is the refusal of the key. *)
Definition rtInstallAbsentEntry (w : World) (site : option Site) (i : nat) (index_or_length : bool) : option Site :=
  match site, object_at w i with
  | Some ways, Some o =>
      if fills_suppressed || index_or_length || negb (chainIsCacheable w i) then site
      else Some (install ways (shape o) (fillAbsent (proto_epoch (rt w)) (shape o)))
  | _, _ => site
  end.
End Reads.

(** ** What an entry says *)

Section Caches.
Context {symbol_address : nat -> Z} (fills_suppressed : bool).
#[local] Notation world_ok := (Objects.world_ok symbol_address).
#[local] Notation stable := (Objects.stable symbol_address).
#[local] Notation locate := (Objects.locate symbol_address).

(** What the [n]th object of the chain has, the shape [s] being the first's, when the
    ones before have no such property. *)
Fixpoint find_at (w : World) (s : nat) (name : PropertyKey) (n : nat) : option (Z * bool) :=
  match n with
  | O => locate (rt w) s name
  | S n =>
      match locate (rt w) s name, prototypeValue (rt w) s with
      | None, VObject p => let? o := object_at w p in find_at w (shape o) name n
      | _, _ => None
      end
  end.

(** The chain ends after [n] links, and no object of it has the property. *)
Fixpoint absent_at (w : World) (s : nat) (name : PropertyKey) (n : nat) : bool :=
  match locate (rt w) s name, prototypeValue (rt w) s, n with
  | None, VObject p, S n => match object_at w p with Some o => absent_at w (shape o) name n | None => false end
  | None, VObject _, O => false
  | None, _, O => true
  | _, _, _ => false
  end.

Definition depth_code (acc : bool) (n : nat) : Z := if acc then Z.lor (Z.of_nat n) DEPTH_ACCESSOR_FLAG else Z.of_nat n.

(** An entry of a site that reads [name]. *)
Definition entry_ok (w : World) (name : PropertyKey) (c : InlineCache) : Prop :=
  match cached_shape c with
  | RealShape s =>
      (s < next_id (rt w))%nat /\ readCacheable (shape_at (rt w) s) = true /\ cached_epoch c <= proto_epoch (rt w) /\
      ((exists n acc, (n <= kMaxPrototypeDepth)%nat /\ cached_depth c = depth_code acc n /\
          (n = 0%nat \/ cached_epoch c = proto_epoch (rt w) -> find_at w s name n = Some (cached_slot c, acc))) \/
       cached_depth c = DEPTH_ABSENT_FLAG /\
          (cached_epoch c = proto_epoch (rt w) -> exists n, (n <= kMaxPrototypeDepth)%nat /\ absent_at w s name n = true))
  | _ => True
  end.

Definition site_ok (w : World) (name : PropertyKey) (ways : Site) : Prop := length ways = IC_WAYS /\ Forall (entry_ok w name) ways.

(** What every operation keeps, whatever the epoch of the entry. *)
Definition kept (w w' : World) : Prop := forall since, since <= proto_epoch (rt w) -> stable since w w'.

(** ** Entries last *)

Lemma find_at_stable since w w' name : world_ok w -> stable since w w' -> proto_epoch (rt w') <= since ->
  forall n s s' x, (s < next_id (rt w))%nat -> locate (rt w') s' name = locate (rt w) s name ->
  prototypeValue (rt w') s' = prototypeValue (rt w) s -> find_at w s name n = Some x -> find_at w' s' name n = Some x.
Proof.
  intros Hok Hst He. induction n as [|n IH]; intros s s' x Hs Hl Hp; cbn [find_at]; rewrite Hl, ?Hp; [done|].
  destruct (locate (rt w) s name); [done|]. destruct (prototypeValue (rt w) s) as [| | |p| | |] eqn:Epv; try done.
  destruct (object_at w p) as [o|] eqn:Ho; [|done]. destruct (ok_root _ _ (ok_nodes _ (ok_runtime _ _ _ Hok) s Hs)) as (R1 & _).
  destruct (st_links _ _ Hst He _ p o R1 Epv Ho) as (o' & -> & Hl' & Hp'). apply IH; [apply (ok_objects _ _ _ Hok p o Ho)|done|done].
Qed.

Lemma absent_at_stable since w w' name : world_ok w -> stable since w w' -> proto_epoch (rt w') <= since ->
  forall n s s', (s < next_id (rt w))%nat -> locate (rt w') s' name = locate (rt w) s name ->
  prototypeValue (rt w') s' = prototypeValue (rt w) s -> absent_at w s name n = true -> absent_at w' s' name n = true.
Proof.
  intros Hok Hst He. induction n as [|n IH]; intros s s' Hs Hl Hp; cbn [absent_at]; rewrite Hl, ?Hp; [done|].
  destruct (locate (rt w) s name); [done|]. destruct (prototypeValue (rt w) s) as [| | |p| | |] eqn:Epv; try done.
  destruct (object_at w p) as [o|] eqn:Ho; [|done]. destruct (ok_root _ _ (ok_nodes _ (ok_runtime _ _ _ Hok) s Hs)) as (R1 & _).
  destruct (st_links _ _ Hst He _ p o R1 Epv Ho) as (o' & -> & Hl' & Hp'). apply IH; [apply (ok_objects _ _ _ Hok p o Ho)|done|done].
Qed.

(** The shape of an entry, while the epoch stands. *)
Lemma cacheable_stable since w w' s : stable since w w' -> (s < next_id (rt w))%nat -> readCacheable (shape_at (rt w) s) = true ->
  readCacheable (shape_at (rt w') s) = true /\ (forall name, locate (rt w') s name = locate (rt w) s name) /\
  (proto_epoch (rt w') <= since -> prototypeValue (rt w') s = prototypeValue (rt w) s).
Proof.
  intros Hst Hs. unfold readCacheable at 1. destruct (shape_dict (shape_at (rt w) s)) as [d|] eqn:Ed.
  - destruct (level d) eqn:El; try done. intros _. destruct (st_frozen _ _ Hst s d Hs Ed El) as ((d' & Hd' & Hl') & H2 & H3).
    split_and!; [|done|done]. unfold readCacheable. by rewrite Hd', Hl'.
  - intros _. destruct (st_trees _ _ Hst s Hs) as [H1 _ _ _ _ H2 H3]; [by unfold isDictionary; rewrite Ed|].
    split_and!; [|done|done]. unfold readCacheable. unfold isDictionary in H1. by destruct (shape_dict (shape_at (rt w') s)).
Qed.

Lemma entry_kept w w' name c : world_ok w -> kept w w' -> entry_ok w name c -> entry_ok w' name c.
Proof.
  intros Hok Hk. unfold entry_ok. destruct (cached_shape c) as [| |s]; [done..|]. intros (Hs & Hr & He & Hc).
  pose proof (Hk (cached_epoch c) He) as Hst. destruct (cacheable_stable _ w w' s Hst Hs Hr) as (Hr' & Hl & Hp).
  pose proof (st_next _ _ Hst). pose proof (st_epoch _ _ Hst). split_and!; [lia|done|lia|].
  destruct Hc as [(n & acc & Hn & Hd & Hf)|[Hd Hf]]; [left; exists n, acc; split_and!; [done|done|]|right; split; [done|]].
  - intros [->|E]; [cbn in *; rewrite Hl; apply Hf; by left|].
    apply (find_at_stable (cached_epoch c) w w' name Hok Hst ltac:(lia) n s); [done|done|apply Hp; lia|]. apply Hf. right. lia.
  - intros E. destruct Hf as (n & Hn & Ha); [lia|]. exists n. split; [done|].
    apply (absent_at_stable (cached_epoch c) w w' name Hok Hst ltac:(lia) n s); [done|done|apply Hp; lia|done].
Qed.

Lemma site_kept w w' name ways : world_ok w -> kept w w' -> site_ok w name ways -> site_ok w' name ways.
Proof. intros Hok Hk [Hl Hf]. split; [done|]. eapply Forall_impl; [exact Hf|]. intros c. by apply entry_kept. Qed.

(** ** What a hit reads *)

Definition depth_codes_ok (acc : bool) (n : nat) : bool :=
  let c := mkCache NoShape 0 (depth_code acc n) 0 in
  Bool.eqb (isAccessor c) acc && negb (isAbsent c) && (realDepth c =? Z.of_nat n) && (0 <=? depth_code acc n).

Lemma depth_codes : forallb (fun n => depth_codes_ok false n && depth_codes_ok true n) (List.seq 0 (S kMaxPrototypeDepth)) = true.
Proof. by vm_compute. Qed.

Lemma depth_code_spec c n acc : (n <= kMaxPrototypeDepth)%nat -> cached_depth c = depth_code acc n ->
  isAccessor c = acc /\ isAbsent c = false /\ realDepth c = Z.of_nat n.
Proof.
  intros Hn Hc. pose proof (proj1 (forallb_forall _ _) depth_codes n) as H.
  specialize (H ltac:(apply in_seq; lia)). apply andb_true_iff in H as [H0 H1].
  assert (depth_codes_ok acc n = true) as H by (by destruct acc). unfold depth_codes_ok in H.
  unfold isAccessor, isAbsent, realDepth in *. rewrite Hc. cbn [cached_depth] in H. rewrite !andb_true_iff in H.
  destruct H as [[[H2%eqb_prop H3%negb_true_iff] H4%Z.eqb_eq] _]. done.
Qed.

(** The walk of [n] links that an entry stands for. *)
Lemma found_holder w i o name : object_at w i = Some o -> forall n x, find_at w (shape o) name n = Some x ->
  exists h ho, protoAncestor w i n = Some h /\ object_at w h = Some ho /\ locate (rt w) (shape ho) name = Some x /\
    (cachedProtoHolder w i n = HolderAt h \/ cachedProtoHolder w i n = CrossedDictionary).
Proof.
  intros Ho n. revert i o Ho. induction n as [|n IH]; intros i o Ho x; cbn [find_at protoAncestor cachedProtoHolder].
  { intros Hx. exists i, o. split_and!; [done..|by left]. }
  destruct (locate (rt w) (shape o) name); [done|]. unfold proto_link. rewrite Ho.
  destruct (prototypeValue (rt w) (shape o)) as [| | |p| | |]; try done. destruct (object_at w p) as [op|] eqn:Hp; [|done].
  intros (h & ho & H1 & H2 & H3 & H4)%(IH p op Hp). exists h, ho. split_and!; [done..|]. destruct (negb _); [by right|done].
Qed.

Definition outcome (x : option (GetOutcome * option Site * bool)) : option GetOutcome := option_map (fun r => fst (fst r)) x.

Definition read_at (w : World) (h : nat) (x : Z * bool) (receiver : Value) : option GetOutcome :=
  let? v := getSlot w h (fst x) in if snd x then callGetter w v receiver else Some (Answer v).

Lemma locate_lookup r s name : match lookupProperty symbol_address r s name with
  | Some p => locate r s name = Some (slot (ientry p), accessor (ientry p)) | None => locate r s name = None end.
Proof. unfold Objects.locate. by destruct (lookupProperty _ _ _ _). Qed.

Lemma object_kind w p o : object_at w p = Some o -> exists k, objs w !! p = Some (Shaped k o).
Proof. unfold object_at. destruct (objs w !! p) as [[k o'| | |]|]; try done. intros [= ->]. by exists k. Qed.

Lemma found_walk w i name : forall n x holder o fuel depth site recv, object_at w holder = Some o -> find_at w (shape o) name n = Some x ->
  (n < fuel)%nat -> exists h, protoAncestor w holder n = Some h /\
    outcome (read_walk symbol_address fills_suppressed fuel depth w i holder name site recv) = read_at w h x recv.
Proof.
  induction n as [|n IH]; intros x holder o [|fuel] depth site recv Ho Hf Hlt; try lia; cbn [find_at read_walk protoAncestor] in *; rewrite Ho.
  - exists holder. split; [done|]. pose proof (locate_lookup (rt w) (shape o) name) as Hl.
    destruct (lookupProperty symbol_address (rt w) (shape o) name) as [[e re]|]; [|congruence]. cbn [ientry] in *.
    assert (x = (slot e, accessor e)) as -> by congruence. unfold read_at. cbn [fst snd].
    destruct (getSlot w holder (slot e)) as [v|]; [|done]. destruct (accessor e); [|done]. by destruct (callGetter w v recv).
  - pose proof (locate_lookup (rt w) (shape o) name) as Hl. destruct (lookupProperty symbol_address (rt w) (shape o) name) as [[e re]|].
    { by rewrite Hl in Hf. }
    rewrite Hl in Hf. unfold proto_link. rewrite Ho. destruct (prototypeValue (rt w) (shape o)) as [| | |p| | |]; try done.
    destruct (object_at w p) as [op|] eqn:Hp; [|done]. destruct (object_kind w p op Hp) as (k & ->).
    apply (IH x p op fuel (S depth) site recv Hp Hf). lia.
Qed.

Lemma absent_walk w i name : forall n holder o fuel depth site recv, object_at w holder = Some o -> absent_at w (shape o) name n = true ->
  (n < fuel)%nat -> outcome (read_walk symbol_address fills_suppressed fuel depth w i holder name site recv) = Some (Answer VUndefined).
Proof.
  induction n as [|n IH]; intros holder o [|fuel] depth site recv Ho Hf Hlt; try lia; cbn [absent_at read_walk] in *; rewrite Ho;
    pose proof (locate_lookup (rt w) (shape o) name) as Hl;
    (destruct (lookupProperty symbol_address (rt w) (shape o) name) as [[e re]|]; rewrite Hl in Hf; [done|]);
    destruct (prototypeValue (rt w) (shape o)) as [| | |p| | |]; try done.
  destruct (object_at w p) as [op|] eqn:Hp; [|done]. destruct (object_kind w p op Hp) as (k & ->).
  apply (IH p op fuel (S depth) site recv Hp Hf). lia.
Qed.

(** The answer does not depend on the site. *)
Lemma walk_site w i name recv : forall fuel depth holder site,
  outcome (read_walk symbol_address fills_suppressed fuel depth w i holder name site recv) =
  outcome (read_walk symbol_address fills_suppressed fuel depth w i holder name None recv).
Proof.
  induction fuel as [|fuel IH]; intros depth holder site; cbn [read_walk]; [done|].
  destruct (object_at w holder) as [o|]; [|done]. destruct (lookupProperty _ _ _ _) as [[e re]|].
  - destruct (getSlot w holder (slot e)) as [v|]; [|done]. destruct (accessor e); [|done]. by destruct (callGetter w v recv).
  - destruct (prototypeValue (rt w) (shape o)) as [| | |p| | |]; try done. destruct (objs w !! p) as [[]|]; done.
Qed.

(** A hit answers what the walk does. *)
Lemma hit_walk w i o name c recv : object_at w i = Some o -> entry_ok w name c -> cached_shape c = RealShape (shape o) ->
  describes (proto_epoch (rt w)) c (shape o) = true ->
  exists hit, cache_hit w i c recv = hit /\
    match hit with
    | None => outcome (read_walk symbol_address fills_suppressed (S kMaxPrototypeDepth) 0 w i i name None recv) = None
    | Some (Some r) => outcome (read_walk symbol_address fills_suppressed (S kMaxPrototypeDepth) 0 w i i name None recv) = Some r
    | Some None => True
    end.
Proof.
  intros Ho Hc Hs Hd. unfold entry_ok in Hc. rewrite Hs in Hc. destruct Hc as (_ & _ & _ & [(n & acc & Hn & Hcd & Hf)|[Ha _]]).
  2: { unfold describes, isAbsent in Hd. rewrite Ha in Hd. change (Z.land DEPTH_ABSENT_FLAG DEPTH_ABSENT_FLAG =? 0) with false in Hd.
       cbn in Hd. by rewrite andb_false_r in Hd. }
  destruct (depth_code_spec c n acc Hn Hcd) as (Eacc & Eab & Erd). unfold describes in Hd. rewrite Erd in Hd.
  apply andb_true_iff in Hd as [_ Hd]. assert (find_at w (shape o) name n = Some (cached_slot c, acc)) as Hfind.
  { apply Hf. apply orb_true_iff in Hd as [E%Z.eqb_eq|E%Z.eqb_eq]; [left; lia|by right]. }
  destruct (found_holder w i o name Ho n _ Hfind) as (h & ho & Hanc & Hho & _ & Hholder).
  destruct (found_walk w i name n _ i o (S kMaxPrototypeDepth) 0 None recv Ho Hfind ltac:(lia)) as (h' & Hanc' & Hwalk).
  assert (h' = h) as -> by congruence. rewrite Hwalk. eexists. split; [done|]. unfold cache_hit, read_at. rewrite Eacc, Erd. cbn [fst snd].
  assert (match (if 0 <? Z.of_nat n then cachedProtoHolder w i (Z.to_nat (Z.of_nat n)) else HolderAt i) with
    | HolderAt q => q = h | CrossedDictionary => True | NoHolder => False end) as Hq.
  { rewrite Nat2Z.id. destruct (Z.ltb_spec 0 (Z.of_nat n)); [by destruct Hholder as [-> | ->]|].
    replace n with 0%nat in Hanc by lia. cbn in Hanc. congruence. }
  destruct acc.
  - revert Hq. destruct (if 0 <? Z.of_nat n then _ else _) as [q| |]; [intros ->|done..].
    destruct (getSlot w h (cached_slot c)) as [v|]; [|done]. by destruct (callGetter w v recv).
  - unfold depth_code in Hcd. rewrite Hcd. destruct (Z.eqb_spec (Z.of_nat n) 0) as [En|En].
    + replace n with 0%nat in Hanc by lia. cbn in Hanc. injection Hanc as ->. by destruct (getSlot w h (cached_slot c)).
    + rewrite (proj2 (Z.ltb_lt 0 (Z.of_nat n))) in Hq by lia. cbv iota in Hq. revert Hq. destruct (cachedProtoHolder w i (Z.to_nat (Z.of_nat n))) as [q| |]; [intros ->|done..].
      by destruct (getSlot w h (cached_slot c)).
Qed.

(** ** What a fill leaves *)

(** The objects from [ho] on are those of the chain of [o] past its first [d], and the
    first [d] have no such property. *)
Record past (w : World) (o : Object) (name : PropertyKey) (d : nat) (ho : Object) : Prop := {
  past_find : forall n x, find_at w (shape ho) name n = Some x -> find_at w (shape o) name (d + n) = Some x;
  past_absent : forall n, absent_at w (shape ho) name n = true -> absent_at w (shape o) name (d + n) = true
}.

Lemma past_step w o name d ho p op : past w o name d ho -> locate (rt w) (shape ho) name = None ->
  prototypeValue (rt w) (shape ho) = VObject p -> object_at w p = Some op -> past w o name (S d) op.
Proof.
  intros [H1 H2] Hl Hp Ho. split.
  - intros n x Hf. replace (S d + n)%nat with (d + S n)%nat by lia. apply H1. cbn. by rewrite Hl, Hp, Ho.
  - intros n Hf. replace (S d + n)%nat with (d + S n)%nat by lia. apply H2. cbn. by rewrite Hl, Hp, Ho.
Qed.

Lemma install_ok (P : InlineCache -> Prop) ways s c : length ways = IC_WAYS -> Forall P ways -> P c ->
  length (install ways s c) = IC_WAYS /\ Forall P (install ways s c).
Proof.
  intros Hl Hf Hc. unfold install, slotForInstall. destruct (way_of ways s) as [j|].
  { split; [by etransitivity; [apply length_insert|]|by apply Forall_insert]. }
  destruct ways as [|a [|b [|e [|g [|? ?]]]]]; try done. rewrite !Forall_cons in Hf. destruct Hf as (Ha & Hb & He & Hg & _).
  destruct (isArrayMethod _); cbn; split; try done; rewrite !Forall_cons; split_and!; done.
Qed.

Lemma filled_ok w i o name ways info depth holder ho : world_ok w -> object_at w i = Some o -> site_ok w name ways ->
  object_at w holder = Some ho -> past w o name depth ho -> (depth <= kMaxPrototypeDepth)%nat ->
  locate (rt w) (shape ho) name = Some (slot info, accessor info) ->
  exists ways', filled_site fills_suppressed w i (Some ways) info depth holder = Some ways' /\ site_ok w name ways'.
Proof.
  intros Hok Ho [Hl Hf] Hho Hpast Hd Hloc. unfold filled_site. rewrite Ho. destruct (_ && _) eqn:E; [|by exists ways].
  apply andb_true_iff in E as [[Hr _]%andb_true_iff _]. eexists. split; [done|]. apply install_ok; [done..|].
  pose proof (past_find _ _ _ _ _ Hpast 0%nat _ Hloc) as Hfind. rewrite Nat.add_0_r in Hfind. unfold entry_ok.
  destruct (accessor info) eqn:Ea; cbn [fillAccessor fill cached_shape cached_depth cached_slot cached_epoch];
    (split_and!; [apply (ok_objects _ _ _ Hok i o Ho)|done|done|left; exists depth, (accessor info); rewrite Ea; split_and!; done]).
Qed.

Lemma walk_fills w i o name ways recv : world_ok w -> object_at w i = Some o -> site_ok w name ways ->
  forall fuel depth holder ho r site b, object_at w holder = Some ho -> past w o name depth ho -> (depth + fuel = S kMaxPrototypeDepth)%nat ->
  read_walk symbol_address fills_suppressed fuel depth w i holder name (Some ways) recv = Some (r, site, b) ->
  (exists ways', site = Some ways' /\ site_ok w name ways') /\
  (b = true -> r = Answer VUndefined /\ exists n, (n <= kMaxPrototypeDepth)%nat /\ absent_at w (shape o) name n = true).
Proof.
  intros Hok Ho Hs. induction fuel as [|fuel IH]; intros depth holder ho r site b Hho Hpast Hd; cbn [read_walk].
  { intros [= <- <- <-]. split; [by exists ways|done]. }
  rewrite Hho. pose proof (locate_lookup (rt w) (shape ho) name) as Hl.
  destruct (lookupProperty symbol_address (rt w) (shape ho) name) as [[e re]|].
  - destruct (filled_ok w i o name ways e depth holder ho Hok Ho Hs Hho Hpast ltac:(lia) Hl) as (ways' & -> & Hs').
    destruct (getSlot w holder (slot e)) as [v|]; [|done]. destruct (accessor e).
    + destruct (callGetter w v recv); [|done]. intros [= <- <- <-]. split; [by exists ways'|done].
    + intros [= <- <- <-]. split; [by exists ways'|done].
  - destruct (prototypeValue (rt w) (shape ho)) as [| | |p| | |] eqn:Ep;
      try (intros [= <- <- <-]; split; [by exists ways|]; intros _; split; [done|]; exists depth; split; [lia|];
           rewrite <- (Nat.add_0_r depth); apply (past_absent _ _ _ _ _ Hpast); cbn; by rewrite Hl, Ep).
    destruct (objs w !! p) as [[k op|f| |]|] eqn:Eo; try (intros [= <- <- <-]; split; [by exists ways|done]).
    assert (object_at w p = Some op) as Hop by (unfold object_at; by rewrite Eo).
    apply (IH (S depth) p op r site b Hop); [by eapply past_step|lia].
Qed.

(** ** Reads through a site *)

Lemma site_find_spec ways s c : site_find ways s = Some c -> In c ways /\ cached_shape c = RealShape s.
Proof. intros [Hin [_ H%bool_decide_eq_true]%andb_true_iff]%List.find_some. done. Qed.

Lemma getProp_walk w i o name recv : valid name = true -> object_at w i = Some o ->
  outcome (getProp symbol_address fills_suppressed w i name None recv) =
  outcome (read_walk symbol_address fills_suppressed (S kMaxPrototypeDepth) 0 w i i name None (match recv with Some v => v | None => VObject i end)).
Proof. intros Hv Ho. unfold getProp. by rewrite Hv, Ho. Qed.

Lemma getProp_cached w i o name ways recv : world_ok w -> object_at w i = Some o -> valid name = true -> site_ok w name ways ->
  outcome (getProp symbol_address fills_suppressed w i name (Some ways) recv) =
    outcome (getProp symbol_address fills_suppressed w i name None recv) /\
  forall r site b, getProp symbol_address fills_suppressed w i name (Some ways) recv = Some (r, site, b) ->
    exists ways', site = Some ways' /\ site_ok w name ways' /\
    (b = true -> r = Answer VUndefined /\ exists n, (n <= kMaxPrototypeDepth)%nat /\ absent_at w (shape o) name n = true).
Proof.
  intros Hok Ho Hv Hs. rewrite (getProp_walk w i o name recv Hv Ho). unfold getProp. rewrite Hv, Ho. cbn [negb].
  set (self := match recv with Some v => v | None => VObject i end). set (walk := read_walk _ _ _ _ _ _ _ _ (Some ways) _).
  assert (outcome walk = outcome (read_walk symbol_address fills_suppressed (S kMaxPrototypeDepth) 0 w i i name None self)) as Hw by apply walk_site.
  assert (forall r site b, walk = Some (r, site, b) -> exists ways', site = Some ways' /\ site_ok w name ways' /\
    (b = true -> r = Answer VUndefined /\ exists n, (n <= kMaxPrototypeDepth)%nat /\ absent_at w (shape o) name n = true)) as Hsite.
  { intros r site b E. assert (past w o name 0 o) as Hpast by (by split).
    destruct (walk_fills w i o name ways self Hok Ho Hs _ 0%nat i o r site b Ho Hpast eq_refl E) as [(ways' & -> & H) H']. by exists ways'. }
  destruct (site_find ways (shape o)) as [c|] eqn:Ec; [|done]. destruct (site_find_spec _ _ _ Ec) as [Hin Hshape].
  assert (entry_ok w name c) as Hc by (destruct Hs as [_ Hf]; rewrite Forall_forall in Hf; apply Hf; by apply list_elem_of_In).
  destruct (describesAbsent (proto_epoch (rt w)) c (shape o)) eqn:Ea.
  { split; [|intros r site b [= <- <- <-]; exists ways; by split_and!]. symmetry. cbn [outcome option_map fst].
    unfold describesAbsent in Ea. rewrite !andb_true_iff in Ea. destruct Ea as [[[_ Ha] _] He%Z.eqb_eq].
    unfold entry_ok in Hc. rewrite Hshape in Hc. destruct Hc as (_ & _ & _ & [(n & acc & Hn & Hcd & _)|[_ Hf]]).
    - destruct (depth_code_spec c n acc Hn Hcd) as (_ & Eab & _). congruence.
    - destruct (Hf He) as (n & Hn & Habs). apply (absent_walk w i name n i o); [done|done|lia]. }
  destruct (describes (proto_epoch (rt w)) c (shape o)) eqn:Ed; [|done].
  destruct (hit_walk w i o name c self Ho Hc Hshape Ed) as (hit & -> & Hhit).
  destruct hit as [[r|]|]; [|done|].
  - split; [by rewrite Hhit|]. intros r' site b [= <- <- <-]. exists ways. by split_and!.
  - split; [by rewrite Hhit|]. done.
Qed.

Lemma chain_cacheable_shape w i o : object_at w i = Some o -> chainIsCacheable w i = true -> readCacheable (shape_of w o) = true.
Proof. unfold chainIsCacheable, cacheable_at. intros ->. by intros [? _]%andb_true_iff. Qed.

Lemma absent_fill_ok w i o name ways refused n : world_ok w -> object_at w i = Some o -> site_ok w name ways ->
  (n <= kMaxPrototypeDepth)%nat -> absent_at w (shape o) name n = true ->
  exists ways', rtInstallAbsentEntry fills_suppressed w (Some ways) i refused = Some ways' /\ site_ok w name ways'.
Proof.
  intros Hok Ho [Hl Hf] Hn Ha. unfold rtInstallAbsentEntry. rewrite Ho. destruct (_ || _) eqn:E; [by exists ways|].
  apply orb_false_iff in E as [_ Hc%negb_false_iff]. eexists. split; [done|]. apply install_ok; [done..|]. unfold entry_ok.
  cbn [fillAbsent cached_shape cached_depth cached_slot cached_epoch].
  split_and!; [apply (ok_objects _ _ _ Hok i o Ho)|by apply (chain_cacheable_shape w i o)|done|]. right. split; [done|]. intros _. by exists n.
Qed.
End Caches.
