(* ===== verification/PropertyWrite.v ===== *)
(** * Property writes (src/src/runtime/object.cpp)

    [ObjectHeader::setProp]: the store, the accessor and the transition a set-site
    entry can answer, the own property, the walk that looks for an inherited setter,
    and the property that is created, in either mode.  A write that has to call a
    setter, or to ask a proxy, ends in a request to do so. *)
From S2P Require Import Prelude Float64 Values Dictionary Shapes Objects ObjectSteps ObjectAdds InlineCache.
Local Open Scope Z_scope.
Local Open Scope bool_scope.

Inductive SetRefusal := NotWritable | NotExtensible | NoSetter.

Inductive SetOutcome :=
  | Stored
  | Refused (why : SetRefusal)
  | CallSetter (setter : nat) (receiver v : Value)
  | AskProxySet (proxy : nat) (receiver v : Value)
  | SetNotAKey
  | RedefineUnsupported.

Definition callSetter (w : World) (setter receiver v : Value) : option SetOutcome :=
  if isUndefined setter then Some (Refused NoSetter)
  else match setter with
       | VObject p => match objs w !! p with Some (FunctionObject _) => Some (CallSetter p receiver v) | _ => None end
       | _ => None
       end.

Definition is_function (w : World) (v : Value) : bool :=
  match v with VObject p => match objs w !! p with Some (FunctionObject _) => true | _ => false end | _ => false end.

Definition notePrototypeSlotOverwrite (w : World) (i : nat) (slot_ : Z) : option World :=
  let? o := object_at w i in
  if negb (used_as_prototype (shape_of w o)) then Some w
  else let? old := getSlot w i slot_ in
    Some (if is_function w old then with_runtime (bumpProtoMutationEpoch (rt w)) w else w).

Section Writes.
Context (symbol_address : nat -> Z) (fills_suppressed : bool) (slotReprEligible : PropertyKey -> bool).

Definition desiredSlotRepr (name : PropertyKey) (v : Value) (en acc wr conf : bool) : SlotRepr :=
  if acc || negb en || negb wr || negb conf then Boxed
  else if negb (slotReprAcceptsValue v) then Boxed
  else if negb (slotReprEligible name) then Boxed
  else Double.

(** The attributes of an entry of a table, written through the pointer [find] answers. *)
Definition with_attributes (name : PropertyKey) (wr conf : bool) (d : Dictionary) : Dictionary :=
  match Dictionary.find symbol_address d name with
  | Some pos =>
      let e := entryAt d pos in
      with_entries d (<[pos := mkEntry (key e) (slot e) (enumerable e) (accessor e) wr conf]> (entries d))
  | None => d
  end.

(** Does the entry record the transition this write would take? *)
Definition transition_hit (w : World) (o : Object) (c : InlineCache) (name : PropertyKey) (en wr conf : bool) : bool :=
  match cached_shape c with
  | RealShape next =>
      let s := shape_at (rt w) next in
      (cached_depth c =? 0) && negb (isDictionary (shape_of w o)) && bool_decide (parent s = Some (shape o)) &&
      (slot (node_own s) =? cached_slot c) &&
      enumerable (node_own s) && negb (accessor (node_own s)) && writable (node_own s) && configurable (node_own s) &&
      en && wr && conf && (cached_epoch c =? proto_epoch (rt w)) && matches (key (node_own s)) name
  | _ => false
  end.

Definition set_fill (w : World) (s : nat) (slot_ : Z) (ic : option InlineCache) : option InlineCache :=
  match ic with
  | Some c =>
      if negb (used_as_prototype (shape_at (rt w) s)) && negb fills_suppressed then
        Some (fillForSet (proto_epoch (rt w)) s slot_ (slotIsDouble (shape_at (rt w) s) slot_))
      else ic
  | None => None
  end.

Definition take_transition (w : World) (i : nat) (next : nat) (slot_ : Z) (v : Value) (ic : option InlineCache)
    : option (World * option InlineCache) :=
  let? o := object_at w i in
  let r := if used_as_prototype (shape_of w o) then bumpProtoMutationEpoch (rt w) else rt w in
  let r := noteShapeLeave (shape o) Add r in
  let? w := ensureSlots (with_runtime r w) i (slot_ + 1) in
  let? o := object_at w i in
  let w := set_object i (with_shape next o) w in
  let ic := set_fill w next slot_ ic in
  let? w := setSlot w i slot_ v in Some (w, ic).

(** What the walk above the receiver finds. *)
Inductive Inherited :=
  | Create
  | RefusedAbove
  | SetterAt (holder : nat) (slot_ : Z) (depth : nat)
  | ProxyAbove (proxy : nat).

Fixpoint inherited (fuel : nat) (depth : nat) (w : World) (holder : nat) (name : PropertyKey) : option Inherited :=
  match fuel with
  | O => Some Create
  | S fuel =>
      let? o := object_at w holder in
      match prototypeValue (rt w) (shape o) with
      | VObject p =>
          match objs w !! p with
          | Some ProxyObject => Some (ProxyAbove p)
          | Some (Shaped _ q) =>
              match lookupProperty symbol_address (rt w) (shape q) name with
              | None => inherited fuel (S depth) w p name
              | Some (mkInfo info _) =>
                  if accessor info then Some (SetterAt p (slot info) depth)
                  else if negb (writable info) &&
                          negb (match shape_dict (shape_of w q) with Some d => hardened d | None => false end) then Some RefusedAbove
                  else Some Create
              end
          | _ => Some Create
          end
      | _ => Some Create
      end
  end.

(** The new own property. *)
Definition create_property (w : World) (i : nat) (name : PropertyKey) (v : Value) (ic : option InlineCache) (en wr conf : bool)
    : option (World * option InlineCache * SetOutcome) :=
  let? o := object_at w i in
  let s := shape_of w o in
  if match shape_dict s with Some d => negb (extensible d) | None => false end then Some (w, ic, Refused NotExtensible)
  else
    let? w := if negb (isDictionary s) && (kDictionaryThreshold <? slotsUsedAfterAdd s 1) then toDictionary symbol_address w i Threshold else Some w in
    let? o := object_at w i in
    if isDictionary (shape_of w o) then
      let? (w, slot_) := dictDefine symbol_address w i name en false in
      let? o := object_at w i in
      let? d := shape_dict (shape_of w o) in
      let w := with_runtime (edit (with_dictionary (with_attributes name wr conf d)) (shape o) (rt w)) w in
      let? w := setSlot w i slot_ v in Some (w, ic, Stored)
    else
      let? (w, slot_) := add_on_tree w i name en false wr conf (desiredSlotRepr name v en false wr conf) in
      let? o := object_at w i in
      let ic := set_fill w (shape o) slot_ ic in
      let? w := setSlot w i slot_ v in Some (w, ic, Stored).

(** An accessor entry's answer; [None] inside is to go on. *)
Definition setter_hit (w : World) (i : nat) (o : Object) (ic : option InlineCache) (receiver v : Value) : option (option SetOutcome) :=
  match ic with
  | Some c =>
      if isRealShape c && describes (proto_epoch (rt w)) c (shape o) && isAccessor c then
        match (if 0 <? realDepth c then cachedProtoHolder w i (Z.to_nat (realDepth c)) else HolderAt i) with
        | HolderAt h => let? setter := getSlot w h (cached_slot c + 1) in let? r := callSetter w setter receiver v in Some (Some r)
        | _ => Some None
        end
      else Some None
  | None => Some None
  end.

Definition accessor_fill (w : World) (s : nat) (slot_ : Z) (depth : nat) (ok : bool) (ic : option InlineCache) : option InlineCache :=
  match ic with
  | Some c => if negb (isDictionary (shape_at (rt w) s)) && negb fills_suppressed && ok
              then Some (fillAccessor (proto_epoch (rt w)) s slot_ (Z.of_nat depth)) else ic
  | None => None
  end.

(** The write once the site has not answered it. *)
Definition set_uncached (w : World) (i : nat) (name : PropertyKey) (v : Value) (ic : option InlineCache)
    (en defineOwn wr conf : bool) (receiver : Value) : option (World * option InlineCache * SetOutcome) :=
  let? o := object_at w i in
  match lookupProperty symbol_address (rt w) (shape o) name with
  | Some (mkInfo own _) =>
      if accessor own then
        if defineOwn then Some (w, ic, RedefineUnsupported)
        else
          let ic := accessor_fill w (shape o) (slot own) 0 true ic in
          let? setter := getSlot w i (slot own + 1) in
          let? r := callSetter w setter receiver v in Some (w, ic, r)
      else if negb (writable own) then Some (w, ic, Refused NotWritable)
      else
        let ic := if isDictionary (shape_of w o) then ic else set_fill w (shape o) (slot own) ic in
        let? w := notePrototypeSlotOverwrite w i (slot own) in
        let? w := setSlot w i (slot own) v in Some (w, ic, Stored)
  | None =>
      let? above := if defineOwn then Some Create else inherited kMaxPrototypeDepth 1 w i name in
      match above with
      | ProxyAbove p => Some (w, ic, AskProxySet p receiver v)
      | RefusedAbove => Some (w, ic, Refused NotWritable)
      | SetterAt h slot_ depth =>
          let ic := accessor_fill w (shape o) slot_ depth (bool_decide (cachedProtoHolder w i depth = HolderAt h)) ic in
          let? setter := getSlot w h (slot_ + 1) in
          let? r := callSetter w setter receiver v in Some (w, ic, r)
      | Create => create_property w i name v ic en wr conf
      end
  end.

Definition setProp (w : World) (i : nat) (name : PropertyKey) (v : Value) (ic : option InlineCache)
    (en defineOwn wr conf : bool) (receiver : option Value) : option (World * option InlineCache * SetOutcome) :=
  if negb (valid name) then Some (w, ic, SetNotAKey)
  else
    let? o := object_at w i in
    let self := match receiver with Some v => v | None => VObject i end in
    let walk := set_uncached w i name v ic en defineOwn wr conf self in
    match ic with
    | Some c =>
        if describesOwn c (shape o) then let? w := setSlot w i (cached_slot c) v in Some (w, ic, Stored)
        else
          let? hit := setter_hit w i o ic self v in
          match hit with
          | Some r => Some (w, ic, r)
          | None =>
              if transition_hit w o c name en wr conf then
                match cached_shape c with
                | RealShape next => let? (w, ic) := take_transition w i next (cached_slot c) v ic in Some (w, ic, Stored)
                | _ => walk
                end
              else walk
          end
    | None => walk
    end.
End Writes.

(** ** What a write should do *)

(** The property list of an object, and what the walk above it finds, in terms of the
    property lists of its chain. *)
Inductive Above := AddsHere | NotHere | RunsSetter (setter : Value) | AsksProxy (proxy : nat).

Fixpoint above (fuel : nat) (w : World) (i : nat) (name : PropertyKey) : option Above :=
  match fuel with
  | O => Some AddsHere
  | S fuel =>
      let? o := object_at w i in
      match prototypeValue (rt w) (shape o) with
      | VObject p =>
          match objs w !! p with
          | Some ProxyObject => Some (AsksProxy p)
          | Some (Shaped _ q) =>
              match List.find (named name) (own w p) with
              | None => above fuel w p name
              | Some x =>
                  if paccessor x then Some (RunsSetter (List.nth 1 (pvalues x) VUndefined))
                  else if negb (pwritable x) &&
                          negb (match shape_dict (shape_of w q) with Some d => hardened d | None => false end) then Some NotHere
                  else Some AddsHere
              end
          | _ => Some AddsHere
          end
      | _ => Some AddsHere
      end
  end.

Definition extensible_at (w : World) (i : nat) : bool :=
  match object_at w i with
  | Some o => match shape_dict (shape_of w o) with Some d => extensible d | None => true end
  | None => false
  end.

(** An outcome that leaves the objects alone, or a stored value's effect on the list. *)
Inductive Effect := Leaves (r : option SetOutcome) | Puts (f : Value -> list Property).

Definition ordinary_set (w : World) (i : nat) (name : PropertyKey) (v : Value) (en defineOwn wr conf : bool) (receiver : Value) : Effect :=
  match List.find (named name) (own w i) with
  | Some p =>
      if paccessor p then
        if defineOwn then Leaves (Some RedefineUnsupported)
        else Leaves (callSetter w (List.nth 1 (pvalues p) VUndefined) receiver v)
      else if negb (pwritable p) then Leaves (Some (Refused NotWritable))
      else Puts (fun v' => set_values name [v'] (own w i))
  | None =>
      match (if defineOwn then Some AddsHere else above kMaxPrototypeDepth w i name) with
      | None => Leaves None
      | Some (AsksProxy p) => Leaves (Some (AskProxySet p receiver v))
      | Some NotHere => Leaves (Some (Refused NotWritable))
      | Some (RunsSetter s) => Leaves (callSetter w s receiver v)
      | Some AddsHere =>
          if extensible_at w i then Puts (fun v' => own w i ++ [mkProperty name en false wr conf [v']])
          else Leaves (Some (Refused NotExtensible))
      end
  end.

(** The value a slot keeps: the same, or the double the number is. *)
Definition same_number (v v' : Value) : Prop := v' = v \/ slotReprAcceptsValue v = true /\ v' = slotReprCanonicalize v.

Section Effects.
Context {symbol_address : nat -> Z} {since : Z} (fills_suppressed : bool) (slotReprEligible : PropertyKey -> bool).
#[local] Notation world_ok := (Objects.world_ok symbol_address).
#[local] Notation table_ok := (Objects.table_ok symbol_address).
#[local] Notation stable := (Objects.stable symbol_address since).
#[local] Notation edited := (ObjectAdds.edited (symbol_address := symbol_address) (since := since)).
#[local] Notation rewritten := (Objects.rewritten symbol_address since).
#[local] Notation setSlot_rewritten := (@Objects.setSlot_rewritten symbol_address since).
#[local] Notation setSlot_ok := (@Objects.setSlot_ok symbol_address since).
#[local] Notation toDictionary_ok := (@ObjectSteps.toDictionary_ok symbol_address since).

Definition does (w : World) (i : nat) (o : Object) (v : Value) (e : Effect) (res : option (World * option InlineCache * SetOutcome)) : Prop :=
  match e with
  | Leaves None => res = None
  | Leaves (Some r) => exists ic, res = Some (w, ic, r)
  | Puts f => exists w' ic o' v', res = Some (w', ic, Stored) /\ edited w i o w' o' /\ same_number v v' /\ own w' i = f v'
  end.

Lemma stored_form_number s index v : same_number v (stored_form s index v).
Proof. unfold stored_form. destruct (slotIsDouble s index); cbn; [|by left]. destruct (slotReprAcceptsValue v) eqn:E; [by right|by left]. Qed.

(** ** The attributes of a new entry *)

Lemma with_attributes_ok d name wr conf pos : dict_ok symbol_address d -> valid name = true -> Dictionary.find symbol_address d name = Some pos ->
  exists l1 l2, props d = l1 ++ entryAt d pos :: l2 /\
    let e := entryAt d pos in let e' := mkEntry (key e) (slot e) (enumerable e) (accessor e) wr conf in
    let d' := with_attributes symbol_address name wr conf d in
    dict_ok symbol_address d' /\ props d' = l1 ++ e' :: l2 /\ same_words d d' /\ nextSlot d' = nextSlot d /\ same_places d d'.
Proof.
  intros Hok Hv Ef. pose proof (dict_find_spec symbol_address d name Hv (Dictionary.ok_index _ _ Hok)) as Hf. rewrite Ef in Hf. destruct Hf as [Hl Hk].
  destruct (props_split d pos Hl) as (l1 & l2 & E & E'). exists l1, l2. split; [done|]. cbv zeta. unfold with_attributes. rewrite Ef.
  set (e := entryAt d pos) in *. set (e' := mkEntry _ _ _ _ _ _). set (d' := with_entries d _).
  assert (live e' = true) as Hle by exact Hl. assert (props d' = l1 ++ e' :: l2) as Ep by (unfold props; cbn; by rewrite E', Hle).
  split_and!; try done; [|by eapply same_places_replaced].
  eapply (edit_dict_ok symbol_address d _ pos e'); try done. eapply slots_ok_perm; [apply (Dictionary.ok_slots _ _ Hok)| |done|done].
  unfold taken. rewrite Ep, E, !slots_of_app, !slots_of_cons. done.
Qed.

(** ** The own property *)

Lemma store_own_ok w i o e v : world_ok w -> object_at w i = Some o -> In e (entries_of (rt w) (shape o)) -> accessor e = false ->
  exists w' o' v', setSlot w i (slot e) v = Some w' /\ edited w i o w' o' /\ same_number v v' /\
    own w' i = set_values (key e) [v'] (own w i).
Proof.
  intros Hok Ho He Ha. destruct (entries_ok None w i o Hok Ho) as (_ & _ & Hb). destruct (Hb e He) as (_ & B0 & B1). rewrite Ha in B1. cbn in B1.
  destruct (setSlot_rewritten w i o (slot e) v Hok Ho ltac:(lia)) as (w' & o' & E & R & S).
  exists w', o', (stored_form (shape_of w o) (slot e) v). split_and!; [done|by apply rewritten_edited|apply stored_form_number|].
  rewrite (own_rewritten w i o w' o' e Hok Ho (rw_at _ _ _ _ _ R) (rw_entries _ _ _ _ _ R) He).
  - unfold own_slots. rewrite Ha. cbn. by rewrite S, Z.eqb_refl.
  - intros s _ Hn. rewrite S. unfold own_slots in Hn. rewrite Ha in Hn. zbool; [|done]. destruct Hn. by left.
Qed.

Lemma getSlot_covered w i o s : object_at w i = Some o -> s < kOverflowSlot + overflowCapacity o -> getSlot w i s = Some (slotsData o s).
Proof. intros Ho Hs. unfold getSlot, rawSlot. rewrite Ho. zbool; done || lia. Qed.

Lemma note_ok w i o s : world_ok w -> object_at w i = Some o -> s < kOverflowSlot + overflowCapacity o ->
  exists w', notePrototypeSlotOverwrite w i s = Some w' /\ edited w i o w' o /\ own w' i = own w i /\
    entries_of (rt w') (shape o) = entries_of (rt w) (shape o).
Proof.
  intros Hok Ho Hs. unfold notePrototypeSlotOverwrite. rewrite Ho. destruct (negb _); [exists w; split_and!; by try constructor|].
  rewrite (getSlot_covered w i o s Ho Hs). destruct (is_function w _); [|exists w; split_and!; by try constructor].
  destruct (epoch_ok (since := since) None None w (bumpProtoMutationEpoch (rt w)) Hok eq_refl ltac:(cbn; lia)) as (A1 & A2 & A3).
  eexists. split; [done|]. split_and!; [|by eapply own_same; [done..|apply A3]|apply A3]. constructor; try done.
Qed.

(** The second half of an accessor, where the model and the list agree. *)
Lemma second_half w i o e : world_ok w -> object_at w i = Some o -> In e (entries_of (rt w) (shape o)) -> accessor e = true ->
  getSlot w i (slot e + 1) = Some (List.nth 1 (pvalues (view_in (slotsData o) e)) VUndefined).
Proof.
  intros Hok Ho He Ha. destruct (entries_ok None w i o Hok Ho) as (_ & _ & Hb). destruct (Hb e He) as (_ & B0 & B1). rewrite Ha in B1. cbn in B1.
  rewrite (getSlot_covered w i o) by (done || lia). cbn. unfold own_slots. by rewrite Ha.
Qed.

(** ** The created property *)

(** One more entry, the old slots as they were. *)
Lemma own_append w i o w' o' e : object_at w i = Some o -> object_at w' i = Some o' ->
  entries_of (rt w') (shape o') = entries_of (rt w) (shape o) ++ [e] ->
  (forall s, In s (slots_of (entries_of (rt w) (shape o))) -> slotsData o' s = slotsData o s) ->
  own w' i = own w i ++ [view_in (slotsData o') e].
Proof.
  intros Ho Ho' Ee Hs. unfold own. rewrite Ho, Ho', Ee, map_app. f_equal. apply map_ext_in. intros y Hy.
  unfold view_in, view. f_equal. cbn. apply map_ext_in. intros k Hk. apply Hs. apply in_slots_of. by exists y.
Qed.

(** The attributes of the entry of a name. *)
Definition attribute_entry (name : PropertyKey) (wr conf : bool) (e : DictEntry) : DictEntry :=
  if keyed name e then mkEntry (key e) (slot e) (enumerable e) (accessor e) wr conf else e.

Lemma attribute_entry_other name wr conf es : (forall e, In e es -> key e <> name) -> map (attribute_entry name wr conf) es = es.
Proof.
  intros H. rewrite <- (map_id es) at 2. apply map_ext_in. intros e He. unfold attribute_entry, keyed.
  by rewrite bool_decide_eq_false_2 by (by apply H).
Qed.

Lemma set_attributes_ok w i o d name wr conf e : world_ok w -> object_at w i = Some o -> shape_dict (shape_of w o) = Some d ->
  valid name = true -> List.find (keyed name) (props d) = Some e -> level d <> Frozen ->
  let w' := with_runtime (edit (with_dictionary (with_attributes symbol_address name wr conf d)) (shape o) (rt w)) w in
  edited w i o w' o /\ isDictionary (shape_of w' o) = true /\
  entries_of (rt w') (shape o) = map (attribute_entry name wr conf) (entries_of (rt w) (shape o)).
Proof.
  intros Hok Ho Hd Hv Hf Hnf. pose proof (ok_objects _ _ _ Hok i o Ho) as Hobj. pose proof Hobj as [Hs0 Hc0 _ _].
  pose proof (table_shape_ok _ _ _ Hok Hs0 Hd) as Htab. pose proof (table_dict _ _ Htab) as Hdok.
  pose proof Hf as Hfind. rewrite (find_keyed_dict (symbol_address := symbol_address) _ name Hdok Hv) in Hfind.
  destruct (Dictionary.find symbol_address d name) as [pos|] eqn:Ef; [|done]. cbn in Hfind. injection Hfind as Hpos.
  destruct (with_attributes_ok d name wr conf pos Hdok Hv Ef) as (m1 & m2 & Em & A1 & A2 & (A3 & A4 & A5 & _) & A6 & A7).
  rewrite Hpos in *. set (d' := with_attributes symbol_address name wr conf d) in *. cbv zeta.
  destruct (table_step (since := since) w i o o d d' (edit (with_dictionary d') (shape o) (rt w)) Hok Ho Hd) as [S1 S2 S3 S4 S5 S6 S7]; try done; try (by right; right).
  { constructor; [done|by rewrite A3; apply Htab|by rewrite A5]. }
  { rewrite A6. by apply (table_storage (rt w)). }
  rewrite set_object_back in * by done.
  split_and!; [by constructor|unfold isDictionary; by rewrite S5|].
  assert (entries_of (rt w) (shape o) = props d) as -> by (unfold entries_of, shape_of in *; by rewrite Hd).
  unfold entries_of. unfold shape_of in S5. rewrite S5, A2, Em, map_app. cbn [map]. pose proof (Dictionary.ok_names _ _ Hdok) as Hn.
  apply List.find_some in Hf as [_ Hk%bool_decide_eq_true]. rewrite Em, map_app in Hn. cbn in Hn. apply NoDup_app in Hn as (_ & N1 & [N2 _]%NoDup_cons).
  rewrite Hk in *. f_equal; [|f_equal; [unfold attribute_entry, keyed; by rewrite Hk, bool_decide_eq_true_2|]]; symmetry; apply attribute_entry_other; intros x Hx Ex.
  - apply (N1 name); [|by left]. rewrite <- Ex. apply list_elem_of_In. by apply in_map.
  - apply N2. rewrite <- Ex. apply list_elem_of_In. by apply in_map.
Qed.

Lemma create_table_ok w i o d name v en wr conf : world_ok w -> since <= proto_epoch (rt w) -> object_at w i = Some o ->
  shape_dict (shape_of w o) = Some d -> valid name = true -> extensible d = true -> List.find (named name) (own w i) = None ->
  exists w' o', (let? (w, slot_) := dictDefine symbol_address w i name en false in
    let? o := object_at w i in let? d := shape_dict (shape_of w o) in
    let w := with_runtime (edit (with_dictionary (with_attributes symbol_address name wr conf d)) (shape o) (rt w)) w in
    let? w := setSlot w i slot_ v in Some w) = Some w' /\ edited w i o w' o' /\
    own w' i = own w i ++ [mkProperty name en false wr conf [v]].
Proof.
  intros Hok Hsi Ho Hd Hv Hx Hnone. pose proof (ok_objects _ _ _ Hok i o Ho) as Hobj. pose proof Hobj as [Hs0 _ _ _].
  pose proof (table_shape_ok _ _ _ Hok Hs0 Hd) as Htab. pose proof (table_dict _ _ Htab) as Hdok.
  assert (entries_of (rt w) (shape o) = props d) as Eent by (unfold entries_of, shape_of in *; by rewrite Hd).
  assert (Dictionary.find symbol_address d name = None) as Hfd.
  { pose proof Hnone as Hn. rewrite (find_own w i o name Ho), Eent, (find_keyed_dict (symbol_address := symbol_address) d name Hdok Hv) in Hn.
    by destruct (Dictionary.find symbol_address d name). }
  assert (definable (symbol_address := symbol_address) d name false) as Hdef by (unfold definable; by rewrite Hfd).
  set (h := mkObject d (slotsData o)).
  pose proof (dictDefine_ok w i o d name en false Hok Hsi Ho Hd Hv Hdef) as HD. fold h in HD.
  pose proof (dictDefine_table (symbol_address := symbol_address) h name en false Hdok Hv) as Hdin.
  destruct (Dictionary.dictDefine symbol_address h name en false) as [ho out]. destruct HD as (w1 & o1 & -> & Htd).
  destruct Hdin as (l1 & l2 & e & [Hok' (Wi & Wx & Wl & _) Ep (E1 & E2 & E3 & E4) _ Hsl Hb]). cbn [dict h] in *. rewrite Hfd in Hb, Hsl.
  destruct Hb as (Hp0 & -> & _). destruct Hsl as [Hsl|[_ []]]. pose proof Htd as [T1 T2 T3 T4 T5 T6 T7 T8 T9 T10]. rewrite T4, T5.
  assert (List.find (keyed name) (props (dict ho)) = Some e) as Hfe.
  { apply find_unique; [rewrite Ep; apply in_or_app; right; by left|by apply bool_decide_eq_true|]. intros y Hy Hk%bool_decide_eq_true.
    rewrite Ep in Hy. apply in_app_or in Hy as [Hy|[->|[]]]; [|done]. exfalso.
    rewrite (find_own w i o name Ho), Eent in Hnone. destruct (List.find (keyed name) (props d)) eqn:Ef; [done|].
    pose proof (List.find_none _ _ Ef y) as Hc. rewrite Hp0 in Hc. specialize (Hc Hy). unfold keyed in Hc. by rewrite bool_decide_eq_true_2 in Hc. }
  assert (level (dict ho) <> Frozen) as Hnf by (rewrite Wl; intros Hl; destruct (table_frozen _ _ Htab Hl); congruence).
  destruct (set_attributes_ok w1 i o1 (dict ho) name wr conf e T1 T4 T5 Hv Hfe Hnf) as (He2 & Hd2 & Hent2).
  set (w2 := with_runtime _ w1) in *. pose proof He2 as [U1 U2 U3 U4 U5 U6].
  assert (entries_of (rt w2) (shape o1) = props d ++ [attribute_entry name wr conf e]) as Hent.
  { rewrite Hent2. unfold entries_of at 1. unfold shape_of in T5. rewrite T5, Ep, map_app, Hp0. f_equal. apply attribute_entry_other. intros x Hin Hk.
    rewrite (find_own w i o name Ho), Eent in Hnone. destruct (List.find (keyed name) (props d)) eqn:Ef; [done|].
    pose proof (List.find_none _ _ Ef x) as Hc. rewrite Hp0 in Hc. specialize (Hc Hin). unfold keyed in Hc. by rewrite bool_decide_eq_true_2 in Hc. }
  destruct (setSlot_rewritten w2 i o1 out v U1 U4 ltac:(cbn in T6; lia)) as (w3 & o3 & E3' & R3 & S3). rewrite E3'. exists w3, o3. split_and!; [done|..].
  - eapply edited_trans; [by eapply table_edited|]. eapply edited_trans; [exact He2|by apply rewritten_edited].
  - assert (slotIsDouble (shape_of w2 o1) out = false) as Hnd.
    { unfold slotIsDouble, shape_of in *. rewrite table_no_doubles; [by rewrite andb_false_r|apply U1|apply (ok_objects _ _ _ U1 i o1 U4)|done]. }
    rewrite stored_form_id in S3 by (right; by left).
    destruct (entries_ok None w2 i o1 U1 U4) as (_ & Sl2 & _). rewrite Hent, slots_of_app in Sl2. apply NoDup_app in Sl2 as (_ & Sl2 & _).
    assert (own_slots (attribute_entry name wr conf e) = [out]) as Eown by (unfold attribute_entry, own_slots; destruct (keyed name e); cbn; by rewrite E2, E3).
    rewrite (own_append w i o w3 o3 (attribute_entry name wr conf e) Ho (rw_at _ _ _ _ _ R3)).
    + f_equal. unfold view_in, view. rewrite Eown. cbn. rewrite S3, Z.eqb_refl. unfold attribute_entry, keyed. by rewrite E1, bool_decide_eq_true_2, E3, E4.
    + by rewrite (rw_entries _ _ _ _ _ R3), Hent, Eent.
    + clear Hx. intros s Hs. rewrite Eent in Hs. rewrite S3. assert (s <> out) as Hne.
      { intros ->. apply (Sl2 out); [by apply list_elem_of_In|]. unfold slots_of. cbn. rewrite app_nil_r, Eown. by apply list_elem_of_singleton. }
      rewrite (proj2 (Z.eqb_neq s out)) by done. rewrite T7, Hsl; [done|]. left. apply in_slots_of in Hs as (x & Hx & Hs).
      destruct (entry_below (symbol_address := symbol_address) d x Hdok Hx). pose proof (table_storage (rt w) o d Hobj Hd).
      unfold own_slots in Hs. destruct (accessor x); cbn in *; lia.
Qed.

Lemma create_tree_ok w i o name v en wr conf desired : world_ok w -> since <= proto_epoch (rt w) -> object_at w i = Some o ->
  isDictionary (shape_of w o) = false -> valid name = true -> name ∉ layout_keys (rt w) (shape o) ->
  slotsUsedAfterAdd (shape_of w o) 1 <= kDictionaryThreshold ->
  exists w1 o1 slot_ w2 o2 v', add_on_tree w i name en false wr conf desired = Some (w1, slot_) /\
    landed (symbol_address := symbol_address) (since := since) w i o (shape o1) (mkEntry name slot_ en false wr conf) w1 o1 /\
    setSlot w1 i slot_ v = Some w2 /\ stable w1 w2 /\ edited w i o w2 o2 /\ same_number v v' /\
    own w2 i = own w i ++ [mkProperty name en false wr conf [v']].
Proof.
  intros Hok Hsi Ho Hd Hv Hfresh Hth.
  destruct (add_on_tree_ok w i o name en false wr conf desired Hok Hsi Ho Hd Hv Hfresh Hth) as (w1 & o1 & n & x & E1 & HL).
  pose proof HL as [L1 L2 L3 L4 L5 L6 L7 [L8 L8'] L9 L10 L11]. cbn [slot accessor slotWidth] in L1, L8, L8'.
  destruct (setSlot_ok (Some x) None w1 i o1 x v L1 L4) as (w2 & o2 & E2 & [S1 S2 S3 S4 S5 S6 S7 S8 S9 S10 S11]); [by right|lia|].
  exists w1, o1, x, w2, o2, (stored_form (shape_of w1 o1) x v). split_and!; [done|by rewrite L5|done|done| |apply stored_form_number|].
  - constructor; [done|by etransitivity|by eapply others_trans|done|congruence|congruence].
  - rewrite (own_append w i o w2 o2 (mkEntry name x en false wr conf) Ho S4).
    + f_equal. unfold view_in, view. cbn. by rewrite S6, Z.eqb_refl.
    + by rewrite S5, L5, L6.
    + intros s Hs. destruct (L7 s Hs) as [K1 K2]. rewrite S6, K1. cbn in K2. zbool; [subst; tauto|done].
Qed.

Lemma create_property_ok w i o name v ic en wr conf : world_ok w -> since <= proto_epoch (rt w) -> object_at w i = Some o ->
  valid name = true -> List.find (named name) (own w i) = None ->
  does w i o v (if extensible_at w i then Puts (fun v' => own w i ++ [mkProperty name en false wr conf [v']]) else Leaves (Some (Refused NotExtensible)))
    (create_property symbol_address fills_suppressed slotReprEligible w i name v ic en wr conf).
Proof.
  intros Hok Hsi Ho Hv Hnone. unfold create_property, extensible_at. rewrite Ho.
  assert (forall w1 o1 d ic, edited w i o w1 o1 -> own w1 i = own w i -> shape_dict (shape_of w1 o1) = Some d -> extensible d = true ->
    does w i o v (Puts (fun v' => own w i ++ [mkProperty name en false wr conf [v']]))
      (let? (w, slot_) := dictDefine symbol_address w1 i name en false in
       let? o := object_at w i in let? d := shape_dict (shape_of w o) in
       let w := with_runtime (edit (with_dictionary (with_attributes symbol_address name wr conf d)) (shape o) (rt w)) w in
       let? w := setSlot w i slot_ v in Some (w, ic, Stored))) as Htable.
  { intros w1 o1 d ic' He Hown Hd Hx. pose proof He as [U1 U2 _ U4 _ _]. pose proof (st_epoch _ _ U2).
    destruct (create_table_ok w1 i o1 d name v en wr conf U1 ltac:(lia) U4 Hd Hv Hx ltac:(by rewrite Hown)) as (w' & o' & E & He' & Hown').
    exists w', ic', o', v. split_and!; [|by eapply edited_trans|by left|by rewrite Hown', Hown].
    destruct (dictDefine symbol_address w1 i name en false) as [[w2 x]|]; [|done]. destruct (object_at w2 i) as [o2|]; [|done].
    destruct (shape_dict (shape_of w2 o2)) as [d2|]; [|done]. cbv zeta in *. match goal with |- context [setSlot ?a i x v] => destruct (setSlot a i x v) as [w3|]; [|done] end. by injection E as ->. }
  destruct (shape_dict (shape_of w o)) as [d|] eqn:Ed.
  - assert (isDictionary (shape_of w o) = true) as Hd by (unfold isDictionary; by rewrite Ed).
    destruct (extensible d) eqn:Ex; cbn [negb]; [|by exists ic]. rewrite Hd. cbn [negb andb]. rewrite Ho, Hd.
    apply (Htable w o d); [by constructor|done..].
  - assert (isDictionary (shape_of w o) = false) as Hd by (unfold isDictionary; by rewrite Ed). rewrite Hd. cbn [negb andb].
    destruct (Z.ltb_spec kDictionaryThreshold (slotsUsedAfterAdd (shape_of w o) 1)).
    + destruct (toDictionary_ok None w i o Threshold Hok Ho) as (w1 & o1 & d & -> & Hdem).
      destruct (demoted_edited w i o w1 o1 d Ho Hdem) as (He1 & Hown1 & _). pose proof Hdem as [_ _ _ Q1 Q2 Q3 _ _ _ _]. rewrite Q1.
      rewrite Ed in Q3. destruct Q3 as [Q3 _]. assert (isDictionary (shape_of w1 o1) = true) as -> by (unfold isDictionary; by rewrite Q2).
      by apply (Htable w1 o1 d).
    + rewrite Ho, Hd. pose proof (ok_objects _ _ _ Hok i o Ho) as [Hs0 _ _ _].
      assert (name ∉ layout_keys (rt w) (shape o)) as Hfresh.
      { destruct (lookup_own (symbol_address := symbol_address) w i o name Hok Ho Hv) as [Hf _]. rewrite Hnone in Hf.
        pose proof (tree_lookup symbol_address (rt w) (shape o) name (ok_runtime _ _ _ Hok) Hs0 Hd Hv) as Ht.
        by destruct (lookupProperty symbol_address (rt w) (shape o) name). }
      destruct (create_tree_ok w i o name v en wr conf (desiredSlotRepr slotReprEligible name v en false wr conf) Hok Hsi Ho Hd Hv Hfresh ltac:(done))
        as (w1 & o1 & x & w2 & o2 & v' & -> & HL & E & _ & He & Hn & Hown). rewrite (land_at _ _ _ _ _ _ _ HL), E. by eexists w2, _, o2, v'.
Qed.

(** ** The write without a cache *)

Lemma object_at_kind w p k q : objs w !! p = Some (Shaped k q) -> object_at w p = Some q.
Proof. unfold object_at. by intros ->. Qed.

Lemma inherited_above w name : world_ok w -> valid name = true -> forall fuel depth i,
  match inherited symbol_address fuel depth w i name, above fuel w i name with
  | None, None | Some Create, Some AddsHere | Some RefusedAbove, Some NotHere => True
  | Some (ProxyAbove p), Some (AsksProxy q) => p = q
  | Some (SetterAt h s _), Some (RunsSetter v) => getSlot w h (s + 1) = Some v
  | _, _ => False
  end.
Proof.
  intros Hok Hv. induction fuel as [|fuel IH]; intros depth i; cbn [inherited above]; [done|].
  destruct (object_at w i) as [o|]; [|done]. destruct (prototypeValue (rt w) (shape o)) as [| | |p| | |]; try done.
  destruct (objs w !! p) as [[k q|f| |]|] eqn:Eq; try done. pose proof (object_at_kind w p k q Eq) as Hq.
  destruct (lookup_own (symbol_address := symbol_address) w p q name Hok Hq Hv) as [-> Hin].
  destruct (lookupProperty symbol_address (rt w) (shape q) name) as [[e re]|]; cbn [option_map ientry]; [|apply IH].
  destruct (Hin _ eq_refl) as [He _]. cbn [view_in view paccessor pwritable]. destruct (accessor e) eqn:Ea; [|by destruct (_ && _)].
  by apply second_half.
Qed.

Lemma does_ic w i o v r ic (x : option SetOutcome) : x = r -> does w i o v (Leaves r) (let? r := x in Some (w, ic, r)).
Proof. intros ->. destruct r as [r|]; [by exists ic|done]. Qed.

Lemma set_uncached_ok w i o name v ic en defineOwn wr conf receiver : world_ok w -> since <= proto_epoch (rt w) -> object_at w i = Some o ->
  valid name = true ->
  does w i o v (ordinary_set w i name v en defineOwn wr conf receiver)
    (set_uncached symbol_address fills_suppressed slotReprEligible w i name v ic en defineOwn wr conf receiver).
Proof.
  intros Hok Hsi Ho Hv. unfold ordinary_set, set_uncached. rewrite Ho.
  destruct (lookup_own (symbol_address := symbol_address) w i o name Hok Ho Hv) as [Hfind Hin]. rewrite Hfind.
  destruct (lookupProperty symbol_address (rt w) (shape o) name) as [[e re]|]; cbn [option_map ientry] in *.
  - destruct (Hin _ eq_refl) as [He Hk]. cbn in He, Hk. cbn [view_in view paccessor pwritable]. destruct (accessor e) eqn:Ea.
    + destruct defineOwn; [by exists ic|]. rewrite (second_half w i o e Hok Ho He Ea). by apply does_ic.
    + destruct (writable e); cbn [negb]; [|by exists ic].
      destruct (entries_ok None w i o Hok Ho) as (_ & _ & Hb). destruct (Hb e He) as (_ & B0 & B1). rewrite Ea in B1. cbn in B1.
      destruct (note_ok w i o (slot e) Hok Ho ltac:(lia)) as (w1 & -> & He1 & Hown1 & Hent1). pose proof He1 as [U1 U2 U3 U4 U5 U6].
      destruct (store_own_ok w1 i o e v U1 U4 ltac:(by rewrite Hent1) Ea) as (w2 & o2 & v' & -> & He2 & Hn & Hown2).
      eexists w2, _, o2, v'. split_and!; [done|by eapply edited_trans|done|]. by rewrite Hown2, Hown1, Hk.
  - destruct defineOwn; [by apply create_property_ok|].
    pose proof (inherited_above w name Hok Hv kMaxPrototypeDepth 1 i) as Hab.
    destruct (inherited symbol_address kMaxPrototypeDepth 1 w i name) as [[| |h s d|p]|], (above kMaxPrototypeDepth w i name) as [[| |sv|q]|]; try done.
    + by apply create_property_ok.
    + by exists ic.
    + rewrite Hab. by apply does_ic.
    + subst q. by exists ic.
Qed.

(** ** The write through an entry *)

(** An entry of a site that writes [name]: an own writable property of a shape no
    prototype has, or an accessor. *)
Definition set_entry_ok (w : World) (name : PropertyKey) (c : InlineCache) : Prop :=
  match cached_shape c with
  | RealShape s =>
      (s < next_id (rt w))%nat /\ isDictionary (shape_at (rt w) s) = false /\ cached_epoch c <= proto_epoch (rt w) /\
      (((cached_depth c = 0 \/ cached_depth c = DEPTH_DOUBLE_FLAG) /\ used_as_prototype (shape_at (rt w) s) = false /\
        exists e, List.find (keyed name) (entries_of (rt w) s) = Some e /\ slot e = cached_slot c /\ accessor e = false /\ writable e = true) \/
       exists n, (n <= kMaxPrototypeDepth)%nat /\ cached_depth c = depth_code true n /\
         (n = 0%nat \/ cached_epoch c = proto_epoch (rt w) -> find_at (symbol_address := symbol_address) w s name n = Some (cached_slot c, true)))
  | _ => True
  end.

Lemma set_entry_kept w w' name c : world_ok w -> kept (symbol_address := symbol_address) w w' -> set_entry_ok w name c -> set_entry_ok w' name c.
Proof.
  intros Hok Hk. unfold set_entry_ok. destruct (cached_shape c) as [| |s]; [done..|]. intros (Hs & Hr & He & Hc).
  pose proof (Hk (cached_epoch c) He) as Hst. destruct (st_trees _ _ Hst s Hs Hr) as [T1 T2 T3 T4 T5 T6 T7].
  pose proof (st_next _ _ Hst). pose proof (st_epoch _ _ Hst). split_and!; [lia|done|lia|].
  destruct Hc as [(Hd & Hm & e & H1)|(n & Hn & Hd & Hf)].
  - left. split_and!; [done|congruence|]. exists e. by rewrite T5.
  - right. exists n. split_and!; [done|done|]. intros [->|E]; [cbn in *; rewrite T6; apply Hf; by left|].
    apply (find_at_stable (cached_epoch c) w w' name Hok Hst ltac:(lia) n s); [done|apply T6|done|]. apply Hf. right. lia.
Qed.

Lemma inherited_found w name : forall m fuel depth i o s, object_at w i = Some o ->
  find_at (symbol_address := symbol_address) w (shape o) name (S m) = Some (s, true) -> (m < fuel)%nat ->
  exists h, protoAncestor w i (S m) = Some h /\ inherited symbol_address fuel depth w i name = Some (SetterAt h s (depth + m)).
Proof.
  induction m as [|m IH]; intros [|fuel] depth i o s Ho Hf Hlt; try lia; cbn [inherited protoAncestor]; unfold proto_link; rewrite Ho;
    cbn [find_at] in Hf;
    (destruct (locate symbol_address (rt w) (shape o) name); [done|]);
    destruct (prototypeValue (rt w) (shape o)) as [| | |p| | |]; try done;
    (destruct (object_at w p) as [q|] eqn:Hq; [|done]); destruct (object_kind w p q Hq) as (k & ->);
    pose proof (locate_lookup (symbol_address := symbol_address) (rt w) (shape q) name) as Hl.
  - cbn in Hf. destruct (lookupProperty symbol_address (rt w) (shape q) name) as [[e re]|]; [|congruence]. rewrite Hl in Hf. cbn in *.
    injection Hf as <- ->. exists p. by rewrite Nat.add_0_r.
  - destruct (lookupProperty symbol_address (rt w) (shape q) name) as [[e re]|]; [by rewrite Hl in Hf|].
    destruct (IH fuel (S depth) p q s Hq) as (h & H1 & H2); [exact Hf|lia|]. exists h. split; [exact H1|]. rewrite H2. do 2 f_equal. lia.
Qed.

(** What an accessor entry answers is what the walk would. *)
Lemma setter_entry_ok w i o name c n receiver v en wr conf r : world_ok w -> object_at w i = Some o -> valid name = true -> (n <= kMaxPrototypeDepth)%nat ->
  find_at (symbol_address := symbol_address) w (shape o) name n = Some (cached_slot c, true) ->
  isAccessor c = true -> realDepth c = Z.of_nat n -> isRealShape c = true -> describes (proto_epoch (rt w)) c (shape o) = true ->
  setter_hit w i o (Some c) receiver v = r ->
  match r with
  | Some None => True
  | Some (Some x) => ordinary_set w i name v en false wr conf receiver = Leaves (Some x)
  | None => ordinary_set w i name v en false wr conf receiver = Leaves None
  end.
Proof.
  intros Hok Ho Hv Hn Hf Hacc Hrd Hreal Hdesc <-. unfold setter_hit. rewrite Hreal, Hdesc, Hacc, Hrd. cbn [andb].
  destruct (found_holder w i o name Ho n _ Hf) as (h & ho & Hanc & Hho & _ & Hholder).
  assert (forall q, (if 0 <? Z.of_nat n then cachedProtoHolder w i (Z.to_nat (Z.of_nat n)) else HolderAt i) = HolderAt q -> q = h) as Hq.
  { intros q. rewrite Nat2Z.id. destruct (Z.ltb_spec 0 (Z.of_nat n)).
    - destruct Hholder as [-> | ->]; congruence.
    - replace n with 0%nat in Hanc by lia. cbn in Hanc. congruence. }
  destruct (if 0 <? Z.of_nat n then _ else _) as [q| |]; [|done..]. specialize (Hq q eq_refl). subst q.
  assert (ordinary_set w i name v en false wr conf receiver = Leaves (let? s := getSlot w h (cached_slot c + 1) in callSetter w s receiver v)) as ->.
  2: { destruct (getSlot w h (cached_slot c + 1)) as [s|]; [|done]. by destruct (callSetter w s receiver v). }
  unfold ordinary_set. destruct (lookup_own (symbol_address := symbol_address) w i o name Hok Ho Hv) as [Hfind Hin]. rewrite Hfind.
  pose proof (locate_lookup (symbol_address := symbol_address) (rt w) (shape o) name) as Hl.
  destruct n as [|n].
  - cbn in Hanc, Hf. injection Hanc as <-. destruct (lookupProperty symbol_address (rt w) (shape o) name) as [[e re]|]; [|congruence].
    rewrite Hl in Hf. cbn in *. injection Hf as E1 E2. destruct (Hin _ eq_refl) as [He _]. cbn in He. rewrite E2, <- E1.
    by rewrite (second_half w i o e Hok Ho He E2).
  - assert (lookupProperty symbol_address (rt w) (shape o) name = None) as -> .
    { cbn in Hf. destruct (lookupProperty symbol_address (rt w) (shape o) name) as [[e re]|]; [by rewrite Hl in Hf|done]. }
    cbn [option_map]. destruct (inherited_found w name n kMaxPrototypeDepth 1 i o _ Ho Hf ltac:(lia)) as (h' & Hanc' & Hi).
    assert (h' = h) as -> by congruence. pose proof (inherited_above w name Hok Hv kMaxPrototypeDepth 1 i) as Hab. rewrite Hi in Hab.
    destruct (above kMaxPrototypeDepth w i name) as [[| |sv|q]|]; try done. by rewrite Hab.
Qed.

Lemma describesOwn_spec c s : describesOwn c s = true -> cached_shape c = RealShape s /\ isAccessor c = false.
Proof. unfold describesOwn. rewrite !andb_true_iff, negb_true_iff. intros ((((_ & ?) & _) & _) & ?%bool_decide_eq_true). done. Qed.

Lemma describes_spec epoch c s : describes epoch c s = true -> cached_shape c = RealShape s /\ (realDepth c = 0 \/ cached_epoch c = epoch).
Proof.
  unfold describes. rewrite !andb_true_iff, orb_true_iff. intros (((_ & _) & Hs%bool_decide_eq_true) & H'). split; [done|].
  destruct H' as [?%Z.eqb_eq|?%Z.eqb_eq]; [by left|by right].
Qed.

Lemma own_codes : forallb (fun d => let c := mkCache NoShape 0 d 0 in negb (isAccessor c)) [0; DEPTH_DOUBLE_FLAG] = true.
Proof. by vm_compute. Qed.

(** The transition an entry records. *)
Record recorded (w : World) (o : Object) (name : PropertyKey) (next : nat) (slot_ : Z) : Prop := {
  rec_id : (next < next_id (rt w))%nat;
  rec_tree : isDictionary (shape_of w o) = false /\ isDictionary (shape_at (rt w) next) = false;
  rec_parent : parent (shape_at (rt w) next) = Some (shape o);
  rec_own : node_own (shape_at (rt w) next) = mkEntry name slot_ true false true true;
  rec_mark : used_as_prototype (shape_at (rt w) next) = false
}.

Lemma transition_recorded w o c name en wr conf next : valid name = true -> set_entry_ok w name c -> cached_shape c = RealShape next ->
  transition_hit w o c name en wr conf = true -> recorded w o name next (cached_slot c) /\ en = true /\ wr = true /\ conf = true.
Proof.
  intros Hv Hc Hs Ht. unfold transition_hit in Ht. unfold set_entry_ok in Hc. rewrite Hs in *. rewrite !andb_true_iff in Ht.
  destruct Ht as ((((((((((((H1 & H2) & H3) & H4) & H5) & H6) & H7) & H8) & ->) & ->) & ->) & H9) & H10).
  apply Z.eqb_eq in H1, H4. apply bool_decide_eq_true in H3. apply negb_true_iff in H2, H6. rewrite matches_valid in H10 by done. apply bool_decide_eq_true in H10.
  destruct Hc as (C1 & C2 & C3 & [(_ & C4 & _)|(n & Hn & Hd & _)]).
  - split; [|done]. constructor; try done. destruct (node_own (shape_at (rt w) next)). cbn in *. congruence.
  - destruct (depth_code_spec c n true Hn Hd) as (E & _). unfold isAccessor in E. by rewrite H1 in E.
Qed.

Lemma transition_epoch w o c name en wr conf : transition_hit w o c name en wr conf = true -> cached_epoch c = proto_epoch (rt w).
Proof. unfold transition_hit. destruct (cached_shape c); [done..|]. rewrite !andb_true_iff. intros ((_ & H%Z.eqb_eq) & _). exact H. Qed.

Lemma take_transition_ok w i o next slot_ name v ic : world_ok w -> since <= proto_epoch (rt w) -> object_at w i = Some o ->
  recorded w o name next slot_ ->
  exists w1 o1 w2 o2 v', take_transition fills_suppressed w i next slot_ v ic = Some (w2, set_fill fills_suppressed w1 next slot_ ic) /\
    landed (symbol_address := symbol_address) (since := since) w i o next (mkEntry name slot_ true false true true) w1 o1 /\
    stable w1 w2 /\ edited w i o w2 o2 /\ same_number v v' /\
    own w2 i = own w i ++ [mkProperty name true false true true [v']].
Proof.
  intros Hok Hsi Ho [R1 [R2 R2'] R3 R4 R5]. pose proof (ok_objects _ _ _ Hok i o Ho) as [Hs0 _ _ _]. pose proof (ok_runtime _ _ _ Hok) as Hr.
  set (e := mkEntry name slot_ true false true true) in *.
  assert (used_as_prototype (shape_of w o) = false) as Hu.
  { destruct (used_as_prototype (shape_of w o)) eqn:E; [|done]. by rewrite (ok_mark _ _ (ok_nodes _ Hr next R1) _ R3 E) in R5. }
  unfold take_transition. rewrite Ho, Hu. set (r := noteShapeLeave (shape o) Add (rt w)).
  assert (arena r = arena (rt w)) as Ea by apply leave_arena. pose proof (leave_epoch (shape o) Add (rt w)) as Hl. fold r in Hl.
  pose proof (fun s => same_arena_at _ _ s Ea) as Eat.
  destruct (land_step (since := since) w i o next e r Hok Ho R2) as (w1 & o1 & Ew & HL); rewrite ?Eat;
    try first [done|by apply (same_arena_ok (rt w))|by apply same_arena_frame|by apply plain_arena|by rewrite (same_arena_next (rt w))|by rewrite R5, <- Hu|by rewrite Hu].
  pose proof HL as [L1 L2 L3 L4 L5 L6 L7 [L8 L8'] L9 L10 L11]. cbn [slot accessor slotWidth e] in L1, L8, L8'. cbn [slot accessor slotWidth e] in Ew.
  destruct (setSlot_ok (Some slot_) None w1 i o1 slot_ v L1 L4) as (w2 & o2 & E2 & [S1 S2 S3 S4 S5 S6 S7 S8 S9 S10 S11]); [by right|lia|].
  exists w1, o1, w2, o2, (stored_form (shape_of w1 o1) slot_ v). split_and!; [|done|done| |apply stored_form_number|].
  - destruct (ensureSlots (with_runtime r w) i (slot_ + 1)) as [w0|]; [|done]. destruct (object_at w0 i) as [o0|]; [|done].
    injection Ew as ->. by rewrite E2.
  - constructor; [done|by etransitivity|by eapply others_trans|done|congruence|congruence].
  - rewrite (own_append w i o w2 o2 e Ho S4).
    + f_equal. unfold view_in, view. cbn. by rewrite S6, Z.eqb_refl.
    + by rewrite S5, L5, L6.
    + intros s Hs. destruct (L7 s Hs) as [K1 K2]. rewrite S6, K1. cbn in K2. zbool; [subst; tauto|done].
Qed.

Lemma own_entry w s name c : set_entry_ok w name c -> cached_shape c = RealShape s -> isAccessor c = false ->
  exists e, List.find (keyed name) (entries_of (rt w) s) = Some e /\ slot e = cached_slot c /\ accessor e = false /\ writable e = true.
Proof.
  intros Hc Hs Ha. unfold set_entry_ok in Hc. rewrite Hs in Hc. destruct Hc as (_ & _ & _ & [(_ & _ & He)|(n & Hn & Hd & _)]); [done|].
  destruct (depth_code_spec c n true Hn Hd) as (E & _). congruence.
Qed.

Lemma own_hit_ok w i o name c v en defineOwn wr conf receiver : world_ok w -> object_at w i = Some o -> set_entry_ok w name c ->
  describesOwn c (shape o) = true ->
  does w i o v (ordinary_set w i name v en defineOwn wr conf receiver) (let? w := setSlot w i (cached_slot c) v in Some (w, Some c, Stored)).
Proof.
  intros Hok Ho Hc Hd. destruct (describesOwn_spec _ _ Hd) as [Hs Ha]. destruct (own_entry w _ name c Hc Hs Ha) as (e & Hf & <- & He & Hw).
  pose proof (List.find_some _ _ Hf) as [Hin Hk%bool_decide_eq_true].
  destruct (store_own_ok w i o e v Hok Ho Hin He) as (w' & o' & v' & -> & Hed & Hn & Hown).
  unfold ordinary_set. rewrite (find_own w i o name Ho), Hf. cbn. rewrite He, Hw. cbn. exists w', (Some c), o', v'. by rewrite <- Hk.
Qed.

Lemma setter_hit_ok w i o name c receiver v en wr conf : world_ok w -> object_at w i = Some o -> valid name = true -> set_entry_ok w name c ->
  match setter_hit w i o (Some c) receiver v with
  | Some None => True
  | Some (Some x) => ordinary_set w i name v en false wr conf receiver = Leaves (Some x)
  | None => ordinary_set w i name v en false wr conf receiver = Leaves None
  end.
Proof.
  intros Hok Ho Hv Hc. destruct (isRealShape c && describes (proto_epoch (rt w)) c (shape o) && isAccessor c) eqn:E.
  2: { unfold setter_hit. by rewrite E. }
  apply andb_true_iff in E as [[E1 E2]%andb_true_iff E3]. destruct (describes_spec _ _ _ E2) as [Hs Hd]. unfold set_entry_ok in Hc. rewrite Hs in Hc.
  destruct Hc as (_ & _ & _ & [(Hcd & _)|(n & Hn & Hcd & Hf)]).
  { exfalso. unfold isAccessor in E3. destruct Hcd as [Hcd|Hcd]; rewrite Hcd in E3; done. }
  destruct (depth_code_spec c n true Hn Hcd) as (_ & _ & Hrd).
  eapply (setter_entry_ok w i o name c n); try done. apply Hf. destruct Hd as [?|?]; [left; lia|by right].
Qed.

(** What a site may hold for [name]: what [set_entry_ok] says, and at the site of a
    definition no setter, since those run none. *)
Definition site_entry_ok (w : World) (name : PropertyKey) (defineOwn : bool) (c : InlineCache) : Prop :=
  set_entry_ok w name c /\ (defineOwn = true -> isAccessor c = false).

(** The addition an entry records, if its epoch still stands, is one the walk above the
    object allows. *)
Definition records_addition (w : World) (i : nat) (o : Object) (name : PropertyKey) (c : InlineCache) : Prop :=
  forall next, cached_shape c = RealShape next -> parent (shape_at (rt w) next) = Some (shape o) -> cached_epoch c = proto_epoch (rt w) ->
  above kMaxPrototypeDepth w i name = Some AddsHere.

(** A write through such an entry does what some write should; and what this one should,
    if the addition recorded is allowed. *)
Lemma setProp_ok w i o name v ic en defineOwn wr conf receiver : world_ok w -> since <= proto_epoch (rt w) -> object_at w i = Some o ->
  valid name = true -> (forall c, ic = Some c -> site_entry_ok w name defineOwn c) ->
  exists e, does w i o v e (setProp symbol_address fills_suppressed slotReprEligible w i name v ic en defineOwn wr conf receiver) /\
    ((forall c, ic = Some c -> defineOwn = false -> transition_hit w o c name en wr conf = true -> records_addition w i o name c) ->
     e = ordinary_set w i name v en defineOwn wr conf (match receiver with Some v => v | None => VObject i end)).
Proof.
  intros Hok Hsi Ho Hv Hic. unfold setProp. rewrite Hv, Ho. cbn [negb]. set (self := match receiver with Some v => v | None => VObject i end).
  assert (forall ic', exists e, does w i o v e (set_uncached symbol_address fills_suppressed slotReprEligible w i name v ic' en defineOwn wr conf self) /\
    ((forall c, ic = Some c -> defineOwn = false -> transition_hit w o c name en wr conf = true -> records_addition w i o name c) -> e = ordinary_set w i name v en defineOwn wr conf self)) as Hwalk
    by (intros ic'; eexists; split; [by apply set_uncached_ok|done]).
  destruct ic as [c|]; [|apply Hwalk]. destruct (Hic c eq_refl) as (Hc & Hdef).
  destruct (describesOwn c (shape o)) eqn:Eown; [eexists; split; [by apply (own_hit_ok w i o name c v en defineOwn wr conf self)|done]|].
  assert (match setter_hit w i o (Some c) self v with
    | Some None => True | Some (Some x) => ordinary_set w i name v en defineOwn wr conf self = Leaves (Some x)
    | None => ordinary_set w i name v en defineOwn wr conf self = Leaves None end) as Hset.
  { destruct defineOwn; [|by apply setter_hit_ok]. unfold setter_hit. by rewrite (Hdef eq_refl), andb_false_r. }
  destruct (setter_hit w i o (Some c) self v) as [[x|]|]; [by exists (Leaves (Some x)); split; [exists (Some c)|]| |by exists (Leaves None)].
  destruct (transition_hit w o c name en wr conf) eqn:Et; [|apply Hwalk].
  destruct (cached_shape c) as [| |next] eqn:Es; try apply Hwalk.
  destruct (transition_recorded w o c name en wr conf next Hv Hc Es Et) as (Hrec & -> & -> & ->).
  destruct (take_transition_ok w i o next (cached_slot c) name v (Some c) Hok Hsi Ho Hrec) as (w1 & o1 & w2 & o2 & v' & -> & HL & _ & He & Hn & Hown).
  exists (Puts (fun v' => own w i ++ [mkProperty name true false true true [v']])). split; [by eexists w2, _, o2, v'|]. intros Hadd.
  unfold ordinary_set. destruct (lookup_own (symbol_address := symbol_address) w i o name Hok Ho Hv) as [Hfind _].
  pose proof (ok_runtime _ _ _ Hok) as Hr. pose proof Hrec as [R1 [R2 _] R3 R4 _]. pose proof (ok_objects _ _ _ Hok i o Ho) as [Hs0 _ _ _].
  pose proof (child_fresh _ _ _ (ok_child _ _ (ok_nodes _ Hr next R1) _ R3)) as Hfresh. rewrite R4 in Hfresh. cbn in Hfresh.
  pose proof (tree_lookup symbol_address (rt w) (shape o) name Hr Hs0 R2 Hv) as Htl.
  destruct (lookupProperty symbol_address (rt w) (shape o) name) as [p|].
  { destruct Hfresh. destruct Htl as [Hin <-]. apply list_elem_of_In. unfold layout_keys. rewrite <- (map_map ientry key). apply in_map. by apply in_map. }
  cbn in Hfind. rewrite Hfind. assert (extensible_at w i = true) as ->.
  { unfold extensible_at. rewrite Ho. unfold isDictionary in R2. by destruct (shape_dict (shape_of w o)). }
  destruct defineOwn; [done|]. by rewrite (Hadd c eq_refl eq_refl Et next Es R3 (transition_epoch _ _ _ _ _ _ _ Et)).
Qed.

(** ** What a write leaves in its site *)

Lemma does_result w i o v e res w' ic r : world_ok w -> does w i o v e res -> res = Some (w', ic, r) -> world_ok w' /\ stable w w'.
Proof.
  intros Hok. destruct e as [[x|]|f]; cbn; [intros [ic' ->] [= <- <- <-]; by split|by intros ->|].
  intros (w2 & ic' & o' & v' & -> & He & _) [= <- <- <-]. destruct He. done.
Qed.

(** An own property of a tree shape no prototype has. *)
Definition own_form (w : World) (name : PropertyKey) (s : nat) (slot_ : Z) : Prop :=
  (s < next_id (rt w))%nat /\ isDictionary (shape_at (rt w) s) = false /\ used_as_prototype (shape_at (rt w) s) = false /\
  exists e, List.find (keyed name) (entries_of (rt w) s) = Some e /\ slot e = slot_ /\ accessor e = false /\ writable e = true.

Lemma own_form_stable w w' name s x : stable w w' -> own_form w name s x -> own_form w' name s x.
Proof.
  intros Hst (H1 & H2 & H3 & e & He). destruct (st_trees _ _ Hst s H1 H2) as [T1 T2 T3 T4 T5 _ _]. pose proof (st_next _ _ Hst).
  split_and!; [lia|done|congruence|]. exists e. by rewrite T5.
Qed.

Lemma set_fill_ok w w' name s x c c' : stable w w' -> set_entry_ok w' name c ->
  (isDictionary (shape_at (rt w) s) = false -> used_as_prototype (shape_at (rt w) s) = false -> own_form w name s x) ->
  isDictionary (shape_at (rt w) s) = false -> set_fill fills_suppressed w s x (Some c) = Some c' -> set_entry_ok w' name c'.
Proof.
  intros Hst Hc Hform Hd. unfold set_fill. destruct (_ && _) eqn:E; intros [= <-]; [|done].
  apply andb_true_iff in E as [Hu%negb_true_iff _]. destruct (own_form_stable w w' name s x Hst (Hform Hd Hu)) as (F1 & F2 & F3 & F4).
  unfold set_entry_ok. cbn. pose proof (st_epoch _ _ Hst). split_and!; [done|done|done|]. left. split_and!; [|done|done].
  destruct (slotIsDouble _ _); [by right|by left].
Qed.

Lemma accessor_fill_ok w o name x n b c c' : world_ok w -> (shape o < next_id (rt w))%nat -> set_entry_ok w name c -> (n <= kMaxPrototypeDepth)%nat ->
  find_at (symbol_address := symbol_address) w (shape o) name n = Some (x, true) ->
  accessor_fill fills_suppressed w (shape o) x n b (Some c) = Some c' -> set_entry_ok w name c'.
Proof.
  intros Hok Hs Hc Hn Hf. unfold accessor_fill. destruct (_ && _) eqn:E; intros [= <-]; [|done].
  apply andb_true_iff in E as [[Hd%negb_true_iff _]%andb_true_iff _]. unfold set_entry_ok. cbn. split_and!; [done|done|done|].
  right. by exists n.
Qed.

(** Where the walk found a setter. *)
Lemma inherited_find w o name h s : forall fuel n i ho d, object_at w i = Some ho -> past (symbol_address := symbol_address) w o name n ho ->
  locate symbol_address (rt w) (shape ho) name = None -> inherited symbol_address fuel (S n) w i name = Some (SetterAt h s d) ->
  find_at (symbol_address := symbol_address) w (shape o) name d = Some (s, true) /\ (d <= n + fuel)%nat.
Proof.
  induction fuel as [|fuel IH]; intros n i ho d Ho Hp Hl; cbn [inherited]; [done|]. rewrite Ho.
  destruct (prototypeValue (rt w) (shape ho)) as [| | |p| | |] eqn:Ep; try done. destruct (objs w !! p) as [[k q|f| |]|] eqn:Eq; try done.
  pose proof (object_at_kind w p k q Eq) as Hq. pose proof (past_step w o name n ho p q Hp Hl Ep Hq) as Hp'.
  pose proof (locate_lookup (symbol_address := symbol_address) (rt w) (shape q) name) as Hlq.
  destruct (lookupProperty symbol_address (rt w) (shape q) name) as [[e re]|].
  - cbn [ientry] in Hlq. destruct (accessor e) eqn:Ea; [|by destruct (_ && _)]. intros [= <- <- <-].
    pose proof (past_find _ _ _ _ _ Hp' 0%nat _ Hlq) as Hf. rewrite Nat.add_0_r in Hf. split; [done|lia].
  - intros Hi. destruct (IH (S n) p q d Hq Hp' Hlq Hi) as [H1 H2]. split; [done|lia].
Qed.

(** The entry behind those of a tree shape that has no such name. *)
Lemma find_keyed_last r s name e : isDictionary (shape_at r s) = false -> name ∉ layout_keys r s -> key e = name ->
  List.find (keyed name) (entries_of r s ++ [e]) = Some e.
Proof.
  intros Hd Hfresh Hk. apply find_unique; [apply in_or_app; right; by left|by apply bool_decide_eq_true|]. intros y Hy Hk'%bool_decide_eq_true.
  apply in_app_or in Hy as [Hy|[->|[]]]; [|done]. destruct Hfresh. rewrite entries_tree in Hy by done. rewrite <- Hk'. unfold layout_keys.
  rewrite <- (map_map ientry key). apply list_elem_of_In. by apply in_map.
Qed.

Lemma create_entry w i o name v c en conf w' c' r : world_ok w -> since <= proto_epoch (rt w) -> object_at w i = Some o -> valid name = true ->
  List.find (named name) (own w i) = None -> set_entry_ok w' name c -> 
  create_property symbol_address fills_suppressed slotReprEligible w i name v (Some c) en true conf = Some (w', Some c', r) -> set_entry_ok w' name c'.
Proof.
  intros Hok Hsi Ho Hv Hnone Hc. unfold create_property. rewrite Ho. destruct (match shape_dict (shape_of w o) with Some _ => _ | None => _ end); [by intros [= <- <- <-]|].
  destruct (negb (isDictionary (shape_of w o)) && _) eqn:E.
  { apply andb_true_iff in E as [Hd%negb_true_iff _].
    destruct (toDictionary_ok None w i o Threshold Hok Ho) as (w1 & o1 & d & -> & [Q0 _ _ Q1 Q2 _ _ _ _ _]). rewrite Q1. unfold isDictionary. rewrite Q2.
    intros H. repeat (case_match; try done). by simplify_eq. }
  rewrite Ho. destruct (isDictionary (shape_of w o)) eqn:Ed.
  { intros H. repeat (case_match; try done). by simplify_eq. }
  cbn in E. apply Z.ltb_ge in E. pose proof (ok_objects _ _ _ Hok i o Ho) as [Hs0 _ _ _].
  assert (name ∉ layout_keys (rt w) (shape o)) as Hfresh.
  { destruct (lookup_own (symbol_address := symbol_address) w i o name Hok Ho Hv) as [Hf _]. rewrite Hnone in Hf.
    pose proof (tree_lookup symbol_address (rt w) (shape o) name (ok_runtime _ _ _ Hok) Hs0 Ed Hv) as Ht.
    by destruct (lookupProperty symbol_address (rt w) (shape o) name). }
  destruct (create_tree_ok w i o name v en true conf (desiredSlotRepr slotReprEligible name v en false true conf) Hok Hsi Ho Ed Hv Hfresh E)
    as (w1 & o1 & x & w2 & o2 & v' & -> & HL & Es & Hst & _). rewrite (land_at _ _ _ _ _ _ _ HL), Es. intros [= <- Hfill <-].
  eapply (set_fill_ok w1 w2 name (shape o1) x c); [exact Hst|exact Hc| |exact (land_dict _ _ _ _ _ _ _ HL)|exact Hfill]. intros _ Hu. split_and!; [|exact (land_dict _ _ _ _ _ _ _ HL)|done|].
  - apply (ok_objects _ _ _ (land_ok _ _ _ _ _ _ _ HL) i o1 (land_at _ _ _ _ _ _ _ HL)).
  - exists (mkEntry name x en false true conf). split_and!; try done. rewrite (land_entries _ _ _ _ _ _ _ HL).
    by apply find_keyed_last.
Qed.

Lemma uncached_entry w i o name v c en defineOwn conf receiver w' c' r : world_ok w -> since <= proto_epoch (rt w) -> object_at w i = Some o ->
  valid name = true -> set_entry_ok w name c -> set_entry_ok w' name c -> stable w w' ->
  set_uncached symbol_address fills_suppressed slotReprEligible w i name v (Some c) en defineOwn true conf receiver = Some (w', Some c', r) ->
  set_entry_ok w' name c'.
Proof.
  intros Hok Hsi Ho Hv Hc Hc' Hst. unfold set_uncached. rewrite Ho. pose proof (ok_objects _ _ _ Hok i o Ho) as [Hs0 _ _ _].
  destruct (lookup_own (symbol_address := symbol_address) w i o name Hok Ho Hv) as [Hfind Hin].
  pose proof (locate_lookup (symbol_address := symbol_address) (rt w) (shape o) name) as Hl.
  pose proof (lookup_entry (symbol_address := symbol_address) (rt w) (shape o) name (ok_runtime _ _ _ Hok) Hs0
    (fun d Hd => table_dict _ _ (table_shape_ok _ _ _ Hok Hs0 Hd)) Hv) as Hlk.
  destruct (lookupProperty symbol_address (rt w) (shape o) name) as [[e re]|]; cbn [option_map ientry] in *.
  - destruct (accessor e) eqn:Ea.
    + destruct defineOwn; [by intros [= <- <- <-]|].
      destruct (getSlot w i (slot e + 1)) as [sv|]; [|done]. destruct (callSetter w sv receiver v) as [x|]; [|done].
      intros [= <- Hfill <-]. by eapply (accessor_fill_ok w o name (slot e) 0 true c); try done; lia.
    + destruct (writable e) eqn:Ew; cbn [negb]; [|by intros [= <- <- <-]]. destruct (notePrototypeSlotOverwrite w i (slot e)) as [w1|]; [|done].
      destruct (setSlot w1 i (slot e) v) as [w2|]; [|done]. intros [= -> Hfill <-].
      destruct (isDictionary (shape_of w o)) eqn:Ed; [by injection Hfill as ->|].
      eapply (set_fill_ok w w' name (shape o) (slot e) c); try done. intros _ Hu. split_and!; [done|done|done|]. by exists e.
  - destruct defineOwn; [by apply (create_entry w i o name v c en conf w' c' r)|].
    destruct (inherited symbol_address kMaxPrototypeDepth 1 w i name) as [[| |h s d|p]|] eqn:Einh; [| | | |done].
    + by apply (create_entry w i o name v c en conf w' c' r).
    + by intros [= <- <- <-].
    + destruct (getSlot w h (s + 1)) as [sv|]; [|done]. destruct (callSetter w sv receiver v) as [x|]; [|done]. intros [= <- Hfill <-].
      destruct (inherited_find w o name h s kMaxPrototypeDepth 0 i o d Ho ltac:(by split) Hl Einh) as [Hf Hd].
      eapply (accessor_fill_ok w o name s d _ c); try done.
    + by intros [= <- <- <-].
Qed.

Lemma setProp_entry w i o name v c en defineOwn conf receiver w' c' r : world_ok w -> since <= proto_epoch (rt w) -> object_at w i = Some o ->
  valid name = true -> set_entry_ok w name c -> set_entry_ok w' name c -> stable w w' ->
  setProp symbol_address fills_suppressed slotReprEligible w i name v (Some c) en defineOwn true conf receiver = Some (w', Some c', r) ->
  set_entry_ok w' name c'.
Proof.
  intros Hok Hsi Ho Hv Hc Hc' Hst. unfold setProp. rewrite Hv, Ho. cbn [negb].
  destruct (describesOwn c (shape o)).
  { destruct (setSlot w i (cached_slot c) v); [|done]. by intros [= <- <- <-]. }
  destruct (setter_hit w i o (Some c) _ v) as [[x|]|]; [by intros [= <- <- <-]| |done].
  destruct (transition_hit w o c name en true conf) eqn:Et; [|by apply (uncached_entry w i o)].
  destruct (cached_shape c) as [| |next] eqn:Es; [by apply (uncached_entry w i o)..|].
  destruct (transition_recorded w o c name en true conf next Hv Hc Es Et) as (Hrec & -> & _ & ->).
  destruct (take_transition_ok w i o next (cached_slot c) name v (Some c) Hok Hsi Ho Hrec) as (w1 & o1 & w2 & o2 & v' & -> & HL & Hst2 & _).
  intros [= <- Hfill <-]. pose proof (land_shape _ _ _ _ _ _ _ HL) as Hsh. subst next.
  eapply (set_fill_ok w1 w2 name (shape o1) (cached_slot c) c); [exact Hst2|exact Hc'| |exact (land_dict _ _ _ _ _ _ _ HL)|exact Hfill].
  intros _ Hu. split_and!; [|exact (land_dict _ _ _ _ _ _ _ HL)|done|].
  - apply (ok_objects _ _ _ (land_ok _ _ _ _ _ _ _ HL) i o1 (land_at _ _ _ _ _ _ _ HL)).
  - destruct Hrec as [R1 [R2 R2'] R3 R4 R5]. pose proof (ok_runtime _ _ _ Hok) as Hr.
    exists (mkEntry name (cached_slot c) true false true true). split_and!; try done. rewrite (land_entries _ _ _ _ _ _ _ HL).
    pose proof (child_fresh _ _ _ (ok_child _ _ (ok_nodes _ Hr _ R1) _ R3)) as Hfresh. rewrite R4 in Hfresh. by apply find_keyed_last.
Qed.

(** ** The addition a write records *)

Lemma find_last {A} (f : A -> bool) l x : List.find f l = None -> f x = true -> List.find f (l ++ [x]) = Some x.
Proof. intros Hl Hx. induction l as [|y l IH]; cbn in *; [by rewrite Hx|]. by destruct (f y); [|apply IH]. Qed.

(** The walk from an object that shares the prototype, once [name] has been added below. *)
Lemma above_added w i o w' o' x name : world_ok w -> object_at w i = Some o -> edited w i o w' o' -> own w' i = own w i ++ [x] ->
  List.find (named name) (own w i) = None -> named name x = true -> paccessor x = false -> pwritable x = true ->
  forall fuel j oj j' oj', object_at w j = Some oj -> object_at w' j' = Some oj' ->
  prototypeValue (rt w') (shape oj') = prototypeValue (rt w) (shape oj) ->
  above fuel w j name = Some AddsHere -> above fuel w' j' name = Some AddsHere.
Proof.
  intros Hok Ho [_ Hst Hot _ _ _] Hown Hnone Hn Ha Hw. induction fuel as [|fuel IH]; intros j oj j' oj' Hj Hj' Hp; cbn [above]; [done|].
  rewrite Hj, Hj', Hp. destruct (prototypeValue (rt w) (shape oj)) as [| | |p| | |] eqn:Ep; try done.
  assert (exists h h', objs w !! p = Some h /\ objs w' !! p = Some h' /\ same_kind h h') as (h & h' & Eh & Eh' & Hk).
  { destruct (ok_root _ _ (ok_nodes _ (ok_runtime _ _ _ Hok) _ (obj_shape _ _ _ (ok_objects _ _ _ Hok j oj Hj)))) as (R & _).
    pose proof (ok_targets _ _ _ Hok _ p R Ep) as Hlt. apply lookup_lt_is_Some in Hlt as [h Eh]. destruct (st_kinds _ _ Hst p h Eh) as (h' & ? & ?). by exists h, h'. }
  rewrite Eh, Eh'. destruct h as [k q| | |], h' as [k' q'| | |]; try done.
  pose proof (object_at_kind w p k q Eh) as Hq. pose proof (object_at_kind w' p k' q' Eh') as Hq'.
  destruct (decide (p = i)) as [->|Hne].
  - rewrite Hown, (find_last _ _ _ Hnone Hn). by rewrite Ha, Hw.
  - destruct (Hot p Hne) as [E He]. rewrite Hq, Hq' in E. injection E as ->. destruct (He q Hq) as (E1 & E2 & E3).
    assert (own w' p = own w p) as -> by (unfold own; by rewrite Hq, Hq', E1). unfold shape_of. rewrite E3.
    destruct (List.find (named name) (own w p)); [done|]. by apply (IH p q p q).
Qed.

(** A definition leaves no setter in its site. *)
Lemma fill_not_accessor w s x c c' : isAccessor c = false -> set_fill fills_suppressed w s x (Some c) = Some c' -> isAccessor c' = false.
Proof. intros Hc. unfold set_fill. destruct (_ && _); intros [= <-]; [|done]. unfold isAccessor, fillForSet. cbn. by destruct (slotIsDouble _ _). Qed.

Lemma define_entry w i name v c en wr conf receiver w' c' r : isAccessor c = false ->
  setProp symbol_address fills_suppressed slotReprEligible w i name v (Some c) en true wr conf receiver = Some (w', Some c', r) -> isAccessor c' = false.
Proof.
  intros Hc. assert (forall self w' r, set_uncached symbol_address fills_suppressed slotReprEligible w i name v (Some c) en true wr conf self = Some (w', Some c', r) ->
    isAccessor c' = false) as Hwalk.
  { clear w' r. intros self w' r. unfold set_uncached, create_property. intros H. repeat (case_match; try done); simplify_eq; try done; by eapply fill_not_accessor. }
  unfold setProp, take_transition. intros H. repeat (case_match; try done); simplify_eq; try done; try (by eapply Hwalk); by eapply fill_not_accessor.
Qed.

(** The entry that setProp leaves. *)
Lemma setProp_site w i o name v c en defineOwn conf receiver w' c' r : world_ok w -> since <= proto_epoch (rt w) -> object_at w i = Some o ->
  valid name = true -> site_entry_ok w name defineOwn c -> set_entry_ok w' name c -> stable w w' ->
  setProp symbol_address fills_suppressed slotReprEligible w i name v (Some c) en defineOwn true conf receiver = Some (w', Some c', r) ->
  site_entry_ok w' name defineOwn c'.
Proof.
  intros Hok Hsi Ho Hv [Hc Hd] Hc' Hst E. split; [by eapply (setProp_entry w i o name v c en defineOwn)|]. intros ->. by eapply define_entry; [apply Hd|].
Qed.

Lemma setProp_keeps_site w i name v c en defineOwn wr conf receiver w' ic' r :
  setProp symbol_address fills_suppressed slotReprEligible w i name v (Some c) en defineOwn wr conf receiver = Some (w', ic', r) -> exists c', ic' = Some c'.
Proof.
  unfold setProp, set_uncached, create_property, take_transition, set_fill, accessor_fill. intros H.
  repeat (case_match; try done); simplify_eq; by eexists.
Qed.
End Effects.
