(* ===== verification/ObjectRuns.v ===== *)
(** * Runs of the object model

    What the operations of Objects.v, InlineCache.v and PropertyWrite.v do together: the
    steps an object model takes, the invariant of every run, and the operations in terms
    of the ordered property list of an object, [own]. *)
From stdpp Require Import relations.
From S2P Require Import Prelude Float64 Values Dictionary Shapes Objects ObjectSteps ObjectAdds InlineCache PropertyWrite.
Local Open Scope Z_scope.
Local Open Scope bool_scope.

(** ** Reading, by property lists *)

Inductive ChainEnd := FoundAt (h : nat) (p : Property) | ChainEnds | AtProxy (proxy : nat) | ChainTooLong.

(** The first property of the name along the chain of an object. *)
Fixpoint chain_find (fuel : nat) (w : World) (i : nat) (name : PropertyKey) : option ChainEnd :=
  match fuel with
  | O => Some ChainTooLong
  | S fuel =>
      let? o := object_at w i in
      match List.find (named name) (own w i) with
      | Some p => Some (FoundAt i p)
      | None =>
          match prototypeValue (rt w) (shape o) with
          | VObject p =>
              match objs w !! p with
              | Some ProxyObject => Some (AtProxy p)
              | Some (Shaped _ _) => chain_find fuel w p name
              | _ => Some ChainEnds
              end
          | _ => Some ChainEnds
          end
      end
  end.

Definition chain_read (w : World) (i : nat) (name : PropertyKey) (receiver : Value) : option GetOutcome :=
  let? x := chain_find (S kMaxPrototypeDepth) w i name in
  match x with
  | FoundAt _ p =>
      let v := List.nth 0 (pvalues p) VUndefined in
      if paccessor p then callGetter w v receiver else Some (Answer v)
  | ChainEnds => Some (Answer VUndefined)
  | AtProxy p => Some (AskProxy p receiver)
  | ChainTooLong => Some TooDeep
  end.

(** ** Steps *)

Section Steps.
Context {symbol_address : nat -> Z} (fills_suppressed : bool) (slotReprEligible : PropertyKey -> bool).
#[local] Notation world_ok := (Objects.world_ok symbol_address).
#[local] Notation kept := (InlineCache.kept (symbol_address := symbol_address)).
#[local] Notation stable := (Objects.stable symbol_address).

(** An entry that a write of this object may go by: it says nothing wrong about an own
    property or a setter, and the addition it records, if its epoch stands, is one the walk
    above the object allows. *)
Definition usable (w : World) (i : nat) (o : Object) (name : PropertyKey) (c : InlineCache) (defineOwn : bool) : Prop :=
  site_entry_ok (symbol_address := symbol_address) w name defineOwn c /\ (defineOwn = false -> records_addition w i o name c).

(** One operation that goes through no site, under what its callers have checked. *)
Inductive world_step (w w' : World) : Prop :=
  | StepStore i o index v : object_at w i = Some o -> 0 <= index < kOverflowSlot + overflowCapacity o -> setSlot w i index v = Some w' -> world_step w w'
  | StepSet suppressed i o name v en defineOwn wr conf receiver ic' r : object_at w i = Some o -> valid name = true ->
      setProp symbol_address suppressed slotReprEligible w i name v None en defineOwn wr conf receiver = Some (w', ic', r) -> world_step w w'
  | StepAccessor i o name getter setter en conf b : object_at w i = Some o -> valid name = true -> is_half getter -> is_half setter ->
      may_define w i o name true -> defineAccessor symbol_address w i name getter setter en conf = Some (w', b) -> world_step w w'
  | StepDelete i o name b : object_at w i = Some o -> valid name = true -> deleteProperty symbol_address w i name = Some (w', b) -> world_step w w'
  | StepSetPrototype i o newRoot : object_at w i = Some o -> (newRoot < next_id (rt w))%nat -> parent (shape_at (rt w) newRoot) = None ->
      isDictionary (shape_at (rt w) newRoot) = false -> setPrototype symbol_address w i newRoot = Some w' -> world_step w w'
  | StepIntegrity i o want b : object_at w i = Some o -> setIntegrity symbol_address w i want = Some (w', b) -> world_step w w'
  | StepRoot proto inline n : (forall p, proto = VObject p -> (p < length (objs w))%nat) -> createRoot w proto inline = (w', n) -> world_step w w'
  | StepCreate kind s data i : (s < next_id (rt w))%nat -> parent (shape_at (rt w) s) = None -> isDictionary (shape_at (rt w) s) = false ->
      create w kind s data = (w', i) -> world_step w w'
  | StepOther h : (forall k o, h <> Shaped k o) -> w' = mkWorld (rt w) (objs w ++ [h]) -> world_step w w'.

(** A site of the program that writes a name: an assignment, or the definition of an own
    property. *)
Record Site := mkSite { site_name : PropertyKey; site_defines : bool; site_entry : InlineCache }.
Definition with_entry (c : InlineCache) (s : Site) : Site := mkSite (site_name s) (site_defines s) c.

Record Machine := mkMachine { world : World; sites : list Site }.

(** An operation, a new site, whose entry is empty, or a write through a site: whatever its
    entry holds is used as it is, and what the write leaves there is what it holds next. *)
Inductive step (m m' : Machine) : Prop :=
  | StepWorld : world_step (world m) (world m') -> sites m' = sites m -> step m m'
  | StepSite name defines : valid name = true -> world m' = world m -> sites m' = sites m ++ [mkSite name defines empty_cache] -> step m m'
  | StepWrite suppressed k site i o v receiver c r : sites m !! k = Some site -> object_at (world m) i = Some o ->
      setProp symbol_address suppressed slotReprEligible (world m) i (site_name site) v (Some (site_entry site)) true (site_defines site) true true receiver
        = Some (world m', Some c, r) ->
      sites m' = <[k := with_entry c site]> (sites m) -> step m m'.

Lemma kept_refl w : kept w w. Proof. intros since _. reflexivity. Qed.

Lemma kept_trans w1 w2 w3 : kept w1 w2 -> kept w2 w3 -> kept w1 w3.
Proof.
  intros H1 H2 since Hs. pose proof (H1 since Hs) as S1. transitivity w2; [done|]. apply H2. pose proof (st_epoch _ _ S1). lia.
Qed.

(** Another heap object, which carries no shape: a function, a proxy. *)
Lemma other_ok w h : world_ok w -> (forall k o, h <> Shaped k o) -> let w' := mkWorld (rt w) (objs w ++ [h]) in
  world_ok w' /\ kept w w' /\ forall j, object_at w' j = object_at w j.
Proof.
  intros Hok Hh w'. assert (forall j, object_at w' j = object_at w j) as Hat.
  { intros j. unfold object_at, w'. cbn [objs]. destruct (Nat.lt_ge_cases j (length (objs w))) as [Hlt|Hge]; [by rewrite lookup_app_l|].
    rewrite lookup_app_r, (lookup_ge_None_2 (objs w)) by done. destruct (j - length (objs w))%nat as [|k]; cbn; [|done].
    destruct h; try done. by destruct (Hh kind o). }
  split_and!; [|intros since _; constructor; change (rt w') with (rt w); try done|done].
  - constructor; change (rt w') with (rt w); try apply Hok.
    + intros i o. rewrite Hat. apply (ok_objects _ _ _ Hok).
    + intros i j o o'. rewrite !Hat. apply (ok_private _ _ _ Hok).
    + intros s p o. rewrite Hat. apply (ok_links _ _ _ Hok).
    + intros s p Hs Hp. unfold w'. cbn [objs]. rewrite length_app. pose proof (ok_targets _ _ _ Hok s p Hs Hp). lia.
  - intros p h' Hp. exists h'. split; [|reflexivity]. unfold w'. cbn [objs]. by rewrite lookup_app_l by (by eapply lookup_lt_Some).
  - intros s d _ Hd Hf. split; [by exists d|done].
  - intros _ s p o _ _ Ho. exists o. by rewrite Hat.
Qed.

Lemma world_step_ok w w' : world_ok w -> world_step w w' -> world_ok w' /\ kept w w'.
Proof.
  intros Hok Hstep. assert ((forall since, since <= proto_epoch (rt w) -> world_ok w' /\ stable since w w') -> world_ok w' /\ kept w w') as Hall.
  { intros H. split; [apply (H (proto_epoch (rt w))); lia|]. intros since Hs. by apply H. }
  destruct Hstep.
  - apply Hall. intros since Hs. destruct (setSlot_rewritten (since := since) w i o index v Hok H H0) as (w2 & o2 & E & []& _). by simplify_eq.
  - apply Hall. intros since Hs.
    destruct (setProp_ok (since := since) suppressed slotReprEligible w i o name v None en defineOwn wr conf receiver Hok Hs H H0) as (e & He & _); [done|].
    by eapply (does_result (since := since)).
  - apply Hall. intros since Hs.
    destruct (defineAccessor_ok (since := since) w i o name getter setter en conf Hok Hs H H0 H1 H2 H3) as (w2 & o2 & E & [] & _). by simplify_eq.
  - apply Hall. intros since Hs. destruct (deleteProperty_ok (since := since) w i o name Hok Hs H H0) as (w2 & o2 & b2 & E & []). by simplify_eq.
  - apply Hall. intros since Hs. destruct (setPrototype_ok (since := since) w i o newRoot Hok Hs H H0 H1 H2) as (w2 & o2 & E & []). by simplify_eq.
  - destruct (refused w i want) eqn:Er.
    { unfold setIntegrity in H0. unfold refused in Er. rewrite Er in H0. injection H0 as <- <-. split; [done|apply kept_refl]. }
    apply Hall. intros since Hs. destruct (setIntegrity_ok (since := since) w i o want Hok H Er) as (w2 & o2 & d & E & []). by simplify_eq.
  - apply Hall. intros since Hs. pose proof (createRoot_ok (since := since) w proto inline Hok H) as Hr. rewrite H0 in Hr. by destruct Hr.
  - apply Hall. intros since Hs. pose proof (create_ok (since := since) w kind s data Hok H H0 H1) as Hc. rewrite H2 in Hc. by destruct Hc as (? & ? & _).
  - subst w'. by destruct (other_ok w h Hok H) as (? & ? & _).
Qed.

(** A write through any entry that says nothing wrong about own properties and setters. *)
Lemma setProp_kept suppressed w i o name v ic en defineOwn wr conf receiver w' ic' r : world_ok w -> object_at w i = Some o -> valid name = true ->
  (forall c, ic = Some c -> site_entry_ok (symbol_address := symbol_address) w name defineOwn c) ->
  setProp symbol_address suppressed slotReprEligible w i name v ic en defineOwn wr conf receiver = Some (w', ic', r) -> world_ok w' /\ kept w w'.
Proof.
  intros Hok Ho Hv Hic E. assert (forall since, since <= proto_epoch (rt w) -> world_ok w' /\ stable since w w') as H.
  { intros since Hs. destruct (setProp_ok (since := since) suppressed slotReprEligible w i o name v ic en defineOwn wr conf receiver Hok Hs Ho Hv Hic) as (e & He & _).
    by eapply (does_result (since := since)). }
  split; [apply (H (proto_epoch (rt w))); lia|]. intros since Hs. by apply H.
Qed.

Definition site_fine (w : World) (s : Site) : Prop :=
  valid (site_name s) = true /\ site_entry_ok (symbol_address := symbol_address) w (site_name s) (site_defines s) (site_entry s).
Definition machine_ok (m : Machine) : Prop := world_ok (world m) /\ Forall (site_fine (world m)) (sites m).

Lemma sites_kept w w' ss : world_ok w -> kept w w' -> Forall (site_fine w) ss -> Forall (site_fine w') ss.
Proof. intros Hok Hk HF. eapply Forall_impl; [exact HF|]. intros s (Hv & Hs & Hd). split; [done|]. split; [|done]. by eapply set_entry_kept. Qed.

Lemma step_ok m m' : machine_ok m -> step m m' -> machine_ok m' /\ kept (world m) (world m').
Proof.
  intros [Hok Hs] [Hw Es|name defines Hv Ew Es|suppressed k site i o v receiver c r Hk Ho E Es].
  - destruct (world_step_ok _ _ Hok Hw) as [Hok' Hkept]. split; [|done]. split; [done|]. rewrite Es. exact (sites_kept _ _ _ Hok Hkept Hs).
  - rewrite Ew. split; [|apply kept_refl]. split; [by rewrite Ew|]. rewrite Es, Ew. apply Forall_app. split; [done|]. by repeat constructor.
  - pose proof (Forall_lookup_1 _ _ _ _ Hs Hk) as [Hv Hc].
    assert (forall x, Some (site_entry site) = Some x -> site_entry_ok (symbol_address := symbol_address) (world m) (site_name site) (site_defines site) x) as Hic
      by (intros x [= <-]; done).
    destruct (setProp_kept suppressed _ i o _ v (Some (site_entry site)) true _ true true receiver _ _ _ Hok Ho Hv Hic E) as [Hok' Hkept].
    split; [|done]. split; [done|]. rewrite Es. apply Forall_insert; [exact (sites_kept _ _ _ Hok Hkept Hs)|]. split; [done|].
    eapply (setProp_site (since := proto_epoch (rt (world m))) suppressed slotReprEligible (world m) i o);
      [exact Hok|lia|exact Ho|exact Hv|exact Hc|exact (set_entry_kept _ _ _ _ Hok Hkept (proj1 Hc))|apply Hkept; lia|exact E].
Qed.

Lemma run_ok m m' : machine_ok m -> rtc step m m' -> machine_ok m' /\ kept (world m) (world m').
Proof.
  intros Hok Hr. induction Hr as [m|m1 m2 m3 H1 _ IH]; [split; [done|apply kept_refl]|].
  destruct (step_ok m1 m2 Hok H1) as [Hok2 Hk]. destruct (IH Hok2) as [? ?]. split; [done|]. by eapply kept_trans.
Qed.

(** ** Reading *)

Lemma first_value w i o e : world_ok w -> object_at w i = Some o -> In e (entries_of (rt w) (shape o)) ->
  getSlot w i (slot e) = Some (List.nth 0 (pvalues (view_in (slotsData o) e)) VUndefined).
Proof.
  intros Hok Ho He. destruct (entries_ok None w i o Hok Ho) as (_ & _ & Hb). destruct (Hb e He) as (_ & B0 & B1).
  rewrite (getSlot_covered w i o) by (done || destruct (accessor e); cbn in B1; lia). cbn. unfold own_slots. by destruct (accessor e).
Qed.

Lemma walk_reads w i name receiver : world_ok w -> valid name = true -> forall fuel depth holder,
  outcome (read_walk symbol_address fills_suppressed fuel depth w i holder name None receiver) =
  (let? x := chain_find fuel w holder name in
   match x with
   | FoundAt _ p => let v := List.nth 0 (pvalues p) VUndefined in if paccessor p then callGetter w v receiver else Some (Answer v)
   | ChainEnds => Some (Answer VUndefined) | AtProxy p => Some (AskProxy p receiver) | ChainTooLong => Some TooDeep
   end).
Proof.
  intros Hok Hv. induction fuel as [|fuel IH]; intros depth holder; cbn [read_walk chain_find]; [done|].
  destruct (object_at w holder) as [o|] eqn:Ho; [|done]. destruct (lookup_own (symbol_address := symbol_address) w holder o name Hok Ho Hv) as [-> Hin].
  destruct (lookupProperty symbol_address (rt w) (shape o) name) as [[e re]|]; cbn [option_map ientry].
  - destruct (Hin _ eq_refl) as [He _]. cbn in He. rewrite (first_value w holder o e Hok Ho He). cbv zeta. cbn [paccessor view_in view].
    destruct (accessor e); [|done]. by destruct (callGetter w _ receiver).
  - destruct (prototypeValue (rt w) (shape o)) as [| | |p| | |]; try done. destruct (objs w !! p) as [[]|]; done.
Qed.

Lemma getProp_reads w i o name receiver : world_ok w -> object_at w i = Some o -> valid name = true ->
  outcome (getProp symbol_address fills_suppressed w i name None receiver) =
  chain_read w i name (match receiver with Some v => v | None => VObject i end).
Proof. intros Hok Ho Hv. rewrite (getProp_walk fills_suppressed w i o name receiver Hv Ho). by apply walk_reads. Qed.

(** ** The other operations, by property lists *)

Lemma others_own w w' i j : others w w' i -> j <> i -> own w' j = own w j.
Proof.
  intros H Hne. destruct (H j Hne) as [E He]. unfold own. rewrite E. destruct (object_at w j) as [o|] eqn:Ho; [|done]. by destruct (He o) as (-> & _).
Qed.

Lemma delete_property_view f es name : delete_property name (map (view_in f) es) = map (view_in f) (others_than name es).
Proof.
  unfold delete_property, others_than. induction es as [|e es IH]; [done|]. cbn. unfold named at 1, keyed at 1. cbn.
  destruct (bool_decide _); cbn; by rewrite IH.
Qed.

Lemma deleteProperty_own w i o name : world_ok w -> object_at w i = Some o -> valid name = true ->
  exists w', deleteProperty symbol_address w i name = Some (w', match List.find (named name) (own w i) with Some p => pconfigurable p | None => true end) /\
    own w' i = match List.find (named name) (own w i) with Some p => if pconfigurable p then delete_property name (own w i) else own w i | None => own w i end /\
    (forall j, j <> i -> own w' j = own w j) /\ world_ok w' /\ kept w w'.
Proof.
  intros Hok Ho Hv.
  destruct (deleteProperty_ok (since := proto_epoch (rt w)) w i o name Hok ltac:(lia) Ho Hv) as (w' & o' & b & E & [D1 _ D3 D4 _ D6]).
  pose proof (world_step_ok w w' Hok (StepDelete w w' i o name b Ho Hv E)) as [_ Hk].
  exists w'. rewrite (find_own w i o name Ho). destruct (List.find (keyed name) (entries_of (rt w) (shape o))) as [e|] eqn:Ef; cbn [option_map].
  - destruct D6 as [-> D6]. cbn [view_in view pconfigurable]. split_and!; [done| |by intros j Hj; apply (others_own w w' i)|done|done].
    destruct (configurable e); [|by rewrite D6]. destruct D6 as [D6 D7]. unfold own. rewrite D4, Ho, D6, delete_property_view.
    apply map_ext_in. intros x Hx. unfold view_in, view. f_equal. cbn. apply map_ext_in. intros s Hs. apply D7. apply in_slots_of. rewrite D6. by exists x.
  - destruct D6 as [-> ->]. by split_and!.
Qed.

(** The attributes [preventExtensions], [seal] and [freeze] leave. *)
Definition harden (want : IntegrityLevel) (p : Property) : Property :=
  match want with
  | Open => p
  | Sealed => mkProperty (pname p) (penumerable p) (paccessor p) (pwritable p) false (pvalues p)
  | Frozen => mkProperty (pname p) (penumerable p) (paccessor p) (pwritable p && paccessor p) false (pvalues p)
  end.

Lemma harden_view f want e : live e = true -> view_in f (stamp_for want e) = harden want (view_in f e).
Proof.
  intros Hl. unfold stamp_for, stamp. destruct want; [done|..]; rewrite Hl; unfold view_in, view; cbn; [done|].
  unfold own_slots. cbn. destruct (accessor e); cbn; by rewrite ?andb_true_r, ?andb_false_r.
Qed.

Lemma setIntegrity_own w i o want : world_ok w -> object_at w i = Some o -> refused w i want = false ->
  exists w', setIntegrity symbol_address w i want = Some (w', Settled) /\ own w' i = map (harden want) (own w i) /\ extensible_at w' i = false /\
    (forall j, j <> i -> own w' j = own w j) /\ world_ok w' /\ kept w w'.
Proof.
  intros Hok Ho Hr. destruct (setIntegrity_ok (since := proto_epoch (rt w)) w i o want Hok Ho Hr) as (w' & o' & d & E & [D1 _ D3 D4 D5 D6 _ D8 D9 _]).
  pose proof (world_step_ok w w' Hok (StepIntegrity w w' i o want Settled Ho E)) as [_ Hk]. exists w'. split_and!; try done.
  - unfold own. rewrite D4, Ho, D9. unfold entries_of at 1. unfold shape_of in D5. rewrite D5, D8, !map_map. apply map_ext_in.
    intros e He. apply harden_view. by destruct (entries_ok None w i o Hok Ho) as (_ & _ & Hb); destruct (Hb e He).
  - unfold extensible_at. by rewrite D4, D5.
  - intros j Hj. by apply (others_own w w' i).
Qed.

(** What the table records, where the list cannot say: a regular expression. *)
Definition level_stands (w : World) (i : nat) (frozen : bool) : bool :=
  negb (frozen && is_regexp w i) ||
  match object_at w i with
  | Some o => match shape_dict (shape_of w o) with Some d => level_rank (level d) =? level_rank Frozen | None => false end
  | None => false
  end.

(** [testIntegrity] asks what the list says. *)
Lemma testIntegrity_own w i o frozen : world_ok w -> object_at w i = Some o ->
  testIntegrity w i frozen = Some (negb (has_elements w i) && negb (extensible_at w i) && level_stands w i frozen &&
    forallb (fun p => negb (pconfigurable p || frozen && negb (paccessor p) && pwritable p)) (own w i)).
Proof.
  intros Hok Ho. unfold testIntegrity, level_stands, extensible_at, own. rewrite Ho. destruct (has_elements w i); [done|]. unfold entries_of, shape_of.
  destruct (shape_dict (shape_at (rt w) (shape o))) as [d|] eqn:Ed; [|done]. destruct (extensible d); [done|].
  destruct (frozen && is_regexp w i) eqn:Er; [destruct (level_rank (level d) =? level_rank Frozen); cbn [negb andb orb]|cbn [negb andb orb]]; try done.
  all: f_equal; unfold props; induction (entries d) as [|e es IH]; [done|]; cbn; destruct (live e); cbn; by rewrite IH.
Qed.

(** ** What holds of every run *)

Definition empty_world : World := mkWorld empty_runtime [].
Definition empty_machine : Machine := mkMachine empty_world [].

Lemma empty_machine_ok : machine_ok empty_machine.
Proof.
  split; [|constructor]. constructor; [apply empty_runtime_ok|..]; unfold empty_machine, empty_world, next_id; cbn; try lia; done.
Qed.

(** C3: whatever operations have run since the thread started, each under what its callers
    check ([world_step] lists it), and whatever those left in the entries that its
    assignments and definitions write through, every object is whole: its
    properties have distinct names and slots inside its storage, a slot its shape says is a
    double holds one, and the object its prototype is, if it has properties, is on a shape
    that says so. *)
Theorem object_runs_sound m i o : rtc step empty_machine m -> object_at (world m) i = Some o ->
  NoDup (map pname (own (world m) i)) /\
  (forall e, In e (entries_of (rt (world m)) (shape o)) -> 0 <= slot e /\ slot e + slotWidth (accessor e) <= kOverflowSlot + overflowCapacity o) /\
  (forall k, 0 <= k -> slotIsDouble (shape_of (world m) o) k = true -> exists d, slotsData o k = VNumber d) /\
  (forall p q, prototypeValue (rt (world m)) (shape o) = VObject p -> object_at (world m) p = Some q -> used_as_prototype (shape_of (world m) q) = true).
Proof.
  intros Hrun Ho. destruct (run_ok _ _ empty_machine_ok Hrun) as [[Hok _] _]. set (w := world m) in *.
  pose proof (ok_objects _ _ _ Hok i o Ho) as [Hs _ _ Hd]. split_and!.
  - by apply (own_names (symbol_address := symbol_address) w i o).
  - intros e He. destruct (entries_ok None w i o Hok Ho) as (_ & _ & Hb). by destruct (Hb e He) as (_ & ? & ?).
  - intros k Hk. by apply Hd.
  - intros p q Hp. destruct (ok_root _ _ (ok_nodes _ (ok_runtime _ _ _ Hok) _ Hs)) as (R & _). by apply (ok_links _ _ _ Hok (root (shape_of w o)) p q).
Qed.

(** C4: caches do not change what a read answers.  In any run, if the entries of a read site
    tell the truth about a name, as empty ones do, then after any further operations, writes
    through sites with whatever entries those have come to included, a read through the site
    answers what the first property of that name along the chain of the object says: its
    value, its getter to call, [undefined], or the proxy to ask.  It leaves entries that tell
    the truth, and so does the negative entry it may be followed by. *)
Theorem cached_reads_agree m m' i o name ways receiver : rtc step empty_machine m -> site_ok (symbol_address := symbol_address) (world m) name ways ->
  rtc step m m' -> object_at (world m') i = Some o -> valid name = true ->
  outcome (getProp symbol_address fills_suppressed (world m') i name (Some ways) receiver) =
    chain_read (world m') i name (match receiver with Some v => v | None => VObject i end) /\
  forall r site b, getProp symbol_address fills_suppressed (world m') i name (Some ways) receiver = Some (r, site, b) ->
    exists ways', site = Some ways' /\ site_ok (symbol_address := symbol_address) (world m') name ways' /\
    (b = true -> r = Answer VUndefined /\ forall refused, exists ways2,
       rtInstallAbsentEntry fills_suppressed (world m') (Some ways') i refused = Some ways2 /\ site_ok (symbol_address := symbol_address) (world m') name ways2).
Proof.
  intros Hstart Hs Hrun Ho Hv. destruct (run_ok _ _ empty_machine_ok Hstart) as [Hm _]. destruct (run_ok m m' Hm Hrun) as [[Hok' _] Hk].
  apply (site_kept (world m) (world m') name ways (proj1 Hm) Hk) in Hs. set (w' := world m') in *.
  destruct (getProp_cached fills_suppressed w' i o name ways receiver Hok' Ho Hv Hs) as [Hout Hsite].
  split; [by rewrite Hout; apply (getProp_reads w' i o)|]. intros r site b E. destruct (Hsite r site b E) as (ways' & -> & Hs' & Hb).
  exists ways'. split_and!; [done|done|]. intros Hbt. destruct (Hb Hbt) as [-> (n & Hn & Ha)]. split; [done|].
  intros refused. by eapply absent_fill_ok.
Qed.

(** The object keeps its list through an outcome that stores nothing. *)
Lemma leaves_not_stored w i name v en defineOwn wr conf receiver r :
  ordinary_set w i name v en defineOwn wr conf receiver = Leaves (Some r) -> r <> Stored.
Proof. unfold ordinary_set, callSetter. intros H ->. repeat (case_match; try done). Qed.

(** C5: a write is OrdinarySet, or the definition of an own property.  Without a site entry,
    or with one that is [usable], where the addition an entry records has to be allowed only
    while its epoch stands, it calls the setter, asks the proxy or refuses as the property
    lists of the chain say, and leaves the objects alone; or it stores, and then the object's
    list has the new value in place, or the new property at the end, every other object keeps
    its list and every cached read stays true.  The entry that a write with a writable
    property leaves says nothing wrong about an own property or a setter, and when an
    assignment has added the property to an object that is no table it is usable for every
    object on the shape that was left.  (Not so, later, after a store to an own
    property or the freezing of a table: see [own_fill_skips_setter] and
    [freeze_leaves_transition].) *)
Theorem property_write_ordinary w i o name v ic en defineOwn wr conf receiver : world_ok w -> object_at w i = Some o -> valid name = true ->
  (forall c, ic = Some c -> usable w i o name c defineOwn) ->
  let res := setProp symbol_address fills_suppressed slotReprEligible w i name v ic en defineOwn wr conf receiver in
  match ordinary_set w i name v en defineOwn wr conf (match receiver with Some v => v | None => VObject i end) with
  | Leaves None => res = None
  | Leaves (Some r) => exists ic', res = Some (w, ic', r)
  | Puts f => exists w' ic' v', res = Some (w', ic', Stored) /\ same_number v v' /\ own w' i = f v' /\
      (forall j, j <> i -> own w' j = own w j) /\ world_ok w' /\ kept w w'
  end /\
  forall c w' c' r, ic = Some c -> wr = true -> res = Some (w', Some c', r) ->
    site_entry_ok (symbol_address := symbol_address) w' name defineOwn c' /\
    (defineOwn = false -> r = Stored -> List.find (named name) (own w i) = None -> isDictionary (shape_of w o) = false ->
     forall j oj, object_at w' j = Some oj -> shape oj = shape o -> usable w' j oj name c' false).
Proof.
  intros Hok Ho Hv Hic. cbv zeta. set (self := match receiver with Some v => v | None => VObject i end).
  destruct (setProp_ok (since := proto_epoch (rt w)) fills_suppressed slotReprEligible w i o name v ic en defineOwn wr conf receiver Hok ltac:(lia) Ho Hv) as (e & Hdoes & He);
    [intros c Hc; apply (Hic c Hc)|]. fold self in He. rewrite He in Hdoes by (intros c Hc Hd _; by apply (Hic c Hc)). clear e He.
  assert (forall w' ic' r, setProp symbol_address fills_suppressed slotReprEligible w i name v ic en defineOwn wr conf receiver = Some (w', ic', r) ->
    world_ok w' /\ kept w w') as Hkept by (intros w' ic' r E; eapply setProp_kept; [done..|intros c Hc; apply (Hic c Hc)|exact E]).
  split.
  - unfold does in Hdoes. destruct (ordinary_set _ _ _ _ _ _ _ _ _) as [[r|]|f]; [done..|].
    destruct Hdoes as (w' & ic' & o' & v' & E & [_ _ He _ _ _] & Hn & Hown). exists w', ic', v'. destruct (Hkept _ _ _ E).
    split_and!; try done. intros j Hj. by apply (others_own w w' i).
  - intros c w' c' r -> -> E. destruct (Hic c eq_refl) as [Hc _]. destruct (Hkept _ _ _ E) as [_ Hk]. pose proof (set_entry_kept w w' name c Hok Hk (proj1 Hc)) as Hc'.
    assert (site_entry_ok (symbol_address := symbol_address) w' name defineOwn c') as Hleft
      by (eapply (setProp_site (since := proto_epoch (rt w)) fills_suppressed slotReprEligible w i o); [exact Hok|lia|exact Ho|exact Hv|exact Hc|exact Hc'|apply Hk; lia|exact E]).
    split; [done|]. intros -> -> Hnone Hd j oj Hj Hs. split; [done|]. intros _ next _ _ _.
    destruct (ordinary_set w i name v en false true conf self) as [[r|]|f] eqn:Eo; cbn in Hdoes; [|congruence|].
    { destruct Hdoes as [ic' Er]. rewrite E in Er. injection Er as _ _ <-. by apply leaves_not_stored in Eo. }
    unfold ordinary_set in Eo. rewrite Hnone in Eo. destruct (above kMaxPrototypeDepth w i name) as [[]|] eqn:Ea; try done.
    destruct (extensible_at w i); [|done]. injection Eo as <-. destruct Hdoes as (w2 & ic2 & o' & v' & E2 & Hed & _ & Hown). rewrite E in E2. injection E2 as <- <-.
    eapply (above_added w i o w' o' _ name Hok Ho Hed Hown Hnone); [by apply bool_decide_eq_true|done|done|exact Ho|exact Hj| |done].
    rewrite Hs. apply (st_trees _ _ (edit_stable _ _ _ _ _ Hed) (shape o)); [apply (ok_objects _ _ _ Hok i o Ho)|done].
Qed.

(** C39: [delete o.k], in either mode: it answers false for a property that is not
    configurable, and otherwise true with that property gone and the others in their
    order with their values; no other object changes, and every cached read stays true. *)
Theorem object_delete_ordinary w i o name : world_ok w -> object_at w i = Some o -> valid name = true ->
  exists w', deleteProperty symbol_address w i name = Some (w', match List.find (named name) (own w i) with Some p => pconfigurable p | None => true end) /\
    own w' i = match List.find (named name) (own w i) with
      | Some p => if pconfigurable p then delete_property name (own w i) else own w i | None => own w i end /\
    (forall j, j <> i -> own w' j = own w j) /\ world_ok w' /\ kept w w'.
Proof. apply deleteProperty_own. Qed.

(** An accessor defined by its halves: an accessor of the name keeps its place and
    the half that is not given, a data property becomes one with an empty pair, in a
    table, and a new one goes to the end.  There the [configurable] asked for is
    dropped when the object is, or has just become, a table. *)
Theorem accessor_defined_by_halves w i o name getter setter en conf : world_ok w -> object_at w i = Some o -> valid name = true ->
  is_half getter -> is_half setter -> may_define w i o name true ->
  exists w' o', defineAccessor symbol_address w i name getter setter en conf = Some (w', true) /\ object_at w' i = Some o' /\
    own w' i = define_accessor name en (conf || isDictionary (shape_of w' o')) getter setter (own w i) /\
    (forall j, j <> i -> own w' j = own w j) /\ world_ok w' /\ kept w w'.
Proof.
  intros Hok Ho Hv Hg Hs Hm.
  destruct (defineAccessor_ok (since := proto_epoch (rt w)) w i o name getter setter en conf Hok ltac:(lia) Ho Hv Hg Hs Hm) as (w' & o' & E & [D1 _ D3 D4 _ _] & Hown).
  pose proof (world_step_ok w w' Hok (StepAccessor w w' i o name getter setter en conf true Ho Hv Hg Hs Hm E)) as [_ Hk].
  exists w', o'. split_and!; try done. intros j Hj. by apply (others_own w w' i).
Qed.

(** A property list that takes no write. *)
Lemma hardened_no_write w i p : In p (map (harden Frozen) (own w i)) -> paccessor p = true \/ pwritable p = false.
Proof. intros (q & <- & _)%in_map_iff. cbn. destruct (paccessor q); [by left|right; by rewrite andb_false_r]. Qed.

(** An object that is closed and whose properties take no write. *)
Lemma frozen_not_stored w i name v en defineOwn wr conf receiver : extensible_at w i = false ->
  (forall p, In p (own w i) -> paccessor p = true \/ pwritable p = false) ->
  exists r, ordinary_set w i name v en defineOwn wr conf receiver = Leaves r.
Proof.
  intros Hx Hp. unfold ordinary_set. destruct (List.find (named name) (own w i)) as [p|] eqn:Ef.
  - apply List.find_some in Ef as [Hin _]. destruct (Hp p Hin) as [Ha|Hw]; [rewrite Ha; destruct defineOwn; by eexists|].
    rewrite Hw. destruct (paccessor p); [destruct defineOwn|]; by eexists.
  - rewrite Hx. destruct (if defineOwn then _ else _) as [[]|]; by eexists.
Qed.

(** C40: integrity levels.  [seal] and [freeze] of a typed array with elements are refused,
    and it is neither.  Otherwise [preventExtensions], [seal] and [freeze] answer, leave names,
    order and values alone, clear the attributes they should and close the object;
    [testIntegrity] then says so of the last two, whatever was deleted before.  A frozen object
    takes no write, without an entry or through one that says nothing wrong
    ([site_entry_ok], which the entries of every run are), and deletes nothing. *)
Theorem integrity_levels w i o want : world_ok w -> object_at w i = Some o ->
  (refused w i want = true -> setIntegrity symbol_address w i want = Some (w, HasElements) /\ forall frozen, testIntegrity w i frozen = Some false) /\
  (refused w i want = false ->
   exists w', setIntegrity symbol_address w i want = Some (w', Settled) /\ own w' i = map (harden want) (own w i) /\ extensible_at w' i = false /\
    (forall j, j <> i -> own w' j = own w j) /\ kept w w' /\
    (want <> Open -> testIntegrity w' i false = Some true) /\
    (want = Frozen -> testIntegrity w' i true = Some true /\
       (forall suppressed name v ic en defineOwn wr conf receiver w2 ic' r, valid name = true ->
          (forall c, ic = Some c -> site_entry_ok (symbol_address := symbol_address) w' name defineOwn c) ->
          setProp symbol_address suppressed slotReprEligible w' i name v ic en defineOwn wr conf receiver = Some (w2, ic', r) -> w2 = w' /\ r <> Stored) /\
       (forall name, valid name = true -> List.find (named name) (own w' i) <> None -> exists w'', deleteProperty symbol_address w' i name = Some (w'', false)))).
Proof.
  intros Hok Ho. split.
  { unfold refused, setIntegrity, testIntegrity. intros Hr. rewrite Hr, Ho. split; [done|]. intros frozen. by apply andb_true_iff in Hr as [_ ->]. }
  intros Hr. destruct (setIntegrity_own w i o want Hok Ho Hr) as (w' & E & Hown & Hx & Hoth & Hok' & Hk). exists w'.
  destruct (setIntegrity_ok (since := proto_epoch (rt w)) w i o want Hok Ho Hr) as (w2 & o' & d & E2 & [_ Hst _ Ho' Hd _ Hlevel _ _ _]).
  assert (w2 = w') as -> by congruence. pose proof (elements_kept w w' i o Hst Ho) as Hel.
  assert (want = Frozen -> level_stands w' i true = true) as Hl.
  { intros ->. unfold level_stands. rewrite Ho', Hd. rewrite (proj2 (Z.eqb_eq _ _)); [apply orb_true_r|]. destruct (level d); cbn in *; lia. }
  assert (want <> Open -> has_elements w' i = false) as Hne by (rewrite Hel; unfold refused in Hr; by destruct want).
  split_and!; try done.
  - intros Hw. rewrite (testIntegrity_own w' i o' false Hok' Ho'), Hx, Hown, Hne by done. cbn. f_equal. apply forallb_forall.
    intros p (q & <- & _)%in_map_iff. by destruct want.
  - intros ->. split_and!.
    + rewrite (testIntegrity_own w' i o' true Hok' Ho'), Hx, (Hl eq_refl), Hown, Hne by done. cbn. f_equal. apply forallb_forall.
      intros p (q & <- & _)%in_map_iff. cbn. by destruct (paccessor q), (pwritable q).
    + intros suppressed name v ic en defineOwn wr conf receiver w2 ic' r Hv Hic Eset. apply (frozen_not_stored w' i name v en defineOwn wr conf (match receiver with Some v => v | None => VObject i end)) in Hx as [r' Hr'].
      2: { intros p Hp. rewrite Hown in Hp. by apply (hardened_no_write w i). }
      destruct (setProp_ok (since := proto_epoch (rt w')) suppressed slotReprEligible w' i o' name v ic en defineOwn wr conf receiver Hok' ltac:(lia) Ho' Hv Hic) as (e & Hdoes & He).
      rewrite He in Hdoes. 2: { intros c _ _. unfold transition_hit, isDictionary. rewrite Hd. cbn. destruct (cached_shape c); [done..|]. by rewrite andb_false_r. }
      rewrite Hr' in Hdoes. destruct r' as [r'|]; cbn in Hdoes; [|congruence]. destruct Hdoes as [ic2 E3]. rewrite Eset in E3. injection E3 as -> -> ->.
      split; [done|]. by eapply leaves_not_stored.
    + intros name Hv Hf. destruct (deleteProperty_own w' i o' name Hok' Ho' Hv) as (w3 & Ed & _). exists w3. rewrite Ed. repeat f_equal.
      destruct (List.find (named name) (own w' i)) as [p|] eqn:Ef; [|done]. apply List.find_some in Ef as [Hp _]. rewrite Hown in Hp.
      by apply in_map_iff in Hp as (q & <- & _).
Qed.

(** [[SetPrototypeOf]] moves the prototype of one object: no property of any object
    changes, and every cached read stays true. *)
Theorem prototype_moves_alone w i o newRoot : world_ok w -> object_at w i = Some o -> (newRoot < next_id (rt w))%nat ->
  parent (shape_at (rt w) newRoot) = None -> isDictionary (shape_at (rt w) newRoot) = false ->
  exists w' o', setPrototype symbol_address w i newRoot = Some w' /\ object_at w' i = Some o' /\
    prototypeValue (rt w') (shape o') = prototype (shape_at (rt w) newRoot) /\ (forall j, own w' j = own w j) /\ world_ok w' /\ kept w w'.
Proof.
  intros Hok Ho Hn Hp Hd.
  destruct (setPrototype_ok (since := proto_epoch (rt w)) w i o newRoot Hok ltac:(lia) Ho Hn Hp Hd) as (w' & o' & E & [D1 _ D3 D4 D5 D6 D7]).
  pose proof (world_step_ok w w' Hok (StepSetPrototype w w' i o newRoot Ho Hn Hp Hd E)) as [_ Hk]. exists w', o'. split_and!; try done.
  intros j. destruct (decide (j = i)) as [->|Hne]; [by apply (own_same w i o w' o')|by apply (others_own w w' i)].
Qed.
End Steps.

(** ** A thread with four objects *)

Definition no_eligible (k : PropertyKey) : bool := false.
Definition set_ (w : World) (i : nat) (name : PropertyKey) (v : Value) (ic : option InlineCache) : option (World * option InlineCache * SetOutcome) :=
  setProp no_symbols false no_eligible w i name v ic true false true true None.

Definition world1 : World := fst (createRoot empty_world VUndefined 4).
Definition world2 : World := fst (create world1 Plain 0 None).
Definition world3 : World := fst (createRoot world2 (VObject 0) 4).
Definition world4 : World := fst (create world3 Plain 1 None).
Definition world5 : World := fst (create world4 Plain 1 None).

(** Objects 1 and 2 inherit from object 0; object 3 is a function. *)
Definition demo : World := mkWorld (rt world5) (objs world5 ++ [FunctionObject VUndefined]).

Definition the_x : PropertyKey := StringKey (bytes "x").
Definition truth : Value := VOther 0xFFF4 1.

#[local] Notation machine_step := (step (symbol_address := no_symbols) no_eligible).
#[local] Notation object_step := (world_step (symbol_address := no_symbols) no_eligible).

Lemma rtc_world w w' ss : object_step w w' -> rtc machine_step (mkMachine w ss) (mkMachine w' ss).
Proof. intros H. apply rtc_once. by apply StepWorld. Qed.

Lemma demo_run : rtc machine_step empty_machine (mkMachine demo []).
Proof.
  transitivity (mkMachine world1 []). { apply rtc_world, (StepRoot _ _ _ VUndefined 4 0); [by intros p [=]|reflexivity]. }
  transitivity (mkMachine world2 []). { apply rtc_world, (StepCreate _ _ _ Plain 0 None 0); by vm_compute; lia || reflexivity. }
  transitivity (mkMachine world3 []). { apply rtc_world, (StepRoot _ _ _ (VObject 0) 4 1); [intros p [= <-]; vm_compute; lia|reflexivity]. }
  transitivity (mkMachine world4 []). { apply rtc_world, (StepCreate _ _ _ Plain 1 None 1); by vm_compute; lia || reflexivity. }
  transitivity (mkMachine world5 []). { apply rtc_world, (StepCreate _ _ _ Plain 1 None 2); by vm_compute; lia || reflexivity. }
  by apply rtc_world, (StepOther _ _ _ (FunctionObject VUndefined)).
Qed.

Lemma demo_ok : Objects.world_ok no_symbols demo.
Proof. apply (run_ok no_eligible empty_machine (mkMachine demo [])); [apply empty_machine_ok|apply demo_run]. Qed.

Example demo_shapes : option_map shape (object_at demo 0) = Some 2%nat /\ option_map shape (object_at demo 1) = Some 1%nat.
Proof. by vm_compute. Qed.

(** Object 1 has its own [x] before object 0 gets a setter for it; a site then writes it. *)
Definition after_own_fill : option (World * option InlineCache) :=
  let? (w, _, _) := set_ demo 1 the_x truth None in
  let? (w, _) := defineAccessor no_symbols w 0 the_x VUndefined (VObject 3) true true in
  let? (w, ic, _) := set_ w 1 the_x truth (Some empty_cache) in Some (w, ic).

(** What a write of [x] on object 2 ends in, without the site and through it. *)
Definition both_ways (x : option (World * option InlineCache)) : option (SetOutcome * SetOutcome) :=
  let? (w, ic) := x in
  let? (_, _, plain_) := set_ w 2 the_x truth None in
  let? (_, _, cached) := set_ w 2 the_x truth ic in Some (plain_, cached).

(** An entry filled by a store to an own property is taken as a proof that nothing above
    stops the addition: the setter of object 0 is not called. *)
Lemma own_fill_skips_setter : both_ways after_own_fill = Some (CallSetter 3 (VObject 2) truth, Stored).
Proof. by vm_compute. Qed.

(** Object 0, a table, has a writable [x]; a site adds [x] to object 1; object 0 is frozen. *)
Definition after_freeze : option (World * option InlineCache) :=
  let? (w, _, _) := set_ demo 0 the_x truth None in
  let? (w, _, _) := set_ w 0 (StringKey (bytes "y")) truth None in
  let? (w, _) := deleteProperty no_symbols w 0 (StringKey (bytes "y")) in
  let? (w, ic, _) := set_ w 1 the_x truth (Some empty_cache) in
  let? (w, _) := setIntegrity no_symbols w 0 Frozen in Some (w, ic).

(** Freezing a table moves no epoch, so the addition is still taken. *)
Lemma freeze_leaves_transition : both_ways after_freeze = Some (Refused NotWritable, Stored).
Proof. by vm_compute. Qed.

(** ** The claims at these worlds *)

(** Object 1 with a property of its own. *)
Definition demo_x : World := match set_ demo 1 the_x truth None with Some (w, _, _) => w | None => demo end.
Definition object_of (w : World) (i : nat) : Object := match object_at w i with Some o => o | None => mkObj 0 (fun _ => VUndefined) 0 None end.

Lemma object_of_at w i : match object_at w i with Some _ => true | None => false end = true -> object_at w i = Some (object_of w i).
Proof. unfold object_of. by destruct (object_at w i). Qed.

Lemma demo_x_step : object_step demo demo_x.
Proof.
  assert (match set_ demo 1 the_x truth None with Some _ => true | None => false end = true) as Hs by by vm_compute.
  assert (object_at demo 1 = Some (object_of demo 1)) as Ho by by vm_compute.
  unfold demo_x. destruct (set_ demo 1 the_x truth None) as [[[w ic] r]|] eqn:E; [|done].
  by apply (StepSet _ _ _ false 1 (object_of demo 1) the_x truth true false true true None ic r).
Qed.

Lemma demo_x_ok : Objects.world_ok no_symbols demo_x.
Proof. apply (world_step_ok no_eligible demo demo_x); [apply demo_ok|apply demo_x_step]. Qed.

(** A site assigns [x]: first to object 1, which fills its entry, then to object 2, by the
    transition the entry records. *)
Definition written (w : World) (i : nat) (c : InlineCache) : World * InlineCache :=
  match set_ w i the_x truth (Some c) with Some (w, Some c, _) => (w, c) | _ => (w, c) end.
Definition one_x : World * InlineCache := written demo 1 empty_cache.
Definition two_x : World * InlineCache := written one_x.1 2 one_x.2.
Definition site_x (c : InlineCache) : list Site := [mkSite the_x false c].

Lemma written_step w i c : object_at w i = Some (object_of w i) ->
  match set_ w i the_x truth (Some c) with Some (_, Some _, _) => true | _ => false end = true ->
  machine_step (mkMachine w (site_x c)) (mkMachine (written w i c).1 (site_x (written w i c).2)).
Proof.
  intros Ho H. unfold written. destruct (set_ w i the_x truth (Some c)) as [[[w' [c'|]] r]|] eqn:E; try done.
  by apply (StepWrite _ _ _ false 0%nat (mkSite the_x false c) i (object_of w i) truth None c' r).
Qed.

Example transition_taken : own one_x.1 1 = [mkProperty the_x true false true true [truth]] /\ own two_x.1 2 = own one_x.1 1 /\
  cached_shape one_x.2 <> NoShape /\ two_x.2 = one_x.2 /\
  match object_at demo 2 with Some o => transition_hit one_x.1 o one_x.2 the_x true true true | None => false end = true.
Proof. by vm_compute. Qed.

Lemma two_x_run : rtc machine_step empty_machine (mkMachine two_x.1 (site_x two_x.2)).
Proof.
  etransitivity; [apply demo_run|]. eapply rtc_l; [by apply (StepSite _ _ (mkMachine demo (site_x empty_cache)) the_x false)|].
  eapply rtc_l; [apply (written_step demo 1 empty_cache); by vm_compute|]. apply rtc_once. apply (written_step one_x.1 2 one_x.2); by vm_compute.
Qed.

(** Object 0 has the [x] that objects 1 and 2 inherit; a read on object 1 fills a site. *)
Definition base_x : World := match set_ demo 0 the_x truth None with Some (w, _, _) => w | None => demo end.
Definition read_x : list InlineCache :=
  match getProp no_symbols false base_x 1 the_x (Some (repeat empty_cache 4)) None with Some (_, Some ways, _) => ways | _ => [] end.
Definition base_xy : World := match set_ base_x 2 (StringKey (bytes "y")) truth None with Some (w, _, _) => w | None => base_x end.

Lemma base_x_run : rtc machine_step empty_machine (mkMachine base_x []).
Proof.
  etransitivity; [apply demo_run|]. apply rtc_world.
  assert (match set_ demo 0 the_x truth None with Some _ => true | None => false end = true) as Hs by by vm_compute.
  unfold base_x. destruct (set_ demo 0 the_x truth None) as [[[w ic] r]|] eqn:E; [|done].
  apply (StepSet _ _ _ false 0 (object_of demo 0) the_x truth true false true true None ic r); [by vm_compute|done|exact E].
Qed.

Lemma base_xy_step : machine_step (mkMachine base_x []) (mkMachine base_xy []).
Proof.
  apply StepWorld; [|done]. change (object_step base_x base_xy).
  assert (match set_ base_x 2 (StringKey (bytes "y")) truth None with Some _ => true | None => false end = true) as Hs by by vm_compute.
  unfold base_xy. destruct (set_ base_x 2 (StringKey (bytes "y")) truth None) as [[[w ic] r]|] eqn:E; [|done].
  apply (StepSet _ _ _ false 2 (object_of base_x 2) (StringKey (bytes "y")) truth true false true true None ic r); [by vm_compute|done|exact E].
Qed.

Lemma demo_x_at : object_at demo_x 1 = Some (object_of demo_x 1).
Proof. apply object_of_at. by vm_compute. Qed.

Lemma demo_x_own : own demo_x 1 = [mkProperty the_x true false true true [truth]].
Proof. by vm_compute. Qed.

Lemma object_runs_sound_witness : NoDup (map pname (own two_x.1 2)) /\ own two_x.1 2 = [mkProperty the_x true false true true [truth]] /\
  (forall p q, prototypeValue (rt two_x.1) (shape (object_of two_x.1 2)) = VObject p -> object_at two_x.1 p = Some q -> used_as_prototype (shape_of two_x.1 q) = true).
Proof.
  destruct (object_runs_sound (symbol_address := no_symbols) no_eligible (mkMachine two_x.1 (site_x two_x.2)) 2 (object_of two_x.1 2)) as (H1 & _ & _ & H2);
    [apply two_x_run|by vm_compute|]. split; [exact H1|]. split; [by vm_compute|exact H2].
Defined.

(** The entry that the read on object 1 left answers one on object 2's shape-mate after
    object 2 has gone its own way. *)
Lemma cached_reads_agree_witness : existsb (fun c => match cached_shape c with RealShape _ => 0 <? realDepth c | _ => false end) read_x = true /\
  outcome (getProp no_symbols false base_xy 1 the_x (Some read_x) None) = chain_read base_xy 1 the_x (VObject 1) /\
  chain_read base_xy 1 the_x (VObject 1) = Some (Answer truth).
Proof.
  assert (site_ok (symbol_address := no_symbols) base_x the_x (repeat empty_cache 4)) as Hempty by (split; [done|]; by repeat constructor).
  destruct (cached_reads_agree (symbol_address := no_symbols) false no_eligible (mkMachine base_x []) (mkMachine base_x []) 1 (object_of base_x 1) the_x (repeat empty_cache 4) None
    base_x_run Hempty (rtc_refl _ _) ltac:(by vm_compute) eq_refl) as [_ Hleft].
  assert (exists r b, getProp no_symbols false base_x 1 the_x (Some (repeat empty_cache 4)) None = Some (r, Some read_x, b)) as (r & b & E)
    by (eexists _, _; vm_compute; reflexivity).
  destruct (Hleft r (Some read_x) b E) as (ways' & [= <-] & Hread & _). split; [by vm_compute|]. split; [|by vm_compute].
  exact (proj1 (cached_reads_agree (symbol_address := no_symbols) false no_eligible (mkMachine base_x []) (mkMachine base_xy []) 1 (object_of base_xy 1) the_x read_x None
    base_x_run Hread (rtc_once _ _ base_xy_step) ltac:(by vm_compute) eq_refl)).
Defined.

(** The entry that the write of object 1 left, taken by that of object 2. *)
Lemma property_write_ordinary_witness : transition_hit one_x.1 (object_of one_x.1 2) one_x.2 the_x true true true = true /\
  exists w' ic' v', setProp no_symbols false no_eligible one_x.1 2 the_x truth (Some one_x.2) true false true true None = Some (w', ic', Stored) /\
  own w' 2 = [mkProperty the_x true false true true [v']].
Proof.
  assert (exists w', setProp no_symbols false no_eligible demo 1 the_x truth (Some empty_cache) true false true true None = Some (w', Some one_x.2, Stored) /\ w' = one_x.1)
    as (w1 & E & ->).
  { assert (match set_ demo 1 the_x truth (Some empty_cache) with Some (_, Some _, Stored) => true | _ => false end = true) as Hs by by vm_compute.
    unfold one_x, written, set_ in *. destruct (setProp no_symbols false no_eligible demo 1 the_x truth (Some empty_cache) true false true true None) as [[[w' [c'|]] []]|]; try done.
    by exists w'. }
  destruct (property_write_ordinary (symbol_address := no_symbols) false no_eligible demo 1 (object_of demo 1) the_x truth (Some empty_cache) true false true true None
    demo_ok ltac:(by vm_compute) eq_refl) as [H1 Hleft]; [intros c [= <-]; by repeat split|].
  destruct (Hleft empty_cache _ _ _ eq_refl eq_refl E) as [_ Hfresh].
  assert (Objects.world_ok no_symbols one_x.1) as Hok1.
  { apply (step_ok no_eligible (mkMachine demo (site_x empty_cache)) (mkMachine one_x.1 (site_x one_x.2))).
    - split; [exact demo_ok|]. by repeat constructor.
    - apply (written_step demo 1 empty_cache); by vm_compute. }
  assert (object_at one_x.1 2 = Some (object_of one_x.1 2)) as Ho2 by by vm_compute.
  pose proof (Hfresh eq_refl eq_refl ltac:(by vm_compute) ltac:(by vm_compute) 2%nat _ Ho2 ltac:(by vm_compute)) as Huse.
  split; [by vm_compute|].
  destruct (property_write_ordinary (symbol_address := no_symbols) false no_eligible one_x.1 2 (object_of one_x.1 2) the_x truth (Some one_x.2) true false true true None
    Hok1 Ho2 eq_refl) as [H2 _]; [intros c [= <-]; exact Huse|].
  destruct H2 as (w' & ic' & v' & E2 & _ & Hown & _). exists w', ic', v'. split; [exact E2|exact Hown].
Defined.

Lemma object_delete_ordinary_witness : exists w', deleteProperty no_symbols demo_x 1 the_x = Some (w', true) /\ own w' 1 = [].
Proof.
  destruct (object_delete_ordinary (symbol_address := no_symbols) no_eligible demo_x 1 (object_of demo_x 1) the_x demo_x_ok demo_x_at eq_refl)
    as (w' & E & Hown & _). rewrite demo_x_own in E, Hown. exists w'. split; [exact E|exact Hown].
Defined.

Lemma accessor_defined_by_halves_witness : exists w' b,
  defineAccessor no_symbols demo_x 1 (StringKey (bytes "y")) VUndefined (VObject 3) true false = Some (w', true) /\
  own w' 1 = [mkProperty the_x true false true true [truth]; mkProperty (StringKey (bytes "y")) true true true b [VUndefined; VObject 3]].
Proof.
  destruct (accessor_defined_by_halves (symbol_address := no_symbols) no_eligible demo_x 1 (object_of demo_x 1) (StringKey (bytes "y"))
    VUndefined (VObject 3) true false demo_x_ok demo_x_at eq_refl eq_refl eq_refl) as (w' & o' & E & _ & Hown & _).
  - unfold may_define. rewrite demo_x_own. by vm_compute.
  - rewrite demo_x_own in Hown. exists w', (isDictionary (shape_of w' o')). split; [exact E|exact Hown].
Defined.

Lemma integrity_levels_witness : exists w', setIntegrity no_symbols demo_x 1 Frozen = Some (w', Settled) /\
  own w' 1 = [mkProperty the_x true false false false [truth]] /\ testIntegrity w' 1 true = Some true.
Proof.
  destruct (integrity_levels (symbol_address := no_symbols) no_eligible demo_x 1 (object_of demo_x 1) Frozen demo_x_ok demo_x_at)
    as (_ & H). destruct (H ltac:(by vm_compute)) as (w' & E & Hown & _ & _ & _ & _ & Hf). rewrite demo_x_own in Hown. exists w'. split; [exact E|]. split; [exact Hown|]. by apply (Hf eq_refl).
Defined.

Lemma prototype_moves_alone_witness : exists w' o', setPrototype no_symbols demo_x 1 0 = Some w' /\ object_at w' 1 = Some o' /\
  prototypeValue (rt w') (shape o') = prototype (shape_at (rt demo_x) 0) /\ own w' 1 = own demo_x 1.
Proof.
  destruct (prototype_moves_alone (symbol_address := no_symbols) no_eligible demo_x 1 (object_of demo_x 1) 0 demo_x_ok demo_x_at)
    as (w' & o' & E & Ho & Hp & Hown & _); [apply Nat.ltb_lt; by vm_compute|by vm_compute..|].
  exists w', o'. split; [exact E|]. split; [exact Ho|]. split; [exact Hp|exact (Hown 1%nat)].
Defined.
