(* ===== verification/Il.v ===== *)
(** * The intermediate language (src/src/il/il.h, il_op.h, il_pin.h)

    The data of the IL: operations, types, instructions, blocks, functions, modules.  An
    index or an id is the [Z] of its [uint32_t]; [immF64] is the 64 bits of the double;
    text is bytes.  [fits] says that every field is in the range of its C++ type. *)
From S2P Require Import Prelude.
Local Open Scope Z_scope.
Local Open Scope bool_scope.

(** ** Operations *)

Module Op.
Inductive t :=
  | ConstF64 | ConstI32 | ConstBool | ConstUndefined | ConstNull | ConstBigInt | Add | ConcatBegin
  | ConcatAppend | ConcatEnd | Sub | Neg | Mul | Div | Mod | Pow | ToNumeric | NumericStep
  | ToInt32 | BitAnd | BitOr | BitXor | MathImul | Shl | Shr | UShr | BitNot | CmpLt | CmpGt
  | CmpLe | CmpGe | CmpEq | CmpNe | NumTruthy | StrictEq | LooseEq | RelLt | RelGt | RelLe | RelGe
  | TypeOf | ToStr | InstanceOf | In | IsNullish | IsNumber | IsDenseArray | Ret | Throw | ExcTake
  | Jump | Branch | Call | Box | Unbox | PropGet | SuperGet | SuperSet | PropSet | ElemGet
  | ElemSet | ElemGetTyped | ElemSetTyped | MathUnary | DynamicCall | Construct | CreateObject
  | CoroStart | CoroSuspend | CoroMode | DynamicImport | ModuleNamespace | ObjectKeys | ForInKeys
  | MethodDef | MethodDefComputed | AccessorDef | AccessorDefComputed | DefineOwnAttr
  | GetNewTarget | ImportMeta | PropDelete | ElemDelete | GlobalGet | ResolveName | ImmutableAssign
  | PinGuard | CensusRecord | ClassExtend | PrivateNew | PrivateHas | PrivateGet | PrivateAdd
  | PrivateSet | PrivateMisuse | IterOpen | AsyncIterOpen | AsyncIterNext | AsyncIterClose
  | IterStep | IterValue | IterClose | IterRest | IterDelegate | PatternCheck | ArrayAppend
  | ArrayAppendHole | ArraySpread | ObjectSpread | ObjectRest | DynamicCallSpread | MethodCall
  | MethodCallSpread | SuperCall | SuperCallSpread | TemplateCached | TemplateObject
  | ConstructSpread | CreateArray | CreateFunction | FunctionRef | EnvCreate | EnvGet | EnvSet
  | EnvInitTdz | EnvGetTdz | ModuleEnvSet | ModuleEnvGet | Print | PrintErr | PrintSpread
  | PrintSpreadErr | KeepAlive | MethodIcIs | AccessorIcIs | IsTypedArray | IsNumberArray
  | MethodSlotFn | ClosureIs | ClosureEnv | ObjectLitProto | MathRandom | IsShape | LayoutEpoch
  | LayoutFact | FeedbackRecord | IsArray.

(** The operations in the order of the enumeration. *)
Definition all : list t :=
  [ConstF64; ConstI32; ConstBool; ConstUndefined; ConstNull; ConstBigInt; Add; ConcatBegin;
   ConcatAppend; ConcatEnd; Sub; Neg; Mul; Div; Mod; Pow; ToNumeric; NumericStep; ToInt32; BitAnd;
   BitOr; BitXor; MathImul; Shl; Shr; UShr; BitNot; CmpLt; CmpGt; CmpLe; CmpGe; CmpEq; CmpNe;
   NumTruthy; StrictEq; LooseEq; RelLt; RelGt; RelLe; RelGe; TypeOf; ToStr; InstanceOf; In;
   IsNullish; IsNumber; IsDenseArray; Ret; Throw; ExcTake; Jump; Branch; Call; Box; Unbox; PropGet;
   SuperGet; SuperSet; PropSet; ElemGet; ElemSet; ElemGetTyped; ElemSetTyped; MathUnary;
   DynamicCall; Construct; CreateObject; CoroStart; CoroSuspend; CoroMode; DynamicImport;
   ModuleNamespace; ObjectKeys; ForInKeys; MethodDef; MethodDefComputed; AccessorDef;
   AccessorDefComputed; DefineOwnAttr; GetNewTarget; ImportMeta; PropDelete; ElemDelete; GlobalGet;
   ResolveName; ImmutableAssign; PinGuard; CensusRecord; ClassExtend; PrivateNew; PrivateHas;
   PrivateGet; PrivateAdd; PrivateSet; PrivateMisuse; IterOpen; AsyncIterOpen; AsyncIterNext;
   AsyncIterClose; IterStep; IterValue; IterClose; IterRest; IterDelegate; PatternCheck;
   ArrayAppend; ArrayAppendHole; ArraySpread; ObjectSpread; ObjectRest; DynamicCallSpread;
   MethodCall; MethodCallSpread; SuperCall; SuperCallSpread; TemplateCached; TemplateObject;
   ConstructSpread; CreateArray; CreateFunction; FunctionRef; EnvCreate; EnvGet; EnvSet;
   EnvInitTdz; EnvGetTdz; ModuleEnvSet; ModuleEnvGet; Print; PrintErr; PrintSpread; PrintSpreadErr;
   KeepAlive; MethodIcIs; AccessorIcIs; IsTypedArray; IsNumberArray; MethodSlotFn; ClosureIs;
   ClosureEnv; ObjectLitProto; MathRandom; IsShape; LayoutEpoch; LayoutFact; FeedbackRecord;
   IsArray].

(** The underlying [uint8_t]. *)
Definition code (op : t) : Z :=
  match op with
  | ConstF64 => 0 | ConstI32 => 1 | ConstBool => 2 | ConstUndefined => 3 | ConstNull => 4
  | ConstBigInt => 5 | Add => 6 | ConcatBegin => 7 | ConcatAppend => 8 | ConcatEnd => 9 | Sub => 10
  | Neg => 11 | Mul => 12 | Div => 13 | Mod => 14 | Pow => 15 | ToNumeric => 16 | NumericStep => 17
  | ToInt32 => 18 | BitAnd => 19 | BitOr => 20 | BitXor => 21 | MathImul => 22 | Shl => 23
  | Shr => 24 | UShr => 25 | BitNot => 26 | CmpLt => 27 | CmpGt => 28 | CmpLe => 29 | CmpGe => 30
  | CmpEq => 31 | CmpNe => 32 | NumTruthy => 33 | StrictEq => 34 | LooseEq => 35 | RelLt => 36
  | RelGt => 37 | RelLe => 38 | RelGe => 39 | TypeOf => 40 | ToStr => 41 | InstanceOf => 42
  | In => 43 | IsNullish => 44 | IsNumber => 45 | IsDenseArray => 46 | Ret => 47 | Throw => 48
  | ExcTake => 49 | Jump => 50 | Branch => 51 | Call => 52 | Box => 53 | Unbox => 54
  | PropGet => 55 | SuperGet => 56 | SuperSet => 57 | PropSet => 58 | ElemGet => 59 | ElemSet => 60
  | ElemGetTyped => 61 | ElemSetTyped => 62 | MathUnary => 63 | DynamicCall => 64 | Construct => 65
  | CreateObject => 66 | CoroStart => 67 | CoroSuspend => 68 | CoroMode => 69 | DynamicImport => 70
  | ModuleNamespace => 71 | ObjectKeys => 72 | ForInKeys => 73 | MethodDef => 74
  | MethodDefComputed => 75 | AccessorDef => 76 | AccessorDefComputed => 77 | DefineOwnAttr => 78
  | GetNewTarget => 79 | ImportMeta => 80 | PropDelete => 81 | ElemDelete => 82 | GlobalGet => 83
  | ResolveName => 84 | ImmutableAssign => 85 | PinGuard => 86 | CensusRecord => 87
  | ClassExtend => 88 | PrivateNew => 89 | PrivateHas => 90 | PrivateGet => 91 | PrivateAdd => 92
  | PrivateSet => 93 | PrivateMisuse => 94 | IterOpen => 95 | AsyncIterOpen => 96
  | AsyncIterNext => 97 | AsyncIterClose => 98 | IterStep => 99 | IterValue => 100
  | IterClose => 101 | IterRest => 102 | IterDelegate => 103 | PatternCheck => 104
  | ArrayAppend => 105 | ArrayAppendHole => 106 | ArraySpread => 107 | ObjectSpread => 108
  | ObjectRest => 109 | DynamicCallSpread => 110 | MethodCall => 111 | MethodCallSpread => 112
  | SuperCall => 113 | SuperCallSpread => 114 | TemplateCached => 115 | TemplateObject => 116
  | ConstructSpread => 117 | CreateArray => 118 | CreateFunction => 119 | FunctionRef => 120
  | EnvCreate => 121 | EnvGet => 122 | EnvSet => 123 | EnvInitTdz => 124 | EnvGetTdz => 125
  | ModuleEnvSet => 126 | ModuleEnvGet => 127 | Print => 128 | PrintErr => 129 | PrintSpread => 130
  | PrintSpreadErr => 131 | KeepAlive => 132 | MethodIcIs => 133 | AccessorIcIs => 134
  | IsTypedArray => 135 | IsNumberArray => 136 | MethodSlotFn => 137 | ClosureIs => 138
  | ClosureEnv => 139 | ObjectLitProto => 140 | MathRandom => 141 | IsShape => 142
  | LayoutEpoch => 143 | LayoutFact => 144 | FeedbackRecord => 145 | IsArray => 146
  end.

Definition of_code (z : Z) : option t := if z <? 0 then None else all !! Z.to_nat z.

Lemma of_code_code op : of_code (code op) = Some op.
Proof. by destruct op. Qed.

Lemma code_range op : 0 <= code op < 147.
Proof. destruct op; cbn; lia. Qed.

#[global] Instance t_eq_dec : EqDecision t.
Proof.
  intros a b. destruct (Z.eq_dec (code a) (code b)) as [E|E]; [left|right; by intros ->].
  apply (f_equal of_code) in E. rewrite !of_code_code in E. by injection E.
Defined.

(** [==] on the enumeration. *)
Definition eqb (a b : t) : bool := code a =? code b.

Lemma eqb_spec a b : reflect (a = b) (eqb a b).
Proof.
  unfold eqb. destruct (Z.eqb_spec (code a) (code b)) as [E|E]; constructor; [|by intros ->].
  apply (f_equal of_code) in E. rewrite !of_code_code in E. by injection E.
Qed.
End Op.

Module Ty.
Inductive t := Void | Bool | I32 | F64 | Str | Dynamic.

Definition all : list t := [Void; Bool; I32; F64; Str; Dynamic].
Definition code (ty : t) : Z := match ty with Void => 0 | Bool => 1 | I32 => 2 | F64 => 3 | Str => 4 | Dynamic => 5 end.
Definition of_code (z : Z) : option t := if z <? 0 then None else all !! Z.to_nat z.

Lemma type_of_code_code ty : of_code (code ty) = Some ty.
Proof. by destruct ty. Qed.

Lemma type_code_range ty : 0 <= code ty < 6.
Proof. destruct ty; cbn; lia. Qed.

#[global] Instance t_eq_dec : EqDecision t.
Proof. solve_decision. Defined.
End Ty.

(** ** Instructions *)

(** [UINT32_MAX], which each of the sentinels below is. *)
Definition kNone32 : Z := 0xFFFFFFFF.
Definition kNoValue : Z := kNone32.
Definition kNoBlock : Z := kNone32.
Definition kNoStaticSlot : Z := kNone32.
Definition kNoFamily : Z := kNone32.
Definition kNoTransitionRun : Z := kNone32.
Definition kNoDefineAddCell : Z := kNone32.
Definition kNoDirectTarget : Z := kNone32.
Definition kNoEnvHops : Z := kNone32.
Definition kNoCopyRegion : Z := kNone32.
Definition kNoTypedOrigin : Z := kNone32.
Definition kTransitionRunCells : Z := 5.
Definition kChainWaysMask : Z := 7.

Record Span := mkSpan { begin_ : Z; end_ : Z; file : Z }.
Record BlockParam := mkBlockParam { bp_id : Z; bp_type : Ty.t }.
Record BlockTarget := mkTarget { tblock : Z; targs : list Z }.

Record Instruction := mkInst {
  op : Op.t; type : Ty.t; result : Z; operands : list Z; immF64 : Z; immI32 : Z; calleeIndex : Z; boxType : Ty.t;
  keyIndex : Z; icIndex : Z; icMonomorphic : bool; icPolymorphic : bool; icAbsent : bool; icFnRecv : bool;
  rawUnbox : bool; nullishUnbox : bool; numberBits : bool; shapeGuarded : bool; staticSlot : Z; staticCellIndex : Z;
  familyLo : Z; familySpan : Z; staticSlotGuessed : bool; staticRegrow : bool;
  transitionRunCell : Z; transitionRunLength : Z; transitionRunSlot : Z; defineAddCell : Z; directTarget : Z; typedTarget : Z;
  envDepth : Z; envIndex : Z; envImmutable : bool; numberHint : bool; truthHint : Z; icChain : Z; callEnvHops : Z;
  inlineFrame : Z; span : Span; target : BlockTarget; elseTarget : BlockTarget }.

Definition no_target : BlockTarget := mkTarget kNoBlock [].

(** An instruction of its operation alone: every other field has its initializer. *)
Definition new_inst (o : Op.t) : Instruction :=
  mkInst o Ty.Void kNoValue [] 0 0 0 Ty.Void 0 0 false false false false false false false false kNoStaticSlot 0
    kNoFamily 0 false false kNoTransitionRun 0 0 kNoDefineAddCell kNoDirectTarget kNoDirectTarget
    0 0 false false 0 0 kNoEnvHops 0 (mkSpan 0 0 0) no_target no_target.

(** ** Blocks, functions, modules *)

Inductive CopyClass := Shared | Fast | Slow.

#[global] Instance CopyClass_eq_dec : EqDecision CopyClass.
Proof. solve_decision. Defined.

Definition copy_code (c : CopyClass) : Z := match c with Shared => 0 | Fast => 1 | Slow => 2 end.

Record Block := mkBlock {
  bid : Z; bparams : list BlockParam; instructions : list Instruction; copyClass : CopyClass; cold : bool;
  copyRegion : Z; handler : Z }.

Definition new_block : Block := mkBlock 0 [] [] Shared false kNoCopyRegion kNoBlock.

Record Param := mkParam { pname : list Z; ptype : Ty.t; pinned : bool; pinKeyIndex : Z; knownConstInt : option Z }.

Record InlineFrame := mkFrame { callee : Z; callSpan : Span; parent : Z }.

Definition kNotCoroutine : Z := -1.

Record Function := mkFunction {
  fname : list Z; params : list Param; returnType : Ty.t; returnPinned : bool; returnPinKeyIndex : Z;
  isExported : bool; isExternal : bool; isEntryPoint : bool; needsEnv : bool; needsThis : bool; needsArguments : bool;
  isStrict : bool; isGenerator : bool; coroKind : Z; fnFlags : Z; hasRestParam : bool; requiredArgs : Z; nameKeyIndex : Z;
  sourceFile : Z; sourceBegin : Z; sourceEnd : Z; displayName : list Z; descFlags : Z; typedOrigin : Z; typedArgc : Z;
  inlineFrames : list InlineFrame; blocks : list Block; valueCount : Z }.

Definition isCoroutineBody (fn : Function) : bool := negb (coroKind fn =? kNotCoroutine).

Record ClassFamilyField := mkField { fkey : Z; fwritable : bool }.
Record ClassFamilyEntry := mkFamily { cname : list Z; fields : list ClassFamilyField }.
Record CensusSiteEntry := mkCensus { ckey : Z; cinfo : Z }.
Record NativeImport := mkImport { nname : list Z; signature : list Z; functionIndex : Z; bufferReturnKind : Z }.

(** A module; [lineTables] is given as the texts the tables are of. *)
Record IlModule := mkModule {
  mname : list Z; keyConstants : list (list Z); icSiteCount : Z; templateSiteCount : Z; staticSiteCount : Z;
  classFamilies : list ClassFamilyEntry; slotReprFields : list Z; censusSites : list CensusSiteEntry;
  censusOutPath : list Z; nativeImports : list NativeImport; functions : list Function;
  sourceTexts : list (list Z); sourceFiles : list (list Z); lineTables : list (list Z) }.

(** ** The widths of the fields *)

Definition is_u32 (z : Z) : Prop := 0 <= z < 2 ^ 32.
Definition is_bytes (s : list Z) : Prop := Forall (fun z => 0 <= z < 256) s /\ Z.of_nat (length s) < 2 ^ 64.
Definition sized {A} (l : list A) : Prop := Z.of_nat (length l) < 2 ^ 64.

Record fits_span (s : Span) : Prop := { fs_begin : is_u32 (begin_ s); fs_end : is_u32 (end_ s); fs_file : 0 <= file s < 2 ^ 16 }.
Definition fits_target (t : BlockTarget) : Prop := is_u32 (tblock t) /\ Forall is_u32 (targs t) /\ sized (targs t).

(** The values the C++ type of each field of an instruction has. *)
Record fits_inst (i : Instruction) : Prop := {
  fi_result : is_u32 (result i); fi_operands : Forall is_u32 (operands i) /\ sized (operands i);
  fi_immF64 : 0 <= immF64 i < 2 ^ 64; fi_immI32 : - 2 ^ 31 <= immI32 i < 2 ^ 31;
  fi_callee : is_u32 (calleeIndex i); fi_key : is_u32 (keyIndex i); fi_ic : is_u32 (icIndex i);
  fi_staticSlot : is_u32 (staticSlot i); fi_staticCell : is_u32 (staticCellIndex i);
  fi_familyLo : is_u32 (familyLo i); fi_familySpan : is_u32 (familySpan i);
  fi_runCell : is_u32 (transitionRunCell i); fi_runLength : is_u32 (transitionRunLength i); fi_runSlot : is_u32 (transitionRunSlot i);
  fi_defineAdd : is_u32 (defineAddCell i); fi_direct : is_u32 (directTarget i); fi_typed : is_u32 (typedTarget i);
  fi_envDepth : is_u32 (envDepth i); fi_envIndex : is_u32 (envIndex i);
  fi_truth : 0 <= truthHint i < 256; fi_chain : 0 <= icChain i < 256; fi_hops : is_u32 (callEnvHops i); fi_frame : is_u32 (inlineFrame i);
  fi_span : fits_span (span i); fi_target : fits_target (target i); fi_else : fits_target (elseTarget i) }.

Record fits_block (b : Block) : Prop := {
  fb_id : is_u32 (bid b); fb_params : Forall (fun p => is_u32 (bp_id p)) (bparams b) /\ sized (bparams b);
  fb_region : is_u32 (copyRegion b); fb_handler : is_u32 (handler b);
  fb_instructions : Forall fits_inst (instructions b) /\ sized (instructions b) }.

Record fits_param (p : Param) : Prop := {
  fp_name : is_bytes (pname p); fp_key : is_u32 (pinKeyIndex p);
  fp_const : match knownConstInt p with Some z => - 2 ^ 63 <= z < 2 ^ 63 | None => True end }.

Record fits_frame (f : InlineFrame) : Prop := { ff_callee : is_u32 (callee f); ff_span : fits_span (callSpan f); ff_parent : is_u32 (parent f) }.

Record fits_function (f : Function) : Prop := {
  fu_name : is_bytes (fname f); fu_params : Forall fits_param (params f) /\ sized (params f); fu_retKey : is_u32 (returnPinKeyIndex f);
  fu_coro : -128 <= coroKind f < 128; fu_flags : is_u32 (fnFlags f); fu_required : is_u32 (requiredArgs f); fu_nameKey : is_u32 (nameKeyIndex f);
  fu_file : 0 <= sourceFile f < 2 ^ 16; fu_begin : is_u32 (sourceBegin f); fu_end : is_u32 (sourceEnd f);
  fu_display : is_bytes (displayName f); fu_desc : is_u32 (descFlags f); fu_origin : is_u32 (typedOrigin f); fu_argc : is_u32 (typedArgc f);
  fu_frames : Forall fits_frame (inlineFrames f) /\ sized (inlineFrames f);
  fu_blocks : Forall fits_block (blocks f) /\ sized (blocks f); fu_values : is_u32 (valueCount f) }.

Record fits_family (c : ClassFamilyEntry) : Prop := {
  fc_name : is_bytes (cname c); fc_fields : Forall (fun f => is_u32 (fkey f)) (fields c) /\ sized (fields c) }.
Record fits_import (n : NativeImport) : Prop := {
  fn_name : is_bytes (nname n); fn_signature : is_bytes (signature n); fn_index : is_u32 (functionIndex n); fn_kind : is_u32 (bufferReturnKind n) }.

Record fits (m : IlModule) : Prop := {
  fm_name : is_bytes (mname m); fm_keys : Forall is_bytes (keyConstants m) /\ sized (keyConstants m);
  fm_ic : is_u32 (icSiteCount m); fm_template : is_u32 (templateSiteCount m); fm_static : is_u32 (staticSiteCount m);
  fm_families : Forall fits_family (classFamilies m) /\ sized (classFamilies m);
  fm_slots : Forall is_u32 (slotReprFields m) /\ sized (slotReprFields m);
  fm_census : Forall (fun c => is_u32 (ckey c) /\ is_u32 (cinfo c)) (censusSites m) /\ sized (censusSites m);
  fm_censusPath : is_bytes (censusOutPath m); fm_imports : Forall fits_import (nativeImports m) /\ sized (nativeImports m);
  fm_files : Forall is_bytes (sourceFiles m) /\ sized (sourceFiles m);
  fm_functions : Forall fits_function (functions m) /\ sized (functions m) }.

(** ** Small programs, for the examples *)

Definition inst (o : Op.t) (ty : Ty.t) (res : Z) (ops : list Z) (callee : Z) (t e : BlockTarget) : Instruction :=
  mkInst o ty res ops 0 0 callee Ty.Void 0 0 false false false false false false false false kNoStaticSlot 0
    kNoFamily 0 false false kNoTransitionRun 0 0 kNoDefineAddCell kNoDirectTarget kNoDirectTarget
    0 0 false false 0 0 kNoEnvHops 0 (mkSpan 0 0 0) t e.
Definition plain (o : Op.t) (ty : Ty.t) (res : Z) (ops : list Z) : Instruction := inst o ty res ops 0 no_target no_target.
Definition jump (b : Z) (args : list Z) : Instruction := inst Op.Jump Ty.Void kNoValue [] 0 (mkTarget b args) no_target.
Definition branch (c b e : Z) : Instruction := inst Op.Branch Ty.Void kNoValue [c] 0 (mkTarget b []) (mkTarget e []).
Definition ret (v : Z) : Instruction := plain Op.Ret Ty.Void kNoValue [v].

(** A block that is in no copy, with the block its exceptions go to. *)
Definition guarded_block (id : Z) (ps : list BlockParam) (code : list Instruction) (h : Z) : Block := mkBlock id ps code Shared false kNoCopyRegion h.
Definition plain_block (id : Z) (ps : list BlockParam) (code : list Instruction) : Block := guarded_block id ps code kNoBlock.
Definition dynamic_param : Param := mkParam [] Ty.Dynamic false 0 None.
Definition plain_function (ps : list Param) (bs : list Block) (n : Z) : Function :=
  mkFunction [] ps Ty.Dynamic false 0 false false false false false false true false kNotCoroutine 3 false 0 kNone32 0 0 0 []
    0 kNoTypedOrigin 0 [] bs n.
