(* ===== verification/IlBytes.v ===== *)
(** * Bytes of the intermediate language (src/src/il/serialize.cpp)

    [Writer] and [Reader] of the code cache's encoding: LEB128 integers, zigzag for the
    signed ones, the raw bits of a double, a length before every string and vector.  A
    write is the bytes it appends.  A read is a function of the reader's state, which
    after a failure is empty for good, so that every later read answers a zero and the
    first message stays.

    [reads m bs x] is the contract between the two: on input that begins with [bs], [m]
    answers [x] and leaves what follows.  [Extends m] is what a reader promises of input
    it was not shown: what it answers without failing it also answers when more follows. *)
From S2P Require Import Prelude Il.
Local Open Scope Z_scope.
Local Open Scope bool_scope.

(** ** Writer *)

Definition w_u8 (v : Z) : list Z := [v mod 256].

(** At most ten bytes for a [uint64_t]. *)
Fixpoint var_loop (fuel : nat) (v : Z) : list Z :=
  match fuel with
  | O => []
  | S fuel => if 0x80 <=? v then Z.lor (Z.land v 0x7F) 0x80 :: var_loop fuel (Z.shiftr v 7) else [v]
  end.

Definition w_var (v : Z) : list Z := var_loop 10 v.
Definition w_svar (v : Z) : list Z := w_var (Z.lxor (u64 (Z.shiftl v 1)) (u64 (Z.shiftr v 63))).

(** The [n] bytes of an integer, low byte first. *)
Fixpoint raw_bytes (n : nat) (v : Z) : list Z :=
  match n with O => [] | S n => v mod 256 :: raw_bytes n (v / 256) end.

Definition w_f64 (bits : Z) : list Z := raw_bytes 8 bits.
Definition w_str (s : list Z) : list Z := w_var (Z.of_nat (length s)) ++ s.

(** A count, then the elements. *)
Definition w_vector {A} (w : A -> list Z) (l : list A) : list Z := w_var (Z.of_nat (length l)) ++ concat (map w l).

(** ** Reader *)

Record Reader := mkReader { remaining : list Z; ok_ : bool; err_ : string }.

Definition R (A : Type) : Type := Reader -> A * Reader.

Definition ret {A} (x : A) : R A := fun r => (x, r).
Definition bind {A B} (m : R A) (k : A -> R B) : R B := fun r => let '(x, r) := m r in k x r.

Notation "'let*' x := m 'in' k" := (bind m (fun x => k))
  (at level 10, x name, m at level 100, k at level 200) : bronze_scope.
Notation "m ;* k" := (bind m (fun _ => k)) (at level 60, right associativity) : bronze_scope.

Definition r_fail (what : string) : R unit :=
  fun r => (tt, mkReader [] false (if ok_ r then what else err_ r)).
Definition r_ok : R bool := fun r => (ok_ r, r).

Definition r_u8 : R Z :=
  fun r => match remaining r with
           | [] => (r_fail "truncated" ;* ret 0) r
           | b :: rest => (b, mkReader rest (ok_ r) (err_ r))
           end.

Fixpoint r_var_loop (fuel : nat) (shift v : Z) : R Z :=
  match fuel with
  | O => r_fail "overlong varint" ;* ret 0
  | S fuel => fun r =>
      match remaining r with
      | [] => (r_fail "truncated varint" ;* ret 0) r
      | b :: rest =>
          let v := Z.lor v (u64 (Z.shiftl (Z.land b 0x7F) shift)) in
          let r := mkReader rest (ok_ r) (err_ r) in
          if Z.land b 0x80 =? 0 then (v, r) else r_var_loop fuel (shift + 7) v r
      end
  end.

(** [shift] runs over 0, 7, ..., 63. *)
Definition r_var : R Z := r_var_loop 10 0 0.

Definition r_u32 : R Z :=
  let* v := r_var in
  if 0xFFFFFFFF <? v then r_fail "u32 out of range" ;* ret 0 else ret v.

Definition zigzag (z : Z) : Z := Z.lxor (Z.shiftr z 1) (- Z.land z 1).

Definition r_i32 : R Z :=
  let* z := r_var in
  let v := zigzag z in
  if (v <? - 2 ^ 31) || (2 ^ 31 - 1 <? v) then r_fail "i32 out of range" ;* ret 0 else ret v.

Fixpoint of_raw (bs : list Z) : Z := match bs with [] => 0 | b :: bs => b + 256 * of_raw bs end.

Definition r_f64 : R Z :=
  fun r => if (length (remaining r) <? 8)%nat then (r_fail "truncated f64" ;* ret 0) r
           else (of_raw (take 8 (remaining r)), mkReader (drop 8 (remaining r)) (ok_ r) (err_ r)).

Definition r_str : R (list Z) :=
  let* n := r_var in
  fun r => if Z.of_nat (length (remaining r)) <? n then (r_fail "string runs past the end" ;* ret []) r
           else (take (Z.to_nat n) (remaining r), mkReader (drop (Z.to_nat n) (remaining r)) (ok_ r) (err_ r)).

Definition r_count : R nat :=
  let* n := r_var in
  fun r => if Z.of_nat (length (remaining r)) <? n then (r_fail "count runs past the end" ;* ret O) r else (Z.to_nat n, r).

(** The cast of a code past the enumeration is left to the caller's failure. *)
Definition r_type : R Ty.t :=
  let* t := r_u8 in
  (if 5 <? t then r_fail "bad type" else ret tt) ;* ret (default Ty.Void (Ty.of_code t)).

(** [for (auto& x : v) x = m();] *)
Fixpoint times {A} (n : nat) (m : R A) : R (list A) :=
  match n with
  | O => ret []
  | S n => let* x := m in let* l := times n m in ret (x :: l)
  end.

(** The loop that leaves its elements as they were made once the reader has failed. *)
Fixpoint times_ok {A} (d : A) (n : nat) (m : R A) : R (list A) :=
  match n with
  | O => ret []
  | S n' =>
      let* go := r_ok in
      if go then let* x := m in let* l := times_ok d n' m in ret (x :: l) else ret (replicate n d)
  end.

(** The loop that makes its elements as it goes. *)
Fixpoint times_while {A} (n : nat) (m : R A) : R (list A) :=
  match n with
  | O => ret []
  | S n =>
      let* go := r_ok in
      if go then let* x := m in let* l := times_while n m in ret (x :: l) else ret []
  end.

Definition r_vector {A} (m : R A) : R (list A) := let* n := r_count in times n m.
Definition r_vector_ok {A} (d : A) (m : R A) : R (list A) := let* n := r_count in times_ok d n m.
Definition r_deque {A} (m : R A) : R (list A) := let* n := r_count in times_while n m.

(** ** What a read answers on what was written *)

Definition reads {A} (m : R A) (bs : list Z) (x : A) : Prop :=
  forall rest e, m (mkReader (bs ++ rest) true e) = (x, mkReader rest true e).

Lemma reads_ret {A} (x : A) : reads (ret x) [] x.
Proof. intros rest e. reflexivity. Qed.

Lemma reads_bind {A B} (m : R A) (k : A -> R B) bs1 bs2 x y :
  reads m bs1 x -> reads (k x) bs2 y -> reads (bind m k) (bs1 ++ bs2) y.
Proof. intros H1 H2 rest e. unfold bind. by rewrite <- app_assoc, H1, H2. Qed.

(** The last read of a sequence. *)
Lemma reads_last {A B} (m : R A) (k : A -> R B) bs x y : reads m bs x -> reads (k x) [] y -> reads (bind m k) bs y.
Proof. intros H1 H2. rewrite <- (app_nil_r bs). by eapply reads_bind. Qed.

(** A step that reads nothing. *)
Lemma reads_skip {A B} (m : R A) (k : A -> R B) bs x y : reads m [] x -> reads (k x) bs y -> reads (bind m k) bs y.
Proof. intros H1 H2. change bs with ([] ++ bs). by eapply reads_bind. Qed.

Lemma reads_u8 v : 0 <= v < 256 -> reads r_u8 (w_u8 v) v.
Proof. intros H rest e. cbn. by rewrite Z.mod_small. Qed.

Lemma land_127 v : 0 <= v -> Z.land v 0x7F = v mod 128.
Proof. intros _. change 0x7F with (Z.ones 7). by rewrite Z.land_ones. Qed.

Lemma shr_7 v : Z.shiftr v 7 = v / 128.
Proof. by rewrite Z.shiftr_div_pow2. Qed.

(** One group of seven bits, with the mark that more follows and without. *)
Lemma var_groups : forallb (fun m => (Z.lor m 0x80 =? m + 128) && (Z.land (m + 128) 0x7F =? m) && negb (Z.land (m + 128) 0x80 =? 0) &&
  (Z.land m 0x7F =? m) && (Z.land m 0x80 =? 0)) (seqZ 0 128) = true.
Proof. by vm_compute. Qed.

Lemma var_group m : 0 <= m < 128 ->
  Z.lor m 0x80 = m + 128 /\ Z.land (m + 128) 0x7F = m /\ Z.land (m + 128) 0x80 <> 0 /\ Z.land m 0x7F = m /\ Z.land m 0x80 = 0.
Proof.
  intros Hm. pose proof (proj1 (forallb_forall _ _) var_groups m) as H. cbv beta in H.
  assert (In m (seqZ 0 128)) as Hin by (apply list_elem_of_In, elem_of_seqZ; lia). specialize (H Hin).
  rewrite !andb_true_iff, negb_true_iff, !Z.eqb_eq, Z.eqb_neq in H. tauto.
Qed.

(** The rest of an integer, read at [shift] into the low bits [acc]. *)
Lemma reads_var_loop fuel : forall shift acc v, 0 <= shift -> shift + 7 * Z.of_nat fuel < 71 -> 0 <= acc < 2 ^ shift -> 0 <= v < 2 ^ (7 * Z.of_nat fuel) ->
  0 <= v * 2 ^ shift < 2 ^ 64 -> (0 < fuel)%nat ->
  reads (r_var_loop fuel shift acc) (var_loop fuel v) (v * 2 ^ shift + acc).
Proof.
  induction fuel as [|fuel IH]; intros shift acc v Hs Hf Ha Hv H64 Hpos rest e; [lia|].
  assert (forall m, 0 <= m -> m * 2 ^ shift < 2 ^ 64 -> Z.lor acc (u64 (Z.shiftl m shift)) = m * 2 ^ shift + acc) as Hor.
  { intros m Hm Hlt. rewrite Z.shiftl_mul_pow2, u64_small by nia. rewrite Z.lor_comm. rewrite <- lor_shiftl_add by done. by rewrite Z.shiftl_mul_pow2. }
  cbn [var_loop]. destruct (Z.leb_spec 0x80 v) as [Hge|Hlt].
  - rewrite land_127, shr_7 by lia. pose proof (Z.mod_pos_bound v 128 ltac:(lia)) as Hm. destruct (var_group _ Hm) as (-> & E1 & E2 & _).
    cbn [app r_var_loop remaining ok_ err_]. apply Z.eqb_neq in E2. rewrite E1, E2.
    assert (2 ^ (shift + 7) = 2 ^ shift * 128) as Ep by (rewrite Z.pow_add_r by lia; lia).
    assert (0 < 2 ^ shift) by (apply Z.pow_pos_nonneg; lia).
    assert (v = 128 * (v / 128) + v mod 128) as Ev by (apply Z.div_mod; lia).
    rewrite Hor by (try lia; nia). rewrite IH.
    + f_equal. rewrite Ep. nia.
    + lia.
    + lia.
    + rewrite Ep. nia.
    + split; [apply Z.div_pos; lia|]. apply Z.div_lt_upper_bound; [lia|].
      replace (7 * Z.of_nat (S fuel)) with (7 + 7 * Z.of_nat fuel) in Hv by lia. rewrite Z.pow_add_r in Hv by lia. change (2 ^ 7) with 128 in Hv. lia.
    + rewrite Ep. nia.
    + destruct fuel; [|lia]. change (2 ^ (7 * Z.of_nat 1)) with 128 in Hv. lia.
  - destruct (var_group v ltac:(lia)) as (_ & _ & _ & E1 & E2). cbn [app r_var_loop remaining ok_ err_].
    rewrite E1, E2. cbn. by rewrite Hor by lia.
Qed.

Lemma reads_var v : 0 <= v < 2 ^ 64 -> reads r_var (w_var v) v.
Proof.
  intros Hv. replace v with (v * 2 ^ 0 + 0) at 2 by lia. apply reads_var_loop; [lia|lia|lia| |lia|lia].
  change (7 * Z.of_nat 10) with 70. split; [lia|]. apply Z.lt_trans with (2 ^ 64); [lia|]. by vm_compute.
Qed.

Lemma reads_u32 v : is_u32 v -> reads r_u32 (w_var v) v.
Proof.
  intros [H0 H1]. eapply reads_last; [apply reads_var; lia|]. rewrite (proj2 (Z.ltb_ge _ _)) by lia. apply reads_ret.
Qed.

Lemma svar_value v : - 2 ^ 63 <= v < 2 ^ 63 ->
  Z.lxor (u64 (Z.shiftl v 1)) (u64 (Z.shiftr v 63)) = if v <? 0 then - 2 * v - 1 else 2 * v.
Proof.
  intros Hv. rewrite Z.shiftl_mul_pow2, Z.shiftr_div_pow2 by lia. change (2 ^ 1) with 2.
  destruct (Z.ltb_spec v 0) as [Hn|Hp].
  - replace (v / 2 ^ 63) with (-1) by dlia. unfold u64. change ((-1) mod 2 ^ 64) with (Z.ones 64).
    replace ((v * 2) mod 2 ^ 64) with (2 ^ 64 + 2 * v) by dlia.
    assert (Z.lxor (2 ^ 64 + 2 * v) (Z.ones 64) = Z.ones 64 - (2 ^ 64 + 2 * v)) as ->; [|change (Z.ones 64) with (2 ^ 64 - 1); lia].
    rewrite Z.sub_nocarry_ldiff; [|apply Z.bits_inj'; intros n Hn'].
    + apply Z.bits_inj'. intros n Hn'. rewrite Z.lxor_spec, Z.ldiff_spec. destruct (Z.lt_ge_cases n 64) as [Hlt|Hge].
      * rewrite Z.ones_spec_low by lia. by destruct (Z.testbit _ n).
      * by rewrite (testbit_above (2 ^ 64 + 2 * v) 64), Z.ones_spec_high by lia.
    + rewrite Z.ldiff_spec, Z.bits_0. destruct (Z.lt_ge_cases n 64) as [Hlt|Hge].
      * rewrite Z.ones_spec_low by lia. apply andb_false_r.
      * by rewrite (testbit_above (2 ^ 64 + 2 * v) 64) by lia.
  - replace (v / 2 ^ 63) with 0 by dlia. change (u64 0) with 0. rewrite Z.lxor_0_r, u64_small by lia. lia.
Qed.

Lemma zigzag_svar v : zigzag (if v <? 0 then - 2 * v - 1 else 2 * v) = v.
Proof.
  unfold zigzag. rewrite Z.shiftr_div_pow2 by lia. change (2 ^ 1) with 2.
  assert (forall z, Z.land z 1 = z mod 2) as Hl by (intros z; change 1 with (Z.ones 1); by rewrite Z.land_ones).
  rewrite Hl. destruct (Z.ltb_spec v 0).
  - replace ((-2 * v - 1) mod 2) with 1 by dlia. replace ((-2 * v - 1) / 2) with (Z.lnot v) by (unfold Z.lnot; dlia).
    rewrite Z.lxor_m1_r. apply Z.lnot_involutive.
  - replace ((2 * v) mod 2) with 0 by dlia. rewrite Z.lxor_0_r. dlia.
Qed.

Lemma reads_svar v : - 2 ^ 63 <= v < 2 ^ 63 -> reads r_var (w_svar v) (if v <? 0 then - 2 * v - 1 else 2 * v).
Proof. intros Hv. unfold w_svar. rewrite svar_value by done. apply reads_var. destruct (Z.ltb_spec v 0); lia. Qed.

Lemma reads_i32 v : - 2 ^ 31 <= v < 2 ^ 31 -> reads r_i32 (w_svar v) v.
Proof.
  intros Hv. eapply reads_last; [apply reads_svar; lia|]. cbv beta zeta. rewrite zigzag_svar.
  rewrite (proj2 (Z.ltb_ge v _)), (proj2 (Z.ltb_ge _ v)) by lia. apply reads_ret.
Qed.

Lemma length_raw n v : length (raw_bytes n v) = n.
Proof. revert v. induction n as [|n IH]; intros v; cbn; [done|]. by rewrite IH. Qed.

Lemma of_raw_bytes n : forall v, 0 <= v < 256 ^ Z.of_nat n -> of_raw (raw_bytes n v) = v.
Proof.
  induction n as [|n IH]; intros v Hv; cbn [raw_bytes of_raw]; [cbn in Hv; lia|].
  rewrite Nat2Z.inj_succ, Z.pow_succ_r in Hv by lia. rewrite IH; [pose proof (Z.div_mod v 256 ltac:(lia)); lia|].
  split; [apply Z.div_pos; lia|apply Z.div_lt_upper_bound; lia].
Qed.

Lemma reads_f64 bits : 0 <= bits < 2 ^ 64 -> reads r_f64 (w_f64 bits) bits.
Proof.
  intros Hb rest e. unfold r_f64, w_f64. cbn [remaining ok_ err_].
  assert (length (raw_bytes 8 bits) = 8%nat) as Hl by apply length_raw.
  rewrite (proj2 (Nat.ltb_ge _ _)) by (rewrite length_app; lia).
  rewrite take_app_length', drop_app_length' by done. by rewrite of_raw_bytes.
Qed.

Lemma reads_str s : is_bytes s -> reads r_str (w_str s) s.
Proof.
  intros [_ Hs]. unfold r_str, w_str. eapply reads_bind; [apply reads_var; lia|]. intros rest e. cbn [remaining ok_ err_].
  rewrite (proj2 (Z.ltb_ge _ _)) by (rewrite length_app; lia).
  by rewrite Nat2Z.id, take_app_length, drop_app_length.
Qed.

Lemma reads_type ty : reads r_type (w_u8 (Ty.code ty)) ty.
Proof.
  pose proof (Ty.type_code_range ty). eapply reads_last; [apply reads_u8; lia|]. rewrite (proj2 (Z.ltb_ge _ _)) by lia.
  eapply reads_skip; [apply reads_ret|]. rewrite Ty.type_of_code_code. apply reads_ret.
Qed.

(** ** Vectors *)

Definition nonempty {A} (w : A -> list Z) : Prop := forall x, w x <> [].

Lemma var_loop_nonempty fuel v : (0 < fuel)%nat -> var_loop fuel v <> [].
Proof. destruct fuel; [lia|]. cbn. by destruct (0x80 <=? v). Qed.

Lemma w_var_nonempty v : w_var v <> [].
Proof. by apply var_loop_nonempty; lia. Qed.

Lemma reads_times {A} (w : A -> list Z) (m : R A) l : Forall (fun x => reads m (w x) x) l -> reads (times (length l) m) (concat (map w l)) l.
Proof.
  induction 1 as [|x l Hx _ IH]; [apply reads_ret|]. cbn. eapply reads_bind; [done|].
  rewrite <- (app_nil_r (concat _)). eapply reads_bind; [done|]. apply reads_ret.
Qed.

Lemma reads_times_ok {A} (d : A) (w : A -> list Z) (m : R A) l :
  Forall (fun x => reads m (w x) x) l -> reads (times_ok d (length l) m) (concat (map w l)) l.
Proof.
  induction 1 as [|x l Hx _ IH]; [apply reads_ret|]. cbn [length times_ok map concat]. intros rest e. unfold bind at 1, r_ok. cbn [ok_].
  revert rest e. eapply reads_bind; [done|]. rewrite <- (app_nil_r (concat _)). eapply reads_bind; [done|]. apply reads_ret.
Qed.

Lemma reads_times_while {A} (w : A -> list Z) (m : R A) l :
  Forall (fun x => reads m (w x) x) l -> reads (times_while (length l) m) (concat (map w l)) l.
Proof.
  induction 1 as [|x l Hx _ IH]; [apply reads_ret|]. cbn [length times_while map concat]. intros rest e. unfold bind at 1, r_ok. cbn [ok_].
  revert rest e. eapply reads_bind; [done|]. rewrite <- (app_nil_r (concat _)). eapply reads_bind; [done|]. apply reads_ret.
Qed.

Lemma length_concat_nonempty {A} (w : A -> list Z) l : nonempty w -> (length l <= length (concat (map w l)))%nat.
Proof.
  intros Hw. induction l as [|x l IH]; cbn; [lia|]. rewrite length_app. specialize (Hw x). destruct (w x); [done|cbn; lia].
Qed.

Lemma reads_count {A B} (w : A -> list Z) (l : list A) (k : nat -> R B) y : nonempty w -> sized l ->
  reads (k (length l)) (concat (map w l)) y -> reads (bind r_count k) (w_vector w l) y.
Proof.
  intros Hw Hs Hk rest e. unfold r_count, w_vector, bind. rewrite <- app_assoc.
  rewrite (reads_var (Z.of_nat (length l)) ltac:(unfold sized in Hs; lia)). cbn [remaining ok_ err_].
  rewrite (proj2 (Z.ltb_ge _ _)), Nat2Z.id; [apply Hk|]. rewrite length_app. pose proof (length_concat_nonempty w l Hw). lia.
Qed.

Lemma reads_vector {A} (w : A -> list Z) (m : R A) l : nonempty w -> sized l -> Forall (fun x => reads m (w x) x) l ->
  reads (r_vector m) (w_vector w l) l.
Proof. intros Hw Hs Hl. apply reads_count; [done|done|]. by apply reads_times. Qed.

Lemma reads_vector_ok {A} (d : A) (w : A -> list Z) (m : R A) l : nonempty w -> sized l -> Forall (fun x => reads m (w x) x) l ->
  reads (r_vector_ok d m) (w_vector w l) l.
Proof. intros Hw Hs Hl. apply reads_count; [done|done|]. by apply reads_times_ok. Qed.

Lemma reads_deque {A} (w : A -> list Z) (m : R A) l : nonempty w -> sized l -> Forall (fun x => reads m (w x) x) l ->
  reads (r_deque m) (w_vector w l) l.
Proof. intros Hw Hs Hl. apply reads_count; [done|done|]. by apply reads_times_while. Qed.

(** ** What a read promises of longer input *)

Class Extends {A} (m : R A) : Prop := {
  (** A failed reader stays as it is. *)
  ext_failed e : snd (m (mkReader [] false e)) = mkReader [] false e;
  (** Otherwise it fails, with nothing left, or takes a part of the front of its input,
      and the same part of any longer one. *)
  ext_more s e : exists x r', m (mkReader s true e) = (x, r') /\
    ((ok_ r' = false /\ remaining r' = []) \/
     (exists used, s = used ++ remaining r' /\ r' = mkReader (remaining r') true e /\
        forall t, m (mkReader (s ++ t) true e) = (x, mkReader (remaining r' ++ t) true e))) }.

#[export] Instance ext_ret {A} (x : A) : Extends (ret x).
Proof. split; [done|]. intros s e. eexists _, _. split; [reflexivity|]. right. by exists []. Qed.

#[export] Instance ext_fail what : Extends (r_fail what).
Proof. split; [done|]. intros s e. eexists _, _. split; [reflexivity|]. by left. Qed.

#[export] Instance ext_ok : Extends r_ok.
Proof. split; [done|]. intros s e. eexists _, _. split; [reflexivity|]. right. by exists []. Qed.

#[export] Instance ext_bind {A B} (m : R A) (k : A -> R B) : Extends m -> (forall x, Extends (k x)) -> Extends (bind m k).
Proof.
  intros Hm Hk. split.
  - intros e. unfold bind. pose proof (ext_failed (m := m) e) as H1. destruct (m _) as [x r1] eqn:E1. cbn in H1. subst r1. apply ext_failed.
  - intros s e. unfold bind. destruct (ext_more (m := m) s e) as (x & r1 & E1 & [[Hf Hr]|(u1 & Hs & Hr1 & Hmore)]).
    + rewrite E1. destruct r1 as [rem1 ok1 err1]. cbn in Hf, Hr. subst. pose proof (ext_failed (m := k x) err1) as H2.
      destruct (k x _) as [y r2] eqn:E2. cbn in H2. subst r2. eexists _, _. split; [reflexivity|]. by left.
    + rewrite E1, Hr1. destruct (ext_more (m := k x) (remaining r1) e) as (y & r2 & E2 & [[Hf Hr]|(u2 & Hs2 & Hr2 & Hmore2)]).
      * eexists _, _. split; [exact E2|]. by left.
      * eexists _, _. split; [exact E2|]. right. exists (u1 ++ u2). split_and!.
        -- by rewrite <- app_assoc, <- Hs2.
        -- exact Hr2.
        -- intros t. by rewrite Hmore, Hmore2.
Qed.

#[export] Instance ext_if {A} (b : bool) (m1 m2 : R A) : Extends m1 -> Extends m2 -> Extends (if b then m1 else m2).
Proof. by destruct b. Qed.

#[export] Instance ext_u8 : Extends r_u8.
Proof.
  split; [done|]. intros [|b s] e; eexists _, _; (split; [reflexivity|]); [by left|]. right. by exists [b].
Qed.

#[export] Instance ext_var_loop fuel shift v : Extends (r_var_loop fuel shift v).
Proof.
  revert shift v. induction fuel as [|fuel IH]; intros shift v; cbn [r_var_loop]; [apply _|]. split; [done|].
  intros [|b s] e; cbn [remaining ok_ err_]; [eexists _, _; split; [reflexivity|by left]|].
  destruct (Z.land b 0x80 =? 0) eqn:Eb.
  - eexists _, _. split; [reflexivity|]. right. exists [b]. split_and!; [done|done|]. intros t. cbn. by rewrite Eb.
  - destruct (ext_more (m := r_var_loop fuel (shift + 7) (Z.lor v (u64 (Z.shiftl (Z.land b 0x7F) shift)))) s e)
      as (x & r' & E & [H|(u & Hs & Hr & Hm)]); exists x, r'; (split; [done|]); [by left|]. right. exists (b :: u). split_and!; [cbn; by f_equal|done|].
    intros t. cbn. rewrite Eb. apply Hm.
Qed.

#[export] Instance ext_var : Extends r_var.
Proof. apply ext_var_loop. Qed.

#[export] Instance ext_u32 : Extends r_u32.
Proof. unfold r_u32. apply _. Qed.

#[export] Instance ext_i32 : Extends r_i32.
Proof. unfold r_i32. apply _. Qed.

#[export] Instance ext_type : Extends r_type.
Proof. unfold r_type. apply _. Qed.

(** A read of the next [n] bytes, if there are as many. *)
Lemma ext_take {A} (n : nat) (what : string) (d : A) (f : list Z -> A) :
  Extends (fun r => if (length (remaining r) <? n)%nat then (r_fail what ;* ret d) r
                    else (f (take n (remaining r)), mkReader (drop n (remaining r)) (ok_ r) (err_ r))).
Proof.
  split.
  - intros e. cbn [remaining length ok_ err_]. by destruct n.
  - intros s e. cbn [remaining ok_ err_]. destruct (Nat.ltb_spec (length s) n) as [Hlt|Hge]; eexists _, _; (split; [reflexivity|]); [by left|].
    right. exists (take n s). cbn [remaining]. split_and!; [by rewrite take_drop|done|]. intros t.
    rewrite (proj2 (Nat.ltb_ge _ _)) by (rewrite length_app; lia). by rewrite take_app_le, drop_app_le by done.
Qed.

#[export] Instance ext_f64 : Extends r_f64.
Proof. apply (ext_take 8 "truncated f64" 0 of_raw). Qed.

#[export] Instance ext_str : Extends r_str.
Proof.
  apply ext_bind; [apply _|]. intros n. split.
  - intros e. cbn [remaining length ok_ err_]. destruct (Z.ltb_spec (Z.of_nat 0) n); cbn; [done|]. by destruct (Z.to_nat n).
  - intros s e. cbn [remaining ok_ err_]. destruct (Z.ltb_spec (Z.of_nat (length s)) n) as [Hlt|Hge]; eexists _, _; (split; [reflexivity|]); [by left|].
    right. exists (take (Z.to_nat n) s). cbn [remaining]. split_and!; [by rewrite take_drop|done|]. intros t.
    rewrite (proj2 (Z.ltb_ge _ _)) by (rewrite length_app; lia). by rewrite take_app_le, drop_app_le by lia.
Qed.

#[export] Instance ext_count : Extends r_count.
Proof.
  apply ext_bind; [apply _|]. intros n. split.
  - intros e. cbn [remaining length ok_ err_]. by destruct (Z.ltb_spec (Z.of_nat 0) n).
  - intros s e. cbn [remaining ok_ err_]. destruct (Z.ltb_spec (Z.of_nat (length s)) n) as [Hlt|Hge]; eexists _, _; (split; [reflexivity|]); [by left|].
    right. exists []. split_and!; [done..|]. intros t. by rewrite (proj2 (Z.ltb_ge _ _)) by (rewrite length_app; lia).
Qed.

#[export] Instance ext_times {A} n (m : R A) : Extends m -> Extends (times n m).
Proof. intros Hm. induction n as [|n IH]; cbn [times]; apply _. Qed.

#[export] Instance ext_times_ok {A} (d : A) n (m : R A) : Extends m -> Extends (times_ok d n m).
Proof. intros Hm. induction n as [|n IH]; cbn [times_ok]; apply _. Qed.

#[export] Instance ext_vector {A} (m : R A) : Extends m -> Extends (r_vector m).
Proof. unfold r_vector. apply _. Qed.

#[export] Instance ext_vector_ok {A} (d : A) (m : R A) : Extends m -> Extends (r_vector_ok d m).
Proof. unfold r_vector_ok. apply _. Qed.

#[export] Instance ext_times_while {A} n (m : R A) : Extends m -> Extends (times_while n m).
Proof. intros Hm. induction n as [|n IH]; cbn [times_while]; apply _. Qed.

#[export] Instance ext_deque {A} (m : R A) : Extends m -> Extends (r_deque m).
Proof. unfold r_deque. apply _. Qed.

(** Input that is all read cannot be read the same way with more behind it. *)
Lemma reads_no_prefix {A} (m : R A) bs x p q : Extends m -> reads m bs x -> bs = p ++ q -> q <> [] ->
  forall y, m (mkReader p true "") <> (y, mkReader [] true "").
Proof.
  intros Hm Hr -> Hq y E. specialize (Hr [] ""%string). rewrite app_nil_r in Hr.
  destruct (ext_more (m := m) p ""%string) as (z & r' & Ez & [[Hf _]|(u & Hs & Hr' & Hmore)]); rewrite E in Ez; injection Ez as <- <-; [done|].
  rewrite Hmore in Hr. by injection Hr as _ ->.
Qed.
