(* ===== verification/IlSerialize.v ===== *)
(** * The code cache's encoding (src/src/il/serialize.cpp)

    [serializeModule] and [deserializeModule], field by field.  Decoding what was
    encoded gives the module back ([saved]: without the texts, which are never written,
    and without [staticRegrow], which the encoder forgets), as long as the fields are in
    the ranges the decoder takes ([codable], narrower than the C++ types); and no
    proper front part of an encoding decodes. *)
From S2P Require Import Prelude Il IlBytes.
Local Open Scope Z_scope.
Local Open Scope bool_scope.

(** ** Flags *)

Definition has (m k : Z) : bool := negb (Z.land m k =? 0).

(** [if (c) m |= k;] down a list. *)
Definition flags (l : list (bool * Z)) : Z := fold_left (fun m x => if fst x : bool then Z.lor m (snd x) else m) l 0.

Definition opt (c : bool) (w : list Z) : list Z := if c then w else [].
Definition r_opt {A} (c : bool) (m : R A) (d : A) : R A := if c then m else ret d.

Definition kHasResult : Z := 2 ^ 0.
Definition kHasOperands : Z := 2 ^ 1.
Definition kHasImmF64 : Z := 2 ^ 2.
Definition kHasImmI32 : Z := 2 ^ 3.
Definition kHasCallee : Z := 2 ^ 4.
Definition kHasBoxType : Z := 2 ^ 5.
Definition kHasKey : Z := 2 ^ 6.
Definition kHasIc : Z := 2 ^ 7.
Definition kHasStaticSlot : Z := 2 ^ 8.
Definition kHasStaticCell : Z := 2 ^ 9.
Definition kHasFamilyLo : Z := 2 ^ 10.
Definition kHasFamilySpan : Z := 2 ^ 11.
Definition kHasDirect : Z := 2 ^ 12.
Definition kHasEnvDepth : Z := 2 ^ 13.
Definition kHasEnvIndex : Z := 2 ^ 14.
Definition kHasEnvHops : Z := 2 ^ 15.
Definition kHasSpan : Z := 2 ^ 16.
Definition kHasTarget : Z := 2 ^ 17.
Definition kHasElse : Z := 2 ^ 18.
Definition kIcMonomorphic : Z := 2 ^ 19.
Definition kIcFnRecv : Z := 2 ^ 20.
Definition kRawUnbox : Z := 2 ^ 21.
Definition kNullishUnbox : Z := 2 ^ 22.
Definition kEnvImmutable : Z := 2 ^ 23.
Definition kHasTyped : Z := 2 ^ 24.
Definition kHasInlineFrame : Z := 2 ^ 25.
Definition kHasTransitionRun : Z := 2 ^ 26.
Definition kHasDefineAdd : Z := 2 ^ 27.
Definition kNumberBits : Z := 2 ^ 28.
Definition kStaticSlotGuessed : Z := 2 ^ 29.
Definition kIcPolymorphic : Z := 2 ^ 30.
Definition kIcAbsent : Z := 2 ^ 31.
Definition kShapeGuarded : Z := 2 ^ 32.
Definition kNumberHint : Z := 2 ^ 33.
Definition kHasTruthHint : Z := 2 ^ 34.
Definition kHasIcChain : Z := 2 ^ 35.
Definition kKnownBits : Z := 2 ^ 36 - 1.

(** ** Instructions *)

Definition hasTarget (t : BlockTarget) : bool := negb (tblock t =? kNoBlock) || negb (empty (targs t)).

(** [kNoBlock] wraps to 0. *)
Definition writeTarget (t : BlockTarget) : list Z := w_var (u32 (tblock t + 1)) ++ w_vector w_var (targs t).

Definition readTarget : R BlockTarget :=
  let* b := r_u32 in let* args := r_vector r_u32 in ret (mkTarget (u32 (b - 1)) args).

Definition inst_flags (i : Instruction) : list (bool * Z) := [
  (negb (result i =? kNoValue), kHasResult); (negb (empty (operands i)), kHasOperands); (negb (immF64 i =? 0), kHasImmF64);
  (negb (immI32 i =? 0), kHasImmI32); (negb (calleeIndex i =? 0), kHasCallee); (negb (Ty.code (boxType i) =? 0), kHasBoxType);
  (negb (keyIndex i =? 0), kHasKey); (negb (icIndex i =? 0), kHasIc); (negb (staticSlot i =? kNoStaticSlot), kHasStaticSlot);
  (negb (staticCellIndex i =? 0), kHasStaticCell); (negb (familyLo i =? kNoFamily), kHasFamilyLo); (negb (familySpan i =? 0), kHasFamilySpan);
  (negb (directTarget i =? kNoDirectTarget), kHasDirect); (negb (typedTarget i =? kNoDirectTarget), kHasTyped);
  (negb (envDepth i =? 0), kHasEnvDepth); (negb (envIndex i =? 0), kHasEnvIndex); (negb (callEnvHops i =? kNoEnvHops), kHasEnvHops);
  (negb (inlineFrame i =? 0), kHasInlineFrame); (negb (transitionRunCell i =? kNoTransitionRun), kHasTransitionRun);
  (negb (defineAddCell i =? kNoDefineAddCell), kHasDefineAdd);
  (negb (begin_ (span i) =? 0) || negb (end_ (span i) =? 0) || negb (file (span i) =? 0), kHasSpan);
  (hasTarget (target i), kHasTarget); (hasTarget (elseTarget i), kHasElse); (icMonomorphic i, kIcMonomorphic); (icPolymorphic i, kIcPolymorphic);
  (icAbsent i, kIcAbsent); (icFnRecv i, kIcFnRecv); (rawUnbox i, kRawUnbox); (nullishUnbox i, kNullishUnbox); (numberBits i, kNumberBits);
  (shapeGuarded i, kShapeGuarded); (staticSlotGuessed i, kStaticSlotGuessed); (envImmutable i, kEnvImmutable); (numberHint i, kNumberHint);
  (negb (truthHint i =? 0), kHasTruthHint); (negb (icChain i =? 0), kHasIcChain)].

Definition write_run (i : Instruction) : list Z :=
  w_var (transitionRunCell i) ++ w_var (transitionRunLength i) ++ w_var (transitionRunSlot i).
Definition writeSpan (s : Span) : list Z := w_var (begin_ s) ++ w_svar (end_ s - begin_ s) ++ w_var (file s).

Definition writeInstruction (i : Instruction) : list Z :=
  let m := flags (inst_flags i) in
  w_u8 (Op.code (op i)) ++ w_u8 (Ty.code (type i)) ++ w_var m ++
  opt (has m kHasResult) (w_var (result i)) ++
  opt (has m kHasOperands) (w_vector w_var (operands i)) ++
  opt (has m kHasImmF64) (w_f64 (immF64 i)) ++
  opt (has m kHasImmI32) (w_svar (immI32 i)) ++
  opt (has m kHasCallee) (w_var (calleeIndex i)) ++
  opt (has m kHasBoxType) (w_u8 (Ty.code (boxType i))) ++
  opt (has m kHasKey) (w_var (keyIndex i)) ++
  opt (has m kHasIc) (w_var (icIndex i)) ++
  opt (has m kHasStaticSlot) (w_var (staticSlot i)) ++
  opt (has m kHasStaticCell) (w_var (staticCellIndex i)) ++
  opt (has m kHasFamilyLo) (w_var (familyLo i)) ++
  opt (has m kHasFamilySpan) (w_var (familySpan i)) ++
  opt (has m kHasDirect) (w_var (directTarget i)) ++
  opt (has m kHasTyped) (w_var (typedTarget i)) ++
  opt (has m kHasEnvDepth) (w_var (envDepth i)) ++
  opt (has m kHasEnvIndex) (w_var (envIndex i)) ++
  opt (has m kHasEnvHops) (w_var (callEnvHops i)) ++
  opt (has m kHasInlineFrame) (w_var (inlineFrame i)) ++
  opt (has m kHasTransitionRun) (write_run i) ++
  opt (has m kHasDefineAdd) (w_var (defineAddCell i)) ++
  opt (has m kHasTruthHint) (w_var (truthHint i)) ++
  opt (has m kHasIcChain) (w_var (icChain i)) ++
  opt (has m kHasSpan) (writeSpan (span i)) ++
  opt (has m kHasTarget) (writeTarget (target i)) ++
  opt (has m kHasElse) (writeTarget (elseTarget i)).

Definition r_check (bad : bool) (what : string) : R unit := if bad then r_fail what else ret tt.

Definition r_op : R Op.t :=
  let* o := r_u8 in r_check (Op.code Op.IsArray <? o) "bad op" ;* ret (default Op.ConstF64 (Op.of_code o)).

Definition read_run : R (Z * Z * Z) :=
  let* c := r_u32 in let* n := r_u32 in let* s := r_u32 in ret (c, n, s).

Definition r_truthHint : R Z :=
  let* h := r_u32 in r_check ((h =? 0) || (15 <? h)) "bad truthiness hint" ;* ret (h mod 256).

Definition r_icChain : R Z :=
  let* c := r_u32 in
  r_check ((c =? 0) || (15 <? c) || (4 <? Z.land c kChainWaysMask)) "bad inline-cache chain" ;* ret (c mod 256).

Definition readSpan : R Span :=
  let* b := r_u32 in
  let* d := r_i32 in
  let len := b + d in
  r_check ((len <? 0) || (0xFFFFFFFF <? len)) "bad span" ;*
  let* f := r_u32 in
  r_check (0xFFFF <? f) "bad span file" ;*
  ret (mkSpan b (u32 len) (u16 f)).

Definition readInstruction : R Instruction :=
  let* o := r_op in
  let* ty := r_type in
  let* m := r_var in
  r_check (negb (Z.land m (Z.lxor kKnownBits (2 ^ 64 - 1)) =? 0)) "unknown instruction field" ;*
  let* result := r_opt (has m kHasResult) r_u32 kNoValue in
  let* operands := r_opt (has m kHasOperands) (r_vector r_u32) [] in
  let* immF64 := r_opt (has m kHasImmF64) r_f64 0 in
  let* immI32 := r_opt (has m kHasImmI32) r_i32 0 in
  let* callee := r_opt (has m kHasCallee) r_u32 0 in
  let* boxType := r_opt (has m kHasBoxType) r_type Ty.Void in
  let* key := r_opt (has m kHasKey) r_u32 0 in
  let* ic := r_opt (has m kHasIc) r_u32 0 in
  let* staticSlot := r_opt (has m kHasStaticSlot) r_u32 kNoStaticSlot in
  let* staticCell := r_opt (has m kHasStaticCell) r_u32 0 in
  let* familyLo := r_opt (has m kHasFamilyLo) r_u32 kNoFamily in
  let* familySpan := r_opt (has m kHasFamilySpan) r_u32 0 in
  let* direct := r_opt (has m kHasDirect) r_u32 kNoDirectTarget in
  let* typed := r_opt (has m kHasTyped) r_u32 kNoDirectTarget in
  let* envDepth := r_opt (has m kHasEnvDepth) r_u32 0 in
  let* envIndex := r_opt (has m kHasEnvIndex) r_u32 0 in
  let* hops := r_opt (has m kHasEnvHops) r_u32 kNoEnvHops in
  let* frame := r_opt (has m kHasInlineFrame) r_u32 0 in
  let* run := r_opt (has m kHasTransitionRun) read_run (kNoTransitionRun, 0, 0) in
  let* defineAdd := r_opt (has m kHasDefineAdd) r_u32 kNoDefineAddCell in
  let* truth := r_opt (has m kHasTruthHint) r_truthHint 0 in
  let* chain := r_opt (has m kHasIcChain) r_icChain 0 in
  let* span := r_opt (has m kHasSpan) readSpan (mkSpan 0 0 0) in
  let* target := r_opt (has m kHasTarget) readTarget no_target in
  let* elseTarget := r_opt (has m kHasElse) readTarget no_target in
  ret (mkInst o ty result operands immF64 immI32 callee boxType key ic (has m kIcMonomorphic) (has m kIcPolymorphic)
         (has m kIcAbsent) (has m kIcFnRecv) (has m kRawUnbox) (has m kNullishUnbox) (has m kNumberBits) (has m kShapeGuarded)
         staticSlot staticCell familyLo familySpan (has m kStaticSlotGuessed) false
         (fst (fst run)) (snd (fst run)) (snd run) defineAdd direct typed envDepth envIndex (has m kEnvImmutable) (has m kNumberHint)
         truth chain hops frame span target elseTarget).

(** ** Blocks *)

Definition bool_byte (b : bool) : Z := if b then 1 else 0.

Definition write_bparam (p : BlockParam) : list Z := w_var (bp_id p) ++ w_u8 (Ty.code (bp_type p)).
Definition read_bparam : R BlockParam := let* i := r_u32 in let* ty := r_type in ret (mkBlockParam i ty).

Definition writeBlock (b : Block) : list Z :=
  w_var (bid b) ++ w_vector write_bparam (bparams b) ++ w_u8 (copy_code (copyClass b)) ++ w_u8 (bool_byte (cold b)) ++
  w_var (u32 (copyRegion b + 1)) ++ w_var (u32 (handler b + 1)) ++ w_vector writeInstruction (instructions b).

Definition copy_of (z : Z) : CopyClass := if z =? 0 then Shared else if z =? 1 then Fast else Slow.

Definition readBlock : R Block :=
  let* i := r_u32 in
  let* ps := r_vector read_bparam in
  let* cc := r_u8 in
  r_check (copy_code Slow <? cc) "bad copy class" ;*
  let* cold := r_u8 in
  let* region := r_u32 in
  let* handler := r_u32 in
  let* insts := r_vector_ok (new_inst Op.ConstF64) readInstruction in
  ret (mkBlock i ps insts (copy_of cc) (negb (cold =? 0)) (u32 (region - 1)) (u32 (handler - 1))).

(** ** Functions *)

Definition kReturnPinned : Z := 2 ^ 0.
Definition kIsExported : Z := 2 ^ 1.
Definition kIsExternal : Z := 2 ^ 2.
Definition kIsEntryPoint : Z := 2 ^ 3.
Definition kNeedsEnv : Z := 2 ^ 4.
Definition kNeedsThis : Z := 2 ^ 5.
Definition kNeedsArguments : Z := 2 ^ 6.
Definition kIsStrict : Z := 2 ^ 7.
Definition kIsGenerator : Z := 2 ^ 8.
Definition kHasRestParam : Z := 2 ^ 9.

Definition fn_flags (f : Function) : list (bool * Z) := [
  (returnPinned f, kReturnPinned); (isExported f, kIsExported); (isExternal f, kIsExternal); (isEntryPoint f, kIsEntryPoint);
  (needsEnv f, kNeedsEnv); (needsThis f, kNeedsThis); (needsArguments f, kNeedsArguments); (isStrict f, kIsStrict);
  (isGenerator f, kIsGenerator); (hasRestParam f, kHasRestParam)].

Definition param_flags (p : Param) : list (bool * Z) :=
  [(pinned p, 1); (match knownConstInt p with Some _ => true | None => false end, 2)].

Definition write_param (p : Param) : list Z :=
  w_str (pname p) ++ w_u8 (Ty.code (ptype p)) ++ w_u8 (flags (param_flags p)) ++ w_var (pinKeyIndex p) ++
  match knownConstInt p with Some z => w_svar z | None => [] end.

Definition read_param : R Param :=
  let* name := r_str in
  let* ty := r_type in
  let* pflags := r_u8 in
  let* key := r_u32 in
  let* const := r_opt (has pflags 2) (let* z := r_i32 in ret (Some z)) None in
  ret (mkParam name ty (has pflags 1) key const).

Definition write_frame (f : InlineFrame) : list Z :=
  w_var (callee f) ++ w_var (begin_ (callSpan f)) ++ w_var (end_ (callSpan f)) ++ w_var (file (callSpan f)) ++ w_var (parent f).

Definition read_frame : R InlineFrame :=
  let* c := r_u32 in
  let* b := r_u32 in
  let* e := r_u32 in
  let* f := r_u32 in
  r_check (0xFFFF <? f) "bad inline frame file" ;*
  let* p := r_u32 in
  ret (mkFrame c (mkSpan b e (u16 f)) p).

Definition writeFunction (f : Function) : list Z :=
  w_str (fname f) ++ w_var (flags (fn_flags f)) ++ w_vector write_param (params f) ++ w_u8 (Ty.code (returnType f)) ++
  w_var (returnPinKeyIndex f) ++ w_svar (coroKind f) ++ w_var (fnFlags f) ++ w_var (requiredArgs f) ++ w_var (nameKeyIndex f) ++
  w_var (sourceFile f) ++ w_var (sourceBegin f) ++ w_var (sourceEnd f) ++ w_str (displayName f) ++ w_var (descFlags f) ++
  w_var (u32 (typedOrigin f + 1)) ++ w_var (typedArgc f) ++ w_vector write_frame (inlineFrames f) ++ w_var (valueCount f) ++
  w_vector writeBlock (blocks f).

Definition readFunction : R Function :=
  let* name := r_str in
  let* bits := r_var in
  let* params := r_vector read_param in
  let* returnType := r_type in
  let* returnKey := r_u32 in
  let* coro := r_i32 in
  r_check ((coro <? -128) || (127 <? coro)) "bad coroutine kind" ;*
  let* fnFlags := r_u32 in
  let* required := r_u32 in
  let* nameKey := r_u32 in
  let* file := r_u32 in
  r_check (0xFFFF <? file) "bad source file" ;*
  let* sourceBegin := r_u32 in
  let* sourceEnd := r_u32 in
  let* display := r_str in
  let* desc := r_u32 in
  let* origin := r_u32 in
  let* argc := r_u32 in
  let* frames := r_vector read_frame in
  let* values := r_u32 in
  let* blocks := r_vector_ok new_block readBlock in
  ret (mkFunction name params returnType (has bits kReturnPinned) returnKey (has bits kIsExported) (has bits kIsExternal)
         (has bits kIsEntryPoint) (has bits kNeedsEnv) (has bits kNeedsThis) (has bits kNeedsArguments) (has bits kIsStrict)
         (has bits kIsGenerator) coro fnFlags (has bits kHasRestParam) required nameKey (u16 file) sourceBegin sourceEnd display desc
         (u32 (origin - 1)) argc frames blocks values).

(** ** Modules *)

Definition kModuleMagic : Z := 0x4C49524B.
Definition kFormatVersion : Z := 25.

Definition write_field (f : ClassFamilyField) : list Z := w_var (fkey f) ++ w_u8 (bool_byte (fwritable f)).
Definition read_field : R ClassFamilyField := let* k := r_u32 in let* w := r_u8 in ret (mkField k (negb (w =? 0))).
Definition write_family (c : ClassFamilyEntry) : list Z := w_str (cname c) ++ w_vector write_field (fields c).
Definition read_family : R ClassFamilyEntry := let* n := r_str in let* fs := r_vector read_field in ret (mkFamily n fs).
Definition write_census (c : CensusSiteEntry) : list Z := w_var (ckey c) ++ w_var (cinfo c).
Definition read_census : R CensusSiteEntry := let* k := r_u32 in let* i := r_u32 in ret (mkCensus k i).
Definition write_import (n : NativeImport) : list Z :=
  w_str (nname n) ++ w_str (signature n) ++ w_var (functionIndex n) ++ w_var (bufferReturnKind n).
Definition read_import : R NativeImport :=
  let* n := r_str in let* s := r_str in let* i := r_u32 in let* k := r_u32 in ret (mkImport n s i k).

(** The fields after the magic and the version. *)
Definition write_body (m : IlModule) : list Z :=
  w_str (mname m) ++ w_vector w_str (keyConstants m) ++ w_var (icSiteCount m) ++ w_var (templateSiteCount m) ++ w_var (staticSiteCount m) ++
  w_vector write_family (classFamilies m) ++ w_vector w_var (slotReprFields m) ++ w_vector write_census (censusSites m) ++
  w_str (censusOutPath m) ++ w_vector write_import (nativeImports m) ++ w_vector w_str (sourceFiles m) ++ w_vector writeFunction (functions m).

Definition serializeModule (m : IlModule) : list Z := w_var kModuleMagic ++ w_var kFormatVersion ++ write_body m.

Definition read_body : R IlModule :=
  let* name := r_str in
  let* keys := r_vector r_str in
  let* ic := r_u32 in
  let* template := r_u32 in
  let* static := r_u32 in
  let* families := r_vector read_family in
  let* slots := r_vector r_u32 in
  let* census := r_vector read_census in
  let* path := r_str in
  let* imports := r_vector read_import in
  let* files := r_vector r_str in
  let* fns := r_deque readFunction in
  ret (mkModule name keys ic template static families slots census path imports fns [] files []).

(** The module, or the message. *)
Definition deserializeModule (bs : list Z) : IlModule + string :=
  let '(magic, r) := r_var (mkReader bs true ""%string) in
  if negb (magic =? kModuleMagic) then inr "not an IL module"%string
  else
    let '(version, r) := r_var r in
    if negb (version =? kFormatVersion) then inr "IL format version mismatch"%string
    else
      let '(m, r) := read_body r in
      let r := if ok_ r && negb (empty (remaining r)) then snd (r_fail "trailing bytes" r) else r in
      if ok_ r then inl m else inr ("malformed IL: " ++ err_ r)%string.

(** [lineTables] and [sourceTexts] from the texts of the files. *)
Definition attachSources (m : IlModule) (texts : list (list Z)) (retainTexts : bool) : IlModule :=
  mkModule (mname m) (keyConstants m) (icSiteCount m) (templateSiteCount m) (staticSiteCount m) (classFamilies m) (slotReprFields m)
    (censusSites m) (censusOutPath m) (nativeImports m) (functions m) (if retainTexts then texts else []) (sourceFiles m) texts.

(** ** Flags read back *)

Lemma has_lor a b k : has (Z.lor a b) k = has a k || has b k.
Proof.
  unfold has. rewrite Z.land_lor_distr_l.
  destruct (Z.eqb_spec (Z.lor (Z.land a k) (Z.land b k)) 0) as [E|E], (Z.eqb_spec (Z.land a k) 0) as [E1|E1], (Z.eqb_spec (Z.land b k) 0) as [E2|E2]; cbn; try done.
  all: rewrite Z.lor_eq_0_iff in E; tauto.
Qed.

Lemma has_flags l k : has (flags l) k = existsb (fun x => fst x && has (snd x) k) l.
Proof.
  assert (forall m, has (fold_left (fun m x => if fst x : bool then Z.lor m (snd x) else m) l m) k = has m k || existsb (fun x => fst x && has (snd x) k) l) as H.
  { induction l as [|[c f] l IH]; intros m; cbn; [by rewrite orb_false_r|]. rewrite IH. destruct c; cbn; [|done]. by rewrite has_lor, orb_assoc. }
  unfold flags. by rewrite H.
Qed.

(** Flags that do not overlap. *)
Definition separate (ks : list Z) : bool :=
  bool_decide (NoDup ks) && forallb (fun a => forallb (fun b => Bool.eqb (has a b) (a =? b)) ks) ks.

Lemma has_flag l c k : separate (map snd l) = true -> In (c, k) l -> has (flags l) k = c.
Proof.
  intros [Hnd%bool_decide_eq_true Hsep]%andb_true_iff Hin. rewrite forallb_forall in Hsep.
  assert (forall a b, In a (map snd l) -> In b (map snd l) -> has a b = (a =? b)) as Hs.
  { intros a b Ha Hb. specialize (Hsep a Ha). rewrite forallb_forall in Hsep. by apply eqb_prop, Hsep. }
  assert (In k (map snd l)) as Hk by (by apply (in_map snd l (c, k))).
  rewrite has_flags. destruct c.
  - apply existsb_exists. exists (true, k). split; [done|]. cbn. rewrite Hs by done. apply Z.eqb_refl.
  - apply not_true_iff_false. intros ([c' k'] & Hin' & H)%existsb_exists. cbn in H. apply andb_true_iff in H as [-> H].
    rewrite Hs in H by (done || by apply (in_map snd l (true, k'))). apply Z.eqb_eq in H as ->. clear - Hnd Hin Hin'.
    induction l as [|[c0 k0] l IH]; [done|]. cbn in Hnd. apply NoDup_cons in Hnd as [Hn Hnd]. rewrite list_elem_of_In in Hn.
    destruct Hin as [[= -> ->]|Hin], Hin' as [[= ->]|Hin']; try done.
    + by apply Hn, (in_map snd l (true, k)).
    + subst. by apply Hn, (in_map snd l (false, k)).
    + by apply IH.
Qed.

Lemma flags_disjoint l k : forallb (fun f => negb (has f k)) (map snd l) = true -> Z.land (flags l) k = 0.
Proof.
  intros H. assert (has (flags l) k = false) as E.
  { rewrite has_flags. apply not_true_iff_false. intros ([c f] & Hin & Hf)%existsb_exists. rewrite forallb_forall in H.
    specialize (H f (in_map snd l _ Hin)). cbn in Hf. destruct (has f k); [done|]. by rewrite andb_false_r in Hf. }
  unfold has in E. by destruct (Z.eqb_spec (Z.land (flags l) k) 0).
Qed.

Lemma flags_range l n : 0 <= n -> forallb (fun f => (0 <=? f) && (f <? 2 ^ n)) (map snd l) = true -> 0 <= flags l < 2 ^ n.
Proof.
  intros Hn H. rewrite forallb_forall in H. assert (forall m, 0 <= m < 2 ^ n -> 0 <= fold_left (fun m x => if fst x : bool then Z.lor m (snd x) else m) l m < 2 ^ n) as Hf.
  { induction l as [|[c f] l IH]; intros m Hm; cbn; [done|]. apply IH; [intros x Hx; apply H; by right|]. destruct c; [|done].
    assert (0 <= f < 2 ^ n) as Hfr by (pose proof (H f (or_introl eq_refl)) as E; cbn in E; lia).
    assert (Z.land (Z.lor m f) (Z.ones n) = Z.lor m f) as <- by (rewrite Z.land_lor_distr_l, !Z.land_ones, !Z.mod_small; done).
    rewrite Z.land_ones by done. apply Z.mod_pos_bound, Z.pow_pos_nonneg; lia. }
  apply Hf. split; [lia|apply Z.pow_pos_nonneg; lia].
Qed.

(** ** What is encoded is decoded *)

Lemma reads_opt {A} (c : bool) (m : R A) w x d : (c = true -> reads m w x) -> (c = false -> x = d) -> reads (r_opt c m d) (opt c w) x.
Proof. intros H1 H2. destruct c; cbn; [by apply H1|]. rewrite H2 by done. apply reads_ret. Qed.

Lemma reads_check {A} (bad : bool) what (m : R A) w x : bad = false -> reads m w x -> reads (r_check bad what ;* m) w x.
Proof. intros -> H. eapply reads_skip; [apply reads_ret|done]. Qed.

(** The ranges the decoder takes, within those of the C++ types. *)
Record codable_inst (i : Instruction) : Prop := {
  ci_truth : truthHint i <= 15;
  ci_chain : icChain i <= 15 /\ Z.land (icChain i) kChainWaysMask <= 4;
  ci_run : transitionRunCell i = kNoTransitionRun -> transitionRunLength i = 0 /\ transitionRunSlot i = 0;
  ci_span : - 2 ^ 31 <= end_ (span i) - begin_ (span i) < 2 ^ 31 }.

Definition codable_block (b : Block) : Prop := Forall codable_inst (instructions b).
Definition codable_param (p : Param) : Prop := match knownConstInt p with Some z => - 2 ^ 31 <= z < 2 ^ 31 | None => True end.
Definition codable_function (f : Function) : Prop := Forall codable_param (params f) /\ Forall codable_block (blocks f).
Definition codable (m : IlModule) : Prop := Forall codable_function (functions m).

(** What the encoding keeps. *)
Definition saved_inst (i : Instruction) : Instruction :=
  mkInst (op i) (type i) (result i) (operands i) (immF64 i) (immI32 i) (calleeIndex i) (boxType i) (keyIndex i) (icIndex i)
    (icMonomorphic i) (icPolymorphic i) (icAbsent i) (icFnRecv i) (rawUnbox i) (nullishUnbox i) (numberBits i) (shapeGuarded i)
    (staticSlot i) (staticCellIndex i) (familyLo i) (familySpan i) (staticSlotGuessed i) false (transitionRunCell i)
    (transitionRunLength i) (transitionRunSlot i) (defineAddCell i) (directTarget i) (typedTarget i) (envDepth i) (envIndex i)
    (envImmutable i) (numberHint i) (truthHint i) (icChain i) (callEnvHops i) (inlineFrame i) (span i) (target i) (elseTarget i).

Definition saved_block (b : Block) : Block :=
  mkBlock (bid b) (bparams b) (map saved_inst (instructions b)) (copyClass b) (cold b) (copyRegion b) (handler b).

Definition saved_function (f : Function) : Function :=
  mkFunction (fname f) (params f) (returnType f) (returnPinned f) (returnPinKeyIndex f) (isExported f) (isExternal f) (isEntryPoint f)
    (needsEnv f) (needsThis f) (needsArguments f) (isStrict f) (isGenerator f) (coroKind f) (fnFlags f) (hasRestParam f) (requiredArgs f)
    (nameKeyIndex f) (sourceFile f) (sourceBegin f) (sourceEnd f) (displayName f) (descFlags f) (typedOrigin f) (typedArgc f)
    (inlineFrames f) (map saved_block (blocks f)) (valueCount f).

Definition saved (m : IlModule) : IlModule :=
  mkModule (mname m) (keyConstants m) (icSiteCount m) (templateSiteCount m) (staticSiteCount m) (classFamilies m) (slotReprFields m)
    (censusSites m) (censusOutPath m) (nativeImports m) (map saved_function (functions m)) [] (sourceFiles m) [].

Lemma reads_op o : reads r_op (w_u8 (Op.code o)) o.
Proof.
  pose proof (Op.code_range o). eapply reads_last; [apply reads_u8; lia|]. apply reads_check; [apply Z.ltb_ge; cbn; lia|].
  rewrite Op.of_code_code. apply reads_ret.
Qed.

Lemma u32_wrap z : is_u32 z -> is_u32 (u32 (z + 1)) /\ u32 (u32 (z + 1) - 1) = z.
Proof. intros H. unfold is_u32, u32 in *. split; dlia. Qed.

Lemma reads_u32s l : Forall is_u32 l -> sized l -> reads (r_vector r_u32) (w_vector w_var l) l.
Proof. intros Hl Hs. apply reads_vector; [intros x; apply w_var_nonempty|done|]. eapply Forall_impl; [exact Hl|]. apply reads_u32. Qed.

Lemma reads_target t : fits_target t -> reads readTarget (writeTarget t) t.
Proof.
  intros (Hb & Ha & Hs). destruct (u32_wrap _ Hb) as [H1 H2]. eapply reads_bind; [by apply reads_u32|].
  eapply reads_last; [by apply reads_u32s|]. rewrite H2. destruct t. apply reads_ret.
Qed.

Lemma no_target_of t : hasTarget t = false -> t = no_target.
Proof. destruct t as [b [|]]; unfold hasTarget; cbn; [|by destruct (b =? kNoBlock)]. by destruct (Z.eqb_spec b kNoBlock) as [->|]. Qed.

Lemma reads_span s : fits_span s -> - 2 ^ 31 <= end_ s - begin_ s < 2 ^ 31 -> reads readSpan (writeSpan s) s.
Proof.
  intros [Hb He Hf] Hd. unfold is_u32 in *. eapply reads_bind; [by apply reads_u32|]. eapply reads_bind; [by apply reads_i32|]. cbv beta zeta.
  replace (begin_ s + (end_ s - begin_ s)) with (end_ s) by lia. apply reads_check; [lia|].
  eapply reads_last; [apply reads_u32; unfold is_u32; lia|]. apply reads_check; [lia|].
  rewrite u32_small by done. unfold u16. rewrite Z.mod_small by done. destruct s. apply reads_ret.
Qed.

Lemma reads_hint h : 1 <= h <= 15 -> reads r_truthHint (w_var h) h.
Proof.
  intros H. eapply reads_last; [apply reads_u32; unfold is_u32; lia|]. apply reads_check; [lia|]. rewrite Z.mod_small by lia. apply reads_ret.
Qed.

Lemma reads_chain c : 1 <= c <= 15 -> Z.land c kChainWaysMask <= 4 -> reads r_icChain (w_var c) c.
Proof.
  intros H Hw. eapply reads_last; [apply reads_u32; unfold is_u32; lia|]. apply reads_check; [lia|]. rewrite Z.mod_small by lia. apply reads_ret.
Qed.

Lemma reads_run i : is_u32 (transitionRunCell i) -> is_u32 (transitionRunLength i) -> is_u32 (transitionRunSlot i) ->
  reads read_run (write_run i) (transitionRunCell i, transitionRunLength i, transitionRunSlot i).
Proof.
  intros H1 H2 H3. eapply reads_bind; [by apply reads_u32|]. eapply reads_bind; [by apply reads_u32|]. eapply reads_last; [by apply reads_u32|]. apply reads_ret.
Qed.

Lemma inst_separate i : separate (map snd (inst_flags i)) = true.
Proof. by vm_compute. Qed.

Lemma type_code_0 ty : Ty.code ty = 0 -> ty = Ty.Void.
Proof. by destruct ty. Qed.

(** One optional field of an instruction: what is written is read, and what is not
    written has its initializer. *)
Ltac in_flags := unfold inst_flags; cbn [In]; repeat (first [left; reflexivity | right]).
Ltac absent := let H := fresh in intros H; apply negb_false_iff, Z.eqb_eq in H; exact H.
Ltac number_field := apply reads_opt; [intros _; first [by apply reads_u32 | by apply reads_f64 | by apply reads_i32]|absent].

Lemma reads_instruction i : fits_inst i -> codable_inst i -> reads readInstruction (writeInstruction i) (saved_inst i).
Proof.
  intros Hf Hc. pose proof (fi_operands i Hf) as [Hops Hsz]. destruct Hf, Hc as [? [? Hways] Hrun ?]. unfold readInstruction, writeInstruction. cbv zeta.
  eapply reads_bind; [apply reads_op|]. eapply reads_bind; [apply reads_type|].
  pose proof (flags_range (inst_flags i) 36 ltac:(lia) ltac:(by vm_compute)) as Hr.
  eapply reads_bind; [apply reads_var; lia|].
  rewrite flags_disjoint by by vm_compute. apply reads_check; [done|].
  repeat match goal with |- context [has (flags (inst_flags i)) ?k] => erewrite (has_flag (inst_flags i) _ k) by (apply inst_separate || in_flags) end.
  eapply reads_bind; [number_field|].
  eapply reads_bind. { apply reads_opt; [intros _; by apply reads_u32s|]. by destruct (operands i). }
  do 3 (eapply reads_bind; [number_field|]).
  eapply reads_bind. { apply reads_opt; [intros _; apply reads_type|]. intros E. apply negb_false_iff, Z.eqb_eq in E. by apply type_code_0. }
  do 12 (eapply reads_bind; [number_field|]).
  eapply reads_bind.
  { apply (reads_opt _ _ _ (transitionRunCell i, transitionRunLength i, transitionRunSlot i)); [intros _; by apply reads_run|].
    intros E. apply negb_false_iff, Z.eqb_eq in E. destruct (Hrun E) as [-> ->]. by rewrite E. }
  eapply reads_bind; [number_field|].
  eapply reads_bind. { apply reads_opt; [|absent]. intros E. apply negb_true_iff, Z.eqb_neq in E. apply reads_hint. lia. }
  eapply reads_bind. { apply reads_opt; [|absent]. intros E. apply negb_true_iff, Z.eqb_neq in E. apply reads_chain; [lia|done]. }
  eapply reads_bind.
  { apply reads_opt; [intros _; by apply reads_span|]. destruct (span i) as [b e f]. cbn. intros E. apply orb_false_iff in E as [[H1 H2]%orb_false_iff H3].
    apply negb_false_iff, Z.eqb_eq in H1, H2, H3. by subst. }
  eapply reads_bind; [apply reads_opt; [intros _; by apply reads_target|apply no_target_of]|].
  eapply reads_last; [apply reads_opt; [intros _; by apply reads_target|apply no_target_of]|]. apply reads_ret.
Qed.

Lemma writeInstruction_nonempty : nonempty writeInstruction.
Proof. intros i. done. Qed.

Lemma Forall_both {A} (P Q : A -> Prop) l : Forall P l -> Forall Q l -> Forall (fun x => P x /\ Q x) l.
Proof. intros HP HQ. apply Forall_and. by split. Qed.

Lemma saved_vector {A} (w : A -> list Z) (f : A -> A) (l : list A) : (forall x, w (f x) = w x) -> w_vector w (map f l) = w_vector w l.
Proof.
  intros H. unfold w_vector. rewrite length_map. f_equal. f_equal. rewrite map_map. by apply map_ext.
Qed.

(** The encoding of a vector decodes to what its elements decode to. *)
Lemma reads_saved {A} (v : R A -> R (list A)) (w : A -> list Z) (f : A -> A) (m : R A) l :
  (forall w l, nonempty w -> sized l -> Forall (fun x => reads m (w x) x) l -> reads (v m) (w_vector w l) l) ->
  nonempty w -> sized l -> (forall x, w (f x) = w x) -> Forall (fun x => reads m (w x) (f x)) l -> reads (v m) (w_vector w l) (map f l).
Proof.
  intros Hv Hw Hs Hf Hl. rewrite <- (saved_vector w f) by done. apply Hv; [done|unfold sized in *; by rewrite length_map|].
  apply Forall_map. eapply Forall_impl; [exact Hl|]. intros x Hx. cbn. by rewrite Hf.
Qed.

Lemma saved_inst_writes i : writeInstruction (saved_inst i) = writeInstruction i.
Proof. reflexivity. Qed.

Lemma reads_bparam p : is_u32 (bp_id p) -> reads read_bparam (write_bparam p) p.
Proof. intros H. eapply reads_bind; [by apply reads_u32|]. eapply reads_last; [apply reads_type|]. destruct p. apply reads_ret. Qed.

Lemma copy_of_code c : copy_of (copy_code c) = c /\ 0 <= copy_code c <= 2.
Proof. destruct c; cbn; split; done || lia. Qed.

Lemma reads_bool {B} (k : Z -> R B) (b : bool) bs y : (forall z, negb (z =? 0) = b -> reads (k z) bs y) -> reads (bind r_u8 k) (w_u8 (bool_byte b) ++ bs) y.
Proof. intros H. eapply reads_bind; [apply reads_u8; destruct b; cbn; lia|]. apply H. by destruct b. Qed.

Lemma reads_block b : fits_block b -> codable_block b -> reads readBlock (writeBlock b) (saved_block b).
Proof.
  intros [Hi [Hp Hps] Hr Hh [Hin Hins]] Hc. unfold readBlock, writeBlock.
  destruct (copy_of_code (copyClass b)) as [Hcc Hcr], (u32_wrap _ Hr) as [Hr1 Hr2], (u32_wrap _ Hh) as [Hh1 Hh2].
  eapply reads_bind; [by apply reads_u32|].
  eapply reads_bind. { apply reads_vector; [intros p E; by apply app_nil in E as [_ ?]|done|]. eapply Forall_impl; [exact Hp|]. apply reads_bparam. }
  eapply reads_bind; [apply reads_u8; lia|]. apply reads_check; [cbn; lia|]. apply reads_bool. intros z Hz.
  eapply reads_bind; [by apply reads_u32|]. eapply reads_bind; [by apply reads_u32|].
  eapply reads_last.
  { apply (reads_saved (r_vector_ok (new_inst Op.ConstF64)) writeInstruction saved_inst readInstruction); [intros w l; apply reads_vector_ok|apply writeInstruction_nonempty|done|done|].
    eapply Forall_impl; [by apply (Forall_both _ _ _ Hin Hc)|]. intros i [? ?]. by apply reads_instruction. }
  rewrite Hcc, Hr2, Hh2, Hz. apply reads_ret.
Qed.

Lemma saved_block_writes b : writeBlock (saved_block b) = writeBlock b.
Proof.
  unfold writeBlock. change (instructions (saved_block b)) with (map saved_inst (instructions b)).
  by rewrite (saved_vector writeInstruction saved_inst) by apply saved_inst_writes.
Qed.

Lemma reads_param p : fits_param p -> codable_param p -> reads read_param (write_param p) p.
Proof.
  intros [Hn Hk _] Hc. unfold read_param, write_param. eapply reads_bind; [by apply reads_str|]. eapply reads_bind; [apply reads_type|].
  pose proof (flags_range (param_flags p) 2 ltac:(lia) ltac:(by vm_compute)) as Hr.
  eapply reads_bind; [apply reads_u8; lia|]. eapply reads_bind; [by apply reads_u32|].
  rewrite (has_flag (param_flags p) (pinned p) 1), (has_flag (param_flags p) (match knownConstInt p with Some _ => true | None => false end) 2)
    by ((by vm_compute) || cbn; tauto).
  apply (reads_last _ _ _ (knownConstInt p)).
  { unfold codable_param in Hc. destruct (knownConstInt p) as [z|]; [|apply reads_ret]. eapply reads_last; [by apply reads_i32|]. apply reads_ret. }
  destruct p. apply reads_ret.
Qed.

Lemma reads_frame f : fits_frame f -> reads read_frame (write_frame f) f.
Proof.
  intros [Hc [Hb He Hf] Hp]. unfold read_frame, write_frame. do 3 (eapply reads_bind; [by apply reads_u32|]).
  eapply reads_bind; [apply reads_u32; unfold is_u32; lia|]. apply reads_check; [lia|]. eapply reads_last; [by apply reads_u32|].
  unfold u16. rewrite Z.mod_small by done. destruct f as [? [] ?]. apply reads_ret.
Qed.

Lemma str_nonempty s : w_str s <> [].
Proof. unfold w_str. intros E. apply app_nil in E as [E _]. by apply w_var_nonempty in E. Qed.

Lemma front_nonempty (a b : list Z) : a <> [] -> a ++ b <> [].
Proof. intros H E. by apply app_nil in E as [? _]. Qed.



Lemma writeBlock_nonempty : nonempty writeBlock.
Proof. intros b. apply front_nonempty, w_var_nonempty. Qed.

Lemma fn_separate f : separate (map snd (fn_flags f)) = true.
Proof. by vm_compute. Qed.

Lemma reads_function f : fits_function f -> codable_function f -> reads readFunction (writeFunction f) (saved_function f).
Proof.
  intros Hf [Hcp Hcb]. pose proof (fu_params f Hf) as [Hp Hps]. pose proof (fu_frames f Hf) as [Hfr Hfrs]. pose proof (fu_blocks f Hf) as [Hb Hbs]. destruct Hf.
  unfold readFunction, writeFunction. destruct (u32_wrap (typedOrigin f)) as [Ho1 Ho2]; [done|].
  pose proof (flags_range (fn_flags f) 10 ltac:(lia) ltac:(by vm_compute)) as Hr.
  eapply reads_bind; [by apply reads_str|]. eapply reads_bind; [apply reads_var; lia|].
  repeat match goal with |- context [has (flags (fn_flags f)) ?k] =>
    erewrite (has_flag (fn_flags f) _ k) by (apply fn_separate || (unfold fn_flags; cbn [In]; repeat (first [left; reflexivity | right]))) end.
  eapply reads_bind.
  { apply reads_vector; [intros p; apply front_nonempty, str_nonempty|done|]. eapply Forall_impl; [by apply (Forall_both _ _ _ Hp Hcp)|]. intros p [? ?]. by apply reads_param. }
  eapply reads_bind; [apply reads_type|]. eapply reads_bind; [by apply reads_u32|]. eapply reads_bind; [apply reads_i32; lia|]. apply reads_check; [lia|].
  do 3 (eapply reads_bind; [by apply reads_u32|]). eapply reads_bind; [apply reads_u32; unfold is_u32; lia|]. apply reads_check; [lia|].
  do 2 (eapply reads_bind; [by apply reads_u32|]). eapply reads_bind; [by apply reads_str|]. do 3 (eapply reads_bind; [by apply reads_u32|]).
  eapply reads_bind. { apply reads_vector; [intros x; apply front_nonempty, w_var_nonempty|done|]. eapply Forall_impl; [exact Hfr|]. apply reads_frame. }
  eapply reads_bind; [by apply reads_u32|].
  eapply reads_last.
  { apply (reads_saved (r_vector_ok new_block) writeBlock saved_block readBlock); [intros w l; apply reads_vector_ok|apply writeBlock_nonempty|done|apply saved_block_writes|].
    eapply Forall_impl; [by apply (Forall_both _ _ _ Hb Hcb)|]. intros b [? ?]. by apply reads_block. }
  unfold u16. rewrite Ho2, Z.mod_small by done. apply reads_ret.
Qed.

Lemma saved_function_writes f : writeFunction (saved_function f) = writeFunction f.
Proof.
  unfold writeFunction. change (blocks (saved_function f)) with (map saved_block (blocks f)).
  by rewrite (saved_vector writeBlock saved_block) by apply saved_block_writes.
Qed.

(** ** Modules *)

Lemma reads_each {A} (w : A -> list Z) (m : R A) (P : A -> Prop) l : nonempty w -> (forall x, P x -> reads m (w x) x) ->
  Forall P l /\ sized l -> reads (r_vector m) (w_vector w l) l.
Proof. intros Hw Hm [Hl Hs]. apply reads_vector; [done|done|]. by eapply Forall_impl. Qed.

Lemma reads_field f : is_u32 (fkey f) -> reads read_field (write_field f) f.
Proof.
  intros H. eapply reads_bind; [by apply reads_u32|]. rewrite <- (app_nil_r (w_u8 _)). apply reads_bool. intros z ->. destruct f. apply reads_ret.
Qed.

Lemma reads_family c : fits_family c -> reads read_family (write_family c) c.
Proof.
  intros [Hn Hf]. eapply reads_bind; [by apply reads_str|].
  eapply reads_last; [by apply (reads_each write_field read_field (fun f => is_u32 (fkey f))); [intros x; apply front_nonempty, w_var_nonempty|apply reads_field|]|].
  destruct c. apply reads_ret.
Qed.

Lemma reads_census c : is_u32 (ckey c) /\ is_u32 (cinfo c) -> reads read_census (write_census c) c.
Proof. intros [H1 H2]. eapply reads_bind; [by apply reads_u32|]. eapply reads_last; [by apply reads_u32|]. destruct c. apply reads_ret. Qed.

Lemma reads_import n : fits_import n -> reads read_import (write_import n) n.
Proof.
  intros []. do 2 (eapply reads_bind; [by apply reads_str|]). eapply reads_bind; [by apply reads_u32|]. eapply reads_last; [by apply reads_u32|].
  destruct n. apply reads_ret.
Qed.

Lemma reads_body m : fits m -> codable m -> reads read_body (write_body m) (saved m).
Proof.
  intros Hf Hc. pose proof (fm_functions m Hf) as [Hfn Hfs]. destruct Hf. unfold read_body, write_body.
  eapply reads_bind; [by apply reads_str|]. eapply reads_bind; [by apply (reads_each w_str r_str is_bytes); [intros x; apply str_nonempty|apply reads_str|]|].
  do 3 (eapply reads_bind; [by apply reads_u32|]).
  eapply reads_bind; [by apply (reads_each write_family read_family fits_family); [intros x; apply front_nonempty, str_nonempty|apply reads_family|]|].
  eapply reads_bind; [by apply (reads_each w_var r_u32 is_u32); [intros x; apply w_var_nonempty|apply reads_u32|]|].
  eapply reads_bind; [by apply (reads_each write_census read_census (fun c => is_u32 (ckey c) /\ is_u32 (cinfo c))); [intros x; apply front_nonempty, w_var_nonempty|apply reads_census|]|].
  eapply reads_bind; [by apply reads_str|].
  eapply reads_bind; [by apply (reads_each write_import read_import fits_import); [intros x; apply front_nonempty, str_nonempty|apply reads_import|]|].
  eapply reads_bind; [by apply (reads_each w_str r_str is_bytes); [intros x; apply str_nonempty|apply reads_str|]|].
  eapply reads_last.
  { apply (reads_saved r_deque writeFunction saved_function readFunction);
      [intros w l; apply reads_deque|intros f; apply front_nonempty, str_nonempty|done|apply saved_function_writes|].
    eapply Forall_impl; [by apply (Forall_both _ _ _ Hfn Hc)|]. intros f [? ?]. by apply reads_function. }
  apply reads_ret.
Qed.

#[export] Instance ext_check bad what : Extends (r_check bad what).
Proof. unfold r_check. apply _. Qed.

#[export] Instance ext_opt {A} (c : bool) (m : R A) d : Extends m -> Extends (r_opt c m d).
Proof. unfold r_opt. apply _. Qed.

#[export] Instance ext_instruction : Extends readInstruction.
Proof. unfold readInstruction, r_op, readTarget, readSpan, r_truthHint, r_icChain, read_run. apply _. Qed.

#[export] Instance ext_block : Extends readBlock.
Proof. unfold readBlock, read_bparam. apply _. Qed.

#[export] Instance ext_function : Extends readFunction.
Proof. unfold readFunction, read_param, read_frame. apply _. Qed.

#[export] Instance ext_body : Extends read_body.
Proof. unfold read_body, read_family, read_field, read_census, read_import. apply _. Qed.

(** The three parts of an encoding. *)
Definition read_all : R (Z * Z * IlModule) :=
  let* magic := r_var in let* version := r_var in let* m := read_body in ret (magic, version, m).

#[export] Instance ext_all : Extends read_all.
Proof. unfold read_all. apply _. Qed.

Lemma reads_all m : fits m -> codable m -> reads read_all (serializeModule m) (kModuleMagic, kFormatVersion, saved m).
Proof.
  intros Hf Hc. unfold read_all, serializeModule. eapply reads_bind; [apply reads_var; by vm_compute|].
  eapply reads_bind; [apply reads_var; by vm_compute|]. eapply reads_last; [by apply reads_body|]. apply reads_ret.
Qed.

Lemma deserialize_all bs : deserializeModule bs =
  let '(magic, version, m, r) := read_all (mkReader bs true ""%string) in
  if negb (magic =? kModuleMagic) then inr "not an IL module"%string
  else if negb (version =? kFormatVersion) then inr "IL format version mismatch"%string
  else
    let r := if ok_ r && negb (empty (remaining r)) then snd (r_fail "trailing bytes" r) else r in
    if ok_ r then inl m else inr ("malformed IL: " ++ err_ r)%string.
Proof.
  unfold deserializeModule, read_all, bind, ret. destruct (r_var (mkReader bs true "")) as [magic r1]. destruct (r_var r1) as [version r2].
  by destruct (read_body r2) as [m' r3].
Qed.

(** What an accepted input is. *)
Lemma deserialize_accepts bs m : deserializeModule bs = inl m <->
  read_all (mkReader bs true ""%string) = ((kModuleMagic, kFormatVersion, m), mkReader [] true ""%string).
Proof.
  rewrite deserialize_all. destruct (ext_more (m := read_all) bs ""%string) as ([[magic version] m'] & r' & -> & Hcase).
  destruct (Z.eqb_spec magic kModuleMagic) as [->|Hne]; [|by split; [|intros [= ? _]]].
  destruct (Z.eqb_spec version kFormatVersion) as [->|Hne]; [|by split; [|intros [= ? _]]]. cbn [negb].
  destruct Hcase as [[Hok _]|(u & _ & -> & _)]; cbn [ok_ remaining].
  - rewrite Hok. cbn. rewrite Hok. split; [done|]. intros [= _ ->]. done.
  - destruct (remaining r') as [|b rest]; cbn; split; congruence.
Qed.

(** C9: what the code cache writes it reads back: for a module whose fields are in the
    ranges the decoder takes, decoding the encoding gives the module with its texts
    dropped and its [staticRegrow] flags cleared. *)
Theorem module_roundtrip m : fits m -> codable m -> deserializeModule (serializeModule m) = inl (saved m).
Proof.
  intros Hf Hc. apply deserialize_accepts. pose proof (reads_all m Hf Hc [] ""%string) as H. by rewrite app_nil_r in H.
Qed.

(** C25: a cache file cut short is refused, wherever it is cut, and so is one with
    something behind it. *)
Theorem cut_encoding_refused m p q : fits m -> codable m -> q <> [] ->
  (serializeModule m = p ++ q -> exists why, deserializeModule p = inr why) /\
  deserializeModule (serializeModule m ++ q) = inr "malformed IL: trailing bytes"%string.
Proof.
  intros Hf Hc Hq. split.
  - intros E. destruct (deserializeModule p) as [m'|why] eqn:Ed; [|by exists why]. apply deserialize_accepts in Ed.
    by destruct (reads_no_prefix read_all (serializeModule m) _ p q _ (reads_all m Hf Hc) E Hq (kModuleMagic, kFormatVersion, m')).
  - rewrite deserialize_all, (reads_all m Hf Hc q ""%string), !Z.eqb_refl. by destruct q.
Qed.

(** Nothing is lost when no instruction has the flag, and the sources are attached again. *)
Lemma saved_attached m retain :
  Forall (fun f => Forall (fun b => Forall (fun i => staticRegrow i = false) (instructions b)) (blocks f)) (functions m) ->
  sourceTexts m = (if retain : bool then lineTables m else []) -> attachSources (saved m) (lineTables m) retain = m.
Proof.
  intros Hr Hs. assert (map saved_function (functions m) = functions m) as Ef.
  { rewrite <- (map_id (functions m)) at 2. apply map_ext_in. intros f Hin. rewrite Forall_forall in Hr. specialize (Hr f). rewrite list_elem_of_In in Hr. specialize (Hr Hin).
    assert (map saved_block (blocks f) = blocks f) as Eb.
    { rewrite <- (map_id (blocks f)) at 2. apply map_ext_in. intros b Hb. rewrite Forall_forall in Hr. specialize (Hr b). rewrite list_elem_of_In in Hr. specialize (Hr Hb).
      assert (map saved_inst (instructions b) = instructions b) as Ei.
      { rewrite <- (map_id (instructions b)) at 2. apply map_ext_in. intros i Hi. rewrite Forall_forall in Hr. specialize (Hr i). rewrite list_elem_of_In in Hr. specialize (Hr Hi).
        destruct i. cbn in Hr. subst. reflexivity. }
      destruct b. cbn in Ei. unfold saved_block. cbn. by rewrite Ei. }
    destruct f. cbn in Eb. unfold saved_function. cbn. by rewrite Eb. }
  destruct m. cbn in *. unfold saved, attachSources. cbn. by rewrite Ef, Hs.
Qed.

(** ** Modules at the edges *)

Definition edge_function (i : Instruction) (ps : list Param) : Function :=
  mkFunction (bytes "f") ps Ty.Dynamic false 0 false false true false false false true false kNotCoroutine 3 false 0 kNone32 0 0 0 []
    0 kNoTypedOrigin 0 [] [mkBlock 0 [] [i; new_inst Op.Ret] Shared false kNoCopyRegion kNoBlock] 1.

Definition edge_module (f : Function) : IlModule :=
  mkModule (bytes "m") [bytes "k"] 1 0 1 [mkFamily (bytes "C") [mkField 0 true]] [0] [] [] [] [f] [] [bytes "a.js"] [].

Definition prop_get (chain : Z) (regrow : bool) : Instruction :=
  mkInst Op.PropGet Ty.Dynamic 1 [0] 0 0 0 Ty.Void 0 0 false false false false false false false false 0 0
    kNoFamily 0 false regrow kNoTransitionRun 0 0 kNoDefineAddCell kNoDirectTarget kNoDirectTarget
    0 0 false false 0 chain kNoEnvHops 0 (mkSpan 10 20 0) no_target no_target.

Definition plain_param (c : option Z) : Param := mkParam (bytes "p") Ty.Dynamic false 0 c.

(** A chain hint with [kChainNotOwnFirst], which feedback sets, is written and then refused. *)
Example chain_hint_refused :
  deserializeModule (serializeModule (edge_module (edge_function (prop_get (1 + 16) false) []))) = inr "malformed IL: bad inline-cache chain"%string.
Proof. by vm_compute. Qed.

(** A constant parameter past 32 bits is written whole and refused. *)
Example wide_constant_refused :
  deserializeModule (serializeModule (edge_module (edge_function (prop_get 1 false) [plain_param (Some (2 ^ 31))]))) = inr "malformed IL: i32 out of range"%string.
Proof. by vm_compute. Qed.

(** [staticRegrow] is lost. *)
Example regrow_lost :
  let m := edge_module (edge_function (prop_get 1 true) []) in
  deserializeModule (serializeModule m) = inl (edge_module (edge_function (prop_get 1 false) [])).
Proof. by vm_compute. Qed.

Lemma edge_fits c : codable_param (plain_param c) -> let m := edge_module (edge_function (prop_get 1 true) [plain_param c]) in fits m /\ codable m.
Proof.
  intros Hc m. split.
  - repeat first [constructor | split | progress cbn | done | lia].
    all: unfold codable_param in Hc; cbn in *; destruct c; cbn in *; lia || done.
  - repeat constructor; cbn; lia || done.
Qed.

Lemma module_roundtrip_witness : let m := edge_module (edge_function (prop_get 1 true) [plain_param (Some 7)]) in
  deserializeModule (serializeModule m) = inl (saved m).
Proof. apply (module_roundtrip (edge_module (edge_function (prop_get 1 true) [plain_param (Some 7)]))); apply edge_fits; unfold codable_param; cbn; lia. Defined.

Lemma cut_encoding_refused_witness : let m := edge_module (edge_function (prop_get 1 true) [plain_param (Some 7)]) in
  (exists why, deserializeModule (removelast (serializeModule m)) = inr why) /\
  deserializeModule (serializeModule m ++ [0]) = inr "malformed IL: trailing bytes"%string.
Proof.
  intros m. destruct (cut_encoding_refused m (removelast (serializeModule m)) [List.last (serializeModule m) 0]) as [H _]; [apply edge_fits; unfold codable_param; cbn; lia..|done|].
  split; [apply H; by apply app_removelast_last|].
  apply (cut_encoding_refused m [] [0]); [apply edge_fits; unfold codable_param; cbn; lia..|done].
Defined.
