(* ===== verification/IlGraph.v ===== *)
(** * Depth-first order (src/src/il/verifier.cpp, verifier_proofs.cpp)

    The reverse postorder of a control flow graph, from the explicit stack the verifier
    walks it with: it lists the blocks the entry reaches, each once and after one of its
    predecessors.  A block is its index; [UINT32_MAX] is [None]. *)
From stdpp Require Import relations.
From S2P Require Import Prelude.
Local Open Scope nat_scope.

(** One summand taken out of a sum. *)
Lemma sum_without (f g : nat -> nat) l s : NoDup l -> s ∈ l -> (forall b, b ∈ l -> b <> s -> g b = f b) -> g s = 0 ->
  sum_list (map f l) = f s + sum_list (map g l).
Proof.
  intros Hnd. induction Hnd as [|x l Hx Hnd IH]; intros Hs Hg H0; [by apply not_elem_of_nil in Hs|]. cbn. apply elem_of_cons in Hs as [->|Hs].
  - rewrite H0. assert (map f l = map g l) as ->; [|lia]. apply map_ext_in. intros b Hb%list_elem_of_In. symmetry. apply Hg; [by right|]. by intros ->.
  - rewrite (Hg x) by (by left || by intros ->). rewrite IH; [lia|done| |done]. intros b Hb. apply Hg. by right.
Qed.

Section Graph.
Context (succs : list (list nat)).

Definition succs_of (b : nat) : list nat := default [] (succs !! b).

Definition edge (a b : nat) : Prop := b ∈ succs_of a.
Definition reachable : nat -> nat -> Prop := rtc edge.

(** ** The walk *)

Record Walk := mkWalk { seen : list bool; postorder : list nat; dfsStack : list (nat * nat) }.

Definition is_seen (s : list bool) (b : nat) : bool := default true (s !! b).

Definition dfs_step (w : Walk) : Walk :=
  match dfsStack w with
  | [] => w
  | (b, next) :: rest =>
      match succs_of b !! next with
      | Some s =>
          if is_seen (seen w) s then mkWalk (seen w) (postorder w) ((b, S next) :: rest)
          else mkWalk (<[s := true]> (seen w)) (postorder w) ((s, O) :: (b, S next) :: rest)
      | None => mkWalk (seen w) (postorder w ++ [b]) rest
      end
  end.

Definition dfs_start : Walk := mkWalk (<[O := true]> (replicate (length succs) false)) [] [(O, O)].

(** What is left to do: two turns for a block that was not met and one for each edge. *)
Definition weight (b : nat) : nat := length (succs_of b) + 2.
Definition dfs_fuel : nat := sum_list (map weight (seq 0 (length succs))) + 1.

Definition dfs : Walk := while dfs_fuel (fun w => negb (empty (dfsStack w))) dfs_step dfs_start.

Definition rpo : list nat := rev (postorder dfs).

Fixpoint index_of (l : list nat) (b : nat) : option nat :=
  match l with [] => None | x :: l => if x =? b then Some O else option_map S (index_of l b) end.

(** [rpoIndex[rpo[i]] = i], over [UINT32_MAX]. *)
Definition rpoIndex : list (option nat) := map (index_of rpo) (seq 0 (length succs)).
Definition rpo_at (b : nat) : option nat := default None (rpoIndex !! b).

(** ** What it finds *)

(** The blocks of the stack, bottom first, then those that are done, latest first. *)
Definition front (w : Walk) : list nat := rev (map fst (dfsStack w)) ++ rev (postorder w).

(** Every block but the first has a predecessor before it. *)
Definition after_pred (l : list nat) : Prop :=
  forall l1 x l2, l = l1 ++ x :: l2 -> l1 <> [] -> exists p, p ∈ l1 /\ edge p x.

Record walk_ok (w : Walk) : Prop := {
  walk_len : length (seen w) = length succs;
  walk_nodup : NoDup (front w);
  walk_seen b : b < length succs -> (seen w !! b = Some true <-> b ∈ front w);
  walk_bound : Forall (fun b => b < length succs) (front w);
  walk_first : head (front w) = Some O;
  walk_reach : Forall (reachable O) (front w);
  walk_after : after_pred (front w);
  walk_stack : Forall (fun x => Forall (fun s => s ∈ front w) (take (snd x) (succs_of (fst x)))) (dfsStack w);
  walk_done : Forall (fun b => Forall (fun s => s ∈ front w) (succs_of b)) (postorder w) }.

Context (Hn : 0 < length succs) (Hin : forall b, Forall (fun s => s < length succs) (succs_of b)).

Lemma start_ok : walk_ok dfs_start.
Proof.
  unfold dfs_start. constructor; unfold front; cbn.
  - by rewrite length_insert, length_replicate.
  - apply NoDup_singleton.
  - intros b Hb. destruct (decide (b = O)) as [->|Hne].
    + rewrite list_lookup_insert_eq by (by rewrite length_replicate). split; [intros _; by apply list_elem_of_singleton|done].
    + rewrite list_lookup_insert_ne, lookup_replicate_2 by done. split; [done|]. intros ?%list_elem_of_singleton. done.
  - by repeat constructor.
  - done.
  - repeat constructor.
  - intros l1 x l2 E Hne. destruct l1 as [|y [|? ?]]; [done|by injection E|done].
  - by repeat constructor.
  - constructor.
Qed.

Lemma insert_after_pred l1 l2 b s : after_pred (l1 ++ l2) -> b ∈ l1 -> edge b s -> after_pred (l1 ++ s :: l2).
Proof.
  intros H Hb He k1 x k2 E Hne. destruct (app_eq_inv _ _ _ _ E) as [(k & -> & E2)|(k & -> & E2)].
  - destruct k as [|y k]; cbn in E2.
    + injection E2 as <- <-. rewrite app_nil_r in *. by exists b.
    + injection E2 as -> ->. destruct (H k1 y (k ++ l2)) as (p & ? & ?); [by rewrite <- app_assoc|done|]. by exists p.
  - destruct k as [|y k]; cbn in E2.
    + injection E2 as <- <-. rewrite app_nil_r. by exists b.
    + injection E2 as <- ->. destruct (H (l1 ++ k) x k2) as (p & Hp & ?); [by rewrite <- app_assoc|by destruct l1; [by apply not_elem_of_nil in Hb|]|].
      exists p. split; [|done]. apply elem_of_app in Hp as [?|?]; apply elem_of_app; [by left|right; by right].
Qed.

Lemma front_push w b next rest s : dfsStack w = (b, next) :: rest ->
  exists l1, front w = l1 ++ rev (postorder w) /\ b ∈ l1 /\
    forall n s' p, front (mkWalk s' p ((s, O) :: (b, n) :: rest)) = l1 ++ s :: rev p.
Proof.
  intros E. exists (rev (map fst ((b, next) :: rest))). unfold front. rewrite E. split_and!; [done| |].
  - cbn. apply elem_of_app. right. by apply list_elem_of_singleton.
  - intros n s' p. cbn. by rewrite <- !app_assoc.
Qed.

Lemma front_advance w b next rest : dfsStack w = (b, next) :: rest -> front (mkWalk (seen w) (postorder w) ((b, S next) :: rest)) = front w.
Proof. intros E. unfold front. by rewrite E. Qed.

Lemma front_pop w b next rest : dfsStack w = (b, next) :: rest -> front (mkWalk (seen w) (postorder w ++ [b]) rest) = front w.
Proof. intros E. unfold front. rewrite E. cbn. by rewrite rev_app_distr, <- app_assoc. Qed.

Lemma stack_in_front w b next rest : dfsStack w = (b, next) :: rest -> b ∈ front w.
Proof. intros E. unfold front. rewrite E. cbn. rewrite !elem_of_app. left; right. by apply list_elem_of_singleton. Qed.

Lemma Forall_mono {A} (P Q : A -> Prop) l : Forall P l -> (forall x, P x -> Q x) -> Forall Q l.
Proof. intros H HPQ. by eapply Forall_impl. Qed.

Lemma step_walk_ok w : walk_ok w -> walk_ok (dfs_step w).
Proof.
  intros Hok. unfold dfs_step. destruct (dfsStack w) as [|[b next] rest] eqn:Es; [done|].
  pose proof (stack_in_front _ _ _ _ Es) as Hb. destruct Hok as [Hl Hnd Hs Hbd Hf Hr Ha Hst Hdn]. rewrite Es in Hst.
  apply Forall_cons in Hst as [Hst0 Hst]. cbn in Hst0.
  destruct (succs_of b !! next) as [s|] eqn:En.
  - assert (edge b s) as He by (by eapply list_elem_of_lookup_2). assert (s < length succs) as Hsn by (pose proof (Hin b) as Hb'; rewrite Forall_forall in Hb'; by apply Hb').
    destruct (lookup_lt_is_Some_2 (seen w) s ltac:(lia)) as [v Hv]. unfold is_seen. rewrite Hv. cbn. destruct v.
    + assert (s ∈ front w) as Hsf by (by apply Hs). constructor; cbn [seen postorder dfsStack]; rewrite ?(front_advance _ _ _ _ Es); try done.
      apply Forall_cons. split; [|done]. cbn. rewrite (take_S_r _ _ _ En). apply Forall_app. split; [done|by apply Forall_singleton].
    + destruct (front_push w b next rest s Es) as (l1 & El & Hbl & Ef).
      assert (s ∉ front w) as Hnot by (rewrite <- Hs by done; rewrite Hv; congruence).
      assert (forall x, x ∈ front w -> x ∈ l1 ++ s :: rev (postorder w)) as Hmono.
      { intros x. rewrite El, !elem_of_app, elem_of_cons. tauto. }
      constructor; cbn [seen postorder dfsStack]; rewrite ?Ef.
      * by rewrite length_insert.
      * rewrite El in Hnd, Hnot. rewrite <- Permutation_middle. by apply NoDup_cons.
      * intros x Hx. rewrite elem_of_app, elem_of_cons. destruct (decide (x = s)) as [->|Hne].
        -- rewrite list_lookup_insert_eq by lia. tauto.
        -- rewrite list_lookup_insert_ne by done. rewrite (Hs x Hx), El, elem_of_app. tauto.
      * rewrite <- Permutation_middle. apply Forall_cons. split; [done|]. by rewrite <- El.
      * rewrite El in Hf. destruct l1; [by apply not_elem_of_nil in Hbl|done].
      * rewrite <- Permutation_middle. rewrite El in Hr. apply Forall_cons. split; [|done].
        apply rtc_r with b; [|done]. rewrite Forall_forall in Hr. apply Hr, elem_of_app. by left.
      * rewrite El in Ha. by eapply insert_after_pred.
      * apply Forall_cons. split; [constructor|]. apply Forall_cons. split.
        -- cbn. rewrite (take_S_r _ _ _ En). apply Forall_app. split; [by eapply Forall_mono|]. apply Forall_singleton. apply elem_of_app. right. by left.
        -- eapply Forall_mono; [exact Hst|]. intros x Hx. eapply Forall_mono; [exact Hx|exact Hmono].
      * eapply Forall_mono; [exact Hdn|]. intros x Hx. eapply Forall_mono; [exact Hx|exact Hmono].
  - constructor; cbn [seen postorder dfsStack]; rewrite ?(front_pop _ _ _ _ Es); try done.
    apply Forall_app. split; [done|]. apply Forall_singleton. rewrite take_ge in Hst0; [done|]. by apply lookup_ge_None.
Qed.

(** ** It ends *)

Definition unseen_weight (s : list bool) : nat := sum_list (map (fun b => if is_seen s b then 0 else weight b) (seq 0 (length succs))).
Definition left_to_do (w : Walk) : nat :=
  unseen_weight (seen w) + sum_list (map (fun x => length (succs_of (fst x)) - snd x + 1) (dfsStack w)).

Lemma unseen_insert s b : length s = length succs -> s !! b = Some false -> unseen_weight s = weight b + unseen_weight (<[b := true]> s).
Proof.
  intros Hl Hb. pose proof (lookup_lt_Some _ _ _ Hb) as Hlt. unfold unseen_weight.
  rewrite (sum_without (fun x => if is_seen s x then 0 else weight x) (fun x => if is_seen (<[b:=true]> s) x then 0 else weight x) _ b).
  - unfold is_seen at 1. rewrite Hb. done.
  - apply NoDup_seq.
  - apply elem_of_seq. lia.
  - intros x _ Hx. unfold is_seen. by rewrite list_lookup_insert_ne.
  - unfold is_seen. by rewrite list_lookup_insert_eq.
Qed.

Lemma step_less w : walk_ok w -> dfsStack w <> [] -> left_to_do (dfs_step w) < left_to_do w.
Proof.
  intros Hok Hne. unfold dfs_step, left_to_do. destruct (dfsStack w) as [|[b next] rest] eqn:Es; [done|].
  destruct (succs_of b !! next) as [s|] eqn:En; [|cbn; lia]. pose proof (lookup_lt_Some _ _ _ En).
  assert (s < length succs) as Hsn by (pose proof (Hin b) as Hb'; rewrite Forall_forall in Hb'; by eapply Hb', list_elem_of_lookup_2).
  destruct (lookup_lt_is_Some_2 (seen w) s) as [v Hv]; [by rewrite (walk_len _ Hok)|]. unfold is_seen. rewrite Hv. cbn. destruct v; cbn; [lia|].
  rewrite (unseen_insert (seen w) s) by (done || apply Hok). unfold weight. lia.
Qed.

Lemma dfs_done : walk_ok dfs /\ dfsStack dfs = [].
Proof.
  destruct (while_inv walk_ok left_to_do dfs_fuel (fun w => negb (empty (dfsStack w))) dfs_step dfs_start) as [H1 H2].
  - apply start_ok.
  - intros w Hw Hne. split; [by apply step_walk_ok|]. apply step_less; [done|]. by destruct (dfsStack w).
  - unfold dfs_fuel, left_to_do, dfs_start, unseen_weight. cbn [seen dfsStack map sum_list fst snd].
    rewrite (sum_without weight (fun b => if is_seen (<[0:=true]> (replicate (length succs) false)) b then 0 else weight b) _ 0).
    + unfold weight at 2. generalize (map (fun b => if is_seen (<[0:=true]> (replicate (length succs) false)) b then 0 else weight b) (seq 0 (length succs))). intros l. unfold sum_list. cbn. unfold weight. lia.
    + apply NoDup_seq.
    + apply elem_of_seq. lia.
    + intros b Hlt%elem_of_seq Hb. unfold is_seen. rewrite list_lookup_insert_ne by done. by rewrite lookup_replicate_2 by lia.
    + unfold is_seen. rewrite list_lookup_insert_eq; [done|]. by rewrite length_replicate.
  - split; [exact H1|]. change (negb (empty (dfsStack dfs)) = false) in H2. by destruct (dfsStack dfs).
Qed.

Lemma rpo_front : front dfs = rpo.
Proof. unfold front. by rewrite (proj2 dfs_done). Qed.

Lemma rpo_nodup : NoDup rpo.
Proof. rewrite <- rpo_front. apply dfs_done. Qed.

Lemma rpo_first : head rpo = Some O.
Proof. rewrite <- rpo_front. apply dfs_done. Qed.

Lemma rpo_after : after_pred rpo.
Proof. rewrite <- rpo_front. apply dfs_done. Qed.

(** It lists what the entry reaches. *)
Lemma rpo_reachable b : b ∈ rpo <-> reachable O b.
Proof.
  destruct dfs_done as [Hok Hst]. split.
  - intros Hb. rewrite <- rpo_front in Hb. pose proof (walk_reach _ Hok) as H. rewrite Forall_forall in H. by apply H.
  - intros Hr. revert b Hr. apply (rtc_ind_r (R := edge) (fun b => b ∈ rpo) O).
    + pose proof rpo_first as H. destruct rpo; [done|]. injection H as ->. by left.
    + intros x y _ He Hx. pose proof (walk_done _ Hok) as H. rewrite Forall_forall in H. specialize (H x).
      assert (x ∈ postorder dfs) as Hp by (unfold rpo in Hx; by rewrite list_elem_of_In, <- in_rev, <- list_elem_of_In in Hx).
      specialize (H Hp). rewrite Forall_forall in H. rewrite <- rpo_front. by apply H.
Qed.

Lemma rpo_bound b : b ∈ rpo -> b < length succs.
Proof. rewrite <- rpo_front. destruct dfs_done as [Hok _]. pose proof (walk_bound _ Hok) as H. rewrite Forall_forall in H. apply H. Qed.

Lemma index_of_spec l b i : NoDup l -> index_of l b = Some i <-> l !! i = Some b.
Proof.
  intros Hnd. revert i. induction Hnd as [|x l Hx Hnd IH]; intros i; [done|]. cbn. destruct (Nat.eqb_spec x b) as [->|Hne].
  - split; [intros [= <-]; done|]. destruct i; [done|]. cbn. intros H. destruct Hx. by eapply list_elem_of_lookup_2.
  - destruct i; cbn; [split; [|congruence]; by destruct (index_of l b)|]. rewrite <- IH. destruct (index_of l b); cbn; [|done]. split; congruence.
Qed.

Lemma rpo_at_spec b i : rpo_at b = Some i <-> rpo !! i = Some b.
Proof.
  rewrite <- (index_of_spec rpo b i rpo_nodup). unfold rpo_at, rpoIndex. rewrite list_lookup_fmap.
  destruct (decide (b < length succs)) as [Hlt|Hge]; [by rewrite lookup_seq_lt|].
  rewrite lookup_seq_ge by lia. cbn. split; [done|]. rewrite index_of_spec by apply rpo_nodup. intros H. destruct Hge. apply rpo_bound. by eapply list_elem_of_lookup_2.
Qed.

Lemma rpo_at_reachable b : reachable O b <-> exists i, rpo_at b = Some i.
Proof. rewrite <- rpo_reachable, list_elem_of_lookup. by setoid_rewrite rpo_at_spec. Qed.

Lemma rpo_at_inj a b i : rpo_at a = Some i -> rpo_at b = Some i -> a = b.
Proof. rewrite !rpo_at_spec. congruence. Qed.

Lemma rpo_at_0 : rpo_at O = Some O.
Proof. apply rpo_at_spec. pose proof rpo_first as H. by destruct rpo. Qed.

(** A reachable block past the first comes after one of its predecessors. *)
Lemma forward_pred b i : rpo_at b = Some i -> b <> O -> exists p j, edge p b /\ rpo_at p = Some j /\ j < i.
Proof.
  intros Hi Hb. pose proof (proj1 (rpo_at_spec b i) Hi) as Hl. pose proof (take_drop_middle _ _ _ Hl) as E. symmetry in E.
  destruct (rpo_after _ _ _ E) as (p & Hp & He).
  - intros E0. rewrite E0 in E. pose proof rpo_first as H. rewrite E in H. cbn in H. congruence.
  - apply list_elem_of_lookup in Hp as [j Hj]. pose proof (lookup_lt_Some _ _ _ Hj) as Hlt. rewrite length_take in Hlt.
    exists p, j. split_and!; [done| |lia]. apply rpo_at_spec. rewrite lookup_take in Hj; case_decide; done || lia.
Qed.
End Graph.
