(* ===== verification/IlDominators.v ===== *)
(** * Dominators (src/src/il/verifier.cpp, verifier_proofs.cpp)

    The Cooper-Harvey-Kennedy computation the verifier makes twice: immediate dominators
    in reverse postorder, each the meet of the predecessors that have one, over and over
    until a pass changes nothing.  The file proves that the passes end and that the tree
    they leave is dominance: a block is above another exactly when every path from the
    entry goes through it.  [kNoBlock] is [None].

    The passes are not a textbook fixed point: an update moves at once everything below
    the block it is made at, so the sets of blocks above one another shrink only because
    of the order of the updates.  [pass_ok] says what order that is. *)
From stdpp Require Import relations.
From S2P Require Import Prelude IlGraph.
Local Open Scope nat_scope.

(** A path from the entry along a relation, with its blocks; one block dominates another
    when every path to the second goes through it. *)
Inductive path (R : nat -> nat -> Prop) : list nat -> nat -> Prop :=
  | path_entry : path R [O] O
  | path_edge l b c : path R l b -> R b c -> path R (l ++ [c]) c.

Definition Dom (R : nat -> nat -> Prop) (a b : nat) : Prop := forall l, path R l b -> a ∈ l.

Lemma path_iff (R R' : nat -> nat -> Prop) l b : (forall x y, R x y <-> R' x y) -> path R l b <-> path R' l b.
Proof. intros H. split; induction 1; [constructor|eapply path_edge; [done|by apply H]|constructor|eapply path_edge; [done|by apply H]]. Qed.

Lemma Dom_iff (R R' : nat -> nat -> Prop) a b : (forall x y, R x y <-> R' x y) -> Dom R a b <-> Dom R' a b.
Proof. intros H. unfold Dom. split; intros HD l Hl; apply HD; by apply (path_iff R R'). Qed.

Section Dominators.
Context (succs preds : list (list nat)).

Definition preds_of (b : nat) : list nat := default [] (preds !! b).
Definition rpo_index (b : nat) : option nat := rpo_at succs b.

(** [>] on indices, of which [UINT32_MAX] is the greatest. *)
Definition gt_index (a b : option nat) : bool :=
  match a, b with Some x, Some y => y <? x | None, Some _ => true | _, None => false end.

Definition up (idom : list (option nat)) (b : nat) : option nat := default None (idom !! b).

(** One of the two inner loops: [None] inside is [kNoBlock], outside the lack of fuel. *)
Fixpoint climb (fuel : nat) (idom : list (option nat)) (b other : nat) : option (option nat) :=
  match fuel with
  | O => None
  | S fuel =>
      if gt_index (rpo_index b) (rpo_index other) then
        match up idom b with None => Some None | Some b => climb fuel idom b other end
      else Some (Some b)
  end.

Fixpoint intersectIdom (fuel : nat) (idom : list (option nat)) (b1 b2 : nat) : option nat :=
  match fuel with
  | O => None
  | S fuel =>
      if b1 =? b2 then Some b1
      else
        let? r1 := climb (length succs) idom b1 b2 in
        match r1 with
        | None => Some b2
        | Some b1 =>
            let? r2 := climb (length succs) idom b2 b1 in
            match r2 with None => Some b1 | Some b2 => intersectIdom fuel idom b1 b2 end
        end
  end.

Definition meet_fuel : nat := 2 * length succs.

Definition unassigned (o : option nat) : bool := match o with None => true | Some _ => false end.

Fixpoint newIdom (idom : list (option nat)) (ps : list nat) (acc : option nat) : option (option nat) :=
  match ps with
  | [] => Some acc
  | p :: ps =>
      if unassigned (rpo_index p) || unassigned (up idom p) then newIdom idom ps acc
      else match acc with
           | None => newIdom idom ps (Some p)
           | Some a => let? z := intersectIdom meet_fuel idom a p in newIdom idom ps (Some z)
           end
  end.

(** The body of the loop over the order. *)
Definition dom_update (idom : list (option nat)) (b : nat) : option (list (option nat) * bool) :=
  if b =? 0 then Some (idom, false)
  else
    let? new := newIdom idom (preds_of b) None in
    match new with
    | Some z => if bool_decide (up idom b = Some z) then Some (idom, false) else Some (<[b := Some z]> idom, true)
    | None => Some (idom, false)
    end.

Fixpoint dom_pass (bs : list nat) (idom : list (option nat)) (changed : bool) : option (list (option nat) * bool) :=
  match bs with
  | [] => Some (idom, changed)
  | b :: bs => let? (idom, c) := dom_update idom b in dom_pass bs idom (changed || c)
  end.

Fixpoint dom_loop (fuel : nat) (idom : list (option nat)) : option (list (option nat)) :=
  match fuel with
  | O => None
  | S fuel => let? (idom, changed) := dom_pass (rpo succs) idom false in if changed : bool then dom_loop fuel idom else Some idom
  end.

Definition dom_fuel : nat := length succs * length succs + 1.

Definition computeDominators : option (list (option nat)) :=
  let? idom := dom_loop dom_fuel (<[O := Some O]> (replicate (length succs) None)) in Some (<[O := None]> idom).

(** [for (cur = idom[b]; cur != kNoBlock; cur = idom[cur]) if (cur == a) ...] *)
Fixpoint dom_walk (fuel : nat) (idom : list (option nat)) (a : nat) (cur : option nat) : bool :=
  match fuel, cur with
  | S fuel, Some c => if c =? a then true else dom_walk fuel idom a (up idom c)
  | _, _ => false
  end.

(** The two tests differ in what they answer of a block that is not reached. *)
Definition dominates (idom : list (option nat)) (a b : nat) : bool :=
  if a =? b then true
  else if length idom <=? b then false
  else if unassigned (rpo_index b) then true
  else dom_walk (length succs) idom a (up idom b).

Definition dominatesBlock (idom : list (option nat)) (a b : nat) : bool :=
  if a =? b then true
  else if (length idom <=? b) || unassigned (rpo_index b) then false
  else dom_walk (length succs) idom a (up idom b).

(** ** The tree *)

Context (Hn : 0 < length succs) (Hin : forall b, Forall (fun s => s < length succs) (succs_of succs b)).
Context (Hpreds : forall p b, p ∈ preds_of b <-> edge succs p b).
#[local] Notation edge := (IlGraph.edge succs).
#[local] Notation path := (path (IlGraph.edge succs)).
#[local] Notation Dom := (Dom (IlGraph.edge succs)).
#[local] Notation at_ := (IlGraph.rpo_at succs).

Inductive Anc (idom : list (option nat)) (a : nat) : nat -> Prop :=
  | anc_refl : up idom a <> None -> Anc idom a a
  | anc_up b p : b <> O -> up idom b = Some p -> Anc idom a p -> Anc idom a b.

Definition assigned (idom : list (option nat)) (b : nat) : Prop := up idom b <> None.

Record tree_ok (idom : list (option nat)) : Prop := {
  tree_len : length idom = length succs;
  tree_root : up idom O = Some O;
  tree_up b p : b <> O -> up idom b = Some p -> assigned idom p /\ exists i j, at_ b = Some i /\ at_ p = Some j /\ j < i }.

Section Tree.
Context (idom : list (option nat)) (Hok : tree_ok idom).
#[local] Notation Anc := (Anc idom).

Lemma assigned_at b : assigned idom b -> exists i, at_ b = Some i.
Proof.
  intros Hb. destruct (decide (b = O)) as [->|Hne]; [exists O; by apply rpo_at_0|]. unfold assigned in Hb. destruct (up idom b) as [p|] eqn:E; [|done].
  destruct (tree_up _ Hok b p Hne E) as (_ & i & j & ? & _). by exists i.
Qed.

Lemma anc_assigned a b : Anc a b -> assigned idom a /\ assigned idom b.
Proof. induction 1 as [|b p Hb Hu _ [IH1 IH2]]; [done|]. split; [done|]. unfold assigned. by rewrite Hu. Qed.

Lemma anc_index a b i j : Anc a b -> at_ a = Some i -> at_ b = Some j -> i <= j.
Proof.
  intros H. revert j. induction H as [|b p Hb Hu _ IH]; intros j Hi Hj; [rewrite Hi in Hj; injection Hj; lia|].
  destruct (tree_up _ Hok b p Hb Hu) as (_ & i' & j' & E1 & E2 & Hlt). specialize (IH j' Hi E2). rewrite Hj in E1. injection E1 as ->. lia.
Qed.

Lemma anc_lt a b i j : Anc a b -> a <> b -> at_ a = Some i -> at_ b = Some j -> i < j.
Proof.
  intros H Hne Hi Hj. pose proof (anc_index a b i j H Hi Hj) as Hle. apply Nat.lt_eq_cases in Hle as [| ->]; [done|]. destruct Hne. by apply (rpo_at_inj succs Hn Hin a b j).
Qed.

Lemma anc_trans a b c : Anc a b -> Anc b c -> Anc a c.
Proof. intros H1 H2. induction H2 as [|c p Hc Hu _ IH]; [done|]. by eapply anc_up. Qed.

Lemma anc_root b : assigned idom b -> Anc O b.
Proof.
  intros Hb. destruct (assigned_at b Hb) as [i Hi]. revert b Hb Hi. induction (lt_wf i) as [i _ IH]. intros b Hb Hi.
  destruct (decide (b = O)) as [->|Hne]; [by apply anc_refl|]. destruct (up idom b) as [p|] eqn:E; [|done].
  destruct (tree_up _ Hok b p Hne E) as (Hp & i' & j & E1 & E2 & Hlt). rewrite Hi in E1. injection E1 as <-. eapply anc_up; [done|exact E|]. by apply (IH j).
Qed.

(** Off the block itself, what is above it is above its parent. *)
Lemma anc_parent a b p : up idom b = Some p -> b <> O -> a <> b -> Anc a b <-> Anc a p.
Proof.
  intros E Hb Hne. split; [|by apply anc_up]. intros H. destruct H as [|b p' _ Hu Hp]; [done|]. congruence.
Qed.

Lemma anc_total a b c : Anc a c -> Anc b c -> Anc a b \/ Anc b a.
Proof.
  intros Ha. revert b. induction Ha as [Ha|c p Hc Hu Hap IH]; intros b Hb; [by right|]. destruct Hb as [Hb|c p' _ Hu' Hbp].
  - left. by eapply anc_up.
  - apply IH. congruence.
Qed.

(** Two above one block, the nearer to the root is above the other. *)
Lemma anc_nearer a b c i j : Anc a c -> Anc b c -> at_ a = Some i -> at_ b = Some j -> i <= j -> Anc a b.
Proof.
  intros Ha Hb Hi Hj Hle. destruct (anc_total a b c Ha Hb) as [|H]; [done|]. pose proof (anc_index b a j i H Hj Hi).
  assert (i = j) as -> by lia. rewrite (rpo_at_inj succs Hn Hin a b j) by done. apply anc_refl. apply (anc_assigned b c Hb).
Qed.

Lemma block_lt b i : at_ b = Some i -> b < length succs.
Proof. intros H%(rpo_at_spec succs Hn Hin). apply (rpo_bound succs Hn Hin). by eapply list_elem_of_lookup_2. Qed.

Lemma at_lt b i : at_ b = Some i -> i < length succs.
Proof.
  intros H. apply (rpo_at_spec succs Hn Hin) in H. apply lookup_lt_Some in H. 
  assert (length (rpo succs) <= length (seq 0 (length succs))) as Hl; [|rewrite length_seq in Hl; lia].
  apply submseteq_length, NoDup_submseteq; [by apply rpo_nodup|]. intros x Hx. apply elem_of_seq. pose proof (rpo_bound succs Hn Hin x Hx). lia.
Qed.

Lemma climb_ok fuel b other i j : assigned idom b -> assigned idom other -> at_ b = Some i -> at_ other = Some j -> i < fuel ->
  exists b' i', climb fuel idom b other = Some (Some b') /\ assigned idom b' /\ at_ b' = Some i' /\ i' <= j /\ i' <= i /\
    forall a, Anc a other -> (Anc a b <-> Anc a b').
Proof.
  revert b i. induction fuel as [|fuel IH]; intros b i Hb Ho Hi Hj Hlt; [lia|]. cbn [climb]. unfold rpo_index at 1 2. rewrite Hi, Hj. unfold gt_index.
  destruct (Nat.ltb_spec j i) as [Hji|Hij]; [|exists b, i; by split_and!; try lia].
  assert (b <> O) as Hb0 by (intros ->; rewrite (rpo_at_0 succs Hn Hin) in Hi; injection Hi; lia).
  unfold assigned in Hb. destruct (up idom b) as [p|] eqn:Eu; [|done].
  destruct (tree_up _ Hok b p Hb0 Eu) as (Hp & i0 & k & E1 & E2 & Hk). rewrite Hi in E1. injection E1 as <-.
  destruct (IH p k Hp Ho E2 Hj ltac:(lia)) as (b' & i' & E & ? & ? & ? & ? & Hspec). exists b', i'. split_and!; try done; [lia|].
  intros a Ha. rewrite <- (Hspec a Ha). apply anc_parent; [done..|]. intros ->. pose proof (anc_index b other i j Ha Hi Hj). lia.
Qed.

Lemma intersect_ok fuel : forall b1 b2 i1 i2, assigned idom b1 -> assigned idom b2 -> at_ b1 = Some i1 -> at_ b2 = Some i2 -> i1 + i2 < fuel ->
  exists z, intersectIdom fuel idom b1 b2 = Some z /\ assigned idom z /\ forall a, Anc a z <-> Anc a b1 /\ Anc a b2.
Proof.
  induction fuel as [|fuel IH]; intros b1 b2 i1 i2 H1 H2 E1 E2 Hf; [lia|]. cbn [intersectIdom]. destruct (Nat.eqb_spec b1 b2) as [->|Hne].
  { exists b2. split_and!; [done|done|]. tauto. }
  assert (i1 <> i2) as Hi by (intros ->; by apply Hne, (rpo_at_inj succs Hn Hin b1 b2 i2)).
  destruct (climb_ok (length succs) b1 b2 i1 i2 H1 H2 E1 E2 (at_lt _ _ E1)) as (c1 & k1 & -> & Hc1 & Ek1 & Hk1 & Hk1' & Hs1).
  destruct (climb_ok (length succs) b2 c1 i2 k1 H2 Hc1 E2 Ek1 (at_lt _ _ E2)) as (c2 & k2 & -> & Hc2 & Ek2 & Hk2 & Hk2' & Hs2).
  destruct (IH c1 c2 k1 k2 Hc1 Hc2 Ek1 Ek2 ltac:(lia)) as (z & -> & Hz & Hspec). exists z. split_and!; [done|done|]. intros a. rewrite Hspec. split.
  - intros [Ha1 Ha2]. assert (Anc a b2) as Hb2 by (by apply Hs2). split; [by apply Hs1|done].
  - intros [Ha1 Ha2]. assert (Anc a c1) as Hc by (by apply Hs1). split; [done|by apply Hs2].
Qed.

(** The meet of the predecessors that have a parent. *)
Lemma newIdom_acc ps : forall a, assigned idom a ->
  exists z, newIdom idom ps (Some a) = Some (Some z) /\ assigned idom z /\
    forall x, Anc x z <-> Anc x a /\ forall p, p ∈ ps -> assigned idom p -> Anc x p.
Proof.
  induction ps as [|p ps IH]; intros a Ha; cbn [newIdom].
  { exists a. split_and!; [done|done|]. intros x. split; [|tauto]. intros H. split; [done|]. intros p Hp. by apply not_elem_of_nil in Hp. }
  destruct (unassigned (rpo_index p) || unassigned (up idom p)) eqn:Eu.
  - destruct (IH a Ha) as (z & -> & Hz & Hs). exists z. split_and!; [done|done|]. intros x. rewrite Hs. split; intros [H1 H2]; (split; [done|]).
    + intros q [->|Hq]%elem_of_cons Hqa; [|by apply H2]. destruct (assigned_at p Hqa) as [i Hi]. unfold rpo_index in Eu. rewrite Hi in Eu. unfold assigned in Hqa. by destruct (up idom p).
    + intros q Hq. apply H2. by right.
  - apply orb_false_iff in Eu as [Er Ep]. assert (assigned idom p) as Hp by (unfold assigned; by destruct (up idom p)).
    destruct (assigned_at a Ha) as [i Hi], (assigned_at p Hp) as [j Hj]. pose proof (at_lt _ _ Hi). pose proof (at_lt _ _ Hj).
    destruct (intersect_ok meet_fuel a p i j Ha Hp Hi Hj) as (z & -> & Hz & Hs); [unfold meet_fuel; lia|].
    destruct (IH z Hz) as (z' & -> & Hz' & Hs'). exists z'. split_and!; [done|done|]. intros x. rewrite Hs', Hs. split.
    + intros [[H1 H2] H3]. split; [done|]. intros q [->|Hq]%elem_of_cons Hqa; [done|by apply H3].
    + intros [H1 H2]. split_and!; [done|apply H2; [by left|done]|]. intros q Hq. apply H2. by right.
Qed.

Lemma newIdom_ok ps : exists r, newIdom idom ps None = Some r /\
  match r with
  | None => forall p, p ∈ ps -> ~ assigned idom p
  | Some z => assigned idom z /\ (exists p, p ∈ ps /\ assigned idom p) /\ forall x, Anc x z <-> forall p, p ∈ ps -> assigned idom p -> Anc x p
  end.
Proof.
  induction ps as [|p ps IH]; cbn [newIdom]. { exists None. split; [done|]. intros p Hp. by apply not_elem_of_nil in Hp. }
  destruct (unassigned (rpo_index p) || unassigned (up idom p)) eqn:Eu.
  - assert (~ assigned idom p) as Hp.
    { intros Hpa. destruct (assigned_at p Hpa) as [i Hi]. unfold rpo_index in Eu. rewrite Hi in Eu. unfold assigned in Hpa. by destruct (up idom p). }
    destruct IH as (r & -> & Hr). exists r. split; [done|]. destruct r as [z|].
    + destruct Hr as (Hz & (q & Hq & Hqa) & Hs). split_and!; [done|exists q; split; [by right|done]|]. intros x. rewrite Hs. split.
      * intros H q' [->|Hq']%elem_of_cons; [done|by apply H].
      * intros H q' Hq'. apply H. by right.
    + intros q [->|Hq]%elem_of_cons; [done|by apply Hr].
  - apply orb_false_iff in Eu as [Er Ep]. assert (assigned idom p) as Hp by (unfold assigned; by destruct (up idom p)).
    destruct (newIdom_acc ps p Hp) as (z & -> & Hz & Hs). exists (Some z). split; [done|]. split_and!; [done|exists p; split; [by left|done]|].
    intros x. rewrite Hs. split.
    + intros [H1 H2] q [->|Hq]%elem_of_cons Hqa; [done|by apply H2].
    + intros H. split; [apply H; [by left|done]|]. intros q Hq. apply H. by right.
Qed.
End Tree.

(** ** Dominance *)

Lemma path_reachable l b : path l b -> reachable succs O b.
Proof. induction 1 as [|l b c _ IH He]; [apply rtc_refl|by eapply rtc_r]. Qed.

Lemma reachable_path b : reachable succs O b -> exists l, path l b.
Proof.
  intros H. revert b H. apply (rtc_ind_r (R := edge) (fun b => exists l, path l b) O); [exists [O]; constructor|].
  intros x y _ He [l Hl]. exists (l ++ [y]). by eapply path_edge.
Qed.

Lemma dom_pred a b p : Dom a b -> a <> b -> edge p b -> Dom a p.
Proof. intros H Hne He l Hl. specialize (H _ (path_edge _ _ _ _ Hl He)). apply elem_of_app in H as [H|H%list_elem_of_singleton]; done. Qed.

(** ** A pass *)

(** Where a pass stands at position [k] of the order: what the tree says of the blocks
    before [k] holds of all their forward predecessors; what it says after [k], of blocks
    at [k] and later. *)
Record pass_ok (idom : list (option nat)) (k : nat) : Prop := {
  pass_tree : tree_ok idom;
  pass_before b i : at_ b = Some i -> i < k -> assigned idom b;
  pass_closed x c : c <> O -> assigned idom c -> (forall p, p ∈ preds_of c -> assigned idom p -> Anc idom x p) -> Anc idom x c;
  pass_low x c p i j : at_ c = Some i -> i < k -> Anc idom x c -> x <> c -> edge p c -> at_ p = Some j -> j < i -> Anc idom x p;
  pass_high x c p i j h : at_ c = Some i -> at_ x = Some h -> k <= h -> Anc idom x c -> x <> c -> edge p c -> at_ p = Some j -> j < i -> Anc idom x p;
  pass_dom x c : assigned idom c -> Dom x c -> Anc idom x c }.

Section Update.
Context (idom : list (option nat)) (k b z : nat) (Hp : pass_ok idom k).
Context (Hb0 : b <> O) (Hbk : at_ b = Some k) (Hz : assigned idom z).
Context (Hmeet : forall x, Anc idom x z <-> forall p, p ∈ preds_of b -> assigned idom p -> Anc idom x p).
#[local] Notation idom' := (<[b := Some z]> idom).
#[local] Notation Anc' := (Anc (<[b := Some z]> idom)).
#[local] Notation Anc := (Anc idom).

Lemma up_b : up idom' b = Some z.
Proof. unfold up. rewrite list_lookup_insert_eq; [done|]. rewrite (tree_len _ (pass_tree _ _ Hp)). by apply (block_lt b k). Qed.

Lemma up_other c : c <> b -> up idom' c = up idom c.
Proof. intros Hc. unfold up. by rewrite list_lookup_insert_ne by done. Qed.

Lemma assigned_after c : assigned idom' c <-> c = b \/ assigned idom c.
Proof.
  unfold assigned. destruct (decide (c = b)) as [->|Hc]; [|rewrite up_other by done; tauto].
  rewrite up_b. split; [by left|done].
Qed.

(** The new parent comes before the block, as a forward predecessor of it does. *)
Lemma parent_before : exists j, at_ z = Some j /\ j < k.
Proof.
  pose proof (pass_tree _ _ Hp) as Ht. destruct (assigned_at idom Ht z Hz) as [j Hj]. exists j. split; [done|].
  destruct (forward_pred succs Hn Hin b k Hbk Hb0) as (p & i & He & Hpi & Hlt). apply Nat.le_lt_trans with i; [|done].
  apply (anc_index idom Ht z p); [|done..]. apply Hmeet; [by apply anc_refl|by apply Hpreds|by apply (pass_before _ _ Hp p i)].
Qed.

Lemma tree_after : tree_ok idom'.
Proof.
  destruct (pass_tree _ _ Hp) as [Hl Hr Hu]. constructor.
  - by rewrite length_insert.
  - by rewrite up_other.
  - intros c p Hc Hcp. destruct (decide (c = b)) as [->|Hcb].
    + rewrite up_b in Hcp. injection Hcp as <-. split; [apply assigned_after; by right|]. destruct parent_before as (j & ? & ?). by exists k, j.
    + rewrite up_other in Hcp by done. destruct (Hu c p Hc Hcp) as (? & ?). split; [apply assigned_after; by right|done].
Qed.

(** An update takes blocks away from what is above a block that had some. *)
Lemma after_before a c : Anc' a c -> assigned idom c -> Anc a c.
Proof.
  induction 1 as [_|c p Hc Hu _ IH]; intros Hca; [by apply anc_refl|]. pose proof (pass_tree _ _ Hp) as Ht.
  destruct (decide (c = b)) as [->|Hcb].
  - rewrite up_b in Hu. injection Hu as <-. apply (pass_closed _ _ Hp); [done..|]. apply Hmeet. by apply IH.
  - rewrite up_other in Hu by done. eapply anc_up; [done|exact Hu|]. apply IH. apply (tree_up _ Ht c p Hc Hu).
Qed.

(** It keeps those that are not before it, *)
Lemma late_kept x c h : Anc x c -> at_ x = Some h -> k <= h -> Anc' x c.
Proof.
  pose proof (pass_tree _ _ Hp) as Ht. intros H Hx Hkh. induction H as [H|c p Hc Hu Hxp IH]; [apply anc_refl, assigned_after; by right|].
  eapply anc_up; [done| |by apply IH]. rewrite up_other; [done|]. intros ->.
  destruct (tree_up _ Ht b p Hc Hu) as (_ & i & j & E1 & E2 & Hlt). pose proof (anc_index idom Ht x p h j Hxp Hx E2). assert (i = k) by congruence. lia.
Qed.

(** and all those of a block that is not below it. *)
Lemma kept_or_below x c : Anc x c -> Anc b c \/ Anc' x c.
Proof.
  induction 1 as [H|c p Hc Hu Hxp IH]; [right; apply anc_refl, assigned_after; by right|].
  destruct (decide (c = b)) as [->|Hcb]; [left; apply anc_refl; unfold assigned; by rewrite Hu|].
  destruct IH as [IH|IH]; [left; by eapply anc_up|]. right. eapply anc_up; [done| |exact IH]. by rewrite up_other.
Qed.

Lemma early_kept x c i : Anc x c -> at_ c = Some i -> i < k -> Anc' x c.
Proof.
  intros H Hi Hlt. destruct (kept_or_below x c H) as [Hbc|]; [|done].
  pose proof (anc_index idom (pass_tree _ _ Hp) b c k i Hbc Hbk Hi). lia.
Qed.

Lemma above_b x : Anc x z -> Anc' x b.
Proof.
  intros H. eapply anc_up; [done|apply up_b|]. destruct parent_before as (j & ? & ?). by eapply early_kept.
Qed.

(** What the tree has below [b] a path reaches from [b] without blocks before it. *)
Lemma path_from_b c i l : Anc b c -> at_ c = Some i -> path l b ->
  exists l', path (l ++ l') c /\ Forall (fun d => exists j, at_ d = Some j /\ k < j) l'.
Proof.
  pose proof (pass_tree _ _ Hp) as Ht. revert c. induction (lt_wf i) as [i _ IH]. intros c Hbc Hi Hl.
  destruct (decide (c = b)) as [->|Hcb]; [exists []; by rewrite app_nil_r|].
  pose proof (anc_lt idom Ht b c k i Hbc ltac:(done) Hbk Hi) as Hki.
  destruct (forward_pred succs Hn Hin c i Hi) as (p & j & He & Hpj & Hlt); [intros ->; rewrite (rpo_at_0 succs Hn Hin) in Hi; injection Hi; lia|].
  assert (Anc b p) as Hbp by (by eapply (pass_high _ _ Hp b c p i j k)).
  destruct (IH j Hlt p Hbp Hpj Hl) as (l' & Hl' & Hf). exists (l' ++ [c]). rewrite app_assoc. split; [by eapply path_edge|].
  apply Forall_app. split; [done|]. apply Forall_singleton. by exists i.
Qed.

(** So what dominates it from before [b] dominates [b]. *)
Lemma dom_below x c h : Anc b c -> Dom x c -> at_ x = Some h -> h < k -> Dom x b.
Proof.
  intros Hbc Hd Hx Hlt l Hl. pose proof (pass_tree _ _ Hp) as Ht.
  destruct (assigned_at idom Ht c (proj2 (anc_assigned _ _ _ Hbc))) as [i Hi].
  destruct (path_from_b c i l Hbc Hi Hl) as (l' & Hl' & Hf). specialize (Hd _ Hl'). apply elem_of_app in Hd as [|Hd]; [done|].
  rewrite Forall_forall in Hf. destruct (Hf x Hd) as (j & Hj & ?). rewrite Hx in Hj. injection Hj as ->. lia.
Qed.

Lemma index_cases x c : Anc x c -> exists h, at_ x = Some h /\ (h < k \/ k <= h).
Proof.
  intros H. destruct (assigned_at idom (pass_tree _ _ Hp) x (proj1 (anc_assigned _ _ _ H))) as [h Hh]. exists h. split; [done|lia].
Qed.

Lemma dom_after x c : assigned idom' c -> Dom x c -> Anc' x c.
Proof.
  intros Hc Hd. assert (forall y, y <> b -> Dom y b -> Anc' y b) as Hb.
  { intros y Hne Hyb. apply above_b, Hmeet. intros p Hpb Hpa. apply (pass_dom _ _ Hp); [done|]. eapply dom_pred; [done..|]. by apply Hpreds. }
  destruct (decide (x = b)) as [->|Hxb].
  - destruct (decide (c = b)) as [->|Hcb]; [by apply anc_refl|]. apply assigned_after in Hc as [->|Hc]; [done|].
    apply (late_kept b c k); [by apply (pass_dom _ _ Hp)|done|lia].
  - destruct (decide (c = b)) as [->|Hcb]; [by apply Hb|]. apply assigned_after in Hc as [->|Hc]; [done|].
    pose proof (pass_dom _ _ Hp x c Hc Hd) as Hxc. destruct (kept_or_below x c Hxc) as [Hbc|]; [|done].
    destruct (index_cases x c Hxc) as (h & Hh & [Hlt|Hle]); [|by apply (late_kept x c h)].
    eapply anc_trans; [apply Hb; [done|by apply (dom_below x c h)]|]. by apply (late_kept b c k).
Qed.

Lemma closed_after x c : c <> O -> assigned idom' c -> (forall p, p ∈ preds_of c -> assigned idom' p -> Anc' x p) -> Anc' x c.
Proof.
  pose proof (pass_tree _ _ Hp) as Ht. intros Hc0 Hc Hall.
  assert (forall p, p ∈ preds_of c -> assigned idom p -> Anc x p) as Hold.
  { intros p Hpc Hpa. apply after_before; [|done]. apply Hall; [done|]. apply assigned_after. by right. }
  destruct (decide (c = b)) as [->|Hcb]; [by apply above_b, Hmeet|]. apply assigned_after in Hc as [->|Hc]; [done|].
  destruct (kept_or_below x c (pass_closed _ _ Hp x c Hc0 Hc Hold)) as [Hbc|]; [|done].
  destruct (assigned_at idom Ht c Hc) as [i Hi]. destruct (forward_pred succs Hn Hin c i Hi Hc0) as (p & j & He & Hpj & Hlt).
  assert (Anc b p) as Hbp by (by eapply (pass_high _ _ Hp b c p i j k)).
  assert (Anc' x p) as Hxp by (apply Hall; [by apply Hpreds|apply assigned_after; right; by apply (anc_assigned _ _ _ Hbp)]).
  destruct (anc_total _ x b p Hxp (late_kept b p k Hbp Hbk ltac:(done))) as [Hxb|Hbx].
  - eapply anc_trans; [done|]. by apply (late_kept b c k).
  - destruct (assigned_at idom' tree_after x (proj1 (anc_assigned _ _ _ Hxp))) as [h Hh].
    apply (late_kept x c h); [|done|by apply (anc_index idom' tree_after b x)]. by apply (pass_closed _ _ Hp).
Qed.

Lemma pass_after : pass_ok idom' (S k).
Proof.
  pose proof (pass_tree _ _ Hp) as Ht. constructor.
  - apply tree_after.
  - intros c i Hi Hlt. apply assigned_after. destruct (decide (i = k)) as [->|Hne]; [left; by apply (rpo_at_inj succs Hn Hin c b k)|].
    right. apply (pass_before _ _ Hp c i Hi). lia.
  - apply closed_after.
  - intros x c p i j Hi Hlt Hxc Hne He Hj Hji. destruct (decide (c = b)) as [->|Hcb].
    + assert (i = k) as -> by congruence. apply (anc_parent _ _ _ z) in Hxc; [|apply up_b|done|done].
      apply (early_kept x p j); [|done..]. apply Hmeet; [by apply after_before|by apply Hpreds|by apply (pass_before _ _ Hp p j)].
    + assert (i < k) as Hik by (destruct (decide (i = k)) as [->|]; [destruct Hcb; by apply (rpo_at_inj succs Hn Hin c b k)|lia]).
      apply (early_kept x p j); [|done|lia]. apply (pass_low _ _ Hp x c p i j); try done. apply after_before; [done|by apply (pass_before _ _ Hp c i)].
  - intros x c p i j h Hi Hh Hkh Hxc Hne He Hj Hji. destruct (decide (c = b)) as [->|Hcb].
    + pose proof (anc_index idom' tree_after x b h k Hxc Hh Hbk). lia.
    + assert (Anc x c) as Hxc0 by (apply after_before; [done|]; apply (anc_assigned _ _ _) in Hxc as [_ Hca]; by apply assigned_after in Hca as [|]).
      apply (late_kept x p h); [|done|lia]. apply (pass_high _ _ Hp x c p i j h); try done; lia.
  - apply dom_after.
Qed.
End Update.

(** ** The passes *)

(** No more can be taken away at [b]. *)
Definition settled (idom : list (option nat)) (b : nat) : Prop :=
  b <> O -> forall x p, Anc idom x b -> x <> b -> edge p b -> assigned idom p -> Anc idom x p.

(** What an update brings down: the places of the parents in the order. *)
Definition rank (o : option nat) : nat := match o with Some p => default (length succs) (at_ p) | None => length succs end.
Definition cost (idom : list (option nat)) : nat := sum_list (map (fun b => rank (up idom b)) (seq 0 (length succs))).

Lemma rank_le o : rank o <= length succs.
Proof. destruct o as [p|]; [|done]. cbn. destruct (at_ p) as [i|] eqn:E; [|done]. cbn. pose proof (at_lt p i E). lia. Qed.

Lemma cost_le idom : cost idom <= length succs * length succs.
Proof.
  unfold cost. rewrite <- (length_seq (length succs) 0) at 2. generalize (seq 0 (length succs)). intros l.
  induction l as [|b l IH]; cbn; [lia|]. pose proof (rank_le (up idom b)). unfold sum_list in *. lia.
Qed.

Lemma cost_insert idom b z : b < length idom -> length idom = length succs -> rank (Some z) < rank (up idom b) -> cost (<[b := Some z]> idom) < cost idom.
Proof.
  intros Hb Hl Hr. unfold cost.
  set (f := fun c => rank (up idom c)) in *. set (f' := fun c => rank (up (<[b := Some z]> idom) c)).
  set (g := fun c => if c =? b then 0 else f c).
  assert (b ∈ seq 0 (length succs)) as Hin' by (apply elem_of_seq; lia).
  rewrite (sum_without f g _ b (NoDup_seq _ _) Hin'), (sum_without f' g _ b (NoDup_seq _ _) Hin').
  - unfold f, f', up at 1. rewrite list_lookup_insert_eq by done. change (default None (Some (Some z))) with (Some z). lia.
  - intros c _ Hc. unfold g, f, f', up. destruct (Nat.eqb_spec c b); [done|]. by rewrite list_lookup_insert_ne.
  - unfold g. by rewrite Nat.eqb_refl.
  - intros c _ Hc. unfold g. by destruct (Nat.eqb_spec c b).
  - unfold g. by rewrite Nat.eqb_refl.
Qed.

Lemma pass_first idom : pass_ok idom 0 -> pass_ok idom 1.
Proof.
  intros [Ht Hb Hc Hl Hh Hd]. assert (forall c i, at_ c = Some i -> i < 1 -> c = O) as H0.
  { intros c i Hi Hlt. assert (i = 0) as -> by lia. apply (rpo_at_inj succs Hn Hin c O 0 Hi), (rpo_at_0 succs Hn Hin). }
  constructor; try done.
  - intros b i Hi Hlt. rewrite (H0 b i Hi Hlt). unfold assigned. by rewrite (tree_root _ Ht).
  - intros x c p i j Hi Hlt Hxc Hne. rewrite (H0 c i Hi Hlt) in *. by inversion Hxc.
  - intros x c p i j h Hi Hx Hk. apply (Hh x c p i j h); [done..|lia].
Qed.

Lemma dom_update_ok idom k b : pass_ok idom k -> at_ b = Some k ->
  exists idom' c, dom_update idom b = Some (idom', c) /\ pass_ok idom' (S k) /\
    (if c : bool then cost idom' < cost idom else idom' = idom /\ settled idom b).
Proof.
  intros Hp Hbk. pose proof (pass_tree _ _ Hp) as Ht. unfold dom_update. destruct (Nat.eqb_spec b 0) as [->|Hb0].
  { rewrite (rpo_at_0 succs Hn Hin) in Hbk. injection Hbk as <-. exists idom, false. split_and!; [done|by apply pass_first|done|by intros ?]. }
  destruct (newIdom_ok idom Ht (preds_of b)) as (r & -> & Hr). cbn. destruct r as [z|].
  - destruct Hr as (Hz & _ & Hmeet). pose proof (pass_after idom k b z Hp Hb0 Hbk Hz Hmeet) as Hp'. case_bool_decide as Hu.
    + exists idom, false. split_and!; [done| |done|].
      * rewrite list_insert_id in Hp'; [done|]. unfold up in Hu. destruct (idom !! b) as [o|]; [by cbn in Hu; subst|done].
      * intros _ x p Hxb Hne He Hpa. apply (anc_parent idom _ _ z) in Hxb; [|done..]. apply Hmeet; [done|by apply Hpreds|done].
    + exists (<[b:=Some z]> idom), true. split_and!; [done|done|]. apply cost_insert.
      * rewrite (tree_len _ Ht). by apply (block_lt b k).
      * apply Ht.
      * destruct (parent_before idom k b z Hp Hb0 Hbk Hz Hmeet) as (j & Hj & Hjk). unfold rank at 1. rewrite Hj. cbn.
        destruct (up idom b) as [p|] eqn:Eb; cbn; [|by apply (at_lt z)].
        destruct (tree_up _ Ht b p Hb0 Eb) as (Hpa & i & h & Ei & Eh & Hlt). rewrite Eh. cbn. apply (anc_lt idom Ht z p); [|congruence|done..].
        apply (anc_parent idom z b p); [done|done| |].
        -- intros ->. assert (j = k) by congruence. lia.
        -- apply (pass_closed _ _ Hp); [done|unfold assigned; by rewrite Eb|]. apply Hmeet. by apply anc_refl.
  - destruct (forward_pred succs Hn Hin b k Hbk Hb0) as (p & j & He & Hj & Hlt). destruct (Hr p); [by apply Hpreds|by apply (pass_before _ _ Hp p j)].
Qed.

Lemma dom_pass_ok bs : forall idom k c0, pass_ok idom k -> (forall i b, bs !! i = Some b -> at_ b = Some (k + i)) ->
  exists idom' c, dom_pass bs idom c0 = Some (idom', c) /\ pass_ok idom' (k + length bs) /\ cost idom' <= cost idom /\
    (c0 = true -> c = true) /\ (c0 = false -> if c then cost idom' < cost idom else idom' = idom /\ Forall (settled idom) bs).
Proof.
  induction bs as [|b bs IH]; intros idom k c0 Hp Hbs; cbn [dom_pass].
  { exists idom, c0. rewrite Nat.add_0_r. split_and!; [done..|]. intros ->. by split. }
  destruct (dom_update_ok idom k b Hp) as (idom1 & c1 & -> & Hp1 & H1); [specialize (Hbs 0 b eq_refl); by rewrite Nat.add_0_r in Hbs|].
  destruct (IH idom1 (S k) (c0 || c1) Hp1) as (idom2 & c2 & E & Hp2 & Hc2 & Ht & Hf).
  { intros i b' Hi. replace (S k + i) with (k + S i) by lia. by apply (Hbs (S i)). }
  exists idom2, c2. replace (k + length (b :: bs)) with (S k + length bs) by (cbn; lia). split_and!; [done|done| | |].
  - destruct c1; [lia|]. by destruct H1 as [-> _].
  - intros ->. by apply Ht.
  - intros ->. cbn in *. destruct c1.
    + rewrite Ht by done. lia.
    + destruct H1 as [-> Hs]. specialize (Hf eq_refl). destruct c2; [done|]. destruct Hf as [-> Hf]. by split; [|constructor].
Qed.

Lemma pass_again idom : pass_ok idom (length (rpo succs)) -> pass_ok idom 0.
Proof.
  intros [Ht Hb Hc Hl Hh Hd].
  assert (forall c i, at_ c = Some i -> i < length (rpo succs)) as Hlt by (intros c i Hi; apply (rpo_at_spec succs Hn Hin) in Hi; by eapply lookup_lt_Some).
  constructor; try done; [lia|lia|]. intros x c p i j h Hi _ _ Hxc Hne He Hj Hji. apply (Hl x c p i j); [done|by apply (Hlt c)|done..].
Qed.

Lemma dom_loop_ok fuel : forall idom, pass_ok idom 0 -> cost idom < fuel ->
  exists idom', dom_loop fuel idom = Some idom' /\ pass_ok idom' (length (rpo succs)) /\ Forall (settled idom') (rpo succs).
Proof.
  induction fuel as [|fuel IH]; intros idom Hp Hlt; [lia|]. cbn [dom_loop].
  destruct (dom_pass_ok (rpo succs) idom 0 false Hp) as (idom1 & c & -> & Hp1 & Hle & _ & Hc); [intros i b Hi; by apply (rpo_at_spec succs Hn Hin)|].
  specialize (Hc eq_refl). cbn in *. destruct c.
  - apply IH; [by apply pass_again|lia].
  - destruct Hc as [-> Hs]. by exists idom.
Qed.

Lemma start_pass_ok : pass_ok (<[O := Some O]> (replicate (length succs) None)) 0.
Proof.
  set (idom := <[O := Some O]> (replicate (length succs) None)).
  assert (up idom 0 = Some 0) as H0 by (unfold up, idom; by rewrite list_lookup_insert_eq by by rewrite length_replicate).
  assert (forall b, b <> O -> up idom b = None) as H1.
  { intros b Hb. unfold up, idom. rewrite list_lookup_insert_ne by done. destruct (decide (b < length succs)).
    - by rewrite lookup_replicate_2.
    - by rewrite lookup_ge_None_2 by (rewrite length_replicate; lia). }
  assert (forall b, assigned idom b -> b = O) as H2 by (intros b Hb; destruct (decide (b = O)); [done|]; destruct Hb; by apply H1).
  constructor; try lia.
  - constructor; [unfold idom; by rewrite length_insert, length_replicate|done|]. intros b p Hb Hu. by rewrite H1 in Hu.
  - intros x c Hc Hca. by destruct (H2 c Hca).
  - intros x c p i j h _ _ _ Hxc Hne. destruct Hxc as [|c p' Hc Hu]; [done|]. by rewrite H1 in Hu.
  - intros x c Hca Hd. rewrite (H2 c Hca) in *. specialize (Hd [O] (path_entry _)). apply list_elem_of_singleton in Hd as ->. apply anc_refl. by rewrite H0.
Qed.

(** ** What is left *)

Lemma settled_path idom : tree_ok idom -> (forall b, reachable succs O b -> assigned idom b) -> Forall (settled idom) (rpo succs) ->
  forall l b, path l b -> forall a, Anc idom a b -> a ∈ l.
Proof.
  intros Ht Ha Hs. rewrite Forall_forall in Hs. induction 1 as [|l p c Hl IH He]; intros a Hac.
  { inversion Hac; subst; [by left|done]. }
  apply elem_of_app. destruct (decide (a = c)) as [->|Hne]; [right; by left|]. left. apply IH.
  pose proof (path_reachable _ _ Hl) as Hp. apply (Hs c); [|by intros ->; inversion Hac|done..|by apply Ha].
  apply (rpo_reachable succs Hn Hin). by eapply rtc_r.
Qed.

(** The tree a run ends with, before its root is cleared: dominance. *)
Lemma dom_loop_exact : exists idom, dom_loop dom_fuel (<[O := Some O]> (replicate (length succs) None)) = Some idom /\
  tree_ok idom /\ forall b, reachable succs O b -> assigned idom b /\ forall a, Anc idom a b <-> Dom a b.
Proof.
  destruct (dom_loop_ok dom_fuel _ start_pass_ok) as (idom & E & Hp & Hs).
  { unfold dom_fuel. pose proof (cost_le (<[O := Some O]> (replicate (length succs) None))). lia. }
  exists idom. split_and!; [done|by apply Hp|]. assert (forall b, reachable succs O b -> assigned idom b) as Ha.
  { intros b [i Hi]%(rpo_at_reachable succs Hn Hin). apply (pass_before _ _ Hp b i Hi). apply (rpo_at_spec succs Hn Hin) in Hi. by eapply lookup_lt_Some. }
  intros b Hb. split; [by apply Ha|]. intros a. split; [|apply (pass_dom _ _ Hp); by apply Ha].
  intros Hab l Hl. by apply (settled_path idom (pass_tree _ _ Hp) Ha Hs l b Hl).
Qed.

Lemma dom_walk_ok idom a : tree_ok idom -> forall fuel c i, at_ c = Some i -> assigned idom c -> i < fuel ->
  dom_walk fuel (<[O := None]> idom) a (Some c) = true <-> Anc idom a c.
Proof.
  intros Ht. induction fuel as [|fuel IH]; intros c i Hi Hc Hlt; [lia|]. cbn [dom_walk]. destruct (Nat.eqb_spec c a) as [->|Hne].
  { split; [intros _; by apply anc_refl|done]. }
  destruct (decide (c = O)) as [->|Hc0].
  - unfold up. rewrite list_lookup_insert_eq by (rewrite (tree_len _ Ht); lia). cbn. destruct fuel; split; try done; intros H; by inversion H.
  - unfold up. rewrite list_lookup_insert_ne by done. fold (up idom c). unfold assigned in Hc. destruct (up idom c) as [p|] eqn:Eu; [|done].
    destruct (tree_up _ Ht c p Hc0 Eu) as (Hp & i' & j & Ei & Ej & Hlt'). rewrite (IH p j Ej Hp) by (assert (i' = i) by congruence; lia).
    symmetry. by apply anc_parent.
Qed.

Lemma computeDominators_exact : exists idom, computeDominators = Some idom /\
  forall b, reachable succs O b -> forall a, (dominates idom a b = true <-> Dom a b) /\ (dominatesBlock idom a b = true <-> Dom a b).
Proof.
  destruct dom_loop_exact as (idom & E & Ht & Hd). unfold computeDominators. rewrite E. cbn. eexists. split; [done|]. intros b Hb a.
  destruct (Hd b Hb) as [Hba Hspec]. destruct (proj1 (rpo_at_reachable succs Hn Hin b) Hb) as [i Hi].
  assert (length (<[O:=None]> idom) <=? b = false) as Hl.
  { apply Nat.leb_gt. rewrite length_insert, (tree_len _ Ht). by apply (block_lt b i). }
  assert (a <> b -> dom_walk (length succs) (<[O:=None]> idom) a (up (<[O:=None]> idom) b) = true <-> Dom a b) as Hw.
  { intros Hne. rewrite <- Hspec. destruct (decide (b = O)) as [->|Hb0].
    - unfold up. rewrite list_lookup_insert_eq by (rewrite (tree_len _ Ht); lia). cbn. destruct (length succs); split; try done; intros H; by inversion H.
    - unfold up at 1. rewrite list_lookup_insert_ne by done. fold (up idom b). unfold assigned in Hba. destruct (up idom b) as [p|] eqn:Eu; [|done].
      destruct (tree_up _ Ht b p Hb0 Eu) as (Hp & _ & j & _ & Ej & _). rewrite (dom_walk_ok idom a Ht _ p j Ej Hp) by by apply (at_lt p).
      symmetry. by apply anc_parent. }
  assert (a = b -> Dom a b) as Hr by (intros ->; apply Hspec; by apply anc_refl).
  unfold dominates, dominatesBlock, rpo_index. rewrite Hi, Hl. cbn. destruct (Nat.eqb_spec a b) as [Eab|Hne]; [|by split; apply Hw].
  split; (split; [intros _; by apply Hr|done]).
Qed.
End Dominators.
