(* ===== verification/IlCfg.v ===== *)
(** * The control flow graph of a function (src/src/il/verifier.cpp, verifier_proofs.cpp)

    The graph the verifier builds, what of the function it holds, and the claim that the
    dominators computed from it are dominance between the function's blocks. *)
From stdpp Require Import relations.
From S2P Require Import Prelude Il IlGraph IlDominators.
Local Open Scope nat_scope.

(** [succs] and [preds]. *)
Definition Cfg : Type := list (list nat) * list (list nat).

Definition push_new (x : nat) (l : list nat) : list nat := if existsb (Nat.eqb x) l then l else l ++ [x].

Definition addEdge (numBlocks from : nat) (to : Z) (g : Cfg) : Cfg :=
  if (to =? kNoBlock)%Z || (Z.of_nat numBlocks <=? to)%Z then g
  else (alter (push_new (Z.to_nat to)) from g.1, alter (push_new from) (Z.to_nat to) g.2).

Definition blockEdges (numBlocks : nat) (g : Cfg) (b : nat) (blk : Block) : Cfg :=
  let g := if (handler blk =? kNoBlock)%Z then g else addEdge numBlocks b (handler blk) g in
  match last (instructions blk) with
  | None => g
  | Some term =>
      if Op.eqb (op term) Op.Jump then addEdge numBlocks b (tblock (target term)) g
      else if Op.eqb (op term) Op.Branch then
        addEdge numBlocks b (tblock (elseTarget term)) (addEdge numBlocks b (tblock (target term)) g)
      else g
  end.

Fixpoint addBlocks (numBlocks : nat) (g : Cfg) (b : nat) (bs : list Block) : Cfg :=
  match bs with [] => g | blk :: bs => addBlocks numBlocks (blockEdges numBlocks g b blk) (S b) bs end.

Definition buildCfg (fn : Function) : Cfg :=
  let n := length (blocks fn) in addBlocks n (replicate n [], replicate n []) 0 (blocks fn).

(** ** Its edges *)

(** The blocks a block names: its handler, and the targets of its terminator. *)
Definition targets (blk : Block) : list Z :=
  (if (handler blk =? kNoBlock)%Z then [] else [handler blk]) ++
  match last (instructions blk) with
  | None => []
  | Some term => if Op.eqb (op term) Op.Jump then [tblock (target term)]
                 else if Op.eqb (op term) Op.Branch then [tblock (target term); tblock (elseTarget term)] else []
  end.

(** Control may go from one block of a function to another. *)
Definition flows (fn : Function) (a b : nat) : Prop :=
  exists blk, blocks fn !! a = Some blk /\ b < length (blocks fn) /\ exists to, to ∈ targets blk /\ to <> kNoBlock /\ to = Z.of_nat b.

Lemma elem_push_new x y l : y ∈ push_new x l <-> y = x \/ y ∈ l.
Proof.
  unfold push_new. destruct (existsb (Nat.eqb x) l) eqn:E.
  - apply existsb_exists in E as (z & Hz & Heq%Nat.eqb_eq). subst z. apply list_elem_of_In in Hz. split; [by right|]. by intros [->|].
  - rewrite elem_of_app, list_elem_of_singleton. tauto.
Qed.

Lemma elem_alter x i j (g : list (list nat)) y : i < length g ->
  y ∈ default [] (alter (push_new x) i g !! j) <-> (j = i /\ y = x) \/ y ∈ default [] (g !! j).
Proof.
  intros Hi. destruct (decide (j = i)) as [->|Hne].
  - rewrite list_lookup_alter_eq. destruct (lookup_lt_is_Some_2 g i Hi) as [l ->]. cbn. rewrite elem_push_new. tauto.
  - rewrite list_lookup_alter_ne by done. tauto.
Qed.

Record cfg_ok (n : nat) (R : nat -> nat -> Prop) (g : Cfg) : Prop := {
  cfg_succs : length g.1 = n;
  cfg_preds : length g.2 = n;
  cfg_edge a b : b ∈ succs_of g.1 a <-> R a b;
  cfg_back a b : a ∈ preds_of g.2 b <-> R a b }.

Definition within (n : nat) (to : Z) : Prop := (to <> kNoBlock /\ to < Z.of_nat n)%Z.

Lemma addEdge_ok n R g from to : cfg_ok n R g -> from < n -> (0 <= to)%Z ->
  cfg_ok n (fun a b => R a b \/ a = from /\ within n to /\ to = Z.of_nat b) (addEdge n from to g).
Proof.
  intros [Hs Hp He Hb] Hf H0. unfold addEdge.
  destruct (Z.eqb_spec to kNoBlock) as [E|E]; [|destruct (Z.leb_spec (Z.of_nat n) to) as [H|H]]; cbn;
    [constructor; [done..| |]; intros a b; rewrite ?He, ?Hb; (split; [by left|]); intros [|(_ & [? ?] & _)]; [done|done|done|done]| |].
  - constructor; [done..| |]; intros a b; rewrite ?He, ?Hb; (split; [by left|]); intros [|(_ & [? ?] & _)]; done || lia.
  - assert (Z.to_nat to < n) as Ht by lia. constructor; cbn; rewrite ?length_alter; [done..| |]; intros a b.
    + unfold succs_of. rewrite elem_alter by lia. fold (succs_of g.1 a). rewrite He. unfold within. split; intros [H1|H1]; try tauto; [|left; lia].
      right. destruct H1. split_and!; lia.
    + unfold preds_of. rewrite elem_alter by lia. fold (preds_of g.2 b). rewrite Hb. unfold within. split; intros [H1|H1]; try tauto; [|left; lia].
      right. destruct H1. split_and!; lia.
Qed.

Lemma cfg_ok_iff n R R' g : cfg_ok n R g -> (forall a b, R a b <-> R' a b) -> cfg_ok n R' g.
Proof. intros [Hs Hp He Hb] H. constructor; [done..| |]; intros a b; rewrite <- H; done. Qed.

Definition to_block (n : nat) (ts : list Z) (b : nat) : Prop := exists to, to ∈ ts /\ within n to /\ to = Z.of_nat b.

Lemma to_block_cons n t ts b : to_block n (t :: ts) b <-> (within n t /\ t = Z.of_nat b) \/ to_block n ts b.
Proof.
  unfold to_block. setoid_rewrite elem_of_cons. split.
  - intros (to & [->|?] & ? & ?); [by left|right; by exists to].
  - intros [[? ?]|(to & ? & ? & ?)]; [exists t; tauto|exists to; tauto].
Qed.

Lemma to_block_nil n b : to_block n [] b <-> False.
Proof. split; [|done]. by intros (to & ?%not_elem_of_nil & _). Qed.

Lemma blockEdges_ok n R g b blk : cfg_ok n R g -> b < n -> fits_block blk ->
  cfg_ok n (fun x y => R x y \/ x = b /\ to_block n (targets blk) y) (blockEdges n g b blk).
Proof.
  intros Hg Hb Hf. unfold blockEdges, targets. assert (0 <= handler blk)%Z as Hh by apply Hf.
  assert (forall i, last (instructions blk) = Some i -> 0 <= tblock (target i) /\ 0 <= tblock (elseTarget i))%Z as Hi.
  { intros i Hi. apply last_Some_elem_of in Hi. destruct (fb_instructions _ Hf) as [Hall _]. rewrite Forall_forall in Hall.
    destruct (Hall i Hi). destruct fi_target as [[? ?] _], fi_else as [[? ?] _]. lia. }
  set (g' := if (handler blk =? kNoBlock)%Z then g else addEdge n b (handler blk) g).
  set (hs := if (handler blk =? kNoBlock)%Z then [] else [handler blk]).
  assert (cfg_ok n (fun x y => R x y \/ x = b /\ to_block n hs y) g') as Hg'.
  { unfold g', hs. destruct (handler blk =? kNoBlock)%Z.
    - eapply cfg_ok_iff; [exact Hg|]. intros x y. cbn. rewrite to_block_nil. tauto.
    - eapply cfg_ok_iff; [apply (addEdge_ok n R g b _ Hg Hb Hh)|]. intros x y. cbn. rewrite to_block_cons, to_block_nil. tauto. }
  clearbody g' hs. assert (forall l b, to_block n (hs ++ l) b <-> to_block n hs b \/ to_block n l b) as Happ.
  { intros l y. unfold to_block. setoid_rewrite elem_of_app. naive_solver. }
  destruct (last (instructions blk)) as [i|]; [destruct (Hi i eq_refl) as [H1 H2]|].
  - destruct (Op.eqb (op i) Op.Jump); [|destruct (Op.eqb (op i) Op.Branch)].
    + eapply cfg_ok_iff; [apply (addEdge_ok _ _ _ _ _ Hg' Hb H1)|]. intros x y. cbn. rewrite Happ, to_block_cons, to_block_nil. tauto.
    + eapply cfg_ok_iff; [apply (addEdge_ok _ _ _ _ _ (addEdge_ok _ _ _ _ _ Hg' Hb H1) Hb H2)|]. intros x y. cbn. rewrite Happ, !to_block_cons, to_block_nil. tauto.
    + eapply cfg_ok_iff; [exact Hg'|]. intros x y. cbn. rewrite Happ, to_block_nil. tauto.
  - eapply cfg_ok_iff; [exact Hg'|]. intros x y. cbn. rewrite Happ, to_block_nil. tauto.
Qed.

Lemma addBlocks_ok n bs : forall R g b, cfg_ok n R g -> b + length bs <= n -> Forall fits_block bs ->
  cfg_ok n (fun x y => R x y \/ exists blk, b <= x /\ bs !! (x - b) = Some blk /\ to_block n (targets blk) y) (addBlocks n g b bs).
Proof.
  induction bs as [|blk bs IH]; intros R g b Hg Hl Hf; cbn [addBlocks].
  { eapply cfg_ok_iff; [exact Hg|]. intros x y. cbn. split; [by left|]. intros [|(? & _ & H & _)]; [done|]. by rewrite lookup_nil in H. }
  apply Forall_cons in Hf as [Hblk Hf]. cbn in Hl.
  eapply cfg_ok_iff; [apply (IH _ _ (S b) (blockEdges_ok n R g b blk Hg ltac:(lia) Hblk) ltac:(lia) Hf)|]. intros x y. cbn. split.
  - intros [[HR|[-> Ht]]|(blk' & Hx & E & Ht)]; [by left|right; exists blk; rewrite Nat.sub_diag; by split_and!|].
    right. exists blk'. replace (x - b) with (S (x - S b)) by lia. split_and!; [lia|done|done].
  - intros [HR|(blk' & Hx & E & Ht)]; [left; by left|]. destruct (decide (x = b)) as [->|Hne].
    + rewrite Nat.sub_diag in E. injection E as ->. left. by right.
    + right. exists blk'. replace (x - b) with (S (x - S b)) in E by lia. split_and!; [lia|done|done].
Qed.

Lemma buildCfg_ok fn : fits_function fn -> cfg_ok (length (blocks fn)) (flows fn) (buildCfg fn).
Proof.
  intros Hf. destruct (fu_blocks _ Hf) as [Hb _]. unfold buildCfg. set (n := length (blocks fn)).
  assert (cfg_ok n (fun _ _ => False) (replicate n [], replicate n [])) as H0.
  { constructor; cbn; rewrite ?length_replicate; [done..| |]; intros a b; unfold succs_of, preds_of;
      match goal with |- _ ∈ default [] (_ !! ?i) <-> _ => destruct (decide (i < n)); [rewrite lookup_replicate_2 by done|rewrite lookup_ge_None_2 by (rewrite length_replicate; lia)] end;
      cbn; split; try done; by intros ?%not_elem_of_nil. }
  eapply cfg_ok_iff; [apply (addBlocks_ok n _ _ _ 0 H0); [done|done]|]. intros a b. unfold flows, to_block, within. cbn. rewrite Nat.sub_0_r. split.
  - intros [[]|(blk & _ & E & to & Hin & [? ?] & ->)]. exists blk. split_and!; [done|fold n; lia|]. by exists (Z.of_nat b).
  - intros (blk & E & Hlt & to & Hin & Hne & ->). right. exists blk. split_and!; [lia|done|]. exists (Z.of_nat b). split_and!; [done|done|fold n in Hlt; lia|done].
Qed.

Lemma flows_by fn a b :
  match blocks fn !! a with
  | Some blk => (b <? length (blocks fn)) && existsb (Z.eqb (Z.of_nat b)) (targets blk) && negb (Z.of_nat b =? kNoBlock)%Z
  | None => false
  end = true -> flows fn a b.
Proof.
  destruct (blocks fn !! a) as [blk|] eqn:E; [|done]. intros [[H1%Nat.ltb_lt (to & Hin & Ht%Z.eqb_eq)%existsb_exists]%andb_true_iff H2%negb_true_iff%Z.eqb_neq]%andb_true_iff.
  exists blk. split_and!; [done|done|]. exists to. apply list_elem_of_In in Hin. subst to. done.
Qed.

Lemma flows_bound fn a b : flows fn a b -> b < length (blocks fn).
Proof. by intros (? & _ & ? & _). Qed.

(** What the lemmas on graphs ask. *)
Lemma cfg_in fn : fits_function fn -> forall b, Forall (fun s => s < length (buildCfg fn).1) (succs_of (buildCfg fn).1 b).
Proof.
  intros Hf b. destruct (buildCfg_ok fn Hf) as [Hs _ He _]. apply Forall_forall. intros s Hin%He. rewrite Hs. by eapply flows_bound.
Qed.

Lemma cfg_nonempty fn : fits_function fn -> blocks fn <> [] -> 0 < length (buildCfg fn).1.
Proof. intros Hf Hne. destruct (buildCfg_ok fn Hf) as [-> _ _ _]. destruct (blocks fn); [done|cbn; lia]. Qed.

(** A block that passes either test for another is on every path to it. *)
Lemma dominates_path fn idom a b l : fits_function fn -> blocks fn <> [] ->
  computeDominators (buildCfg fn).1 (buildCfg fn).2 = Some idom -> path (flows fn) l b ->
  dominates (buildCfg fn).1 idom a b = true \/ dominatesBlock (buildCfg fn).1 idom a b = true -> a ∈ l.
Proof.
  intros Hf Hne E Hl Hd. destruct (buildCfg_ok fn Hf) as [_ _ He Hb].
  destruct (computeDominators_exact (buildCfg fn).1 (buildCfg fn).2 (cfg_nonempty fn Hf Hne) (cfg_in fn Hf)) as (idom' & E' & Hx); [intros p q; by rewrite Hb, <- He|].
  assert (idom' = idom) as -> by congruence. assert (path (edge (buildCfg fn).1) l b) as Hl' by (by apply (path_iff (edge (buildCfg fn).1) (flows fn)); [apply He|]).
  destruct (Hx b (path_reachable (buildCfg fn).1 l b Hl') a) as [H1 H2]. destruct Hd as [Hd|Hd]; [by apply H1|by apply H2].
Qed.

(** The block before one on a path. *)
Lemma path_before (R : nat -> nat -> Prop) l b t : path R l b -> t ∈ l -> t <> 0 -> exists l1 p l2, l = l1 ++ p :: t :: l2 /\ R p t.
Proof.
  intros Hl Ht H0. assert (forall l b, path R l b -> exists l1, l = l1 ++ [b]) as Hend by (intros l' b' [|l1 p c _ _]; [by exists []|by exists l1]).
  induction Hl as [|l p c Hl IH HR]; [by apply list_elem_of_singleton in Ht|]. apply elem_of_app in Ht as [Ht|Ht%list_elem_of_singleton].
  - destruct (IH Ht) as (l1 & q & l2 & -> & Hq). exists l1, q, (l2 ++ [c]). split; [by rewrite <- app_assoc|done].
  - subst c. destruct (Hend l p Hl) as [l1 ->]. exists l1, p, []. split; [by rewrite <- app_assoc|done].
Qed.

(** C6: the dominators the verifier computes for a function are always found, and of a
    block some path reaches both tests over them answer exactly dominance: every path of
    the function's own control flow from the entry to the second goes through the first. *)
Theorem dominators_exact fn : fits_function fn -> blocks fn <> [] ->
  exists idom, computeDominators (buildCfg fn).1 (buildCfg fn).2 = Some idom /\
    forall b, (exists l, path (flows fn) l b) -> forall a,
      (dominates (buildCfg fn).1 idom a b = true <-> Dom (flows fn) a b) /\
      (dominatesBlock (buildCfg fn).1 idom a b = true <-> Dom (flows fn) a b).
Proof.
  intros Hf Hne. destruct (buildCfg_ok fn Hf) as [Hs Hp He Hb].
  destruct (computeDominators_exact (buildCfg fn).1 (buildCfg fn).2 (cfg_nonempty fn Hf Hne) (cfg_in fn Hf)) as (idom & E & Hd); [intros p b; by rewrite Hb, <- He|].
  exists idom. split; [done|]. intros b [l Hl] a. rewrite <- !(Dom_iff (edge (buildCfg fn).1) (flows fn)) by apply He. apply Hd.
  eapply path_reachable. by apply (path_iff (edge (buildCfg fn).1) (flows fn)); [apply He|].
Qed.

(** A loop entered at both its blocks, with a handler over one of them: only the entry is
    above the other blocks. *)
Definition two_way_loop : Function :=
  plain_function [dynamic_param]
    [plain_block 0 [] [branch 1 1 2]; guarded_block 1 [] [jump 2 []] 3; plain_block 2 [] [branch 1 1 3]; plain_block 3 [] [ret 0]] 2.

Ltac solve_fits := repeat first [constructor | split | progress cbn | done | lia].

Lemma dominators_exact_witness : exists idom, computeDominators (buildCfg two_way_loop).1 (buildCfg two_way_loop).2 = Some idom /\
  idom = [None; Some 0; Some 0; Some 0] /\ ~ Dom (flows two_way_loop) 2 3 /\ Dom (flows two_way_loop) 0 3.
Proof.
  destruct (dominators_exact two_way_loop) as (idom & E & H); [solve_fits|done|]. exists idom. split; [done|].
  assert (Some idom = Some [None; Some 0; Some 0; Some 0]) as [= ->] by (rewrite <- E; vm_compute; reflexivity).
  destruct (H 3) with (a := 2) as [H2 _].
  { exists (([0] ++ [1]) ++ [3]). apply (path_edge _ _ 1); [apply (path_edge _ _ 0); [constructor|]|].
    all: by apply flows_by. }
  split; [reflexivity|]. split; [rewrite <- H2; vm_compute; discriminate|]. intros l Hl. clear H H2 E. induction Hl as [|l b c _ IH _]; [by left|]. apply elem_of_app. by left.
Defined.
