(* ===== verification/IlEffects.v ===== *)
(** * What an instruction does (src/src/il/effects.cpp, il.h, il_pin.h)

    The predicates the backend and the passes read before they move or emit anything:
    whether an instruction ends a block, can throw, can move a heap object, and whether a
    function may be entered without the runtime. *)
From S2P Require Import Prelude Il.
Local Open Scope Z_scope.
Local Open Scope bool_scope.

Definition kElemKindMask : Z := 0xFFFF.
Definition kElemFlagProvenIntegralIndex : Z := Z.shiftl 1 16.
Definition kElemFlagProvenInBounds : Z := Z.shiftl 1 17.
Definition kElemFlagArrayReceiver : Z := Z.shiftl 1 18.
Definition kElemFlagFloatViewReceiver : Z := Z.shiftl 1 19.
Definition kElemKindPlainArrayF64 : Z := 100.

(** [PinBarrier], by its [uint8_t]. *)
Inductive PinBarrier := Number | NumberOrNullish | DenseArray.
Definition pin_code (p : PinBarrier) : Z := match p with Number => 0 | NumberOrNullish => 1 | DenseArray => 2 end.

(** [static_cast<PinBarrier>(immI32) == p]: only the low byte is compared. *)
Definition casts_to_pin (imm : Z) (p : PinBarrier) : bool := (imm mod 256 =? pin_code p).

Definition is_dynamic (ty : Ty.t) : bool := bool_decide (ty = Ty.Dynamic).
Definition is_f64 (ty : Ty.t) : bool := bool_decide (ty = Ty.F64).

Definition isTerminator (o : Op.t) : bool :=
  Op.eqb o Op.Ret || Op.eqb o Op.Jump || Op.eqb o Op.Branch || Op.eqb o Op.Throw.

Definition elemGetCoerces (i : Instruction) : bool :=
  Op.eqb (op i) Op.ElemGetTyped && (Z.land (immI32 i) kElemKindMask =? kElemKindPlainArrayF64).

Definition canThrow (i : Instruction) : bool :=
  match op i with
  | Op.ConstF64 | Op.ConstI32 | Op.ConstBool | Op.ConstUndefined | Op.ConstNull | Op.ConstBigInt
  | Op.CmpLt | Op.CmpGt | Op.CmpLe | Op.CmpGe | Op.CmpEq | Op.CmpNe | Op.NumTruthy | Op.StrictEq | Op.IsNullish
  | Op.IsNumber | Op.IsDenseArray | Op.TypeOf | Op.Box | Op.CensusRecord | Op.FeedbackRecord
  | Op.CreateObject | Op.CoroMode | Op.ModuleNamespace | Op.CreateArray | Op.CreateFunction | Op.FunctionRef
  | Op.EnvCreate | Op.EnvGet | Op.EnvSet | Op.EnvInitTdz | Op.ModuleEnvSet | Op.ModuleEnvGet | Op.PrivateNew | Op.GlobalGet
  | Op.Print | Op.PrintErr | Op.PrintSpread | Op.PrintSpreadErr | Op.ExcTake | Op.KeepAlive | Op.MethodIcIs | Op.AccessorIcIs
  | Op.IsShape | Op.IsTypedArray | Op.IsArray | Op.IsNumberArray | Op.MethodSlotFn | Op.ClosureIs | Op.ClosureEnv
  | Op.ElemSetTyped | Op.MathUnary | Op.MathRandom | Op.LayoutEpoch | Op.LayoutFact | Op.TemplateCached => false
  | Op.ElemGetTyped => elemGetCoerces i
  | Op.ConcatBegin | Op.ConcatAppend | Op.ConcatEnd | Op.Add | Op.Neg | Op.Sub | Op.Mul | Op.Div | Op.Mod | Op.Pow
  | Op.BitAnd | Op.BitOr | Op.BitXor | Op.MathImul | Op.Shl | Op.Shr | Op.UShr => is_dynamic (type i)
  | Op.BitNot => true
  | Op.PinGuard => casts_to_pin (immI32 i) DenseArray
  | Op.Unbox => is_f64 (type i) && negb (rawUnbox i) && negb (nullishUnbox i)
  | Op.ToInt32 => is_dynamic (boxType i)
  | _ => negb (isTerminator (op i))
  end.

Definition canCollect (i : Instruction) : bool :=
  match op i with
  | Op.ConstF64 | Op.ConstI32 | Op.ConstBool | Op.ConstUndefined | Op.ConstNull
  | Op.CmpLt | Op.CmpGt | Op.CmpLe | Op.CmpGe | Op.CmpEq | Op.CmpNe | Op.NumTruthy | Op.StrictEq | Op.IsNullish
  | Op.IsNumber | Op.IsDenseArray | Op.TemplateCached | Op.ElemSetTyped | Op.MathUnary | Op.KeepAlive | Op.FeedbackRecord
  | Op.MethodIcIs | Op.AccessorIcIs | Op.IsShape | Op.IsTypedArray | Op.IsArray | Op.IsNumberArray
  | Op.MethodSlotFn | Op.ClosureIs | Op.ClosureEnv | Op.Jump | Op.Branch => false
  | Op.ElemGetTyped => elemGetCoerces i
  | Op.Box => bool_decide (boxType i = Ty.Str)
  | Op.ConcatBegin | Op.ConcatAppend | Op.ConcatEnd | Op.Add | Op.Neg | Op.Sub | Op.Mul | Op.Div | Op.Mod | Op.Pow
  | Op.BitAnd | Op.BitOr | Op.BitXor | Op.MathImul | Op.Shl | Op.Shr | Op.UShr => is_dynamic (type i)
  | Op.Unbox => is_f64 (type i) && negb (rawUnbox i) && negb (nullishUnbox i)
  | Op.ToInt32 => is_dynamic (boxType i)
  | Op.PinGuard => casts_to_pin (immI32 i) DenseArray
  | _ => true
  end.

(** [BRONZE_ABI_FN_FLAG_GENERATOR | _ASYNC | _NATIVE] *)
Definition kIndirectFlags : Z := Z.lor 0x04 (Z.lor 0x08 0x20).

Definition readsNewTarget (i : Instruction) : bool :=
  match op i with Op.GetNewTarget | Op.SuperCall | Op.SuperCallSpread => true | _ => false end.

Definition functionEntersDirectly (fn : Function) : bool :=
  if isExternal fn || isEntryPoint fn || isGenerator fn || isCoroutineBody fn then false
  else if negb (Z.land (fnFlags fn) kIndirectFlags =? 0) then false
  else forallb (fun blk => forallb (fun i => negb (readsNewTarget i)) (instructions blk)) (blocks fn).

(** Whatever can throw can also collect, a terminator does not throw, and the
    converse of the first fails: [canCollect] is the wider of the two. *)
Theorem throws_collects :
  (forall i, canThrow i = true -> canCollect i = true /\ isTerminator (op i) = false) /\
  (exists i, canThrow i = false /\ canCollect i = true).
Proof.
  split; [|by exists (new_inst Op.CreateObject)]. intros i. unfold canThrow, canCollect. by destruct (op i).
Qed.
