(* ===== verification/IlCheck.v ===== *)
(** * Checks (src/src/il/verifier.cpp, verifier_proofs.cpp, verifier_typed_entry.cpp)

    What the verifiers refuse, and how their checks are put together: each answers the
    first refusal it reports, or none.  The text of a message is not modelled, what it
    names is. *)
From S2P Require Import Prelude Il.
Local Open Scope Z_scope.
Local Open Scope bool_scope.

(** The errors, in the order of the code. *)
Inductive Refusal :=
  (* verifyFunction *)
  | NoBlocks | EntryIdNotZero | EntryHasParams
  | SentinelDefined | DuplicateDefinition (id : Z)
  | BlockIdMismatch (b : nat) | CopyClassRegion (b : nat) | HandlerOutOfRange (b : nat) (h : Z) | HandlerHasParams (h : Z) | VoidParam (b p : nat)
  | UseOfUndefined (id : Z) | UseAfterDef (id : Z) | OtherCopy (id : Z) (def use : nat) | NotDominated (id : Z) (def use : nat)
  | TargetOutOfRange (b : Z) | ArgumentCount (b : Z) (want got : nat) | SentinelArgument (i : nat) (b : Z) | ArgumentType (i : nat) (b : Z)
  | NoInstructions (b : nat) | TerminatorInside (b : nat) | NoTerminator (b : nat) | BadInlineFrame (f : Z)
  | BadShape (o : Op.t) | BadOperand (o : Op.t) (id : Z) | BadResult (o : Op.t) (id : Z) | ClosureEnvUnproved (id : Z) (b : nat)
  | ShapeGuardWithoutClaim (o : Op.t) | NotALayoutFact (o : Op.t) | TooManyArguments (o : Op.t) (n : Z) | OutsideCoroutine (o : Op.t)
  | NegativeIndex (o : Op.t) (imm : Z) | BranchWithoutCondition | ConditionNotBool (id : Z) | SameTargets (b : Z)
  (* verifyConcatChain *)
  | NoAccumulator (o : Op.t) | NotAnAccumulator (o : Op.t) (id : Z) | AccumulatorElsewhere (o : Op.t) (id : Z)
  | AccumulatorCount (id mentions links : Z)
  (* verifyFunctionProofs *)
  | PinnedNotF64 (i : nat) | PinnedKey (i : nat) (key : Z) | ReturnPinnedNotF64 | ReturnPinnedKey (key : Z)
  | NumberBitsMisplaced (o : Op.t) | RawAndNullish (id : Z) | UncheckedShape | UncheckedNotF64 (id : Z) | UncheckedOperand (id src : Z)
  | NeverANumber (id src : Z) | FalseBranch (id src : Z) (b : nat) | ContradictedEnv (id depth index : Z) | NoCertificate (id src : Z)
  | NeitherNumberNorNullish (id src : Z)
  | PinGuardShape | PinGuardOperand (id : Z) | PinGuardKind (imm : Z) | PinGuardKey (key : Z)
  | NeverAnArray (o : Op.t) (id : Z) | TypedShape (o : Op.t) | ReceiverNotDynamic (o : Op.t) (id : Z) | IndexNotNumber (o : Op.t) (id : Z)
  | ValueNotF64 (id : Z) | ElementKind (o : Op.t) (imm : Z)
  (* verify *)
  | ExternalHasBlocks | FeedbackShape | FunctionOutOfRange (o : Op.t) | BodyMismatch (o : Op.t) (callee : Z)
  | DirectCallNeedsEnv (callee : Z) | DirectCallSuppliesEnv (callee : Z) | DirectCallArity (callee : Z) (want got : nat)
  | AccessorCell (o : Op.t) (cell target : Z) | WriteMode (o : Op.t) (imm : Z) | TransitionRun (o : Op.t) (cell len : Z) | DefineAddCell (o : Op.t) (cell : Z)
  | IcSite (o : Op.t) (site : Z) | StaticSite (o : Op.t) (cell : Z) | FamilyRange (o : Op.t) (lo span : Z) | TemplateSite (o : Op.t) (imm : Z)
  | SharedSite (o : Op.t) (site : Z)
  (* verifyTypedEntries *)
  | TypedPastModule | TypedOfTyped | TypedNotPlainMethod | TypedParamsDiffer | TypedArityPast | TypedOmitted | TypedParam (p : nat)
  | EdgeNotMethodCall | EdgePastModule | EdgeNotItsEntry (entry target : Z) | EdgeArity (want got : Z) | EdgeOmits (a : nat) | EdgeType (a : nat)
  (* the verifier reads past a list, or does not end: proved not to happen where it is *)
  | ReadsPastList | NoFixpoint.

Definition Check : Type := option Refusal.
Definition refuse_if (b : bool) (r : Refusal) : Check := if b then Some r else None.
Definition andThen (a b : Check) : Check := match a with Some r => Some r | None => b end.
Notation "a ';?' b" := (andThen a b) (at level 63, right associativity) : bronze_scope.
Notation "'let!' x := e 'in' k" := (match e with inl r => inl r | inr x => k end)
  (at level 200, x pattern, e at level 100, k at level 200, only parsing) : bronze_scope.

Fixpoint each {A} (f : A -> Check) (l : list A) : Check :=
  match l with [] => None | x :: l => andThen (f x) (each f l) end.

Fixpoint each_at {A} (f : nat -> A -> Check) (n : nat) (l : list A) : Check :=
  match l with [] => None | x :: l => andThen (f n x) (each_at f (S n) l) end.

(** A fold that may refuse. *)
Fixpoint gather {A S} (f : nat -> A -> S -> Refusal + S) (n : nat) (l : list A) (s : S) : Refusal + S :=
  match l with
  | [] => inr s
  | x :: l => match f n x s with inl r => inl r | inr s => gather f (Datatypes.S n) l s end
  end.

(** ** What an accepting check says *)

Lemma refuse_if_none b r : refuse_if b r = None <-> b = false.
Proof. by destruct b. Qed.

Lemma andThen_none a b : andThen a b = None <-> a = None /\ b = None.
Proof. destruct a; cbn; naive_solver. Qed.

Lemma each_none {A} (f : A -> Check) l : each f l = None <-> Forall (fun x => f x = None) l.
Proof. induction l as [|x l IH]; cbn; [by split|]. by rewrite andThen_none, IH, Forall_cons. Qed.

Lemma each_at_none {A} (f : nat -> A -> Check) l : forall n, each_at f n l = None <-> forall i x, l !! i = Some x -> f (n + i)%nat x = None.
Proof.
  induction l as [|x l IH]; intros n; cbn; [split; [intros _ i y; by rewrite lookup_nil|done]|]. rewrite andThen_none, IH. split.
  - intros [H1 H2] [|i] y E; [injection E as <-; by rewrite Nat.add_0_r|]. rewrite Nat.add_succ_r. by apply (H2 i).
  - intros H. split; [specialize (H O x eq_refl); by rewrite Nat.add_0_r in H|]. intros i y E. specialize (H (S i) y E). by rewrite Nat.add_succ_r in H.
Qed.

Lemma gather_inv {A S} (P : nat -> S -> Prop) (f : nat -> A -> S -> Refusal + S) l : forall n s s', gather f n l s = inr s' -> P n s ->
  (forall i x s s', l !! i = Some x -> P (n + i)%nat s -> f (n + i)%nat x s = inr s' -> P (Datatypes.S (n + i)) s') -> P (n + length l)%nat s'.
Proof.
  induction l as [|x l IH]; intros n s s' E H Hf; cbn in E.
  { injection E as <-. by rewrite Nat.add_0_r. }
  destruct (f n x s) as [r|s1] eqn:Ef; [done|]. cbn [length]. replace (n + Datatypes.S (length l))%nat with (Datatypes.S n + length l)%nat by lia.
  apply (IH (Datatypes.S n) s1 s' E).
  - specialize (Hf O x s s1 eq_refl). rewrite Nat.add_0_r in Hf. by apply Hf.
  - intros i y t t' Hl Ht Eft. replace (Datatypes.S n + i)%nat with (n + Datatypes.S i)%nat in * by lia. by apply (Hf (Datatypes.S i) y t t').
Qed.
