(* ===== verification/IlVerifier.v ===== *)
(** * The verifier of functions (src/src/il/verifier.cpp)

    [verifyFunction]: the structure of a function, its definitions and uses, the shape of
    the operations that owe one, and the builders of concatenations. *)
From stdpp Require Import gmap.
From S2P Require Import Prelude Il IlCheck IlGraph IlDominators IlCfg IlEffects.
Local Open Scope Z_scope.
Local Open Scope bool_scope.

(** ** Builders of concatenations *)

Record Accumulator := mkAcc { acc_block : nat; acc_inst : nat; mentions : Z; links : Z }.

Definition makesBuilder (i : Instruction) : bool := Op.eqb (op i) Op.ConcatBegin || Op.eqb (op i) Op.ConcatAppend.

(** The instructions of a function, each with where it stands. *)
Definition placed (fn : Function) : list (nat * nat * Instruction) :=
  concat (imap (fun b blk => imap (fun i inst => (b, i, inst)) (instructions blk)) (blocks fn)).

Notation Accs := (gmap Z Accumulator).

Definition collectAccs (ps : list (nat * nat * Instruction)) : Accs :=
  foldl (fun m p => let '(b, i, inst) := p in if makesBuilder inst then <[result inst := mkAcc b i 0 0]> m else m) ∅ ps.

Definition countMention (a : Accumulator) : Accumulator := mkAcc (acc_block a) (acc_inst a) ((mentions a + 1) mod 2 ^ 32) (links a).
Definition countLink (a : Accumulator) : Accumulator := mkAcc (acc_block a) (acc_inst a) (mentions a) ((links a + 1) mod 2 ^ 32).

Definition countMentions (m : Accs) (ps : list (nat * nat * Instruction)) : Accs :=
  foldl (fun m p => foldl (fun m id => alter countMention id m) m (operands p.2)) m ps.

Fixpoint countLinks (m : Accs) (ps : list (nat * nat * Instruction)) : Refusal + Accs :=
  match ps with
  | [] => inr m
  | (b, i, inst) :: ps =>
      if Op.eqb (op inst) Op.ConcatAppend || Op.eqb (op inst) Op.ConcatEnd then
        match operands inst with
        | [] => inl (NoAccumulator (op inst))
        | acc :: _ =>
            match m !! acc with
            | None => inl (NotAnAccumulator (op inst) acc)
            | Some a =>
                if negb (acc_block a =? b)%nat || (i <=? acc_inst a)%nat then inl (AccumulatorElsewhere (op inst) acc)
                else countLinks (<[acc := countLink a]> m) ps
            end
        end
      else countLinks m ps
  end.

Definition verifyConcatChain (fn : Function) : Check :=
  let ps := placed fn in
  let m := collectAccs ps in
  if decide (m = ∅) then None
  else match countLinks (countMentions m ps) ps with
       | inl r => Some r
       | inr m =>
           each (fun p => let '(_, _, inst) := p in
             if makesBuilder inst then
               match m !! result inst with
               | Some a => refuse_if (negb (mentions a =? 1) || negb (links a =? 1)) (AccumulatorCount (result inst) (mentions a) (links a))
               | None => None
               end
             else None) ps
       end.

(** ** The licence of [closure.env] *)

Definition all_insts (fn : Function) : list Instruction := concat (map instructions (blocks fn)).

(** The edges into a block, and the last branch that has it as its first target. *)
Definition edgesInto (bIdx : nat) (s : nat * option Instruction) (blk : Block) : nat * option Instruction :=
  let '(edges, test) := s in
  match last (instructions blk) with
  | None => s
  | Some t =>
      if negb (Op.eqb (op t) Op.Jump) && negb (Op.eqb (op t) Op.Branch) then s
      else
        let s := if tblock (target t) =? Z.of_nat bIdx then (S edges, if Op.eqb (op t) Op.Branch then Some t else test) else s in
        if Op.eqb (op t) Op.Branch && (tblock (elseTarget t) =? Z.of_nat bIdx) then (s.1 + 2, s.2)%nat else s
  end.

Definition closureEnvProved (fn : Function) (bIdx iIdx : nat) (f : Z) : bool :=
  if negb (iIdx =? 0)%nat then false
  else
    match foldl (edgesInto bIdx) (0%nat, None) (blocks fn) with
    | (1%nat, Some test) =>
        match operands test with
        | [] => false
        | c :: _ =>
            match List.find (fun inst => result inst =? c) (all_insts fn) with
            | Some inst => Op.eqb (op inst) Op.ClosureIs && match operands inst with g :: _ => g =? f | [] => false end
            | None => false
            end
        end
    | _ => false
    end.

(** ** Definitions *)

(** What is recorded of a definition: its type, its block, and its instruction or [-1]. *)
Record Def := mkDef { dtype : Ty.t; dblock : nat; dinst : Z }.
Notation Defs := (gmap Z Def).

Definition recordDef (id : Z) (ty : Ty.t) (b : nat) (i : Z) (D : Defs) : Refusal + Defs :=
  if id =? kNoValue then inl SentinelDefined
  else match D !! id with Some _ => inl (DuplicateDefinition id) | None => inr (<[id := mkDef ty b i]> D) end.

(** The id of a parameter. *)
Definition param_id (i : nat) : Z := u32 (Z.of_nat i).

Definition recordParam (i : nat) (p : Param) (D : Defs) : Refusal + Defs := recordDef (param_id i) (ptype p) 0 (-1) D.

Definition recordBlockParam (b i : nat) (p : BlockParam) (D : Defs) : Refusal + Defs :=
  if bool_decide (bp_type p = Ty.Void) then inl (VoidParam b i) else recordDef (bp_id p) (bp_type p) b (-1) D.

Definition recordResult (b i : nat) (inst : Instruction) (D : Defs) : Refusal + Defs :=
  if result inst =? kNoValue then inr D else recordDef (result inst) (type inst) b (Z.of_nat i) D.

Definition checkHandler (fn : Function) (b : nat) (blk : Block) : Check :=
  if handler blk =? kNoBlock then None
  else if Z.of_nat (length (blocks fn)) <=? handler blk then Some (HandlerOutOfRange b (handler blk))
  else match blocks fn !! Z.to_nat (handler blk) with
       | Some h => refuse_if (negb (empty (bparams h))) (HandlerHasParams (handler blk))
       | None => Some ReadsPastList
       end.

Definition checkHead (fn : Function) (b : nat) (blk : Block) : Check :=
  refuse_if (negb (bid blk =? u32 (Z.of_nat b))) (BlockIdMismatch b) ;?
  refuse_if (negb (Bool.eqb (bool_decide (copyClass blk = Shared)) (copyRegion blk =? kNoCopyRegion))) (CopyClassRegion b) ;?
  checkHandler fn b blk.

Definition recordBlock (fn : Function) (b : nat) (blk : Block) (D : Defs) : Refusal + Defs :=
  match checkHead fn b blk with
  | Some r => inl r
  | None =>
      let! D := gather (recordBlockParam b) 0 (bparams blk) D in
      gather (recordResult b) 0 (instructions blk) D
  end.

(** [definedTypes] and [defLocations]. *)
Definition recordDefs (fn : Function) : Refusal + Defs :=
  let! D := gather recordParam 0 (params fn) ∅ in
  gather (recordBlock fn) 0 (blocks fn) D.

(** [definedTypes[id]], which is [Void] of an id it does not have. *)
Definition definedType (D : Defs) (id : Z) : Ty.t := match D !! id with Some d => dtype d | None => Ty.Void end.

(** ** Uses *)

(** What the uses are checked against. *)
Record Ctx := mkCtx { cfn : Function; cdefs : Defs; csuccs : list (list nat); cidom : list (option nat) }.

Definition sameCopy (d u : Block) : bool :=
  bool_decide (copyClass d = Shared) || (bool_decide (copyClass d = copyClass u) && (copyRegion d =? copyRegion u)).

Definition checkUse (c : Ctx) (id : Z) (useBlock useInst : nat) : Check :=
  match cdefs c !! id with
  | None => Some (UseOfUndefined id)
  | Some d =>
      if (dblock d =? useBlock)%nat && (Z.of_nat useInst <=? dinst d) then Some (UseAfterDef id)
      else if id <? u32 (Z.of_nat (length (params (cfn c)))) then None
      else
        match blocks (cfn c) !! dblock d, blocks (cfn c) !! useBlock with
        | Some db, Some ub =>
            refuse_if (negb (sameCopy db ub)) (OtherCopy id (dblock d) useBlock) ;?
            refuse_if (negb (dblock d =? useBlock)%nat && negb (dominates (csuccs c) (cidom c) (dblock d) useBlock)) (NotDominated id (dblock d) useBlock)
        | _, _ => Some ReadsPastList
        end
  end.

Definition checkArg (c : Ctx) (t : BlockTarget) (useBlock useInst : nat) (i : nat) (a : Z * BlockParam) : Check :=
  refuse_if (a.1 =? kNoValue) (SentinelArgument i (tblock t)) ;?
  checkUse c a.1 useBlock useInst ;?
  refuse_if (negb (bool_decide (definedType (cdefs c) a.1 = bp_type a.2))) (ArgumentType i (tblock t)).

Definition checkTarget (c : Ctx) (t : BlockTarget) (useBlock useInst : nat) : Check :=
  if Z.of_nat (length (blocks (cfn c))) <=? tblock t then Some (TargetOutOfRange (tblock t))
  else
    match blocks (cfn c) !! Z.to_nat (tblock t) with
    | None => Some ReadsPastList
    | Some tb =>
        refuse_if (negb (length (targs t) =? length (bparams tb))%nat) (ArgumentCount (tblock t) (length (bparams tb)) (length (targs t))) ;?
        each_at (checkArg c t useBlock useInst) 0 (zip (targs t) (bparams tb))
    end.

(** ** The shapes of the operations *)

Definition kTypedArrayPristineLength : Z := Z.shiftl 1 8.
Definition kTypedArrayAnyFloat : Z := 0x7F.
Definition TA_KIND_FLOAT64 : Z := 8.

Definition is_op (i : Instruction) (os : list Op.t) : bool := existsb (Op.eqb (op i)) os.
Definition arity (i : Instruction) (n : nat) : bool := (length (operands i) =? n)%nat.
Definition has_result (i : Instruction) : bool := negb (result i =? kNoValue).
Definition is_type (t u : Ty.t) : bool := bool_decide (t = u).
Definition operand (i : Instruction) (n : nat) : Z := nth n (operands i) kNoValue.
(** [operands[0]] is boxed. *)
Definition dynamic0 (D : Defs) (i : Instruction) : bool := is_type (definedType D (operand i 0)) Ty.Dynamic.

(** The last instruction that defines an id. *)
Definition lastDef (fn : Function) (id : Z) : option Instruction := List.find (fun d => result d =? id) (rev (all_insts fn)).

Definition layoutFactOperand (i : Instruction) : Z :=
  if negb (shapeGuarded i) then kNoValue
  else if Op.eqb (op i) Op.PropGet && arity i 2 then operand i 1
  else if Op.eqb (op i) Op.PropSet && arity i 3 then operand i 2
  else kNoValue.

Definition checkGuardTests (c : Ctx) (b i : nat) (inst : Instruction) : Check :=
  refuse_if (Op.eqb (op inst) Op.MethodIcIs && (negb (arity inst 1) || negb (is_type (type inst) Ty.Bool))) (BadShape (op inst)) ;?
  refuse_if (Op.eqb (op inst) Op.AccessorIcIs && (negb (arity inst 1) || negb (is_type (type inst) Ty.Bool))) (BadShape (op inst)) ;?
  refuse_if (is_op inst [Op.MethodSlotFn; Op.ClosureEnv] &&
             (negb (arity inst 1) || negb (is_type (type inst) Ty.Dynamic) || negb (has_result inst))) (BadShape (op inst)) ;?
  refuse_if (Op.eqb (op inst) Op.ClosureIs && (negb (arity inst 1) || negb (is_type (type inst) Ty.Bool))) (BadShape (op inst)) ;?
  refuse_if (Op.eqb (op inst) Op.ClosureEnv && negb (closureEnvProved (cfn c) b i (operand inst 0))) (ClosureEnvUnproved (operand inst 0) b) ;?
  refuse_if (Op.eqb (op inst) Op.IsShape &&
             (negb (arity inst 1) || negb (is_type (type inst) Ty.Bool) || negb (has_result inst) || negb (dynamic0 (cdefs c) inst) ||
              (staticSlot inst =? kNoStaticSlot))) (BadShape (op inst)).

(** A shape-guarded site: a bare load or store at a claimed slot, of a number, under a
    layout fact of its own receiver if any. *)
Definition guardedSite (inst : Instruction) : bool :=
  is_op inst [Op.PropGet; Op.PropSet] && negb (staticSlot inst =? kNoStaticSlot) && (directTarget inst =? kNoDirectTarget).

Definition guardedNumber (fn : Function) (inst : Instruction) : bool :=
  if negb (Op.eqb (op inst) Op.PropSet) then true
  else if (1 <? length (operands inst))%nat then
    match lastDef fn (operand inst 1) with
    | Some d => Op.eqb (op d) Op.Box && is_type (boxType d) Ty.F64
    | None => false
    end
  else false.

Definition checkShapeGuarded (fn : Function) (inst : Instruction) : Check :=
  if negb (shapeGuarded inst) then None
  else
    refuse_if (negb (guardedSite inst) || negb (guardedNumber fn inst)) (ShapeGuardWithoutClaim (op inst)) ;?
    let fact := layoutFactOperand inst in
    if fact =? kNoValue then None
    else refuse_if (negb match lastDef fn fact with
                         | Some d => Op.eqb (op d) Op.LayoutFact && arity d 1 && (operand d 0 =? operand inst 0)
                         | None => false
                         end) (NotALayoutFact (op inst)).

Definition checkFacts (c : Ctx) (inst : Instruction) : Check :=
  refuse_if (Op.eqb (op inst) Op.LayoutFact &&
             (negb (arity inst 1) || negb (is_type (type inst) Ty.F64) || negb (has_result inst) || negb (dynamic0 (cdefs c) inst) ||
              (staticSlot inst =? kNoStaticSlot))) (BadShape (op inst)) ;?
  let taKind := Z.land (immI32 inst) (Z.lnot kTypedArrayPristineLength) in
  let anyFloat := immI32 inst =? kTypedArrayAnyFloat in
  refuse_if (Op.eqb (op inst) Op.IsTypedArray &&
             (negb (arity inst 1) || negb (is_type (type inst) Ty.Bool) || negb (has_result inst) || negb (dynamic0 (cdefs c) inst) ||
              (negb anyFloat && ((taKind <? 0) || (TA_KIND_FLOAT64 <? taKind))))) (BadShape (op inst)).

(** The operands before the arguments of a call whose form is fixed. *)
Definition fixedPrefix (o : Op.t) : option nat :=
  match o with
  | Op.DynamicCall | Op.SuperCall => Some 2%nat
  | Op.MethodCall | Op.Construct => Some 1%nat
  | _ => None
  end.

Definition checkArgumentCount (inst : Instruction) : Check :=
  match fixedPrefix (op inst) with
  | Some p => refuse_if (p + 16 <? length (operands inst))%nat (TooManyArguments (op inst) (Z.of_nat (length (operands inst) - p)))
  | None => None
  end.

Definition checkCoroutine (c : Ctx) (inst : Instruction) : Check :=
  refuse_if (is_op inst [Op.CoroSuspend; Op.CoroMode] && negb (isCoroutineBody (cfn c))) (OutsideCoroutine (op inst)) ;?
  refuse_if (Op.eqb (op inst) Op.CoroSuspend &&
             (negb (arity inst 1) || negb (dynamic0 (cdefs c) inst) || negb (is_type (type inst) Ty.Dynamic))) (BadShape (op inst)) ;?
  refuse_if (Op.eqb (op inst) Op.CoroMode && negb (is_type (type inst) Ty.I32)) (BadResult (op inst) (result inst)).

Definition checkThrow (c : Ctx) (inst : Instruction) : Check :=
  if negb (Op.eqb (op inst) Op.Throw) then None
  else
    refuse_if (negb (arity inst 1)) (BadShape (op inst)) ;?
    refuse_if (negb (dynamic0 (cdefs c) inst)) (BadOperand (op inst) (operand inst 0)).

(** [is.number], and [is.dense_array] and [is.number_array], which take an index too. *)
Definition checkBarrier (c : Ctx) (inst : Instruction) : Check :=
  if negb (is_op inst [Op.IsNumber; Op.IsDenseArray; Op.IsNumberArray]) then None
  else
    refuse_if (negb (arity inst 1) || negb (has_result inst)) (BadShape (op inst)) ;?
    refuse_if (negb (dynamic0 (cdefs c) inst)) (BadOperand (op inst) (operand inst 0)) ;?
    refuse_if (negb (is_type (type inst) Ty.Bool)) (BadResult (op inst) (result inst)) ;?
    refuse_if (negb (Op.eqb (op inst) Op.IsNumber) && (immI32 inst <? 0)) (NegativeIndex (op inst) (immI32 inst)).

Definition checkTransfer (c : Ctx) (b i : nat) (inst : Instruction) : Check :=
  if Op.eqb (op inst) Op.Jump then checkTarget c (target inst) b i
  else if Op.eqb (op inst) Op.Branch then
    match operands inst with
    | [] => Some BranchWithoutCondition
    | cond :: _ =>
        refuse_if (negb (is_type (definedType (cdefs c) cond) Ty.Bool)) (ConditionNotBool cond) ;?
        refuse_if (tblock (target inst) =? tblock (elseTarget inst)) (SameTargets (tblock (target inst))) ;?
        checkTarget c (target inst) b i ;?
        checkTarget c (elseTarget inst) b i
    end
  else None.

(** The body of the loop over the instructions of a block. *)
Definition checkInst (c : Ctx) (b : nat) (len : nat) (i : nat) (inst : Instruction) : Check :=
  let isLast := (S i =? len)%nat in
  let term := isTerminator (op inst) in
  refuse_if (term && negb isLast) (TerminatorInside b) ;?
  refuse_if (negb term && isLast) (NoTerminator b) ;?
  each (fun id => checkUse c id b i) (operands inst) ;?
  refuse_if (Z.of_nat (length (inlineFrames (cfn c))) <? inlineFrame inst) (BadInlineFrame (inlineFrame inst)) ;?
  checkGuardTests c b i inst ;?
  checkShapeGuarded (cfn c) inst ;?
  checkFacts c inst ;?
  checkArgumentCount inst ;?
  checkCoroutine c inst ;?
  checkThrow c inst ;?
  checkBarrier c inst ;?
  checkTransfer c b i inst.

Definition checkBlock (c : Ctx) (b : nat) (blk : Block) : Check :=
  refuse_if (empty (instructions blk)) (NoInstructions b) ;?
  each_at (checkInst c b (length (instructions blk))) 0 (instructions blk).

(** [verifyFunction] up to its proofs. *)
Definition verifyBody (fn : Function) : Check :=
  match blocks fn with
  | [] => Some NoBlocks
  | b0 :: _ =>
      refuse_if (negb (bid b0 =? 0)) EntryIdNotZero ;?
      refuse_if (negb (empty (bparams b0))) EntryHasParams ;?
      match recordDefs fn with
      | inl r => Some r
      | inr D =>
          let g := buildCfg fn in
          match computeDominators g.1 g.2 with
          | None => Some NoFixpoint
          | Some idom => each_at (checkBlock (mkCtx fn D g.1 idom)) 0 (blocks fn) ;? verifyConcatChain fn
          end
      end
  end.
