(* ===== verification/IlSound.v ===== *)
(** * What a verified function does (src/src/il/verifier.cpp, il.h, il_op.h)

    A function run over the types of its values: a state is a position, what type of value
    each id holds, and the ids left behind, which are those of a block that was left
    before it had defined them.  To enter a block is to forget what it defines.  A block is
    left for its handler at any instruction that can throw.

    In a function the verifier accepts every id that is read holds a value of its declared
    type or was left behind, control never runs off a block, and nothing is stuck but by
    reading what was left behind. *)
From stdpp Require Import gmap relations.
From S2P Require Import Prelude Il IlCheck IlGraph IlDominators IlCfg IlEffects IlVerifier.
Local Open Scope Z_scope.

(** ** What is defined where *)

Notation Defined := (list (Z * Def)).

Fixpoint listed {A} (f : nat -> A -> Defined) (n : nat) (l : list A) : Defined :=
  match l with [] => [] | x :: l => f n x ++ listed f (S n) l end.

Definition param_defs (i : nat) (p : Param) : Defined := [(param_id i, mkDef (ptype p) 0 (-1))].
Definition block_param_defs (b _ : nat) (p : BlockParam) : Defined := [(bp_id p, mkDef (bp_type p) b (-1))].
Definition result_defs (b i : nat) (inst : Instruction) : Defined :=
  if result inst =? kNoValue then [] else [(result inst, mkDef (type inst) b (Z.of_nat i))].
Definition block_defs (b : nat) (blk : Block) : Defined :=
  listed (block_param_defs b) 0 (bparams blk) ++ listed (result_defs b) 0 (instructions blk).
Definition definitions (fn : Function) : Defined := listed param_defs 0 (params fn) ++ listed block_defs 0 (blocks fn).

Lemma elem_listed {A} (f : nat -> A -> Defined) l x : forall n, x ∈ listed f n l <-> exists i y, l !! i = Some y /\ x ∈ f (n + i)%nat y.
Proof.
  induction l as [|y l IH]; intros n; cbn.
  - split; [by intros ?%not_elem_of_nil|]. intros (i & y & E & _). by rewrite lookup_nil in E.
  - rewrite elem_of_app, IH. split.
    + intros [H|(i & z & E & H)]; [exists O, y; by rewrite Nat.add_0_r|]. exists (S i), z. by rewrite Nat.add_succ_r.
    + intros ([|i] & z & E & H); [left; injection E as <-; by rewrite Nat.add_0_r in H|right; exists i, z; by rewrite Nat.add_succ_r in H].
Qed.

(** The ids of [ds] were new, and are what was added. *)
Record adds (D : Defs) (ds : Defined) (D' : Defs) : Prop := {
  adds_iff v d : D' !! v = Some d <-> D !! v = Some d \/ (v, d) ∈ ds;
  adds_new v d : (v, d) ∈ ds -> v <> kNoValue /\ D !! v = None }.

Lemma adds_nil D : adds D [] D.
Proof. split; [|by intros v d ?%not_elem_of_nil]. intros v d. rewrite elem_of_nil. tauto. Qed.

Lemma adds_app D ds D1 ds' D' : adds D ds D1 -> adds D1 ds' D' -> adds D (ds ++ ds') D'.
Proof.
  intros [H1 H2] [H3 H4]. split; intros v d.
  - rewrite H3, H1, elem_of_app. tauto.
  - intros [H|H]%elem_of_app; [by apply (H2 v d)|]. destruct (H4 v d H) as [? Hn]. split; [done|].
    destruct (D !! v) as [d'|] eqn:E; [|done]. assert (D1 !! v = Some d') by (apply H1; by left). congruence.
Qed.

Lemma recordDef_adds id ty b i D D' : recordDef id ty b i D = inr D' -> adds D [(id, mkDef ty b i)] D'.
Proof.
  unfold recordDef. destruct (Z.eqb_spec id kNoValue) as [|Hid]; [done|]. destruct (D !! id) eqn:E; [done|]. intros [= <-]. split; intros v d.
  - rewrite list_elem_of_singleton. destruct (decide (v = id)) as [->|Hne].
    + rewrite lookup_insert_eq, E. split; [intros [= <-]; by right|]. by intros [|[= ->]].
    + rewrite lookup_insert_ne by done. split; [by left|]. by intros [|[= ? _]].
  - intros [= -> ->]%list_elem_of_singleton. done.
Qed.

Lemma gather_adds {A} (f : nat -> A -> Defs -> Refusal + Defs) (ds : nat -> A -> Defined) l : (forall i x D D', f i x D = inr D' -> adds D (ds i x) D') ->
  forall n D D', gather f n l D = inr D' -> adds D (listed ds n l) D'.
Proof.
  intros Hf. induction l as [|x l IH]; intros n D D' E; cbn in *; [injection E as <-; apply adds_nil|].
  destruct (f n x D) as [|D1] eqn:E1; [done|]. eapply adds_app; [by apply Hf|by apply IH].
Qed.

Lemma recordBlock_adds fn b blk D D' : recordBlock fn b blk D = inr D' -> adds D (block_defs b blk) D'.
Proof.
  unfold recordBlock, block_defs. destruct (checkHead fn b blk); [done|]. destruct (gather _ _ (bparams blk) D) as [|D1] eqn:E1; [done|]. intros E2.
  eapply adds_app; [eapply gather_adds; [|exact E1]|eapply gather_adds; [|exact E2]].
  - intros i p C C'. unfold recordBlockParam. case_bool_decide; [done|]. apply recordDef_adds.
  - intros i inst C C'. unfold recordResult, result_defs. destruct (result inst =? kNoValue); [intros [= <-]; apply adds_nil|apply recordDef_adds].
Qed.

Lemma recordDefs_adds fn D : recordDefs fn = inr D -> adds ∅ (definitions fn) D.
Proof.
  unfold recordDefs, definitions. destruct (gather recordParam 0 (params fn) ∅) as [|D1] eqn:E1; [done|]. intros E2.
  eapply adds_app; [eapply gather_adds; [|exact E1]|eapply gather_adds; [|exact E2]].
  - intros i p C C'. apply recordDef_adds.
  - intros b blk C C'. apply recordBlock_adds.
Qed.

(** ** The machine *)

Notation Env := (gmap Z Ty.t).
Record State := mkState { sblock : nat; sinst : nat; senv : Env; sleft : gset Z }.

Definition inst_at (fn : Function) (b i : nat) : option Instruction := blocks fn !! b ≫= fun blk => instructions blk !! i.

Definition transfers (inst : Instruction) : list BlockTarget :=
  if Op.eqb (op inst) Op.Jump then [target inst]
  else if Op.eqb (op inst) Op.Branch then [target inst; elseTarget inst] else [].

(** The ids an instruction reads: its operands, and the arguments it passes. *)
Definition uses (inst : Instruction) : list Z := operands inst ++ concat (map targs (transfers inst)).

Definition define (inst : Instruction) (env : Env) : Env :=
  if result inst =? kNoValue then env else <[result inst := type inst]> env.

(** The ids a block defines, and those it has not defined before an instruction. *)
Definition own (blk : Block) : gset Z := list_to_set (map bp_id (bparams blk) ++ map result (instructions blk)).
Definition unreached (blk : Block) (i : nat) : gset Z := list_to_set (map result (drop i (instructions blk))).

Definition bind (blk : Block) (tys : list Ty.t) (env : Env) : Env :=
  list_to_map (zip (map bp_id (bparams blk)) tys) ∪ filter (fun x => x.1 ∉ own blk) env.

Definition enter (fn : Function) (s : State) (from to : Block) (b : nat) (tys : list Ty.t) : State :=
  mkState b 0 (bind to tys (senv s)) ((sleft s ∪ unreached from (sinst s)) ∖ own to).

Definition reads (env : Env) (inst : Instruction) : Prop := Forall (fun v => is_Some (env !! v)) (operands inst).

Inductive step (fn : Function) (s : State) : State -> Prop :=
  | step_on inst :
      inst_at fn (sblock s) (sinst s) = Some inst -> reads (senv s) inst -> isTerminator (op inst) = false ->
      step fn s (mkState (sblock s) (S (sinst s)) (define inst (senv s)) (sleft s))
  | step_to inst from t to b tys :
      inst_at fn (sblock s) (sinst s) = Some inst -> reads (senv s) inst -> t ∈ transfers inst ->
      blocks fn !! sblock s = Some from -> tblock t = Z.of_nat b -> blocks fn !! b = Some to ->
      mapM (fun v => senv s !! v) (targs t) = Some tys -> length tys = length (bparams to) ->
      step fn s (enter fn s from to b tys)
  | step_unwind inst from to b :
      inst_at fn (sblock s) (sinst s) = Some inst -> reads (senv s) inst -> canThrow inst = true \/ op inst = Op.Throw ->
      blocks fn !! sblock s = Some from -> handler from = Z.of_nat b -> handler from <> kNoBlock -> blocks fn !! b = Some to ->
      step fn s (enter fn s from to b []).

(** A call: the parameters hold values of their types. *)
Definition start (fn : Function) : State :=
  mkState 0 0 (list_to_map (imap (fun i p => (param_id i, ptype p)) (params fn))) ∅.

(** ** What acceptance says *)

Lemma gather_each {A S} (f : nat -> A -> S -> Refusal + S) l : forall n s s', gather f n l s = inr s' ->
  forall i x, l !! i = Some x -> exists s1 s2, f (n + i)%nat x s1 = inr s2.
Proof.
  induction l as [|y l IH]; intros n s s' E i x Hx; [by rewrite lookup_nil in Hx|]. cbn in E. destruct (f n y s) as [|s1] eqn:E1; [done|].
  destruct i as [|i]; [injection Hx as <-; rewrite Nat.add_0_r; by exists s, s1|]. rewrite Nat.add_succ_r. by apply (IH (Datatypes.S n) s1 s').
Qed.

Section Accepted.
Context (fn : Function) (Hf : fits_function fn) (D : Defs) (idom : list (option nat)).
Context (Hrec : recordDefs fn = inr D) (Hidom : computeDominators (buildCfg fn).1 (buildCfg fn).2 = Some idom).
#[local] Notation ctx := (mkCtx fn D (buildCfg fn).1 idom).
Context (Hentry : forall b0, head (blocks fn) = Some b0 -> bparams b0 = []).
Context (Hblocks : forall b blk, blocks fn !! b = Some blk -> checkBlock ctx b blk = None).
#[local] Notation nparams := (u32 (Z.of_nat (length (params fn)))).

Lemma accepted_head b blk : blocks fn !! b = Some blk -> checkHead fn b blk = None.
Proof.
  intros Hb. pose proof Hrec as H. unfold recordDefs in H. destruct (gather recordParam 0 (params fn) ∅) as [|D1]; [done|].
  destruct (gather_each _ _ _ _ _ H b blk Hb) as (s1 & s2 & E). unfold recordBlock in E. by destruct (checkHead fn (0 + b) blk) eqn:Eh.
Qed.

Lemma handler_bare b blk h : blocks fn !! b = Some blk -> handler blk = Z.of_nat h -> handler blk <> kNoBlock ->
  exists hb, blocks fn !! h = Some hb /\ bparams hb = [].
Proof.
  intros Hb Eh Hne. pose proof (accepted_head b blk Hb) as H. unfold checkHead in H. rewrite !andThen_none in H. destruct H as (_ & _ & H).
  unfold checkHandler in H. destruct (Z.eqb_spec (handler blk) kNoBlock); [done|]. destruct (_ <=? _); [done|]. rewrite Eh, Nat2Z.id in H.
  destruct (blocks fn !! h) as [hb|]; [|done]. exists hb. split; [done|]. apply refuse_if_none in H. by destruct (bparams hb).
Qed.

(** The definitions of the parameters, and then those of the blocks. *)
Lemma recorded : exists D1, adds ∅ (listed param_defs 0 (params fn)) D1 /\ adds D1 (listed block_defs 0 (blocks fn)) D.
Proof.
  pose proof Hrec as H. unfold recordDefs in H. destruct (gather recordParam 0 (params fn) ∅) as [|D1] eqn:E1; [done|]. exists D1. split.
  - eapply gather_adds; [|exact E1]. intros i p C C'. apply recordDef_adds.
  - eapply gather_adds; [|exact H]. intros b blk C C'. apply recordBlock_adds.
Qed.

Lemma params_few : Z.of_nat (length (params fn)) < kNoValue + 1.
Proof.
  destruct recorded as (D1 & [_ H1] & _). destruct (decide (Z.of_nat (length (params fn)) < kNoValue + 1)) as [|Hge]; [done|].
  destruct (lookup_lt_is_Some_2 (params fn) (Z.to_nat kNoValue)) as [p Hp]; [unfold kNoValue, kNone32 in *; lia|].
  destruct (H1 kNoValue (mkDef (ptype p) 0 (-1))) as [? _]; [|done]. apply elem_listed. exists (Z.to_nat kNoValue), p. split; [done|].
  cbn [Nat.add]. unfold param_defs, param_id. rewrite Z2Nat.id by (unfold kNoValue, kNone32; lia). apply list_elem_of_singleton. f_equal.
Qed.

Lemma nparams_eq : nparams = Z.of_nat (length (params fn)).
Proof. pose proof params_few. unfold u32. apply Z.mod_small. unfold kNoValue, kNone32 in *. lia. Qed.

Lemma param_id_eq i p : params fn !! i = Some p -> param_id i = Z.of_nat i /\ param_id i < nparams.
Proof.
  intros H. apply lookup_lt_Some in H. rewrite nparams_eq. pose proof params_few. unfold param_id, u32.
  rewrite Z.mod_small by (unfold kNoValue, kNone32 in *; lia). lia.
Qed.

Lemma param_def i p : params fn !! i = Some p -> D !! param_id i = Some (mkDef (ptype p) 0 (-1)).
Proof.
  intros Hp. destruct recorded as (D1 & [H1 _] & [H2 _]). apply H2. left. apply H1. right. apply elem_listed. exists i, p. split; [done|]. by apply list_elem_of_singleton.
Qed.

Lemma block_def b blk v d : blocks fn !! b = Some blk -> (v, d) ∈ block_defs b blk -> D !! v = Some d /\ dblock d = b /\ nparams <= v /\ v <> kNoValue.
Proof.
  intros Hb Hin. destruct recorded as (D1 & [H1 _] & [H2 H3]). assert ((v, d) ∈ listed block_defs 0 (blocks fn)) as Hl by (apply elem_listed; by exists b, blk).
  destruct (H3 v d Hl) as [Hk Hnew]. split_and!; [apply H2; by right| | |done].
  - apply elem_of_app in Hin as [Hin|Hin]; apply elem_listed in Hin as (i & y & _ & Hin).
    + apply list_elem_of_singleton in Hin as [= _ ->]. done.
    + unfold result_defs in Hin. destruct (_ =? _); [by apply not_elem_of_nil in Hin|]. apply list_elem_of_singleton in Hin as [= _ ->]. done.
  - destruct (decide (nparams <= v)) as [|Hlt]; [done|]. rewrite nparams_eq in Hlt.
    assert (0 <= v) as H0.
    { destruct (fu_blocks _ Hf) as [Hall _]. rewrite Forall_forall in Hall. destruct (Hall blk) as [_ [Hps _] _ _ [His _]]; [by eapply list_elem_of_lookup_2|].
      rewrite Forall_forall in Hps. rewrite Forall_forall in His. apply elem_of_app in Hin as [Hin|Hin]; apply elem_listed in Hin as (i & y & Hy & Hin).
      - apply list_elem_of_singleton in Hin as [= -> _]. destruct (Hps y); [by eapply list_elem_of_lookup_2|done].
      - unfold result_defs in Hin. destruct (_ =? _); [by apply not_elem_of_nil in Hin|]. apply list_elem_of_singleton in Hin as [= -> _].
        destruct (fi_result y); [apply His; by eapply list_elem_of_lookup_2|done]. }
    destruct (lookup_lt_is_Some_2 (params fn) (Z.to_nat v)) as [p Hp]; [lia|]. destruct (param_id_eq _ _ Hp) as [Ei _]. rewrite Z2Nat.id in Ei by done.
    assert (D1 !! v = Some (mkDef (ptype p) 0 (-1))); [|congruence]. apply H1. right. apply elem_listed. exists (Z.to_nat v), p. split; [done|]. unfold param_defs. cbn [Nat.add]. rewrite Ei. by apply list_elem_of_singleton.
Qed.

Lemma def_cases v d : D !! v = Some d ->
  (exists i p, params fn !! i = Some p /\ v = param_id i /\ d = mkDef (ptype p) 0 (-1)) \/
  exists blk, blocks fn !! dblock d = Some blk /\ (v, d) ∈ block_defs (dblock d) blk.
Proof.
  intros E. destruct recorded as (D1 & [H1 _] & [H2 _]). apply H2 in E. destruct E as [E|E].
  - apply H1 in E. destruct E as [E|E]; [by rewrite lookup_empty in E|]. left. apply elem_listed in E. destruct E as (i & p & Hp & Ei).
    apply list_elem_of_singleton in Ei as [= -> ->]. by exists i, p.
  - right. apply elem_listed in E. destruct E as (b & blk & Hb & Eb). destruct (block_def b blk v d Hb Eb) as (_ & Hd & _). exists blk. rewrite Hd. done.
Qed.

(** What a block defines, by where: a parameter before every instruction, or a result. *)
Lemma block_def_where b blk v d : (v, d) ∈ block_defs b blk ->
  (dinst d = -1 /\ exists i p, bparams blk !! i = Some p /\ bp_id p = v /\ dtype d = bp_type p) \/
  (exists i inst, dinst d = Z.of_nat i /\ instructions blk !! i = Some inst /\ result inst = v /\ type inst = dtype d /\ v <> kNoValue).
Proof.
  intros [H|H]%elem_of_app; apply elem_listed in H as (i & y & Hy & H).
  - apply list_elem_of_singleton in H as [= -> ->]. left. split; [done|]. by exists i, y.
  - unfold result_defs in H. destruct (Z.eqb_spec (result y) kNoValue) as [|Hne]; [by apply not_elem_of_nil in H|].
    apply list_elem_of_singleton in H as [= -> ->]. right. by exists i, y.
Qed.

Lemma own_block_def b blk v : v ∈ own blk -> v <> kNoValue -> exists d, (v, d) ∈ block_defs b blk.
Proof.
  unfold own. intros [H|H]%elem_of_list_to_set%elem_of_app Hne; apply list_elem_of_fmap in H as (y & -> & [i Hi]%list_elem_of_lookup).
  - exists (mkDef (bp_type y) b (-1)). apply elem_of_app. left. apply elem_listed. exists i, y. split; [done|]. by apply list_elem_of_singleton.
  - exists (mkDef (type y) b (Z.of_nat i)). apply elem_of_app. right. apply elem_listed. exists i, y. split; [done|]. unfold result_defs.
    destruct (Z.eqb_spec (result y) kNoValue); [done|]. by apply list_elem_of_singleton.
Qed.

Lemma block_def_own b blk v d : (v, d) ∈ block_defs b blk -> v ∈ own blk.
Proof.
  intros [(_ & i & p & Hp & <- & _)|(i & inst & _ & Hi & <- & _)]%block_def_where; unfold own; apply elem_of_list_to_set, elem_of_app; [left|right];
    apply list_elem_of_fmap; eexists; (split; [done|]); by eapply list_elem_of_lookup_2.
Qed.

Lemma no_sentinel : D !! kNoValue = None.
Proof.
  destruct (D !! kNoValue) as [d|] eqn:Hd; [|done]. destruct (def_cases _ _ Hd) as [(i & p & Hp & E & _)|(blk & Hb & Hin)].
  - pose proof params_few. destruct (param_id_eq _ _ Hp) as [E' _]. apply lookup_lt_Some in Hp. unfold kNoValue, kNone32 in *. lia.
  - by destruct (block_def _ _ _ _ Hb Hin) as (_ & _ & _ & ?).
Qed.

Lemma result_def b i blk inst : blocks fn !! b = Some blk -> instructions blk !! i = Some inst -> result inst <> kNoValue ->
  D !! result inst = Some (mkDef (type inst) b (Z.of_nat i)) /\ nparams <= result inst.
Proof.
  intros Hb Hi Hne. destruct (block_def b blk (result inst) (mkDef (type inst) b (Z.of_nat i)) Hb) as (E & _ & H & _); [|done].
  apply elem_of_app. right. apply elem_listed. exists i, inst. split; [done|]. unfold result_defs.
  destruct (Z.eqb_spec (result inst) kNoValue); [done|]. by apply list_elem_of_singleton.
Qed.

(** What belongs to another block, or to none, is not of a block. *)
Lemma not_own b blk v d : blocks fn !! b = Some blk -> D !! v = Some d -> dblock d <> b \/ v < nparams -> v ∉ own blk.
Proof.
  intros Hb Hd Hne Ho. assert (v <> kNoValue) as Hk by (intros ->; rewrite no_sentinel in Hd; done).
  destruct (own_block_def b blk v Ho Hk) as [d' Hd']. destruct (block_def b blk v d' Hb Hd') as (E & Eb & Hn & _).
  assert (d' = d) as -> by congruence. destruct Hne; [done|lia].
Qed.

(** ** The invariant *)

Record good (s : State) : Prop := {
  good_path : exists l, path (flows fn) l (sblock s) /\ forall v d, D !! v = Some d -> nparams <= v -> dblock d ∈ l -> dblock d <> sblock s ->
    senv s !! v = Some (dtype d) \/ v ∈ sleft s;
  good_params v d : D !! v = Some d -> v < nparams -> senv s !! v = Some (dtype d);
  good_here v d : D !! v = Some d -> nparams <= v -> dblock d = sblock s -> dinst d < Z.of_nat (sinst s) -> senv s !! v = Some (dtype d);
  good_types v t : senv s !! v = Some t -> exists d, D !! v = Some d /\ dtype d = t;
  good_at : exists inst, inst_at fn (sblock s) (sinst s) = Some inst }.

Lemma bind_other to tys env v : v ∉ own to -> bind to tys env !! v = env !! v.
Proof.
  intros Hv. unfold bind. rewrite lookup_union_r.
  - destruct (env !! v) as [t|] eqn:E; [by apply map_lookup_filter_Some|]. apply map_lookup_filter_None. by left.
  - apply not_elem_of_list_to_map_1. intros H. apply Hv. unfold own. apply elem_of_list_to_set, elem_of_app. left.
    apply list_elem_of_fmap in H as ([x t] & -> & H). cbn. by eapply elem_of_zip_l.
Qed.

(** The parameters of a block it is entered with. *)
Lemma bind_params b to tys v t : blocks fn !! b = Some to -> Forall2 (fun p t => bp_type p = t) (bparams to) tys ->
  (list_to_map (zip (map bp_id (bparams to)) tys) : Env) !! v = Some t -> exists d, D !! v = Some d /\ dtype d = t.
Proof.
  intros Hb Hty H. apply elem_of_list_to_map_2, list_elem_of_lookup in H as [i H]. apply lookup_zip_Some in H as [H1 H2].
  rewrite list_lookup_fmap in H1. destruct (bparams to !! i) as [p|] eqn:Ep; [|done]. injection H1 as <-.
  destruct (Forall2_lookup_l _ _ _ _ _ Hty Ep) as (t' & Et & Hpt). exists (mkDef (bp_type p) b (-1)). split; [|cbn; congruence].
  apply (block_def b to); [done|]. apply elem_of_app. left. apply elem_listed. exists i, p. split; [done|]. by apply list_elem_of_singleton.
Qed.

Lemma bind_types b to tys (env : Env) v t : blocks fn !! b = Some to -> Forall2 (fun p t => bp_type p = t) (bparams to) tys ->
  (forall v t, env !! v = Some t -> exists d, D !! v = Some d /\ dtype d = t) -> bind to tys env !! v = Some t -> exists d, D !! v = Some d /\ dtype d = t.
Proof.
  intros Hb Hty Henv [H|[_ H]]%lookup_union_Some_raw; [by eapply (bind_params b to)|]. apply map_lookup_filter_Some in H as [H _]. by apply Henv.
Qed.

Lemma bind_here b to tys (env : Env) i p : blocks fn !! b = Some to -> Forall2 (fun p t => bp_type p = t) (bparams to) tys ->
  bparams to !! i = Some p -> bind to tys env !! bp_id p = Some (bp_type p).
Proof.
  intros Hb Hty Hp. destruct (Forall2_lookup_l _ _ _ _ _ Hty Hp) as (t & Et & Hpt).
  assert (is_Some ((list_to_map (zip (map bp_id (bparams to)) tys) : Env) !! bp_id p)) as [t' Ht'].
  { apply not_eq_None_Some. intros En. apply not_elem_of_list_to_map_2 in En. apply En, list_elem_of_fmap. exists (bp_id p, t). split; [done|]. apply list_elem_of_lookup. exists i.
    apply lookup_zip_Some. split; [by rewrite list_lookup_fmap, Hp|done]. }
  unfold bind. rewrite (lookup_union_Some_l _ _ _ _ Ht'). destruct (bind_params b to tys _ _ Hb Hty Ht') as (d & Hd & <-).
  assert (D !! bp_id p = Some (mkDef (bp_type p) b (-1))) as E; [|rewrite E in Hd; by injection Hd as <-].
  apply (block_def b to); [done|]. apply elem_of_app. left. apply elem_listed. exists i, p. split; [done|]. by apply list_elem_of_singleton.
Qed.

(** Whatever block is entered next, and from wherever. *)
Lemma enter_good s from to b tys : good s -> blocks fn !! sblock s = Some from -> flows fn (sblock s) b -> blocks fn !! b = Some to ->
  Forall2 (fun p t => bp_type p = t) (bparams to) tys -> good (enter fn s from to b tys).
Proof.
  intros [(l & Hl & Hvis) Hpar Hhere Hty Hat] Hfrom Hflow Hto Htys. unfold enter. constructor; cbn [sblock sinst senv sleft].
  - exists (l ++ [b]). split; [by eapply path_edge|]. intros v d Hd Hn Hin Hne.
    pose proof (not_own b to v d Hto Hd (or_introl Hne)) as Ho. rewrite (bind_other to tys _ v Ho). rewrite elem_of_difference, elem_of_union.
    destruct (decide (dblock d = sblock s)) as [Eb|Hs].
    + destruct (decide (dinst d < Z.of_nat (sinst s))) as [Hlt|Hge]; [left; by apply Hhere|]. right. split; [right|done].
      destruct (def_cases v d Hd) as [(i & p & Hp & -> & _)|(blk & Hb & Hdef)]; [pose proof (param_id_eq _ _ Hp); lia|].
      rewrite Eb, Hfrom in Hb. injection Hb as <-.
      destruct (block_def_where _ _ _ _ Hdef) as [(Hi & _)|(i & inst & Hi & Ei & <- & _)]; [lia|].
      unfold unreached. apply elem_of_list_to_set, list_elem_of_fmap. exists inst. split; [done|]. apply list_elem_of_lookup. exists (i - sinst s)%nat.
      rewrite lookup_drop. rewrite <- Ei. f_equal. lia.
    + apply elem_of_app in Hin as [Hin|Hin%list_elem_of_singleton]; [|done]. destruct (Hvis v d Hd Hn Hin Hs) as [H|H]; [by left|right]. split; [by left|done].
  - intros v d Hd Hn. rewrite bind_other; [by apply Hpar|]. by apply (not_own b to v d); [..|right].
  - intros v d Hd Hn Eb Hi. destruct (def_cases v d Hd) as [(i & p & Hp & -> & _)|(blk & Hb & Hdef)]; [pose proof (param_id_eq _ _ Hp); lia|].
    rewrite Eb, Hto in Hb. injection Hb as <-.
    destruct (block_def_where _ _ _ _ Hdef) as [(_ & i & p & Hp & <- & ->)|(i & inst & Hi' & _)]; [|lia]. by eapply bind_here.
  - intros v t. by apply (bind_types b).
  - pose proof (Hblocks b to Hto) as H. unfold checkBlock in H. rewrite andThen_none, refuse_if_none in H. destruct H as [H _].
    unfold inst_at. rewrite Hto. cbn. destruct (instructions to) as [|i rest]; [done|]. by exists i.
Qed.

(** ** Reads *)

Lemma use_ok s v : good s -> checkUse ctx v (sblock s) (sinst s) = None -> exists d, D !! v = Some d /\ (senv s !! v = Some (dtype d) \/ v ∈ sleft s).
Proof.
  intros [(l & Hl & Hvis) Hpar Hhere _ _] Hu. unfold checkUse in Hu. cbn [cdefs cfn csuccs cidom] in Hu. destruct (D !! v) as [d|] eqn:Hd; [|done].
  exists d. split; [done|]. destruct ((dblock d =? sblock s)%nat && _)%bool eqn:E1; [done|]. destruct (Z.ltb_spec v nparams) as [Hn|Hn]; [left; by apply Hpar|].
  destruct (Nat.eqb_spec (dblock d) (sblock s)) as [Eb|Hne]; cbn in E1.
  - left. apply Hhere; [done..|]. apply Z.leb_gt in E1. lia.
  - destruct (blocks fn !! dblock d) as [db|]; [|done]. destruct (blocks fn !! sblock s) as [ub|] eqn:Eb; [|done].
    rewrite andThen_none, !refuse_if_none in Hu. destruct Hu as [_ Hu]. cbn in Hu. apply negb_false_iff in Hu. apply Hvis; [done|done| |done].
    apply (dominates_path fn idom _ (sblock s)); [done|by intros E; rewrite E in Eb|done|done|by left].
Qed.

Lemma inst_checked b i inst : inst_at fn b i = Some inst ->
  exists blk, blocks fn !! b = Some blk /\ instructions blk !! i = Some inst /\ checkInst ctx b (length (instructions blk)) i inst = None.
Proof.
  unfold inst_at. destruct (blocks fn !! b) as [blk|] eqn:Eb; [|done]. cbn. intros Hi. exists blk. split_and!; [done|done|].
  pose proof (Hblocks b blk Eb) as H. unfold checkBlock in H. rewrite andThen_none, each_at_none in H. destruct H as [_ H]. by apply (H i inst).
Qed.

Lemma checked_parts b n i inst : checkInst ctx b n i inst = None ->
  (isTerminator (op inst) = true <-> S i = n) /\ Forall (fun v => checkUse ctx v b i = None) (operands inst) /\ checkTransfer ctx b i inst = None.
Proof.
  unfold checkInst. rewrite !andThen_none, !refuse_if_none, each_none. intros (H1 & H2 & H3 & _ & _ & _ & _ & _ & _ & _ & _ & H4). split_and!; [|done|done].
  destruct (isTerminator (op inst)), (Nat.eqb_spec (S i) n); split; done.
Qed.

Lemma transfer_checked b i inst t : checkTransfer ctx b i inst = None -> t ∈ transfers inst -> checkTarget ctx t b i = None.
Proof.
  unfold checkTransfer, transfers. destruct (Op.eqb (op inst) Op.Jump); [by intros H ->%list_elem_of_singleton|].
  destruct (Op.eqb (op inst) Op.Branch); [|by intros _ ?%not_elem_of_nil]. destruct (operands inst); [done|]. rewrite !andThen_none.
  intros (_ & _ & H1 & H2) [->| ->%list_elem_of_singleton]%elem_of_cons; done.
Qed.

Lemma target_parts t b i : 0 <= tblock t -> checkTarget ctx t b i = None -> exists k to, tblock t = Z.of_nat k /\ blocks fn !! k = Some to /\
  Forall2 (fun v p => checkUse ctx v b i = None /\ definedType D v = bp_type p) (targs t) (bparams to).
Proof.
  intros H0. unfold checkTarget. cbn [cfn cdefs]. destruct (_ <=? _); [done|]. destruct (blocks fn !! Z.to_nat (tblock t)) as [to|] eqn:Et; [|done].
  rewrite andThen_none, refuse_if_none, each_at_none. intros [Hlen Hargs]. apply negb_false_iff, Nat.eqb_eq in Hlen.
  exists (Z.to_nat (tblock t)), to. split_and!; [lia|done|]. apply Forall2_same_length_lookup_2; [done|]. intros k v p Hv Hp.
  specialize (Hargs k (v, p)). cbn [Nat.add] in Hargs. unfold checkArg in Hargs. rewrite !andThen_none, !refuse_if_none in Hargs.
  destruct Hargs as (_ & Hu & Ht); [by apply lookup_zip_Some|]. split; [done|]. cbn in Ht. by case_bool_decide.
Qed.

Lemma transfer_fits b i inst t : inst_at fn b i = Some inst -> t ∈ transfers inst -> 0 <= tblock t.
Proof.
  intros Hi Ht. destruct (inst_checked b i inst Hi) as (blk & Hb & Hii & _). destruct (fu_blocks _ Hf) as [Hall _]. rewrite Forall_forall in Hall.
  destruct (fb_instructions _ (Hall blk (list_elem_of_lookup_2 _ _ _ Hb))) as [His _]. rewrite Forall_forall in His.
  destruct (His inst (list_elem_of_lookup_2 _ _ _ Hii)). destruct fi_target as [[? _] _], fi_else as [[? _] _]. unfold transfers in Ht.
  destruct (Op.eqb _ _); [by apply list_elem_of_singleton in Ht as ->|].
  destruct (Op.eqb _ _); [|by apply not_elem_of_nil in Ht]. by apply elem_of_cons in Ht as [->| ->%list_elem_of_singleton].
Qed.

Lemma transfer_parts b i inst t : inst_at fn b i = Some inst -> t ∈ transfers inst -> exists k to, tblock t = Z.of_nat k /\ blocks fn !! k = Some to /\
  Forall2 (fun v p => checkUse ctx v b i = None /\ definedType D v = bp_type p) (targs t) (bparams to).
Proof.
  intros Hi Ht. destruct (inst_checked b i inst Hi) as (blk & _ & _ & Hc). destruct (checked_parts _ _ _ _ Hc) as (_ & _ & Htr).
  apply target_parts; [by eapply transfer_fits|by eapply transfer_checked].
Qed.

Lemma elem_uses v inst : v ∈ uses inst <-> v ∈ operands inst \/ exists t, t ∈ transfers inst /\ v ∈ targs t.
Proof.
  unfold uses. rewrite elem_of_app, list_elem_of_In, (list_elem_of_In (concat _)), in_concat. setoid_rewrite in_map_iff. setoid_rewrite <- list_elem_of_In. naive_solver.
Qed.

Lemma uses_checked b i inst v : inst_at fn b i = Some inst -> v ∈ uses inst -> checkUse ctx v b i = None.
Proof.
  intros Hi [H|(t & Ht & Hv)]%elem_uses.
  - destruct (inst_checked b i inst Hi) as (blk & _ & _ & Hc). destruct (checked_parts _ _ _ _ Hc) as (_ & Hops & _). rewrite Forall_forall in Hops. by apply Hops.
  - destruct (transfer_parts b i inst t Hi Ht) as (k & to & _ & _ & Hall).
    apply list_elem_of_lookup in Hv as [j Hj]. by destruct (Forall2_lookup_l _ _ _ _ _ Hall Hj) as (p & _ & Hu & _).
Qed.

(** ** Steps *)

Context (Hfew : Z.of_nat (length (blocks fn)) <= kNoBlock).

Lemma transfers_end inst t : t ∈ transfers inst -> isTerminator (op inst) = true.
Proof.
  unfold transfers, isTerminator. destruct (Op.eqb (op inst) Op.Jump); [by rewrite orb_true_r|].
  destruct (Op.eqb (op inst) Op.Branch); [by rewrite !orb_true_r|by intros ?%not_elem_of_nil].
Qed.

Lemma transfer_last b i inst t : inst_at fn b i = Some inst -> t ∈ transfers inst ->
  exists blk, blocks fn !! b = Some blk /\ last (instructions blk) = Some inst /\ tblock t ∈ targets blk.
Proof.
  intros Hi Ht. destruct (inst_checked b i inst Hi) as (blk & Hb & Hii & Hc). destruct (checked_parts _ _ _ _ Hc) as ([Hterm _] & _ & _).
  assert (last (instructions blk) = Some inst) as Hlast.
  { rewrite last_lookup, <- Hterm; [done|]. by eapply transfers_end. }
  exists blk. split_and!; [done|done|]. unfold targets. rewrite Hlast. apply elem_of_app. right. unfold transfers in Ht.
  destruct (Op.eqb (op inst) Op.Jump); [apply list_elem_of_singleton in Ht as ->; by left|].
  destruct (Op.eqb (op inst) Op.Branch); [|by apply not_elem_of_nil in Ht]. apply elem_of_cons in Ht as [->| ->%list_elem_of_singleton]; [by left|right; by left].
Qed.

Lemma some_flows a b blk to : blocks fn !! a = Some blk -> to ∈ targets blk -> to = Z.of_nat b -> is_Some (blocks fn !! b) -> flows fn a b.
Proof.
  intros Ha Hin -> Hb%lookup_lt_is_Some. exists blk. split_and!; [done|done|]. exists (Z.of_nat b). split_and!; [done|lia|done].
Qed.

Lemma reads_types s args ps tys : good s -> Forall2 (fun v p => checkUse ctx v (sblock s) (sinst s) = None /\ definedType D v = bp_type p) args ps ->
  mapM (fun v => senv s !! v) args = Some tys -> Forall2 (fun p t => bp_type p = t) ps tys.
Proof.
  intros Hg H E. apply mapM_Some in E. revert tys E. induction H as [|v p args ps [_ Ht] _ IH]; intros tys E; inversion E as [|? t ? tys' Ev Et]; subst; constructor; [|by apply IH].
  destruct (good_types s Hg v t Ev) as (d & Hd & <-). rewrite <- Ht. unfold definedType. by rewrite Hd.
Qed.

Lemma on_good s inst : good s -> inst_at fn (sblock s) (sinst s) = Some inst -> isTerminator (op inst) = false ->
  good (mkState (sblock s) (S (sinst s)) (define inst (senv s)) (sleft s)).
Proof.
  intros [(l & Hl & Hvis) Hpar Hhere Hty _] Hi Hterm. destruct (inst_checked _ _ _ Hi) as (blk & Hb & Hii & Hc).
  destruct (checked_parts _ _ _ _ Hc) as ([_ Hlast] & _ & _).
  assert (forall v, v <> result inst \/ v = kNoValue -> define inst (senv s) !! v = senv s !! v) as Hold.
  { intros v Hv. unfold define. destruct (Z.eqb_spec (result inst) kNoValue); [done|]. rewrite lookup_insert_ne; [done|]. intros E. destruct Hv; congruence. }
  assert (forall d, D !! result inst = Some d -> d = mkDef (type inst) (sblock s) (Z.of_nat (sinst s)) /\ nparams <= result inst /\ define inst (senv s) !! result inst = Some (type inst)) as Hres.
  { intros d Hd. assert (result inst <> kNoValue) as Hne by (intros E; rewrite E, no_sentinel in Hd; done).
    destruct (result_def _ _ _ _ Hb Hii Hne). split_and!; [congruence|done|]. unfold define. destruct (Z.eqb_spec (result inst) kNoValue); [done|]. by rewrite lookup_insert_eq. }
  constructor; cbn [sblock sinst senv sleft].
  - exists l. split; [done|]. intros v d Hd Hn Hin Hne. destruct (decide (v = result inst)) as [->|]; [by destruct (Hres d Hd) as [-> _]|]. rewrite Hold by (by left). by apply Hvis.
  - intros v d Hd Hn. destruct (decide (v = result inst)) as [->|]; [destruct (Hres d Hd) as (_ & ? & _); lia|]. rewrite Hold by (by left). by apply Hpar.
  - intros v d Hd Hn Ed Hlt. destruct (decide (v = result inst)) as [->|Hv]; [destruct (Hres d Hd) as (-> & _ & ->); done|]. rewrite Hold by (by left).
    apply Hhere; [done..|]. destruct (decide (dinst d = Z.of_nat (sinst s))) as [E|]; [|lia]. exfalso. apply Hv.
    destruct (def_cases v d Hd) as [(i & p & Hp & -> & _)|(blk' & Hb' & Hdef)]; [pose proof (param_id_eq _ _ Hp); lia|].
    rewrite Ed, Hb in Hb'. injection Hb' as <-. destruct (block_def_where _ _ _ _ Hdef) as [(E' & _)|(i & inst' & Ei & Hi' & <- & _)]; [lia|].
    assert (i = sinst s) as -> by lia. congruence.
  - intros v t Hv. destruct (decide (v <> result inst \/ v = kNoValue)) as [Hne|Hv']; [rewrite Hold in Hv by done; by apply Hty|].
    assert (v = result inst) as -> by (destruct (decide (v = result inst)); [done|]; destruct Hv'; by left).
    assert (result inst <> kNoValue) as Hne by (intros E; apply Hv'; by right). destruct (result_def _ _ _ _ Hb Hii Hne) as [Hd _].
    destruct (Hres _ Hd) as (_ & _ & E). rewrite E in Hv. injection Hv as <-. eexists. by split.
  - destruct (lookup_lt_is_Some_2 (instructions blk) (S (sinst s))) as [inst' Hi'].
    { apply lookup_lt_Some in Hii. rewrite Hterm in Hlast. destruct (decide (S (sinst s) = length (instructions blk))) as [E|]; [by specialize (Hlast E)|lia]. }
    exists inst'. unfold inst_at. by rewrite Hb.
Qed.

Lemma step_good s s' : good s -> step fn s s' -> good s'.
Proof.
  intros Hg [inst Hi _ Hterm|inst from t to b tys Hi _ Ht Hfrom Eb Hto Hm _|inst from to b Hi _ _ Hfrom Eb Hne Hto]; [by apply on_good| |].
  - destruct (transfer_last _ _ _ _ Hi Ht) as (blk & Hb & _ & Hin). rewrite Hb in Hfrom. injection Hfrom as ->.
    destruct (transfer_parts _ _ _ _ Hi Ht) as (k & to' & Ek & Hto' & Hall).
    assert (k = b) as -> by lia. assert (to' = to) as -> by congruence.
    apply enter_good; [done|done| |done|by eapply reads_types]. by apply (some_flows _ _ from (tblock t)).
  - destruct (handler_bare _ _ _ Hfrom Eb Hne) as (hb & Hhb & Hbare). assert (hb = to) as -> by congruence.
    apply enter_good; [done|done| |done|by rewrite Hbare]. apply (some_flows _ _ from (handler from)); [done| |done|done].
    unfold targets. destruct (Z.eqb_spec (handler from) kNoBlock); [done|]. by left.
Qed.

Lemma start_good : is_Some (head (blocks fn)) -> good (start fn).
Proof.
  intros [b0 Hb0]. assert (blocks fn !! 0%nat = Some b0) as H0 by (by destruct (blocks fn)).
  assert (forall v t, senv (start fn) !! v = Some t -> exists d, D !! v = Some d /\ dtype d = t) as Hty.
  { intros v t H. apply elem_of_list_to_map_2, elem_of_lookup_imap in H as (i & p & [= -> ->] & Hp). eexists. split; [by apply param_def|done]. }
  constructor; cbn [start sblock sinst sleft].
  - exists [O]. split; [constructor|]. intros v d _ _ ?%list_elem_of_singleton. done.
  - intros v d Hd Hn. destruct (def_cases v d Hd) as [(i & p & Hp & -> & _)|(blk & Hb & Hdef)].
    + destruct (senv (start fn) !! param_id i) as [t|] eqn:E; [destruct (Hty _ _ E) as (d' & Hd' & <-); congruence|].
      apply not_elem_of_list_to_map_2 in E. destruct E. apply list_elem_of_fmap. exists (param_id i, ptype p). split; [done|]. apply elem_of_lookup_imap. by exists i, p.
    + destruct (block_def _ _ _ _ Hb Hdef) as (_ & _ & ? & _). lia.
  - intros v d Hd Hn Eb Hlt. destruct (def_cases v d Hd) as [(i & p & Hp & -> & _)|(blk & Hb & Hdef)]; [pose proof (param_id_eq _ _ Hp); lia|].
    rewrite Eb, H0 in Hb. injection Hb as <-. destruct (block_def_where _ _ _ _ Hdef) as [(_ & i & p & Hp & _)|(i & inst & Hi & _)]; [|lia].
    by rewrite (Hentry b0 Hb0) in Hp.
  - exact Hty.
  - pose proof (Hblocks 0 b0 H0) as H. unfold checkBlock in H. rewrite andThen_none, refuse_if_none in H. destruct H as [H _].
    unfold inst_at. rewrite H0. cbn. destruct (instructions b0) as [|i rest]; [done|]. by exists i.
Qed.

Lemma run_good s : is_Some (head (blocks fn)) -> rtc (step fn) (start fn) s -> good s.
Proof. intros H0 Hs. revert s Hs. apply rtc_ind_r; [by apply start_good|]. intros x y _ Hxy Hx. by eapply step_good. Qed.

(** Where no block has a handler and no terminator a result, nothing is left behind. *)
Definition straight : Prop := forall b blk, blocks fn !! b = Some blk ->
  handler blk = kNoBlock /\ forall i, last (instructions blk) = Some i -> result i = kNoValue.

Lemma straight_left s s' : straight -> step fn s s' -> (forall v, v ∈ sleft s -> v = kNoValue) -> forall v, v ∈ sleft s' -> v = kNoValue.
Proof.
  intros Hs [inst _ _ _|inst from t to b tys Hi _ Ht Hfrom _ _ _ _|inst from to b _ _ _ Hfrom _ Hne _] Hl; [done| |].
  - destruct (transfer_last _ _ _ _ Hi Ht) as (blk & Hb & Hlast & _). rewrite Hb in Hfrom. injection Hfrom as ->.
    destruct (Hs _ _ Hb) as [_ Hr]. specialize (Hr inst Hlast). cbn. intros v [[Hv|Hv]%elem_of_union _]%elem_of_difference; [by apply Hl|].
    unfold unreached in Hv. apply elem_of_list_to_set, list_elem_of_fmap in Hv as (y & -> & Hy). unfold inst_at in Hi. rewrite Hb in Hi. cbn in Hi.
    destruct (inst_checked (sblock s) (sinst s) inst) as (blk & Hb' & _ & Hc); [unfold inst_at; by rewrite Hb|]. assert (blk = from) as -> by congruence.
    destruct (checked_parts _ _ _ _ Hc) as ([Hterm _] & _ & _). assert (drop (sinst s) (instructions from) = [inst]) as E.
    { rewrite (drop_S _ _ _ Hi), drop_ge; [done|]. rewrite Hterm; [done|]. by eapply transfers_end. }
    rewrite E in Hy. by apply list_elem_of_singleton in Hy as ->.
  - by destruct (Hs _ _ Hfrom).
Qed.

Lemma run_left s : straight -> rtc (step fn) (start fn) s -> forall v, v ∈ sleft s -> v = kNoValue.
Proof.
  intros Hst Hs. revert s Hs. apply (rtc_ind_r (R := step fn) (fun s => forall v, v ∈ sleft s -> v = kNoValue) (start fn)).
  - intros v Hv. by apply not_elem_of_empty in Hv.
  - intros x y _ Hxy. by eapply straight_left.
Qed.

(** How an id comes to be left behind: by a block with a handler, which it may leave before
    the id is defined, or by a jump or branch of which it is the result. *)
Definition left_by (v : Z) : Prop :=
  exists b blk k inst, blocks fn !! b = Some blk /\ instructions blk !! k = Some inst /\ result inst = v /\
    (handler blk <> kNoBlock \/ op inst = Op.Jump \/ op inst = Op.Branch).

Lemma unreached_result from k v : v ∈ unreached from k -> exists j inst, (k <= j)%nat /\ instructions from !! j = Some inst /\ result inst = v.
Proof.
  unfold unreached. intros (y & -> & [j Hj]%list_elem_of_lookup)%elem_of_list_to_set%list_elem_of_fmap. rewrite lookup_drop in Hj.
  exists (k + j)%nat, y. split; [lia|done].
Qed.

Lemma transfers_op inst t : t ∈ transfers inst -> op inst = Op.Jump \/ op inst = Op.Branch.
Proof.
  unfold transfers. destruct (Op.eqb_spec (op inst) Op.Jump); [by left|]. destruct (Op.eqb_spec (op inst) Op.Branch); [by right|]. by intros ?%not_elem_of_nil.
Qed.

Lemma step_left_by s s' : step fn s s' -> (forall v, v ∈ sleft s -> left_by v) -> forall v, v ∈ sleft s' -> left_by v.
Proof.
  intros [inst _ _ _|inst from t to b tys Hi _ Ht Hfrom _ _ _ _|inst from to b _ _ _ Hfrom _ Hne _] Hl; [done| |];
    cbn; intros v [[Hv|Hv]%elem_of_union _]%elem_of_difference; try (by apply Hl); apply unreached_result in Hv as (j & i & Hj & Hij & Hr).
  - exists (sblock s), from, j, i. split_and!; [done|done|done|right].
    unfold inst_at in Hi. destruct (inst_checked (sblock s) (sinst s) inst) as (blk & Hb' & Hii & Hc); [done|]. assert (blk = from) as -> by congruence.
    destruct (checked_parts _ _ _ _ Hc) as ([Hterm _] & _ & _). rewrite Hfrom in Hi. cbn in Hi.
    assert (j = sinst s) as ->; [|assert (i = inst) as -> by congruence; by eapply transfers_op].
    assert (S (sinst s) = length (instructions from)) as E; [|apply lookup_lt_Some in Hij; lia].
    rewrite Hterm; [done|]. by eapply transfers_end.
  - exists (sblock s), from, j, i. split_and!; [done|done|done|by left].
Qed.

Lemma run_left_by s : rtc (step fn) (start fn) s -> forall v, v ∈ sleft s -> left_by v.
Proof.
  intros Hs. revert s Hs. apply (rtc_ind_r (R := step fn) (fun s => forall v, v ∈ sleft s -> left_by v) (start fn)).
  - intros v Hv. by apply not_elem_of_empty in Hv.
  - intros x y _ Hxy. by apply step_left_by.
Qed.

(** Nothing is stuck whose reads are there. *)
Lemma good_steps s inst : good s -> inst_at fn (sblock s) (sinst s) = Some inst -> (forall v, v ∈ uses inst -> is_Some (senv s !! v)) ->
  op inst = Op.Ret \/ op inst = Op.Throw \/ exists s', step fn s s'.
Proof.
  intros Hg Hi Hu. assert (reads (senv s) inst) as Hr by (apply Forall_forall; intros v Hv; apply Hu, elem_uses; by left).
  destruct (isTerminator (op inst)) eqn:Et; [|right; right; eexists; by eapply step_on].
  destruct (transfers inst) as [|t ts] eqn:E.
  - unfold transfers, isTerminator in *. destruct (Op.eqb_spec (op inst) Op.Ret), (Op.eqb_spec (op inst) Op.Throw), (Op.eqb (op inst) Op.Jump), (Op.eqb (op inst) Op.Branch); try done; tauto.
  - right; right. assert (t ∈ transfers inst) as Ht by (rewrite E; by left). destruct (transfer_parts _ _ _ _ Hi Ht) as (k & to & Ek & Hto & Hall). destruct (inst_checked _ _ _ Hi) as (from & Hfrom & _).
    assert (is_Some (mapM (fun v => senv s !! v) (targs t))) as [tys Hm].
    { apply mapM_is_Some. apply Forall_forall. intros v Hv. apply Hu, elem_uses. right. by exists t. }
    eexists. eapply step_to; [done|done|exact Ht|done|exact Ek|done|exact Hm|]. apply mapM_Some, Forall2_length in Hm. rewrite <- Hm. by eapply Forall2_length.
Qed.
End Accepted.

(** ** The claims *)

Lemma verified_parts fn : verifyBody fn = None -> exists D idom, recordDefs fn = inr D /\
  computeDominators (buildCfg fn).1 (buildCfg fn).2 = Some idom /\ is_Some (head (blocks fn)) /\
  (forall b0, head (blocks fn) = Some b0 -> bparams b0 = []) /\
  (forall b blk, blocks fn !! b = Some blk -> checkBlock (mkCtx fn D (buildCfg fn).1 idom) b blk = None) /\ verifyConcatChain fn = None.
Proof.
  unfold verifyBody. destruct (blocks fn) as [|b0 bs] eqn:Eb; [done|]. rewrite !andThen_none, !refuse_if_none. intros (_ & He & H).
  destruct (recordDefs fn) as [|D]; [done|]. destruct (computeDominators _ _) as [idom|]; [|done]. rewrite andThen_none, each_at_none in H. destruct H as [H Hc].
  exists D, idom. split_and!; [done|done|done| |intros b blk Hl; by apply (H b blk)|done].
  intros b [= <-]. by destruct (bparams b0).
Qed.

Lemma recorded_definition fn D v d : recordDefs fn = inr D -> D !! v = Some d -> (v, d) ∈ definitions fn.
Proof. intros H Hv. apply recordDefs_adds in H as [H _]. apply H in Hv as [Hv|]; [by rewrite lookup_empty in Hv|done]. Qed.

(** C7: wherever a run of a verified function stands, there is an instruction, and each id
    it reads holds a value of the type its definition declares, or was left behind; and if
    none was, the function returns, throws or takes a step.  What is left behind is defined
    by a block with a handler, which may be left before the id is defined, or is the result
    of a jump or branch, which never gets one although the verifier takes it for defined. *)
Theorem verified_reads fn s : fits_function fn -> Z.of_nat (length (blocks fn)) <= kNoBlock -> verifyBody fn = None -> rtc (step fn) (start fn) s ->
  exists inst, inst_at fn (sblock s) (sinst s) = Some inst /\
    (forall v, v ∈ uses inst -> v ∉ sleft s -> exists d, (v, d) ∈ definitions fn /\ senv s !! v = Some (dtype d)) /\
    ((forall v, v ∈ uses inst -> v ∉ sleft s) -> op inst = Op.Ret \/ op inst = Op.Throw \/ exists s', step fn s s') /\
    (forall v, v ∈ sleft s -> left_by fn v).
Proof.
  intros Hf Hfew Hv Hs. destruct (verified_parts fn Hv) as (D & idom & Hrec & Hid & H0 & He & Hb & _).
  pose proof (run_good fn Hf D idom Hrec He Hb Hfew s H0 Hs) as Hg. destruct (good_at _ _ _ Hg) as [inst Hi]. exists inst. split; [done|].
  assert (forall v, v ∈ uses inst -> v ∉ sleft s -> exists d, D !! v = Some d /\ senv s !! v = Some (dtype d)) as Hu.
  { intros v Hv' Hl. destruct (use_ok fn Hf D idom Hid s v Hg) as (d & Hd & [H|H]); [by eapply uses_checked|by exists d|done]. }
  split_and!.
  - intros v Hv' Hl. destruct (Hu v Hv' Hl) as (d & Hd & E). exists d. split; [by eapply recorded_definition|done].
  - intros Hl. eapply (good_steps fn Hf D idom Hb s inst Hg Hi). intros v Hv'. destruct (Hu v Hv' (Hl v Hv')) as (d & _ & E). by exists (dtype d).
  - by eapply run_left_by.
Qed.

(** C8: a verified function without handlers, and whose terminators define nothing, never
    reads a value it has not computed: every id read holds a value of its declared type,
    and the function returns, throws or takes a step. *)
Theorem verified_never_stuck fn s : fits_function fn -> Z.of_nat (length (blocks fn)) <= kNoBlock -> verifyBody fn = None -> straight fn ->
  rtc (step fn) (start fn) s ->
  exists inst, inst_at fn (sblock s) (sinst s) = Some inst /\
    (forall v, v ∈ uses inst -> exists d, (v, d) ∈ definitions fn /\ senv s !! v = Some (dtype d)) /\
    (op inst = Op.Ret \/ op inst = Op.Throw \/ exists s', step fn s s').
Proof.
  intros Hf Hfew Hv Hst Hs. destruct (verified_parts fn Hv) as (D & idom & Hrec & Hid & H0 & He & Hb & _).
  pose proof (run_good fn Hf D idom Hrec He Hb Hfew s H0 Hs) as Hg. destruct (good_at _ _ _ Hg) as [inst Hi]. exists inst. split; [done|].
  assert (forall v, v ∈ uses inst -> exists d, D !! v = Some d /\ senv s !! v = Some (dtype d)) as Hu.
  { intros v Hv'. destruct (use_ok fn Hf D idom Hid s v Hg) as (d & Hd & [H|H]); [by eapply uses_checked|by exists d|].
    rewrite (run_left fn D idom Hb s Hst Hs v H), (no_sentinel fn Hf D Hrec) in Hd. done. }
  split.
  - intros v Hv'. destruct (Hu v Hv') as (d & Hd & E). exists d. split; [by eapply recorded_definition|done].
  - eapply (good_steps fn Hf D idom Hb s inst Hg Hi). intros v Hv'. destruct (Hu v Hv') as (d & _ & E). by exists (dtype d).
Qed.

(** ** Programs *)

(** A counting loop, and a value passed round it. *)
Definition counting : Function :=
  plain_function [dynamic_param]
    [plain_block 0 [] [plain Op.ConstF64 Ty.F64 1 []; jump 1 [1; 0]];
     plain_block 1 [mkBlockParam 2 Ty.F64; mkBlockParam 3 Ty.Dynamic] [plain Op.CmpLt Ty.Bool 4 [2; 1]; branch 4 2 3];
     plain_block 2 [] [plain Op.Add Ty.F64 5 [2; 1]; jump 1 [5; 3]];
     plain_block 3 [] [ret 3]] 6.

(** A value used in the handler of the block that defines it. *)
Definition half_defined : Function :=
  plain_function [dynamic_param]
    [guarded_block 0 [] [plain Op.DynamicCall Ty.Dynamic 1 [0; 0]; ret 1] 1;
     plain_block 1 [] [plain Op.ExcTake Ty.Dynamic 2 []; ret 1]] 3.

Ltac solve_reads := unfold reads; cbn [operands plain inst jump]; repeat (apply Forall_cons; split; [by eexists|]); apply Forall_nil; done.

(** It is accepted, and reads the value where the call has thrown. *)
Lemma half_defined_runs : exists s inst, rtc (step half_defined) (start half_defined) s /\ inst_at half_defined (sblock s) (sinst s) = Some inst /\
  1 ∈ uses inst /\ senv s !! 1 = None.
Proof.
  eexists _, _. split_and!; [| | |].
  - eapply rtc_l; [eapply (step_unwind _ _ _ _ _ 1%nat); [done|solve_reads|by left|done|done|done|done]|].
    eapply rtc_l; [eapply step_on; [done|solve_reads|done]|]. apply rtc_refl.
  - done.
  - by left.
  - by vm_compute.
Qed.

Example half_defined_accepted : verifyBody half_defined = None.
Proof. by vm_compute. Qed.

Lemma counting_fits : fits_function counting.
Proof. solve_fits. Qed.

Lemma counting_round : rtc (step counting) (start counting) (enter counting (mkState 0 1 (define (plain Op.ConstF64 Ty.F64 1 []) (senv (start counting))) ∅)
  (nth 0 (blocks counting) new_block) (nth 1 (blocks counting) new_block) 1 [Ty.F64; Ty.Dynamic]).
Proof.
  eapply rtc_l; [eapply step_on; [done|solve_reads|done]|]. eapply rtc_l; [|apply rtc_refl].
  apply (step_to counting _ (jump 1 [1; 0]) _ (mkTarget 1 [1; 0])); try done; [solve_reads|by left].
Qed.

(** A jump that has a result, which the block it goes to returns: it is accepted, and the
    return reads an id that nothing has set. *)
Definition jump_result : Function :=
  plain_function [dynamic_param]
    [plain_block 0 [] [inst Op.Jump Ty.Dynamic 5 [] 0 (mkTarget 1 []) no_target]; plain_block 1 [] [ret 5]] 6.

Example jump_result_accepted : verifyBody jump_result = None.
Proof. by vm_compute. Qed.

Lemma jump_result_runs : exists s inst, rtc (step jump_result) (start jump_result) s /\ inst_at jump_result (sblock s) (sinst s) = Some inst /\
  5 ∈ uses inst /\ senv s !! 5 = None.
Proof.
  eexists _, _. split_and!; [| | |].
  - eapply rtc_l; [eapply (step_to jump_result _ _ _ (mkTarget 1 []) _ 1%nat []); try done; [solve_reads|by left]|apply rtc_refl].
  - done.
  - by left.
  - by vm_compute.
Qed.

(** The state of [half_defined] in its handler. *)
Definition in_handler : State :=
  enter half_defined (start half_defined) (nth 0 (blocks half_defined) new_block) (nth 1 (blocks half_defined) new_block) 1 [].

Lemma in_handler_run : rtc (step half_defined) (start half_defined) in_handler.
Proof. apply rtc_once. by eapply (step_unwind _ _ _ _ _ 1%nat); [done|solve_reads|left|..]. Qed.

Lemma verified_reads_witness : 1 ∈ sleft in_handler /\ left_by half_defined 1 /\ exists s', step half_defined in_handler s'.
Proof.
  destruct (verified_reads half_defined in_handler) as (inst & Hi & _ & Hgo & Hleft); [solve_fits|done|by vm_compute|exact in_handler_run|].
  assert (inst = plain Op.ExcTake Ty.Dynamic 2 []) as -> by (vm_compute in Hi; by injection Hi as <-).
  assert (1 ∈ sleft in_handler) as H1 by (by vm_compute).
  split; [exact H1|]. split; [exact (Hleft 1 H1)|]. destruct Hgo as [H|[H|H]]; [|discriminate H|discriminate H|exact H].
  intros v Hv. by apply not_elem_of_nil in Hv.
Defined.

Definition in_loop : State := enter counting (mkState 0 1 (define (plain Op.ConstF64 Ty.F64 1 []) (senv (start counting))) ∅)
  (nth 0 (blocks counting) new_block) (nth 1 (blocks counting) new_block) 1 [Ty.F64; Ty.Dynamic].

Lemma counting_straight : straight counting.
Proof.
  intros b blk Hb. assert (Forall (fun blk => handler blk = kNoBlock /\ forall i, last (instructions blk) = Some i -> result i = kNoValue) (blocks counting)) as H.
  { repeat constructor; by intros i [= <-]. }
  rewrite Forall_forall in H. apply H. by eapply list_elem_of_lookup_2.
Qed.

(** At the head of the loop both operands of the comparison hold what they were declared to,
    and the comparison runs. *)
Lemma verified_never_stuck_witness : inst_at counting 1 0 = Some (plain Op.CmpLt Ty.Bool 4 [2; 1]) /\
  (exists d, (2, d) ∈ definitions counting /\ senv in_loop !! 2 = Some (dtype d)) /\ (exists d, (1, d) ∈ definitions counting /\ senv in_loop !! 1 = Some (dtype d)) /\
  exists s', step counting in_loop s'.
Proof.
  destruct (verified_never_stuck counting in_loop) as (inst & Hi & Hu & Hgo); [exact counting_fits|done|by vm_compute|exact counting_straight|exact counting_round|].
  assert (inst = plain Op.CmpLt Ty.Bool 4 [2; 1]) as -> by (vm_compute in Hi; by injection Hi as <-). split; [exact Hi|].
  split; [apply Hu; by left|]. split; [apply Hu; right; by left|]. destruct Hgo as [H|[H|H]]; [discriminate H|discriminate H|exact H].
Defined.
