(* ===== verification/IlLicences.v ===== *)
(** * Two licences the verifier gives (src/src/il/verifier.cpp)

    A concatenation builder is written in place, so it may have one holder: the claim is
    that in a verified function each builder is an operand exactly once, of a later link of
    its own block.  [closure.env] reads a word only a closure has, so it stands where
    [closure.is] has just said yes: the claim is that every jump and branch into its block
    is the true edge of one branch on that test.

    Neither check sees every way in.  The arguments a terminator passes are not operands,
    so a builder may escape through a block parameter; and a block is also entered as a
    handler, and the first as the function's entry.  The examples are accepted programs
    that do so. *)
From stdpp Require Import gmap relations.
From S2P Require Import Prelude Il IlCheck IlGraph IlDominators IlCfg IlEffects IlVerifier IlSound.
Local Open Scope Z_scope.

Lemma elem_placed fn b i inst : (b, i, inst) ∈ placed fn <-> inst_at fn b i = Some inst.
Proof.
  unfold placed, inst_at. rewrite list_elem_of_In, in_concat. setoid_rewrite <- list_elem_of_In. split.
  - intros (l & Hl & Hin). apply elem_of_lookup_imap in Hl as (b' & blk & -> & Hb). apply elem_of_lookup_imap in Hin as (i' & inst' & [= -> -> ->] & Hi). by rewrite Hb.
  - destruct (blocks fn !! b) as [blk|] eqn:Hb; [|done]. cbn. intros Hi. eexists. split; [apply elem_of_lookup_imap; by exists b, blk|].
    apply elem_of_lookup_imap. by exists i, inst.
Qed.

(** ** Builders *)

(** How often an id occurs. *)
Definition occurrences (id : Z) (l : list Z) : Z := Z.of_nat (length (List.filter (Z.eqb id) l)).
Definition allOperands (ps : list (nat * nat * Instruction)) : list Z := concat (map (fun p => operands p.2) ps).

Lemma occurrences_cons id x l : occurrences id (x :: l) = (if id =? x then 1 else 0) + occurrences id l.
Proof. unfold occurrences. cbn. destruct (id =? x); cbn; lia. Qed.

Lemma occurrences_app id l1 l2 : occurrences id (l1 ++ l2) = occurrences id l1 + occurrences id l2.
Proof. unfold occurrences. rewrite List.filter_app, length_app. lia. Qed.

Lemma occurrences_nonneg id l : 0 <= occurrences id l <= Z.of_nat (length l).
Proof. unfold occurrences. pose proof (List.filter_length_le (Z.eqb id) l). lia. Qed.

Lemma occurrences_in id l : 0 < occurrences id l <-> id ∈ l.
Proof.
  induction l as [|x l IH]; [split; [done|by intros ?%not_elem_of_nil]|]. rewrite occurrences_cons, elem_of_cons, <- IH.
  pose proof (occurrences_nonneg id l). destruct (Z.eqb_spec id x) as [E|E]; split.
  - intros _. by left.
  - intros _. lia.
  - intros H'. right. lia.
  - intros [|]; [done|lia].
Qed.

Definition mentioned (a : Accumulator) (n : Z) : Accumulator := mkAcc (acc_block a) (acc_inst a) ((mentions a + n) mod 2 ^ 32) (links a).
Definition linked (a : Accumulator) (n : Z) : Accumulator := mkAcc (acc_block a) (acc_inst a) (mentions a) ((links a + n) mod 2 ^ 32).

Lemma countMention_list id l : forall (m : Accs) a n, m !! id = Some (mentioned a n) ->
  foldl (fun m id => alter countMention id m) m l !! id = Some (mentioned a (n + occurrences id l)).
Proof.
  induction l as [|x l IH]; intros m a n Hm; cbn; [by rewrite Z.add_0_r|]. rewrite occurrences_cons, Z.add_assoc. apply IH.
  destruct (Z.eqb_spec id x) as [->|Hne]; [|by rewrite lookup_alter_ne, Z.add_0_r].
  rewrite lookup_alter_eq, Hm. cbn. unfold countMention, mentioned. cbn. do 2 f_equal. rewrite Zplus_mod_idemp_l. f_equal. lia.
Qed.

Lemma countMentions_spec id ps : forall (m : Accs) a n, m !! id = Some (mentioned a n) ->
  countMentions m ps !! id = Some (mentioned a (n + occurrences id (allOperands ps))).
Proof.
  unfold countMentions, allOperands. induction ps as [|p ps IH]; intros m a n Hm; cbn; [by rewrite Z.add_0_r|]. rewrite occurrences_app, Z.add_assoc. apply IH.
  by apply countMention_list.
Qed.

(** A link, and the builder it takes. *)
Definition takes (inst : Instruction) (id : Z) : bool :=
  (Op.eqb (op inst) Op.ConcatAppend || Op.eqb (op inst) Op.ConcatEnd) && match operands inst with acc :: _ => acc =? id | [] => false end.
Definition countTakes (id : Z) (ps : list (nat * nat * Instruction)) : Z := Z.of_nat (length (List.filter (fun p => takes p.2 id) ps)).

Lemma countLinks_spec id ps : forall m m' a n, countLinks m ps = inr m' -> m !! id = Some (linked a n) ->
  m' !! id = Some (linked a (n + countTakes id ps)) /\
  forall b i inst, (b, i, inst) ∈ ps -> takes inst id = true -> acc_block a = b /\ (acc_inst a < i)%nat.
Proof.
  induction ps as [|[[b i] inst] ps IH]; intros m m' a n E Hm; cbn in E.
  { injection E as <-. unfold countTakes. cbn. rewrite Z.add_0_r. split; [done|]. by intros b i inst ?%not_elem_of_nil. }
  assert (countTakes id ((b, i, inst) :: ps) = (if takes inst id then 1 else 0) + countTakes id ps) as ->.
  { unfold countTakes. cbn. destruct (takes inst id); cbn; lia. }
  assert (forall b' i' inst', (b', i', inst') ∈ (b, i, inst) :: ps -> (takes inst id = true -> acc_block a = b /\ (acc_inst a < i)%nat) ->
    (forall b i inst, (b, i, inst) ∈ ps -> takes inst id = true -> acc_block a = b /\ (acc_inst a < i)%nat) ->
    takes inst' id = true -> acc_block a = b' /\ (acc_inst a < i')%nat) as Hcons.
  { intros b' i' inst' [[= -> -> ->]|Hin]%elem_of_cons H1 H2; [done|by apply H2]. }
  unfold takes at 1. destruct (Op.eqb (op inst) Op.ConcatAppend || Op.eqb (op inst) Op.ConcatEnd)%bool eqn:El; cbn [andb].
  - destruct (operands inst) as [|acc rest] eqn:Eo; [done|]. destruct (m !! acc) as [x|] eqn:Ex; [|done]. destruct (negb (acc_block x =? b)%nat || (i <=? acc_inst x)%nat)%bool eqn:Ep; [done|].
    apply orb_false_iff in Ep as [Eb%negb_false_iff%Nat.eqb_eq Ei%Nat.leb_gt]. destruct (Z.eqb_spec acc id) as [->|Hne].
    + rewrite Hm in Ex. injection Ex as <-. cbn in Eb, Ei. rewrite Z.add_assoc. destruct (IH _ _ a (n + 1) E) as [H1 H2].
      { rewrite lookup_insert_eq. unfold countLink, linked. cbn. do 2 f_equal. rewrite Zplus_mod_idemp_l. f_equal. lia. }
      split; [done|]. intros b' i' inst' Hin. by apply (Hcons _ _ _ Hin).
    + rewrite Z.add_0_l. destruct (IH _ _ a n E) as [H1 H2]; [by rewrite lookup_insert_ne|]. split; [done|]. intros b' i' inst' Hin. apply (Hcons _ _ _ Hin); [|done].
      unfold takes. rewrite Eo. destruct (Z.eqb_spec acc id); [done|]. by rewrite andb_false_r.
  - rewrite Z.add_0_l. destruct (IH _ _ a n E Hm) as [H1 H2]. split; [done|]. intros b' i' inst' Hin. apply (Hcons _ _ _ Hin); [|done]. unfold takes. by rewrite El.
Qed.

(** What is recorded of a builder is where one of that id stands. *)
Definition collect (m : Accs) (p : nat * nat * Instruction) : Accs :=
  let '(b, i, inst) := p in if makesBuilder inst then <[result inst := mkAcc b i 0 0]> m else m.

Definition stands (ps : list (nat * nat * Instruction)) (id : Z) (a : Accumulator) : Prop :=
  exists b i inst, (b, i, inst) ∈ ps /\ makesBuilder inst = true /\ result inst = id /\ a = mkAcc b i 0 0.

Lemma collect_from id ps : forall (m : Accs) a, foldl collect m ps !! id = Some a -> m !! id = Some a \/ stands ps id a.
Proof.
  induction ps as [|[[b i] inst] ps IH]; intros m a H; cbn in H; [by left|]. apply IH in H as [H|(b' & i' & inst' & Hin & H)].
  - cbn in H. destruct (makesBuilder inst) eqn:E; [|by left]. destruct (decide (id = result inst)) as [->|Hne].
    + rewrite lookup_insert_eq in H. injection H as <-. right. exists b, i, inst. by split; [left|].
    + rewrite lookup_insert_ne in H by done. by left.
  - right. exists b', i', inst'. split; [by right|done].
Qed.

Lemma collect_has id ps : forall (m : Accs), is_Some (m !! id) \/ (exists a, stands ps id a) -> is_Some (foldl collect m ps !! id).
Proof.
  induction ps as [|[[b i] inst] ps IH]; intros m; cbn.
  - intros [|(a & b & i & inst & H%not_elem_of_nil & _)]; done.
  - intros H. apply IH. destruct H as [[a H]|(a & b' & i' & inst' & [[= -> -> ->]|Hin]%elem_of_cons & Hm & <- & Ha)].
    + left. destruct (makesBuilder inst); [|by exists a]. destruct (decide (id = result inst)) as [->|]; [by rewrite lookup_insert_eq|rewrite lookup_insert_ne by done; by exists a].
    + left. rewrite Hm. by rewrite lookup_insert_eq.
    + right. exists a, b', i', inst'. done.
Qed.

(** What the three walks add up to. *)
Lemma chain_accepted fn b i inst : verifyConcatChain fn = None -> (b, i, inst) ∈ placed fn -> makesBuilder inst = true ->
  exists b0 i0 inst0, (b0, i0, inst0) ∈ placed fn /\ makesBuilder inst0 = true /\ result inst0 = result inst /\
    occurrences (result inst) (allOperands (placed fn)) mod 2 ^ 32 = 1 /\ countTakes (result inst) (placed fn) mod 2 ^ 32 = 1 /\
    forall b' i' link, (b', i', link) ∈ placed fn -> takes link (result inst) = true -> b' = b0 /\ (i0 < i')%nat.
Proof.
  intros Hv Hin Hm. unfold verifyConcatChain in Hv. change (collectAccs (placed fn)) with (foldl collect ∅ (placed fn)) in Hv.
  destruct (collect_has (result inst) (placed fn) ∅) as [a Ha]; [right; exists (mkAcc b i 0 0), b, i, inst; done|].
  rewrite decide_False in Hv by (intros E; rewrite E, lookup_empty in Ha; done).
  destruct (collect_from _ _ _ _ Ha) as [H|(b0 & i0 & inst0 & Hin0 & Hm0 & Er & ->)]; [by rewrite lookup_empty in H|].
  destruct (countLinks (countMentions (foldl collect ∅ (placed fn)) (placed fn)) (placed fn)) as [|m'] eqn:El; [done|].
  pose proof (countMentions_spec (result inst) (placed fn) _ (mkAcc b0 i0 0 0) 0 Ha) as Hc.
  destruct (countLinks_spec (result inst) _ _ _ (mentioned (mkAcc b0 i0 0 0) (0 + occurrences (result inst) (allOperands (placed fn)))) 0 El Hc) as [Hl Hat].
  apply each_none in Hv. rewrite Forall_forall in Hv. specialize (Hv (b, i, inst) Hin). cbn in Hv. rewrite Hm, Hl in Hv. apply refuse_if_none in Hv.
  apply orb_false_iff in Hv as [H1%negb_false_iff%Z.eqb_eq H2%negb_false_iff%Z.eqb_eq]. cbn [mentions links mentioned linked] in H1, H2.
  rewrite !Z.add_0_l in H1, H2. exists b0, i0, inst0. split_and!; [done..|]. intros b' i' link Hl' Ht. destruct (Hat b' i' link Hl' Ht) as [<- ?]. done.
Qed.

(** In a verified function a concatenation builder is an operand exactly once, of a
    later link of its own block that takes it as its accumulator. *)
Theorem builder_used_once fn b i inst : fits_function fn -> Z.of_nat (length (allOperands (placed fn))) < 2 ^ 32 -> verifyBody fn = None ->
  inst_at fn b i = Some inst -> makesBuilder inst = true ->
  occurrences (result inst) (allOperands (placed fn)) = 1 /\
  exists j link, inst_at fn b j = Some link /\ (i < j)%nat /\ takes link (result inst) = true.
Proof.
  intros Hf Hlen Hv Hi Hm. destruct (verified_parts fn Hv) as (D & idom & Hrec & Hid & _ & _ & Hb & Hc).
  destruct (chain_accepted fn b i inst Hc) as (b0 & i0 & inst0 & Hin0 & _ & Er & Hocc & Htk & Hat); [by apply elem_placed|done|].
  pose proof (occurrences_nonneg (result inst) (allOperands (placed fn))) as Hn. rewrite Z.mod_small in Hocc by lia. split; [done|].
  assert (result inst <> kNoValue) as Hne.
  { assert (result inst ∈ allOperands (placed fn)) as Hu by (apply occurrences_in; lia). intros E. rewrite E in Hu.
    apply list_elem_of_In, in_concat in Hu as (l & Hl & Hu). apply in_map_iff in Hl as ([[b' i'] user] & <- & Hl). apply list_elem_of_In, elem_placed in Hl. apply list_elem_of_In in Hu.
    assert (checkUse (mkCtx fn D (buildCfg fn).1 idom) kNoValue b' i' = None) as Hk by (eapply uses_checked; [done..|]; apply elem_uses; by left).
    unfold checkUse in Hk. cbn [cdefs] in Hk. by rewrite (no_sentinel fn Hf D Hrec) in Hk. }
  apply elem_placed in Hin0. unfold inst_at in Hi, Hin0.
  destruct (blocks fn !! b) as [blk|] eqn:Eb; [|done]. destruct (blocks fn !! b0) as [blk0|] eqn:Eb0; [|done]. cbn in Hi, Hin0.
  destruct (result_def fn Hf D Hrec b i blk inst Eb Hi Hne) as [Hd _]. destruct (result_def fn Hf D Hrec b0 i0 blk0 inst0 Eb0 Hin0) as [Hd0 _]; [by rewrite Er|].
  rewrite Er, Hd in Hd0. injection Hd0 as _ <- Ei%Nat2Z.inj. subst i0.
  unfold countTakes in Htk. destruct (List.filter (fun p => takes p.2 (result inst)) (placed fn)) as [|[[b' j] link] rest] eqn:Ef; [done|].
  assert (In (b', j, link) (List.filter (fun p => takes p.2 (result inst)) (placed fn))) as [Hin Ht]%filter_In by (rewrite Ef; by left).
  apply list_elem_of_In in Hin. destruct (Hat b' j link Hin Ht) as [-> Hlt]. exists j, link. split_and!; [by apply elem_placed|done|done].
Qed.

(** ** The environment of a closure *)

(** The edges of a block's terminator into another; a second target counts twice. *)
Definition edgesOf (bIdx : nat) (blk : Block) : nat :=
  match last (instructions blk) with
  | None => 0
  | Some t =>
      (if (Op.eqb (op t) Op.Jump || Op.eqb (op t) Op.Branch) && (tblock (target t) =? Z.of_nat bIdx)%Z then 1 else 0) +
      (if Op.eqb (op t) Op.Branch && (tblock (elseTarget t) =? Z.of_nat bIdx)%Z then 2 else 0)
  end%nat.

Lemma edges_spec b bs : forall n t n' t', foldl (edgesInto b) (n, t) bs = (n', t') -> n' = (n + sum_list (map (edgesOf b) bs))%nat /\
  (t' = t \/ exists a blk test, bs !! a = Some blk /\ last (instructions blk) = Some test /\ t' = Some test /\ op test = Op.Branch /\ tblock (target test) = Z.of_nat b).
Proof.
  induction bs as [|blk bs IH]; intros n t n' t' E; cbn [foldl] in E; [injection E as <- <-; split; [cbn; lia|by left]|].
  destruct (edgesInto b (n, t) blk) as [n1 t1] eqn:E1. destruct (IH _ _ _ _ E) as [-> Ht].
  assert (n1 = (n + edgesOf b blk)%nat /\ (t1 = t \/ exists test, last (instructions blk) = Some test /\ t1 = Some test /\ op test = Op.Branch /\ tblock (target test) = Z.of_nat b)) as [-> Ht1].
  { unfold edgesInto, edgesOf in *. destruct (last (instructions blk)) as [i|]; [|injection E1 as <- <-; split; [lia|by left]].
    destruct (Op.eqb_spec (op i) Op.Jump) as [Ej|Ej], (Op.eqb_spec (op i) Op.Branch) as [Eb|Eb]; [congruence| | |injection E1 as <- <-; split; [cbn; lia|by left]];
      destruct (Z.eqb_spec (tblock (target i)) (Z.of_nat b)), (Z.eqb_spec (tblock (elseTarget i)) (Z.of_nat b)); cbn in *; injection E1 as <- <-; (split; [lia|]); try (by left); right; by exists i. }
  split; [cbn; unfold id; lia|]. destruct Ht as [->|(a & blk' & test & ? & ?)]; [|right; by exists (S a), blk', test].
  destruct Ht1 as [->|(test & ? & ?)]; [by left|right; by exists O, blk, test].
Qed.

Lemma one_summand {A} (f : A -> nat) (l : list A) : forall i x, l !! i = Some x -> (f x <= sum_list (map f l))%nat.
Proof.
  induction l as [|y l IH]; intros [|i] x H; try done; cbn in *; [injection H as ->; unfold id; lia|]. apply IH in H. unfold id in *; lia.
Qed.

Lemma two_summands {A} (f : A -> nat) (l : list A) : forall i j x y, l !! i = Some x -> l !! j = Some y -> i <> j -> (f x + f y <= sum_list (map f l))%nat.
Proof.
  induction l as [|z l IH]; intros [|i] [|j] x y Hi Hj Hne; try done; cbn in *.
  - injection Hi as ->. apply (one_summand f) in Hj. unfold id in *; lia.
  - injection Hj as ->. apply (one_summand f) in Hi. unfold id in *; lia.
  - assert (i <> j) as Hne' by congruence. specialize (IH i j x y Hi Hj Hne'). unfold id in *; lia.
Qed.

(** C24: where a verified function reads a closure's environment, the read is the first
    instruction of its block, and a jump or branch that reaches the block is a branch that
    reaches it by its first target only, on a [closure.is] of the value that is read. *)
Theorem closure_env_tested fn b i inst : verifyBody fn = None -> inst_at fn b i = Some inst -> op inst = Op.ClosureEnv ->
  i = 0%nat /\ forall a j t s, inst_at fn a j = Some t -> s ∈ transfers t -> tblock s = Z.of_nat b ->
    op t = Op.Branch /\ s = target t /\ tblock (elseTarget t) <> Z.of_nat b /\
    exists c test, head (operands t) = Some c /\ test ∈ all_insts fn /\ result test = c /\ op test = Op.ClosureIs /\ head (operands test) = Some (operand inst 0).
Proof.
  intros Hv Hi Hop. destruct (verified_parts fn Hv) as (D & idom & _ & _ & _ & _ & Hb & _).
  destruct (inst_checked fn D idom Hb b i inst Hi) as (blk & _ & _ & Hc).
  assert (closureEnvProved fn b i (operand inst 0) = true) as Hp.
  { unfold checkInst in Hc. rewrite !andThen_none in Hc. destruct Hc as (_ & _ & _ & _ & Hg & _). unfold checkGuardTests in Hg. rewrite !andThen_none, !refuse_if_none in Hg.
    destruct Hg as (_ & _ & _ & _ & Hg & _). rewrite Hop in Hg. cbn in Hg. by apply negb_false_iff in Hg. }
  unfold closureEnvProved in Hp. destruct (Nat.eqb_spec i 0) as [->|]; [|done]. cbn in Hp. split; [done|].
  destruct (foldl (edgesInto b) (0%nat, None) (blocks fn)) as [n t'] eqn:Ef. destruct n as [|[|n]]; [done| |done]. destruct t' as [test|]; [|done].
  destruct (edges_spec _ _ _ _ _ _ Ef) as [Hsum [|(a0 & blk0 & test' & Ha0 & Hlast & [= <-] & Hbr & Htt)]]; [done|].
  intros a j t s Ht Hs Es. destruct (transfer_last fn D idom Hb a j t s Ht Hs) as (blk' & Ha & Hlast' & _).
  assert (0 < edgesOf b blk')%nat as Hpos.
  { unfold edgesOf. rewrite Hlast'. unfold transfers in Hs. destruct (Op.eqb (op t) Op.Jump); [apply list_elem_of_singleton in Hs as ->; rewrite Es, Z.eqb_refl; cbn; lia|].
    destruct (Op.eqb (op t) Op.Branch); [|by apply not_elem_of_nil in Hs]. apply elem_of_cons in Hs as [->| ->%list_elem_of_singleton]; rewrite Es, Z.eqb_refl; cbn; lia. }
  assert (1 <= edgesOf b blk0)%nat as Hpos0 by (unfold edgesOf; rewrite Hlast, Hbr, Htt, Z.eqb_refl; cbn; lia).
  destruct (decide (a = a0)) as [->|Hne]; [|pose proof (two_summands (edgesOf b) (blocks fn) _ _ _ _ Ha Ha0 Hne); lia].
  assert (blk' = blk0) as -> by congruence. assert (t = test) as -> by congruence.
  assert (tblock (elseTarget test) <> Z.of_nat b) as Hel.
  { intros E. assert (2 < edgesOf b blk0)%nat as H2 by (unfold edgesOf; rewrite Hlast, Hbr, Htt, E, !Z.eqb_refl; cbn; lia).
    pose proof (one_summand (edgesOf b) _ _ _ Ha0). lia. }
  split_and!; [done| |done|].
  - unfold transfers in Hs. rewrite Hbr in Hs. cbn in Hs. apply elem_of_cons in Hs as [->| ->%list_elem_of_singleton]; [done|by destruct Hel].
  - destruct (operands test) as [|c rest]; [done|]. destruct (List.find _ _) as [d|] eqn:Efind; [|done]. apply find_some in Efind as [Hin Er%Z.eqb_eq].
    exists c, d. apply andb_true_iff in Hp as [Hois Hg]. destruct (Op.eqb_spec (op d) Op.ClosureIs); [|done].
    split_and!; [done|by apply list_elem_of_In|done|done|]. destruct (operands d) as [|g ?]; [done|]. cbn. apply Z.eqb_eq in Hg. by rewrite Hg.
Qed.

(** ** Programs *)

Definition chain : Function :=
  plain_function [dynamic_param]
    [plain_block 0 [] [plain Op.ConcatBegin Ty.Dynamic 1 [0; 0]; plain Op.ConcatAppend Ty.Dynamic 2 [1; 0]; plain Op.ConcatEnd Ty.Dynamic 3 [2]; ret 3]] 4.

Definition tested : Function :=
  plain_function [dynamic_param]
    [plain_block 0 [] [plain Op.ClosureIs Ty.Bool 1 [0]; branch 1 1 2];
     plain_block 1 [] [plain Op.ClosureEnv Ty.Dynamic 2 [0]; ret 2];
     plain_block 2 [] [ret 0]] 3.

(** A builder passed to the next block, beside its link: accepted, though it has a second
    holder. *)
Definition escaping : Function :=
  plain_function [dynamic_param]
    [plain_block 0 [] [plain Op.ConcatBegin Ty.Dynamic 1 [0; 0]; plain Op.ConcatEnd Ty.Dynamic 2 [1]; jump 1 [1]];
     plain_block 1 [mkBlockParam 3 Ty.Dynamic] [ret 3]] 4.

(** An environment read in a block that is a handler too, and one read in the entry. *)
Definition untested_handler : Function :=
  plain_function [dynamic_param]
    [guarded_block 0 [] [plain Op.ClosureIs Ty.Bool 1 [0]; plain Op.DynamicCall Ty.Dynamic 2 [0; 0]; branch 1 1 2] 1;
     plain_block 1 [] [plain Op.ClosureEnv Ty.Dynamic 3 [0]; ret 3];
     plain_block 2 [] [ret 0]] 4.

Definition untested_entry : Function :=
  plain_function [dynamic_param]
    [plain_block 0 [] [plain Op.ClosureEnv Ty.Dynamic 1 [0]; plain Op.ClosureIs Ty.Bool 2 [0]; branch 2 0 1];
     plain_block 1 [] [ret 1]] 3.

Example escaping_accepted : verifyBody escaping = None.
Proof. by vm_compute. Qed.

Example untested_accepted : verifyBody untested_handler = None /\ verifyBody untested_entry = None.
Proof. by vm_compute. Qed.

(** The handler is reached by an exception of the call, whatever the test has answered. *)
Lemma untested_handler_entered : exists s, rtc (step untested_handler) (start untested_handler) s /\ sblock s = 1%nat /\ sinst s = 0%nat.
Proof.
  eexists. split.
  - eapply rtc_l; [eapply step_on; [done|solve_reads|done]|].
    eapply rtc_l; [eapply (step_unwind _ _ _ _ _ 1%nat); [done|solve_reads|by left|done|done|done|done]|]. apply rtc_refl.
  - done.
Qed.

Lemma builder_used_once_witness : occurrences 1 (allOperands (placed chain)) = 1 /\
  exists j link, inst_at chain 0 j = Some link /\ (0 < j)%nat /\ takes link 1 = true.
Proof. apply (builder_used_once chain 0 0 (plain Op.ConcatBegin Ty.Dynamic 1 [0; 0])); [solve_fits|done|by vm_compute|done|done]. Defined.

Lemma closure_env_tested_witness : exists c test, head (operands (branch 1 1 2)) = Some c /\ test ∈ all_insts tested /\ result test = c /\
  op test = Op.ClosureIs /\ head (operands test) = Some 0.
Proof.
  destruct (closure_env_tested tested 1 0 (plain Op.ClosureEnv Ty.Dynamic 2 [0])) as [_ H]; [by vm_compute|done|done|].
  destruct (H 0%nat 1%nat (branch 1 1 2) (mkTarget 1 [])) as (_ & _ & _ & Hc); [done|by left|done|exact Hc].
Defined.
