(* ===== verification/IlProofs.v ===== *)
(** * Certificates of unchecked operations (src/src/il/verifier_proofs.cpp)

    [verifyFunctionProofs]: what licenses an unchecked unbox, a pin guard, a typed element
    access and a pinned signature.  The claims are that the walk over the uses of a value
    ends and answers exactly whether each use stands under the test or is arithmetic whose
    own uses do, and what acceptance of a raw unbox says of the paths to it. *)
From stdpp Require Import gmap relations.
From S2P Require Import Prelude Il IlCheck IlGraph IlDominators IlCfg IlEffects IlVerifier.
Local Open Scope Z_scope.
Local Open Scope bool_scope.

(** ** Producers *)

Definition isKnownNonNumberProducer (def : Instruction) : bool :=
  match op def with
  | Op.ConstNull | Op.ConstUndefined | Op.ConstBool | Op.ConstBigInt | Op.CreateObject | Op.CreateArray | Op.CreateFunction | Op.EnvCreate
  | Op.TemplateObject | Op.TemplateCached | Op.ConcatBegin | Op.ConcatAppend | Op.ConcatEnd | Op.ToStr => true
  | Op.Box => negb (is_type (boxType def) Ty.F64) && negb (is_type (boxType def) Ty.I32)
  | _ => false
  end.

Definition isKnownNonNumberNonNullishProducer (def : Instruction) : bool :=
  match op def with
  | Op.ConstBool | Op.ConstBigInt | Op.CreateObject | Op.CreateArray | Op.CreateFunction | Op.EnvCreate
  | Op.TemplateObject | Op.TemplateCached | Op.ConcatBegin | Op.ConcatAppend | Op.ConcatEnd | Op.ToStr => true
  | Op.Box => is_type (boxType def) Ty.Bool || is_type (boxType def) Ty.Str
  | _ => false
  end.

Definition isKnownNonArrayProducer (def : Instruction) : bool :=
  match op def with
  | Op.ConstNull | Op.ConstUndefined | Op.ConstBool | Op.ConstBigInt | Op.CreateObject | Op.CreateFunction | Op.EnvCreate
  | Op.Box | Op.TemplateCached | Op.ConcatBegin | Op.ConcatAppend | Op.ConcatEnd | Op.ToStr => true
  | _ => false
  end.

Definition isValidPinBarrier (raw : Z) : bool := (raw =? pin_code Number) || (raw =? pin_code NumberOrNullish) || (raw =? pin_code DenseArray).

Definition isValidTypedElemKind (kind : Z) : bool :=
  let kAllowedMask := Z.lor kElemKindMask (Z.lor kElemFlagProvenIntegralIndex kElemFlagProvenInBounds) in
  if negb (Z.land kind (Z.lnot kAllowedMask) =? 0) then false
  else let raw := Z.land kind kElemKindMask in ((0 <=? raw) && (raw <=? 11)) || (raw =? kElemKindPlainArrayF64).

(** ** What is collected of a function *)

Record DefInfo := mkInfo { itype : Ty.t; iblock : nat; iinst : Z; idef : option Instruction }.
Notation Infos := (gmap Z DefInfo).

Definition collectBlock (b : nat) (blk : Block) (D : Infos) : Infos :=
  let D := foldl (fun (D : Infos) p => <[bp_id p := mkInfo (bp_type p) b (-1) None]> D) D (bparams blk) in
  foldl (fun (D : Infos) (p : nat * Instruction) =>
    if result p.2 =? kNoValue then D else <[result p.2 := mkInfo (type p.2) b (Z.of_nat p.1) (Some p.2)]> D) D (imap pair (instructions blk)).

Definition collectDefs (fn : Function) : Infos :=
  let D := foldl (fun (D : Infos) (p : nat * Param) => <[param_id p.1 := mkInfo (ptype p.2) 0 (-1) None]> D) ∅ (imap pair (params fn)) in
  foldl (fun D (p : nat * Block) => collectBlock p.1 p.2 D) D (imap pair (blocks fn)).

Record IsNumberBranch := mkBranch { br_operand : Z; br_block : nat; br_then : Z; br_else : Z }.

(** The branch a block ends with, when its condition is an [is.number]. *)
Definition isNumberBranch (D : Infos) (b : nat) (blk : Block) : option IsNumberBranch :=
  match last (instructions blk) with
  | Some term =>
      match operands term with
      | c :: _ =>
          if Op.eqb (op term) Op.Branch then
            match D !! c with
            | Some (mkInfo _ _ _ (Some test)) =>
                if Op.eqb (op test) Op.IsNumber && arity test 1 then Some (mkBranch (operand test 0) b (tblock (target term)) (tblock (elseTarget term))) else None
            | _ => None
            end
          else None
      | [] => None
      end
  | None => None
  end.

Definition isNumberBranches (fn : Function) (D : Infos) : list IsNumberBranch :=
  omap (fun p : nat * Block => isNumberBranch D p.1 p.2) (imap pair (blocks fn)).

Record PinNumberSite := mkPinSite { pin_operand : Z; pin_block : nat; pin_inst : nat }.

Definition pinNumberSites (fn : Function) : list PinNumberSite :=
  omap (fun p : nat * nat * Instruction => let '(b, i, inst) := p in
    if Op.eqb (op inst) Op.PinGuard && arity inst 1 && (immI32 inst =? pin_code Number) then Some (mkPinSite (operand inst 0) b i) else None) (placed fn).

(** What the lambdas capture. *)
Record Captures := mkCaptures {
  pfn : Function; pdefs : Infos; psuccs : list (list nat); pidom : list (option nat); pbranches : list IsNumberBranch; psites : list PinNumberSite }.

Definition dominatesZ (c : Captures) (a : Z) (b : nat) : bool := dominatesBlock (psuccs c) (pidom c) (Z.to_nat a) b.

Definition hasPinNumberBarrierBefore (c : Captures) (v : Z) (useBlock useInst : nat) : bool :=
  existsb (fun s => (pin_operand s =? v) &&
    (((pin_block s =? useBlock)%nat && (pin_inst s <? useInst)%nat) ||
     (negb (pin_block s =? useBlock)%nat && dominatesBlock (psuccs c) (pidom c) (pin_block s) useBlock))) (psites c).

Definition producer (c : Captures) (v : Z) : option Instruction := match pdefs c !! v with Some d => idef d | None => None end.

Definition hasContradictingEnvSet (c : Captures) (envVal depth index : Z) : bool :=
  existsb (fun p : nat * nat * Instruction => let '(b, i, inst) := p in
    Op.eqb (op inst) Op.EnvSet && negb (length (operands inst) <? 2)%nat &&
    (operand inst 0 =? envVal) && (envDepth inst =? depth) && (envIndex inst =? index) &&
    negb (hasPinNumberBarrierBefore c (operand inst 1) b i) &&
    match producer c (operand inst 1) with Some d => isKnownNonNumberProducer d | None => false end) (placed (pfn c)).

Definition isDominatedByIsNumberTrue (c : Captures) (v : Z) (b : nat) : bool :=
  existsb (fun br => (br_operand br =? v) && negb (br_then br =? kNoBlock) && dominatesZ c (br_then br) b && negb (dominatesZ c (br_else br) b)) (pbranches c).

Definition isDominatedByIsNumberFalse (c : Captures) (v : Z) (b : nat) : bool :=
  existsb (fun br => (br_operand br =? v) && negb (br_else br =? kNoBlock) && dominatesZ c (br_else br) b && negb (dominatesZ c (br_then br) b)) (pbranches c).

(** ** The uses of a raw unbox *)

Definition allUses (inst : Instruction) : list Z := operands inst ++ targs (target inst) ++ targs (elseTarget inst).

(** The uses of a value, as the block and the instruction, in order. *)
Definition usesOf (fn : Function) (v : Z) : list (nat * Instruction) :=
  concat (map (fun p : nat * nat * Instruction => let '(b, _, inst) := p in
    map (fun _ => (b, inst)) (List.filter (Z.eqb v) (allUses inst))) (placed fn)).

Definition isPureF64Arith (inst : Instruction) : bool :=
  is_type (type inst) Ty.F64 && has_result inst && is_op inst [Op.Add; Op.Sub; Op.Neg; Op.Mul; Op.Div; Op.Mod; Op.Pow].

(** The uses of one value: [None] refuses. *)
Fixpoint scanUses (c : Captures) (src : Z) (us : list (nat * Instruction)) (work : list Z) (seen : gset Z) : option (list Z * gset Z) :=
  match us with
  | [] => Some (work, seen)
  | (b, user) :: us =>
      if isDominatedByIsNumberTrue c src b then scanUses c src us work seen
      else if negb (isPureF64Arith user) then None
      else if bool_decide (result user ∈ seen) then scanUses c src us work seen
      else scanUses c src us (result user :: work) ({[result user]} ∪ seen)
  end.

Fixpoint validate (fuel : nat) (c : Captures) (src : Z) (work : list Z) (seen : gset Z) : option bool :=
  match fuel with
  | O => None
  | S fuel =>
      match work with
      | [] => Some true
      | v :: work =>
          match scanUses c src (usesOf (pfn c) v) work seen with
          | None => Some false
          | Some (work, seen) => validate fuel c src work seen
          end
      end
  end.

(** A turn for each value that may be met, and one to end. *)
Definition validate_fuel (fn : Function) : nat := length (all_insts fn) + 2.

Definition isValidatedBeforeUse (c : Captures) (unboxed src : Z) : option bool :=
  validate (validate_fuel (pfn c)) c src [unboxed] {[unboxed]}.

(** ** The checks *)

(** The key a certificate names, against the module's keys when there are any. *)
Definition keyPast (m : option IlModule) (key : Z) : bool :=
  match m with
  | Some m => negb (empty (keyConstants m)) && (Z.of_nat (length (keyConstants m)) <=? key)
  | None => false
  end.

Definition checkPinnedParam (m : option IlModule) (i : nat) (p : Param) : Check :=
  if negb (pinned p) then None
  else
    refuse_if (negb (is_type (ptype p) Ty.F64)) (PinnedNotF64 i) ;?
    refuse_if (keyPast m (pinKeyIndex p)) (PinnedKey i (pinKeyIndex p)).

Definition checkSignature (fn : Function) (m : option IlModule) : Check :=
  each_at (checkPinnedParam m) 0 (params fn) ;?
  if returnPinned fn then
    refuse_if (negb (is_type (returnType fn) Ty.F64)) ReturnPinnedNotF64 ;?
    refuse_if (keyPast m (returnPinKeyIndex fn)) (ReturnPinnedKey (returnPinKeyIndex fn))
  else None.

Definition infoType (c : Captures) (v : Z) (t : Ty.t) : bool := match pdefs c !! v with Some d => is_type (itype d) t | None => false end.
Definition producedBy (c : Captures) (v : Z) (f : Instruction -> bool) : bool := match producer c v with Some d => f d | None => false end.

Definition inherentlyCertifiable (d : Instruction) : bool :=
  (Op.eqb (op d) Op.Box && (is_type (boxType d) Ty.F64 || is_type (boxType d) Ty.I32)) ||
  is_op d [Op.PropGet; Op.ElemGet; Op.EnvGet; Op.EnvGetTdz; Op.GlobalGet].

Definition contradictedRead (c : Captures) (d : Instruction) : bool :=
  is_op d [Op.EnvGet; Op.EnvGetTdz] && negb (empty (operands d)) && hasContradictingEnvSet c (operand d 0) (envDepth d) (envIndex d).

(** A raw unbox that no test certifies, by the origin of what it reads. *)
Definition checkRawOrigin (c : Captures) (b i : nat) (inst : Instruction) (src : Z) : Check :=
  refuse_if (producedBy c src isKnownNonNumberProducer) (NeverANumber (result inst) src) ;?
  refuse_if (isDominatedByIsNumberFalse c src b) (FalseBranch (result inst) src b) ;?
  match producer c src with
  | None => None
  | Some d =>
      refuse_if (contradictedRead c d) (ContradictedEnv (result inst) (envDepth d) (envIndex d)) ;?
      refuse_if (negb (inherentlyCertifiable d) && negb (isDominatedByIsNumberTrue c src b) && negb (hasPinNumberBarrierBefore c src b i)) (NoCertificate (result inst) src)
  end.

Definition checkUnbox (c : Captures) (b i : nat) (inst : Instruction) : Check :=
  if negb (Op.eqb (op inst) Op.Unbox) then None
  else
    refuse_if (rawUnbox inst && nullishUnbox inst) (RawAndNullish (result inst)) ;?
    if negb (rawUnbox inst) && negb (nullishUnbox inst) then None
    else
      refuse_if (negb (arity inst 1) || negb (has_result inst)) UncheckedShape ;?
      refuse_if (negb (is_type (type inst) Ty.F64)) (UncheckedNotF64 (result inst)) ;?
      let src := operand inst 0 in
      refuse_if (negb (infoType c src Ty.Dynamic)) (UncheckedOperand (result inst) src) ;?
      if rawUnbox inst then
        if isDominatedByIsNumberTrue c src b then None
        else match isValidatedBeforeUse c (result inst) src with
             | None => Some NoFixpoint
             | Some true => None
             | Some false => checkRawOrigin c b i inst src
             end
      else refuse_if (producedBy c src isKnownNonNumberNonNullishProducer) (NeitherNumberNorNullish (result inst) src).

Definition checkPinGuard (c : Captures) (m : option IlModule) (inst : Instruction) : Check :=
  if negb (Op.eqb (op inst) Op.PinGuard) then None
  else
    refuse_if (negb (arity inst 1) || has_result inst || negb (is_type (type inst) Ty.Void)) PinGuardShape ;?
    refuse_if (negb (infoType c (operand inst 0) Ty.Dynamic)) (PinGuardOperand (operand inst 0)) ;?
    refuse_if (negb (isValidPinBarrier (immI32 inst))) (PinGuardKind (immI32 inst)) ;?
    refuse_if (keyPast m (keyIndex inst)) (PinGuardKey (keyIndex inst)).

Definition checkDense (c : Captures) (inst : Instruction) : Check :=
  refuse_if (Op.eqb (op inst) Op.IsDenseArray && negb (empty (operands inst)) && producedBy c (operand inst 0) isKnownNonArrayProducer)
    (NeverAnArray (op inst) (operand inst 0)).

Definition checkTypedAccess (c : Captures) (inst : Instruction) (recv idx : Z) : Check :=
  refuse_if (negb (infoType c recv Ty.Dynamic)) (ReceiverNotDynamic (op inst) recv) ;?
  refuse_if (producedBy c recv isKnownNonArrayProducer) (NeverAnArray (op inst) recv) ;?
  refuse_if (negb (infoType c idx Ty.F64) && negb (infoType c idx Ty.I32)) (IndexNotNumber (op inst) idx).

Definition checkTypedElement (c : Captures) (inst : Instruction) : Check :=
  if Op.eqb (op inst) Op.ElemGetTyped then
    refuse_if (negb (arity inst 2) || negb (has_result inst) || negb (is_type (type inst) Ty.F64)) (TypedShape (op inst)) ;?
    checkTypedAccess c inst (operand inst 0) (operand inst 1) ;?
    refuse_if (negb (isValidTypedElemKind (immI32 inst))) (ElementKind (op inst) (immI32 inst))
  else if Op.eqb (op inst) Op.ElemSetTyped then
    refuse_if (negb (arity inst 3) || has_result inst || negb (is_type (type inst) Ty.Void)) (TypedShape (op inst)) ;?
    checkTypedAccess c inst (operand inst 0) (operand inst 1) ;?
    refuse_if (negb (infoType c (operand inst 2) Ty.F64)) (ValueNotF64 (operand inst 2)) ;?
    refuse_if (negb (isValidTypedElemKind (immI32 inst))) (ElementKind (op inst) (immI32 inst))
  else None.

Definition checkCertificates (c : Captures) (m : option IlModule) (p : nat * nat * Instruction) : Check :=
  let '(b, i, inst) := p in
  refuse_if (numberBits inst && (negb (Op.eqb (op inst) Op.PropGet) || negb (is_type (type inst) Ty.Dynamic) || negb (staticSlot inst =? kNoStaticSlot)))
    (NumberBitsMisplaced (op inst)) ;?
  checkUnbox c b i inst ;?
  checkPinGuard c m inst ;?
  checkDense c inst ;?
  checkTypedElement c inst.

Definition capture (fn : Function) (idom : list (option nat)) : Captures :=
  let D := collectDefs fn in mkCaptures fn D (buildCfg fn).1 idom (isNumberBranches fn D) (pinNumberSites fn).

Definition verifyFunctionProofs (fn : Function) (m : option IlModule) : Check :=
  checkSignature fn m ;?
  if isExternal fn || empty (blocks fn) then None
  else
    match computeDominators (buildCfg fn).1 (buildCfg fn).2 with
    | None => Some NoFixpoint
    | Some idom => each (checkCertificates (capture fn idom) m) (placed fn)
    end.

(** [verifyFunction], whole. *)
Definition verifyFunction (fn : Function) : Check := verifyBody fn ;? verifyFunctionProofs fn None.
