(* ===== verification/IlUnbox.v ===== *)
(** * What the certificates are worth (src/src/il/verifier_proofs.cpp)

    The walk over the uses of a raw unbox ends and is exact, and a raw unbox that is
    accepted is, on every path to it, under one of the licences.  The licence of a test
    speaks of the block its true edge enters, not of the edge: when another edge enters
    that block too, the unbox is reached with the test failed.  That of a pin guard in
    another block speaks of that block, which may be left for its handler before the guard. *)
From stdpp Require Import gmap relations.
From S2P Require Import Prelude Il IlCheck IlGraph IlDominators IlCfg IlEffects IlVerifier IlSound IlLicences IlProofs.
Local Open Scope Z_scope.

(** ** The walk over the uses *)

Section Walk.
Context (c : Captures) (src : Z).
#[local] Notation under := (isDominatedByIsNumberTrue c src).

(** The values that carry the unboxed bits where the test has not been passed. *)
Inductive Flowing (unboxed : Z) : Z -> Prop :=
  | flowing_start : Flowing unboxed unboxed
  | flowing_use v b user : Flowing unboxed v -> (b, user) ∈ usesOf (pfn c) v -> under b = false -> isPureF64Arith user = true -> Flowing unboxed (result user).

Definition harmless (us : list (nat * Instruction)) : Prop := forall b user, (b, user) ∈ us -> under b = true \/ isPureF64Arith user = true.

Definition covered (us : list (nat * Instruction)) (seen : gset Z) : Prop :=
  forall b user, (b, user) ∈ us -> under b = true \/ (isPureF64Arith user = true /\ result user ∈ seen).

(** What may be met at all. *)
Definition possible (unboxed : Z) : gset Z := {[unboxed]} ∪ list_to_set (map result (all_insts (pfn c))).

Lemma elem_usesOf v b user : (b, user) ∈ usesOf (pfn c) v -> user ∈ all_insts (pfn c) /\ v ∈ allUses user.
Proof.
  unfold usesOf. intros H. apply list_elem_of_In, in_concat in H as (l & Hl & Hin). apply in_map_iff in Hl as ([[b' i] inst] & <- & Hp).
  apply in_map_iff in Hin as (x & [= <- <-] & Hx). apply filter_In in Hx as [Hx ->%Z.eqb_eq]. split; [|by apply list_elem_of_In].
  apply list_elem_of_In, elem_placed in Hp. unfold inst_at in Hp. destruct (blocks (pfn c) !! b') as [blk|] eqn:Eb; [|done]. cbn in Hp.
  unfold all_insts. apply list_elem_of_In, in_concat. exists (instructions blk). split; [|by apply list_elem_of_In, list_elem_of_lookup; exists i].
  apply in_map, list_elem_of_In. by eapply list_elem_of_lookup_2.
Qed.

Lemma scan_none us : forall work seen, scanUses c src us work seen = None -> ~ harmless us.
Proof.
  induction us as [|[b user] us IH]; intros work seen E H; cbn in E; [done|].
  assert (harmless us) as Hus by (intros b' u' Hin; apply H; by right). destruct (under b) eqn:Eu; [by apply (IH _ _ E)|].
  destruct (H b user) as [|Hp]; [by left|congruence|]. rewrite Hp in E. cbn in E. case_bool_decide; by apply (IH _ _ E).
Qed.

(** What one turn has done: the new values were pushed, each once. *)
Record scanned (us : list (nat * Instruction)) (unboxed : Z) (work : list Z) (seen : gset Z) (work' : list Z) (seen' : gset Z) : Prop := {
  sc_cover : covered us seen';
  sc_more : seen ⊆ seen';
  sc_from v : v ∈ seen' -> v ∈ seen \/ (v ∈ work' /\ exists b user, (b, user) ∈ us /\ under b = false /\ isPureF64Arith user = true /\ v = result user);
  sc_kept v : v ∈ work -> v ∈ work';
  sc_work v : v ∈ work' -> v ∈ work \/ v ∈ seen';
  sc_size : (size (possible unboxed ∖ seen') + length work' <= size (possible unboxed ∖ seen) + length work)%nat }.

Lemma scan_some unboxed us : forall work seen work' seen', (forall b user, (b, user) ∈ us -> result user ∈ possible unboxed) ->
  scanUses c src us work seen = Some (work', seen') -> scanned us unboxed work seen work' seen'.
Proof.
  induction us as [|[b user] us IH]; intros work seen work' seen' Hposs E; cbn in E.
  { injection E as <- <-. split; try done; [by intros b u ?%not_elem_of_nil| |]; by left. }
  assert (forall b user, (b, user) ∈ us -> result user ∈ possible unboxed) as Hp' by (intros b' u' Hin; apply (Hposs b'); by right).
  assert (forall w s, scanned us unboxed w s work' seen' -> (under b = true \/ isPureF64Arith user = true /\ result user ∈ seen') ->
    work ⊆ w -> seen ⊆ s -> (forall v, v ∈ s -> v ∈ seen \/ (v ∈ w /\ under b = false /\ isPureF64Arith user = true /\ v = result user)) -> (forall v, v ∈ w -> v ∈ work \/ v ∈ s) ->
    (size (possible unboxed ∖ s) + length w <= size (possible unboxed ∖ seen) + length work)%nat -> scanned ((b, user) :: us) unboxed work seen work' seen') as Hcons.
  { intros w s [H1 H2 H3 H4 H5 H6] Hhead Hw Hs Hfrom Hwork Hsize. split; [|set_solver| |set_solver| |lia].
    - intros b' u' [[= -> ->]|Hin]%elem_of_cons; [done|by apply H1].
    - intros v Hv. destruct (H3 v Hv) as [Hvs|(Hvw & b' & u' & Hin & ?)]; [|right; split; [done|]; exists b', u'; split; [by right|done]].
      destruct (Hfrom v Hvs) as [|(Hvw & Hu & Hpu & ->)]; [by left|right]. split; [by apply H4|]. exists b, user. split; [by left|done].
    - intros v Hv. destruct (H5 v Hv) as [Hvw|]; [|by right]. destruct (Hwork v Hvw) as [|]; [by left|right; by apply H2]. }
  destruct (under b) eqn:Eu; [eapply Hcons; [by apply IH|by left|done|done|by left|by left|done]|].
  destruct (isPureF64Arith user) eqn:Ep; [cbn in E|done]. case_bool_decide as Es.
  - pose proof (IH _ _ _ _ Hp' E) as Hsc. eapply Hcons; [exact Hsc|right; split; [done|by apply (sc_more _ _ _ _ _ _ Hsc)]|done|done|by left|by left|done].
  - pose proof (IH _ _ _ _ Hp' E) as Hsc. eapply Hcons; [exact Hsc| |set_solver|set_solver|set_solver|set_solver|].
    + right. split; [done|]. apply (sc_more _ _ _ _ _ _ Hsc). set_solver.
    + assert (possible unboxed ∖ seen = {[result user]} ∪ possible unboxed ∖ ({[result user]} ∪ seen)) as ->.
      { apply set_eq. intros v. destruct (decide (v = result user)) as [->|]; [|set_solver]. pose proof (Hposs b user ltac:(by left)). set_solver. }
      pose proof (size_union {[result user]} (possible unboxed ∖ ({[result user]} ∪ seen)) ltac:(set_solver)) as Hz. rewrite size_singleton in Hz. cbn [length]. lia.
Qed.

Lemma validate_ok unboxed fuel : forall work seen, (size (possible unboxed ∖ seen) + length work < fuel)%nat ->
  (forall v, v ∈ seen -> Flowing unboxed v) -> (forall v, v ∈ work -> v ∈ seen) -> unboxed ∈ seen ->
  (forall v, v ∈ seen -> v ∈ work \/ covered (usesOf (pfn c) v) seen) ->
  exists r, validate fuel c src work seen = Some r /\ (r = true <-> forall v, Flowing unboxed v -> harmless (usesOf (pfn c) v)).
Proof.
  induction fuel as [|fuel IH]; intros work seen Hlt Hfl Hw Hst Hcov; [lia|]. cbn [validate]. destruct work as [|v work].
  { exists true. split; [done|]. split; [|done]. intros _.
    assert (forall v, Flowing unboxed v -> v ∈ seen) as Hall.
    { induction 1 as [|v b user _ IHv Hin Hu Hp]; [done|]. destruct (Hcov v IHv) as [?%not_elem_of_nil|Hc]; [done|]. destruct (Hc b user Hin) as [|[_ ?]]; [congruence|done]. }
    intros v Hv b user Hin. destruct (Hcov v (Hall v Hv)) as [?%not_elem_of_nil|Hc]; [done|]. destruct (Hc b user Hin) as [|[? _]]; [by left|by right]. }
  assert (forall b user, (b, user) ∈ usesOf (pfn c) v -> result user ∈ possible unboxed) as Hposs.
  { intros b user Hin%elem_usesOf. apply elem_of_union. right. apply elem_of_list_to_set, list_elem_of_fmap. exists user. split; [done|apply Hin]. }
  pose proof (Hfl v (Hw v ltac:(by left))) as Hv. destruct (scanUses c src (usesOf (pfn c) v) work seen) as [[work' seen']|] eqn:Es.
  - destruct (scan_some unboxed _ _ _ _ _ Hposs Es) as [H1 H2 H3 H4 H5 H6]. cbn in Hlt. apply IH; [lia| | |by apply H2|].
    + intros w Hw'. destruct (H3 w Hw') as [|(_ & b & user & Hin & Hu & Hp & ->)]; [by apply Hfl|by eapply flowing_use].
    + intros w Hw'. destruct (H5 w Hw') as [Hin|]; [|done]. apply H2, Hw. by right.
    + intros w Hw'. destruct (H3 w Hw') as [Hws|[? _]]; [|by left]. destruct (Hcov w Hws) as [[->|Hin]%elem_of_cons|Hc]; [by right|left; by apply H4|right].
      intros b user Hin. destruct (Hc b user Hin) as [|[? ?]]; [by left|right]. split; [done|by apply H2].
  - exists false. split; [done|]. split; [done|]. intros H. by destruct (scan_none _ _ _ Es (H v Hv)).
Qed.
End Walk.

Lemma size_of_list (l : list Z) : (size (list_to_set l : gset Z) <= length l)%nat.
Proof.
  induction l as [|x l IH]; cbn; [done|]. pose proof (size_union_alt {[x]} (list_to_set l : gset Z)) as Hu. rewrite size_singleton in Hu.
  pose proof (subseteq_size ((list_to_set l : gset Z) ∖ {[x]}) (list_to_set l) ltac:(set_solver)). lia.
Qed.

Lemma walk_exact c unboxed src : exists r, isValidatedBeforeUse c unboxed src = Some r /\
  (r = true <-> forall v, Flowing c src unboxed v -> harmless c src (usesOf (pfn c) v)).
Proof.
  unfold isValidatedBeforeUse. apply validate_ok.
  - pose proof (size_of_list (map result (all_insts (pfn c)))) as H. rewrite length_map in H.
    pose proof (subseteq_size (possible c unboxed ∖ {[unboxed]}) (list_to_set (map result (all_insts (pfn c)))) ltac:(unfold possible; set_solver)).
    unfold validate_fuel. cbn. lia.
  - intros v ->%elem_of_singleton. constructor.
  - set_solver.
  - set_solver.
  - intros v ->%elem_of_singleton. left. by left.
Qed.

(** ** What is collected *)

Lemma fold_collected (P : Z -> DefInfo -> Prop) {A} (f : Infos -> A -> Infos) l : forall D, (forall v d, D !! v = Some d -> P v d) ->
  (forall D x, x ∈ l -> (forall v d, D !! v = Some d -> P v d) -> forall v d, f D x !! v = Some d -> P v d) -> forall v d, foldl f D l !! v = Some d -> P v d.
Proof.
  induction l as [|x l IH]; intros D HD Hf; [done|]. cbn. apply IH; [by apply Hf; [left|]|]. intros D' y Hy. apply Hf. by right.
Qed.

Lemma insert_collected (P : Z -> DefInfo -> Prop) (D : Infos) k x : (forall v d, D !! v = Some d -> P v d) -> P k x -> forall v d, <[k := x]> D !! v = Some d -> P v d.
Proof. intros HD Hk v d H. destruct (decide (v = k)) as [->|Hne]; [rewrite lookup_insert_eq in H; by injection H as <-|rewrite lookup_insert_ne in H by done; by apply HD]. Qed.

Lemma elem_all_insts fn b i inst : inst_at fn b i = Some inst -> inst ∈ all_insts fn.
Proof.
  unfold inst_at. destruct (blocks fn !! b) as [blk|] eqn:Eb; [|done]. cbn. intros Hi. unfold all_insts. apply list_elem_of_In, in_concat. exists (instructions blk).
  split; [apply in_map, list_elem_of_In; by eapply list_elem_of_lookup_2|apply list_elem_of_In; by eapply list_elem_of_lookup_2].
Qed.

(** An instruction recorded for an id is one of the function, of that result. *)
Lemma collected_inst fn v d inst : collectDefs fn !! v = Some d -> idef d = Some inst -> inst ∈ all_insts fn /\ result inst = v.
Proof.
  set (P := fun v d => forall inst, idef d = Some inst -> inst ∈ all_insts fn /\ result inst = v). intros H. revert inst. change (P v d). revert v d H.
  unfold collectDefs. apply fold_collected.
  - apply fold_collected; [intros v d H; by rewrite lookup_empty in H|]. intros D [i p] _ HD. by apply insert_collected.
  - intros D [b blk] Hin HD. apply elem_of_lookup_imap in Hin as (b' & blk' & [= <- <-] & Hb). cbn. unfold collectBlock. apply fold_collected.
    + apply fold_collected; [done|]. intros D' p _ HD'. by apply insert_collected.
    + intros D' [i inst] Hi HD'. apply elem_of_lookup_imap in Hi as (i' & inst' & [= <- <-] & Hi). cbn. destruct (_ =? _); [done|].
      apply insert_collected; [done|]. intros x [= <-]. split; [|done]. apply (elem_all_insts fn b i). unfold inst_at. by rewrite Hb.
Qed.

(** ** What dominates *)

(** Block [a] ends with a branch on [is.number] of an id, whose first target is [t]. *)
Definition tests (fn : Function) (v : Z) (a t : nat) : Prop :=
  exists blk br c test, blocks fn !! a = Some blk /\ last (instructions blk) = Some br /\ op br = Op.Branch /\ tblock (target br) = Z.of_nat t /\
    head (operands br) = Some c /\ test ∈ all_insts fn /\ result test = c /\ op test = Op.IsNumber /\ operands test = [v].

Definition on_every_path (fn : Function) (t b : nat) : Prop := forall l, path (flows fn) l b -> t ∈ l.

Section Captured.
Context (fn : Function) (Hf : fits_function fn) (Hne : blocks fn <> []) (idom : list (option nat)).
Context (Hidom : computeDominators (buildCfg fn).1 (buildCfg fn).2 = Some idom).
#[local] Notation c := (capture fn idom).

Lemma under_test v b : isDominatedByIsNumberTrue c v b = true -> exists a t, tests fn v a t /\ on_every_path fn t b.
Proof.
  unfold isDominatedByIsNumberTrue. intros (br & Hin & Hbr)%existsb_exists. rewrite !andb_true_iff in Hbr. destruct Hbr as [[[Ev _] Hd] _].
  apply Z.eqb_eq in Ev. cbn [pbranches capture] in Hin. apply list_elem_of_In, list_elem_of_omap in Hin as ([a blk] & Hin & Hb).
  apply elem_of_lookup_imap in Hin as (a' & blk' & [= <- <-] & Ha). unfold isNumberBranch in Hb. cbn [fst snd] in Hb.
  destruct (last (instructions blk)) as [term|] eqn:El; [|done]. destruct (operands term) as [|x rest] eqn:Eo; [done|].
  destruct (Op.eqb_spec (op term) Op.Branch) as [Hop|]; [|done]. destruct (collectDefs fn !! x) as [[ty db di [test|]]|] eqn:Ed; [|done..].
  destruct (Op.eqb_spec (op test) Op.IsNumber) as [Htest|]; [|done]. destruct (arity test 1) eqn:Ea; [|done]. injection Hb as <-. cbn in Ev, Hd.
  destruct (collected_inst fn x _ test Ed eq_refl) as [Hin Hx]. destruct (fu_blocks _ Hf) as [Hall _]. rewrite Forall_forall in Hall.
  destruct (fb_instructions _ (Hall blk (list_elem_of_lookup_2 _ _ _ Ha))) as [His _]. rewrite Forall_forall in His.
  assert (0 <= tblock (target term)) as H0 by (destruct (His term (last_Some_elem_of _ _ El)); destruct fi_target as [[? _] _]; done).
  exists a, (Z.to_nat (tblock (target term))). split.
  - exists blk, term, x, test. split_and!; try done; [lia|by rewrite Eo|]. unfold arity in Ea. apply Nat.eqb_eq in Ea. unfold operand in Ev.
    destruct (operands test) as [|y [|]]; try done. cbn in Ev. by subst.
  - intros l Hl. apply (dominates_path fn idom _ b); try done. by right.
Qed.

Lemma under_pin v b i : hasPinNumberBarrierBefore c v b i = true -> exists pb pi g, inst_at fn pb pi = Some g /\ op g = Op.PinGuard /\ operands g = [v] /\
  immI32 g = pin_code Number /\ ((pb = b /\ (pi < i)%nat) \/ (pb <> b /\ on_every_path fn pb b)).
Proof.
  unfold hasPinNumberBarrierBefore. intros (s & Hin & Hs)%existsb_exists. apply andb_true_iff in Hs as [Ev%Z.eqb_eq Hs]. cbn [psites capture] in Hin.
  apply list_elem_of_In, list_elem_of_omap in Hin as ([[pb pi] g] & Hin%elem_placed & Hg). destruct (_ && _)%bool eqn:Ec in Hg; [|done]. injection Hg as <-. cbn in Ev, Hs.
  rewrite !andb_true_iff in Ec. destruct Ec as [[Ho Ha] Hi%Z.eqb_eq]. exists pb, pi, g. split_and!; [done|by destruct (Op.eqb_spec (op g) Op.PinGuard)| |done|].
  - unfold arity in Ha. apply Nat.eqb_eq in Ha. unfold operand in Ev. destruct (operands g) as [|y [|]]; try done. cbn in Ev. by subst.
  - apply orb_true_iff in Hs as [[Eb%Nat.eqb_eq Hlt%Nat.ltb_lt]%andb_true_iff|[Eb%negb_true_iff%Nat.eqb_neq Hd]%andb_true_iff]; [by left|right].
    split; [done|]. intros l Hl. apply (dominates_path fn idom _ b); try done. by right.
Qed.
End Captured.

(** C22: what an accepted raw unbox reads is licensed: the block that the true edge of a test
    of it enters is on every path to the unbox, and where nothing else enters that block
    the edge itself is; or nothing looks at the bits but arithmetic and instructions that
    the verifier finds under such a test; or it comes from a box of a number, an audited
    read or a parameter; or a pin guard of it stands before the unbox in its block, or in
    another block that is on every path to it.  (Of that other block only the entry is on
    the path: one that is left for its handler before the guard has not run it, which
    [handler_unbox_accepted] shows.) *)
Theorem raw_unbox_licensed fn m b i inst : fits_function fn -> isExternal fn = false -> blocks fn <> [] -> verifyFunctionProofs fn m = None ->
  inst_at fn b i = Some inst -> op inst = Op.Unbox -> rawUnbox inst = true ->
  exists idom, computeDominators (buildCfg fn).1 (buildCfg fn).2 = Some idom /\
    let src := operand inst 0 in let c := capture fn idom in
    (exists a t, tests fn src a t /\ on_every_path fn t b /\
       (t <> 0%nat -> (forall p, flows fn p t -> p = a) -> forall l, path (flows fn) l b -> exists l1 l2, l = l1 ++ a :: t :: l2)) \/
    (forall v, Flowing c src (result inst) v -> harmless c src (usesOf fn v)) \/
    (producedBy c src isKnownNonNumberProducer = false /\
      (producer c src = None \/
       (exists d, producer c src = Some d /\ inherentlyCertifiable d = true /\ contradictedRead c d = false) \/
       (exists pb pi g, inst_at fn pb pi = Some g /\ op g = Op.PinGuard /\ operands g = [src] /\ immI32 g = pin_code Number /\
          ((pb = b /\ (pi < i)%nat) \/ (pb <> b /\ on_every_path fn pb b))))).
Proof.
  intros Hf Hext Hne Hv Hi Hop Hraw. unfold verifyFunctionProofs in Hv. rewrite andThen_none in Hv. destruct Hv as [_ Hv].
  rewrite Hext in Hv. assert (empty (blocks fn) = false) as He by (by destruct (blocks fn)). rewrite He in Hv. cbn [orb] in Hv.
  destruct (computeDominators _ _) as [idom|] eqn:Eid; [|done]. exists idom. split; [done|]. intros src c.
  apply each_none in Hv. rewrite Forall_forall in Hv. specialize (Hv (b, i, inst) (proj2 (elem_placed _ _ _ _) Hi)).
  unfold checkCertificates in Hv. rewrite !andThen_none in Hv. destruct Hv as (_ & Hu & _). unfold checkUnbox in Hu. rewrite Hop, Hraw in Hu. cbn [Op.eqb negb andb] in Hu.
  change (negb (Op.eqb Op.Unbox Op.Unbox)) with false in Hu. cbn iota in Hu. rewrite !andThen_none, !refuse_if_none in Hu. destruct Hu as (_ & _ & _ & _ & Hu).
  destruct (isDominatedByIsNumberTrue (capture fn idom) (operand inst 0) b) eqn:Et.
  - left. destruct (under_test fn Hf Hne idom Eid _ _ Et) as (a & t & Ht & Hall). exists a, t. split_and!; [done|done|]. intros Ht0 Honly l Hl.
    destruct (path_before _ _ _ _ Hl (Hall l Hl) Ht0) as (l1 & p & l2 & -> & Hp). rewrite (Honly p Hp). by exists l1, l2.
  - right. destruct (walk_exact c (result inst) src) as (r & Er & Hr). unfold src, c in Er. rewrite Er in Hu. destruct r; [left; by apply Hr|right].
    unfold checkRawOrigin in Hu. rewrite !andThen_none, !refuse_if_none in Hu. destruct Hu as (Hn & _ & Hu). split; [done|].
    fold src c in Hu. destruct (producer c src) as [d|]; [|by left]. right. rewrite andThen_none, !refuse_if_none in Hu. destruct Hu as [Hc Hu].
    rewrite !andb_false_iff, !negb_false_iff in Hu. destruct Hu as [[Hu|Hu]|Hu]; [left; by exists d|fold src c in Et; rewrite Et in Hu; done|right; by apply (under_pin fn Hf Hne idom Eid)].
Qed.

(** ** Programs *)

Definition raw_unbox (r v : Z) : Instruction :=
  mkInst Op.Unbox Ty.F64 r [v] 0 0 0 Ty.Void 0 0 false false false false true false false false kNoStaticSlot 0
    kNoFamily 0 false false kNoTransitionRun 0 0 kNoDefineAddCell kNoDirectTarget kNoDirectTarget
    0 0 false false 0 0 kNoEnvHops 0 (mkSpan 0 0 0) no_target no_target.

(** A call's result unboxed raw under a test of it; the second program enters the tested
    block from the other arm too, so the unbox runs with the test failed. *)
Definition guarded_unbox (b2 : list Instruction) : Function :=
  plain_function [dynamic_param]
    [plain_block 0 [] [plain Op.DynamicCall Ty.Dynamic 1 [0; 0]; plain Op.IsNumber Ty.Bool 2 [1]; branch 2 1 2];
     plain_block 1 [] [raw_unbox 3 1; plain Op.NumTruthy Ty.Bool 4 [3]; ret 0];
     plain_block 2 [] b2] 5.

Example guarded_unbox_accepted : verifyFunction (guarded_unbox [ret 0]) = None.
Proof. by vm_compute. Qed.

Example joined_unbox_accepted : verifyFunction (guarded_unbox [jump 1 []]) = None.
Proof. by vm_compute. Qed.

(** Without a test it is refused. *)
Example untested_unbox_refused :
  verifyFunction (plain_function [dynamic_param]
    [plain_block 0 [] [plain Op.DynamicCall Ty.Dynamic 1 [0; 0]; raw_unbox 3 1; plain Op.NumTruthy Ty.Bool 4 [3]; ret 0]] 5) = Some (NoCertificate 3 1).
Proof. by vm_compute. Qed.

(** The run of the second program that takes the false edge. *)
Lemma joined_unbox_reached : path (flows (guarded_unbox [jump 1 []])) [0; 2; 1]%nat 1.
Proof.
  apply (path_edge _ [0; 2]%nat 2 1); [apply (path_edge _ [0]%nat 0 2); [constructor|]|]; by apply flows_by.
Qed.

(** A value unboxed raw in the handler of the block that guards it: the call before the
    guard may leave for the handler, and the guard has not run there. *)
Definition pin_number (v : Z) : Instruction :=
  inst Op.PinGuard Ty.Void kNoValue [v] (pin_code Number) no_target no_target.

Definition handler_unbox : Function :=
  plain_function [dynamic_param]
    [plain_block 0 [] [plain Op.DynamicCall Ty.Dynamic 1 [0; 0]; jump 1 []];
     guarded_block 1 [] [plain Op.DynamicCall Ty.Dynamic 2 [0; 0]; pin_number 1; ret 0] 2;
     plain_block 2 [] [plain Op.ExcTake Ty.Dynamic 3 []; raw_unbox 4 1; plain Op.NumTruthy Ty.Bool 5 [4]; ret 0]] 6.

Example handler_unbox_accepted : verifyFunction handler_unbox = None.
Proof. by vm_compute. Qed.

(** Without the guard it is refused. *)
Example handler_unbox_unguarded :
  verifyFunction (plain_function [dynamic_param]
    [plain_block 0 [] [plain Op.DynamicCall Ty.Dynamic 1 [0; 0]; jump 1 []];
     guarded_block 1 [] [plain Op.DynamicCall Ty.Dynamic 2 [0; 0]; ret 0] 2;
     plain_block 2 [] [plain Op.ExcTake Ty.Dynamic 3 []; raw_unbox 4 1; plain Op.NumTruthy Ty.Bool 5 [4]; ret 0]] 6) = Some (NoCertificate 4 1).
Proof. by vm_compute. Qed.

Lemma raw_unbox_licensed_witness : let fn := guarded_unbox [ret 0] in let idom := [None; Some 0; Some 0]%nat in let c := capture fn idom in
  inst_at fn 1 0 = Some (raw_unbox 3 1) /\
  ((exists a t, tests fn 1 a t /\ on_every_path fn t 1 /\
     (t <> 0%nat -> (forall p, flows fn p t -> p = a) -> forall l, path (flows fn) l 1 -> exists l1 l2, l = l1 ++ a :: t :: l2)) \/
   (forall v, Flowing c 1 3 v -> harmless c 1 (usesOf fn v)) \/
   (exists pb pi g, inst_at fn pb pi = Some g /\ op g = Op.PinGuard /\ operands g = [1])).
Proof.
  intros fn idom c. destruct (raw_unbox_licensed fn None 1 0 (raw_unbox 3 1)) as (idom' & E & H); [solve_fits|done|done|by vm_compute|done|done|done|].
  assert (Some idom' = Some idom) as [= ->] by (rewrite <- E; by vm_compute). split; [done|]. cbn zeta in H. fold fn in H. fold c in H.
  change (operand (raw_unbox 3 1) 0) with 1 in H. change (result (raw_unbox 3 1)) with 3 in H.
  destruct H as [H|[H|(_ & [H|[(d & Hd & Hc & _)|(pb & pi & g & Hg & Ho & Hr & _)]])]]; [by left|by right; left|by vm_compute in H| |right; right; by exists pb, pi, g].
  exfalso. vm_compute in Hd. injection Hd as <-. by vm_compute in Hc.
Defined.
