(* ===== verification/IlModuleVerifier.v ===== *)
(** * The verifier of modules (src/src/il/verifier.cpp, verifier_typed_entry.cpp, feedback_site.cpp, il.h)

    [verify]: every function, the records of type feedback, what functions call and name,
    the tables an instruction indexes, and the typed entries.  The claims are that the
    cells a method call is registered with belong to no property site, and that what a
    typed edge hands over is what the entry it names takes. *)
From stdpp Require Import gmap sorting.
From S2P Require Import Prelude Il IlCheck IlGraph IlDominators IlCfg IlEffects IlVerifier IlSound IlProofs.
Local Open Scope Z_scope.
Local Open Scope bool_scope.

(** ** The types of values, by id *)

Notation Types := (gmap Z Ty.t).

Definition setType (n : Z) (T : Types) (id : Z) (t : Ty.t) : Types := if id <? n then <[id := t]> T else T.

Definition blockTypes (n : Z) (T : Types) (blk : Block) : Types :=
  let T := foldl (fun T p => setType n T (bp_id p) (bp_type p)) T (bparams blk) in
  foldl (fun T inst => if result inst =? kNoValue then T else setType n T (result inst) (type inst)) T (instructions blk).

(** [types], of [valueCount] entries that start as [Void]. *)
Definition valueTypes (fn : Function) : Types :=
  let n := valueCount fn in
  let T := foldl (fun T (p : nat * Param) => setType n T (Z.of_nat p.1) (ptype p.2)) ∅ (imap pair (params fn)) in
  foldl (blockTypes n) T (blocks fn).

(** [v < types.size() ? types[v] : Type::Void] *)
Definition typeAt (T : Types) (v : Z) : Ty.t := default Ty.Void (T !! v).

(** ** Records of type feedback *)

Definition FEEDBACK_FLAG : Z := 0x80000000.
Definition FEEDBACK_KIND_MARKER : Z := 0.
Definition FEEDBACK_KIND_ENTRY : Z := 1.
Definition FEEDBACK_KIND_METHOD_NAME : Z := 9.
Definition feedbackKind (info : Z) : Z := Z.land (Z.shiftr info 24) 0x7F.

Definition checkFeedbackRecord (T : Types) (inst : Instruction) : Check :=
  if negb (Op.eqb (op inst) Op.FeedbackRecord) then None
  else
    let info := u32 (immI32 inst) in
    let kind := feedbackKind info in
    let want := if kind =? FEEDBACK_KIND_ENTRY then 0%nat else 1%nat in
    refuse_if (negb (is_type (type inst) Ty.Void && negb (has_result inst) && negb (Z.land info FEEDBACK_FLAG =? 0) &&
      negb (kind =? FEEDBACK_KIND_MARKER) && (kind <? FEEDBACK_KIND_METHOD_NAME) && arity inst want &&
      ((want =? 0)%nat || is_type (typeAt T (operand inst 0)) Ty.Dynamic))) FeedbackShape.

Definition verifyFeedbackRecords (fn : Function) : Check :=
  let T := valueTypes fn in each (checkFeedbackRecord T) (all_insts fn).

(** ** Typed entries *)

Definition b2n (b : bool) : nat := if b then 1 else 0.
Definition firstSourceParam (fn : Function) : nat := b2n (needsEnv fn) + b2n (needsThis fn) + b2n (needsArguments fn).
(** A [size_t]. *)
Definition callerParamCount (fn : Function) : Z :=
  u64 (Z.of_nat (length (params fn)) - Z.of_nat (firstSourceParam fn) - Z.of_nat (b2n (hasRestParam fn))).

Definition plainMethodBody (fn : Function) : bool :=
  needsThis fn && negb (needsEnv fn) && negb (needsArguments fn) && negb (hasRestParam fn) && negb (isCoroutineBody fn) &&
  negb (isGenerator fn) && negb (isExternal fn) && negb (isEntryPoint fn).

(** A parameter of an entry against the one it is a copy of. *)
Definition checkEntryParam (fn : Function) (p : nat) (x : Param * Param) : Check :=
  let t := ptype x.1 in
  let o := ptype x.2 in
  refuse_if ((Z.of_nat (firstSourceParam fn) + typedArgc fn <=? Z.of_nat p) && negb (is_type t Ty.Dynamic)) TypedOmitted ;?
  if is_type t o then None
  else refuse_if ((p <? firstSourceParam fn)%nat || negb (is_type o Ty.Dynamic) || (negb (is_type t Ty.F64) && negb (is_type t Ty.Bool))) (TypedParam p).

Definition checkEntry (m : IlModule) (fn : Function) : Check :=
  if typedOrigin fn =? kNoTypedOrigin then None
  else if Z.of_nat (length (functions m)) <=? typedOrigin fn then Some TypedPastModule
  else
    match functions m !! Z.to_nat (typedOrigin fn) with
    | None => Some ReadsPastList
    | Some origin =>
        refuse_if (negb (typedOrigin origin =? kNoTypedOrigin)) TypedOfTyped ;?
        refuse_if (negb (plainMethodBody fn)) TypedNotPlainMethod ;?
        refuse_if (negb (length (params fn) =? length (params origin))%nat || negb (Bool.eqb (needsThis fn) (needsThis origin)) ||
                   negb (firstSourceParam fn =? firstSourceParam origin)%nat) TypedParamsDiffer ;?
        refuse_if (callerParamCount fn <? typedArgc fn) TypedArityPast ;?
        each_at (checkEntryParam fn) 0 (zip (params fn) (params origin))
    end.

(** An argument of a typed edge, [a] counted from the receiver's next. *)
Definition checkEdgeArg (T : Types) (inst : Instruction) (argc : Z) (a : nat) (p : Param) : Check :=
  if argc <=? Z.of_nat a then refuse_if (negb (is_type (ptype p) Ty.Dynamic)) (EdgeOmits a)
  else refuse_if (negb (is_type (typeAt T (operand inst (S a))) (ptype p))) (EdgeType a).

Definition checkEdge (m : IlModule) (T : Types) (inst : Instruction) : Check :=
  if typedTarget inst =? kNoDirectTarget then None
  else
    refuse_if (negb (Op.eqb (op inst) Op.MethodCall)) EdgeNotMethodCall ;?
    refuse_if ((Z.of_nat (length (functions m)) <=? typedTarget inst) || (Z.of_nat (length (functions m)) <=? directTarget inst)) EdgePastModule ;?
    match functions m !! Z.to_nat (typedTarget inst) with
    | None => Some ReadsPastList
    | Some entry =>
        refuse_if (negb (typedOrigin entry =? directTarget inst)) (EdgeNotItsEntry (typedTarget inst) (directTarget inst)) ;?
        let argc := Z.of_nat (pred (length (operands inst))) in
        refuse_if (negb (argc =? typedArgc entry)) (EdgeArity (typedArgc entry) argc) ;?
        (if (length (params entry) <? firstSourceParam entry + b2n (hasRestParam entry))%nat then Some ReadsPastList
         else each_at (checkEdgeArg T inst argc) 0
                (take (length (params entry) - firstSourceParam entry - b2n (hasRestParam entry)) (drop (firstSourceParam entry) (params entry))))
    end.

Definition verifyTypedEntries (m : IlModule) : Check :=
  each (checkEntry m) (functions m) ;?
  each (fun fn => let T := valueTypes fn in each (checkEdge m T) (all_insts fn)) (functions m).

Definition verifyModuleProofs (m : IlModule) : Check :=
  verifyTypedEntries m ;?
  each (fun fn => verifyFunctionProofs fn (Some m)) (functions m).

(** ** What functions name *)

Definition refersToFunction (inst : Instruction) : bool :=
  is_op inst [Op.Call; Op.CreateFunction; Op.FunctionRef; Op.CoroStart; Op.MethodIcIs; Op.AccessorIcIs; Op.ClosureIs].

Definition checkReference (m : IlModule) (inst : Instruction) : Check :=
  if negb (refersToFunction inst) then None
  else if Z.of_nat (length (functions m)) <=? calleeIndex inst then Some (FunctionOutOfRange (op inst))
  else
    match functions m !! Z.to_nat (calleeIndex inst) with
    | None => Some ReadsPastList
    | Some callee =>
        let bodyTarget := isCoroutineBody callee in
        refuse_if (negb (Bool.eqb bodyTarget (Op.eqb (op inst) Op.CoroStart)) ||
                   (bodyTarget && (negb (length (operands inst) =? length (params callee))%nat || negb (immI32 inst =? coroKind callee))))
          (BodyMismatch (op inst) (calleeIndex inst)) ;?
        if negb (Op.eqb (op inst) Op.Call) then None
        else
          refuse_if (needsEnv callee && (callEnvHops inst =? kNoEnvHops)) (DirectCallNeedsEnv (calleeIndex inst)) ;?
          refuse_if (negb (needsEnv callee) && negb (callEnvHops inst =? kNoEnvHops)) (DirectCallSuppliesEnv (calleeIndex inst)) ;?
          refuse_if (negb (length (operands inst) =? length (params callee))%nat)
            (DirectCallArity (calleeIndex inst) (length (params callee)) (length (operands inst)))
    end.

(** ** The tables *)

Definition kWriteModeMask : Z := 0xFF.
Definition kWriteDefine : Z := 2.
Definition kWriteLiteralElement : Z := 3.
Definition kElemSetFlagBits : Z :=
  Z.lor kWriteModeMask (Z.lor kElemFlagArrayReceiver (Z.lor kElemFlagProvenIntegralIndex kElemFlagFloatViewReceiver)).
Definition writeMode (inst : Instruction) : Z := Z.land (immI32 inst) kWriteModeMask.
Definition isDefineWrite (inst : Instruction) : bool := is_op inst [Op.PropSet; Op.ElemSet] && (writeMode inst =? kWriteDefine).
Definition DEFINE_ADD_CELLS : Z := 2.

Definition needsEnvAt (m : IlModule) (f : Z) : bool :=
  match functions m !! Z.to_nat f with Some callee => needsEnv callee | None => false end.

Definition checkAccessor (m : IlModule) (inst : Instruction) : Check :=
  let accessorSite := is_op inst [Op.PropGet; Op.PropSet] && negb (directTarget inst =? kNoDirectTarget) in
  if negb (accessorSite || Op.eqb (op inst) Op.AccessorIcIs) then None
  else
    let target := if accessorSite then directTarget inst else calleeIndex inst in
    refuse_if ((staticSiteCount m <=? staticCellIndex inst + 1) || (Z.of_nat (length (functions m)) <=? target) || needsEnvAt m target ||
               (accessorSite && negb (staticSlot inst =? kNoStaticSlot))) (AccessorCell (op inst) (staticCellIndex inst) target).

Definition checkWriteMode (inst : Instruction) : Check :=
  refuse_if (is_op inst [Op.PropSet; Op.ElemSet] &&
    ((kWriteLiteralElement <? writeMode inst) ||
     negb (Z.land (immI32 inst) (Z.lnot (if Op.eqb (op inst) Op.ElemSet then kElemSetFlagBits else kWriteModeMask)) =? 0) ||
     (Op.eqb (op inst) Op.ElemSet && (writeMode inst =? kWriteLiteralElement)) ||
     (isDefineWrite inst && (negb (directTarget inst =? kNoDirectTarget) || negb (staticSlot inst =? kNoStaticSlot)))))
    (WriteMode (op inst) (immI32 inst)).

Definition checkRun (m : IlModule) (len i : nat) (inst : Instruction) : Check :=
  refuse_if (negb (transitionRunCell inst =? kNoTransitionRun) &&
    (negb (Op.eqb (op inst) Op.PropSet) || (staticSiteCount m <? transitionRunCell inst + kTransitionRunCells) ||
     (transitionRunLength inst <? 2) || (Z.of_nat len <? Z.of_nat i + transitionRunLength inst)))
    (TransitionRun (op inst) (transitionRunCell inst) (transitionRunLength inst)).

Definition checkDefineAdd (m : IlModule) (inst : Instruction) : Check :=
  refuse_if (negb (defineAddCell inst =? kNoDefineAddCell) &&
    (negb (Op.eqb (op inst) Op.DefineOwnAttr) || (staticSiteCount m <? defineAddCell inst + DEFINE_ADD_CELLS)))
    (DefineAddCell (op inst) (defineAddCell inst)).

(** The site words, or else the template slot. *)
Definition usesIcSite (inst : Instruction) : bool :=
  is_op inst [Op.PropGet; Op.PropSet; Op.IsShape; Op.LayoutFact; Op.MethodCall; Op.MethodCallSpread].

Definition checkSites (m : IlModule) (inst : Instruction) : Check :=
  if usesIcSite inst then
    refuse_if (icSiteCount m <=? icIndex inst) (IcSite (op inst) (icIndex inst)) ;?
    refuse_if (negb (staticSlot inst =? kNoStaticSlot) && (familyLo inst =? kNoFamily) && (staticSiteCount m <=? staticCellIndex inst))
      (StaticSite (op inst) (staticCellIndex inst)) ;?
    refuse_if (negb (familyLo inst =? kNoFamily) && (Z.of_nat (length (classFamilies m)) <=? familyLo inst + familySpan inst))
      (FamilyRange (op inst) (familyLo inst) (familySpan inst))
  else if is_op inst [Op.TemplateCached; Op.TemplateObject] then
    refuse_if ((immI32 inst <? 0) || (templateSiteCount m <=? immI32 inst)) (TemplateSite (op inst) (immI32 inst))
  else None.

Definition checkTables (m : IlModule) (len i : nat) (inst : Instruction) : Check :=
  checkAccessor m inst ;? checkWriteMode inst ;? checkRun m len i inst ;? checkDefineAdd m inst ;? checkSites m inst.

Definition module_insts (m : IlModule) : list Instruction := concat (map all_insts (functions m)).
Definition isMethodSite (inst : Instruction) : bool := is_op inst [Op.MethodCall; Op.MethodCallSpread].

Definition methodSites (m : IlModule) : gset Z := list_to_set (map icIndex (List.filter isMethodSite (module_insts m))).

Definition checkShared (sites : gset Z) (inst : Instruction) : Check :=
  refuse_if (is_op inst [Op.PropGet; Op.PropSet] && bool_decide (icIndex inst ∈ sites)) (SharedSite (op inst) (icIndex inst)).

Definition checkFunction (fn : Function) : Check :=
  if isExternal fn then refuse_if (negb (empty (blocks fn))) ExternalHasBlocks
  else verifyFunction fn ;? verifyFeedbackRecords fn.

Definition verify (m : IlModule) : Check :=
  each checkFunction (functions m) ;?
  each (fun fn => each (checkReference m) (all_insts fn)) (functions m) ;?
  each (fun fn => each (fun blk => each_at (checkTables m (length (instructions blk))) 0 (instructions blk)) (blocks fn)) (functions m) ;?
  (let sites := methodSites m in each (fun fn => each (checkShared sites) (all_insts fn)) (functions m)) ;?
  verifyModuleProofs m.

(** ** The cells of method calls *)

(** [std::unique] *)
Fixpoint unique (l : list Z) : list Z :=
  match l with
  | x :: ((y :: _) as l') => if x =? y then unique l' else x :: unique l'
  | _ => l
  end.

(** [Module::methodIcSites] *)
Definition methodIcSites (m : IlModule) : list Z := unique (merge_sort Z.le (map icIndex (List.filter isMethodSite (module_insts m)))).

Lemma unique_cons x y l : unique (x :: y :: l) = if x =? y then unique (y :: l) else x :: unique (y :: l).
Proof. done. Qed.

Lemma elem_unique x l : x ∈ unique l <-> x ∈ l.
Proof.
  induction l as [|y [|z l] IH]; [done|done|]. rewrite unique_cons. destruct (Z.eqb_spec y z) as [->|Hne].
  - rewrite IH, !elem_of_cons. tauto.
  - by rewrite !(elem_of_cons _ x y), IH.
Qed.

Lemma head_unique l : head (unique l) = head l.
Proof. induction l as [|y [|z l] IH]; [done|done|]. rewrite unique_cons. destruct (Z.eqb_spec y z) as [->|Hne]; [by rewrite IH|done]. Qed.

Lemma unique_sorted l : Sorted Z.le l -> Sorted Z.lt (unique l).
Proof.
  induction l as [|y [|z l] IH]; intros H; [constructor|by repeat constructor|]. inversion H as [|? ? Hs Hr]; subst. rewrite unique_cons.
  destruct (Z.eqb_spec y z) as [->|Hne]; [by apply IH|]. constructor; [by apply IH|]. pose proof (head_unique (z :: l)) as Hh.
  destruct (unique (z :: l)) as [|w r]; [done|]. injection Hh as ->. constructor. inversion Hr; subst. lia.
Qed.

Lemma in_module m fn inst : fn ∈ functions m -> inst ∈ all_insts fn -> inst ∈ module_insts m.
Proof. intros Hf Hi. apply list_elem_of_In, in_concat. exists (all_insts fn). split; [apply in_map|]; by apply list_elem_of_In. Qed.

Lemma module_in m inst : inst ∈ module_insts m -> exists fn, fn ∈ functions m /\ inst ∈ all_insts fn.
Proof. intros H. apply list_elem_of_In, in_concat in H as (l & Hl & Hi). apply in_map_iff in Hl as (fn & <- & Hf). exists fn. by rewrite !list_elem_of_In. Qed.

Lemma each_insts (f : Instruction -> Check) m : each (fun fn => each f (all_insts fn)) (functions m) = None -> forall inst, inst ∈ module_insts m -> f inst = None.
Proof.
  rewrite each_none, Forall_forall. intros H inst (fn & Hf & Hi)%module_in. specialize (H fn Hf). rewrite each_none, Forall_forall in H. by apply H.
Qed.

Lemma is_op_more inst os os' : (forall o, In o os -> In o os') -> is_op inst os = true -> is_op inst os' = true.
Proof. unfold is_op. rewrite !existsb_exists. intros H (o & Ho & E). exists o. split; [by apply H|done]. Qed.

(** The cells a verified module registers for method calls are, in ascending order and
    each once, those its method calls name; they are in the table the module emits, and no
    property access names one of them. *)
Theorem method_cells_apart m : verify m = None ->
  Sorted Z.lt (methodIcSites m) /\
  (forall i, i ∈ methodIcSites m <-> exists inst, inst ∈ module_insts m /\ isMethodSite inst = true /\ icIndex inst = i) /\
  (forall i, i ∈ methodIcSites m -> i < icSiteCount m) /\
  (forall inst, inst ∈ module_insts m -> is_op inst [Op.PropGet; Op.PropSet] = true -> icIndex inst ∉ methodIcSites m /\ icIndex inst < icSiteCount m).
Proof.
  intros Hv. unfold verify in Hv. rewrite !andThen_none in Hv. destruct Hv as (_ & _ & Htab & Hsh & _).
  assert (forall i, i ∈ methodIcSites m <-> exists inst, inst ∈ module_insts m /\ isMethodSite inst = true /\ icIndex inst = i) as Hin.
  { intros i. unfold methodIcSites. rewrite elem_unique. rewrite (merge_sort_Permutation Z.le). rewrite list_elem_of_In, in_map_iff. setoid_rewrite filter_In.
    setoid_rewrite <- list_elem_of_In. split; intros (inst & H); exists inst; tauto. }
  assert (forall inst, inst ∈ module_insts m -> usesIcSite inst = true -> icIndex inst < icSiteCount m) as Hic.
  { intros inst (fn & Hf & Hi)%module_in Hu. rewrite each_none, Forall_forall in Htab. specialize (Htab fn Hf). rewrite each_none, Forall_forall in Htab.
    apply list_elem_of_In, in_concat in Hi as (l & Hl & Hi). apply in_map_iff in Hl as (blk & <- & Hb). apply list_elem_of_In in Hb. apply list_elem_of_In, list_elem_of_lookup in Hi as [k Hi].
    specialize (Htab blk Hb). rewrite each_at_none in Htab. specialize (Htab k inst Hi). unfold checkTables in Htab. rewrite !andThen_none in Htab. destruct Htab as (_ & _ & _ & _ & H).
    unfold checkSites in H. rewrite Hu, andThen_none, refuse_if_none in H. destruct H as [H _]. apply Z.leb_gt in H. lia. }
  split_and!; [apply unique_sorted; apply Sorted_merge_sort; intros a b; lia|done| |].
  - intros i (inst & Hm & Hs & <-)%Hin. apply Hic; [done|]. eapply is_op_more; [|exact Hs]. cbn. tauto.
  - intros inst Hm Hs. split.
    + pose proof (each_insts _ m Hsh inst Hm) as H. unfold checkShared in H. rewrite refuse_if_none, Hs in H. cbn in H. apply bool_decide_eq_false in H.
      intros (inst' & Hm' & Hs' & E)%Hin. apply H. unfold methodSites. apply elem_of_list_to_set, list_elem_of_fmap. exists inst'. split; [done|].
      apply list_elem_of_In, filter_In. by rewrite <- list_elem_of_In.
    + apply Hic; [done|]. eapply is_op_more; [|exact Hs]. cbn. tauto.
Qed.

(** ** Typed edges *)

Lemma fold_types (P : Z -> Ty.t -> Prop) {A} (f : Types -> A -> Types) l : forall T, (forall v t, T !! v = Some t -> P v t) ->
  (forall T x, x ∈ l -> (forall v t, T !! v = Some t -> P v t) -> forall v t, f T x !! v = Some t -> P v t) -> forall v t, foldl f T l !! v = Some t -> P v t.
Proof.
  induction l as [|x l IH]; intros T HT Hf; [done|]. cbn. apply IH; [by apply Hf; [left|]|]. intros T' y Hy. apply Hf. by right.
Qed.

Lemma set_type (P : Z -> Ty.t -> Prop) n T id t0 : (forall v t, T !! v = Some t -> P v t) -> P id t0 -> forall v t, setType n T id t0 !! v = Some t -> P v t.
Proof.
  intros HT Hid v t. unfold setType. destruct (id <? n); [|by apply HT]. destruct (decide (v = id)) as [->|Hne].
  - rewrite lookup_insert_eq. by intros [= <-].
  - rewrite lookup_insert_ne by done. by apply HT.
Qed.

(** The type of an id is its definition's. *)
Lemma value_type_defined fn v t : (forall i p, params fn !! i = Some p -> param_id i = Z.of_nat i) -> valueTypes fn !! v = Some t ->
  exists d, (v, d) ∈ definitions fn /\ dtype d = t.
Proof.
  intros Hid. set (P := fun v t => exists d, (v, d) ∈ definitions fn /\ dtype d = t). change (valueTypes fn !! v = Some t -> P v t). revert v t.
  unfold valueTypes. apply fold_types.
  - apply fold_types; [intros v t H; by rewrite lookup_empty in H|]. intros T [i p] Hin HT. apply elem_of_lookup_imap in Hin as (i' & p' & [= <- <-] & Hp).
    apply set_type; [done|]. cbn. exists (mkDef (ptype p) 0 (-1)). split; [|done]. apply elem_of_app. left. apply elem_listed. exists i, p. split; [done|].
    rewrite <- (Hid i p Hp). by apply list_elem_of_singleton.
  - intros T blk [b Hb]%list_elem_of_lookup HT. assert (forall x, x ∈ block_defs b blk -> x ∈ definitions fn) as Hin.
    { intros x Hx. apply elem_of_app. right. apply elem_listed. by exists b, blk. }
    unfold blockTypes. apply fold_types.
    + apply fold_types; [done|]. intros T' p [i Hp]%list_elem_of_lookup HT'. apply set_type; [done|]. exists (mkDef (bp_type p) b (-1)). split; [|done].
      apply Hin, elem_of_app. left. apply elem_listed. exists i, p. split; [done|]. by apply list_elem_of_singleton.
    + intros T' inst [i Hi]%list_elem_of_lookup HT'. destruct (Z.eqb_spec (result inst) kNoValue) as [|Hne]; [done|]. apply set_type; [done|].
      exists (mkDef (type inst) b (Z.of_nat i)). split; [|done]. apply Hin, elem_of_app. right. apply elem_listed. exists i, inst. split; [done|].
      unfold result_defs. destruct (Z.eqb_spec (result inst) kNoValue); [done|]. by apply list_elem_of_singleton.
Qed.

(** A function with an instruction was verified, so its parameters are numbered. *)
Lemma verified_function m fn inst : verify m = None -> fn ∈ functions m -> inst ∈ all_insts fn -> verifyBody fn = None.
Proof.
  intros Hv Hf Hi. unfold verify in Hv. rewrite !andThen_none in Hv. destruct Hv as (Hv & _). rewrite each_none, Forall_forall in Hv. specialize (Hv fn Hf).
  unfold checkFunction in Hv. destruct (isExternal fn).
  - apply refuse_if_none, negb_false_iff in Hv. unfold all_insts in Hi. destruct (blocks fn); [by apply not_elem_of_nil in Hi|done].
  - unfold verifyFunction in Hv. rewrite !andThen_none in Hv. apply Hv.
Qed.

(** An entry that was accepted, with the method it is a copy of. *)
Lemma entry_checked m entry : checkEntry m entry = None -> typedOrigin entry <> kNoTypedOrigin ->
  exists origin, functions m !! Z.to_nat (typedOrigin entry) = Some origin /\ length (params entry) = length (params origin) /\
    firstSourceParam entry = 1%nat /\ hasRestParam entry = false /\ typedOrigin origin = kNoTypedOrigin /\
    forall a p o, params entry !! (1 + a)%nat = Some p -> params origin !! (1 + a)%nat = Some o ->
      ptype p = ptype o \/ ptype o = Ty.Dynamic /\ (ptype p = Ty.F64 \/ ptype p = Ty.Bool).
Proof.
  unfold checkEntry. intros Hen Hno. destruct (Z.eqb_spec (typedOrigin entry) kNoTypedOrigin) as [|_]; [done|]. destruct (_ <=? _); [done|].
  destruct (functions m !! Z.to_nat (typedOrigin entry)) as [origin|]; [|done]. rewrite !andThen_none, !refuse_if_none in Hen.
  destruct Hen as (Horig%negb_false_iff%Z.eqb_eq & Hplain & Hlen & _ & Hpar). rewrite !orb_false_iff in Hlen. destruct Hlen as [[Hlen%negb_false_iff%Nat.eqb_eq _] _].
  apply negb_false_iff in Hplain. unfold plainMethodBody in Hplain. rewrite !andb_true_iff, !negb_true_iff in Hplain.
  destruct Hplain as [[[[[[[Hthis Henv] Hargu] Hrest] _] _] _] _].
  assert (firstSourceParam entry = 1%nat) as Hfirst by (unfold firstSourceParam; by rewrite Henv, Hthis, Hargu).
  exists origin. split_and!; [done..|]. intros a p o Hp Hq. rewrite each_at_none in Hpar.
  specialize (Hpar (1 + a)%nat (p, o)). unfold checkEntryParam in Hpar. rewrite Hfirst in Hpar. rewrite andThen_none in Hpar.
  destruct Hpar as [_ Hpar]; [by apply lookup_zip_Some|]. cbn [fst snd] in Hpar. unfold is_type in Hpar.
  destruct (decide (ptype p = ptype o)) as [|Hne]; [by left|right]. rewrite bool_decide_false in Hpar by done.
  apply refuse_if_none in Hpar. rewrite !orb_false_iff, andb_false_iff, !negb_false_iff, !bool_decide_eq_true in Hpar. tauto.
Qed.

(** An edge that was accepted. *)
Lemma edge_checked m T inst : checkEdge m T inst = None -> typedTarget inst <> kNoDirectTarget ->
  op inst = Op.MethodCall /\ directTarget inst < Z.of_nat (length (functions m)) /\
  exists entry, functions m !! Z.to_nat (typedTarget inst) = Some entry /\ typedOrigin entry = directTarget inst /\
    Z.of_nat (pred (length (operands inst))) = typedArgc entry /\
    forall a p, (a < length (params entry) - firstSourceParam entry - b2n (hasRestParam entry))%nat -> params entry !! (firstSourceParam entry + a)%nat = Some p ->
      checkEdgeArg T inst (typedArgc entry) a p = None.
Proof.
  unfold checkEdge. intros Hedge Ht. destruct (Z.eqb_spec (typedTarget inst) kNoDirectTarget) as [|_]; [done|]. rewrite !andThen_none, !refuse_if_none in Hedge.
  destruct Hedge as (Hop & Hr & Hedge). apply orb_false_iff in Hr as [_ Hr%Z.leb_gt].
  destruct (functions m !! Z.to_nat (typedTarget inst)) as [entry|]; [|done]. rewrite !andThen_none, !refuse_if_none in Hedge. destruct Hedge as (Ho & Harg & Hargs).
  apply negb_false_iff, Z.eqb_eq in Ho, Harg. apply negb_false_iff in Hop. destruct (Op.eqb_spec (op inst) Op.MethodCall) as [Hop'|]; [|done].
  split_and!; [done|lia|]. exists entry. split_and!; [done|done|done|]. intros a p Ha Hp. destruct (_ <? _)%nat; [done|]. rewrite each_at_none in Hargs.
  specialize (Hargs a p). rewrite Harg in Hargs. apply Hargs. rewrite lookup_take_lt by done. by rewrite lookup_drop.
Qed.

(** C23: a typed edge of a verified module is a method call that names a typed entry whose
    origin is its own direct target, a method that is no typed entry itself.  It passes as
    many arguments as the entry was built for; the argument of a parameter that is not of
    type void is defined in the caller with the parameter's type; and a parameter past the
    arguments is one the entry takes boxed.  The entry has as many parameters as the method,
    and behind [this] the type of one is the method's own, or F64 or Bool where the method
    takes it boxed.  Nothing else of the two functions is compared: that the entry's body
    is a copy of the method's is not checked. *)
Theorem typed_edge_fits m fn inst : Z.of_nat (length (functions m)) <= kNone32 -> verify m = None ->
  fn ∈ functions m -> inst ∈ all_insts fn -> typedTarget inst <> kNoDirectTarget ->
  exists entry origin, functions m !! Z.to_nat (typedTarget inst) = Some entry /\ functions m !! Z.to_nat (directTarget inst) = Some origin /\
    op inst = Op.MethodCall /\ Z.of_nat (pred (length (operands inst))) = typedArgc entry /\
    typedOrigin entry = directTarget inst /\ typedOrigin origin = kNoTypedOrigin /\
    firstSourceParam entry = 1%nat /\ length (params entry) = length (params origin) /\
    forall a p o, params entry !! (1 + a)%nat = Some p -> params origin !! (1 + a)%nat = Some o ->
      (Z.of_nat a < typedArgc entry -> ptype p <> Ty.Void -> exists d, (operand inst (S a), d) ∈ definitions fn /\ dtype d = ptype p) /\
      (typedArgc entry <= Z.of_nat a -> ptype p = Ty.Dynamic) /\
      (ptype p = ptype o \/ ptype o = Ty.Dynamic /\ (ptype p = Ty.F64 \/ ptype p = Ty.Bool)).
Proof.
  intros Hfew Hv Hfn Hi Ht. pose proof (verified_function m fn inst Hv Hfn Hi) as Hbody. destruct (verified_parts fn Hbody) as (D & idom & Hrec & _).
  assert (forall v t, valueTypes fn !! v = Some t -> exists d, (v, d) ∈ definitions fn /\ dtype d = t) as Hty.
  { intros v t. apply value_type_defined. intros i p Hp. by destruct (param_id_eq fn D Hrec i p Hp). }
  unfold verify, verifyModuleProofs, verifyTypedEntries in Hv. rewrite !andThen_none in Hv. destruct Hv as (_ & _ & _ & _ & (Hent & Hedge) & _).
  rewrite each_none, Forall_forall in Hent. rewrite each_none, Forall_forall in Hedge. specialize (Hedge fn Hfn). rewrite each_none, Forall_forall in Hedge.
  destruct (edge_checked m _ inst (Hedge inst Hi) Ht) as (Hop & Hlt & entry & Ee & Eo & Hargc & Hargs).
  destruct (entry_checked m entry) as (origin & Hor & Hlen & Hfirst & Hrest & Horig & Hpar); [apply Hent; by eapply list_elem_of_lookup_2|rewrite Eo; unfold kNoTypedOrigin; lia|].
  rewrite Eo in Hor. exists entry, origin. split_and!; [done..|]. intros a p o Hp Hq. rewrite Hfirst, Hrest in Hargs. cbn [b2n] in Hargs.
  specialize (Hargs a p). unfold checkEdgeArg in Hargs. specialize (Hargs ltac:(apply lookup_lt_Some in Hp; lia) Hp).
  split_and!; [|destruct (Z.leb_spec (typedArgc entry) (Z.of_nat a)); [|lia]|by apply (Hpar a)].
  - intros Ha Hvoid. destruct (Z.leb_spec (typedArgc entry) (Z.of_nat a)); [lia|]. apply refuse_if_none, negb_false_iff, bool_decide_eq_true in Hargs. unfold typeAt in Hargs.
    destruct (valueTypes fn !! operand inst (S a)) as [t|] eqn:Et; [|cbn in Hargs; congruence]. cbn in Hargs. destruct (Hty _ _ Et) as (d & Hd & <-). by exists d.
  - intros _. by apply refuse_if_none, negb_false_iff, bool_decide_eq_true in Hargs.
Qed.

(** ** A module *)

(** A method, its typed entry, and a caller with an edge to the entry beside a read. *)
Definition method_answering (v : Z) (t : Ty.t) (origin argc : Z) : Function :=
  mkFunction [] [dynamic_param; mkParam [] t false 0 None] Ty.Dynamic false 0 false false false false true false true false kNotCoroutine 3 false 0 kNone32 0 0 0 []
    0 origin argc [] [plain_block 0 [] [ret v]] 2.
Definition method_of : Ty.t -> Z -> Z -> Function := method_answering 0.

Definition method_call (r recv arg ic : Z) (direct typed : Z) : Instruction :=
  mkInst Op.MethodCall Ty.Dynamic r [recv; arg] 0 0 0 Ty.Void 0 ic false false false false false false false false kNoStaticSlot 0
    kNoFamily 0 false false kNoTransitionRun 0 0 kNoDefineAddCell direct typed
    0 0 false false 0 0 kNoEnvHops 0 (mkSpan 0 0 0) no_target no_target.

Definition caller (arg : Instruction) : Function :=
  plain_function [dynamic_param] [plain_block 0 [] [arg; method_call 2 0 1 1 0 1; plain Op.PropGet Ty.Dynamic 3 [0; 2]; ret 3]] 4.

Definition typed_module (arg : Instruction) : IlModule :=
  mkModule [] [] 2 0 0 [] [] [] [] [] [method_of Ty.Dynamic kNoTypedOrigin 0; method_of Ty.F64 0 1; caller arg] [] [] [].

Example typed_module_accepted : verify (typed_module (plain Op.ConstF64 Ty.F64 1 [])) = None.
Proof. by vm_compute. Qed.

(** An argument of another type than the entry's is refused. *)
Example boxed_edge_refused : verify (typed_module (plain Op.CreateObject Ty.Dynamic 1 [])) = Some (EdgeType 0).
Proof. by vm_compute. Qed.

(** The body of an entry is its own: this one answers its receiver, and the method its
    argument. *)
Example other_body_accepted :
  verify (mkModule [] [] 2 0 0 [] [] [] [] []
    [method_answering 1 Ty.Dynamic kNoTypedOrigin 0; method_answering 0 Ty.F64 0 1; caller (plain Op.ConstF64 Ty.F64 1 [])] [] [] []) = None.
Proof. by vm_compute. Qed.

Lemma method_cells_apart_witness : let m := typed_module (plain Op.ConstF64 Ty.F64 1 []) in methodIcSites m = [1] /\ forall i, i ∈ methodIcSites m -> i < 2.
Proof. intros m. destruct (method_cells_apart m) as (_ & _ & H & _); [by vm_compute|]. split; [by vm_compute|exact H]. Defined.

Lemma typed_edge_fits_witness : let m := typed_module (plain Op.ConstF64 Ty.F64 1 []) in let fn := caller (plain Op.ConstF64 Ty.F64 1 []) in
  exists entry, functions m !! 1%nat = Some entry /\ typedArgc entry = 1 /\ typedOrigin entry = 0 /\
    exists d, (1, d) ∈ definitions fn /\ dtype d = Ty.F64.
Proof.
  intros m fn. destruct (typed_edge_fits m fn (method_call 2 0 1 1 0 1)) as (entry & origin & He & Ho & _ & Ha & Hor & _ & _ & _ & Hp);
    [done|by vm_compute|right; right; by left|right; by left|done|]. exists entry. split_and!; [done..|].
  injection He as <-. injection Ho as <-. destruct (Hp 0%nat _ _ eq_refl eq_refl) as (Hd & _ & _). by apply Hd.
Defined.
