(* ===== verification/DoubleArith.v ===== *)
(** * Arithmetic on [double]

    The operators of the sources on [double], IEEE 754 binary64 in round to nearest even,
    and the functions of <cmath> they call.  The claims the date components rest on are
    that sums and products of integers below 2^53 are exact, and that the quotient of two
    of them rounds to the same side of every integer as the exact quotient. *)
From S2P Require Import Prelude Float64.
From Stdlib Require Import ZifyBool.

(** ** Operators *)

Definition dadd (x y : double) : double := SFadd prec emax x y.
Definition dsub (x y : double) : double := SFsub prec emax x y.
Definition dmul (x y : double) : double := SFmul prec emax x y.
Definition ddiv (x y : double) : double := SFdiv prec emax x y.
Definition dneg (x : double) : double := SFopp x.
Definition dabs (x : double) : double := SFabs x.
Definition dlt (x y : double) : bool := SFltb x y.
Definition dle (x y : double) : bool := SFleb x y.
Definition deq (x y : double) : bool := SFeqb x y.
Definition dnan : double := S754_nan.

(** An integer literal, and the conversion from an integer type. *)
Definition of_int (z : Z) : double := binary_normalize prec emax z 0 false.

Definition isnan (x : double) : bool := match x with S754_nan => true | _ => false end.
Definition isfinite (x : double) : bool := match x with S754_zero _ | S754_finite _ _ _ => true | _ => false end.

(** An integer with the sign its zero has. *)
Definition of_int_signed (s : bool) (z : Z) : double := binary_normalize prec emax z 0 s.

(** [std::floor] and [std::trunc] *)
Definition dfloor (x : double) : double :=
  match x with
  | S754_finite s m e => if 0 <=? e then x else of_int_signed s ((if s then - Zpos m else Zpos m) / 2 ^ (- e))
  | _ => x
  end.

Definition dtrunc (x : double) : double :=
  match x with
  | S754_finite s m e => if 0 <=? e then x else of_int_signed s (Z.quot (if s then - Zpos m else Zpos m) (2 ^ (- e)))
  | _ => x
  end.

(** [std::fmod], which is exact: the remainder has the sign of the dividend. *)
Definition dfmod (x y : double) : double :=
  match x, y with
  | S754_nan, _ | _, S754_nan | S754_infinity _, _ | _, S754_zero _ => S754_nan
  | _, S754_infinity _ | S754_zero _, _ => x
  | S754_finite s m e, S754_finite _ n f =>
      let g := Z.min e f in
      let r := (Zpos m * 2 ^ (e - g)) mod (Zpos n * 2 ^ (f - g)) in
      binary_normalize prec emax (if s then - r else r) g s
  end.

(** The conversion to an integer type, where the value fits. *)
Definition to_int (x : double) : Z :=
  match x with
  | S754_finite s m e => let v := if s then - Zpos m else Zpos m in if 0 <=? e then v * 2 ^ e else Z.quot v (2 ^ (- e))
  | _ => 0
  end.

(** ** The digits of a mantissa *)

Lemma digits2_spec p : 2 ^ (Zpos (digits2_pos p) - 1) <= Zpos p < 2 ^ Zpos (digits2_pos p).
Proof.
  induction p as [p IH|p IH|]; [| |done].
  all: cbn [digits2_pos]; rewrite Pos2Z.inj_succ; replace (Z.succ _ - 1) with (Zpos (digits2_pos p) - 1 + 1) by lia.
  all: unfold Z.succ; rewrite !Z.pow_add_r by lia; lia.
Qed.

Definition digits (z : Z) : Z := Zdigits2 z.

Lemma digits_spec z : 0 < z -> 2 ^ (digits z - 1) <= z < 2 ^ digits z.
Proof. destruct z as [|p|p]; try lia. intros _. apply digits2_spec. Qed.

Lemma digits_pos z : 0 < z -> 0 < digits z.
Proof. by destruct z as [|p|p]. Qed.

Lemma digits_unique z d : 0 < z -> 2 ^ (d - 1) <= z < 2 ^ d -> digits z = d.
Proof.
  intros Hz [Hl Hh]. pose proof (digits_spec z Hz) as [Dl Dh]. pose proof (digits_pos z Hz) as Dp.
  assert (Hd : 0 < d). { destruct (Z.lt_ge_cases 0 d); [done|]. destruct (Z.eq_dec d 0) as [->|]; [cbn in Hh; lia|]. rewrite (Z.pow_neg_r 2 d) in Hh by lia. lia. }
  destruct (Z.lt_trichotomy (digits z) d) as [H|[H|H]]; [|done|].
  - pose proof (Z.pow_le_mono_r 2 (digits z) (d - 1) ltac:(lia) ltac:(lia)). lia.
  - pose proof (Z.pow_le_mono_r 2 d (digits z - 1) ltac:(lia) ltac:(lia)). lia.
Qed.

Lemma digits_le z k : 0 < z -> z < 2 ^ k -> digits z <= k.
Proof.
  intros Hz Hk. destruct (Z.le_gt_cases (digits z) k); [done|]. pose proof (digits_spec z Hz) as [Dl _].
  destruct (Z.lt_ge_cases k 0); [rewrite Z.pow_neg_r in Hk by lia; lia|].
  pose proof (Z.pow_le_mono_r 2 k (digits z - 1) ltac:(lia) ltac:(lia)). lia.
Qed.

Lemma digits_shift z k : 0 < z -> 0 <= k -> digits (z * 2 ^ k) = digits z + k.
Proof.
  intros Hz Hk. pose proof (digits_spec z Hz) as [Dl Dh]. pose proof (digits_pos z Hz). pose proof (Z.pow_pos_nonneg 2 k ltac:(lia) Hk).
  apply digits_unique; [nia|]. replace (digits z + k - 1) with (digits z - 1 + k) by lia. rewrite !Z.pow_add_r by lia. nia.
Qed.

(** ** Rounding what is exact *)

Lemma iter_pos_nat {A} (f : A -> A) p x : iter_pos f p x = Nat.iter (Pos.to_nat p) f x.
Proof.
  revert x. induction p as [p IH|p IH|]; intros x; cbn [iter_pos]; [| |done].
  - rewrite !IH, <- Nat.iter_add. replace (Pos.to_nat p~1) with (S (Pos.to_nat p + Pos.to_nat p)) by lia. by rewrite Nat.iter_succ_r.
  - rewrite !IH, <- Nat.iter_add. f_equal. lia.
Qed.

Lemma shr_1_double m : 0 < m -> shr_1 (Build_shr_record (m * 2) false false) = Build_shr_record m false false.
Proof. intros H. destruct m as [|m|m]; try lia. by rewrite <- (Z.mul_comm 2). Qed.

Lemma shr_exact m n e : 0 < m -> 0 <= n -> shr (Build_shr_record (m * 2 ^ n) false false) e n = (Build_shr_record m false false, e + n).
Proof.
  intros Hm Hn. destruct n as [|p|p]; [|cbn [shr]; rewrite iter_pos_nat|lia].
  - by rewrite Z.pow_0_r, Z.mul_1_r, Z.add_0_r.
  - f_equal. rewrite <- (positive_nat_Z p). induction (Pos.to_nat p) as [|k IH]; [by change (Z.of_nat 0) with 0; rewrite Z.pow_0_r, Z.mul_1_r|].
    rewrite Nat.iter_succ_r. replace (m * 2 ^ Z.of_nat (S k)) with (m * 2 ^ Z.of_nat k * 2) by (rewrite Nat2Z.inj_succ, Z.pow_succ_r by lia; lia).
    rewrite shr_1_double; [done|]. pose proof (Z.pow_pos_nonneg 2 (Z.of_nat k) ltac:(lia) ltac:(lia)). nia.
Qed.

(** The exponent of a mantissa of [d] digits whose unit is [2 ^ e], when that is normal. *)
Lemma fexp_normal d : -1000 < d -> fexp prec emax d = d - prec.
Proof. unfold fexp, emin, prec, emax. lia. Qed.

(** The double of [m * 2 ^ e] for a positive [m] of at most 53 digits. *)
Definition fit (s : bool) (m e : Z) : double :=
  match m * 2 ^ (prec - digits m) with Zpos p => S754_finite s p (e + digits m - prec) | _ => S754_nan end.

Lemma round_aux_exact s m k e : 0 < m -> digits m <= prec -> prec - digits m <= k -> -900 < e < 900 -> 
  binary_round_aux prec emax s (m * 2 ^ k) (e - k) loc_Exact = fit s m e.
Proof.
  intros Hm Hd Hk He. pose proof (digits_pos m Hm) as Hp. unfold binary_round_aux, shr_fexp. cbn [shr_record_of_loc].
  change Zdigits2 with digits. unfold prec in *. rewrite digits_shift, fexp_normal by lia.
  replace (m * 2 ^ k) with (m * 2 ^ (53 - digits m) * 2 ^ (k - (53 - digits m))) by (rewrite <- Z.mul_assoc, <- Z.pow_add_r by lia; do 2 f_equal; lia).
  assert (Hm' : 0 < m * 2 ^ (53 - digits m)) by (pose proof (Z.pow_pos_nonneg 2 (53 - digits m) ltac:(lia) ltac:(lia)); nia).
  replace (digits m + k + (e - k) - prec - (e - k)) with (k - (53 - digits m)) by (unfold prec; lia).
  rewrite shr_exact by lia. cbn [shr_m loc_of_shr_record shr_record_of_loc round_nearest_even].
  rewrite digits_shift, fexp_normal by lia. unfold prec.
  match goal with |- context [shr _ _ ?n] => replace n with 0 by lia end. cbn [shr shr_m].
  unfold fit. unfold prec. destruct (m * 2 ^ (53 - digits m)) as [|p|p]; try lia.
  rewrite (proj2 (Z.leb_le _ _)) by (unfold emax; lia). f_equal. lia.
Qed.

Lemma shl_align_spec m e f : exists p, shl_align m e f = (p, Z.min e f) /\ Zpos p = Zpos m * 2 ^ (e - Z.min e f).
Proof.
  unfold shl_align. destruct (f - e) as [|d|d] eqn:E.
  - exists m. split; [f_equal; lia|]. replace (e - Z.min e f) with 0 by lia. lia.
  - exists m. split; [f_equal; lia|]. replace (e - Z.min e f) with 0 by lia. lia.
  - exists (Pos.iter xO m d). split; [f_equal; lia|]. replace (e - Z.min e f) with (Zpos d) by lia.
    clear. induction d as [|d IH] using Pos.peano_ind; [cbn; lia|]. rewrite Pos.iter_succ, Pos2Z.inj_xO, IH, Pos2Z.inj_succ, Z.pow_succ_r by lia. lia.
Qed.

Lemma round_exact s p m k e : Zpos p = m * 2 ^ k -> 0 < m -> 0 <= k -> digits m <= prec -> -900 < e < 900 ->
  binary_round prec emax s p (e - k) = fit s m e.
Proof.
  intros Hp Hm Hk Hd He. unfold binary_round. pose proof (digits_pos m Hm). change (Zpos (digits2_pos p)) with (digits (Zpos p)).
  rewrite Hp, digits_shift, fexp_normal by lia. destruct (shl_align_spec p (e - k) (digits m + k + (e - k) - prec)) as (q & -> & Hq).
  rewrite Hq, Hp. set (k' := Z.max k (prec - digits m)).
  replace (Z.min (e - k) (digits m + k + (e - k) - prec)) with (e - k') by lia.
  rewrite <- Z.mul_assoc, <- Z.pow_add_r by lia. replace (k + (e - k - (e - k'))) with k' by lia.
  by apply round_aux_exact; lia.
Qed.

(** The double of an integer below 2^53 in magnitude. *)
Lemma normalize_exact z k s : Z.abs z < 2 ^ 53 -> 0 <= k <= 800 ->
  binary_normalize prec emax (z * 2 ^ k) (- k) s = match z with Z0 => S754_zero s | Zpos p => fit false (Zpos p) 0 | Zneg p => fit true (Zpos p) 0 end.
Proof.
  intros Hz Hk. pose proof (Z.pow_pos_nonneg 2 k ltac:(lia) ltac:(lia)). destruct z as [|p|p]; cbn [binary_normalize Z.mul]; [done| |].
  all: destruct (2 ^ k) as [|q|q] eqn:E; try lia; cbn [binary_normalize].
  all: rewrite <- (Z.sub_0_l k); apply round_exact; rewrite ?E; try (cbn; lia).
  all: apply digits_le; unfold prec; lia.
Qed.

(** What a double denotes: an integer below 2^53 in magnitude, its zero of either sign. *)
Definition isint (x : double) (z : Z) : Prop := Z.abs z < 2 ^ 53 /\ exists s, x = of_int_signed s z.

Lemma of_int_isint z : Z.abs z < 2 ^ 53 -> isint (of_int z) z.
Proof. intros H. split; [done|]. by exists false. Qed.

Lemma normalize_isint z k s : Z.abs z < 2 ^ 53 -> 0 <= k <= 800 -> isint (binary_normalize prec emax (z * 2 ^ k) (- k) s) z.
Proof.
  intros Hz Hk. split; [done|]. exists s. rewrite normalize_exact by done. unfold of_int_signed.
  pose proof (normalize_exact z 0 s Hz ltac:(lia)) as E. rewrite Z.pow_0_r, Z.mul_1_r in E. by change (- 0) with 0 in E.
Qed.

Definition signed (s : bool) (m : positive) : Z := if s then - Zpos m else Zpos m.

Lemma signed_cond s m : cond_Zopp s (Zpos m) = signed s m.
Proof. by destruct s. Qed.

(** A nonzero integer is a finite double with all its 53 digits. *)
Lemma isint_inv x z : isint x z ->
  (z = 0 /\ exists s, x = S754_zero s) \/
  exists s p k, x = S754_finite s p (- k) /\ signed s p = z * 2 ^ k /\ 0 <= k <= 52 /\ 2 ^ 52 <= Zpos p < 2 ^ 53.
Proof.
  intros [Hz [s ->]]. destruct (Z.eq_dec z 0) as [->|Hne]; [left; split; [done|by exists s]|right].
  pose proof (normalize_exact z 0 s Hz ltac:(lia)) as E. rewrite Z.pow_0_r, Z.mul_1_r in E. change (- 0) with 0 in E. unfold of_int_signed. rewrite E. clear E.
  assert (Hd : digits (Z.abs z) <= 53) by (apply digits_le; lia). pose proof (digits_spec (Z.abs z) ltac:(lia)) as Hs.
  pose proof (digits_pos (Z.abs z) ltac:(lia)) as Hp. set (k := 53 - digits (Z.abs z)).
  assert (Hm : 2 ^ 52 <= Z.abs z * 2 ^ k < 2 ^ 53).
  { replace (2 ^ 52) with (2 ^ (digits (Z.abs z) - 1) * 2 ^ k) by (rewrite <- Z.pow_add_r by lia; f_equal; lia).
    replace (2 ^ 53) with (2 ^ digits (Z.abs z) * 2 ^ k) by (rewrite <- Z.pow_add_r by lia; f_equal; lia).
    pose proof (Z.pow_pos_nonneg 2 k ltac:(lia) ltac:(lia)). nia. }
  destruct z as [|p|p]; [done| |]; unfold fit, prec; change (53 - digits (Zpos p)) with k.
  all: change (Z.abs _) with (Zpos p) in Hm, Hd, Hp; destruct (Zpos p * 2 ^ k) as [|q|q] eqn:Eq; try lia.
  all: assert (Hk : 0 + digits (Zpos p) - 53 = - k) by (unfold k; change (Z.abs _) with (Zpos p); lia); rewrite Hk.
  - exists false, q, k. repeat split; cbn [signed]; lia.
  - exists true, q, k. repeat split; cbn [signed]; lia.
Qed.

Lemma isint_bound x z : isint x z -> Z.abs z < 2 ^ 53.
Proof. by intros [H _]. Qed.

Lemma isint_finite x z : isint x z -> isfinite x = true.
Proof. intros [(_ & s & ->)|(s & p & k & -> & _)]%isint_inv; done. Qed.

Lemma isint_not_nan x z : isint x z -> isnan x = false.
Proof. intros [(_ & s & ->)|(s & p & k & -> & _)]%isint_inv; done. Qed.

(** *** Sums and products *)

Lemma align_add s p k l t q j : signed s p = l * 2 ^ k -> 0 <= k -> 0 <= j -> 
  fst (shl_align p (- k) (Z.min (- k) (- j))) = t -> signed q t = signed q p * 2 ^ (Z.max k j - k).
Proof.
  intros _ Hk Hj <-. destruct (shl_align_spec p (- k) (Z.min (- k) (- j))) as (t' & -> & Ht). cbn [fst].
  replace (- k - Z.min (- k) (Z.min (- k) (- j))) with (Z.max k j - k) in Ht by lia. unfold signed. destruct q; lia.
Qed.

Lemma scaled_up p k j s a : signed s p = a * 2 ^ k -> 0 <= k -> 0 <= j ->
  cond_Zopp s (Zpos (fst (shl_align p (- k) (Z.min (- k) (- j))))) = a * 2 ^ Z.max k j.
Proof.
  intros E Hk Hj. rewrite signed_cond. rewrite (align_add s p k a _ s j E) by (done || lia).
  rewrite E, <- Z.mul_assoc, <- Z.pow_add_r by lia. do 2 f_equal. lia.
Qed.

Lemma isint_add x y a b : isint x a -> isint y b -> Z.abs (a + b) < 2 ^ 53 -> isint (dadd x y) (a + b).
Proof.
  intros Hx Hy Hb. pose proof Hx as Hx'. pose proof Hy as Hy'.
  apply isint_inv in Hx' as [(-> & s & ->)|(s & p & k & -> & E & Hk & _)]; apply isint_inv in Hy' as [(-> & t & ->)|(t & q & j & -> & F & Hj & _)].
  - split; [lia|]. destruct s, t; eexists; try (by instantiate (1 := true)); by instantiate (1 := false).
  - done.
  - by rewrite Z.add_0_r.
  - unfold dadd. cbn [SFadd]. rewrite (scaled_up p k j s a), (Z.min_comm (- k)), (scaled_up q j k t b), (Z.max_comm j), <- Z.mul_add_distr_r by (done || lia).
    replace (Z.min (- j) (- k)) with (- Z.max k j) by lia. apply normalize_isint; lia.
Qed.

Lemma isint_neg x a : isint x a -> isint (dneg x) (- a).
Proof.
  intros [Hb [s ->]]. split; [lia|]. exists (negb s).
  pose proof (normalize_exact a 0 s Hb ltac:(lia)) as E. pose proof (normalize_exact (- a) 0 (negb s) ltac:(lia) ltac:(lia)) as F.
  rewrite Z.pow_0_r, Z.mul_1_r in E, F. unfold of_int_signed. change (- 0) with 0 in *. rewrite E, F. destruct a as [|p|p]; [done|change (- Zpos p) with (Zneg p)|change (- Zneg p) with (Zpos p)].
  all: unfold fit; by destruct (_ * _).
Qed.

Lemma dsub_add x y : dsub x y = dadd x (dneg y).
Proof.
  destruct x as [s|s| |s p e], y as [t|t| |t q f]; cbn; try done; try (by destruct s, t).
Qed.

Lemma isint_sub x y a b : isint x a -> isint y b -> Z.abs (a - b) < 2 ^ 53 -> isint (dsub x y) (a - b).
Proof. intros Hx Hy Hb. rewrite dsub_add. apply isint_add; [done|by apply isint_neg|done]. Qed.

Lemma isint_abs x a : isint x a -> isint (dabs x) (Z.abs a).
Proof.
  intros H. pose proof (isint_bound _ _ H). pose proof H as H'. apply isint_inv in H' as [(-> & s & ->)|(s & p & k & -> & E & Hk & _)].
  - split; [done|by exists false].
  - assert (0 < 2 ^ k) by (apply Z.pow_pos_nonneg; lia). destruct s.
    + replace (Z.abs a) with (- a) by (cbn [signed] in E; nia). by apply isint_neg in H.
    + replace (Z.abs a) with a by (cbn [signed] in E; nia). done.
Qed.

Lemma isint_mul x y a b : isint x a -> isint y b -> Z.abs (a * b) < 2 ^ 53 -> isint (dmul x y) (a * b).
Proof.
  intros Hx Hy Hb. pose proof Hx as Hx'. pose proof Hy as Hy'.
  apply isint_inv in Hx' as [(-> & s & ->)|(s & p & k & -> & E & Hk & Hp)]; apply isint_inv in Hy' as [(-> & t & ->)|(t & q & j & -> & F & Hj & Hq)].
  1-3: rewrite ?Z.mul_0_l, ?Z.mul_0_r; split; [done|]; eexists (xorb s t); done.
  unfold dmul. cbn [SFmul].
  assert (Hab : signed (xorb s t) (p * q) = a * b * 2 ^ (k + j)).
  { rewrite Z.pow_add_r by lia. transitivity (signed s p * signed t q); [destruct s, t; cbn; lia|]. rewrite E, F. lia. }
  assert (Hne : a * b <> 0). { intros H0. rewrite H0 in Hab. destruct (xorb s t); cbn in Hab; lia. }
  assert (Hpos : 0 < 2 ^ (k + j)) by (apply Z.pow_pos_nonneg; lia).
  assert (Habs : Zpos (p * q) = Z.abs (a * b) * 2 ^ (k + j)) by (destruct (xorb s t); cbn [signed] in Hab; nia).
  assert (Hdig : 53 <= digits (Z.abs (a * b)) + (k + j)).
  { rewrite <- digits_shift by lia. rewrite <- Habs. destruct (Z.le_gt_cases 53 (digits (Zpos (p * q)))); [done|].
    pose proof (digits_spec (Zpos (p * q)) ltac:(lia)) as [_ D]. pose proof (Z.pow_le_mono_r 2 (digits (Zpos (p * q))) 52 ltac:(lia) ltac:(lia)). nia. }
  rewrite Habs. replace (- k + - j) with (0 - (k + j)) by lia. unfold prec in *.
  pose proof (normalize_exact (a * b) 0 (xorb s t) Hb ltac:(lia)) as N. rewrite Z.pow_0_r, Z.mul_1_r in N. change (- 0) with 0 in N.
  pose proof (digits_le (Z.abs (a * b)) 53 ltac:(lia) ltac:(lia)).
  rewrite round_aux_exact by (unfold prec; lia). split; [done|]. exists (xorb s t). unfold of_int_signed. rewrite N.
  destruct (a * b) as [|r|r]; [done|..]; destruct (xorb s t); cbn [signed] in Hab; try lia; done.
Qed.

(** *** Comparisons *)

Lemma scaled_lt a b p q k j : p = a * 2 ^ k -> q = b * 2 ^ j -> 0 <= j < k -> p < 2 ^ 53 -> 2 ^ 52 <= q -> a < b.
Proof.
  intros -> -> Hk Hp Hq. replace k with (k - j - 1 + 1 + j) in Hp by lia. rewrite !Z.pow_add_r in Hp by lia.
  pose proof (Z.pow_pos_nonneg 2 (k - j - 1) ltac:(lia) ltac:(lia)). pose proof (Z.pow_pos_nonneg 2 j ltac:(lia) ltac:(lia)).
  set (J := 2 ^ j) in *. set (T := 2 ^ (k - j - 1)) in *. destruct (Z.lt_ge_cases a b); [done|]. assert (0 < b) by nia.
  assert (b * J <= a * J) by nia. assert (a * J <= a * J * T) by nia. lia.
Qed.

(** Comparisons of integers, in the goal and above it, as inequalities. *)
Ltac z_compare :=
  repeat match goal with
  | H : (_ ?= _) = Eq |- _ => apply Z.compare_eq_iff in H
  | H : (_ ?= _) = Lt |- _ => apply (proj1 (Z.compare_lt_iff _ _)) in H
  | H : (_ ?= _) = Gt |- _ => apply (proj1 (Z.compare_gt_iff _ _)) in H
  | |- (_ ?= _) = Eq => apply Z.compare_eq_iff
  | |- (_ ?= _) = Lt => apply Z.compare_lt_iff
  | |- (_ ?= _) = Gt => apply Z.compare_gt_iff
  end.

Lemma isint_compare x y a b : isint x a -> isint y b -> SFcompare x y = Some (a ?= b).
Proof.
  intros Hx Hy.
  apply isint_inv in Hx as [(-> & s & ->)|(s & p & k & -> & E & Hk & Hp)]; apply isint_inv in Hy as [(-> & t & ->)|(t & q & j & -> & F & Hj & Hq)]; cbn [SFcompare].
  - done.
  - pose proof (Z.pow_pos_nonneg 2 j ltac:(lia) ltac:(lia)). f_equal. symmetry. destruct t; cbn [signed] in F; [apply Z.compare_gt_iff|apply Z.compare_lt_iff]; nia.
  - pose proof (Z.pow_pos_nonneg 2 k ltac:(lia) ltac:(lia)). f_equal. symmetry. destruct s; cbn [signed] in E; [apply Z.compare_lt_iff|apply Z.compare_gt_iff]; nia.
  - f_equal. symmetry. pose proof (Z.pow_pos_nonneg 2 j ltac:(lia) ltac:(lia)). pose proof (Z.pow_pos_nonneg 2 k ltac:(lia) ltac:(lia)).
    change (Pos.compare_cont Eq p q) with (Zpos p ?= Zpos q).
    destruct s, t; cbn [signed] in E, F.
    + destruct (- k ?= - j) eqn:C.
      * apply Z.compare_eq in C. assert (k = j) as -> by lia. destruct (Zpos p ?= Zpos q) eqn:D; cbn [CompOpp]; z_compare; nia.
      * z_compare. pose proof (scaled_lt (- a) (- b) (Zpos p) (Zpos q) k j ltac:(lia) ltac:(lia) ltac:(lia) ltac:(lia) ltac:(lia)). lia.
      * z_compare. pose proof (scaled_lt (- b) (- a) (Zpos q) (Zpos p) j k ltac:(lia) ltac:(lia) ltac:(lia) ltac:(lia) ltac:(lia)). lia.
    + z_compare. assert (a < 0) by nia. assert (0 < b) by nia. lia.
    + z_compare. assert (0 < a) by nia. assert (b < 0) by nia. lia.
    + destruct (- k ?= - j) eqn:C.
      * apply Z.compare_eq in C. assert (k = j) as -> by lia. destruct (Zpos p ?= Zpos q) eqn:D; z_compare; nia.
      * z_compare. pose proof (scaled_lt a b (Zpos p) (Zpos q) k j ltac:(lia) ltac:(lia) ltac:(lia) ltac:(lia) ltac:(lia)). lia.
      * z_compare. pose proof (scaled_lt b a (Zpos q) (Zpos p) j k ltac:(lia) ltac:(lia) ltac:(lia) ltac:(lia) ltac:(lia)). lia.
Qed.

Lemma isint_lt x y a b : isint x a -> isint y b -> dlt x y = (a <? b).
Proof. intros Hx Hy. unfold dlt, SFltb. rewrite (isint_compare x y a b) by done. unfold Z.ltb. by destruct (a ?= b). Qed.

Lemma isint_le x y a b : isint x a -> isint y b -> dle x y = (a <=? b).
Proof. intros Hx Hy. unfold dle, SFleb. rewrite (isint_compare x y a b) by done. unfold Z.leb. by destruct (a ?= b). Qed.

Lemma isint_eq x y a b : isint x a -> isint y b -> deq x y = (a =? b).
Proof. intros Hx Hy. unfold deq, SFeqb. rewrite (isint_compare x y a b) by done. rewrite Z.eqb_compare. by destruct (a ?= b). Qed.

Lemma isint_unique x a b : isint x a -> isint x b -> a = b.
Proof. intros Ha Hb. pose proof (isint_compare x x a b Ha Hb) as E. rewrite (isint_compare x x a a Ha Ha), Z.compare_refl in E. injection E as E. symmetry in E. by apply Z.compare_eq in E. Qed.

(** *** Rounding to an integer *)

Lemma signed_isint s z : Z.abs z < 2 ^ 53 -> isint (of_int_signed s z) z.
Proof. intros H. split; [done|by exists s]. Qed.

Lemma isint_trunc x a : isint x a -> isint (dtrunc x) a.
Proof.
  intros H. pose proof H as H'. pose proof (isint_bound _ _ H). apply isint_inv in H' as [(-> & s & ->)|(s & p & k & -> & E & Hk & _)]; [done|].
  cbn [dtrunc]. destruct (0 <=? - k) eqn:C; [done|]. fold (signed s p). rewrite E, Z.opp_involutive, Z.quot_mul by (apply Z.pow_nonzero; lia).
  by apply signed_isint.
Qed.

Lemma isint_floor x a : isint x a -> isint (dfloor x) a.
Proof.
  intros H. pose proof H as H'. pose proof (isint_bound _ _ H). apply isint_inv in H' as [(-> & s & ->)|(s & p & k & -> & E & Hk & _)]; [done|].
  cbn [dfloor]. destruct (0 <=? - k) eqn:C; [done|]. fold (signed s p). rewrite E, Z.opp_involutive, Z.div_mul by (apply Z.pow_nonzero; lia).
  by apply signed_isint.
Qed.

Lemma isint_to_int x a : isint x a -> to_int x = a.
Proof.
  intros H. apply isint_inv in H as [(-> & s & ->)|(s & p & k & -> & E & Hk & _)]; [done|].
  cbn [to_int]. fold (signed s p). destruct (0 <=? - k) eqn:C.
  - assert (k = 0) as -> by lia. rewrite E. cbn. lia.
  - rewrite E, Z.opp_involutive. apply Z.quot_mul. apply Z.pow_nonzero; lia.
Qed.

(** *** Remainders *)

Lemma isint_fmod x y a b : isint x a -> isint y b -> b <> 0 -> isint (dfmod x y) (Z.rem a b).
Proof.
  intros Hx Hy Hb. pose proof (isint_bound _ _ Hx). pose proof Hx as Hx'.
  apply isint_inv in Hx' as [(-> & s & ->)|(s & p & k & -> & E & Hk & Hp)]; apply isint_inv in Hy as [(-> & t & ->)|(t & q & j & -> & F & Hj & Hq)]; [done|..|done|].
  - rewrite Z.rem_0_l by done. done.
  - cbn [dfmod]. set (g := Z.min (- k) (- j)). set (g' := Z.max k j).
    pose proof (Z.pow_pos_nonneg 2 k ltac:(lia) ltac:(lia)). pose proof (Z.pow_pos_nonneg 2 j ltac:(lia) ltac:(lia)). pose proof (Z.pow_pos_nonneg 2 g' ltac:(lia) ltac:(lia)).
    assert (Ep : Zpos p = Z.abs a * 2 ^ k) by (destruct s; cbn [signed] in E; nia).
    assert (Eq : Zpos q = Z.abs b * 2 ^ j) by (destruct t; cbn [signed] in F; nia).
    rewrite Ep, Eq, <- !Z.mul_assoc, <- !Z.pow_add_r by lia.
    replace (k + (- k - g)) with g' by lia. replace (j + (- j - g)) with g' by lia.
    rewrite Z.mul_mod_distr_r by lia. replace g with (- g') by lia.
    assert (Er : Z.rem a b = (if s then - (Z.abs a mod Z.abs b) else Z.abs a mod Z.abs b)).
    { rewrite <- Z.rem_abs_r by done. destruct s; cbn [signed] in E.
      - replace a with (- Z.abs a) at 1 by nia. rewrite Z.rem_opp_l, Z.rem_mod_nonneg by lia. done.
      - replace a with (Z.abs a) at 1 by nia. apply Z.rem_mod_nonneg; lia. }
    pose proof (Z.mod_le (Z.abs a) (Z.abs b) ltac:(lia) ltac:(lia)). pose proof (Z.mod_pos_bound (Z.abs a) (Z.abs b) ltac:(lia)).
    rewrite Er. replace (if s then - (Z.abs a mod Z.abs b * 2 ^ g') else Z.abs a mod Z.abs b * 2 ^ g')
      with ((if s then - (Z.abs a mod Z.abs b) else Z.abs a mod Z.abs b) * 2 ^ g') by (destruct s; lia).
    apply normalize_isint; [destruct s; lia|lia].
Qed.

(** *** Quotients *)

Lemma new_location_spec den r : 0 <= r < den -> new_location den r = if r =? 0 then loc_Exact else loc_Inexact (2 * r ?= den).
Proof.
  intros Hr. unfold new_location, new_location_even, new_location_odd. change IntDef.Z.even with Z.even. destruct (Z.even den) eqn:Ev; [done|].
  destruct (r =? 0) eqn:E0; [done|]. f_equal. assert (Ho : den mod 2 = 1) by (rewrite Zmod_even, Ev; done).
  destruct (2 * r + 1 ?= den) eqn:C; symmetry; z_compare; pose proof (Z.div_mod den 2 ltac:(lia)); lia.
Qed.

(** The location of a remainder after one more digit is dropped. *)
Lemma shr_1_location q den r : 0 < q -> 0 <= r < den ->
  shr_1 (shr_record_of_loc q (new_location den r)) = shr_record_of_loc (q / 2) (new_location (2 * den) (q mod 2 * den + r)).
Proof.
  intros Hq Hr. pose proof (Z.mod_pos_bound q 2 ltac:(lia)). rewrite !new_location_spec by nia.
  assert (Hp : exists p, q = Zpos p) by (destruct q; try lia; eauto). destruct Hp as [p ->].
  assert (Hs : forall l, shr_1 (shr_record_of_loc (Zpos p) l) =
    Build_shr_record (Zpos p / 2) (Z.odd (Zpos p)) (match l with loc_Exact => false | _ => true end)).
  { intros l. rewrite <- Z.div2_div. destruct l as [|[| |]], p; done. }
  rewrite Hs, Zmod_odd. destruct (Z.odd (Zpos p)) eqn:Od; destruct (r =? 0) eqn:E0.
  - apply Z.eqb_eq in E0 as ->. rewrite (proj2 (Z.eqb_neq _ _)) by lia. replace (2 * (1 * den + 0) ?= 2 * den) with Eq by (symmetry; z_compare; lia). done.
  - apply Z.eqb_neq in E0. rewrite (proj2 (Z.eqb_neq _ _)) by lia. replace (2 * (1 * den + r) ?= 2 * den) with Gt by (symmetry; z_compare; lia). done.
  - apply Z.eqb_eq in E0 as ->. done.
  - rewrite Z.mul_0_l, Z.add_0_l, E0. replace (2 * r ?= 2 * den) with Lt by (symmetry; z_compare; lia). done.
Qed.

(** Rounding to the nearest integer, in terms of the remainder. *)
Lemma nearest_even_spec q den r : 0 <= r < den -> let m := round_nearest_even q (new_location den r) in
  (m = q /\ 2 * r <= den) \/ (m = q + 1 /\ den <= 2 * r).
Proof.
  intros Hr m. unfold m. rewrite new_location_spec by done. destruct (r =? 0) eqn:E0; [left; cbn; lia|].
  destruct (2 * r ?= den) eqn:C; cbn [round_nearest_even]; z_compare; [destruct (Z.even q)|..]; lia.
Qed.

Lemma loc_of_record q l : loc_of_shr_record (shr_record_of_loc q l) = l.
Proof. by destruct l as [|[| |]]. Qed.

Lemma record_m q l : shr_m (shr_record_of_loc q l) = q.
Proof. by destruct l as [|[| |]]. Qed.

(** What rounds to the mantissa [m] of a double: [carried] when it went up to 2^53. *)
Definition rounded (s : bool) (m e : Z) (x : double) : Prop :=
  (m < 2 ^ 53 /\ exists p, Zpos p = m /\ x = S754_finite s p e) \/
  (m = 2 ^ 53 /\ exists p, Zpos p = 2 ^ 52 /\ x = S754_finite s p (e + 1)).

(** A quotient of two integers as the rounding sees it, one digit more or less. *)
Lemma round_aux_quotient s num den e : 0 < den -> 2 ^ 52 * den <= num < 2 ^ 54 * den -> -800 < e < 800 ->
  exists c m, (c = 0 \/ c = 1) /\
    let q := num / (den * 2 ^ c) in let r := num mod (den * 2 ^ c) in
    2 ^ 52 <= q < 2 ^ 53 /\ ((m = q /\ 2 * r <= den * 2 ^ c) \/ (m = q + 1 /\ den * 2 ^ c <= 2 * r)) /\
    rounded s m (e + c) (binary_round_aux prec emax s (num / den) e (new_location den (num mod den))).
Proof.
  intros Hden Hnum He. pose proof (Z.mod_pos_bound num den Hden) as Hr. pose proof (Z.div_mod num den ltac:(lia)) as Hdm.
  assert (Hq : 2 ^ 52 <= num / den < 2 ^ 54) by (split; [apply Z.div_le_lower_bound|apply Z.div_lt_upper_bound]; lia).
  set (c := if num / den <? 2 ^ 53 then 0 else 1).
  assert (Hc : (c = 0 /\ num / den < 2 ^ 53) \/ (c = 1 /\ 2 ^ 53 <= num / den)) by (unfold c; destruct (Z.ltb_spec (num / den) (2 ^ 53)); lia).
  assert (Hdig : digits (num / den) = prec + c). { apply digits_unique; [lia|]. destruct Hc as [[-> ?]|[-> ?]]; unfold prec; cbn; lia. }
  assert (HQ : num / (den * 2 ^ c) = num / den / 2 ^ c /\ num mod (den * 2 ^ c) = (num / den) mod 2 ^ c * den + num mod den).
  { destruct Hc as [[-> _]|[-> _]].
    - rewrite Z.pow_0_r, Z.mul_1_r, Z.div_1_r, Z.mod_1_r. lia.
    - rewrite Z.pow_1_r, Z.div_div by lia. split; [done|]. rewrite Z.rem_mul_r by lia. lia. }
  destruct HQ as [HQ HR]. set (Q := num / (den * 2 ^ c)) in *. set (Rm := num mod (den * 2 ^ c)) in *.
  assert (HQb : 2 ^ 52 <= Q < 2 ^ 53).
  { rewrite HQ. destruct Hc as [[-> ?]|[-> ?]]; [rewrite Z.pow_0_r, Z.div_1_r; lia|]. rewrite Z.pow_1_r.
    split; [apply Z.div_le_lower_bound|apply Z.div_lt_upper_bound]; lia. }
  assert (HRb : 0 <= Rm < den * 2 ^ c) by (apply Z.mod_pos_bound; destruct Hc as [[-> _]|[-> _]]; lia).
  exists c, (round_nearest_even Q (new_location (den * 2 ^ c) Rm)). split; [lia|]. cbv zeta. split; [done|].
  pose proof (nearest_even_spec Q (den * 2 ^ c) Rm HRb) as HM. cbv zeta in HM. split; [done|].
  unfold binary_round_aux, shr_fexp. change Zdigits2 with digits. rewrite Hdig, fexp_normal by (unfold prec; lia).
  replace (prec + c + e - prec - e) with c by lia.
  assert (Hshr : shr (shr_record_of_loc (num / den) (new_location den (num mod den))) e c = (shr_record_of_loc Q (new_location (den * 2 ^ c) Rm), e + c)).
  { rewrite HQ, HR. destruct Hc as [[-> _]|[-> _]]; cbn [shr]; [by rewrite !Z.pow_0_r, Z.div_1_r, Z.mod_1_r, Z.mul_1_r, Z.mul_0_l, Z.add_0_l, Z.add_0_r|].
    cbn [iter_pos]. rewrite shr_1_location by lia. by rewrite !Z.pow_1_r, (Z.mul_comm den 2). }
  rewrite Hshr, loc_of_record, record_m. set (M := round_nearest_even Q (new_location (den * 2 ^ c) Rm)) in *.
  destruct (Z.eq_dec M (2 ^ 53)) as [EM|EM].
  - right. split; [done|]. exists (2 ^ 52)%positive. split; [done|]. rewrite EM. replace (digits (2 ^ 53)) with 54 by done.
    rewrite fexp_normal by lia. unfold prec. replace (54 + (e + c) - 53 - (e + c)) with 1 by lia.
    replace (shr _ (e + c) 1) with (Build_shr_record (Zpos (2 ^ 52)) false false, e + c + 1) by done. cbn [shr_m].
    by rewrite (proj2 (Z.leb_le _ _)) by (unfold emax; lia).
  - left. assert (HM53 : 2 ^ 52 <= M < 2 ^ 53) by lia. split; [lia|]. rewrite (digits_unique M 53) by lia. rewrite fexp_normal by lia. unfold prec.
    replace (53 + (e + c) - 53 - (e + c)) with 0 by lia. cbn [shr shr_record_of_loc shr_m].
    destruct M as [|p|p]; try lia. exists p. split; [done|]. by rewrite (proj2 (Z.leb_le _ _)) by (unfold emax; lia).
Qed.

(** The integers around a rounded quotient: [a / b] scaled by [P] has 53 digits before the
    point, [m] is the nearest integer, and [(a + b)] is within 2^53. *)
Lemma rounded_floor a b P Q m : 0 < a -> 0 < b -> 0 < P -> a + b <= 2 ^ 53 -> Q = a * P / b -> 2 ^ 52 <= Q ->
  ((m = Q /\ 2 * (a * P) <= (2 * Q + 1) * b) \/ (m = Q + 1 /\ (2 * Q + 1) * b <= 2 * (a * P))) ->
  m / P = a / b /\ - m / P = - a / b.
Proof.
  intros Ha Hb HP Hab HQ Hq Hm. pose proof (Z.div_mod (a * P) b ltac:(lia)) as Dq. pose proof (Z.mod_pos_bound (a * P) b Hb) as Rq. rewrite <- HQ in Dq.
  pose proof (Z.div_mod a b ltac:(lia)) as D. pose proof (Z.mod_pos_bound a b Hb) as R. set (N := a / b) in *. set (r := a mod b) in *.
  assert (HN : 0 <= N) by (apply Z.div_pos; lia).
  assert (HlowQ : N * P <= Q) by (rewrite HQ; apply Z.div_le_lower_bound; [lia|]; rewrite Z.mul_assoc; apply Z.mul_le_mono_nonneg_r; lia).
  assert (HupQ : Q < (N + 1) * P) by (rewrite HQ; apply Z.div_lt_upper_bound; [lia|]; rewrite Z.mul_assoc; apply Z.mul_lt_mono_pos_r; lia).
  split.
  - symmetry. apply Z.div_unique_pos with (m - N * P); [|lia]. split; [lia|].
    destruct Hm as [[-> _]|[-> H2]]; [lia|]. destruct (Z.lt_ge_cases (Q + 1) ((N + 1) * P)); [lia|exfalso].
    assert (HQN : Q + 1 = (N + 1) * P) by lia. assert (2 * P <= b) by nia. assert ((N + 1) * b <= 2 ^ 53) by nia. nia.
  - symmetry. destruct (Z.eq_dec r 0) as [Hr0|Hr0].
    + assert (HQN : Q = N * P). { apply Z.mul_cancel_l with b; [lia|]. nia. }
      assert (m = N * P) as ->. { destruct Hm as [[-> _]|[_ H2]]; [done|]. nia. }
      replace (- (N * P)) with (- N * P) by lia. rewrite Z.div_mul by lia. replace a with (N * b) by lia. replace (- (N * b)) with (- N * b) by lia. by rewrite Z.div_mul by lia.
    + replace (- a / b) with (- (N + 1)) by (apply Z.div_unique_pos with (b - r); lia).
      apply Z.div_unique_pos with ((N + 1) * P - m); [|lia]. split; [destruct Hm as [[-> _]|[-> _]]; lia|].
      assert (N * P < m); [|lia]. destruct Hm as [[-> H2]|[-> _]]; [|lia].
      destruct (Z.lt_ge_cases (N * P) Q); [done|exfalso]. assert (HQN : Q = N * P) by lia.
      assert (2 * P <= b) by nia. assert (N * b < 2 ^ 53) by nia. nia.
Qed.

Lemma abs_div_le a b : 0 < b -> Z.abs (a / b) <= Z.abs a.
Proof. intros Hb. pose proof (Z.div_mod a b ltac:(lia)). pose proof (Z.mod_pos_bound a b Hb). destruct (Z.le_gt_cases 0 a); nia. Qed.

(** The floor of what a rounding made, on a scale [P] that divides the units evenly. *)
Lemma floor_rounded s m e x z : rounded s m e x -> 2 ^ 52 <= m -> e <= 0 -> (if s then - m else m) / 2 ^ (- e) = z -> Z.abs z < 2 ^ 53 -> isint (dfloor x) z.
Proof.
  intros H Hm He Hz Hb. assert (HP : 0 < 2 ^ (- e)) by (apply Z.pow_pos_nonneg; lia).
  destruct H as [[Hlt (p & Hp & ->)]|[-> (p & Hp & ->)]]; cbn [dfloor]; fold (signed s p).
  - destruct (0 <=? e) eqn:C.
    + assert (e = 0) as -> by lia. cbn in Hz. rewrite Z.div_1_r in Hz. subst z m. change (S754_finite s p 0) with (S754_finite s p (- 0)).
      pose proof (normalize_exact (Zpos p) 0 false ltac:(lia) ltac:(lia)) as N. rewrite Z.pow_0_r, Z.mul_1_r in N.
      assert (Hf : forall t, fit t (Zpos p) 0 = S754_finite t p 0).
      { intros t. unfold fit. rewrite (digits_unique (Zpos p) 53) by lia. unfold prec. by rewrite Z.pow_0_r, Z.mul_1_r. }
      split; [done|]. exists s. destruct s; unfold of_int_signed.
      * pose proof (normalize_exact (Zneg p) 0 true ltac:(lia) ltac:(lia)) as N'. rewrite Z.pow_0_r, Z.mul_1_r in N'. change (- 0) with 0 in *. change (- Zpos p) with (Zneg p). by rewrite N', Hf.
      * pose proof (normalize_exact (Zpos p) 0 false ltac:(lia) ltac:(lia)) as N'. rewrite Z.pow_0_r, Z.mul_1_r in N'. change (- 0) with 0 in *. by rewrite N', Hf.
    + replace (signed s p / 2 ^ (- e)) with z by (rewrite <- Hz; f_equal; unfold signed; destruct s; lia). by apply signed_isint.
  - assert (e < 0). { destruct (Z.eq_dec e 0) as [->|]; [|lia]. cbn in Hz. rewrite Z.div_1_r in Hz. destruct s; lia. }
    assert (Hz' : signed s p / 2 ^ (- (e + 1)) = z).
    { rewrite <- Hz. replace (- e) with (- (e + 1) + 1) by lia. rewrite Z.pow_add_r, Z.pow_1_r by lia.
      replace (if s then - 2 ^ 53 else 2 ^ 53) with (signed s p * 2) by (unfold signed; destruct s; lia).
      rewrite Z.div_mul_cancel_r; [done|apply Z.pow_nonzero; lia|lia]. }
    destruct (0 <=? e + 1) eqn:C.
    + assert (e + 1 = 0) as E1 by lia. rewrite E1 in *. cbn in Hz'. rewrite Z.div_1_r in Hz'. rewrite <- Hz'.
      split; [lia|]. exists s. assert (p = 2 ^ 52)%positive as -> by (apply Pos2Z.inj; done). destruct s; vm_compute; reflexivity.
    + rewrite Hz'. by apply signed_isint.
Qed.

(** Between integers whose sizes add up to at most 2^53, the floor of the rounded
    quotient is the floor of the quotient. *)
Theorem isint_floor_div x y a b : isint x a -> isint y b -> 0 < b -> Z.abs a + b <= 2 ^ 53 -> isint (dfloor (ddiv x y)) (a / b).
Proof.
  intros Hx Hy Hb Hab.
  apply isint_inv in Hx as [(-> & s & ->)|(s & p & k & -> & E & Hk & Hp)]; apply isint_inv in Hy as [(-> & t & ->)|(t & q & j & -> & F & Hj & Hq)]; try lia.
  { split; [done|]. by exists (xorb s t). }
  pose proof (Z.pow_pos_nonneg 2 j ltac:(lia) ltac:(lia)). pose proof (Z.pow_pos_nonneg 2 k ltac:(lia) ltac:(lia)).
  destruct t; cbn [signed] in F; [nia|]. assert (Ha : Z.abs a <> 0) by (intros ?; assert (a = 0) as -> by lia; destruct s; cbn in E; lia).
  assert (Ep : Zpos p = Z.abs a * 2 ^ k) by (destruct s; cbn [signed] in E; nia).
  unfold ddiv. cbn [SFdiv]. unfold SFdiv_core_binary. change Zdigits2 with digits. rewrite !(digits_unique (Zpos _) 53) by lia.
  rewrite fexp_normal by lia. unfold prec. replace (Z.min (53 + - k - (53 + - j) - 53) (- k - - j)) with (j - k - 53) by lia.
  replace (- k - - j - (j - k - 53)) with 53 by lia. cbv iota. change IntDef.Z.shiftl with Z.shiftl. rewrite Z.shiftl_mul_pow2 by lia.
  set (num := Zpos p * 2 ^ 53). unfold Z.div_eucl. fold (Z.div_eucl num (Zpos q)).
  destruct (Z.div_eucl num (Zpos q)) as [q0 r0] eqn:Ediv.
  assert (q0 = num / Zpos q) as -> by (unfold Z.div; by rewrite Ediv). assert (r0 = num mod Zpos q) as -> by (unfold Z.modulo; by rewrite Ediv).
  rewrite xorb_false_r. destruct (round_aux_quotient s num (Zpos q) (j - k - 53)) as (c & m & Hc & HQ & Hm & Hr); [lia|unfold num; lia|lia|].
  assert (HT : 0 < 2 ^ (j + c)) by (apply Z.pow_pos_nonneg; lia). set (T := 2 ^ (j + c)) in *.
  set (P := 2 ^ (- (j - k - 53 + c))). assert (HP : 0 < P) by (apply Z.pow_pos_nonneg; lia).
  assert (Enum : num = Z.abs a * P * T). { unfold num, P, T. rewrite Ep, <- !Z.mul_assoc, <- !Z.pow_add_r by lia. do 2 f_equal. lia. }
  assert (Eden : Zpos q * 2 ^ c = b * T). { unfold T. rewrite F, <- Z.mul_assoc, <- Z.pow_add_r by lia. done. }
  rewrite Eden, Enum in HQ, Hm. rewrite Z.div_mul_cancel_r in HQ, Hm by lia. rewrite Z.mul_mod_distr_r in Hm by lia.
  pose proof (Z.div_mod (Z.abs a * P) b ltac:(lia)) as D. set (Q := Z.abs a * P / b) in *. set (R := (Z.abs a * P) mod b) in *.
  destruct (rounded_floor (Z.abs a) b P Q m) as [Hf Hf']; [lia..|done|lia| |].
  { destruct Hm as [[-> Hm]|[-> Hm]]; [left|right]; (split; [done|]).
    - assert (2 * R <= b) by (apply (Z.mul_le_mono_pos_r _ _ T HT); lia). lia.
    - assert (b <= 2 * R) by (apply (Z.mul_le_mono_pos_r _ _ T HT); lia). lia. }
  apply (floor_rounded s m (j - k - 53 + c)); [done|lia|lia| |].
  - fold P. destruct s; cbn [signed] in E.
    + rewrite Hf'. f_equal. apply (Z.mul_cancel_r _ _ (2 ^ k)); lia.
    + rewrite Hf. f_equal. apply (Z.mul_cancel_r _ _ (2 ^ k)); lia.
  - pose proof (abs_div_le a b Hb). lia.
Qed.

(** ** Automation *)

Lemma isint_value x a b : isint x a -> a = b -> isint x b.
Proof. by intros H <-. Qed.

(** The integer a double expression denotes, from those its variables denote; what is left
    are the bounds [lia] does not see. *)
Ltac isint_build :=
  lazymatch goal with
  | H : isint ?x _ |- isint ?x _ => exact H
  | |- isint (of_int _) _ => apply of_int_isint
  | |- isint (dfloor (ddiv _ _)) _ => eapply isint_floor_div; [isint_build|isint_build|..]
  | |- isint (dadd _ _) _ => eapply isint_add; [isint_build|isint_build|..]
  | |- isint (dsub _ _) _ => eapply isint_sub; [isint_build|isint_build|..]
  | |- isint (dmul _ _) _ => eapply isint_mul; [isint_build|isint_build|..]
  | |- isint (dtrunc _) _ => eapply isint_trunc; isint_build
  | |- isint (dabs _) _ => eapply isint_abs; isint_build
  | |- _ => idtac
  end.
Ltac isint := eapply isint_value; [isint_build|]; try first [lia | reflexivity].

(** ** The doubles of the format *)

Lemma valid_bounds s m e : valid_binary prec emax (S754_finite s m e) = true -> Zpos m < 2 ^ 53 /\ -1074 <= e <= 971.
Proof.
  cbn. unfold bounded, canonical_mantissa. intros [H1%Zeq_bool_eq H2%Z.leb_le]%andb_prop. unfold fexp, emin, prec, emax in *.
  pose proof (digits2_spec m) as [_ Hm]. assert (Zpos (digits2_pos m) <= 53) by lia.
  assert (2 ^ Zpos (digits2_pos m) <= 2 ^ 53) by (apply Z.pow_le_mono_r; lia). lia.
Qed.

(** The whole part of [m * 2 ^ e]. *)
Definition whole_part (m e : Z) : Z := if 0 <=? e then m * 2 ^ e else m / 2 ^ (- e).
