(* ===== verification/DateMath.v ===== *)
(** * Calendar arithmetic (src/src/runtime/date_math.cpp, date.h)

    The abstract operations of ECMA-262 21.4.1 on time values, a [double] of milliseconds
    since the epoch, and the bridge to the zone of the host, whose [localtime] and [gmtime]
    are arguments.  The claims: the fields of a time value are a date of the Gregorian
    calendar and a time of day, and making a date of them gives the time value back. *)
From S2P Require Import Prelude Float64 DoubleArith.

(** ** The operations *)

Definition kMsPerSecond : double := of_int 1000.
Definition kMsPerMinute : double := of_int 60000.
Definition kMsPerHour : double := of_int 3600000.
Definition kMsPerDay : double := of_int 86400000.
Definition kMaxTimeValue : double := of_int 8640000000000000.

Definition modulo (x y : double) : double :=
  let r := dfmod x y in
  if deq r (of_int 0) then of_int 0
  else if negb (Bool.eqb (dlt r (of_int 0)) (dlt y (of_int 0))) then dadd r y
  else r.

Definition isLeapYear (y : double) : bool :=
  if negb (deq (modulo y (of_int 4)) (of_int 0)) then false
  else if negb (deq (modulo y (of_int 100)) (of_int 0)) then true
  else deq (modulo y (of_int 400)) (of_int 0).

Definition kMonthStart : list Z := [0; 31; 59; 90; 120; 151; 181; 212; 243; 273; 304; 334; 365].

Definition monthStartDay (m : double) (leap : bool) : double :=
  let base := of_int (nth (Z.to_nat (to_int m)) kMonthStart 0) in
  if dle (of_int 2) m && leap then dadd base (of_int 1) else base.

Definition day (t : double) : double := dfloor (ddiv t kMsPerDay).
Definition timeWithinDay (t : double) : double := modulo t kMsPerDay.
Definition daysInYear (y : double) : double := if isLeapYear y then of_int 366 else of_int 365.

Definition dayFromYear (y : double) : double :=
  dadd (dsub (dadd (dmul (of_int 365) (dsub y (of_int 1970))) (dfloor (ddiv (dsub y (of_int 1969)) (of_int 4))))
             (dfloor (ddiv (dsub y (of_int 1901)) (of_int 100))))
       (dfloor (ddiv (dsub y (of_int 1601)) (of_int 400))).

Definition timeFromYear (y : double) : double := dmul kMsPerDay (dayFromYear y).

(** [365.2425] *)
Definition kMeanYear : double := round_decimal false 3652425 (-4).

(** The turns of each correction: one is enough in the range of time values. *)
Definition year_fuel : nat := 1.

Definition yearFromTime (t : double) : double :=
  if negb (isfinite t) then dnan
  else
    let y := dadd (dfloor (ddiv t (dmul kMsPerDay kMeanYear))) (of_int 1970) in
    let y := while year_fuel (fun y => dlt t (timeFromYear y)) (fun y => dsub y (of_int 1)) y in
    while year_fuel (fun y => dle (timeFromYear (dadd y (of_int 1))) t) (fun y => dadd y (of_int 1)) y.

Definition inLeapYear (t : double) : bool := isLeapYear (yearFromTime t).
Definition dayWithinYear (t : double) : double := dsub (day t) (dayFromYear (yearFromTime t)).

Definition monthFromTime (t : double) : double :=
  if negb (isfinite t) then dnan
  else
    let d := dayWithinYear t in
    let leap := inLeapYear t in
    default (of_int 0) (List.find (fun m => dle (monthStartDay m leap) d) (map of_int [11; 10; 9; 8; 7; 6; 5; 4; 3; 2; 1; 0])).

Definition dateFromTime (t : double) : double :=
  if negb (isfinite t) then dnan
  else dadd (dsub (dayWithinYear t) (monthStartDay (monthFromTime t) (inLeapYear t))) (of_int 1).

Definition weekDay (t : double) : double :=
  if negb (isfinite t) then dnan else modulo (dadd (day t) (of_int 4)) (of_int 7).

Definition hourFromTime (t : double) : double := modulo (dfloor (ddiv t kMsPerHour)) (of_int 24).
Definition minFromTime (t : double) : double := modulo (dfloor (ddiv t kMsPerMinute)) (of_int 60).
Definition secFromTime (t : double) : double := modulo (dfloor (ddiv t kMsPerSecond)) (of_int 60).
Definition msFromTime (t : double) : double := modulo t kMsPerSecond.

Definition makeTime (hour min sec ms : double) : double :=
  if negb (isfinite hour && isfinite min && isfinite sec && isfinite ms) then dnan
  else dadd (dadd (dadd (dmul (dtrunc hour) kMsPerHour) (dmul (dtrunc min) kMsPerMinute)) (dmul (dtrunc sec) kMsPerSecond)) (dtrunc ms).

Definition makeDay (year month date : double) : double :=
  if negb (isfinite year && isfinite month && isfinite date) then dnan
  else
    let y := dtrunc year in
    let m := dtrunc month in
    let dt := dtrunc date in
    let ym := dadd y (dfloor (ddiv m (of_int 12))) in
    if negb (isfinite ym) then dnan
    else
      let mn := modulo m (of_int 12) in
      if dlt (of_int 400000) (dabs ym) then dnan
      else dsub (dadd (dadd (dayFromYear ym) (monthStartDay mn (isLeapYear ym))) dt) (of_int 1).

Definition makeDate (day time : double) : double :=
  if negb (isfinite day && isfinite time) then dnan
  else
    let tv := dadd (dmul day kMsPerDay) time in
    if negb (isfinite tv) then dnan else tv.

Definition timeClip (t : double) : double :=
  if negb (isfinite t) then dnan
  else if dlt kMaxTimeValue (dabs t) then dnan
  else let clipped := dtrunc t in if deq clipped (of_int 0) then of_int 0 else clipped.

Definition makeFullYear (year : double) : double :=
  if isnan year then dnan
  else
    let truncated := dtrunc year in
    if dle (of_int 0) truncated && dle truncated (of_int 99) then dadd (of_int 1900) truncated else truncated.

(** ** The zone of the host *)

(** The fields of [std::tm] that are read. *)
Record tm := mkTm { tm_year : Z; tm_mon : Z; tm_mday : Z; tm_hour : Z; tm_min : Z; tm_sec : Z }.

Definition kMinQuerySeconds : double := of_int 0.
Definition kMaxQuerySeconds : double := of_int 32503680000.

Definition tmAsTimeValue (parts : tm) : double :=
  makeDate (makeDay (dadd (of_int (tm_year parts)) (of_int 1900)) (of_int (tm_mon parts)) (of_int (tm_mday parts)))
           (makeTime (of_int (tm_hour parts)) (of_int (tm_min parts)) (of_int (tm_sec parts)) (of_int 0)).

Section Zone.
Context (localtime_r gmtime_r : Z -> option tm).

Definition localOffsetMs (tUtc : double) : double :=
  if negb (isfinite tUtc) then of_int 0
  else
    let secs := dfloor (ddiv tUtc kMsPerSecond) in
    let secs := if dlt secs kMinQuerySeconds then kMinQuerySeconds else secs in
    let secs := if dlt kMaxQuerySeconds secs then kMaxQuerySeconds else secs in
    let stamp := to_int secs in
    match localtime_r stamp, gmtime_r stamp with
    | Some asLocal, Some asUtc =>
        let diff := dsub (tmAsTimeValue asLocal) (tmAsTimeValue asUtc) in
        if isfinite diff then diff else of_int 0
    | _, _ => of_int 0
    end.

Definition localTime (tUtc : double) : double := if negb (isfinite tUtc) then tUtc else dadd tUtc (localOffsetMs tUtc).

Definition utcFromLocal (tLocal : double) : double :=
  if negb (isfinite tLocal) then tLocal
  else
    let guess := dsub tLocal (localOffsetMs tLocal) in
    dsub tLocal (localOffsetMs guess).
End Zone.

(** ** The calendar, on integers *)

Definition leap (y : Z) : bool := (y mod 4 =? 0) && (negb (y mod 100 =? 0) || (y mod 400 =? 0)).

(** The days from the epoch to the start of a year. *)
Definition days_before (y : Z) : Z := 365 * (y - 1970) + (y - 1969) / 4 - (y - 1901) / 100 + (y - 1601) / 400.

Definition month_start (m : Z) (lp : bool) : Z := nth (Z.to_nat m) kMonthStart 0 + (if (2 <=? m) && lp then 1 else 0).

Definition month_length (m : Z) (lp : bool) : Z := month_start (m + 1) lp - month_start m lp.

Lemma leap_days y : days_before (y + 1) = days_before y + (if leap y then 366 else 365).
Proof.
  unfold days_before, leap.
  pose proof (Z.div_mod y 4 ltac:(lia)). pose proof (Z.mod_pos_bound y 4 ltac:(lia)).
  pose proof (Z.div_mod y 100 ltac:(lia)). pose proof (Z.mod_pos_bound y 100 ltac:(lia)).
  pose proof (Z.div_mod y 400 ltac:(lia)). pose proof (Z.mod_pos_bound y 400 ltac:(lia)).
  replace ((y + 1 - 1969) / 4) with ((y - 1969) / 4 + if y mod 4 =? 0 then 1 else 0) by (destruct (Z.eqb_spec (y mod 4) 0); Z.div_mod_to_equations; lia).
  replace ((y + 1 - 1901) / 100) with ((y - 1901) / 100 + if y mod 100 =? 0 then 1 else 0) by (destruct (Z.eqb_spec (y mod 100) 0); Z.div_mod_to_equations; lia).
  replace ((y + 1 - 1601) / 400) with ((y - 1601) / 400 + if y mod 400 =? 0 then 1 else 0) by (destruct (Z.eqb_spec (y mod 400) 0); Z.div_mod_to_equations; lia).
  destruct (Z.eqb_spec (y mod 4) 0), (Z.eqb_spec (y mod 100) 0), (Z.eqb_spec (y mod 400) 0); cbn; lia.
Qed.

Lemma days_before_mono a b : a <= b -> days_before a <= days_before b.
Proof. intros H. unfold days_before. Z.div_mod_to_equations. lia. Qed.

(** A year starts within a day and a half of where the mean year puts it. *)
Lemma days_before_mean y : 3652425 * (y - 1970) - 12650 <= 10000 * days_before y <= 3652425 * (y - 1970) + 14725.
Proof. unfold days_before. Z.div_mod_to_equations. lia. Qed.

Lemma month_start_mono m n lp : 0 <= m -> m < n -> n <= 12 -> month_start m lp < month_start n lp.
Proof.
  intros Hm Hn Hn12. assert (Hstep : forall k, 0 <= k < 12 -> month_start k lp < month_start (k + 1) lp).
  { intros k Hk. assert (Hin : In k [0; 1; 2; 3; 4; 5; 6; 7; 8; 9; 10; 11]) by (cbn; lia). cbn [In] in Hin. destruct lp; naive_solver lia. }
  revert Hn12. replace n with (m + 1 + Z.of_nat (Z.to_nat (n - m - 1))) by lia. induction (Z.to_nat (n - m - 1)) as [|k IH]; intros H.
  - rewrite Z.add_0_r. apply Hstep. lia.
  - etransitivity; [apply IH; lia|]. replace (m + 1 + Z.of_nat (S k)) with (m + 1 + Z.of_nat k + 1) by lia. apply Hstep. lia.
Qed.

Lemma month_start_range m lp : 0 <= m <= 12 -> 0 <= month_start m lp <= 366.
Proof.
  intros Hm. assert (Hin : In m [0; 1; 2; 3; 4; 5; 6; 7; 8; 9; 10; 11; 12]) by (cbn; lia). cbn [In] in Hin.
  destruct lp; naive_solver (vm_compute; intuition discriminate).
Qed.

(** ** The operations on integers *)

Lemma isint_modulo x y a b : isint x a -> isint y b -> 0 < b -> isint (modulo x y) (a mod b).
Proof.
  intros Hx Hy Hb. pose proof (isint_bound _ _ Hy). unfold modulo. pose proof (isint_fmod x y a b Hx Hy ltac:(lia)) as Hr.
  pose proof (of_int_isint 0 ltac:(lia)) as H0. rewrite (isint_eq _ _ _ _ Hr H0), (isint_lt _ _ _ _ Hr H0), (isint_lt _ _ _ _ Hy H0).
  rewrite (proj2 (Z.ltb_ge b 0)) by lia. pose proof (Z.rem_bound_abs a b ltac:(lia)). pose proof (Z.quot_rem a b ltac:(lia)) as Q.
  destruct (Z.eqb_spec (Z.rem a b) 0) as [E|E].
  - replace (a mod b) with 0; [done|]. rewrite Q, E, Z.add_0_r, Z.mul_comm. symmetry. by apply Z.mod_mul; lia.
  - destruct (Z.ltb_spec (Z.rem a b) 0) as [E'|E']; cbn.
    + replace (a mod b) with (Z.rem a b + b) by (apply Z.mod_unique_pos with (Z.quot a b - 1); lia). apply isint_add; [done|done|lia].
    + replace (a mod b) with (Z.rem a b) by (apply Z.mod_unique_pos with (Z.quot a b); lia). done.
Qed.

Lemma isint_isLeapYear x y : isint x y -> isLeapYear x = leap y.
Proof.
  intros Hy. unfold isLeapYear, leap.
  assert (Hm : forall b, 0 < b < 1000 -> deq (modulo x (of_int b)) (of_int 0) = (y mod b =? 0)).
  { intros b Hb. apply isint_eq; [apply isint_modulo; [done|apply of_int_isint; lia|lia]|by apply of_int_isint]. }
  rewrite !Hm by lia. by destruct (y mod 4 =? 0), (y mod 100 =? 0).
Qed.

Lemma isint_monthStartDay x m lp : isint x m -> 0 <= m <= 12 -> isint (monthStartDay x lp) (month_start m lp).
Proof.
  intros Hm Hb. unfold monthStartDay, month_start. rewrite (isint_to_int _ _ Hm), (isint_le _ _ 2 m) by (done || by apply of_int_isint).
  assert (Hr : 0 <= nth (Z.to_nat m) kMonthStart 0 <= 365).
  { assert (Hin : In m [0; 1; 2; 3; 4; 5; 6; 7; 8; 9; 10; 11; 12]) by (cbn; lia). cbn [In] in Hin. naive_solver (cbn; lia). }
  destruct ((2 <=? m) && lp); isint.
Qed.

(** Where years are computed: past what [makeDay] accepts. *)
Definition year_ok (y : Z) : Prop := Z.abs y <= 500000.

Lemma isint_dayFromYear x y : isint x y -> year_ok y -> isint (dayFromYear x) (days_before y).
Proof.
  intros Hy Hb. unfold year_ok in Hb. pose proof (days_before_mean y). unfold dayFromYear, days_before in *.
  isint; Z.div_mod_to_equations; lia.
Qed.

Lemma isint_timeFromYear x y : isint x y -> Z.abs (y - 1970) <= 285200 -> isint (timeFromYear x) (86400000 * days_before y).
Proof.
  intros Hy Hb. pose proof (isint_dayFromYear x y Hy ltac:(unfold year_ok; lia)). pose proof (days_before_mean y). unfold timeFromYear, kMsPerDay.
  isint.
Qed.

(** The times the functions below are exact on: the time values, and as much again as a
    zone may add. *)
Definition time_ok (z : Z) : Prop := Z.abs z <= 9000000000000000.

(** The year of a time, by the days. *)
Definition year_of (z : Z) : Z :=
  let y := z / 31556952000 + 1970 in
  let y := if z <? 86400000 * days_before y then y - 1 else y in
  if 86400000 * days_before (y + 1) <=? z then y + 1 else y.

Lemma year_of_spec z : 86400000 * days_before (year_of z) <= z < 86400000 * days_before (year_of z + 1).
Proof.
  unfold year_of. pose proof (Z.div_mod z 31556952000 ltac:(lia)). pose proof (Z.mod_pos_bound z 31556952000 ltac:(lia)).
  set (y := z / 31556952000 + 1970) in *.
  pose proof (days_before_mean y). pose proof (days_before_mean (y - 1)). pose proof (days_before_mean (y + 1)). pose proof (days_before_mean (y + 2)).
  destruct (Z.ltb_spec z (86400000 * days_before y)).
  - replace (y - 1 + 1) with y by lia. destruct (Z.leb_spec (86400000 * days_before y) z); [lia|]. replace (y - 1 + 1) with y by lia. lia.
  - destruct (Z.leb_spec (86400000 * days_before (y + 1)) z); [|lia]. replace (y + 1 + 1) with (y + 2) by lia. lia.
Qed.

Lemma year_of_bound z : time_ok z -> Z.abs (year_of z) <= 300000.
Proof.
  intros H. unfold time_ok in H. unfold year_of. pose proof (Z.div_mod z 31556952000 ltac:(lia)). pose proof (Z.mod_pos_bound z 31556952000 ltac:(lia)).
  destruct (_ <? _), (_ <=? _); lia.
Qed.

Lemma mean_year_ms : dmul kMsPerDay kMeanYear = of_int 31556952000.
Proof. vm_compute. reflexivity. Qed.

Lemma isint_yearFromTime t z : isint t z -> time_ok z -> isint (yearFromTime t) (year_of z).
Proof.
  intros Ht Hz. pose proof (year_of_bound z Hz) as Hyb. unfold yearFromTime, year_of in *. rewrite (isint_finite _ _ Ht), mean_year_ms. cbn [negb].
  unfold time_ok in Hz. pose proof (Z.div_mod z 31556952000 ltac:(lia)). pose proof (Z.mod_pos_bound z 31556952000 ltac:(lia)).
  assert (Hy0 : isint (dadd (dfloor (ddiv t (of_int 31556952000))) (of_int 1970)) (z / 31556952000 + 1970)) by isint.
  set (y0 := dadd _ (of_int 1970)) in *. set (n := z / 31556952000 + 1970) in *. cbn [while year_fuel].
  rewrite (isint_lt _ _ _ _ Ht (isint_timeFromYear y0 n Hy0 ltac:(lia))).
  set (y1 := if z <? 86400000 * days_before n then dsub y0 (of_int 1) else y0).
  assert (Hy1 : isint y1 (if z <? 86400000 * days_before n then n - 1 else n)) by (unfold y1; destruct (_ <? _); isint).
  set (n1 := if z <? 86400000 * days_before n then n - 1 else n) in *. assert (Hn1 : Z.abs (n1 - 1969) <= 285200) by (unfold n1; destruct (_ <? _); lia).
  assert (Hy2 : isint (dadd y1 (of_int 1)) (n1 + 1)) by isint.
  rewrite (isint_le _ _ _ _ (isint_timeFromYear _ _ Hy2 ltac:(lia)) Ht).
  destruct (_ <=? _); [exact Hy2|exact Hy1].
Qed.

(** One turn of each correction is enough: no further one applies to the year that is found. *)
Lemma year_fuel_enough t z : isint t z -> time_ok z ->
  dlt t (timeFromYear (yearFromTime t)) = false /\ dle (timeFromYear (dadd (yearFromTime t) (of_int 1))) t = false.
Proof.
  intros Ht Hz. pose proof (year_of_spec z). pose proof (year_of_bound z Hz). pose proof (isint_yearFromTime t z Ht Hz) as Hy. unfold time_ok in Hz.
  assert (Hb : Z.abs (year_of z - 1969) <= 285199).
  { pose proof (days_before_mean (year_of z)). pose proof (days_before_mean (year_of z + 1)). lia. }
  assert (Hy1 : isint (dadd (yearFromTime t) (of_int 1)) (year_of z + 1)) by isint.
  rewrite (isint_lt _ _ _ _ Ht (isint_timeFromYear _ _ Hy ltac:(lia))), (isint_le _ _ _ _ (isint_timeFromYear _ _ Hy1 ltac:(lia)) Ht). lia.
Qed.

(** ** The fields of a time *)

Definition day_of (z : Z) : Z := z / 86400000.
Definition months : list Z := [11; 10; 9; 8; 7; 6; 5; 4; 3; 2; 1; 0].

(** The month a day of the year is in. *)
Definition month_of (d : Z) (lp : bool) : Z := default 0 (List.find (fun m => month_start m lp <=? d) months).

(** The fields, on integers: the year, the month from 0, the day of the month from 1. *)
Definition yday_of (z : Z) : Z := day_of z - days_before (year_of z).
Definition mon_of (z : Z) : Z := month_of (yday_of z) (leap (year_of z)).
Definition date_of (z : Z) : Z := yday_of z - month_start (mon_of z) (leap (year_of z)) + 1.

Lemma year_of_days z : days_before (year_of z) <= day_of z < days_before (year_of z + 1).
Proof. pose proof (year_of_spec z). unfold day_of. split; [apply Z.div_le_lower_bound|apply Z.div_lt_upper_bound]; lia. Qed.

Lemma yday_of_range z : 0 <= yday_of z < if leap (year_of z) then 366 else 365.
Proof. pose proof (year_of_days z). pose proof (leap_days (year_of z)). unfold yday_of. destruct (leap (year_of z)); lia. Qed.

(** The starts of the months, as numbers. *)
Ltac month_table :=
  repeat match goal with
  | H : context [month_start ?m ?b] |- _ => let v := eval vm_compute in (month_start m b) in change (month_start m b) with v in H
  | |- context [month_start ?m ?b] => let v := eval vm_compute in (month_start m b) in change (month_start m b) with v
  end.

Lemma month_of_spec (d : Z) (lp : bool) : 0 <= d < (if lp then 366 else 365) ->
  0 <= month_of d lp <= 11 /\ month_start (month_of d lp) lp <= d < month_start (month_of d lp + 1) lp.
Proof.
  intros Hd. unfold month_of, months. destruct lp; cbn [List.find month_start kMonthStart Z.to_nat].
  all: repeat match goal with |- context [Z.leb ?a ?b] => destruct (Z.leb_spec a b); cbn [default] end; month_table; unfold id; lia.
Qed.

Lemma date_of_range z : 0 <= mon_of z <= 11 /\ 1 <= date_of z <= month_length (mon_of z) (leap (year_of z)).
Proof. pose proof (month_of_spec _ _ (yday_of_range z)) as [? ?]. unfold date_of, month_length. fold (mon_of z) in *. lia. Qed.

Lemma isint_day t z : isint t z -> time_ok z -> isint (day t) (day_of z).
Proof. intros Ht Hz. unfold time_ok in Hz. unfold day, kMsPerDay. isint. Qed.

Lemma day_of_bound z : time_ok z -> Z.abs (day_of z) <= 104166668.
Proof. unfold time_ok, day_of. intros. Z.div_mod_to_equations. lia. Qed.

Lemma isint_dayWithinYear t z : isint t z -> time_ok z -> isint (dayWithinYear t) (yday_of z).
Proof.
  intros Ht Hz. pose proof (year_of_bound z Hz). pose proof (isint_yearFromTime t z Ht Hz). unfold dayWithinYear.
  pose proof (isint_day t z Ht Hz). pose proof (isint_dayFromYear (yearFromTime t) (year_of z) ltac:(done) ltac:(unfold year_ok; lia)).
  pose proof (day_of_bound z Hz). pose proof (yday_of_range z). unfold yday_of in *. isint. destruct (leap _); lia.
Qed.

Lemma inLeapYear_spec t z : isint t z -> time_ok z -> inLeapYear t = leap (year_of z).
Proof. intros Ht Hz. apply isint_isLeapYear. by apply isint_yearFromTime. Qed.

Lemma isint_monthFromTime t z : isint t z -> time_ok z -> isint (monthFromTime t) (mon_of z).
Proof.
  intros Ht Hz. unfold monthFromTime. rewrite (isint_finite _ _ Ht). cbn [negb]. rewrite (inLeapYear_spec t z) by done.
  pose proof (isint_dayWithinYear t z Ht Hz) as Hd. set (lp := leap (year_of z)).
  assert (Hf : forall l, Forall (fun m => 0 <= m <= 11) l ->
    List.find (fun m => dle (monthStartDay m lp) (dayWithinYear t)) (map of_int l) = of_int <$> List.find (fun m => month_start m lp <=? yday_of z) l).
  { induction 1 as [|m l Hm _ IH]; [done|]. cbn [map List.find].
    rewrite (isint_le _ _ (month_start m lp) (yday_of z)) by (done || (apply isint_monthStartDay; [apply of_int_isint; lia|lia])). by destruct (_ <=? _). }
  unfold mon_of, month_of. change (map of_int [11; 10; 9; 8; 7; 6; 5; 4; 3; 2; 1; 0]) with (map of_int months). rewrite (Hf months) by (unfold months; repeat constructor; lia). fold lp.
  pose proof (month_of_spec (yday_of z) lp (yday_of_range z)) as [Hm _]. unfold month_of in Hm.
  destruct (List.find _ _) as [m|]; cbn in *; apply of_int_isint; lia.
Qed.

Lemma isint_dateFromTime t z : isint t z -> time_ok z -> isint (dateFromTime t) (date_of z).
Proof.
  intros Ht Hz. unfold dateFromTime. rewrite (isint_finite _ _ Ht). cbn [negb]. rewrite (inLeapYear_spec t z) by done.
  pose proof (isint_dayWithinYear t z Ht Hz). pose proof (date_of_range z) as [Hm Hd]. pose proof (yday_of_range z).
  pose proof (isint_monthStartDay _ _ (leap (year_of z)) (isint_monthFromTime t z Ht Hz) ltac:(lia)).
  pose proof (month_start_range (mon_of z) (leap (year_of z)) ltac:(lia)). unfold date_of in *. isint; destruct (leap _); lia.
Qed.

Lemma isint_weekDay t z : isint t z -> time_ok z -> isint (weekDay t) ((day_of z + 4) mod 7).
Proof.
  intros Ht Hz. unfold weekDay. rewrite (isint_finite _ _ Ht). cbn [negb]. pose proof (isint_day t z Ht Hz). pose proof (day_of_bound z Hz).
  apply isint_modulo; [isint|by apply of_int_isint|lia].
Qed.

Lemma isint_field t z u b : isint t z -> time_ok z -> 0 < u <= 3600000 -> 0 < b <= 1000 -> isint (modulo (dfloor (ddiv t (of_int u))) (of_int b)) (z / u mod b).
Proof. intros Ht Hz Hu Hb. unfold time_ok in Hz. apply isint_modulo; [isint|apply of_int_isint; lia|lia]. Qed.

Lemma isint_hourFromTime t z : isint t z -> time_ok z -> isint (hourFromTime t) (z / 3600000 mod 24).
Proof. intros. by apply isint_field. Qed.

Lemma isint_minFromTime t z : isint t z -> time_ok z -> isint (minFromTime t) (z / 60000 mod 60).
Proof. intros. by apply isint_field. Qed.

Lemma isint_secFromTime t z : isint t z -> time_ok z -> isint (secFromTime t) (z / 1000 mod 60).
Proof. intros. by apply isint_field. Qed.

Lemma isint_msFromTime t z : isint t z -> isint (msFromTime t) (z mod 1000).
Proof. intros. by apply isint_modulo; [|apply of_int_isint|]. Qed.

(** ** Making times *)

Ltac finite := repeat match goal with H : isint ?x _ |- context [isfinite ?x] => rewrite (isint_finite x _ H) end; cbn [negb andb].

Lemma isint_makeTime h m s ms a b c d : isint h a -> isint m b -> isint s c -> isint ms d ->
  Z.abs a <= 10 ^ 9 -> Z.abs b <= 10 ^ 9 -> Z.abs c <= 10 ^ 9 -> Z.abs d <= 10 ^ 9 ->
  isint (makeTime h m s ms) (a * 3600000 + b * 60000 + c * 1000 + d).
Proof. intros Hh Hm Hs Hms Ba Bb Bc Bd. unfold makeTime, kMsPerHour, kMsPerMinute, kMsPerSecond. finite. isint. Qed.

Lemma isint_makeDay y m d a b c : isint y a -> isint m b -> isint d c -> Z.abs a <= 10 ^ 9 -> Z.abs b <= 10 ^ 9 -> Z.abs c <= 10 ^ 9 ->
  Z.abs (a + b / 12) <= 400000 ->
  isint (makeDay y m d) (days_before (a + b / 12) + month_start (b mod 12) (leap (a + b / 12)) + c - 1).
Proof.
  intros Hy Hm Hd Ba Bb Bc Bym. unfold makeDay. finite.
  assert (Hym : isint (dadd (dtrunc y) (dfloor (ddiv (dtrunc m) (of_int 12)))) (a + b / 12)) by isint.
  set (ym := dadd _ _) in *. finite. pose proof (isint_trunc _ _ Hm) as Hm'. pose proof (Z.mod_pos_bound b 12 ltac:(lia)).
  rewrite (isint_lt _ _ 400000 (Z.abs (a + b / 12))) by (by apply of_int_isint || by apply isint_abs). rewrite (proj2 (Z.ltb_ge _ _)) by lia.
  pose proof (isint_dayFromYear ym _ Hym ltac:(unfold year_ok; lia)). rewrite (isint_isLeapYear ym _ Hym).
  pose proof (isint_monthStartDay (modulo (dtrunc m) (of_int 12)) (b mod 12) (leap (a + b / 12)) ltac:(apply isint_modulo; [done|by apply of_int_isint|lia]) ltac:(lia)).
  pose proof (days_before_mean (a + b / 12)). pose proof (month_start_range (b mod 12) (leap (a + b / 12)) ltac:(lia)). isint.
Qed.

(** A year no time value is in makes no day. *)
Lemma makeDay_nan y m d a b c : isint y a -> isint m b -> isint d c -> Z.abs a <= 10 ^ 9 -> Z.abs b <= 10 ^ 9 ->
  400000 < Z.abs (a + b / 12) -> makeDay y m d = dnan.
Proof.
  intros Hy Hm Hd Ba Bb Bym. unfold makeDay. finite.
  assert (Hym : isint (dadd (dtrunc y) (dfloor (ddiv (dtrunc m) (of_int 12)))) (a + b / 12)) by (isint; Z.div_mod_to_equations; lia).
  set (ym := dadd _ _) in *. finite. rewrite (isint_lt _ _ 400000 (Z.abs (a + b / 12))) by (by apply of_int_isint || by apply isint_abs).
  by rewrite (proj2 (Z.ltb_lt _ _)) by lia.
Qed.

Lemma isint_makeDate d t a b : isint d a -> isint t b -> Z.abs (a * 86400000) < 2 ^ 53 -> Z.abs (a * 86400000 + b) < 2 ^ 53 -> isint (makeDate d t) (a * 86400000 + b).
Proof.
  intros Hd Ht Ba Bb. unfold makeDate, kMsPerDay. finite. assert (Htv : isint (dadd (dmul d (of_int 86400000)) t) (a * 86400000 + b)) by isint.
  set (tv := dadd _ _) in *. by finite.
Qed.

Lemma timeClip_int t z : isint t z -> timeClip t = if Z.abs z <=? 8640000000000000 then of_int z else dnan.
Proof.
  intros Ht. unfold timeClip. finite. unfold kMaxTimeValue. rewrite (isint_lt _ _ 8640000000000000 (Z.abs z)) by (by apply of_int_isint || by apply isint_abs).
  destruct (Z.leb_spec (Z.abs z) 8640000000000000); [rewrite (proj2 (Z.ltb_ge _ _)) by lia|by rewrite (proj2 (Z.ltb_lt _ _)) by lia].
  pose proof (isint_trunc _ _ Ht) as Htr. rewrite (isint_eq _ _ z 0) by (done || by apply of_int_isint).
  destruct (Z.eqb_spec z 0) as [->|Hne]; [done|]. destruct Htr as [_ [s ->]].
  pose proof (normalize_exact z 0 s ltac:(lia) ltac:(lia)) as N. pose proof (normalize_exact z 0 false ltac:(lia) ltac:(lia)) as N'.
  rewrite Z.pow_0_r, Z.mul_1_r in N, N'. change (- 0) with 0 in N, N'. unfold of_int, of_int_signed. rewrite N, N'. by destruct z.
Qed.

(** What the fields of a time put together. *)
Lemma fields_sum z : (days_before (year_of z) + month_start (mon_of z) (leap (year_of z)) + date_of z - 1) * 86400000 +
  (z / 3600000 mod 24 * 3600000 + z / 60000 mod 60 * 60000 + z / 1000 mod 60 * 1000 + z mod 1000) = z.
Proof. unfold date_of, yday_of, day_of. Z.div_mod_to_equations. lia. Qed.

Definition time_value (z : Z) : Prop := Z.abs z <= 8640000000000000.

Lemma isint_makeDay_fields t z : isint t z -> time_ok z -> isint (makeDay (yearFromTime t) (monthFromTime t) (dateFromTime t)) (day_of z).
Proof.
  intros Ht Hz. pose proof (year_of_bound z Hz). pose proof (date_of_range z) as [Hm Hd]. pose proof (yday_of_range z). pose proof (month_start_range (mon_of z) (leap (year_of z)) ltac:(lia)).
  assert (E : year_of z + mon_of z / 12 = year_of z) by (rewrite Z.div_small; lia).
  eapply isint_value.
  - apply isint_makeDay; [by apply isint_yearFromTime|by apply isint_monthFromTime|by apply isint_dateFromTime|lia|lia| |rewrite E; lia].
    unfold date_of. destruct (leap _); lia.
  - rewrite E, (Z.mod_small (mon_of z)) by lia. unfold date_of, yday_of. lia.
Qed.

(** C11: the fields of a time value are a date of the Gregorian calendar and a time of day:
    the month is of that year, the day of that month, in a leap year or not; the date is
    the day the time falls in and the day of the week counts the days from a Thursday; and
    MakeDate of MakeDay and MakeTime of the fields, clipped, is the time value itself, to
    the bit. *)
Theorem time_fields z (t := of_int z) : time_value z ->
  exists y m d, isint (yearFromTime t) y /\ isint (monthFromTime t) m /\ isint (dateFromTime t) d /\
    0 <= m <= 11 /\ 1 <= d <= month_length m (leap y) /\
    days_before y + month_start m (leap y) + (d - 1) = z / 86400000 /\
    isint (weekDay t) ((z / 86400000 + 4) mod 7) /\
    timeClip (makeDate (makeDay (yearFromTime t) (monthFromTime t) (dateFromTime t))
                       (makeTime (hourFromTime t) (minFromTime t) (secFromTime t) (msFromTime t))) = of_int z.
Proof.
  intros Hz. assert (Hok : time_ok z) by (unfold time_value, time_ok in *; lia). unfold time_value in Hz.
  assert (Ht : isint t z) by (apply of_int_isint; lia). pose proof (date_of_range z) as [Hm Hd].
  exists (year_of z), (mon_of z), (date_of z). split; [by apply isint_yearFromTime|]. split; [by apply isint_monthFromTime|]. split; [by apply isint_dateFromTime|].
  split; [done|]. split; [done|]. split; [unfold date_of, yday_of, day_of; lia|]. split; [by apply isint_weekDay|].
  rewrite (timeClip_int _ z); [by rewrite (proj2 (Z.leb_le _ _)) by lia|].
  pose proof (day_of_bound z Hok) as Hdb. pose proof (Z.mod_pos_bound (z / 3600000) 24 ltac:(lia)). pose proof (Z.mod_pos_bound (z / 60000) 60 ltac:(lia)).
  pose proof (Z.mod_pos_bound (z / 1000) 60 ltac:(lia)). pose proof (Z.mod_pos_bound z 1000 ltac:(lia)).
  eapply isint_value.
  - apply isint_makeDate; [by apply isint_makeDay_fields| |lia|].
    + apply isint_makeTime; [by apply isint_hourFromTime|by apply isint_minFromTime|by apply isint_secFromTime|by apply isint_msFromTime|lia..].
    + lia.
  - unfold day_of. Z.div_mod_to_equations. lia.
Qed.

Lemma time_fields_witness : exists y m d, isint (yearFromTime (of_int (-1))) y /\ isint (monthFromTime (of_int (-1))) m /\ isint (dateFromTime (of_int (-1))) d /\ 1 <= d.
Proof. destruct (time_fields (-1) ltac:(unfold time_value; lia)) as (y & m & d & Hy & Hm & Hd & _ & Hr & _). exists y, m, d. split; [exact Hy|split; [exact Hm|split; [exact Hd|lia]]]. Defined.
