(* ===== verification/DateParse.v ===== *)
(** * Date.parse (src/src/runtime/date_parse.cpp)

    The ISO date-time grammar and the legacy grammar behind it, step for step: the input,
    the tokenizer, the composers, the ES5 pass and the legacy loop.  A text is its bytes. *)
From stdpp Require Import list.
From S2P Require Import Prelude Float64 DoubleArith DateMath.
Local Open Scope Z_scope.
Local Open Scope bool_scope.

Definition kNone : Z := 2147483647.
Definition kMaxSignificantDigits : Z := 9.

Definition between (x lo hi : Z) : bool := u32 (x - lo) <=? u32 (hi - lo).
Definition isAsciiDigitCp (c : Z) : bool := (48 <=? c) && (c <=? 57).

Definition isWhiteSpaceCp (c : Z) : bool :=
  existsb (Z.eqb c)
    [0x09; 0x0B; 0x0C; 0x20; 0xA0; 0x1680; 0x2000; 0x2001; 0x2002; 0x2003; 0x2004; 0x2005; 0x2006; 0x2007; 0x2008; 0x2009; 0x200A;
     0x202F; 0x205F; 0x3000; 0xFEFF].

Definition isWhiteSpaceOrLineTerminatorCp (c : Z) : bool :=
  isWhiteSpaceCp c || (c =? 0x0A) || (c =? 0x0D) || (c =? 0x2028) || (c =? 0x2029).

Definition asciiAlphaToLower (c : Z) : Z := Z.lor c 0x20.

(** ** The input: what is left of the text, the count and the current character *)

Record Input := mkInput { rest : list Z; count_ : Z; ch_ : Z }.

Definition in_next (i : Input) : Input :=
  let n := count_ i + 1 in
  match rest i with
  | [] => mkInput [] n 0
  | b0 :: r =>
      if b0 <? 0x80 then mkInput r n b0
      else
        let seq (k : nat) (c : Z) := mkInput (drop k r) n c in
        let byte (k : nat) := Z.land (nth k r 0) 0x3F in
        if (Z.land b0 0xE0 =? 0xC0) && (1 <=? length r)%nat then seq 1%nat (Z.lor (Z.shiftl (Z.land b0 0x1F) 6) (byte 0%nat))
        else if (Z.land b0 0xF0 =? 0xE0) && (2 <=? length r)%nat then
          seq 2%nat (Z.lor (Z.lor (Z.shiftl (Z.land b0 0x0F) 12) (Z.shiftl (byte 0%nat) 6)) (byte 1%nat))
        else if (Z.land b0 0xF8 =? 0xF0) && (3 <=? length r)%nat then
          seq 3%nat (Z.lor (Z.lor (Z.lor (Z.shiftl (Z.land b0 0x07) 18) (Z.shiftl (byte 0%nat) 12)) (Z.shiftl (byte 1%nat) 6)) (byte 2%nat))
        else mkInput r n 0xFFFD
  end.

Definition input (s : list Z) : Input := in_next (mkInput s 0 0).

Definition isEnd (i : Input) : bool := ch_ i =? 0.
Definition isAsciiDigit (i : Input) : bool := isAsciiDigitCp (ch_ i).
Definition isAsciiAlphaOrAbove (i : Input) : bool := 65 <=? ch_ i.
Definition isWhiteSpaceChar (i : Input) : bool := isWhiteSpaceCp (ch_ i).

(** A turn for each byte that is left and the current character.  A loop that this does
    not bring to its end answers [None], and so does what runs one. *)
Definition in_fuel (i : Input) : nat := S (length (rest i)).

Definition zeros (i : Input) : option Input := while_run (in_fuel i) (fun i => ch_ i =? 48) in_next i.

Definition numeral_step (s : Z * Z * Input) : Z * Z * Input :=
  let '(n, k, i) := s in ((if k <? kMaxSignificantDigits then n * 10 + (ch_ i - 48) else n), k + 1, in_next i).

Definition readUnsignedNumeral (i : Input) : option (Z * Input) :=
  let? i := zeros i in
  let? (n, _, i) := while_run (in_fuel i) (fun s : Z * Z * Input => isAsciiDigit s.2) numeral_step (0, 0, i) in
  Some (n, i).

(** The letters a word is looked up by, padded with zeros, and its length. *)
Definition kPrefixLength : nat := 3.

Definition word_cond (s : list Z * Z * Input) : bool := isAsciiAlphaOrAbove s.2 && negb (isWhiteSpaceChar s.2).

Definition word_step (s : list Z * Z * Input) : list Z * Z * Input :=
  let '(prefix, len, i) := s in
  ((if (length prefix <? kPrefixLength)%nat then prefix ++ [asciiAlphaToLower (ch_ i)] else prefix), len + 1, in_next i).

Definition readWord (i : Input) : option (list Z * Z * Input) :=
  let? (prefix, len, i) := while_run (in_fuel i) word_cond word_step ([], 0, i) in
  Some (prefix ++ replicate (kPrefixLength - length prefix) 0, len, i).

Definition in_skip (c : Z) (i : Input) : option Input := if ch_ i =? c then Some (in_next i) else None.
Definition skipWhiteSpace (i : Input) : option Input := if isWhiteSpaceOrLineTerminatorCp (ch_ i) then Some (in_next i) else None.

Definition paren_step (s : Z * Input) : Z * Input :=
  let '(balance, i) := s in
  ((if ch_ i =? 41 then balance - 1 else if ch_ i =? 40 then balance + 1 else balance), in_next i).

Definition skipParentheses (i : Input) : option (bool * Input) :=
  if negb (ch_ i =? 40) then Some (false, i)
  else
    let? (_, i) := while_run (in_fuel i) (fun s : Z * Input => (0 <? s.1) && negb (ch_ s.2 =? 0)) paren_step (paren_step (0, i)) in
    Some (true, i).

(** ** Tokens *)

Inductive KeywordType := KInvalid | MonthName | TimeZoneName | TimeSeparator | AmPm.
Inductive Tag := TInvalid | Unknown | WhiteSpace | Number | Symbol | EndOfInput | Keyword.
#[global] Instance KeywordType_eq_dec : EqDecision KeywordType.
Proof. solve_decision. Defined.
#[global] Instance Tag_eq_dec : EqDecision Tag.
Proof. solve_decision. Defined.

Record Token := mkToken { tag : Tag; tlength : Z; value : Z; keyword : KeywordType }.

Definition isTag (t : Tag) (k : Token) : bool := bool_decide (tag k = t).
Definition isNumber (k : Token) : bool := isTag Number k.
Definition isSymbol (c : Z) (k : Token) : bool := isTag Symbol k && (value k =? c).
Definition isKeywordType (ty : KeywordType) (k : Token) : bool := isTag Keyword k && bool_decide (keyword k = ty).
Definition isFixedLengthNumber (n : Z) (k : Token) : bool := isNumber k && (tlength k =? n).
Definition isAsciiSign (k : Token) : bool := isTag Symbol k && ((value k =? 45) || (value k =? 43)).
Definition asciiSign (k : Token) : Z := 44 - value k.
Definition isKeywordZ (k : Token) : bool := isKeywordType TimeZoneName k && (tlength k =? 1) && (value k =? 0).

Definition number (v len : Z) : Token := mkToken Number len v KInvalid.
Definition symbol (c : Z) : Token := mkToken Symbol 1 c KInvalid.
Definition keywordOf (ty : KeywordType) (v len : Z) : Token := mkToken Keyword len v ty.
Definition endOfInput : Token := mkToken EndOfInput 0 (-1) KInvalid.
Definition whiteSpace (len : Z) : Token := mkToken WhiteSpace len (-1) KInvalid.
Definition unknown : Token := mkToken Unknown 1 (-1) KInvalid.
Definition invalid : Token := mkToken TInvalid 0 (-1) KInvalid.

Record KeywordEntry := mkKeyword { prefix : string; ktype : KeywordType; kvalue : Z }.

Definition kKeywords : list KeywordEntry := [
  mkKeyword "jan" MonthName 1; mkKeyword "feb" MonthName 2; mkKeyword "mar" MonthName 3; mkKeyword "apr" MonthName 4;
  mkKeyword "may" MonthName 5; mkKeyword "jun" MonthName 6; mkKeyword "jul" MonthName 7; mkKeyword "aug" MonthName 8;
  mkKeyword "sep" MonthName 9; mkKeyword "oct" MonthName 10; mkKeyword "nov" MonthName 11; mkKeyword "dec" MonthName 12;
  mkKeyword "am" AmPm 0; mkKeyword "pm" AmPm 12; mkKeyword "ut" TimeZoneName 0; mkKeyword "utc" TimeZoneName 0;
  mkKeyword "z" TimeZoneName 0; mkKeyword "gmt" TimeZoneName 0; mkKeyword "cdt" TimeZoneName (-5); mkKeyword "cst" TimeZoneName (-6);
  mkKeyword "edt" TimeZoneName (-4); mkKeyword "est" TimeZoneName (-5); mkKeyword "mdt" TimeZoneName (-6); mkKeyword "mst" TimeZoneName (-7);
  mkKeyword "pdt" TimeZoneName (-7); mkKeyword "pst" TimeZoneName (-8); mkKeyword "t" TimeSeparator 0].

(** The three letters of an entry, padded with zeros. *)
Definition entry_prefix (e : KeywordEntry) : list Z :=
  let p := bytes (prefix e) in p ++ replicate (kPrefixLength - length p) 0.

Definition lookupKeyword (pre : list Z) (len : Z) : option KeywordEntry :=
  List.find (fun e => bool_decide (pre = entry_prefix e) && ((len <=? 3) || bool_decide (ktype e = MonthName))) kKeywords.

Definition scan_symbol (i : Input) : option (Token * Input) :=
  match List.find (Z.eqb (ch_ i)) [58; 45; 43; 46; 41] with
  | Some c => Some (symbol c, in_next i)
  | None => None
  end.

Definition scan_run (i : Input) : option (Token * Input) :=
  if isEnd i then Some (endOfInput, i)
  else if isAsciiDigit i then let? (n, j) := readUnsignedNumeral i in Some (number n (count_ j - count_ i), j)
  else match scan_symbol i with
  | Some r => Some r
  | None =>
      if isAsciiAlphaOrAbove i && negb (isWhiteSpaceChar i) then
        let? (pre, len, j) := readWord i in
        match lookupKeyword pre len with
        | None => Some (keywordOf KInvalid 0 len, j)
        | Some e => Some (keywordOf (ktype e) (kvalue e) len, j)
        end
      else match skipWhiteSpace i with
      | Some j => Some (whiteSpace (count_ j - count_ i), j)
      | None => let? (skipped, j) := skipParentheses i in Some (unknown, if skipped : bool then j else in_next i)
      end
  end.

(** No loop is stopped by its fuel, as [parse_ends] shows of every input: what stands for
    such a stop here is never answered. *)
Definition scan (i : Input) : Token * Input := default (endOfInput, i) (scan_run i).

(** The input, and the token read ahead of it. *)
Record Tokenizer := mkTokenizer { in_ : Input; next_ : Token }.

Definition tokenizer (i : Input) : Tokenizer := let '(t, i) := scan i in mkTokenizer i t.

(** ** Composers *)

Definition readMilliseconds (k : Token) : Z :=
  let number := value k in
  let length := tlength k in
  if length <? 3 then
    if length =? 1 then number * 100 else if length =? 2 then number * 10 else number
  else if 3 <? length then
    let length := if kMaxSignificantDigits <? length then kMaxSignificantDigits else length in
    Z.quot number (10 ^ (length - 3))
  else number.

Record DateFields := mkFields {
  fyear : Z; fmonth : Z; fday : Z; fhour : Z; fminute : Z; fsecond : Z; fmillisecond : Z; hasOffset : bool; offsetSeconds : Z }.

(** A composer holds the components added to it, in order. *)
Record TimeComposer := mkTime { tcomp : list Z; hourOffset_ : Z }.
Record TimeZoneComposer := mkZone { sign_ : Z; hour_ : Z; minute_ : Z }.
Record DayComposer := mkDay { dcomp : list Z; namedMonth_ : Z; isIsoDate_ : bool }.

Definition new_time : TimeComposer := mkTime [] kNone.
Definition new_zone : TimeZoneComposer := mkZone kNone kNone kNone.
Definition new_day : DayComposer := mkDay [] kNone false.

Definition isMinute (x : Z) : bool := between x 0 59.
Definition isHour (x : Z) : bool := between x 0 23.
Definition isSecond (x : Z) : bool := between x 0 59.
Definition isHour12 (x : Z) : bool := between x 0 12.
Definition isMillisecond (x : Z) : bool := between x 0 999.
Definition isMonth (x : Z) : bool := between x 1 12.
Definition isDay (x : Z) : bool := between x 1 31.

Definition time_isEmpty (t : TimeComposer) : bool := (length (tcomp t) =? 0)%nat.
Definition time_isExpecting (t : TimeComposer) (n : Z) : bool :=
  ((length (tcomp t) =? 1)%nat && isMinute n) || ((length (tcomp t) =? 2)%nat && isSecond n) || ((length (tcomp t) =? 3)%nat && isMillisecond n).

(** [None] where the source answers false. *)
Definition time_add (n : Z) (t : TimeComposer) : option TimeComposer :=
  if (4 <=? length (tcomp t))%nat then None else Some (mkTime (tcomp t ++ [n]) (hourOffset_ t)).

Definition time_fill (t : TimeComposer) : TimeComposer := mkTime (tcomp t ++ replicate (4 - length (tcomp t)) 0) (hourOffset_ t).

Definition time_addFinal (n : Z) (t : TimeComposer) : option TimeComposer := let? t := time_add n t in Some (time_fill t).

Definition time_write (t : TimeComposer) (out : DateFields) : option DateFields :=
  match tcomp (time_fill t) with
  | [hour; minute; second; millisecond] =>
      let? hour := (if hourOffset_ t =? kNone then Some hour
                    else if negb (isHour12 hour) then None else Some (Z.rem hour 12 + hourOffset_ t)) in
      if (negb (isHour hour) || negb (isMinute minute) || negb (isSecond second) || negb (isMillisecond millisecond)) &&
         (negb (hour =? 24) || negb (minute =? 0) || negb (second =? 0) || negb (millisecond =? 0)) then None
      else Some (mkFields (fyear out) (fmonth out) (fday out) hour minute second millisecond (hasOffset out) (offsetSeconds out))
  | _ => None
  end.

Definition zone_set (h : Z) : TimeZoneComposer := let s := if h <? 0 then -1 else 1 in mkZone s (h * s) 0.
Definition zone_setSign (s : Z) (z : TimeZoneComposer) : TimeZoneComposer := mkZone (if s <? 0 then -1 else 1) (hour_ z) (minute_ z).
Definition zone_setHour (h : Z) (z : TimeZoneComposer) : TimeZoneComposer := mkZone (sign_ z) h (minute_ z).
Definition zone_setMinute (m : Z) (z : TimeZoneComposer) : TimeZoneComposer := mkZone (sign_ z) (hour_ z) m.
Definition zone_isExpecting (z : TimeZoneComposer) (n : Z) : bool := negb (hour_ z =? kNone) && (minute_ z =? kNone) && isMinute n.
Definition zone_isUtc (z : TimeZoneComposer) : bool := (hour_ z =? 0) && (minute_ z =? 0).
Definition zone_isEmpty (z : TimeZoneComposer) : bool := hour_ z =? kNone.

Definition zone_write (z : TimeZoneComposer) (out : DateFields) : option DateFields :=
  let put has off := mkFields (fyear out) (fmonth out) (fday out) (fhour out) (fminute out) (fsecond out) (fmillisecond out) has off in
  if sign_ z =? kNone then Some (put false (offsetSeconds out))
  else
    let hour := if hour_ z =? kNone then 0 else hour_ z in
    let minute := if minute_ z =? kNone then 0 else minute_ z in
    let totalSeconds := u32 (u32 hour * 3600 + u32 minute * 60) in
    if 2147483647 <? totalSeconds then None
    else Some (put true (if sign_ z <? 0 then - totalSeconds else totalSeconds)).

Definition day_isEmpty (d : DayComposer) : bool := (length (dcomp d) =? 0)%nat.
Definition day_add (n : Z) (d : DayComposer) : option DayComposer :=
  if (3 <=? length (dcomp d))%nat then None else Some (mkDay (dcomp d ++ [n]) (namedMonth_ d) (isIsoDate_ d)).

(** The year, month and day of the three components.  Filling them up leaves the index at
    three, which the tests of the index see. *)
Definition day_order (named : Z) (iso : bool) (a b c : Z) : Z * Z * Z :=
  if named =? kNone then
    if iso || negb (isDay a) then (a, b, c) else (c, a, b)
  else if negb (isDay a) then (a, named, b) else (b, named, a).

Definition day_write (d : DayComposer) (out : DateFields) : option DateFields :=
  match dcomp d with
  | [] => None
  | comp =>
      match comp ++ replicate (3 - length comp) 1 with
      | [a; b; c] =>
          let '(year, month, day) := day_order (namedMonth_ d) (isIsoDate_ d) a b c in
          let year := if isIsoDate_ d then year
                      else if between year 0 49 then year + 2000 else if between year 50 99 then year + 1900 else year in
          if negb (isMonth month) || negb (isDay day) then None
          else Some (mkFields year (month - 1) day (fhour out) (fminute out) (fsecond out) (fmillisecond out) (hasOffset out) (offsetSeconds out))
      | _ => None
      end
  end.

(** ** The parser's state *)

Record PState := mkP { scanner : Tokenizer; pday : DayComposer; ptime : TimeComposer; ptz : TimeZoneComposer }.

Definition tok_next (s : Tokenizer) : Token * Tokenizer := (next_ s, tokenizer (in_ s)).
Definition tok_skipSymbol (c : Z) (s : Tokenizer) : bool * Tokenizer := if isSymbol c (next_ s) then (true, tokenizer (in_ s)) else (false, s).

(** Code that changes the state and may return a token early. *)
Definition P (A : Type) : Type := PState -> (Token + A) * PState.
Definition ret {A} (x : A) : P A := fun s => (inr x, s).
Definition leave {A} (t : Token) : P A := fun s => (inl t, s).
Definition bind {A B} (m : P A) (k : A -> P B) : P B := fun s => match m s with (inr x, s') => k x s' | (inl t, s') => (inl t, s') end.
Notation "'let!' x := m 'in' k" := (bind m (fun x => k)) (at level 10, x pattern, m at level 100, k at level 200).
Notation "'do!' m 'in' k" := (bind m (fun _ => k)) (at level 10, m at level 100, k at level 200).

Definition peek : P Token := fun s => (inr (next_ (scanner s)), s).
Definition next : P Token := fun s => let '(t, sc) := tok_next (scanner s) in (inr t, mkP sc (pday s) (ptime s) (ptz s)).
Definition skipSymbol (c : Z) : P bool := fun s => let '(b, sc) := tok_skipSymbol c (scanner s) in (inr b, mkP sc (pday s) (ptime s) (ptz s)).
(** The results of [add] that the source does not look at: a full composer stays as it is. *)
Definition dayAdd (n : Z) : P unit := fun s => (inr tt, mkP (scanner s) (default (pday s) (day_add n (pday s))) (ptime s) (ptz s)).
Definition timeAdd (n : Z) : P unit := fun s => (inr tt, mkP (scanner s) (pday s) (default (ptime s) (time_add n (ptime s))) (ptz s)).
Definition timeAddFinal (n : Z) : P unit := fun s => (inr tt, mkP (scanner s) (pday s) (default (ptime s) (time_addFinal n (ptime s))) (ptz s)).
Definition setTz (f : TimeZoneComposer -> TimeZoneComposer) : P unit := fun s => (inr tt, mkP (scanner s) (pday s) (ptime s) (f (ptz s))).
Definition setDay (f : DayComposer -> DayComposer) : P unit := fun s => (inr tt, mkP (scanner s) (f (pday s)) (ptime s) (ptz s)).
Definition setTime (f : TimeComposer -> TimeComposer) : P unit := fun s => (inr tt, mkP (scanner s) (pday s) (f (ptime s)) (ptz s)).
Definition getDay : P DayComposer := fun s => (inr (pday s), s).
Definition getTime : P TimeComposer := fun s => (inr (ptime s), s).
Definition getTz : P TimeZoneComposer := fun s => (inr (ptz s), s).

(** [return scanner.next();] and [if (!b) return Token::invalid();] *)
Definition leave_next {A} : P A := let! t := next in leave t.
Definition unless (b : bool) : P unit := if b then ret tt else leave invalid.

(** ** The ES5 pass *)

(** A two-digit month or day after a hyphen that was read. *)
Definition es5_component (ok : Z -> bool) : P unit :=
  let! t := peek in
  if negb (isFixedLengthNumber 2 t) || negb (ok (value t)) then leave_next
  else let! t := next in dayAdd (value t).

Definition es5_year : P unit :=
  let! t := peek in
  if isAsciiSign t then
    let! signToken := next in
    let! y := peek in
    if negb (isFixedLengthNumber 6 y) then leave signToken
    else
      let sign := asciiSign signToken in
      let! y := next in
      if (sign <? 0) && (value y =? 0) then leave signToken else dayAdd (sign * value y)
  else if isFixedLengthNumber 4 t then let! y := next in dayAdd (value y)
  else leave_next.

Definition es5_date : P unit :=
  do! es5_year in
  let! dash := skipSymbol 45 in
  if dash then
    do! es5_component isMonth in
    let! dash := skipSymbol 45 in
    if dash then es5_component isDay else ret tt
  else ret tt.

Definition es5_zone : P unit :=
  let! t := peek in
  if isKeywordZ t then do! next in setTz (fun _ => zone_set 0)
  else if isSymbol 43 t || isSymbol 45 t then
    let! s := next in
    do! setTz (zone_setSign (if value s =? 43 then 1 else -1)) in
    let! t := peek in
    if isFixedLengthNumber 4 t then
      let! t := next in
      let hour := Z.quot (value t) 100 in
      let min := Z.rem (value t) 100 in
      do! unless (isHour hour && isMinute min) in
      do! setTz (zone_setHour hour) in setTz (zone_setMinute min)
    else
      do! unless (isFixedLengthNumber 2 t && isHour (value t)) in
      let! h := next in
      do! setTz (zone_setHour (value h)) in
      let! colon := skipSymbol 58 in
      do! unless colon in
      let! t := peek in
      do! unless (isFixedLengthNumber 2 t && isMinute (value t)) in
      let! m := next in setTz (zone_setMinute (value m))
  else ret tt.

Definition es5_time : P unit :=
  let! t := peek in
  if negb (isKeywordType TimeSeparator t) then
    if negb (isTag EndOfInput t) then leave_next else ret tt
  else
    do! next in
    let! t := peek in
    do! unless (isFixedLengthNumber 2 t && between (value t) 0 24) in
    let hourIs24 := value t =? 24 in
    let! h := next in
    do! timeAdd (value h) in
    let! colon := skipSymbol 58 in
    do! unless colon in
    let! t := peek in
    do! unless (isFixedLengthNumber 2 t && isMinute (value t) && negb (hourIs24 && (0 <? value t))) in
    let! m := next in
    do! timeAdd (value m) in
    let! colon := skipSymbol 58 in
    do! (if colon then
           let! t := peek in
           do! unless (isFixedLengthNumber 2 t && isSecond (value t) && negb (hourIs24 && (0 <? value t))) in
           let! s := next in
           do! timeAdd (value s) in
           let! dot := skipSymbol 46 in
           if dot then
             let! t := peek in
             do! unless (isNumber t && negb (hourIs24 && (0 <? value t))) in
             let! ms := next in timeAdd (readMilliseconds ms)
           else ret tt
         else ret tt) in
    do! es5_zone in
    let! t := peek in
    unless (isTag EndOfInput t).

Definition parseEs5DateTime : P Token :=
  do! es5_date in
  do! es5_time in
  let! tz := getTz in
  let! time := getTime in
  do! (if zone_isEmpty tz && time_isEmpty time then setTz (fun _ => zone_set 0) else ret tt) in
  do! setDay (fun d => mkDay (dcomp d) (namedMonth_ d) true) in
  ret endOfInput.

(** ** The legacy loop *)

(** A turn answers whether a number has been read; [leave invalid] is [return false]. *)
Definition refuse {A} : P A := leave invalid.

Definition legacy_number (n : Z) : P unit :=
  let! colon := skipSymbol 58 in
  if colon then
    let! colon := skipSymbol 58 in
    if colon then
      let! time := getTime in
      if negb (time_isEmpty time) then refuse else do! timeAdd n in timeAdd 0
    else
      let! time := getTime in
      if time_add n time then
        do! timeAdd n in
        let! t := peek in
        if isSymbol 46 t then do! next in ret tt else ret tt
      else refuse
  else
    let! dot := skipSymbol 46 in
    let! time := getTime in
    if dot && time_isExpecting time n then
      do! timeAdd n in
      let! t := peek in
      if negb (isNumber t) then refuse
      else
        let! t := next in
        let ms := readMilliseconds t in
        if ms <? 0 then refuse else timeAddFinal ms
    else
      let! tz := getTz in
      if zone_isExpecting tz n then setTz (zone_setMinute n)
      else if time_isExpecting time n then
        do! timeAddFinal n in
        let! t := peek in
        if negb (isTag EndOfInput t) && negb (isTag WhiteSpace t) && negb (isKeywordZ t) && negb (isAsciiSign t) then refuse else ret tt
      else
        let! d := getDay in
        if day_add n d then do! dayAdd n in do! skipSymbol 45 in ret tt else refuse.

Definition legacy_keyword (hasReadNumber : bool) (type : KeywordType) (v : Z) : P unit :=
  let! time := getTime in
  if bool_decide (type = AmPm) && negb (time_isEmpty time) then setTime (fun t => mkTime (tcomp t) v)
  else if bool_decide (type = MonthName) then
    do! setDay (fun d => mkDay (dcomp d) v (isIsoDate_ d)) in
    do! skipSymbol 45 in ret tt
  else if bool_decide (type = TimeZoneName) && hasReadNumber then setTz (fun _ => zone_set v)
  else if hasReadNumber then refuse
  else
    let! t := peek in
    if isNumber t then refuse else ret tt.

Definition legacy_sign (sign : Z) : P unit :=
  do! setTz (zone_setSign sign) in
  let! t := peek in
  let! nl := (if isNumber t then let! t := next in ret (value t, tlength t) else ret (0, 0)) in
  let '(n, length) := nl : Z * Z in
  let! t := peek in
  if isSymbol 58 t then do! setTz (zone_setHour n) in setTz (zone_setMinute kNone)
  else if (length =? 2) || (length =? 1) then do! setTz (zone_setHour n) in setTz (zone_setMinute 0)
  else if (length =? 4) || (length =? 3) then do! setTz (zone_setHour (Z.quot n 100)) in setTz (zone_setMinute (Z.rem n 100))
  else refuse.

Definition legacy_token (hasReadNumber : bool) (token : Token) : P bool :=
  if isNumber token then do! legacy_number (value token) in ret true
  else if isTag Keyword token then do! legacy_keyword hasReadNumber (keyword token) (value token) in ret hasReadNumber
  else
    let! tz := getTz in
    let! time := getTime in
    if isAsciiSign token && (zone_isUtc tz || negb (time_isEmpty time)) then do! legacy_sign (asciiSign token) in ret true
    else if (isAsciiSign token || isSymbol 41 token) && hasReadNumber then refuse
    else ret hasReadNumber.

(** [None] when the fuel runs out; otherwise whether the loop ran to its end, and the
    state. *)
Fixpoint legacy_loop (fuel : nat) (hasReadNumber : bool) (token : Token) (s : PState) : option (bool * PState) :=
  match fuel with
  | O => None
  | S fuel =>
      if isTag EndOfInput token then Some (true, s)
      else
        match legacy_token hasReadNumber token s with
        | (inl _, s) => Some (false, s)
        | (inr hasReadNumber, s) => let '(token, sc) := tok_next (scanner s) in legacy_loop fuel hasReadNumber token (mkP sc (pday s) (ptime s) (ptz s))
        end
  end.

Definition no_fields : DateFields := mkFields 0 0 0 0 0 0 0 false 0.

Definition start (text : list Z) : PState := mkP (tokenizer (input text)) new_day new_time new_zone.

(** The token the ES5 pass leaves, and the state. *)
Definition es5_pass (text : list Z) : Token * PState :=
  match parseEs5DateTime (start text) with (inl t, s) => (t, s) | (inr t, s) => (t, s) end.

(** A turn reads a token, and a token a character. *)
Definition parse_fuel (text : list Z) : nat := length text + 3.

Definition write_all (s : PState) : option DateFields :=
  let? out := day_write (pday s) no_fields in
  let? out := time_write (ptime s) out in
  zone_write (ptz s) out.

Definition parseFields (text : list Z) : option DateFields :=
  let '(nextUnhandled, s) := es5_pass text in
  if isTag TInvalid nextUnhandled then None
  else
    match legacy_loop (parse_fuel text) (negb (day_isEmpty (pday s))) nextUnhandled s with
    | Some (true, s) => write_all s
    | _ => None
    end.

Section Zone.
Context (localtime_r gmtime_r : Z -> option tm).

Definition kMaxTimeBeforeUtc : double := dadd kMaxTimeValue (dmul (of_int 10) kMsPerDay).

Definition parse (text : list Z) : double :=
  match parseFields text with
  | None => dnan
  | Some f =>
      let dayValue := makeDay (of_int (fyear f)) (of_int (fmonth f)) (of_int (fday f)) in
      let timeValue := makeTime (of_int (fhour f)) (of_int (fminute f)) (of_int (fsecond f)) (of_int (fmillisecond f)) in
      let date := makeDate dayValue timeValue in
      if hasOffset f then timeClip (dsub date (dmul (of_int (offsetSeconds f)) kMsPerSecond))
      else if negb (dle (dneg kMaxTimeBeforeUtc) date && dle date kMaxTimeBeforeUtc) then dnan
      else timeClip (utcFromLocal localtime_r gmtime_r date)
  end.
End Zone.

(** ** The parser ends

    A turn of the legacy loop reads a token, and a token takes a character: the fuel of the
    loops is never what stops them. *)

(** The characters that are left, the current one too. *)
Definition left_ (i : Input) : nat := if isEnd i then 0 else S (length (rest i)).

Lemma left_next i : (left_ (in_next i) <= length (rest i))%nat.
Proof.
  unfold left_, in_next. destruct (rest i) as [|b r]; [done|]. cbn [length].
  cbn zeta beta. repeat case_match; cbn [rest isEnd ch_]; rewrite ?length_drop; repeat case_match; lia.
Qed.


(** A character that is not the end is passed. *)
Lemma left_passed i : isEnd i = false -> (left_ (in_next i) < left_ i)%nat.
Proof. intros E. pose proof (left_next i). unfold left_ at 2. rewrite E. lia. Qed.

Lemma left_fuel i : (left_ i <= in_fuel i)%nat.
Proof. unfold left_, in_fuel. destruct (isEnd i); lia. Qed.

(** A loop that passes characters comes to its end, past those it was entered for. *)
Lemma while_passes {S} (m : S -> nat) fuel cond (body : S -> S) s :
  (forall s, cond s = true -> (m (body s) < m s)%nat) -> (m s <= fuel)%nat ->
  returns (fun s' => cond s' = false /\ (m s' <= m s)%nat /\ (cond s = true -> (m s' < m s)%nat) /\ (cond s = false -> s' = s))
    (while_run fuel cond body s).
Proof.
  intros Hstep. revert s. induction fuel as [|fuel IH]; intros s Hf; cbn; destruct (cond s) eqn:E.
  - pose proof (Hstep s E). lia.
  - apply returns_some. by split_and!.
  - pose proof (Hstep s E). eapply returns_mono; [apply (IH (body s)); lia|]. intros s' (? & ? & _). split_and!; [done|lia|lia|done].
  - apply returns_some. by split_and!.
Qed.

Lemma passes_digit i : isAsciiDigit i = true -> isEnd i = false.
Proof. unfold isAsciiDigit, isAsciiDigitCp, isEnd. lia. Qed.

Lemma numeral_passes i : isAsciiDigit i = true -> returns (fun r => (left_ r.2 < left_ i)%nat) (readUnsignedNumeral i).
Proof.
  intros Hi. unfold readUnsignedNumeral, zeros. eapply returns_bind.
  { apply (while_passes left_ (in_fuel i) (fun i => ch_ i =? 48) in_next i); [|apply left_fuel].
    intros j Hj. apply left_passed. unfold isEnd. lia. }
  intros z (_ & Hle & Hlt & Heq). eapply returns_bind.
  { apply (while_passes (fun s : Z * Z * Input => left_ s.2) (in_fuel z) (fun s => isAsciiDigit s.2) numeral_step (0, 0, z)); [|apply left_fuel].
    intros [[a b] k] Hk. apply left_passed, passes_digit, Hk. }
  intros [[n k] j] (_ & Hl & Hs & _). apply returns_some. cbn [snd] in *.
  destruct (ch_ i =? 48) eqn:E; [specialize (Hlt eq_refl); lia|]. rewrite (Heq eq_refl) in *. specialize (Hs Hi). lia.
Qed.

Lemma word_passes i : isAsciiAlphaOrAbove i && negb (isWhiteSpaceChar i) = true -> returns (fun r => (left_ r.2 < left_ i)%nat) (readWord i).
Proof.
  intros Hi. unfold readWord. eapply returns_bind.
  { apply (while_passes (fun s : list Z * Z * Input => left_ s.2) (in_fuel i) word_cond word_step ([], 0, i)); [|apply left_fuel].
    intros [[a b] k] Hk. apply left_passed. apply andb_true_iff in Hk as [Hk _]. unfold isEnd, isAsciiAlphaOrAbove in *. cbn [snd] in *. lia. }
  intros [[p l] j] (_ & _ & Hs & _). apply returns_some. by apply Hs.
Qed.

Lemma parens_pass i : returns (fun r => r.1 = true -> (left_ r.2 < left_ i)%nat) (skipParentheses i).
Proof.
  unfold skipParentheses. destruct (Z.eqb_spec (ch_ i) 40) as [E|]; [|by apply returns_some]. cbn [negb].
  assert (Hi : isEnd i = false) by (unfold isEnd; lia). pose proof (left_passed i Hi) as Hp. pose proof (left_fuel i).
  eapply returns_bind.
  { apply (while_passes (fun s : Z * Input => left_ s.2)); [|change (paren_step (0, i)).2 with (in_next i); lia].
    intros [n k] Hk. apply left_passed. apply andb_true_iff in Hk as [_ Hk]. cbn [snd] in Hk. unfold isEnd. by apply negb_true_iff. }
  intros [n j] (_ & Hl & _). apply returns_some. intros _. change (paren_step (0, i)).2 with (in_next i) in Hl. cbn [snd] in *. lia.
Qed.

(** A token takes a character, and only the end has none to take. *)
Lemma scan_run_passes i : returns (fun r => (isEnd i = true /\ r = (endOfInput, i)) \/ (left_ r.2 < left_ i)%nat) (scan_run i).
Proof.
  unfold scan_run. destruct (isEnd i) eqn:E; [apply returns_some; by left|]. pose proof (left_passed i E). destruct (isAsciiDigit i) eqn:Ed.
  { eapply returns_bind; [by apply numeral_passes|]. intros [n j] Hj. apply returns_some. by right. }
  unfold scan_symbol. destruct (List.find _ _); [apply returns_some; by right|].
  destruct (isAsciiAlphaOrAbove i && negb (isWhiteSpaceChar i)) eqn:Ew.
  { eapply returns_bind; [by apply word_passes|]. intros [[p l] j] Hj. destruct (lookupKeyword p l); apply returns_some; by right. }
  unfold skipWhiteSpace. destruct (isWhiteSpaceOrLineTerminatorCp (ch_ i)); [apply returns_some; by right|].
  eapply returns_bind; [apply parens_pass|]. intros [[] j] Hj; apply returns_some; right; [by apply Hj|done].
Qed.

Lemma scan_passes i : (isEnd i = true /\ scan i = (endOfInput, i)) \/ (left_ (scan i).2 < left_ i)%nat.
Proof. unfold scan. by destruct (scan_run_passes i) as (r & -> & H). Qed.

(** What is left of the tokens. *)
Definition todo (k : Tokenizer) : nat := left_ (in_ k) + (if isTag EndOfInput (next_ k) then 0 else 1).

Lemma todo_tokenizer i : (todo (tokenizer i) <= left_ i)%nat.
Proof.
  unfold todo, tokenizer. destruct (scan_passes i) as [[E ->]|H]; [|].
  - change (left_ i + 0 <= left_ i)%nat. lia.
  - destruct (scan i) as [t j]. cbn [snd in_ next_] in *. destruct (isTag _ _); lia.
Qed.

Lemma todo_next k : (todo (tokenizer (in_ k)) <= todo k)%nat.
Proof. pose proof (todo_tokenizer (in_ k)). unfold todo at 2. lia. Qed.

(** Code that only reads forward. *)
Definition forward {A} (m : P A) : Prop := forall s, (todo (scanner (m s).2) <= todo (scanner s))%nat.

Lemma forward_ret {A} (x : A) : forward (ret x). Proof. intros s. done. Qed.
Lemma forward_leave {A} t : forward (@leave A t). Proof. intros s. done. Qed.
Lemma forward_bind {A B} (m : P A) (k : A -> P B) : forward m -> (forall x, forward (k x)) -> forward (bind m k).
Proof.
  intros Hm Hk s. unfold bind. specialize (Hm s). destruct (m s) as [[t|x] s'] eqn:E; cbn in *; [done|]. specialize (Hk x s'). lia.
Qed.
Lemma forward_next : forward next. Proof. intros s. cbn. apply todo_next. Qed.
Lemma forward_skip c : forward (skipSymbol c).
Proof. intros s. unfold skipSymbol, tok_skipSymbol. destruct (isSymbol _ _); [apply todo_next|done]. Qed.
#[local] Hint Resolve forward_ret forward_leave forward_next forward_skip : forward.

Ltac forward :=
  repeat first [ progress auto with forward | apply forward_bind; [|intros ?] | (intros ?; cbn; reflexivity)
               | match goal with |- forward (if ?b then _ else _) => destruct b end
               | match goal with |- forward (match ?b with _ => _ end) => destruct b end ].

Lemma forward_token b t : forward (legacy_token b t).
Proof.
  unfold legacy_token, legacy_number, legacy_keyword, legacy_sign, refuse. forward.
Qed.

Lemma forward_es5 : forward parseEs5DateTime.
Proof.
  unfold parseEs5DateTime, es5_date, es5_year, es5_component, es5_time, es5_zone, leave_next, unless. forward.
Qed.

(** A run that ends is not changed by more fuel. *)
Lemma loop_more f f' b tok s r : legacy_loop f b tok s = Some r -> (f <= f')%nat -> legacy_loop f' b tok s = Some r.
Proof.
  revert f' b tok s. induction f as [|f IH]; intros f' b tok s H Hf; [done|]. destruct f' as [|f']; [lia|]. cbn [legacy_loop] in *.
  destruct (isTag EndOfInput tok); [done|]. destruct (legacy_token b tok s) as [[t|b'] s']; [done|]. cbn in *. apply IH; [done|lia].
Qed.

Lemma loop_ends f b tok s : (todo (scanner s) + 2 <= f)%nat -> exists r, legacy_loop f b tok s = Some r.
Proof.
  revert b tok s. induction f as [|f IH]; intros b tok s Hf; [lia|]. cbn [legacy_loop]. destruct (isTag EndOfInput tok); [eauto|].
  pose proof (forward_token b tok s) as Hw. destruct (legacy_token b tok s) as [[t|b'] s']; [eauto|]. cbn [snd] in Hw. cbn [tok_next].
  destruct (isTag EndOfInput (next_ (scanner s'))) eqn:E.
  - destruct f as [|f]; [lia|]. cbn [legacy_loop]. rewrite E. eauto.
  - apply IH. cbn [scanner]. pose proof (todo_tokenizer (in_ (scanner s'))). unfold todo at 1 in Hw. rewrite E in Hw. lia.
Qed.

(** C13: Date.parse ends on every text, malformed or not: wherever the tokenizer stands,
    its loops over zeros, digits, letters and parentheses come to their ends with a turn
    for each byte that is left and one more ([None], which a loop that does not answers, is
    excluded); and the legacy loop, started on what the ES5 pass leaves, comes to its end
    or refuses the text within three turns more than the text has bytes, and no more turns
    change what it answers. *)
Theorem parse_ends text (p := es5_pass text) :
  (forall i, exists r, scan_run i = Some r) /\
  exists r, forall fuel, (parse_fuel text <= fuel)%nat -> legacy_loop fuel (negb (day_isEmpty (pday p.2))) p.1 p.2 = Some r.
Proof.
  split; [intros i; destruct (scan_run_passes i) as (r & Hr & _); eauto|].
  assert (Hp : (todo (scanner p.2) <= length text)%nat).
  { pose proof (forward_es5 (start text)) as H. unfold p, es5_pass. etransitivity; [|etransitivity; [exact H|]].
    - destruct (parseEs5DateTime (start text)) as [[t|t] s]; done.
    - cbn [start scanner]. etransitivity; [apply todo_tokenizer|]. unfold input. etransitivity; [apply left_next|]. done. }
  destruct (loop_ends (parse_fuel text) (negb (day_isEmpty (pday p.2))) p.1 p.2) as [r Hr]; [unfold parse_fuel; lia|].
  exists r. intros fuel Hf. by apply (loop_more (parse_fuel text)).
Qed.
