(* ===== verification/DateText.v ===== *)
(** * The text of dates (src/src/runtime/date_text.cpp, date.h)

    What the string methods of dates and [Intl.DateTimeFormat] print, and the time zones
    they resolve.  A text is its bytes; the zone of the host and the zone database are
    arguments. *)
From stdpp Require Import list strings.
From S2P Require Import Prelude Float64 DoubleArith DateMath.
Local Open Scope Z_scope.
Local Open Scope bool_scope.

Notation text := (list Z).

Definition kWeekdayShort : list string := ["Sun"; "Mon"; "Tue"; "Wed"; "Thu"; "Fri"; "Sat"]%string.
Definition kWeekdayLong : list string := ["Sunday"; "Monday"; "Tuesday"; "Wednesday"; "Thursday"; "Friday"; "Saturday"]%string.
Definition kWeekdayNarrow : list string := ["S"; "M"; "T"; "W"; "T"; "F"; "S"]%string.
Definition kMonthShort : list string := ["Jan"; "Feb"; "Mar"; "Apr"; "May"; "Jun"; "Jul"; "Aug"; "Sep"; "Oct"; "Nov"; "Dec"]%string.
Definition kMonthLong : list string :=
  ["January"; "February"; "March"; "April"; "May"; "June"; "July"; "August"; "September"; "October"; "November"; "December"]%string.
Definition kMonthNarrow : list string := ["J"; "F"; "M"; "A"; "M"; "J"; "J"; "A"; "S"; "O"; "N"; "D"]%string.

(** An entry of a table of names, at an index that a double holds. *)
Definition name_at (table : list string) (i : double) : text := bytes (nth (Z.to_nat (to_int i)) table EmptyString).

(** The decimal digits of a number, the last one first; twenty are enough for 64 bits. *)
Fixpoint digits_rev (fuel : nat) (n : Z) : text :=
  match fuel with
  | O => []
  | S fuel => (48 + n mod 10) :: (if n / 10 =? 0 then [] else digits_rev fuel (n / 10))
  end.

Definition pad (value : double) (width : nat) : text :=
  let digits := digits_rev 20 (u64 (to_int value)) in
  rev (digits ++ replicate (width - length digits) 48).

Definition yearField (t : double) : text :=
  let y := yearFromTime t in
  if dlt y (of_int 0) then bytes "-" ++ pad (dneg y) 4 else pad y 4.

Definition dateString (t : double) : text :=
  name_at kWeekdayShort (weekDay t) ++ bytes " " ++ name_at kMonthShort (monthFromTime t) ++ bytes " " ++ pad (dateFromTime t) 2 ++ bytes " " ++ yearField t.

Definition timeString (t : double) : text :=
  pad (hourFromTime t) 2 ++ bytes ":" ++ pad (minFromTime t) 2 ++ bytes ":" ++ pad (secFromTime t) 2 ++ bytes " GMT".

Definition isoString (t : double) : option text :=
  if isnan t then None
  else
    let y := yearFromTime t in
    let year :=
      if dlt y (of_int 0) then bytes "-" ++ pad (dneg y) 6
      else if dlt (of_int 9999) y then bytes "+" ++ pad y 6
      else pad y 4 in
    Some (year ++ bytes "-" ++ pad (dadd (monthFromTime t) (of_int 1)) 2 ++ bytes "-" ++ pad (dateFromTime t) 2 ++ bytes "T" ++
          pad (hourFromTime t) 2 ++ bytes ":" ++ pad (minFromTime t) 2 ++ bytes ":" ++ pad (secFromTime t) 2 ++ bytes "." ++ pad (msFromTime t) 3 ++ bytes "Z").

Definition utcString (tv : double) : text :=
  if isnan tv then bytes "Invalid Date"
  else
    name_at kWeekdayShort (weekDay tv) ++ bytes ", " ++ pad (dateFromTime tv) 2 ++ bytes " " ++ name_at kMonthShort (monthFromTime tv) ++
    bytes " " ++ yearField tv ++ bytes " " ++ timeString tv.

Definition inspectString (tv : double) : text := default (bytes "Invalid Date") (isoString tv).

(** ** Names of zones *)

Definition asciiToLower (c : Z) : Z := if (65 <=? c) && (c <=? 90) then c + 32 else c.
Definition iequals (a b : text) : bool := bool_decide (map asciiToLower a = map asciiToLower b).
Definition isDigit (c : Z) : bool := (48 <=? c) && (c <=? 57).

(** [%02d] of a number under a hundred. *)
Definition two_digits (n : Z) : text := [48 + n / 10; 48 + n mod 10].

(** [std::to_string] of an [int]. *)
Definition int_text (n : Z) : text := (if n <? 0 then bytes "-" else []) ++ rev (digits_rev 20 (Z.abs n)).

(** The hours and the minutes of an offset. *)
Definition offset_fields (s : text) : option (Z * Z) :=
  match s with
  | [_; a; b] => if isDigit a && isDigit b then Some ((a - 48) * 10 + (b - 48), 0) else None
  | [_; a; b; c; d] => if isDigit a && isDigit b && isDigit c && isDigit d then Some ((a - 48) * 10 + (b - 48), (c - 48) * 10 + (d - 48)) else None
  | [_; a; b; e; c; d] =>
      if isDigit a && isDigit b && (e =? 58) && isDigit c && isDigit d then Some ((a - 48) * 10 + (b - 48), (c - 48) * 10 + (d - 48)) else None
  | _ => None
  end.

(** The canonical name and the offset. *)
Definition parseIsoOffsetTimeZone (s : text) : option (text * double) :=
  match s with
  | signChar :: _ =>
      if negb (signChar =? 43) && negb (signChar =? 45) then None
      else
        let? (hh, mm) := offset_fields s in
        if (hh <? 0) || (23 <? hh) || (mm <? 0) || (59 <? mm) then None
        else
          let totalMinutes := hh * 60 + mm in
          let normSign := if totalMinutes =? 0 then 43 else signChar in
          let magMs := dadd (dmul (of_int hh) kMsPerHour) (dmul (of_int mm) kMsPerMinute) in
          Some ([normSign] ++ two_digits hh ++ [58] ++ two_digits mm, if normSign =? 45 then dneg magMs else magMs)
  | [] => None
  end.

(** The number of some digits. *)
Definition read_digits (s : text) : option Z :=
  if forallb isDigit s then Some (fold_left (fun h c => h * 10 + (c - 48)) s 0) else None.

Definition parseEtcGmtTimeZone (s : text) : option (text * double) :=
  if (length s <=? 7)%nat then None
  else if negb (iequals (take 7 s) (bytes "etc/gmt")) then None
  else
    let rest := drop 7 s in
    if bool_decide (rest = bytes "0") || bool_decide (rest = bytes "+0") || bool_decide (rest = bytes "-0") then Some (bytes "UTC", of_int 0)
    else if (length rest <? 2)%nat || (3 <? length rest)%nat then None
    else
      match rest with
      | signChar :: ds =>
          if negb (signChar =? 43) && negb (signChar =? 45) then None
          else
            let? hours := read_digits ds in
            if (hours <? 1) || (14 <? hours) then None
            else if (length rest =? 3)%nat && (nth 1%nat rest 0 =? 48) then None
            else Some (bytes "Etc/GMT" ++ [signChar] ++ int_text hours,
                       if signChar =? 45 then dmul (of_int hours) kMsPerHour else dmul (dneg (of_int hours)) kMsPerHour)
      | [] => None
      end.

Record IanaZoneEntry := mkIana { alias : string; canonical : string; fallbackStandardOffsetMinutes : Z }.

Definition kKnownIanaZones : list IanaZoneEntry := [
  mkIana "Asia/Tokyo" "Asia/Tokyo" 540; mkIana "Japan" "Asia/Tokyo" 540;
  mkIana "Asia/Seoul" "Asia/Seoul" 540; mkIana "ROK" "Asia/Seoul" 540;
  mkIana "Asia/Shanghai" "Asia/Shanghai" 480; mkIana "Asia/Chongqing" "Asia/Shanghai" 480;
  mkIana "PRC" "Asia/Shanghai" 480; mkIana "Asia/Hong_Kong" "Asia/Hong_Kong" 480;
  mkIana "Hongkong" "Asia/Hong_Kong" 480; mkIana "Asia/Taipei" "Asia/Taipei" 480;
  mkIana "Asia/Singapore" "Asia/Singapore" 480; mkIana "Singapore" "Asia/Singapore" 480;
  mkIana "Asia/Manila" "Asia/Manila" 480; mkIana "Asia/Bangkok" "Asia/Bangkok" 420;
  mkIana "Asia/Ho_Chi_Minh" "Asia/Ho_Chi_Minh" 420; mkIana "Asia/Saigon" "Asia/Ho_Chi_Minh" 420;
  mkIana "Asia/Jakarta" "Asia/Jakarta" 420; mkIana "Asia/Kolkata" "Asia/Kolkata" 330;
  mkIana "Asia/Calcutta" "Asia/Kolkata" 330; mkIana "Asia/Kathmandu" "Asia/Kathmandu" 345;
  mkIana "Asia/Katmandu" "Asia/Kathmandu" 345; mkIana "Asia/Dhaka" "Asia/Dhaka" 360;
  mkIana "Asia/Karachi" "Asia/Karachi" 300; mkIana "Asia/Tashkent" "Asia/Tashkent" 300;
  mkIana "Asia/Dubai" "Asia/Dubai" 240; mkIana "Asia/Tehran" "Asia/Tehran" 210;
  mkIana "Asia/Baghdad" "Asia/Baghdad" 180; mkIana "Asia/Riyadh" "Asia/Riyadh" 180;
  mkIana "Asia/Jerusalem" "Asia/Jerusalem" 120; mkIana "Israel" "Asia/Jerusalem" 120;
  mkIana "Europe/London" "Europe/London" 0; mkIana "GB" "Europe/London" 0;
  mkIana "Europe/Dublin" "Europe/Dublin" 0; mkIana "Europe/Lisbon" "Europe/Lisbon" 0;
  mkIana "Europe/Paris" "Europe/Paris" 60; mkIana "Europe/Berlin" "Europe/Berlin" 60;
  mkIana "Europe/Madrid" "Europe/Madrid" 60; mkIana "Europe/Rome" "Europe/Rome" 60;
  mkIana "Europe/Amsterdam" "Europe/Amsterdam" 60; mkIana "Europe/Brussels" "Europe/Brussels" 60;
  mkIana "Europe/Vienna" "Europe/Vienna" 60; mkIana "Europe/Zurich" "Europe/Zurich" 60;
  mkIana "Europe/Stockholm" "Europe/Stockholm" 60; mkIana "Europe/Oslo" "Europe/Oslo" 60;
  mkIana "Europe/Copenhagen" "Europe/Copenhagen" 60; mkIana "Europe/Warsaw" "Europe/Warsaw" 60;
  mkIana "Europe/Prague" "Europe/Prague" 60; mkIana "Europe/Budapest" "Europe/Budapest" 60;
  mkIana "Europe/Athens" "Europe/Athens" 120; mkIana "Europe/Helsinki" "Europe/Helsinki" 120;
  mkIana "Europe/Bucharest" "Europe/Bucharest" 120; mkIana "Europe/Kyiv" "Europe/Kyiv" 120;
  mkIana "Europe/Kiev" "Europe/Kyiv" 120; mkIana "Europe/Istanbul" "Europe/Istanbul" 180;
  mkIana "Europe/Moscow" "Europe/Moscow" 180; mkIana "Africa/Cairo" "Africa/Cairo" 120;
  mkIana "Egypt" "Africa/Cairo" 120; mkIana "Africa/Johannesburg" "Africa/Johannesburg" 120;
  mkIana "Africa/Lagos" "Africa/Lagos" 60; mkIana "Africa/Nairobi" "Africa/Nairobi" 180;
  mkIana "Africa/Casablanca" "Africa/Casablanca" 60; mkIana "America/New_York" "America/New_York" (-300);
  mkIana "US/Eastern" "America/New_York" (-300); mkIana "America/Toronto" "America/Toronto" (-300);
  mkIana "America/Chicago" "America/Chicago" (-360); mkIana "US/Central" "America/Chicago" (-360);
  mkIana "America/Winnipeg" "America/Winnipeg" (-360); mkIana "America/Mexico_City" "America/Mexico_City" (-360);
  mkIana "America/Denver" "America/Denver" (-420); mkIana "US/Mountain" "America/Denver" (-420);
  mkIana "America/Phoenix" "America/Phoenix" (-420); mkIana "US/Arizona" "America/Phoenix" (-420);
  mkIana "America/Edmonton" "America/Edmonton" (-420); mkIana "America/Los_Angeles" "America/Los_Angeles" (-480);
  mkIana "US/Pacific" "America/Los_Angeles" (-480); mkIana "America/Vancouver" "America/Vancouver" (-480);
  mkIana "America/Anchorage" "America/Anchorage" (-540); mkIana "US/Alaska" "America/Anchorage" (-540);
  mkIana "Pacific/Honolulu" "Pacific/Honolulu" (-600); mkIana "US/Hawaii" "Pacific/Honolulu" (-600);
  mkIana "America/Halifax" "America/Halifax" (-240); mkIana "America/St_Johns" "America/St_Johns" (-210);
  mkIana "America/Sao_Paulo" "America/Sao_Paulo" (-180); mkIana "America/Argentina/Buenos_Aires" "America/Argentina/Buenos_Aires" (-180);
  mkIana "America/Buenos_Aires" "America/Argentina/Buenos_Aires" (-180); mkIana "America/Santiago" "America/Santiago" (-240);
  mkIana "America/Bogota" "America/Bogota" (-300); mkIana "America/Lima" "America/Lima" (-300);
  mkIana "America/Caracas" "America/Caracas" (-240); mkIana "Australia/Sydney" "Australia/Sydney" 600;
  mkIana "Australia/Melbourne" "Australia/Melbourne" 600; mkIana "Australia/Brisbane" "Australia/Brisbane" 600;
  mkIana "Australia/Adelaide" "Australia/Adelaide" 570; mkIana "Australia/Darwin" "Australia/Darwin" 570;
  mkIana "Australia/Perth" "Australia/Perth" 480; mkIana "Australia/Hobart" "Australia/Hobart" 600;
  mkIana "Pacific/Auckland" "Pacific/Auckland" 720; mkIana "NZ" "Pacific/Auckland" 720;
  mkIana "Pacific/Fiji" "Pacific/Fiji" 720; mkIana "Pacific/Guam" "Pacific/Guam" 600;
  mkIana "Atlantic/Reykjavik" "Atlantic/Reykjavik" 0; mkIana "Atlantic/Azores" "Atlantic/Azores" (-60)].

Definition findKnownIanaZone (input : text) : option IanaZoneEntry :=
  List.find (fun e => iequals input (bytes (alias e)) || iequals input (bytes (canonical e))) kKnownIanaZones.

Definition iana_char (c : Z) : bool :=
  ((65 <=? c) && (c <=? 90)) || ((97 <=? c) && (c <=? 122)) || isDigit c || (c =? 47) || (c =? 95) || (c =? 45) || (c =? 43).

Definition looksLikeIanaIdentifier (s : text) : bool :=
  match s with
  | [] => false
  | c :: _ => (length s <=? 64)%nat && negb (c =? 47) && negb (List.last s 0 =? 47) && forallb iana_char s
  end.

Definition kUtcNames : list string :=
  ["UTC"; "GMT"; "Etc/UTC"; "Etc/GMT"; "Etc/UCT"; "Z"; "UCT"; "Universal"; "Zulu"; "Greenwich"; "GMT0"; "GMT+0"; "GMT-0"]%string.

(** The options of a format. *)
Record DateTimeFormatOptions := mkOptions {
  timeZone : text; weekday : string; year : string; month : string; day : string; hour : string; minute : string; second : string;
  timeZoneName : string; dateStyle : string; timeStyle : string; hour12 : bool; hasHour12 : bool; hourCycle : string }.

Record DateTimePart := mkPart { ptype : string; pvalue : text }.

Definition no_options (zone : text) : DateTimeFormatOptions :=
  let none := EmptyString in mkOptions zone none none none none none none none none none none true false none.

Definition same (s t : string) : bool := bool_decide (s = t).
Definition given (s : string) : bool := negb (same s EmptyString).

Definition set_date (w y m d : string) (o : DateTimeFormatOptions) : DateTimeFormatOptions :=
  mkOptions (timeZone o) w y m d (hour o) (minute o) (second o) (timeZoneName o) (dateStyle o) (timeStyle o) (hour12 o) (hasHour12 o) (hourCycle o).
Definition set_time (h m s z : string) (o : DateTimeFormatOptions) : DateTimeFormatOptions :=
  mkOptions (timeZone o) (weekday o) (year o) (month o) (day o) h m s z (dateStyle o) (timeStyle o) (hour12 o) (hasHour12 o) (hourCycle o).

Definition applyDateTimeDefaults (o : DateTimeFormatOptions) (defaultDate defaultTime : bool) : DateTimeFormatOptions :=
  if given (dateStyle o) || given (timeStyle o) then
    let o :=
      if given (dateStyle o) then
        set_date (if same (dateStyle o) "full" then "long" else weekday o) (if same (dateStyle o) "short" then "2-digit" else "numeric")
          (if same (dateStyle o) "full" || same (dateStyle o) "long" then "long" else if same (dateStyle o) "medium" then "short" else "numeric") "numeric" o
      else o in
    if given (timeStyle o) then
      set_time "numeric" "2-digit" (if same (timeStyle o) "short" then second o else "2-digit")
        (if same (timeStyle o) "full" || same (timeStyle o) "long" then "short" else timeZoneName o) o
    else o
  else
    let hasAnyDate := given (weekday o) || given (year o) || given (month o) || given (day o) in
    let hasAnyTime := given (hour o) || given (minute o) || given (second o) in
    if negb hasAnyDate && negb hasAnyTime then
      let o := if defaultDate then set_date (weekday o) "numeric" "numeric" "numeric" o else o in
      if defaultTime then set_time "numeric" "2-digit" "2-digit" (timeZoneName o) o else o
    else o.

Definition formatGmtOffsetName (offsetMs : double) (longForm : bool) : text :=
  if deq offsetMs (of_int 0) && negb longForm then bytes "UTC"
  else if deq offsetMs (of_int 0) && longForm then bytes "GMT+00:00"
  else
    let sign := if dle (of_int 0) offsetMs then 43 else 45 in
    let absMs := dabs offsetMs in
    let hh := to_int (dfloor (ddiv absMs kMsPerHour)) in
    let mm := to_int (dfloor (ddiv (modulo absMs kMsPerHour) kMsPerMinute)) in
    if longForm || negb (mm =? 0) then bytes "GMT" ++ [sign] ++ two_digits hh ++ [58] ++ two_digits mm
    else bytes "GMT" ++ [sign] ++ int_text hh.

(** ** With the zones of the host *)

Section Zones.
Context (localtime_r gmtime_r : Z -> option tm).
(** The zone database: its names, its links and their targets, and the seconds a zone is
    from UTC at an instant, [None] for a zone it does not have. *)
Context (tzdb_zones : list text) (tzdb_links : list (text * text)) (tzdb_offset : text -> Z -> option Z) (tzdb_current : option text).

Definition timeZoneString (tv : double) : text :=
  let offset := localOffsetMs localtime_r gmtime_r tv in
  let sign := if dle (of_int 0) offset then 43 else 45 in
  let abs := dabs offset in
  [sign] ++ pad (dfloor (ddiv abs kMsPerHour)) 2 ++ pad (dfloor (ddiv (modulo abs kMsPerHour) kMsPerMinute)) 2.

Definition dateTimeString (tv : double) : text :=
  if isnan tv then bytes "Invalid Date"
  else let t := localTime localtime_r gmtime_r tv in dateString t ++ bytes " " ++ timeString t ++ timeZoneString tv.

Definition dateOnlyString (tv : double) : text :=
  if isnan tv then bytes "Invalid Date" else dateString (localTime localtime_r gmtime_r tv).

Definition timeOnlyString (tv : double) : text :=
  if isnan tv then bytes "Invalid Date" else timeString (localTime localtime_r gmtime_r tv) ++ timeZoneString tv.

Definition resolveTimeZone (input : text) : option text :=
  match input with
  | [] => None
  | _ =>
      if existsb (fun n => iequals input (bytes n)) kUtcNames then Some (bytes "UTC")
      else match parseIsoOffsetTimeZone input with
      | Some (c, _) => Some c
      | None =>
          match parseEtcGmtTimeZone input with
          | Some (c, _) => Some c
          | None =>
              if negb (looksLikeIanaIdentifier input) then None
              else match findKnownIanaZone input with
              | Some known => Some (bytes (canonical known))
              | None =>
                  match List.find (iequals input) tzdb_zones with
                  | Some z => Some z
                  | None => snd <$> List.find (fun l => iequals input (fst l)) tzdb_links
                  end
              end
          end
      end
  end.

Definition defaultTimeZone : text :=
  match tzdb_current with
  | Some name =>
      match resolveTimeZone name with
      | Some c => c
      | None => if negb (empty name) then name else bytes "UTC"
      end
  | None => bytes "UTC"
  end.

Definition kMinTzdbSeconds : double := of_int (-2208988800).
Definition kMaxTzdbSeconds : double := of_int 4102444800.

Definition timeZoneOffsetMs (tUtc : double) (canonicalZone : text) : double :=
  if negb (isfinite tUtc) then of_int 0
  else if empty canonicalZone then localOffsetMs localtime_r gmtime_r tUtc
  else if bool_decide (canonicalZone = bytes "UTC") then of_int 0
  else match parseIsoOffsetTimeZone canonicalZone with
  | Some (_, off) => off
  | None =>
      match parseEtcGmtTimeZone canonicalZone with
      | Some (_, off) => off
      | None =>
          let secs := dfloor (ddiv tUtc kMsPerSecond) in
          let secs := if dlt secs kMinTzdbSeconds then kMinTzdbSeconds else secs in
          let secs := if dlt kMaxTzdbSeconds secs then kMaxTzdbSeconds else secs in
          match tzdb_offset canonicalZone (to_int secs) with
          | Some off => dmul (of_int off) kMsPerSecond
          | None =>
              match findKnownIanaZone canonicalZone with
              | Some known => dmul (of_int (fallbackStandardOffsetMinutes known)) kMsPerMinute
              | None => of_int 0
              end
          end
      end
  end.

Definition zonedTime (tUtc : double) (canonicalZone : text) : double :=
  if negb (isfinite tUtc) then tUtc else dadd tUtc (timeZoneOffsetMs tUtc canonicalZone).

(** ** The parts of a format *)

(** The fields of the wall clock. *)
Record Clock := mkClock { wd : Z; y : Z; m0 : Z; d : Z; h24 : Z; mi : Z; sc : Z }.

Definition clock (t : double) : Clock :=
  mkClock (to_int (weekDay t)) (to_int (yearFromTime t)) (to_int (monthFromTime t)) (to_int (dateFromTime t))
          (to_int (hourFromTime t)) (to_int (minFromTime t)) (to_int (secFromTime t)).

Definition part (ty : string) (v : text) : list DateTimePart := [mkPart ty v].
Definition literal (s : string) : list DateTimePart := part "literal" (bytes s).
Definition entry (table : list string) (i : Z) : text := bytes (nth (Z.to_nat i) table EmptyString).
Definition pad2 (n : Z) : text := pad (of_int n) 2.
Definition twoDigit (s : string) : bool := same s "2-digit".

Definition weekday_parts (o : DateTimeFormatOptions) (c : Clock) : list DateTimePart :=
  if given (weekday o) then
    part "weekday" (entry (if same (weekday o) "long" then kWeekdayLong else if same (weekday o) "narrow" then kWeekdayNarrow else kWeekdayShort) (wd c))
  else [].

Definition date_parts (o : DateTimeFormatOptions) (c : Clock) : list DateTimePart :=
  let textMonth := same (month o) "short" || same (month o) "long" || same (month o) "narrow" in
  (if given (month o) then
     part "month"
       (if twoDigit (month o) then pad2 (m0 c + 1)
        else if same (month o) "long" then entry kMonthLong (m0 c)
        else if same (month o) "short" then entry kMonthShort (m0 c)
        else if same (month o) "narrow" then entry kMonthNarrow (m0 c)
        else int_text (m0 c + 1))
   else []) ++
  (if given (day o) then
     (if given (month o) then literal (if textMonth then " " else "/") else []) ++
     part "day" (if twoDigit (day o) then pad2 (d c) else int_text (d c))
   else []) ++
  (if given (year o) then
     (if given (month o) || given (day o) then literal (if textMonth then ", " else "/") else []) ++
     part "year" (if twoDigit (year o) then pad2 (Z.rem (Z.abs (y c)) 100) else int_text (y c))
   else []).

Definition use12 (o : DateTimeFormatOptions) : bool :=
  if negb (hasHour12 o) && given (hourCycle o) then same (hourCycle o) "h11" || same (hourCycle o) "h12" else hour12 o.

Definition dispHour (o : DateTimeFormatOptions) (h : Z) : Z :=
  if use12 o then
    if same (hourCycle o) "h11" then Z.rem h 12
    else if Z.rem h 12 =? 0 then 12 else Z.rem h 12
  else if same (hourCycle o) "h24" && (h =? 0) then 24 else h.

Definition time_parts (o : DateTimeFormatOptions) (c : Clock) : list DateTimePart :=
  (if given (hour o) then part "hour" (if twoDigit (hour o) then pad2 (dispHour o (h24 c)) else int_text (dispHour o (h24 c))) else []) ++
  (if given (minute o) then
     (if given (hour o) then literal ":" else []) ++
     part "minute" (if twoDigit (minute o) || given (hour o) then pad2 (mi c) else int_text (mi c))
   else []) ++
  (if given (second o) then
     (if given (hour o) || given (minute o) then literal ":" else []) ++
     part "second" (if twoDigit (second o) || given (minute o) then pad2 (sc c) else int_text (sc c))
   else []) ++
  (if use12 o && given (hour o) then literal " " ++ part "dayPeriod" (bytes (if 12 <=? h24 c then "PM" else "AM")) else []).

(** A group of parts after those already emitted, with the separator between them. *)
Definition after (sep : string) (out parts : list DateTimePart) : list DateTimePart :=
  out ++ (match out with [] => [] | _ => literal sep end) ++ parts.

Definition format_parts (o : DateTimeFormatOptions) (offsetMs : double) (c : Clock) : list DateTimePart :=
  let out := weekday_parts o c in
  let out := if given (year o) || given (month o) || given (day o) then after ", " out (date_parts o c) else out in
  let out := if given (hour o) || given (minute o) || given (second o) then after ", " out (time_parts o c) else out in
  if given (timeZoneName o) then
    after " " out (part "timeZoneName" (formatGmtOffsetName offsetMs (same (timeZoneName o) "longOffset" || same (timeZoneName o) "long")))
  else out.

Definition formatDateTimeParts (tUtc : double) (rawOpts : DateTimeFormatOptions) : option (list DateTimePart) :=
  let clipped := timeClip tUtc in
  if isnan clipped then None
  else
    let o := applyDateTimeDefaults rawOpts true false in
    let offsetMs := timeZoneOffsetMs clipped (timeZone o) in
    Some (format_parts o offsetMs (clock (dadd clipped offsetMs))).

Definition formatDateTime (tUtc : double) (o : DateTimeFormatOptions) : option text :=
  let? parts := formatDateTimeParts tUtc o in Some (concat (map pvalue parts)).

Definition locale_string (tv : double) (canonicalZone : text) (defaultDate defaultTime : bool) : text :=
  if isnan tv then bytes "Invalid Date"
  else default (bytes "Invalid Date") (formatDateTime tv (applyDateTimeDefaults (no_options canonicalZone) defaultDate defaultTime)).

Definition localeDateString (tv : double) (canonicalZone : text) : text := locale_string tv canonicalZone true false.
Definition localeTimeString (tv : double) (canonicalZone : text) : text := locale_string tv canonicalZone false true.
Definition localeDateTimeString (tv : double) (canonicalZone : text) : text := locale_string tv canonicalZone true true.
End Zones.
