(* ===== verification/DateRoundtrip.v ===== *)
(** * What dates print, read back

    The tokens of a printed date, and the claims: the ISO string of every time value, the
    UTC string and the date-time string of every time from the year 100 on are read back as
    that time. *)
From stdpp Require Import list strings.
From S2P Require Import Prelude Float64 DoubleArith DateMath DateParse DateText.
Local Open Scope Z_scope.
Local Open Scope bool_scope.

(** ** Numbers of a fixed width *)

Fixpoint fixed_rev (w : nat) (n : Z) : text :=
  match w with O => [] | S w => (48 + n mod 10) :: fixed_rev w (n / 10) end.
Definition fixed (w : nat) (n : Z) : text := rev (fixed_rev w n).

Lemma fixed_rev_length w n : length (fixed_rev w n) = w.
Proof. revert n. induction w as [|w IH]; intros n; cbn; [done|]. by rewrite IH. Qed.

Lemma fixed_length w n : length (fixed w n) = w.
Proof. unfold fixed. by rewrite length_rev, fixed_rev_length. Qed.

Lemma fixed_rev_zero w : fixed_rev w 0 = replicate w 48.
Proof. induction w as [|w IH]; cbn; [done|]. by rewrite Zdiv_0_l, IH. Qed.

Lemma fixed_S w n : fixed (S w) n = fixed w (n / 10) ++ [48 + n mod 10].
Proof. done. Qed.

Lemma digits_rev_fixed fuel w n : (0 < w <= fuel)%nat -> 0 <= n < 10 ^ Z.of_nat w ->
  digits_rev fuel n ++ replicate (w - length (digits_rev fuel n)) 48 = fixed_rev w n.
Proof.
  revert fuel n. induction w as [|w IH]; intros fuel n Hw Hn; [lia|]. destruct fuel as [|fuel]; [lia|]. cbn [digits_rev fixed_rev].
  destruct (Z.eqb_spec (n / 10) 0) as [E|E].
  - rewrite E, fixed_rev_zero. cbn. by rewrite Nat.sub_0_r.
  - cbn [app length Nat.sub]. f_equal. rewrite Nat2Z.inj_succ, Z.pow_succ_r in Hn by lia.
    assert (0 <= n / 10 < 10 ^ Z.of_nat w) by (Z.div_mod_to_equations; lia).
    destruct w as [|w]; [change (10 ^ Z.of_nat 0) with 1 in *; lia|]. apply IH; lia.
Qed.

Lemma digits_rev_length fuel w n : (w < fuel)%nat -> 10 ^ Z.of_nat w <= n < 10 ^ Z.of_nat (S w) -> length (digits_rev fuel n) = S w.
Proof.
  revert fuel n. induction w as [|w IH]; intros fuel n Hw Hn; (destruct fuel as [|fuel]; [lia|]); cbn [digits_rev].
  - change (10 ^ Z.of_nat 0) with 1 in Hn. change (10 ^ Z.of_nat 1) with 10 in Hn. by rewrite (Z.div_small n 10) by lia.
  - rewrite !Nat2Z.inj_succ, !Z.pow_succ_r in Hn by lia. pose proof (Z.pow_pos_nonneg 10 (Z.of_nat w) ltac:(lia) ltac:(lia)).
    assert (10 ^ Z.of_nat w <= n / 10 < 10 * 10 ^ Z.of_nat w) by (Z.div_mod_to_equations; lia).
    destruct (Z.eqb_spec (n / 10) 0); [lia|]. cbn [length]. f_equal. apply IH; [lia|]. rewrite Nat2Z.inj_succ, Z.pow_succ_r by lia. lia.
Qed.

Lemma pad_fixed x n w : isint x n -> (0 < w <= 15)%nat -> 0 <= n < 10 ^ Z.of_nat w -> pad x w = fixed w n.
Proof.
  intros Hx Hw Hn. unfold pad, fixed. rewrite (isint_to_int _ _ Hx). pose proof (isint_bound _ _ Hx).
  rewrite u64_small by lia. by rewrite digits_rev_fixed by lia.
Qed.

(** Past the width, all the digits. *)
Lemma pad_wide x n v w : isint x n -> (v <= S w < 15)%nat -> 10 ^ Z.of_nat w <= n < 10 ^ Z.of_nat (S w) -> pad x v = fixed (S w) n.
Proof.
  intros Hx Hw Hn. unfold pad, fixed. rewrite (isint_to_int _ _ Hx). pose proof (isint_bound _ _ Hx).
  pose proof (Z.pow_pos_nonneg 10 (Z.of_nat w) ltac:(lia) ltac:(lia)). rewrite u64_small by lia.
  rewrite <- (digits_rev_fixed 20) by lia. rewrite (digits_rev_length 20 w) by lia. by rewrite Nat.sub_diag, (proj2 (Nat.sub_0_le v (S w))) by lia.
Qed.

Lemma fixed_digit w n : Forall (fun c => 48 <= c <= 57) (fixed w n).
Proof.
  revert n. induction w as [|w IH]; intros n; [constructor|]. rewrite fixed_S. apply Forall_app_2; [apply IH|].
  constructor; [|constructor]. pose proof (Z.mod_pos_bound n 10). lia.
Qed.

Definition digits_value (ds : text) (n : Z) : Z := fold_left (fun n c => n * 10 + (c - 48)) ds n.

Lemma fixed_value w n : 0 <= n < 10 ^ Z.of_nat w -> digits_value (fixed w n) 0 = n.
Proof.
  revert n. induction w as [|w IH]; intros n Hn; [cbn in *; lia|]. rewrite fixed_S. unfold digits_value in *. rewrite fold_left_app. cbn [fold_left].
  rewrite Nat2Z.inj_succ, Z.pow_succ_r in Hn by lia. rewrite IH by (Z.div_mod_to_equations; lia). Z.div_mod_to_equations. lia.
Qed.

(** ** The tokens of a text *)

(** The input at the first character of a text. *)
Definition pos (s : text) (c : Z) : Input := in_next (mkInput s (c - 1) 0).

Lemma pos_cons b r c : b < 128 -> pos (b :: r) c = mkInput r c b.
Proof. intros H. unfold pos, in_next. cbn. rewrite (proj2 (Z.ltb_lt b 128)) by lia. f_equal. lia. Qed.

Lemma pos_nil c : pos [] c = mkInput [] c 0.
Proof. unfold pos, in_next. cbn. f_equal. lia. Qed.

Lemma next_pos b r c : b < 128 -> in_next (pos (b :: r) c) = pos r (c + 1).
Proof. intros H. rewrite pos_cons by done. unfold pos. rewrite Z.add_simpl_r. by destruct r. Qed.

Lemma input_pos s : input s = pos s 1.
Proof. done. Qed.

(** What follows a number: the end, or a character that is no digit. *)
Definition no_digit (s : text) : Prop := match s with [] => True | c :: _ => c < 128 /\ isDigit c = false end.

Lemma no_digit_pos s c : no_digit s -> isAsciiDigit (pos s c) = false.
Proof. destruct s as [|b r]; intros H; [by rewrite pos_nil|]. destruct H as [Hb Hd]. rewrite pos_cons by done. exact Hd. Qed.

Lemma numeral_digits fuel ds s n k c :
  Forall (fun d => 48 <= d <= 57) ds -> no_digit s -> 0 <= k -> k + Z.of_nat (length ds) <= 9 -> (length ds <= fuel)%nat ->
  while_run fuel (fun s : Z * Z * Input => isAsciiDigit s.2) numeral_step (n, k, pos (ds ++ s) c) =
  Some (digits_value ds n, k + Z.of_nat (length ds), pos s (c + Z.of_nat (length ds))).
Proof.
  revert fuel n k c. induction ds as [|d ds IH]; intros fuel n k c Hds Hs Hk Hl Hf.
  - rewrite while_run_false by (apply no_digit_pos; exact Hs). cbn. by rewrite !Z.add_0_r.
  - inversion Hds; subst. destruct fuel as [|fuel]; [cbn in Hf; lia|]. cbn [length] in *. rewrite while_run_true.
    2:{ cbn [snd app]. rewrite pos_cons by lia. unfold isAsciiDigit, isAsciiDigitCp. cbn. lia. }
    cbn [numeral_step app]. rewrite next_pos by lia. rewrite pos_cons by lia. cbn [ch_].
    rewrite (proj2 (Z.ltb_lt k kMaxSignificantDigits)) by (unfold kMaxSignificantDigits; lia).
    rewrite IH by (done || lia). unfold digits_value. cbn [fold_left].
    by replace (k + Z.of_nat (S (length ds))) with (k + 1 + Z.of_nat (length ds)) by lia; replace (c + Z.of_nat (S (length ds))) with (c + 1 + Z.of_nat (length ds)) by lia.
Qed.

Lemma in_fuel_pos b r c : b < 128 -> in_fuel (pos (b :: r) c) = S (length r).
Proof. intros H. by rewrite pos_cons. Qed.

(** The zeros in front do not change the number. *)
Lemma zeros_skipped ds s c : Forall (fun d => 48 <= d <= 57) ds -> no_digit s -> exists k ds', ds = replicate k 48 ++ ds' /\ zeros (pos (ds ++ s) c) = Some (pos (ds' ++ s) (c + Z.of_nat k)) /\ Forall (fun d => 48 <= d <= 57) ds'.
Proof.
  intros Hds Hs. enough (E : forall fuel, (length ds <= fuel)%nat -> exists k ds', ds = replicate k 48 ++ ds' /\ while_run fuel (fun i => ch_ i =? 48) in_next (pos (ds ++ s) c) = Some (pos (ds' ++ s) (c + Z.of_nat k)) /\ Forall (fun d => 48 <= d <= 57) ds').
  { unfold zeros. destruct ds as [|d ds]; [apply E; cbn; lia|]. inversion Hds; subst. cbn [app]. rewrite in_fuel_pos by lia. apply E. cbn. rewrite length_app. lia. }
  revert c. induction Hds as [|d ds Hd Hds IH]; intros c fuel Hf.
  - exists 0%nat, []. rewrite Z.add_0_r. repeat split; [|constructor]. apply while_run_false. destruct s as [|b r]; [by rewrite pos_nil|].
    destruct Hs as [Hb Hr]. cbn [app]. rewrite pos_cons by done. unfold isDigit in Hr. cbn. lia.
  - destruct (Z.eq_dec d 48) as [->|Hne].
    + cbn [length] in Hf. destruct fuel as [|fuel]; [lia|]. cbn [app]. rewrite while_run_true by (by rewrite pos_cons).
      rewrite next_pos by lia. destruct (IH (c + 1) fuel ltac:(lia)) as (k & ds' & -> & -> & ?). exists (S k), ds'. cbn. repeat split; [do 2 f_equal; lia|done].
    + exists 0%nat, (d :: ds). rewrite Z.add_0_r. repeat split; [|by constructor]. apply while_run_false. cbn [app]. rewrite pos_cons by lia. cbn. lia.
Qed.

Lemma digits_value_zeros k ds : digits_value (replicate k 48 ++ ds) 0 = digits_value ds 0.
Proof. induction k as [|k IH]; [done|]. exact IH. Qed.

Lemma read_numeral ds s c : Forall (fun d => 48 <= d <= 57) ds -> no_digit s -> (length ds <= 9)%nat ->
  readUnsignedNumeral (pos (ds ++ s) c) = Some (digits_value ds 0, pos s (c + Z.of_nat (length ds))).
Proof.
  intros Hds Hs Hl. unfold readUnsignedNumeral. destruct (zeros_skipped ds s c Hds Hs) as (k & ds' & -> & -> & Hds').
  rewrite digits_value_zeros. rewrite length_app, length_replicate in *.
  assert (Hfuel : (length ds' <= in_fuel (pos (ds' ++ s) (c + Z.of_nat k)))%nat).
  { destruct Hds' as [|d ds' Hd _]; [unfold in_fuel; cbn; lia|]. cbn [app length]. rewrite in_fuel_pos by lia. rewrite length_app. lia. }
  rewrite (numeral_digits _ ds' s) by (done || lia).
  do 3 f_equal. lia.
Qed.

(** What the tokenizer holds at a text. *)
Definition toks (s : text) (c : Z) : Tokenizer := tokenizer (pos s c).

Lemma toks_number w n s c : (0 < w <= 9)%nat -> 0 <= n < 10 ^ Z.of_nat w -> no_digit s ->
  toks (fixed w n ++ s) c = mkTokenizer (pos s (c + Z.of_nat w)) (number n (Z.of_nat w)).
Proof.
  intros Hw Hn Hs. unfold toks, tokenizer, scan, scan_run. pose proof (fixed_digit w n) as Hd. pose proof (fixed_length w n) as Hlen.
  assert (Hc : exists c0, ch_ (pos (fixed w n ++ s) c) = c0 /\ 48 <= c0 <= 57).
  { destruct (fixed w n) as [|b r]; [cbn in Hlen; lia|]. inversion Hd; subst. cbn [app]. rewrite pos_cons by lia. eauto. }
  destruct Hc as (c0 & Hc & Hr). unfold isEnd, isAsciiDigit. rewrite Hc. unfold isAsciiDigitCp.
  rewrite (proj2 (Z.eqb_neq c0 0)), (proj2 (Z.leb_le 48 c0)), (proj2 (Z.leb_le c0 57)) by lia. cbn [andb].
  rewrite (read_numeral (fixed w n) s c) by (done || lia). rewrite fixed_value by done. rewrite Hlen. f_equal. f_equal.
  assert (Hp : forall s c, count_ (pos s c) = c) by (intros s' c'; unfold pos, in_next; destruct s'; cbn; repeat case_match; cbn; lia).
  rewrite !Hp. lia.
Qed.

Lemma count_pos s c : count_ (pos s c) = c.
Proof. unfold pos, in_next. destruct s; cbn; repeat case_match; cbn; lia. Qed.

Lemma toks_symbol b r c : In b [58; 45; 43; 46; 41] -> toks (b :: r) c = mkTokenizer (pos r (c + 1)) (symbol b).
Proof.
  intros Hb. cbn [In] in Hb. assert (b < 128) by lia. unfold toks, tokenizer, scan, scan_run, scan_symbol. rewrite !next_pos, !pos_cons by lia.
  by destruct Hb as [<-|[<-|[<-|[<-|[<-|[]]]]]].
Qed.

Lemma toks_space r c : toks (32 :: r) c = mkTokenizer (pos r (c + 1)) (whiteSpace 1).
Proof.
  unfold toks, tokenizer, scan, scan_run. replace (skipWhiteSpace (pos (32 :: r) c)) with (Some (pos r (c + 1))) by (unfold skipWhiteSpace; rewrite next_pos, pos_cons by lia; done).
  rewrite !count_pos, pos_cons by lia. cbn. f_equal. f_equal. lia.
Qed.

Lemma toks_comma r c : toks (44 :: r) c = mkTokenizer (pos r (c + 1)) unknown.
Proof.
  unfold toks, tokenizer, scan, scan_run. replace (in_next (pos (44 :: r) c)) with (pos r (c + 1)) by (by rewrite next_pos).
  by rewrite pos_cons by lia.
Qed.

Lemma toks_end c : toks [] c = mkTokenizer (pos [] c) endOfInput.
Proof. unfold toks. by rewrite pos_nil. Qed.

Definition letters (w : text) : Prop := Forall (fun d => 65 <= d < 128) w.
(** What follows a word. *)
Definition no_letter (s : text) : Prop := match s with [] => True | c :: _ => c < 65 end.

Lemma letter_no_space d : 65 <= d < 128 -> isWhiteSpaceCp d = false.
Proof. intros Hd. unfold isWhiteSpaceCp. cbn [existsb]. rewrite !(proj2 (Z.eqb_neq d _)) by lia. done. Qed.

Lemma no_letter_pos s c : no_letter s -> isAsciiAlphaOrAbove (pos s c) = false.
Proof. destruct s as [|b r]; intros H; [by rewrite pos_nil|]. cbn in H. rewrite pos_cons by lia. unfold isAsciiAlphaOrAbove. cbn. lia. Qed.

Lemma word_letters fuel w s p l c : letters w -> no_letter s -> (length w <= fuel)%nat ->
  while_run fuel word_cond word_step (p, l, pos (w ++ s) c) =
  Some (p ++ take (kPrefixLength - length p) (map asciiAlphaToLower w), l + Z.of_nat (length w), pos s (c + Z.of_nat (length w))).
Proof.
  intros Hw Hs. revert fuel p l c. induction Hw as [|d w Hd Hw IH]; intros fuel p l c Hf.
  - rewrite while_run_false by (unfold word_cond; cbn; by rewrite no_letter_pos). cbn. by rewrite take_nil, app_nil_r, !Z.add_0_r.
  - destruct fuel as [|fuel]; [cbn in Hf; lia|]. cbn [length app] in *. rewrite while_run_true.
    2:{ unfold word_cond. rewrite pos_cons by lia. unfold isAsciiAlphaOrAbove, isWhiteSpaceChar. cbn [ch_ snd]. rewrite letter_no_space by done. lia. }
    cbn [word_step]. rewrite next_pos, pos_cons by lia. cbn [ch_]. rewrite IH by lia.
    replace (l + 1 + Z.of_nat (length w)) with (l + Z.of_nat (S (length w))) by lia. replace (c + 1 + Z.of_nat (length w)) with (c + Z.of_nat (S (length w))) by lia.
    f_equal. f_equal. unfold kPrefixLength. cbn [map]. destruct (Nat.ltb_spec (length p) 3).
    + rewrite length_app, <- app_assoc. cbn [length]. replace (3 - length p)%nat with (S (3 - (length p + 1))) by lia. done.
    + by rewrite (proj2 (Nat.sub_0_le 3 (length p))) by lia.
Qed.

(** The token of a word. *)
Definition word_token (w : text) : Token :=
  let p := take kPrefixLength (map asciiAlphaToLower w) in
  let len := Z.of_nat (length w) in
  match lookupKeyword (p ++ replicate (kPrefixLength - length p) 0) len with
  | None => keywordOf KInvalid 0 len
  | Some e => keywordOf (ktype e) (kvalue e) len
  end.

Lemma toks_word w s c : letters w -> w <> [] -> no_letter s -> toks (w ++ s) c = mkTokenizer (pos s (c + Z.of_nat (length w))) (word_token w).
Proof.
  intros Hw Hne Hs. destruct w as [|d w]; [done|]. pose proof (Forall_inv Hw) as Hd. cbv beta in Hd.
  assert (Hr : readWord (pos ((d :: w) ++ s) c) = let p := take kPrefixLength (map asciiAlphaToLower (d :: w)) in
    Some (p ++ replicate (kPrefixLength - length p) 0, Z.of_nat (length (d :: w)), pos s (c + Z.of_nat (length (d :: w))))).
  { unfold readWord.
    rewrite (word_letters _ (d :: w) s [] 0 c) by (done || (cbn [app length]; rewrite in_fuel_pos by lia; rewrite length_app; lia)). done. }
  unfold toks, tokenizer, scan, scan_run. rewrite Hr. unfold word_token. cbn [app]. unfold isEnd, isAsciiDigit, scan_symbol, isAsciiAlphaOrAbove, isWhiteSpaceChar.
  replace (ch_ (pos (d :: w ++ s) c)) with d by (by rewrite pos_cons by lia). unfold isAsciiDigitCp. rewrite letter_no_space by done.
  rewrite (proj2 (Z.eqb_neq d 0)), (proj2 (Z.leb_gt d 57)), (proj2 (Z.leb_le 65 d)) by lia. rewrite andb_false_r. cbn [List.find]. rewrite !(proj2 (Z.eqb_neq d _)) by lia. cbn [andb negb].
  by destruct (lookupKeyword _ _).
Qed.

(** ** Running the parser on a text *)

#[local] Arguments toks : simpl never.
#[local] Arguments tokenizer : simpl never.
#[local] Arguments pos : simpl never.
#[local] Arguments fixed : simpl never.
#[local] Arguments between : simpl never.
#[local] Arguments Z.mul : simpl never.
#[local] Arguments Z.add : simpl never.
#[local] Arguments Z.sub : simpl never.
#[local] Arguments Z.quot : simpl never.
#[local] Arguments Z.rem : simpl never.
#[local] Arguments Z.ltb : simpl nomatch.

Lemma between_true x lo hi : lo <= x <= hi -> 0 <= lo -> hi < 2 ^ 31 -> between x lo hi = true.
Proof. intros Hx Hlo Hhi. unfold between. rewrite !u32_small by lia. lia. Qed.

Lemma fixed_no_letter w n s : (0 < w)%nat -> no_letter (fixed w n ++ s).
Proof.
  intros Hw. pose proof (fixed_digit w n) as Hd. pose proof (fixed_length w n). destruct (fixed w n); [cbn in *; lia|].
  inversion Hd; subst. cbn. lia.
Qed.

Lemma toks_T s c : no_letter s -> toks (84 :: s) c = mkTokenizer (pos s (c + 1)) (keywordOf TimeSeparator 0 1).
Proof. intros Hs. apply (toks_word [84]); [repeat constructor; lia|done|done]. Qed.

Lemma toks_Z c : toks [90] c = mkTokenizer (pos [] (c + 1)) (keywordOf TimeZoneName 0 1).
Proof. apply (toks_word [90] []); [repeat constructor; lia|done|done]. Qed.

(** What the tests say of the tokens. *)
Lemma sign_number n w : isAsciiSign (number n w) = false. Proof. done. Qed.
Lemma fixed_number v n w : isFixedLengthNumber v (number n w) = (w =? v). Proof. done. Qed.
Lemma number_number n w : isNumber (number n w) = true. Proof. done. Qed.
Lemma symbol_number d n w : isSymbol d (number n w) = false. Proof. done. Qed.
Lemma symbol_symbol d b : isSymbol d (symbol b) = (b =? d). Proof. done. Qed.
Lemma sign_symbol b : isAsciiSign (symbol b) = (b =? 45) || (b =? 43). Proof. done. Qed.
Lemma number_symbol b : isNumber (symbol b) = false. Proof. done. Qed.
Lemma fixed_symbol v b : isFixedLengthNumber v (symbol b) = false. Proof. done. Qed.
Lemma keyword_number ty n w : isKeywordType ty (number n w) = false. Proof. done. Qed.
Lemma keyword_symbol ty b : isKeywordType ty (symbol b) = false. Proof. done. Qed.
Lemma z_number n w : isKeywordZ (number n w) = false. Proof. done. Qed.
Lemma z_symbol b : isKeywordZ (symbol b) = false. Proof. done. Qed.
Lemma keyword_T v n : isKeywordType TimeSeparator (keywordOf TimeSeparator v n) = true. Proof. done. Qed.
Lemma z_Z : isKeywordZ (keywordOf TimeZoneName 0 1) = true. Proof. done. Qed.
Lemma end_end : isTag EndOfInput endOfInput = true. Proof. done. Qed.
#[local] Hint Rewrite keyword_T z_Z end_end toks_end : toks.
#[local] Hint Rewrite sign_number fixed_number number_number symbol_number symbol_symbol sign_symbol number_symbol fixed_symbol
  keyword_number keyword_symbol z_number z_symbol : toks.

Ltac inside := unfold isMonth, isDay, isHour, isMinute, isSecond, isMillisecond; repeat match goal with |- context [between ?x ?lo ?hi] => rewrite (between_true x lo hi) by lia end.
Ltac token :=
  match goal with
  | |- context [toks (fixed ?w ?n ++ ?s) ?c] => rewrite (toks_number w n s c) by (done || lia); let v := eval vm_compute in (Z.of_nat w) in change (Z.of_nat w) with v
  | |- context [toks (84 :: ?s) ?c] => rewrite (toks_T s c) by (apply fixed_no_letter; lia)
  | |- context [toks [90] ?c] => rewrite (toks_Z c)
  | |- context [toks (32 :: ?s) ?c] => rewrite (toks_space s c)
  | |- context [toks (44 :: ?s) ?c] => rewrite (toks_comma s c)
  | |- context [toks (?b :: ?s) ?c] => rewrite (toks_symbol b s c) by (cbn; lia)
  end.
Ltac run := repeat (progress (cbn; autorewrite with toks) || token || change (tokenizer (pos ?s ?c)) with (toks s c)).

Lemma es5_year_plain y s c t z : 0 <= y <= 9999 -> no_digit s ->
  es5_year (mkP (toks (fixed 4 y ++ s) c) new_day t z) = (inr tt, mkP (toks s (c + 4)) (mkDay [y] kNone false) t z).
Proof. intros Hy Hs. unfold es5_year, bind, peek, next, tok_next. run. done. Qed.

Lemma es5_year_signed b y s c t z : b = 43 \/ b = 45 /\ y <> 0 -> 0 <= y <= 999999 -> no_digit s ->
  es5_year (mkP (toks (b :: fixed 6 y ++ s) c) new_day t z) = (inr tt, mkP (toks s (c + 1 + 6)) (mkDay [(44 - b) * y] kNone false) t z).
Proof.
  intros Hb Hy Hs. unfold es5_year, bind, peek, next, tok_next. destruct Hb as [->|[-> Hne]]; run.
  - done.
  - rewrite (proj2 (Z.eqb_neq y 0)) by done. run. done.
Qed.

Definition es5_month_day : P unit :=
  let! dash := skipSymbol 45 in
  if dash then
    do! es5_component isMonth in
    let! dash := skipSymbol 45 in
    if dash then es5_component isDay else ret tt
  else ret tt.

Lemma es5_date_rest m d s c y t z : 1 <= m <= 12 -> 1 <= d <= 31 -> no_digit s ->
  exists c', es5_month_day (mkP (toks (45 :: fixed 2 m ++ 45 :: fixed 2 d ++ s) c) (mkDay [y] kNone false) t z) =
  (inr tt, mkP (toks s c') (mkDay [y; m; d] kNone false) t z).
Proof.
  intros Hm Hd Hs. eexists. unfold es5_month_day, es5_component, bind, peek, next, tok_next, skipSymbol, tok_skipSymbol. run.
  inside. run. inside. run. reflexivity.
Qed.

Lemma es5_time_rest h mi sec ms c d : 0 <= h <= 23 -> 0 <= mi <= 59 -> 0 <= sec <= 59 -> 0 <= ms <= 999 ->
  exists c', es5_time (mkP (toks (84 :: fixed 2 h ++ 58 :: fixed 2 mi ++ 58 :: fixed 2 sec ++ 46 :: fixed 3 ms ++ [90]) c) d new_time new_zone) =
  (inr tt, mkP (toks [] c') d (mkTime [h; mi; sec; ms] kNone) (zone_set 0)).
Proof.
  intros Hh Hmi Hs Hms. eexists. unfold es5_time, es5_zone, bind, peek, next, tok_next, skipSymbol, tok_skipSymbol, unless.
  run. inside. rewrite (proj2 (Z.eqb_neq h 24)) by lia. run. inside. run. inside. run. reflexivity.
Qed.


Lemma parse_fuel_S s : parse_fuel s = S (length s + 2).
Proof. unfold parse_fuel. lia. Qed.

(** The text of a date and a time, after the text of the year. *)
Definition iso_rest (m d h mi sec ms : Z) : text :=
  45 :: fixed 2 m ++ 45 :: fixed 2 d ++ 84 :: fixed 2 h ++ 58 :: fixed 2 mi ++ 58 :: fixed 2 sec ++ 46 :: fixed 3 ms ++ [90].

(** The texts of a year. *)
Definition iso_year (y : Z) : text := if y <? 0 then 45 :: fixed 6 (- y) else if 9999 <? y then 43 :: fixed 6 y else fixed 4 y.

Lemma es5_year_text y s c t z : Z.abs y <= 999999 -> no_digit s -> exists c',
  es5_year (mkP (toks (iso_year y ++ s) c) new_day t z) = (inr tt, mkP (toks s c') (mkDay [y] kNone false) t z).
Proof.
  intros Hy Hs. unfold iso_year. destruct (Z.ltb_spec y 0) as [Hneg|Hpos]; [|destruct (Z.ltb_spec 9999 y)]; eexists.
  - cbn [app]. rewrite es5_year_signed by (done || lia). by replace ((44 - 45) * - y) with y by lia.
  - cbn [app]. rewrite es5_year_signed by (done || lia). by replace ((44 - 43) * y) with y by lia.
  - by rewrite es5_year_plain by (done || lia).
Qed.

Lemma write_iso sc y m d h mi sec ms : 1 <= m <= 12 -> 1 <= d <= 31 -> 0 <= h <= 23 -> 0 <= mi <= 59 -> 0 <= sec <= 59 -> 0 <= ms <= 999 ->
  write_all (mkP sc (mkDay [y; m; d] kNone true) (mkTime [h; mi; sec; ms] kNone) (zone_set 0)) = Some (mkFields y (m - 1) d h mi sec ms true 0).
Proof.
  intros Hm Hd Hh Hmi Hs Hms. unfold write_all, day_write, day_order. cbn. unfold isMillisecond. inside. reflexivity.
Qed.

Lemma iso_fields y m d h mi sec ms : Z.abs y <= 999999 -> 1 <= m <= 12 -> 1 <= d <= 31 -> 0 <= h <= 23 -> 0 <= mi <= 59 -> 0 <= sec <= 59 -> 0 <= ms <= 999 ->
  parseFields (iso_year y ++ iso_rest m d h mi sec ms) = Some (mkFields y (m - 1) d h mi sec ms true 0).
Proof.
  intros Hy Hm Hd Hh Hmi Hs Hms. destruct (es5_year_text y (iso_rest m d h mi sec ms) 1 new_time new_zone Hy ltac:(done)) as [c1 E1].
  destruct (es5_date_rest m d (84 :: fixed 2 h ++ 58 :: fixed 2 mi ++ 58 :: fixed 2 sec ++ 46 :: fixed 3 ms ++ [90]) c1 y new_time new_zone Hm Hd ltac:(done)) as [c2 E2].
  destruct (es5_time_rest h mi sec ms c2 (mkDay [y; m; d] kNone false) Hh Hmi Hs Hms) as [c3 E3].
  assert (E : es5_pass (iso_year y ++ iso_rest m d h mi sec ms) = (endOfInput, mkP (toks [] c3) (mkDay [y; m; d] kNone true) (mkTime [h; mi; sec; ms] kNone) (zone_set 0))).
  { unfold es5_pass, parseEs5DateTime, start. rewrite input_pos. fold (toks (iso_year y ++ iso_rest m d h mi sec ms) 1).
    assert (Ed : es5_date (mkP (toks (iso_year y ++ iso_rest m d h mi sec ms) 1) new_day new_time new_zone) = (inr tt, mkP (toks (84 :: fixed 2 h ++ 58 :: fixed 2 mi ++ 58 :: fixed 2 sec ++ 46 :: fixed 3 ms ++ [90]) c2) (mkDay [y; m; d] kNone false) new_time new_zone)).
    { unfold es5_date. fold es5_month_day. unfold bind at 1. rewrite E1. exact E2. }
    unfold bind at 1. rewrite Ed. unfold bind at 1. rewrite E3. done. }
  unfold parseFields. rewrite E, parse_fuel_S. by apply write_iso.
Qed.

(** ** The ISO string *)

(** Where a time of day is, in a time. *)
Definition hour_of (z : Z) : Z := z / 3600000 mod 24.
Definition min_of (z : Z) : Z := z / 60000 mod 60.
Definition sec_of (z : Z) : Z := z / 1000 mod 60.
Definition ms_of (z : Z) : Z := z mod 1000.

Lemma clock_range z : 0 <= hour_of z <= 23 /\ 0 <= min_of z <= 59 /\ 0 <= sec_of z <= 59 /\ 0 <= ms_of z <= 999.
Proof. unfold hour_of, min_of, sec_of, ms_of. Z.div_mod_to_equations. lia. Qed.

Lemma month_length_31 m lp : 0 <= m <= 11 -> month_length m lp <= 31.
Proof.
  intros Hm. assert (Hin : In m [0; 1; 2; 3; 4; 5; 6; 7; 8; 9; 10; 11]) by (cbn; lia). cbn [In] in Hin.
  destruct lp; naive_solver (vm_compute; intuition discriminate).
Qed.

Lemma date_of_31 z : 1 <= date_of z <= 31.
Proof. pose proof (date_of_range z) as [Hm Hd]. pose proof (month_length_31 _ (leap (year_of z)) Hm). lia. Qed.

(** A bound that is a power of ten. *)
Ltac power := first [lia | match goal with |- context [10 ^ Z.of_nat ?w] => let v := eval vm_compute in (10 ^ Z.of_nat w) in change (10 ^ Z.of_nat w) with v; lia end].

Lemma isoString_text z : time_value z ->
  isoString (of_int z) = Some (iso_year (year_of z) ++ iso_rest (mon_of z + 1) (date_of z) (hour_of z) (min_of z) (sec_of z) (ms_of z)).
Proof.
  intros Hz. assert (Hok : time_ok z) by (unfold time_value, time_ok in *; lia). unfold time_value in Hz.
  assert (Ht : isint (of_int z) z) by (apply of_int_isint; lia). pose proof (date_of_range z) as [Hm _]. pose proof (date_of_31 z).
  pose proof (clock_range z) as (? & ? & ? & ?). pose proof (year_of_bound z Hok). pose proof (isint_yearFromTime _ _ Ht Hok) as Hy.
  assert (Hm1 : isint (dadd (monthFromTime (of_int z)) (of_int 1)) (mon_of z + 1)) by (pose proof (isint_monthFromTime _ _ Ht Hok); isint).
  unfold isoString. rewrite (isint_not_nan _ _ Ht), (isint_lt _ _ _ 0 Hy) by (by apply of_int_isint). rewrite (isint_lt _ _ 9999 _ (of_int_isint 9999 ltac:(lia)) Hy).
  rewrite (pad_fixed _ _ 2 Hm1) by power.
  rewrite (pad_fixed _ (date_of z) 2 (isint_dateFromTime _ _ Ht Hok)) by power.
  rewrite (pad_fixed _ (hour_of z) 2 (isint_hourFromTime _ _ Ht Hok)) by power.
  rewrite (pad_fixed _ (min_of z) 2 (isint_minFromTime _ _ Ht Hok)) by power.
  rewrite (pad_fixed _ (sec_of z) 2 (isint_secFromTime _ _ Ht Hok)) by power.
  rewrite (pad_fixed _ (ms_of z) 3 (isint_msFromTime _ _ Ht)) by power.
  unfold iso_year. destruct (Z.ltb_spec (year_of z) 0); [|destruct (Z.ltb_spec 9999 (year_of z))].
  - by rewrite (pad_fixed _ (- year_of z) 6) by (apply isint_neg, Hy || power).
  - by rewrite (pad_fixed _ (year_of z) 6) by (exact Hy || power).
  - by rewrite (pad_fixed _ (year_of z) 4) by (exact Hy || power).
Qed.

(** The value of the fields that a text is read as, with some milliseconds. *)
Lemma fields_value z ms : time_ok z -> 0 <= ms <= 999 ->
  isint (makeDate (makeDay (of_int (year_of z)) (of_int (mon_of z)) (of_int (date_of z)))
                  (makeTime (of_int (hour_of z)) (of_int (min_of z)) (of_int (sec_of z)) (of_int ms))) (z - ms_of z + ms).
Proof.
  intros Hok Hms. pose proof (date_of_range z) as [Hm _]. pose proof (date_of_31 z).
  pose proof (clock_range z) as (? & ? & ? & ?). pose proof (year_of_bound z Hok). pose proof (day_of_bound z Hok).
  assert (E : year_of z + mon_of z / 12 = year_of z) by (rewrite Z.div_small; lia). unfold time_ok in Hok.
  assert (Hday : isint (makeDay (of_int (year_of z)) (of_int (mon_of z)) (of_int (date_of z))) (day_of z)).
  { eapply isint_value.
    - apply (isint_makeDay _ _ _ (year_of z) (mon_of z) (date_of z)); try (apply of_int_isint; lia); lia.
    - rewrite E, (Z.mod_small (mon_of z)) by lia. unfold date_of, yday_of. lia. }
  assert (Hdz : day_of z * 86400000 <= z < day_of z * 86400000 + 86400000) by (unfold day_of; Z.div_mod_to_equations; lia).
  eapply isint_value.
  - apply isint_makeDate; [exact Hday| |lia|].
    + apply isint_makeTime; try (apply of_int_isint; lia); lia.
    + lia.
  - unfold day_of, hour_of, min_of, sec_of, ms_of. Z.div_mod_to_equations. lia.
Qed.

(** The text of some fields is read as the time of the fields, less the offset. *)
Lemma parse_fields localtime_r gmtime_r s z ms off : time_ok z -> 0 <= ms <= 999 -> Z.abs off <= 400000 ->
  parseFields s = Some (mkFields (year_of z) (mon_of z) (date_of z) (hour_of z) (min_of z) (sec_of z) ms true off) ->
  Z.abs (z - ms_of z + ms - off * 1000) <= 8640000000000000 ->
  parse localtime_r gmtime_r s = of_int (z - ms_of z + ms - off * 1000).
Proof.
  intros Hok Hms Hoff Hs Hb. unfold parse. rewrite Hs. cbn [fyear fmonth fday fhour fminute fsecond fmillisecond hasOffset offsetSeconds].
  pose proof (fields_value z ms Hok Hms) as Hd. rewrite (timeClip_int _ (z - ms_of z + ms - off * 1000)); [by rewrite (proj2 (Z.leb_le _ _)) by lia|].
  unfold kMsPerSecond. set (t := makeDate _ _) in *. clearbody t. unfold time_ok in Hok. pose proof (clock_range z). isint.
Qed.

(** C10: every time value is printed by toISOString, and Date.parse reads the string back as
    that time value, to the bit, whatever the zone of the host: the years from 0 to 9999
    in four digits and the years before and after them in the expanded form of a sign and
    six digits. *)
Theorem iso_roundtrip localtime_r gmtime_r z : time_value z ->
  exists s, isoString (of_int z) = Some s /\ parse localtime_r gmtime_r s = of_int z.
Proof.
  intros Hz. eexists. split; [by apply isoString_text|]. assert (Hok : time_ok z) by (unfold time_value, time_ok in *; lia).
  pose proof (date_of_range z) as [Hm _]. pose proof (date_of_31 z). pose proof (clock_range z) as (? & ? & ? & ?). pose proof (year_of_bound z Hok).
  unfold time_value in Hz. replace z with (z - ms_of z + ms_of z - 0 * 1000) at 8 by lia.
  apply parse_fields; [done|done|lia| |lia]. rewrite iso_fields by lia. by rewrite Z.add_simpl_r.
Qed.

Lemma iso_roundtrip_witness :
  (exists s, isoString (of_int (-62198755199999)) = Some s /\ parse (fun _ => None) (fun _ => None) s = of_int (-62198755199999)) /\
  isoString (of_int (-62198755199999)) = Some (bytes "-000001-01-01T00:00:00.001Z").
Proof. split; [apply iso_roundtrip; unfold time_value; lia|vm_compute; reflexivity]. Defined.

(** ** The legacy loop on a text *)

(** The loop about to read the token at a text. *)
Definition go (fuel : nat) (b : bool) (s : text) (c : Z) (d : DayComposer) (t : TimeComposer) (z : TimeZoneComposer) : option (bool * PState) :=
  legacy_loop fuel b (next_ (toks s c)) (mkP (tokenizer (in_ (toks s c))) d t z).

Ltac opened := unfold legacy_token, legacy_number, legacy_keyword, legacy_sign, bind, getTz, getTime, getDay, peek, next, tok_next, skipSymbol, tok_skipSymbol.

Lemma symbol_space d n : isSymbol d (whiteSpace n) = false. Proof. done. Qed.
Lemma number_space n : isNumber (whiteSpace n) = false. Proof. done. Qed.
Lemma sign_space n : isAsciiSign (whiteSpace n) = false. Proof. done. Qed.
Lemma z_space n : isKeywordZ (whiteSpace n) = false. Proof. done. Qed.
Lemma symbol_end d : isSymbol d endOfInput = false. Proof. done. Qed.
Lemma number_unknown : isNumber unknown = false. Proof. done. Qed.
Lemma number_keyword ty v n : isNumber (keywordOf ty v n) = false. Proof. done. Qed.
#[local] Hint Rewrite symbol_space number_space sign_space z_space symbol_end number_unknown number_keyword : toks.

(** A token whose turn changes nothing. *)
Lemma go_space f b s c d t z : go (S f) b (32 :: s) c d t z = go f b s (c + 1) d t z.
Proof. unfold go. rewrite toks_space. reflexivity. Qed.

Lemma go_comma f b s c d t z : go (S f) b (44 :: s) c d t z = go f b s (c + 1) d t z.
Proof. unfold go. rewrite toks_comma. reflexivity. Qed.

Lemma go_end f b c d t z : go (S f) b [] c d t z = Some (true, mkP (toks [] c) d t z).
Proof. unfold go. rewrite toks_end. reflexivity. Qed.

(** A turn, once the text after its token is known. *)
Lemma go_turn f b b' s s' s'' c c' c'' tok d t z d' t' z' :
  toks s c = mkTokenizer (pos s' c') tok -> isTag EndOfInput tok = false ->
  legacy_token b tok (mkP (toks s' c') d t z) = (inr b', mkP (toks s'' c'') d' t' z') ->
  go (S f) b s c d t z = go f b' s'' c'' d' t' z'.
Proof.
  intros Ht He Hk. unfold go. rewrite Ht. cbn [in_ next_ legacy_loop]. rewrite He. change (tokenizer (pos s' c')) with (toks s' c'). rewrite Hk. reflexivity.
Qed.

(** Words: the name of a day before any number, and the name of a month. *)
Definition is_word (w : text) (tok : Token) : Prop := letters w /\ w <> [] /\ word_token w = tok.

Lemma go_weekday f w b s c d z : is_word w (keywordOf KInvalid 0 3) -> In b [32; 44] ->
  go (S f) false (w ++ b :: s) c d new_time z = go f false (b :: s) (c + Z.of_nat (length w)) d new_time z.
Proof.
  intros (Hw & Hne & Htok) Hb. cbn [In] in Hb. eapply go_turn; [apply toks_word; [done|done|cbn; lia]|by rewrite Htok|].
  rewrite Htok. unfold legacy_token, legacy_keyword, bind, getTime, peek. cbn. destruct Hb as [<-|[<-|[]]]; run; reflexivity.
Qed.

Lemma go_month f w m b s c ds iso z : is_word w (keywordOf MonthName m 3) ->
  go (S f) b (w ++ 32 :: s) c (mkDay ds kNone iso) new_time z = go f b (32 :: s) (c + Z.of_nat (length w)) (mkDay ds m iso) new_time z.
Proof.
  intros (Hw & Hne & Htok). eapply go_turn; [apply toks_word; [done|done|cbn; lia]|by rewrite Htok|].
  rewrite Htok. opened. cbn. unfold bind, skipSymbol, tok_skipSymbol. run. reflexivity.
Qed.

(** A component of the day. *)
Lemma go_day f w n b s c ds m iso : (0 < w <= 9)%nat -> 0 <= n < 10 ^ Z.of_nat w -> (length ds < 3)%nat ->
  go (S f) b (fixed w n ++ 32 :: s) c (mkDay ds m iso) new_time new_zone = go f true (32 :: s) (c + Z.of_nat w) (mkDay (ds ++ [n]) m iso) new_time new_zone.
Proof.
  intros Hw Hn Hd. eapply go_turn; [by apply toks_number|done|].
  destruct ds as [|d1 [|d2 [|]]]; [| | |cbn in Hd; lia]; opened; run; reflexivity.
Qed.

(** An hour or a minute, and the seconds that end a time. *)
Lemma go_colon f n x b s c d tc : 0 <= n <= 99 -> 0 <= x <= 99 -> (length tc < 2)%nat -> no_digit s -> exists c',
  go (S f) b (fixed 2 n ++ 58 :: fixed 2 x ++ s) c d (mkTime tc kNone) new_zone = go f true (fixed 2 x ++ s) c' d (mkTime (tc ++ [n]) kNone) new_zone.
Proof.
  intros Hn Hx Htc Hs. eexists. eapply go_turn; [apply toks_number; [lia|power|done]|done|].
  destruct tc as [|t1 [|]]; [| |cbn in Htc; lia]; opened; run; reflexivity.
Qed.

Lemma go_seconds f n b s c d h mi : 0 <= n <= 59 ->
  go (S f) b (fixed 2 n ++ 32 :: s) c d (mkTime [h; mi] kNone) new_zone = go f true (32 :: s) (c + 2) d (mkTime [h; mi; n; 0] kNone) new_zone.
Proof.
  intros Hn. eapply go_turn; [apply toks_number; [lia|power|done]|done|].
  opened; run. unfold time_isExpecting. cbn. inside. run. reflexivity.
Qed.

(** The zone. *)
Lemma gmt_word : is_word (bytes "GMT") (keywordOf TimeZoneName 0 3).
Proof. split; [|done]. change (bytes "GMT") with [71; 77; 84]. repeat constructor; lia. Qed.

Lemma go_gmt f s c d t z : no_letter s -> go (S f) true (bytes "GMT" ++ s) c d t z = go f true s (c + 3) d t (zone_set 0).
Proof.
  destruct gmt_word as (Hw & Hne & Htok). intros Hs. eapply go_turn; [by apply toks_word|by rewrite Htok|].
  rewrite Htok. opened. run. reflexivity.
Qed.

Lemma go_offset f sg n c d t : sg = 43 \/ sg = 45 -> 0 <= n <= 9999 -> exists c',
  go (S f) true (sg :: fixed 4 n) c d t (zone_set 0) = go f true [] c' d t (mkZone (44 - sg) (Z.quot n 100) (Z.rem n 100)).
Proof.
  intros Hsg Hn. eexists. rewrite <- (app_nil_r (fixed 4 n)). eapply go_turn; [apply toks_symbol; cbn; lia|done|].
  opened. destruct Hsg as [-> | ->]; run; reflexivity.
Qed.

Ltac spelled := split; [|split; [done|vm_compute; reflexivity]]; match goal with |- letters ?w => let v := eval vm_compute in w in change w with v end; repeat constructor; lia.

Lemma weekday_word i : 0 <= i <= 6 -> is_word (bytes (nth (Z.to_nat i) kWeekdayShort EmptyString)) (keywordOf KInvalid 0 3).
Proof.
  intros Hi. assert (Hin : In i [0; 1; 2; 3; 4; 5; 6]) by (cbn; lia). cbn [In] in Hin.
  repeat (destruct Hin as [<-|Hin]; [spelled|]). done.
Qed.

Lemma month_word i : 0 <= i <= 11 -> is_word (bytes (nth (Z.to_nat i) kMonthShort EmptyString)) (keywordOf MonthName (i + 1) 3).
Proof.
  intros Hi. assert (Hin : In i [0; 1; 2; 3; 4; 5; 6; 7; 8; 9; 10; 11]) by (cbn; lia). cbn [In] in Hin.
  repeat (destruct Hin as [<-|Hin]; [spelled|]). done.
Qed.

(** A text that starts with a word is left to the legacy loop. *)
Lemma word_fields w b r out s' : is_word w (keywordOf KInvalid 0 3) -> In b [32; 44] -> (22 <= length (w ++ b :: r))%nat ->
  go 25 false (w ++ b :: r) 1 new_day new_time new_zone = Some (true, s') -> write_all s' = Some out ->
  parseFields (w ++ b :: r) = Some out.
Proof.
  intros (Hw & Hne & Htok) Hb Hlen Hgo Hout. cbn [In] in Hb.
  assert (Ht : toks (w ++ b :: r) 1 = mkTokenizer (pos (b :: r) (1 + Z.of_nat (length w))) (keywordOf KInvalid 0 3)) by (rewrite toks_word; [by rewrite Htok|done|done|cbn; lia]).
  unfold parseFields, es5_pass, parseEs5DateTime, es5_date, start. rewrite input_pos. fold (toks (w ++ b :: r) 1).
  unfold go in Hgo. rewrite Ht in *. unfold bind at 1 2 3. cbn [in_ next_] in Hgo.
  change (es5_year (mkP (mkTokenizer (pos (b :: r) (1 + Z.of_nat (length w))) (keywordOf KInvalid 0 3)) new_day new_time new_zone)) with
    (@inl Token unit (keywordOf KInvalid 0 3), mkP (tokenizer (pos (b :: r) (1 + Z.of_nat (length w)))) new_day new_time new_zone).
  change (isTag TInvalid (keywordOf KInvalid 0 3)) with false. cbn [negb day_isEmpty pday length dcomp new_day Nat.eqb].
  cbv beta iota. rewrite (loop_more 25 _ _ _ _ _ Hgo) by (unfold parse_fuel; lia). exact Hout.
Qed.

(** ** The strings of the legacy format *)

(** The year, from the year 100 on. *)
Definition year_width (y : Z) : nat := if y <=? 9999 then 4 else if y <=? 99999 then 5 else 6.
Definition year_text (y : Z) : text := fixed (year_width y) y.

Lemma year_width_ok y : 0 <= y <= 999999 -> (0 < year_width y <= 9)%nat /\ 0 <= y < 10 ^ Z.of_nat (year_width y).
Proof. intros Hy. unfold year_width. destruct (Z.leb_spec y 9999); [|destruct (Z.leb_spec y 99999)]; split; (lia || power). Qed.

Lemma yearField_text t y : isint (yearFromTime t) y -> 0 <= y <= 999999 -> yearField t = year_text y.
Proof.
  intros Hy Hb. unfold yearField, year_text, year_width. rewrite (isint_lt _ _ y 0 Hy) by (by apply of_int_isint). rewrite (proj2 (Z.ltb_ge y 0)) by lia.
  destruct (Z.leb_spec y 9999); [|destruct (Z.leb_spec y 99999)].
  - by rewrite (pad_fixed _ y 4) by (exact Hy || power).
  - rewrite (pad_wide _ y 4 4) by (exact Hy || lia || (change (10 ^ Z.of_nat 4) with 10000; change (10 ^ Z.of_nat 5) with 100000; lia)). done.
  - rewrite (pad_wide _ y 4 5) by (exact Hy || lia || (change (10 ^ Z.of_nat 5) with 100000; change (10 ^ Z.of_nat 6) with 1000000; lia)). done.
Qed.

(** The time of day and the zone. *)
Definition clock_text (h mi sec : Z) (zone : text) : text := fixed 2 h ++ 58 :: fixed 2 mi ++ 58 :: fixed 2 sec ++ 32 :: bytes "GMT" ++ zone.

Lemma go_clock f h mi sec zone b c d : 0 <= h <= 23 -> 0 <= mi <= 59 -> 0 <= sec <= 59 -> no_letter zone -> exists c',
  go (5 + f) b (clock_text h mi sec zone) c d new_time new_zone = go f true zone c' d (mkTime [h; mi; sec; 0] kNone) (zone_set 0).
Proof.
  intros Hh Hmi Hs Hz. unfold clock_text. cbn [Nat.add].
  destruct (go_colon (S (S (S (S f)))) h mi b (58 :: fixed 2 sec ++ 32 :: bytes "GMT" ++ zone) c d [] ltac:(lia) ltac:(lia) ltac:(cbn; lia) ltac:(done)) as [c1 E1].
  destruct (go_colon (S (S (S f))) mi sec true (32 :: bytes "GMT" ++ zone) c1 d [h] ltac:(lia) ltac:(lia) ltac:(cbn; lia) ltac:(done)) as [c2 E2].
  eexists. unfold new_time. rewrite E1. cbn [app]. rewrite E2. cbn [app]. rewrite go_seconds by lia. rewrite go_space, go_gmt by done. reflexivity.
Qed.

(** What a zone composer holds after a sign and an offset of hours and minutes. *)
Definition zone_seconds (z : TimeZoneComposer) : Z := sign_ z * (hour_ z * 3600 + minute_ z * 60).
Definition zone_known (z : TimeZoneComposer) : Prop := (sign_ z = 1 \/ sign_ z = -1) /\ 0 <= hour_ z <= 99 /\ 0 <= minute_ z <= 99.

Lemma write_legacy sc d y m h mi sec z : 1 <= m <= 12 -> 1 <= d <= 31 -> 100 <= y -> 0 <= h <= 23 -> 0 <= mi <= 59 -> 0 <= sec <= 59 -> zone_known z ->
  y <= 999999 ->
  write_all (mkP sc (mkDay [d; y] m false) (mkTime [h; mi; sec; 0] kNone) z) = Some (mkFields y (m - 1) d h mi sec 0 true (zone_seconds z)).
Proof.
  intros Hm Hd Hy Hh Hmi Hs (Hsign & Hhz & Hmz) Hy'. unfold write_all, day_write, day_order. cbn [pday dcomp app length replicate Nat.sub namedMonth_ isIsoDate_].
  rewrite (proj2 (Z.eqb_neq m kNone)) by (unfold kNone; lia). inside. cbn [negb].
  assert (E : forall lo hi, 0 <= lo <= hi -> hi < 100 -> between y lo hi = false).
  { intros lo hi Hl Hhi. unfold between. rewrite !u32_small by lia. lia. }
  rewrite !E by lia. cbn [negb orb]. unfold time_write. cbn [ptime time_fill tcomp app length replicate Nat.sub hourOffset_].
  change (kNone =? kNone) with true. cbn beta iota. inside. cbn [negb orb andb fyear fmonth fday hasOffset offsetSeconds]. cbn [ptz].
  unfold zone_write. destruct z as [sg hz mz]. cbn [sign_ hour_ minute_] in *. cbn [negb].
  rewrite (proj2 (Z.eqb_neq sg kNone)), (proj2 (Z.eqb_neq hz kNone)), (proj2 (Z.eqb_neq mz kNone)) by (unfold kNone; lia).
  rewrite !(u32_small hz), !(u32_small mz) by lia. rewrite !u32_small by lia. rewrite (proj2 (Z.ltb_ge 2147483647 _)) by lia.
  unfold zone_seconds. cbn [sign_ hour_ minute_ fyear fmonth fday fhour fminute fsecond fmillisecond].
  destruct Hsign as [-> | ->]; cbn [Z.ltb Z.compare]; f_equal; f_equal; lia.
Qed.

Lemma word_length w tok : is_word w tok -> Z.of_nat (length w) = tlength tok.
Proof. intros (_ & _ & <-). unfold word_token. by destruct (lookupKeyword _ _). Qed.

Lemma year_text_length y : (4 <= length (year_text y))%nat.
Proof. unfold year_text, year_width. rewrite fixed_length. destruct (_ <=? _); [lia|]. destruct (_ <=? _); lia. Qed.

(** A date and a time that are printed, from the year 100 on. *)
Definition legacy_ok (y m d h mi sec : Z) : Prop :=
  100 <= y <= 999999 /\ 1 <= m <= 12 /\ 1 <= d <= 31 /\ 0 <= h <= 23 /\ 0 <= mi <= 59 /\ 0 <= sec <= 59.

Definition utc_text (wd mo : text) (y d h mi sec : Z) : text :=
  wd ++ 44 :: 32 :: fixed 2 d ++ 32 :: mo ++ 32 :: year_text y ++ 32 :: clock_text h mi sec [].

Definition local_text (wd mo : text) (y d h mi sec sg hm : Z) : text :=
  wd ++ 32 :: mo ++ 32 :: fixed 2 d ++ 32 :: year_text y ++ 32 :: clock_text h mi sec (sg :: fixed 4 hm).

Ltac long := repeat match goal with H : is_word _ _ |- _ => apply word_length in H; cbn in H end; pose proof year_text_length; unfold utc_text, local_text, clock_text; repeat (rewrite length_app || cbn [length app]); rewrite ?fixed_length; change (length (bytes "GMT")) with 3%nat; match goal with H : forall y, (4 <= length (year_text y))%nat |- context [year_text ?y] => pose proof (H y) end; lia.

Lemma utc_fields wd mo y m d h mi sec : is_word wd (keywordOf KInvalid 0 3) -> is_word mo (keywordOf MonthName m 3) -> legacy_ok y m d h mi sec ->
  parseFields (utc_text wd mo y d h mi sec) = Some (mkFields y (m - 1) d h mi sec 0 true 0).
Proof.
  intros Hwd Hmo (Hy & Hm & Hd & Hh & Hmi & Hs). destruct (year_width_ok y ltac:(lia)) as [Hw Hyw].
  pose proof (go_clock 11 h mi sec [] true) as G. unfold utc_text.
  destruct (G (1 + Z.of_nat (length wd) + 1 + 1 + Z.of_nat 2 + 1 + Z.of_nat (length mo) + 1 + Z.of_nat (year_width y) + 1) (mkDay (([] ++ [d]) ++ [y]) m false) Hh Hmi Hs ltac:(done)) as [c' E]. cbn [Nat.add] in E.
  eapply word_fields; [exact Hwd|cbn; lia|long| |].
  - rewrite go_weekday by (done || cbn; lia). rewrite go_comma, go_space. unfold new_day. rewrite go_day by (cbn; lia || power). rewrite go_space, (go_month _ _ _ _ _ _ _ _ _ Hmo).
    rewrite go_space. unfold year_text. rewrite go_day by (done || cbn; lia). rewrite go_space. rewrite E. apply go_end.
  - cbn [app]. rewrite write_legacy by (lia || (split; cbn; lia)). done.
Qed.

Lemma local_fields wd mo y m d h mi sec sg hm : is_word wd (keywordOf KInvalid 0 3) -> is_word mo (keywordOf MonthName m 3) -> legacy_ok y m d h mi sec ->
  sg = 43 \/ sg = 45 -> 0 <= hm <= 9999 ->
  parseFields (local_text wd mo y d h mi sec sg hm) = Some (mkFields y (m - 1) d h mi sec 0 true ((44 - sg) * (Z.quot hm 100 * 3600 + Z.rem hm 100 * 60))).
Proof.
  intros Hwd Hmo (Hy & Hm & Hd & Hh & Hmi & Hs) Hsg Hhm. destruct (year_width_ok y ltac:(lia)) as [Hw Hyw]. unfold local_text.
  destruct (go_clock 12 h mi sec (sg :: fixed 4 hm) true (1 + Z.of_nat (length wd) + 1 + Z.of_nat (length mo) + 1 + Z.of_nat 2 + 1 + Z.of_nat (year_width y) + 1)
    (mkDay (([] ++ [d]) ++ [y]) m false) Hh Hmi Hs ltac:(cbn; lia)) as [c1 E1]. cbn [Nat.add] in E1.
  destruct (go_offset 11 sg hm c1 (mkDay (([] ++ [d]) ++ [y]) m false) (mkTime [h; mi; sec; 0] kNone) Hsg Hhm) as [c2 E2].
  eapply word_fields; [exact Hwd|cbn; lia|long| |].
  - rewrite go_weekday by (done || cbn; lia). unfold new_day. rewrite go_space, (go_month _ _ _ _ _ _ _ _ _ Hmo). rewrite go_space, go_day by (cbn; lia || power).
    rewrite go_space. unfold year_text. rewrite go_day by (done || cbn; lia). rewrite go_space, E1, E2. apply go_end.
  - cbn [app]. rewrite write_legacy by (lia || (split; cbn; Z.quot_rem_to_equations; lia)). done.
Qed.

(** What the printed fields of a time are. *)
Lemma legacy_fields z : time_ok z -> 100 <= year_of z -> legacy_ok (year_of z) (mon_of z + 1) (date_of z) (hour_of z) (min_of z) (sec_of z).
Proof.
  intros Hok Hy. pose proof (date_of_range z) as [Hm _]. pose proof (date_of_31 z). pose proof (clock_range z) as (? & ? & ? & ?).
  pose proof (year_of_bound z Hok). unfold legacy_ok. lia.
Qed.

(** The names, the numbers and the time of day of a time. *)
Definition day_name (z : Z) : text := bytes (nth (Z.to_nat ((day_of z + 4) mod 7)) kWeekdayShort EmptyString).
Definition month_name (z : Z) : text := bytes (nth (Z.to_nat (mon_of z)) kMonthShort EmptyString).

Lemma name_text table x i : isint x i -> name_at table x = bytes (nth (Z.to_nat i) table EmptyString).
Proof. intros Hx. unfold name_at. by rewrite (isint_to_int _ _ Hx). Qed.

Lemma date_text t z : isint t z -> time_ok z ->
  name_at kWeekdayShort (weekDay t) = day_name z /\ name_at kMonthShort (monthFromTime t) = month_name z /\ pad (dateFromTime t) 2 = fixed 2 (date_of z).
Proof.
  intros Ht Hz. pose proof (date_of_31 z). split; [apply name_text, isint_weekDay; done|]. split; [apply name_text, isint_monthFromTime; done|].
  apply pad_fixed; [by apply isint_dateFromTime|lia|power].
Qed.

Lemma timeString_text t z : isint t z -> time_ok z ->
  timeString t = fixed 2 (hour_of z) ++ 58 :: fixed 2 (min_of z) ++ 58 :: fixed 2 (sec_of z) ++ 32 :: bytes "GMT".
Proof.
  intros Ht Hz. pose proof (clock_range z) as (? & ? & ? & ?). unfold timeString.
  rewrite (pad_fixed _ (hour_of z) 2 (isint_hourFromTime _ _ Ht Hz)) by power.
  rewrite (pad_fixed _ (min_of z) 2 (isint_minFromTime _ _ Ht Hz)) by power.
  by rewrite (pad_fixed _ (sec_of z) 2 (isint_secFromTime _ _ Ht Hz)) by power.
Qed.

Lemma names_words z : is_word (day_name z) (keywordOf KInvalid 0 3) /\ is_word (month_name z) (keywordOf MonthName (mon_of z + 1) 3).
Proof.
  pose proof (date_of_range z) as [Hm _]. pose proof (Z.mod_pos_bound (day_of z + 4) 7 ltac:(lia)).
  split; [apply weekday_word; lia|apply month_word; lia].
Qed.

Lemma year_of_from z y : 86400000 * days_before y <= z -> y <= year_of z.
Proof.
  intros H. pose proof (year_of_spec z). destruct (Z.le_gt_cases y (year_of z)) as [|Hlt]; [done|].
  pose proof (days_before_mono (year_of z + 1) y ltac:(lia)). lia.
Qed.

(** A time value from the year 100 on is printed by toUTCString as a text that Date.parse
    reads back as that time value without its milliseconds, whatever the zone of the host,
    by the legacy grammar: the name of the day is a word that is ignored, the first number
    is the day, the next one the year, and GMT after the time is the offset. *)
Theorem utc_roundtrip localtime_r gmtime_r z : time_value z -> 86400000 * days_before 100 <= z ->
  parse localtime_r gmtime_r (utcString (of_int z)) = of_int (z - z mod 1000).
Proof.
  intros Hz Hy. assert (Hok : time_ok z) by (unfold time_value, time_ok in *; lia). apply year_of_from in Hy.
  pose proof (legacy_fields z Hok Hy) as Hl. unfold time_value in Hz. assert (Ht : isint (of_int z) z) by (apply of_int_isint; lia).
  destruct (date_text _ _ Ht Hok) as (E1 & E2 & E3). destruct (names_words z) as [Hwd Hmo]. pose proof (clock_range z).
  replace (z - z mod 1000) with (z - ms_of z + 0 - 0 * 1000) by (unfold ms_of; lia).
  apply parse_fields; [done|lia|lia| |unfold ms_of; Z.div_mod_to_equations; lia].
  unfold utcString. rewrite (isint_not_nan _ _ Ht), E1, E2, E3, (timeString_text _ _ Ht Hok).
  rewrite (yearField_text _ (year_of z)) by (by apply isint_yearFromTime || (unfold legacy_ok in Hl; lia)).
  pose proof (utc_fields _ _ _ _ _ _ _ _ Hwd Hmo Hl) as F. rewrite Z.add_simpl_r in F. exact F.
Qed.

Lemma utc_roundtrip_witness :
  parse (fun _ => None) (fun _ => None) (utcString (of_int 951782400007)) = of_int 951782400000 /\
  utcString (of_int 951782400007) = bytes "Tue, 29 Feb 2000 00:00:00 GMT".
Proof.
  split; [|vm_compute; reflexivity]. refine (utc_roundtrip _ _ 951782400007 _ _); [unfold time_value; lia|]. vm_compute. discriminate.
Defined.

(** The hours and the minutes of an offset. *)
Definition zone_digits (o : Z) : Z := Z.abs o / 3600000 * 100 + Z.abs o mod 3600000 / 60000.

Lemma zone_digits_text h m : 0 <= h <= 99 -> 0 <= m <= 99 -> fixed 2 h ++ fixed 2 m = fixed 4 (h * 100 + m).
Proof.
  intros Hh Hm. unfold fixed. cbn [fixed_rev rev app].
  do 3 (f_equal; [Z.div_mod_to_equations; lia|]). f_equal. Z.div_mod_to_equations; lia.
Qed.

Section Local.
Context (localtime_r gmtime_r : Z -> option tm).

Lemma timeZoneString_text t o : isint (localOffsetMs localtime_r gmtime_r t) o -> Z.abs o < 86400000 ->
  timeZoneString localtime_r gmtime_r t = (if 0 <=? o then 43 else 45) :: fixed 4 (zone_digits o).
Proof.
  intros Ho Hb. unfold timeZoneString. rewrite (isint_le _ _ 0 o) by (done || by apply of_int_isint).
  assert (Ha : isint (dabs (localOffsetMs localtime_r gmtime_r t)) (Z.abs o)) by (by apply isint_abs). set (a := dabs _) in *. clearbody a.
  pose proof (Z.mod_pos_bound (Z.abs o) 3600000 ltac:(lia)). unfold kMsPerHour, kMsPerMinute.
  assert (Hh : isint (dfloor (ddiv a (of_int 3600000))) (Z.abs o / 3600000)) by isint.
  assert (Hr : isint (modulo a (of_int 3600000)) (Z.abs o mod 3600000)) by (apply isint_modulo; [done|by apply of_int_isint|lia]).
  assert (Hm : isint (dfloor (ddiv (modulo a (of_int 3600000)) (of_int 60000))) (Z.abs o mod 3600000 / 60000)) by isint.
  rewrite (pad_fixed _ _ 2 Hh) by (lia || (split; [|power]; Z.div_mod_to_equations; lia) || (change (10 ^ Z.of_nat 2) with 100; Z.div_mod_to_equations; lia)).
  rewrite (pad_fixed _ _ 2 Hm) by (lia || (change (10 ^ Z.of_nat 2) with 100; Z.div_mod_to_equations; lia)).
  cbn [app]. f_equal. apply zone_digits_text; Z.div_mod_to_equations; lia.
Qed.

(** C12: a time value whose local time is from the year 100 on is printed by toString as a
    text that Date.parse reads back as that time value without its milliseconds, when the
    host's offset at that time is a number of minutes under a day: the hours and the
    minutes after the sign are the offset that the parser takes away again. *)
Theorem local_roundtrip z o : time_value z ->
  isint (localOffsetMs localtime_r gmtime_r (of_int z)) o -> o mod 60000 = 0 -> Z.abs o < 86400000 ->
  86400000 * days_before 100 <= z + o ->
  parse localtime_r gmtime_r (dateTimeString localtime_r gmtime_r (of_int z)) = of_int (z - z mod 1000).
Proof.
  intros Hz Ho Hmin Hb Hy. assert (Hok : time_ok (z + o)) by (unfold time_value, time_ok in *; lia). apply year_of_from in Hy.
  pose proof (legacy_fields _ Hok Hy) as Hl. unfold time_value in Hz. assert (Ht0 : isint (of_int z) z) by (apply of_int_isint; lia).
  assert (Ht : isint (localTime localtime_r gmtime_r (of_int z)) (z + o)).
  { unfold localTime. rewrite (isint_finite _ _ Ht0). cbn [negb]. isint. }
  destruct (date_text _ _ Ht Hok) as (E1 & E2 & E3). destruct (names_words (z + o)) as [Hwd Hmo]. pose proof (clock_range (z + o)).
  set (sg := if 0 <=? o then 43 else 45).
  assert (Hoff : (44 - sg) * (Z.quot (zone_digits o) 100 * 3600 + Z.rem (zone_digits o) 100 * 60) * 1000 = o).
  { unfold sg, zone_digits. destruct (Z.leb_spec 0 o); Z.div_mod_to_equations; Z.quot_rem_to_equations; lia. }
  set (off := (44 - sg) * _) in *.
  replace (z - z mod 1000) with (z + o - ms_of (z + o) + 0 - off * 1000) by (unfold ms_of; clearbody off; Z.div_mod_to_equations; lia).
  apply parse_fields; [done|lia|lia| |clearbody off; unfold ms_of; Z.div_mod_to_equations; lia].
  unfold dateTimeString, dateString. rewrite (isint_not_nan _ _ Ht0), E1, E2, E3, (timeString_text _ _ Ht Hok), (timeZoneString_text _ _ Ho Hb). fold sg.
  rewrite (yearField_text _ (year_of (z + o))) by (by apply isint_yearFromTime || (unfold legacy_ok in Hl; lia)).
  assert (Hd : 0 <= zone_digits o <= 9999) by (unfold zone_digits; Z.div_mod_to_equations; lia).
  pose proof (local_fields _ _ _ _ _ _ _ _ sg _ Hwd Hmo Hl ltac:(unfold sg; destruct (0 <=? o); lia) Hd) as F. rewrite Z.add_simpl_r in F. fold off in F.
  rewrite <- F. f_equal. unfold local_text, clock_text. rewrite <- !app_assoc. cbn [app]. rewrite <- !app_assoc. done.
Qed.
End Local.

(** A host five hours and a half east of Greenwich. *)
Definition tm_at (secs : Z) : tm :=
  let z := secs * 1000 in mkTm (year_of z - 1900) (mon_of z) (date_of z) (hour_of z) (min_of z) (sec_of z).
Definition east_localtime (secs : Z) : option tm := Some (tm_at (secs + 19800)).
Definition east_gmtime (secs : Z) : option tm := Some (tm_at secs).

Lemma local_roundtrip_witness :
  parse east_localtime east_gmtime (dateTimeString east_localtime east_gmtime (of_int 951782400007)) = of_int 951782400000 /\
  dateTimeString east_localtime east_gmtime (of_int 951782400007) = bytes "Tue Feb 29 2000 05:30:00 GMT+0530".
Proof.
  split; [|vm_compute; reflexivity]. refine (local_roundtrip east_localtime east_gmtime 951782400007 19800000 _ _ _ _ _); [unfold time_value; lia| |done|lia|].
  - replace (localOffsetMs _ _ _) with (of_int 19800000) by (vm_compute; reflexivity). by apply of_int_isint.
  - vm_compute. discriminate.
Defined.

(** The years before 100 are not read back: two digits name a year of the last century. *)
Example year_99_read : utcString (of_int (-59042995200000)) = bytes "Thu, 01 Jan 0099 00:00:00 GMT" /\
  utcString (parse (fun _ => None) (fun _ => None) (bytes "Thu, 01 Jan 0099 00:00:00 GMT")) = bytes "Fri, 01 Jan 1999 00:00:00 GMT".
Proof. split; vm_compute; reflexivity. Qed.

(** The seconds of an offset wrap round: the hour that the source says is refused is taken,
    as 817402352 seconds. *)
Example gmt_offset_wraps :
  offsetSeconds <$> parseFields (bytes "1 Jan 1970 00:00 GMT+999999999:") = Some 817402352.
Proof. vm_compute. reflexivity. Qed.
