(* ===== verification/DateZones.v ===== *)
(** * The names of time zones

    The claim on [resolveTimeZone]: what it answers is canonical, and stands for the same
    offset. *)
From stdpp Require Import list strings.
From S2P Require Import Prelude Float64 DoubleArith DateMath DateText.
Local Open Scope Z_scope.
Local Open Scope bool_scope.

(** ** Names up to case *)

Lemma iequals_spec a b : iequals a b = true <-> map asciiToLower a = map asciiToLower b.
Proof. unfold iequals. by rewrite bool_decide_eq_true. Qed.

Lemma iequals_alike a b c : iequals a b = true -> iequals a c = iequals b c.
Proof. intros H%iequals_spec. unfold iequals. by rewrite H. Qed.

Definition letter (c : Z) : bool := ((65 <=? c) && (c <=? 90)) || ((97 <=? c) && (c <=? 122)).

Lemma lower_letter a : letter (asciiToLower a) = letter a.
Proof. unfold letter, asciiToLower. destruct ((65 <=? a) && (a <=? 90)) eqn:E; lia. Qed.

Lemma lower_inj a b : asciiToLower a = asciiToLower b -> letter b = false -> a = b.
Proof.
  intros H Hb. assert (Ha : letter a = false) by (by rewrite <- lower_letter, H, lower_letter). unfold letter, asciiToLower in *.
  destruct ((65 <=? a) && (a <=? 90)) eqn:E1; destruct ((65 <=? b) && (b <=? 90)) eqn:E2; lia.
Qed.

(** A text without letters is written one way. *)
Lemma lower_text a b : map asciiToLower a = map asciiToLower b -> forallb (fun c => negb (letter c)) b = true -> a = b.
Proof.
  revert b. induction a as [|x a IH]; intros [|y b] H Hb; cbn in *; [done|done|done|]. injection H as Hx Ha. apply andb_true_iff in Hb as [Hy Hb].
  f_equal; [by apply lower_inj; [|apply negb_true_iff]|by apply IH].
Qed.

Lemma digit_no_letter c : isDigit c = true -> letter c = false.
Proof. unfold isDigit, letter. lia. Qed.

Lemma offset_fields_letters s r : offset_fields s = Some r -> forallb (fun c => negb (letter c)) (drop 1 s) = true.
Proof.
  unfold offset_fields. intros H.
  repeat (case_match; try done). all: subst; repeat match goal with H : _ && _ = true |- _ => apply andb_true_iff in H as [? ?] end.
  all: repeat match goal with H : isDigit _ = true |- _ => apply digit_no_letter in H end; cbn; unfold letter in *; lia.
Qed.

Lemma iso_letters s r : parseIsoOffsetTimeZone s = Some r -> forallb (fun c => negb (letter c)) s = true.
Proof.
  unfold parseIsoOffsetTimeZone. destruct s as [|sg s]; [done|]. destruct (negb (sg =? 43) && negb (sg =? 45)) eqn:E; [done|].
  destruct (offset_fields (sg :: s)) as [[hh mm]|] eqn:Ef; [|done]. intros _. apply offset_fields_letters in Ef. change (drop 1 (sg :: s)) with s in Ef. cbn [forallb]. rewrite Ef.
  unfold letter. lia.
Qed.

(** ** What is read of a name does not see its case *)

Lemma iso_alike x z r : iequals x z = true -> parseIsoOffsetTimeZone z = Some r -> x = z.
Proof. intros H%iequals_spec Hz. apply lower_text; [done|by eapply iso_letters]. Qed.

Lemma read_digits_letters ds n : read_digits ds = Some n -> forallb (fun c => negb (letter c)) ds = true.
Proof.
  unfold read_digits. destruct (forallb isDigit ds) eqn:E; [|done]. intros _. rewrite forallb_forall in *. intros c Hc. by rewrite digit_no_letter by auto.
Qed.

(** What is after the prefix of a zone that is a number of hours. *)
Lemma etc_letters s r : parseEtcGmtTimeZone s = Some r -> forallb (fun c => negb (letter c)) (drop 7 s) = true.
Proof.
  unfold parseEtcGmtTimeZone. destruct (length s <=? 7)%nat; [done|]. destruct (negb (iequals (take 7 s) (bytes "etc/gmt"))); [done|].
  destruct (bool_decide (drop 7 s = bytes "0") || bool_decide (drop 7 s = bytes "+0") || bool_decide (drop 7 s = bytes "-0")) eqn:E.
  - intros _. apply orb_true_iff in E as [E|E]; [apply orb_true_iff in E as [E|E]|]; apply bool_decide_eq_true in E; rewrite E; done.
  - destruct ((length (drop 7 s) <? 2)%nat || (3 <? length (drop 7 s))%nat); [done|]. destruct (drop 7 s) as [|sg ds]; [done|].
    destruct (negb (sg =? 43) && negb (sg =? 45)) eqn:Es; [done|]. destruct (read_digits ds) as [n|] eqn:Ed; [|done]. intros _.
    cbn [forallb]. rewrite (read_digits_letters _ _ Ed). unfold letter. lia.
Qed.

Lemma etc_alike x z r : iequals x z = true -> parseEtcGmtTimeZone z = Some r -> parseEtcGmtTimeZone x = Some r.
Proof.
  intros H Hz. pose proof (etc_letters z r Hz) as Hl. apply iequals_spec in H.
  assert (Hlen : length x = length z) by (rewrite <- (length_map asciiToLower x), H; apply length_map).
  assert (Hd : drop 7 x = drop 7 z) by (apply lower_text; [by rewrite <- !skipn_map, H|done]).
  unfold parseEtcGmtTimeZone in *. rewrite Hlen, Hd. rewrite (iequals_alike _ (take 7 z)); [exact Hz|].
  apply iequals_spec. by rewrite <- !firstn_map, H.
Qed.

Lemma iana_char_lower a b : asciiToLower a = asciiToLower b -> iana_char a = iana_char b.
Proof.
  intros H. destruct (letter b) eqn:E.
  - assert (letter a = true) by (by rewrite <- lower_letter, H, lower_letter). unfold iana_char, letter in *.
    destruct ((65 <=? a) && (a <=? 90)), ((97 <=? a) && (a <=? 122)), ((65 <=? b) && (b <=? 90)), ((97 <=? b) && (b <=? 122)); done.
  - by rewrite (lower_inj _ _ H E).
Qed.

Lemma iana_chars_lower a b : map asciiToLower a = map asciiToLower b -> forallb iana_char a = forallb iana_char b.
Proof.
  revert b. induction a as [|x a IH]; intros [|y b] H; cbn in *; try done. injection H as Hx Ha. by rewrite (iana_char_lower _ _ Hx), (IH _ Ha).
Qed.

Lemma slash_lower a b : asciiToLower a = asciiToLower b -> (a =? 47) = (b =? 47).
Proof. unfold asciiToLower. destruct ((65 <=? a) && (a <=? 90)) eqn:E1; destruct ((65 <=? b) && (b <=? 90)) eqn:E2; lia. Qed.

Lemma last_lower a b : map asciiToLower a = map asciiToLower b -> asciiToLower (List.last a 0) = asciiToLower (List.last b 0).
Proof.
  revert b. induction a as [|x a IH]; intros [|y b] H; cbn in *; try done. injection H as Hx Ha. specialize (IH b Ha).
  destruct a, b; try done.
Qed.

Lemma looks_alike x z : iequals x z = true -> looksLikeIanaIdentifier x = looksLikeIanaIdentifier z.
Proof.
  intros H%iequals_spec. pose proof (last_lower _ _ H) as Hl. pose proof (iana_chars_lower _ _ H) as Hc.
  destruct x as [|a x], z as [|b z]; try done. unfold looksLikeIanaIdentifier. rewrite Hc, (slash_lower _ _ Hl). pose proof H as H'. cbn in H'. injection H' as Ha Hx.
  rewrite (slash_lower _ _ Ha). cbn [length]. by rewrite <- (length_map asciiToLower x), Hx, length_map.
Qed.

Lemma find_alike {A} (p q : A -> bool) l : (forall a, p a = q a) -> List.find p l = List.find q l.
Proof. intros H. induction l as [|a l IH]; cbn; [done|]. by rewrite H, IH. Qed.

Lemma known_alike x z : iequals x z = true -> findKnownIanaZone x = findKnownIanaZone z.
Proof. intros H. apply find_alike. intros e. by rewrite !(iequals_alike _ _ _ H). Qed.

Lemma utc_alike x z : iequals x z = true -> existsb (fun n => iequals x (bytes n)) kUtcNames = existsb (fun n => iequals z (bytes n)) kUtcNames.
Proof. intros H. induction kUtcNames as [|n l IH]; cbn [existsb]; [done|]. by rewrite (iequals_alike _ _ _ H), IH. Qed.

(** ** Canonical names *)

Lemma two_digits_read n : 0 <= n <= 99 -> exists a b, two_digits n = [a; b] /\ isDigit a = true /\ isDigit b = true /\ (a - 48) * 10 + (b - 48) = n.
Proof.
  intros Hn. exists (48 + n / 10), (48 + n mod 10). unfold isDigit. split; [done|]. split; [|split]; Z.div_mod_to_equations; lia.
Qed.

(** The canonical text of an offset. *)
Definition offset_name (sg hh mm : Z) : text := [sg] ++ two_digits hh ++ [58] ++ two_digits mm.
Definition offset_ms (sg hh mm : Z) : double :=
  let magMs := dadd (dmul (of_int hh) kMsPerHour) (dmul (of_int mm) kMsPerMinute) in if sg =? 45 then dneg magMs else magMs.

Lemma iso_offset s c off : parseIsoOffsetTimeZone s = Some (c, off) ->
  exists sg hh mm, 0 <= hh <= 23 /\ 0 <= mm <= 59 /\ (sg = 43 \/ sg = 45 /\ hh * 60 + mm <> 0) /\ c = offset_name sg hh mm /\ off = offset_ms sg hh mm.
Proof.
  unfold parseIsoOffsetTimeZone. destruct s as [|sg s]; [done|]. destruct (negb (sg =? 43) && negb (sg =? 45)) eqn:Es; [done|].
  destruct (offset_fields (sg :: s)) as [[hh mm]|]; [|done]. destruct ((hh <? 0) || (23 <? hh) || (mm <? 0) || (59 <? mm)) eqn:Eb; [done|].
  intros [= <- <-]. exists (if hh * 60 + mm =? 0 then 43 else sg), hh, mm. repeat split; try lia. destruct (Z.eqb_spec (hh * 60 + mm) 0); lia.
Qed.

Lemma offset_name_read sg hh mm : 0 <= hh <= 23 -> 0 <= mm <= 59 -> sg = 43 \/ sg = 45 /\ hh * 60 + mm <> 0 ->
  parseIsoOffsetTimeZone (offset_name sg hh mm) = Some (offset_name sg hh mm, offset_ms sg hh mm).
Proof.
  intros Hh Hm Hs. destruct (two_digits_read hh ltac:(lia)) as (a & b & Eh & Ha & Hb & Vh). destruct (two_digits_read mm ltac:(lia)) as (a' & b' & Em & Ha' & Hb' & Vm).
  unfold parseIsoOffsetTimeZone. set (s := offset_name sg hh mm) at 1. assert (E : s = [sg; a; b; 58; a'; b']) by (unfold s, offset_name; by rewrite Eh, Em). rewrite E.
  assert (Hsg : negb (sg =? 43) && negb (sg =? 45) = false) by lia. rewrite Hsg. fold s. rewrite E. cbn [offset_fields]. rewrite Ha, Hb, Ha', Hb', Vh, Vm. change (58 =? 58) with true. cbn [andb].
  assert (Hr : (hh <? 0) || (23 <? hh) || (mm <? 0) || (59 <? mm) = false) by lia. rewrite Hr.
  assert (Hn : (if hh * 60 + mm =? 0 then 43 else sg) = sg) by (destruct (Z.eqb_spec (hh * 60 + mm) 0); lia).
  rewrite Hn. clearbody s. unfold offset_ms. by rewrite Eh, Em.
Qed.

(** A name that starts with a sign is not one of the names of UTC. *)
Lemma sign_not_utc sg s : sg = 43 \/ sg = 45 -> existsb (fun n => iequals (sg :: s) (bytes n)) kUtcNames = false.
Proof.
  intros Hs. unfold kUtcNames. cbn [existsb]. unfold iequals. rewrite !bool_decide_eq_false_2; [done|..].
  all: intros H; vm_compute bytes in H; cbn [map] in H; injection H as H; destruct Hs as [-> | ->]; discriminate.
Qed.

Lemma etc_name s c off : parseEtcGmtTimeZone s = Some (c, off) -> c = bytes "UTC" /\ off = of_int 0 \/
  exists sg h, (sg = 43 \/ sg = 45) /\ 1 <= h <= 14 /\ c = bytes "Etc/GMT" ++ [sg] ++ int_text h /\
    off = if sg =? 45 then dmul (of_int h) kMsPerHour else dmul (dneg (of_int h)) kMsPerHour.
Proof.
  unfold parseEtcGmtTimeZone. destruct (length s <=? 7)%nat; [done|]. destruct (negb (iequals _ _)); [done|].
  destruct (bool_decide _ || _ || _); [intros H; left; split; congruence|]. destruct ((length (drop 7 s) <? 2)%nat || _); [done|].
  destruct (drop 7 s) as [|sg ds]; [done|]. destruct (negb (sg =? 43) && negb (sg =? 45)) eqn:Es; [done|].
  destruct (read_digits ds) as [h|]; [|done]. destruct ((h <? 1) || (14 <? h)) eqn:Eh; [done|]. destruct ((length (sg :: ds) =? 3)%nat && _); [done|].
  intros H. right. exists sg, h. split; [lia|split; [lia|split; congruence]].
Qed.

Section Zones.
Context (localtime_r gmtime_r : Z -> option tm) (tzdb_zones : list text) (tzdb_links : list (text * text)) (tzdb_offset : text -> Z -> option Z).
Notation resolve := (resolveTimeZone tzdb_zones tzdb_links).
Notation offset := (timeZoneOffsetMs localtime_r gmtime_r tzdb_offset).

(** The names of hours resolve to themselves, at their offset. *)
Lemma etc_canonical sg h t : sg = 43 \/ sg = 45 -> 1 <= h <= 14 -> isfinite t = true ->
  let c := bytes "Etc/GMT" ++ [sg] ++ int_text h in
  resolve c = Some c /\ offset t c = if sg =? 45 then dmul (of_int h) kMsPerHour else dmul (dneg (of_int h)) kMsPerHour.
Proof.
  intros Hs Hh Ht. assert (Hin : In h (map Z.of_nat (seq 1 14))) by (cbn; lia). unfold timeZoneOffsetMs. rewrite Ht. cbn [seq map In] in Hin.
  destruct Hs as [-> | ->]; repeat (destruct Hin as [<-|Hin]; [split; vm_compute; reflexivity|]); done.
Qed.

(** Every canonical name of the table resolves to itself. *)
Definition keeps (e : IanaZoneEntry) : bool :=
  let s := bytes (canonical e) in
  negb (empty s) && negb (existsb (fun n => iequals s (bytes n)) kUtcNames) && match parseIsoOffsetTimeZone s with None => true | _ => false end &&
  match parseEtcGmtTimeZone s with None => true | _ => false end && looksLikeIanaIdentifier s &&
  match findKnownIanaZone s with Some e' => bool_decide (canonical e' = canonical e) | None => false end.

Lemma table_keeps : forallb keeps kKnownIanaZones = true.
Proof. vm_compute. reflexivity. Qed.

Lemma known_canonical x e : findKnownIanaZone x = Some e -> resolve (bytes (canonical e)) = Some (bytes (canonical e)).
Proof.
  intros H. unfold findKnownIanaZone in H. apply find_some in H as [Hin _]. pose proof table_keeps as K. rewrite forallb_forall in K. specialize (K e Hin). unfold keeps in K.
  apply andb_true_iff in K as [K K6]. apply andb_true_iff in K as [K K5]. apply andb_true_iff in K as [K K4]. apply andb_true_iff in K as [K K3].
  apply andb_true_iff in K as [K1 K2]. apply negb_true_iff in K2. unfold resolveTimeZone.
  destruct (bytes (canonical e)) as [|b s] eqn:E; [done|]. rewrite K2, K5. cbn [negb].
  destruct (parseIsoOffsetTimeZone (b :: s)); [done|]. destruct (parseEtcGmtTimeZone (b :: s)); [done|]. destruct (findKnownIanaZone (b :: s)) as [e'|]; [|done].
  apply bool_decide_eq_true in K6. by rewrite K6, E.
Qed.

(** The offset a name spells out. *)
Definition spelled_offset (x : text) : option double :=
  match parseIsoOffsetTimeZone x with Some (_, off) => Some off | None => snd <$> parseEtcGmtTimeZone x end.

Lemma utc_names_spell_none : forallb (fun n => match spelled_offset (bytes n) with None => true | _ => false end) kUtcNames = true.
Proof. vm_compute. reflexivity. Qed.

Lemma utc_spells_none x : existsb (fun n => iequals x (bytes n)) kUtcNames = true -> spelled_offset x = None.
Proof.
  intros (n & Hn & Hx)%existsb_exists. pose proof utc_names_spell_none as K. rewrite forallb_forall in K. specialize (K n Hn).
  assert (Hx' : iequals (bytes n) x = true) by (apply iequals_spec; symmetry; by apply iequals_spec).
  unfold spelled_offset in *. destruct (parseIsoOffsetTimeZone x) as [[c off]|] eqn:E1.
  - rewrite (iso_alike _ _ _ Hx' E1), E1 in K. done.
  - destruct (parseEtcGmtTimeZone x) as [r|] eqn:E2; [|done]. rewrite (etc_alike _ _ _ Hx' E2) in K. by destruct (parseIsoOffsetTimeZone (bytes n)) as [[]|].
Qed.

Lemma iequals_sym a b : iequals a b = true -> iequals b a = true.
Proof. rewrite !iequals_spec. done. Qed.

Lemma resolve_alike x z : iequals x z = true -> resolve x = resolve z.
Proof.
  intros H. pose proof (iequals_sym _ _ H) as H'. assert (Hi : parseIsoOffsetTimeZone x = parseIsoOffsetTimeZone z).
  { destruct (parseIsoOffsetTimeZone z) as [r|] eqn:E; [by rewrite (iso_alike _ _ _ H E)|]. destruct (parseIsoOffsetTimeZone x) as [r|] eqn:E'; [|done].
    rewrite (iso_alike _ _ _ H' E') in E. congruence. }
  assert (He : parseEtcGmtTimeZone x = parseEtcGmtTimeZone z).
  { destruct (parseEtcGmtTimeZone z) as [r|] eqn:E; [by apply (etc_alike _ _ _ H)|]. destruct (parseEtcGmtTimeZone x) as [r|] eqn:E'; [|done].
    rewrite (etc_alike _ _ _ H' E') in E. done. }
  unfold resolveTimeZone. destruct x as [|a x], z as [|b z]; [done|done|done|].
  rewrite (utc_alike _ _ H), Hi, He, (looks_alike _ _ H), (known_alike _ _ H), (find_alike _ _ tzdb_zones (fun c => iequals_alike _ _ c H)).
  by rewrite (find_alike _ _ tzdb_links (fun l => iequals_alike _ _ (fst l) H)).
Qed.

(** The name that resolveTimeZone answers is canonical: every writing of the name in other
    cases of its letters gets the same answer; the answer resolves to itself, except where a
    link of the host's zone database gave it; and where the name given spells out an
    offset, of hours and minutes or of the hours of Etc/GMT with their sign turned round,
    the answer has that offset at every time. *)
Theorem resolve_canonical x c t : isfinite t = true -> resolve x = Some c ->
  (forall x', iequals x' x = true -> resolve x' = Some c) /\
  (resolve c = Some c \/ exists l, In l tzdb_links /\ iequals x (fst l) = true /\ c = snd l) /\
  (forall off, spelled_offset x = Some off -> offset t c = off).
Proof.
  intros Ht H. split; [intros x' Hx'; by rewrite (resolve_alike _ _ Hx')|]. assert (Hne : x <> []) by (intros ->; done). unfold resolveTimeZone in H. destruct x as [|b s]; [done|]. clear Hne. set (x := b :: s) in *.
  destruct (existsb _ kUtcNames) eqn:Eu.
  { injection H as <-. split; [left; reflexivity|]. intros off Ho. by rewrite utc_spells_none in Ho. }
  unfold spelled_offset. destruct (parseIsoOffsetTimeZone x) as [[c1 off1]|] eqn:E1.
  { injection H as <-. apply iso_offset in E1 as (sg & hh & mm & Hh & Hm & Hs & -> & ->). pose proof (offset_name_read sg hh mm Hh Hm Hs) as Er.
    assert (Hsg : sg = 43 \/ sg = 45) by lia. assert (En : offset_name sg hh mm = sg :: two_digits hh ++ [58] ++ two_digits mm) by done.
    split; [left|intros off [= <-]].
    - unfold resolveTimeZone. rewrite Er, En, sign_not_utc by done. done.
    - unfold timeZoneOffsetMs. rewrite Ht, Er. cbn [negb]. rewrite bool_decide_eq_false_2 by (rewrite En; destruct Hsg as [-> | ->]; discriminate). by rewrite En at 1. }
  destruct (parseEtcGmtTimeZone x) as [[c2 off2]|] eqn:E2.
  { injection H as <-. cbn [fmap option_fmap option_map snd]. apply etc_name in E2 as [[-> ->]|(sg & h & Hs & Hh & -> & ->)].
    - split; [left; reflexivity|]. intros off [= <-]. unfold timeZoneOffsetMs. by rewrite Ht.
    - destruct (etc_canonical sg h t Hs Hh Ht) as [Er Eo]. split; [by left|]. by intros off [= <-]. }
  split; [|done]. destruct (looksLikeIanaIdentifier x) eqn:El; [cbn [negb] in H|done].
  destruct (findKnownIanaZone x) as [e|] eqn:Ek; [injection H as <-; left; by apply known_canonical with x|].
  destruct (List.find (iequals x) tzdb_zones) as [z|] eqn:Ez.
  - injection H as <-. left. apply find_some in Ez as Hz. destruct Hz as [_ Hz].
    assert (Hz' : iequals z x = true) by (apply iequals_spec; symmetry; by apply iequals_spec).
    unfold resolveTimeZone. destruct z as [|b' s'] eqn:Ezz; [done|]. rewrite <- Ezz in *.
    rewrite (utc_alike _ _ Hz'), Eu, (looks_alike _ _ Hz'), El, (known_alike _ _ Hz'), Ek. cbn [negb].
    destruct (parseIsoOffsetTimeZone z) as [r|] eqn:E1'; [rewrite <- (iso_alike _ _ _ Hz E1') in E1'; congruence|].
    destruct (parseEtcGmtTimeZone z) as [r|] eqn:E2'; [rewrite (etc_alike _ _ _ Hz E2') in E2; done|].
    by rewrite (find_alike (iequals z) (iequals x) tzdb_zones (fun a => iequals_alike _ _ a Hz')), Ez.
  - right. destruct (List.find _ tzdb_links) as [l|] eqn:El'; [|done]. injection H as <-. apply find_some in El' as [? ?]. by exists l.
Qed.
End Zones.

Lemma resolve_canonical_witness :
  (resolveTimeZone [] [] (bytes "etc/gmt-9") = Some (bytes "Etc/GMT-9")) /\
  timeZoneOffsetMs (fun _ => None) (fun _ => None) (fun _ _ => None) (of_int 0) (bytes "Etc/GMT-9") = dmul (of_int 9) kMsPerHour.
Proof.
  split; [vm_compute; reflexivity|].
  refine (proj2 (proj2 (resolve_canonical (fun _ => None) (fun _ => None) [] [] (fun _ _ => None) (bytes "etc/gmt-9") (bytes "Etc/GMT-9") (of_int 0) _ _)) _ _); vm_compute; reflexivity.
Defined.

(** A link of the zone database can answer a name that is not canonical: UTC has another. *)
Example link_not_canonical : let resolve := resolveTimeZone [bytes "Etc/UTC"] [(bytes "Etc/Zulu", bytes "Etc/UTC")] in
  resolve (bytes "Etc/Zulu") = Some (bytes "Etc/UTC") /\ resolve (bytes "Etc/UTC") = Some (bytes "UTC").
Proof. split; vm_compute; reflexivity. Qed.
