(* ===== verification/ExactDecimal.v ===== *)
(** * Exact digits of a double (src/src/runtime/exact_decimal.cpp)

    A non-negative integer of any width, little-endian in 32-bit limbs, and the digits of a
    scaled double that are computed with it.  The loops over limbs that exact_decimal.cpp
    shares with bignum.cpp, word for word, are those of [BigNumMag]. *)
From S2P Require Import Prelude BigNumMag BigNumOps BigNumText Float64 DoubleArith.
Local Open Scope Z_scope.
Local Open Scope bool_scope.

(** ** The integers *)

Notation BigUInt := (list Z).

Definition fromUint64 (v : Z) : BigUInt := pop_zeros [u32 v; u32 (Z.shiftr v 32)].

Definition isZero (l : BigUInt) : bool := empty l.

Definition mulSmall (l : BigUInt) (factor : Z) : BigUInt :=
  if isZero l || (factor =? 0) then (if factor =? 0 then [] else l) else mulAddSmall l factor 0.

Definition divSmall (l : BigUInt) (divisor : Z) : BigUInt * Z := divModSmall l divisor.

Definition shiftLeft (l : BigUInt) (bits : Z) : BigUInt := if isZero l || (bits =? 0) then l else shiftLeftBits l bits.
Definition shiftRight (l : BigUInt) (bits : Z) : BigUInt := if isZero l || (bits =? 0) then l else fst (shiftRightBits l bits).

(** [32 - std::countl_zero(v)] *)
Definition bit_width (v : Z) : Z := if v =? 0 then 0 else Z.log2 v + 1.

Definition bitLength (l : BigUInt) : Z :=
  match last l with
  | None => 0
  | Some top => u32 ((Z.of_nat (length l) - 1) * 32 + bit_width top)
  end.

Definition testBit (l : BigUInt) (bit : Z) : bool :=
  let limb := Z.to_nat (bit / 32) in
  if (length l <=? limb)%nat then false else Z.testbit l.[limb] (bit mod 32).

Definition setBit (l : BigUInt) (bit : Z) : BigUInt :=
  let limb := Z.to_nat (bit / 32) in
  let l := l ++ replicate (S limb - length l) 0 in
  <[limb := Z.lor l.[limb] (u32 (Z.shiftl 1 (bit mod 32)))]> l.

Definition compare (a b : BigUInt) : Z := compareMagnitude a b.
Definition subtract (a b : BigUInt) : BigUInt := subMagnitude a b.

Fixpoint addOne (l : BigUInt) : BigUInt :=
  match l with
  | [] => [1]
  | d :: l => let d := u32 (d + 1) in if negb (d =? 0) then d :: l else d :: addOne l
  end.

Definition kPow10 : list Z := [1; 10; 100; 1000; 10000; 100000; 1000000; 10000000; 100000000; 1000000000].

(** Nine powers at a time. *)
Definition mulPow10 (l : BigUInt) (exponent : Z) : BigUInt :=
  let '(l, exponent) :=
    while (S (Z.to_nat exponent)) (fun '(l, exponent) => 9 <=? exponent)
      (fun '(l, exponent) => (mulSmall l kPow10.[9], exponent - 9)) (l, exponent) in
  if 0 <? exponent then mulSmall l kPow10.[Z.to_nat exponent] else l.

(** The digits of one chunk, the last one first. *)
Fixpoint emit_nine (n : nat) (mostSignificant : bool) (chunk : Z) (out : list Z) : list Z :=
  match n with
  | O => out
  | S n =>
      if negb mostSignificant || negb (chunk =? 0)
      then emit_nine n mostSignificant (chunk / 10) (out ++ [48 + chunk mod 10])
      else out
  end.

Definition decimal_step : BigUInt * list Z -> BigUInt * list Z :=
  fun '(work, out) =>
    let '(work, chunk) := divSmall work 1000000000 in
    (work, emit_nine 9 (isZero work) chunk out).

Definition toDecimal (l : BigUInt) : list Z :=
  if isZero l then bytes "0"
  else rev (snd (while (S (32 * length l)) (fun '(work, _) => negb (isZero work)) decimal_step (l, []))).

Definition digit_char (digit : Z) : Z := if digit <? 10 then 48 + digit else 97 + digit - 10.

Definition radix_step (radix : Z) : BigUInt * list Z -> BigUInt * list Z :=
  fun '(work, out) => let '(work, digit) := divSmall work radix in (work, out ++ [digit_char digit]).

Definition toRadix (l : BigUInt) (radix : Z) : list Z :=
  if isZero l then bytes "0"
  else rev (snd (while (S (32 * length l)) (fun '(work, _) => negb (isZero work)) (radix_step radix) (l, []))).

(** ** The division *)

(** A turn of the long division: the quotient and the remainder so far. *)
Definition divide_step (a b : BigUInt) (i : nat) : BigUInt * BigUInt -> BigUInt * BigUInt :=
  fun '(quotient, rem) =>
    let rem := shiftLeft rem 1 in
    let rem := if testBit a (Z.of_nat i) then setBit rem 0 else rem in
    if 0 <=? compare rem b then (setBit quotient (Z.of_nat i), subtract rem b) else (quotient, rem).

(** [None] for the fatal error. *)
Definition divideRoundHalfUp (a b : BigUInt) : option BigUInt :=
  if isZero b then None
  else
    let '(quotient, rem) := for_down (Z.to_nat (bitLength a)) (divide_step a b) ([], []) in
    let twice := shiftLeft rem 1 in
    Some (if 0 <=? compare twice b then addOne quotient else quotient).

(** ** The digits of a double *)

(** The mantissa and the exponent that its bits spell. *)
Definition decompose (x : double) : Z * Z :=
  match x with
  | S754_finite _ m e => (Zpos m, e)
  | S754_zero _ => (0, -1074)
  | _ => (2 ^ 52, 972)
  end.

Definition exactScaledDigits (x : double) (k : Z) : option (list Z) :=
  let mag := dabs x in
  if deq mag (of_int 0) then Some (bytes "0")
  else if negb (isfinite mag) then None
  else
    let '(mantissa, exponent) := decompose mag in
    let a := fromUint64 mantissa in
    let b := fromUint64 1 in
    let '(a, b) := if 0 <=? k then (mulPow10 a k, b) else (a, mulPow10 b (- k)) in
    let '(a, b) := if 0 <=? exponent then (shiftLeft a exponent, b) else (a, shiftLeft b (- exponent)) in
    let? q := divideRoundHalfUp a b in Some (toDecimal q).

Definition exactIntegerDigits (x : double) (radix : Z) : option (list Z) :=
  let mag := dabs x in
  if negb (isfinite mag) then None
  else
    let whole := dtrunc mag in
    if deq whole (of_int 0) then Some (bytes "0")
    else
      let '(mantissa, exponent) := decompose whole in
      let value := fromUint64 mantissa in
      let value := if 0 <=? exponent then shiftLeft value exponent else shiftRight value (- exponent) in
      Some (toRadix value radix).

(** [guard < 1100]: the source's own bound on the digits. *)
Definition dyadic_step (radix : Z) : double * list Z -> double * list Z :=
  fun '(fraction, out) =>
    let fraction := dmul fraction (of_int radix) in
    let digit := dfloor fraction in
    (dsub fraction digit, out ++ [digit_char (to_int digit)]).

Definition exactDyadicFractionDigits (x : double) (radix : Z) : option (list Z) :=
  if (radix <? 2) || negb (Z.land radix (radix - 1) =? 0) then None
  else
    let fraction := dsub (dabs x) (dtrunc (dabs x)) in
    let '(fraction, out) := while 1100 (fun '(fraction, _) => negb (deq fraction (of_int 0))) (dyadic_step radix) (fraction, []) in
    if negb (deq fraction (of_int 0)) then None else Some out.

Example scaled_1005 : exactScaledDigits (strtod (bytes "1.005")) 2 = Some (bytes "100").
Proof. vm_compute. reflexivity. Qed.
Example scaled_tiny : exactScaledDigits (strtod (bytes "5e-324")) 324 = Some (bytes "5").
Proof. vm_compute. reflexivity. Qed.
Example scaled_down : exactScaledDigits (strtod (bytes "1.5e300")) (-299) = Some (bytes "15").
Proof. vm_compute. reflexivity. Qed.
Example integer_hex : exactIntegerDigits (strtod (bytes "1e21")) 16 = Some (bytes "3635c9adc5dea00000").
Proof. vm_compute. reflexivity. Qed.
Example fraction_binary : exactDyadicFractionDigits (strtod (bytes "0.1")) 16 = Some (bytes "1999999999999a").
Proof. vm_compute. reflexivity. Qed.

(** ** What the operations on limbs compute *)

Lemma biguint_of v : 0 <= v < 2 ^ 64 -> mag_ok (fromUint64 v) /\ mval (fromUint64 v) = v.
Proof.
  intros Hv. unfold fromUint64. split.
  - apply pop_zeros_mag. repeat constructor; try apply u32_range. 
  - rewrite pop_zeros_mval. cbn [mval]. rewrite (u32_small (Z.shiftr v 32)) by (apply shr32_range; lia).
    pose proof (u32_shr32_split v). rewrite kBase_eq. lia.
Qed.

Lemma biguint_isZero l : mag_ok l -> isZero l = (mval l =? 0).
Proof.
  intros Hl. unfold isZero. pose proof (empty_spec l) as He. pose proof (mval_zero_iff l Hl) as Hz. symmetry.
  destruct (empty l); [by subst|]. apply Z.eqb_neq. rewrite Hz. intros ->. cbn in He. lia.
Qed.

(** A bit of the number is a bit of a limb. *)
Lemma mval_testbit l b : limbs_ok l -> 0 <= b -> Z.testbit (mval l) b = Z.testbit l.[Z.to_nat (b / 32)] (b mod 32).
Proof.
  intros Hl. revert b. induction Hl as [|d l Hd Hl IH]; intros b Hb; cbn [mval].
  - unfold limb. by rewrite lookup_nil, !Z.bits_0.
  - destruct Hd as [Hd0 Hd1]. destruct (Z.lt_ge_cases b 32) as [Hlt|Hge].
    + assert (E : (d + kBase * mval l) mod 2 ^ 32 = d) by (rewrite kBase_eq, (Z.mul_comm (2 ^ 32)), Z.mod_add, Z.mod_small by lia; done).
      rewrite (Z.div_small b 32), (Z.mod_small b 32) by lia. rewrite <- (Z.mod_pow2_bits_low (d + kBase * mval l) 32 b) by lia. by rewrite E.
    + replace b with (b - 32 + 32) at 1 by lia. rewrite <- Z.div_pow2_bits by lia. rewrite kBase_eq, (Z.mul_comm (2 ^ 32)), Z.div_add, Z.div_small, Z.add_0_l by lia.
      rewrite IH by lia. replace (b / 32) with ((b - 32) / 32 + 1) by (Z.div_mod_to_equations; lia). replace (b mod 32) with ((b - 32) mod 32) by (Z.div_mod_to_equations; lia).
      rewrite Z2Nat.inj_add by (Z.div_mod_to_equations; lia). change (Z.to_nat 1) with 1%nat. rewrite Nat.add_1_r. done.
Qed.

Lemma limb_beyond l i : (length l <= i)%nat -> l.[i] = 0.
Proof. intros H. unfold limb. by rewrite lookup_ge_None_2. Qed.

Lemma biguint_testBit l b : limbs_ok l -> 0 <= b -> testBit l b = Z.testbit (mval l) b.
Proof.
  intros Hl Hb. unfold testBit. rewrite mval_testbit by done. destruct (Nat.leb_spec (length l) (Z.to_nat (b / 32))); [|done].
  by rewrite limb_beyond, Z.bits_0 by done.
Qed.

Lemma lor_limb a b : limb_ok a -> limb_ok b -> limb_ok (Z.lor a b).
Proof.
  intros [Ha0 Ha] [Hb0 Hb]. split; [by apply Z.lor_nonneg|]. destruct (Z.eq_dec (Z.lor a b) 0) as [->|Hne]; [lia|].
  assert (0 <= Z.lor a b) by (by apply Z.lor_nonneg). apply Z.log2_lt_pow2; [lia|]. rewrite Z.log2_lor by done.
  destruct (Z.eq_dec a 0) as [->|]; destruct (Z.eq_dec b 0) as [->|]; cbn; try lia; try (apply Z.max_lub_lt); try (apply Z.log2_lt_pow2; lia); cbn; lia.
Qed.

Lemma lor_bit a k : 0 <= k -> Z.testbit a k = false -> Z.lor a (2 ^ k) = a + 2 ^ k.
Proof.
  intros Hk Ha. pose proof (Z.add_lor_land a (2 ^ k)) as E. replace (Z.land a (2 ^ k)) with 0 in E; [lia|].
  symmetry. apply Z.bits_inj'. intros n Hn. rewrite Z.land_spec, Z.bits_0, Z.pow2_bits_eqb by lia. destruct (Z.eqb_spec k n) as [<-|]; [by rewrite Ha|by rewrite andb_false_r].
Qed.

Lemma biguint_setBit l b : mag_ok l -> 0 <= b -> Z.testbit (mval l) b = false -> mag_ok (setBit l b) /\ mval (setBit l b) = mval l + 2 ^ b.
Proof.
  intros [Hl Ht] Hb Hbit. unfold setBit. set (n := Z.to_nat (b / 32)). set (l' := l ++ replicate (S n - length l) 0).
  assert (Hlen : length l' = Nat.max (S n) (length l)) by (unfold l'; rewrite length_app, length_replicate; lia).
  assert (Hl' : limbs_ok l') by (unfold l'; auto with bronze). assert (Hv : mval l' = mval l) by (unfold l'; rewrite mval_app, mval_zeros; lia).
  pose proof (Z.mod_pos_bound b 32 ltac:(lia)) as Hm. assert (Hp : 2 ^ (b mod 32) < 2 ^ 32) by (apply Z.pow_lt_mono_r; lia).
  pose proof (Z.pow_pos_nonneg 2 (b mod 32) ltac:(lia) ltac:(lia)) as Hp0.
  rewrite Z.shiftl_1_l, u32_small by lia. rewrite <- Hv in Hbit. rewrite mval_testbit in Hbit by done. fold n in Hbit.
  assert (Hd : limb_ok (2 ^ (b mod 32))) by (split; lia). pose proof (limb_range l' n Hl') as Hr.
  split; [split|].
  - apply limbs_ok_insert; [done|]. by apply lor_limb.
  - unfold top_ok. rewrite last_lookup, length_insert, Hlen. destruct (decide (n = pred (Nat.max (S n) (length l)))) as [E|E].
    + rewrite <- E, list_lookup_insert_eq by lia. intros [= H0]. apply Z.lor_eq_0_iff in H0 as [_ H0]. lia.
    + rewrite list_lookup_insert_ne by done. unfold l'. replace (S n - length l)%nat with 0%nat by lia. rewrite app_nil_r. rewrite Nat.max_r by lia.
      rewrite <- last_lookup. exact Ht.
  - rewrite mval_insert by lia. rewrite Hv, lor_bit by (done || lia). rewrite wt_pow2. unfold n. rewrite Z2Nat.id by (Z.div_mod_to_equations; lia).
    replace (l'.[Z.to_nat (b / 32)] + 2 ^ (b mod 32) - l'.[Z.to_nat (b / 32)]) with (2 ^ (b mod 32)) by lia. rewrite <- Z.pow_add_r by (Z.div_mod_to_equations; lia).
    f_equal. f_equal. Z.div_mod_to_equations. lia.
Qed.

Lemma biguint_addOne l : mag_ok l -> mag_ok (addOne l) /\ mval (addOne l) = mval l + 1.
Proof.
  intros [Hl Ht]. induction Hl as [|d l Hd Hl IH]; cbn [addOne].
  - split; [split; [repeat constructor; lia|done]|done].
  - destruct Hd as [Hd0 Hd1]. assert (Htl : top_ok l) by (unfold top_ok in *; destruct l; [done|exact Ht]). destruct (IH Htl) as [[Ho Hto] Hvo]. cbn [mval] in *.
    destruct (Z.eq_dec (d + 1) (2 ^ 32)) as [E|E].
    + assert (E0 : u32 (d + 1) = 0) by (rewrite E; done). rewrite E0. cbn [Z.eqb negb]. split; [split; [by constructor|]|cbn [mval]; rewrite Hvo, kBase_eq; lia].
      unfold top_ok in *. destruct (addOne l) as [|e k] eqn:Ea; [destruct l as [|x l]; cbn in Ea; [done|destruct (negb _) in Ea; done]|exact Hto].
    + rewrite u32_small by lia. destruct (Z.eqb_spec (d + 1) 0); [lia|]. cbn [negb mval]. split; [split; [constructor; [split; lia|done]|]|lia].
      unfold top_ok in *. destruct l; [cbn; intros [= H]; lia|exact Ht].
Qed.

Lemma biguint_shiftLeft l bits : mag_ok l -> 0 <= bits -> mag_ok (shiftLeft l bits) /\ mval (shiftLeft l bits) = mval l * 2 ^ bits.
Proof.
  intros Hl Hb. unfold shiftLeft. rewrite biguint_isZero by done. destruct (Z.eqb_spec (mval l) 0) as [E|E]; cbn [orb]; [by rewrite E|].
  destruct (Z.eqb_spec bits 0) as [->|]; [by rewrite Z.pow_0_r, Z.mul_1_r|]. apply shiftLeftBits_spec; [apply Hl|lia].
Qed.

Lemma biguint_shiftRight l bits : mag_ok l -> 0 <= bits -> mag_ok (shiftRight l bits) /\ mval (shiftRight l bits) = mval l / 2 ^ bits.
Proof.
  intros Hl Hb. unfold shiftRight. rewrite biguint_isZero by done. destruct (Z.eqb_spec (mval l) 0) as [E|E]; cbn [orb]; [by rewrite E, Zdiv_0_l|].
  destruct (Z.eqb_spec bits 0) as [->|]; [by rewrite Z.pow_0_r, Z.div_1_r|]. pose proof (shiftRightBits_spec l bits (proj1 Hl) Hb) as H.
  destruct (shiftRightBits l bits). by destruct H as (? & ? & _).
Qed.

Lemma biguint_compare a b : mag_ok a -> mag_ok b -> (0 <=? compare a b) = (mval b <=? mval a).
Proof.
  intros Ha Hb. unfold compare. rewrite compareMagnitude_spec by done. destruct (Z.ltb_spec (mval a) (mval b)); [cbn; lia|].
  destruct (Z.ltb_spec (mval b) (mval a)); cbn; lia.
Qed.

(** ** The division *)

(** What the division holds before bit [i]: the quotient of the bits above it. *)
Definition dividing (A B : Z) (i : nat) (s : BigUInt * BigUInt) : Prop :=
  mag_ok s.1 /\ mag_ok s.2 /\ mval s.1 = (A / 2 ^ Z.of_nat i / B) * 2 ^ Z.of_nat i /\ mval s.2 = (A / 2 ^ Z.of_nat i) mod B.

Lemma half_step A i : A / 2 ^ Z.of_nat i = 2 * (A / 2 ^ Z.of_nat (S i)) + Z.b2z (Z.testbit A (Z.of_nat i)).
Proof.
  rewrite Z.testbit_spec' by lia. rewrite Nat2Z.inj_succ, Z.pow_succ_r by lia. pose proof (Z.pow_pos_nonneg 2 (Z.of_nat i) ltac:(lia) ltac:(lia)).
  replace (A / (2 * 2 ^ Z.of_nat i)) with (A / 2 ^ Z.of_nat i / 2) by (rewrite Z.div_div by lia; f_equal; lia). apply Z.div_mod. lia.
Qed.

Lemma divide_step_inv a b i s : mag_ok a -> mag_ok b -> 0 < mval b -> dividing (mval a) (mval b) (S i) s -> dividing (mval a) (mval b) i (divide_step a b i s).
Proof.
  destruct s as [q r]. intros Ha Hb HB (Hq & Hr & Eq & Er). cbn [fst snd] in *. unfold divide_step.
  pose proof (half_step (mval a) i) as Hh. set (A := mval a) in *. set (B := mval b) in *. set (N := A / 2 ^ Z.of_nat (S i)) in *.
  pose proof (Z.mod_pos_bound N B HB) as Hm. pose proof (Z.div_mod N B ltac:(lia)) as Hdm.
  destruct (biguint_shiftLeft r 1 Hr ltac:(lia)) as [Hr1 Er1]. rewrite Er in Er1. change (2 ^ 1) with 2 in Er1.
  rewrite biguint_testBit by (apply Ha || lia). fold A.
  set (r2 := if Z.testbit A (Z.of_nat i) then setBit (shiftLeft r 1) 0 else shiftLeft r 1).
  assert (Hr2 : mag_ok r2 /\ mval r2 = 2 * (N mod B) + Z.b2z (Z.testbit A (Z.of_nat i))).
  { unfold r2. destruct (Z.testbit A (Z.of_nat i)); cbn [Z.b2z]; [|split; [done|lia]].
    destruct (biguint_setBit (shiftLeft r 1) 0 Hr1 ltac:(lia)) as [? E]; [rewrite Er1, Z.bit0_odd, Z.odd_mul, andb_false_r; done|]. split; [done|]. rewrite E, Er1. lia. }
  destruct Hr2 as [Hr2 Er2]. rewrite biguint_compare by done. fold B. set (t := Z.b2z (Z.testbit A (Z.of_nat i))) in *.
  assert (Ht : 0 <= t <= 1) by (unfold t; destruct (Z.testbit A (Z.of_nat i)); cbn; lia).
  pose proof (Z.pow_pos_nonneg 2 (Z.of_nat i) ltac:(lia) ltac:(lia)) as Hp.
  assert (E2 : 2 ^ Z.of_nat (S i) = 2 * 2 ^ Z.of_nat i) by (rewrite Nat2Z.inj_succ, Z.pow_succ_r by lia; done).
  unfold dividing. destruct (Z.leb_spec B (mval r2)) as [Hle|Hlt]; cbn [fst snd].
  - assert (Hbit : Z.testbit (mval q) (Z.of_nat i) = false).
    { rewrite Eq. apply Z.mul_pow2_bits_low. lia. }
    destruct (biguint_setBit q (Z.of_nat i) Hq ltac:(lia) Hbit) as [Hq2 Eq2]. destruct (subMagnitude_spec r2 b (proj1 Hr2) Hb Hle) as [Hs Es].
    split; [done|]. split; [done|]. rewrite Eq2, Eq, E2. change (subtract r2 b) with (subMagnitude r2 b). rewrite Es, Er2. fold B.
    assert (Ed : A / 2 ^ Z.of_nat i / B = 2 * (N / B) + 1) by (rewrite Hh; symmetry; apply Z.div_unique with (2 * (N mod B) + t - B); lia).
    split; [rewrite Ed; ring|]. rewrite Hh. apply Z.mod_unique with (2 * (N / B) + 1); lia.
  - split; [done|]. split; [done|]. rewrite Eq, E2, Er2.
    assert (Ed : A / 2 ^ Z.of_nat i / B = 2 * (N / B)) by (rewrite Hh; symmetry; apply Z.div_unique with (2 * (N mod B) + t); lia).
    split; [rewrite Ed; ring|]. rewrite Hh. apply Z.mod_unique with (2 * (N / B)); lia.
Qed.


Lemma bit_width_spec v : 0 < v < 2 ^ 32 -> bit_width v = Z.log2 v + 1 /\ 0 < bit_width v <= 32.
Proof.
  intros Hv. unfold bit_width. destruct (Z.eqb_spec v 0); [lia|]. assert (Z.log2 v < 32) by (apply Z.log2_lt_pow2; lia).
  pose proof (Z.log2_nonneg v). lia.
Qed.

(** Every bit of the number lies below [bitLength]. *)
Lemma biguint_bitLength l : mag_ok l -> Z.of_nat (length l) < 2 ^ 27 -> 0 <= mval l < 2 ^ bitLength l /\ 0 <= bitLength l < 2 ^ 32.
Proof.
  intros [Hl Ht] Hlen. split; [split; [by apply mval_nonneg|]|].
  - unfold bitLength. destruct (last l) as [top|] eqn:E.
    + apply last_Some in E as Ek. destruct Ek as [k ->]. apply Forall_app in Hl as [Hk Htop]. apply Forall_cons in Htop as [[Htop0 Htop1] _].
      assert (Hne : top <> 0) by (intros ->; by apply Ht). destruct (bit_width_spec top ltac:(lia)) as [Ew Hw].
      rewrite length_app in *. cbn [length] in *. rewrite u32_small by lia. rewrite mval_snoc, wt_pow2. pose proof (mval_bound k Hk) as Hkb. rewrite wt_pow2 in Hkb.
      replace ((Z.of_nat (length k + 1) - 1) * 32) with (32 * Z.of_nat (length k)) by lia. rewrite Z.pow_add_r, Ew by lia.
      pose proof (Z.log2_spec top ltac:(lia)) as [_ Hlog]. unfold Z.succ in Hlog. nia.
    + apply last_None in E. subst l. cbn. lia.
  - unfold bitLength. destruct (last l); [apply u32_range|lia].
Qed.

(** A number below the width of a bit index has few limbs. *)
Lemma short_magnitude n l : mag_ok l -> mval l < 2 ^ n -> 0 <= n <= 2 ^ 31 -> Z.of_nat (length l) < 2 ^ 27.
Proof.
  intros [Hl Ht] Hv Hn. destruct (last l) as [top|] eqn:E; [|apply last_None in E; subst; cbn; lia].
  assert (Hne : top <> 0) by (intros ->; by apply Ht). pose proof (mval_top_bound l top Hl E Hne) as Hb. rewrite wt_pow2 in Hb.
  assert (Hlt : 2 ^ (32 * Z.of_nat (length l - 1)) < 2 ^ n) by lia. apply Z.pow_lt_mono_r_iff in Hlt; [|lia|lia]. lia.
Qed.

(** The nearest integer to a quotient, the larger one of two. *)
Definition nearest (A B n : Z) : Prop := (2 * n - 1) * B <= 2 * A < (2 * n + 1) * B.

Lemma divide_nearest n a b :
  mag_ok a -> mag_ok b -> 0 < mval b -> mval a < 2 ^ n -> 0 <= n <= 2 ^ 31 ->
  exists q, divideRoundHalfUp a b = Some q /\ mag_ok q /\ nearest (mval a) (mval b) (mval q).
Proof.
  intros Ha Hb HB HA Hn. unfold divideRoundHalfUp. rewrite biguint_isZero by done. destruct (Z.eqb_spec (mval b) 0); [lia|].
  pose proof (biguint_bitLength a Ha (short_magnitude n a Ha HA Hn)) as [Hbits Hbl].
  pose proof (for_down_inv (dividing (mval a) (mval b)) (divide_step a b) (Z.to_nat (bitLength a)) ([], [])) as H.
  destruct (for_down _ _ _) as [q r]. destruct H as (Hq & Hr & Eq & Er); cbn [fst snd] in *.
  - unfold dividing. cbn [fst snd mval]. rewrite Z2Nat.id by lia. rewrite (Z.div_small (mval a)) by lia. rewrite Z.div_small, Z.mod_small by lia.
    split_and!; auto with bronze.
  - intros i s _ Hs. by apply divide_step_inv.
  - rewrite Z.pow_0_r, Z.div_1_r, ?Z.mul_1_r in *. destruct (biguint_shiftLeft r 1 Hr ltac:(lia)) as [Hr2 E2]. change (2 ^ 1) with 2 in E2.
    eexists. split; [reflexivity|]. rewrite biguint_compare, E2 by done.
    pose proof (Z.div_mod (mval a) (mval b) ltac:(lia)). pose proof (Z.mod_pos_bound (mval a) (mval b) HB). destruct (biguint_addOne q Hq) as [Hq1 Eq1].
    unfold nearest. destruct (Z.leb_spec (mval b) (mval r * 2)); [rewrite Eq1|]; (split; [done|]); nia.
Qed.

(** ** Multiplication by a power of ten *)

Lemma top_ok_ge l : limbs_ok l -> wt (length l - 1) <= mval l -> top_ok l.
Proof.
  intros Hl Hv [k ->]%last_Some. apply Forall_app in Hl as [Hk _]. rewrite mval_snoc, length_app in Hv. cbn [length] in Hv.
  rewrite Nat.add_sub in Hv. pose proof (mval_bound k Hk). lia.
Qed.

Lemma biguint_mulSmall l factor : mag_ok l -> 0 <= factor < 2 ^ 32 -> mag_ok (mulSmall l factor) /\ mval (mulSmall l factor) = mval l * factor.
Proof.
  intros [Hl Ht] Hf. unfold mulSmall. rewrite biguint_isZero by done. destruct (Z.eqb_spec factor 0) as [->|Hne].
  { rewrite orb_true_r, Z.mul_0_r. split; [apply mag_ok_nil|done]. }
  rewrite orb_false_r. destruct (Z.eqb_spec (mval l) 0) as [E|Hv]; [by rewrite E|].
  destruct (mulAddSmall_spec l factor 0 Hl ltac:(split; lia) ltac:(split; lia)) as [Ho E]. rewrite Z.add_0_r in E. split; [|done]. split; [done|].
  destruct (last l) as [top|] eqn:El; [|apply last_None in El; by subst].
  assert (Hnz : top <> 0) by (intros ->; by apply Ht). pose proof (mval_top_bound l top Hl El Hnz) as Hb.
  revert Ho E. unfold mulAddSmall. pose proof (mulAddSmall_loop l factor 0 (length l) Hl ltac:(split; lia) ltac:(split; lia) (le_n _)) as H.
  destruct (for_up _ _ _ _) as [l' carry]. destruct H as (Hlen & Ho' & Hc & _ & _). destruct (Z.eqb_spec carry 0) as [->|Hc0].
  - rewrite while_false by done. cbn [fst]. intros Ho E. apply top_ok_ge; [done|]. rewrite Hlen, E. pose proof (wt_pos (length l - 1)). nia.
  - rewrite while_true by (cbn; destruct (Z.eqb_spec carry 0); done). destruct Hc. rewrite (Z.shiftr_div_pow2 carry), Z.div_small by lia.
    rewrite while_false by done. cbn [fst]. intros _ _. unfold top_ok. rewrite last_snoc, u32_small by lia. congruence.
Qed.

Lemma kPow10_spec k : 0 <= k <= 9 -> kPow10.[Z.to_nat k] = 10 ^ k /\ 0 < 10 ^ k < 2 ^ 32.
Proof.
  intros Hk. assert (H : forallb (fun i => let k := Z.of_nat i in (kPow10.[i] =? 10 ^ k) && (0 <? 10 ^ k) && (10 ^ k <? 2 ^ 32)) (seq 0 10) = true) by (vm_compute; reflexivity).
  rewrite forallb_forall in H. specialize (H (Z.to_nat k)). rewrite in_seq in H. specialize (H ltac:(lia)). cbn zeta in H. rewrite Z2Nat.id in H by lia.
  repeat (apply andb_prop in H as [H ?]). zbool; try discriminate. lia.
Qed.

Lemma biguint_mulPow10 l k : mag_ok l -> 0 <= k -> mag_ok (mulPow10 l k) /\ mval (mulPow10 l k) = mval l * 10 ^ k.
Proof.
  intros Hl Hk. unfold mulPow10.
  pose proof (while_inv (fun '(l', k') => mag_ok l' /\ 0 <= k' /\ mval l' * 10 ^ k' = mval l * 10 ^ k) (fun '(_, k') => Z.to_nat k')
    (S (Z.to_nat k)) (fun '(_, k') => 9 <=? k') (fun '(l', k') => (mulSmall l' kPow10.[9%nat], k' - 9)) (l, k)) as [Hi Hc]; [done| |cbn; lia|].
  { intros [l' k'] (Hl' & Hk' & E') H9%Z.leb_le. change (kPow10.[9%nat]) with (10 ^ 9). destruct (biguint_mulSmall l' (10 ^ 9) Hl' ltac:(lia)) as [Hm Em].
    split; [|lia]. split; [done|]. split; [lia|]. rewrite Em, <- E'. replace k' with (9 + (k' - 9)) at 2 by lia. rewrite Z.pow_add_r by lia. ring. }
  destruct (while _ _ _ _) as [l' k']. destruct Hi as (Hl' & Hk' & <-). apply Z.leb_gt in Hc. destruct (Z.ltb_spec 0 k') as [H|H].
  - destruct (kPow10_spec k' ltac:(lia)) as [-> Hp]. by apply biguint_mulSmall; [|lia].
  - replace k' with 0 by lia. by rewrite Z.pow_0_r, Z.mul_1_r.
Qed.

(** ** The digits printed *)

Lemma digit_char_kDigits v : 0 <= v < 36 -> digit_char v = kDigits.[Z.to_nat v].
Proof.
  intros Hv. assert (H : forallb (fun i => digit_char (Z.of_nat i) =? kDigits.[i]) (seq 0 36) = true) by (vm_compute; reflexivity).
  rewrite forallb_forall in H. specialize (H (Z.to_nat v)). rewrite in_seq in H. specialize (H ltac:(lia)). rewrite Z2Nat.id in H by lia. by apply Z.eqb_eq.
Qed.

Lemma printed_decimal v : 0 <= v < 10 -> printed 10 (48 + v) /\ digitValue (48 + v) = v.
Proof.
  intros Hv. pose proof (digit_char_kDigits v ltac:(lia)) as E. unfold digit_char in E. destruct (Z.ltb_spec v 10); [|lia].
  split; [by exists v|]. rewrite E. apply kDigits_spec. lia.
Qed.

Lemma emit_nine_spec n ms chunk out :
  0 <= chunk < 10 ^ Z.of_nat n ->
  exists ds, emit_nine n ms chunk out = out ++ ds /\ Forall (printed 10) ds /\ number 10 (rev ds) = chunk /\
    (if ms then if chunk =? 0 then ds = [] else no_leading_zero (rev ds) else length ds = n).
Proof.
  revert chunk out. induction n as [|n IH]; intros chunk out Hc.
  - cbn in Hc. exists []. cbn. rewrite app_nil_r. split_and!; [done|constructor|lia|]. replace chunk with 0 by lia. by destruct ms.
  - cbn [emit_nine]. rewrite Nat2Z.inj_succ, Z.pow_succ_r in Hc by lia. destruct (Z.eqb_spec chunk 0) as [->|Hne]; cbn [negb].
    + destruct ms; cbn [negb orb].
      * exists []. rewrite app_nil_r. split_and!; [done|constructor|done|done].
      * destruct (IH 0 (out ++ [48 + 0]) ltac:(lia)) as (ds & E & HF & En & Hl). cbn in Hl. exists ((48 + 0) :: ds).
        change (0 / 10) with 0. change (0 mod 10) with 0. rewrite E, <- app_assoc. split_and!; [done| | |cbn; lia].
        -- constructor; [by apply printed_decimal|done].
        -- cbn [rev]. rewrite number_snoc, En. done.
    + rewrite orb_true_r. pose proof (Z.mod_pos_bound chunk 10 ltac:(lia)) as Hm. pose proof (Z.div_mod chunk 10 ltac:(lia)) as Hdm.
      destruct (printed_decimal (chunk mod 10) Hm) as [Hpr Hdv].
      destruct (IH (chunk / 10) (out ++ [48 + chunk mod 10])) as (ds & E & HF & En & Hl); [Z.div_mod_to_equations; lia|].
      exists ((48 + chunk mod 10) :: ds). rewrite E, <- app_assoc. split_and!; [done|by constructor| |].
      * cbn [rev]. rewrite number_snoc, En, Hdv. lia.
      * destruct ms; [|cbn; lia]. cbn [rev]. destruct (Z.eqb_spec (chunk / 10) 0) as [E0|].
        -- subst ds. exists (48 + chunk mod 10), []. split; [done|lia].
        -- destruct Hl as (c & t & -> & Hcv). by exists c, (t ++ [48 + chunk mod 10]).
Qed.

Lemma decimal_step_inv V st : printing 10 V st -> negb (isZero (fst st)) = true ->
  printing 10 V (decimal_step st) /\ (bits_left (fst (decimal_step st)) < bits_left (fst st))%nat.
Proof.
  destruct st as [work out]. intros (Hw & HF & EV & _) Hne. cbn [fst] in Hne. unfold decimal_step, divSmall.
  pose proof (divModSmall_spec work 1000000000 (proj1 Hw) ltac:(lia)) as Hdm. destruct (divModSmall work 1000000000) as [q r]. destruct Hdm as (Hq & Eq & Er).
  rewrite biguint_isZero in Hne by done. pose proof (mval_nonneg work (proj1 Hw)). destruct (Z.eqb_spec (mval work) 0) as [|Hpos]; [done|].
  pose proof (Z.mod_pos_bound (mval work) 1000000000 ltac:(lia)) as Hm. pose proof (Z.div_mod (mval work) 1000000000 ltac:(lia)) as Hdm.
  destruct (emit_nine_spec 9 (isZero q) r out) as (ds & -> & HFd & End & Hlast); [change (10 ^ Z.of_nat 9) with 1000000000; lia|].
  cbn [fst]. split; [|apply (bits_left_div _ _ 1000000000); [lia|lia|done]]. unfold printing. split_and!; [done|by apply Forall_app| |].
  - rewrite length_app, rev_app_distr, number_app, length_rev, Nat2Z.inj_add, Z.pow_add_r, End by lia. rewrite biguint_isZero in Hlast by done.
    destruct (Z.eqb_spec (mval q) 0) as [E|E]; [rewrite E; nia|]. rewrite Hlast. change (10 ^ Z.of_nat 9) with 1000000000. nia.
  - intros ->. cbn in Hlast. cbn in Eq. destruct (Z.eqb_spec r 0); [lia|]. destruct Hlast as (c & t & E & Hc). exists c, (t ++ rev out). by rewrite rev_app_distr, E.
Qed.

(** The digits of a number: none but ["0"] starts with a zero. *)
Definition digits_of (radix : Z) (ds : list Z) (n : Z) : Prop :=
  Forall (printed radix) ds /\ number radix ds = n /\ (ds = bytes "0" \/ no_leading_zero ds).

Lemma toDecimal_spec l : mag_ok l -> digits_of 10 (toDecimal l) (mval l).
Proof.
  intros Hl. unfold toDecimal. rewrite biguint_isZero by done. destruct (Z.eqb_spec (mval l) 0) as [E|Hne].
  { rewrite E. split_and!; [constructor; [by exists 0|constructor]|done|by left]. }
  pose proof (while_inv (printing 10 (mval l)) (fun st => bits_left (fst st)) (S (32 * length l)) (fun '(work, _) => negb (isZero work)) decimal_step (l, [])) as [Hi Ht].
  - unfold printing. split_and!; [done|constructor|cbn; lia|]. intros ->. done.
  - intros [w r] Hi Ht. by apply decimal_step_inv.
  - cbn [fst]. pose proof (bits_left_bound l (proj1 Hl)). lia.
  - destruct (while _ _ _ _) as [w r]. destruct Hi as (Hw & HF & EV & Hz). rewrite biguint_isZero in Ht by done. destruct (Z.eqb_spec (mval w) 0) as [E|]; [|done].
    apply mval_zero_iff in E as ->; [|done]. cbn [snd]. split_and!; [by apply Forall_rev|cbn in EV; lia|right; by apply Hz].
Qed.

(** ** The digits of a scaled double *)

(** The two integers whose quotient is [m * 2 ^ e * 10 ^ k]. *)
Definition over (m e k : Z) : Z := m * 10 ^ Z.max k 0 * 2 ^ Z.max e 0.
Definition under (e k : Z) : Z := 10 ^ Z.max (- k) 0 * 2 ^ Z.max (- e) 0.

Lemma under_pos e k : 0 < under e k.
Proof. unfold under. apply Z.mul_pos_pos; apply Z.pow_pos_nonneg; lia. Qed.

Lemma over_bound m e k K : 0 < m < 2 ^ 53 -> e <= 971 -> k <= K -> 0 <= K -> over m e k < 2 ^ (4 * K + 1024).
Proof.
  intros Hm He Hk HK. unfold over. assert (H10 : 0 < 10 ^ Z.max k 0 <= 2 ^ (4 * K)).
  { split; [apply Z.pow_pos_nonneg; lia|]. rewrite (Z.pow_mul_r 2 4) by lia. transitivity ((2 ^ 4) ^ Z.max k 0); [apply Z.pow_le_mono_l; lia|apply Z.pow_le_mono_r; lia]. }
  assert (H2 : 0 < 2 ^ Z.max e 0 <= 2 ^ 971) by (split; [apply Z.pow_pos_nonneg; lia|apply Z.pow_le_mono_r; lia]).
  replace (4 * K + 1024) with (53 + 4 * K + 971) by lia. rewrite !Z.pow_add_r by lia.
  apply Z.lt_le_trans with (2 ^ 53 * 10 ^ Z.max k 0 * 2 ^ Z.max e 0).
  - apply Z.mul_lt_mono_pos_r; [lia|]. apply Z.mul_lt_mono_pos_r; lia.
  - apply Z.mul_le_mono_nonneg; [lia| |lia|lia]. apply Z.mul_le_mono_nonneg_l; lia.
Qed.

Lemma scaled_operands m e k : 0 < m < 2 ^ 53 ->
  let a := fromUint64 m in let b := fromUint64 1 in
  let '(a, b) := if 0 <=? k then (mulPow10 a k, b) else (a, mulPow10 b (- k)) in
  let '(a, b) := if 0 <=? e then (shiftLeft a e, b) else (a, shiftLeft b (- e)) in
  mag_ok a /\ mag_ok b /\ mval a = over m e k /\ mval b = under e k.
Proof.
  intros Hm. cbn zeta. destruct (biguint_of m ltac:(lia)) as [Ha Ea]. destruct (biguint_of 1 ltac:(lia)) as [Hb Eb].
  unfold over, under. destruct (Z.leb_spec 0 k) as [Hk|Hk].
  - rewrite (Z.max_l k), (Z.max_r (- k)) by lia. destruct (biguint_mulPow10 _ k Ha Hk) as [Ha1 Ea1]. destruct (Z.leb_spec 0 e) as [He|He].
    + rewrite (Z.max_l e), (Z.max_r (- e)) by lia. destruct (biguint_shiftLeft _ e Ha1 He) as [? E]. rewrite E, Ea1, Ea, Eb. done.
    + rewrite (Z.max_r e), (Z.max_l (- e)) by lia. destruct (biguint_shiftLeft _ (- e) Hb ltac:(lia)) as [? E]. rewrite E, Ea1, Ea, Eb, Z.pow_0_r. split_and!; [done|done|lia|lia].
  - rewrite (Z.max_r k), (Z.max_l (- k)) by lia. destruct (biguint_mulPow10 _ (- k) Hb ltac:(lia)) as [Hb1 Eb1]. destruct (Z.leb_spec 0 e) as [He|He].
    + rewrite (Z.max_l e), (Z.max_r (- e)) by lia. destruct (biguint_shiftLeft _ e Ha He) as [? E]. rewrite E, Eb1, Ea, Eb, !Z.pow_0_r. split_and!; [done|done|lia|lia].
    + rewrite (Z.max_r e), (Z.max_l (- e)) by lia. destruct (biguint_shiftLeft _ (- e) Hb1 ltac:(lia)) as [? E]. rewrite E, Eb1, Ea, Eb, !Z.pow_0_r. split_and!; [done|done|lia|lia].
Qed.

(** [exactScaledDigits(x, k)] always answers, and its answer is the decimal digits, without a
    leading zero, of the integer nearest to |x| times [10^k] computed exactly, the larger one
    of two that are as near. *)
Theorem scaled_digits s m e k :
  valid_binary prec emax (S754_finite s m e) = true -> Z.abs k <= 2 ^ 20 ->
  exists ds n, exactScaledDigits (S754_finite s m e) k = Some ds /\ digits_of 10 ds n /\ nearest (over (Zpos m) e k) (under e k) n.
Proof.
  intros Hx Hk. destruct (valid_bounds s m e Hx) as [Hm He]. unfold exactScaledDigits. cbn [dabs SFabs deq isfinite negb decompose].
  pose proof (scaled_operands (Zpos m) e k ltac:(lia)) as H. cbn zeta in H.
  change (SFeqb (S754_finite false m e) (of_int 0)) with false. cbn iota.
  destruct (if 0 <=? k then _ else _) as [a0 b0]. destruct (if 0 <=? e then _ else _) as [a b]. destruct H as (Ha & Hb & Ea & Eb).
  destruct (divide_nearest (4 * 2 ^ 20 + 1024) a b Ha Hb) as (q & -> & Hq & Hn).
  - rewrite Eb. apply under_pos.
  - rewrite Ea. apply over_bound; lia.
  - lia.
  - rewrite Ea, Eb in Hn. exists (toDecimal q), (mval q). split; [done|]. split; [by apply toDecimal_spec|done].
Qed.

(** ** The digits of the whole part *)

Lemma radix_step_inv radix V st : 2 <= radix <= 36 -> printing radix V st -> negb (isZero (fst st)) = true ->
  printing radix V (radix_step radix st) /\ (bits_left (fst (radix_step radix st)) < bits_left (fst st))%nat.
Proof.
  destruct st as [work out]. intros Hr (Hw & HF & EV & _) Hne. cbn [fst] in Hne. unfold radix_step, divSmall.
  pose proof (divModSmall_spec work radix (proj1 Hw) ltac:(lia)) as Hdm. destruct (divModSmall work radix) as [q r]. destruct Hdm as (Hq & Eq & Er).
  rewrite biguint_isZero in Hne by done. pose proof (mval_nonneg work (proj1 Hw)). destruct (Z.eqb_spec (mval work) 0) as [|Hpos]; [done|].
  pose proof (Z.mod_pos_bound (mval work) radix ltac:(lia)) as Hm. pose proof (Z.div_mod (mval work) radix ltac:(lia)) as Hdm.
  rewrite digit_char_kDigits by lia. destruct (kDigits_spec r ltac:(lia)) as [Ed _].
  cbn [fst]. split; [|apply (bits_left_div _ _ radix); [lia|lia|done]]. unfold printing. split_and!; [done| | |].
  - apply Forall_app. split; [done|]. constructor; [|constructor]. exists r. split; [lia|done].
  - rewrite length_app, rev_app_distr. cbn [rev app length]. rewrite number_cons, length_rev, Nat2Z.inj_add, Z.pow_add_r, Ed by lia. change (10 ^ Z.of_nat 1) with 10. rewrite Z.pow_1_r. nia.
  - intros ->. cbn in Eq. rewrite rev_app_distr. cbn [rev app]. eexists _, _. split; [reflexivity|]. rewrite Ed. lia.
Qed.

Lemma toRadix_spec l radix : 2 <= radix <= 36 -> mag_ok l -> digits_of radix (toRadix l radix) (mval l).
Proof.
  intros Hr Hl. unfold toRadix. rewrite biguint_isZero by done. destruct (Z.eqb_spec (mval l) 0) as [E|Hne].
  { rewrite E. split_and!; [constructor; [exists 0; split; [lia|done]|constructor]|done|by left]. }
  pose proof (while_inv (printing radix (mval l)) (fun st => bits_left (fst st)) (S (32 * length l)) (fun '(work, _) => negb (isZero work)) (radix_step radix) (l, [])) as [Hi Ht].
  - unfold printing. split_and!; [done|constructor|cbn; lia|]. intros ->. done.
  - intros [w r] Hi Ht. by apply radix_step_inv.
  - cbn [fst]. pose proof (bits_left_bound l (proj1 Hl)). lia.
  - destruct (while _ _ _ _) as [w r]. destruct Hi as (Hw & HF & EV & Hz). rewrite biguint_isZero in Ht by done. destruct (Z.eqb_spec (mval w) 0) as [E|]; [|done].
    apply mval_zero_iff in E as ->; [|done]. cbn [snd]. split_and!; [by apply Forall_rev|cbn in EV; lia|right; by apply Hz].
Qed.

(** The whole part of a double, taken apart again. *)
Lemma whole_mantissa m e : Zpos m < 2 ^ 53 ->
  let whole := dtrunc (S754_finite false m e) in
  if deq whole (of_int 0) then whole_part (Zpos m) e = 0
  else let '(p, f) := decompose whole in 0 < p < 2 ^ 53 /\ whole_part p f = whole_part (Zpos m) e.
Proof.
  intros Hm. cbn [dtrunc]. unfold whole_part at 1 3. destruct (Z.leb_spec 0 e) as [He|He].
  { cbn. unfold whole_part. destruct (Z.leb_spec 0 e); [|lia]. split; [lia|done]. }
  pose proof (Z.pow_pos_nonneg 2 (- e) ltac:(lia) ltac:(lia)) as Hp. rewrite Z.quot_div_nonneg by lia. set (z := Zpos m / 2 ^ (- e)).
  assert (Hz : 0 <= z < 2 ^ 53) by (unfold z; split; [apply Z.div_pos; lia|]; apply Z.div_lt_upper_bound; nia).
  destruct (isint_inv (of_int_signed false z) z (signed_isint false z ltac:(lia))) as [(E & s & ->)|(s & p & k & -> & Es & Hk & Hpb)]; [by cbn; rewrite E|].
  destruct s; cbn [signed] in Es; [pose proof (Z.pow_pos_nonneg 2 k ltac:(lia) ltac:(lia)); nia|].
  cbn. split; [lia|]. unfold whole_part. destruct (Z.leb_spec 0 (- k)) as [Hk0|Hk0].
  - replace k with 0 in * by lia. cbn. rewrite Z.pow_0_r in Es. lia.
  - rewrite Z.opp_involutive, Es. apply Z.div_mul. pose proof (Z.pow_pos_nonneg 2 k ltac:(lia) ltac:(lia)). lia.
Qed.

(** [exactIntegerDigits(x, radix)] always answers, and its answer is the digits of the whole
    part of |x| in the radix, every one of them exact, however large the double. *)
Theorem integer_digits s m e radix :
  valid_binary prec emax (S754_finite s m e) = true -> 2 <= radix <= 36 ->
  exists ds, exactIntegerDigits (S754_finite s m e) radix = Some ds /\ digits_of radix ds (whole_part (Zpos m) e).
Proof.
  intros Hx Hr. destruct (valid_bounds s m e Hx) as [Hm He]. unfold exactIntegerDigits. cbn [dabs SFabs isfinite negb].
  pose proof (whole_mantissa m e Hm) as H. cbn zeta in H. destruct (deq _ _).
  { exists (bytes "0"). split; [done|]. rewrite H. split_and!; [constructor; [exists 0; split; [lia|done]|constructor]|done|by left]. }
  destruct (decompose _) as [p f]. destruct H as [Hp <-]. destruct (biguint_of p ltac:(lia)) as [Hv Ev]. eexists. split; [reflexivity|].
  unfold whole_part. destruct (Z.leb_spec 0 f) as [Hf|Hf].
  - destruct (biguint_shiftLeft _ f Hv Hf) as [Ho Eo]. rewrite Ev in Eo. rewrite <- Eo. by apply toRadix_spec.
  - destruct (biguint_shiftRight _ (- f) Hv ltac:(lia)) as [Ho Eo]. rewrite Ev in Eo. rewrite <- Eo. by apply toRadix_spec.
Qed.

(** ** Witnesses *)

Lemma scaled_digits_witness :
  exists ds n, exactScaledDigits (S754_finite false 4526117625545425 (-52)) 2 = Some ds /\ digits_of 10 ds n /\ nearest (over 4526117625545425 (-52) 2) (under (-52) 2) n.
Proof. apply (scaled_digits false 4526117625545425 (-52) 2); [vm_compute; reflexivity|lia]. Defined.

Lemma integer_digits_witness : exists ds, exactIntegerDigits (S754_finite true 7629394531250000 17) 16 = Some ds /\ digits_of 16 ds (whole_part 7629394531250000 17).
Proof. apply (integer_digits true 7629394531250000 17 16); [vm_compute; reflexivity|lia]. Defined.
