(* ===== verification/NumberText.v ===== *)
(** * The text of a number (src/src/runtime/number_format.cpp, builtin_number_proto.cpp)

    Number::toString in radix 10 and the members of [Number.prototype].  [std::to_chars] in its
    scientific format and [std::log10] are arguments; of the first the theorems ask the shape
    that the C++ standard gives its text, of the second nothing but what each theorem says.
    Text is a list of bytes. *)
From S2P Require Import Prelude BigNumMag BigNumText Float64 DoubleArith ExactDecimal.
Local Open Scope Z_scope.
Local Open Scope bool_scope.

(** [std::to_chars] and [std::to_string] of an unsigned integer *)
Definition unsigned_text (n : Z) : list Z := toDecimal (fromUint64 n).

(** The digits up to the [e]. *)
Fixpoint until_e (p : list Z) : list Z * list Z :=
  match p with
  | [] => ([], [])
  | c :: rest => if c =? 101 then ([], p) else let '(ds, tail) := until_e rest in (c :: ds, tail)
  end.

(** What a member of [Number.prototype] answers. *)
Inductive Answer :=
| Text (text : list Z)
| Number (x : double)
| RangeError (message : list Z)
| TypeError (message : list Z)
| Fatal.

Section Text.

Context (to_chars : double -> list Z) (log10 : double -> double).

(** ** Number::toString *)

(** The digits of ["d.ddde+dd"] and its exponent. *)
Definition jsShortestDigits (x : double) : list Z * Z :=
  let sci := to_chars x in
  let p := if sci.[0%nat] =? 45 then drop 1 sci else sci in
  let first := p.[0%nat] in
  let p := drop 1 p in
  let '(more, p) := if p.[0%nat] =? 46 then until_e (drop 1 p) else ([], p) in
  let p := drop 1 p in
  let expNeg := p.[0%nat] =? 45 in
  let p := if (p.[0%nat] =? 43) || (p.[0%nat] =? 45) then drop 1 p else p in
  let e := decimal_value p in
  (first :: more, if expNeg then - e else e).

(** The digits in one of the four forms: whole, with a point, below one, with an exponent. *)
Definition lay_out (digits : list Z) (exp10 : Z) : list Z :=
  let k := Z.of_nat (length digits) in
  let n := exp10 + 1 in
  if (k <=? n) && (n <=? 21) then digits ++ replicate (Z.to_nat (n - k)) 48
  else if (0 <? n) && (n <=? 21) then take (Z.to_nat n) digits ++ bytes "." ++ drop (Z.to_nat n) digits
  else if (-6 <? n) && (n <=? 0) then bytes "0." ++ replicate (Z.to_nat (- n)) 48 ++ digits
  else
    [digits.[0%nat]] ++ (if 1 <? k then bytes "." ++ drop 1 digits else []) ++ bytes "e" ++
    (if n - 1 <? 0 then bytes "-" else bytes "+") ++ unsigned_text (Z.abs (n - 1)).

Definition take_sign (x : double) : list Z * double := if dlt x (of_int 0) then (bytes "-", dneg x) else ([], x).

Definition formatJsNumber (x : double) : list Z :=
  if isnan x then bytes "NaN"
  else if deq x (of_int 0) then bytes "0"
  else
    let '(sign, x) := take_sign x in
    if negb (isfinite x) then sign ++ bytes "Infinity"
    else if dlt x (of_int 9007199254740992) && deq (of_int (to_int x)) x then sign ++ unsigned_text (to_int x)
    else
      let '(digits, exp10) := jsShortestDigits x in sign ++ lay_out digits exp10.

(** ** Number.prototype *)

(** [this] is what [rtThisNumberValue] answers. *)
Definition thisNumber (this : option double) (method : list Z) (k : double -> Answer) : Answer :=
  match this with
  | None => TypeError (bytes "Number.prototype." ++ method ++ bytes " called on a value that is not a number")
  | Some x => k x
  end.

(** An argument: [None] when it is undefined, and what [rtToNumber] makes of it otherwise. *)
Definition rtToNumber (arg : option double) : double := match arg with Some n => n | None => dnan end.

Definition toIntegerOrInfinity (v : option double) : double :=
  let n := rtToNumber v in
  if isnan n then of_int 0
  else if negb (isfinite n) then n
  else let t := dtrunc n in if deq t (of_int 0) then of_int 0 else t.

Definition toStringOfNumber (x : double) : list Z := formatJsNumber x.

(** The turns of the search, [None] when it gives up. *)
Fixpoint find_digits (guard : nat) (x : double) (digits e : Z) : option (option (list Z * Z)) :=
  match guard with
  | O => Some None
  | S guard =>
      let? n := exactScaledDigits x (digits - 1 - e) in
      let len := Z.of_nat (length n) in
      if len =? digits then Some (Some (n, e)) else find_digits guard x digits (e + (len - digits))
  end.

Definition findScaledDigits (x : double) (digits : Z) : option (option (list Z * Z)) :=
  find_digits 8 x digits (to_int (dfloor (log10 x))).

(** A range error of a digit count, and the count. *)
Definition out_of_range (f : double) (lo hi : Z) : bool := negb (isfinite f) || dlt f (of_int lo) || dlt (of_int hi) f.

Definition numberToFixed (this arg : option double) : Answer :=
  thisNumber this (bytes "toFixed") (fun x =>
    let f := toIntegerOrInfinity arg in
    if out_of_range f 0 100 then RangeError (bytes "toFixed() digits argument must be between 0 and 100")
    else if negb (isfinite x) then Text (toStringOfNumber x)
    else
      let '(s, x) := take_sign x in
      let digits := to_int f in
      if dle (of_int (10 ^ 21)) x then Text (s ++ toStringOfNumber x)
      else
        match exactScaledDigits x digits with
        | None => Fatal
        | Some m =>
            if digits =? 0 then Text (s ++ m)
            else
              let k := Z.of_nat (length m) in
              let '(m, k) := if k <=? digits then (replicate (Z.to_nat (digits + 1 - k)) 48 ++ m, digits + 1) else (m, k) in
              Text (s ++ take (Z.to_nat (k - digits)) m ++ bytes "." ++ drop (Z.to_nat (k - digits)) m)
        end).

Definition exponentSuffix (e : Z) : list Z :=
  if e =? 0 then bytes "e+0" else bytes "e" ++ (if e <? 0 then bytes "-" else bytes "+") ++ unsigned_text (if e <? 0 then - e else e).

(** [m.substr(0, 1) + "." + m.substr(1)] *)
Definition point_after_first (m : list Z) : list Z := take 1 m ++ bytes "." ++ drop 1 m.

Definition numberToExponential (this arg : option double) : Answer :=
  thisNumber this (bytes "toExponential") (fun x =>
    let f := toIntegerOrInfinity arg in
    if negb (isfinite x) then Text (toStringOfNumber x)
    else if out_of_range f 0 100 then RangeError (bytes "toExponential() argument must be between 0 and 100")
    else
      let '(s, x) := take_sign x in
      let found :=
        if deq x (of_int 0) then Some (Some (replicate (Z.to_nat (to_int f) + 1) 48, 0, to_int f))
        else
          match arg with
          | None => let '(digits, exp10) := jsShortestDigits x in Some (Some (digits, exp10, Z.of_nat (length digits) - 1))
          | Some _ => let? r := findScaledDigits x (to_int f + 1) in Some (let? d := r in Some (d, to_int f))
          end in
      match found with
      | Some (Some (m, e, f)) => Text (s ++ (if negb (f =? 0) then point_after_first m else m) ++ exponentSuffix e)
      | _ => Fatal
      end).

Definition numberToPrecision (this arg : option double) : Answer :=
  thisNumber this (bytes "toPrecision") (fun x =>
    match arg with
    | None => Text (toStringOfNumber x)
    | Some _ =>
        let pRaw := toIntegerOrInfinity arg in
        if negb (isfinite x) then Text (toStringOfNumber x)
        else if out_of_range pRaw 1 100 then RangeError (bytes "toPrecision() argument must be between 1 and 100")
        else
          let p := to_int pRaw in
          let '(s, x) := take_sign x in
          let zero := deq x (of_int 0) in
          match (if zero then Some (Some (replicate (Z.to_nat p) 48, 0)) else findScaledDigits x p) with
          | Some (Some (m, e)) =>
              if negb zero && ((e <? -6) || (p <=? e))
              then Text (s ++ (if negb (p =? 1) then point_after_first m else m) ++ exponentSuffix e)
              else if e =? p - 1 then Text (s ++ m)
              else if 0 <=? e then Text (s ++ take (Z.to_nat e + 1) m ++ bytes "." ++ drop (Z.to_nat e + 1) m)
              else Text (s ++ bytes "0." ++ replicate (Z.to_nat (- (e + 1))) 48 ++ m)
          | _ => Fatal
          end
    end).

Definition isPowerOfTwo (r : Z) : bool := (2 <=? r) && (Z.land r (r - 1) =? 0).

(** The carry of the last digit through the digits written, the last one first; the flag is
    set when it leaves them. *)
Fixpoint carry_digits (radix : Z) (out : list Z) : list Z * bool :=
  match out with
  | [] => ([], true)
  | c :: out =>
      let d := if 57 <? c then c - 97 + 10 else c - 48 in
      if d + 1 <? radix then (kDigits.[Z.to_nat (d + 1)] :: out, false) else carry_digits radix out
  end.

(** The digits of the fraction, the last one first; [None] for the lack of fuel. *)
Fixpoint fraction_digits (fuel : nat) (radix : Z) (fraction delta : double) (out : list Z) : option (list Z * bool) :=
  match fuel with
  | O => None
  | S fuel =>
      let fraction := dmul fraction (of_int radix) in
      let delta := dmul delta (of_int radix) in
      let digit := to_int fraction in
      let out := kDigits.[Z.to_nat digit] :: out in
      let fraction := dsub fraction (of_int digit) in
      let half := S754_finite false 4503599627370496 (-53) in
      if (dlt half fraction || (deq fraction half && negb (Z.land digit 1 =? 0))) && dlt (of_int 1) (dadd fraction delta)
      then Some (carry_digits radix out)
      else if dle delta fraction then fraction_digits fuel radix fraction delta out
      else Some (out, false)
  end.

(** The digits, and whether the rounding overflowed the fraction.  A turn multiplies [delta],
    at least 2^-1074, by the radix, and [fraction] stays below 1. *)
Definition radixFractionDigits (x : double) (radix : Z) : option (list Z * bool) :=
  let integer := dfloor x in
  let fraction := dsub x integer in
  let delta := dmul (S754_finite false 4503599627370496 (-53)) (dsub (SFsucc prec emax x) x) in
  let least := S754_finite false 1 (-1074) in
  let delta := if dlt least delta then delta else least in
  if dlt fraction delta then Some ([], false)
  else let? r := fraction_digits 1100 radix fraction delta [] in Some (rev r.1, r.2).

(** [Fatal] also where the digits of a fraction lack fuel. *)
Definition numberToString (this arg : option double) : Answer :=
  thisNumber this (bytes "toString") (fun x =>
    let radixRaw := match arg with None => of_int 10 | Some _ => toIntegerOrInfinity arg end in
    if out_of_range radixRaw 2 36 then RangeError (bytes "toString() radix must be between 2 and 36")
    else
      let radix := to_int radixRaw in
      if (radix =? 10) || negb (isfinite x) then Text (toStringOfNumber x)
      else
        let '(s, x) := take_sign x in
        let text (r : option (list Z)) := match r with Some t => Text t | None => Fatal end in
        if deq x (dtrunc x) then text (let? whole := exactIntegerDigits x radix in Some (s ++ whole))
        else if isPowerOfTwo radix
        then text (let? whole := exactIntegerDigits x radix in let? fraction := exactDyadicFractionDigits x radix in Some (s ++ whole ++ bytes "." ++ fraction))
        else
          text (let? r := radixFractionDigits x radix in
                let? whole := exactIntegerDigits (if r.2 then dadd (dtrunc x) (of_int 1) else x) radix in
                Some (if empty r.1 then s ++ whole else s ++ whole ++ bytes "." ++ r.1))).

Definition numberValueOf (this : option double) : Answer := thisNumber this (bytes "valueOf") Number.

(** [hook] is the host's answer, where it has a formatter. *)
Definition numberToLocaleString (hook : option Answer) (this : option double) : Answer :=
  match hook with Some out => out | None => numberToString this None end.

End Text.
(** Some texts of [std::to_chars]. *)
Definition sample (x : double) : list Z :=
  if deq x (strtod (bytes "1234.5")) then bytes "1.2345e+03"
  else if deq x (strtod (bytes "1e21")) then bytes "1e+21"
  else if deq x (strtod (bytes "0.00012")) then bytes "1.2e-04"
  else if deq x (strtod (bytes "1.5e-7")) then bytes "1.5e-07" else [].

(** What the members answer. *)
Example format_1 : formatJsNumber sample (strtod (bytes "-1234.5")) = bytes "-1234.5". Proof. vm_compute. reflexivity. Qed.
Example format_2 : formatJsNumber sample (strtod (bytes "1e21")) = bytes "1e+21". Proof. vm_compute. reflexivity. Qed.
Example format_3 : formatJsNumber sample (strtod (bytes "0.00012")) = bytes "0.00012". Proof. vm_compute. reflexivity. Qed.
Example format_4 : formatJsNumber sample (strtod (bytes "1.5e-7")) = bytes "1.5e-7". Proof. vm_compute. reflexivity. Qed.
Example format_5 : formatJsNumber sample (strtod (bytes "9007199254740991")) = bytes "9007199254740991". Proof. vm_compute. reflexivity. Qed.
Example fixed_1 : numberToFixed sample (Some (strtod (bytes "1.005"))) (Some (of_int 2)) = Text (bytes "1.00"). Proof. vm_compute. reflexivity. Qed.
Example fixed_2 : numberToFixed sample (Some (strtod (bytes "-0.00001"))) (Some (of_int 2)) = Text (bytes "-0.00"). Proof. vm_compute. reflexivity. Qed.
Example exp_1 : numberToExponential sample (fun _ => of_int 2) (Some (strtod (bytes "123.456"))) (Some (of_int 2)) = Text (bytes "1.23e+2"). Proof. vm_compute. reflexivity. Qed.
Example prec_1 : numberToPrecision sample (fun _ => of_int 2) (Some (strtod (bytes "123.456"))) (Some (of_int 4)) = Text (bytes "123.5"). Proof. vm_compute. reflexivity. Qed.
Example prec_2 : numberToPrecision sample (fun _ => of_int 2) (Some (strtod (bytes "123.456"))) (Some (of_int 2)) = Text (bytes "1.2e+2"). Proof. vm_compute. reflexivity. Qed.
Example precision_overshoot : numberToPrecision sample (fun _ => of_int 15) (Some (strtod (bytes "999999999999999.875"))) (Some (of_int 16)) = Text (bytes "1000000000000000"). Proof. vm_compute. reflexivity. Qed.
Example precision_exact : numberToPrecision sample (fun _ => of_int 14) (Some (strtod (bytes "999999999999999.875"))) (Some (of_int 16)) = Text (bytes "999999999999999.9"). Proof. vm_compute. reflexivity. Qed.
Example radix_3 : numberToString sample (Some (strtod (bytes "0.1"))) (Some (of_int 3)) = Text (bytes "0.0022002200220022002200220022002201"). Proof. vm_compute. reflexivity. Qed.
Example radix_16 : numberToString sample (Some (strtod (bytes "-255.5"))) (Some (of_int 16)) = Text (bytes "-ff.8"). Proof. vm_compute. reflexivity. Qed.

(** ** Decimal spellings *)

(** The sign, the integer and the power of ten that [strtod] reads. *)
Definition read_decimal (text : list Z) : bool * Z * Z :=
  let '(negative, text) := match text with 45 :: rest => (true, rest) | 43 :: rest => (false, rest) | _ => (false, text) end in
  let '(int, text) := span_decimal text in
  let '(frac, text) := match text with 46 :: rest => span_decimal rest | _ => ([], text) end in
  let exp10 :=
    match text with
    | c :: rest =>
        if (c =? 101) || (c =? 69) then
          match rest with
          | 45 :: rest => - decimal_value (fst (span_decimal rest))
          | 43 :: rest => decimal_value (fst (span_decimal rest))
          | _ => decimal_value (fst (span_decimal rest))
          end
        else 0
    | [] => 0
    end in
  (negative, decimal_value (int ++ frac), exp10 - Z.of_nat (length frac)).

Lemma strtod_read t : strtod t = let '(negative, m, e) := read_decimal t in round_decimal negative m e.
Proof. unfold strtod, read_decimal. repeat (case_match; simplify_eq); done. Qed.

Definition decimals (ds : list Z) : Prop := Forall (fun c => is_decimal c = true) ds.

Lemma span_decimals ds rest : decimals ds -> match rest with c :: _ => is_decimal c = false | [] => True end -> span_decimal (ds ++ rest) = (ds, rest).
Proof.
  intros Hds Hr. induction Hds as [|c ds Hc _ IH]; cbn [app span_decimal].
  - destruct rest; [done|]. cbn. by rewrite Hr.
  - by rewrite Hc, IH.
Qed.

Lemma decimal_value_from ds acc : fold_left (fun acc c => acc * 10 + (c - 48)) ds acc = acc * 10 ^ Z.of_nat (length ds) + decimal_value ds.
Proof.
  unfold decimal_value. revert acc. induction ds as [|c ds IH]; intros acc; cbn [fold_left length]; [rewrite Z.pow_0_r; lia|].
  rewrite IH, (IH (0 * 10 + (c - 48))), Nat2Z.inj_succ, Z.pow_succ_r by lia. ring.
Qed.

Lemma decimal_value_app l k : decimal_value (l ++ k) = decimal_value l * 10 ^ Z.of_nat (length k) + decimal_value k.
Proof. unfold decimal_value at 1. by rewrite fold_left_app, decimal_value_from. Qed.

Lemma decimals_zeros n : decimals (replicate n 48) /\ decimal_value (replicate n 48) = 0.
Proof. induction n as [|n [IH1 IH2]]; [by split; [constructor|]|]. split; [by constructor|exact IH2]. Qed.

Lemma printed_ten c : printed 10 c -> is_decimal c = true /\ digitValue c = c - 48.
Proof.
  intros (v & Hv & ->). rewrite <- digit_char_kDigits by lia. unfold digit_char. destruct (Z.ltb_spec v 10); [|lia].
  destruct (printed_decimal v ltac:(lia)) as [_ ->]. unfold is_decimal. split; [|lia]. apply andb_true_intro. split; apply Z.leb_le; lia.
Qed.

Lemma digits_of_decimals ds n : digits_of 10 ds n -> decimals ds /\ decimal_value ds = n /\ ds <> [].
Proof.
  intros (HF & <- & Hz). split; [eapply Forall_impl; [exact HF|]; intros c Hc; by apply printed_ten|]. split; [|destruct Hz as [->|(c & t & -> & _)]; done].
  unfold decimal_value, number. clear Hz. generalize 0. induction HF as [|c ds Hc _ IH]; intros acc; [done|]. cbn [fold_left]. destruct (printed_ten c Hc) as [_ ->]. apply IH.
Qed.

Lemma unsigned_text_spec n : 0 <= n < 2 ^ 64 -> digits_of 10 (unsigned_text n) n.
Proof. intros Hn. destruct (biguint_of n Hn) as [Hv E]. rewrite <- E at 2. by apply toDecimal_spec. Qed.

Lemma digits_of_length ds n j : digits_of 10 ds n -> 0 < j -> n < 10 ^ j -> Z.of_nat (length ds) <= j.
Proof.
  intros (HF & <- & Hz) Hj Hn. destruct Hz as [->|Hz]; [cbn; lia|]. pose proof (no_leading_zero_bound 10 ds ltac:(lia) HF Hz) as Hb.
  assert (H : 10 ^ (Z.of_nat (length ds) - 1) < 10 ^ j) by lia. apply Z.pow_lt_mono_r_iff in H; lia.
Qed.

(** *** The text of [std::to_chars] *)

(** The shape of the scientific format of a positive double: at most seventeen digits, an
    exponent of two or three digits with its sign. *)
Definition scientific (t : list Z) : Prop :=
  exists d ds (negative : bool) es, t = [d] ++ (if empty ds then [] else [46] ++ ds) ++ [101; if negative then 45 else 43] ++ es /\
    decimals (d :: ds) /\ decimals es /\ (length ds <= 16)%nat /\ (length es <= 3)%nat.

Lemma decimal_not c : is_decimal c = true -> 48 <= c <= 57.
Proof. unfold is_decimal. intros [H1%Z.leb_le H2%Z.leb_le]%andb_prop. lia. Qed.

Lemma until_e_digits ds rest : decimals ds -> until_e (ds ++ 101 :: rest) = (ds, 101 :: rest).
Proof.
  induction 1 as [|c ds Hc _ IH]; [done|]. cbn [app until_e]. apply decimal_not in Hc. destruct (Z.eqb_spec c 101); [lia|]. by rewrite IH.
Qed.

Lemma decimals_value ds : decimals ds -> 0 <= decimal_value ds < 10 ^ Z.of_nat (length ds).
Proof.
  induction 1 as [|c ds Hc _ IH] using Forall_ind; [cbn; lia|]. apply decimal_not in Hc. change (c :: ds) with ([c] ++ ds). rewrite decimal_value_app.
  cbn [app length]. rewrite Nat2Z.inj_succ, Z.pow_succ_r by lia. change (decimal_value [c]) with (0 * 10 + (c - 48)). nia.
Qed.

Lemma shortest_digits (to_chars : double -> list Z) x d ds (negative : bool) es :
  to_chars x = [d] ++ (if empty ds then [] else [46] ++ ds) ++ [101; if negative then 45 else 43] ++ es -> decimals (d :: ds) ->
  jsShortestDigits to_chars x = (d :: ds, if negative then - decimal_value es else decimal_value es).
Proof.
  intros E Hd. unfold jsShortestDigits. rewrite E. clear E. apply Forall_cons in Hd as [Hd Hds]. apply decimal_not in Hd.
  change (([d] ++ _).[0%nat]) with d. destruct (Z.eqb_spec d 45); [lia|]. change (([d] ++ _).[0%nat]) with d.
  change (drop 1 ([d] ++ ?r)) with r. pose proof (empty_spec ds) as He. destruct (empty ds).
  - subst ds. by destruct negative.
  - change (([46] ++ ds) ++ [101; if negative then 45 else 43] ++ es) with (46 :: (ds ++ 101 :: (if negative then 45 else 43) :: es)).
    change ((46 :: ?r).[0%nat] =? 46) with true. cbn iota. change (drop 1 (46 :: ?r)) with r. rewrite until_e_digits by done. by destruct negative.
Qed.

(** *** What is read back *)

Definition fractional (frac : list Z) : list Z := if empty frac then [] else [46] ++ frac.
Definition exponential (e : option (bool * list Z)) : list Z := match e with None => [] | Some (negative, es) => [101; if negative then 45 else 43] ++ es end.
Definition exponent_of (e : option (bool * list Z)) : Z := match e with None => 0 | Some (negative, es) => if negative then - decimal_value es else decimal_value es end.

Lemma read_spelling (negative : bool) int frac e :
  decimals int -> int <> [] -> decimals frac -> match e with Some (_, es) => decimals es | None => True end ->
  read_decimal ((if negative then [45] else []) ++ int ++ fractional frac ++ exponential e)
  = (negative, decimal_value (int ++ frac), exponent_of e - Z.of_nat (length frac)).
Proof.
  intros Hi Hne Hf He. unfold read_decimal.
  assert (Hsign : (match (if negative then [45] else []) ++ int ++ fractional frac ++ exponential e with 45 :: rest => (true, rest) | 43 :: rest => (false, rest)
    | _ => (false, (if negative then [45] else []) ++ int ++ fractional frac ++ exponential e) end) = (negative, int ++ fractional frac ++ exponential e)).
  { destruct negative; [done|]. destruct int as [|c int]; [done|]. apply Forall_cons in Hi as [Hc _]. apply decimal_not in Hc. cbn [app].
    destruct c as [|c|c]; [done| |done]. do 6 (destruct c as [c|c|]; try done; try lia). }
  rewrite Hsign. clear Hsign.
  assert (Hexp : match exponential e with c :: _ => is_decimal c = false | [] => True end) by (destruct e as [[? ?]|]; done).
  rewrite span_decimals; [|done|unfold fractional; destruct (empty frac); done].
  assert (Hfrac : (match fractional frac ++ exponential e with 46 :: rest => span_decimal rest | _ => ([], fractional frac ++ exponential e) end) = (frac, exponential e)).
  { unfold fractional. pose proof (empty_spec frac) as Hef. destruct (empty frac); [subst frac; by destruct e as [[? ?]|]|]. cbn [app]. by apply span_decimals. }
  rewrite Hfrac. f_equal. f_equal. destruct e as [[[] es]|]; cbn [exponential exponent_of app Z.eqb orb]; [| |done].
  - change (101 =? 101) with true. cbn. rewrite <- (app_nil_r es) at 1. by rewrite span_decimals.
  - change (101 =? 101) with true. cbn. rewrite <- (app_nil_r es) at 1. by rewrite span_decimals.
Qed.

(** Each form spells the digits at their place, in a few bytes. *)
Lemma lay_out_spells d ds exp10 :
  decimals (d :: ds) -> (length ds <= 16)%nat -> Z.abs exp10 < 1000 ->
  exists int frac e j, lay_out (d :: ds) exp10 = int ++ fractional frac ++ exponential e /\
    decimals int /\ int <> [] /\ decimals frac /\ match e with Some (_, es) => decimals es | None => True end /\
    0 <= j /\ decimal_value (int ++ frac) = decimal_value (d :: ds) * 10 ^ j /\
    exponent_of e - Z.of_nat (length frac) = exp10 - Z.of_nat (length ds) - j /\ (length (lay_out (d :: ds) exp10) <= 24)%nat.
Proof.
  intros Hd Hlen He. unfold lay_out. set (digits := d :: ds) in *. assert (Hk : length digits = S (length ds)) by done. rewrite Hk.
  destruct (_ && _) eqn:E1; [|destruct (_ && _) eqn:E2 in |- *; [|destruct (_ && _) eqn:E3 in |- *]].
  - exists (digits ++ replicate (Z.to_nat (exp10 + 1 - Z.of_nat (S (length ds)))) 48), [], None, (exp10 - Z.of_nat (length ds)).
    destruct (decimals_zeros (Z.to_nat (exp10 + 1 - Z.of_nat (S (length ds))))) as [Hz Ez].
    rewrite !app_nil_r. split_and!; [done|by apply Forall_app|done|constructor|done|lia| |cbn [exponent_of length]; lia|rewrite length_app, length_replicate; lia].
    rewrite decimal_value_app, Ez, length_replicate, Z2Nat.id by lia. replace (exp10 + 1 - Z.of_nat (S (length ds))) with (exp10 - Z.of_nat (length ds)) by lia. lia.
  - exists (take (Z.to_nat (exp10 + 1)) digits), (drop (Z.to_nat (exp10 + 1)) digits), None, 0.
    assert (Hdrop : length (drop (Z.to_nat (exp10 + 1)) digits) = (S (length ds) - Z.to_nat (exp10 + 1))%nat) by (by rewrite length_drop).
    split_and!; [|by apply Forall_take| |by apply Forall_drop|done|done|by rewrite take_drop, Z.mul_1_r|cbn [exponent_of]; lia|].
    + unfold fractional. destruct (drop _ digits) eqn:Ed; [cbn in Hdrop; lia|]. by rewrite app_nil_r.
    + replace (Z.to_nat (exp10 + 1)) with (S (Z.to_nat exp10)) by lia. done.
    + rewrite !length_app, length_take, Hdrop. cbn [length bytes]. change (length (bytes ".")) with 1%nat. lia.
  - exists [48], (replicate (Z.to_nat (- (exp10 + 1))) 48 ++ digits), None, 0. destruct (decimals_zeros (Z.to_nat (- (exp10 + 1)))) as [Hz Ez].
    split_and!; [|by repeat constructor|done|by apply Forall_app|done|done| | |].
    + unfold fractional. destruct (replicate _ 48 ++ digits) eqn:Ed; [apply app_eq_nil in Ed as [_ Ed]; done|]. rewrite app_nil_r. done.
    + rewrite app_assoc, decimal_value_app, Z.mul_1_r. change ([48] ++ replicate (Z.to_nat (- (exp10 + 1))) 48) with (replicate (S (Z.to_nat (- (exp10 + 1)))) 48).
      destruct (decimals_zeros (S (Z.to_nat (- (exp10 + 1))))) as [_ ->]. lia.
    + cbn [exponent_of]. rewrite length_app, length_replicate. lia.
    + rewrite !length_app, length_replicate. change (length (bytes "0.")) with 2%nat. lia.
  - destruct (digits_of_decimals _ _ (unsigned_text_spec (Z.abs (exp10 + 1 - 1)) ltac:(lia))) as (Hu & Eu & _).
    pose proof (digits_of_length _ _ 3 (unsigned_text_spec (Z.abs (exp10 + 1 - 1)) ltac:(lia)) ltac:(lia) ltac:(lia)) as Hul.
    exists [d], ds, (Some (exp10 + 1 - 1 <? 0, unsigned_text (Z.abs (exp10 + 1 - 1)))), 0. apply Forall_cons in Hd as [Hd Hds].
    assert (Ept : (if 1 <? Z.of_nat (S (length ds)) then bytes "." ++ drop 1 digits else []) = fractional ds).
    { unfold fractional. destruct ds; [done|]. cbn [length empty]. destruct (Z.ltb_spec 1 (Z.of_nat (S (S (length ds))))); [done|lia]. }
    rewrite Ept. split_and!; [|by repeat constructor|done|done|done|done|by rewrite Z.mul_1_r| |].
    + cbn [exponential]. by destruct (_ <? 0).
    + cbn [exponent_of]. rewrite Eu. destruct (Z.ltb_spec (exp10 + 1 - 1) 0); lia.
    + assert (length (fractional ds) <= 17)%nat by (unfold fractional; destruct ds; cbn in *; lia).
      rewrite !length_app. change (length (bytes "e")) with 1%nat. destruct (_ <? 0); [change (length (bytes "-")) with 1%nat|change (length (bytes "+")) with 1%nat]; cbn [length]; lia.
Qed.

Lemma compare_positive m n e f : SFcompare (S754_finite false m e) (S754_finite false n f) =
  Some (match (e ?= f)%Z with Lt => Lt | Gt => Gt | Eq => (m ?= n)%positive end).
Proof. cbn [SFcompare]. by destruct (e ?= f). Qed.

Lemma below_limit m e : Zpos m < 2 ^ 53 -> dlt (S754_finite false m e) (of_int 9007199254740992) = true -> 0 <= to_int (S754_finite false m e) < 2 ^ 53.
Proof.
  intros Hm. assert (H53 : exists n, of_int 9007199254740992 = S754_finite false n 1 /\ Zpos n = 2 ^ 52) by (eexists; split; [vm_compute; reflexivity|done]).
  destruct H53 as (n & -> & En). unfold dlt, SFltb. rewrite compare_positive. cbn [to_int]. destruct (Z.compare_spec e 1) as [->|He|He]; [| |done].
  - destruct (Pos.compare_spec m n) as [|Hlt|]; try done. intros _. change (0 <=? 1) with true. cbn iota. lia.
  - intros _. destruct (Z.leb_spec 0 e); [replace e with 0 by lia; lia|]. pose proof (Z.pow_pos_nonneg 2 (- e) ltac:(lia) ltac:(lia)).
    rewrite Z.quot_div_nonneg by lia. split; [apply Z.div_pos; lia|]. apply Z.div_lt_upper_bound; nia.
Qed.

Lemma whole_double m e z : 0 <= z < 2 ^ 53 -> deq (of_int z) (S754_finite false m e) = true -> e <= 0 /\ Zpos m = z * 2 ^ (- e).
Proof.
  intros Hz. destruct (isint_inv _ _ (of_int_isint z ltac:(lia))) as [(-> & s & ->)|(s & p & k & -> & Es & Hk & _)]; [by destruct s|].
  unfold deq, SFeqb. destruct s; [done|]. cbn [signed] in Es. rewrite compare_positive. destruct (Z.compare_spec (- k) e) as [<-|He|He]; [|done|done].
  destruct (Pos.compare_spec p m) as [->| |]; try done. intros _. rewrite Z.opp_involutive. lia.
Qed.

(** [t] spells [M * 10 ^ E] with the sign, whatever zeros it has at its end. *)
Definition spells (t : list Z) (negative : bool) (M E : Z) : Prop :=
  exists j, 0 <= j /\ read_decimal t = (negative, M * 10 ^ j, E - j).

Lemma take_sign_finite s m e : take_sign (S754_finite s m e) = (if s then [45] else [], S754_finite false m e).
Proof. by destruct s. Qed.

(** C15: Number::toString of a finite double that is not zero fits in 25 bytes, of the 32 its
    callers reserve, and spells the number: the double itself where it is an integer below
    2^53, and otherwise, in whichever of the four forms it takes, the same decimal as the
    shortest digits of [std::to_chars] of its absolute value, behind its sign. *)
Theorem number_text (to_chars : double -> list Z) (s : bool) m e :
  scientific (to_chars (S754_finite false m e)) -> valid_binary prec emax (S754_finite false m e) = true ->
  let t := formatJsNumber to_chars (S754_finite s m e) in
  (length t <= 25)%nat /\
  ((exists z, Zpos m = z * 2 ^ (- e) /\ e <= 0 /\ read_decimal t = (s, z, 0)) \/
   let '(_, M, E) := read_decimal (to_chars (S754_finite false m e)) in spells t s M E).
Proof.
  intros Hsci Hx. destruct (valid_bounds false m e Hx) as [Hm _]. cbn zeta. unfold formatJsNumber. cbn [isnan].
  change (deq (S754_finite s m e) (of_int 0)) with (SFeqb (S754_finite s m e) (S754_zero false)). replace (SFeqb (S754_finite s m e) (S754_zero false)) with false by (by destruct s).
  rewrite take_sign_finite. cbn [isfinite negb].
  assert (Hs : (length (if s then [45] else []) <= 1)%nat) by (by destruct s; cbn; lia).
  destruct (_ && _) eqn:E.
  - apply andb_prop in E as [Hlt Heq]. pose proof (below_limit m e Hm Hlt) as Hz. destruct (whole_double m e _ Hz Heq) as [He Ez].
    assert (Hz64 : 0 <= to_int (S754_finite false m e) < 2 ^ 64) by lia. pose proof (unsigned_text_spec _ Hz64) as Hu.
    pose proof (digits_of_length _ _ 16 Hu ltac:(lia) ltac:(lia)). destruct (digits_of_decimals _ _ Hu) as (Hd & Ev & Hne).
    split; [destruct s; cbn [app length]; lia|]. left. exists (to_int (S754_finite false m e)). split_and!; [done|done|].
    pose proof (read_spelling s _ [] None Hd Hne ltac:(constructor) I) as Hr. unfold fractional, exponential in Hr. cbn [empty] in Hr.
    rewrite !app_nil_r in Hr. rewrite Hr, Ev. done.
  - clear E. destruct Hsci as (d & ds & negative & es & Et & Hd & Hes & Hlds & Hles). rewrite (shortest_digits to_chars _ d ds negative es Et Hd), Et.
    pose proof (decimals_value es Hes) as Hv. assert (10 ^ Z.of_nat (length es) <= 10 ^ 3) by (apply Z.pow_le_mono_r; lia).
    destruct (lay_out_spells d ds (if negative then - decimal_value es else decimal_value es) Hd Hlds ltac:(destruct negative; lia)) as (int & frac & ex & j & El & Hi & Hne & Hf & Hex & Hj & Ev & Ee & Hlen).
    split; [destruct s; cbn [app length]; lia|]. right. apply Forall_cons in Hd as [Hd Hds].
    pose proof (read_spelling false [d] ds (Some (negative, es)) ltac:(by repeat constructor) ltac:(done) Hds Hes) as Hr. cbn [exponential] in Hr.
    change (if empty ds then [] else [46] ++ ds) with (fractional ds). change (([] : list Z) ++ ?t) with t in Hr. rewrite Hr.
    exists j. split; [done|]. rewrite El, (read_spelling s int frac ex Hi Hne Hf Hex), Ev, Ee. cbn [exponent_of app]. done.
Qed.

(** ** The search for the decimal exponent *)

Lemma nearest_ratio A B A' B' n : 0 < B -> 0 < B' -> A * B' = A' * B -> nearest A B n -> nearest A' B' n.
Proof.
  unfold nearest. intros HB HB' E [H1 H2]. split.
  - apply (Z.mul_le_mono_pos_r _ _ B HB). apply (Z.mul_le_mono_pos_r _ _ B' HB') in H1. nia.
  - apply (Z.mul_lt_mono_pos_r B _ _ HB). apply (Z.mul_lt_mono_pos_r B' _ _ HB') in H2. nia.
Qed.

Lemma max_pow b k : 0 < b -> 0 < b ^ Z.max k 0.
Proof. intros. apply Z.pow_pos_nonneg; lia. Qed.

(** A larger power of ten scales the quotient. *)
Lemma over_scale m e k j : 0 <= j -> over m e (k + j) * under e k = over m e k * 10 ^ j * under e (k + j).
Proof.
  intros Hj. unfold over, under.
  assert (H : 10 ^ Z.max (k + j) 0 * 10 ^ Z.max (- k) 0 = 10 ^ Z.max k 0 * 10 ^ j * 10 ^ Z.max (- (k + j)) 0).
  { rewrite <- !Z.pow_add_r by lia. f_equal. lia. }
  transitivity (m * 2 ^ Z.max e 0 * 2 ^ Z.max (- e) 0 * (10 ^ Z.max (k + j) 0 * 10 ^ Z.max (- k) 0)); [ring|]. rewrite H. ring.
Qed.

Lemma digits_length ds n j : digits_of 10 ds n -> 0 <= j -> 10 ^ j <= n < 10 ^ (j + 1) -> Z.of_nat (length ds) = j + 1.
Proof.
  intros Hd Hj Hn. pose proof (digits_of_length ds n (j + 1) Hd ltac:(lia) ltac:(lia)). destruct (digits_of_decimals _ _ Hd) as (Hdec & Ev & _).
  pose proof (decimals_value ds Hdec). assert (H10 : 10 ^ j < 10 ^ Z.of_nat (length ds)) by lia. apply Z.pow_lt_mono_r_iff in H10; lia.
Qed.

Section Search.

(** A positive double, its decimal exponent [E] and the number of digits. *)
Context (m : positive) (e E digits : Z).
Hypothesis valid : valid_binary prec emax (S754_finite false m e) = true.
Hypothesis E_small : Z.abs E <= 2 ^ 10.
Hypothesis E_exact : under e (- E) <= over (Zpos m) e (- E) < 10 * under e (- E).
Hypothesis digits_range : 1 <= digits <= 2 ^ 10.

Definition near (i n : Z) : Prop := nearest (over (Zpos m) e (i - E - 1)) (under e (i - E - 1)) n.

Lemma near_bounds i n : 1 <= i -> near i n -> 10 ^ (i - 1) <= n <= 10 ^ i.
Proof.
  intros Hi Hn. pose proof (over_scale (Zpos m) e (- E) (i - 1) ltac:(lia)) as Es. replace (- E + (i - 1)) with (i - E - 1) in Es by lia.
  pose proof (under_pos e (- E)) as Hu. assert (Hn' : nearest (over (Zpos m) e (- E) * 10 ^ (i - 1)) (under e (- E)) n) by (eapply nearest_ratio; [apply under_pos|exact Hu|exact Es|exact Hn]).
  destruct Hn' as [H1 H2]. replace (10 ^ i) with (10 * 10 ^ (i - 1)) by (rewrite <- Z.pow_succ_r by lia; f_equal; lia).
  assert (Hp : 0 < 10 ^ (i - 1)) by (apply Z.pow_pos_nonneg; lia). set (u := under e (- E)) in *. set (o := over (Zpos m) e (- E)) in *. set (p := 10 ^ (i - 1)) in *.
  assert (u * p <= o * p < 10 * u * p) by nia. split; nia.
Qed.

(** Rounding up to a power of ten at one scale is rounding up to it at a coarser one. *)
Lemma near_carry i j : 1 <= i -> 0 <= j <= i -> near i (10 ^ i) -> near j (10 ^ j).
Proof.
  intros Hi Hj [H1 _]. unfold near, nearest.
  pose proof (over_scale (Zpos m) e (- E - 1) i ltac:(lia)) as Ei. replace (- E - 1 + i) with (i - E - 1) in Ei by lia.
  pose proof (over_scale (Zpos m) e (- E - 1) j ltac:(lia)) as Ej. replace (- E - 1 + j) with (j - E - 1) in Ej by lia.
  pose proof (over_scale (Zpos m) e (- E - 1) 1 ltac:(lia)) as E1. replace (- E - 1 + 1) with (- E) in E1 by lia.
  pose proof (under_pos e (- E - 1)) as Hu. pose proof (under_pos e (- E)) as Hu1. pose proof (under_pos e (i - E - 1)) as Hui. pose proof (under_pos e (j - E - 1)) as Huj.
  set (u := under e (- E - 1)) in *. set (o := over (Zpos m) e (- E - 1)) in *. rewrite Z.pow_1_r in E1.
  assert (Hlt : o < u) by nia.
  assert (Hi' : (2 * 10 ^ i - 1) * u <= 2 * (o * 10 ^ i)) by (apply (Z.mul_le_mono_pos_r _ _ _ Hui); nia).
  replace i with (j + (i - j)) in Hi' by lia. rewrite Z.pow_add_r in Hi' by lia.
  assert (Hpj : 0 < 10 ^ j) by (apply Z.pow_pos_nonneg; lia). assert (Hpd : 0 < 10 ^ (i - j)) by (apply Z.pow_pos_nonneg; lia).
  assert (Hj' : (2 * 10 ^ j - 1) * u <= 2 * (o * 10 ^ j) < (2 * 10 ^ j + 1) * u) by nia.
  destruct Hj' as [Hj1 Hj2]. split; apply (Z.mul_le_mono_pos_r _ _ _ Hu) || apply (Z.mul_lt_mono_pos_r _ _ _ Hu).
  - apply (Z.mul_le_mono_pos_r _ _ _ Huj) in Hj1. nia.
  - apply (Z.mul_lt_mono_pos_r _ _ _ Huj) in Hj2. nia.
Qed.

Lemma scaled_turn i : 0 <= i <= 2 ^ 12 -> exists ds n, exactScaledDigits (S754_finite false m e) (i - E - 1) = Some ds /\ digits_of 10 ds n /\ near i n.
Proof. intros Hi. apply (scaled_digits false m e (i - E - 1)); [done|lia]. Qed.

Lemma near_unique i n k : near i n -> near i k -> n = k.
Proof. unfold near, nearest. pose proof (under_pos e (i - E - 1)). intros [H1 H2] [H3 H4]. nia. Qed.

(** The right answer: the digits of the nearest integer of that many digits, or a one and
    zeros where it rounds up to the next power of ten. *)
Definition found (ds : list Z) (e' : Z) : Prop :=
  exists n, digits_of 10 ds n /\ Z.of_nat (length ds) = digits /\
    ((e' = E /\ near digits n) \/ (e' = E + 1 /\ n = 10 ^ (digits - 1) /\ near digits (10 ^ digits))).

(** A turn that starts at the exponent after [E], which the rounding asks for. *)
Lemma find_carried guard : near digits (10 ^ digits) ->
  exists ds, find_digits (S guard) (S754_finite false m e) digits (E + 1) = Some (Some (ds, E + 1)) /\ found ds (E + 1).
Proof.
  intros Hc. destruct (scaled_turn (digits - 1) ltac:(lia)) as (ds & n & Eds & Hds & Hn). cbn [find_digits].
  replace (digits - 1 - (E + 1)) with (digits - 1 - E - 1) by lia. rewrite Eds.
  assert (En : n = 10 ^ (digits - 1)) by (apply (near_unique (digits - 1)); [done|]; apply (near_carry digits); [lia|lia|done]).
  assert (Hlen : Z.of_nat (length ds) = digits).
  { rewrite (digits_length ds n (digits - 1) Hds ltac:(lia)); [lia|]. rewrite En, Z.sub_add. split; [lia|]. apply Z.pow_lt_mono_r; lia. }
  rewrite Hlen, Z.eqb_refl. exists ds. split; [done|]. exists n. split_and!; [done|done|]. right. by split_and!.
Qed.

(** A turn that starts at [E]. *)
Lemma find_from_exponent guard : exists ds e', find_digits (S (S guard)) (S754_finite false m e) digits E = Some (Some (ds, e')) /\ found ds e'.
Proof.
  destruct (scaled_turn digits ltac:(lia)) as (ds & n & Eds & Hds & Hn). pose proof (near_bounds digits n ltac:(lia) Hn) as Hb.
  remember (S guard) as g eqn:Eg. cbn [find_digits]. replace (digits - 1 - E) with (digits - E - 1) by lia. rewrite Eds. destruct (Z.eq_dec n (10 ^ digits)) as [->|Hne].
  - rewrite (digits_length ds (10 ^ digits) digits Hds ltac:(lia)) by (split; [lia|]; apply Z.pow_lt_mono_r; lia).
    destruct (Z.eqb_spec (digits + 1) digits); [lia|]. replace (E + (digits + 1 - digits)) with (E + 1) by lia. subst g.
    destruct (find_carried guard Hn) as (ds' & E' & Hf). exists ds', (E + 1). done.
  - assert (Hlen : Z.of_nat (length ds) = digits) by (rewrite (digits_length ds n (digits - 1) Hds ltac:(lia)); [lia|]; rewrite Z.sub_add; lia).
    rewrite Hlen, Z.eqb_refl. exists ds, E. split; [done|]. exists n. split_and!; [done|done|]. by left.
Qed.

Lemma find_exact guard e0 : E - 2 ^ 10 <= e0 <= E ->
  exists ds e', find_digits (S (S (S guard))) (S754_finite false m e) digits e0 = Some (Some (ds, e')) /\ found ds e'.
Proof.
  intros He0. destruct (Z.eq_dec e0 E) as [->|Hne]; [apply find_from_exponent|].
  destruct (scaled_turn (digits + E - e0) ltac:(lia)) as (ds & n & Eds & Hds & Hn). pose proof (near_bounds (digits + E - e0) n ltac:(lia) Hn) as Hb.
  remember (S (S guard)) as g eqn:Eg. cbn [find_digits]. replace (digits - 1 - e0) with (digits + E - e0 - E - 1) by lia. rewrite Eds.
  set (i := digits + E - e0) in *. destruct (Z.eq_dec n (10 ^ i)) as [->|Hni].
  - rewrite (digits_length ds (10 ^ i) i Hds ltac:(lia)) by (split; [lia|]; apply Z.pow_lt_mono_r; lia).
    destruct (Z.eqb_spec (i + 1) digits); [lia|]. replace (e0 + (i + 1 - digits)) with (E + 1) by lia. subst g.
    destruct (find_carried (S guard) (near_carry i digits ltac:(lia) ltac:(lia) Hn)) as (ds' & E' & Hf). exists ds', (E + 1). done.
  - rewrite (digits_length ds n (i - 1) Hds ltac:(lia)) by (rewrite Z.sub_add; lia).
    destruct (Z.eqb_spec (i - 1 + 1) digits); [lia|]. replace (e0 + (i - 1 + 1 - digits)) with E by lia. subst g. apply find_from_exponent.
Qed.

End Search.

(** The digits that toExponential and toPrecision print: whenever [std::log10] does not
    round up past the decimal exponent [E] of a positive double, the search ends within its
    eight turns with as many digits as were asked for, those of the integer nearest to the
    double at that scale, the larger one of two, carried into the next power of ten exactly
    when the rounding reaches it. *)
Theorem search_exact (log10 : double -> double) m e E digits :
  valid_binary prec emax (S754_finite false m e) = true -> Z.abs E <= 2 ^ 10 ->
  under e (- E) <= over (Zpos m) e (- E) < 10 * under e (- E) -> 1 <= digits <= 101 ->
  E - 2 ^ 10 <= to_int (dfloor (log10 (S754_finite false m e))) <= E ->
  exists ds e', findScaledDigits log10 (S754_finite false m e) digits = Some (Some (ds, e')) /\ found m e E digits ds e'.
Proof. intros Hx HE Hs Hd Hl. apply (find_exact m e E digits Hx HE Hs ltac:(lia) 5 _ Hl). Qed.

(** ** toFixed *)

Lemma out_of_range_int f n lo hi : isint f n -> lo <= n <= hi -> Z.abs lo < 2 ^ 53 -> Z.abs hi < 2 ^ 53 -> out_of_range f lo hi = false.
Proof.
  intros Hf Hn Hlo Hhi. unfold out_of_range. rewrite (isint_finite f n Hf), (isint_lt _ _ _ _ Hf (of_int_isint lo Hlo)), (isint_lt _ _ _ _ (of_int_isint hi Hhi) Hf). cbn [negb orb]. lia.
Qed.

(** The whole digits: a zero alone or no leading zero. *)
Definition whole_digits (int : list Z) : Prop := int = [48] \/ no_leading_zero int.

(** The digits of a number with a point before the last [f] of them. *)
Lemma point_in (f : Z) ds n : digits_of 10 ds n -> 0 < f ->
  let k := Z.of_nat (length ds) in
  let '(ds', k) := if k <=? f then (replicate (Z.to_nat (f + 1 - k)) 48 ++ ds, f + 1) else (ds, k) in
  let int := take (Z.to_nat (k - f)) ds' in let frac := drop (Z.to_nat (k - f)) ds' in
  whole_digits int /\ decimals int /\ decimals frac /\ Z.of_nat (length frac) = f /\ decimal_value (int ++ frac) = n.
Proof.
  intros Hds Hf. destruct (digits_of_decimals _ _ Hds) as (Hdec & Ev & Hne). cbn zeta. destruct (Z.leb_spec (Z.of_nat (length ds)) f) as [Hk|Hk].
  - replace (Z.to_nat (f + 1 - f)) with 1%nat by lia. destruct (Z.to_nat (f + 1 - Z.of_nat (length ds))) as [|z] eqn:Ez; [lia|].
    destruct (decimals_zeros (S z)) as [Hz Evz]. cbn [replicate app take drop]. rewrite drop_0, take_0. split_and!; [by left|by repeat constructor| | |].
    + apply Forall_app. split; [by apply decimals_zeros|done].
    + rewrite length_app, length_replicate. lia.
    + change (decimal_value (replicate (S z) 48 ++ ds) = n). rewrite decimal_value_app, Evz. lia.
  - split_and!; [| by apply Forall_take|by apply Forall_drop|rewrite length_drop; lia|by rewrite take_drop].
    destruct Hds as (_ & _ & [->|(c & t & -> & Hc)]); [cbn in Hk; lia|]. destruct (Z.to_nat (Z.of_nat (length (c :: t)) - f)) eqn:E0; [lia|]. right. by eexists c, _.
Qed.

(** The sign that is printed, and the whole number and the power of two a finite number is
    the product of. *)
Definition printed_parts (x : double) : bool * Z * Z :=
  match x with S754_finite s m e => (s, Zpos m, e) | _ => (false, 0, 0) end.

(** The parts of a number, and the digits of its magnitude. *)
Lemma fixed_parts x f (p := printed_parts x) : valid_binary prec emax x = true -> isfinite x = true -> 0 <= f <= 100 ->
  (take_sign x).1 = (if p.1.1 then bytes "-" else []) /\ (dle (of_int (10 ^ 21)) (take_sign x).2 = dle (of_int (10 ^ 21)) (dabs x)) /\
  exists ds n, exactScaledDigits (take_sign x).2 f = Some ds /\ digits_of 10 ds n /\ nearest (over p.1.2 p.2 f) (under p.2 f) n.
Proof.
  intros Hx Hfin Hf. destruct x as [s|s| |s m e]; try done; cbn [printed_parts fst snd] in p.
  - replace (take_sign (S754_zero s)) with (@nil Z, S754_zero s) by (by destruct s). split_and!; [done|by destruct s|].
    exists (bytes "0"), 0. split_and!; [by destruct s| |].
    + split_and!; [constructor; [by exists 0|constructor]|done|by left].
    + pose proof (under_pos 0 f). unfold nearest, over. subst p. cbn [fst snd]. lia.
  - rewrite take_sign_finite. split_and!; [by destruct s|done|]. apply (scaled_digits false m e f Hx). lia.
Qed.

(** C14: [toFixed(f)], for [f] from 0 to 100, of a finite number whose magnitude is below 10^21, zero of either sign
    included, always answers a text, and the text is the sign (none for a zero), a whole part
    without a leading zero and exactly [f] decimals, which together are the integer nearest
    to |x| times [10^f], the larger one of two. *)
Theorem fixed_exact (to_chars : double -> list Z) x f arg :
  valid_binary prec emax x = true -> isfinite x = true -> isint (toIntegerOrInfinity arg) f -> 0 <= f <= 100 ->
  dle (of_int (10 ^ 21)) (dabs x) = false ->
  let '(s, m, e) := printed_parts x in
  exists int frac, numberToFixed to_chars (Some x) arg = Text ((if s then bytes "-" else []) ++ int ++ fractional frac) /\
    whole_digits int /\ decimals int /\ decimals frac /\ Z.of_nat (length frac) = f /\
    nearest (over m e f) (under e f) (decimal_value (int ++ frac)).
Proof.
  intros Hx Hfin Hf Hr Hlt. unfold numberToFixed, thisNumber. rewrite (out_of_range_int _ f 0 100 Hf), Hfin by lia. cbn [negb].
  destruct (fixed_parts x f Hx Hfin Hr) as (Es & Ed & ds & n & Ex & Hds & Hn). destruct (printed_parts x) as [[s m] e]. destruct (take_sign x) as [sg y].
  cbn [fst snd] in *. rewrite Ed, Hlt, (isint_to_int _ _ Hf), Ex, Es.
  pose proof (point_in f ds n Hds) as Hp. destruct (Z.eqb_spec f 0) as [->|Hne].
  - destruct (digits_of_decimals _ _ Hds) as (Hdec & Ev & _). exists ds, []. cbn [fractional empty length]. rewrite !app_nil_r, Ev. split_and!; [done| |done|constructor|done|done].
    destruct Hds as (_ & _ & [->|Hz]); [by left|by right].
  - specialize (Hp ltac:(lia)). cbn zeta in Hp. destruct (if Z.of_nat (length ds) <=? f then _ else _) as [ds' k]. destruct Hp as (Hw & Hi & Hfr & Hlen & Ev).
    exists (take (Z.to_nat (k - f)) ds'), (drop (Z.to_nat (k - f)) ds'). rewrite Ev. split_and!; [|done|done|done|done|done].
    unfold fractional. destruct (drop _ ds'); [cbn in Hlen; lia|]. done.
Qed.

(** ** Witnesses *)

(** A text of the right shape. *)
Definition one_text (x : double) : list Z := bytes "1.2345e+03".

Lemma one_text_scientific x : scientific (one_text x).
Proof.
  exists 49, (bytes "2345"), false, (bytes "03"). split; [done|]. unfold decimals. split_and!; [by repeat constructor|by repeat constructor|cbn; lia|cbn; lia].
Qed.

Lemma number_text_witness :
  (length (formatJsNumber one_text (S754_finite true 5429503278383104 (-42))) <= 25)%nat.
Proof. apply (number_text one_text true 5429503278383104 (-42)); [apply one_text_scientific|vm_compute; reflexivity]. Defined.

Lemma search_exact_witness :
  exists ds e', findScaledDigits (fun _ => of_int 14) (S754_finite false 7999999999999999 (-3)) 16 = Some (Some (ds, e')) /\ found 7999999999999999 (-3) 14 16 ds e'.
Proof. apply search_exact; [vm_compute; reflexivity|lia|vm_compute; split; [discriminate|reflexivity]|lia|vm_compute; split; discriminate]. Defined.

Lemma fixed_exact_witness :
  exists int frac, numberToFixed one_text (Some (S754_finite true 4526117625545425 (-52))) (Some (of_int 2)) = Text (bytes "-" ++ int ++ fractional frac) /\
    whole_digits int /\ decimals int /\ decimals frac /\ Z.of_nat (length frac) = 2 /\ nearest (over 4526117625545425 (-52) 2) (under (-52) 2) (decimal_value (int ++ frac)).
Proof. apply (fixed_exact one_text (S754_finite true 4526117625545425 (-52)) 2 (Some (of_int 2))); [vm_compute; reflexivity|reflexivity|split; [lia|exists false; vm_compute; reflexivity]|lia|vm_compute; reflexivity]. Defined.
