(* ===== verification/BigNumDouble.v ===== *)
(** * BigInts and doubles (src/src/runtime/bignum.cpp)

    The three operations where the two numeric types meet: the BigInt of an integral double,
    the comparison of mathematical values and the nearest double of a BigInt. *)
From S2P Require Import Prelude BigNumMag BigNumOps Float64 DoubleArith.
Local Open Scope Z_scope.
Local Open Scope bool_scope.

Definition kUnordered : Z := 2.

(** [std::frexp] and [std::ldexp] *)
Definition dfrexp (x : double) : double * Z := SFfrexp prec emax x.
Definition dldexp (x : double) (e : Z) : double := SFldexp prec emax x e.

(** [std::signbit] *)
Definition dsignbit (x : double) : bool :=
  match x with S754_zero s | S754_infinity s | S754_finite s _ _ => s | S754_nan => false end.

Definition fromDoubleExact (d : double) : option BigNum :=
  if negb (isfinite d) then None
  else if negb (deq d (dtrunc d)) then None
  else
    let negative := dsignbit d && negb (deq d (of_int 0)) in
    let magnitude := dabs d in
    if deq magnitude (of_int 0) then Some zero
    else
      let '(fraction, exponent) := dfrexp magnitude in
      let mantissa := u64 (to_int (dldexp fraction 53)) in
      let shift := exponent - 53 in
      let out := mag_ (fromUint64 mantissa) in
      let out :=
        if 0 <? shift then shiftLeftBits out shift
        else if shift <? 0 then fst (shiftRightBits out (- shift)) else out in
      Some (trim (mkBigNum negative out)).

(** [std::modf]: the fraction, which is exact, and the integral part. *)
Definition dmodf (x : double) : double * double :=
  (match x with
   | S754_finite s m e => if 0 <=? e then S754_zero s else let r := Zpos m mod 2 ^ (- e) in binary_normalize prec emax (if s then - r else r) e s
   | S754_infinity s => S754_zero s
   | _ => x
   end, dtrunc x).

Definition compareWithDouble (a : BigNum) (d : double) : Z :=
  if isnan d then kUnordered
  else if negb (isfinite d) then if dlt (of_int 0) d then -1 else 1
  else
    let aSign := sign a in
    let dSign := if dlt (of_int 0) d then 1 else if dlt d (of_int 0) then -1 else 0 in
    if negb (aSign =? dSign) then if aSign <? dSign then -1 else 1
    else if aSign =? 0 then 0
    else
      let '(fraction, integral) := dmodf (dabs d) in
      match fromDoubleExact integral with
      | None => kUnordered
      | Some truncated =>
          let order := compareMagnitude (mag_ a) (mag_ truncated) in
          let order := if (order =? 0) && negb (deq fraction (of_int 0)) then -1 else order in
          if aSign <? 0 then - order else order
      end.

(** The conversion of an integer to [int], of 32 bits. *)
Definition s32 (z : Z) : Z := let u := u32 z in if u <? 2 ^ 31 then u else u - 2 ^ 32.

(** The bits below the top 53 rounded into them: the value and its exponent, which is
    counted in an [int]. *)
Definition round_top (mag : list Z) (bits : Z) : Z * Z :=
  let '(top, sticky) := shiftRightBits mag (bits - 54) in
  let value := Z.lor (if (1 <=? length top)%nat then top.[0%nat] else 0) (if (2 <=? length top)%nat then u64 (Z.shiftl top.[1%nat] 32) else 0) in
  let roundBit := negb (Z.land value 1 =? 0) in
  let value := Z.shiftr value 1 in
  let exponent := s32 bits - 53 in
  if roundBit && (sticky || negb (Z.land value 1 =? 0))
  then let value := u64 (value + 1) in if value =? 2 ^ 53 then (Z.shiftr value 1, exponent + 1) else (value, exponent)
  else (value, exponent).

Definition toDouble (x : BigNum) : double :=
  if empty (mag_ x) then of_int 0
  else
    let bits := bitLength x in
    let magnitude :=
      if bits <=? 53 then of_int (match magnitudeToUint64 x with Some value => value | None => 0 end)
      else let '(value, exponent) := round_top (mag_ x) bits in dldexp (of_int value) exponent in
    if negative_ x then dneg magnitude else magnitude.

Example to_double_1 : toDouble (fromUint64 9007199254740993) = of_int 9007199254740992. Proof. vm_compute. reflexivity. Qed.
Example to_double_2 : toDouble (negate (fromUint64 (2 ^ 64 - 1))) = of_int (- 2 ^ 64). Proof. vm_compute. reflexivity. Qed.
Example to_double_3 : toDouble (mkBigNum false (replicate 31 0 ++ [1; 2 ^ 31])) = binary_normalize prec emax (mval (replicate 31 0 ++ [1; 2 ^ 31])) 0 false.
Proof. vm_compute. reflexivity. Qed.
Example compare_1 : compareWithDouble (fromUint64 9007199254740993) (of_int 9007199254740992) = 1. Proof. vm_compute. reflexivity. Qed.
Example compare_2 : compareWithDouble (fromInt64 (-3)) (strtod (bytes "-3.5")) = 1. Proof. vm_compute. reflexivity. Qed.
Example exact_1 : fromDoubleExact (of_int (- 2 ^ 70)) = Some (mkBigNum true [0; 0; 64]). Proof. vm_compute. reflexivity. Qed.
Example exact_2 : fromDoubleExact (strtod (bytes "6.5")) = None. Proof. vm_compute. reflexivity. Qed.

(** ** The rounding of an integer *)

(** The double of a mantissa of 53 digits, infinite past the range. *)
Definition finish (s : bool) (m e : Z) : double :=
  match m with Zpos p => if e <=? emax - prec then S754_finite s p e else S754_infinity s | _ => S754_nan end.

Lemma shr_location p e n : 0 < p -> 0 <= n -> 0 < p / 2 ^ n ->
  shr (shr_record_of_loc p loc_Exact) e n = (shr_record_of_loc (p / 2 ^ n) (new_location (2 ^ n) (p mod 2 ^ n)), e + n).
Proof.
  intros Hp Hn Hq. destruct n as [|n|n]; [|cbn [shr]; rewrite iter_pos_nat|lia].
  { rewrite Z.pow_0_r, Z.div_1_r, Z.mod_1_r, Z.add_0_r. done. }
  f_equal. rewrite <- (positive_nat_Z n) in *. clear Hn. induction (Pos.to_nat n) as [|k IH].
  { change (Z.of_nat 0) with 0. rewrite Z.pow_0_r, Z.div_1_r, Z.mod_1_r. done. }
  rewrite Nat.iter_succ. rewrite Nat2Z.inj_succ, Z.pow_succ_r in * by lia. pose proof (Z.pow_pos_nonneg 2 (Z.of_nat k) ltac:(lia) ltac:(lia)) as Hk.
  assert (Ed : p / (2 * 2 ^ Z.of_nat k) = p / 2 ^ Z.of_nat k / 2) by (rewrite Z.div_div by lia; f_equal; lia).
  assert (Hq' : 0 < p / 2 ^ Z.of_nat k) by (rewrite Ed in Hq; revert Hq; generalize (p / 2 ^ Z.of_nat k); intros z Hz; Z.div_mod_to_equations; lia).
  rewrite IH by done. rewrite Ed. rewrite shr_1_location; [|done|apply Z.mod_pos_bound; lia].
  rewrite (Z.mul_comm 2 (2 ^ Z.of_nat k)), Z.rem_mul_r by lia. f_equal. f_equal. lia.
Qed.

Lemma round_none s p e : digits (Zpos p) = 53 -> -1074 <= e -> binary_round_aux prec emax s (Zpos p) e loc_Exact = finish s (Zpos p) e.
Proof.
  intros Hd He. unfold binary_round_aux, shr_fexp. change Zdigits2 with digits. cbn [shr_record_of_loc]. rewrite Hd.
  assert (Hf : fexp prec emax (53 + e) - e = 0) by (unfold fexp, emin, prec, emax; lia). rewrite Hf. cbn [shr loc_of_shr_record shr_m round_nearest_even].
  rewrite Hd, Hf. cbn [shr shr_m]. done.
Qed.

Lemma round_53 s p e : digits (Zpos p) = 53 -> -1074 <= e -> binary_round prec emax s p e = finish s (Zpos p) e.
Proof.
  intros Hd He. unfold binary_round. change (Zpos (digits2_pos p)) with (digits (Zpos p)). rewrite Hd.
  assert (Hf : fexp prec emax (53 + e) = e) by (unfold fexp, emin, prec, emax; lia). rewrite Hf.
  unfold shl_align. rewrite Z.sub_diag. by apply round_none.
Qed.

(** An integer of more than 53 digits is rounded at its 53rd, ties to even. *)
Lemma round_long s p c : 0 < c -> digits (Zpos p) = 53 + c ->
  let q := Zpos p / 2 ^ c in let r := Zpos p mod 2 ^ c in
  let m := if (2 ^ c <? 2 * r) || ((2 * r =? 2 ^ c) && Z.odd q) then q + 1 else q in
  binary_round prec emax s p 0 = if m =? 2 ^ 53 then finish s (2 ^ 52) (c + 1) else finish s m c.
Proof.
  intros Hc Hd q r m. pose proof (digits_spec (Zpos p) ltac:(lia)) as [Dl Dh]. rewrite Hd in Dl, Dh.
  assert (Hq : 2 ^ 52 <= q < 2 ^ 53).
  { unfold q. split; [apply Z.div_le_lower_bound|apply Z.div_lt_upper_bound]; try (apply Z.pow_pos_nonneg; lia); rewrite <- Z.pow_add_r by lia; [replace (c + 52) with (53 + c - 1) by lia|replace (c + 53) with (53 + c) by lia]; lia. }
  unfold binary_round. change (Zpos (digits2_pos p)) with (digits (Zpos p)). rewrite Hd.
  assert (Hf : fexp prec emax (53 + c + 0) = c) by (unfold fexp, emin, prec, emax; lia). rewrite Hf.
  unfold shl_align. destruct (c - 0) as [|c'|c'] eqn:Ec; try lia. unfold binary_round_aux, shr_fexp. change Zdigits2 with digits. rewrite Hd, Hf, Z.sub_0_r.
  rewrite shr_location by (try (fold q); lia). fold q r. rewrite record_m, loc_of_record, Z.add_0_l.
  pose proof (Z.mod_pos_bound (Zpos p) (2 ^ c) ltac:(apply Z.pow_pos_nonneg; lia)) as Hr. fold r in Hr.
  assert (Em : round_nearest_even q (new_location (2 ^ c) r) = m).
  { rewrite new_location_spec by done. unfold m. destruct (Z.eqb_spec r 0) as [E0|E0].
    - rewrite E0. cbn [round_nearest_even]. replace (2 ^ c <? 2 * 0) with false by lia. replace (2 * 0 =? 2 ^ c) with false by lia. done.
    - destruct (Z.compare_spec (2 * r) (2 ^ c)) as [E|E|E]; cbn [round_nearest_even].
      + replace (2 ^ c <? 2 * r) with false by lia. replace (2 * r =? 2 ^ c) with true by lia. rewrite <- Z.negb_even. by destruct (Z.even q).
      + replace (2 ^ c <? 2 * r) with false by lia. replace (2 * r =? 2 ^ c) with false by lia. done.
      + replace (2 ^ c <? 2 * r) with true by lia. done. }
  rewrite Em. assert (Hm : m = q \/ m = q + 1) by (unfold m; destruct (_ || _); lia). clearbody m. destruct (Z.eqb_spec m (2 ^ 53)) as [E|E].
  - rewrite E. replace (digits (2 ^ 53)) with 54 by done. assert (Hf1 : fexp prec emax (54 + c) - c = 1) by (unfold fexp, emin, prec, emax; lia). rewrite Hf1. done.
  - rewrite (digits_unique m 53) by lia. assert (Hf1 : fexp prec emax (53 + c) - c = 0) by (unfold fexp, emin, prec, emax; lia). rewrite Hf1.
    destruct m as [|m|m]; try lia. done.
Qed.

(** A whole number of 53 digits is its own mantissa. *)
Lemma of_int_53 z : digits z = 53 -> 0 < z -> exists p, z = Zpos p /\ of_int z = S754_finite false p 0.
Proof. intros Hd Hz. destruct z as [|p|p]; try lia. exists p. split; [done|]. unfold of_int, binary_normalize. by rewrite round_53. Qed.

(** ** toDouble *)

Lemma bits_digits z : 0 < z -> Z.log2 z + 1 = digits z.
Proof. intros Hz. symmetry. apply digits_unique; [done|]. replace (Z.log2 z + 1 - 1) with (Z.log2 z) by lia. apply Z.log2_spec. lia. Qed.

(** The top of a long number in two limbs. *)
Lemma two_limbs l : mag_ok l -> mval l < 2 ^ 64 ->
  Z.lor (if (1 <=? length l)%nat then l.[0%nat] else 0) (if (2 <=? length l)%nat then u64 (Z.shiftl l.[1%nat] 32) else 0) = mval l.
Proof.
  intros [Hl Ht] Hv. destruct Hl as [|d0 l Hd0 Hl]; [done|]. destruct Hl as [|d1 l Hd1 Hl]; [cbn; rewrite Z.lor_0_r; lia|].
  destruct Hl as [|d2 l Hd2 Hl].
  - cbn [length Nat.leb]. change ([d0; d1].[0%nat]) with d0. change ([d0; d1].[1%nat]) with d1. destruct Hd0, Hd1.
    rewrite u64_small by (rewrite Z.shiftl_mul_pow2; lia). rewrite Z.lor_comm, lor_shiftl_add by lia. cbn [mval]. rewrite kBase_eq. lia.
  - exfalso. set (k := d0 :: d1 :: d2 :: l) in *. assert (Hk : limbs_ok k) by (unfold k; repeat constructor; try apply Hd0; try apply Hd1; try apply Hd2; exact Hl).
    destruct (last k) as [top|] eqn:E; [|by apply last_None in E]. assert (Hne : top <> 0) by (intros ->; by apply Ht).
    pose proof (mval_top_bound k top Hk E Hne) as Hb. rewrite wt_pow2 in Hb. assert (2 ^ 64 <= 2 ^ (32 * Z.of_nat (length k - 1))) by (apply Z.pow_le_mono_r; unfold k; cbn [length]; lia). lia.
Qed.

Lemma land_one v : negb (Z.land v 1 =? 0) = Z.odd v.
Proof. change (Z.land v 1) with (Z.land v (Z.ones 1)). rewrite Z.land_ones, Zmod_odd by lia. by destruct (Z.odd v). Qed.

Lemma s32_small z : 0 <= z < 2 ^ 31 -> s32 z = z.
Proof. intros Hz. unfold s32. rewrite u32_small by lia. destruct (Z.ltb_spec z (2 ^ 31)); lia. Qed.

Lemma round_top_spec l b : mag_ok l -> digits (mval l) = b -> 54 <= b < 2 ^ 31 ->
  let c := b - 53 in let q := mval l / 2 ^ c in let r := mval l mod 2 ^ c in
  let m := if (2 ^ c <? 2 * r) || ((2 * r =? 2 ^ c) && Z.odd q) then q + 1 else q in
  round_top l b = if m =? 2 ^ 53 then (2 ^ 52, c + 1) else (m, c).
Proof.
  intros Hl Hb H54 c q r m. unfold round_top. rewrite s32_small by lia. pose proof (shiftRightBits_spec l (b - 54) (proj1 Hl) ltac:(lia)) as Hs.
  destruct (shiftRightBits l (b - 54)) as [top sticky]. destruct Hs as (Ht & Et & ->).
  assert (Hv : 0 < mval l). { pose proof (mval_nonneg l (proj1 Hl)). destruct (Z.eq_dec (mval l) 0) as [E|]; [rewrite E in Hb; cbn in Hb; lia|lia]. }
  pose proof (digits_spec (mval l) Hv) as [Dl Dh]. rewrite Hb in Dl, Dh. set (P := 2 ^ (b - 54)) in *.
  assert (HP : 0 < P) by (apply Z.pow_pos_nonneg; lia). assert (Ec : 2 ^ c = 2 * P) by (unfold P, c; rewrite <- Z.pow_succ_r by lia; f_equal; lia).
  assert (Hlo : 2 ^ 53 * P <= mval l < 2 ^ 54 * P) by (unfold P; rewrite <- !Z.pow_add_r by lia; replace (53 + (b - 54)) with (b - 1) by lia; replace (54 + (b - 54)) with b by lia; lia).
  assert (Htop : 2 ^ 53 <= mval top < 2 ^ 54) by (rewrite Et; split; [apply Z.div_le_lower_bound|apply Z.div_lt_upper_bound]; lia).
  rewrite two_limbs by (done || lia). rewrite !land_one, !Z.shiftr_div_pow2 by lia. change (2 ^ 1) with 2. replace (b - 53) with c by done.
  assert (Eq : mval top / 2 = q) by (unfold q; rewrite Ec, Et, Z.div_div by lia; f_equal; lia).
  assert (Er : r = (mval top mod 2) * P + mval l mod P) by (unfold r; rewrite Ec, Et, (Z.mul_comm 2 P), Z.rem_mul_r by lia; lia).
  pose proof (Z.mod_pos_bound (mval l) P HP) as Hlow. rewrite Eq. assert (Hq : 2 ^ 52 <= q < 2 ^ 53) by (rewrite <- Eq; split; [apply Z.div_le_lower_bound|apply Z.div_lt_upper_bound]; lia).
  assert (Em : m = if Z.odd (mval top) && (negb (mval l mod P =? 0) || Z.odd q) then q + 1 else q).
  { unfold m. rewrite Ec, Er, Zmod_odd. destruct (Z.odd (mval top)); cbn [andb].
    - destruct (Z.eqb_spec (mval l mod P) 0) as [->|E]; cbn [negb orb].
      + replace (2 * P <? 2 * (1 * P + 0)) with false by lia. replace (2 * (1 * P + 0) =? 2 * P) with true by lia. done.
      + replace (2 * P <? 2 * (1 * P + mval l mod P)) with true by lia. done.
    - replace (2 * P <? 2 * (0 * P + mval l mod P)) with false by lia. replace (2 * (0 * P + mval l mod P) =? 2 * P) with false by lia. done. }
  rewrite Em. destruct (Z.odd (mval top) && (negb (mval l mod P =? 0) || Z.odd q)).
  - rewrite u64_small by lia. destruct (Z.eqb_spec (q + 1) (2 ^ 53)) as [->|]; done.
  - destruct (Z.eqb_spec q (2 ^ 53)); [lia|done].
Qed.

Lemma round_opp p e : binary_round prec emax true p e = SFopp (binary_round prec emax false p e).
Proof.
  unfold binary_round. destruct (shl_align _ _ _) as [q f]. unfold binary_round_aux. destruct (shr_fexp _ _ _ _ _) as [r g].
  destruct (shr_fexp _ _ (round_nearest_even _ _) _ _) as [r' g']. destruct (shr_m r'); [done| |done]. by destruct (_ <=? _).
Qed.

Lemma ldexp_53 v e : digits v = 53 -> 0 < v -> 0 <= e -> dldexp (of_int v) e = finish false v e.
Proof.
  intros Hd Hv He. destruct (of_int_53 v Hd Hv) as (p & -> & ->). unfold dldexp, SFldexp. rewrite Z.add_0_l. apply round_53; [done|lia].
Qed.

(** C20: the double of a BigInt of fewer than 2^31 bits is the one nearest to its value, ties to
    even: the conversion by limbs computes the rounding of the format, infinities past the
    range included.  (From 2^31 bits on, 128 times [kMaxBits], the exponent
    leaves the [int] it is counted in.) *)
Theorem toDouble_rounds a : wf a -> fits a -> bitLength a < 2 ^ 31 -> toDouble a = binary_normalize prec emax (val a) 0 false.
Proof.
  intros Ha Hf Hbits. unfold toDouble. pose proof (wf_isZero a Ha) as Ez. unfold isZero in Ez. rewrite Ez. destruct (Z.eqb_spec (val a) 0) as [E0|Hne]; [by rewrite E0|].
  rewrite (bitLength_spec a Ha Hf) in Hbits |- *. destruct (Z.eqb_spec (val a) 0); [done|]. pose proof (wf_mval a Ha) as Hm. rewrite bits_digits in Hbits |- * by lia. rewrite (wf_negative a Ha).
  assert (Hsign : forall x, x = of_int (Z.abs (val a)) -> (if val a <? 0 then dneg x else x) = binary_normalize prec emax (val a) 0 false).
  { intros x ->. unfold of_int. destruct (val a) as [|p|p]; [done|done|]. cbn [Z.abs binary_normalize]. change (Z.neg p <? 0) with true. cbn iota. by rewrite round_opp. }
  apply Hsign. clear Hsign. rewrite (magnitudeToUint64_spec a Ha). rewrite <- Hm in Hbits |- *. set (v := mval (mag_ a)) in *. assert (Hv : 0 < v) by lia.
  destruct (Z.leb_spec (digits v) 53) as [H53|H53].
  - pose proof (digits_spec v Hv) as [_ Hd]. assert (2 ^ digits v <= 2 ^ 53) by (apply Z.pow_le_mono_r; lia). destruct (Z.ltb_spec v (2 ^ 64)); [done|lia].
  - pose proof (round_top_spec (mag_ a) (digits v) (wf_mag a Ha) eq_refl ltac:(lia)) as Ht. cbn zeta in Ht. fold v in Ht. rewrite Ht. clear Ht.
    pose proof (digits_spec v Hv) as [Dl Dh]. set (c := digits v - 53) in *. assert (Hc : 0 < c) by lia.
    assert (Hq : 2 ^ 52 <= v / 2 ^ c < 2 ^ 53).
    { split; [apply Z.div_le_lower_bound|apply Z.div_lt_upper_bound]; try (apply Z.pow_pos_nonneg; lia); rewrite <- Z.pow_add_r by lia; [replace (c + 52) with (digits v - 1) by lia|replace (c + 53) with (digits v) by lia]; lia. }
    assert (Hr : of_int v = binary_round prec emax false (Z.to_pos v) 0) by (by destruct v; try lia). rewrite Hr. pose proof (round_long false (Z.to_pos v) c Hc) as Hl.
    rewrite Z2Pos.id in Hl by lia. specialize (Hl ltac:(lia)). cbn zeta in Hl. rewrite Hl. clear Hl Hr.
    set (m := if _ || _ then _ else _). assert (Hmq : m = v / 2 ^ c \/ m = v / 2 ^ c + 1) by (unfold m; destruct (_ || _); lia). clearbody m.
    destruct (Z.eqb_spec m (2 ^ 53)) as [E|E]; apply ldexp_53; try lia; [done|apply digits_unique; lia].
Qed.

(** ** Integral doubles *)

(** A double that is an integer and not zero has all its 53 digits. *)
Lemma integral_normal s m e : valid_binary prec emax (S754_finite s m e) = true -> (0 <= e \/ Zpos m mod 2 ^ (- e) = 0) -> digits (Zpos m) = 53 /\ -1074 <= e <= 971.
Proof.
  cbn. unfold bounded, canonical_mantissa. intros [H1%Zeq_bool_eq H2%Z.leb_le]%andb_prop Hi. unfold fexp, emin, prec, emax in *.
  pose proof (digits2_spec m) as [_ Hm]. unfold digits. cbn [Zdigits2]. split; [|lia].
  destruct (Z.eq_dec (Zpos (digits2_pos m)) 53); [done|]. assert (He : e = -1074) by lia. exfalso.
  destruct Hi as [|Hi]; [lia|]. rewrite He in Hi. assert (2 ^ Zpos (digits2_pos m) <= 2 ^ 53) by (apply Z.pow_le_mono_r; lia).
  assert (2 ^ 53 < 2 ^ 1074) by (apply Z.pow_lt_mono_r; lia). change (- -1074) with 1074 in Hi. rewrite Z.mod_small in Hi by lia. lia.
Qed.

Definition integral (m : positive) (e : Z) : Prop := 0 <= e \/ Zpos m mod 2 ^ (- e) = 0.

Lemma deq_refl s m e : deq (S754_finite s m e) (S754_finite s m e) = true.
Proof. unfold deq, SFeqb, SFcompare. destruct s; rewrite Z.compare_refl; change (Pos.compare_cont Eq m m) with (m ?= m)%positive; by rewrite Pos.compare_refl. Qed.

Lemma deq_same s m e n f : deq (S754_finite s m e) (S754_finite s n f) = true -> e = f /\ m = n.
Proof.
  unfold deq, SFeqb, SFcompare. change (Pos.compare_cont Eq m n) with (m ?= n)%positive.
  destruct s; destruct (Z.compare_spec e f) as [E|E|E]; try done; destruct (Pos.compare_spec m n); done.
Qed.

Lemma two_scales w a b p q : 0 <= a -> 0 <= b -> p = w * 2 ^ a -> q = w * 2 ^ b -> 2 ^ 52 <= p < 2 ^ 53 -> 2 ^ 52 <= q < 2 ^ 53 -> a = b.
Proof.
  intros Ha Hb -> -> Hp Hq. destruct (Z.lt_trichotomy a b) as [H|[H|H]]; [exfalso|done|exfalso].
  - replace b with (a + (b - a)) in Hq by lia. rewrite Z.pow_add_r in Hq by lia. assert (2 ^ 1 <= 2 ^ (b - a)) by (apply Z.pow_le_mono_r; lia). nia.
  - replace a with (b + (a - b)) in Hp by lia. rewrite Z.pow_add_r in Hp by lia. assert (2 ^ 1 <= 2 ^ (a - b)) by (apply Z.pow_le_mono_r; lia). nia.
Qed.

(** A double equals its truncation exactly when it is an integer. *)
Lemma trunc_integral s m e : valid_binary prec emax (S754_finite s m e) = true ->
  (integral m e /\ dtrunc (S754_finite s m e) = S754_finite s m e) \/ (~ integral m e /\ deq (S754_finite s m e) (dtrunc (S754_finite s m e)) = false).
Proof.
  intros Hx. cbn [dtrunc]. destruct (Z.leb_spec 0 e) as [He|He]; [left; split; [by left|done]|]. destruct (valid_bounds s m e Hx) as [Hm _].
  pose proof (Z.pow_pos_nonneg 2 (- e) ltac:(lia) ltac:(lia)) as Hp. set (z := Z.quot (if s then - Zpos m else Zpos m) (2 ^ (- e))).
  assert (Ez : z = if s then - (Zpos m / 2 ^ (- e)) else Zpos m / 2 ^ (- e)) by (unfold z; destruct s; rewrite ?Z.quot_opp_l, Z.quot_div_nonneg by lia; done).
  assert (Hz : Z.abs z < 2 ^ 53) by (rewrite Ez; assert (0 <= Zpos m / 2 ^ (- e) < 2 ^ 53) by (split; [apply Z.div_pos; lia|]; apply Z.div_lt_upper_bound; nia); destruct s; lia).
  pose proof (Z.div_mod (Zpos m) (2 ^ (- e)) ltac:(lia)) as Hdm. pose proof (Z.mod_pos_bound (Zpos m) (2 ^ (- e)) Hp) as Hr.
  destruct (isint_inv (of_int_signed s z) z (signed_isint s z Hz)) as [(E0 & s' & ->)|(s' & q & k & -> & Es & Hk & Hq)].
  { right. split; [|by destruct s]. intros [|Hi]; [lia|]. rewrite Ez in E0. assert (Zpos m / 2 ^ (- e) = 0) as E by (destruct s; lia). rewrite E in Hdm. lia. }
  assert (Es' : s' = s /\ Zpos q = Zpos m / 2 ^ (- e) * 2 ^ k).
  { pose proof (Z.pow_pos_nonneg 2 k ltac:(lia) ltac:(lia)). assert (0 <= Zpos m / 2 ^ (- e)) by (apply Z.div_pos; lia). rewrite Ez in Es. destruct s, s'; cbn [signed] in Es; split; try done; nia. }
  destruct Es' as [-> Eq]. destruct (Z.eq_dec (Zpos m mod 2 ^ (- e)) 0) as [E0|E0].
  - left. split; [by right|]. destruct (integral_normal s m e Hx (or_intror E0)) as [Hd _]. pose proof (digits_spec (Zpos m) ltac:(lia)) as Hdm'. rewrite Hd in Hdm'.
    rewrite E0, Z.add_0_r, Z.mul_comm in Hdm. assert (Ek : - e = k) by (apply (two_scales (Zpos m / 2 ^ (- e)) (- e) k (Zpos m) (Zpos q)); lia || done). subst k.
    rewrite Z.opp_involutive. f_equal. lia.
  - right. split; [intros [|]; [lia|done]|]. destruct (deq _ _) eqn:Ed; [exfalso|done]. apply deq_same in Ed as [-> ->]. rewrite Z.opp_involutive in *. nia.
Qed.

Lemma dfrexp_normal s m e : digits (Zpos m) = 53 -> dfrexp (S754_finite s m e) = (S754_finite s m (-53), e + 53).
Proof. intros Hd. unfold dfrexp, SFfrexp. change (Zpos (digits2_pos m)) with (digits (Zpos m)). by rewrite Hd. Qed.

Lemma uint_mag v : 0 <= v < 2 ^ 64 -> mag_ok (mag_ (fromUint64 v)) /\ mval (mag_ (fromUint64 v)) = v.
Proof. intros Hv. destruct (fromUint64_spec v Hv) as [Hw E]. split; [by apply wf_mag|]. rewrite (wf_mval _ Hw), E. lia. Qed.

Lemma exact_integral s m e : valid_binary prec emax (S754_finite s m e) = true -> integral m e ->
  exists b, fromDoubleExact (S754_finite s m e) = Some b /\ wf b /\ val b = if s then - whole_part (Zpos m) e else whole_part (Zpos m) e.
Proof.
  intros Hx Hi. destruct (trunc_integral s m e Hx) as [[_ Et]|[Hn _]]; [|done]. destruct (integral_normal s m e Hx Hi) as [Hd He]. destruct (valid_bounds s m e Hx) as [Hm _].
  unfold fromDoubleExact. cbn [isfinite negb]. rewrite Et, deq_refl. cbn [negb dabs SFabs dsignbit].
  assert (Ez : forall s', deq (S754_finite s' m e) (of_int 0) = false) by (intros s'; by destruct s'). unfold dabs, SFabs. rewrite !Ez. cbn [negb]. rewrite andb_true_r.
  rewrite dfrexp_normal by done. unfold dldexp, SFldexp. change (-53 + 53) with 0. rewrite round_53 by (done || lia). change (finish false (Zpos m) 0) with (S754_finite false m 0).
  cbn [to_int]. change (0 <=? 0) with true. cbn iota. rewrite Z.pow_0_r, Z.mul_1_r, u64_small by lia. replace (e + 53 - 53) with e by lia.
  destruct (uint_mag (Zpos m) ltac:(lia)) as [Hu Eu].
  assert (Hout : limbs_ok (if 0 <? e then shiftLeftBits (mag_ (fromUint64 (Zpos m))) e else if e <? 0 then fst (shiftRightBits (mag_ (fromUint64 (Zpos m))) (- e)) else mag_ (fromUint64 (Zpos m)))
    /\ mval (if 0 <? e then shiftLeftBits (mag_ (fromUint64 (Zpos m))) e else if e <? 0 then fst (shiftRightBits (mag_ (fromUint64 (Zpos m))) (- e)) else mag_ (fromUint64 (Zpos m))) = whole_part (Zpos m) e).
  { unfold whole_part. destruct (Z.ltb_spec 0 e) as [H0|H0]; [|destruct (Z.ltb_spec e 0) as [H1|H1]].
    - destruct (Z.leb_spec 0 e); [|lia]. destruct (shiftLeftBits_spec (mag_ (fromUint64 (Zpos m))) e (proj1 Hu) ltac:(lia)) as [Ho ->]. rewrite Eu. split; [apply Ho|done].
    - destruct (Z.leb_spec 0 e); [lia|]. pose proof (shiftRightBits_spec (mag_ (fromUint64 (Zpos m))) (- e) (proj1 Hu) ltac:(lia)) as Hs. destruct (shiftRightBits _ _). destruct Hs as (Ho & Es & _). cbn [fst]. rewrite Es, Eu. split; [apply Ho|done].
    - destruct (Z.leb_spec 0 e); [|lia]. replace e with 0 by lia. rewrite Z.pow_0_r, Z.mul_1_r. split; [apply Hu|done]. }
  destruct Hout as [Ho Ev]. eexists. split; [reflexivity|]. destruct (trim_spec s _ Ho) as [Hw Hval]. split; [done|]. rewrite Hval, Ev. done.
Qed.

(** The conversion of a double: refused exactly where the double is no integer, and otherwise
    the integer it is. *)
Lemma fromDoubleExact_spec s m e : valid_binary prec emax (S754_finite s m e) = true ->
  match fromDoubleExact (S754_finite s m e) with
  | Some b => integral m e /\ wf b /\ val b = if s then - whole_part (Zpos m) e else whole_part (Zpos m) e
  | None => ~ integral m e
  end.
Proof.
  intros Hx. destruct (trunc_integral s m e Hx) as [[Hi _]|[Hn E]].
  - destruct (exact_integral s m e Hx Hi) as (b & -> & H). done.
  - unfold fromDoubleExact. cbn [isfinite negb]. by rewrite E.
Qed.

Lemma integral_dec m e : integral m e \/ ~ integral m e.
Proof. unfold integral. lia. Qed.

Lemma normal_valid s p k : 2 ^ 52 <= Zpos p < 2 ^ 53 -> 0 <= k <= 52 -> valid_binary prec emax (S754_finite s p (- k)) = true.
Proof.
  intros Hp Hk. cbn. unfold bounded, canonical_mantissa. assert (Hd : Zpos (digits2_pos p) = 53) by (apply (digits_unique (Zpos p) 53); lia). rewrite Hd.
  unfold fexp, emin, prec, emax. apply andb_true_intro. split; [apply Zeq_is_eq_bool|apply Z.leb_le]; lia.
Qed.

(** The BigInt of an integer held in a double. *)
Lemma exact_isint x z : isint x z -> exists b, fromDoubleExact x = Some b /\ wf b /\ val b = z.
Proof.
  intros Hx. destruct (isint_inv x z Hx) as [(-> & s & ->)|(s & p & k & -> & Es & Hk & Hp)].
  - exists zero. split; [by destruct s|]. split; [apply wf_zero|done].
  - assert (Hi : integral p (- k)).
    { right. rewrite Z.opp_involutive. destruct s; cbn [signed] in Es; [replace (Zpos p) with (- z * 2 ^ k) by lia|rewrite Es]; apply Z_mod_mult. }
    destruct (exact_integral s p (- k) (normal_valid s p k Hp Hk) Hi) as (b & E & Hw & Ev). exists b. split; [done|]. split; [done|]. rewrite Ev. unfold whole_part. rewrite Z.opp_involutive.
    pose proof (Z.pow_pos_nonneg 2 k ltac:(lia) ltac:(lia)) as Hpk. destruct (Z.leb_spec 0 (- k)).
    + replace k with 0 in * by lia. rewrite Z.pow_0_r, Z.mul_1_r in *. destruct s; cbn [signed] in Es; lia.
    + destruct s; cbn [signed] in Es; [replace (Zpos p) with (- z * 2 ^ k) by lia|rewrite Es]; rewrite Z.div_mul; lia.
Qed.

(** The fraction of [std::modf] is zero exactly for an integer. *)
Lemma fraction_zero m e : valid_binary prec emax (S754_finite false m e) = true -> deq (fst (dmodf (S754_finite false m e))) (of_int 0) = (if 0 <=? e then true else Zpos m mod 2 ^ (- e) =? 0).
Proof.
  intros Hx. destruct (valid_bounds _ _ _ Hx) as [Hm He]. cbn [dmodf fst]. destruct (Z.leb_spec 0 e) as [H0|H0]; [done|].
  pose proof (Z.pow_pos_nonneg 2 (- e) ltac:(lia) ltac:(lia)) as Hp. pose proof (Z.mod_pos_bound (Zpos m) (2 ^ (- e)) Hp) as Hr. pose proof (Z.mod_le (Zpos m) (2 ^ (- e)) ltac:(lia) Hp) as Hle.
  destruct (Zpos m mod 2 ^ (- e)) as [|r|r]; [done| |lia]. change (Zpos r =? 0) with false. cbn [binary_normalize].
  unfold binary_round. change (Zpos (digits2_pos r)) with (digits (Zpos r)). set (d := digits (Zpos r)).
  assert (Hd : 0 < d <= 53) by (split; [by apply digits_pos|apply digits_le; lia]). set (f := fexp prec emax (d + e)).
  assert (Hf : f <= e /\ f <= 971 /\ fexp prec emax (d + (e - f) + f) = f) by (unfold f, fexp, emin, prec, emax; lia). destruct Hf as (Hfe & Hf971 & Hff).
  destruct (shl_align_spec r e f) as (q & -> & Eq). rewrite Z.min_r in * by lia.
  assert (Hdq : digits (Zpos q) = d + (e - f)) by (rewrite Eq; apply digits_shift; lia).
  unfold binary_round_aux, shr_fexp. change Zdigits2 with digits. cbn [shr_record_of_loc]. rewrite Hdq, Hff, Z.sub_diag. cbn [shr loc_of_shr_record shr_m round_nearest_even].
  rewrite Hdq, Hff, Z.sub_diag. cbn [shr shr_m]. by destruct (f <=? emax - prec).
Qed.

(** What orders a BigInt and a number: the integer and the quotient [m * 2 ^ e] of two. *)
Definition order (c : comparison) : Z := match c with Lt => -1 | Eq => 0 | Gt => 1 end.

Lemma order_whole x m e : 0 <= x -> 0 < m ->
  order (x * 2 ^ Z.max (- e) 0 ?= m * 2 ^ Z.max e 0) =
  (let o := if x <? whole_part m e then -1 else if whole_part m e <? x then 1 else 0 in
   if (o =? 0) && negb (if 0 <=? e then true else m mod 2 ^ (- e) =? 0) then -1 else o).
Proof.
  intros Hx Hm. unfold whole_part. cbn zeta. destruct (Z.leb_spec 0 e) as [He|He].
  - rewrite (Z.max_r (- e)), (Z.max_l e), Z.pow_0_r, Z.mul_1_r by lia. rewrite andb_false_r.
    destruct (Z.compare_spec x (m * 2 ^ e)), (Z.ltb_spec x (m * 2 ^ e)), (Z.ltb_spec (m * 2 ^ e) x); cbn [order]; lia.
  - rewrite (Z.max_l (- e)), (Z.max_r e), Z.pow_0_r, Z.mul_1_r by lia. pose proof (Z.pow_pos_nonneg 2 (- e) ltac:(lia) ltac:(lia)) as Hp.
    pose proof (Z.div_mod m (2 ^ (- e)) ltac:(lia)) as Hdm. pose proof (Z.mod_pos_bound m (2 ^ (- e)) Hp) as Hr. set (w := m / 2 ^ (- e)) in *. set (r := m mod 2 ^ (- e)) in *. set (B := 2 ^ (- e)) in *.
    destruct (Z.ltb_spec x w) as [H1|H1]; [|destruct (Z.ltb_spec w x) as [H2|H2]]; cbn [Z.eqb andb].
    + assert (x * B < m) by nia. by rewrite (proj2 (Z.compare_lt_iff _ _)).
    + assert (m < x * B) by nia. by rewrite (proj2 (Z.compare_gt_iff _ _)).
    + assert (x = w) as -> by lia. destruct (Z.eqb_spec r 0) as [E|E]; cbn [negb].
      * assert (w * B = m) as -> by lia. by rewrite Z.compare_refl.
      * assert (w * B < m) by lia. by rewrite (proj2 (Z.compare_lt_iff _ _)).
Qed.

Lemma compare_finite a s m e : wf a -> valid_binary prec emax (S754_finite s m e) = true ->
  compareWithDouble a (S754_finite s m e) = order (val a * 2 ^ Z.max (- e) 0 ?= signed s m * 2 ^ Z.max e 0).
Proof.
  intros Ha Hx. assert (Hx' : valid_binary prec emax (S754_finite false m e) = true) by exact Hx.
  assert (HB : 0 < 2 ^ Z.max (- e) 0) by (apply Z.pow_pos_nonneg; lia). assert (HA : 0 < 2 ^ Z.max e 0) by (apply Z.pow_pos_nonneg; lia).
  unfold compareWithDouble. cbn [isnan isfinite negb]. assert (Ed : (if dlt (of_int 0) (S754_finite s m e) then 1 else if dlt (S754_finite s m e) (of_int 0) then -1 else 0) = if s then -1 else 1) by (by destruct s).
  rewrite Ed. clear Ed. assert (Es : sign a = Z.sgn (val a)).
  { unfold sign. pose proof (wf_isZero a Ha) as Ez. unfold isZero in Ez. rewrite Ez, (wf_negative a Ha). destruct (Z.eqb_spec (val a) 0), (Z.ltb_spec (val a) 0); lia. }
  rewrite Es. destruct (Z.eqb_spec (Z.sgn (val a)) (if s then -1 else 1)) as [Esg|Esg]; cbn [negb].
  2: { destruct s; cbn [signed].
       - assert (0 <= val a) by lia. replace (Z.sgn (val a) <? -1) with false by lia. rewrite (proj2 (Z.compare_gt_iff _ _)); [done|nia].
       - assert (val a <= 0) by lia. replace (Z.sgn (val a) <? 1) with true by lia. rewrite (proj2 (Z.compare_lt_iff _ _)); [done|nia]. }
  replace (Z.sgn (val a) =? 0) with false by (destruct s; lia).
  pose proof (fraction_zero m e Hx') as Hfz. cbn [dabs SFabs]. destruct (dmodf (S754_finite false m e)) as [fraction integralPart] eqn:Em. cbn [fst] in Hfz. rewrite Hfz.
  assert (Ei : integralPart = dtrunc (S754_finite false m e)) by (unfold dmodf in Em; by injection Em).
  assert (Ht : exists b, fromDoubleExact integralPart = Some b /\ wf b /\ val b = whole_part (Zpos m) e).
  { rewrite Ei. cbn [dtrunc]. destruct (Z.leb_spec 0 e) as [He|He].
    - by apply (exact_integral false m e Hx'); left.
    - destruct (valid_bounds _ _ _ Hx) as [Hm _]. pose proof (Z.pow_pos_nonneg 2 (- e) ltac:(lia) ltac:(lia)). rewrite Z.quot_div_nonneg by lia.
      unfold whole_part. destruct (Z.leb_spec 0 e); [lia|]. apply exact_isint, signed_isint.
      assert (0 <= Zpos m / 2 ^ (- e) < 2 ^ 53); [|lia]. split; [apply Z.div_pos; lia|]. apply Z.div_lt_upper_bound; nia. }
  destruct Ht as (b & -> & Hb & Eb). rewrite compareMagnitude_spec by (by apply wf_mag). rewrite (wf_mval a Ha), (wf_mval b Hb), Eb.
  assert (Hw : 0 <= whole_part (Zpos m) e) by (unfold whole_part; destruct (Z.leb_spec 0 e); [apply Z.mul_nonneg_nonneg; lia|apply Z.div_pos; [lia|apply Z.pow_pos_nonneg; lia]]).
  rewrite (Z.abs_eq (whole_part _ _)) by done. pose proof (order_whole (Z.abs (val a)) (Zpos m) e ltac:(lia) ltac:(lia)) as Ho. cbn zeta in Ho. rewrite <- Ho. clear Ho.
  destruct s; cbn [signed].
  - replace (Z.sgn (val a) <? 0) with true by lia. replace (val a) with (- Z.abs (val a)) at 2 by lia. rewrite !Z.mul_opp_l, Z.compare_opp. by destruct (Z.abs (val a) * _ ?= _) eqn:E; rewrite Z.compare_antisym, E.
  - replace (Z.sgn (val a) <? 0) with false by lia. by rewrite Z.abs_eq by lia.
Qed.

(** A finite double as a quotient. *)
Definition num (x : double) : Z := match x with S754_finite s m e => signed s m * 2 ^ Z.max e 0 | _ => 0 end.
Definition den (x : double) : Z := match x with S754_finite _ _ e => 2 ^ Z.max (- e) 0 | _ => 1 end.

Lemma compare_quotient a x : wf a -> isfinite x = true -> valid_binary prec emax x = true -> compareWithDouble a x = order (val a * den x ?= num x).
Proof.
  intros Ha Hf Hx. destruct x as [s|s| |s m e]; try done; [|by apply compare_finite]. cbn [num den]. rewrite Z.mul_1_r.
  assert (E : compareWithDouble a (S754_zero s) = if sign a =? 0 then 0 else if sign a <? 0 then -1 else 1) by (unfold compareWithDouble; destruct s; cbn; by destruct (sign a =? 0)).
  rewrite E. clear E. unfold sign. pose proof (wf_isZero a Ha) as Ez. unfold isZero in Ez. rewrite Ez, (wf_negative a Ha).
  destruct (Z.compare_spec (val a) 0), (Z.eqb_spec (val a) 0), (Z.ltb_spec (val a) 0); lia || done.
Qed.

(** A BigInt and a number are compared as the mathematical values they are, with no
    rounding on either side: the integer against the quotient that the double is; the
    infinities are beyond every integer and a NaN is unordered. *)
Theorem compare_exact a x : wf a -> valid_binary prec emax x = true ->
  compareWithDouble a x = match x with S754_nan => kUnordered | S754_infinity s => if s then 1 else -1 | _ => order (val a * den x ?= num x) end.
Proof. intros Ha Hx. destruct x as [s|s| |s m e]; [by apply compare_quotient|by destruct s|done|by apply compare_quotient]. Qed.

(** ** Witnesses *)

Lemma toDouble_rounds_witness : toDouble (fromUint64 9007199254740993) = binary_normalize prec emax (val (fromUint64 9007199254740993)) 0 false.
Proof. apply (toDouble_rounds (fromUint64 9007199254740993)); [apply fromUint64_spec; lia|vm_compute; reflexivity|vm_compute; reflexivity]. Defined.

Lemma compare_exact_witness : compareWithDouble (fromUint64 9007199254740993) (S754_finite false 4503599627370496 1) = 1.
Proof. rewrite (compare_exact (fromUint64 9007199254740993) (S754_finite false 4503599627370496 1)); [reflexivity|apply fromUint64_spec; lia|vm_compute; reflexivity]. Defined.
