(* ===== verification/Convert.v ===== *)
(** * Conversions of values (src/src/runtime/rt_convert.cpp, bigint.cpp, builtin_bigint.cpp)

    The conversions of ECMA-262 clause 7.1 and the operators of BigInts.  A conversion of an
    object runs user code: reading a property and calling a function are arguments, of any
    effect on a state [W] they share, and a throw ends what it is thrown in.  A value is what
    a program can tell of it: strings and BigInts, which compare by contents, have no identity
    here, objects and symbols nothing else.  Text is a list of code units. *)
From S2P Require Import Prelude BigNumMag BigNumOps BigNumText Float64 DoubleArith BigNumDouble ExactDecimal NumberText.
Local Open Scope Z_scope.
Local Open Scope bool_scope.

Inductive Value :=
| VNumber (d : double)
| VInt32 (z : Z)
| VBool (b : bool)
| VNull
| VUndefined
| VHole
| VString (units : list Z)
| VBigInt (big : BigNum)
| VSymbol (id : nat)
| VObject (id : nat).

#[global] Instance value_eq_dec : EqDecision Value.
Proof. unfold EqDecision, Decision. repeat decide equality. Defined.

Definition isObject (v : Value) : bool := match v with VObject _ => true | _ => false end.
Definition isString (v : Value) : bool := match v with VString _ => true | _ => false end.
Definition isBigInt (v : Value) : bool := match v with VBigInt _ => true | _ => false end.
Definition isSymbol (v : Value) : bool := match v with VSymbol _ => true | _ => false end.
Definition isNumeric (v : Value) : bool := match v with VNumber _ | VInt32 _ => true | _ => false end.

(** ** StringToNumber *)

Definition isEcmaWhitespace (u : Z) : bool :=
  existsb (Z.eqb u) [0x0009; 0x000A; 0x000B; 0x000C; 0x000D; 0x0020; 0x00A0; 0x1680; 0x2028; 0x2029; 0x202F; 0x205F; 0x3000; 0xFEFF]
  || ((0x2000 <=? u) && (u <=? 0x200A)).

Fixpoint skip_space (s : list Z) : list Z :=
  match s with c :: rest => if isEcmaWhitespace c then skip_space rest else s | [] => [] end.

(** Both ends without their white space. *)
Definition strip (s : list Z) : list Z := rev (skip_space (rev (skip_space s))).

(** [std::from_chars] of a [uint64_t] that must take the whole text. *)
Definition from_chars (base : Z) (text : list Z) : option Z :=
  if empty text || negb (forallb (fun c => (0 <=? digitValue c) && (digitValue c <? base)) text) then None
  else let v := number base text in if v <? 2 ^ 64 then Some v else None.

(** [strtod] on a text that starts with a digit, or with a point and a digit: its value and
    what it leaves. *)
Definition strtod_l (text : list Z) : double * list Z :=
  let '(int, text) := span_decimal text in
  let '(frac, text) := match text with 46 :: rest => span_decimal rest | _ => ([], text) end in
  let '(exp10, text) :=
    match text with
    | c :: rest =>
        if (c =? 101) || (c =? 69) then
          let '(negative, digits) := match rest with 45 :: rest => (true, rest) | 43 :: rest => (false, rest) | _ => (false, rest) end in
          let '(es, tail) := span_decimal digits in
          if empty es then (0, text) else (if negative then - decimal_value es else decimal_value es, tail)
        else (0, text)
    | [] => (0, text)
    end in
  (round_decimal false (decimal_value (int ++ frac)) (exp10 - Z.of_nat (length frac)), text).

(** The base of a prefix letter, 0 for none. *)
Definition prefix_base (c : Z) : Z :=
  if (c =? 120) || (c =? 88) then 16 else if (c =? 111) || (c =? 79) then 8 else if (c =? 98) || (c =? 66) then 2 else 0.

(** A decimal literal or [Infinity], with its sign. *)
Definition signed_number (body : list Z) : double :=
  let '(sign, digits) :=
    match body with 45 :: rest => (of_int (-1), rest) | 43 :: rest => (of_int 1, rest) | _ => (of_int 1, body) end in
  if bool_decide (digits = bytes "Infinity") then dmul sign (S754_infinity false)
  else if empty digits then dnan
  else
    let first := digits.[0%nat] in
    if if first =? 46 then (length digits <? 2)%nat || negb (is_decimal digits.[1%nat]) else negb (is_decimal first) then dnan
    else if existsb (fun c => (c =? 112) || (c =? 80) || (c =? 120) || (c =? 88)) digits then dnan
    else
      let '(magnitude, rest) := strtod_l digits in
      if negb (empty rest) then dnan else dmul sign magnitude.

Definition stringToNumber (s : list Z) : double :=
  let body := strip s in
  if empty body then of_int 0
  else if existsb (fun c => 0x7F <? c) body then dnan
  else
    let base := if (2 <? length body)%nat && (body.[0%nat] =? 48) then prefix_base body.[1%nat] else 0 in
    if negb (base =? 0) then match from_chars base (drop 2 body) with Some magnitude => of_int magnitude | None => dnan end
    else signed_number body.

(** ** Keys and encodings *)

(** The index of a canonical array index, read from its bytes. *)
Definition rtIsIntegerLikeKey (key : list Z) : option Z :=
  if empty key || (10 <? length key)%nat then None
  else if (1 <? length key)%nat && (key.[0%nat] =? 48) then None
  else if negb (forallb is_decimal key) then None
  else
    let v := fold_left (fun v c => u64 (u64 (v * 10) + (c - 48))) key 0 in
    if 4294967294 <? v then None else Some v.

Definition appendCodePoint (cp : Z) : list Z :=
  if cp <=? 0x7F then [cp]
  else if cp <=? 0x7FF then [Z.lor 0xC0 (Z.shiftr cp 6); Z.lor 0x80 (Z.land cp 0x3F)]
  else if cp <=? 0xFFFF then [Z.lor 0xE0 (Z.shiftr cp 12); Z.lor 0x80 (Z.land (Z.shiftr cp 6) 0x3F); Z.lor 0x80 (Z.land cp 0x3F)]
  else [Z.lor 0xF0 (Z.shiftr cp 18); Z.lor 0x80 (Z.land (Z.shiftr cp 12) 0x3F); Z.lor 0x80 (Z.land (Z.shiftr cp 6) 0x3F); Z.lor 0x80 (Z.land cp 0x3F)].

Fixpoint rtUtf8Chars (s : list Z) : list Z :=
  match s with
  | [] => []
  | cp :: rest =>
      match rest with
      | low :: rest' =>
          if ((0xD800 <=? cp) && (cp <=? 0xDBFF)) && ((0xDC00 <=? low) && (low <=? 0xDFFF))
          then appendCodePoint (0x10000 + Z.shiftl (cp - 0xD800) 10 + (low - 0xDC00)) ++ rtUtf8Chars rest'
          else appendCodePoint cp ++ rtUtf8Chars rest
      | [] => appendCodePoint cp
      end
  end.

Definition rtAsciiChars (s : list Z) : list Z := map (fun c => if c <? 0x80 then c else 0xFF) s.

(** ** StringToBigInt *)

Definition kSpace : list Z := [32; 9; 10; 13; 12; 11].

Fixpoint skip_ascii_space (s : list Z) : list Z :=
  match s with c :: rest => if existsb (Z.eqb c) kSpace then skip_ascii_space rest else s | [] => [] end.

Definition rtStringToBigInt (text : list Z) : option BigNum :=
  let body := rev (skip_ascii_space (rev (skip_ascii_space text))) in
  if empty body then Some zero
  else
    let radix := if (2 <=? length body)%nat && (body.[0%nat] =? 48) then prefix_base body.[1%nat] else 0 in
    if negb (radix =? 0) then parse (drop 2 body) radix false else parse body 10 true.

Example number_1 : stringToNumber (bytes "  -12.5e1 ") = of_int (-125). Proof. vm_compute. reflexivity. Qed.
Example number_2 : stringToNumber (bytes "0x1F") = of_int 31. Proof. vm_compute. reflexivity. Qed.
Example number_3 : stringToNumber (bytes "1e") = dnan. Proof. vm_compute. reflexivity. Qed.
Example number_4 : stringToNumber (bytes "1.") = of_int 1. Proof. vm_compute. reflexivity. Qed.
Example number_5 : stringToNumber (bytes "-.5") = S754_finite true 4503599627370496 (-53). Proof. vm_compute. reflexivity. Qed.
Example number_6 : stringToNumber (bytes "-Infinity") = S754_infinity true. Proof. vm_compute. reflexivity. Qed.
Example number_7 : stringToNumber (bytes "-0x1") = dnan. Proof. vm_compute. reflexivity. Qed.
Example number_8 : stringToNumber (bytes "-0") = S754_zero true. Proof. vm_compute. reflexivity. Qed.
(** A literal of [2^64] or more is refused, where the language rounds it. *)
Example number_hex_limit : stringToNumber (bytes "0xFFFFFFFFFFFFFFFF") = of_int (2 ^ 64 - 1) /\ stringToNumber (bytes "0x10000000000000000") = dnan.
Proof. vm_compute. done. Qed.
(** The two conversions of a string trim different spaces. *)
Example spaces_differ : stringToNumber [0xA0; 49] = of_int 1 /\ rtStringToBigInt (rtAsciiChars [0xA0; 49]) = None.
Proof. vm_compute. done. Qed.

(** ** Effects *)

Inductive Thrown :=
| TypeError (message : list Z)
| RangeError (message : list Z)
| SyntaxError (message : list Z)
| UserThrow (v : Value).

Inductive Outcome (A : Type) :=
| Ok (a : A)
| Throw (t : Thrown)
| Fatal.
Arguments Ok {A} a.
Arguments Throw {A} t.
Arguments Fatal {A}.

Definition Eff (W A : Type) : Type := W -> W * Outcome A.
Definition ret {W A} (a : A) : Eff W A := fun w => (w, Ok a).
Definition throw {W A} (t : Thrown) : Eff W A := fun w => (w, Throw t).
Definition fatal {W A} : Eff W A := fun w => (w, Fatal).
Definition bind {W A B} (m : Eff W A) (k : A -> Eff W B) : Eff W B := fun w =>
  let '(w, r) := m w in
  match r with Ok a => k a w | Throw t => (w, Throw t) | Fatal => (w, Fatal) end.

Declare Scope eff_scope.
Delimit Scope eff_scope with eff.
Notation "'do' x <- m ; k" := (bind m (fun x => k)) (at level 200, x name, m at level 100, k at level 200) : eff_scope.
Local Open Scope eff_scope.

(** What the conversions ask of the rest of the runtime: [bronze_elem_get], [bronze_dynamic_call]
    on a function, its receiver and its arguments, [HeapKind::Function], the symbol
    [Symbol.toPrimitive]; and of the objects that have a text without user code,
    [rtRegExpText] and [rtWrapperPrimitive]. *)
Class Runtime (W : Type) := {
  elem_get : Value -> Value -> Eff W Value;
  dynamic_call : Value -> Value -> list Value -> Eff W Value;
  is_function : Value -> bool;
  symbolToPrimitive : nat;
  regexp_text : Value -> option (list Z);
  wrapper_primitive : Value -> option Value
}.

Inductive ToPrimitiveHint := HintDefault | HintNumber | HintString.

Section Conversions.

Context {W : Type} `{Runtime W} (to_chars : double -> list Z).

(** *** ToPrimitive *)

Definition cannot_convert : list Z := bytes "Cannot convert object to primitive value".

(** The methods still to be tried. *)
Fixpoint try_methods (input : Value) (names : list (list Z)) : Eff W Value :=
  match names with
  | [] => throw (TypeError cannot_convert)
  | name :: names =>
      do method <- elem_get input (VString name);
      if negb (is_function method) then try_methods input names
      else
        do result <- dynamic_call method input [];
        if negb (isObject result) then ret result else try_methods input names
  end.

Definition rtOrdinaryToPrimitive (input : Value) (hint : ToPrimitiveHint) : Eff W Value :=
  try_methods input
    (match hint with HintString => [bytes "toString"; bytes "valueOf"] | _ => [bytes "valueOf"; bytes "toString"] end).

Definition hint_text (hint : ToPrimitiveHint) : list Z :=
  match hint with HintString => bytes "string" | HintNumber => bytes "number" | HintDefault => bytes "default" end.

Definition rtToPrimitive (input : Value) (hint : ToPrimitiveHint) : Eff W Value :=
  if negb (isObject input) then ret input
  else
    do exoticToPrim <- elem_get input (VSymbol symbolToPrimitive);
    match exoticToPrim with
    | VUndefined | VNull => rtOrdinaryToPrimitive input hint
    | _ =>
        if negb (is_function exoticToPrim) then throw (TypeError (bytes "Symbol.toPrimitive is not a function"))
        else
          do result <- dynamic_call exoticToPrim input [VString (hint_text hint)];
          if isObject result then throw (TypeError cannot_convert) else ret result
    end.

(** *** ToString *)

(** The text of a primitive; [None] for what is not one. *)
Definition primitive_text (v : Value) : option (list Z + list Z) :=
  match v with
  | VString units => Some (inl units)
  | VSymbol _ => Some (inr (bytes "Cannot convert a Symbol value to a string"))
  | VBigInt b => Some (inl (toString b 10))
  | VNumber d => Some (inl (formatJsNumber to_chars d))
  | VInt32 z => Some (inl (formatJsNumber to_chars (of_int z)))
  | VBool b => Some (inl (if b then bytes "true" else bytes "false"))
  | VNull => Some (inl (bytes "null"))
  | VUndefined => Some (inl (bytes "undefined"))
  | VHole | VObject _ => None
  end.

Definition text_or_throw (r : option (list Z + list Z)) : Eff W (list Z) :=
  match r with Some (inl t) => ret t | Some (inr message) => throw (TypeError message) | None => fatal end.

Definition valueToString (v : Value) : Eff W (list Z) :=
  match primitive_text v with
  | Some r => text_or_throw (Some r)
  | None =>
      match regexp_text v with
      | Some t => ret t
      | None => match wrapper_primitive v with Some prim => text_or_throw (primitive_text prim) | None => fatal end
      end
  end.

Definition rtToStringValue (v : Value) : Eff W (list Z) :=
  do prim <- rtToPrimitive v HintString; valueToString prim.

Definition rtValueToString (v : Value) : Eff W (list Z) :=
  if negb (isObject v) then valueToString v else rtToStringValue v.

Definition rtToPropertyKey (key : Value) : Eff W Value :=
  if negb (isObject key) then ret key
  else
    do prim <- rtToPrimitive key HintString;
    if isSymbol prim then ret prim else do text <- valueToString prim; ret (VString text).

Definition bronze_to_string (v : Value) : Eff W Value := do text <- rtToStringValue v; ret (VString text).

(** *** ToNumber *)

(** The number of a primitive, [None] for an object. *)
Definition primitive_number (v : Value) : option (Eff W double) :=
  match v with
  | VNumber d => Some (ret d)
  | VInt32 z => Some (ret (of_int z))
  | VBool b => Some (ret (of_int (if b then 1 else 0)))
  | VNull => Some (ret (of_int 0))
  | VUndefined => Some (ret dnan)
  | VString s => Some (ret (stringToNumber s))
  | VSymbol _ => Some (throw (TypeError (bytes "Cannot convert a Symbol value to a number")))
  | VBigInt _ => Some (throw (TypeError (bytes "Cannot convert a BigInt value to a number")))
  | VHole => Some (ret dnan)
  | VObject _ => None
  end.

(** The recursion, one level deep: a second object would be asked again. *)
Fixpoint to_number (depth : nat) (v : Value) : Eff W double :=
  match primitive_number v with
  | Some m => m
  | None => match depth with O => fatal | S depth => do prim <- rtToPrimitive v HintNumber; to_number depth prim end
  end.

Definition rtToNumber (v : Value) : Eff W double := to_number 1 v.

Definition bronze_unbox_f64 (v : Value) : Eff W double := rtToNumber v.

(** *** BigInt *)

Definition toBigIntPrimitive (prim : Value) : Eff W BigNum :=
  match prim with
  | VBigInt b => ret b
  | VBool b => ret (fromInt64 (if b then 1 else 0))
  | VString s =>
      match rtStringToBigInt (rtAsciiChars s) with
      | Some b => ret b
      | None => throw (SyntaxError (bytes "Cannot convert this string to a BigInt"))
      end
  | VUndefined => throw (TypeError (bytes "Cannot convert undefined to a BigInt"))
  | VNull => throw (TypeError (bytes "Cannot convert null to a BigInt"))
  | VSymbol _ => throw (TypeError (bytes "Cannot convert a Symbol value to a BigInt"))
  | _ => throw (TypeError (bytes "Cannot convert this value to a BigInt"))
  end.

Definition rtToBigInt (v : Value) : Eff W BigNum :=
  do prim <- rtToPrimitive v HintNumber;
  if isNumeric prim then throw (TypeError (bytes "Cannot convert a Number to a BigInt")) else toBigIntPrimitive prim.

Definition bigIntConstructorBody (v : Value) : Eff W Value :=
  do prim <- rtToPrimitive v HintNumber;
  let of_number (n : double) : Eff W Value :=
    match fromDoubleExact n with
    | Some b => ret (VBigInt b)
    | None => throw (RangeError (bytes "The number " ++ formatJsNumber to_chars n ++ bytes " cannot be converted to a BigInt because it is not an integer"))
    end in
  match prim with
  | VNumber d => of_number d
  | VInt32 z => of_number (of_int z)
  | _ => do b <- toBigIntPrimitive prim; ret (VBigInt b)
  end.

Definition toBits (v : Value) : Eff W Z :=
  do n <- rtToNumber v;
  let integer := if isnan n then of_int 0 else dtrunc n in
  if dlt integer (of_int 0) || dlt (of_int 9007199254740991) integer
  then throw (RangeError (bytes "Invalid value: not a valid number of bits")) else ret (to_int integer).

Definition asNBody (bitsArg value : Value) (signedResult : bool) : Eff W Value :=
  do bits <- toBits bitsArg;
  do b <- rtToBigInt value;
  let '(wrapped, err) := if signedResult then asIntN bits b else asUintN bits b in
  match err with None' => ret (VBigInt wrapped) | _ => throw (RangeError (bytes "Maximum BigInt size exceeded")) end.

(** [self] is what [rtThisBigIntValue] answers. *)
Definition bigIntProtoToString (self : option BigNum) (radixArg : Value) : Eff W Value :=
  match self with
  | None => throw (TypeError (bytes "BigInt.prototype.toString called on a value that is not a BigInt"))
  | Some b =>
      match radixArg with
      | VUndefined => ret (VString (toString b 10))
      | _ =>
          do r <- rtToNumber radixArg;
          if negb (dle (of_int 2) r && dle r (of_int 36)) then throw (RangeError (bytes "toString() radix must be between 2 and 36"))
          else ret (VString (toString b (to_int r)))
      end
  end.

Definition bigIntProtoValueOf (self : option BigNum) : Eff W Value :=
  match self with Some b => ret (VBigInt b) | None => throw (TypeError (bytes "BigInt.prototype.valueOf called on a value that is not a BigInt")) end.

Definition bigIntProtoToLocaleString (self : option BigNum) : Eff W Value := bigIntProtoToString self VUndefined.
End Conversions.

(** ** The grammar of StringNumericLiteral *)

Inductive Sign := NoSign | Plus | Minus.
Definition sign_text (s : Sign) : list Z := match s with NoSign => [] | Plus => [43] | Minus => [45] end.
Definition sign_number (s : Sign) : double := match s with Minus => of_int (-1) | _ => of_int 1 end.

(** [letter], a sign and digits, or nothing *)
Definition exponent_part (e : option (Z * Sign * list Z)) : list Z :=
  match e with None => [] | Some (letter, s, es) => [letter] ++ sign_text s ++ es end.
Definition exponent_ok (e : option (Z * Sign * list Z)) : Prop :=
  match e with None => True | Some (letter, _, es) => (letter = 101 \/ letter = 69) /\ decimals es /\ es <> [] end.
Definition exponent_value (e : option (Z * Sign * list Z)) : Z :=
  match e with None => 0 | Some (_, s, es) => match s with Minus => - decimal_value es | _ => decimal_value es end end.
Definition point_part (point : bool) : list Z := if point then [46] else [].

(** The texts, without the white space around them, that have a number, and the number; a
    prefixed literal has one below [2^64]. *)
Inductive StrNumber : list Z -> double -> Prop :=
| str_empty : StrNumber [] (of_int 0)
| str_radix p ds : prefix_base p <> 0 -> ds <> [] -> Forall (is_digit (prefix_base p)) ds -> number (prefix_base p) ds < 2 ^ 64 ->
    StrNumber (48 :: p :: ds) (of_int (number (prefix_base p) ds))
| str_infinity s : StrNumber (sign_text s ++ bytes "Infinity") (dmul (sign_number s) (S754_infinity false))
| str_decimal s int (point : bool) frac e : decimals int -> decimals frac -> (point = false -> frac = []) -> int ++ frac <> [] -> exponent_ok e ->
    StrNumber (sign_text s ++ int ++ point_part point ++ frac ++ exponent_part e)
      (dmul (sign_number s) (round_decimal false (decimal_value (int ++ frac)) (exponent_value e - Z.of_nat (length frac)))).

Lemma span_decimal_spec text : let '(ds, rest) := span_decimal text in
  text = ds ++ rest /\ decimals ds /\ match rest with c :: _ => is_decimal c = false | [] => True end.
Proof.
  induction text as [|c text IH]; cbn [span_decimal]; [split; [done|split; [constructor|done]]|]. destruct (is_decimal c) eqn:E.
  - destruct (span_decimal text) as [ds rest]. destruct IH as (-> & Hd & Hr). split; [done|]. split; [by constructor|done].
  - split; [done|]. split; [constructor|done].
Qed.

(** The characters of a decimal literal. *)
Definition dec_char (c : Z) : bool := is_decimal c || existsb (Z.eqb c) [43; 45; 46; 69; 101].

Lemma dec_chars_sign s : forallb dec_char (sign_text s) = true.
Proof. by destruct s. Qed.

Lemma dec_chars_decimals ds : decimals ds -> forallb dec_char ds = true.
Proof. induction 1 as [|c ds Hc _ IH]; [done|]. cbn [forallb]. unfold dec_char. by rewrite Hc. Qed.

Lemma dec_chars s int point frac e : decimals int -> decimals frac -> exponent_ok e ->
  forallb dec_char (sign_text s ++ int ++ point_part point ++ frac ++ exponent_part e) = true.
Proof.
  intros Hi Hf He. rewrite !forallb_app, dec_chars_sign, (dec_chars_decimals int), (dec_chars_decimals frac) by done. destruct e as [[[l s'] es]|]; cbn [exponent_part].
  - destruct He as (Hl & Hes & _). rewrite !forallb_app, dec_chars_sign, (dec_chars_decimals es) by done. by destruct Hl as [-> | ->], point, s'.
  - by destruct point.
Qed.

Lemma dec_char_cases c : dec_char c = true -> 48 <= c <= 57 \/ c = 43 \/ c = 45 \/ c = 46 \/ c = 69 \/ c = 101.
Proof.
  unfold dec_char. intros [Hc|Hc]%orb_prop; [apply decimal_not in Hc; lia|]. cbn in Hc. repeat (apply orb_prop in Hc as [Hc|Hc]; [apply Z.eqb_eq in Hc; lia|]). done.
Qed.

Lemma dec_chars_exists (P : Z -> bool) body : forallb dec_char body = true -> (forall c, dec_char c = true -> P c = false) -> existsb P body = false.
Proof.
  intros Hb HP. induction body as [|c body IH]; [done|]. cbn [forallb existsb] in *. apply andb_prop in Hb as [Hc Hb]. rewrite (HP c Hc). by apply IH.
Qed.

Lemma prefix_not_dec c : dec_char c = true -> prefix_base c = 0.
Proof. intros Hc%dec_char_cases. unfold prefix_base. zbool; cbn [orb]; lia. Qed.

Lemma limb_dec body i : forallb dec_char body = true -> (i < length body)%nat -> dec_char body.[i] = true.
Proof.
  revert i. induction body as [|c body IH]; intros i Hb Hi; [cbn in Hi; lia|]. cbn [forallb] in Hb. apply andb_prop in Hb as [Hc Hb].
  destruct i as [|i]; [exact Hc|]. apply (IH i Hb). cbn in Hi. lia.
Qed.

(** *** What [strtod] takes *)

Lemma strtod_takes int (point : bool) frac e : decimals int -> decimals frac -> (point = false -> frac = []) -> exponent_ok e ->
  strtod_l (int ++ point_part point ++ frac ++ exponent_part e) = (round_decimal false (decimal_value (int ++ frac)) (exponent_value e - Z.of_nat (length frac)), []).
Proof.
  intros Hi Hf Hp He. unfold strtod_l.
  assert (Hexp : match exponent_part e with c :: _ => is_decimal c = false | [] => True end) by (destruct e as [[[l s] es]|]; [destruct He as ([-> | ->] & _)|]; done).
  rewrite span_decimals; [|done|destruct point; [done|rewrite Hp by done; exact Hexp]].
  assert (Hfrac : (match point_part point ++ frac ++ exponent_part e with 46 :: rest => span_decimal rest | _ => ([], point_part point ++ frac ++ exponent_part e) end) = (frac, exponent_part e)).
  { destruct point; cbn [point_part app]; [by apply span_decimals|]. rewrite Hp by done. cbn [app]. destruct e as [[[l s] es]|]; [|done]. by destruct He as ([-> | ->] & _). }
  rewrite Hfrac. destruct e as [[[l s] es]|]; [|done]. destruct He as (Hl & Hes & Hne). cbn [exponent_part exponent_value].
  assert (Hle : (l =? 101) || (l =? 69) = true) by (destruct Hl as [-> | ->]; done). cbn [app]. rewrite Hle.
  assert (Hs : (match sign_text s ++ es with 45 :: rest => (true, rest) | 43 :: rest => (false, rest) | _ => (false, sign_text s ++ es) end) = (match s with Minus => true | _ => false end, es)).
  { destruct s; [|done|done]. destruct es as [|c es]; [done|]. apply Forall_cons in Hes as [Hc _]. apply decimal_not in Hc. cbn [sign_text app].
    destruct c as [|c|c]; [done| |done]. do 6 (destruct c as [c|c|]; try done; try lia). }
  rewrite Hs. pose proof (span_decimals es [] Hes I) as Hsp. rewrite app_nil_r in Hsp. rewrite Hsp. destruct es; [done|]. cbn [empty]. by destruct s.
Qed.

(** The body of stringToNumber, on a text without white space around it. *)
Definition body_number (body : list Z) : double :=
  if empty body then of_int 0
  else if existsb (fun c => 0x7F <? c) body then dnan
  else
    let base := if (2 <? length body)%nat && (body.[0%nat] =? 48) then prefix_base body.[1%nat] else 0 in
    if negb (base =? 0) then match from_chars base (drop 2 body) with Some magnitude => of_int magnitude | None => dnan end
    else signed_number body.

Lemma digit_ascii r c : is_digit r c -> (0x7F <? c) = false.
Proof. unfold is_digit, digitValue. zbool; cbn [andb]; lia. Qed.

Lemma is_digit_bool base c : (0 <=? digitValue c) && (digitValue c <? base) = true <-> is_digit base c.
Proof. unfold is_digit. lia. Qed.

Lemma prefix_ascii p : prefix_base p <> 0 -> (0x7F <? p) = false /\ 2 <= prefix_base p <= 36.
Proof. unfold prefix_base. zbool; cbn [orb]; lia. Qed.

Lemma from_chars_spec base text : from_chars base text = if bool_decide (text <> [] /\ Forall (is_digit base) text /\ number base text < 2 ^ 64) then Some (number base text) else None.
Proof.
  unfold from_chars. pose proof (empty_spec text) as He. assert (Hf : forallb (fun c => (0 <=? digitValue c) && (digitValue c <? base)) text = true <-> Forall (is_digit base) text).
  { rewrite forallb_forall, List.Forall_forall. split; intros H c Hc; by apply is_digit_bool, H. }
  destruct (forallb _ text) eqn:E.
  - destruct (empty text); cbn [negb orb]; [rewrite bool_decide_eq_false_2; [done|intros [? _]; by subst]|]. destruct (Z.ltb_spec (number base text) (2 ^ 64)).
    + rewrite bool_decide_eq_true_2; [done|]. split; [intros ->; cbn in He; lia|]. split; [by apply Hf|done].
    + rewrite bool_decide_eq_false_2; [done|]. intros (_ & _ & ?). lia.
  - rewrite orb_true_r. rewrite bool_decide_eq_false_2; [done|]. intros (_ & HF & _). apply Hf in HF. done.
Qed.

(** A decimal literal behind its sign. *)
Lemma signed_decimal s int (point : bool) frac e : decimals int -> decimals frac -> (point = false -> frac = []) -> int ++ frac <> [] -> exponent_ok e ->
  signed_number (sign_text s ++ int ++ point_part point ++ frac ++ exponent_part e) =
  dmul (sign_number s) (round_decimal false (decimal_value (int ++ frac)) (exponent_value e - Z.of_nat (length frac))).
Proof.
  intros Hi Hf Hp Hne He. unfold signed_number. set (digits := int ++ point_part point ++ frac ++ exponent_part e).
  assert (Hch : forallb dec_char digits = true) by (exact (dec_chars NoSign int point frac e Hi Hf He)).
  assert (Hfirst : exists c rest, digits = c :: rest /\ ((is_decimal c = true) \/ (c = 46 /\ exists d rest', rest = d :: rest' /\ is_decimal d = true))).
  { unfold digits. destruct int as [|c int]; [|apply Forall_cons in Hi as [Hc _]; eexists c, _; split; [done|by left]].
    destruct point; [|by rewrite Hp in Hne]. destruct frac as [|d frac]; [done|]. apply Forall_cons in Hf as [Hd _]. eexists 46, _. split; [done|]. right. split; [done|]. by eexists d, _. }
  destruct Hfirst as (c & rest & Ed & Hc).
  assert (Hsign : (match sign_text s ++ digits with 45 :: rest => (of_int (-1), rest) | 43 :: rest => (of_int 1, rest) | _ => (of_int 1, sign_text s ++ digits) end) = (sign_number s, digits)).
  { destruct s; [|done|done]. rewrite Ed. cbn [sign_text app sign_number]. assert (Hcr : 46 <= c <= 57) by (destruct Hc as [Hc%decimal_not|[-> _]]; lia).
    destruct c as [|c|c]; [done| |done]. do 6 (destruct c as [c|c|]; try done; try lia). }
  rewrite Hsign. rewrite bool_decide_eq_false_2 by (intros E; rewrite E in Hch; done).
  assert (Hstart : (if digits.[0%nat] =? 46 then (length digits <? 2)%nat || negb (is_decimal digits.[1%nat]) else negb (is_decimal digits.[0%nat])) = false).
  { rewrite Ed. change ((c :: rest).[0%nat]) with c. destruct Hc as [Hc|[-> (d & rest' & -> & Hd)]].
    - assert (c <> 46) by (apply decimal_not in Hc; lia). destruct (Z.eqb_spec c 46); [done|]. by rewrite Hc.
    - change ((46 :: d :: rest').[1%nat]) with d. rewrite Hd. done. }
  rewrite Hstart. rewrite (dec_chars_exists _ digits Hch) by (intros x Hx%dec_char_cases; zbool; cbn [orb]; lia).
  replace (empty digits) with false by (by rewrite Ed). unfold digits. rewrite strtod_takes by done. done.
Qed.

Lemma body_number_complete body v : StrNumber body v -> body_number body = v.
Proof.
  destruct 1 as [|p ds Hp Hne HF Hv|s|s int point frac e Hi Hf Hpt Hne He].
  - done.
  - unfold body_number. cbn [empty]. destruct (prefix_ascii p Hp) as [Hpa _]. assert (Hasc : existsb (fun c => 0x7F <? c) (48 :: p :: ds) = false).
    { cbn [existsb]. rewrite Hpa. cbn. clear -HF. induction HF as [|c ds Hc _ IH]; [done|]. cbn [existsb]. by rewrite (digit_ascii _ _ Hc). }
    rewrite Hasc. assert (Hlen : (2 <? S (S (length ds)))%nat = true) by (destruct ds; [done|reflexivity]). change (length (48 :: p :: ds)) with (S (S (length ds))). rewrite Hlen.
    change ((48 :: p :: ds).[0%nat] =? 48) with true. change ((48 :: p :: ds).[1%nat]) with p. cbn [andb]. destruct (Z.eqb_spec (prefix_base p) 0); [done|]. cbn [negb drop].
    rewrite from_chars_spec, bool_decide_eq_true_2 by done. done.
  - destruct s; vm_compute; reflexivity.
  - pose proof (dec_chars s int point frac e Hi Hf He) as Hch. unfold body_number.
    set (body := sign_text s ++ int ++ point_part point ++ frac ++ exponent_part e) in *.
    assert (Hbe : empty body = false) by (unfold body; destruct s, int, point, frac; try done; by rewrite Hpt in Hne).
    rewrite Hbe, (dec_chars_exists _ body Hch) by (intros x Hx%dec_char_cases; lia).
    assert (Hbase : (if (2 <? length body)%nat && (body.[0%nat] =? 48) then prefix_base body.[1%nat] else 0) = 0).
    { destruct (Nat.ltb_spec 2 (length body)); [|done]. cbn [andb]. destruct (_ =? 48); [|done]. apply prefix_not_dec, limb_dec; [done|lia]. }
    rewrite Hbase. cbn [Z.eqb negb]. by apply signed_decimal.
Qed.

(** *** Every other text has none *)

Lemma sign_match {A} (l : list Z) (f g : list Z -> A) (d : A) :
  (match l with 45 :: r => f r | 43 :: r => g r | _ => d end) =
  match l with c :: r => if c =? 45 then f r else if c =? 43 then g r else d | [] => d end.
Proof. destruct l as [|[|c|c] l]; [done|done| |done]. do 6 (destruct c as [c|c|]; try done). Qed.

Lemma point_match {A} (l : list Z) (f : list Z -> A) (d : A) :
  (match l with 46 :: r => f r | _ => d end) = match l with c :: r => if c =? 46 then f r else d | [] => d end.
Proof. destruct l as [|[|c|c] l]; [done|done| |done]. do 6 (destruct c as [c|c|]; try done). Qed.

Definition split_at_sign (l : list Z) : Sign * list Z :=
  match l with c :: r => if c =? 45 then (Minus, r) else if c =? 43 then (Plus, r) else (NoSign, l) | [] => (NoSign, l) end.

Lemma split_at_sign_spec l : let '(s, r) := split_at_sign l in l = sign_text s ++ r.
Proof. destruct l as [|c l]; [done|]. cbn. destruct (Z.eqb_spec c 45) as [->|]; [done|]. by destruct (Z.eqb_spec c 43) as [->|]. Qed.

Lemma strtod_shape digits m : strtod_l digits = (m, []) ->
  exists int (point : bool) frac e, digits = int ++ point_part point ++ frac ++ exponent_part e /\ decimals int /\ decimals frac /\ (point = false -> frac = []) /\ exponent_ok e /\
    m = round_decimal false (decimal_value (int ++ frac)) (exponent_value e - Z.of_nat (length frac)).
Proof.
  unfold strtod_l. pose proof (span_decimal_spec digits) as H1. destruct (span_decimal digits) as [int t1]. destruct H1 as (-> & Hi & H1). rewrite point_match.
  assert (H2 : exists (point : bool) frac t2, (match t1 with c :: r => if c =? 46 then span_decimal r else ([], t1) | [] => ([], t1) end) = (frac, t2) /\ t1 = point_part point ++ frac ++ t2 /\ decimals frac /\ (point = false -> frac = [])).
  { destruct t1 as [|c r]; [by exists false, [], []; repeat split; try constructor|]. destruct (Z.eqb_spec c 46) as [->|].
    - pose proof (span_decimal_spec r) as H2. destruct (span_decimal r) as [frac t2]. destruct H2 as (-> & Hf & _). exists true, frac, t2. done.
    - exists false, [], (c :: r). repeat split; constructor. }
  destruct H2 as (point & frac & t2 & -> & -> & Hf & Hp). destruct t2 as [|c r].
  { intros [= <-]. exists int, point, frac, None. split_and!; done. }
  destruct ((c =? 101) || (c =? 69)) eqn:Ec; [|discriminate]. rewrite (sign_match r (fun r => (true, r)) (fun r => (false, r)) (false, r)).
  pose proof (split_at_sign_spec r) as Hs. destruct (split_at_sign r) as [s r'] eqn:Es.
  assert (Em : (match r with c :: r0 => if c =? 45 then (true, r0) else if c =? 43 then (false, r0) else (false, r) | [] => (false, r) end) = (match s with Minus => true | _ => false end, r')).
  { destruct r as [|x r]; cbn in Es; [by injection Es as <- <-|]. destruct (x =? 45); [by injection Es as <- <-|]. destruct (x =? 43); by injection Es as <- <-. }
  rewrite Em. pose proof (span_decimal_spec r') as H3. destruct (span_decimal r') as [es tail]. destruct H3 as (-> & Hes & _). pose proof (empty_spec es) as Hee. destruct (empty es); [discriminate|].
  intros [= <- ->]. exists int, point, frac, (Some (c, s, es)). split_and!; [|done|done|done| |by destruct s].
  - rewrite Hs. cbn [exponent_part]. by rewrite app_nil_r.
  - split; [lia|]. split; [done|]. intros ->. cbn in Hee. lia.
Qed.

Lemma signed_number_sound body : signed_number body = dnan \/ StrNumber body (signed_number body).
Proof.
  unfold signed_number. rewrite (sign_match body (fun r => (of_int (-1), r)) (fun r => (of_int 1, r)) (of_int 1, body)).
  pose proof (split_at_sign_spec body) as Hs. destruct (split_at_sign body) as [s digits] eqn:Es.
  assert (Em : (match body with c :: r => if c =? 45 then (of_int (-1), r) else if c =? 43 then (of_int 1, r) else (of_int 1, body) | [] => (of_int 1, body) end) = (sign_number s, digits)).
  { destruct body as [|x r]; cbn in Es; [by injection Es as <- <-|]. destruct (x =? 45); [by injection Es as <- <-|]. destruct (x =? 43); by injection Es as <- <-. }
  rewrite Em. clear Em Es. destruct (decide (digits = bytes "Infinity")) as [->|Hni].
  { rewrite bool_decide_eq_true_2 by done. right. rewrite Hs. apply str_infinity. }
  rewrite bool_decide_eq_false_2 by done. destruct (empty digits); [by left|].
  destruct (if digits.[0%nat] =? 46 then _ else _) eqn:Estart; [by left|]. destruct (existsb _ digits); [by left|].
  destruct (strtod_l digits) as [m rest] eqn:Em. pose proof (empty_spec rest) as He. destruct (empty rest); [|by left]. subst rest. cbn [negb]. right.
  destruct (strtod_shape digits m Em) as (int & point & frac & e & Ed & Hi & Hf & Hp & He & ->). rewrite Hs, Ed. apply str_decimal; try done.
  intros Hne. apply app_eq_nil in Hne as [-> ->]. rewrite Ed in Estart. destruct point; cbn in Estart.
  - destruct e as [[[l s'] es]|]; [|done]. by destruct He as ([-> | ->] & _).
  - destruct e as [[[l s'] es]|]; [|done]. by destruct He as ([-> | ->] & _).
Qed.

Lemma body_number_sound body : body_number body = dnan \/ StrNumber body (body_number body).
Proof.
  unfold body_number. pose proof (empty_spec body) as He. destruct (empty body); [subst; right; constructor|]. destruct (existsb _ body); [by left|].
  destruct ((2 <? length body)%nat && (body.[0%nat] =? 48)) eqn:Eb; [|apply signed_number_sound].
  destruct (Z.eqb_spec (prefix_base body.[1%nat]) 0) as [E|Hne]; [apply signed_number_sound|]. cbn [negb]. rewrite from_chars_spec.
  destruct (bool_decide _) eqn:Ed; [|by left]. apply bool_decide_eq_true in Ed as (Hn & HF & Hv). right. apply andb_prop in Eb as [El E0].
  destruct body as [|a [|p ds]]; try done. change ((a :: p :: ds).[0%nat]) with a in E0. apply Z.eqb_eq in E0 as ->. change ((48 :: p :: ds).[1%nat]) with p in *. by apply str_radix.
Qed.

(** C16: ToNumber of a string: a text that the grammar of StringNumericLiteral derives, between
    white space, has the number the grammar gives it, and every other text is NaN.  (Of a
    literal with a prefix the grammar here has the values below 2^64 alone, as the code does.) *)
Theorem string_number s :
  (forall v, StrNumber (strip s) v -> stringToNumber s = v) /\ ((forall v, ~ StrNumber (strip s) v) -> stringToNumber s = dnan).
Proof.
  change (stringToNumber s) with (body_number (strip s)). split; [apply body_number_complete|]. intros Hn. destruct (body_number_sound (strip s)) as [->|H]; [done|]. by apply Hn in H.
Qed.

Lemma skip_space_spec s : exists pre, s = pre ++ skip_space s /\ Forall (fun c => isEcmaWhitespace c = true) pre /\ match skip_space s with c :: _ => isEcmaWhitespace c = false | [] => True end.
Proof.
  induction s as [|c s (pre & E & Hp & Hs)]; [by exists []|]. cbn [skip_space]. destruct (isEcmaWhitespace c) eqn:Ec.
  - exists (c :: pre). split; [cbn; by rewrite <- E|]. split; [by constructor|done].
  - exists []. split; [done|]. by split.
Qed.

(** [strip] takes the white space off both ends, and nothing else. *)
Lemma strip_spec s : exists pre post, s = pre ++ strip s ++ post /\ Forall (fun c => isEcmaWhitespace c = true) (pre ++ post) /\
  match strip s with c :: _ => isEcmaWhitespace c = false | [] => True end /\ match last (strip s) with Some c => isEcmaWhitespace c = false | None => True end.
Proof.
  unfold strip. destruct (skip_space_spec s) as (pre & E & Hpre & Hs). set (t := skip_space s) in *. destruct (skip_space_spec (rev t)) as (post & E2 & Hpost & Hs2). set (u := skip_space (rev t)) in *.
  assert (Et : t = rev u ++ rev post) by (rewrite <- (rev_involutive t), E2, rev_app_distr; done).
  exists pre, (rev post). split; [by rewrite <- Et|]. split; [apply Forall_app; split; [done|by apply Forall_rev]|]. split.
  - destruct (rev u) as [|c r] eqn:Eu; [done|]. by rewrite Et in Hs.
  - destruct u as [|c r]; [done|]. cbn [rev]. by rewrite last_snoc.
Qed.

(** ** Array indices *)

Lemma u64_digits ds acc : decimals ds -> 0 <= acc -> (acc + 1) * 10 ^ Z.of_nat (length ds) < 2 ^ 64 ->
  fold_left (fun v c => u64 (u64 (v * 10) + (c - 48))) ds acc = fold_left (fun v c => v * 10 + (c - 48)) ds acc.
Proof.
  intros Hds. revert acc. induction Hds as [|c ds Hc _ IH]; intros acc Ha Hb; [done|]. cbn [fold_left length] in *. apply decimal_not in Hc.
  rewrite Nat2Z.inj_succ, Z.pow_succ_r in Hb by lia. pose proof (Z.pow_pos_nonneg 10 (Z.of_nat (length ds)) ltac:(lia) ltac:(lia)).
  assert (Hs : (acc + 1) * 10 <= (acc + 1) * (10 * 10 ^ Z.of_nat (length ds))) by nia.
  rewrite (u64_small (acc * 10)), u64_small by lia. apply IH; nia.
Qed.

Lemma decimals_number ds : decimals ds -> Forall (printed 10) ds /\ number 10 ds = decimal_value ds.
Proof.
  intros Hd. assert (HF : Forall (printed 10) ds).
  { eapply Forall_impl; [exact Hd|]. intros c Hc. apply decimal_not in Hc. replace c with (48 + (c - 48)) by lia. apply printed_decimal. lia. }
  split; [done|]. unfold number, decimal_value. clear Hd. generalize 0. induction HF as [|c ds Hc _ IH]; intros acc; [done|]. cbn [fold_left]. destruct (printed_ten c Hc) as [_ ->]. apply IH.
Qed.

(** The decimal digits of a number are its only ones without a leading zero. *)
Lemma digits_unique_text ds ds' n : digits_of 10 ds n -> digits_of 10 ds' n -> ds = ds'.
Proof.
  assert (Hlen : forall a b k, digits_of 10 a k -> digits_of 10 b k -> (length a <= length b)%nat).
  { intros a b k Ha Hb. destruct (digits_of_decimals _ _ Hb) as (Hdb & Ev & Hne). pose proof (decimals_value b Hdb) as Hv. rewrite Ev in Hv.
    pose proof (digits_of_length a k (Z.of_nat (length b)) Ha) as Hl. destruct b; [done|]. cbn [length] in *. lia. }
  intros H1 H2. pose proof (Hlen _ _ _ H1 H2). pose proof (Hlen _ _ _ H2 H1). destruct H1 as (F1 & E1 & _), H2 as (F2 & E2 & _).
  apply (number_inj_len 10); [lia|done|done|lia|congruence].
Qed.

(** The keys that name an array element are the decimal spellings of the integers up to
    2^32 - 2, each in its one canonical form, and each is read as that integer. *)
Theorem integer_keys key n : rtIsIntegerLikeKey key = Some n <-> 0 <= n <= 2 ^ 32 - 2 /\ key = unsigned_text n.
Proof.
  unfold rtIsIntegerLikeKey. split.
  - pose proof (empty_spec key) as He. destruct (empty key); [done|]. destruct (Nat.ltb_spec 10 (length key)) as [Hl|Hl]; [done|]. cbn [orb].
    destruct ((1 <? length key)%nat && (key.[0%nat] =? 48)) eqn:Ez; [done|]. destruct (forallb is_decimal key) eqn:Ed; [|done]. cbn [negb].
    assert (Hd : decimals key) by (apply List.Forall_forall; by apply forallb_forall).
    rewrite u64_digits; [|done|lia|assert (10 ^ Z.of_nat (length key) <= 10 ^ 10) by (apply Z.pow_le_mono_r; lia); lia]. change (fold_left _ key 0) with (decimal_value key).
    pose proof (decimals_value key Hd) as Hv. destruct (Z.ltb_spec 4294967294 (decimal_value key)); [done|]. intros [= <-]. split; [lia|].
    apply (digits_unique_text _ _ (decimal_value key)); [|apply unsigned_text_spec; lia]. destruct (decimals_number key Hd) as [HF En]. split_and!; [done|done|].
    destruct key as [|c [|c' key]]; [cbn in He; lia| |].
    + apply Forall_cons in Hd as [Hc _]. apply decimal_not in Hc. destruct (Z.eq_dec c 48) as [->|]; [by left|]. right. exists c, []. split; [done|]. apply Forall_cons in HF as [Hp _]. destruct (printed_ten c Hp) as [_ ->]. lia.
    + right. exists c, (c' :: key). split; [done|]. apply Forall_cons in HF as [Hp _]. destruct (printed_ten c Hp) as [_ ->]. change ((c :: c' :: key).[0%nat]) with c in Ez. cbn [length Nat.ltb Nat.leb andb] in Ez. lia.
  - intros [Hn ->]. assert (Hu : digits_of 10 (unsigned_text n) n) by (apply unsigned_text_spec; lia). destruct (digits_of_decimals _ _ Hu) as (Hd & Ev & Hne).
    pose proof (digits_of_length _ _ 10 Hu ltac:(lia) ltac:(lia)) as Hl. pose proof (empty_spec (unsigned_text n)) as He. destruct (empty _); [done|].
    destruct (Nat.ltb_spec 10 (length (unsigned_text n))); [lia|]. cbn [orb].
    assert (Ez : (1 <? length (unsigned_text n))%nat && ((unsigned_text n).[0%nat] =? 48) = false).
    { destruct Hu as (_ & _ & [->|(c & t & -> & Hc)]); [done|]. change ((c :: t).[0%nat]) with c. destruct (Z.eqb_spec c 48) as [->|]; [done|by rewrite andb_false_r]. }
    rewrite Ez. assert (Ed : forallb is_decimal (unsigned_text n) = true) by (apply forallb_forall; by apply List.Forall_forall). rewrite Ed. cbn [negb].
    rewrite u64_digits; [|done|lia|assert (10 ^ Z.of_nat (length (unsigned_text n)) <= 10 ^ 10) by (apply Z.pow_le_mono_r; lia); lia]. change (fold_left _ _ 0) with (decimal_value (unsigned_text n)).
    rewrite Ev. destruct (Z.ltb_spec 4294967294 n); [lia|done].
Qed.

(** ** Numbers through strings and back *)

Lemma isint_same x y z : isint x z -> isint y z -> z <> 0 -> x = y.
Proof. intros [_ [s ->]] [_ [s' ->]] Hz. unfold of_int_signed, binary_normalize. by destruct z. Qed.

Lemma strip_id s : match s with c :: _ => isEcmaWhitespace c = false | [] => True end -> match last s with Some c => isEcmaWhitespace c = false | None => True end -> strip s = s.
Proof.
  intros Hf Hl. unfold strip. assert (H1 : skip_space s = s) by (destruct s as [|c s]; [done|]; cbn [skip_space]; by rewrite Hf). rewrite H1.
  assert (H2 : skip_space (rev s) = rev s).
  { destruct (rev s) as [|c r] eqn:E; [done|]. assert (Es : s = rev r ++ [c]) by (rewrite <- (rev_involutive s), E; done). rewrite Es, last_snoc in Hl. cbn [skip_space]. by rewrite Hl. }
  by rewrite H2, rev_involutive.
Qed.

Lemma dec_char_not_space c : dec_char c = true -> isEcmaWhitespace c = false.
Proof. intros Hc%dec_char_cases. unfold isEcmaWhitespace. cbn [existsb]. repeat match goal with |- context [?a =? ?b] => destruct (Z.eqb_spec a b); [lia|] end. cbn [orb]. lia. Qed.

Lemma strip_dec s : forallb dec_char s = true -> strip s = s.
Proof.
  intros Hs. apply strip_id.
  - destruct s as [|c s]; [done|]. cbn [forallb] in Hs. apply andb_prop in Hs as [Hc _]. by apply dec_char_not_space.
  - destruct (last s) as [c|] eqn:E; [|done]. apply last_Some in E as [l ->]. rewrite forallb_app in Hs. apply andb_prop in Hs as [_ Hs]. cbn [forallb] in Hs. rewrite andb_true_r in Hs. by apply dec_char_not_space.
Qed.

(** The text of an integer. *)
Lemma format_integer to_chars x z : isint x z -> z <> 0 -> formatJsNumber to_chars x = (if z <? 0 then [45] else []) ++ unsigned_text (Z.abs z).
Proof.
  intros Hx Hz. unfold formatJsNumber. rewrite (isint_not_nan x z Hx). rewrite (isint_eq _ _ _ _ Hx (of_int_isint 0 ltac:(lia))). destruct (Z.eqb_spec z 0); [done|].
  unfold take_sign. rewrite (isint_lt _ _ _ _ Hx (of_int_isint 0 ltac:(lia))). pose proof (isint_bound x z Hx) as Hb.
  assert (H : forall y t, isint y (Z.abs z) -> (if negb (isfinite y) then t ++ bytes "Infinity" else
    if dlt y (of_int 9007199254740992) && deq (of_int (to_int y)) y then t ++ unsigned_text (to_int y) else let '(digits, exp10) := jsShortestDigits to_chars y in t ++ lay_out digits exp10) = t ++ unsigned_text (Z.abs z)).
  { intros y t Hy. rewrite (isint_finite y _ Hy), (isint_to_int y _ Hy). cbn [negb]. rewrite (isint_eq _ _ _ _ (of_int_isint (Z.abs z) ltac:(lia)) Hy), Z.eqb_refl, andb_true_r.
    assert (Hlt : dlt y (of_int 9007199254740992) = true).
    { destruct (isint_inv y _ Hy) as [(_ & s & ->)|(s & p & k & -> & Es & Hk & Hp)]; [by destruct s|]. destruct s; [done|]. unfold dlt, SFltb.
      assert (H53 : exists n, of_int 9007199254740992 = S754_finite false n 1) by (eexists; vm_compute; reflexivity). destruct H53 as [big ->]. rewrite compare_positive. destruct (Z.compare_spec (- k) 1); [lia|done|lia]. }
    by rewrite Hlt. }
  destruct (Z.ltb_spec z 0).
  - apply (H (dneg x) [45]). rewrite Z.abs_neq by lia. by apply isint_neg.
  - apply (H x []). by rewrite Z.abs_eq by lia.
Qed.

(** ToNumber undoes ToString on the integers that a double holds exactly. *)
Theorem number_string_number to_chars x z : isint x z -> z <> 0 -> stringToNumber (formatJsNumber to_chars x) = x.
Proof.
  intros Hx Hz. rewrite (format_integer to_chars x z Hx Hz). pose proof (isint_bound x z Hx) as Hb.
  assert (Hu : digits_of 10 (unsigned_text (Z.abs z)) (Z.abs z)) by (apply unsigned_text_spec; lia). destruct (digits_of_decimals _ _ Hu) as (Hd & Ev & Hne).
  set (s := if z <? 0 then Minus else NoSign). assert (Et : (if z <? 0 then [45] else []) ++ unsigned_text (Z.abs z) = sign_text s ++ unsigned_text (Z.abs z)) by (unfold s; by destruct (z <? 0)).
  rewrite Et. change (stringToNumber ?t) with (body_number (strip t)). rewrite strip_dec by (rewrite forallb_app, dec_chars_sign, dec_chars_decimals by done; done).
  pose proof (str_decimal s (unsigned_text (Z.abs z)) false [] None Hd ltac:(constructor) ltac:(done) ltac:(by rewrite app_nil_r) I) as Hs. cbn [point_part exponent_part app] in Hs. rewrite !app_nil_r in Hs.
  rewrite (body_number_complete _ _ Hs), Ev. cbn [exponent_value length]. change (0 - Z.of_nat 0) with 0.
  assert (Hr : round_decimal false (Z.abs z) 0 = of_int (Z.abs z)) by (unfold round_decimal; destruct (Z.abs z) as [|p|p] eqn:E; try lia; change (0 <=? 0) with true; cbn iota; by rewrite Z.pow_0_r, Z.mul_1_r).
  rewrite Hr. apply (isint_same _ _ z); [|done|done].
  pose proof (of_int_isint (Z.abs z) ltac:(lia)) as Hi. unfold s. destruct (Z.ltb_spec z 0); cbn [sign_number].
  - apply (isint_value _ (-1 * Z.abs z)); [|lia]. apply isint_mul; [apply of_int_isint; lia|done|lia].
  - apply (isint_value _ (1 * Z.abs z)); [|lia]. apply isint_mul; [apply of_int_isint; lia|done|lia].
Qed.

(** ** Conversions of objects *)

Section Conversions_primitive.

Context {W : Type} `{Runtime W}.

Lemma bind_ok {A B} (m : Eff W A) (k : A -> Eff W B) w w' b : bind m k w = (w', Ok b) -> exists w1 a, m w = (w1, Ok a) /\ k a w1 = (w', Ok b).
Proof. unfold bind. destruct (m w) as [w1 [a|t|]]; [|discriminate|discriminate]. intros E. by exists w1, a. Qed.

Lemma bind_fatal {A B} (m : Eff W A) (k : A -> Eff W B) w w' : bind m k w = (w', Fatal) -> m w = (w', Fatal) \/ exists w1 a, m w = (w1, Ok a) /\ k a w1 = (w', Fatal).
Proof. unfold bind. destruct (m w) as [w1 [a|t|]]; [|discriminate|]; intros E; [right; by exists w1, a|left]. by injection E as ->. Qed.

Lemma try_methods_primitive input names w w' p : try_methods input names w = (w', Ok p) -> isObject p = false.
Proof.
  revert w. induction names as [|name names IH]; intros w E; [done|]. cbn [try_methods] in E. apply bind_ok in E as (w1 & method & _ & E).
  destruct (negb (is_function method)); [by apply IH in E|]. apply bind_ok in E as (w2 & result & _ & E). destruct (isObject result) eqn:Er; cbn [negb] in E; [by apply IH in E|]. by injection E as _ <-.
Qed.

Lemma toPrimitive_primitive v hint w w' p : rtToPrimitive v hint w = (w', Ok p) -> isObject p = false.
Proof.
  unfold rtToPrimitive. destruct (isObject v) eqn:Ev; cbn [negb]; [|by intros [= _ <-]]. intros E. apply bind_ok in E as (w1 & ex & _ & E).
  assert (Hcall : (if negb (is_function ex) then throw (TypeError (bytes "Symbol.toPrimitive is not a function"))
    else bind (dynamic_call ex v [VString (hint_text hint)]) (fun result => if isObject result then throw (TypeError cannot_convert) else ret result)) w1 = (w', Ok p) -> isObject p = false).
  { destruct (negb _); [done|]. intros Eb. apply bind_ok in Eb as (w2 & result & _ & Eb). destruct (isObject result) eqn:Er; [done|]. by injection Eb as _ <-. }
  unfold rtOrdinaryToPrimitive in E. destruct ex; try (by apply Hcall in E); by apply try_methods_primitive in E.
Qed.
End Conversions_primitive.

(** ToPrimitive answers a primitive, whatever user code it runs and whatever that does, and
    leaves a primitive alone without running any; so the recursion of ToNumber is one level
    deep: it stops short of an answer or a throw only where the user code itself did. *)
Theorem conversions_end {W} `{Runtime W} v hint w :
  (forall w' p, rtToPrimitive v hint w = (w', Ok p) -> isObject p = false) /\
  (isObject v = false -> rtToPrimitive v hint w = (w, Ok v)) /\
  (forall w', rtToNumber v w = (w', Fatal) -> rtToPrimitive v HintNumber w = (w', Fatal)).
Proof.
  split; [apply toPrimitive_primitive|]. split; [unfold rtToPrimitive; by intros ->|]. intros w' E. unfold rtToNumber in E.
  destruct v; try discriminate E. cbn [to_number primitive_number] in E. apply bind_fatal in E as [E|(w1 & p & E & Ep)]; [done|]. apply toPrimitive_primitive in E. by destruct p.
Qed.

(** ** Witnesses *)

Lemma number_string_number_witness : stringToNumber (formatJsNumber one_text (of_int (-255))) = of_int (-255).
Proof. apply (number_string_number one_text (of_int (-255)) (-255)); [apply of_int_isint; lia|lia]. Defined.
