(* ===== verification/Operate.v ===== *)
(** * The operators of the language (src/src/runtime/rt_numeric.cpp, rt_operator.cpp)

    Arithmetic, bitwise operators, the comparisons, both equalities and [typeof] on values, with
    those parts of rt_convert.cpp and bigint.cpp that they are made of.  [std::pow] and
    [rtIsCallableValue] are arguments, beside those of the conversions. *)
From S2P Require Import Prelude BigNumMag BigNumOps BigNumText Float64 DoubleArith BigNumDouble NumberText Convert.
Local Open Scope Z_scope.
Local Open Scope bool_scope.
Local Open Scope eff_scope.

(** ** ToInt32 *)

Definition toInt32 (d : double) : Z :=
  if negb (isfinite d) || deq d (of_int 0) then 0
  else
    let truncated := dtrunc d in
    let residue := dfmod truncated (of_int 4294967296) in
    s32 (u32 (to_int (if dlt residue (of_int 0) then dadd residue (of_int 4294967296) else residue))).

(** ** BigInt operators *)

Inductive BigIntOp := Add | Sub | Mul | Div | Mod | Pow | BitAnd | BitOr | BitXor | Shl | Shr | UShr.

Definition opSpelling (op : BigIntOp) : list Z :=
  match op with
  | Add => bytes "+" | Sub => bytes "-" | Mul => bytes "*" | Div => bytes "/" | Mod => bytes "%" | Pow => bytes "**"
  | BitAnd => bytes "&" | BitOr => bytes "|" | BitXor => bytes "^" | Shl => bytes "<<" | Shr => bytes ">>" | UShr => bytes ">>>"
  end.

Definition kMixed : list Z := bytes "Cannot mix BigInt and other types, use explicit conversions".

Section Operators.

Context {W : Type} `{Runtime W} (to_chars : double -> list Z) (pow : double -> double -> double) (isCallable : Value -> bool).

Definition applyError (r : BigNum * BigNumError) : Eff W Value :=
  match snd r with
  | None' => ret (VBigInt (fst r))
  | NegativeExponent => throw (RangeError (bytes "Exponent must be non-negative"))
  | TooLarge => throw (RangeError (bytes "Maximum BigInt size exceeded"))
  | DivideByZero => throw (RangeError (bytes "Division by zero"))
  | BadDigits => throw (SyntaxError (bytes "Cannot convert this string to a BigInt"))
  end.

(** [None] when neither operand is a BigInt. *)
Definition rtBigIntBinary (op : BigIntOp) (left right : Value) : option (Eff W Value) :=
  match left, right with
  | VBigInt a, VBigInt b => Some
      (match op with
       | UShr => throw (TypeError (bytes "BigInts have no unsigned right shift, use >> instead"))
       | Add => ret (VBigInt (add a b))
       | Sub => ret (VBigInt (sub a b))
       | Mul => ret (VBigInt (mul a b))
       | Div => match divmod a b with Some (quotient, _) => ret (VBigInt quotient) | None => throw (RangeError (bytes "Division by zero")) end
       | Mod => match divmod a b with Some (_, remainder) => ret (VBigInt remainder) | None => throw (RangeError (bytes "Division by zero")) end
       | Pow => applyError (BigNumOps.pow a b)
       | BitAnd => ret (VBigInt (bitAnd a b))
       | BitOr => ret (VBigInt (bitOr a b))
       | BitXor => ret (VBigInt (bitXor a b))
       | Shl => applyError (shiftLeft a b)
       | Shr => applyError (shiftRight a b)
       end)
  | VBigInt _, _ | _, VBigInt _ => Some (throw (TypeError (kMixed ++ bytes " (the '" ++ opSpelling op ++ bytes "' operator needs two BigInts or two Numbers)")))
  | _, _ => None
  end.

Definition rtBigIntNegate (operand : Value) : option Value := match operand with VBigInt b => Some (VBigInt (negate b)) | _ => None end.
Definition rtBigIntBitNot (operand : Value) : option Value := match operand with VBigInt b => Some (VBigInt (bitNot b)) | _ => None end.

(** ** Numeric operators *)

Definition rtExponentiate (base exponent : double) : double :=
  if isnan exponent then dnan
  else if deq (dabs base) (of_int 1) && negb (isnan exponent || isfinite exponent) then dnan
  else pow base exponent.

Definition toNumeric (v : Value) : Eff W Value :=
  match v with
  | VNumber _ => ret v
  | _ =>
      do prim <- rtToPrimitive v HintNumber;
      if isBigInt prim then ret prim else do n <- rtToNumber prim; ret (VNumber n)
  end.

Definition asDouble (v : Value) : double := match v with VNumber d => d | VInt32 z => of_int z | _ => dnan end.

(** The operands of a numeric operator: two BigInts or a mixture go to the BigInt operator. *)
Definition numeric_binary (op : BigIntOp) (number_op : double -> double -> double) (l r : Value) : Eff W Value :=
  do l <- toNumeric l;
  do r <- toNumeric r;
  match rtBigIntBinary op l r with
  | Some m => m
  | None => ret (VNumber (number_op (asDouble l) (asDouble r)))
  end.

Definition arith_number (op : BigIntOp) (a b : double) : double :=
  match op with Sub => dsub a b | Mul => dmul a b | Div => ddiv a b | Mod => dfmod a b | _ => rtExponentiate a b end.

Definition bitwise_number (op : BigIntOp) (a b : double) : double :=
  let a := toInt32 a in
  let b := toInt32 b in
  let count := Z.land (u32 b) 31 in
  of_int
    (match op with
     | BitAnd => Z.land a b
     | BitOr => Z.lor a b
     | BitXor => Z.lxor a b
     | Shl => s32 (u32 (Z.shiftl (u32 a) count))
     | Shr => Z.shiftr a count
     | _ => Z.shiftr (u32 a) count
     end).

Definition arith (op : BigIntOp) : Value -> Value -> Eff W Value := numeric_binary op (arith_number op).
Definition bitwise (op : BigIntOp) : Value -> Value -> Eff W Value := numeric_binary op (bitwise_number op).

Definition bronze_dynamic_neg (v : Value) : Eff W Value :=
  do n <- toNumeric v; ret (match rtBigIntNegate n with Some out => out | None => VNumber (dneg (asDouble n)) end).

Definition bronze_dynamic_bitnot (v : Value) : Eff W Value :=
  do n <- toNumeric v; ret (match rtBigIntBitNot n with Some out => out | None => VNumber (of_int (Z.lnot (toInt32 (asDouble n)))) end).

Definition bronze_numeric_step (v : Value) (increment : bool) : Eff W Value :=
  match rtBigIntBinary (if increment then Add else Sub) v (VBigInt (fromInt64 1)), isBigInt v with
  | Some m, true => m
  | _, _ => ret (VNumber (dadd (asDouble v) (of_int (if increment then 1 else -1))))
  end.

Definition bronze_bigint_literal (text : list Z) : Eff W Value := match rtStringToBigInt text with Some b => ret (VBigInt b) | None => fatal end.

Definition bronze_unbox_i32 (v : Value) : Z :=
  match v with VInt32 z => z | VNumber d => toInt32 d | VBool b => if b then 1 else 0 | _ => 0 end.

Definition bronze_to_int32 (v : Value) : Eff W Z := do n <- rtToNumber v; ret (toInt32 n).

(** ** Addition *)

Definition bronze_string_concat (a b : Value) : Eff W Value :=
  do s <- valueToString to_chars a; do t <- valueToString to_chars b; ret (VString (s ++ t)).

Definition rtAddNonStringTail (a b : Value) : Eff W Value :=
  if isSymbol a || isSymbol b then throw (TypeError (bytes "Cannot convert a Symbol value to a number"))
  else
    match rtBigIntBinary Add a b with
    | Some m => m
    | None => do x <- rtToNumber a; do y <- rtToNumber b; ret (VNumber (dadd x y))
    end.

Definition bronze_dynamic_add (a b : Value) : Eff W Value :=
  if isNumeric a && isNumeric b then ret (VNumber (dadd (asDouble a) (asDouble b)))
  else if isString a && isString b then bronze_string_concat a b
  else
    do a <- rtToPrimitive a HintDefault;
    do b <- rtToPrimitive b HintDefault;
    if isString a || isString b then bronze_string_concat a b else rtAddNonStringTail a b.

(** ** Truth, [typeof] and strict equality *)

Definition bronze_truthy (v : Value) : bool :=
  match v with
  | VUndefined | VNull | VHole => false
  | VBool b => b
  | VNumber d => negb (deq d (of_int 0)) && negb (isnan d)
  | VInt32 z => negb (z =? 0)
  | VString s => (0 <? length s)%nat
  | VBigInt b => negb (BigNumOps.isZero b)
  | VSymbol _ | VObject _ => true
  end.

Definition bronze_is_nullish (v : Value) : bool := match v with VNull | VUndefined | VHole => true | _ => false end.

Definition bronze_typeof (v : Value) : list Z :=
  match v with
  | VNull => bytes "object"
  | VUndefined | VHole => bytes "undefined"
  | VBool _ => bytes "boolean"
  | VNumber _ | VInt32 _ => bytes "number"
  | VString _ => bytes "string"
  | VSymbol _ => bytes "symbol"
  | VBigInt _ => bytes "bigint"
  | VObject _ => if isCallable v then bytes "function" else bytes "object"
  end.

Definition bronze_strict_eq (a b : Value) : bool :=
  match a, b with
  | VNumber x, VNumber y => deq x y
  | VString s, VString t => bool_decide (s = t)
  | VBigInt x, VBigInt y => compare x y =? 0
  | _, _ => bool_decide (a = b)
  end.

(** ** Loose equality *)

Definition asString (v : Value) : list Z := match v with VString s => s | _ => [] end.
Definition asBigInt (v : Value) : BigNum := match v with VBigInt b => b | _ => zero end.
Definition asBool (v : Value) : bool := match v with VBool b => b | _ => false end.
Definition isBool (v : Value) : bool := match v with VBool _ => true | _ => false end.

(** What a pass does: it answers, or it leaves the operands of the next. *)
Inductive Pass := Answer (r : bool) | Again (a b : Value).

Definition bool_number (v : Value) : Value := VNumber (of_int (if asBool v then 1 else 0)).

Definition loose_pass (a b : Value) : Eff W Pass :=
  let aNum := isNumeric a in
  let bNum := isNumeric b in
  if bronze_is_nullish a || bronze_is_nullish b then ret (Answer (bronze_is_nullish a && bronze_is_nullish b))
  else if aNum && bNum then do x <- rtToNumber a; do y <- rtToNumber b; ret (Answer (deq x y))
  else if isString a && isString b then ret (Answer (bool_decide (asString a = asString b)))
  else if isBool a && isBool b then ret (Answer (Bool.eqb (asBool a) (asBool b)))
  else if isObject a && isObject b then ret (Answer (bool_decide (a = b)))
  else if isBigInt a && isBigInt b then ret (Answer (compare (asBigInt a) (asBigInt b) =? 0))
  else if (isBigInt a && isString b) || (isString a && isBigInt b) then
    let bigVal := if isBigInt a then a else b in
    let strVal := if isBigInt a then b else a in
    ret (Answer (match rtStringToBigInt (rtAsciiChars (asString strVal)) with Some parsed => compare (asBigInt bigVal) parsed =? 0 | None => false end))
  else if (isSymbol a || isSymbol b) && negb (isObject a) && negb (isObject b) then ret (Answer (bool_decide (a = b)))
  else if isBool a then ret (Again (bool_number a) b)
  else if isBool b then ret (Again a (bool_number b))
  else if (aNum && isString b) || (isString a && bNum) then do x <- rtToNumber a; do y <- rtToNumber b; ret (Answer (deq x y))
  else if (isBigInt a && bNum) || (aNum && isBigInt b) then
    let bigVal := if isBigInt a then a else b in
    let numVal := if isBigInt a then b else a in
    do n <- rtToNumber numVal; ret (Answer (compareWithDouble (asBigInt bigVal) n =? 0))
  else if isObject b then do p <- rtToPrimitive b HintDefault; ret (Again a p)
  else if isObject a then do p <- rtToPrimitive a HintDefault; ret (Again p b)
  else ret (Answer false).

Fixpoint loose_passes (n : nat) (a b : Value) : Eff W bool :=
  match n with
  | O => fatal
  | S n => do r <- loose_pass a b; match r with Answer r => ret r | Again a b => loose_passes n a b end
  end.

Definition looseEq (a b : Value) : Eff W bool := loose_passes 8 a b.

(** ** IsLessThan *)

Inductive LessThan := LTrue | LFalse | LUndefined.

Fixpoint lessThan (s t : list Z) : bool :=
  match s, t with
  | a :: s, b :: t => if negb (a =? b) then a <? b else lessThan s t
  | [], _ :: _ => true
  | _, [] => false
  end.

Definition less (b : bool) : LessThan := if b then LTrue else LFalse.

Definition less_numbers (nx ny : double) : LessThan := if isnan nx || isnan ny then LUndefined else less (dlt nx ny).

(** The answer of [compareWithDouble] as that of IsLessThan. *)
Definition mixed_order (order : Z) : LessThan := if (order =? kUnordered) || (order =? - kUnordered) then LUndefined else less (order <? 0).

(** The operands after ToPrimitive. *)
Definition less_primitives (px py : Value) : Eff W LessThan :=
  if isString px && isString py then ret (less (lessThan (asString px) (asString py)))
  else if isBigInt px && isString py then
    ret (match rtStringToBigInt (rtAsciiChars (asString py)) with None => LUndefined | Some rhs => less (compare (asBigInt px) rhs <? 0) end)
  else if isString px && isBigInt py then
    ret (match rtStringToBigInt (rtAsciiChars (asString px)) with None => LUndefined | Some lhs => less (compare lhs (asBigInt py) <? 0) end)
  else if isBigInt px && isBigInt py then ret (less (compare (asBigInt px) (asBigInt py) <? 0))
  else if isBigInt px || isBigInt py then
    let leftIsBig := isBigInt px in
    do other <- rtToNumber (if leftIsBig then py else px);
    ret (mixed_order (if leftIsBig then compareWithDouble (asBigInt px) other else - compareWithDouble (asBigInt py) other))
  else do nx <- rtToNumber px; do ny <- rtToNumber py; ret (less_numbers nx ny).

Definition is_number (v : Value) : bool := match v with VNumber _ => true | _ => false end.

Definition isLessThan (x y : Value) (leftFirst : bool) : Eff W LessThan :=
  if is_number x && is_number y then ret (less_numbers (asDouble x) (asDouble y))
  else if leftFirst
  then do px <- rtToPrimitive x HintNumber; do py <- rtToPrimitive y HintNumber; less_primitives px py
  else do py <- rtToPrimitive y HintNumber; do px <- rtToPrimitive x HintNumber; less_primitives px py.

(** The operands that compare without the general path. *)
Definition plainRelNumber (v : Value) : option double :=
  match v with
  | VNumber d => Some d
  | VUndefined => Some dnan
  | VNull => Some (of_int 0)
  | VBool b => Some (of_int (if b then 1 else 0))
  | _ => None
  end.

Definition isLTrue (r : LessThan) : bool := match r with LTrue => true | _ => false end.
Definition isLFalse (r : LessThan) : bool := match r with LFalse => true | _ => false end.

(** An operator: its comparison of two numbers, or its reading of IsLessThan. *)
Definition relational (plain : double -> double -> bool) (general : Value -> Value -> Eff W bool) (a b : Value) : Eff W bool :=
  match plainRelNumber a, plainRelNumber b with Some na, Some nb => ret (plain na nb) | _, _ => general a b end.

Definition bronze_rel_lt := relational dlt (fun a b => do r <- isLessThan a b true; ret (isLTrue r)).
Definition bronze_rel_gt := relational (fun x y => dlt y x) (fun a b => do r <- isLessThan b a false; ret (isLTrue r)).
Definition bronze_rel_le := relational dle (fun a b => do r <- isLessThan b a false; ret (isLFalse r)).
Definition bronze_rel_ge := relational (fun x y => dle y x) (fun a b => do r <- isLessThan a b true; ret (isLFalse r)).

Definition bronze_loose_eq (a b : Value) : Eff W bool := looseEq a b.
End Operators.

(** ** Doubles as the quotients they are *)

(** A finite double of the format. *)
Definition real (x : double) : Prop := isfinite x = true /\ valid_binary prec emax x = true.

Lemma den_pos x : 0 < den x.
Proof. destruct x; cbn [den]; try done. apply Z.pow_pos_nonneg; lia. Qed.

Lemma valid_top s m e : valid_binary prec emax (S754_finite s m e) = true -> -1074 < e -> 2 ^ 52 <= Zpos m.
Proof.
  cbn. unfold bounded, canonical_mantissa. intros [H1%Zeq_bool_eq _]%andb_prop He. unfold fexp, emin, prec, emax in *. pose proof (digits2_spec m) as [Hm _].
  replace (Zpos (digits2_pos m) - 1) with 52 in Hm by lia. exact Hm.
Qed.

Lemma exponent_order m n e f : valid_binary prec emax (S754_finite false m e) = true -> valid_binary prec emax (S754_finite false n f) = true -> e < f ->
  Zpos m * 2 ^ Z.max e 0 * 2 ^ Z.max (- f) 0 < Zpos n * 2 ^ Z.max f 0 * 2 ^ Z.max (- e) 0.
Proof.
  intros Hm Hn Hef. destruct (valid_bounds _ _ _ Hm) as [Hmb He]. pose proof (valid_top _ _ _ Hn ltac:(lia)) as Hnb. rewrite <- !Z.mul_assoc, <- !Z.pow_add_r by lia.
  set (a := Z.max e 0 + Z.max (- f) 0). set (b := Z.max f 0 + Z.max (- e) 0). assert (Hab : b = a + (f - e)) by lia. assert (0 <= a) by lia.
  assert (H2 : 2 ^ a * 2 <= 2 ^ b) by (rewrite Hab, Z.pow_add_r by lia; apply Z.mul_le_mono_nonneg_l; [lia|]; change 2 with (2 ^ 1) at 1; apply Z.pow_le_mono_r; lia).
  assert (0 < 2 ^ a) by (apply Z.pow_pos_nonneg; lia). nia.
Qed.

Lemma positive_order m n e f : valid_binary prec emax (S754_finite false m e) = true -> valid_binary prec emax (S754_finite false n f) = true ->
  (match (e ?= f)%Z with Lt => Lt | Gt => Gt | Eq => (m ?= n)%positive end) = (Zpos m * 2 ^ Z.max e 0 * 2 ^ Z.max (- f) 0 ?= Zpos n * 2 ^ Z.max f 0 * 2 ^ Z.max (- e) 0).
Proof.
  intros Hm Hn. destruct (Z.compare_spec e f) as [->|H|H].
  - assert (Hp : 0 < 2 ^ Z.max f 0 * 2 ^ Z.max (- f) 0) by (apply Z.mul_pos_pos; apply Z.pow_pos_nonneg; lia). rewrite <- !Z.mul_assoc.
    rewrite <- (Zmult_compare_compat_r (Zpos m) (Zpos n) _ (Z.lt_gt _ _ Hp)). done.
  - symmetry. apply Z.compare_lt_iff. by apply exponent_order.
  - symmetry. apply Z.compare_gt_iff. by apply exponent_order.
Qed.

(** The comparison of doubles is that of the quotients. *)
Lemma compare_real x y : real x -> real y -> SFcompare x y = Some (num x * den y ?= num y * den x).
Proof.
  intros [Fx Vx] [Fy Vy]. destruct x as [s|s| |s m e]; try done; destruct y as [t|t| |t n f]; try done.
  - cbn [num den SFcompare]. pose proof (max_pow 2 f ltac:(lia)). destruct t; cbn [signed]; symmetry; f_equal; [apply Z.compare_gt_iff|apply Z.compare_lt_iff]; nia.
  - cbn [num den SFcompare]. pose proof (max_pow 2 e ltac:(lia)). destruct s; cbn [signed]; symmetry; f_equal; [apply Z.compare_lt_iff|apply Z.compare_gt_iff]; nia.
  - pose proof (positive_order m n e f Vx Vy) as Ho. cbn [num den].
    assert (Hneg : forall a b, - a * b = - (a * b)) by (intros; lia).
    destruct s, t; cbn [signed SFcompare].
    + rewrite !Z.mul_opp_l, Z.compare_opp. rewrite (Z.compare_antisym (Zpos m * _ * _)), <- Ho. change (Pos.compare_cont Eq m n) with (m ?= n)%positive. by destruct (e ?= f).
    + symmetry. f_equal. apply Z.compare_lt_iff. assert (0 < 2 ^ Z.max e 0 * 2 ^ Z.max (- f) 0) by (apply Z.mul_pos_pos; apply Z.pow_pos_nonneg; lia). assert (0 < 2 ^ Z.max f 0 * 2 ^ Z.max (- e) 0) by (apply Z.mul_pos_pos; apply Z.pow_pos_nonneg; lia). nia.
    + symmetry. f_equal. apply Z.compare_gt_iff. assert (0 < 2 ^ Z.max e 0 * 2 ^ Z.max (- f) 0) by (apply Z.mul_pos_pos; apply Z.pow_pos_nonneg; lia). assert (0 < 2 ^ Z.max f 0 * 2 ^ Z.max (- e) 0) by (apply Z.mul_pos_pos; apply Z.pow_pos_nonneg; lia). nia.
    + rewrite <- Ho. change (Pos.compare_cont Eq m n) with (m ?= n)%positive. by destruct (e ?= f).
Qed.

Lemma dlt_real x y : real x -> real y -> dlt x y = (num x * den y <? num y * den x).
Proof. intros Hx Hy. unfold dlt, SFltb. rewrite compare_real by done. by unfold Z.ltb. Qed.

Lemma isint_real x z : isint x z -> real x.
Proof.
  intros Hx. split; [by apply (isint_finite x z)|]. destruct (isint_inv x z Hx) as [(_ & s & ->)|(s & p & k & -> & _ & Hk & Hp)]; [done|]. by apply normal_valid.
Qed.

Lemma real_not_nan x : real x -> isnan x = false.
Proof. intros [Hf _]. by destruct x. Qed.

(** ** ToInt32 *)

(** The integer a finite double truncates to. *)
Definition truncated (x : double) : Z := match x with S754_finite s m e => (if s then -1 else 1) * whole_part (Zpos m) e | _ => 0 end.

Lemma s32_mod a b : (a - b) mod 2 ^ 32 = 0 -> s32 a = s32 b.
Proof. intros H. unfold s32, u32. replace (a mod 2 ^ 32) with (b mod 2 ^ 32); [done|]. rewrite <- (Z.sub_add b a), Z.add_comm, Zplus_mod, H, Z.add_0_r, Z.mod_mod by lia. done. Qed.

Lemma s32_range z : - 2 ^ 31 <= s32 z < 2 ^ 31.
Proof. unfold s32. pose proof (u32_range z) as [? ?]. destruct (Z.ltb_spec (u32 z) (2 ^ 31)); lia. Qed.

Lemma two_32 : of_int 4294967296 = S754_finite false 4503599627370496 (-20).
Proof. vm_compute. reflexivity. Qed.

(** The remainder by 2^32 of a double that is an integer. *)
Lemma residue_isint s m e : 0 <= e -> Zpos m < 2 ^ 53 -> isint (dfmod (S754_finite s m e) (of_int 4294967296)) (if s then - ((Zpos m * 2 ^ e) mod 2 ^ 32) else (Zpos m * 2 ^ e) mod 2 ^ 32).
Proof.
  intros He Hm. rewrite two_32. unfold dfmod. rewrite (Z.min_r e) by lia. replace (-20 - -20) with 0 by lia. rewrite Z.pow_0_r, Z.mul_1_r.
  replace (e - -20) with (e + 20) by lia. rewrite Z.pow_add_r, Z.mul_assoc by lia. change 4503599627370496 with (2 ^ 32 * 2 ^ 20). rewrite Z.mul_mod_distr_r by lia.
  pose proof (Z.mod_pos_bound (Zpos m * 2 ^ e) (2 ^ 32) ltac:(lia)) as Hr. set (r := (Zpos m * 2 ^ e) mod 2 ^ 32) in *.
  replace (if s then - (r * 2 ^ 20) else r * 2 ^ 20) with ((if s then - r else r) * 2 ^ 20) by (destruct s; lia). change (-20) with (- 20). apply normalize_isint; [destruct s; lia|lia].
Qed.

(** C19: ToInt32 of any double is the integer it truncates to, modulo 2^32, in the range of the
    signed integers of 32 bits; of a NaN and the infinities it is 0. *)
Theorem to_int32_exact x : valid_binary prec emax x = true -> toInt32 x = s32 (truncated x) /\ - 2 ^ 31 <= toInt32 x < 2 ^ 31.
Proof.
  intros Hx. cut (toInt32 x = s32 (truncated x)); [intros ->; split; [done|apply s32_range]|]. destruct x as [s|s| |s m e]; [by destruct s|done|done|].
  unfold toInt32. cbn [isfinite negb orb]. assert (Hz : deq (S754_finite s m e) (of_int 0) = false) by (by destruct s). rewrite Hz. clear Hz.
  destruct (valid_bounds _ _ _ Hx) as [Hm He]. cbn [truncated]. set (v := (if s then -1 else 1) * whole_part (Zpos m) e).
  assert (Hres : exists r, isint (dfmod (dtrunc (S754_finite s m e)) (of_int 4294967296)) r /\ (r - v) mod 2 ^ 32 = 0 /\ Z.abs r < 2 ^ 32).
  { unfold v, whole_part. cbn [dtrunc]. destruct (Z.leb_spec 0 e) as [He0|He0].
    - pose proof (residue_isint s m e He0 Hm) as Hi. pose proof (Z.mod_pos_bound (Zpos m * 2 ^ e) (2 ^ 32) ltac:(lia)) as Hr. pose proof (Z.div_mod (Zpos m * 2 ^ e) (2 ^ 32) ltac:(lia)) as Hd.
      eexists. split; [exact Hi|]. split; [|destruct s; lia]. set (r := (Zpos m * 2 ^ e) mod 2 ^ 32) in *. set (q := Zpos m * 2 ^ e / 2 ^ 32) in *.
      apply Z.mod_divide; [lia|]. destruct s; [exists q|exists (- q)]; lia.
    - pose proof (Z.pow_pos_nonneg 2 (- e) ltac:(lia) ltac:(lia)) as Hp. assert (Hw : 0 <= Zpos m / 2 ^ (- e) < 2 ^ 53) by (split; [apply Z.div_pos; lia|]; apply Z.div_lt_upper_bound; nia).
      set (w := Zpos m / 2 ^ (- e)) in *. assert (Eq : Z.quot (if s then - Zpos m else Zpos m) (2 ^ (- e)) = (if s then -1 else 1) * w) by (destruct s; rewrite ?Z.quot_opp_l, Z.quot_div_nonneg by lia; fold w; lia).
      rewrite Eq. set (z := (if s then -1 else 1) * w). exists (Z.rem z 4294967296). split; [|split].
      + apply isint_fmod; [apply signed_isint; unfold z; destruct s; lia|apply of_int_isint; lia|lia].
      + pose proof (Z.quot_rem z 4294967296 ltac:(lia)) as Hq. apply Z.mod_divide; [lia|]. exists (- (z ÷ 4294967296)). lia.
      + pose proof (Z.rem_bound_abs z 4294967296 ltac:(lia)). lia. }
  destruct Hres as (r & Hi & Hmod & Hr). set (residue := dfmod _ _) in *. rewrite (isint_lt _ _ _ _ Hi (of_int_isint 0 ltac:(lia))).
  assert (Hint : exists z, isint (if r <? 0 then dadd residue (of_int 4294967296) else residue) z /\ (z - v) mod 2 ^ 32 = 0).
  { destruct (Z.ltb_spec r 0); [exists (r + 4294967296)|exists r; done]. split; [apply isint_add; [done|apply of_int_isint; lia|lia]|].
    replace (r + 4294967296 - v) with (r - v + 1 * 2 ^ 32) by lia. by rewrite Z_mod_plus_full. }
  destruct Hint as (z & Hiz & Hzm). rewrite (isint_to_int _ _ Hiz). rewrite <- (s32_mod z v Hzm). apply s32_mod. unfold u32.
  rewrite Zminus_mod, Z.mod_mod, <- Zminus_mod, Z.sub_diag by lia. done.
Qed.

(** ** The fast paths of the relational operators *)

Lemma compare_swap x y : SFcompare y x = match SFcompare x y with Some c => Some (CompOpp c) | None => None end.
Proof.
  destruct x as [s|s| |s m e], y as [t|t| |t n f]; try (by destruct s); try (by destruct t); try (by destruct s, t); try done.
  cbn [SFcompare]. rewrite (Z.compare_antisym e f). change (Pos.compare_cont Eq n m) with (n ?= m)%positive. change (Pos.compare_cont Eq m n) with (m ?= n)%positive. rewrite (Pos.compare_antisym m n).
  destruct s, t; cbn; try done; destruct (e ?= f); cbn; try done; by destruct (m ?= n)%positive.
Qed.

Lemma less_numbers_true x y : isLTrue (less_numbers x y) = dlt x y.
Proof.
  unfold less_numbers. destruct (isnan x) eqn:Ex; [by destruct x|]. destruct (isnan y) eqn:Ey; [destruct y; try done; by destruct x as [[]|[]| |[]]|]. cbn [orb]. by destruct (dlt x y).
Qed.

Lemma less_numbers_false x y : isLFalse (less_numbers x y) = dle y x.
Proof.
  unfold less_numbers, dle, dlt, SFleb, SFltb. rewrite (compare_swap x y).
  destruct (isnan x) eqn:Ex; [by destruct x; cbn; destruct y as [[]|[]| |[]]|]. destruct (isnan y) eqn:Ey; [by destruct y; cbn; destruct x as [[]|[]| |[]]|]. cbn [orb].
  assert (Hc : exists c, SFcompare x y = Some c).
  { destruct x as [s|s| |s m e], y as [t|t| |t n f]; try done; cbn [SFcompare]; try destruct s; try destruct t; try (destruct (e ?= f)); eauto. }
  destruct Hc as [c ->]. by destruct c.
Qed.

(** The operators <, >, <= and >= compare two numbers, undefineds, nulls or booleans
    without the general path, and answer what that would. *)
Theorem relational_fast_paths {W} `{Runtime W} a b na nb w : plainRelNumber a = Some na -> plainRelNumber b = Some nb ->
  (do r <- isLessThan a b true; ret (isLTrue r)) w = bronze_rel_lt a b w /\ (do r <- isLessThan b a false; ret (isLTrue r)) w = bronze_rel_gt a b w /\
  (do r <- isLessThan b a false; ret (isLFalse r)) w = bronze_rel_le a b w /\ (do r <- isLessThan a b true; ret (isLFalse r)) w = bronze_rel_ge a b w.
Proof.
  assert (Hless : forall x y nx ny left, plainRelNumber x = Some nx -> plainRelNumber y = Some ny -> isLessThan x y left w = (w, Ok (less_numbers nx ny))).
  { intros x y nx ny left Hx Hy. unfold isLessThan. destruct x; try done; destruct y; try done; injection Hx as <-; injection Hy as <-; by destruct left. }
  intros Ha Hb. unfold bronze_rel_lt, bronze_rel_gt, bronze_rel_le, bronze_rel_ge, relational. rewrite Ha, Hb. unfold bind.
  rewrite (Hless a b na nb true Ha Hb), (Hless b a nb na false Hb Ha). unfold ret. by rewrite !less_numbers_true, !less_numbers_false.
Qed.

(** ** Loose equality *)

(** What is left to convert of an operand. *)
Definition unconverted (v : Value) : nat := match v with VObject _ => 2 | VBool _ => 1 | _ => 0 end.

Section Loose.

Context {W : Type} `{Runtime W}.

(** A pass that asks for another has less left to convert; one that stops short ran a
    ToPrimitive that did. *)
Definition pass_spec (a b : Value) (r : W * Outcome Pass) : Prop :=
  match r with
  | (_, Ok (Again a' b')) => (unconverted a' + unconverted b' < unconverted a + unconverted b)%nat
  | (w', Fatal) => exists v w1, isObject v = true /\ rtToPrimitive v HintDefault w1 = (w', Fatal)
  | _ => True
  end.

Lemma convert_pass (a b v : Value) (k : Value -> Pass) w : isObject v = true ->
  (forall p, isObject p = false -> match k p with Again a' b' => (unconverted a' + unconverted b' < unconverted a + unconverted b)%nat | _ => True end) ->
  pass_spec a b (bind (rtToPrimitive v HintDefault) (fun p => ret (k p)) w).
Proof.
  intros Hv Hk. unfold bind. destruct (rtToPrimitive v HintDefault w) as [w' [p|t|]] eqn:E; cbn; [|done|by exists v, w].
  specialize (Hk p (toPrimitive_primitive v HintDefault w w' p E)). by destruct (k p).
Qed.

Lemma loose_pass_spec a b w : pass_spec a b (loose_pass a b w).
Proof.
  destruct a, b; try exact I; try (cbn; lia);
    try (apply (convert_pass _ _ _ (fun p => Again _ p)); [done|]; intros p Hp; destruct p; cbn in *; lia || done);
    try (apply (convert_pass _ _ _ (fun p => Again p _)); [done|]; intros p Hp; destruct p; cbn in *; lia || done).
Qed.

Lemma loose_passes_fatal n a b w w' : (unconverted a + unconverted b < n)%nat -> loose_passes n a b w = (w', Fatal) ->
  exists v w1, isObject v = true /\ rtToPrimitive v HintDefault w1 = (w', Fatal).
Proof.
  revert a b w. induction n as [|n IH]; intros a b w Hn E; [lia|]. cbn [loose_passes] in E. pose proof (loose_pass_spec a b w) as Hp.
  apply bind_fatal in E as [E|(w1 & r & E & Er)]; rewrite E in Hp; [done|]. destruct r as [r|a' b']; [done|]. cbn in Hp. apply (IH a' b' w1); [lia|done].
Qed.
End Loose.

Lemma deq_self x : isnan x = false -> deq x x = true.
Proof. destruct x as [[]|[]| |[] m e]; try done; intros _; unfold deq, SFeqb; cbn; rewrite Z.compare_refl; change (Pos.compare_cont Eq m m) with (m ?= m)%positive; by rewrite Pos.compare_refl. Qed.

(** An Int32 of 32 bits. *)
Definition int32_value (v : Value) : Prop := match v with VInt32 z => - 2 ^ 31 <= z < 2 ^ 31 | _ => True end.

(** C18: loose equality reaches an answer or a throw within its eight passes, whatever user code
    it runs, unless that code itself does not end: every pass leaves less to convert.  And
    operands that are strictly equal are loosely equal, with no user code run. *)
Theorem loose_equality {W} `{Runtime W} a b w :
  (forall w', looseEq a b w = (w', Fatal) -> exists v w1, isObject v = true /\ rtToPrimitive v HintDefault w1 = (w', Fatal)) /\
  (int32_value a -> bronze_strict_eq a b = true -> looseEq a b w = (w, Ok true)).
Proof.
  split; [intros w'; apply loose_passes_fatal; destruct a, b; cbn; lia|]. intros Ha Hs. unfold looseEq.
  assert (Hone : loose_pass a b w = (w, Ok (Answer true)) -> loose_passes 8 a b w = (w, Ok true)) by (intros E; cbn [loose_passes]; unfold bind; by rewrite E).
  apply Hone. destruct a, b; cbn [bronze_strict_eq] in Hs; try (by apply bool_decide_eq_true in Hs); try done; cbv [loose_pass ret]; cbn.
  all: try (by rewrite Hs). all: apply bool_decide_eq_true in Hs; try injection Hs as <-; unfold bind, ret; cbn.
  - rewrite deq_self; [done|]. apply (isint_not_nan _ z), of_int_isint. cbn in Ha. lia.
  - by rewrite Bool.eqb_reflx.
Qed.

(** ** Order *)

(** The rational numbers that values hold, as a numerator and a denominator. *)
Inductive holds : Value -> Z -> Z -> Prop :=
| holds_number x : real x -> holds (VNumber x) (num x) (den x)
| holds_int32 z : - 2 ^ 31 <= z < 2 ^ 31 -> holds (VInt32 z) z 1
| holds_bigint b : wf b -> holds (VBigInt b) (val b) 1.

Lemma isint_quotient x z : isint x z -> num x = z * den x.
Proof.
  intros Hx. destruct (isint_inv x z Hx) as [(-> & s & ->)|(s & p & k & -> & Es & Hk & _)]; [done|]. cbn [num den]. rewrite Z.opp_involutive, (Z.max_l k), (Z.max_r (- k)) by lia.
  rewrite Es. lia.
Qed.

(** A Number operand: its double is the quotient it holds. *)
Lemma holds_double v n d : holds v n d -> isBigInt v = false -> 0 < d /\ real (asDouble v) /\ num (asDouble v) * d = n * den (asDouble v).
Proof.
  intros [x Hx|z Hz|b Hb] Hv; [|split; [lia|]|done].
  - cbn [asDouble]. split; [apply den_pos|]. split; [done|lia].
  - cbn [asDouble]. assert (Hi : isint (of_int z) z) by (apply of_int_isint; lia). split; [by apply (isint_real _ z)|]. rewrite (isint_quotient _ z Hi). lia.
Qed.

Lemma holds_big v n d : holds v n d -> isBigInt v = true -> exists b, v = VBigInt b /\ wf b /\ val b = n /\ d = 1.
Proof. intros [x Hx|z Hz|b Hb] Hv; try done. by exists b. Qed.

Lemma quotient_less n d a b m e : 0 < d -> 0 < e -> 0 < a -> 0 < b -> forall p q, p * d = n * a -> q * e = m * b -> (p * b <? q * a) = (n * e <? m * d).
Proof.
  intros Hd He Ha Hb p q Hp Hq. assert (E1 : (p * b) * (d * e) = (n * e) * (a * b)) by (replace ((p * b) * (d * e)) with ((p * d) * (b * e)) by lia; rewrite Hp; lia).
  assert (E2 : (q * a) * (d * e) = (m * d) * (a * b)) by (replace ((q * a) * (d * e)) with ((q * e) * (a * d)) by lia; rewrite Hq; lia).
  assert (0 < d * e) by nia. assert (0 < a * b) by nia. destruct (Z.ltb_spec (p * b) (q * a)), (Z.ltb_spec (n * e) (m * d)); nia.
Qed.

Lemma numbers_less x y n d m e : holds x n d -> holds y m e -> isBigInt x = false -> isBigInt y = false -> less_numbers (asDouble x) (asDouble y) = less (n * e <? m * d).
Proof.
  intros Hx Hy Bx By. destruct (holds_double x n d Hx Bx) as (Hd & Rx & Ex), (holds_double y m e Hy By) as (He & Ry & Ey).
  unfold less_numbers. rewrite !real_not_nan by done. cbn [orb]. rewrite dlt_real by done. f_equal. apply quotient_less; auto using den_pos.
Qed.

Lemma mixed_less c : mixed_order (order c) = less (match c with Lt => true | _ => false end) /\ mixed_order (- order c) = less (match c with Gt => true | _ => false end).
Proof. by destruct c. Qed.

Lemma mixed_big_less b v m e : wf b -> holds v m e -> isBigInt v = false ->
  mixed_order (compareWithDouble b (asDouble v)) = less (val b * e <? m) /\ mixed_order (- compareWithDouble b (asDouble v)) = less (m <? val b * e).
Proof.
  intros Hb Hv Bv. destruct (holds_double v m e Hv Bv) as (He & [Rf Rv] & Ev). rewrite compare_quotient by done. destruct (mixed_less (val b * den (asDouble v) ?= num (asDouble v))) as [-> ->].
  pose proof (quotient_less (val b) 1 1 (den (asDouble v)) m e ltac:(lia) He ltac:(lia) (den_pos _) (val b) (num (asDouble v)) ltac:(lia) Ev) as H1.
  pose proof (quotient_less m e (den (asDouble v)) 1 (val b) 1 He ltac:(lia) (den_pos _) ltac:(lia) (num (asDouble v)) (val b) Ev ltac:(lia)) as H2.
  rewrite !Z.mul_1_r in *. rewrite <- H1, <- H2. unfold Z.ltb. rewrite (Z.compare_antisym (val b * _) (num _)). by destruct (val b * _ ?= _).
Qed.

(** C17: the abstract comparison of numbers, small integers and BigInts, in any mixture and in
    either order of evaluation, is that of the rational numbers they hold: it is exact, and no
    user code is run. *)
Theorem less_exact {W} `{Runtime W} x y n d m e leftFirst w : holds x n d -> holds y m e ->
  isLessThan x y leftFirst w = (w, Ok (less (n * e <? m * d))).
Proof.
  intros Hx Hy. assert (E : isLessThan x y leftFirst w = less_primitives x y w).
  { unfold isLessThan. destruct Hx, Hy; by destruct leftFirst. }
  rewrite E. destruct (isBigInt x) eqn:Bx, (isBigInt y) eqn:By.
  - destruct (holds_big x n d Hx Bx) as (a & -> & Ha & <- & ->), (holds_big y m e Hy By) as (b & -> & Hb & <- & ->). cbn. rewrite compare_spec by done. unfold ret. do 3 f_equal. rewrite !Z.mul_1_r.
    destruct (Z.ltb_spec (val a) (val b)); [done|]. by destruct (Z.ltb_spec (val b) (val a)).
  - destruct (holds_big x n d Hx Bx) as (a & -> & Ha & <- & ->). destruct (mixed_big_less a y m e Ha Hy By) as [H1 _]. rewrite Z.mul_1_r, <- H1. by destruct Hy.
  - destruct (holds_big y m e Hy By) as (b & -> & Hb & <- & ->). destruct (mixed_big_less b x n d Hb Hx Bx) as [_ H2]. rewrite Z.mul_1_r, <- H2. by destruct Hx.
  - rewrite <- (numbers_less x y n d m e) by done. by destruct Hx, Hy.
Qed.

(** ** Witnesses *)

(** A runtime with no user code. *)
#[local] Instance no_code : Runtime unit := {|
  elem_get _ _ := ret VUndefined; dynamic_call _ _ _ := ret VUndefined; is_function _ := false; symbolToPrimitive := 0;
  regexp_text _ := None; wrapper_primitive _ := None |}.

Lemma to_int32_exact_witness : toInt32 (S754_finite true 4503599627370497 5) = s32 (truncated (S754_finite true 4503599627370497 5)) /\ - 2 ^ 31 <= toInt32 (S754_finite true 4503599627370497 5) < 2 ^ 31.
Proof. apply (to_int32_exact (S754_finite true 4503599627370497 5)). vm_compute. reflexivity. Defined.

Lemma relational_fast_paths_witness :
  (do r <- isLessThan VNull (VBool true) true; ret (isLTrue r)) tt = bronze_rel_lt VNull (VBool true) tt /\ (do r <- isLessThan (VBool true) VNull false; ret (isLTrue r)) tt = bronze_rel_gt VNull (VBool true) tt /\
  (do r <- isLessThan (VBool true) VNull false; ret (isLFalse r)) tt = bronze_rel_le VNull (VBool true) tt /\ (do r <- isLessThan VNull (VBool true) true; ret (isLFalse r)) tt = bronze_rel_ge VNull (VBool true) tt.
Proof. apply (relational_fast_paths VNull (VBool true) (of_int 0) (of_int 1)); reflexivity. Defined.

(** 2^53 + 1 is above the double 2^53. *)
Lemma less_exact_witness : isLessThan (VNumber (S754_finite false 4503599627370496 1)) (VBigInt (fromUint64 9007199254740993)) true tt = (tt, Ok (less (num (S754_finite false 4503599627370496 1) * 1 <? val (fromUint64 9007199254740993) * den (S754_finite false 4503599627370496 1)))).
Proof. apply (less_exact (VNumber (S754_finite false 4503599627370496 1)) (VBigInt (fromUint64 9007199254740993))); [apply holds_number; split; vm_compute; reflexivity|apply holds_bigint, fromUint64_spec; lia]. Defined.
